(* ===== verification/_CoqProject ===== *)
-Q . S2P
Prelude.v
GoIO.v
Msgio.v
Varint.v
Aes.v
GoStrings.v
GoPath.v
ConfigTypes.v
ConfigMap.v
GC.v
RepoGC.v
Datastores.v
FsRepo.v
BoxService.v
P2P.v
Peering.v
Fetchers.v
Migrations.v
OnlyOne.v
RmBlocks.v
LazySeek.v
Hostname.v
Etag.v
GwWriter.v
Gateway.v
GatewaySafety.v
GatewayCache.v
GatewayReplies.v
PluginLoader.v
Keys.v
Bootstrap.v
RoutingConfig.v
Delegated.v
DelegatedSpec.v
ConfigCmd.v
Refs.v
BootstrapCmd.v
Profiles.v
PinMFS.v
PinAPI.v
TarFormat.v
Rcmgr.v
Adder.v
UnixfsAPI.v
Cat.v
ReqLog.v
Files.v
KeyCmds.v
CoreAPI.v
RemotePin.v
Swarm.v
P2PCmds.v
HttpApi.v
NodeLibp2p.v
InitCmd.v
Daemon.v
MainCmd.v
DagCmds.v
RepoCmd.v
AddCmd.v
CidCmd.v
GetCmd.v
RoutingCmd.v
NodeLife.v
IpfsFetcher.v
LsCmd.v
FuseIpns.v
PeerLog.v
ObjectCmds.v
PubSub.v
FilestoreCmd.v
NameCmds.v
BlockCmds.v
NodeCmds.v
ApiOptions.v
FuseReadonly.v
P2pOpts.v
NodeRouting.v
NodeGroups.v
NodeParts.v
