(* ===== verification/Prelude.v ===== *)
(** * A verification development for debox

    debox is a fork of the Kubo (go-ipfs) node with a "box" service for friend
    requests between nodes.  This library models its core in Gallina, function by
    function, and proves what makes each part correct.  Names follow the source;
    file names below are relative to [src/].

    ** Parts of the program and where they are modelled

    Framing of messages on streams.  [GoIO] is the transport: a reader delivers
    its bytes in arbitrary pieces with arbitrary errors, a writer may run out of
    room, pools hand out recycled buffers.  [Msgio] is [core/box/msgio/msgio.go],
    [num.go] and [limit.go]; [Varint] is [varint.go] and [protoio/].
    The theorems: what is written is read back under every fragmentation, reads
    resume after errors, oversized messages are refused repeatably, and no bytes
    make a reader panic.

    The box service.  [Aes] is [core/box/service/aes.go] over an abstract block
    cipher; [BoxService] is [user.go], [websocket.go], [relay.go], [req_resp.go],
    [config.go] of the same directory with [core/box/ds/user.go].  A [node] has
    connections, the map from users to connections, the table of users and a flag
    that its process has ended; two nodes make a [world]; runs are the relation
    [step].  The theorems: requests reach users of other boxes exactly once,
    success replies across boxes are true, which requests can end the process,
    the user table is an upsert, encryption round-trips.

    Configuration.  [ConfigTypes] is [config/types.go]; [ConfigMap] is
    [repo/common/common.go], on JSON values whose objects are association lists;
    [RoutingConfig] is [config/routing.go]; [Profiles] is [config/profile.go] and
    [config/init.go].  The theorems: values survive their encodings, merging and
    setting keep every other key, decoded routers have the parameters of their
    type, profiles are idempotent and undo each other where they should.

    The repository.  [GoStrings] and [GoPath] are the parts of Go's libraries it
    uses.  [Datastores] is [repo/fsrepo/datastores.go] with the parsers of the
    datastore plugins; [FsRepo] is [repo/fsrepo/fsrepo.go] with
    [config/config.go], [config/serialize/serialize.go], [thirdparty/dir/dir.go]
    and [migrations/ipfsdir.go], in a state and error monad over a [disk] of files,
    locks, open datastores and a list of faults that says which system calls fail.
    [Fetchers] and [Migrations] are [repo/fsrepo/migrations/] (the runner, the
    fetchers, versions, download and unpacking) over the same disk with a log of
    the programs that were run.  [OnlyOne] is [repo/onlyone.go].  The theorems:
    opening and closing keep the lock and the datastores right whatever fails, an
    initialized repository opens with the configuration given, setting a key keeps
    the private key and, in the new file, every key apart from it, API addresses are
    published atomically,
    migrations run in order and reach their target, repositories are shared by
    exact reference counts.

    Garbage collection.  [GC] is [gc/gc.go]: marking and sweeping over a class of
    DAG walks that covers every schedule of [dag.Walk].  [RepoGC] is
    [core/corerepo/gc.go], which decides when to collect, and calls [GC].
    [RmBlocks] is [blocks/blockstoreutil/remove.go] on the same blockstore.  The
    theorems: no protected block is ever deleted, a clean collection is exact, pins
    that cannot be listed and links that cannot be fetched abort it before anything
    is deleted, thresholds are what the configuration says.

    Networking services.  [P2P] is [p2p/]: the registries of streams and
    listeners.  [Peering] is [peering/peering.go]: the service, its handlers,
    timers and goroutines as a step relation.  [Bootstrap] is [core/bootstrap]: the
    rounds, and [Bootstrap] with its worker as a step relation.  [Rcmgr] is
    [core/node/libp2p/rcmgr.go] and [rcmgr_defaults.go]; [NodeLibp2p] is [addrs.go]
    and the counting of [rcmgr_logging.go] of the same directory, with
    [cmd/ipfs/util/ulimit.go].  [PeerLog] is the plugin [plugin/plugins/peerlog] and
    [thirdparty/notifier].  The theorems: per-peer counts are exact under every
    interleaving, closing is exact and idempotent, the peering invariant, the bounds
    and growth of the back-off, when bootstrapping returns, limits are changed in
    one scope and saved, every exceeded limit is logged once, every event of a peer
    is logged, queued, counted as dropped or about to be.

    The construction of the node, [core/node/].  [NodeGroups] is [groups.go],
    [builder.go] and [provider.go]: which constructors a configuration selects, with
    their signatures; [P2pOpts] is the options of the host in [libp2p/], [NodeRouting]
    [libp2p/routing.go] and [host.go] with the commands that look at the DHT;
    [NodeParts] the constructors with behaviour of their own; [NodeLife] is
    [core/builder.go] and [core/core.go]; [ApiOptions] is [core/coreapi/coreapi.go].
    The theorems: every node that is assembled is wired, and only the private key may
    be missing; a root of the mutable file system is never found without its blocks;
    a node is stopped exactly once under every interleaving of its callers.

    Routing.  [Delegated] is [routing/]: the composed router and the recursive
    factory that builds routers from the configuration; [DelegatedSpec] has its
    specification and theorems: it terminates, and succeeds exactly for the
    configurations that are well-founded and valid, with the routers they describe.

    The HTTP gateway, [core/corehttp/].  [LazySeek] is [lazyseek.go]: it refines a
    cursor over the content.  [Hostname] is [hostname.go] with [config/gateway.go];
    [Etag] the scanner of conditional requests ([GoPath] has the parts of [net/url]);
    [GwWriter] the response as the handlers write it; [Gateway] the handlers
    ([gateway_handler.go] and the files for blocks, CAR, TAR, codecs, files,
    directories, redirects and writes).  [GatewaySafety], [GatewayCache] and
    [GatewayReplies] have the theorems: what is mutable is never sent as immutable,
    an answer's tag makes the next request a 304, redirects to subdomains converge,
    origins are isolated exactly by the root taken from the host.  [HttpApi] is
    [commands.go]: who may call the API, and from which version; and [corehttp.go]:
    the handler made of the options of a server and its life.  Every request for a
    command passes the version check, on both servers.

    The core API and its commands.  [Keys] and [KeyCmds] are [coreapi/key.go] and
    [commands/keystore.go]; [PinAPI] is [coreapi/pin.go] and [commands/pin/pin.go];
    [RemotePin] is [commands/pin/remotepin.go]; [Adder] is [coreunix/add.go];
    [UnixfsAPI] is [coreapi/unixfs.go]; [CoreAPI] has the block, object, DAG, name,
    routing and path APIs; [Swarm] is [coreapi/swarm.go] and [commands/swarm.go];
    [Files], [Cat], [Refs], [ConfigCmd], [BootstrapCmd], [P2PCmds], [AddCmd],
    [GetCmd], [LsCmd], [CidCmd], [DagCmds], [ObjectCmds], [BlockCmds], [RepoCmd],
    [RoutingCmd], [NameCmds], [FilestoreCmd] and [PubSub] are the commands of these
    names, [NodeCmds] has [id] and [ping], and [profile/profile.go]; [TarFormat] is
    [tar/format.go]; [ReqLog] is [commands/reqlog.go].  Each is written over a class for what it calls (the
    pinner, the mutable file system, the resolver), so that its theorems hold for
    all of them: the adder writes blocks only under the pin lock and gives it up with
    the root pinned, puts exactly the tree, and when it only hashes leaves the node
    alone, listings and verifications of pins are exact, configurations are shown
    without their secrets and keep them, what is written to a file is read back,
    rotating the identity loses no key and changes nothing while a daemon runs, a query of the routing system ends and
    puts out what was published, an import keeps the pin lock until its roots are
    pinned.

    The process.  [PluginLoader] is [plugin/loader/loader.go], a state machine over
    the plugins' answers; [InitCmd] is [cmd/ipfs/init.go]; [Daemon] is
    [cmd/ipfs/daemon.go], a computation with deferred calls that logs what it
    acquires, starts and releases; [PinMFS] is [cmd/ipfs/pinmfs.go]; [MainCmd] is
    [cmd/ipfs/main.go] (where a command runs), the tree of commands with the
    completions, and [cmd/ipfswatch].  [IpfsFetcher] fetches migrations with a
    temporary node.  [FuseReadonly] and [FuseIpns] are the file systems of [fuse/]
    and their mounting.  The theorems: plugins are started once and closed in order, initializing never changes an
    existing repository, the daemon releases what it holds however it ends and says
    it is ready only after everything is started in order, errors of the servers are
    collected exactly under every interleaving.

    ** Conventions

    Go's fixed-width integers are [Z] with [wrapU] and [wrapS]; errors are their
    texts ([result]); run-time panics are values ([outcome]) where the source can
    raise them.  Goroutines that were started are a list of jobs, and each critical
    section is one step, so that theorems about reachable states hold for every
    interleaving.  Code of other modules (the pinner, the blockstore, [dag.Walk],
    JSON and TOML codecs, multiaddresses, semver, archives, HTTP, the block cipher)
    is a field of a class, with the laws used; each class has an instance with
    which the theorems are applied to concrete inputs.

    ** Fuel

    [Datastores.any_config] is bounded by the nesting of the JSON value
    ([any_datastore_config_total]: a larger bound changes nothing);
    [LazySeek.sync] needs one round ([sync_ok]); [Varint.putUvarint] is given the
    ten bytes a 64-bit number can take; number printing has as many digits as the
    number has bits.  [Etag.etag_loop] is given one round more than the header has
    characters, and each round consumes one; [Delegated.parse] one call more than
    there are routers, and each call visits a new one ([routing_parse_terminates]);
    [Refs] and [PinAPI.checkPin] one call more than the graph is high, a hypothesis
    of their theorems that a content-addressed graph satisfies; [TarFormat] is read
    for the number of rounds its theorem states; [ReqLog.cleanup_loop] one round for
    each request.  The DAG walk used as an instance in [GC] visits a bounded
    number of nodes and otherwise returns an error, as a walk may; the theorems
    hold for every walk.  All other recursion is structural, on the script of the
    transport, the list of goroutines or the data.

    ** Not modelled

    Metrics, tracing, templates and the text output of commands where it only
    formats; what the fx library does with the constructors it is given; [gin] and
    [gorm] under the box server; commands that only call a library (bitswap, stats,
    log, version, diag); checks of operating systems other than Linux; and everything
    under [test/] and [docs/].  [core/box/ds/file.go] and
    [core/box/service/file_api.go] are commented out in the source.  What is left out
    of a file that is modelled in part is said in the comment of its model.

    ** What could follow

    The construction of the resource manager, the loop of [stats dht], the HTTP
    handlers of metrics and logs, and one state for the parts that share the
    repository of a running daemon, so that their theorems compose. *)
From Stdlib Require Import ZArith Lia Strings.Byte.
From stdpp Require Import base list strings gmap numbers.

(** ** Machine integers: Go's fixed-width types as [Z] with explicit wrap-around. *)

Declare Scope go_scope.
Delimit Scope go_scope with go.

Definition wrapU (w : Z) (z : Z) : Z := z mod 2 ^ w.
Definition wrapS (w : Z) (z : Z) : Z := (z + 2 ^ (w - 1)) mod 2 ^ w - 2 ^ (w - 1).

Abbreviation u8 := (wrapU 8).
Abbreviation u32 := (wrapU 32).
Abbreviation u64 := (wrapU 64).
Abbreviation i64 := (wrapS 64).

Definition inU (w z : Z) : Prop := (0 <= z < 2 ^ w)%Z.
Definition inS (w z : Z) : Prop := (- 2 ^ (w - 1) <= z < 2 ^ (w - 1))%Z.

Section Wrap.
Local Open Scope Z_scope.

Lemma wrapU_small w z : inU w z -> wrapU w z = z.
Proof. unfold wrapU, inU. apply Z.mod_small. Qed.

Lemma wrapU_range w z : 0 <= w -> inU w (wrapU w z).
Proof. intros. apply Z.mod_pos_bound. by apply Z.pow_pos_nonneg. Qed.

Lemma wrapS_small w z : 0 < w -> inS w z -> wrapS w z = z.
Proof.
  unfold wrapS, inS. intros Hw H.
  assert (2 ^ w = 2 * 2 ^ (w - 1)) by (rewrite <- Z.pow_succ_r by lia; f_equal; lia).
  rewrite Z.mod_small; lia.
Qed.

Lemma wrapS_range w z : 0 < w -> inS w (wrapS w z).
Proof.
  unfold wrapS, inS. intros Hw.
  assert (2 ^ w = 2 * 2 ^ (w - 1)) by (rewrite <- Z.pow_succ_r by lia; f_equal; lia).
  pose proof (Z.mod_pos_bound (z + 2 ^ (w - 1)) (2 ^ w)).
  pose proof (Z.pow_pos_nonneg 2 w). lia.
Qed.

Lemma i64_small z : - 2 ^ 63 <= z < 2 ^ 63 -> i64 z = z.
Proof. intros. apply wrapS_small; [lia|]. unfold inS. simpl (64 - 1). lia. Qed.

Lemma u32_small z : 0 <= z < 2 ^ 32 -> u32 z = z.
Proof. apply wrapU_small. Qed.
End Wrap.

(** ** Bytes *)

Abbreviation byte := Byte.byte.

Definition Z_of_byte (b : byte) : Z := Z.of_N (Byte.to_N b).
Definition byte_of_Z (z : Z) : byte :=
  match Byte.of_N (Z.to_N (u8 z)) with
  | Some b => b
  | None => Byte.x00
  end.

#[export] Instance byte_eq_dec : EqDecision byte := Byte.byte_eq_dec.

Section Bytes.
Local Open Scope Z_scope.

Lemma Z_of_byte_range b : 0 <= Z_of_byte b < 256.
Proof. unfold Z_of_byte. pose proof (Byte.to_N_bounded b). lia. Qed.

Lemma Z_of_byte_of_Z z : Z_of_byte (byte_of_Z z) = u8 z.
Proof.
  unfold byte_of_Z, Z_of_byte.
  pose proof (wrapU_range 8 z) as H. unfold inU in H.
  destruct (Byte.of_N (Z.to_N (u8 z))) as [b|] eqn:E.
  - apply Byte.to_of_N in E. rewrite E. lia.
  - apply Byte.of_N_None_iff in E. lia.
Qed.

Lemma byte_of_Z_of_byte b : byte_of_Z (Z_of_byte b) = b.
Proof.
  unfold byte_of_Z. rewrite wrapU_small by (unfold inU; apply Z_of_byte_range).
  unfold Z_of_byte. rewrite N2Z.id, Byte.of_to_N. done.
Qed.

Lemma Z_of_byte_inj b c : Z_of_byte b = Z_of_byte c -> b = c.
Proof. intros H. by rewrite <- (byte_of_Z_of_byte b), H, byte_of_Z_of_byte. Qed.
End Bytes.

(** ** Errors, results and panics

    A Go [error] is represented by its text; the sentinel errors compared with
    [==] in the source are distinguished constants. *)

Abbreviation error := string.

Inductive result (A : Type) : Type :=
| Ok (a : A)
| Err (e : error).
Arguments Ok {A} a.
Arguments Err {A} e.

(** A call that may raise a Go run-time panic. *)
Inductive outcome (A : Type) : Type :=
| Ret (a : A)
| Panic (msg : string).
Arguments Ret {A} a.
Arguments Panic {A} msg.

Definition rbind {A B} (r : result A) (f : A -> result B) : result B :=
  match r with Ok a => f a | Err e => Err e end.
Definition obind {A B} (r : outcome A) (f : A -> outcome B) : outcome B :=
  match r with Ret a => f a | Panic m => Panic m end.

Notation "'let?' x := c 'in' k" := (rbind c (fun x => k))
  (at level 10, x name, c at level 200, k at level 200) : go_scope.
Notation "'let!' x := c 'in' k" := (obind c (fun x => k))
  (at level 10, x name, c at level 200, k at level 200) : go_scope.

Lemma obind_ret {A B} (a : A) (f : A -> outcome B) : obind (Ret a) f = f a.
Proof. done. Qed.

(** ** Slices: Go's bounds-checked [s[:n]], [s[n:]] *)

Definition slice_to {A} (s : list A) (n : Z) : outcome (list A) :=
  if ((0 <=? n) && (n <=? Z.of_nat (length s)))%Z then Ret (take (Z.to_nat n) s)
  else Panic "slice bounds out of range".

Definition slice_from {A} (s : list A) (n : Z) : outcome (list A) :=
  if ((0 <=? n) && (n <=? Z.of_nat (length s)))%Z then Ret (drop (Z.to_nat n) s)
  else Panic "slice bounds out of range".

(** [copy(dst[k:], src)]: overwrites [min (len dst - k) (len src)] elements. *)
Definition copy_at {A} (dst : list A) (k : nat) (src : list A) : list A :=
  take k dst ++ take (length dst - k) src ++ drop (k + length src) dst.

(** ** Generic list lemmas *)

Create HintDb go.
Create Rewrite HintDb go_rw.

Section ListLemmas.
Context {A : Type}.
Implicit Types l k : list A.

Lemma take_app_exact l k n : length l = n -> take n (l ++ k) = l.
Proof. intros <-. apply take_app_length. Qed.

Lemma drop_app_exact l k n : length l = n -> drop n (l ++ k) = k.
Proof. intros <-. apply drop_app_length. Qed.

Lemma length_copy_at (dst : list A) (k : nat) src :
  k <= length dst -> length (copy_at dst k src) = length dst.
Proof.
  intros. unfold copy_at. rewrite !length_app, !length_take, length_drop. lia.
Qed.

(** [copy] of a slice that fits exactly. *)
Lemma copy_at_all (dst src : list A) : length dst = length src -> copy_at dst 0 src = src.
Proof.
  intros H. unfold copy_at. rewrite take_0, Nat.sub_0_r, take_ge, drop_ge by lia.
  apply app_nil_r.
Qed.

(** [copy] over the whole rest of a slice. *)
Lemma copy_at_tail (d e src : list A) :
  length src = length e -> copy_at (d ++ e) (length d) src = d ++ src.
Proof.
  intros H. unfold copy_at.
  rewrite take_app_length, length_app, take_ge, drop_ge; rewrite ?length_app; try lia.
  by rewrite app_nil_r.
Qed.

Lemma take_copy_at (dst src : list A) :
  length src <= length dst -> take (length src) (copy_at dst 0 src) = src.
Proof.
  intros. unfold copy_at. rewrite take_0, Nat.sub_0_r, (take_ge src) by done.
  rewrite app_nil_l. apply take_app_length.
Qed.

Lemma copy_at_whole (dst hd src : list A) :
  length dst = length hd + length src ->
  copy_at (copy_at dst 0 hd) (length hd) src = hd ++ src.
Proof.
  intros H.
  assert (E : copy_at dst 0 hd = hd ++ drop (length hd) dst).
  { unfold copy_at. rewrite take_0, Nat.sub_0_r, take_ge by lia. done. }
  rewrite E. unfold copy_at.
  rewrite take_app_length, length_app, length_drop.
  rewrite (take_ge src) by lia.
  rewrite drop_ge by (rewrite length_app, length_drop; lia).
  by rewrite app_nil_r.
Qed.

Lemma copy_at_prefix (dst hd src : list A) :
  length hd + length src <= length dst ->
  take (length hd + length src) (copy_at (copy_at dst 0 hd) (length hd) src)
  = hd ++ src.
Proof.
  intros H.
  assert (E : copy_at dst 0 hd = hd ++ drop (length hd) dst).
  { unfold copy_at. rewrite take_0, Nat.sub_0_r, take_ge by lia. done. }
  rewrite E. unfold copy_at.
  rewrite take_app_length, length_app, length_drop.
  rewrite (take_ge src) by lia.
  rewrite app_assoc, take_app_exact by (rewrite length_app; lia). done.
Qed.
End ListLemmas.

#[export] Hint Resolve Z_of_byte_range wrapU_range : go.
#[export] Hint Rewrite Z_of_byte_of_Z byte_of_Z_of_byte @obind_ret : go_rw.

(** Case analysis on the innermost scrutinee of the goal. *)
Ltac case_go :=
  match goal with
  | |- context [match ?x with _ => _ end] =>
      lazymatch x with
      | context [match _ with _ => _ end] => fail
      | _ => let E := fresh "E" in destruct x eqn:E
      end
  end.
