(* ===== verification/GoIO.v ===== *)
(** Go's [io] layer as the framing code uses it: an [io.Reader] as a finite
    trace of the results its [Read] calls deliver, [io.ReadFull] as the loop of
    the standard library over that trace, an [io.Writer] with a finite amount of
    room, and the fixed-width big-endian integers of [encoding/binary]. *)
From Stdlib Require Import ZArith Lia.
From stdpp Require Import base list strings numbers.
From S2P Require Import Prelude.

Definition EOF : error := "EOF".
Definition ErrUnexpectedEOF : error := "unexpected EOF".
Definition ErrShortBuffer : error := "short buffer".

(** ** Readers

    What the transport will deliver: pieces of data (one [Read] returns at most
    one piece, and leaves the rest of a piece larger than the buffer) and
    failures (a [Read] returning [0, err]).  When the trace is exhausted every
    further [Read] returns [0, EOF]. *)
Inductive event :=
| Data (bs : list byte)
| Fail (e : error).

Abbreviation stream := (list event).

(** One call [r.Read(p)] with [len(p) = n]. *)
Definition Read (r : stream) (n : nat) : list byte * option error * stream :=
  match r with
  | [] => ([], Some EOF, [])
  | Fail e :: r' => ([], Some e, r')
  | Data bs :: r' =>
      if decide (length bs <= n) then (bs, None, r')
      else (take n bs, None, Data (drop n bs) :: r')
  end.

(** [io.ReadFull(r, p)] with [len(p) = n]: the loop of [io.ReadAtLeast].  It
    returns the bytes stored in [p], the error, and the reader left. *)
Fixpoint ReadFull (r : stream) (n : nat) : list byte * option error * stream :=
  match n with
  | O => ([], None, r)
  | S _ =>
      match r with
      | [] => ([], Some EOF, [])
      | Fail e :: r' => ([], Some e, r')
      | Data bs :: r' =>
          if decide (length bs <= n) then
            let '(more, err, r'') := ReadFull r' (n - length bs) in
            match err with
            | Some e =>
                (bs ++ more,
                 Some (if decide (bs ++ more <> [] /\ e = EOF) then ErrUnexpectedEOF else e),
                 r'')
            | None => (bs ++ more, None, r'')
            end
          else (take n bs, None, Data (drop n bs) :: r')
      end
  end.

(** ** What a reader means

    The trace without its fragmentation: the bytes and failures in order.  Two
    readers with the same [flat] cannot be told apart by [ReadFull]. *)
Definition flat (r : stream) : list (byte + error) :=
  r ≫= λ e, match e with Data bs => inl <$> bs | Fail e => [inr e] end.

Definition unexpected (e : option error) : option error :=
  match e with
  | Some e => Some (if decide (e = EOF) then ErrUnexpectedEOF else e)
  | None => None
  end.

(** Reference definition of [io.ReadFull]: byte by byte. *)
Fixpoint read_exactly (s : list (byte + error)) (n : nat) {struct n}
  : list byte * option error * list (byte + error) :=
  match n with
  | O => ([], None, s)
  | S n' =>
      match s with
      | [] => ([], Some EOF, [])
      | inr e :: s' => ([], Some e, s')
      | inl b :: s' =>
          let '(bs, err, s'') := read_exactly s' n' in (b :: bs, unexpected err, s'')
      end
  end.

#[export] Instance stream_equiv : Equiv stream := λ r r', flat r = flat r'.
#[export] Instance stream_equivalence : Equivalence (≡@{stream}).
Proof. split; [intros r | intros r r' H | intros r r' r'' H H']; unfold equiv, stream_equiv in *; congruence. Qed.

(** ** Writers

    [room = Some k]: the writer accepts [k] more bytes and then fails with
    [werr]; [room = None]: it never fails ([bytes.Buffer]). *)
Record sink := Sink { written : list byte; room : option nat; werr : error }.

Definition Write (w : sink) (p : list byte) : nat * option error * sink :=
  match room w with
  | None => (length p, None, Sink (written w ++ p) None (werr w))
  | Some k =>
      if decide (length p <= k)
      then (length p, None, Sink (written w ++ p) (Some (k - length p)) (werr w))
      else (k, Some (werr w), Sink (written w ++ take k p) (Some 0) (werr w))
  end.

(** ** [encoding/binary]: big-endian [uint32] *)

Definition PutUint32 (v : Z) : list byte :=
  [byte_of_Z (Z.shiftr v 24); byte_of_Z (Z.shiftr v 16);
   byte_of_Z (Z.shiftr v 8); byte_of_Z v].

Definition Uint32 (b : list byte) : Z :=
  match b with
  | [b0; b1; b2; b3] =>
      Z.lor (Z_of_byte b3)
        (Z.lor (Z.shiftl (Z_of_byte b2) 8)
           (Z.lor (Z.shiftl (Z_of_byte b1) 16) (Z.shiftl (Z_of_byte b0) 24)))
  | _ => 0%Z
  end.

(** ** Lemmas *)

Section UintLemmas.
Local Open Scope Z_scope.

Lemma length_PutUint32 v : length (PutUint32 v) = 4%nat.
Proof. done. Qed.

(** Disjoint bit ranges: [lor] is addition. *)
Lemma lor_shiftl_add a b n : 0 <= n -> 0 <= a < 2 ^ n -> Z.lor a (Z.shiftl b n) = a + b * 2 ^ n.
Proof.
  intros Hn Ha. rewrite <- Z.shiftl_mul_pow2 by done.
  assert (Hland : Z.land a (Z.shiftl b n) = 0).
  { apply Z.bits_inj'; intros i Hi. rewrite Z.land_spec, Z.bits_0.
    destruct (Z.lt_ge_cases i n).
    - rewrite Z.shiftl_spec_low by lia. apply andb_false_r.
    - replace (Z.testbit a i) with false; [done|].
      rewrite <- (Z.mod_small a (2 ^ n) Ha). symmetry. apply Z.mod_pow2_bits_high. lia. }
  by rewrite Z.add_nocarry_lxor, <- Z.lxor_lor.
Qed.

Lemma Uint32_sum b0 b1 b2 b3 :
  Uint32 [b0; b1; b2; b3]
  = Z_of_byte b3 + Z_of_byte b2 * 2 ^ 8 + Z_of_byte b1 * 2 ^ 16 + Z_of_byte b0 * 2 ^ 24.
Proof.
  pose proof (Z_of_byte_range b0); pose proof (Z_of_byte_range b1);
  pose proof (Z_of_byte_range b2); pose proof (Z_of_byte_range b3).
  unfold Uint32.
  rewrite (Z.lor_assoc (Z.shiftl _ 8)), Z.lor_assoc.
  rewrite (Z.lor_assoc (Z_of_byte b3)).
  rewrite (lor_shiftl_add (Z_of_byte b3)) by lia.
  rewrite (lor_shiftl_add _ (Z_of_byte b1)) by lia.
  rewrite lor_shiftl_add by lia. lia.
Qed.

Lemma Uint32_PutUint32 v : Uint32 (PutUint32 v) = u32 v.
Proof.
  unfold PutUint32. rewrite Uint32_sum. rewrite !Z_of_byte_of_Z.
  rewrite !Z.shiftr_div_pow2 by lia. unfold wrapU.
  change (2 ^ 8) with 256. change (2 ^ 16) with 65536.
  change (2 ^ 24) with 16777216. change (2 ^ 32) with 4294967296.
  Z.to_euclidean_division_equations. lia.
Qed.

Lemma Uint32_range b : 0 <= Uint32 b < 2 ^ 32.
Proof.
  destruct b as [|b0 [|b1 [|b2 [|b3 [|]]]]]; try (simpl; lia).
  rewrite Uint32_sum.
  pose proof (Z_of_byte_range b0); pose proof (Z_of_byte_range b1);
  pose proof (Z_of_byte_range b2); pose proof (Z_of_byte_range b3). lia.
Qed.
End UintLemmas.

Section ReaderLemmas.

Lemma flat_Data bs r : flat (Data bs :: r) = (inl <$> bs) ++ flat r.
Proof. done. Qed.

Lemma unexpected_idem e : unexpected (unexpected e) = unexpected e.
Proof.
  destruct e as [e|]; [|done]. unfold unexpected.
  destruct (decide (e = EOF)); [done|]. by rewrite decide_False.
Qed.

Lemma read_exactly_app bs s n :
  length bs <= n ->
  read_exactly ((inl <$> bs) ++ s) n =
  let '(more, err, s') := read_exactly s (n - length bs) in
  (bs ++ more, (match bs with [] => err | _ => unexpected err end), s').
Proof.
  revert n. induction bs as [|b bs IH]; intros n Hn; simpl in *.
  { rewrite Nat.sub_0_r. by destruct (read_exactly s n) as [[??]?]. }
  destruct n as [|n]; [lia|]. simpl. rewrite IH by lia.
  destruct (read_exactly s (n - length bs)) as [[more err] s'].
  destruct bs; [done|]. by rewrite unexpected_idem.
Qed.

Lemma read_exactly_take bs s n :
  n <= length bs ->
  read_exactly ((inl <$> bs) ++ s) n = (take n bs, None, (inl <$> drop n bs) ++ s).
Proof.
  revert n. induction bs as [|b bs IH]; intros n Hn; simpl in *.
  { by replace n with 0 by lia. }
  destruct n as [|n]; [done|]. simpl. rewrite IH by lia. done.
Qed.

Lemma read_exactly_nonempty s n bs err s' :
  read_exactly s n = (bs, err, s') -> bs <> [] -> unexpected err = err.
Proof.
  destruct n, s as [|[b|e] s]; simpl; try (intros [= <- <- <-]; done).
  destruct (read_exactly s n) as [[??]?]. intros [= <- <- <-] _. apply unexpected_idem.
Qed.

(** [io.ReadFull] on any fragmentation computes the reference on the bytes. *)
Lemma ReadFull_flat r n :
  let '(bs, err, r') := ReadFull r n in read_exactly (flat r) n = (bs, err, flat r').
Proof.
  revert n. induction r as [|[bs|e] r IH]; intros [|n]; try done.
  simpl ReadFull. rewrite flat_Data. case_decide as Hlen.
  - specialize (IH (S n - length bs)).
    destruct (ReadFull r (S n - length bs)) as [[more err] r'].
    rewrite read_exactly_app, IH by done.
    destruct err as [e|]; [|by destruct bs].
    destruct bs as [|b bs]; simpl.
    + destruct (decide (_ /\ _)) as [[Hm ->]|]; [|done].
      apply read_exactly_nonempty in IH; [|done]. by rewrite <- IH.
    + destruct (decide (e = EOF)) as [->|He].
      * by rewrite decide_True.
      * rewrite decide_False by tauto. done.
  - rewrite read_exactly_take by lia. done.
Qed.

Lemma ReadFull_eq r n bs err s' :
  read_exactly (flat r) n = (bs, err, s') ->
  exists r', ReadFull r n = (bs, err, r') /\ flat r' = s'.
Proof.
  intros H. pose proof (ReadFull_flat r n) as HF.
  destruct (ReadFull r n) as [[bs0 err0] r0]. rewrite H in HF.
  simplify_eq. eauto.
Qed.

(** A reader whose next bytes are [bs] gives them to [ReadFull]. *)
Lemma ReadFull_prefix r bs s n :
  flat r = (inl <$> bs) ++ s -> n = length bs ->
  exists r', ReadFull r n = (bs, None, r') /\ flat r' = s.
Proof.
  intros Hf ->. apply ReadFull_eq. rewrite Hf, read_exactly_take by done.
  by rewrite take_ge, drop_ge by done.
Qed.

Lemma ReadFull_length r n bs err r' :
  ReadFull r n = (bs, err, r') -> length bs <= n /\ (err = None <-> length bs = n).
Proof.
  revert n bs err r'. induction r as [|[cs|e] r IH]; intros [|n] bs err r'; simpl;
    try (intros [= <- <- <-]; simpl; split; [lia|done || (split; [done|lia])]).
  case_decide as Hlen.
  - destruct (ReadFull r (S n - length cs)) as [[more err0] r0] eqn:E.
    apply IH in E as [Hle Heq].
    destruct err0 as [e|]; intros [= <- <- <-]; rewrite length_app.
    + split; [lia|]. split; [done|]. intros. assert (Some e = None) by (apply Heq; lia). done.
    + split; [lia|]. split; [|done]. intros _. assert (length more = S n - length cs) by (by apply Heq). lia.
  - intros [= <- <- <-]. rewrite length_take. split; [lia|]. split; [lia|done].
Qed.

#[export] Instance ReadFull_proper n : Proper ((≡@{stream}) ==> (λ x y, x.1 = y.1 /\ x.2 ≡ y.2)) (λ r, ReadFull r n).
Proof.
  intros r1 r2 H. unfold equiv, stream_equiv in H. simpl.
  pose proof (ReadFull_flat r1 n) as H1. pose proof (ReadFull_flat r2 n) as H2.
  destruct (ReadFull r1 n) as [[? ?] ?], (ReadFull r2 n) as [[? ?] ?].
  rewrite H, H2 in H1. simplify_eq/=. split; [done|]. unfold equiv, stream_equiv. congruence.
Qed.

End ReaderLemmas.

Section WriterLemmas.

Lemma Write_unbounded w p : room w = None ->
  Write w p = (length p, None, Sink (written w ++ p) None (werr w)).
Proof. unfold Write. by intros ->. Qed.

(** The [io.Writer] contract: a short write reports an error, and what was
    accepted is a prefix of what was offered. *)
Lemma Write_contract w p n e w' :
  Write w p = (n, e, w') ->
  written w' = written w ++ take n p /\ (e = None <-> n = length p).
Proof.
  unfold Write. destruct (room w) as [k|]; [case_decide|]; intros [= <- <- <-]; simpl.
  - by rewrite firstn_all.
  - split; [done|]. split; [done|lia].
  - by rewrite firstn_all.
Qed.

End WriterLemmas.
