(* ===== verification/Msgio.v ===== *)
(** Length-prefixed message framing: [core/box/msgio/num.go], [msgio.go] and
    [limit.go].

    A frame is a 4-byte big-endian length followed by the payload.  The model
    keeps the state of the Go objects (the reader's [next] and [lbuf], the
    buffer pool, the writer's sink); every method is one function from the
    state to its results and the new state.  The methods hold the object's mutex
    for their whole body, so concurrent use is a sequence of these calls. *)
From Stdlib Require Import ZArith Lia.
From stdpp Require Import base list strings numbers relations.
From S2P Require Import Prelude GoIO.

Local Open Scope Z_scope.

(** The buffer pool ([github.com/libp2p/go-buffer-pool]): [Get n] hands out a
    buffer of [n] bytes with arbitrary (recycled) contents. *)
Class BufferPool (P : Type) := {
  pool_Get : P -> Z -> list byte * P;
  pool_Put : P -> list byte -> P;
  pool_Get_length p n : 0 <= n -> length (pool_Get p n).1 = Z.to_nat n
}.

Definition ErrMsgTooLarge : error := "message too large".
Definition lengthSize : Z := 4.
Definition defaultMaxSize : Z := 8 * 1024 * 1024.

(** What a value of an interface type answers to a [x.(io.Closer)] assertion:
    [None] when it is no closer, otherwise the error [Close] returns. *)
Abbreviation closer := (option (option error)).

Definition close_if (c : closer) : option error :=
  match c with Some e => e | None => None end.

(** ** num.go *)

Definition WriteLen (w : sink) (l : Z) : option error * sink :=
  let ul := u32 l in
  let '(_, err, w') := Write w (PutUint32 ul) in (err, w').

(** [ReadLen r buf]: the result, the contents of [buf] afterwards, the reader. *)
Definition ReadLen (r : stream) (buf : list byte) : result Z * list byte * stream :=
  let buf := if Z.of_nat (length buf) <? 4 then replicate 4 Byte.x00 else buf in
  let buf := take 4 buf in
  let '(bs, err, r') := ReadFull r (length buf) in
  let buf := copy_at buf 0 bs in
  match err with
  | Some e => (Err e, buf, r')
  | None => (Ok (Uint32 buf), buf, r')
  end.

(** ** msgio.go *)

Section Framing.
Context {P : Type} `{BufferPool P}.

Record writer := Writer { w_W : sink; w_pool : P; w_closer : closer }.

Definition NewWriterWithPool (w : sink) (c : closer) (p : P) : writer := Writer w p c.

Definition writer_WriteMsg (s : writer) (msg : list byte) : option error * writer :=
  let '(buf, p) := pool_Get (w_pool s) (Z.of_nat (length msg) + lengthSize) in
  let buf := copy_at buf 0 (PutUint32 (u32 (Z.of_nat (length msg)))) in
  let buf := copy_at buf (Z.to_nat lengthSize) msg in
  let '(_, err, w') := Write (w_W s) buf in
  (err, Writer w' (pool_Put p buf) (w_closer s)).

Definition writer_Write (s : writer) (msg : list byte) : Z * option error * writer :=
  let '(err, s') := writer_WriteMsg s msg in
  match err with
  | Some e => (0, Some e, s')
  | None => (Z.of_nat (length msg), None, s')
  end.

Definition writer_Close (s : writer) : option error := close_if (w_closer s).

Record reader := Reader {
  r_R : stream;
  r_lbuf : list byte;
  r_next : Z;
  r_pool : P;
  r_max : Z;
  r_closer : closer
}.

Definition NewReaderSizeWithPool (r : stream) (c : closer) (maxMessageSize : Z)
    (p : option P) : outcome reader :=
  match p with
  | None => Panic "nil pool"
  | Some p => Ret (Reader r (replicate 4 Byte.x00) (-1) p maxMessageSize c)
  end.

Definition NewReaderWithPool (r : stream) (c : closer) (p : option P) : outcome reader :=
  NewReaderSizeWithPool r c defaultMaxSize p.

Definition reader_nextMsgLen (s : reader) : result Z * reader :=
  if r_next s =? -1 then
    let '(n, lbuf, r') := ReadLen (r_R s) (r_lbuf s) in
    match n with
    | Err e => (Err e, Reader r' lbuf (r_next s) (r_pool s) (r_max s) (r_closer s))
    | Ok n => (Ok n, Reader r' lbuf n (r_pool s) (r_max s) (r_closer s))
    end
  else (Ok (r_next s), s).

Definition reader_NextMsgLen (s : reader) : result Z * reader := reader_nextMsgLen s.

(** The tail shared by [Read] and [ReadMsg]: [io.ReadFull] into a buffer of
    [length] bytes, then [next] is what is left of the message. *)
Definition reader_fill (s : reader) (p : P) (len : Z) : list byte * option error * reader :=
  let '(bs, err, r') := ReadFull (r_R s) (Z.to_nat len) in
  let read := Z.of_nat (length bs) in
  (bs, err,
   Reader r' (r_lbuf s) (if read <? len then len - read else -1) p (r_max s) (r_closer s)).

(** [Read msg]: [(n, err)], the contents of [msg] afterwards, the new state. *)
Definition reader_Read (s : reader) (msg : list byte)
    : outcome (Z * option error * list byte * reader) :=
  let '(l, s1) := reader_nextMsgLen s in
  match l with
  | Err e => Ret (0, Some e, msg, s1)
  | Ok len =>
      if Z.of_nat (length msg) <? len then Ret (0, Some ErrShortBuffer, msg, s1)
      else
        obind (slice_to msg len) (fun _ =>
          let '(bs, err, s2) := reader_fill s1 (r_pool s1) len in
          Ret (Z.of_nat (length bs), err, copy_at msg 0 bs, s2))
  end.

(** [ReadMsg]: the message ([[]] for [nil]), the error, the new state. *)
Definition reader_ReadMsg (s : reader) : list byte * option error * reader :=
  let '(l, s1) := reader_nextMsgLen s in
  match l with
  | Err e => ([], Some e, s1)
  | Ok len =>
      if len =? 0 then
        ([], None, Reader (r_R s1) (r_lbuf s1) (-1) (r_pool s1) (r_max s1) (r_closer s1))
      else if (r_max s1 <? len) || (len <? 0) then ([], Some ErrMsgTooLarge, s1)
      else
        let '(msg, p) := pool_Get (r_pool s1) len in
        let '(bs, err, s2) := reader_fill s1 p len in
        (take (length bs) (copy_at msg 0 bs), err, s2)
  end.

Definition reader_ReleaseMsg (s : reader) (msg : list byte) : reader :=
  Reader (r_R s) (r_lbuf s) (r_next s) (pool_Put (r_pool s) msg) (r_max s) (r_closer s).

Definition reader_Close (s : reader) : option error := close_if (r_closer s).

End Framing.

Arguments writer P : clear implicits.
Arguments reader P : clear implicits.
Arguments Writer {P}.
Arguments Reader {P}.

(** [multiErr.Error()] *)
Definition multiErr_Error (m : list error) : string :=
  match m with
  | [] => "no errors"
  | e :: es =>
      ("Multiple errors: " +:+ e) +:+ foldr (fun e acc => ", " +:+ e +:+ acc) "" es
  end.

(** [readWriter.Close]: the writer side first, then the reader side; a side
    that is not a closer is skipped. *)
Definition readWriter_Close (w r : closer) : option error :=
  let errs := match close_if w with Some e => [e] | None => [] end in
  let errs := match close_if r with Some e => errs ++ [e] | None => errs end in
  if (0 <? length errs)%nat then Some (multiErr_Error errs) else None.

(** ** limit.go *)

Definition LimitedReader (r : stream) : (stream * Z) * option error :=
  let '(l, _, r') := ReadLen r [] in
  match l with
  | Ok l => ((r', l), None)
  | Err e => ((r', 0), Some e)
  end.

(** [io.LimitedReader.Read]: at most [N] more bytes. *)
Definition LimitReader_Read (lr : stream * Z) (n : nat)
    : list byte * option error * (stream * Z) :=
  let '(r, N) := lr in
  if N <=? 0 then ([], Some EOF, lr)
  else
    let '(bs, err, r') := Read r (Nat.min n (Z.to_nat N)) in
    (bs, err, (r', N - Z.of_nat (length bs))).

Record LimitedWriter := LW { lw_W : sink; lw_B : list byte }.

Definition NewLimitedWriter (w : sink) : LimitedWriter := LW w [].

Definition LimitedWriter_Write (w : LimitedWriter) (buf : list byte)
    : Z * option error * LimitedWriter :=
  (Z.of_nat (length buf), None, LW (lw_W w) (lw_B w ++ buf)).

(** [Flush]: the length, then [bytes.Buffer.WriteTo], which keeps what the
    writer did not accept. *)
Definition LimitedWriter_Flush (w : LimitedWriter) : option error * LimitedWriter :=
  let '(err, w1) := WriteLen (lw_W w) (Z.of_nat (length (lw_B w))) in
  match err with
  | Some e => (Some e, LW w1 (lw_B w))
  | None =>
      if (0 <? length (lw_B w))%nat then
        let '(m, e, w2) := Write w1 (lw_B w) in
        match e with
        | Some e => (Some e, LW w2 (drop m (lw_B w)))
        | None => (None, LW w2 [])
        end
      else (None, LW w1 [])
  end.

(** ** Frames and their reading *)

(** The wire format of one message. *)
Definition frame (msg : list byte) : list byte :=
  PutUint32 (u32 (Z.of_nat (length msg))) ++ msg.

Section Runs.
Context {P : Type} `{BufferPool P}.

(** A sequence of [WriteMsg] calls, stopping at the first error. *)
Fixpoint write_all (s : writer P) (msgs : list (list byte)) : option error * writer P :=
  match msgs with
  | [] => (None, s)
  | m :: ms =>
      let '(err, s') := writer_WriteMsg s m in
      match err with
      | Some e => (Some e, s')
      | None => write_all s' ms
      end
  end.

(** [n] calls of [ReadMsg], with what each returned. *)
Fixpoint read_n (s : reader P) (n : nat) : list (list byte * option error) * reader P :=
  match n with
  | O => ([], s)
  | S n =>
      let '(m, err, s1) := reader_ReadMsg s in
      let '(rs, s2) := read_n s1 n in
      ((m, err) :: rs, s2)
  end.

End Runs.

(** The states a reader can be in: between messages ([next = -1]) or inside one
    with [next] bytes to come. *)
Definition reader_inv {P} (s : reader P) : Prop :=
  (r_next s = -1 \/ 0 <= r_next s < 2 ^ 32) /\ length (r_lbuf s) = 4%nat.

Section FramingLemmas.
Context {P : Type} `{BufferPool P}.

Lemma u32_length (msg : list byte) :
  Z.of_nat (length msg) < 2 ^ 32 -> u32 (Z.of_nat (length msg)) = Z.of_nat (length msg).
Proof. intros. apply wrapU_small. unfold inU. lia. Qed.

(** The recycled contents of the pool's buffer never reach the wire. *)
Lemma writer_WriteMsg_frame (s : writer P) msg :
  exists p', writer_WriteMsg s msg =
    let '(_, err, w') := Write (w_W s) (frame msg) in (err, Writer w' p' (w_closer s)).
Proof.
  unfold writer_WriteMsg.
  pose proof (pool_Get_length (w_pool s) (Z.of_nat (length msg) + lengthSize)) as Hl.
  destruct (pool_Get _ _) as [buf p]. simpl in Hl. unfold lengthSize in *.
  change (Z.to_nat 4) with (length (PutUint32 (u32 (Z.of_nat (length msg))))).
  rewrite copy_at_whole by (rewrite length_PutUint32; lia).
  fold (frame msg). destruct (Write _ _) as [[??]?]. eauto.
Qed.

Lemma write_all_unbounded (s : writer P) msgs :
  room (w_W s) = None ->
  exists s', write_all s msgs = (None, s') /\ room (w_W s') = None /\
    written (w_W s') = written (w_W s) ++ concat (frame <$> msgs).
Proof.
  revert s. induction msgs as [|m ms IH]; intros s Hr; simpl.
  { exists s. by rewrite app_nil_r. }
  destruct (writer_WriteMsg_frame s m) as [p' ->].
  rewrite Write_unbounded by done.
  destruct (IH (Writer (Sink (written (w_W s) ++ frame m) None (werr (w_W s))) p' (w_closer s)))
    as (s' & ? & ? & Hw); [done|].
  exists s'. rewrite Hw. simpl. by rewrite <- app_assoc.
Qed.

(** The length prefix, read from any fragmentation. *)
Lemma ReadLen_prefix r buf v rest :
  inU 32 v -> length buf = 4%nat ->
  flat r = (inl <$> PutUint32 v) ++ rest ->
  exists buf' r', ReadLen r buf = (Ok v, buf', r') /\ flat r' = rest /\ length buf' = 4%nat.
Proof.
  intros Hv Hb Hf. unfold ReadLen. rewrite Hb. simpl.
  rewrite (take_ge buf), Hb by lia.
  destruct (ReadFull_prefix r (PutUint32 v) rest 4) as (r' & -> & Hr'); [done..|].
  assert (copy_at buf 0 (PutUint32 v) = PutUint32 v) as ->.
  { by apply copy_at_all. }
  rewrite Uint32_PutUint32, wrapU_small by done. eauto 6 using length_PutUint32.
Qed.

Lemma ReadLen_length r buf res buf' r' :
  length buf = 4%nat -> ReadLen r buf = (res, buf', r') ->
  length buf' = 4%nat /\ match res with Ok n => 0 <= n < 2 ^ 32 | Err _ => True end.
Proof.
  intros Hb. unfold ReadLen. rewrite Hb. simpl. rewrite (take_ge buf), Hb by lia.
  destruct (ReadFull r 4) as [[bs err] r1] eqn:E. apply ReadFull_length in E as [Hle _].
  assert (length (copy_at buf 0 bs) = 4%nat).
  { rewrite length_copy_at; lia. }
  destruct err; intros [= <- <- <-]; split; try done. apply Uint32_range.
Qed.

Lemma reader_nextMsgLen_inv (s : reader P) l s1 :
  reader_inv s -> reader_nextMsgLen s = (l, s1) ->
  reader_inv s1 /\ match l with Ok n => 0 <= n < 2 ^ 32 /\ r_next s1 = n | Err _ => r_next s1 = -1 end
  /\ r_max s1 = r_max s.
Proof.
  intros [Hn Hb]. unfold reader_nextMsgLen. destruct (Z.eqb_spec (r_next s) (-1)) as [Hm|].
  - destruct (ReadLen _ _) as [[[n|e] lb] r'] eqn:E;
      apply ReadLen_length in E as [? ?]; [|done| |done];
      intros [= <- <-]; unfold reader_inv; simpl; repeat split; auto; lia.
  - intros [= <- <-]. unfold reader_inv. repeat split; auto; lia.
Qed.

Lemma reader_fill_inv (s : reader P) p len bs err s' :
  reader_inv s -> 0 <= len < 2 ^ 32 -> reader_fill s p len = (bs, err, s') ->
  reader_inv s' /\ Z.of_nat (length bs) <= len /\
  r_next s' = (if Z.of_nat (length bs) <? len then len - Z.of_nat (length bs) else -1) /\
  (err = None <-> Z.of_nat (length bs) = len).
Proof.
  intros [Hn Hb] Hlen. unfold reader_fill.
  destruct (ReadFull _ _) as [[bs0 err0] r0] eqn:E. apply ReadFull_length in E as [Hle Heq].
  intros [= <- <- <-]. unfold reader_inv; simpl.
  assert (err0 = None <-> Z.of_nat (length bs0) = len) by (rewrite Heq; lia).
  destruct (Z.ltb_spec (Z.of_nat (length bs0)) len); split_and!; auto; lia.
Qed.

(** [ReadMsg] once the length [len] of the message (or of what is left of it) is
    known. *)
Lemma reader_ReadMsg_body (s s1 : reader P) len :
  reader_nextMsgLen s = (Ok len, s1) -> 0 < len <= r_max s1 ->
  exists p, reader_ReadMsg s = reader_fill s1 p len.
Proof.
  intros Hn Hlen. unfold reader_ReadMsg. rewrite Hn.
  rewrite (proj2 (Z.eqb_neq len 0)) by lia.
  rewrite (proj2 (Z.ltb_ge _ _)), (proj2 (Z.ltb_ge len 0)) by lia. simpl.
  pose proof (pool_Get_length (r_pool s1) len) as Hl.
  destruct (pool_Get _ _) as [msg p]. simpl in Hl. exists p.
  destruct (reader_fill s1 p len) as [[bs err] s2] eqn:E.
  rewrite take_copy_at; [done|]. unfold reader_fill in E.
  destruct (ReadFull _ _) as [[? ?] ?] eqn:E2. apply ReadFull_length in E2 as [? _].
  simplify_eq. lia.
Qed.

(** One message at the head of the stream is what [ReadMsg] returns. *)
Lemma reader_ReadMsg_frame (s : reader P) msg rest :
  reader_inv s -> r_next s = -1 ->
  Z.of_nat (length msg) < 2 ^ 32 -> Z.of_nat (length msg) <= r_max s ->
  flat (r_R s) = (inl <$> frame msg) ++ rest ->
  exists s', reader_ReadMsg s = (msg, None, s') /\ reader_inv s' /\
    r_next s' = -1 /\ r_max s' = r_max s /\ flat (r_R s') = rest.
Proof.
  intros [_ Hb] Hn Hlt Hmax Hf. unfold frame in Hf. rewrite fmap_app, <- app_assoc in Hf.
  destruct (ReadLen_prefix (r_R s) (r_lbuf s) (u32 (Z.of_nat (length msg))) ((inl <$> msg) ++ rest))
    as (lb & r1 & HR & Hr1 & Hlb); [by apply wrapU_range|done..|].
  rewrite u32_length in HR by done.
  assert (Hnext : reader_nextMsgLen s =
    (Ok (Z.of_nat (length msg)), Reader r1 lb (Z.of_nat (length msg)) (r_pool s) (r_max s) (r_closer s))).
  { unfold reader_nextMsgLen. rewrite Hn, HR. done. }
  destruct (decide (msg = [])) as [->|Hne].
  - unfold reader_ReadMsg. rewrite Hnext. simpl. eexists.
    split; [done|]. unfold reader_inv; simpl. repeat split; auto.
  - assert (0 < length msg)%nat by (destruct msg; simpl; [done|lia]).
    destruct (reader_ReadMsg_body s _ _ Hnext) as [p ->]; [simpl; lia|].
    unfold reader_fill. simpl r_R. rewrite Nat2Z.id.
    destruct (ReadFull_prefix r1 msg rest (length msg)) as (r2 & -> & Hr2); [done..|].
    eexists. split; [done|]. unfold reader_inv; simpl.
    rewrite Z.ltb_irrefl. repeat split; auto.
Qed.

End FramingLemmas.

(** ** Properties *)

Section FramingProperties.
Context {P : Type} `{BufferPool P}.

Lemma read_n_frames (s : reader P) msgs rest :
  reader_inv s -> r_next s = -1 ->
  Forall (fun m => Z.of_nat (length m) < 2 ^ 32 /\ Z.of_nat (length m) <= r_max s) msgs ->
  flat (r_R s) = (inl <$> concat (frame <$> msgs)) ++ rest ->
  exists s', read_n s (length msgs) = ((fun m => (m, None)) <$> msgs, s') /\
    reader_inv s' /\ r_next s' = -1 /\ flat (r_R s') = rest.
Proof.
  revert s. induction msgs as [|m ms IH]; intros s Hi Hn Hall Hf; simpl.
  { exists s. simpl in Hf. done. }
  apply Forall_cons_1 in Hall as [[Hm1 Hm2] Hall].
  simpl in Hf. rewrite fmap_app, <- app_assoc in Hf.
  destruct (reader_ReadMsg_frame s m _ Hi Hn Hm1 Hm2 Hf) as (s1 & -> & Hi1 & Hn1 & Hmax & Hf1).
  destruct (IH s1 Hi1 Hn1) as (s2 & -> & ?); [by rewrite Hmax|done|].
  eexists. by split.
Qed.

(** C1: Round trip.  Whatever messages a [msgio] writer sends over a transport
    that does not fail, and however the transport fragments the bytes, a reader
    on the other side whose limit admits them obtains exactly those messages, in
    order and without error, and then sees exactly what follows the frames; the
    buffers recycled by either pool have no influence. *)
Theorem msgio_roundtrip (w : writer P) (s : reader P) msgs rest :
  room (w_W w) = None -> written (w_W w) = [] ->
  reader_inv s -> r_next s = -1 ->
  Forall (fun m => Z.of_nat (length m) < 2 ^ 32 /\ Z.of_nat (length m) <= r_max s) msgs ->
  exists w', write_all w msgs = (None, w') /\
    (flat (r_R s) = (inl <$> written (w_W w')) ++ rest ->
     exists s', read_n s (length msgs) = ((fun m => (m, None)) <$> msgs, s') /\
       r_next s' = -1 /\ flat (r_R s') = rest).
Proof.
  intros Hr Hw0 Hi Hn Hall.
  destruct (write_all_unbounded w msgs Hr) as (w' & Hrun & _ & Hw).
  exists w'. split; [done|]. rewrite Hw, Hw0. intros Hf.
  destruct (read_n_frames s msgs rest Hi Hn Hall Hf) as (s' & ? & _ & ? & ?). eauto.
Qed.

(** The payload as the transport delivers it when it is interrupted: after each
    piece a transient failure, then the rest. *)
Definition interrupted (pieces : list (list byte * error)) (last : list byte)
    : list (byte + error) :=
  concat ((fun '(p, e) => (inl <$> p) ++ [inr e]) <$> pieces) ++ (inl <$> last).

Definition remaining (pieces : list (list byte * error)) (last : list byte) : list byte :=
  concat (fst <$> pieces) ++ last.

Lemma read_exactly_interrupt bs (e : error) s n :
  (length bs < n)%nat ->
  read_exactly ((inl <$> bs) ++ inr e :: s) n
  = (bs, Some (if decide (bs <> [] /\ e = EOF) then ErrUnexpectedEOF else e), s).
Proof.
  intros Hn. rewrite read_exactly_app by lia.
  destruct (n - length bs)%nat eqn:E; [lia|]. simpl. rewrite app_nil_r.
  destruct bs as [|b bs].
  - by rewrite decide_False by tauto.
  - simpl. destruct (decide (e = EOF)); [rewrite decide_True|rewrite decide_False]; naive_solver.
Qed.

Lemma read_n_resume (s : reader P) pieces last rest :
  reader_inv s -> last <> [] ->
  r_next s = Z.of_nat (length (remaining pieces last)) -> r_next s <= r_max s ->
  flat (r_R s) = interrupted pieces last ++ rest ->
  exists s', read_n s (S (length pieces)) =
      (((fun '(p, e) => (p, Some (if decide (p <> [] /\ e = EOF) then ErrUnexpectedEOF else e)))
          <$> pieces) ++ [(last, None)], s') /\
    r_next s' = -1 /\ flat (r_R s') = rest.
Proof.
  intros Hi Hlast. revert s Hi.
  assert (0 < length last)%nat by (destruct last; simpl; [done|lia]).
  induction pieces as [|[p e] ps IH]; intros s Hi Hn Hmax Hf.
  - assert (Hnext : reader_nextMsgLen s = (Ok (Z.of_nat (length last)), s)).
    { unfold reader_nextMsgLen. rewrite (proj2 (Z.eqb_neq _ _)) by lia. by rewrite Hn. }
    change (remaining [] last) with last in Hn.
    simpl. destruct (reader_ReadMsg_body s s _ Hnext) as [q ->]; [lia|].
    unfold reader_fill. rewrite Nat2Z.id.
    destruct (ReadFull_prefix (r_R s) last rest (length last)) as (r2 & -> & Hr2); [done..|].
    eexists. split; [done|]. simpl. by rewrite Z.ltb_irrefl.
  - set (tl := remaining ps last).
    assert (Htl : (0 < length tl)%nat) by (unfold tl, remaining; rewrite length_app; lia).
    assert (Hrem : remaining ((p, e) :: ps) last = p ++ tl).
    { unfold tl, remaining. simpl. by rewrite app_assoc. }
    rewrite Hrem, length_app in Hn.
    assert (Hnext : reader_nextMsgLen s = (Ok (r_next s), s)).
    { unfold reader_nextMsgLen. by rewrite (proj2 (Z.eqb_neq _ _)) by lia. }
    destruct (reader_ReadMsg_body s s _ Hnext) as [q Hq]; [lia|].
    assert (Hf' : flat (r_R s) = (inl <$> p) ++ inr e :: (interrupted ps last ++ rest)).
    { rewrite Hf. unfold interrupted. simpl. by rewrite <- !app_assoc. }
    destruct (ReadFull_eq (r_R s) (Z.to_nat (r_next s)) p
      (Some (if decide (p <> [] /\ e = EOF) then ErrUnexpectedEOF else e))
      (interrupted ps last ++ rest)) as (r1 & HR & Hr1).
    { rewrite Hf'. apply read_exactly_interrupt. lia. }
    unfold reader_fill in Hq. rewrite HR in Hq.
    rewrite (proj2 (Z.ltb_lt _ _)) in Hq by lia.
    simpl length. cbn [read_n]. rewrite Hq.
    match type of Hq with _ = (_, _, ?x) => set (s1 := x) in * end.
    destruct (IH s1) as (s' & Hs' & ? & ?).
    + destruct Hi as [? ?]. unfold reader_inv; simpl. split; [right; lia|done].
    + subst s1; simpl. fold tl. lia.
    + subst s1; simpl. lia.
    + done.
    + cbn [read_n] in Hs'. rewrite Hs'. eexists. by split.
Qed.

(** Resumption.  A read that a transient transport error interrupts inside a
    payload loses nothing: [ReadMsg] returns the bytes it got with the error and
    remembers what is left, so that repeating the call yields the remaining
    pieces and finally the end of the message without error; the reader is then
    between messages again. *)
Theorem msgio_resume (s : reader P) pieces last rest :
  reader_inv s -> last <> [] ->
  r_next s = Z.of_nat (length (remaining pieces last)) -> r_next s <= r_max s ->
  flat (r_R s) = interrupted pieces last ++ rest ->
  exists rs s', read_n s (S (length pieces)) = (rs, s') /\
    concat (fst <$> rs) = remaining pieces last /\
    Forall (fun r => is_Some r.2) (take (length pieces) rs) /\
    r_next s' = -1 /\ flat (r_R s') = rest.
Proof.
  intros Hi Hl Hn Hm Hf.
  destruct (read_n_resume s pieces last rest Hi Hl Hn Hm Hf) as (s' & Hr & Hn' & Hf').
  eexists _, s'. split; [exact Hr|]. split_and!; [| |done|done].
  - rewrite fmap_app, concat_app. unfold remaining. simpl. rewrite app_nil_r. f_equal.
    clear. induction pieces as [|[p e] ps IH]; [done|]. csimpl. by rewrite IH.
  - rewrite take_app_exact by (by rewrite length_fmap).
    clear. induction pieces as [|[p e] ps IH]; csimpl; constructor; simpl; eauto.
Qed.

(** Size limit.  A message whose announced length exceeds the reader's
    maximum is refused by [ReadMsg] with [ErrMsgTooLarge] before any of its
    payload is read or buffered, and the refusal is repeatable: nothing of the
    stream is consumed by further [ReadMsg] calls. *)
Theorem msgio_too_large (s : reader P) v rest :
  reader_inv s -> r_next s = -1 -> inU 32 v -> 0 <= r_max s < v ->
  flat (r_R s) = (inl <$> PutUint32 v) ++ rest ->
  exists s', reader_ReadMsg s = ([], Some ErrMsgTooLarge, s') /\
    r_next s' = v /\ flat (r_R s') = rest /\
    reader_ReadMsg s' = ([], Some ErrMsgTooLarge, s').
Proof.
  intros [_ Hb] Hn Hv Hmax Hf.
  destruct (ReadLen_prefix _ _ _ _ Hv Hb Hf) as (lb & r1 & HR & Hr1 & Hlb).
  exists (Reader r1 lb v (r_pool s) (r_max s) (r_closer s)).
  unfold reader_ReadMsg, reader_nextMsgLen. rewrite Hn, HR. simpl.
  rewrite (proj2 (Z.eqb_neq v 0)), (proj2 (Z.eqb_neq v (-1))) by lia. simpl.
  rewrite (proj2 (Z.eqb_neq v 0)), (proj2 (Z.ltb_lt (r_max s) v)) by lia. done.
Qed.

(** The public operations of a reader, as steps. *)
Inductive reader_step : reader P -> reader P -> Prop :=
| step_NextMsgLen s l s' : reader_NextMsgLen s = (l, s') -> reader_step s s'
| step_Read s msg n err msg' s' : reader_Read s msg = Ret (n, err, msg', s') -> reader_step s s'
| step_ReadMsg s m err s' : reader_ReadMsg s = (m, err, s') -> reader_step s s'
| step_ReleaseMsg s m : reader_step s (reader_ReleaseMsg s m)
(** The transport delivers more: the trace of the underlying reader grows. *)
| step_transport s more :
    reader_step s (Reader (r_R s ++ more) (r_lbuf s) (r_next s) (r_pool s) (r_max s) (r_closer s)).

Lemma reader_ReadMsg_inv (s : reader P) m err s' :
  reader_inv s -> reader_ReadMsg s = (m, err, s') -> reader_inv s'.
Proof.
  intros Hi. unfold reader_ReadMsg.
  destruct (reader_nextMsgLen s) as [l s1] eqn:E.
  pose proof (reader_nextMsgLen_inv _ _ _ Hi E) as (Hi1 & Hl & _).
  destruct l as [n|e]; [|by intros [= _ _ <-]].
  case_match; [intros [= _ _ <-]; destruct Hi1; unfold reader_inv; simpl; auto|].
  case_match; [by intros [= _ _ <-]|].
  destruct (pool_Get _ _) as [b p]. destruct (reader_fill _ _ _) as [[bs e] s2] eqn:E2.
  apply reader_fill_inv in E2 as (? & _); [by intros [= _ _ <-]|done|tauto].
Qed.

Lemma reader_Read_inv (s : reader P) msg :
  reader_inv s ->
  exists n err msg' s', reader_Read s msg = Ret (n, err, msg', s') /\ reader_inv s'.
Proof.
  intros Hi. unfold reader_Read.
  destruct (reader_nextMsgLen s) as [l s1] eqn:E.
  pose proof (reader_nextMsgLen_inv _ _ _ Hi E) as (Hi1 & Hl & _).
  destruct l as [n|e]; [|by do 4 eexists].
  destruct (Z.ltb_spec (Z.of_nat (length msg)) n); [by do 4 eexists|].
  unfold slice_to. rewrite (proj2 (Z.leb_le 0 n)), (proj2 (Z.leb_le n _)) by lia. simpl.
  destruct (reader_fill _ _ _) as [[bs er] s2] eqn:E2.
  apply reader_fill_inv in E2 as (? & _); [by do 4 eexists|done|tauto].
Qed.

(** Safety of the reader.  In every state reachable from a fresh reader by
    any interleaving of its methods and of deliveries of the transport,
    [next] is [-1] or a length below [2^32], and [Read] does not panic, whatever
    buffer it is given and whatever bytes the peer sent. *)
Theorem msgio_reader_safe (r : stream) c max (p : P) s s' :
  NewReaderSizeWithPool r c max (Some p) = Ret s -> rtc reader_step s s' ->
  reader_inv s' /\ forall msg, exists res, reader_Read s' msg = Ret res.
Proof.
  intros [= <-] Hrtc.
  assert (Hi : reader_inv s').
  { revert Hrtc. apply (rtc_ind_r (fun s' => reader_inv s')).
    - unfold reader_inv. simpl. auto.
    - intros y z _ Hyz Hy. destruct Hyz as [? ? ? E|? ? ? ? ? ? E|? ? ? ? E| |].
      + by apply reader_nextMsgLen_inv in E as [? _].
      + destruct (reader_Read_inv _ msg Hy) as (? & ? & ? & ? & E2 & ?). congruence.
      + by eapply reader_ReadMsg_inv.
      + done.
      + done. }
  split; [done|]. intros msg.
  destruct (reader_Read_inv s' msg Hi) as (? & ? & ? & ? & -> & _). eauto.
Qed.

End FramingProperties.

Lemma LimitedWriter_writes (w : LimitedWriter) (pieces : list (list byte)) :
  foldl (fun w b => (LimitedWriter_Write w b).2) w pieces = LW (lw_W w) (lw_B w ++ concat pieces).
Proof.
  revert w. induction pieces as [|b bs IH]; intros w; simpl; [rewrite app_nil_r; by destruct w|].
  rewrite IH. simpl. by rewrite <- app_assoc.
Qed.

(** [LimitedWriter.Flush] frames everything written since the last flush, and
    [LimitedReader] on the other side recovers the limit and the payload; the
    buffer is empty afterwards, so the next flush starts a fresh message. *)
Theorem limited_roundtrip (w : LimitedWriter) (pieces : list (list byte)) r rest :
  room (lw_W w) = None -> lw_B w = [] ->
  Z.of_nat (length (concat pieces)) < 2 ^ 32 ->
  let w1 := foldl (fun w b => (LimitedWriter_Write w b).2) w pieces in
  exists w2, LimitedWriter_Flush w1 = (None, w2) /\ lw_B w2 = [] /\
    written (lw_W w2) = written (lw_W w) ++ frame (concat pieces) /\
    (flat r = (inl <$> frame (concat pieces)) ++ rest ->
     exists r1 r2, LimitedReader r = ((r1, Z.of_nat (length (concat pieces))), None) /\
       ReadFull r1 (length (concat pieces)) = (concat pieces, None, r2) /\ flat r2 = rest).
Proof.
  intros Hr HB Hlt w1.
  assert (Hw1 : w1 = LW (lw_W w) (concat pieces)).
  { unfold w1. by rewrite LimitedWriter_writes, HB. }
  rewrite Hw1. set (B := concat pieces) in *.
  assert (HF : exists w2, LimitedWriter_Flush (LW (lw_W w) B) = (None, w2) /\ lw_B w2 = [] /\
    written (lw_W w2) = written (lw_W w) ++ frame B).
  { unfold LimitedWriter_Flush, WriteLen. simpl. rewrite Write_unbounded by done.
    destruct (Nat.ltb_spec 0 (length B)).
    - rewrite Write_unbounded by done. eexists. split_and!; [done..|].
      unfold frame. simpl. by rewrite <- app_assoc.
    - assert (B = []) as -> by (apply length_zero_iff_nil; lia).
      eexists. split_and!; [done..|]. unfold frame. by rewrite app_nil_r. }
  destruct HF as (w2 & HF & HB2 & Hw2). exists w2. split_and!; [done..|].
  unfold frame. rewrite fmap_app, <- app_assoc. intros Hf.
  unfold LimitedReader.
  destruct (ReadLen_prefix r (replicate 4 Byte.x00) (u32 (Z.of_nat (length B))) ((inl <$> B) ++ rest))
    as (lb & r1 & HR & Hr1 & _); [by apply wrapU_range|done..|].
  assert (ReadLen r [] = ReadLen r (replicate 4 Byte.x00)) as -> by done.
  rewrite HR, u32_length by done.
  destruct (ReadFull_prefix r1 B rest (length B)) as (r2 & ? & ?); [done..|]. eauto 6.
Qed.

(** ** Witnesses: the hypotheses hold on concrete readers and writers, with a
    pool that hands out dirty buffers. *)

Definition dirty_pool : BufferPool nat.
Proof.
  refine {| pool_Get p n := (replicate (Z.to_nat n) Byte.x2a, S p); pool_Put p _ := p |}.
  intros. simpl. apply length_replicate.
Defined.

Section Witnesses.
Existing Instance dirty_pool.

Let msgs0 : list (list byte) := [[Byte.x01; Byte.x02]; []; [Byte.x03]].
Let w0 : writer nat := Writer (Sink [] None "") 0%nat None.
Let wire0 : list byte := concat (frame <$> msgs0).
Let s0 : reader nat :=
  Reader [Data (take 3 wire0); Data []; Data (drop 3 wire0)] (replicate 4 Byte.x00) (-1) 0%nat 16 None.

Lemma msgio_roundtrip_witness :
  exists s', read_n s0 3 = ([([Byte.x01; Byte.x02], None); ([], None); ([Byte.x03], None)], s') /\
    r_next s' = -1 /\ flat (r_R s') = [].
Proof.
  destruct (msgio_roundtrip w0 s0 msgs0 []) as (w' & Hw & Hr);
    [done|done|split; [by left|done]|done|repeat constructor; vm_compute; congruence|].
  apply Hr. vm_compute in Hw. injection Hw as <-. reflexivity.
Defined.

Lemma msgio_resume_witness :
  exists rs s', read_n (Reader [Data [Byte.x01]; Fail "timeout"; Data [Byte.x02]; Data [Byte.x03]]
                          (replicate 4 Byte.x00) 3 0%nat 16 None) 2 = (rs, s') /\
    concat (fst <$> rs) = [Byte.x01; Byte.x02; Byte.x03] /\
    Forall (fun r => is_Some r.2) (take 1 rs) /\ r_next s' = -1 /\ flat (r_R s') = [].
Proof.
  apply (msgio_resume _ [([Byte.x01], "timeout")] [Byte.x02; Byte.x03] []);
    [split; [right; simpl; lia|done]|done|done|simpl; lia|done].
Defined.

Lemma msgio_too_large_witness :
  exists s', reader_ReadMsg (Reader [Data (PutUint32 17); Data [Byte.x01]]
                               (replicate 4 Byte.x00) (-1) 0%nat 16 None)
    = ([], Some ErrMsgTooLarge, s') /\
    r_next s' = 17 /\ flat (r_R s') = [inl Byte.x01] /\
    reader_ReadMsg s' = ([], Some ErrMsgTooLarge, s').
Proof.
  apply (msgio_too_large _ 17 [inl Byte.x01]);
    [split; [by left|done]|done|unfold inU; lia|simpl; lia|reflexivity].
Defined.

Lemma msgio_reader_safe_witness :
  reader_inv (reader_ReadMsg s0).2 /\
  forall msg, exists res, reader_Read (reader_ReadMsg s0).2 msg = Ret res.
Proof.
  apply (msgio_reader_safe (r_R s0) None 16 0%nat s0); [reflexivity|].
  apply rtc_once. destruct (reader_ReadMsg s0) as [[m err] s'] eqn:E. simpl.
  by eapply step_ReadMsg.
Defined.

Lemma limited_roundtrip_witness :
  exists w2, LimitedWriter_Flush (LW (Sink [] None "") [Byte.x01; Byte.x02; Byte.x03]) = (None, w2) /\
    lw_B w2 = [] /\ written (lw_W w2) = frame [Byte.x01; Byte.x02; Byte.x03].
Proof.
  destruct (limited_roundtrip (NewLimitedWriter (Sink [] None "")) [[Byte.x01]; [Byte.x02; Byte.x03]] [] [])
    as (w2 & ? & ? & ? & _); [done|done|simpl; lia|]. eauto.
Defined.

End Witnesses.
