(* ===== verification/Varint.v ===== *)
(** Varint framing: [core/box/msgio/varint.go] and the delimited protobuf
    streams of [core/box/msgio/protoio].

    Lengths are written with the standard library's [binary.PutUvarint] and read
    with [github.com/multiformats/go-varint], which is not part of the
    repository: it is the interface [GoVarint] below, whose laws are the
    documented behaviour of that package (it inverts the minimal encoding of a
    63-bit number, refuses anything larger and passes on read errors). *)
From Stdlib Require Import ZArith Lia.
From stdpp Require Import base list strings numbers relations.
From S2P Require Import Prelude GoIO Msgio.

Local Open Scope Z_scope.

(** ** [binary.PutUvarint]: ten bytes are enough for a [uint64]. *)
Fixpoint putUvarint (fuel : nat) (x : Z) : list byte :=
  match fuel with
  | O => []
  | S fuel =>
      if 128 <=? x
      then byte_of_Z (Z.lor (u8 x) 128) :: putUvarint fuel (Z.shiftr x 7)
      else [byte_of_Z x]
  end.

Definition MaxVarintLen64 : Z := 10.
Definition MaxLenUvarint63 : Z := 9.
Definition PutUvarint (x : Z) : list byte := putUvarint (Z.to_nat MaxVarintLen64) x.

Arguments PutUvarint : simpl never.

(** ** Byte readers *)

Abbreviation byteReader S := (S -> result byte * S).

(** [rb] yields the bytes [bs] from [s] and is then in [s']. *)
Inductive yields {S : Type} (rb : byteReader S) : S -> list byte -> S -> Prop :=
| yields_nil s : yields rb s [] s
| yields_cons s b s1 bs s2 :
    rb s = (Ok b, s1) -> yields rb s1 bs s2 -> yields rb s (b :: bs) s2.

Class GoVarint := {
  varint_ReadUvarint : forall {S : Type}, byteReader S -> S -> result Z * S;
  varint_PutUvarint : Z -> list byte;
  varint_Put_spec x : 0 <= x < 2 ^ 63 -> varint_PutUvarint x = PutUvarint x;
  varint_Read_spec {S : Type} (rb : byteReader S) s x s' :
    0 <= x < 2 ^ 63 -> yields rb s (PutUvarint x) s' ->
    varint_ReadUvarint rb s = (Ok x, s');
  varint_Read_range {S : Type} (rb : byteReader S) s x s' :
    varint_ReadUvarint rb s = (Ok x, s') -> 0 <= x < 2 ^ 63;
  varint_Read_err {S : Type} (rb : byteReader S) s e s' :
    rb s = (Err e, s') -> varint_ReadUvarint rb s = (Err e, s')
}.

(** [simpleByteReader.ReadByte] *)
Definition simpleByteReader_ReadByte (r : stream) : result byte * stream :=
  let '(bs, err, r') := ReadFull r 1 in
  match err, bs with
  | None, b :: _ => (Ok b, r')
  | None, [] => (Ok Byte.x00, r')
  | Some e, _ => (Err e, r')
  end.

Section VarintFraming.
Context {P : Type} `{BufferPool P} `{GoVarint}.

Record varintWriter := VarintWriter { vw_W : sink; vw_pool : P; vw_closer : closer }.

Definition NewVarintWriterWithPool (w : sink) (c : closer) (p : P) : varintWriter :=
  VarintWriter w p c.

Definition varintWriter_WriteMsg (s : varintWriter) (msg : list byte)
    : option error * varintWriter :=
  let '(buf, p) := pool_Get (vw_pool s) (Z.of_nat (length msg) + MaxVarintLen64) in
  let pre := PutUvarint (u64 (Z.of_nat (length msg))) in
  let buf := copy_at buf 0 pre in
  let buf := copy_at buf (length pre) msg in
  let n := (length pre + Nat.min (length buf - length pre) (length msg))%nat in
  let '(_, err, w') := Write (vw_W s) (take n buf) in
  (err, VarintWriter w' (pool_Put p buf) (vw_closer s)).

Definition varintWriter_Write (s : varintWriter) (msg : list byte)
    : Z * option error * varintWriter :=
  let '(err, s') := varintWriter_WriteMsg s msg in
  match err with
  | Some e => (0, Some e, s')
  | None => (Z.of_nat (length msg), None, s')
  end.

Definition varintWriter_Close (s : varintWriter) : option error := close_if (vw_closer s).

(** [br] reads from the same underlying reader as [R]: one stream. *)
Record varintReader := VarintReader {
  vr_R : stream; vr_next : Z; vr_pool : P; vr_max : Z; vr_closer : closer
}.

Definition NewVarintReaderSizeWithPool (r : stream) (c : closer) (maxMessageSize : Z)
    (p : option P) : outcome varintReader :=
  match p with
  | None => Panic "nil pool"
  | Some p => Ret (VarintReader r (-1) p maxMessageSize c)
  end.

Definition varintReader_nextMsgLen (s : varintReader) : result Z * varintReader :=
  if vr_next s =? -1 then
    let '(l, r') := varint_ReadUvarint simpleByteReader_ReadByte (vr_R s) in
    match l with
    | Err e => (Err e, VarintReader r' (vr_next s) (vr_pool s) (vr_max s) (vr_closer s))
    | Ok l => (Ok (i64 l), VarintReader r' (i64 l) (vr_pool s) (vr_max s) (vr_closer s))
    end
  else (Ok (vr_next s), s).

Definition varintReader_NextMsgLen (s : varintReader) : result Z * varintReader :=
  varintReader_nextMsgLen s.

Definition varintReader_Read (s : varintReader) (msg : list byte)
    : outcome (Z * option error * list byte * varintReader) :=
  let '(l, s1) := varintReader_nextMsgLen s in
  match l with
  | Err e => Ret (0, Some e, msg, s1)
  | Ok len =>
      if Z.of_nat (length msg) <? len then Ret (0, Some ErrShortBuffer, msg, s1)
      else
        obind (slice_to msg len) (fun _ =>
          let '(bs, err, r') := ReadFull (vr_R s1) (Z.to_nat len) in
          Ret (len, err, copy_at msg 0 bs,
               VarintReader r' (-1) (vr_pool s1) (vr_max s1) (vr_closer s1)))
  end.

(** The whole pooled buffer is returned, also when the payload was cut short. *)
Definition varintReader_ReadMsg (s : varintReader) : list byte * option error * varintReader :=
  let '(l, s1) := varintReader_nextMsgLen s in
  match l with
  | Err e => ([], Some e, s1)
  | Ok len =>
      if len =? 0 then
        ([], None, VarintReader (vr_R s1) (-1) (vr_pool s1) (vr_max s1) (vr_closer s1))
      else if vr_max s1 <? len then ([], Some ErrMsgTooLarge, s1)
      else
        let '(msg, p) := pool_Get (vr_pool s1) len in
        let '(bs, err, r') := ReadFull (vr_R s1) (length msg) in
        (copy_at msg 0 bs, err, VarintReader r' (-1) p (vr_max s1) (vr_closer s1))
  end.

Definition varintReader_ReleaseMsg (s : varintReader) (msg : list byte) : varintReader :=
  VarintReader (vr_R s) (vr_next s) (pool_Put (vr_pool s) msg) (vr_max s) (vr_closer s).

Definition varintReader_Close (s : varintReader) : option error := close_if (vr_closer s).

End VarintFraming.

Arguments varintWriter P : clear implicits.
Arguments varintReader P : clear implicits.
Arguments VarintWriter {P}.
Arguments VarintReader {P}.

(** ** protoio

    Protobuf messages ([github.com/golang/protobuf/proto] and generated code)
    are values of a type [M] with the methods the writer looks for.  A method
    may panic; [MarshalTo m] is the bytes it stores at the start of the buffer
    it is given. *)
Class ProtoMessage (M : Type) := {
  proto_MarshalTo : M -> option (outcome (result (list byte)));
  proto_Size : M -> option Z;
  proto_ProtoSize : M -> option Z;
  proto_Marshal : M -> outcome (result (list byte));
  proto_Unmarshal : list byte -> outcome (result M)
}.

Section Protoio.
Context {M : Type} `{ProtoMessage M} `{GoVarint}.

Definition getSize (v : M) : option Z :=
  match proto_Size v with
  | Some n => Some n
  | None =>
      match proto_ProtoSize v with
      | Some n => Some n
      | None => None
      end
  end.

Record uvarintWriter := UvarintWriter { uw_w : sink; uw_lenBuf : list byte; uw_buffer : list byte }.

Definition NewDelimitedWriter (w : sink) : uvarintWriter :=
  UvarintWriter w (replicate (Z.to_nat MaxLenUvarint63) Byte.x00) [].

(** The deferred [recover]: a panic of the body becomes an error. *)
Definition recovered {A S} (s : S) (r : outcome (result A * S)) : result A * S :=
  match r with
  | Ret x => x
  | Panic m => (Err ("panic reading message: " +:+ m), s)
  end.

(** The path of a message with [MarshalTo] and a known size: length and payload
    share one buffer, which is kept for the next message. *)
Definition uvarintWriter_sized (uw : uvarintWriter) (mt : outcome (result (list byte))) (n : Z)
    : outcome (result unit * uvarintWriter) :=
  let buffer :=
    if Z.of_nat (length (uw_buffer uw)) <=? n + MaxLenUvarint63
    then replicate (Z.to_nat (n + MaxLenUvarint63)) Byte.x00 else uw_buffer uw in
  let pre := varint_PutUvarint (u64 n) in
  let buffer := copy_at buffer 0 pre in
  obind mt (fun mt =>
    match mt with
    | Err e => Ret (Err e, UvarintWriter (uw_w uw) (uw_lenBuf uw) buffer)
    | Ok body =>
        let buffer := copy_at buffer (length pre) body in
        obind (slice_to buffer (Z.of_nat (length pre) + n)) (fun out =>
          let '(_, err, w') := Write (uw_w uw) out in
          Ret (match err with Some e => Err e | None => Ok tt end,
               UvarintWriter w' (uw_lenBuf uw) buffer))
    end).

(** The fallback: the length and the payload in two writes. *)
Definition uvarintWriter_fallback (uw : uvarintWriter) (msg : M)
    : outcome (result unit * uvarintWriter) :=
  obind (proto_Marshal msg) (fun data =>
    match data with
    | Err e => Ret (Err e, uw)
    | Ok data =>
        let pre := varint_PutUvarint (u64 (Z.of_nat (length data))) in
        let lenBuf := copy_at (uw_lenBuf uw) 0 pre in
        let '(_, err, w1) := Write (uw_w uw) (take (length pre) lenBuf) in
        match err with
        | Some e => Ret (Err e, UvarintWriter w1 lenBuf (uw_buffer uw))
        | None =>
            let '(_, err, w2) := Write w1 data in
            Ret (match err with Some e => Err e | None => Ok tt end,
                 UvarintWriter w2 lenBuf (uw_buffer uw))
        end
    end).

Definition uvarintWriter_WriteMsg (uw : uvarintWriter) (msg : M)
    : result unit * uvarintWriter :=
  recovered uw
    (match proto_MarshalTo msg, getSize msg with
     | Some mt, Some n => uvarintWriter_sized uw mt n
     | _, _ => uvarintWriter_fallback uw msg
     end).

Record uvarintReader := UvarintReader { ur_r : stream; ur_buf : list byte; ur_maxSize : Z; ur_closer : closer }.

Definition NewDelimitedReader (r : stream) (c : closer) (maxSize : Z) : uvarintReader :=
  UvarintReader r [] maxSize c.

Definition uvarintReader_ReadMsg (ur : uvarintReader) : result M * uvarintReader :=
  let '(l, r1) := varint_ReadUvarint simpleByteReader_ReadByte (ur_r ur) in
  match l with
  | Err e => (Err e, UvarintReader r1 (ur_buf ur) (ur_maxSize ur) (ur_closer ur))
  | Ok length64 =>
      let len := i64 length64 in
      if (len <? 0) || (ur_maxSize ur <? len)
      then (Err ErrShortBuffer, UvarintReader r1 (ur_buf ur) (ur_maxSize ur) (ur_closer ur))
      else
        let buf := if Z.of_nat (length (ur_buf ur)) <? len
                   then replicate (Z.to_nat len) Byte.x00 else ur_buf ur in
        let '(bs, err, r2) := ReadFull r1 (Z.to_nat len) in
        let buf := copy_at buf 0 bs in
        let ur' := UvarintReader r2 buf (ur_maxSize ur) (ur_closer ur) in
        match err with
        | Some e => (Err e, ur')
        | None =>
            recovered ur' (obind (proto_Unmarshal (take (Z.to_nat len) buf)) (fun m => Ret (m, ur')))
        end
  end.

Definition uvarintReader_Close (ur : uvarintReader) : option error := close_if (ur_closer ur).

End Protoio.

(** ** The encoding *)

Definition vframe (msg : list byte) : list byte :=
  PutUvarint (Z.of_nat (length msg)) ++ msg.

Section UvarintLemmas.

Lemma lor_128 a : 0 <= a < 256 -> Z.lor a 128 = a mod 128 + 128.
Proof.
  intros Ha.
  assert (Hall : forallb (fun n => Z.lor (Z.of_nat n) 128 =? Z.of_nat n mod 128 + 128) (seq 0 256) = true)
    by (vm_compute; reflexivity).
  rewrite forallb_forall in Hall. specialize (Hall (Z.to_nat a)).
  rewrite Z2Nat.id in Hall by lia. apply Z.eqb_eq, Hall, in_seq. lia.
Qed.

(** A continuation byte carries the low seven bits. *)
Lemma continuation_byte x :
  0 <= x -> Z_of_byte (byte_of_Z (Z.lor (u8 x) 128)) = x mod 128 + 128.
Proof.
  intros Hx. rewrite Z_of_byte_of_Z.
  pose proof (wrapU_range 8 x ltac:(lia)) as Hr. unfold inU in Hr.
  rewrite lor_128 by lia. unfold wrapU in *.
  change (2 ^ 8) with 256 in *. Z.to_euclidean_division_equations. lia.
Qed.

Lemma length_putUvarint fuel x k :
  0 <= x < 2 ^ (7 * Z.of_nat (S k)) -> (length (putUvarint fuel x) <= S k)%nat.
Proof.
  revert x k. induction fuel as [|fuel IH]; intros x k Hx; [simpl; lia|]. simpl.
  destruct (Z.leb_spec 128 x); [|simpl; lia]. destruct k as [|k].
  { simpl in Hx. lia. }
  simpl. apply le_n_S, IH. rewrite Z.shiftr_div_pow2 by lia.
  replace (7 * Z.of_nat (S (S k))) with (7 + 7 * Z.of_nat (S k)) in Hx by lia.
  rewrite Z.pow_add_r in Hx by lia. split.
  - apply Z.div_pos; lia.
  - apply Z.div_lt_upper_bound; lia.
Qed.

Lemma length_PutUvarint63 x : 0 <= x < 2 ^ 63 -> (length (PutUvarint x) <= 9)%nat.
Proof. intros. apply (length_putUvarint _ _ 8). simpl. lia. Qed.

End UvarintLemmas.

Section ByteReaderLemmas.

Lemma simpleByteReader_flat r b rest :
  flat r = inl b :: rest ->
  exists r', simpleByteReader_ReadByte r = (Ok b, r') /\ flat r' = rest.
Proof.
  intros Hf. unfold simpleByteReader_ReadByte.
  destruct (ReadFull_prefix r [b] rest 1) as (r' & -> & ?); [done..|]. eauto.
Qed.

Lemma simpleByteReader_yields r bs rest :
  flat r = (inl <$> bs) ++ rest ->
  exists r', yields simpleByteReader_ReadByte r bs r' /\ flat r' = rest.
Proof.
  revert r. induction bs as [|b bs IH]; intros r Hf.
  { exists r. split; [constructor|done]. }
  destruct (simpleByteReader_flat r b ((inl <$> bs) ++ rest)) as (r1 & H1 & Hf1); [done|].
  destruct (IH r1 Hf1) as (r2 & H2 & Hf2). exists r2. split; [by econstructor|done].
Qed.

(** The length prefix of a frame, from any fragmentation of the stream. *)
Lemma ReadUvarint_prefix `{GoVarint} r x rest :
  0 <= x < 2 ^ 63 -> flat r = (inl <$> PutUvarint x) ++ rest ->
  exists r', varint_ReadUvarint simpleByteReader_ReadByte r = (Ok x, r') /\ flat r' = rest.
Proof.
  intros Hx Hf. destruct (simpleByteReader_yields r _ _ Hf) as (r' & Hy & Hf').
  exists r'. split; [|done]. by apply varint_Read_spec.
Qed.

Lemma u64_small x : 0 <= x < 2 ^ 63 -> u64 x = x.
Proof. intros. apply wrapU_small. unfold inU. lia. Qed.

End ByteReaderLemmas.

Section VarintRuns.
Context {P : Type} `{BufferPool P} `{GoVarint}.

Fixpoint vwrite_all (s : varintWriter P) (msgs : list (list byte)) : option error * varintWriter P :=
  match msgs with
  | [] => (None, s)
  | m :: ms =>
      let '(err, s') := varintWriter_WriteMsg s m in
      match err with Some e => (Some e, s') | None => vwrite_all s' ms end
  end.

Fixpoint vread_n (s : varintReader P) (n : nat)
    : list (list byte * option error) * varintReader P :=
  match n with
  | O => ([], s)
  | S n =>
      let '(m, err, s1) := varintReader_ReadMsg s in
      let '(rs, s2) := vread_n s1 n in ((m, err) :: rs, s2)
  end.

Definition varintReader_inv (s : varintReader P) : Prop :=
  vr_next s = -1 \/ 0 <= vr_next s < 2 ^ 63.

Lemma varintWriter_WriteMsg_frame (s : varintWriter P) msg :
  Z.of_nat (length msg) < 2 ^ 63 ->
  exists p', varintWriter_WriteMsg s msg =
    let '(_, err, w') := Write (vw_W s) (vframe msg) in (err, VarintWriter w' p' (vw_closer s)).
Proof.
  intros Hlt. unfold varintWriter_WriteMsg.
  pose proof (pool_Get_length (vw_pool s) (Z.of_nat (length msg) + MaxVarintLen64)) as Hl.
  destruct (pool_Get _ _) as [buf p]. simpl in Hl. unfold MaxVarintLen64 in *.
  rewrite u64_small by lia. set (pre := PutUvarint (Z.of_nat (length msg))).
  assert (length pre <= 9)%nat by (apply length_PutUvarint63; lia).
  rewrite !length_copy_at by (rewrite ?length_copy_at; lia).
  replace (Nat.min (length buf - length pre) (length msg)) with (length msg) by lia.
  rewrite copy_at_prefix by lia.
  fold pre (vframe msg). destruct (Write _ _) as [[??]?]. eauto.
Qed.

Lemma vwrite_all_unbounded (s : varintWriter P) msgs :
  room (vw_W s) = None -> Forall (fun m => Z.of_nat (length m) < 2 ^ 63) msgs ->
  exists s', vwrite_all s msgs = (None, s') /\
    written (vw_W s') = written (vw_W s) ++ concat (vframe <$> msgs).
Proof.
  revert s. induction msgs as [|m ms IH]; intros s Hr Hall; simpl.
  { exists s. by rewrite app_nil_r. }
  apply Forall_cons_1 in Hall as [Hm Hall].
  destruct (varintWriter_WriteMsg_frame s m Hm) as [p' ->].
  rewrite Write_unbounded by done.
  destruct (IH (VarintWriter (Sink (written (vw_W s) ++ vframe m) None (werr (vw_W s))) p' (vw_closer s)))
    as (s' & ? & Hw); [done..|].
  exists s'. rewrite Hw. simpl. by rewrite <- app_assoc.
Qed.

Lemma varintReader_nextMsgLen_frame (s : varintReader P) len rest :
  vr_next s = -1 -> 0 <= len < 2 ^ 63 ->
  flat (vr_R s) = (inl <$> PutUvarint len) ++ rest ->
  exists r', varintReader_nextMsgLen s
    = (Ok len, VarintReader r' len (vr_pool s) (vr_max s) (vr_closer s)) /\ flat r' = rest.
Proof.
  intros Hn Hlen Hf.
  destruct (ReadUvarint_prefix (vr_R s) len rest Hlen Hf) as (r' & HR & Hf').
  exists r'. unfold varintReader_nextMsgLen. rewrite Hn, HR, i64_small by lia. done.
Qed.

Lemma varintReader_ReadMsg_frame (s : varintReader P) msg rest :
  vr_next s = -1 -> Z.of_nat (length msg) < 2 ^ 63 -> Z.of_nat (length msg) <= vr_max s ->
  flat (vr_R s) = (inl <$> vframe msg) ++ rest ->
  exists s', varintReader_ReadMsg s = (msg, None, s') /\
    vr_next s' = -1 /\ vr_max s' = vr_max s /\ flat (vr_R s') = rest.
Proof.
  intros Hn Hlt Hmax Hf. unfold vframe in Hf. rewrite fmap_app, <- app_assoc in Hf.
  destruct (varintReader_nextMsgLen_frame s _ _ Hn (conj (Nat2Z.is_nonneg _) Hlt) Hf) as (r1 & Hnext & Hf1).
  unfold varintReader_ReadMsg. rewrite Hnext. simpl.
  destruct (decide (msg = [])) as [->|Hne].
  { simpl. eexists. by split. }
  assert (0 < length msg)%nat by (destruct msg; simpl; [done|lia]).
  rewrite (proj2 (Z.eqb_neq _ 0)), (proj2 (Z.ltb_ge _ _)) by lia.
  pose proof (pool_Get_length (vr_pool s) (Z.of_nat (length msg))) as Hl.
  destruct (pool_Get _ _) as [buf p]. simpl in Hl. rewrite Hl by lia.
  destruct (ReadFull_prefix r1 msg rest (Z.to_nat (Z.of_nat (length msg)))) as (r2 & -> & Hr2);
    [done|lia|].
  rewrite copy_at_all by lia. eexists. by split.
Qed.

Lemma vread_n_frames (s : varintReader P) msgs rest :
  vr_next s = -1 ->
  Forall (fun m => Z.of_nat (length m) < 2 ^ 63 /\ Z.of_nat (length m) <= vr_max s) msgs ->
  flat (vr_R s) = (inl <$> concat (vframe <$> msgs)) ++ rest ->
  exists s', vread_n s (length msgs) = ((fun m => (m, None)) <$> msgs, s') /\
    vr_next s' = -1 /\ flat (vr_R s') = rest.
Proof.
  revert s. induction msgs as [|m ms IH]; intros s Hn Hall Hf; simpl; [by exists s|].
  apply Forall_cons_1 in Hall as [[Hm1 Hm2] Hall].
  simpl in Hf. rewrite fmap_app, <- app_assoc in Hf.
  destruct (varintReader_ReadMsg_frame s m _ Hn Hm1 Hm2 Hf) as (s1 & -> & Hn1 & Hmax & Hf1).
  destruct (IH s1 Hn1) as (s2 & -> & ?); [by rewrite Hmax|done|].
  eexists. by split.
Qed.

End VarintRuns.

Section ProtoRuns.
Context {M : Type} `{ProtoMessage M} `{GoVarint}.

(** The contract of the message's methods on the path the writer takes: [Size]
    announces the number of bytes [MarshalTo] stores. *)
Definition encodes (m : M) (bs : list byte) : Prop :=
  match proto_MarshalTo m, getSize m with
  | Some mt, Some n => mt = Ret (Ok bs) /\ n = Z.of_nat (length bs)
  | _, _ => proto_Marshal m = Ret (Ok bs)
  end.

(** What [ReadMsg] makes of a payload. *)
Definition decoded (bs : list byte) : result M :=
  match proto_Unmarshal bs with
  | Ret r => r
  | Panic p => Err ("panic reading message: " +:+ p)
  end.

Fixpoint pwrite_all (uw : uvarintWriter) (ms : list M) : result unit * uvarintWriter :=
  match ms with
  | [] => (Ok tt, uw)
  | m :: ms =>
      let '(r, uw') := uvarintWriter_WriteMsg uw m in
      match r with Err e => (Err e, uw') | Ok _ => pwrite_all uw' ms end
  end.

Fixpoint pread_n (ur : uvarintReader) (n : nat) : list (result M) * uvarintReader :=
  match n with
  | O => ([], ur)
  | S n =>
      let '(m, ur1) := uvarintReader_ReadMsg ur in
      let '(rs, ur2) := pread_n ur1 n in (m :: rs, ur2)
  end.

Definition uw_ready (uw : uvarintWriter) : Prop :=
  room (uw_w uw) = None /\ length (uw_lenBuf uw) = 9%nat.

Lemma uvarintWriter_sized_frame uw bs n :
  uw_ready uw -> Z.of_nat (length bs) = n -> n < 2 ^ 63 ->
  exists uw', uvarintWriter_sized uw (Ret (Ok bs)) n = Ret (Ok tt, uw') /\ uw_ready uw' /\
    written (uw_w uw') = written (uw_w uw) ++ vframe bs.
Proof.
  intros [Hr Hl] Hn Hlt. unfold uvarintWriter_sized, MaxLenUvarint63.
  rewrite u64_small, varint_Put_spec by lia.
  set (pre := PutUvarint n).
  assert (length pre <= 9)%nat by (apply length_PutUvarint63; lia).
  match goal with |- context [copy_at ?b 0 pre] => set (buffer := b) end.
  assert (length bs + 9 <= length buffer)%nat.
  { unfold buffer. destruct (Z.leb_spec (Z.of_nat (length (uw_buffer uw))) (n + 9));
      [rewrite length_replicate|]; lia. }
  simpl. unfold slice_to. rewrite !length_copy_at by (rewrite ?length_copy_at; lia).
  rewrite (proj2 (Z.leb_le 0 _)), (proj2 (Z.leb_le (_ + _) _)) by lia. simpl.
  replace (Z.to_nat (Z.of_nat (length pre) + n)) with (length pre + length bs)%nat by lia.
  rewrite copy_at_prefix, Write_unbounded by (done || lia).
  eexists. split; [done|]. unfold uw_ready, vframe; simpl. subst pre n. done.
Qed.

Lemma uvarintWriter_fallback_frame uw m bs :
  uw_ready uw -> proto_Marshal m = Ret (Ok bs) -> Z.of_nat (length bs) < 2 ^ 63 ->
  exists uw', uvarintWriter_fallback uw m = Ret (Ok tt, uw') /\ uw_ready uw' /\
    written (uw_w uw') = written (uw_w uw) ++ vframe bs.
Proof.
  intros [Hr Hl] Hm Hlt. unfold uvarintWriter_fallback. rewrite Hm. simpl.
  rewrite u64_small, varint_Put_spec by lia.
  set (pre := PutUvarint _).
  assert (length pre <= 9)%nat by (apply length_PutUvarint63; lia).
  rewrite take_copy_at, !Write_unbounded by (done || lia). simpl.
  eexists. split; [done|]. unfold uw_ready, vframe; simpl.
  rewrite length_copy_at, <- app_assoc by lia. done.
Qed.

Lemma uvarintWriter_WriteMsg_frame uw m bs :
  uw_ready uw -> encodes m bs -> Z.of_nat (length bs) < 2 ^ 63 ->
  exists uw', uvarintWriter_WriteMsg uw m = (Ok tt, uw') /\ uw_ready uw' /\
    written (uw_w uw') = written (uw_w uw) ++ vframe bs.
Proof.
  intros Hu He Hlt. unfold encodes in He. unfold uvarintWriter_WriteMsg.
  destruct (proto_MarshalTo m) as [mt|], (getSize m) as [n|].
  1: destruct He as [-> ->];
     destruct (uvarintWriter_sized_frame uw bs _ Hu eq_refl Hlt) as (uw' & -> & ?); eauto.
  all: destruct (uvarintWriter_fallback_frame uw m bs Hu He Hlt) as (uw' & -> & ?); eauto.
Qed.

Lemma pwrite_all_frames uw ms bss :
  uw_ready uw -> Forall2 encodes ms bss ->
  Forall (fun bs => Z.of_nat (length bs) < 2 ^ 63) bss ->
  exists uw', pwrite_all uw ms = (Ok tt, uw') /\
    written (uw_w uw') = written (uw_w uw) ++ concat (vframe <$> bss).
Proof.
  intros Hu Hall. revert uw Hu.
  induction Hall as [|m bs ms bss He Hall IH]; intros uw Hu Hlen; simpl.
  { exists uw. by rewrite app_nil_r. }
  apply Forall_cons_1 in Hlen as [Hb Hlen].
  destruct (uvarintWriter_WriteMsg_frame uw m bs Hu He Hb) as (uw1 & -> & Hu1 & Hw1).
  destruct (IH uw1 Hu1 Hlen) as (uw2 & -> & Hw2).
  exists uw2. split; [done|]. rewrite Hw2, Hw1. by rewrite <- app_assoc.
Qed.

Lemma uvarintReader_ReadMsg_frame ur bs rest :
  Z.of_nat (length bs) < 2 ^ 63 -> Z.of_nat (length bs) <= ur_maxSize ur ->
  flat (ur_r ur) = (inl <$> vframe bs) ++ rest ->
  exists ur', uvarintReader_ReadMsg ur = (decoded bs, ur') /\
    ur_maxSize ur' = ur_maxSize ur /\ flat (ur_r ur') = rest.
Proof.
  intros Hlt Hmax Hf. unfold vframe in Hf. rewrite fmap_app, <- app_assoc in Hf.
  destruct (ReadUvarint_prefix (ur_r ur) _ _ (conj (Nat2Z.is_nonneg _) Hlt) Hf) as (r1 & HR & Hf1).
  unfold uvarintReader_ReadMsg. rewrite HR, i64_small by lia.
  rewrite (proj2 (Z.ltb_ge _ 0)), (proj2 (Z.ltb_ge _ _)) by lia. simpl. rewrite Nat2Z.id.
  destruct (ReadFull_prefix r1 bs rest (length bs)) as (r2 & -> & Hr2); [done..|].
  rewrite take_copy_at.
  2:{ destruct (Z.ltb_spec (Z.of_nat (length (ur_buf ur))) (Z.of_nat (length bs)));
        [rewrite length_replicate|]; lia. }
  unfold decoded. destruct (proto_Unmarshal bs) as [r|p]; simpl; eauto.
Qed.

Lemma pread_n_frames ur bss rest :
  Forall (fun bs => Z.of_nat (length bs) < 2 ^ 63 /\ Z.of_nat (length bs) <= ur_maxSize ur) bss ->
  flat (ur_r ur) = (inl <$> concat (vframe <$> bss)) ++ rest ->
  exists ur', pread_n ur (length bss) = (decoded <$> bss, ur') /\ flat (ur_r ur') = rest.
Proof.
  revert ur. induction bss as [|bs bss IH]; intros ur Hall Hf; simpl; [by exists ur|].
  apply Forall_cons_1 in Hall as [[Hb1 Hb2] Hall].
  simpl in Hf. rewrite fmap_app, <- app_assoc in Hf.
  destruct (uvarintReader_ReadMsg_frame ur bs _ Hb1 Hb2 Hf) as (ur1 & -> & Hmax & Hf1).
  destruct (IH ur1) as (ur2 & -> & ?); [by rewrite Hmax|done|]. eauto.
Qed.

End ProtoRuns.

(** ** Properties *)

Section VarintProperties.
Context {P : Type} `{BufferPool P} `{GoVarint}.

(** Round trip of the varint framing.  Messages written by [varintWriter] on
    a transport that does not fail are read back by [varintReader], in order and
    without error, for every fragmentation of the bytes and every content of the
    recycled buffers; the reader then stands exactly behind the last frame. *)
Theorem varint_roundtrip (w : varintWriter P) (s : varintReader P) msgs rest :
  room (vw_W w) = None -> written (vw_W w) = [] -> vr_next s = -1 ->
  Forall (fun m => Z.of_nat (length m) < 2 ^ 63 /\ Z.of_nat (length m) <= vr_max s) msgs ->
  exists w', vwrite_all w msgs = (None, w') /\
    (flat (vr_R s) = (inl <$> written (vw_W w')) ++ rest ->
     exists s', vread_n s (length msgs) = ((fun m => (m, None)) <$> msgs, s') /\
       vr_next s' = -1 /\ flat (vr_R s') = rest).
Proof.
  intros Hr Hw0 Hn Hall.
  destruct (vwrite_all_unbounded w msgs Hr) as (w' & Hrun & Hw);
    [eapply Forall_impl; [exact Hall|simpl; tauto]|].
  exists w'. split; [done|]. rewrite Hw, Hw0. intros Hf. by apply vread_n_frames.
Qed.

(** The operations of a varint reader, as steps. *)
Inductive varintReader_step : varintReader P -> varintReader P -> Prop :=
| vstep_NextMsgLen s l s' : varintReader_NextMsgLen s = (l, s') -> varintReader_step s s'
| vstep_Read s msg n err msg' s' :
    varintReader_Read s msg = Ret (n, err, msg', s') -> varintReader_step s s'
| vstep_ReadMsg s m err s' : varintReader_ReadMsg s = (m, err, s') -> varintReader_step s s'
| vstep_ReleaseMsg s m : varintReader_step s (varintReader_ReleaseMsg s m)
| vstep_transport s more :
    varintReader_step s (VarintReader (vr_R s ++ more) (vr_next s) (vr_pool s) (vr_max s) (vr_closer s)).

Lemma varintReader_nextMsgLen_inv (s : varintReader P) l s1 :
  varintReader_inv s -> varintReader_nextMsgLen s = (l, s1) ->
  varintReader_inv s1 /\ match l with Ok n => 0 <= n < 2 ^ 63 | Err _ => True end.
Proof.
  intros Hi. unfold varintReader_nextMsgLen. destruct (Z.eqb_spec (vr_next s) (-1)).
  - destruct (varint_ReadUvarint _ _) as [[x|e0] r'] eqn:E; intros [= <- <-].
    + apply varint_Read_range in E. rewrite i64_small by lia. split; [by right|done].
    + split; [by left|done].
  - intros [= <- <-]. split; [done|]. destruct Hi; [done|lia].
Qed.

Lemma varintReader_Read_inv (s : varintReader P) msg :
  varintReader_inv s ->
  exists n err msg' s', varintReader_Read s msg = Ret (n, err, msg', s') /\ varintReader_inv s'.
Proof.
  intros Hi. unfold varintReader_Read.
  destruct (varintReader_nextMsgLen s) as [l s1] eqn:E.
  pose proof (varintReader_nextMsgLen_inv _ _ _ Hi E) as [Hi1 Hl].
  destruct l as [n|e]; [|by do 4 eexists].
  destruct (Z.ltb_spec (Z.of_nat (length msg)) n); [by do 4 eexists|].
  unfold slice_to. rewrite (proj2 (Z.leb_le 0 n)), (proj2 (Z.leb_le n _)) by lia. simpl.
  destruct (ReadFull _ _) as [[bs er] r'].
  do 4 eexists. split; [done|]. by left.
Qed.

Lemma varintReader_ReadMsg_inv (s : varintReader P) m err s' :
  varintReader_inv s -> varintReader_ReadMsg s = (m, err, s') -> varintReader_inv s'.
Proof.
  intros Hi. unfold varintReader_ReadMsg.
  destruct (varintReader_nextMsgLen s) as [l s1] eqn:E.
  pose proof (varintReader_nextMsgLen_inv _ _ _ Hi E) as [Hi1 Hl].
  destruct l as [n|e]; [|by intros [= _ _ <-]].
  case_match; [intros [= _ _ <-]; by left|]. case_match; [by intros [= _ _ <-]|].
  destruct (pool_Get _ _) as [b p]. destruct (ReadFull _ _) as [[bs er] r'].
  intros [= _ _ <-]. by left.
Qed.

(** Safety of the varint reader.  In every state reachable from a fresh
    reader, whatever the peer sends, [next] is [-1] or a 63-bit length, so the
    conversion [int(length)] never produces a negative length and neither [Read]
    (which slices its buffer by it) nor [ReadMsg] (which allocates by it without
    a check for negative values) can fault. *)
Theorem varint_reader_safe (r : stream) c max (p : P) s s' :
  NewVarintReaderSizeWithPool r c max (Some p) = Ret s -> rtc varintReader_step s s' ->
  varintReader_inv s' /\
  (forall msg, exists res, varintReader_Read s' msg = Ret res) /\
  (forall n s1, varintReader_nextMsgLen s' = (Ok n, s1) -> 0 <= n).
Proof.
  intros [= <-] Hrtc.
  assert (Hi : varintReader_inv s').
  { revert Hrtc. apply (rtc_ind_r (fun s' => varintReader_inv s')); [by left|].
    intros y z _ Hyz Hy. destruct Hyz as [? ? ? E|? ? ? ? ? ? E|? ? ? ? E| |]; try done.
    - by apply varintReader_nextMsgLen_inv in E as [? _].
    - destruct (varintReader_Read_inv _ msg Hy) as (? & ? & ? & ? & E2 & ?). congruence.
    - by eapply varintReader_ReadMsg_inv. }
  split_and!; [done|..].
  - intros msg. destruct (varintReader_Read_inv s' msg Hi) as (? & ? & ? & ? & -> & _). eauto.
  - intros n s1 E. apply varintReader_nextMsgLen_inv in E as [_ ?]; [lia|done].
Qed.

End VarintProperties.

(** C8: Round trip and resynchronisation of the delimited protobuf streams.  A
    list of messages whose methods keep their size contract is written without
    error by either path of [WriteMsg] (sized or fallback), and a reader whose
    limit admits the payloads returns for each of them what [proto.Unmarshal]
    makes of its payload: the message again where the codec inverts itself, and
    an error (a panic of the decoder included) where it does not, without losing
    the frames that follow. *)
Theorem protoio_roundtrip {M : Type} `{ProtoMessage M} `{GoVarint}
    (w : sink) (r : stream) c maxSize (ms : list M) bss rest :
  room w = None -> written w = [] -> Forall2 encodes ms bss ->
  Forall (fun bs => Z.of_nat (length bs) < 2 ^ 63 /\ Z.of_nat (length bs) <= maxSize) bss ->
  exists uw', pwrite_all (NewDelimitedWriter w) ms = (Ok tt, uw') /\
    (flat r = (inl <$> written (uw_w uw')) ++ rest ->
     exists ur', pread_n (NewDelimitedReader r c maxSize) (length ms) = (decoded <$> bss, ur') /\
       flat (ur_r ur') = rest).
Proof.
  intros Hr Hw0 Henc Hall.
  destruct (pwrite_all_frames (NewDelimitedWriter w) ms bss) as (uw' & Hrun & Hw);
    [done|done|eapply Forall_impl; [exact Hall|simpl; tauto]|].
  exists uw'. split; [done|]. rewrite Hw. simpl. rewrite Hw0. intros Hf.
  rewrite (Forall2_length _ _ _ Henc). by apply pread_n_frames.
Qed.

(** ** A model of the varint interface

    A decoder with the documented behaviour of [go-varint] (63 bits, minimal
    encodings), which shows that the laws of [GoVarint] can be met. *)
Section ReferenceVarint.

Fixpoint ref_read {S : Type} (rb : byteReader S) (fuel : nat) (x s : Z) (st : S) : result Z * S :=
  match fuel with
  | O => (Err "varints larger than uint63 not supported", st)
  | Datatypes.S fuel =>
      match rb st with
      | (Err e, st') => (Err (if (0 <? s) && bool_decide (e = EOF) then ErrUnexpectedEOF else e), st')
      | (Ok b, st') =>
          let v := Z_of_byte b in
          if v <? 128 then
            if (v =? 0) && (0 <? s) then (Err "varint not minimally encoded", st')
            else (Ok (x + v * 2 ^ s), st')
          else ref_read rb fuel (x + (v - 128) * 2 ^ s) (s + 7) st'
      end
  end.

Lemma ref_read_spec {S : Type} (rb : byteReader S) fuel x s y st st' :
  0 <= y < 2 ^ (7 * Z.of_nat fuel) -> 0 <= s -> (0 < s -> 0 < y) -> (fuel <> 0%nat \/ 0 < y) ->
  (exists fuel', yields rb st (putUvarint fuel' y) st' /\ (fuel <= fuel')%nat) ->
  ref_read rb fuel x s st = (Ok (x + y * 2 ^ s), st').
Proof.
  revert x s y st. induction fuel as [|fuel IH]; intros x s y st Hy Hs Hpos Hfy (fuel' & Hyl & Hf).
  { simpl in Hy. lia. }
  destruct fuel' as [|fuel']; [lia|]. cbn [putUvarint] in Hyl. cbn [ref_read].
  destruct (Z.leb_spec 128 y).
  - inversion Hyl as [|? ? st1 ? ? Hb Hyl']; subst. rewrite Hb, continuation_byte by lia.
    pose proof (Z.mod_pos_bound y 128).
    rewrite (proj2 (Z.ltb_ge _ 128)) by lia.
    assert (Hq : 0 < Z.shiftr y 7 < 2 ^ (7 * Z.of_nat fuel)).
    { rewrite Z.shiftr_div_pow2 by lia. change (2 ^ 7) with 128. split.
      - apply Z.div_str_pos. lia.
      - apply Z.div_lt_upper_bound; [lia|].
        replace (7 * Z.of_nat (Datatypes.S fuel)) with (7 + 7 * Z.of_nat fuel) in Hy by lia.
        rewrite Z.pow_add_r in Hy by lia. lia. }
    rewrite (IH _ _ (Z.shiftr y 7)); [|lia|lia|lia|lia|exists fuel'; split; [done|lia]].
    f_equal. f_equal. rewrite Z.shiftr_div_pow2, Z.pow_add_r by lia. change (2 ^ 7) with 128.
    pose proof (Z.div_mod y 128). nia.
  - inversion Hyl as [|? ? st1 ? ? Hb Hyl']; subst. inversion Hyl'; subst.
    rewrite Hb, Z_of_byte_of_Z. unfold wrapU. rewrite Z.mod_small by lia.
    rewrite (proj2 (Z.ltb_lt _ 128)) by lia.
    replace ((y =? 0) && (0 <? s)) with false; [done|].
    symmetry. apply andb_false_iff.
    destruct (Z.ltb_spec 0 s); [left; apply Z.eqb_neq; lia|by right].
Qed.

Lemma ref_read_range {S : Type} (rb : byteReader S) fuel x s st y st' :
  0 <= s -> 0 <= x < 2 ^ s -> ref_read rb fuel x s st = (Ok y, st') ->
  0 <= y < 2 ^ (s + 7 * Z.of_nat fuel).
Proof.
  revert x s st. induction fuel as [|fuel IH]; intros x s st Hs Hx; cbn [ref_read]; [done|].
  destruct (rb st) as [[b|e] st1]; [|done].
  pose proof (Z_of_byte_range b). pose proof (Z.pow_pos_nonneg 2 s ltac:(lia) Hs).
  assert (H7 : 2 ^ (s + 7) = 128 * 2 ^ s) by (rewrite Z.pow_add_r by lia; lia).
  replace (s + 7 * Z.of_nat (Datatypes.S fuel)) with (s + 7 + 7 * Z.of_nat fuel) by lia.
  destruct (Z.ltb_spec (Z_of_byte b) 128).
  - case_match; [done|]. intros [= <- <-].
    assert (2 ^ (s + 7) <= 2 ^ (s + 7 + 7 * Z.of_nat fuel)) by (apply Z.pow_le_mono_r; lia).
    nia.
  - apply IH; [lia|]. rewrite H7. nia.
Qed.

Definition ref_varint : GoVarint.
Proof.
  refine {| varint_ReadUvarint S rb st := ref_read rb 9 0 0 st; varint_PutUvarint := PutUvarint |}.
  - done.
  - intros S rb s x s' Hx Hy.
    rewrite (ref_read_spec rb 9 0 0 x s s');
      [by rewrite Z.mul_1_r|simpl; lia|lia|lia|by left|exists 10%nat; split; [exact Hy|lia]].
  - intros S rb s x s' E. apply ref_read_range in E; [done|lia|simpl; lia].
  - intros S rb s e s' E. cbn [ref_read]. by rewrite E.
Defined.

End ReferenceVarint.

Section VarintWitnesses.
Existing Instance dirty_pool.
Existing Instance ref_varint.

Let msgs0 : list (list byte) := [replicate 200 Byte.x07; []; [Byte.x03]].
Let w0 : varintWriter nat := VarintWriter (Sink [] None "") 0%nat None.
Let wire0 : list byte := concat (vframe <$> msgs0).
Let s0 : varintReader nat :=
  VarintReader [Data (take 1 wire0); Data []; Data (drop 1 wire0)] (-1) 0%nat 1024 None.

Lemma varint_roundtrip_witness :
  exists s', vread_n s0 3 = ((fun m => (m, None)) <$> msgs0, s') /\
    vr_next s' = -1 /\ flat (vr_R s') = [].
Proof.
  destruct (varint_roundtrip w0 s0 msgs0 []) as (w' & Hw & Hr);
    [done|done|done|repeat constructor; vm_compute; congruence|].
  apply Hr. vm_compute in Hw. injection Hw as <-. vm_compute. reflexivity.
Defined.

Lemma varint_reader_safe_witness :
  varintReader_inv (varintReader_ReadMsg s0).2 /\
  (forall msg, exists res, varintReader_Read (varintReader_ReadMsg s0).2 msg = Ret res) /\
  (forall n s1, varintReader_nextMsgLen (varintReader_ReadMsg s0).2 = (Ok n, s1) -> 0 <= n).
Proof.
  apply (varint_reader_safe (vr_R s0) None 1024 0%nat s0); [reflexivity|].
  apply rtc_once. destruct (varintReader_ReadMsg s0) as [[m err] s'] eqn:E. simpl.
  by eapply vstep_ReadMsg.
Defined.

(** Messages that are their own encoding; the decoder panics on an empty one. *)
Let self_message : ProtoMessage (list byte) :=
  {| proto_MarshalTo m := if decide (m = []) then None else Some (Ret (Ok m));
     proto_Size _ := None; proto_ProtoSize m := Some (Z.of_nat (length m));
     proto_Marshal m := Ret (Ok m);
     proto_Unmarshal bs := match bs with [] => Panic "empty" | _ => Ret (Ok bs) end |}.
Existing Instance self_message.

Lemma protoio_roundtrip_witness :
  exists ur', pread_n (NewDelimitedReader [Data [Byte.x02; Byte.x05]; Data [Byte.x06; Byte.x00; Byte.x01; Byte.x09]]
                         None 64) 3
    = ([Ok [Byte.x05; Byte.x06]; Err "panic reading message: empty"; Ok [Byte.x09]], ur') /\
    flat (ur_r ur') = [].
Proof.
  destruct (protoio_roundtrip (Sink [] None "")
    [Data [Byte.x02; Byte.x05]; Data [Byte.x06; Byte.x00; Byte.x01; Byte.x09]] None 64
    [[Byte.x05; Byte.x06]; []; [Byte.x09]] [[Byte.x05; Byte.x06]; []; [Byte.x09]] [])
    as (uw' & Hw & Hr); [done|done|repeat constructor|repeat constructor; vm_compute; congruence|].
  apply Hr. vm_compute in Hw. injection Hw as <-. vm_compute. reflexivity.
Defined.

End VarintWitnesses.
