(* ===== verification/Aes.v ===== *)
(** The payload encryption of the box service: [core/box/service/aes.go].

    AES itself ([crypto/aes]) enters through the interface of a block cipher;
    the modes of operation the code composes it with (CBC and CTR of
    [crypto/cipher]) are modelled from their standard definitions.  Slices are
    values here; where a function writes into its argument ([CTRDecrypt] works in
    place), the written argument is part of the result. *)
From Stdlib Require Import ZArith Lia.
From stdpp Require Import base list strings numbers.
From S2P Require Import Prelude.

Local Open Scope Z_scope.

Definition aes_BlockSize : Z := 16.
Abbreviation BS := 16%nat.

(** A key schedule for a key of 16, 24 or 32 bytes gives a permutation of the
    16-byte blocks and its inverse. *)
Class AesCipher := {
  aes_Encrypt : list byte -> list byte -> list byte;
  aes_Decrypt : list byte -> list byte -> list byte;
  aes_Encrypt_length k b : length b = BS -> length (aes_Encrypt k b) = BS;
  aes_Decrypt_length k b : length b = BS -> length (aes_Decrypt k b) = BS;
  aes_Decrypt_Encrypt k b : length b = BS -> aes_Decrypt k (aes_Encrypt k b) = b
}.

(** [aes.NewCipher] *)
Definition NewCipher (k : list byte) : result (list byte) :=
  if decide (length k = 16 \/ length k = 24 \/ length k = 32)%nat then Ok k
  else Err "crypto/aes: invalid key size".

Definition xor_byte (a b : byte) : byte := byte_of_Z (Z.lxor (Z_of_byte a) (Z_of_byte b)).
Definition xor_bytes (a b : list byte) : list byte := zip_with xor_byte a b.

(** ** [crypto/cipher]: CBC *)

Section Modes.
Context `{AesCipher}.

(** The blocks of [src], [n] of them, chained on [iv]. *)
Fixpoint cbc_encrypt (k iv : list byte) (n : nat) (src : list byte) : list byte :=
  match n with
  | O => []
  | S n =>
      let c := aes_Encrypt k (xor_bytes iv (take BS src)) in
      c ++ cbc_encrypt k c n (drop BS src)
  end.

Fixpoint cbc_decrypt (k iv : list byte) (n : nat) (src : list byte) : list byte :=
  match n with
  | O => []
  | S n =>
      let c := take BS src in
      xor_bytes iv (aes_Decrypt k c) ++ cbc_decrypt k c n (drop BS src)
  end.

(** [BlockMode.CryptBlocks] panics on a partial block. *)
Definition CryptBlocks (f : nat -> list byte -> list byte) (src : list byte) : outcome (list byte) :=
  if decide (Nat.modulo (length src) BS = 0%nat) then Ret (f (Nat.div (length src) BS) src)
  else Panic "crypto/cipher: input not full blocks".

(** ** [crypto/cipher]: CTR *)

(** The big-endian increment of the counter block. *)
Fixpoint ctr_incr_rev (c : list byte) : list byte :=
  match c with
  | [] => []
  | b :: c =>
      let b' := byte_of_Z (Z_of_byte b + 1) in
      if decide (b' = Byte.x00) then b' :: ctr_incr_rev c else b' :: c
  end.
Definition ctr_incr (c : list byte) : list byte := reverse (ctr_incr_rev (reverse c)).

(** [n] blocks of key stream from counter [c]. *)
Fixpoint keystream (k c : list byte) (n : nat) : list byte :=
  match n with
  | O => []
  | S n => aes_Encrypt k c ++ keystream k (ctr_incr c) n
  end.

Definition blocks_for (n : nat) : nat := Nat.div (n + 15) BS.

(** [Stream.XORKeyStream] of a fresh stream. *)
Definition XORKeyStream (k iv src : list byte) : list byte :=
  xor_bytes src (keystream k iv (blocks_for (length src))).

(** ** aes.go *)

(** [PwdKey = []byte("123456789012345678901234")] *)
Definition PwdKey : list byte :=
  byte_of_Z <$> [49;50;51;52;53;54;55;56;57;48;49;50;51;52;53;54;55;56;57;48;49;50;51;52].

Definition PKCS7Padding (ciphertext : list byte) (blocksize : Z) : list byte :=
  let padding := blocksize - Z.of_nat (length ciphertext) mod blocksize in
  let padtext := replicate (Z.to_nat padding) (byte_of_Z padding) in
  ciphertext ++ padtext.

Definition PKCS7UnPadding (origData : list byte) : outcome (list byte) :=
  match origData !! (length origData - 1)%nat with
  | None => Panic "index out of range [-1]"
  | Some b => slice_to origData (Z.of_nat (length origData) - Z_of_byte b)
  end.

(** The block of a key whose error was dropped ([block, _ :=]): [nil] panics at
    its first use. *)
Definition must_block (r : result (list byte)) : outcome (list byte) :=
  match r with
  | Ok k => Ret k
  | Err _ => Panic "invalid memory address or nil pointer dereference"
  end.

Definition AesEncrypt (orig md5 : list byte) : outcome (list byte) :=
  obind (must_block (NewCipher PwdKey)) (fun k =>
  let origData := PKCS7Padding orig aes_BlockSize in
  obind (slice_to md5 aes_BlockSize) (fun iv =>
  CryptBlocks (cbc_encrypt k iv) origData)).

Definition AesDecrypt (crytedByte md5 : list byte) : outcome (list byte) :=
  obind (must_block (NewCipher PwdKey)) (fun k =>
  obind (slice_to md5 aes_BlockSize) (fun iv =>
  obind (CryptBlocks (cbc_decrypt k iv) crytedByte) (fun orig =>
  PKCS7UnPadding orig))).

Definition CTREncrypt (plaintext md5 : list byte) : outcome (result (list byte)) :=
  match NewCipher PwdKey with
  | Err e => Ret (Err e)
  | Ok k =>
      let ciphertext := replicate (Z.to_nat aes_BlockSize + length plaintext) Byte.x00 in
      obind (slice_to md5 aes_BlockSize) (fun iv =>
      Ret (Ok (copy_at ciphertext (Z.to_nat aes_BlockSize) (XORKeyStream k iv plaintext))))
  end.

(** The result, and the caller's slice after the call. *)
Definition CTRDecrypt (ciphertext md5 : list byte)
    : outcome (result (list byte) * list byte) :=
  match NewCipher PwdKey with
  | Err e => Ret (Err e, ciphertext)
  | Ok k =>
      if Z.of_nat (length ciphertext) <? aes_BlockSize
      then Ret (Err "ciphertext too short", ciphertext)
      else
        obind (slice_to md5 aes_BlockSize) (fun iv =>
        obind (slice_from ciphertext aes_BlockSize) (fun body =>
        let plain := XORKeyStream k iv body in
        Ret (Ok plain, copy_at ciphertext (Z.to_nat aes_BlockSize) plain)))
  end.

End Modes.

(** ** Lemmas *)

Section XorLemmas.

Lemma Z_of_xor_byte a b : Z_of_byte (xor_byte a b) = Z.lxor (Z_of_byte a) (Z_of_byte b).
Proof.
  unfold xor_byte. rewrite Z_of_byte_of_Z. apply wrapU_small. unfold inU.
  pose proof (Z_of_byte_range a). pose proof (Z_of_byte_range b).
  split; [apply Z.lxor_nonneg; lia|].
  assert (Hb : forall x, 0 <= x < 256 -> x mod 2 ^ 8 = x) by (intros; apply Z.mod_small; simpl; lia).
  assert (Hl : Z.lxor (Z_of_byte a) (Z_of_byte b) mod 2 ^ 8 = Z.lxor (Z_of_byte a) (Z_of_byte b)).
  { rewrite <- (Hb (Z_of_byte a)), <- (Hb (Z_of_byte b)) by done.
    apply Z.bits_inj'. intros i Hi. destruct (Z.lt_ge_cases i 8).
    - rewrite Z.mod_pow2_bits_low by lia. done.
    - rewrite Z.lxor_spec, !Z.mod_pow2_bits_high by lia. done. }
  rewrite <- Hl. apply Z.mod_pos_bound. lia.
Qed.

Lemma xor_byte_cancel a b : xor_byte a (xor_byte a b) = b.
Proof.
  apply Z_of_byte_inj. rewrite !Z_of_xor_byte, <- Z.lxor_assoc, Z.lxor_nilpotent.
  apply Z.lxor_0_l.
Qed.

Lemma xor_byte_comm a b : xor_byte a b = xor_byte b a.
Proof. unfold xor_byte. by rewrite Z.lxor_comm. Qed.

Lemma xor_byte_stream a b s : xor_byte (xor_byte a s) (xor_byte b s) = xor_byte a b.
Proof.
  apply Z_of_byte_inj. rewrite !Z_of_xor_byte.
  rewrite (Z.lxor_comm (Z_of_byte b)), Z.lxor_assoc, <- (Z.lxor_assoc (Z_of_byte s)).
  by rewrite Z.lxor_nilpotent, Z.lxor_0_l.
Qed.

Lemma length_xor_bytes a b : length (xor_bytes a b) = Nat.min (length a) (length b).
Proof. apply length_zip_with. Qed.

Lemma xor_bytes_cancel a b : (length b <= length a)%nat -> xor_bytes a (xor_bytes a b) = b.
Proof.
  revert b. induction a as [|x a IH]; intros [|y b] Hl; simpl in *; try done; try lia.
  unfold xor_bytes in *. simpl. rewrite xor_byte_cancel, IH by lia. done.
Qed.

Lemma xor_bytes_comm a b : xor_bytes a b = xor_bytes b a.
Proof.
  revert b. induction a as [|x a IH]; intros [|y b]; try done.
  unfold xor_bytes in *. simpl. by rewrite xor_byte_comm, IH.
Qed.

Lemma xor_bytes_stream a b s :
  length a = length b -> (length a <= length s)%nat ->
  xor_bytes (xor_bytes a s) (xor_bytes b s) = xor_bytes a b.
Proof.
  revert b s. induction a as [|x a IH]; intros [|y b] [|z s] Hl Hs; simpl in *; try done; try lia.
  unfold xor_bytes in *. simpl. rewrite xor_byte_stream, IH by lia. done.
Qed.

End XorLemmas.

Section ModeLemmas.
Context `{AesCipher}.

Lemma length_cbc_encrypt k iv n src :
  length iv = BS -> length src = (n * BS)%nat -> length (cbc_encrypt k iv n src) = (n * BS)%nat.
Proof.
  revert iv src. induction n as [|n IH]; intros iv src Hiv Hs; [done|]. cbn [cbc_encrypt].
  assert (length (take BS src) = BS) by (rewrite length_take; lia).
  assert (length (xor_bytes iv (take BS src)) = BS) by (rewrite length_xor_bytes; lia).
  assert (Hc : length (aes_Encrypt k (xor_bytes iv (take BS src))) = BS) by (by apply aes_Encrypt_length).
  rewrite length_app, IH, Hc by (rewrite ?length_drop; lia). lia.
Qed.

Lemma cbc_decrypt_encrypt k iv n src :
  length iv = BS -> length src = (n * BS)%nat ->
  cbc_decrypt k iv n (cbc_encrypt k iv n src) = src.
Proof.
  revert iv src. induction n as [|n IH]; intros iv src Hiv Hs.
  { destruct src; [done|simpl in Hs; lia]. }
  cbn [cbc_encrypt cbc_decrypt].
  assert (Ht : length (take BS src) = BS) by (rewrite length_take; lia).
  set (c := aes_Encrypt k (xor_bytes iv (take BS src))).
  assert (Hx : length (xor_bytes iv (take BS src)) = BS) by (rewrite length_xor_bytes; lia).
  assert (Hc : length c = BS) by (apply aes_Encrypt_length; done).
  rewrite take_app_exact, drop_app_exact by done.
  rewrite IH by (rewrite ?length_drop; lia). unfold c.
  rewrite aes_Decrypt_Encrypt, xor_bytes_cancel by lia.
  apply take_drop.
Qed.

Lemma length_ctr_incr c : length (ctr_incr c) = length c.
Proof.
  unfold ctr_incr. rewrite length_reverse. rewrite <- (length_reverse c).
  induction (reverse c) as [|b r IH]; [done|]. simpl. case_decide; simpl; congruence.
Qed.

Lemma length_keystream k c n : length c = BS -> length (keystream k c n) = (n * BS)%nat.
Proof.
  revert c. induction n as [|n IH]; intros c Hc; [done|]. cbn [keystream].
  rewrite length_app, aes_Encrypt_length, IH by (rewrite ?length_ctr_incr; done). lia.
Qed.

Lemma blocks_for_enough n : (n <= blocks_for n * BS)%nat.
Proof.
  unfold blocks_for. pose proof (Nat.div_mod_eq (n + 15) 16).
  pose proof (Nat.mod_upper_bound (n + 15) 16). lia.
Qed.

Lemma length_XORKeyStream k iv src : length iv = BS -> length (XORKeyStream k iv src) = length src.
Proof.
  intros. unfold XORKeyStream. rewrite length_xor_bytes, length_keystream by done.
  pose proof (blocks_for_enough (length src)). lia.
Qed.

Lemma XORKeyStream_involutive k iv src :
  length iv = BS -> XORKeyStream k iv (XORKeyStream k iv src) = src.
Proof.
  intros Hiv. unfold XORKeyStream at 1. rewrite length_XORKeyStream by done.
  unfold XORKeyStream. rewrite (xor_bytes_comm src), xor_bytes_comm, xor_bytes_cancel; [done|].
  rewrite length_keystream by done. apply blocks_for_enough.
Qed.

(** The IV: the first 16 bytes of the caller's string. *)
Lemma iv_ok (md5 : list byte) :
  (BS <= length md5)%nat -> slice_to md5 aes_BlockSize = Ret (take BS md5) /\ length (take BS md5) = BS.
Proof.
  intros. unfold slice_to, aes_BlockSize. rewrite (proj2 (Z.leb_le 16 _)) by lia.
  split; [done|]. rewrite length_take. lia.
Qed.

Lemma iv_short (md5 : list byte) :
  (length md5 < BS)%nat -> slice_to md5 aes_BlockSize = Panic "slice bounds out of range".
Proof.
  intros. unfold slice_to, aes_BlockSize. rewrite (proj2 (Z.leb_gt 16 _)) by lia. done.
Qed.

Lemma PwdKey_ok : NewCipher PwdKey = Ok PwdKey.
Proof. done. Qed.

Lemma CTREncrypt_eq p md5 :
  (BS <= length md5)%nat ->
  CTREncrypt p md5 = Ret (Ok (replicate BS Byte.x00 ++ XORKeyStream PwdKey (take BS md5) p)).
Proof.
  intros Hm. destruct (iv_ok md5 Hm) as [Hiv Hlen].
  unfold CTREncrypt. rewrite PwdKey_ok, Hiv. cbn [obind]. do 2 f_equal.
  rewrite replicate_add. apply (copy_at_tail (replicate BS Byte.x00)).
  by rewrite length_replicate, length_XORKeyStream.
Qed.

Lemma length_PKCS7Padding x :
  length (PKCS7Padding x aes_BlockSize) = ((length x / BS + 1) * BS)%nat.
Proof.
  unfold PKCS7Padding, aes_BlockSize. rewrite length_app, length_replicate.
  pose proof (Z.mod_pos_bound (Z.of_nat (length x)) 16).
  pose proof (Nat.div_mod_eq (length x) 16) as Hd.
  assert (Z.of_nat (length x) mod 16 = Z.of_nat (length x mod 16)) as -> by (by rewrite Nat2Z.inj_mod).
  pose proof (Nat.mod_upper_bound (length x) 16). lia.
Qed.

Lemma PKCS7UnPadding_Padding x : PKCS7UnPadding (PKCS7Padding x aes_BlockSize) = Ret x.
Proof.
  unfold PKCS7UnPadding, PKCS7Padding, aes_BlockSize.
  set (p := 16 - Z.of_nat (length x) mod 16).
  assert (Hp : 0 < p <= 16) by (pose proof (Z.mod_pos_bound (Z.of_nat (length x)) 16); lia).
  rewrite length_app, length_replicate.
  rewrite lookup_app_r by lia.
  rewrite lookup_replicate_2 by lia.
  rewrite Z_of_byte_of_Z, wrapU_small by (unfold inU; lia).
  unfold slice_to. rewrite length_app, length_replicate.
  rewrite (proj2 (Z.leb_le 0 _)), (proj2 (Z.leb_le (_ - _) _)) by lia. simpl.
  rewrite take_app_exact by lia. done.
Qed.

End ModeLemmas.

(** ** Properties *)

Section AesProperties.
Context `{AesCipher}.

(** CBC round trip.  With a 16-byte (or longer) IV string, [AesEncrypt]
    succeeds on every input, its output is a whole number of blocks, at least
    one byte longer than the input, and [AesDecrypt] with the same string returns
    the input. *)
Theorem aes_cbc_roundtrip orig md5 :
  (BS <= length md5)%nat ->
  exists c, AesEncrypt orig md5 = Ret c /\ length c = ((length orig / BS + 1) * BS)%nat /\
    (length orig < length c)%nat /\ AesDecrypt c md5 = Ret orig.
Proof.
  intros Hm. destruct (iv_ok md5 Hm) as [Hiv Hlen].
  pose proof (length_PKCS7Padding orig) as Hp. set (q := (length orig / BS + 1)%nat) in *.
  assert (Hq : Nat.div (q * BS) BS = q) by (apply Nat.div_mul; lia).
  assert (Hmod : Nat.modulo (q * BS) BS = 0%nat) by apply Nat.Div0.mod_mul.
  exists (cbc_encrypt PwdKey (take BS md5) q (PKCS7Padding orig aes_BlockSize)).
  assert (Hc : length (cbc_encrypt PwdKey (take BS md5) q (PKCS7Padding orig aes_BlockSize)) = (q * BS)%nat)
    by (by apply length_cbc_encrypt).
  split_and!.
  - unfold AesEncrypt. rewrite PwdKey_ok. simpl. rewrite Hiv. simpl.
    unfold CryptBlocks. rewrite Hp, decide_True, Hq by done. done.
  - done.
  - rewrite Hc. unfold q. pose proof (Nat.div_mod_eq (length orig) BS).
    pose proof (Nat.mod_upper_bound (length orig) BS). lia.
  - unfold AesDecrypt. rewrite PwdKey_ok. simpl. rewrite Hiv. simpl.
    unfold CryptBlocks. rewrite Hc, decide_True, Hq by done. simpl.
    rewrite cbc_decrypt_encrypt by done. apply PKCS7UnPadding_Padding.
Qed.

(** CTR round trip.  [CTREncrypt] prepends a block of zeros (it does not
    store the IV) and [CTRDecrypt], given the same IV string, drops that block
    and returns the plaintext; in doing so it overwrites the caller's ciphertext
    with the plaintext. *)
Theorem aes_ctr_roundtrip plaintext md5 :
  (BS <= length md5)%nat ->
  exists c, CTREncrypt plaintext md5 = Ret (Ok c) /\
    length c = (BS + length plaintext)%nat /\ take BS c = replicate BS Byte.x00 /\
    CTRDecrypt c md5 = Ret (Ok plaintext, replicate BS Byte.x00 ++ plaintext).
Proof.
  intros Hm. destruct (iv_ok md5 Hm) as [Hiv Hlen].
  rewrite CTREncrypt_eq by done.
  set (ks := XORKeyStream PwdKey (take BS md5) plaintext).
  assert (Hks : length ks = length plaintext) by (by apply length_XORKeyStream).
  exists (replicate BS Byte.x00 ++ ks). split_and!; [done|..].
  - rewrite length_app, length_replicate. lia.
  - by apply take_app_exact.
  - unfold CTRDecrypt. rewrite PwdKey_ok, Hiv. unfold aes_BlockSize, slice_from.
    rewrite length_app, length_replicate.
    rewrite (proj2 (Z.ltb_ge _ _)), (proj2 (Z.leb_le 16 _)) by lia. cbn [obind andb].
    change (0 <=? 16) with true. cbn [andb obind]. change (Z.to_nat 16) with BS.
    rewrite drop_app_exact by done. unfold ks. rewrite XORKeyStream_involutive by done.
    by rewrite (copy_at_tail (replicate BS Byte.x00)).
Qed.

(** The failures of the decryption.  [AesDecrypt] has no error result: it
    panics on an IV string shorter than a block, on a ciphertext that is not a
    whole number of blocks and on an empty ciphertext; [CTRDecrypt] reports a
    ciphertext shorter than a block as an error and leaves it untouched. *)
Theorem aes_decrypt_failures c md5 :
  ((length md5 < BS)%nat -> exists m, AesDecrypt c md5 = Panic m) /\
  (Nat.modulo (length c) BS <> 0%nat -> exists m, AesDecrypt c md5 = Panic m) /\
  (c = [] -> exists m, AesDecrypt c md5 = Panic m) /\
  ((length c < BS)%nat -> CTRDecrypt c md5 = Ret (Err "ciphertext too short", c)).
Proof.
  assert (Hcase : slice_to md5 aes_BlockSize = Panic "slice bounds out of range" \/
                  slice_to md5 aes_BlockSize = Ret (take BS md5)).
  { destruct (decide (length md5 < BS)%nat).
    - left. by apply iv_short.
    - right. apply iv_ok. lia. }
  split_and!; unfold AesDecrypt; rewrite ?PwdKey_ok; simpl.
  - intros Hs. rewrite iv_short by done. by eexists.
  - intros Hc. destruct Hcase as [-> | ->]; [by eexists|]. simpl. unfold CryptBlocks.
    rewrite decide_False by done. by eexists.
  - intros ->. destruct Hcase as [-> | ->]; [by eexists|]. simpl. by eexists.
  - intros Hs. unfold CTRDecrypt. rewrite PwdKey_ok.
    rewrite (proj2 (Z.ltb_lt _ _)) by (unfold aes_BlockSize; lia). done.
Qed.

(** The CTR key stream depends on the fixed key and the IV string only: two
    equally long messages encrypted under the same string reveal the exclusive or
    of their plaintexts. *)
Theorem aes_ctr_keystream_reuse p1 p2 md5 c1 c2 :
  length p1 = length p2 ->
  CTREncrypt p1 md5 = Ret (Ok c1) -> CTREncrypt p2 md5 = Ret (Ok c2) ->
  xor_bytes (drop BS c1) (drop BS c2) = xor_bytes p1 p2.
Proof.
  intros Hl H1 H2.
  assert (Hm : (BS <= length md5)%nat).
  { destruct (decide (length md5 < BS)%nat) as [Hs|]; [|lia].
    unfold CTREncrypt in H1. rewrite PwdKey_ok, iv_short in H1 by done. done. }
  destruct (iv_ok md5 Hm) as [Hiv Hlen].
  rewrite CTREncrypt_eq in H1, H2 by done. 
  assert (c1 = replicate BS Byte.x00 ++ XORKeyStream PwdKey (take BS md5) p1) as -> by congruence.
  assert (c2 = replicate BS Byte.x00 ++ XORKeyStream PwdKey (take BS md5) p2) as -> by congruence.
  rewrite !(drop_app_exact (replicate BS Byte.x00)) by done. unfold XORKeyStream. rewrite <- Hl.
  apply xor_bytes_stream; [done|].
  rewrite length_keystream by done. apply blocks_for_enough.
Qed.

End AesProperties.

(** ** Witnesses: a block permutation that adds the key. *)

Section AesWitnesses.

Definition xor_cipher : AesCipher.
Proof.
  refine {| aes_Encrypt k b := xor_bytes (take BS (k ++ replicate BS Byte.x00)) b;
            aes_Decrypt k b := xor_bytes (take BS (k ++ replicate BS Byte.x00)) b |}.
  1,2: intros k b Hb; rewrite length_xor_bytes, length_take, length_app, length_replicate; lia.
  intros k b Hb. apply xor_bytes_cancel. rewrite length_take, length_app, length_replicate. lia.
Defined.
Existing Instance xor_cipher.

Let iv0 : list byte := replicate 20 Byte.x61.

Lemma aes_cbc_roundtrip_witness :
  exists c, AesEncrypt [Byte.x01; Byte.x02] iv0 = Ret c /\ length c = 16%nat /\
    (2 < length c)%nat /\ AesDecrypt c iv0 = Ret [Byte.x01; Byte.x02].
Proof. apply (aes_cbc_roundtrip [Byte.x01; Byte.x02] iv0). unfold iv0. rewrite length_replicate. lia. Defined.

Lemma aes_ctr_roundtrip_witness :
  exists c, CTREncrypt [Byte.x01; Byte.x02] iv0 = Ret (Ok c) /\ length c = 18%nat /\
    take BS c = replicate BS Byte.x00 /\
    CTRDecrypt c iv0 = Ret (Ok [Byte.x01; Byte.x02], replicate BS Byte.x00 ++ [Byte.x01; Byte.x02]).
Proof. apply (aes_ctr_roundtrip [Byte.x01; Byte.x02] iv0). unfold iv0. rewrite length_replicate. lia. Defined.

Lemma aes_decrypt_failures_witness :
  (exists m, AesDecrypt [Byte.x01] iv0 = Panic m) /\
  CTRDecrypt [Byte.x01] iv0 = Ret (Err "ciphertext too short", [Byte.x01]).
Proof.
  destruct (aes_decrypt_failures [Byte.x01] iv0) as (_ & H2 & _ & H4).
  split; [apply H2; vm_compute; congruence|apply H4; simpl; lia].
Defined.

Lemma aes_ctr_keystream_reuse_witness :
  exists c1 c2, CTREncrypt [Byte.x01] iv0 = Ret (Ok c1) /\ CTREncrypt [Byte.x03] iv0 = Ret (Ok c2) /\
    xor_bytes (drop BS c1) (drop BS c2) = [Byte.x02].
Proof.
  do 2 eexists. split; [vm_compute; reflexivity|]. split; [vm_compute; reflexivity|].
  rewrite (aes_ctr_keystream_reuse [Byte.x01] [Byte.x03] iv0); [reflexivity|reflexivity|vm_compute; reflexivity|vm_compute; reflexivity].
Defined.

End AesWitnesses.
