(* ===== verification/GoStrings.v ===== *)
(** The parts of [strings], [strconv] and [encoding/json] the components share:
    splitting and trimming, decimal integers, and the JSON literals of integers. *)
From Stdlib Require Import ZArith Lia Ascii String.
From stdpp Require Import base list strings numbers.
From S2P Require Import Prelude.

Local Open Scope Z_scope.

(** ** Decimal digits *)

Definition digit_char (d : Z) : ascii := ascii_of_N (Z.to_N (48 + d)).
Definition digit_val (c : ascii) : option Z :=
  let n := Z.of_N (N_of_ascii c) in
  if (48 <=? n) && (n <=? 57) then Some (n - 48) else None.

(** Digits of [n] in front of [acc]; [fuel + 1] digits at most. *)
Fixpoint digits (fuel : nat) (n : Z) (acc : string) : string :=
  let acc := String (digit_char (n mod 10)) acc in
  if n <? 10 then acc
  else match fuel with O => acc | S fuel => digits fuel (n / 10) acc end.

(** [strconv.FormatInt(z, 10)] for 64-bit integers, which have at most 20
    digits. *)
Definition FormatInt (z : Z) : string :=
  if z <? 0 then String "-" (digits 19 (- z) "") else digits 19 z "".

(** A non-empty run of digits. *)
Fixpoint parse_digits (acc : Z) (s : string) : option Z :=
  match s with
  | EmptyString => Some acc
  | String c s =>
      match digit_val c with
      | Some d => parse_digits (acc * 10 + d) s
      | None => None
      end
  end.

Definition in_int64 (z : Z) : bool := (- 2 ^ 63 <=? z) && (z <? 2 ^ 63).

Definition check_int64 (z : Z) : option Z := if in_int64 z then Some z else None.

(** [strconv.Atoi] / [strconv.ParseInt(s, 10, 64)]: optional sign, digits, range. *)
Definition ParseInt (s : string) : option Z :=
  match s with
  | EmptyString => None
  | String c s' =>
      if (Ascii.eqb c "-" || Ascii.eqb c "+")%char then
        match s' with
        | EmptyString => None
        | _ =>
            match parse_digits 0 s' with
            | Some n => check_int64 (if Ascii.eqb c "-"%char then - n else n)
            | None => None
            end
        end
      else match parse_digits 0 s with Some n => check_int64 n | None => None end
  end.

(** The JSON grammar of an integer: no sign [+], no superfluous zero. *)
Definition json_nat_literal (s : string) : bool :=
  match s with
  | EmptyString => false
  | String c EmptyString => true
  | String c _ => negb (Ascii.eqb c "0"%char)
  end.

Definition json_int_literal (s : string) : bool :=
  match s with
  | String c s' =>
      if Ascii.eqb c "-"%char then json_nat_literal s'
      else negb (Ascii.eqb c "+"%char) && json_nat_literal s
  | EmptyString => false
  end.

(** [json.Unmarshal(input, &x)] with [x int64] (initially 0): [null] leaves [x]
    alone; everything but an integer literal in range is an error. *)
Definition json_Unmarshal_int64 (s : string) : option Z :=
  if decide (s = "null") then Some 0
  else if json_int_literal s then ParseInt s else None.

(** ** [strings] *)

(** [strings.Split(s, sep)] for a one-character separator: never empty. *)
Fixpoint split_on (sep : ascii) (s : string) : list string :=
  match s with
  | EmptyString => [EmptyString]
  | String c s =>
      if Ascii.eqb c sep then EmptyString :: split_on sep s
      else match split_on sep s with
           | [] => [String c EmptyString]
           | p :: ps => String c p :: ps
           end
  end.

(** [strings.Join(parts, sep)] *)
Fixpoint join_with (sep : string) (parts : list string) : string :=
  match parts with
  | [] => ""
  | [p] => p
  | p :: ps => p +:+ sep +:+ join_with sep ps
  end.

Fixpoint trim_left (p : ascii -> bool) (s : string) : string :=
  match s with
  | EmptyString => EmptyString
  | String c s' => if p c then trim_left p s' else s
  end.

Fixpoint trim_right (p : ascii -> bool) (s : string) : string :=
  match s with
  | EmptyString => EmptyString
  | String c s' =>
      match trim_right p s' with
      | EmptyString => if p c then EmptyString else String c EmptyString
      | t => String c t
      end
  end.

(** [strings.ToLower] on ASCII. *)
Definition lower_char (c : ascii) : ascii :=
  let n := N_of_ascii c in if ((65 <=? n) && (n <=? 90))%N then ascii_of_N (n + 32) else c.
Fixpoint ToLower (s : string) : string :=
  match s with EmptyString => EmptyString | String c s => String (lower_char c) (ToLower s) end.

(** [strings.Trim(s, cutset)] for a one-character cutset. *)
Definition trim_char (c : ascii) (s : string) : string :=
  trim_right (Ascii.eqb c) (trim_left (Ascii.eqb c) s).

(** ASCII white space, as [strings.TrimSpace] removes it. *)
Definition is_space (c : ascii) : bool :=
  let n := N_of_ascii c in
  (n =? 9)%N || (n =? 10)%N || (n =? 11)%N || (n =? 12)%N || (n =? 13)%N || (n =? 32)%N.
Definition TrimSpace (s : string) : string := trim_right is_space (trim_left is_space s).

(** ** Lemmas *)

Section DigitLemmas.

Lemma digit_val_char d : 0 <= d < 10 -> digit_val (digit_char d) = Some d.
Proof.
  intros Hd. unfold digit_val, digit_char. rewrite N_ascii_embedding by lia.
  rewrite Z2N.id by lia.
  rewrite (proj2 (Z.leb_le 48 _)), (proj2 (Z.leb_le _ 57)) by lia. simpl. f_equal. lia.
Qed.

Lemma digit_char_inj_zero d : 0 <= d < 10 -> Ascii.eqb (digit_char d) "0"%char = true -> d = 0.
Proof.
  intros Hd E. apply Ascii.eqb_eq in E. pose proof (digit_val_char d Hd) as H. rewrite E in H.
  vm_compute in H. congruence.
Qed.

Lemma parse_digits_digits fuel n acc :
  0 <= n < 10 ^ (Z.of_nat fuel + 1) -> parse_digits 0 (digits fuel n acc) = parse_digits n acc.
Proof.
  revert n acc. induction fuel as [|fuel IH]; intros n acc Hn.
  - simpl in *. destruct (n <? 10) eqn:E; cbn [parse_digits];
      rewrite digit_val_char by (apply Z.mod_pos_bound; lia);
      rewrite Z.mod_small by lia; f_equal; lia.
  - cbn [digits]. destruct (Z.ltb_spec n 10).
    + cbn [parse_digits]. rewrite digit_val_char by (apply Z.mod_pos_bound; lia).
      rewrite Z.mod_small by lia. f_equal; lia.
    + rewrite IH. cbn [parse_digits].
      * rewrite digit_val_char by (apply Z.mod_pos_bound; lia).
        f_equal. pose proof (Z.div_mod n 10). lia.
      * replace (Z.of_nat (S fuel) + 1) with (1 + (Z.of_nat fuel + 1)) in Hn by lia.
        rewrite Z.pow_add_r in Hn by lia. split; [apply Z.div_pos; lia|].
        apply Z.div_lt_upper_bound; lia.
Qed.

(** The first character of a number is a digit, and not a zero unless it is the
    only one. *)
Lemma digits_head fuel n acc :
  0 < n < 10 ^ (Z.of_nat fuel + 1) ->
  exists d rest, digits fuel n acc = String (digit_char d) rest /\ 0 < d < 10.
Proof.
  revert n acc. induction fuel as [|fuel IH]; intros n acc Hn.
  - simpl in *. exists n, acc. rewrite (proj2 (Z.ltb_lt n 10)), Z.mod_small by lia. split; [done|lia].
  - cbn [digits]. destruct (Z.ltb_spec n 10).
    + exists n, acc. rewrite Z.mod_small by lia. split; [done|lia].
    + apply IH. replace (Z.of_nat (S fuel) + 1) with (1 + (Z.of_nat fuel + 1)) in Hn by lia.
      rewrite Z.pow_add_r in Hn by lia. split; [apply Z.div_str_pos; lia|].
      apply Z.div_lt_upper_bound; lia.
Qed.

Lemma digit_char_not_sign d : 0 <= d < 10 ->
  Ascii.eqb (digit_char d) "-"%char = false /\ Ascii.eqb (digit_char d) "+"%char = false.
Proof.
  intros Hd. split; apply Ascii.eqb_neq; intros E;
    pose proof (digit_val_char d Hd) as H; rewrite E in H; vm_compute in H; congruence.
Qed.

(** The text of a non-negative 64-bit integer. *)
Lemma digits_literal n :
  0 <= n < 10 ^ 20 ->
  exists c rest, digits 19 n "" = String c rest /\
    Ascii.eqb c "-"%char = false /\ Ascii.eqb c "+"%char = false /\
    json_nat_literal (String c rest) = true /\ parse_digits 0 (String c rest) = Some n.
Proof.
  intros Hn. pose proof (parse_digits_digits 19 n "" Hn) as Hp.
  destruct (decide (n = 0)) as [->|Hne].
  { exists "0"%char, "". vm_compute. done. }
  destruct (digits_head 19 n "") as (d & rest & E & Hd); [simpl Z.of_nat; lia|].
  exists (digit_char d), rest. rewrite <- E.
  destruct (digit_char_not_sign d) as [? ?]; [lia|]. split_and!; try done.
  rewrite E. simpl. destruct rest; [done|].
  destruct (Ascii.eqb (digit_char d) "0"%char) eqn:E0; [|done].
  apply digit_char_inj_zero in E0; lia.
Qed.

(** C-style decimal text of a 64-bit integer parses back. *)
Lemma ParseInt_FormatInt z : inS 64 z -> ParseInt (FormatInt z) = Some z.
Proof.
  unfold inS. simpl (64 - 1). intros Hz. unfold FormatInt.
  assert (Hc : forall w, w = z -> check_int64 w = Some z).
  { intros w ->. unfold check_int64, in_int64.
    rewrite (proj2 (Z.leb_le _ _)), (proj2 (Z.ltb_lt _ _)) by lia. done. }
  destruct (Z.ltb_spec z 0).
  - destruct (digits_literal (- z)) as (c & rest & E & Hm & Hpl & _ & Hp); [lia|].
    rewrite E. unfold ParseInt. cbn [Ascii.eqb orb Bool.eqb]. rewrite Hp. apply Hc. simpl. lia.
  - destruct (digits_literal z) as (c & rest & E & Hm & Hpl & _ & Hp); [lia|].
    rewrite E. unfold ParseInt. rewrite Hm, Hpl. simpl orb. cbv iota. rewrite Hp. by apply Hc.
Qed.

Lemma json_FormatInt z : inS 64 z -> json_Unmarshal_int64 (FormatInt z) = Some z.
Proof.
  intros Hz. unfold json_Unmarshal_int64.
  assert (Hlit : json_int_literal (FormatInt z) = true).
  { unfold inS in Hz. simpl (64 - 1) in Hz. unfold FormatInt. destruct (Z.ltb_spec z 0).
    - destruct (digits_literal (- z)) as (c & rest & E & _ & _ & Hj & _); [lia|].
      rewrite E. exact Hj.
    - destruct (digits_literal z) as (c & rest & E & Hm & Hpl & Hj & _); [lia|].
      rewrite E. unfold json_int_literal. rewrite Hm, Hpl. exact Hj. }
  destruct (decide (FormatInt z = "null")) as [E|_].
  { pose proof (ParseInt_FormatInt z Hz) as H. rewrite E in H. vm_compute in H. congruence. }
  rewrite Hlit. by apply ParseInt_FormatInt.
Qed.

Lemma json_Unmarshal_int64_range s z : json_Unmarshal_int64 s = Some z -> inS 64 z.
Proof.
  assert (Hc : forall w, check_int64 w = Some z -> inS 64 z).
  { intros w. unfold check_int64, in_int64, inS. simpl (64 - 1).
    destruct (Z.leb_spec (- 2 ^ 63) w), (Z.ltb_spec w (2 ^ 63)); simpl; try done. intros [= <-]. lia. }
  unfold json_Unmarshal_int64. case_decide; [intros [= <-]; unfold inS; simpl; lia|].
  destruct (json_int_literal s); [|done]. unfold ParseInt.
  repeat case_match; eauto; done.
Qed.

(** A printed integer is none of the words the configuration syntax reserves. *)
Lemma FormatInt_ne z w : inS 64 z -> ParseInt w = None -> FormatInt z <> w.
Proof. intros Hz Hw E. rewrite <- E, ParseInt_FormatInt in Hw; done. Qed.

Lemma split_on_nonempty sep s : split_on sep s <> [].
Proof. destruct s as [|c s]; simpl; [done|]. case_match; [done|]. by case_match. Qed.

(** [strings.Join] undoes [strings.Split]. *)
Lemma join_split sep s : join_with (String sep "") (split_on sep s) = s.
Proof.
  induction s as [|c s IH]; [done|]. simpl.
  destruct (Ascii.eqb_spec c sep) as [->|].
  - pose proof (split_on_nonempty sep s). destruct (split_on sep s) eqn:E; [done|].
    rewrite <- E in *. cbn [join_with]. rewrite E in *. by rewrite IH.
  - destruct (split_on sep s) as [|p ps] eqn:E; [by apply split_on_nonempty in E|].
    destruct ps; cbn [join_with] in *; [by rewrite IH|]. rewrite <- IH. done.
Qed.

End DigitLemmas.

(** The byte-wise order of strings. *)
Lemma string_leb_trans a b c : String.leb a b = true -> String.leb b c = true -> String.leb a c = true.
Proof.
  revert b c. induction a as [|x a IH]; intros [|y b] [|z c]; try done.
  unfold String.leb in *. cbn [String.compare]. unfold Ascii.compare.
  destruct (N.compare_spec (N_of_ascii x) (N_of_ascii y)) as [E1|L1|L1]; try done;
    destruct (N.compare_spec (N_of_ascii y) (N_of_ascii z)) as [E2|L2|L2]; try done;
    destruct (N.compare_spec (N_of_ascii x) (N_of_ascii z)) as [E3|L3|L3]; try done; try lia.
  apply IH.
Qed.

Section TrimLemmas.
Context (p : ascii -> bool).

Lemma trim_left_head s : match trim_left p s with EmptyString => True | String c _ => p c = false end.
Proof. induction s as [|c s IH]; simpl; [done|]. by destruct (p c) eqn:E. Qed.

Lemma trim_left_id s : match s with EmptyString => True | String c _ => p c = false end -> trim_left p s = s.
Proof. destruct s; simpl; [done|]. by intros ->. Qed.

Lemma trim_right_head c s : p c = false -> exists s', trim_right p (String c s) = String c s'.
Proof. intros E. simpl. destruct (trim_right p s); [rewrite E|]; eauto. Qed.

Lemma trim_right_idemp s : trim_right p (trim_right p s) = trim_right p s.
Proof.
  induction s as [|c s IH]; simpl; [done|]. destruct (trim_right p s) as [|d t] eqn:E.
  - destruct (p c) eqn:Ec; simpl; [done|]. by rewrite Ec.
  - cbn [trim_right] in *. by rewrite IH.
Qed.

Lemma trim_idemp s :
  trim_right p (trim_left p (trim_right p (trim_left p s))) = trim_right p (trim_left p s).
Proof.
  pose proof (trim_left_head s) as Hh. set (t := trim_left p s) in *.
  rewrite (trim_left_id (trim_right p t)), trim_right_idemp; [done|].
  destruct t as [|c t]; [done|]. destruct (trim_right_head c t Hh) as [t' ->]. done.
Qed.
End TrimLemmas.

Lemma TrimSpace_idemp s : TrimSpace (TrimSpace s) = TrimSpace s.
Proof. apply trim_idemp. Qed.

(** [strings.Replace(s, old, new, 1)] for a non-empty [old]. *)
Fixpoint replace_first (old new s : string) : string :=
  if String.prefix old s then new +:+ substring (String.length old) (String.length s) s
  else match s with
       | EmptyString => EmptyString
       | String c s => String c (replace_first old new s)
       end.

(** ** More of [strings] *)

Definition HasPrefix (s p : string) : bool := String.prefix p s.
Definition Contains (s sub : string) : bool := match String.index 0 sub s with Some _ => true | None => false end.

Definition TrimPrefix (s p : string) : string :=
  if HasPrefix s p then substring (String.length p) (String.length s) s else s.

(** [strings.HasSuffix], [strings.TrimSuffix] *)
Definition HasSuffix (s p : string) : bool :=
  (String.length p <=? String.length s)%nat &&
  String.eqb (substring (String.length s - String.length p) (String.length p) s) p.
Definition TrimSuffix (s p : string) : string :=
  if HasSuffix s p then substring 0 (String.length s - String.length p) s else s.

(** [strings.ReplaceAll(s, old, new)] for a non-empty [old]: the occurrences
    from left to right; [skip] characters of one are still to be dropped. *)
Fixpoint replace_from (skip : nat) (old new s : string) : string :=
  match s with
  | EmptyString => EmptyString
  | String c s' =>
      match skip with
      | S k => replace_from k old new s'
      | O => if String.prefix old s then new +:+ replace_from (String.length old - 1) old new s'
             else String c (replace_from 0 old new s')
      end
  end.
Definition ReplaceAll (s old new : string) : string := replace_from 0 old new s.

(** [strings.SplitN(s, sep, n)] for a one-character separator and positive [n]. *)
Definition SplitN (sep : ascii) (s : string) (n : nat) : list string :=
  let parts := split_on sep s in
  if (length parts <=? n)%nat then parts
  else take (n - 1) parts ++ [join_with (String sep "") (drop (n - 1) parts)].

(** Whether a character occurs. *)
Fixpoint has_char (c : ascii) (s : string) : bool :=
  match s with EmptyString => false | String d s => Ascii.eqb d c || has_char c s end.

Lemma string_app_assoc (a b c : string) : (a +:+ b) +:+ c = a +:+ (b +:+ c).
Proof. induction a as [|x a IH]; [done|exact (f_equal (String x) IH)]. Qed.

Lemma string_app_nil (a : string) : a +:+ "" = a.
Proof. induction a as [|x a IH]; [done|exact (f_equal (String x) IH)]. Qed.

Lemma string_app_length (a b : string) : String.length (a +:+ b) = (String.length a + String.length b)%nat.
Proof. induction a as [|x a IH]; [done|exact (f_equal S IH)]. Qed.

Lemma string_app_cons x (a b : string) : String x a +:+ b = String x (a +:+ b).
Proof. done. Qed.

Lemma has_char_app c a b : has_char c (a +:+ b) = has_char c a || has_char c b.
Proof. induction a as [|x a IH]; [done|]. rewrite string_app_cons. simpl. by rewrite IH, orb_assoc. Qed.

Lemma prefix_app (a b : string) : String.prefix a (a +:+ b) = true.
Proof. induction a as [|x a IH]; [by destruct b|]. rewrite string_app_cons. simpl. by destruct (Ascii.ascii_dec x x). Qed.

Lemma prefix_iff (p s : string) : String.prefix p s = true <-> exists t, s = p +:+ t.
Proof.
  split.
  - revert s. induction p as [|x p IH]; intros s; simpl; [intros _; by exists s|].
    destruct s as [|y s]; [done|]. simpl. case_match; [|done]. subst. intros (t & ->)%IH. by exists t.
  - intros [t ->]. apply prefix_app.
Qed.

Lemma substring_skip (a b : string) n : substring (String.length a) n (a +:+ b) = substring 0 n b.
Proof. induction a as [|x a IH]; [done|exact IH]. Qed.

Lemma substring_whole n s : (String.length s <= n)%nat -> substring 0 n s = s.
Proof. revert n. induction s as [|c s IH]; intros [|n]; simpl; try done; [lia|]. intros. f_equal. apply IH. lia. Qed.

Lemma TrimPrefix_app p s : TrimPrefix (p +:+ s) p = s.
Proof.
  unfold TrimPrefix, HasPrefix. rewrite prefix_app, substring_skip. apply substring_whole.
  rewrite string_app_length. lia.
Qed.

Lemma split_on_no_sep sep s : has_char sep s = false -> split_on sep s = [s].
Proof.
  induction s as [|c s IH]; simpl; [done|]. destruct (Ascii.eqb c sep); simpl; [done|].
  intros H. by rewrite IH.
Qed.
