(* ===== verification/GoPath.v ===== *)
(** The part of Go's [path/filepath] the repository uses, for Unix paths:
    [Clean], [Join], [Dir] and [IsAbs], with the lemmas that tell the files of a
    directory apart.  Then what the gateway and the commands use of [path] and
    [net/url]: [path.Split], [path.Base], [path.Ext], [path.Join] of several elements,
    [strings.Count], [url.PathEscape] and the replacement of what is not ASCII. *)
From Stdlib Require Import ZArith Lia Ascii String.
From stdpp Require Import base list strings sets.
From S2P Require Import Prelude GoStrings.

Definition slash : ascii := "/"%char.

Definition IsAbs (p : string) : bool :=
  match p with String c _ => Ascii.eqb c slash | EmptyString => false end.

(** The elements of a path that mean something. *)
Definition elements_of (p : string) : list string :=
  filter (fun c => c <> "" /\ c <> ".") (split_on slash p).

(** Resolves [..]; the stack is kept in reverse. *)
Fixpoint resolve (rooted : bool) (stack elems : list string) : list string :=
  match elems with
  | [] => reverse stack
  | e :: elems =>
      if decide (e = "..") then
        match stack with
        | top :: stack' =>
            if decide (top = "..") then resolve rooted (e :: stack) elems
            else resolve rooted stack' elems
        | [] => resolve rooted (if rooted then [] else [e]) elems
        end
      else resolve rooted (e :: stack) elems
  end.

Definition print_path (rooted : bool) (elems : list string) : string :=
  if rooted then String slash (join_with "/" elems)
  else match elems with [] => "." | _ => join_with "/" elems end.

Definition Clean (p : string) : string :=
  print_path (IsAbs p) (resolve (IsAbs p) [] (elements_of p)).

(** [filepath.Join(a, b)]: empty elements are ignored. *)
Definition Join (a b : string) : string :=
  match a, b with
  | EmptyString, EmptyString => ""
  | EmptyString, _ => Clean b
  | _, EmptyString => Clean a
  | _, _ => Clean (a +:+ "/" +:+ b)
  end.

(** [filepath.Dir]: everything but the last element. *)
Definition Dir (p : string) : string :=
  let comps := split_on slash p in
  let dir := take (length comps - 1) comps in
  Clean (join_with "/" (dir ++ (if decide (dir = []) then [] else [""]))).

(** ** Lemmas *)

(** A name that is one path element. *)
Definition plain_name (n : string) : Prop :=
  split_on slash n = [n] /\ n <> "" /\ n <> "." /\ n <> "..".

Lemma split_on_app_sep sep s t : split_on sep (s +:+ String sep t) = split_on sep s ++ split_on sep t.
Proof.
  induction s as [|c s IH]; simpl.
  - by rewrite Ascii.eqb_refl.
  - rewrite IH. destruct (Ascii.eqb c sep); [done|].
    destruct (split_on sep s) as [|p ps] eqn:E; [by apply split_on_nonempty in E|]. done.
Qed.

Lemma split_join_with sep l :
  l <> [] -> Forall (fun s => split_on sep s = [s]) l ->
  split_on sep (join_with (String sep "") l) = l.
Proof.
  induction l as [|a l IH]; [done|]. intros _ [Ha Hl]%Forall_cons.
  destruct l as [|b l]; [by simpl|]. cbn [join_with].
  change (a +:+ String sep "" +:+ ?x) with (a +:+ String sep x). rewrite split_on_app_sep, Ha.
  change (match l with [] => b | _ :: _ => b +:+ String sep "" +:+ join_with (String sep "") l end)
    with (join_with (String sep "") (b :: l)).
  by rewrite IH.
Qed.

Lemma split_on_pieces sep s : Forall (fun p => split_on sep p = [p]) (split_on sep s).
Proof.
  induction s as [|c s IH]; simpl; [by constructor|].
  destruct (Ascii.eqb c sep) eqn:E; [by constructor|].
  destruct (split_on sep s) as [|p ps] eqn:Es; [by apply split_on_nonempty in Es|].
  apply Forall_cons in IH as [Hp Hps]. constructor; [|done]. simpl. by rewrite E, Hp.
Qed.

Lemma elements_of_pieces p : Forall (fun s => split_on slash s = [s]) (elements_of p).
Proof.
  apply Forall_forall. intros x [_ Hx]%list_elem_of_filter.
  by apply (proj1 (Forall_forall _ _) (split_on_pieces slash p)).
Qed.

Lemma resolve_app rooted stack l n :
  n <> ".." -> resolve rooted stack (l ++ [n]) = resolve rooted stack l ++ [n].
Proof.
  intros Hn. revert stack. induction l as [|e l IH]; intros stack; simpl.
  - rewrite decide_False by done. by rewrite reverse_cons.
  - repeat case_match; apply IH.
Qed.

Lemma resolve_pieces rooted stack l :
  Forall (fun s => split_on slash s = [s]) stack -> Forall (fun s => split_on slash s = [s]) l ->
  Forall (fun s => split_on slash s = [s]) (resolve rooted stack l).
Proof.
  revert stack. induction l as [|e l IH]; intros stack Hs Hl; simpl.
  - by apply Forall_reverse.
  - apply Forall_cons in Hl as [He Hl].
    repeat case_match; apply IH; rewrite ?Forall_cons in *; naive_solver.
Qed.

Lemma IsAbs_app a b : a <> "" -> IsAbs (a +:+ b) = IsAbs a.
Proof. by destruct a. Qed.

(** The elements of a file in a directory. *)
Lemma split_Join d n : d <> "" -> plain_name n ->
  split_on slash (Join d n)
  = (if IsAbs d then [""] else []) ++ resolve (IsAbs d) [] (elements_of d) ++ [n].
Proof.
  intros Hd (Hn & N1 & N2 & N3).
  assert (E : Join d n = Clean (d +:+ "/" +:+ n)) by (unfold Join; by destruct d, n).
  rewrite E. unfold Clean. rewrite IsAbs_app by done.
  assert (Ee : elements_of (d +:+ "/" +:+ n) = elements_of d ++ [n]).
  { unfold elements_of. change ("/" +:+ n) with (String slash n).
    rewrite split_on_app_sep, filter_app, Hn. f_equal. by rewrite filter_cons, decide_True, filter_nil. }
  rewrite Ee, resolve_app by done.
  set (l := resolve (IsAbs d) [] (elements_of d)).
  assert (Hl : Forall (fun s => split_on slash s = [s]) (l ++ [n])).
  { apply Forall_app; split; [|by apply Forall_singleton].
    apply resolve_pieces; [constructor|apply elements_of_pieces]. }
  unfold print_path. destruct (IsAbs d).
  - change (String slash (join_with "/" (l ++ [n]))) with ("" +:+ String slash (join_with "/" (l ++ [n]))).
    rewrite split_on_app_sep. simpl (split_on slash ""). f_equal.
    apply split_join_with; [by destruct l|done].
  - destruct (l ++ [n]) as [|x y] eqn:El; [by destruct l|].
    rewrite <- El in *. rewrite app_nil_l.
    apply split_join_with; [by destruct l|done].
Qed.

(** Different names are different files. *)
Lemma Join_inj d n1 n2 : d <> "" -> plain_name n1 -> plain_name n2 ->
  Join d n1 = Join d n2 -> n1 = n2.
Proof.
  intros Hd P1 P2 E. pose proof (split_Join d n1 Hd P1) as S1. pose proof (split_Join d n2 Hd P2) as S2.
  rewrite E in S1. rewrite S1 in S2. rewrite !app_assoc in S2. by apply app_inj_2 in S2 as [_ [= ?]].
Qed.

Example Clean_ex : Clean "/a/./b//../c/" = "/a/c" /\ Clean "../x" = "../x" /\ Clean "" = "." /\
  Join "/repo" "config" = "/repo/config" /\ Dir "config" = "." /\ Dir "/a/b" = "/a" /\ Dir "a/b/c" = "a/b".
Proof. by vm_compute. Qed.

(** ** Of [path] and [net/url] *)

Definition path_Join (elems : list string) : string :=
  match filter (fun e => e <> "") elems with [] => "" | l => Clean (join_with "/" l) end.

(** The directory keeps its final slash. *)
Definition path_Split (p : string) : string * string :=
  let l := split_on slash p in
  match reverse l with
  | f :: (_ :: _ as d) => (join_with "/" (reverse d) +:+ "/", f)
  | _ => ("", p)
  end.

Definition path_Base (p : string) : string :=
  if decide (p = "") then "."
  else let p := trim_right (Ascii.eqb slash) p in
       match List.last (split_on slash p) "" with EmptyString => "/" | b => b end.

Definition path_Ext (p : string) : string :=
  let name := List.last (split_on slash p) "" in
  match reverse (split_on "." name) with e :: _ :: _ => "." +:+ e | _ => "" end.

Fixpoint count_char (c : ascii) (s : string) : nat :=
  match s with EmptyString => 0 | String d s => (if Ascii.eqb d c then 1 else 0) + count_char c s end.

(** ** Escaping *)

(** [shouldEscape] for a path segment. *)
Definition segment_char (c : ascii) : bool :=
  let n := N_of_ascii c in
  ((((48 <=? n) && (n <=? 57)) || ((65 <=? n) && (n <=? 90)) || ((97 <=? n) && (n <=? 122)))%N
   || bool_decide (c ∈ ["-"; "_"; "."; "~"; "$"; "&"; "+"; ":"; "="; "@"]%char)).

Definition upperhex (n : N) : ascii := if (n <? 10)%N then ascii_of_N (48 + n) else ascii_of_N (55 + n).

Fixpoint PathEscape (s : string) : string :=
  match s with
  | EmptyString => EmptyString
  | String c s =>
      if segment_char c then String c (PathEscape s)
      else String "%" (String (upperhex (N_of_ascii c / 16)) (String (upperhex (N_of_ascii c mod 16)) (PathEscape s)))
  end.

(** The number of bytes of the first character of a string in UTF-8; a byte that
    begins no valid character counts alone. *)
Definition in_range (lo hi : N) (s : string) (i : nat) : bool :=
  match String.get i s with Some c => ((lo <=? N_of_ascii c) && (N_of_ascii c <=? hi))%N | None => false end.
Definition cont (s : string) (i : nat) : bool := in_range 0x80 0xBF s i.
Definition rune_width (s : string) : nat :=
  let at0 lo hi := in_range lo hi s 0 in
  if at0 0xC2%N 0xDF%N && cont s 1 then 2
  else if at0 0xE0%N 0xE0%N && in_range 0xA0 0xBF s 1 && cont s 2 then 3
  else if (at0 0xE1%N 0xEC%N || at0 0xEE%N 0xEF%N) && cont s 1 && cont s 2 then 3
  else if at0 0xED%N 0xED%N && in_range 0x80 0x9F s 1 && cont s 2 then 3
  else if at0 0xF0%N 0xF0%N && in_range 0x90 0xBF s 1 && cont s 2 && cont s 3 then 4
  else if at0 0xF1%N 0xF3%N && cont s 1 && cont s 2 && cont s 3 then 4
  else if at0 0xF4%N 0xF4%N && in_range 0x80 0x8F s 1 && cont s 2 && cont s 3 then 4
  else 1.

(** [onlyASCII.ReplaceAllLiteralString(s, "_")]: [skip] bytes of a character are
    still to be dropped. *)
Fixpoint ascii_only_from (skip : nat) (s : string) : string :=
  match s with
  | EmptyString => EmptyString
  | String c s' =>
      match skip with
      | S k => ascii_only_from k s'
      | O => if (N_of_ascii c <? 128)%N then String c (ascii_only_from 0 s')
             else String "_" (ascii_only_from (rune_width s - 1) s')
      end
  end.
Definition ascii_only (s : string) : string := ascii_only_from 0 s.

Example ascii_only_demo : ascii_only (String (ascii_of_N 0xC3) (String (ascii_of_N 0xA9) "t")) = "_t".
Proof. reflexivity. Qed.
Example PathEscape_demo : PathEscape "a b/c" = "a%20b%2Fc".
Proof. reflexivity. Qed.

(** ** Lemmas *)

(** Characters that may stand in a quoted header value: printable, not a quote. *)
Definition header_char (c : ascii) : bool :=
  let n := N_of_ascii c in ((33 <=? n) && (n <=? 126) && negb (n =? 34))%N.

Fixpoint str_all (p : ascii -> bool) (s : string) : bool :=
  match s with EmptyString => true | String c s => p c && str_all p s end.

Lemma str_all_app p a b : str_all p (a +:+ b) = str_all p a && str_all p b.
Proof. induction a as [|x a IH]; [done|]. rewrite string_app_cons. simpl. by rewrite IH, andb_assoc. Qed.

Lemma count_char_app c a b : count_char c (a +:+ b) = (count_char c a + count_char c b)%nat.
Proof. induction a as [|x a IH]; [done|]. rewrite string_app_cons. simpl. rewrite IH. lia. Qed.

Lemma segment_char_safe c : segment_char c = true -> header_char c = true.
Proof. destruct c as [[] [] [] [] [] [] [] []]; by vm_compute. Qed.

Lemma upperhex_safe n : (n < 16)%N -> header_char (upperhex n) = true.
Proof.
  intros Hn. assert (Hc : (n ∈ [0;1;2;3;4;5;6;7;8;9;10;11;12;13;14;15])%N).
  { rewrite !elem_of_cons. lia. }
  repeat (apply elem_of_cons in Hc as [->|Hc]; [done|]). by apply not_elem_of_nil in Hc.
Qed.

Lemma PathEscape_safe s : str_all header_char (PathEscape s) = true.
Proof.
  induction s as [|c s IH]; [done|]. cbn [PathEscape]. destruct (segment_char c) eqn:E; cbn [str_all].
  - by rewrite (segment_char_safe c E), IH.
  - rewrite !upperhex_safe, IH; [done| |].
    + apply N.mod_lt. lia.
    + apply N.Div0.div_lt_upper_bound. pose proof (N_ascii_bounded c). lia.
Qed.

Lemma header_char_no_quote s : str_all header_char s = true -> count_char (ascii_of_N 34) s = 0%nat.
Proof.
  induction s as [|c s IH]; [done|]. cbn [str_all count_char]. intros [Hc Hs]%andb_true_iff. rewrite IH by done.
  destruct (Ascii.eqb_spec c (ascii_of_N 34)) as [->|]; [done|lia].
Qed.
