(* ===== verification/ConfigTypes.v ===== *)
(** The optional values of the configuration file: [config/types.go].

    [Flag] and [Priority] are the Go integers with their special values,
    [OptionalInteger], [OptionalString] and [OptionalDuration] wrap a pointer
    that may be nil.  [MarshalJSON] produces and [UnmarshalJSON] consumes the
    JSON text, for [Strings] the JSON value.  Receivers that may be nil pointers are
    [option]s. *)
From Stdlib Require Import ZArith Lia Ascii String.
From stdpp Require Import base list strings numbers.
From S2P Require Import Prelude GoStrings.

Local Open Scope Z_scope.

(** ** Flag *)

Definition False_ : Z := -1.
Definition Default_ : Z := 0.
Definition True_ : Z := 1.

Definition Flag_WithDefault (f : Z) (defaultValue : bool) : outcome bool :=
  if f =? False_ then Ret false
  else if f =? Default_ then Ret defaultValue
  else if f =? True_ then Ret true
  else Panic ("invalid flag value " +:+ FormatInt f).

Definition Flag_MarshalJSON (f : Z) : result string :=
  if f =? Default_ then Ok "null"
  else if f =? True_ then Ok "true"
  else if f =? False_ then Ok "false"
  else Err ("invalid flag value: " +:+ FormatInt f).

Definition Flag_UnmarshalJSON (input : string) : result Z :=
  if decide (input = "null") then Ok Default_
  else if decide (input = "false") then Ok False_
  else if decide (input = "true") then Ok True_
  else Err "failed to unmarshal into a flag: must be null/undefined, true, or false".

Definition Flag_String (f : Z) : string :=
  if f =? Default_ then "default"
  else if f =? True_ then "true"
  else if f =? False_ then "false"
  else "<invalid flag value " +:+ FormatInt f +:+ ">".

(** ** Priority *)

Definition DefaultPriority : Z := 0.
Definition Disabled : Z := -1.

Definition Priority_WithDefault (p defaultPriority : Z) : outcome (Z * bool) :=
  if p =? Disabled then Ret (0, false)
  else if p =? DefaultPriority then
    if defaultPriority =? Disabled then Ret (0, false)
    else if defaultPriority =? DefaultPriority then Ret (0, true)
    else if defaultPriority <=? 0
         then Panic ("invalid priority " +:+ FormatInt defaultPriority +:+ " < 0")
         else Ret (defaultPriority, true)
  else if p <=? 0 then Panic ("invalid priority " +:+ FormatInt p +:+ " < 0")
  else Ret (p, true).

Definition Priority_MarshalJSON (p : Z) : result string :=
  if 0 <? p then Ok (FormatInt p)
  else if p =? DefaultPriority then Ok "null"
  else if p =? Disabled then Ok "false"
  else Err ("invalid priority value: " +:+ FormatInt p).

Definition Priority_UnmarshalJSON (input : string) : result Z :=
  if decide (input = "null" \/ input = "undefined") then Ok DefaultPriority
  else if decide (input = "false") then Ok Disabled
  else if decide (input = "true") then Err "'true' is not a valid priority"
  else
    match json_Unmarshal_int64 input with
    | None => Err "json: cannot unmarshal into Go value of type int64"
    | Some priority =>
        if priority <=? 0
        then Err ("priority must be positive: " +:+ FormatInt priority +:+ " <= 0")
        else Ok priority
    end.

Definition Priority_String (p : Z) : string :=
  if 0 <? p then FormatInt p
  else if p =? DefaultPriority then "default"
  else if p =? Disabled then "false"
  else "<invalid priority " +:+ FormatInt p +:+ ">".

(** ** OptionalInteger

    [value *int64]: nil, or a pointer to a cell (its address and contents). *)
Record ptr (A : Type) := Ptr { addr : Z; contents : A }.
Arguments Ptr {A}.
Arguments addr {A}.
Arguments contents {A}.

Abbreviation OptionalInteger := (option (ptr Z)).
Abbreviation OptionalString := (option (ptr string)).

Definition OptionalInteger_WithDefault (p : option OptionalInteger) (defaultValue : Z) : Z :=
  match p with
  | None | Some None => defaultValue
  | Some (Some v) => contents v
  end.

Definition OptionalInteger_IsDefault (p : option OptionalInteger) : bool :=
  match p with
  | None | Some None => true
  | Some (Some _) => false
  end.

Definition OptionalInteger_MarshalJSON (p : OptionalInteger) : string :=
  match p with
  | Some v => FormatInt (contents v)
  | None => "null"
  end.

(** [fresh] is the address of the cell the new value is stored in. *)
Definition OptionalInteger_UnmarshalJSON (fresh : Z) (input : string) : result OptionalInteger :=
  if decide (input = "null" \/ input = "undefined") then Ok None
  else
    match json_Unmarshal_int64 input with
    | None => Err "json: cannot unmarshal into Go value of type int64"
    | Some value => Ok (Some (Ptr fresh value))
    end.

(** [fmt.Sprintf("%d", p.value)] formats the pointer, not the integer. *)
Definition OptionalInteger_String (p : OptionalInteger) : string :=
  match p with
  | None => "default"
  | Some v => FormatInt (addr v)
  end.

(** ** OptionalString *)

Definition NewOptionalString (fresh : Z) (s : string) : OptionalString := Some (Ptr fresh s).

Definition OptionalString_WithDefault (p : option OptionalString) (defaultValue : string) : string :=
  match p with
  | None | Some None => defaultValue
  | Some (Some v) => contents v
  end.

Definition OptionalString_IsDefault (p : option OptionalString) : bool :=
  match p with
  | None | Some None => true
  | Some (Some _) => false
  end.

Definition OptionalString_String (p : OptionalString) : string :=
  match p with
  | None => "default"
  | Some v => contents v
  end.

(** ** OptionalDuration

    The text form of a duration is the standard library's ([time.Duration.String],
    [time.ParseDuration]): its syntax has no quote and none of the reserved
    words, and parsing undoes printing. *)
Definition dquote : ascii := ascii_of_N 34.
Definition quoted (s : string) : string := String dquote (s +:+ String dquote "").

Class DurationText := {
  Duration_String : Z -> string;
  ParseDuration : string -> option Z;
  Parse_String d : inS 64 d -> ParseDuration (Duration_String d) = Some d;
  String_unquoted d : trim_char dquote (quoted (Duration_String d)) = Duration_String d;
  Parse_reserved w : In w ["null"; "undefined"; ""; "default"] -> ParseDuration w = None
}.

Abbreviation OptionalDuration := (option Z).

Section Durations.
Context `{DurationText}.

Definition OptionalDuration_UnmarshalJSON (input : string) : result OptionalDuration :=
  if decide (In input ["null"; "undefined"; quoted "null"; ""; "default"; quoted ""; quoted "default"])
  then Ok None
  else
    let text := trim_char dquote input in
    match ParseDuration text with
    | None => Err "time: invalid duration"
    | Some value => Ok (Some value)
    end.

Definition OptionalDuration_IsDefault (d : option OptionalDuration) : bool :=
  match d with
  | None | Some None => true
  | Some (Some _) => false
  end.

Definition OptionalDuration_WithDefault (d : option OptionalDuration) (defaultValue : Z) : Z :=
  match d with
  | None | Some None => defaultValue
  | Some (Some v) => v
  end.

Definition OptionalDuration_MarshalJSON (d : OptionalDuration) : string :=
  match d with
  | None => "null"
  | Some v => quoted (Duration_String v)
  end.

Definition OptionalDuration_String (d : OptionalDuration) : string :=
  match d with
  | None => "default"
  | Some v => Duration_String v
  end.

End Durations.

(** ** Properties *)

(** The flags the package defines. *)
Definition valid_flag (f : Z) : Prop := f = False_ \/ f = Default_ \/ f = True_.

(** The priorities the package defines, in 64 bits. *)
Definition valid_priority (p : Z) : Prop := -1 <= p < 2 ^ 63.

(** A flag survives the configuration file.  Every flag has a JSON text
    exactly when it is one of the three defined values, that text is read back as
    the same flag, every text that is accepted yields a defined flag, and only
    the undefined values make [WithDefault] panic. *)
Theorem flag_json f :
  (valid_flag f <-> exists s, Flag_MarshalJSON f = Ok s /\ Flag_UnmarshalJSON s = Ok f) /\
  (forall s, Flag_UnmarshalJSON s = Ok f -> valid_flag f) /\
  (valid_flag f <-> forall d, exists b, Flag_WithDefault f d = Ret b).
Proof.
  assert (Hread : forall s, Flag_UnmarshalJSON s = Ok f -> valid_flag f).
  { intros s. unfold Flag_UnmarshalJSON, valid_flag.
    repeat case_decide; intros [= <-]; auto. }
  split_and!; [split|done|split].
  - intros [->|[->| ->]]; eexists; split; reflexivity.
  - intros (s & _ & Hs). eauto.
  - intros [->|[->| ->]] d; by eexists.
  - intros Hd. destruct (Hd true) as [b Hb]. unfold Flag_WithDefault, valid_flag in *.
    destruct (Z.eqb_spec f False_); [auto|]. destruct (Z.eqb_spec f Default_); [auto|].
    destruct (Z.eqb_spec f True_); [auto|done].
Qed.

(** A priority survives the configuration file.  Every defined priority (-1
    for disabled, 0 for default, or a positive 64-bit number) is written to a
    text that is read back as the same priority; conversely whatever text is
    accepted yields a defined priority, for which [WithDefault] does not panic
    under any defined default. *)
Theorem priority_json p :
  (valid_priority p -> exists s, Priority_MarshalJSON p = Ok s /\ Priority_UnmarshalJSON s = Ok p) /\
  (forall s, Priority_UnmarshalJSON s = Ok p -> valid_priority p) /\
  (valid_priority p -> forall d, valid_priority d -> exists r, Priority_WithDefault p d = Ret r).
Proof.
  split_and!.
  - intros Hp. unfold Priority_MarshalJSON. unfold valid_priority in Hp.
    destruct (Z.ltb_spec 0 p) as [Hpos|].
    + exists (FormatInt p). split; [done|]. unfold Priority_UnmarshalJSON.
      assert (inS 64 p) as H64 by (unfold inS; simpl; lia).
      rewrite decide_False by (intros [E|E]; by refine (FormatInt_ne p _ H64 _ E)).
      rewrite !decide_False by (intros E; by refine (FormatInt_ne p _ H64 _ E)).
      rewrite json_FormatInt by done. rewrite (proj2 (Z.leb_gt p 0)) by lia. done.
    + assert (p = -1 \/ p = 0) as [->| ->] by lia; eexists; split; reflexivity.
  - intros s. unfold Priority_UnmarshalJSON, valid_priority.
    repeat case_decide; try (intros [= <-]; unfold DefaultPriority, Disabled; lia).
    destruct (json_Unmarshal_int64 s) as [z|] eqn:E; [|done].
    destruct (Z.leb_spec z 0); [done|]. intros [= <-].
    apply json_Unmarshal_int64_range in E. unfold inS in E. simpl in E. lia.
  - intros Hp d Hd. unfold valid_priority, Priority_WithDefault, Disabled, DefaultPriority in *.
    destruct (Z.eqb_spec p (-1)); [by eexists|]. destruct (Z.eqb_spec p 0).
    + destruct (Z.eqb_spec d (-1)); [by eexists|]. destruct (Z.eqb_spec d 0); [by eexists|].
      rewrite (proj2 (Z.leb_gt d 0)) by lia. by eexists.
    + rewrite (proj2 (Z.leb_gt p 0)) by lia. by eexists.
Qed.

(** Optional values survive the configuration file: writing and reading back
    preserves what [WithDefault] and [IsDefault] see, for integers (at whatever
    address the new value is stored) and for durations. *)
Theorem optional_json `{DurationText} (p : OptionalInteger) (d : OptionalDuration) fresh :
  (forall v, p = Some v -> inS 64 (contents v)) -> (forall v, d = Some v -> inS 64 v) ->
  (exists p', OptionalInteger_UnmarshalJSON fresh (OptionalInteger_MarshalJSON p) = Ok p' /\
     OptionalInteger_IsDefault (Some p') = OptionalInteger_IsDefault (Some p) /\
     forall x, OptionalInteger_WithDefault (Some p') x = OptionalInteger_WithDefault (Some p) x) /\
  OptionalDuration_UnmarshalJSON (OptionalDuration_MarshalJSON d) = Ok d.
Proof.
  intros Hp Hd. split.
  - destruct p as [v|]; [|by exists None]. specialize (Hp v eq_refl).
    exists (Some (Ptr fresh (contents v))). split; [|done].
    unfold OptionalInteger_UnmarshalJSON. simpl.
    rewrite decide_False by (intros [E|E]; by refine (FormatInt_ne (contents v) _ Hp _ E)).
    by rewrite json_FormatInt.
  - destruct d as [v|]; [|done]. specialize (Hd v eq_refl).
    unfold OptionalDuration_UnmarshalJSON, OptionalDuration_MarshalJSON.
    rewrite decide_False.
    + by rewrite String_unquoted, Parse_String.
    + intros Hin.
      assert (Hn : In (Duration_String v) ["null"; "undefined"; ""; "default"]).
      { rewrite <- (String_unquoted v).
        destruct Hin as [E|[E|[E|[E|[E|[E|[E|[]]]]]]]]; rewrite <- E; vm_compute; tauto. }
      apply Parse_reserved in Hn. rewrite Parse_String in Hn; done.
Qed.

(** [OptionalInteger.String] prints the address of the value instead of the
    value: its text is the same for any two integers stored at one address. *)
Theorem optional_integer_string_prints_address a v1 v2 :
  OptionalInteger_String (Some (Ptr a v1)) = OptionalInteger_String (Some (Ptr a v2)) /\
  OptionalInteger_String (Some (Ptr a v1)) = FormatInt a.
Proof. done. Qed.

(** ** Witnesses *)

Lemma flag_json_witness :
  exists s, Flag_MarshalJSON (-1) = Ok s /\ Flag_UnmarshalJSON s = Ok (-1).
Proof. destruct (flag_json (-1)) as [[H _] _]. apply H. by left. Defined.

Lemma priority_json_witness :
  (exists s, Priority_MarshalJSON 1000 = Ok s /\ Priority_UnmarshalJSON s = Ok 1000) /\
  exists r, Priority_WithDefault 1000 (-1) = Ret r.
Proof.
  destruct (priority_json 1000) as (H1 & _ & H3).
  split; [apply H1|apply H3]; unfold valid_priority; lia.
Defined.

(** Durations as bare nanosecond counts. *)
Section DurationWitness.

Lemma trim_right_app p s c :
  p c = true -> trim_right p (s +:+ String c "") = trim_right p s.
Proof.
  intros Hc. induction s as [|x s IH]; simpl; [by rewrite Hc|]. by rewrite IH.
Qed.

Lemma trim_right_id p s : Forall (fun c => p c = false) (String.list_ascii_of_string s) -> trim_right p s = s.
Proof.
  induction s as [|c s IH]; [done|]. simpl. intros H. apply Forall_cons_1 in H as [Hc Hs].
  rewrite (IH Hs). destruct s; [by rewrite Hc|done].
Qed.

Lemma digits_no_quote fuel n acc :
  Forall (fun c => Ascii.eqb dquote c = false) (String.list_ascii_of_string acc) ->
  Forall (fun c => Ascii.eqb dquote c = false) (String.list_ascii_of_string (digits fuel n acc)).
Proof.
  assert (Hd : forall n, Ascii.eqb dquote (digit_char (n mod 10)) = false).
  { intros m. apply Ascii.eqb_neq. intros E.
    pose proof (digit_val_char (m mod 10) (Z.mod_pos_bound m 10 ltac:(lia))) as H.
    rewrite <- E in H. vm_compute in H. congruence. }
  revert n acc. induction fuel as [|fuel IH]; intros n acc Hacc; cbn [digits];
    (destruct (n <? 10); [|try apply IH]); constructor; auto.
Qed.

Lemma digits_nonempty f n acc : digits f n acc <> "".
Proof.
  revert n acc. induction f as [|f IH]; intros n acc; cbn [digits]; destruct (n <? 10); try done; apply IH.
Qed.

Lemma FormatInt_unquoted z : trim_char dquote (quoted (FormatInt z)) = FormatInt z.
Proof.
  assert (Hall : Forall (fun c => Ascii.eqb dquote c = false) (String.list_ascii_of_string (FormatInt z))).
  { unfold FormatInt. destruct (z <? 0); [constructor; [reflexivity|]|]; by apply digits_no_quote. }
  assert (Hne : FormatInt z <> "").
  { unfold FormatInt. destruct (z <? 0); [done|apply digits_nonempty]. }
  unfold trim_char, quoted. simpl trim_left.
  destruct (FormatInt z) as [|c s] eqn:E; [done|]. simpl append. simpl trim_left.
  apply Forall_cons_1 in Hall as Hall'. destruct Hall' as [Hc _]. simpl in Hc.
  unfold trim_left. cbn [Ascii.eqb]. fold trim_left. rewrite Hc.
  change (String c (s +:+ String dquote "")) with (String c s +:+ String dquote "").
  rewrite trim_right_app by reflexivity. by apply trim_right_id.
Qed.

Definition nanosecond_text : DurationText.
Proof.
  refine {| Duration_String := FormatInt; ParseDuration := ParseInt |}.
  - apply ParseInt_FormatInt.
  - apply FormatInt_unquoted.
  - intros w [<-|[<-|[<-|[<-|[]]]]]; reflexivity.
Defined.
Existing Instance nanosecond_text.

Lemma optional_json_witness :
  (exists p', OptionalInteger_UnmarshalJSON 64 (OptionalInteger_MarshalJSON (Some (Ptr 32 7))) = Ok p' /\
     OptionalInteger_IsDefault (Some p') = false /\
     forall x, OptionalInteger_WithDefault (Some p') x = 7) /\
  OptionalDuration_UnmarshalJSON (OptionalDuration_MarshalJSON (Some 5000000000)) = Ok (Some 5000000000).
Proof.
  apply (optional_json (Some (Ptr 32 7)) (Some 5000000000) 64);
    intros v [= <-]; unfold inS; simpl; lia.
Defined.

End DurationWitness.

(** ** [Strings] *)

(** JSON as [Strings] tells it apart: an array of strings and nulls, one with something else, a
    string, null, anything else. *)
Inductive strings_json := JNull | JText (s : string) | JTexts (l : list (option string)) | JMixed | JOther.

(** The nil slice is [None].  A null leaves the string it is decoded into empty. *)
Definition Strings_UnmarshalJSON (data : strings_json) : result (option (list string)) :=
  match data with
  | JTexts l => Ok (Some (default "" <$> l))
  | JMixed => Err "json: cannot unmarshal into Go value of type string"
  | JText value => if (String.length value =? 0)%nat then Ok (Some []) else Ok (Some [value])
  | JNull => Ok (Some [])
  | JOther => Err "json: cannot unmarshal into Go value of type string"
  end.

Definition Strings_MarshalJSON (o : option (list string)) : strings_json :=
  match default [] o with
  | [] => JNull
  | [s] => JText s
  | l => JTexts (Some <$> l)
  end.

(** A list of strings is read back as it was written, unless it is the list of one empty string,
    which is read as the empty list; the nil slice is read as an empty one. *)
Theorem strings_json_roundtrip (l : list string) :
  Strings_UnmarshalJSON (Strings_MarshalJSON (Some l)) = Ok (Some l) <-> l <> [""].
Proof.
  assert (Htexts : forall k : list string, default "" <$> (Some <$> k) = k) by (induction k as [|x k IH]; [done|]; cbn; by f_equal).
  unfold Strings_MarshalJSON. destruct l as [|s [|s' l]]; cbn [default Strings_UnmarshalJSON]; [done| |].
  - destruct s; cbn; [split; [done|by intros []]|split; [by intros _ [=]|done]].
  - split; [by intros _ [=]|]. intros _. exact (f_equal (fun k => Ok (Some k)) (Htexts (s :: s' :: l))).
Qed.
