(* ===== verification/ConfigMap.v ===== *)
(** The configuration as nested maps: [repo/common/common.go].

    [map[string]interface{}] as it is decoded from JSON: a tree of values whose
    objects are association lists with distinct keys.  The order of an object's
    members carries no meaning; the operations look keys up and replace them.
    A map updated in place is passed in and returned. *)
From Stdlib Require Import ZArith Lia Ascii String.
From stdpp Require Import base list strings sets.
From S2P Require Import Prelude GoStrings.

(** ** Values *)

Inductive json :=
| JNull
| JBool (b : bool)
| JNum (lit : string)
| JStr (s : string)
| JArr (l : list json)
| JObj (m : list (string * json)).

Abbreviation object := (list (string * json)).

(** [m[k]] with its [ok] result. *)
Fixpoint mlookup (k : string) (m : object) : option json :=
  match m with
  | [] => None
  | (k', v) :: m => if decide (k = k') then Some v else mlookup k m
  end.

(** [m[k] = v]. *)
Fixpoint minsert (k : string) (v : json) (m : object) : object :=
  match m with
  | [] => [(k, v)]
  | (k', v') :: m => if decide (k = k') then (k, v) :: m else (k', v') :: minsert k v m
  end.

Definition dot : ascii := "."%char.
Definition parts_of (key : string) : list string := split_on dot key.
Definition join_dots (ps : list string) : string := join_with "." ps.

(** ** MapGetKV *)

(** The loop; [sofar] holds the parts already followed. *)
Fixpoint get_loop (cursor : json) (sofar parts : list string) : result json :=
  match parts with
  | [] => Ok cursor
  | part :: rest =>
      match cursor with
      | JObj mcursor =>
          match mlookup part mcursor with
          | Some v => get_loop v (sofar ++ [part]) rest
          | None =>
              let path := (if decide (join_dots sofar = "") then "" else join_dots sofar +:+ ".") in
              Err (path +:+ part +:+ " not found")
          end
      | _ => Err (join_dots sofar +:+ " key is not a map")
      end
  end.

Definition MapGetKV (v : object) (key : string) : result json :=
  get_loop (JObj v) [] (parts_of key).

(** ** MapSetKV *)

(** The loop, returning the updated cursor.  [len(parts) > 0], so the loop is left
    at the last part. *)
Fixpoint set_loop (cursor : json) (sofar parts : list string) (value : json) : result json :=
  match parts with
  | [] => Ok cursor
  | part :: rest =>
      match cursor with
      | JObj mcursor =>
          match rest with
          | [] => Ok (JObj (minsert part value mcursor))
          | _ :: _ =>
              let next := match mlookup part mcursor with
                          | None | Some JNull => JObj []
                          | Some c => c
                          end in
              match set_loop next (sofar ++ [part]) rest value with
              | Ok c => Ok (JObj (minsert part c mcursor))
              | Err e => Err e
              end
          end
      | _ => Err (join_dots sofar +:+ " key is not a map")
      end
  end.

(** The error of [MapSetKV] and the map after the call. *)
Definition MapSetKV (v : object) (key : string) (value : json) : option error * object :=
  match set_loop (JObj v) [] (parts_of key) value with
  | Ok (JObj v') => (None, v')
  | Ok _ => (None, v)
  | Err e => (Some e, v)
  end.

(** ** MapMergeDeep *)

(** The value stored for a key of the right map whose present value is [old]. *)
Fixpoint merge_value (old : option json) (rightVal : json) : json :=
  match rightVal with
  | JObj rightMap =>
      match old with
      | Some (JObj leftMap) =>
          JObj ((fix go (r : object) (res : object) : object :=
                   match r with
                   | [] => res
                   | (key, v) :: r => go r (minsert key (merge_value (mlookup key res) v) res)
                   end) rightMap leftMap)
      | _ => rightVal
      end
  | _ => rightVal
  end.

(** [res] starts as the copy of the left map and is updated for each key of the
    right map [r]. *)
Fixpoint MapMergeDeep (res r : object) : object :=
  match r with
  | [] => res
  | (key, rightVal) :: r =>
      MapMergeDeep (minsert key (merge_value (mlookup key res) rightVal) res) r
  end.

(** ** Lemmas on objects *)

Lemma mlookup_minsert k v m : mlookup k (minsert k v m) = Some v.
Proof. induction m as [|[k' v'] m IH]; simpl; repeat (case_decide; simpl); congruence. Qed.

Lemma mlookup_minsert_ne k k' v m : k <> k' -> mlookup k (minsert k' v m) = mlookup k m.
Proof.
  intros Hk. induction m as [|[k2 v2] m IH]; simpl; repeat (case_decide; simpl); congruence.
Qed.

Lemma minsert_keys k v m :
  (minsert k v m).*1 = m.*1 \/ (minsert k v m).*1 = m.*1 ++ [k] /\ k ∉ m.*1.
Proof.
  induction m as [|[k' v'] m IH]; csimpl; [right; split; [done|set_solver]|].
  case_decide; csimpl; [left; congruence|].
  destruct IH as [->|[-> Hn]]; [by left|right]. split; [done|set_solver].
Qed.

Lemma minsert_NoDup k v m : NoDup m.*1 -> NoDup (minsert k v m).*1.
Proof.
  intros Hm. destruct (minsert_keys k v m) as [->|[-> Hn]]; [done|].
  apply NoDup_app. split_and!; [done|set_solver|apply NoDup_singleton].
Qed.

Lemma mlookup_elem k v m : mlookup k m = Some v -> (k, v) ∈ m.
Proof.
  induction m as [|[k' v'] m IH]; simpl; [done|]. case_decide; intros E; simplify_eq; set_solver.
Qed.

Lemma elem_mlookup k v m : NoDup m.*1 -> (k, v) ∈ m -> mlookup k m = Some v.
Proof.
  induction m as [|[k' v'] m IH]; [set_solver|]. intros [Hn Hd]%NoDup_cons Hin. simpl.
  case_decide as E; [subst k'|]; apply elem_of_cons in Hin as [Hin|Hin]; simplify_eq; try done.
  - exfalso. apply Hn. apply list_elem_of_fmap. by exists (k, v).
  - by apply IH.
Qed.

Lemma mlookup_None k m : mlookup k m = None <-> k ∉ m.*1.
Proof.
  induction m as [|[k' v'] m IH]; csimpl; [set_solver|]. case_decide; set_solver.
Qed.

(** ** Paths *)

Fixpoint get_path (v : json) (p : list string) : option json :=
  match p with
  | [] => Some v
  | k :: p => match v with JObj m => mlookup k m ≫= fun v => get_path v p | _ => None end
  end.

Definition is_obj (v : json) : bool := match v with JObj _ => true | _ => false end.

(** A value a path cannot continue through, even by creating maps. *)
Definition blocks (v : json) : bool := match v with JObj _ | JNull => false | _ => true end.

Lemma get_loop_path c sofar p v : get_loop c sofar p = Ok v <-> get_path c p = Some v.
Proof.
  revert c sofar. induction p as [|k p IH]; intros c sofar; simpl; [naive_solver|].
  destruct c; try done. by destruct (mlookup k m); simpl.
Qed.

Lemma MapGetKV_path v key w : MapGetKV v key = Ok w <-> get_path (JObj v) (parts_of key) = Some w.
Proof. apply get_loop_path. Qed.

Lemma parts_of_ne key : parts_of key <> [].
Proof. apply split_on_nonempty. Qed.

Lemma set_loop_obj c sofar p value c' : p <> [] -> set_loop c sofar p value = Ok c' -> exists m, c' = JObj m.
Proof. destruct p as [|k [|k' p]]; simpl; [done|..]; destruct c; try done; [naive_solver|]. case_match; naive_solver. Qed.

Lemma set_loop_get c sofar p value c' :
  p <> [] -> set_loop c sofar p value = Ok c' -> get_path c' p = Some value.
Proof.
  revert c sofar c'. induction p as [|k p IH]; intros c sofar c' Hp E; [done|]. simpl in E.
  destruct c; try done. destruct p as [|k' p]; simplify_eq.
  { simpl. by rewrite mlookup_minsert. }
  destruct (set_loop _ _ (k' :: p) _) as [c|] eqn:E'; simplify_eq.
  cbn [get_path]. rewrite mlookup_minsert. simpl. by eapply IH.
Qed.

Lemma get_path_null k p : get_path JNull (k :: p) = None.
Proof. done. Qed.

Lemma set_loop_other c sofar p value c' q :
  set_loop c sofar p value = Ok c' -> ~ p `prefix_of` q -> ~ q `prefix_of` p ->
  get_path c' q = get_path c q.
Proof.
  revert c sofar c' q. induction p as [|k p IH]; intros c sofar c' q E Hpq Hqp.
  { exfalso. apply Hpq, prefix_nil. }
  destruct q as [|kq q]; [exfalso; apply Hqp, prefix_nil|].
  simpl in E. destruct c as [| | | | |m]; try done.
  destruct (decide (k = kq)) as [<-|Hk].
  2: { assert (exists x, c' = JObj (minsert k x m)) as [x ->] by (repeat case_match; naive_solver).
       simpl. by rewrite mlookup_minsert_ne. }
  destruct p as [|k' p]; [exfalso; apply Hpq, prefix_cons, prefix_nil|].
  destruct (set_loop _ _ (k' :: p) _) as [c|] eqn:E'; simplify_eq.
  cbn [get_path]. rewrite mlookup_minsert. simpl.
  erewrite (IH _ _ _ q E'); [|by intros ?; apply Hpq, prefix_cons|by intros ?; apply Hqp, prefix_cons].
  destruct q as [|kq' q]; [exfalso; apply Hqp, prefix_cons, prefix_nil|].
  by destruct (mlookup k m) as [[]|].
Qed.

Lemma set_loop_fails c sofar p value :
  blocks c = false -> c <> JNull ->
  (exists e, set_loop c sofar p value = Err e) <->
  exists p1 v, p1 `prefix_of` p /\ p1 <> p /\ get_path c p1 = Some v /\ blocks v = true.
Proof.
  revert c sofar. induction p as [|k p IH]; intros c sofar Hb Hn.
  { simpl. split; [by intros []|]. intros (p1 & v & Hp & Hne & _). by apply prefix_nil_inv in Hp. }
  destruct c as [| | | | |m]; try done. simpl. destruct p as [|k' p].
  { split; [intros (e & E); done|]. intros (p1 & v & Hp & Hne & G & B). destruct p1 as [|k1 p1]; [simpl in G; by simplify_eq|].
    apply prefix_cons_inv_1 in Hp as Hk. apply prefix_cons_inv_2 in Hp as Hp. subst.
    by apply prefix_nil_inv in Hp as ->. }
  set (next := match mlookup k m with None | Some JNull => JObj [] | Some c => c end).
  assert (Hrec : (exists e, match set_loop next (sofar ++ [k]) (k' :: p) value with
     Ok c => Ok (JObj (minsert k c m)) | Err e => Err e end = Err e) <->
     exists e, set_loop next (sofar ++ [k]) (k' :: p) value = Err e)
    by (destruct (set_loop next _ _ _); naive_solver).
  rewrite Hrec. clear Hrec.
  destruct (blocks next) eqn:Bn.
  - assert (Hl : mlookup k m = Some next) by (unfold next in *; by destruct (mlookup k m) as [[]|]).
    split; [|intros _; destruct next; try done; simpl; eauto].
    intros _. exists [k], next. split_and!; [apply prefix_cons, prefix_nil|done|simpl; by rewrite Hl|done].
  - assert (Nn : next <> JNull) by (unfold next; by destruct (mlookup k m) as [[]|]).
    rewrite (IH next (sofar ++ [k]) Bn Nn). split.
    + intros (p1 & v & Hp & Hne & G & B). exists (k :: p1), v.
      split_and!; [by apply prefix_cons|by intros [=]| |done].
      simpl. destruct p1 as [|k1 p1]; [simpl in G; congruence|]. unfold next in G.
      by destruct (mlookup k m) as [[]|].
    + intros (p1 & v & Hp & Hne & G & B). destruct p1 as [|k1 p1]; [simpl in G; by simplify_eq|].
      apply prefix_cons_inv_1 in Hp as Hk. apply prefix_cons_inv_2 in Hp as Hp. subst k1.
      exists p1, v. split_and!; [done|by intros ->| |done].
      simpl in G. unfold next. destruct (mlookup k m) as [c|]; [|done]. simpl in G.
      destruct c; try done. destruct p1; simpl in G; by simplify_eq.
Qed.

(** ** Lemmas on merging *)

(** Keys are distinct in every object. *)
Inductive wf : json -> Prop :=
| wf_null : wf JNull
| wf_bool b : wf (JBool b)
| wf_num s : wf (JNum s)
| wf_str s : wf (JStr s)
| wf_arr l : Forall wf l -> wf (JArr l)
| wf_obj m : NoDup m.*1 -> (forall k v, (k, v) ∈ m -> wf v) -> wf (JObj m).

Lemma merge_value_obj l r : merge_value (Some (JObj l)) (JObj r) = JObj (MapMergeDeep l r).
Proof.
  simpl. f_equal. revert l. induction r as [|[k v] r IH]; intros l; simpl; [done|]. apply IH.
Qed.

Lemma merge_value_leaf old v : is_obj v = false -> merge_value old v = v.
Proof. by destruct v. Qed.

Lemma merge_value_fresh old v : (forall m, old <> Some (JObj m)) -> merge_value old v = v.
Proof. destruct v; try done. destruct old as [[]|]; try done. intros H. by destruct (H m0). Qed.

Lemma merge_lookup k l r : NoDup r.*1 ->
  mlookup k (MapMergeDeep l r)
  = match mlookup k r with
    | None => mlookup k l
    | Some rv => Some (merge_value (mlookup k l) rv)
    end.
Proof.
  revert l. induction r as [|[k' v'] r IH]; intros l; csimpl; [done|].
  intros [Hn Hd]%NoDup_cons. rewrite IH by done. case_decide as E.
  - subst k'. rewrite (proj2 (mlookup_None k r)) by done. by rewrite mlookup_minsert.
  - by rewrite !mlookup_minsert_ne.
Qed.

Lemma wf_lookup m k v : wf (JObj m) -> mlookup k m = Some v -> wf v.
Proof. inversion 1; subst. intros E%mlookup_elem. eauto. Qed.

Lemma wf_keys m : wf (JObj m) -> NoDup m.*1.
Proof. by inversion 1. Qed.

(** Leaves of the right map win. *)
Lemma merge_right_leaf p l r v :
  wf (JObj r) -> get_path (JObj r) p = Some v -> is_obj v = false ->
  get_path (JObj (MapMergeDeep l r)) p = Some v.
Proof.
  revert l r. induction p as [|k p IH]; intros l r W G Hv; [simpl in G; by simplify_eq|].
  cbn [get_path] in *. rewrite merge_lookup by by apply wf_keys.
  destruct (mlookup k r) as [rv|] eqn:Er; [|done]. simpl in G |- *.
  destruct (decide (is_obj rv)) as [Ho|Ho].
  - destruct rv as [| | | | |rm]; try done. destruct (mlookup k l) as [lv|]; [|done].
    destruct lv as [| | | | |lm]; try done. rewrite merge_value_obj.
    apply IH; [by eapply wf_lookup|done|done].
  - rewrite merge_value_leaf by (by destruct (is_obj rv)). done.
Qed.

(** What the right map leaves alone is kept: on the way to [p] it has only
    objects, and nothing at [p] itself. *)
Lemma merge_left_kept p l r v :
  wf (JObj r) -> get_path (JObj l) p = Some v -> p <> [] ->
  (forall p1 x, p1 `prefix_of` p -> get_path (JObj r) p1 = Some x -> is_obj x = true /\ p1 <> p) ->
  get_path (JObj (MapMergeDeep l r)) p = Some v.
Proof.
  revert l r. induction p as [|k p IH]; intros l r W G Hp Hr; [done|].
  cbn [get_path] in *. rewrite merge_lookup by by apply wf_keys.
  destruct (mlookup k r) as [rv|] eqn:Er; [|done].
  destruct (Hr [k] rv) as [Ho Hne]; [apply prefix_cons, prefix_nil|simpl; by rewrite Er|].
  destruct rv as [| | | | |rm]; try done.
  destruct p as [|k' p]; [done|]. destruct (mlookup k l) as [lv|] eqn:El; [|done]. simpl in G.
  destruct lv as [| | | | |lm]; try done. rewrite merge_value_obj. cbn [mbind option_bind].
  apply IH; [by eapply wf_lookup|done|done|].
  intros p1 x Hp1 Hx. destruct (Hr (k :: p1) x) as [? Hne1].
  - by apply prefix_cons.
  - cbn [get_path]. by rewrite Er.
  - split; [done|]. by intros ->.
Qed.

(** Nothing is invented. *)
Lemma merge_leaf_origin p l r v :
  wf (JObj r) -> get_path (JObj (MapMergeDeep l r)) p = Some v -> is_obj v = false ->
  get_path (JObj l) p = Some v \/ get_path (JObj r) p = Some v.
Proof.
  revert l r. induction p as [|k p IH]; intros l r W G Hv; [simpl in G; by simplify_eq|].
  cbn [get_path] in *. rewrite merge_lookup in G by by apply wf_keys.
  destruct (mlookup k r) as [rv|] eqn:Er; [|by left]. cbn [mbind option_bind] in G.
  assert (Hdec : (exists lm rm, mlookup k l = Some (JObj lm) /\ rv = JObj rm) \/
                 merge_value (mlookup k l) rv = rv).
  { destruct rv as [| | | | |rm]; try (by right). destruct (mlookup k l) as [lv|]; [|by right].
    destruct lv; try (by right). left. eauto. }
  destruct Hdec as [(lm & rm & El & ->)|Hm].
  - rewrite El in *. rewrite merge_value_obj in G. apply IH; [by eapply wf_lookup|done|done].
  - rewrite Hm in G. by right.
Qed.

Lemma MapSetKV_ok v key value v' :
  MapSetKV v key value = (None, v') ->
  get_path (JObj v') (parts_of key) = Some value /\
  forall q, ~ parts_of key `prefix_of` q -> ~ q `prefix_of` parts_of key ->
    get_path (JObj v') q = get_path (JObj v) q.
Proof.
  unfold MapSetKV. intros E. destruct (set_loop _ _ _ _) as [c|] eqn:S; [|done].
  destruct (set_loop_obj _ _ _ _ _ (parts_of_ne key) S) as [m ->]. simplify_eq. split.
  - by eapply set_loop_get; [apply parts_of_ne|].
  - intros q ? ?. by eapply set_loop_other.
Qed.

Lemma MapSetKV_err v key value e v' :
  MapSetKV v key value = (Some e, v') -> v' = v.
Proof. unfold MapSetKV. intros E. by repeat case_match; simplify_eq. Qed.

Lemma minsert_elem k v m k' v' : (k', v') ∈ minsert k v m -> (k', v') = (k, v) \/ (k', v') ∈ m.
Proof.
  induction m as [|[k2 v2] m IH]; simpl; [set_solver|]. case_decide; set_solver.
Qed.

Lemma wf_minsert k v m : wf (JObj m) -> wf v -> wf (JObj (minsert k v m)).
Proof.
  inversion 1 as [| | | | |m' N F]; subst. intros Hv. constructor; [by apply minsert_NoDup|].
  intros k' v' [?|Hin]%minsert_elem; [by simplify_eq|eauto].
Qed.

Lemma wf_empty : wf (JObj []).
Proof. constructor; [constructor|set_solver]. Qed.

Lemma set_loop_wf c sofar p value c' : wf c -> wf value -> set_loop c sofar p value = Ok c' -> wf c'.
Proof.
  intros Wc Wv. revert c sofar c' Wc. induction p as [|k p IH]; intros c sofar c' Wc E; simpl in E; [by simplify_eq|].
  destruct c as [| | | | |m]; try done. destruct p as [|k' p]; simplify_eq; [by apply wf_minsert|].
  destruct (set_loop _ _ (k' :: p) _) as [c|] eqn:E'; simplify_eq. apply wf_minsert; [done|].
  eapply IH; [|exact E']. destruct (mlookup k m) as [v|] eqn:El; [|apply wf_empty].
  pose proof (wf_lookup _ _ _ Wc El). destruct v; try done. apply wf_empty.
Qed.

Lemma MapSetKV_wf v key value err v' :
  wf (JObj v) -> wf value -> MapSetKV v key value = (err, v') -> wf (JObj v').
Proof.
  unfold MapSetKV. intros Wv Wx E. destruct (set_loop _ _ _ _) as [c|] eqn:S; [|by simplify_eq].
  destruct (set_loop_obj _ _ _ _ _ (parts_of_ne key) S) as [m ->]. simplify_eq.
  exact (set_loop_wf (JObj v) _ _ _ _ Wv Wx S).
Qed.

Lemma get_path_wf v p w : wf v -> get_path v p = Some w -> wf w.
Proof.
  revert v. induction p as [|k p IH]; intros v W G; simpl in G; [by simplify_eq|].
  destruct v as [| | | | |m]; try done. destruct (mlookup k m) as [x|] eqn:E; [|done].
  eapply IH; [by eapply wf_lookup|done].
Qed.

Lemma json_nested_ind (P : json -> Prop) :
  P JNull -> (forall b, P (JBool b)) -> (forall s, P (JNum s)) -> (forall s, P (JStr s)) ->
  (forall l, Forall P l -> P (JArr l)) -> (forall m, Forall (fun kv => P kv.2) m -> P (JObj m)) ->
  forall v, P v.
Proof.
  intros Hn Hb Hnum Hs Ha Ho. fix IH 1. intros [|b|s|s|l|m]; [apply Hn|apply Hb|apply Hnum|apply Hs| |].
  - apply Ha. induction l as [|v l IHl]; constructor; [apply IH|apply IHl].
  - apply Ho. induction m as [|[k v] m IHm]; constructor; [apply IH|apply IHm].
Qed.

(** Boolean equality of values. *)
Fixpoint json_eqb (a b : json) : bool :=
  match a, b with
  | JNull, JNull => true
  | JBool x, JBool y => Bool.eqb x y
  | JNum x, JNum y => String.eqb x y
  | JStr x, JStr y => String.eqb x y
  | JArr l, JArr k =>
      (fix go (l k : list json) : bool :=
         match l, k with
         | [], [] => true
         | x :: l, y :: k => json_eqb x y && go l k
         | _, _ => false
         end) l k
  | JObj m, JObj n =>
      (fix go (m n : object) : bool :=
         match m, n with
         | [], [] => true
         | (kx, x) :: m, (ky, y) :: n => String.eqb kx ky && json_eqb x y && go m n
         | _, _ => false
         end) m n
  | _, _ => false
  end.

Lemma json_eqb_eq a b : json_eqb a b = true -> a = b.
Proof.
  revert b. induction a as [| | | |l IH|m IH] using json_nested_ind; intros [] E; simpl in E; try done.
  - by apply Bool.eqb_prop in E as ->.
  - by apply String.eqb_eq in E as ->.
  - by apply String.eqb_eq in E as ->.
  - f_equal. revert l0 E. induction IH as [|x l Hx IHf IHl]; intros [|y k] E; try done.
    apply andb_true_iff in E as [E1 E2]. f_equal; auto.
  - f_equal. revert m0 E. induction IH as [|[kx x] m Hx IHf IHm]; intros [|[ky y] n] E; try done.
    apply andb_true_iff in E as [[E1 E2]%andb_true_iff E3]. apply String.eqb_eq in E1 as ->.
    simpl in Hx. by rewrite (Hx _ E2), (IHm _ E3).
Qed.

Lemma merge_value_wf rv old : wf rv -> (forall v, old = Some v -> wf v) -> wf (merge_value old rv).
Proof.
  revert old. induction rv as [| | | | |r IH] using json_nested_ind; intros old Wr Wo; try done.
  destruct old as [[| | | | |l]|]; try done. rewrite merge_value_obj.
  specialize (Wo _ eq_refl). apply wf_keys in Wr as N. clear N.
  assert (Hr : forall k v, (k, v) ∈ r -> wf v) by (by inversion Wr). clear Wr.
  revert l Wo. induction IH as [|[k v] r Hv IHf IHr]; intros l Wl; simpl; [done|].
  apply IHr; [intros k' v' Hin; apply (Hr k'); set_solver|].
  apply wf_minsert; [done|]. apply Hv; [apply (Hr k); set_solver|].
  intros w E. by eapply wf_lookup.
Qed.

Lemma MapMergeDeep_wf l r : wf (JObj l) -> wf (JObj r) -> wf (JObj (MapMergeDeep l r)).
Proof.
  intros Wl Wr. rewrite <- merge_value_obj. apply merge_value_wf; [done|]. by intros v [= <-].
Qed.

(** ** Properties *)

(** Writing a configuration key: [MapSetKV] fails exactly when the dotted path
    runs into an existing value that is neither a map nor null, and then the map is
    unchanged; otherwise [MapGetKV] of the key returns the value written (maps
    missing on the way are created) and every key whose path is neither above nor
    below the written one reads as before. *)
Theorem map_set_get v key value :
  let '(err, v') := MapSetKV v key value in
  (err <> None <->
   exists p1 x, p1 `prefix_of` parts_of key /\ p1 <> parts_of key /\
     get_path (JObj v) p1 = Some x /\ blocks x = true) /\
  (err <> None -> v' = v) /\
  (err = None -> MapGetKV v' key = Ok value /\
   forall key' x, ~ parts_of key `prefix_of` parts_of key' ->
     ~ parts_of key' `prefix_of` parts_of key ->
     MapGetKV v' key' = Ok x <-> MapGetKV v key' = Ok x).
Proof.
  destruct (MapSetKV v key value) as [err v'] eqn:E. split_and!.
  - rewrite <- (set_loop_fails (JObj v) [] (parts_of key) value) by done.
    unfold MapSetKV in E. destruct (set_loop _ _ _ _) as [c|e] eqn:S.
    + destruct (set_loop_obj _ _ _ _ _ (parts_of_ne key) S) as [m ->]. simplify_eq. naive_solver.
    + simplify_eq. naive_solver.
  - destruct err; [|done]. intros _. by eapply MapSetKV_err.
  - intros ->. apply MapSetKV_ok in E as [Hg Ho]. split; [by apply MapGetKV_path|].
    intros key' x H1 H2. rewrite !MapGetKV_path. by rewrite Ho.
Qed.

(** Merging an updated configuration into the one on disk: values of the
    right map win, a value of the left map survives when the right map has only
    maps on the way to it and nothing at its key, and every non-map value of the
    result comes from one of the two, so keys the program does not know are
    never lost. *)
Theorem map_merge_deep l r key v :
  wf (JObj r) ->
  (MapGetKV r key = Ok v -> is_obj v = false -> MapGetKV (MapMergeDeep l r) key = Ok v) /\
  (MapGetKV l key = Ok v ->
   (forall p1 x, p1 `prefix_of` parts_of key -> get_path (JObj r) p1 = Some x ->
      is_obj x = true /\ p1 <> parts_of key) ->
   MapGetKV (MapMergeDeep l r) key = Ok v) /\
  (MapGetKV (MapMergeDeep l r) key = Ok v -> is_obj v = false ->
   MapGetKV l key = Ok v \/ MapGetKV r key = Ok v).
Proof.
  intros W. rewrite !MapGetKV_path. split_and!; intros.
  - by apply merge_right_leaf.
  - apply merge_left_kept; auto. apply parts_of_ne.
  - by apply merge_leaf_origin.
Qed.

Lemma map_merge_deep_witness :
  MapGetKV (MapMergeDeep [("API", JObj [("Port", JNum "1"); ("Custom", JStr "x")])]
                         [("API", JObj [("Port", JNum "2")])]) "API.Port" = Ok (JNum "2").
Proof.
  refine (proj1 (map_merge_deep _ _ "API.Port" (JNum "2") _) _ _); [|reflexivity|reflexivity].
  constructor; [by apply NoDup_singleton|]. intros k v [= -> ->]%list_elem_of_singleton.
  constructor; [by apply NoDup_singleton|]. intros k v [= -> ->]%list_elem_of_singleton. constructor.
Defined.
