(* ===== verification/GC.v ===== *)
(** Mark-and-sweep garbage collection: [gc/gc.go].

    A CID is its version, codec and multihash.  The marked set, the [errors]
    flag and the results sent on [output] are the state [mark] threaded through
    the closures of [ColoredSet].  Every [select] that may notice a cancelled
    context asks the list [ticks]: its head says whether the [ctx.Done()] branch
    is taken, and an exhausted list means the context is never cancelled.

    The pinner, the node getter, [verifcid] and [dag.Walk] are not part of this
    repository.  [dag.Walk] is the class [DagWalk]: a walk is a sequence of calls
    of its two callbacks that starts at the root, asks for the links of the nodes
    it is first to visit and visits links it was given; a walk that returns nil
    did all of it. *)
From Stdlib Require Import ZArith Lia String.
From stdpp Require Import base list strings gmap sets.
From S2P Require Import Prelude.

Local Open Scope Z_scope.

(** ** Content identifiers *)

Record cid := Cid { Version : Z; Type_ : Z; Hash : string }.

#[export] Instance cid_eq_dec : EqDecision cid.
Proof. solve_decision. Defined.
#[export] Instance cid_countable : Countable cid.
Proof.
  refine (inj_countable' (fun c => (Version c, Type_ c, Hash c))
    (fun t => Cid t.1.1 t.1.2 t.2) _). by intros [].
Defined.

(** [cid.Raw]. *)
Definition Raw : Z := 85.
Definition NewCidV1 (codec : Z) (h : string) : cid := Cid 1 codec h.

Definition toCidV1 (c : cid) : cid :=
  if Version c =? 0 then NewCidV1 (Type_ c) (Hash c) else c.

Definition raw_cid (c : cid) : cid := NewCidV1 Raw (Hash c).

(** The callback of [ForEach] returns nil, so the conversion never fails. *)
Definition toRawCids (set : gset cid) : result (gset cid) := Ok (set_map raw_cid set).

(** [cid.Set.Visit]: adds the CID, reporting whether it was new. *)
Definition set_Visit (s : gset cid) (c : cid) : bool * gset cid :=
  if decide (c ∈ s) then (false, s) else (true, {[ c ]} ∪ s).

(** ** Results *)

Inductive gc_error :=
| CannotFetchLinksError (Key : cid) (e : error)
| CannotDeleteBlockError (Key : cid) (e : error)
| OtherError (e : error).

Definition ErrCannotFetchAllLinks : gc_error :=
  OtherError "garbage collection aborted: could not retrieve some links".
Definition ErrCannotDeleteSomeBlocks : gc_error :=
  OtherError "garbage collection incomplete: could not delete some blocks".

(** [CannotFetchLinksError.Error] and [CannotDeleteBlockError.Error];
    [show] prints a CID. *)
Definition gc_error_Error (show : cid -> string) (e : gc_error) : string :=
  match e with
  | CannotFetchLinksError k e => "could not retrieve links for " +:+ show k +:+ ": " +:+ e
  | CannotDeleteBlockError k e => "could not remove " +:+ show k +:+ ": " +:+ e
  | OtherError e => e
  end.

Inductive Result :=
| KeyRemoved (k : cid)
| ResError (e : gc_error).

Definition is_error (r : Result) : bool :=
  match r with ResError _ => true | KeyRemoved _ => false end.

(** ** The collector's state *)

Record mark := Mark {
  gcs : gset cid;
  errors : bool;
  output : list Result;
  ticks : list bool;
}.

Definition set_errors (st : mark) : mark := Mark (gcs st) true (output st) (ticks st).
Definition add_gcs (c : cid) (st : mark) : mark :=
  Mark ({[ c ]} ∪ gcs st) (errors st) (output st) (ticks st).

(** Whether [ctx] is seen as done at this point. *)
Definition poll (st : mark) : bool * mark :=
  match ticks st with
  | [] => (false, st)
  | d :: ts => (d, Mark (gcs st) (errors st) (output st) ts)
  end.

Definition ctx_Err : error := "context canceled".

(** [select { case output <- r: case <-ctx.Done(): }]: whether [r] was sent. *)
Definition send (r : Result) (st : mark) : bool * mark :=
  let '(d, st) := poll st in
  if d then (false, st)
  else (true, Mark (gcs st) (errors st) (output st ++ [r]) (ticks st)).

(** ** [dag.Walk] *)

Inductive call :=
| CVisit (c : cid) (fresh : bool)
| CLinks (c : cid) (r : result (list cid)).

Abbreviation links_fn := (cid -> mark -> result (list cid) * mark).
Abbreviation visit_fn := (cid -> mark -> bool * mark).

(** The state after a sequence of callback calls. *)
Inductive calls (gl : links_fn) (vis : visit_fn) : mark -> list call -> mark -> Prop :=
| calls_nil s : calls gl vis s [] s
| calls_visit s c b s1 t s2 :
    vis c s = (b, s1) -> calls gl vis s1 t s2 -> calls gl vis s (CVisit c b :: t) s2
| calls_links s c r s1 t s2 :
    gl c s = (r, s1) -> calls gl vis s1 t s2 -> calls gl vis s (CLinks c r :: t) s2.

(** Where a walk's calls come from: only the root and links it was given are
    visited, and only nodes it was first to visit are expanded. *)
Definition walk_sound (root : cid) (t : list call) : Prop :=
  (forall t1 c b t2, t = t1 ++ CVisit c b :: t2 ->
     c = root \/ exists p ls, CLinks p (Ok ls) ∈ t1 /\ c ∈ ls) /\
  (forall t1 c r t2, t = t1 ++ CLinks c r :: t2 -> CVisit c true ∈ t1).

(** What a walk that returns nil has done. *)
Definition walk_complete (root : cid) (t : list call) : Prop :=
  (exists b, CVisit root b ∈ t) /\
  (forall c, CVisit c true ∈ t -> exists ls, CLinks c (Ok ls) ∈ t) /\
  (forall p ls c, CLinks p (Ok ls) ∈ t -> c ∈ ls -> exists b, CVisit c b ∈ t).

Class DagWalk := {
  Walk : links_fn -> cid -> visit_fn -> mark -> option error * mark;
  Walk_calls : forall gl root vis s e s', Walk gl root vis s = (e, s') ->
    exists t, calls gl vis s t s' /\ walk_sound root t /\ (e = None -> walk_complete root t)
}.

(** The pinner, the node getter and [verifcid.ValidateCid].  Blocks are content
    addressed, so a CIDv0 and its CIDv1 have the same links. *)
Class GCEnv := {
  RecursiveKeys : result (list cid);
  DirectKeys : result (list cid);
  InternalPins : result (list cid);
  GetLinks : cid -> result (list cid);
  GetLinks_v1 : forall c, GetLinks (toCidV1 c) = GetLinks c;
  IsNotFound : error -> bool;
  ValidateCid : cid -> option error;
  insecure_hash_error : error -> bool
}.

(** The blockstore: which multihashes it has, [AllKeysChan] (the keys the channel
    delivers, raw CIDv1s) and [DeleteBlock], which may fail. *)
Class GCBlockstore := {
  bstore : Type;
  bs_has : bstore -> string -> bool;
  AllKeysChan : bstore -> result (list cid);
  AllKeysChan_keys : forall s ks, AllKeysChan s = Ok ks ->
    Forall (fun k => k = raw_cid k) ks /\
    forall h, bs_has s h = true -> NewCidV1 Raw h ∈ ks;
  DeleteBlock : bstore -> cid -> option error * bstore;
  DeleteBlock_other : forall s k h, h <> Hash k -> bs_has (DeleteBlock s k).2 h = bs_has s h;
  DeleteBlock_done : forall s k, (DeleteBlock s k).1 = None ->
    bs_has (DeleteBlock s k).2 (Hash k) = false
}.

Section GC.
Context `{DagWalk, GCEnv, GCBlockstore}.

(** *** Descendants *)

Definition verifyGetLinks (getLinks : links_fn) : links_fn := fun c st =>
  match ValidateCid c with
  | Some err => (Err err, st)
  | None => getLinks c st
  end.

(** [insecure_hash_error] is the test for the two [verifcid] messages. *)
Definition verboseCidError (err : error) : error :=
  if insecure_hash_error err then
    "'" +:+ err +:+ "' Please run 'ipfs pin verify' to list insecure hashes. If you want to read them, please downgrade your go-ipfs to 0.4.13"
  else err.

Definition visit_v1 : visit_fn := fun k st =>
  let '(b, s) := set_Visit (gcs st) (toCidV1 k) in
  (b, Mark s (errors st) (output st) (ticks st)).

Fixpoint Descendants (getLinks : links_fn) (roots : list cid) (st : mark) : option error * mark :=
  match roots with
  | [] => (None, st)
  | c :: roots =>
      match Walk (verifyGetLinks getLinks) c visit_v1 st with
      | (Some err, st) => (Some (verboseCidError err), st)
      | (None, st) => Descendants getLinks roots st
      end
  end.

(** *** ColoredSet *)

Definition report_links (c : cid) (err : error) (st : mark) : result (list cid) * mark :=
  let '(sent, st) := send (ResError (CannotFetchLinksError c err)) (set_errors st) in
  if sent then (Ok [], st) else (Err ctx_Err, st).

Definition getLinks : links_fn := fun c st =>
  match GetLinks c with
  | Ok links => (Ok links, st)
  | Err err => report_links c err st
  end.

Definition bestEffortGetLinks : links_fn := fun c st =>
  match GetLinks c with
  | Ok links => (Ok links, st)
  | Err err => if IsNotFound err then (Ok [], st) else report_links c err st
  end.

(** [err = Descendants(...); if err != nil {...}]: an error is sent and noted;
    false when the context was done instead. *)
Definition mark_phase (gl : links_fn) (roots : list cid) (st : mark) : bool * mark :=
  match Descendants gl roots st with
  | (None, st) => (true, st)
  | (Some err, st) => send (ResError (OtherError err)) (set_errors st)
  end.

Definition ColoredSet (bestEffortRoots : list cid) (st : mark) : (gc_error + gset cid) * mark :=
  match RecursiveKeys with
  | Err err => (inl (OtherError err), st)
  | Ok rkeys =>
      let '(ok, st) := mark_phase getLinks rkeys st in
      if negb ok then (inl (OtherError ctx_Err), st) else
      let '(ok, st) := mark_phase bestEffortGetLinks bestEffortRoots st in
      if negb ok then (inl (OtherError ctx_Err), st) else
      match DirectKeys with
      | Err err => (inl (OtherError err), st)
      | Ok dkeys =>
          let st := fold_left (fun st k => add_gcs (toCidV1 k) st) dkeys st in
          match InternalPins with
          | Err err => (inl (OtherError err), st)
          | Ok ikeys =>
              let '(ok, st) := mark_phase getLinks ikeys st in
              if negb ok then (inl (OtherError ctx_Err), st) else
              if errors st then (inl ErrCannotFetchAllLinks, st) else (inr (gcs st), st)
          end
      end
  end.

(** *** GC

    The sweep loop: [errs] and [removed] are the local variables [errors] and
    [removed]; the loop ends when the context is done or the key channel is
    closed. *)
Fixpoint sweep (set : gset cid) (keys : list cid) (errs : bool) (removed : Z)
    (st : mark) (bs : bstore) : bool * Z * mark * bstore :=
  let '(d, st) := poll st in
  if d then (errs, removed, st, bs) else
  let '(d, st) := poll st in
  if d then (errs, removed, st, bs) else
  match keys with
  | [] => (errs, removed, st, bs)
  | k :: keys =>
      if decide (k ∈ set) then sweep set keys errs removed st bs
      else
        let '(err, bs) := DeleteBlock bs k in
        let removed := u64 (removed + 1) in
        match err with
        | Some err =>
            let '(sent, st) := send (ResError (CannotDeleteBlockError k err)) st in
            if sent then sweep set keys true removed st bs else (true, removed, st, bs)
        | None =>
            let '(sent, st) := send (KeyRemoved k) st in
            if sent then sweep set keys errs removed st bs else (errs, removed, st, bs)
        end
  end.

(** The tail of [GC]: [dstor] is [None] when the datastore is no [GCDatastore],
    and otherwise what [CollectGarbage] returns. *)
Definition collect_datastore (dstor : option (option error)) (st : mark) : mark :=
  match dstor with
  | Some (Some err) => (send (ResError (OtherError err)) st).2
  | _ => st
  end.

(** [GC]: the results sent on the output channel and the blockstore when the
    goroutine has finished, for a context that behaves as [ts]. *)
Definition GC (bs : bstore) (dstor : option (option error)) (bestEffortRoots : list cid)
    (ts : list bool) : list Result * bstore :=
  match ColoredSet bestEffortRoots (Mark ∅ false [] ts) with
  | (inl err, st) => (output (send (ResError err) st).2, bs)
  | (inr set, st) =>
      match toRawCids set with
      | Err err => (output (send (ResError (OtherError err)) st).2, bs)
      | Ok set =>
          match AllKeysChan bs with
          | Err err => (output (send (ResError (OtherError err)) st).2, bs)
          | Ok keys =>
              let '(errs, removed, st, bs) := sweep set keys false 0 st bs in
              let '(sent, st) :=
                if errs then send (ResError ErrCannotDeleteSomeBlocks) st else (true, st) in
              if sent then (output (collect_datastore dstor st), bs) else (output st, bs)
          end
      end
  end.

(** ** The marked set is exactly what is protected *)

(** Reachable through links from [roots], not expanding the nodes of [avoid]. *)
Inductive reach (avoid : cid -> Prop) (roots : list cid) : cid -> Prop :=
| reach_root c : c ∈ roots -> reach avoid roots c
| reach_link p ls c :
    reach avoid roots p -> ~ avoid p -> GetLinks p = Ok ls -> c ∈ ls -> reach avoid roots c.

Definition reach_all := reach (fun _ => False).

(** Directly pinned, up to the CID version. *)
Definition direct (dkeys : list cid) (c : cid) : Prop := toCidV1 c ∈ (toCidV1 <$> dkeys).

(** What the collector must keep: everything below the recursive pins and the
    best-effort roots, the direct pins, and everything below the internal pins as
    far as it is not cut off by a direct pin.  When the pinner cannot list its pins
    this is not known, and nothing may be deleted. *)
Definition protected (bestEffortRoots : list cid) (c : cid) : Prop :=
  exists rkeys dkeys ikeys,
    RecursiveKeys = Ok rkeys /\ DirectKeys = Ok dkeys /\ InternalPins = Ok ikeys /\
    (reach_all rkeys c \/ reach_all bestEffortRoots c \/ c ∈ dkeys \/
     reach (direct dkeys) ikeys c).

(** ** Lemmas on the mark phase *)

Definition links (c : cid) : list cid := match GetLinks c with Ok ls => ls | Err _ => [] end.

Lemma links_v1 c : links (toCidV1 c) = links c.
Proof. unfold links. by rewrite GetLinks_v1. Qed.

Lemma links_ok c d : d ∈ links c -> exists ls, GetLinks c = Ok ls /\ d ∈ ls.
Proof. unfold links. destruct (GetLinks c); [eauto|set_solver]. Qed.

(** What the two link callbacks of [ColoredSet] have in common. *)
Definition good_links (gl : links_fn) : Prop := forall c s r s', gl c s = (r, s') ->
  gcs s' = gcs s /\ (errors s = true -> errors s' = true) /\
  (ticks s = [] -> ticks s' = []) /\ (errors s' = false -> output s' = output s) /\
  forall ls, r = Ok ls -> ls = links c.

Lemma send_state r st b st' : send r st = (b, st') ->
  gcs st' = gcs st /\ errors st' = errors st /\ (ticks st = [] -> ticks st' = [] /\ b = true).
Proof. unfold send, poll. intros E. repeat case_match; by simplify_eq/=. Qed.

Lemma report_links_good c e : GetLinks c = Err e ->
  forall s r s', report_links c e s = (r, s') ->
  gcs s' = gcs s /\ errors s' = true /\ (ticks s = [] -> ticks s' = []) /\
  forall ls, r = Ok ls -> ls = links c.
Proof.
  intros E s r s' R. unfold report_links in R. destruct (send _ _) as [b s1] eqn:Es.
  apply send_state in Es as (Eg & Ee & Et). unfold links. rewrite E. destruct b; simplify_eq; split_and!; try done; naive_solver.
Qed.

Lemma getLinks_good : good_links getLinks.
Proof.
  intros c s r s' R. unfold getLinks in R. destruct (GetLinks c) as [ls|e] eqn:E.
  - unfold links. rewrite E. naive_solver.
  - apply (report_links_good c e E) in R as (Rg & Re & Rt & Rl). split_and!; auto. congruence.
Qed.

Lemma bestEffortGetLinks_good : good_links bestEffortGetLinks.
Proof.
  intros c s r s' R. unfold bestEffortGetLinks in R. destruct (GetLinks c) as [ls|e] eqn:E.
  - unfold links. rewrite E. naive_solver.
  - destruct (IsNotFound e).
    + unfold links. rewrite E. naive_solver.
    + apply (report_links_good c e E) in R as (Rg & Re & Rt & Rl). split_and!; auto. congruence.
Qed.

Lemma verifyGetLinks_good gl : good_links gl -> good_links (verifyGetLinks gl).
Proof.
  intros G c s r s' R. unfold verifyGetLinks in R.
  destruct (ValidateCid c); [naive_solver|by apply G].
Qed.

(** What a run of the callbacks does to the marked set. *)
Record visited (s s' : mark) (t : list call) : Prop := {
  vs_mono : gcs s ⊆ gcs s';
  vs_errors : errors s = true -> errors s' = true;
  vs_ticks : ticks s = [] -> ticks s' = [];
  vs_output : errors s' = false -> output s' = output s;
  vs_marked : forall c b, CVisit c b ∈ t -> toCidV1 c ∈ gcs s';
  vs_fresh : forall c, CVisit c true ∈ t -> toCidV1 c ∉ gcs s;
  vs_only : forall x, x ∈ gcs s' -> x ∈ gcs s \/ exists c, CVisit c true ∈ t /\ x = toCidV1 c;
  vs_links : forall c ls, CLinks c (Ok ls) ∈ t -> ls = links c
}.

Lemma visit_v1_spec c s b s1 : visit_v1 c s = (b, s1) ->
  errors s1 = errors s /\ ticks s1 = ticks s /\ output s1 = output s /\
  gcs s1 = {[ toCidV1 c ]} ∪ gcs s /\
  (b = true -> toCidV1 c ∉ gcs s) /\ (b = false -> gcs s1 = gcs s).
Proof.
  unfold visit_v1, set_Visit. intros E. case_decide; simplify_eq/=; split_and!; try done; set_solver.
Qed.

Lemma calls_visited gl s t s' : good_links gl -> calls gl visit_v1 s t s' -> visited s s' t.
Proof.
  intros G C. induction C as [s|s c b s1 t s2 V C IH|s c r s1 t s2 L C IH].
  - split; try set_solver.
  - apply visit_v1_spec in V as (Ee & Et & Eo & Eg & Ht & Hf). destruct IH as [Im Ie It Iout Ik If Io Il].
    split.
    + set_solver.
    + rewrite <- Ee. done.
    + rewrite <- Et. done.
    + rewrite <- Eo. done.
    + intros c' b' [E|Hin]%elem_of_cons; [simplify_eq; set_solver|eauto].
    + intros c' [E|Hin]%elem_of_cons; [simplify_eq; auto|]. apply If in Hin. set_solver.
    + intros x Hx. apply Io in Hx as [Hx|(c' & Hc & ->)].
      * destruct b; [|left; by rewrite <- Hf]. rewrite Eg in Hx.
        apply elem_of_union in Hx as [->%elem_of_singleton|Hx]; [right; exists c; set_solver|by left].
      * right. exists c'. set_solver.
    + intros c' ls Hin. apply (Il c'). set_solver.
  - apply G in L as (Eg & Ee & Et & Eo & El). destruct IH as [Im Ie It Iout Ik If Io Il].
    rewrite Eg in *. split; eauto.
    + intros He. rewrite Iout by done. apply Eo. destruct (errors s1); [|done].
      rewrite Ie in He; done.
    + intros c' b' Hin. apply (Ik c' b'). set_solver.
    + intros c' Hin. apply If. set_solver.
    + intros x [Hx|(c' & Hc & ->)]%Io; [by left|right; exists c'; set_solver].
    + intros c' ls [E|Hin]%elem_of_cons; [simplify_eq; by apply El|by apply Il].
Qed.

(** Every node of [S] outside [X] has its links in [S]. *)
Definition closed (X S : gset cid) : Prop :=
  forall x d, x ∈ S -> x ∉ X -> d ∈ links x -> toCidV1 d ∈ S.

Lemma walk_closed X root s s' t :
  visited s s' t -> walk_complete root t -> closed X (gcs s) ->
  closed X (gcs s') /\ toCidV1 root ∈ gcs s'.
Proof.
  intros V ((b & Hr) & Hexp & Hlinks) C. split; [|by eapply vs_marked].
  intros x d Hx Hn Hd. apply (vs_only _ _ _ V) in Hx as [Hx|(c & Hc & ->)].
  - apply (vs_mono _ _ _ V). by apply (C x).
  - rewrite links_v1 in Hd. destruct (Hexp c Hc) as [ls Hl].
    rewrite <- (vs_links _ _ _ V _ _ Hl) in Hd.
    destruct (Hlinks _ _ _ Hl Hd) as [b' Hv]. by apply (vs_marked _ _ _ V _ _ Hv).
Qed.

Lemma walk_reaches avoid roots root s s' t :
  visited s s' t -> walk_sound root t -> root ∈ roots ->
  (forall c, avoid c -> toCidV1 c ∈ gcs s) ->
  forall n t1 c b t2, t = t1 ++ CVisit c b :: t2 -> (length t1 < n)%nat -> reach avoid roots c.
Proof.
  intros V [Sv Sl] Hroot Hav. induction n as [|n IH]; intros t1 c b t2 E Hlen; [lia|].
  destruct (Sv _ _ _ _ E) as [->|(p & ls & Hp & Hc)]; [by apply reach_root|].
  assert (El : ls = links p) by (apply (vs_links _ _ _ V); set_solver). subst ls. apply links_ok in Hc as (ls & Eg & Hc).
  apply list_elem_of_split in Hp as (u1 & u2 & ->).
  pose proof (Sl u1 p (Ok (links p)) (u2 ++ CVisit c b :: t2)) as Hp.
  rewrite <- app_assoc in E. specialize (Hp E).
  apply list_elem_of_split in Hp as (v1 & v2 & ->).
  eapply reach_link; [|  |exact Eg|exact Hc].
  - eapply (IH v1 p true); [rewrite E, <- app_assoc; done|]. rewrite !length_app in Hlen. simpl in Hlen. lia.
  - intros Ha%Hav. revert Ha. eapply vs_fresh; [exact V|]. set_solver.
Qed.

Lemma Descendants_spec gl avoid roots0 X roots st e st' :
  good_links gl -> Descendants gl roots st = (e, st') ->
  (forall r, r ∈ roots -> r ∈ roots0) -> (forall c, avoid c -> toCidV1 c ∈ gcs st) ->
  gcs st ⊆ gcs st' /\ (errors st = true -> errors st' = true) /\
  (forall x, x ∈ gcs st' -> x ∈ gcs st \/ exists c, x = toCidV1 c /\ reach avoid roots0 c) /\
  (e = None -> closed X (gcs st) ->
   closed X (gcs st') /\ forall r, r ∈ roots -> toCidV1 r ∈ gcs st').
Proof.
  intros G. revert st. induction roots as [|r roots IH]; intros st E Hr Ha; simpl in E.
  { simplify_eq. split_and!; auto. intros. split; [done|set_solver]. }
  destruct (Walk _ _ _ _) as [e1 st1] eqn:W. apply Walk_calls in W as (t & C & So & Co).
  apply calls_visited in C as V; [|by apply verifyGetLinks_good].
  pose proof (vs_mono _ _ _ V) as Vm.
  assert (Vr : forall x, x ∈ gcs st1 -> x ∈ gcs st \/ exists c, x = toCidV1 c /\ reach avoid roots0 c).
  { intros x Hx. apply (vs_only _ _ _ V) in Hx as [Hx|(c & Hc & ->)]; [by left|right].
    exists c. split; [done|]. apply list_elem_of_split in Hc as (t1 & t2 & Et).
    apply (walk_reaches avoid roots0 r st st1 t V So) with (n := S (length t1)) (t1 := t1) (b := true) (t2 := t2);
      auto; apply Hr; set_solver. }
  destruct e1 as [e1|].
  { simplify_eq. split_and!; auto; [apply (vs_errors _ _ _ V)|discriminate]. }
  specialize (Co eq_refl). apply IH in E as (Em & Ee & Er & Ec); [|set_solver|set_solver].
  split_and!.
  - set_solver.
  - intros. by apply Ee, (vs_errors _ _ _ V).
  - intros x [Hx%Vr|Hx]%Er; auto.
  - intros He Hcl. destruct (walk_closed X _ _ _ _ V Co Hcl) as [Hcl1 Hroot].
    destruct (Ec He Hcl1) as [Hcl2 Hroots]. split; [done|].
    intros r' [->|Hr']%elem_of_cons; [set_solver|by apply Hroots].
Qed.

Lemma closed_reach avoid X S roots c :
  closed X S -> (forall r, r ∈ roots -> toCidV1 r ∈ S) ->
  (forall c, toCidV1 c ∈ X -> avoid c) -> reach avoid roots c -> toCidV1 c ∈ S.
Proof.
  intros C Hr HX R. induction R as [c Hc|p ls c R IH Hn E Hc]; [auto|].
  apply (C (toCidV1 p)); [done|by intros ?%HX|]. rewrite links_v1. unfold links. by rewrite E.
Qed.

Lemma add_direct_gcs dkeys st :
  fold_left (fun st k => add_gcs (toCidV1 k) st) dkeys st
    = Mark (list_to_set (toCidV1 <$> dkeys) ∪ gcs st) (errors st) (output st) (ticks st).
Proof.
  revert st. induction dkeys as [|k dkeys IH]; intros st; csimpl.
  { destruct st; simpl. f_equal. set_solver. }
  rewrite IH. simpl. f_equal. set_solver.
Qed.

Lemma mark_phase_ok gl roots st st' :
  good_links gl -> mark_phase gl roots st = (true, st') -> errors st' = false ->
  Descendants gl roots st = (None, st') /\ errors st = false.
Proof.
  intros G E He. unfold mark_phase in E. destruct (Descendants gl roots st) as [[e|] s1] eqn:D.
  - apply send_state in E as (_ & E & _). rewrite E in He. discriminate.
  - simplify_eq. split; [done|]. destruct (errors st) eqn:Es; [|done].
    apply (Descendants_spec gl (fun _ => False) roots ∅) in D as (_ & D & _); auto; [|done].
    rewrite D in He by done. discriminate.
Qed.

(** The phases of a successful [ColoredSet]. *)
Lemma ColoredSet_phases be st S st' :
  ColoredSet be st = (inr S, st') ->
  exists rkeys dkeys ikeys st1 st2 st3,
    RecursiveKeys = Ok rkeys /\ DirectKeys = Ok dkeys /\ InternalPins = Ok ikeys /\
    Descendants getLinks rkeys st = (None, st1) /\
    Descendants bestEffortGetLinks be st1 = (None, st2) /\
    st3 = Mark (list_to_set (toCidV1 <$> dkeys) ∪ gcs st2) (errors st2) (output st2) (ticks st2) /\
    Descendants getLinks ikeys st3 = (None, st') /\ S = gcs st' /\
    errors st1 = false /\ errors st2 = false /\ errors st' = false.
Proof.
  unfold ColoredSet. intros E.
  destruct RecursiveKeys as [rkeys|]; [|discriminate].
  destruct (mark_phase getLinks rkeys st) as [[] st1] eqn:M1; simpl in E; [|discriminate].
  destruct (mark_phase bestEffortGetLinks be st1) as [[] st2] eqn:M2; simpl in E; [|discriminate].
  destruct DirectKeys as [dkeys|]; [|discriminate].
  destruct InternalPins as [ikeys|]; [|discriminate].
  rewrite add_direct_gcs in E. remember (Mark (_ ∪ _) _ _ _) as st3 eqn:Est.
  destruct (mark_phase getLinks ikeys st3) as [[] st4] eqn:M3; simpl in E; [|discriminate].
  destruct (errors st4) eqn:Er; [discriminate|]. injection E as <- <-.
  apply mark_phase_ok in M3 as [M3 Er3]; [|apply getLinks_good|done].
  assert (Er2' : errors st2 = false) by (by rewrite Est in Er3).
  apply mark_phase_ok in M2 as [M2 Er2]; [|apply bestEffortGetLinks_good|done].
  apply mark_phase_ok in M1 as [M1 Er1]; [|apply getLinks_good|done].
  exists rkeys, dkeys, ikeys, st1, st2, st3. by split_and!.
Qed.

Lemma ColoredSet_exact be ts S st' :
  ColoredSet be (Mark ∅ false [] ts) = (inr S, st') ->
  forall x, x ∈ S <-> exists c, protected be c /\ x = toCidV1 c.
Proof.
  intros E. apply ColoredSet_phases in E
    as (rkeys & dkeys & ikeys & st1 & st2 & st3 & Er & Ed & Ei & D1 & D2 & A3 & D3 & -> & _).
  assert (A : gcs st3 = list_to_set (toCidV1 <$> dkeys) ∪ gcs st2) by (by rewrite A3). clear A3.
  apply (Descendants_spec _ (fun _ => False) rkeys ∅) in D1 as (M1 & _ & R1 & C1);
    [|apply getLinks_good|done|done].
  apply (Descendants_spec _ (fun _ => False) be ∅) in D2 as (M2 & _ & R2 & C2);
    [|apply bestEffortGetLinks_good|done|done].
  apply (Descendants_spec _ (direct dkeys) ikeys (list_to_set (toCidV1 <$> dkeys)))
    in D3 as (M3 & _ & R3 & C3); [|apply getLinks_good|done|].
  2: { intros c Hc. rewrite A. unfold direct in Hc. set_solver. }
  destruct C1 as [C1 K1]; [done|intros x d; simpl; set_solver|].
  destruct (C2 eq_refl C1) as [C2' K2]. destruct C3 as [C3' K3]; [done| |].
  { intros x d Hx HX Hd. rewrite A in Hx |- *. specialize (C2' x d). set_solver. }
  intros x. split.
  - intros [Hx|(c & -> & Hc)]%R3; [rewrite A in Hx; apply elem_of_union in Hx as [Hx|Hx]|].
    + apply elem_of_list_to_set, list_elem_of_fmap in Hx as (c & -> & Hc).
      exists c. split; [|done]. do 3 eexists. eauto 8.
    + apply R2 in Hx as [Hx%R1|(c & -> & Hc)].
      * destruct Hx as [Hx|(c & -> & Hc)]; [simpl in Hx; set_solver|].
        exists c. split; [|done]. do 3 eexists. eauto 8.
      * exists c. split; [|done]. do 3 eexists. eauto 8.
    + exists c. split; [|done]. do 3 eexists. eauto 8.
  - intros (c & (rk & dk & ik & Er' & Ed' & Ei' & Hc) & ->).
    rewrite Er in Er'. rewrite Ed in Ed'. rewrite Ei in Ei'. simplify_eq. unfold reach_all in Hc.
    destruct Hc as [Hc|[Hc|[Hc|Hc]]].
    + apply M3. rewrite A. apply elem_of_union_r, M2.
      apply (closed_reach _ _ _ _ _ C1 K1) in Hc; set_solver.
    + apply M3. rewrite A. apply elem_of_union_r.
      apply (closed_reach _ _ _ _ _ C2' K2) in Hc; set_solver.
    + apply M3. rewrite A. set_solver.
    + apply (closed_reach _ _ _ _ _ C3' K3) in Hc; [done|].
      intros c'. unfold direct. set_solver.
Qed.

Lemma Descendants_quiet gl roots st e st' :
  good_links gl -> Descendants gl roots st = (e, st') ->
  (ticks st = [] -> ticks st' = []) /\ (errors st' = false -> output st' = output st).
Proof.
  intros G. revert st. induction roots as [|r roots IH]; intros st D; simpl in D; [by simplify_eq|].
  destruct (Walk _ _ _ _) as [e1 st1] eqn:W. apply Walk_calls in W as (t & C & _).
  apply calls_visited in C as V; [|by apply verifyGetLinks_good].
  destruct V as [_ _ Vt Vo _ _ _ _]. destruct e1 as [e1|]; [by simplify_eq|].
  pose proof (IH _ D) as [It Io].
  split; [auto|]. intros He. rewrite Io by done. apply Vo. destruct (errors st1) eqn:E1; [|done].
  apply (Descendants_spec _ (fun _ => False) roots ∅) in D as (_ & D & _); [|done..].
  rewrite D in He by done. discriminate.
Qed.

(** A successful [ColoredSet] has sent nothing. *)
Lemma ColoredSet_quiet be st S st' :
  ColoredSet be st = (inr S, st') ->
  output st' = output st /\ (ticks st = [] -> ticks st' = []).
Proof.
  intros E. apply ColoredSet_phases in E
    as (rkeys & dkeys & ikeys & st1 & st2 & st3 & _ & _ & _ & D1 & D2 & -> & D3 & -> & E1 & E2 & E3).
  apply Descendants_quiet in D1 as [T1 O1]; [|apply getLinks_good].
  apply Descendants_quiet in D2 as [T2 O2]; [|apply bestEffortGetLinks_good].
  apply Descendants_quiet in D3 as [T3 O3]; [|apply getLinks_good]. simpl in *.
  rewrite O3, O2, O1 by done. auto.
Qed.

Lemma mark_phase_ticks gl roots st b st' :
  good_links gl -> mark_phase gl roots st = (b, st') -> ticks st = [] -> ticks st' = [].
Proof.
  intros G M T. unfold mark_phase in M. destruct (Descendants _ _ _) as [[e|] st1] eqn:D;
    apply Descendants_quiet in D as [D _]; auto; simplify_eq; auto.
  apply send_state in M as (_ & _ & M). apply M. simpl. auto.
Qed.

Lemma ColoredSet_ticks be st r st' :
  ColoredSet be st = (r, st') -> ticks st = [] -> ticks st' = [].
Proof.
  unfold ColoredSet. intros E T.
  destruct RecursiveKeys as [rkeys|]; [|by simplify_eq].
  destruct (mark_phase getLinks rkeys st) as [b1 st1] eqn:M1.
  apply mark_phase_ticks in M1; [|apply getLinks_good|done].
  destruct (negb b1); [by simplify_eq|].
  destruct (mark_phase bestEffortGetLinks be st1) as [b2 st2] eqn:M2.
  apply mark_phase_ticks in M2; [|apply bestEffortGetLinks_good|done].
  destruct (negb b2); [by simplify_eq|].
  destruct DirectKeys as [dkeys|]; [|by simplify_eq].
  rewrite add_direct_gcs in E. destruct InternalPins as [ikeys|]; [|by simplify_eq].
  destruct (mark_phase getLinks ikeys _) as [b3 st3] eqn:M3.
  apply mark_phase_ticks in M3; [|apply getLinks_good|done].
  repeat case_match; by simplify_eq.
Qed.

(** *** Missing links abort the collection *)

(** The first listing of pins that fails. *)
Definition listing_error : option error :=
  match RecursiveKeys, DirectKeys, InternalPins with
  | Err e, _, _ | _, Err e, _ | _, _, Err e => Some e
  | _, _, _ => None
  end.

(** The last result of a collection that does not get to deleting. *)
Definition abort_reason : gc_error :=
  match listing_error with Some e => OtherError e | None => ErrCannotFetchAllLinks end.

(** The links of a node that the marking asks for cannot be fetched: a node below a
    recursive pin; one below a best-effort root, for another reason than that it is
    not there; one below an internal pin, unless a direct pin cuts it off or it is
    below a best-effort root as well. *)
Definition unreadable (bestEffortRoots : list cid) (p : cid) : Prop :=
  exists e, GetLinks p = Err e /\
  ((exists rkeys, RecursiveKeys = Ok rkeys /\ reach_all rkeys p) \/
   (IsNotFound e = false /\ reach_all bestEffortRoots p) \/
   (exists dkeys ikeys, DirectKeys = Ok dkeys /\ InternalPins = Ok ikeys /\ reach (direct dkeys) ikeys p /\
      ~ direct dkeys p /\ forall q, reach_all bestEffortRoots q -> toCidV1 q <> toCidV1 p)).

(** What the marking sends: nodes whose links cannot be fetched, and the errors that
    stop a walk. *)
Definition mark_report (r : Result) : Prop :=
  (exists c e, r = ResError (CannotFetchLinksError c e) /\ GetLinks c = Err e) \/ exists e, r = ResError (OtherError e).

Definition reported (rs : list Result) (p : cid) : Prop :=
  exists q e, toCidV1 q = toCidV1 p /\ GetLinks q = Err e /\ ResError (CannotFetchLinksError q e) ∈ rs.
Definition walk_stopped (rs : list Result) : Prop := exists e, ResError (OtherError e) ∈ rs.

(** What every step of the marking respects, the whole of it respects. *)
Class Marking (R : mark -> mark -> Prop) := {
  mk_pre : PreOrder R;
  mk_mark : forall s g, R s (Mark g (errors s) (output s) (ticks s));
  mk_links : forall c e s r s', GetLinks c = Err e -> report_links c e s = (r, s') -> R s s';
  mk_error : forall e s b s', send (ResError (OtherError e)) (set_errors s) = (b, s') -> R s s'
}.

Section Respects.
Context (R : mark -> mark -> Prop) `{M : Marking R}.
Local Existing Instance mk_pre.

(** The two callbacks of [ColoredSet]. *)
Definition callback (gl : links_fn) : Prop := gl = getLinks \/ gl = bestEffortGetLinks.

Lemma callback_good gl : callback gl -> good_links gl.
Proof. intros [-> | ->]; [apply getLinks_good|apply bestEffortGetLinks_good]. Qed.

Lemma callback_respects gl c s r s' : callback gl -> verifyGetLinks gl c s = (r, s') -> R s s'.
Proof.
  intros G E. unfold verifyGetLinks in E. destruct (ValidateCid c); [by simplify_eq|].
  destruct G as [-> | ->]; unfold getLinks, bestEffortGetLinks in E; repeat case_match; simplify_eq; try done; by eapply mk_links.
Qed.

Lemma calls_respect gl s t s' : callback gl -> calls (verifyGetLinks gl) visit_v1 s t s' -> R s s'.
Proof.
  intros G C. induction C as [s|s c b s1 t s2 V C IH|s c r s1 t s2 L C IH]; [done|..]; (etrans; [|exact IH]).
  - unfold visit_v1 in V. destruct (set_Visit _ _). simplify_eq. apply mk_mark.
  - by eapply callback_respects.
Qed.

Lemma Descendants_respects gl roots st e st' : callback gl -> Descendants gl roots st = (e, st') -> R st st'.
Proof.
  intros G. revert st. induction roots as [|r roots IH]; intros st D; simpl in D; [by simplify_eq|].
  destruct (Walk _ _ _ _) as [[e1|] st1] eqn:W; apply Walk_calls in W as (t & C & _); apply calls_respect in C; [|done| |done]; [by simplify_eq|].
  etrans; [exact C|by apply IH].
Qed.

Lemma mark_phase_respects gl roots st b st' : callback gl -> mark_phase gl roots st = (b, st') -> R st st'.
Proof.
  intros G E. unfold mark_phase in E. destruct (Descendants _ _ _) as [[e|] s1] eqn:D; apply Descendants_respects in D; [|done| |done].
  - etrans; [exact D|by eapply mk_error].
  - by simplify_eq.
Qed.

Lemma add_direct_respects dkeys st : R st (fold_left (fun st k => add_gcs (toCidV1 k) st) dkeys st).
Proof. rewrite add_direct_gcs. apply mk_mark. Qed.

(** The marking goes through its phases; each state is related to the last one. *)
Lemma ColoredSet_respects be st r st' : ColoredSet be st = (r, st') -> R st st'.
Proof.
  unfold ColoredSet. intros E. destruct RecursiveKeys as [rkeys|]; [|by simplify_eq].
  destruct (mark_phase getLinks rkeys st) as [b1 st1] eqn:M1. apply mark_phase_respects in M1; [|by left].
  etrans; [exact M1|]. destruct (negb b1); [by simplify_eq|].
  destruct (mark_phase bestEffortGetLinks be st1) as [b2 st2] eqn:M2. apply mark_phase_respects in M2; [|by right].
  etrans; [exact M2|]. destruct (negb b2); [by simplify_eq|].
  destruct DirectKeys as [dkeys|]; [|by simplify_eq]. etrans; [apply add_direct_respects|].
  destruct InternalPins as [ikeys|]; [|by simplify_eq].
  destruct (mark_phase getLinks ikeys _) as [b3 st3] eqn:M3. apply mark_phase_respects in M3; [|by left].
  etrans; [exact M3|]. repeat case_match; by simplify_eq.
Qed.
End Respects.

(** Results stay sent, and the flag stays set. *)
Definition grows (s s' : mark) : Prop := (forall r, r ∈ output s -> r ∈ output s') /\ (errors s = true -> errors s' = true).
Definition reports (s s' : mark) : Prop := Forall mark_report (output s) -> Forall mark_report (output s').

Lemma send_output r st b st' : send r st = (b, st') ->
  errors st' = errors st /\ output st' = output st ++ (if b then [r] else []).
Proof. unfold send, poll. intros E. repeat case_match; simplify_eq/=; by rewrite ?app_nil_r. Qed.

Lemma report_links_output c e s r s' : report_links c e s = (r, s') ->
  errors s' = true /\ output s' = output s ++ (if r then [ResError (CannotFetchLinksError c e)] else []).
Proof. unfold report_links. destruct (send _ _) as [b s1] eqn:E. apply send_output in E as [E1 E2]. intros X. by destruct b; simplify_eq. Qed.

#[local] Instance grows_marking : Marking grows.
Proof.
  split; unfold grows.
  - split; [done|]. intros x y z [A B] [C D]. split; auto.
  - done.
  - intros c e s r s' _ E. apply report_links_output in E as [-> ->]. split; [intros x Hx; apply elem_of_app; by left|done].
  - intros e s b s' E. apply send_output in E as [-> ->]. split; [intros x Hx; apply elem_of_app; by left|done].
Qed.

#[local] Instance grows_pre : PreOrder grows := mk_pre.

#[local] Instance reports_marking : Marking reports.
Proof.
  split; unfold reports.
  - split; [by intros x HF|]. intros x y z A B C. auto.
  - done.
  - intros c e s r s' G E F. apply report_links_output in E as [_ ->]. apply Forall_app. split; [done|].
    destruct r; [apply Forall_singleton; left; eauto|done].
  - intros e s b s' E F. apply send_output in E as [_ ->]. apply Forall_app. split; [done|].
    destruct b; [apply Forall_singleton; right; eauto|done].
Qed.

(** A callback that goes on fetched the links, or reported the node. *)
Definition tolerates (gl : links_fn) (P : cid -> Prop) : Prop := forall c s ls s', gl c s = (Ok ls, s') ->
  P c \/ errors s' = true /\ reported (output s') c.

Definition fetched (c : cid) : Prop := exists ls, GetLinks c = Ok ls.
Definition fetched_or_absent (c : cid) : Prop := forall e, GetLinks c = Err e -> IsNotFound e = true.

Lemma reported_links c e s ls s' : GetLinks c = Err e -> report_links c e s = (Ok ls, s') -> errors s' = true /\ reported (output s') c.
Proof. intros G E. apply report_links_output in E as [-> ->]. split; [done|]. exists c, e. split_and!; [done..|]. apply elem_of_app. right. by left. Qed.

Lemma getLinks_tolerates : tolerates getLinks fetched.
Proof.
  intros c s ls s'. unfold getLinks, fetched. destruct (GetLinks c) as [l|e] eqn:G; [eauto|]. intros E. right. by eapply reported_links.
Qed.

Lemma bestEffortGetLinks_tolerates : tolerates bestEffortGetLinks fetched_or_absent.
Proof.
  intros c s ls s'. unfold bestEffortGetLinks, fetched_or_absent. destruct (GetLinks c) as [l|e] eqn:G; [by left|].
  destruct (IsNotFound e) eqn:N; [left; congruence|]. intros E. right. by eapply reported_links.
Qed.

Lemma fetched_v1 c : fetched (toCidV1 c) <-> fetched c.
Proof. unfold fetched. by rewrite GetLinks_v1. Qed.
Lemma fetched_or_absent_v1 c : fetched_or_absent (toCidV1 c) <-> fetched_or_absent c.
Proof. unfold fetched_or_absent. by rewrite GetLinks_v1. Qed.

(** What is marked was fetched as the callback asks, or is reported. *)
Definition accounted (P : cid -> Prop) (st : mark) (x : cid) : Prop := P x \/ errors st = true /\ exists c, x = toCidV1 c /\ reported (output st) c.

Lemma accounted_grows P s s' x : grows s s' -> accounted P s x -> accounted P s' x.
Proof.
  intros [A B] [|(E & c & -> & q & e & Q1 & Q2 & Q3)]; [by left|]. right. split; [auto|]. exists c. split; [done|]. exists q, e. auto.
Qed.

Lemma Descendants_accounted gl P roots st st' :
  callback gl -> tolerates gl P -> (forall c, P c -> P (toCidV1 c)) -> Descendants gl roots st = (None, st') ->
  forall x, x ∈ gcs st' -> x ∈ gcs st \/ accounted P st' x.
Proof.
  intros G T V. revert st. induction roots as [|r roots IH]; intros st D; simpl in D; [simplify_eq; by left|].
  destruct (Walk _ _ _ _) as [[e|] st1] eqn:W; [discriminate|]. pose proof (Descendants_respects grows _ _ _ _ _ G D) as Gr.
  intros x [Hx|Hx]%(IH _ D); [|by right]. apply Walk_calls in W as (t & C & _ & Co). destruct (Co eq_refl) as (_ & Co' & _).
  pose proof (calls_visited _ _ _ _ (verifyGetLinks_good _ (callback_good _ G)) C) as Vi.
  apply (vs_only _ _ _ Vi) in Hx as [Hx|(c & Hc & ->)]; [by left|right]. destruct (Co' c Hc) as [ls Hl].
  apply (accounted_grows P st1); [done|]. clear -C Hl G T V. induction C as [s|s c' b s1 t s2 Hv C IH|s c' r s1 t s2 L C IH]; [set_solver|..];
    apply elem_of_cons in Hl as [E|Hl]; [done|auto| |auto]. injection E as <- <-.
  apply (accounted_grows P s1); [exact (calls_respect grows _ _ _ _ G C)|]. unfold verifyGetLinks in L. destruct (ValidateCid c); [done|].
  apply T in L as [L|[L1 L2]]; [left; auto|right; eauto].
Qed.

(** A phase of the marking either stops with an error, or accounts for what it marks. *)
Lemma mark_phase_accounted gl P roots st st' :
  callback gl -> tolerates gl P -> (forall c, P c -> P (toCidV1 c)) -> mark_phase gl roots st = (true, st') ->
  errors st' = true /\ walk_stopped (output st') \/
  Descendants gl roots st = (None, st') /\ forall x, x ∈ gcs st' -> x ∈ gcs st \/ accounted P st' x.
Proof.
  intros G T V E. unfold mark_phase in E. destruct (Descendants gl roots st) as [[e|] s1] eqn:D.
  - left. apply send_output in E as [-> ->]. split; [done|]. exists e. apply elem_of_app. right. by left.
  - right. simplify_eq. split; [done|]. by eapply Descendants_accounted.
Qed.

Lemma accounted_err (P : cid -> Prop) s p : (P (toCidV1 p) -> False) -> accounted P s (toCidV1 p) -> errors s = true /\ reported (output s) p.
Proof.
  intros N [A|(E & c & Ec & q & e & Q1 & Q2 & Q3)]; [by destruct N|]. split; [done|]. exists q, e. split_and!; [by rewrite Ec|done..].
Qed.

(** The errors that stand in the way of deleting, at the end of the marking. *)
Definition noted (s : mark) (p : cid) : Prop := errors s = true /\ (reported (output s) p \/ walk_stopped (output s)).

Lemma noted_grows s s' p : grows s s' -> noted s p -> noted s' p.
Proof.
  intros [A B] [E [(q & e & Q1 & Q2 & Q3)|[e Q]]]; (split; [auto|]); [left; exists q, e|right; exists e]; auto.
Qed.

(** Every unreadable node is noted by a marking that goes through its phases. *)
Lemma phases_note be rkeys dkeys ikeys st st1 st2 st3 st4 p :
  RecursiveKeys = Ok rkeys -> DirectKeys = Ok dkeys -> InternalPins = Ok ikeys -> gcs st = ∅ ->
  mark_phase getLinks rkeys st = (true, st1) -> mark_phase bestEffortGetLinks be st1 = (true, st2) ->
  st3 = Mark (list_to_set (toCidV1 <$> dkeys) ∪ gcs st2) (errors st2) (output st2) (ticks st2) ->
  mark_phase getLinks ikeys st3 = (true, st4) -> unreadable be p -> noted st4 p.
Proof.
  intros Er Ed Ei G0 M1 M2 A M3 (e & He & Hp).
  pose proof (mark_phase_respects grows _ _ _ _ _ (or_introl eq_refl) M3) as G3.
  pose proof (mark_phase_respects grows _ _ _ _ _ (or_intror eq_refl) M2) as G2.
  assert (G24 : grows st2 st4) by (etrans; [|exact G3]; subst st3; apply mk_mark).
  assert (G14 : grows st1 st4) by (by etrans).
  apply (mark_phase_accounted _ fetched) in M1 as [[W1 W2]|[D1 A1]];
    [apply (noted_grows st1); [done|by split; [|right]]| |by left|apply getLinks_tolerates|intros ?; apply fetched_v1].
  apply (mark_phase_accounted _ fetched_or_absent) in M2 as [[W1 W2]|[D2 A2]];
    [apply (noted_grows st2); [done|by split; [|right]]| |by right|apply bestEffortGetLinks_tolerates|intros ?; apply fetched_or_absent_v1].
  apply (mark_phase_accounted _ fetched) in M3 as [[W1 W2]|[D3 A3]];
    [by split; [|right]| |by left|apply getLinks_tolerates|intros ?; apply fetched_v1].
  assert (N : ~ fetched (toCidV1 p)) by (rewrite fetched_v1; intros [ls X]; congruence).
  apply (Descendants_spec _ (fun _ => False) rkeys ∅) in D1 as (_ & _ & _ & C1); [|apply getLinks_good|done|done].
  destruct C1 as [C1 K1]; [done|intros x d; rewrite G0; set_solver|].
  apply (Descendants_spec _ (fun _ => False) be ∅) in D2 as (_ & _ & R2 & C2); [|apply bestEffortGetLinks_good|done|done].
  destruct (C2 eq_refl C1) as [C2' K2].
  apply (Descendants_spec _ (direct dkeys) ikeys (list_to_set (toCidV1 <$> dkeys))) in D3 as (_ & _ & _ & C3);
    [|apply getLinks_good|done|by intros c Hc; subst st3; unfold direct in Hc; set_solver].
  destruct C3 as [C3 K3]; [done|intros x d Hx HX Hd; subst st3; specialize (C2' x d); set_solver|].
  assert (In1 : toCidV1 p ∈ gcs st1 -> noted st4 p).
  { intros [Hx|Hx%(accounted_err _ _ _ N)]%A1; [rewrite G0 in Hx; set_solver|]. apply (noted_grows st1); [done|]. split; [|left]; tauto. }
  destruct Hp as [(rk & Er' & Hr)|[[Hn Hb]|(dk & ik & Ed' & Ei' & Hi & Hd & Hbe)]].
  - apply In1. assert (rk = rkeys) as -> by congruence. by apply (closed_reach _ _ _ _ _ C1 K1) in Hr; [|set_solver].
  - apply (closed_reach _ _ _ _ _ C2' K2) in Hb; [|set_solver]. apply A2 in Hb as [Hx|Hx]; [by apply In1|].
    apply accounted_err in Hx; [|rewrite fetched_or_absent_v1; intros X; by rewrite (X e) in Hn].
    apply (noted_grows st2); [done|]. split; [|left]; tauto.
  - assert (dk = dkeys) as -> by congruence. assert (ik = ikeys) as -> by congruence.
    apply (closed_reach _ _ _ _ _ C3 K3) in Hi; [|intros c'; unfold direct; set_solver].
    apply A3 in Hi as [Hx|Hx%(accounted_err _ _ _ N)]; [|split; [|left]; tauto].
    subst st3. cbn [gcs] in Hx. apply elem_of_union in Hx as [Hx|[Hx|(q & Eq & Hq)]%R2]; [|by apply In1|by destruct (Hbe q)].
    destruct Hd. unfold direct. by apply elem_of_list_to_set in Hx.
Qed.

Lemma mark_phase_stops gl roots st st' : good_links gl -> mark_phase gl roots st = (false, st') -> ticks st <> [].
Proof.
  intros G E T. unfold mark_phase in E. destruct (Descendants _ _ _) as [[e|] s1] eqn:D; [|done].
  apply Descendants_quiet in D as [D _]; [|done]. apply send_state in E as (_ & _ & E). destruct E; [by apply D|done].
Qed.

(** How the marking can end. *)
Lemma ColoredSet_outcome be st r st' : ColoredSet be st = (r, st') -> gcs st = ∅ ->
  r = inl (OtherError ctx_Err) /\ ticks st <> [] \/
  (exists e, listing_error = Some e /\ r = inl (OtherError e)) \/
  listing_error = None /\ r = (if errors st' then inl ErrCannotFetchAllLinks else inr (gcs st')) /\
  forall p, unreadable be p -> noted st' p.
Proof.
  unfold ColoredSet, listing_error. intros E G0. destruct RecursiveKeys as [rkeys|e] eqn:Er; [|simplify_eq; eauto].
  destruct (mark_phase getLinks rkeys st) as [b1 st1] eqn:M1.
  destruct b1; simpl in E; [|left; simplify_eq; split; [done|by apply mark_phase_stops in M1; [|apply getLinks_good]]].
  destruct (mark_phase bestEffortGetLinks be st1) as [b2 st2] eqn:M2. destruct b2; simpl in E.
  2: { left. simplify_eq. split; [done|]. intros T. apply mark_phase_stops in M2; [|apply bestEffortGetLinks_good].
       apply M2. by apply mark_phase_ticks in M1; [|apply getLinks_good|]. }
  destruct DirectKeys as [dkeys|e] eqn:Ed; [|simplify_eq; eauto].
  destruct InternalPins as [ikeys|e] eqn:Ei; [|simplify_eq; eauto].
  rewrite add_direct_gcs in E. destruct (mark_phase getLinks ikeys _) as [b3 st4] eqn:M3. destruct b3; simpl in E.
  2: { left. simplify_eq. split; [done|]. intros T. apply mark_phase_stops in M3; [|apply getLinks_good]. apply M3. simpl.
       apply mark_phase_ticks in M1; [|apply getLinks_good|done]. by apply mark_phase_ticks in M2; [|apply bestEffortGetLinks_good|]. }
  right. right. assert (st4 = st') as <- by (by destruct (errors st4); simplify_eq). split; [done|]. split; [by destruct (errors st4); simplify_eq|].
  intros p. by eapply phases_note.
Qed.

(** *** The sweep *)

Lemma sweep_keeps set keys errs removed st bs errs' removed' st' bs' h :
  sweep set keys errs removed st bs = (errs', removed', st', bs') ->
  Forall (fun k => k = raw_cid k) keys -> NewCidV1 Raw h ∈ set ->
  bs_has bs' h = bs_has bs h.
Proof.
  intros E Hk Hh. revert errs removed st bs E.
  induction keys as [|k keys IH]; intros errs removed st bs E; simpl in E;
    destruct (poll st) as [[] st1]; simplify_eq; try done;
    destruct (poll st1) as [[] st2]; simplify_eq; try done.
  apply Forall_cons in Hk as [Hk Hks]. case_decide as Hd; [by eapply IH|].
  destruct (DeleteBlock bs k) as [err bs1] eqn:D.
  assert (E1 : bs_has bs1 h = bs_has bs h).
  { pose proof (DeleteBlock_other bs k h) as O. rewrite D in O. apply O.
    intros ->. by rewrite Hk in Hd. }
  rewrite <- E1. destruct err as [err|]; destruct (send _ _) as [[] st3]; simplify_eq; try done;
    by eapply IH.
Qed.

Lemma send_quiet r st : ticks st = [] ->
  send r st = (true, Mark (gcs st) (errors st) (output st ++ [r]) []).
Proof. intros E. unfold send, poll. rewrite E. by destruct st; simplify_eq/=. Qed.

Lemma poll_quiet st : ticks st = [] -> poll st = (false, st).
Proof. intros E. unfold poll. by rewrite E. Qed.

(** Without cancellation every unmarked key is deleted and reported. *)
Lemma sweep_quiet set keys errs removed st bs errs' removed' st' bs' :
  sweep set keys errs removed st bs = (errs', removed', st', bs') -> ticks st = [] ->
  ticks st' = [] /\ (exists rs, output st' = output st ++ rs) /\
  (Forall (fun r => is_error r = false) (output st') ->
   errs' = errs /\
   output st' = output st ++ (KeyRemoved <$> filter (fun k => k ∉ set) keys) /\
   (forall h, bs_has bs h = false -> bs_has bs' h = false) /\
   (forall k, k ∈ keys -> k ∉ set -> bs_has bs' (Hash k) = false)).
Proof.
  revert errs removed st bs. induction keys as [|k keys IH]; intros errs removed st bs E Ht;
    simpl in E; rewrite !(poll_quiet _ Ht) in E; simpl in E.
  { simplify_eq. rewrite filter_nil. csimpl. rewrite app_nil_r.
    split_and!; try done; [by exists []; rewrite app_nil_r|]. intros. split_and!; try done; set_solver. }
  rewrite filter_cons. case_decide as Hd.
  { rewrite decide_False by auto. destruct (IH _ _ _ _ E Ht) as (T & R & F).
    split_and!; try done. intros HF. destruct (F HF) as (F1 & F2 & F3 & F4). split_and!; auto. set_solver. }
  rewrite decide_True by auto. destruct (DeleteBlock bs k) as [err bs1] eqn:D.
  pose proof (DeleteBlock_other bs k) as O. pose proof (DeleteBlock_done bs k) as O'. rewrite D in O, O'.
  simpl in O, O'.
  destruct err as [err|]; rewrite send_quiet in E by done;
    destruct (IH _ _ _ _ E eq_refl) as (T & (rs & R) & F); simpl in R, F;
    rewrite <- app_assoc in R; (split_and!; [done|eauto|]); intros HF.
  - exfalso. rewrite R, !Forall_app, Forall_cons in HF. naive_solver.
  - destruct (F HF) as (F1 & F2 & F3 & F4). csimpl. split_and!; auto.
    + by rewrite F2, <- app_assoc.
    + intros h Hf. apply F3. destruct (decide (h = Hash k)) as [->|]; [auto|]. by rewrite O.
    + intros k' [->|Hk']%elem_of_cons Hn; [by apply F3, O'|by apply F4].
Qed.

Lemma raw_cids_exact be ts S st' h :
  ColoredSet be (Mark ∅ false [] ts) = (inr S, st') ->
  NewCidV1 Raw h ∈ (set_map raw_cid S : gset cid) <-> exists c, protected be c /\ Hash c = h.
Proof.
  intros E. rewrite elem_of_map. split.
  - intros (x & Ex & Hx). apply (ColoredSet_exact _ _ _ _ E) in Hx as (c & Hc & ->).
    exists c. split; [done|]. unfold raw_cid, NewCidV1, toCidV1 in Ex. by destruct (_ =? _); simplify_eq/=.
  - intros (c & Hc & <-). exists (toCidV1 c). split.
    + unfold raw_cid, toCidV1. by destruct (_ =? _).
    + apply (ColoredSet_exact _ _ _ _ E). eauto.
Qed.

Lemma no_error_last rs e : Forall (fun r => is_error r = false) (rs ++ [ResError e]) -> False.
Proof. intros [_ HF]%Forall_app. by apply Forall_cons_1 in HF as [? _]. Qed.

(** What follows the sweep only adds errors. *)
Lemma gc_tail_quiet (errs : bool) dstor st (bs : bstore) out bs' :
  ticks st = [] ->
  (let '(sent, st) := if errs then send (ResError ErrCannotDeleteSomeBlocks) st else (true, st) in
   if sent then (output (collect_datastore dstor st), bs) else (output st, bs)) = (out, bs') ->
  Forall (fun r => is_error r = false) out -> bs' = bs /\ out = output st.
Proof.
  intros T E F. assert (G : forall st d, ticks st = [] ->
    Forall (fun r => is_error r = false) (output (collect_datastore d st)) ->
    output (collect_datastore d st) = output st).
  { intros s [[e|]|] Ts; unfold collect_datastore; [|done..]. rewrite send_quiet by done. simpl.
    intros []%no_error_last. }
  destruct errs; [rewrite send_quiet in E by done|]; simplify_eq; split; auto.
  apply G in F as F'; [|done]. rewrite F' in F. simpl in F. by apply no_error_last in F.
Qed.

Lemma GC_keeps bs dstor be ts out bs' c :
  GC bs dstor be ts = (out, bs') -> protected be c ->
  bs_has bs' (Hash c) = bs_has bs (Hash c).
Proof.
  intros E Hc. unfold GC in E. destruct (ColoredSet be _) as [[err|S] st] eqn:CS; [by simplify_eq|].
  simpl in E. destruct (AllKeysChan bs) as [keys|] eqn:K; [|by simplify_eq].
  destruct (AllKeysChan_keys _ _ K) as [Hraw _].
  destruct (sweep _ _ _ _ _ _) as [[[errs removed] st1] bs1] eqn:Sw.
  destruct (if errs then _ else _) as [sent st2].
  assert (bs' = bs1) as -> by (destruct sent; by simplify_eq).
  eapply sweep_keeps; [exact Sw|done|]. apply (raw_cids_exact _ _ _ _ _ CS). eauto.
Qed.

(** ** Properties of the collector *)

(** C2: The collector never deletes a protected block: whatever the walk's
    schedule, the cancellation of the context and the failures of the blockstore,
    after [GC] the store has exactly the blocks it had of every node below a
    recursive pin or a best-effort root, of every direct pin, and of every node
    below an internal pin that no direct pin cuts off, under whichever CID version
    or codec the node is pinned. *)
Theorem gc_never_deletes_protected bs dstor be ts out bs' c :
  GC bs dstor be ts = (out, bs') -> protected be c ->
  bs_has bs' (Hash c) = bs_has bs (Hash c).
Proof. apply GC_keeps. Qed.

(** C7: A collection that is not cancelled and reports no error is exact: it keeps
    a block if and only if its multihash is that of a protected node, and its
    output lists the keys of the unprotected blocks in the order of the key
    channel, each once per delivery. *)
Theorem gc_sweeps_exactly bs dstor be out bs' keys :
  GC bs dstor be [] = (out, bs') -> AllKeysChan bs = Ok keys ->
  Forall (fun r => is_error r = false) out ->
  (forall h, bs_has bs' h = true <->
     bs_has bs h = true /\ exists c, protected be c /\ Hash c = h) /\
  exists removed, out = KeyRemoved <$> removed /\ removed `sublist_of` keys /\
    forall k, k ∈ keys -> (k ∈ removed <-> ~ exists c, protected be c /\ Hash c = Hash k).
Proof.
  intros E K Hout. unfold GC in E. destruct (ColoredSet be _) as [[err|S] st] eqn:CS.
  { exfalso. apply ColoredSet_ticks in CS; [|done]. rewrite send_quiet in E by done. simplify_eq/=.
    by apply no_error_last in Hout. }
  simpl in E. rewrite K in E. pose proof (ColoredSet_quiet _ _ _ _ CS) as [O T].
  destruct (AllKeysChan_keys _ _ K) as [Hraw Hall].
  destruct (sweep _ _ _ _ _ _) as [[[errs removed] st1] bs1] eqn:Sw.
  pose proof (fun h => sweep_keeps _ _ _ _ _ _ _ _ _ _ h Sw Hraw) as Hkeep.
  apply sweep_quiet in Sw as (T1 & _ & F); [|by apply T].
  apply gc_tail_quiet in E as [-> ->]; [|done..].
  destruct (F Hout) as (_ & F2 & F3 & F4). rewrite O in F2.
  assert (Hset : forall k, k ∈ keys ->
    k ∈ (set_map raw_cid S : gset cid) <-> exists c, protected be c /\ Hash c = Hash k).
  { intros k Hk. rewrite <- (raw_cids_exact _ _ _ _ _ CS).
    by rewrite Forall_forall in Hraw; rewrite (Hraw k Hk) at 1. }
  split.
  - intros h. rewrite <- (raw_cids_exact _ _ _ _ _ CS). split.
    + intros Hh. destruct (decide (NewCidV1 Raw h ∈ (set_map raw_cid S : gset cid))) as [Hd|Hd].
      { by rewrite <- Hkeep. }
      destruct (bs_has bs h) eqn:Hb.
      * pose proof (F4 (NewCidV1 Raw h) (Hall h Hb) Hd) as Hf. simpl in Hf. congruence.
      * rewrite F3 in Hh by done. done.
    + intros [Hh Hs]. by rewrite Hkeep.
  - exists (filter (fun k => k ∉ (set_map raw_cid S : gset cid)) keys). split_and!; [done|apply sublist_filter|].
    intros k Hk. rewrite list_elem_of_filter, <- Hset by done. tauto.
Qed.

(** C38: What stands in the way of marking aborts the collection: if the pinner
    cannot list its recursive, direct or internal pins, or the links of a node that
    must be kept cannot be fetched (below a recursive pin; below a best-effort root,
    for another reason than that it is not there; below an internal pin alone), [GC]
    deletes no block at all, however the context is cancelled.  When it is not
    cancelled, the last result it sends is the reason, the error of the first listing
    that failed or that some links could not be retrieved, and before it are only the
    reports of the marking: in the second case that node is among them, or the error
    that stopped a walk is. *)
Theorem gc_aborts_on_missing_links bs dstor be ts out bs' :
  listing_error <> None \/ (exists p, unreadable be p) ->
  GC bs dstor be ts = (out, bs') ->
  bs' = bs /\
  (ts = [] -> exists rs, out = rs ++ [ResError abort_reason] /\ Forall mark_report rs /\
    forall p, listing_error = None -> unreadable be p -> reported rs p \/ walk_stopped rs).
Proof.
  intros Hf E. unfold GC in E. destruct (ColoredSet be _) as [r st] eqn:CS.
  pose proof (ColoredSet_ticks _ _ _ _ CS) as T. pose proof (ColoredSet_respects reports _ _ _ _ CS (Forall_nil_2 _)) as F.
  apply ColoredSet_outcome in CS; [|done]. unfold abort_reason. simpl in T.
  destruct CS as [[-> X]|[(e & Hl & ->)|(Hl & -> & Hn)]].
  - simplify_eq. split; [done|]. by intros ->.
  - simplify_eq. split; [done|]. intros Hts. rewrite send_quiet, Hl by auto. exists (output st). by split_and!.
  - destruct Hf as [Hf|[p Hp]]; [done|]. destruct (Hn p Hp) as [He _]. rewrite He in E. simplify_eq. split; [done|].
    intros Hts. rewrite send_quiet, Hl by auto. exists (output st). split_and!; try done. intros q _ Hq. by destruct (Hn q Hq).
Qed.

End GC.

(** ** A sequential walk *)

(** [dag.Walk] without concurrency, visiting depth first; a walk that does not
    finish within [fuel] visits returns an error. *)
Fixpoint dfs (fuel : nat) (gl : links_fn) (vis : visit_fn) (stack : list cid) (s : mark)
    : option error * mark :=
  match stack with
  | [] => (None, s)
  | c :: rest =>
      match fuel with
      | O => (Some ctx_Err, s)
      | S fuel =>
          let '(b, s) := vis c s in
          if b then
            match gl c s with
            | (Err e, s) => (Some e, s)
            | (Ok ls, s) => dfs fuel gl vis (ls ++ rest) s
            end
          else dfs fuel gl vis rest s
      end
  end.

Definition stack_sound (stack : list cid) (t : list call) : Prop :=
  (forall t1 c b t2, t = t1 ++ CVisit c b :: t2 ->
     c ∈ stack \/ exists p ls, CLinks p (Ok ls) ∈ t1 /\ c ∈ ls) /\
  (forall t1 c r t2, t = t1 ++ CLinks c r :: t2 -> CVisit c true ∈ t1).

Definition stack_complete (stack : list cid) (t : list call) : Prop :=
  (forall c, c ∈ stack -> exists b, CVisit c b ∈ t) /\
  (forall c, CVisit c true ∈ t -> exists ls, CLinks c (Ok ls) ∈ t) /\
  (forall p ls c, CLinks p (Ok ls) ∈ t -> c ∈ ls -> exists b, CVisit c b ∈ t).

Lemma stack_sound_skip c stack t :
  stack_sound stack t -> stack_sound (c :: stack) (CVisit c false :: t).
Proof.
  intros [Sv Sl]. split.
  - intros [|x t1] c' b t2 E; simplify_eq/=; [set_solver|].
    destruct (Sv _ _ _ _ eq_refl) as [?|(p & ls & ? & ?)]; [set_solver|]. right. exists p, ls. set_solver.
  - intros [|x t1] c' r t2 E; simplify_eq/=. right. by eapply Sl.
Qed.

Lemma stack_sound_expand c ls stack t :
  stack_sound (ls ++ stack) t ->
  stack_sound (c :: stack) (CVisit c true :: CLinks c (Ok ls) :: t).
Proof.
  intros [Sv Sl]. split.
  - intros [|x [|y t1]] c' b t2 E; simplify_eq/=; [set_solver|].
    destruct (Sv _ _ _ _ eq_refl) as [[?|?]%elem_of_app|(p & ls' & ? & ?)]; [|set_solver|].
    + right. exists c, ls. set_solver.
    + right. exists p, ls'. set_solver.
  - intros [|x [|y t1]] c' r t2 E; simplify_eq/=; [set_solver|]. right. right. by eapply Sl.
Qed.

Lemma stack_complete_skip c stack t :
  stack_complete stack t -> stack_complete (c :: stack) (CVisit c false :: t).
Proof.
  intros (Cr & Ce & Cl). split_and!.
  - intros x [->|Hx]%elem_of_cons; [exists false; set_solver|].
    destruct (Cr x Hx) as [b ?]. exists b. set_solver.
  - intros x [?|Hx]%elem_of_cons; [done|]. destruct (Ce x Hx) as [ls ?]. exists ls. set_solver.
  - intros p ls x [?|Hp]%elem_of_cons Hx; [done|]. destruct (Cl p ls x Hp Hx) as [b ?]. exists b. set_solver.
Qed.

Lemma stack_complete_expand c ls stack t :
  stack_complete (ls ++ stack) t ->
  stack_complete (c :: stack) (CVisit c true :: CLinks c (Ok ls) :: t).
Proof.
  intros (Cr & Ce & Cl).
  assert (Cr' : forall x, x ∈ ls ++ stack -> exists b, CVisit x b ∈ CVisit c true :: CLinks c (Ok ls) :: t).
  { intros x Hx. destruct (Cr x Hx) as [b ?]. exists b. set_solver. }
  split_and!.
  - intros x [->|Hx]%elem_of_cons; [exists true; set_solver|]. apply Cr'. set_solver.
  - intros x [Hx|Hx]%elem_of_cons; [simplify_eq; exists ls; set_solver|].
    apply elem_of_cons in Hx as [?|Hx]; [done|]. destruct (Ce x Hx) as [ls' ?]. exists ls'. set_solver.
  - intros p ls' x Hp Hx. apply elem_of_cons in Hp as [?|Hp]; [done|].
    apply elem_of_cons in Hp as [?|Hp]; [simplify_eq; apply Cr'; set_solver|].
    destruct (Cl p ls' x Hp Hx) as [b ?]. exists b. set_solver.
Qed.

Lemma dfs_calls fuel gl vis stack s e s' :
  dfs fuel gl vis stack s = (e, s') ->
  exists t, calls gl vis s t s' /\ stack_sound stack t /\ (e = None -> stack_complete stack t).
Proof.
  assert (Snil : forall stack, stack_sound stack []) by (split; by intros [] ? ? ? ?).
  revert stack s. induction fuel as [|fuel IH]; intros [|c rest] s E; simpl in E.
  1,3: simplify_eq; exists []; split_and!; [constructor|done|]; intros; split_and!; set_solver.
  { simplify_eq. exists []. split_and!; [constructor|done|done]. }
  destruct (vis c s) as [b s1] eqn:V. destruct b.
  - destruct (gl c s1) as [[ls|e1] s2] eqn:L.
    + apply IH in E as (t & C & So & Co). exists (CVisit c true :: CLinks c (Ok ls) :: t).
      split_and!; [by econstructor; [|econstructor]|by apply stack_sound_expand|].
      intros He. by apply stack_complete_expand, Co.
    + simplify_eq. exists [CVisit c true; CLinks c (Err e1)]. split_and!; [|split|done].
      * econstructor; [done|]. econstructor; [done|]. constructor.
      * intros [|x [|y [|]]] c' b t2 ?; simplify_eq/=; set_solver.
      * intros [|x [|y [|]]] c' r t2 ?; simplify_eq/=; set_solver.
  - apply IH in E as (t & C & So & Co). exists (CVisit c false :: t).
    split_and!; [by econstructor|by apply stack_sound_skip|].
    intros He. by apply stack_complete_skip, Co.
Qed.

Definition sequential_walk (fuel : nat) : DagWalk.
Proof.
  refine {| Walk := fun gl root vis s => dfs fuel gl vis [root] s |}.
  intros gl root vis s e s' (t & C & [Sv Sl] & Co)%dfs_calls. exists t. split_and!; [done| |].
  - split; [|done]. intros t1 c b t2 E. destruct (Sv _ _ _ _ E) as [?|?]; [left; set_solver|by right].
  - intros He. destruct (Co He) as (Cr & Ce & Cl). split_and!; [|done..]. apply Cr. set_solver.
Defined.

(** ** A small repository

    The recursive pin [r] links to [a] and [b], the internal pin [i] links to the
    direct pin [d], which links to [x]; the store also has the garbage [g].
    Fetching the links of a node named in [missing] fails. *)
Module Demo.

Definition v0 (n : string) : cid := Cid 0 112 n.
Definition v1 (n : string) : cid := Cid 1 112 n.

Definition demo_links (missing : list string) (n : string) : result (list cid) :=
  if decide (n ∈ missing) then Err "not found"
  else Ok (if decide (n = "r") then [v1 "a"; v0 "b"]
           else if decide (n = "i") then [v1 "d"]
           else if decide (n = "d") then [v0 "x"] else []).

Definition demo_env (missing : list string) : GCEnv.
Proof.
  refine {| RecursiveKeys := Ok [v0 "r"]; DirectKeys := Ok [v1 "d"]; InternalPins := Ok [v0 "i"];
            GetLinks := fun c => demo_links missing (Hash c);
            IsNotFound := fun _ => true; ValidateCid := fun _ => None;
            insecure_hash_error := fun _ => false |}.
  intros c. unfold toCidV1. by destruct (_ =? _).
Defined.

Definition demo_store : GCBlockstore.
Proof.
  refine {| bstore := gset string; bs_has := fun s h => bool_decide (h ∈ s);
            AllKeysChan := fun s => Ok (NewCidV1 Raw <$> elements s);
            DeleteBlock := fun s k => (None, s ∖ {[ Hash k ]}) |}.
  - intros s ks [= <-]. split.
    + apply Forall_fmap, Forall_true. intros. done.
    + intros h Hh%bool_decide_eq_true. apply list_elem_of_fmap. exists h. set_solver.
  - intros s k h Hh. simpl. apply bool_decide_ext. set_solver.
  - intros s k _. simpl. apply bool_decide_eq_false. set_solver.
Defined.

Existing Instance demo_store.

Definition store0 : gset string := {[ "r"; "a"; "b"; "i"; "d"; "x"; "g" ]}.

End Demo.

Section GCWitnesses.
Import Demo.
Local Existing Instance demo_store.

(** A node that is reachable from an internal pin only through a directly
    pinned node is collected: the direct pins are added to the marked set before
    the internal pins are walked, so the walk stops at them. *)
Theorem gc_direct_pin_hides_internal_subgraph :
  let walk := sequential_walk 10 in let env := demo_env [] in
  @reach_all env [v0 "i"] (v0 "x") /\ bs_has store0 "x" = true /\
  exists bs', @GC walk env demo_store store0 None [] [] =
                ([KeyRemoved (NewCidV1 Raw "g"); KeyRemoved (NewCidV1 Raw "x")], bs') /\
              bs_has bs' "x" = false.
Proof.
  intros walk env. split_and!; [|reflexivity|eexists; split; vm_compute; reflexivity].
  eapply reach_link with (p := v1 "d"); [|tauto|reflexivity|set_solver].
  eapply reach_link with (p := v0 "i"); [|tauto|reflexivity|set_solver].
  apply reach_root. set_solver.
Qed.

Lemma gc_never_deletes_protected_witness :
  let walk := sequential_walk 10 in let env := demo_env [] in
  bs_has (@GC walk env demo_store store0 None [] []).2 "b" = true.
Proof.
  intros walk env.
  pose proof (@gc_never_deletes_protected walk env demo_store store0 None [] []
    (@GC walk env demo_store store0 None [] []).1 (@GC walk env demo_store store0 None [] []).2 (v0 "b")) as G.
  etransitivity; [apply G|reflexivity].
  - by destruct (@GC walk env demo_store store0 None [] []).
  - do 3 eexists. split_and!; [reflexivity..|]. left.
    eapply reach_link with (p := v0 "r"); [|tauto|reflexivity|set_solver]. apply reach_root. set_solver.
Defined.

Lemma gc_sweeps_exactly_witness :
  let walk := sequential_walk 10 in let env := demo_env [] in
  bs_has (@GC walk env demo_store store0 None [] []).2 "a" = true <->
    bs_has store0 "a" = true /\ exists c, @protected env [] c /\ Hash c = "a".
Proof.
  intros walk env.
  refine (proj1 (@gc_sweeps_exactly walk env demo_store store0 None [] 
    (@GC walk env demo_store store0 None [] []).1 (@GC walk env demo_store store0 None [] []).2
    (NewCidV1 Raw <$> elements store0) _ _ _) "a").
  - by destruct (@GC walk env demo_store store0 None [] []).
  - reflexivity.
  - vm_compute. repeat constructor.
Defined.

Lemma gc_aborts_on_missing_links_witness :
  let walk := sequential_walk 10 in let env := demo_env ["b"] in
  (@GC walk env demo_store store0 None [] [false; true]).2 = store0.
Proof.
  intros walk env.
  refine (proj1 (@gc_aborts_on_missing_links walk env demo_store store0 None [] [false; true]
    (@GC walk env demo_store store0 None [] [false; true]).1
    (@GC walk env demo_store store0 None [] [false; true]).2 _ _)).
  - right. exists (v0 "b"), "not found". split; [reflexivity|]. left. exists [v0 "r"]. split; [reflexivity|].
    eapply reach_link with (p := v0 "r"); [|tauto|reflexivity|set_solver]. apply reach_root. set_solver.
  - by destruct (@GC walk env demo_store store0 None [] [false; true]).
Defined.

End GCWitnesses.
