(* ===== verification/RepoGC.v ===== *)
(** When the collector runs: [core/corerepo/gc.go].

    The node is a record of what this code reads and changes: the [Datastore]
    section of the configuration, the keys saved by [SetConfigKey], the root of
    the mutable file system and the blockstore.  [humanize.ParseBytes] and
    [time.ParseDuration] are the class [RepoEnv].  The pins and the usage of the
    repository are those at the time of each collection. *)
From Stdlib Require Import ZArith Lia String.
From stdpp Require Import base list strings gmap sets.
From S2P Require Import Prelude GC.

Local Open Scope Z_scope.
Local Open Scope go_scope.

Class RepoEnv := {
  ParseBytes : string -> result Z;
  ParseBytes_uint64 : forall s z, ParseBytes s = Ok z -> inU 64 z;
  ParseBytes_10GB : ParseBytes "10GB" = Ok 10000000000;
  ParseDuration : string -> result Z
}.

(** The fields of [config.Datastore] used here. *)
Record Datastore := MkDatastore {
  StorageMax : string;
  StorageGCWatermark : Z;
  GCPeriod : string;
}.

Section Repo.
Context `{DagWalk, GCBlockstore, RepoEnv}.

Record node := Node {
  Config : result Datastore;
  SetConfigKey_err : string -> option error;
  saved : list (string * string);
  FilesRoot : result cid;
  store : bstore;
  datastore : option (option error);
}.

Definition with_cfg (d : Datastore) (n : node) : node :=
  Node (Ok d) (SetConfigKey_err n) (saved n) (FilesRoot n) (store n) (datastore n).
Definition with_store (bs : bstore) (n : node) : node :=
  Node (Config n) (SetConfigKey_err n) (saved n) (FilesRoot n) bs (datastore n).

(** [SetConfigKey]: saves the key unless it fails. *)
Definition SetConfigKey (key value : string) (n : node) : option error * node :=
  match SetConfigKey_err n key with
  | Some e => (Some e, n)
  | None => (None, Node (Config n) (SetConfigKey_err n) (saved n ++ [(key, value)])
                        (FilesRoot n) (store n) (datastore n))
  end.

(** *** NewGC *)

Record GCParams := MkGC { gc_StorageMax : Z; gc_StorageGC : Z; gc_SlackGB : Z }.

Definition storage_gc (storageMax watermark : Z) : Z := u64 (storageMax * u64 watermark) / 100.

(** The constant [10e9] is 10^10. *)
Definition slack_gb (storageMax storageGC : Z) : Z :=
  let slackGB := u64 (storageMax - storageGC) / 10000000000 in
  if slackGB <? 1 then 1 else slackGB.

Definition fill_StorageMax (d : Datastore) (n : node) : result Datastore * node :=
  if decide (StorageMax d = "") then
    match SetConfigKey "Datastore.StorageMax" "10GB" n with
    | (Some e, n) => (Err e, n)
    | (None, n) =>
        let d := MkDatastore "10GB" (StorageGCWatermark d) (GCPeriod d) in (Ok d, with_cfg d n)
    end
  else (Ok d, n).

Definition fill_Watermark (d : Datastore) (n : node) : result Datastore * node :=
  if StorageGCWatermark d =? 0 then
    match SetConfigKey "Datastore.StorageGCWatermark" "90" n with
    | (Some e, n) => (Err e, n)
    | (None, n) =>
        let d := MkDatastore (StorageMax d) 90 (GCPeriod d) in (Ok d, with_cfg d n)
    end
  else (Ok d, n).

Definition NewGC (n : node) : result GCParams * node :=
  match Config n with
  | Err e => (Err e, n)
  | Ok d =>
      match fill_StorageMax d n with
      | (Err e, n) => (Err e, n)
      | (Ok d, n) =>
          match fill_Watermark d n with
          | (Err e, n) => (Err e, n)
          | (Ok d, n) =>
              match ParseBytes (StorageMax d) with
              | Err e => (Err e, n)
              | Ok storageMax =>
                  let storageGC := storage_gc storageMax (StorageGCWatermark d) in
                  (Ok (MkGC storageMax storageGC (slack_gb storageMax storageGC)), n)
              end
          end
      end
  end.

(** *** Collecting the results of a run *)

Inductive rerror :=
| GCErr (e : gc_error)
| PlainErr (e : error)
| MultiError (Errors : list rerror) (Summary : rerror).

Definition NewMultiError (errs : list rerror) : outcome rerror :=
  match errs !! (length errs - 1)%nat with
  | Some s => Ret (MultiError (take (length errs - 1) errs) s)
  | None => Panic "slice bounds out of range"
  end.

(** [Error()] of the errors collected here. *)
Fixpoint rerror_Error (show : cid -> string) (e : rerror) : string :=
  match e with
  | GCErr e => gc_error_Error show e
  | PlainErr e => e
  | MultiError es s =>
      fold_right (fun e acc => rerror_Error show e +:+ "; " +:+ acc) (rerror_Error show s) es
  end.

(** The receive loop: the errors and the keys handed to the callback.  [ts] says
    at each iteration whether the [ctx.Done()] branch is taken.  The CIDs a
    collection reports are defined. *)
Fixpoint collect_loop (ts : list bool) (gcOut : list Result) (errors : list rerror)
    (removed : list cid) : list rerror * list cid :=
  match ts with
  | true :: _ => (errors ++ [PlainErr ctx_Err], removed)
  | _ =>
      match gcOut with
      | [] => (errors, removed)
      | ResError e :: gcOut => collect_loop (tail ts) gcOut (errors ++ [GCErr e]) removed
      | KeyRemoved k :: gcOut => collect_loop (tail ts) gcOut errors (removed ++ [k])
      end
  end.

Definition CollectResult (ts : list bool) (gcOut : list Result) : outcome (option rerror) * list cid :=
  let '(errors, removed) := collect_loop ts gcOut [] [] in
  (match errors with
   | [] => Ret None
   | [e] => Ret (Some e)
   | _ => let! e := NewMultiError errors in Ret (Some e)
   end, removed).

(** *** Running the collector *)

Definition BestEffortRoots (filesRoot : result cid) : result (list cid) :=
  match filesRoot with
  | Err e => Err e
  | Ok c => Ok [c]
  end.

(** [ts] and [ts'] are the cancellation of the context as the collector and as
    [CollectResult] see it. *)
Definition GarbageCollect (env : GCEnv) (ts ts' : list bool) (n : node)
    : outcome (option rerror) * node :=
  match BestEffortRoots (FilesRoot n) with
  | Err e => (Ret (Some (PlainErr e)), n)
  | Ok roots =>
      let '(rmed, bs) := GC (store n) (datastore n) roots ts in
      ((CollectResult ts' rmed).1, with_store bs n)
  end.

(** Channels as seen by their only holder: a send blocks forever when the buffer
    is full, since no other goroutine has the channel. *)
Record chan (A : Type) := MkChan { cap : nat; buf : list A }.
Arguments MkChan {A}.
Arguments cap {A}.
Arguments buf {A}.

Definition chan_send {A} (c : chan A) (v : A) : option (chan A) :=
  if (length (buf c) <? cap c)%nat then Some (MkChan (cap c) (buf c ++ [v])) else None.

Inductive async :=
| Returns (out : list Result) (bs : bstore)
| BlocksForever.

Definition GarbageCollectAsync (env : GCEnv) (ts : list bool) (n : node) : async :=
  match BestEffortRoots (FilesRoot n) with
  | Err err =>
      match chan_send (MkChan 0 []) (ResError (OtherError err)) with
      | None => BlocksForever
      | Some out => Returns (buf out) (store n)
      end
  | Ok roots => let '(out, bs) := GC (store n) (datastore n) roots ts in Returns out bs
  end.

(** What a collection finds: the pins and links, the usage of the repository
    and the cancellation of its context. *)
Record moment := Moment {
  m_env : GCEnv;
  m_usage : result Z;
  m_ticks : list bool;
  m_ticks' : list bool;
}.

Definition maybeGC (gc : GCParams) (m : moment) (offset : Z) (n : node)
    : outcome (option rerror) * node :=
  match m_usage m with
  | Err e => (Ret (Some (PlainErr e)), n)
  | Ok storage =>
      if gc_StorageGC gc <? u64 (storage + offset)
      then GarbageCollect (m_env m) (m_ticks m) (m_ticks' m) n
      else (Ret None, n)
  end.

Definition ConditionalGC (m : moment) (offset : Z) (n : node) : outcome (option rerror) * node :=
  match NewGC n with
  | (Err e, n) => (Ret (Some (PlainErr e)), n)
  | (Ok gc, n) => maybeGC gc m offset n
  end.

(** [PeriodicGC] over the first ticks of its timer; [Done] is the end of the
    context.  [None] means the loop is still waiting. *)
Inductive periodic_event := Tick (m : moment) | Done.

Fixpoint periodic_loop (gc : GCParams) (evs : list periodic_event) (n : node)
    : outcome (option (option rerror)) * node :=
  match evs with
  | [] => (Ret None, n)
  | Done :: _ => (Ret (Some None), n)
  | Tick m :: evs =>
      match maybeGC gc m 0 n with
      | (Panic s, n) => (Panic s, n)
      | (Ret _, n) => periodic_loop gc evs n
      end
  end.

Definition PeriodicGC (evs : list periodic_event) (n : node)
    : outcome (option (option rerror)) * node :=
  match Config n with
  | Err e => (Ret (Some (Some (PlainErr e))), n)
  | Ok d =>
      let '(d, n) :=
        if decide (GCPeriod d = "")
        then let d := MkDatastore (StorageMax d) (StorageGCWatermark d) "1h" in (d, with_cfg d n)
        else (d, n) in
      match ParseDuration (GCPeriod d) with
      | Err e => (Ret (Some (Some (PlainErr e))), n)
      | Ok period =>
          if period =? 0 then (Ret (Some None), n)
          else
            match NewGC n with
            | (Err e, n) => (Ret (Some (Some (PlainErr e))), n)
            | (Ok gc, n) => periodic_loop gc evs n
            end
      end
  end.

(** ** Lemmas *)

Lemma SetConfigKey_store k v n e n' : SetConfigKey k v n = (e, n') ->
  store n' = store n /\ Config n' = Config n /\ FilesRoot n' = FilesRoot n.
Proof. unfold SetConfigKey. intros E. case_match; by simplify_eq/=. Qed.

(** The configuration with the defaults of [NewGC] filled in. *)
Definition filled (d : Datastore) : Datastore :=
  MkDatastore (if decide (StorageMax d = "") then "10GB" else StorageMax d)
              (if StorageGCWatermark d =? 0 then 90 else StorageGCWatermark d) (GCPeriod d).

Lemma fill_StorageMax_frame d n r n' : fill_StorageMax d n = (r, n') ->
  store n' = store n /\ FilesRoot n' = FilesRoot n.
Proof.
  unfold fill_StorageMax. intros E. case_decide; [|by simplify_eq].
  destruct (SetConfigKey _ _ _) as [[e|] n1] eqn:S; apply SetConfigKey_store in S; naive_solver.
Qed.

Lemma fill_Watermark_frame d n r n' : fill_Watermark d n = (r, n') ->
  store n' = store n /\ FilesRoot n' = FilesRoot n.
Proof.
  unfold fill_Watermark. intros E. case_match; [|by simplify_eq].
  destruct (SetConfigKey _ _ _) as [[e|] n1] eqn:S; apply SetConfigKey_store in S; naive_solver.
Qed.

Lemma fills_ok d n n1 d1 n2 d2 :
  Config n = Ok d -> fill_StorageMax d n = (Ok d1, n1) -> fill_Watermark d1 n1 = (Ok d2, n2) ->
  d2 = filled d /\ Config n2 = Ok d2.
Proof.
  intros Hc F1 F2. unfold fill_StorageMax in F1. unfold fill_Watermark in F2. unfold filled.
  assert (H1' : d1 = MkDatastore (if decide (StorageMax d = "") then "10GB" else StorageMax d)
                       (StorageGCWatermark d) (GCPeriod d) /\ Config n1 = Ok d1).
  { case_decide; [|destruct d; by simplify_eq/=].
    destruct (SetConfigKey _ _ _) as [[e|] n1'] eqn:S; by simplify_eq/=. }
  destruct H1' as [-> Hc1]. simpl in F2. destruct (_ =? 0) eqn:W; [|by simplify_eq/=].
  destruct (SetConfigKey _ _ _) as [[e|] n2'] eqn:S; by simplify_eq/=.
Qed.

Lemma NewGC_frame n r n' : NewGC n = (r, n') -> store n' = store n /\ FilesRoot n' = FilesRoot n.
Proof.
  unfold NewGC. intros E. destruct (Config n) as [d|]; [|by simplify_eq].
  destruct (fill_StorageMax d n) as [[d1|] n1] eqn:F1; apply fill_StorageMax_frame in F1 as [F1 F1'];
    [|by simplify_eq].
  destruct (fill_Watermark d1 n1) as [[d2|] n2] eqn:F2; apply fill_Watermark_frame in F2 as [F2 F2'];
    [|simplify_eq; split; congruence].
  destruct (ParseBytes _); simplify_eq; split; congruence.
Qed.

Lemma NewGC_ok n gc n' : NewGC n = (Ok gc, n') ->
  exists d, Config n = Ok d /\ Config n' = Ok (filled d) /\
    ParseBytes (StorageMax (filled d)) = Ok (gc_StorageMax gc) /\
    gc_StorageGC gc = storage_gc (gc_StorageMax gc) (StorageGCWatermark (filled d)) /\
    gc_SlackGB gc = slack_gb (gc_StorageMax gc) (gc_StorageGC gc).
Proof.
  unfold NewGC. intros E. destruct (Config n) as [d|] eqn:C; [|done].
  destruct (fill_StorageMax d n) as [[d1|] n1] eqn:F1; [|done].
  destruct (fill_Watermark d1 n1) as [[d2|] n2] eqn:F2; [|done].
  destruct (fills_ok _ _ _ _ _ _ C F1 F2) as [-> C2].
  destruct (ParseBytes _) eqn:P; [|done]. simplify_eq. exists d. by rewrite P.
Qed.

(** The results a collection reports. *)
Definition errors_of (rs : list Result) : list rerror :=
  omap (fun r => match r with ResError e => Some (GCErr e) | KeyRemoved _ => None end) rs.
Definition removed_of (rs : list Result) : list cid :=
  omap (fun r => match r with KeyRemoved k => Some k | ResError _ => None end) rs.

Lemma collect_loop_spec ts gcOut errors removed :
  exists seen rest, gcOut = seen ++ rest /\
    (collect_loop ts gcOut errors removed).2 = removed ++ removed_of seen /\
    ((collect_loop ts gcOut errors removed).1 = errors ++ errors_of seen /\ rest = [] \/
     (collect_loop ts gcOut errors removed).1 = (errors ++ errors_of seen) ++ [PlainErr ctx_Err] /\
     true ∈ ts).
Proof.
  revert ts errors removed. induction gcOut as [|r gcOut IH]; intros ts errors removed.
  - exists [], []. destruct ts as [|[] ts]; simpl; rewrite ?app_nil_r; (split_and!; [done|done|]);
      [by left|right; set_solver|by left].
  - destruct (decide (head ts = Some true)) as [Ht|Ht].
    { destruct ts as [|[] ts]; try done. exists [], (r :: gcOut). simpl. rewrite !app_nil_r.
      split_and!; [done|done|]. right. set_solver. }
    set (errors' := match r with ResError e => errors ++ [GCErr e] | _ => errors end).
    set (removed' := match r with KeyRemoved k => removed ++ [k] | _ => removed end).
    assert (E : collect_loop ts (r :: gcOut) errors removed = collect_loop (tail ts) gcOut errors' removed').
    { destruct ts as [|[] ts]; try done; by destruct r. }
    assert (Et : true ∈ tail ts -> true ∈ ts) by (destruct ts; set_solver).
    rewrite E. destruct (IH (tail ts) errors' removed') as (seen & rest & -> & E2 & E1).
    exists (r :: seen), rest. rewrite E2.
    assert (Ee : errors' ++ errors_of seen = errors ++ errors_of (r :: seen)).
    { destruct r; unfold errors'; simpl; by rewrite <- ?app_assoc. }
    assert (Er : removed' ++ removed_of seen = removed ++ removed_of (r :: seen)).
    { destruct r; unfold removed'; simpl; by rewrite <- ?app_assoc. }
    rewrite Ee in E1. split_and!; [done|done|]. naive_solver.
Qed.

(** The text of the error [CollectResult] returns for collected errors. *)
Definition joined (show : cid -> string) (es : list rerror) : string :=
  String.concat "; " (rerror_Error show <$> es).

Lemma joined_snoc show es s :
  joined show (es ++ [s])
  = fold_right (fun e acc => rerror_Error show e +:+ "; " +:+ acc) (rerror_Error show s) es.
Proof.
  unfold joined. rewrite fmap_app. induction es as [|e es IH]; [done|].
  cbn [fold_right]. rewrite <- IH. csimpl. by destruct es; csimpl.
Qed.

Lemma NewMultiError_ok e1 e2 es : exists m, NewMultiError (e1 :: e2 :: es) = Ret m /\
  forall show, rerror_Error show m = joined show (e1 :: e2 :: es).
Proof.
  destruct (exists_last (l := e1 :: e2 :: es)) as (pre & s & E); [done|]. rewrite E.
  unfold NewMultiError. rewrite length_app. simpl. replace (length pre + 1 - 1)%nat with (length pre) by lia.
  rewrite lookup_app_r, Nat.sub_diag by done. simpl. eexists. split; [done|]. intros show.
  rewrite take_app_length. simpl. symmetry. apply joined_snoc.
Qed.

Lemma CollectResult_no_panic ts gcOut : exists e, (CollectResult ts gcOut).1 = Ret e.
Proof.
  unfold CollectResult. destruct (collect_loop _ _ _ _) as [[|e1 [|e2 es]] removed]; simpl; eauto.
  destruct (NewMultiError_ok e1 e2 es) as (m & -> & _). simpl. eauto.
Qed.

Lemma GarbageCollect_keeps env ts ts' n r n' c :
  GarbageCollect env ts ts' n = (r, n') ->
  (exists e, r = Ret e) /\ FilesRoot n' = FilesRoot n /\
  (forall root, FilesRoot n = Ok root -> protected [root] c ->
   bs_has (store n') (Hash c) = bs_has (store n) (Hash c)).
Proof.
  unfold GarbageCollect. intros E. destruct (FilesRoot n) as [root|e] eqn:R; simpl in E; [|simplify_eq; eauto].
  destruct (GC (store n) (datastore n) [root] ts) as [rmed bs] eqn:G. simplify_eq.
  split_and!; [apply CollectResult_no_panic|done|].
  intros root' [= <-] P. simpl. by eapply GC_keeps.
Qed.

Lemma maybeGC_keeps gc m off n r n' c :
  maybeGC gc m off n = (r, n') ->
  (exists e, r = Ret e) /\ FilesRoot n' = FilesRoot n /\
  (forall root, FilesRoot n = Ok root -> @protected (m_env m) [root] c ->
   bs_has (store n') (Hash c) = bs_has (store n) (Hash c)).
Proof.
  unfold maybeGC. intros E. destruct (m_usage m); [|simplify_eq; eauto].
  destruct (_ <? _); [by eapply GarbageCollect_keeps|simplify_eq; eauto].
Qed.

Lemma periodic_loop_keeps gc evs n r n' c root :
  periodic_loop gc evs n = (r, n') -> FilesRoot n = Ok root ->
  (forall m, Tick m ∈ evs -> @protected (m_env m) [root] c) ->
  (exists e, r = Ret e) /\ bs_has (store n') (Hash c) = bs_has (store n) (Hash c).
Proof.
  revert n. induction evs as [|[m|] evs IH]; intros n E R P; simpl in E; [simplify_eq; eauto| |simplify_eq; eauto].
  destruct (maybeGC gc m 0 n) as [r1 n1] eqn:M.
  apply (maybeGC_keeps _ _ _ _ _ _ c) in M as ((e & ->) & F & K).
  apply IH in E as (Hr & E); [|congruence|set_solver].
  split; [done|]. rewrite E. apply (K root R), P. set_solver.
Qed.

(** ** Properties *)

(** The collection thresholds: when [NewGC] succeeds the node's
    configuration has the defaults [10GB] and [90] for the fields that were unset,
    the maximum is the parsed setting, [SlackGB] is at least 1, and as long as
    the maximum times the watermark fits in 64 bits and the watermark is a
    percentage, the collection threshold is that percentage of the maximum
    (rounded down), never above it, and the slack counts the units of 10^10 bytes
    in between.  The blockstore is untouched. *)
Theorem repo_gc_thresholds n gc n' :
  NewGC n = (Ok gc, n') ->
  exists d, Config n = Ok d /\ Config n' = Ok (filled d) /\ store n' = store n /\
    ParseBytes (StorageMax (filled d)) = Ok (gc_StorageMax gc) /\ 1 <= gc_SlackGB gc /\
    (0 <= StorageGCWatermark (filled d) <= 100 ->
     gc_StorageMax gc * StorageGCWatermark (filled d) < 2 ^ 64 ->
     gc_StorageGC gc = gc_StorageMax gc * StorageGCWatermark (filled d) / 100 /\
     gc_StorageGC gc <= gc_StorageMax gc /\
     gc_SlackGB gc = Z.max 1 ((gc_StorageMax gc - gc_StorageGC gc) / 10000000000)).
Proof.
  intros E. apply NewGC_frame in E as F. destruct F as [F _].
  apply NewGC_ok in E as (d & C & C' & P & G & S). exists d.
  pose proof (ParseBytes_uint64 _ _ P) as R. unfold inU in R. rewrite S.
  split_and!; try done.
  - unfold slack_gb. destruct (_ <? 1) eqn:L; lia.
  - intros W O. set (w := StorageGCWatermark _) in *. set (m := gc_StorageMax gc) in *.
    assert (G' : gc_StorageGC gc = m * w / 100).
    { rewrite G. unfold storage_gc. fold m w.
      rewrite (wrapU_small 64 w), wrapU_small; unfold inU; [done|split; [nia|done]|].
      split; [lia|]. apply (Z.le_lt_trans _ 100); [lia|done]. }
    assert (m * w / 100 <= m) by (apply Z.div_le_upper_bound; nia).
    assert (0 <= m * w / 100) by (apply Z.div_pos; nia).
    rewrite G'. split_and!; [done|done|]. unfold slack_gb. rewrite wrapU_small by (unfold inU; lia).
    destruct (_ <? 1) eqn:L; lia.
Qed.

(** [CollectResult] reports a run faithfully: it never panics; when the
    context is not done it hands the callback every removed key in order and
    returns nil exactly when no error was received, otherwise an error whose text
    is the texts of all received errors, in order, separated by semicolons.  When
    the context ends first, keys and errors are those of a prefix of the output,
    followed by the context's error. *)
Theorem collect_result_reports ts gcOut :
  exists r removed seen errs,
    CollectResult ts gcOut = (Ret r, removed) /\ seen `prefix_of` gcOut /\
    removed = removed_of seen /\
    (r = None <-> errs = []) /\
    (forall e show, r = Some e -> rerror_Error show e = joined show errs) /\
    (errs = errors_of seen /\ seen = gcOut \/
     errs = errors_of seen ++ [PlainErr ctx_Err] /\ true ∈ ts).
Proof.
  destruct (collect_loop_spec ts gcOut [] []) as (seen & rest & E & E2 & E1). simpl in E1, E2.
  unfold CollectResult. destruct (collect_loop ts gcOut [] []) as [errs removed]. simpl in E1, E2.
  assert (Hr : exists r, match errs with [] => Ret None | [e] => Ret (Some e)
      | _ => let! e := NewMultiError errs in Ret (Some e) end = Ret r /\ (r = None <-> errs = []) /\
      forall e show, r = Some e -> rerror_Error show e = joined show errs).
  { destruct errs as [|e1 [|e2 es]]; [by exists None| |].
    - exists (Some e1). split_and!; [done|done|]. intros e show [= ->]. done.
    - destruct (NewMultiError_ok e1 e2 es) as (m & -> & J). exists (Some m). simpl.
      split_and!; [done|done|]. intros e show [= <-]. apply J. }
  destruct Hr as (r & -> & Hn & Ht). exists r, removed, seen, errs. split_and!; auto.
  - subst. by apply prefix_app_r.
  - destruct E1 as [[-> ->]|[-> Hts]]; [left|by right]. by rewrite app_nil_r in E.
Qed.

(** The watermark decides: [maybeGC] leaves the node alone when the usage
    plus the offset (as a 64-bit sum) does not exceed the collection threshold or
    the usage is unknown, and otherwise is a full [GarbageCollect]. *)
Theorem maybe_gc_watermark gc m offset n :
  (forall e, m_usage m = Err e -> maybeGC gc m offset n = (Ret (Some (PlainErr e)), n)) /\
  (forall used, m_usage m = Ok used -> 0 <= used -> 0 <= offset -> used + offset < 2 ^ 64 ->
     (used + offset <= gc_StorageGC gc -> maybeGC gc m offset n = (Ret None, n)) /\
     (gc_StorageGC gc < used + offset ->
      maybeGC gc m offset n = GarbageCollect (m_env m) (m_ticks m) (m_ticks' m) n)).
Proof.
  unfold maybeGC. split; [by intros e ->|]. intros used -> Hu Ho Hs.
  rewrite wrapU_small by (unfold inU; lia).
  split; intros ?; [by rewrite (proj2 (Z.ltb_ge _ _))|by rewrite (proj2 (Z.ltb_lt _ _))].
Qed.

(** The background collector is safe over its whole life: through any number
    of ticks with changing pins and usage, errors and cancellation, [PeriodicGC]
    does not panic and never removes the block of a node that is protected at
    every tick, the root of the mutable file system included. *)
Theorem periodic_gc_keeps_protected evs n r n' root c :
  PeriodicGC evs n = (r, n') -> FilesRoot n = Ok root ->
  (forall m, Tick m ∈ evs -> @protected (m_env m) [root] c) ->
  (exists e, r = Ret e) /\ bs_has (store n') (Hash c) = bs_has (store n) (Hash c).
Proof.
  unfold PeriodicGC. intros E R P. destruct (Config n) as [d|]; [|simplify_eq; eauto].
  destruct (if decide _ then _ else _) as [d1 n1] eqn:D.
  assert (N1 : store n1 = store n /\ FilesRoot n1 = FilesRoot n) by (case_decide; by simplify_eq).
  destruct N1 as [S1 R1]. rewrite <- S1.
  destruct (ParseDuration _) as [period|]; [|simplify_eq; eauto].
  destruct (period =? 0); [simplify_eq; eauto|].
  destruct (NewGC n1) as [[gc|e] n2] eqn:G; apply NewGC_frame in G as [G G']; rewrite <- G;
    [|simplify_eq; eauto].
  apply (periodic_loop_keeps gc evs n2 r n' c root E); [congruence|done].
Qed.

(** [GarbageCollectAsync] never returns when the root of the mutable file
    system cannot be read: it sends the error on an unbuffered channel before
    anyone can receive from it. *)
Theorem garbage_collect_async_blocks env ts n :
  (forall e, FilesRoot n = Err e -> GarbageCollectAsync env ts n = BlocksForever) /\
  (forall root, FilesRoot n = Ok root ->
     exists out bs, GarbageCollectAsync env ts n = Returns out bs).
Proof.
  unfold GarbageCollectAsync. split; [by intros e ->|]. intros root ->. simpl.
  destruct (GC _ _ _ _) as [out bs]. eauto.
Qed.

End Repo.

(** ** Witnesses *)

Section RepoWitnesses.
Import GC.Demo.
Local Existing Instance demo_store.

Definition demo_repo : RepoEnv.
Proof.
  refine {| ParseBytes := fun s => if decide (s = "10GB") then Ok 10000000000 else Err "unhandled size name";
            ParseDuration := fun s => if decide (s = "1h") then Ok 3600000000000 else Err "invalid duration" |}.
  - intros s z. case_decide; [|done]. intros [= <-]. by unfold inU.
  - reflexivity.
Defined.
Local Existing Instance demo_repo.

Definition demo_node : node :=
  Node (Ok (MkDatastore "" 0 "")) (fun _ => None) [] (Ok (v1 "a")) store0 None.

Definition broken_node : node :=
  Node (Ok (MkDatastore "" 0 "")) (fun _ => None) [] (Err "not found") store0 None.

Lemma repo_gc_thresholds_witness :
  (NewGC demo_node).1 = Ok (MkGC 10000000000 9000000000 1) /\
  exists d, Config demo_node = Ok d /\ Config (NewGC demo_node).2 = Ok (filled d).
Proof.
  split; [reflexivity|].
  destruct (repo_gc_thresholds demo_node (MkGC 10000000000 9000000000 1) (NewGC demo_node).2)
    as (d & E1 & E2 & _); [reflexivity|]. exists d. exact (conj E1 E2).
Defined.

Lemma maybe_gc_watermark_witness :
  @maybeGC (sequential_walk 10) demo_store (MkGC 100 90 1) (Moment (demo_env []) (Ok 80) [] []) 10 demo_node
  = (Ret None, demo_node).
Proof.
  refine (proj1 (proj2 (@maybe_gc_watermark (sequential_walk 10) demo_store (MkGC 100 90 1)
    (Moment (demo_env []) (Ok 80) [] []) 10 demo_node) 80 eq_refl _ _ _) _); simpl; lia.
Defined.

Lemma periodic_gc_keeps_protected_witness :
  let walk := sequential_walk 10 in
  let evs := [Tick (Moment (demo_env []) (Ok 9500000000) [] []); Done] in
  (exists e, (@PeriodicGC walk demo_store demo_repo evs demo_node).1 = Ret e) /\
  bs_has (store (@PeriodicGC walk demo_store demo_repo evs demo_node).2) "b" = bs_has store0 "b".
Proof.
  intros walk evs.
  apply (@periodic_gc_keeps_protected walk demo_store demo_repo evs demo_node _ _ (v1 "a") (v0 "b")).
  - apply surjective_pairing.
  - reflexivity.
  - intros m [[= ->]|[|[]%not_elem_of_nil]%elem_of_cons]%elem_of_cons; [|done].
    do 3 eexists. split_and!; [reflexivity..|]. left.
    eapply reach_link with (p := v0 "r"); [|tauto|reflexivity|set_solver]. apply reach_root. set_solver.
Defined.

Lemma garbage_collect_async_blocks_witness :
  @GarbageCollectAsync (sequential_walk 10) demo_store (demo_env []) [] broken_node = BlocksForever.
Proof.
  apply (proj1 (@garbage_collect_async_blocks (sequential_walk 10) demo_store (demo_env []) [] broken_node) "not found").
  reflexivity.
Defined.

End RepoWitnesses.
