(* ===== verification/Datastores.v ===== *)
(** Datastore configurations: [repo/fsrepo/datastores.go] and the parsers of the
    [flatfs], [levelds] and [badgerds] plugins under [plugin/plugins].

    A datastore configuration is a tree of the types the code knows; its
    [DiskSpec] is what must not change between two openings of a repository.
    [ds.NewKey], [flatfs.ParseShardFunc], [humanize.ParseBytes] and the opening of
    the concrete datastores belong to other repositories and are the fields of
    [DatastoreEnv]. *)
From Stdlib Require Import ZArith Lia Ascii String.
From stdpp Require Import base list strings sets sorting.
From S2P Require Import Prelude GoStrings GoPath ConfigMap.

Local Open Scope Z_scope.

Class DatastoreEnv := {
  NewKey : string -> string;
  ParseShardFunc : string -> result string;
  ds_ParseBytes : string -> result Z;
  default_vlog : Z;
  (** opening a datastore of the given type at the given path *)
  open_backend : string -> string -> option error;
}.

(** ** Configurations *)

Inductive compression := NoCompression | SnappyCompression | DefaultCompression.

Inductive DatastoreConfig :=
| mountDatastoreConfig (mounts : list (DatastoreConfig * string))
| memDatastoreConfig
| logDatastoreConfig (child : DatastoreConfig) (name : string)
| measureDatastoreConfig (child : DatastoreConfig) (prefix : string)
| flatfsConfig (path shardFun : string) (syncField : bool)
| leveldsConfig (path : string) (c : compression)
| badgerdsConfig (path : string) (syncWrites truncate : bool) (vlogFileSize : Z).

(** [v, ok := params[k].(string)] and the like. *)
Definition get_string (params : object) (k : string) : option string :=
  match mlookup k params with Some (JStr s) => Some s | _ => None end.
Definition get_bool (params : object) (k : string) : option bool :=
  match mlookup k params with Some (JBool b) => Some b | _ => None end.
Definition get_object (params : object) (k : string) : option object :=
  match mlookup k params with Some (JObj m) => Some m | _ => None end.

Section Datastores.
Context `{DatastoreEnv}.

Abbreviation parsed := (outcome (result DatastoreConfig)).
Abbreviation fail e := (Ret (Err e)).

(** *** Plugins *)

Definition flatfs_parse (params : object) : parsed :=
  match get_string params "path" with
  | None => fail "'path' field is missing or not boolean"
  | Some path =>
      match get_string params "shardFunc" with
      | None => fail "'shardFunc' field is missing or not a string"
      | Some sshardFun =>
          match ParseShardFunc sshardFun with
          | Err e => fail e
          | Ok shardFun =>
              match get_bool params "sync" with
              | None => fail "'sync' field is missing or not boolean"
              | Some sync => Ret (Ok (flatfsConfig path shardFun sync))
              end
          end
      end
  end.

Definition levelds_parse (params : object) : parsed :=
  match get_string params "path" with
  | None => fail "'path' field is missing or not string"
  | Some path =>
      match mlookup "compression" params with
      | Some (JStr "none") => Ret (Ok (leveldsConfig path NoCompression))
      | Some (JStr "snappy") => Ret (Ok (leveldsConfig path SnappyCompression))
      | Some (JStr "") | Some JNull | None => Ret (Ok (leveldsConfig path DefaultCompression))
      | Some _ => fail "unrecognized value for compression"
      end
  end.

(** An optional boolean member with its default. *)
Definition bool_or (params : object) (k : string) (dflt : bool) : option bool :=
  match mlookup k params with
  | None => Some dflt
  | Some (JBool b) => Some b
  | Some _ => None
  end.

Definition badgerds_parse (params : object) : parsed :=
  match get_string params "path" with
  | None => fail "'path' field is missing or not string"
  | Some path =>
      match bool_or params "syncWrites" false with
      | None => fail "'syncWrites' field was not a boolean"
      | Some syncWrites =>
          match bool_or params "truncate" true with
          | None => fail "'truncate' field was not a boolean"
          | Some truncate =>
              match mlookup "vlogFileSize" params with
              | None => Ret (Ok (badgerdsConfig path syncWrites truncate default_vlog))
              | Some (JStr vlogSize) =>
                  match ds_ParseBytes vlogSize with
                  | Err e => fail e
                  | Ok s => Ret (Ok (badgerdsConfig path syncWrites truncate (i64 s)))
                  end
              | Some _ => fail "'vlogFileSize' field was not a string"
              end
          end
      end
  end.

(** *** The registry *)

Abbreviation handler := (object -> parsed).

Definition builtin_types : list string := ["mount"; "mem"; "log"; "measure"].

(** The [datastores] table: the four built-in types and the registered ones. *)
Abbreviation registry := (list (string * handler)).

Definition AddDatastoreConfigHandler (name : string) (dsc : handler) (reg : registry)
    : option error * registry :=
  if decide (name ∈ builtin_types \/ name ∈ reg.*1)
  then (Some ("already have a datastore named " +:+ name), reg)
  else (None, (name, dsc) :: reg).

Fixpoint find_handler (name : string) (reg : registry) : option handler :=
  match reg with
  | [] => None
  | (n, h) :: reg => if decide (name = n) then Some h else find_handler name reg
  end.

(** *** Parsing a spec *)

(** [sort.Slice] by descending prefix. *)
Definition key_ge (a b : DatastoreConfig * string) : Prop := String.leb b.2 a.2 = true.
#[local] Instance key_ge_dec a b : Decision (key_ge a b).
Proof. unfold key_ge. apply _. Defined.
Definition sort_mounts (l : list (DatastoreConfig * string)) := merge_sort key_ge l.

(** One entry of [mounts]; [any] parses the nested spec.  The type assertion
    [prefix.(string)] panics on any other value. *)
Definition parse_mount (any : object -> parsed) (iface : json)
    : outcome (result (DatastoreConfig * string)) :=
  match iface with
  | JObj cfg =>
      match any cfg with
      | Panic m => Panic m
      | Ret (Err e) => Ret (Err e)
      | Ret (Ok child) =>
          match mlookup "mountpoint" cfg with
          | None => Ret (Err "no 'mountpoint' on mount")
          | Some (JStr prefix) => Ret (Ok (child, NewKey prefix))
          | Some _ => Panic "interface conversion: interface {} is not string"
          end
      end
  | _ => Ret (Err "expected map for mountpoint")
  end.

Fixpoint parse_mounts (any : object -> parsed) (l : list json)
    : outcome (result (list (DatastoreConfig * string))) :=
  match l with
  | [] => Ret (Ok [])
  | iface :: l =>
      match parse_mount any iface with
      | Panic m => Panic m
      | Ret (Err e) => Ret (Err e)
      | Ret (Ok m) =>
          match parse_mounts any l with
          | Panic s => Panic s
          | Ret (Err e) => Ret (Err e)
          | Ret (Ok ms) => Ret (Ok (m :: ms))
          end
      end
  end.

Definition MountDatastoreConfig (any : object -> parsed) (params : object) : parsed :=
  match mlookup "mounts" params with
  | Some (JArr mounts) =>
      match parse_mounts any mounts with
      | Panic m => Panic m
      | Ret (Err e) => Ret (Err e)
      | Ret (Ok res) => Ret (Ok (mountDatastoreConfig (sort_mounts res)))
      end
  | _ => fail "'mounts' field is missing or not an array"
  end.

Definition MemDatastoreConfig (params : object) : parsed := Ret (Ok memDatastoreConfig).

Definition LogDatastoreConfig (any : object -> parsed) (params : object) : parsed :=
  match get_object params "child" with
  | None => fail "'child' field is missing or not a map"
  | Some childField =>
      match any childField with
      | Panic m => Panic m
      | Ret (Err e) => Ret (Err e)
      | Ret (Ok child) =>
          match get_string params "name" with
          | None => fail "'name' field was missing or not a string"
          | Some name => Ret (Ok (logDatastoreConfig child name))
          end
      end
  end.

Definition MeasureDatastoreConfig (any : object -> parsed) (params : object) : parsed :=
  match get_object params "child" with
  | None => fail "'child' field is missing or not a map"
  | Some childField =>
      match any childField with
      | Panic m => Panic m
      | Ret (Err e) => Ret (Err e)
      | Ret (Ok child) =>
          match get_string params "prefix" with
          | None => fail "'prefix' field was missing or not a string"
          | Some prefix => Ret (Ok (measureDatastoreConfig child prefix))
          end
      end
  end.

(** [AnyDatastoreConfig] with a bound on the nesting. *)
Fixpoint any_config (reg : registry) (fuel : nat) (params : object) : parsed :=
  match fuel with
  | O => fail "too deep"
  | S fuel =>
      match get_string params "type" with
      | None => fail "'type' field missing or not a string"
      | Some which =>
          let any := any_config reg fuel in
          if decide (which = "mount") then MountDatastoreConfig any params
          else if decide (which = "mem") then MemDatastoreConfig params
          else if decide (which = "log") then LogDatastoreConfig any params
          else if decide (which = "measure") then MeasureDatastoreConfig any params
          else
            match find_handler which reg with
            | None => fail ("unknown datastore type: " +:+ which)
            | Some fun_ => fun_ params
            end
      end
  end.

(** The nesting depth of a value. *)
Fixpoint depth (v : json) : nat :=
  match v with
  | JArr l => S (list_max (map depth l))
  | JObj m => S (list_max (map (fun kv => depth kv.2) m))
  | _ => 1
  end.

Definition AnyDatastoreConfig (reg : registry) (params : object) : parsed :=
  any_config reg (depth (JObj params)) params.

(** *** DiskSpec *)

(** [None] is the nil map of the in-memory datastore. *)
Fixpoint DiskSpec (c : DatastoreConfig) : option object :=
  match c with
  | mountDatastoreConfig mounts =>
      Some [("type", JStr "mount");
            ("mounts", JArr (map (fun m : DatastoreConfig * string =>
               JObj (minsert "mountpoint" (JStr m.2) (default [] (DiskSpec m.1)))) mounts))]
  | memDatastoreConfig => None
  | logDatastoreConfig child _ => DiskSpec child
  | measureDatastoreConfig child _ => DiskSpec child
  | flatfsConfig path shardFun _ =>
      Some [("type", JStr "flatfs"); ("path", JStr path); ("shardFunc", JStr shardFun)]
  | leveldsConfig path _ => Some [("type", JStr "levelds"); ("path", JStr path)]
  | badgerdsConfig path _ _ _ => Some [("type", JStr "badgerds"); ("path", JStr path)]
  end.

(** *** Create *)

Definition place (root p : string) : string := if IsAbs p then p else Join root p.

(** The datastores opened so far are returned also when a later one fails. *)
Definition open_one (kind path : string) : option error * list string :=
  match open_backend kind path with
  | Some e => (Some e, [])
  | None => (None, [path])
  end.

Fixpoint Create (root : string) (c : DatastoreConfig) : option error * list string :=
  match c with
  | mountDatastoreConfig mounts =>
      (fix go (ms : list (DatastoreConfig * string)) : option error * list string :=
         match ms with
         | [] => (None, [])
         | m :: ms =>
             let '(err, opened) := Create root m.1 in
             match err with
             | Some e => (Some e, opened)
             | None => let '(err, opened') := go ms in (err, opened ++ opened')
             end
         end) mounts
  | memDatastoreConfig => (None, [])
  | logDatastoreConfig child _ => Create root child
  | measureDatastoreConfig child _ => Create root child
  | flatfsConfig path _ _ => open_one "flatfs" (place root path)
  | leveldsConfig path _ => open_one "levelds" (place root path)
  | badgerdsConfig path _ _ _ => open_one "badgerds" (place root path)
  end.

(** ** Lemmas *)

Lemma DatastoreConfig_nested_ind (P : DatastoreConfig -> Prop) :
  (forall mounts, Forall (fun m => P m.1) mounts -> P (mountDatastoreConfig mounts)) ->
  P memDatastoreConfig ->
  (forall child name, P child -> P (logDatastoreConfig child name)) ->
  (forall child prefix, P child -> P (measureDatastoreConfig child prefix)) ->
  (forall path shardFun sync, P (flatfsConfig path shardFun sync)) ->
  (forall path c, P (leveldsConfig path c)) ->
  (forall path sw tr v, P (badgerdsConfig path sw tr v)) ->
  forall c, P c.
Proof.
  intros Hmount Hmem Hlog Hmeas Hf Hl Hb. fix IH 1. intros [mounts| |c n|c p| | |];
    [|apply Hmem|apply Hlog, IH|apply Hmeas, IH|apply Hf|apply Hl|apply Hb].
  apply Hmount. induction mounts as [|[c p] mounts IHm]; constructor; [apply IH|apply IHm].
Qed.

(** The leaf datastores of a configuration, in the order they are opened. *)
Fixpoint leaves (root : string) (c : DatastoreConfig) : list (string * string) :=
  match c with
  | mountDatastoreConfig mounts => concat (map (fun m : DatastoreConfig * string => leaves root m.1) mounts)
  | memDatastoreConfig => []
  | logDatastoreConfig child _ | measureDatastoreConfig child _ => leaves root child
  | flatfsConfig path _ _ => [("flatfs", place root path)]
  | leveldsConfig path _ => [("levelds", place root path)]
  | badgerdsConfig path _ _ _ => [("badgerds", place root path)]
  end.

(** Opening a list of leaves until one fails. *)
Fixpoint open_leaves (ls : list (string * string)) : option error * list string :=
  match ls with
  | [] => (None, [])
  | (kind, path) :: ls =>
      match open_backend kind path with
      | Some e => (Some e, [])
      | None => let '(err, opened) := open_leaves ls in (err, path :: opened)
      end
  end.

Lemma open_leaves_app l1 l2 :
  open_leaves (l1 ++ l2)
  = match open_leaves l1 with
    | (Some e, o) => (Some e, o)
    | (None, o) => let '(err, o') := open_leaves l2 in (err, o ++ o')
    end.
Proof.
  induction l1 as [|[k p] l1 IH]; simpl; [by destruct (open_leaves l2)|].
  destruct (open_backend k p); [done|]. rewrite IH.
  destruct (open_leaves l1) as [[e|] o]; [done|]. by destruct (open_leaves l2).
Qed.

Lemma open_one_leaf kind path : open_one kind path = open_leaves [(kind, path)].
Proof. unfold open_one. simpl. by destruct (open_backend kind path). Qed.

Lemma Create_leaves root c : Create root c = open_leaves (leaves root c).
Proof.
  induction c as [mounts IH| |c n IH|c n IH| | |] using DatastoreConfig_nested_ind; try done;
    try apply open_one_leaf.
  simpl. induction mounts as [|m mounts IHm]; [done|].
  apply Forall_cons in IH as [Hm IH]. simpl. rewrite open_leaves_app, Hm, (IHm IH).
  by destruct (open_leaves (leaves root m.1)) as [[e|] o].
Qed.

Lemma open_leaves_spec ls err opened :
  open_leaves ls = (err, opened) ->
  match err with
  | None => opened = ls.*2 /\ Forall (fun l => open_backend l.1 l.2 = None) ls
  | Some e => exists l1 k p l2, ls = l1 ++ (k, p) :: l2 /\ opened = l1.*2 /\
                open_backend k p = Some e /\ Forall (fun l => open_backend l.1 l.2 = None) l1
  end.
Proof.
  revert err opened. induction ls as [|[k p] ls IH]; intros err opened E; simpl in E; [by simplify_eq|].
  destruct (open_backend k p) as [e|] eqn:B.
  { simplify_eq. by exists [], k, p, ls. }
  destruct (open_leaves ls) as [err' o] eqn:O. simplify_eq. specialize (IH _ _ eq_refl).
  destruct err as [e|].
  - destruct IH as (l1 & k' & p' & l2 & -> & -> & B' & F). exists ((k, p) :: l1), k', p', l2.
    split_and!; try done. by constructor.
  - destruct IH as [-> F]. split; [done|]. by constructor.
Qed.

(** *** Fuel *)

Lemma depth_member k v m : mlookup k m = Some v -> (depth v < depth (JObj m))%nat.
Proof.
  intros E%mlookup_elem. simpl. apply Nat.lt_succ_r. change (depth v) with (depth (k, v).2).
  pose proof (proj1 (list_max_le (map (fun kv => depth kv.2) m) _) (le_n _)) as F.
  rewrite List.Forall_forall in F. apply F, in_map_iff. exists (k, v). split; [done|].
  by apply list_elem_of_In.
Qed.

Lemma depth_elem v l : v ∈ l -> (depth v < depth (JArr l))%nat.
Proof.
  intros E. simpl. apply Nat.lt_succ_r.
  pose proof (proj1 (list_max_le (map depth l) _) (le_n _)) as F.
  rewrite List.Forall_forall in F. apply F, in_map_iff. exists v. split; [done|].
  by apply list_elem_of_In.
Qed.

Lemma parse_mounts_ext any1 any2 l :
  (forall cfg, JObj cfg ∈ l -> any1 cfg = any2 cfg) -> parse_mounts any1 l = parse_mounts any2 l.
Proof.
  induction l as [|v l IH]; intros E; [done|]. simpl.
  assert (parse_mount any1 v = parse_mount any2 v) as ->.
  { destruct v; try done. simpl. rewrite E; [done|set_solver]. }
  rewrite IH; [done|]. intros cfg Hin. apply E. set_solver.
Qed.

Lemma any_config_fuel reg f1 f2 params :
  (depth (JObj params) <= f1)%nat -> (depth (JObj params) <= f2)%nat ->
  any_config reg f1 params = any_config reg f2 params.
Proof.
  revert f2 params. induction f1 as [|f1 IH]; intros [|f2] params H1 H2;
    try (exfalso; cbn [depth] in *; lia).
  cbn [any_config]. destruct (get_string params "type") as [which|]; [|done].
  assert (Hchild : forall k m, mlookup k params = Some (JObj m) ->
            any_config reg f1 m = any_config reg f2 m).
  { intros k m Hk%depth_member. apply IH; lia. }
  repeat case_decide; try done.
  - unfold MountDatastoreConfig. destruct (mlookup "mounts" params) as [[]|] eqn:Em; try done.
    rewrite (parse_mounts_ext (any_config reg f1) (any_config reg f2)); [done|].
    intros cfg Hin%depth_elem. apply depth_member in Em. apply IH; lia.
  - unfold LogDatastoreConfig, get_object. destruct (mlookup "child" params) as [[]|] eqn:Em; try done.
    by rewrite (Hchild _ _ Em).
  - unfold MeasureDatastoreConfig, get_object.
    destruct (mlookup "child" params) as [[]|] eqn:Em; try done. by rewrite (Hchild _ _ Em).
Qed.

(** *** What a disk spec identifies *)

(** A configuration without its run-time settings. *)
Fixpoint essence (c : DatastoreConfig) : DatastoreConfig :=
  match c with
  | mountDatastoreConfig mounts =>
      mountDatastoreConfig (map (fun m : DatastoreConfig * string => (essence m.1, m.2)) mounts)
  | memDatastoreConfig => memDatastoreConfig
  | logDatastoreConfig child _ | measureDatastoreConfig child _ => essence child
  | flatfsConfig path shardFun _ => flatfsConfig path shardFun false
  | leveldsConfig path _ => leveldsConfig path DefaultCompression
  | badgerdsConfig path _ _ _ => badgerdsConfig path false false 0
  end.

Lemma DiskSpec_essence c : DiskSpec (essence c) = DiskSpec c.
Proof.
  induction c as [mounts IH| |c n IH|c n IH| | |] using DatastoreConfig_nested_ind; try done.
  simpl. rewrite map_map. do 5 f_equal. apply map_ext_Forall.
  eapply Forall_impl; [exact IH|]. intros m E. simpl. by rewrite E.
Qed.

Lemma DiskSpec_shape c m : DiskSpec c = Some m -> mlookup "mountpoint" m = None /\ m <> [].
Proof.
  induction c using DatastoreConfig_nested_ind; intros E; simplify_eq/=; by auto.
Qed.

Lemma minsert_absent k v m : mlookup k m = None -> minsert k v m = m ++ [(k, v)].
Proof.
  induction m as [|[k' v'] m IH]; simpl; [done|]. case_decide; [done|]. intros E. by rewrite IH.
Qed.

Lemma mount_entry_inj c1 c2 p1 p2 :
  minsert "mountpoint" (JStr p1) (default [] (DiskSpec c1))
  = minsert "mountpoint" (JStr p2) (default [] (DiskSpec c2)) ->
  p1 = p2 /\ DiskSpec c1 = DiskSpec c2.
Proof.
  assert (A : forall c, mlookup "mountpoint" (default [] (DiskSpec c)) = None).
  { intros c. destruct (DiskSpec c) eqn:E; [|done]. by apply DiskSpec_shape in E as [? _]. }
  rewrite !minsert_absent by apply A. intros [E1 [= ->]]%app_inj_2; [|done]. split; [done|].
  destruct (DiskSpec c1) as [m1|] eqn:D1, (DiskSpec c2) as [m2|] eqn:D2; simpl in E1; try congruence.
  - subst. by apply DiskSpec_shape in D1 as [_ ?].
  - subst. by apply DiskSpec_shape in D2 as [_ ?].
Qed.

Lemma DiskSpec_inj c1 c2 : DiskSpec c1 = DiskSpec c2 -> essence c1 = essence c2.
Proof.
  revert c2.
  induction c1 as [ms1 IH1| |c1 n1 IH1|c1 n1 IH1|p1 s1 y1|p1 k1|p1 w1 t1 v1] using DatastoreConfig_nested_ind;
    intros c2 E; try (by apply IH1);
    induction c2 as [ms2 _| |c2 n2 IH2|c2 n2 IH2|p2 s2 y2|p2 k2|p2 w2 t2 v2] using DatastoreConfig_nested_ind;
    try (by apply IH2); simpl in E |- *; try discriminate; try (by simplify_eq).
  injection E as E. f_equal. clear -IH1 E. revert ms2 E.
  induction IH1 as [|[c1 p1] ms1 Hc IHf IHms]; intros [|[c2 p2] ms2] E; try done.
  injection E as E1 E2. simpl in E1. apply mount_entry_inj in E1 as [-> E1].
  csimpl. f_equal; [|by apply IHms]. simpl in Hc. by rewrite (Hc _ E1).
Qed.

(** *** The order of mounts *)

Lemma parse_mounts_perm any l1 l2 r1 :
  l1 ≡ₚ l2 -> parse_mounts any l1 = Ret (Ok r1) ->
  exists r2, parse_mounts any l2 = Ret (Ok r2) /\ r1 ≡ₚ r2.
Proof.
  intros P. revert r1. induction P as [|v l1 l2 P IH|v w l|l1 l2 l3 P1 IH1 P2 IH2]; intros r1 E.
  - eauto.
  - simpl in E |- *. destruct (parse_mount any v) as [[m|]|]; try done.
    destruct (parse_mounts any l1) as [[ms|]|] eqn:E1; try done. simplify_eq.
    destruct (IH _ eq_refl) as (r2 & -> & P'). eexists. split; [done|]. by constructor.
  - simpl in E |- *. destruct (parse_mount any w) as [[m|]|]; try done;
    destruct (parse_mount any v) as [[m'|]|]; try done;
    destruct (parse_mounts any l) as [[ms|]|]; try done. simplify_eq. eexists. split; [done|]. constructor.
  - destruct (IH1 _ E) as (r2 & E2 & P'). destruct (IH2 _ E2) as (r3 & E3 & P''). exists r3.
    split; [done|]. by etrans.
Qed.

Lemma sort_mounts_perm l1 l2 : l1 ≡ₚ l2 -> NoDup l1.*2 -> sort_mounts l1 = sort_mounts l2.
Proof.
  intros P N. unfold sort_mounts.
  assert (T : Transitive key_ge) by (intros a b c Hab Hbc; unfold key_ge in *; by eapply string_leb_trans).
  assert (To : Total key_ge) by (intros a b; unfold key_ge; destruct (String.leb_total a.2 b.2); auto).
  apply (StronglySorted_unique_strong key_ge); [|by apply StronglySorted_merge_sort..|by rewrite !merge_sort_Permutation].
  intros x1 x2 H1 H2 L1 L2. rewrite merge_sort_Permutation in H1. rewrite merge_sort_Permutation, <- P in H2.
  unfold key_ge in *. pose proof (String.leb_antisym _ _ L1 L2) as E.
  apply list_elem_of_lookup in H1 as [i Hi]. apply list_elem_of_lookup in H2 as [j Hj].
  assert (i = j) as ->; [|congruence].
  eapply NoDup_lookup; [exact N|by rewrite list_lookup_fmap, Hi|by rewrite list_lookup_fmap, Hj; simpl; rewrite E].
Qed.

(** ** Properties *)

(** The disk spec identifies the stored data: two configurations have the
    same [DiskSpec] exactly when they differ only in run-time settings, that is
    the names and prefixes of logging and measuring wrappers, syncing,
    compression and value log sizes; so such a change never makes a repository
    refuse to open and any other change does. *)
Theorem diskspec_identifies c1 c2 : DiskSpec c1 = DiskSpec c2 <-> essence c1 = essence c2.
Proof.
  split; [apply DiskSpec_inj|]. intros E. by rewrite <- (DiskSpec_essence c1), E, DiskSpec_essence.
Qed.

(** The order in which mounts are listed does not matter: a mount spec that
    parses to distinct mount points parses to the same configuration (so to the
    same disk spec and the same lookup order) when its [mounts] array is permuted. *)
Theorem mount_order_irrelevant any params l1 l2 c ms :
  mlookup "mounts" params = Some (JArr l1) -> l1 ≡ₚ l2 ->
  MountDatastoreConfig any params = Ret (Ok c) ->
  parse_mounts any l1 = Ret (Ok ms) -> NoDup ms.*2 ->
  MountDatastoreConfig any (minsert "mounts" (JArr l2) params) = Ret (Ok c).
Proof.
  intros E P M Pm N. unfold MountDatastoreConfig in *. rewrite mlookup_minsert. rewrite E, Pm in M.
  destruct (parse_mounts_perm _ _ _ _ P Pm) as (r2 & -> & P2). simplify_eq.
  by rewrite <- (sort_mounts_perm ms r2).
Qed.

(** The nesting bound of [AnyDatastoreConfig] is never reached: any larger
    bound gives the same result, so the error it stands for is never returned. *)
Theorem any_datastore_config_total reg params extra :
  any_config reg (depth (JObj params) + extra) params = AnyDatastoreConfig reg params.
Proof. apply any_config_fuel; lia. Qed.

(** [Create] opens the leaf datastores of a configuration in order: when it
    succeeds exactly all of them are open; when it fails the error is that of the
    first leaf that cannot be opened, nothing after it was opened, and every
    datastore before it is still open although the caller gets no handle to it. *)
Theorem create_opens_leaves root c err opened :
  Create root c = (err, opened) ->
  match err with
  | None => opened = (leaves root c).*2 /\
            Forall (fun l => open_backend l.1 l.2 = None) (leaves root c)
  | Some e => exists l1 kind path l2,
      leaves root c = l1 ++ (kind, path) :: l2 /\ open_backend kind path = Some e /\
      opened = l1.*2 /\ Forall (fun l => open_backend l.1 l.2 = None) l1
  end.
Proof.
  rewrite Create_leaves. intros E%open_leaves_spec. destruct err as [e|]; [|done].
  destruct E as (l1 & k & p & l2 & ? & ? & ? & ?). eauto 10.
Qed.

(** A mount entry whose [mountpoint] is not a string crashes the program:
    parsing such a spec panics on the type assertion instead of returning an
    error, whatever the other entries before it that parse. *)
Theorem mountpoint_type_panics any l cfg child v rest ms :
  parse_mounts any l = Ret (Ok ms) -> any cfg = Ret (Ok child) ->
  mlookup "mountpoint" cfg = Some v -> (forall s, v <> JStr s) ->
  exists msg, MountDatastoreConfig any [("mounts", JArr (l ++ JObj cfg :: rest))] = Panic msg.
Proof.
  intros Pl Ec Em Hv. exists "interface conversion: interface {} is not string".
  unfold MountDatastoreConfig.
  change (mlookup "mounts" [("mounts", JArr (l ++ JObj cfg :: rest))]) with (Some (JArr (l ++ JObj cfg :: rest))).
  cbv iota beta.
  assert (parse_mounts any (l ++ JObj cfg :: rest) = Panic "interface conversion: interface {} is not string") as ->;
    [|done].
  revert ms Pl. induction l as [|x l IH]; intros ms Pl; simpl.
  - rewrite Ec, Em. destruct v; try done. by destruct (Hv s).
  - simpl in Pl. destruct (parse_mount any x) as [[m|]|]; try done.
    destruct (parse_mounts any l) as [[ms'|]|] eqn:E; try done. by rewrite (IH ms').
Qed.

End Datastores.

(** ** Witnesses *)

Section DatastoreWitnesses.

Definition demo_ds : DatastoreEnv :=
  {| NewKey := fun s => s; ParseShardFunc := fun s => Ok s; ds_ParseBytes := fun s => Err "unhandled size name";
     default_vlog := 1073741824;
     open_backend := fun kind path => if decide (path = "/repo/bad") then Some "resource temporarily unavailable" else None |}.
Local Existing Instance demo_ds.

Definition demo_reg : list (string * (object -> outcome (result DatastoreConfig))) :=
  [("flatfs", flatfs_parse); ("levelds", levelds_parse); ("badgerds", badgerds_parse)].

Definition blocks_spec : json :=
  JObj [("type", JStr "flatfs"); ("path", JStr "blocks"); ("shardFunc", JStr "/repo/flatfs/shard/v1/next-to-last/2");
        ("sync", JBool true); ("mountpoint", JStr "/blocks")].
Definition root_spec : json :=
  JObj [("type", JStr "levelds"); ("path", JStr "datastore"); ("compression", JStr "none"); ("mountpoint", JStr "/")].

Lemma mount_order_irrelevant_witness :
  exists c, MountDatastoreConfig (any_config demo_reg 3) [("mounts", JArr [blocks_spec; root_spec])] = Ret (Ok c) /\
            MountDatastoreConfig (any_config demo_reg 3) [("mounts", JArr [root_spec; blocks_spec])] = Ret (Ok c).
Proof.
  eexists. split; [reflexivity|].
  refine (mount_order_irrelevant (any_config demo_reg 3) [("mounts", JArr [blocks_spec; root_spec])]
    [blocks_spec; root_spec] [root_spec; blocks_spec] _ _ eq_refl (perm_swap _ _ _) eq_refl eq_refl _).
  simpl. apply NoDup_cons; split; [intros ?%list_elem_of_singleton; done|apply NoDup_singleton].
Defined.

Lemma create_opens_leaves_witness :
  exists l1 kind path l2,
    leaves "/repo" (mountDatastoreConfig [(flatfsConfig "blocks" "v1" true, "/blocks"); (leveldsConfig "bad" NoCompression, "/")])
      = l1 ++ (kind, path) :: l2 /\ open_backend kind path = Some "resource temporarily unavailable" /\
    ["/repo/blocks"] = l1.*2 /\ Forall (fun l => open_backend l.1 l.2 = None) l1.
Proof.
  apply (create_opens_leaves "/repo"
    (mountDatastoreConfig [(flatfsConfig "blocks" "v1" true, "/blocks"); (leveldsConfig "bad" NoCompression, "/")])
    (Some "resource temporarily unavailable") ["/repo/blocks"]).
  vm_compute. reflexivity.
Defined.

Lemma mountpoint_type_panics_witness :
  exists msg, MountDatastoreConfig (any_config demo_reg 3)
    [("mounts", JArr ([root_spec] ++ JObj [("type", JStr "mem"); ("mountpoint", JNum "1")] :: []))] = Panic msg.
Proof.
  refine (mountpoint_type_panics (any_config demo_reg 3) [root_spec] _ memDatastoreConfig (JNum "1") [] _ _ _ _ _);
    [reflexivity..|]. done.
Defined.

End DatastoreWitnesses.
