(* ===== verification/FsRepo.v ===== *)
(** The file-system repository: [repo/fsrepo/fsrepo.go], with the parts of
    [config/config.go], [config/serialize/serialize.go], [thirdparty/dir/dir.go]
    and [repo/fsrepo/migrations/ipfsdir.go] it calls.

    Programs run in a state and error monad over the [disk]: the contents of
    files, the lock files that are held, the datastores that are open, and a list
    of faults.  Every operation of the operating system that can fail takes the
    next element of that list and fails with it when it is an error (after
    writing as many bytes as the fault says when it is a write); when the list is
    exhausted nothing fails any more.  [packageLock] makes each operation atomic.

    JSON encoding, [homedir], multiaddresses and [atomicfile] belong to other
    packages: [RepoEnv'] states what is used of them. *)
From Stdlib Require Import ZArith Lia Ascii String.
From stdpp Require Import base list strings gmap sets.
From S2P Require Import Prelude GoStrings GoPath ConfigMap Datastores.

Local Open Scope Z_scope.

(** ** Operations of the operating system *)

Record disk := Disk {
  files : gmap string string;
  locks : gset string;
  open_ds : list string;
  faults : list (option (error * nat));
}.

(** A computation that may fail over a state [S]. *)
Abbreviation sio S A := (S -> result A * S).
Abbreviation io A := (sio disk A).

Section Monad.
Context {S : Type}.

Definition ret {A} (a : A) : sio S A := fun s => (Ok a, s).
Definition throw {A} (e : error) : sio S A := fun s => (Err e, s).
Definition bind {A B} (m : sio S A) (k : A -> sio S B) : sio S B := fun s =>
  match m s with
  | (Ok a, s) => k a s
  | (Err e, s) => (Err e, s)
  end.
(** The call returns its error as a value. *)
Definition try {A} (m : sio S A) : sio S (result A) := fun s => let '(r, s) := m s in (Ok r, s).
(** [of_result]: a pure call that may fail. *)
Definition of_result {A} (r : result A) : sio S A := fun s => (r, s).

Lemma bind_ok {A B} (m : sio S A) (k : A -> sio S B) s b s' :
  bind m k s = (Ok b, s') -> exists a s1, m s = (Ok a, s1) /\ k a s1 = (Ok b, s').
Proof. unfold bind. destruct (m s) as [[a|e] s1]; [eauto|done]. Qed.

Lemma bind_run {A B} (m : sio S A) (k : A -> sio S B) s a s1 : m s = (Ok a, s1) -> bind m k s = k a s1.
Proof. unfold bind. by intros ->. Qed.
End Monad.

Declare Scope io_scope.
Notation "'do' x <- m ; k" := (bind m (fun x => k))
  (at level 10, x pattern, m at level 200, k at level 200) : io_scope.
Notation "m ;; k" := (bind m (fun _ => k)) : io_scope.
Local Open Scope io_scope.

Definition ErrNotExist : error := "file does not exist".
Definition IsNotExist (e : error) : bool := bool_decide (e = ErrNotExist).

(** The next fault. *)
Definition next_fault (s : disk) : option (error * nat) * disk :=
  match faults s with
  | [] => (None, s)
  | f :: fs => (f, Disk (files s) (locks s) (open_ds s) fs)
  end.

(** A call without other effects that may fail. *)
Definition may_fail : io unit := fun s =>
  match next_fault s with
  | (Some (e, _), s) => (Err e, s)
  | (None, s) => (Ok tt, s)
  end.

Definition put_file (path content : string) : io unit := fun s =>
  (Ok tt, Disk (<[path := content]> (files s)) (locks s) (open_ds s) (faults s)).
Definition drop_file (path : string) : io unit := fun s =>
  (Ok tt, Disk (delete path (files s)) (locks s) (open_ds s) (faults s)).

Definition os_ReadFile (path : string) : io string :=
  may_fail ;; fun s =>
  match files s !! path with
  | Some c => (Ok c, s)
  | None => (Err ErrNotExist, s)
  end.

(** [os.Create]: the file exists and is empty. *)
Definition os_Create (path : string) : io unit := may_fail ;; put_file path "".

(** [f.Write] to a file just created: a failed write may have written a part. *)
Definition os_WriteString (path content : string) : io unit := fun s =>
  match next_fault s with
  | (Some (e, n), s) => (Err e, (put_file path (substring 0 n content) s).2)
  | (None, s) => put_file path content s
  end.

Definition os_WriteFile (path content : string) : io unit :=
  os_Create path ;; os_WriteString path content.

Definition os_Rename (from to : string) : io unit :=
  may_fail ;; fun s =>
  match files s !! from with
  | Some c => (Ok tt, Disk (<[to := c]> (delete from (files s))) (locks s) (open_ds s) (faults s))
  | None => (Err ErrNotExist, s)
  end.

Definition os_Remove (path : string) : io unit :=
  may_fail ;; fun s =>
  match files s !! path with
  | Some _ => drop_file path s
  | None => (Err ErrNotExist, s)
  end.

Definition FileExists (path : string) : io bool := fun s => (Ok (bool_decide (is_Some (files s !! path))), s).

(** ** What other packages provide *)

Class RepoEnv' := {
  (** [config.Config]: the fields read here *)
  Config : Type;
  ds_Type : Config -> string;
  ds_Path : Config -> string;
  ds_Spec : Config -> option object;
  FilestoreEnabled : Config -> bool;
  UrlstoreEnabled : Config -> bool;
  (** [json]: decoding into a map or a [Config], encoding either *)
  decode_map : string -> result object;
  decode_config : string -> result Config;
  Marshal_map : object -> result string;
  Marshal_config : Config -> result string;
  Marshal_spec : option object -> string;
  decode_map_wf : forall s m, decode_map s = Ok m -> wf (JObj m);
  decode_Marshal_map : forall m s, wf (JObj m) -> Marshal_map m = Ok s -> decode_map s = Ok m;
  decode_Marshal_config : forall c s, Marshal_config c = Ok s -> decode_config s = Ok c;
  (** [homedir] and the environment *)
  Expand : string -> result string;
  homedir_Dir : result string;
  env_IPFS_PATH : string;
  (** the type registry of [AnyDatastoreConfig] *)
  repo_registry : list (string * (object -> outcome (result DatastoreConfig)));
  (** multiaddresses *)
  Multiaddr : Type;
  ma_String : Multiaddr -> string;
  NewMultiaddr : string -> result Multiaddr;
  NewMultiaddr_String : forall a, NewMultiaddr (ma_String a) = Ok a
}.

Definition DefaultConfigFile : string := "config".
Definition DefaultPathRoot : string := "~/.ipfs".
Definition apiFile : string := "api".
Definition gatewayFile : string := "gateway".
Definition swarmKeyFile : string := "swarm.key".
Definition specFn : string := "datastore_spec".
Definition LockFile : string := "repo.lock".
Definition versionFile : string := "version".
Definition RepoVersionNumber : Z := 12.
Definition PrivKeySelector : string := "Identity.PrivKey".

Definition ErrNoVersion : error := "no version file found, please run 0-to-1 migration tool.".
Definition ErrOldRepo : error := "ipfs repo found in old '~/.go-ipfs' location, please run migration tool.".
Definition ErrNeedMigration : error := "ipfs repo needs migration, please run migration tool.".
Definition ErrNotInitialized : error := "ipfs not initialized, please run 'ipfs init'".
Definition ErrApiNotRunning : error := "api not running".
Definition NoRepoError (path : string) : error :=
  "no IPFS repo found in " +:+ path +:+ ". please run: 'ipfs init'".

Section FsRepo.
Context `{RepoEnv', DatastoreEnv}.

(** *** config/config.go *)

Definition PathRoot : result string :=
  if decide (env_IPFS_PATH = "") then Expand DefaultPathRoot else Ok env_IPFS_PATH.

Definition Path (configroot extension : string) : result string :=
  if decide (configroot = "") then
    match PathRoot with
    | Err e => Err e
    | Ok dir => Ok (Join dir extension)
    end
  else Ok (Join configroot extension).

Definition Filename (configroot userConfigFile : string) : result string :=
  if decide (userConfigFile = "") then Path configroot DefaultConfigFile
  else if decide (Dir userConfigFile = ".") then Path configroot userConfigFile
  else Ok userConfigFile.

Definition decode_error (e : error) : error := "failure to decode config: " +:+ e.

(** Encoding and decoding go through the same JSON text. *)
Definition FromMap (v : object) : result Config :=
  match Marshal_map v with
  | Err e => Err e
  | Ok buf => match decode_config buf with Err e => Err (decode_error e) | Ok c => Ok c end
  end.

Definition ToMap (conf : Config) : result object :=
  match Marshal_config conf with
  | Err e => Err e
  | Ok buf => match decode_map buf with Err e => Err (decode_error e) | Ok m => Ok m end
  end.

Definition Clone (c : Config) : result Config :=
  match Marshal_config c with
  | Err e => Err ("failure to encode config: " +:+ e)
  | Ok buf => match decode_config buf with Err e => Err (decode_error e) | Ok c => Ok c end
  end.

(** *** config/serialize/serialize.go *)

Definition ReadConfigFile {A} (decode : string -> result A) (filename : string) : io A := fun s =>
  match os_ReadFile filename s with
  | (Err e, s) => (Err (if IsNotExist e then ErrNotInitialized else e), s)
  | (Ok c, s) => (match decode c with Err e => Err (decode_error e) | Ok a => Ok a end, s)
  end.

(** [atomicfile]: the temporary file of [filename]. *)
Definition atomic_tmp (filename : string) : string := filename +:+ ".tmp".

(** [WriteConfigFile]: [atomicfile.New], [encode], and the deferred [Close], which
    renames the temporary file over [filename] whatever happened before and
    whose own error is dropped. *)
Definition WriteConfigFile (filename : string) (encoded : result string) : io unit :=
  may_fail ;;
  os_Create (atomic_tmp filename) ;;
  do r <- try (do buf <- of_result encoded; os_WriteString (atomic_tmp filename) buf);
  do _ <- try (os_Rename (atomic_tmp filename) filename);
  of_result r.

Definition Load (filename : string) : io Config := ReadConfigFile decode_config filename.

(** *** thirdparty/dir/dir.go *)

Definition Writable (path : string) : io unit :=
  may_fail ;;
  do r <- try (os_Create (Join path "._check_writable"));
  match r with
  | Err _ => throw ("'" +:+ path +:+ "' is not writable")
  | Ok _ => do _ <- try (os_Remove (Join path "._check_writable")); ret tt
  end.

(** *** migrations/ipfsdir.go *)

Definition IpfsDir (dir : string) : result string :=
  let dir := if decide (dir = "") then env_IPFS_PATH else dir in
  if decide (dir = "") then
    match homedir_Dir with
    | Err e => Err e
    | Ok home => if decide (home = "") then Err "could not determine IPFS_PATH, home dir not set"
                 else Ok (Join home ".ipfs")
    end
  else Expand dir.

(** [os.Stat] of the directory is the only use of the file system. *)
Definition CheckIpfsDir (dir : string) : io string :=
  do dir <- of_result (IpfsDir dir);
  may_fail ;; ret dir.

Definition repoVersion (ipfsDir : string) : io Z :=
  do c <- os_ReadFile (Join ipfsDir versionFile);
  match ParseInt (TrimSpace c) with
  | None => throw "invalid data in repo version file"
  | Some ver => ret ver
  end.

Definition RepoVersion (ipfsDir : string) : io Z :=
  do ipfsDir <- CheckIpfsDir ipfsDir; repoVersion ipfsDir.

Definition newline : string := String (ascii_of_N 10) "".

Definition WriteRepoVersion (ipfsDir : string) (version : Z) : io unit :=
  do ipfsDir <- of_result (IpfsDir ipfsDir);
  os_WriteFile (Join ipfsDir versionFile) (FormatInt version +:+ newline).

(** *** fsrepo.go: initialization *)

Definition configIsInitialized (path : string) : io bool :=
  match Filename path "" with
  | Err _ => ret false
  | Ok configFilename => FileExists configFilename
  end.

Definition isInitializedUnsynced (repoPath : string) : io bool := configIsInitialized repoPath.

Definition IsInitialized (path : string) : io bool := isInitializedUnsynced path.

Definition initConfig (path : string) (conf : Config) : io unit :=
  do b <- configIsInitialized path;
  if (b : bool) then ret tt else
  do configFilename <- of_result (Filename path "");
  WriteConfigFile configFilename (Marshal_config conf).

(** [dsc.DiskSpec().Bytes()] and [String()]. *)
Definition spec_String (dsc : DatastoreConfig) : string := TrimSpace (Marshal_spec (DiskSpec dsc)).

(** [AnyDatastoreConfig]; a panic of a parser ends the program and is shown as an
    error here. *)
Definition parse_spec (spec : object) : result DatastoreConfig :=
  match AnyDatastoreConfig repo_registry spec with
  | Ret r => r
  | Panic m => Err ("panic: " +:+ m)
  end.

Definition initSpec (path : string) (conf : option object) : io unit :=
  do fn <- of_result (Path path specFn);
  do b <- FileExists fn;
  if (b : bool) then ret tt else
  do dsc <- of_result (parse_spec (default [] conf));
  os_WriteFile fn (spec_String dsc).

Definition Init (repoPath : string) (conf : Config) : io unit :=
  do b <- isInitializedUnsynced repoPath;
  if (b : bool) then ret tt else
  initConfig repoPath conf ;;
  initSpec repoPath (ds_Spec conf) ;;
  WriteRepoVersion repoPath RepoVersionNumber.

(** *** fsrepo.go: opening and closing *)

(** The opened datastore is the list of its leaf stores, the file manager its two
    permissions. *)
Record FSRepo := MkFSRepo {
  closed : bool;
  path : string;
  configFilePath : string;
  config : option Config;
  repo_ds : list string;
  filemgr : option (bool * bool);
}.

Definition with_config (c : Config) (r : FSRepo) : FSRepo :=
  MkFSRepo (closed r) (path r) (configFilePath r) (Some c) (repo_ds r) (filemgr r).
Definition with_ds (ds : list string) (r : FSRepo) : FSRepo :=
  MkFSRepo (closed r) (path r) (configFilePath r) (config r) ds (filemgr r).
Definition with_filemgr (m : bool * bool) (r : FSRepo) : FSRepo :=
  MkFSRepo (closed r) (path r) (configFilePath r) (config r) (repo_ds r) (Some m).
Definition mark_closed (r : FSRepo) : FSRepo :=
  MkFSRepo true (path r) (configFilePath r) (config r) (repo_ds r) (filemgr r).

Definition newFSRepo (rpath userConfigFilePath : string) : result FSRepo :=
  match Expand (Clean rpath) with
  | Err e => Err e
  | Ok expPath =>
      match Filename rpath userConfigFilePath with
      | Err e => Err ("finding config filepath from repo " +:+ rpath +:+ " and user config "
                      +:+ userConfigFilePath +:+ ": " +:+ e)
      | Ok configFilePath => Ok (MkFSRepo false expPath configFilePath None [] None)
      end
  end.

Definition checkInitialized (path : string) : io unit :=
  do b <- isInitializedUnsynced path;
  if (b : bool) then ret tt else
  do old <- isInitializedUnsynced (replace_first ".ipfs" ".go-ipfs" path);
  throw (if (old : bool) then ErrOldRepo else NoRepoError path).

(** [lockfile.Lock] refuses a lock that is held; [Close] releases it. *)
Definition lockfile_Lock (path : string) : io unit :=
  may_fail ;; fun s =>
  if decide (Join path LockFile ∈ locks s) then (Err "someone else has the lock", s)
  else (Ok tt, Disk (files s) ({[ Join path LockFile ]} ∪ locks s) (open_ds s) (faults s)).

Definition lockfile_Locked (path : string) : io bool :=
  may_fail ;; fun s => (Ok (bool_decide (Join path LockFile ∈ locks s)), s).

Definition unlock (path : string) (s : disk) : disk :=
  Disk (files s) (locks s ∖ {[ Join path LockFile ]}) (open_ds s) (faults s).

Definition LockedByOtherProcess (repoPath : string) : io bool := lockfile_Locked (Clean repoPath).

Definition openConfig (r : FSRepo) : io FSRepo :=
  do conf <- Load (configFilePath r); ret (with_config conf r).

Definition openKeystore (r : FSRepo) : io FSRepo := may_fail ;; ret r.

Definition readSpec (r : FSRepo) : io string :=
  do fn <- of_result (Path (path r) specFn);
  do b <- os_ReadFile fn; ret (TrimSpace b).

(** [dsc.Create]: what was opened stays open also when it fails. *)
Definition ds_Create (root : string) (dsc : DatastoreConfig) : io (list string) := fun s =>
  let '(err, opened) := Create root dsc in
  (match err with Some e => Err e | None => Ok opened end,
   Disk (files s) (locks s) (open_ds s ++ opened) (faults s)).

Definition openDatastore (r : FSRepo) (conf : Config) : io FSRepo :=
  if decide (ds_Type conf <> "" \/ ds_Path conf <> "")
  then throw "old style datatstore config detected"
  else match ds_Spec conf with
  | None => throw "required Datastore.Spec entry missing from config file"
  | Some spec =>
      do dsc <- of_result (parse_spec spec);
      do oldSpec <- readSpec r;
      if decide (oldSpec <> spec_String dsc)
      then throw ("datastore configuration of '" +:+ oldSpec +:+ "' does not match what is on disk '"
                  +:+ spec_String dsc +:+ "'")
      else do d <- ds_Create (path r) dsc; ret (with_ds d r)
  end.

(** The part of [open] that runs with the lock held. *)
Definition open_locked (r : FSRepo) : io FSRepo :=
  do v <- try (RepoVersion (path r));
  match v with
  | Err e => throw (if IsNotExist e then ErrNoVersion else e)
  | Ok ver =>
      if ver <? RepoVersionNumber then throw ErrNeedMigration
      else if RepoVersionNumber <? ver then
        throw ("Your programs version (" +:+ FormatInt RepoVersionNumber +:+ ") is lower than your repos ("
               +:+ FormatInt ver +:+ ").")
      else
        Writable (path r) ;;
        do r <- openConfig r;
        match config r with
        | None => throw "unreachable"
        | Some conf =>
            do r <- openDatastore r conf;
            do r <- openKeystore r;
            ret (if FilestoreEnabled conf || UrlstoreEnabled conf
                 then with_filemgr (FilestoreEnabled conf, UrlstoreEnabled conf) r else r)
        end
  end.

Definition open (repoPath userConfigFilePath : string) : io FSRepo :=
  do r <- of_result (newFSRepo repoPath userConfigFilePath);
  checkInitialized (path r) ;;
  lockfile_Lock (path r) ;;
  fun s =>
    match open_locked r s with
    | (Ok r, s) => (Ok r, s)
    | (Err e, s) => (Err e, unlock (path r) s)
    end.

(** Operations on an open repository return the repository as they leave it. *)
Abbreviation rio A := (FSRepo -> disk -> result A * FSRepo * disk).

(** [ds.Close] of the repository's datastore. *)
Definition close_ds (r : FSRepo) (s : disk) : disk :=
  Disk (files s) (locks s) (filter (fun d => d ∉ repo_ds r) (open_ds s)) (faults s).

Definition Close : rio unit := fun r s =>
  if closed r then (Err "repo is closed", r, s) else
  let s := (os_Remove (Join (path r) apiFile) s).2 in
  let s := (os_Remove (Join (path r) gatewayFile) s).2 in
  match may_fail s with
  | (Err e, s) => (Err e, r, s)
  | (Ok _, s) =>
      let s := unlock (path r) (close_ds r s) in
      let '(res, s) := may_fail s in (res, mark_closed r, s)
  end.

(** *** fsrepo.go: addresses *)

Definition APIAddr (repoPath : string) : io Multiaddr := fun s =>
  match os_ReadFile (Join (Clean repoPath) apiFile) s with
  | (Err e, s) => (Err (if IsNotExist e then ErrApiNotRunning else e), s)
  | (Ok c, s) =>
      let buf := substring 0 2048 c in
      if decide (String.length buf = 2048%nat)
      then (Err ("API file too large, must be <2048 bytes long: " +:+ Join (Clean repoPath) apiFile), s)
      else (NewMultiaddr (TrimSpace buf), s)
  end.

(** [SetAPIAddr]: write a temporary file, then rename it. *)
Definition SetAPIAddr (r : FSRepo) (addr : Multiaddr) : io unit :=
  let tmp := Join (path r) ("." +:+ apiFile +:+ ".tmp") in
  os_Create tmp ;;
  os_WriteString tmp (ma_String addr) ;;
  may_fail ;;
  do res <- try (os_Rename tmp (Join (path r) apiFile));
  match res with
  | Ok _ => ret tt
  | Err err =>
      do res1 <- try (os_Remove tmp);
      throw (match res1 with
             | Err err1 => "file Rename error: " +:+ err +:+ ", file remove error: " +:+ err1
             | Ok _ => err
             end)
  end.

(** The deferred removal of [SetGatewayAddr]. *)
Definition or_cleanup (tmp : string) (m : io unit) : io unit := fun s =>
  match m s with
  | (Ok a, s) => (Ok a, s)
  | (Err e, s) => (Err e, (os_Remove tmp s).2)
  end.

Definition SetGatewayAddr (r : FSRepo) (addr : string) : io unit :=
  let tmpPath := Join (path r) ("." +:+ gatewayFile +:+ ".tmp") in
  os_Create tmpPath ;;
  or_cleanup tmpPath (
    os_WriteString tmpPath ("http://" +:+ addr) ;;
    may_fail ;;
    do res <- try (os_Rename tmpPath (Join (path r) gatewayFile));
    match res with
    | Ok _ => ret tt
    | Err err =>
        do res1 <- try (os_Remove tmpPath);
        throw (match res1 with
               | Err err1 => "file Rename error: " +:+ err +:+ ", file remove error: " +:+ err1
               | Ok _ => err
               end)
    end).

Definition SwarmKey (r : FSRepo) : io (option string) := fun s =>
  match os_ReadFile (Join (Clean (path r)) swarmKeyFile) s with
  | (Err e, s) => (if IsNotExist e then Ok None else Err e, s)
  | (Ok c, s) => (Ok (Some c), s)
  end.

(** *** fsrepo.go: the configuration *)

Definition Config_ (r : FSRepo) : result (option Config) :=
  if closed r then Err "cannot access config, repo not open" else Ok (config r).

(** [temp] is the name [os.CreateTemp] chose; the name returned is that of the
    original file. *)
Definition BackupConfig (r : FSRepo) (temp : string) : io string :=
  os_Create temp ;;
  do c <- os_ReadFile (configFilePath r);
  os_WriteString temp c ;;
  ret (configFilePath r).

Definition SetConfig (updated : Config) : rio unit := fun r s =>
  match ReadConfigFile decode_map (configFilePath r) s with
  | (Err e, s) => (Err e, r, s)
  | (Ok mapconf, s) =>
      match ToMap updated with
      | Err e => (Err e, r, s)
      | Ok m =>
          let mergedMap := MapMergeDeep mapconf m in
          match WriteConfigFile (configFilePath r) (Marshal_map mergedMap) s with
          | (Err e, s) => (Err e, r, s)
          | (Ok _, s) => (Ok tt, with_config updated r, s)
          end
      end
  end.

Definition GetConfigKey (r : FSRepo) (key : string) : io json :=
  if closed r then throw "repo is closed" else
  do cfg <- ReadConfigFile decode_map (configFilePath r);
  of_result (MapGetKV cfg key).

Definition SetConfigKey (key : string) (value : json) : rio unit := fun r s =>
  if closed r then (Err "repo is closed", r, s) else
  match ReadConfigFile decode_map (configFilePath r) s with
  | (Err e, s) => (Err e, r, s)
  | (Ok mapconf, s) =>
      match MapGetKV mapconf PrivKeySelector with
      | Err e => (Err e, r, s)
      | Ok pkval =>
          match MapSetKV mapconf key value with
          | (Some e, _) => (Err e, r, s)
          | (None, mapconf) =>
              match MapSetKV mapconf PrivKeySelector pkval with
              | (Some e, _) => (Err e, r, s)
              | (None, mapconf) =>
                  match FromMap mapconf with
                  | Err e => (Err e, r, s)
                  | Ok conf =>
                      let r := with_config conf r in
                      match WriteConfigFile (configFilePath r) (Marshal_map mapconf) s with
                      | (Err e, s) => (Err e, r, s)
                      | (Ok _, s) => (Ok tt, r, s)
                      end
                  end
              end
          end
      end
  end.

(** ** Frames: what a computation leaves alone *)

(** [m] changes neither the locks nor, unless [ds] is set, the open datastores. *)
Definition frame (ds : bool) {A} (m : io A) : Prop := forall s r s', m s = (r, s') ->
  locks s' = locks s /\ (ds = false -> open_ds s' = open_ds s).

Lemma frame_weaken {A} ds (m : io A) : frame false m -> frame ds m.
Proof. intros F s r s' E. destruct (F s r s' E) as [? ?]. auto. Qed.

Lemma frame_ret ds {A} (a : A) : frame ds (ret a).
Proof. intros s r s' E. by injection E as <- <-. Qed.
Lemma frame_throw ds {A} e : frame ds (throw (A := A) e).
Proof. intros s r s' E. by injection E as <- <-. Qed.
Lemma frame_of_result ds {A} (x : result A) : frame ds (of_result x).
Proof. intros s r s' E. by injection E as <- <-. Qed.
Lemma frame_bind ds {A B} (m : io A) (k : A -> io B) :
  frame ds m -> (forall a, frame ds (k a)) -> frame ds (bind m k).
Proof.
  intros Fm Fk s r s' E. unfold bind in E. destruct (m s) as [[a|e] s1] eqn:M.
  - destruct (Fm _ _ _ M) as [L D]. destruct (Fk _ _ _ _ E) as [L' D'].
    split; [congruence|]. intros Hd. rewrite D', D; done.
  - injection E as <- <-. by apply (Fm _ _ _ M).
Qed.
Lemma frame_try ds {A} (m : io A) : frame ds m -> frame ds (try m).
Proof. intros F s r s' E. unfold try in E. destruct (m s) as [x s1] eqn:M. simplify_eq. by apply (F _ _ _ M). Qed.
Lemma frame_may_fail ds : frame ds may_fail.
Proof. intros s r s' E. unfold may_fail, next_fault in E. repeat case_match; by simplify_eq/=. Qed.
Lemma frame_put_file ds p c : frame ds (put_file p c).
Proof. intros s r s' E. by injection E as <- <-. Qed.
Lemma frame_os_WriteString ds p c : frame ds (os_WriteString p c).
Proof. intros s r s' E. unfold os_WriteString, next_fault, put_file in E. repeat case_match; by simplify_eq/=. Qed.
Lemma frame_FileExists ds p : frame ds (FileExists p).
Proof. intros s r s' E. by injection E as <- <-. Qed.
Lemma frame_state_fn ds {A} (f : disk -> result A * disk) :
  (forall s, locks (f s).2 = locks s /\ open_ds (f s).2 = open_ds s) -> frame ds f.
Proof. intros F s r s' E. specialize (F s). rewrite E in F. simpl in F. naive_solver. Qed.

Hint Resolve frame_ret frame_throw frame_of_result frame_bind frame_try frame_may_fail frame_put_file
  frame_os_WriteString frame_FileExists : go.

Ltac frame_step :=
  first
    [ apply frame_ret | apply frame_throw | apply frame_of_result | apply frame_may_fail
    | apply frame_put_file | apply frame_os_WriteString | apply frame_FileExists
    | apply frame_try | (apply frame_bind; [|intros ?])
    | (apply frame_state_fn; intros ?; by repeat case_match)
    | case_match ].
Ltac frame_tac := repeat frame_step.

Lemma frame_os_ReadFile ds p : frame ds (os_ReadFile p).
Proof. unfold os_ReadFile. frame_tac. Qed.
Lemma frame_os_Create ds p : frame ds (os_Create p).
Proof. unfold os_Create. frame_tac. Qed.
Lemma frame_os_Rename ds a b : frame ds (os_Rename a b).
Proof. unfold os_Rename. frame_tac. Qed.
Lemma frame_os_Remove ds p : frame ds (os_Remove p).
Proof. unfold os_Remove. frame_tac. Qed.
Lemma frame_WriteConfigFile ds f c : frame ds (WriteConfigFile f c).
Proof. unfold WriteConfigFile. repeat first [apply frame_os_Create|apply frame_os_Rename|frame_step]. Qed.
Lemma frame_ReadConfigFile ds {A} (dec : string -> result A) f : frame ds (ReadConfigFile dec f).
Proof.
  intros s r s' E. unfold ReadConfigFile in E. destruct (os_ReadFile f s) as [[c|e] s1] eqn:R;
    apply (frame_os_ReadFile ds) in R; by simplify_eq.
Qed.
Lemma frame_Writable ds p : frame ds (Writable p).
Proof. unfold Writable. repeat first [apply frame_os_Create|apply frame_os_Remove|frame_step]. Qed.
Lemma frame_RepoVersion ds p : frame ds (RepoVersion p).
Proof.
  unfold RepoVersion, CheckIpfsDir, repoVersion. repeat first [apply frame_os_ReadFile|frame_step].
Qed.
Lemma frame_checkInitialized ds p : frame ds (checkInitialized p).
Proof.
  unfold checkInitialized, isInitializedUnsynced, configIsInitialized. frame_tac.
Qed.
Lemma frame_openConfig ds r : frame ds (openConfig r).
Proof. unfold openConfig, Load. repeat first [apply frame_ReadConfigFile|frame_step]. Qed.
Lemma frame_openKeystore ds r : frame ds (openKeystore r).
Proof. unfold openKeystore. frame_tac. Qed.
Lemma frame_readSpec ds r : frame ds (readSpec r).
Proof. unfold readSpec. repeat first [apply frame_os_ReadFile|frame_step]. Qed.

Lemma frame_ds_Create root dsc : frame true (ds_Create root dsc).
Proof. intros s r s' E. unfold ds_Create in E. destruct (Create root dsc) as [[e|] o]; by simplify_eq/=. Qed.
Lemma frame_openDatastore r conf : frame true (openDatastore r conf).
Proof.
  unfold openDatastore. repeat first [apply frame_readSpec|apply frame_ds_Create|frame_step].
Qed.
Lemma frame_open_locked r : frame true (open_locked r).
Proof.
  unfold open_locked.
  repeat first [apply frame_RepoVersion|apply frame_Writable|apply frame_openConfig
               |apply frame_openDatastore|apply frame_openKeystore|frame_step].
Qed.

(** ** Opening *)

Lemma openDatastore_ok r conf s r' s' :
  openDatastore r conf s = (Ok r', s') ->
  open_ds s' = open_ds s ++ repo_ds r' /\ r' = with_ds (repo_ds r') r /\ locks s' = locks s.
Proof.
  intros E. destruct (frame_openDatastore _ _ _ _ _ E) as [L _]. unfold openDatastore in E.
  case_decide; [done|]. destruct (ds_Spec conf) as [spec|]; [|done].
  apply bind_ok in E as (dsc & s1 & E1 & E). injection E1 as _ <-.
  apply bind_ok in E as (old & s2 & E2 & E).
  destruct (frame_readSpec false _ _ _ _ E2) as [_ D2]. case_decide; [done|].
  apply bind_ok in E as (d & s3 & E3 & E). injection E as <- <-. simpl.
  unfold ds_Create in E3. destruct (Create (path r) dsc) as [[e|] o]; simplify_eq/=.
  rewrite D2 by done. done.
Qed.

Lemma open_locked_ok r s r' s' :
  open_locked r s = (Ok r', s') ->
  path r' = path r /\ configFilePath r' = configFilePath r /\ closed r' = closed r /\
  is_Some (config r') /\ open_ds s' = open_ds s ++ repo_ds r' /\
  (RepoVersion (path r) s).1 = Ok RepoVersionNumber.
Proof.
  unfold open_locked. intros E. apply bind_ok in E as (v & s1 & E1 & E).
  unfold try in E1. destruct (RepoVersion (path r) s) as [x s1'] eqn:V. injection E1 as -> ->.
  destruct v as [ver|e]; [|done].
  destruct (Z.ltb_spec ver RepoVersionNumber); [done|]. destruct (Z.ltb_spec RepoVersionNumber ver); [done|].
  apply bind_ok in E as ([] & s2 & E2 & E). apply bind_ok in E as (r3 & s3 & E3 & E).
  assert (Hr3 : exists conf, r3 = with_config conf r).
  { unfold openConfig in E3. apply bind_ok in E3 as (conf & s4 & _ & E3). injection E3 as <- _. eauto. }
  destruct Hr3 as [conf ->]. simpl config in E. cbv iota in E.
  apply bind_ok in E as (r4 & s4 & E4 & E). apply bind_ok in E as (r5 & s5 & E5 & E). injection E as <- <-.
  assert (r5 = r4) as ->.
  { unfold openKeystore in E5. apply bind_ok in E5 as (? & ? & _ & E5). by injection E5. }
  pose proof (frame_RepoVersion false _ _ _ _ V) as [_ D1].
  pose proof (frame_Writable false _ _ _ _ E2) as [_ D2].
  pose proof (frame_openConfig false _ _ _ _ E3) as [_ D3].
  pose proof (frame_openKeystore false _ _ _ _ E5) as [_ D5].
  apply openDatastore_ok in E4 as (D4 & R4 & _).
  assert (ver = RepoVersionNumber) as -> by lia.
  rewrite D5, D4, D3, D2, D1 by done. rewrite R4. simpl.
  destruct (_ || _); simpl; split_and!; eauto.
Qed.

(** C9: Opening takes the lock exactly when it succeeds: whatever fails on the
    way and whatever the faults of the operating system, a failed [open] leaves
    the set of held locks as it was, and a successful one adds the lock of this
    repository, which was free; the repository it returns is open, has a
    configuration and the expected version, and owns the datastores opened. *)
Theorem fsrepo_open_lock repoPath userConfig s res s' :
  open repoPath userConfig s = (res, s') ->
  match res with
  | Err _ => locks s' = locks s
  | Ok r => (Join (path r) LockFile ∉ locks s) /\
            locks s' = ({[ Join (path r) LockFile ]} ∪ locks s) /\
            closed r = false /\ is_Some (config r) /\ open_ds s' = open_ds s ++ repo_ds r
  end.
Proof.
  intros E. unfold open in E. unfold bind at 1 in E. unfold of_result in E.
  destruct (newFSRepo repoPath userConfig) as [r|e] eqn:N; [|by simplify_eq].
  assert (Hcl : closed r = false) by (unfold newFSRepo in N; repeat case_match; by simplify_eq).
  unfold bind at 1 in E. destruct (checkInitialized (path r) s) as [[[]|e] s1] eqn:C;
    destruct (frame_checkInitialized false _ _ _ _ C) as [L1 D1]; [|by simplify_eq].
  unfold bind at 1 in E. unfold lockfile_Lock in E. unfold bind in E.
  destruct (may_fail s1) as [[[]|e] s2] eqn:M; destruct (frame_may_fail false _ _ _ M) as [L2 D2];
    [|simplify_eq; congruence].
  case_decide as Hl; [simplify_eq; congruence|]. rewrite L2, L1 in Hl.
  destruct (open_locked r _) as [[r'|e] s3] eqn:O; pose proof (frame_open_locked _ _ _ _ O) as [L3 _];
    simpl in L3; rewrite L2, L1 in L3.
  - injection E as <- <-. apply open_locked_ok in O as (P & _ & Cl & Cf & D & _). simpl in D.
    rewrite D2, D1 in D by done. rewrite P, Cl. split_and!; auto.
  - injection E as <- <-. simpl. rewrite L3. set_solver.
Qed.

(** ** The configuration file *)

(** A disk on which nothing fails any more. *)
Definition quiet (s : disk) : Prop := faults s = [].

Lemma may_fail_quiet s : quiet s -> may_fail s = (Ok tt, s).
Proof. unfold quiet, may_fail, next_fault. by intros ->. Qed.

Lemma os_WriteString_quiet p c s : quiet s -> os_WriteString p c s = put_file p c s.
Proof. unfold quiet, os_WriteString, next_fault. by intros ->. Qed.

Lemma os_Create_quiet p s : quiet s -> os_Create p s = put_file p "" s.
Proof. intros Q. unfold os_Create, bind. by rewrite may_fail_quiet. Qed.

Lemma os_WriteFile_quiet p c s : quiet s -> os_WriteFile p c s = put_file p c s.
Proof.
  intros Q. unfold os_WriteFile, bind. rewrite os_Create_quiet by done. simpl.
  rewrite os_WriteString_quiet by done. unfold put_file. simpl. by rewrite insert_insert_eq.
Qed.

Lemma os_ReadFile_quiet p s : quiet s ->
  os_ReadFile p s = (match files s !! p with Some c => Ok c | None => Err ErrNotExist end, s).
Proof. intros Q. unfold os_ReadFile, bind. rewrite may_fail_quiet by done. by destruct (_ !! _). Qed.

Lemma WriteConfigFile_quiet f buf s : quiet s ->
  WriteConfigFile f (Ok buf) s
  = (Ok tt, Disk (<[f := buf]> (delete (atomic_tmp f) (files s))) (locks s) (open_ds s) []).
Proof.
  intros Q. unfold WriteConfigFile, bind, try, of_result. rewrite may_fail_quiet, os_Create_quiet by done.
  simpl. rewrite os_WriteString_quiet by done. unfold put_file. simpl.
  unfold os_Rename, bind. rewrite may_fail_quiet by done. simpl.
  rewrite lookup_insert_eq, insert_insert_eq, delete_insert_eq. by rewrite Q.
Qed.

(** A failed write replaces the file by what was written of it. *)
Lemma WriteConfigFile_torn f buf s e n :
  faults s = [None; None; Some (e, n)] ->
  WriteConfigFile f (Ok buf) s
  = (Err e, Disk (<[f := substring 0 n buf]> (delete (atomic_tmp f) (files s))) (locks s) (open_ds s) []).
Proof.
  intros Q. unfold WriteConfigFile, bind, try, of_result, may_fail, next_fault. rewrite Q. simpl.
  unfold os_Create, bind, may_fail, next_fault. simpl. unfold os_WriteString, next_fault. simpl.
  unfold os_Rename, bind, may_fail, next_fault. simpl.
  by rewrite lookup_insert_eq, insert_insert_eq, delete_insert_eq.
Qed.

Lemma ReadConfigFile_quiet {A} (dec : string -> result A) f s a s' : quiet s ->
  ReadConfigFile dec f s = (Ok a, s') -> s' = s /\ exists c, files s !! f = Some c /\ dec c = Ok a.
Proof.
  intros Q E. unfold ReadConfigFile in E. rewrite os_ReadFile_quiet in E by done.
  destruct (files s !! f) as [c|]; [|done]. destruct (dec c) eqn:D; simplify_eq. eauto.
Qed.

(** What the configuration file decodes to. *)
Definition config_map (r : FSRepo) (s : disk) : option object :=
  match files s !! configFilePath r with
  | Some c => match decode_map c with Ok m => Some m | Err _ => None end
  | None => None
  end.

(** What an operation does to the file at [p]. *)
Lemma may_fail_files s r s' : may_fail s = (r, s') -> files s' = files s.
Proof. unfold may_fail, next_fault. intros E. repeat case_match; by simplify_eq/=. Qed.

Lemma os_Create_other q p s r s' : os_Create q s = (r, s') -> p <> q -> files s' !! p = files s !! p.
Proof.
  unfold os_Create, bind. intros E Hn. destruct (may_fail s) as [[[]|] s1] eqn:M;
    apply may_fail_files in M; simplify_eq; [|by rewrite M].
  unfold put_file in E. simplify_eq/=. by rewrite lookup_insert_ne, M.
Qed.

Lemma os_WriteString_spec q c p s r s' :
  os_WriteString q c s = (r, s') -> p <> q ->
  files s' !! p = files s !! p /\ (r = Ok tt -> files s' !! q = Some c).
Proof.
  unfold os_WriteString, next_fault, put_file. intros E Hn.
  repeat case_match; simplify_eq/=; rewrite ?lookup_insert_eq, ?lookup_insert_ne by done; done.
Qed.

Lemma os_Rename_spec q p s r s' :
  os_Rename q p s = (r, s') -> p <> q ->
  match r with
  | Ok _ => files s' !! p = files s !! q
  | Err _ => files s' !! p = files s !! p
  end.
Proof.
  unfold os_Rename, bind. intros E Hn. destruct (may_fail s) as [[[]|] s1] eqn:M;
    apply may_fail_files in M; rewrite <- M in *; [|by simplify_eq].
  destruct (files s1 !! q) eqn:F; simplify_eq/=; [|done]. by rewrite lookup_insert_eq.
Qed.

Lemma os_Remove_other q p s r s' : os_Remove q s = (r, s') -> p <> q -> files s' !! p = files s !! p.
Proof.
  unfold os_Remove, bind. intros E Hn. destruct (may_fail s) as [[[]|] s1] eqn:M;
    apply may_fail_files in M; rewrite <- M in *; [|by simplify_eq].
  unfold drop_file in E. destruct (files s1 !! q); simplify_eq/=; [|done]. by rewrite lookup_delete_ne.
Qed.

Lemma ReadConfigFile_ok {A} (dec : string -> result A) f s a s' :
  ReadConfigFile dec f s = (Ok a, s') -> files s' = files s /\ exists c, files s !! f = Some c /\ dec c = Ok a.
Proof.
  unfold ReadConfigFile, os_ReadFile, bind. intros E. destruct (may_fail s) as [[[]|] s1] eqn:M; apply may_fail_files in M; [|done].
  rewrite <- M. destruct (files s1 !! f) as [c|]; [|done]. destruct (dec c) eqn:D; simplify_eq. eauto.
Qed.

Lemma atomic_tmp_ne f : f <> atomic_tmp f.
Proof.
  unfold atomic_tmp. intros E. assert (L : String.length f = String.length (f +:+ ".tmp")) by (by rewrite <- E).
  rewrite string_app_length in L. cbn in L. lia.
Qed.

(** A write that reports success has written the file or, when the rename of the
    deferred [Close] failed, has left it as it was. *)
Lemma WriteConfigFile_ok f encoded s s' :
  WriteConfigFile f encoded s = (Ok tt, s') ->
  exists buf, encoded = Ok buf /\ (files s' !! f = Some buf \/ faults s <> [] /\ files s' !! f = files s !! f).
Proof.
  intros E. destruct encoded as [buf|e].
  2: { unfold WriteConfigFile in E. repeat (apply bind_ok in E as (? & ? & ? & E)). unfold try, bind, of_result in *. by simplify_eq. }
  exists buf. split; [done|]. destruct (decide (faults s = [])) as [Q|Q].
  { rewrite WriteConfigFile_quiet in E by done. simplify_eq/=. left. apply lookup_insert_eq. }
  pose proof (atomic_tmp_ne f) as Hne. unfold WriteConfigFile in E.
  apply bind_ok in E as ([] & s1 & M & E). apply may_fail_files in M. apply bind_ok in E as ([] & s2 & C & E).
  apply (os_Create_other _ f) in C; [|done]. apply bind_ok in E as (r & s3 & T & E). apply bind_ok in E as (r2 & s4 & T2 & E).
  unfold of_result in E. simplify_eq/=. unfold try, bind at 1, of_result in T.
  destruct (os_WriteString (atomic_tmp f) buf s2) as [rw s3'] eqn:Wr. simplify_eq. apply (os_WriteString_spec _ _ f) in Wr as [W1 W2]; [|done].
  unfold try in T2. destruct (os_Rename (atomic_tmp f) f s3) as [rr s4'] eqn:Rn. simplify_eq. apply os_Rename_spec in Rn; [|done].
  destruct r2; rewrite Rn; [left; by apply W2|right; split; [done|congruence]].
Qed.

(** The path of a key is neither above nor below another. *)
Definition apart (k1 k2 : string) : Prop :=
  ~ parts_of k1 `prefix_of` parts_of k2 /\ ~ parts_of k2 `prefix_of` parts_of k1.

(** The phases of a successful [SetConfigKey]. *)
Lemma SetConfigKey_ok key value r s r' s' :
  wf value -> SetConfigKey key value r s = (Ok tt, r', s') ->
  exists m pk m1 m2 conf,
    config_map r s = Some m /\ MapGetKV m PrivKeySelector = Ok pk /\
    MapSetKV m key value = (None, m1) /\ MapSetKV m1 PrivKeySelector pk = (None, m2) /\
    FromMap m2 = Ok conf /\ r' = with_config conf r /\
    (config_map r s' = Some m2 \/ faults s <> [] /\ config_map r s' = Some m) /\
    locks s' = locks s /\ open_ds s' = open_ds s.
Proof.
  intros Wv E. unfold SetConfigKey in E. destruct (closed r); [done|].
  destruct (ReadConfigFile decode_map (configFilePath r) s) as [[m|] s1] eqn:R; [|done].
  destruct (frame_ReadConfigFile false _ _ _ _ _ R) as [L1 D1]. pose proof R as R'.
  apply ReadConfigFile_ok in R as (F1 & c & Hc & Dc).
  destruct (MapGetKV m PrivKeySelector) as [pk|] eqn:G; [|done].
  destruct (MapSetKV m key value) as [[e|] m1] eqn:S1; [done|].
  destruct (MapSetKV m1 PrivKeySelector pk) as [[e|] m2] eqn:S2; [done|].
  destruct (FromMap m2) as [conf|] eqn:F; [|done].
  destruct (WriteConfigFile _ _ s1) as [[[]|] s2] eqn:Wr; [|done]. simplify_eq.
  destruct (frame_WriteConfigFile false _ _ _ _ _ Wr) as [L2 D2]. apply WriteConfigFile_ok in Wr as (buf & Mb & Hw).
  pose proof (decode_map_wf _ _ Dc) as W. assert (W2 : wf (JObj m2)).
  { apply MapGetKV_path in G. pose proof (get_path_wf _ _ _ W G).
    refine (MapSetKV_wf m1 PrivKeySelector pk _ m2 _ _ S2); [|done]. exact (MapSetKV_wf m key value _ m1 W Wv S1). }
  exists m, pk, m1, m2, conf. split_and!; try done; [by unfold config_map; rewrite Hc, Dc| |congruence|].
  - unfold config_map. destruct Hw as [Hf|[Hq Hf]]; cbn [configFilePath with_config] in Hf; rewrite Hf.
    + left. by rewrite (decode_Marshal_map _ _ W2 Mb).
    + right. rewrite F1, Hc, Dc. split; [|done]. intros Q. apply Hq. apply (ReadConfigFile_quiet _ _ _ _ _ Q) in R' as [-> _]. done.
  - rewrite D2, D1 by done. done.
Qed.

Lemma get_path_app v p q : get_path v (p ++ q) = match get_path v p with Some w => get_path w q | None => None end.
Proof.
  revert v. induction p as [|k p IH]; intros v; [done|]. cbn. destruct v as [| | | | |m]; try done. destruct (mlookup k m); [apply IH|done].
Qed.


(** A successful [SetConfig], whatever fails, and where nothing does. *)
Lemma SetConfig_any updated r s r' s' :
  SetConfig updated r s = (Ok tt, r', s') ->
  exists m u, config_map r s = Some m /\ ToMap updated = Ok u /\ wf (JObj u) /\ r' = with_config updated r /\
    (config_map r s' = Some (MapMergeDeep m u) \/
     faults s <> [] /\ files s' !! configFilePath r = files s !! configFilePath r).
Proof.
  intros E. unfold SetConfig in E.
  destruct (ReadConfigFile decode_map (configFilePath r) s) as [[m|] s1] eqn:R; [|done].
  pose proof R as R'. apply ReadConfigFile_ok in R as (F1 & c & Hc & Dc).
  destruct (ToMap updated) as [u|] eqn:T; [|done].
  assert (Wu : wf (JObj u)).
  { unfold ToMap in T. destruct (Marshal_config updated); [|done].
    destruct (decode_map a) eqn:D; simplify_eq. by eapply decode_map_wf. }
  assert (Wm : wf (JObj (MapMergeDeep m u))) by (apply MapMergeDeep_wf; [by eapply decode_map_wf|done]).
  destruct (WriteConfigFile _ _ s1) as [[[]|] s2] eqn:Wr; [|done]. simplify_eq. apply WriteConfigFile_ok in Wr as (buf & Mb & Hw).
  exists m, u. unfold config_map. rewrite Hc, Dc. split_and!; try done. destruct Hw as [Hf|[Hq Hf]].
  - left. by rewrite Hf, (decode_Marshal_map _ _ Wm Mb).
  - right. split; [|congruence]. intros Q. apply Hq. by apply (ReadConfigFile_quiet _ _ _ _ _ Q) in R' as [-> _].
Qed.

Lemma SetConfig_written updated r s r' s' m :
  quiet s -> SetConfig updated r s = (Ok tt, r', s') -> config_map r s = Some m ->
  exists u, ToMap updated = Ok u /\ wf (JObj u) /\ config r' = Some updated /\ config_map r' s' = Some (MapMergeDeep m u).
Proof.
  intros Q E C. apply SetConfig_any in E as (m' & u & C' & T & W & -> & [Hm|[[] _]]); [|done]. rewrite C in C'. simplify_eq. by exists u.
Qed.

(** Saving a configuration keeps what the program does not know: on a disk
    that does not fail, after a successful [SetConfig] the file has every value of
    the updated configuration, still has each key of the old file that the
    updated configuration leaves alone, and has no other values; the
    configuration in memory is the updated one. *)
Theorem set_config_merges updated r s r' s' m :
  quiet s -> SetConfig updated r s = (Ok tt, r', s') -> config_map r s = Some m ->
  exists u m', ToMap updated = Ok u /\ config r' = Some updated /\
    config_map r' s' = Some m' /\
    (forall key v, MapGetKV u key = Ok v -> is_obj v = false -> MapGetKV m' key = Ok v) /\
    (forall key v, MapGetKV m key = Ok v ->
       (forall p x, p `prefix_of` parts_of key -> get_path (JObj u) p = Some x ->
          is_obj x = true /\ p <> parts_of key) -> MapGetKV m' key = Ok v) /\
    (forall key v, MapGetKV m' key = Ok v -> is_obj v = false ->
       MapGetKV m key = Ok v \/ MapGetKV u key = Ok v).
Proof.
  intros Q E C. destruct (SetConfig_written updated r s r' s' m Q E C) as (u & T & Wu & Hc & C').
  exists u, (MapMergeDeep m u). split_and!; try done; intros key v; rewrite !MapGetKV_path.
  - intros. by apply merge_right_leaf.
  - intros. apply merge_left_kept; auto. apply parts_of_ne.
  - intros. by apply merge_leaf_origin.
Qed.

(** Saving the configuration is not atomic against write errors: when the
    write of the temporary file fails after [n] bytes, [WriteConfigFile] returns
    the error and yet replaces the configuration file by those [n] bytes, since
    the deferred [Close] renames the temporary file in any case. *)
Theorem write_config_error_replaces_file f buf s e n :
  faults s = [None; None; Some (e, n)] ->
  exists s', WriteConfigFile f (Ok buf) s = (Err e, s') /\ files s' !! f = Some (substring 0 n buf).
Proof.
  intros Q. eexists. split; [by apply WriteConfigFile_torn|]. simpl. by rewrite lookup_insert_eq.
Qed.

(** The error of the rename of the deferred [Close] is dropped: saving reports
    success and the configuration file is the old one. *)
Theorem write_config_drops_rename_error f buf s e n :
  faults s = [None; None; None; Some (e, n)] ->
  exists s', WriteConfigFile f (Ok buf) s = (Ok tt, s') /\ files s' !! f = files s !! f.
Proof.
  intros Q. unfold WriteConfigFile, bind, try, of_result, may_fail, next_fault. rewrite Q. simpl.
  unfold os_Create, bind, may_fail, next_fault. simpl. unfold os_WriteString, next_fault. simpl.
  unfold os_Rename, bind, may_fail, next_fault. simpl. eexists. split; [done|]. simpl. pose proof (atomic_tmp_ne f).
  by rewrite !lookup_insert_ne by done.
Qed.

(** ** Initialization *)

Lemma Path_plain p n : p <> "" -> Path p n = Ok (Join p n).
Proof. intros Hp. unfold Path. by rewrite decide_False. Qed.

Lemma Filename_default p : p <> "" -> Filename p "" = Ok (Join p DefaultConfigFile).
Proof. intros Hp. unfold Filename. rewrite decide_True by done. by apply Path_plain. Qed.

Lemma IpfsDir_plain p : p <> "" -> IpfsDir p = Expand p.
Proof.
  intros Hp. unfold IpfsDir. destruct (decide (p = "")) as [|_]; [done|]. by destruct (decide (p = "")).
Qed.

Lemma configIsInitialized_plain p s : p <> "" ->
  configIsInitialized p s = (Ok (bool_decide (is_Some (files s !! Join p DefaultConfigFile))), s).
Proof. intros Hp. unfold configIsInitialized. by rewrite Filename_default. Qed.

(** The disk after [Init]. *)
Definition initialized (p buf spec : string) (s : disk) : disk :=
  Disk (<[Join p versionFile := FormatInt RepoVersionNumber +:+ newline]>
         (<[Join p specFn := spec]>
           (<[Join p DefaultConfigFile := buf]> (delete (atomic_tmp (Join p DefaultConfigFile)) (files s)))))
       (locks s) (open_ds s) [].

Lemma plain_names : plain_name DefaultConfigFile /\ plain_name specFn /\ plain_name versionFile /\
  plain_name "._check_writable".
Proof. unfold plain_name. by vm_compute. Qed.

Ltac diff_files Hp :=
  let E := fresh in intros E; apply Join_inj in E; [discriminate|exact Hp|apply plain_names|apply plain_names].

Lemma Init_quiet p conf buf spec dsc s :
  quiet s -> p <> "" -> Expand p = Ok p ->
  files s !! Join p DefaultConfigFile = None ->
  files s !! Join p specFn = None -> atomic_tmp (Join p DefaultConfigFile) <> Join p specFn ->
  Marshal_config conf = Ok buf -> ds_Spec conf = Some spec -> parse_spec spec = Ok dsc ->
  Init p conf s = (Ok tt, initialized p buf (spec_String dsc) s).
Proof.
  intros Q Hp He Hc Hs Ht Mb Sp Pd. unfold Init, isInitializedUnsynced.
  rewrite (bind_run _ _ _ _ _ (configIsInitialized_plain p s Hp)). rewrite Hc.
  rewrite bool_decide_eq_false_2 by (by intros []).
  assert (Hic : initConfig p conf s = (Ok tt, Disk (<[Join p DefaultConfigFile := buf]>
     (delete (atomic_tmp (Join p DefaultConfigFile)) (files s))) (locks s) (open_ds s) [])).
  { unfold initConfig. rewrite (bind_run _ _ _ _ _ (configIsInitialized_plain p s Hp)). rewrite Hc.
    rewrite bool_decide_eq_false_2 by (by intros []).
    rewrite Filename_default by done. unfold bind, of_result. rewrite Mb. by apply WriteConfigFile_quiet. }
  rewrite (bind_run _ _ _ _ _ Hic). clear Hic. set (s1 := Disk _ _ _ []).
  assert (Q1 : quiet s1) by done.
  assert (His : initSpec p (ds_Spec conf) s1
    = (Ok tt, Disk (<[Join p specFn := spec_String dsc]> (files s1)) (locks s) (open_ds s) [])).
  { unfold initSpec. rewrite Path_plain by done. unfold bind at 1, of_result at 1. unfold bind at 1, FileExists.
    rewrite bool_decide_eq_false_2.
    - rewrite Sp. simpl default. rewrite Pd. unfold bind, of_result. rewrite os_WriteFile_quiet by done. done.
    - simpl. rewrite lookup_insert_ne by diff_files Hp. rewrite lookup_delete_ne by done. rewrite Hs. by intros []. }
  rewrite (bind_run _ _ _ _ _ His). unfold WriteRepoVersion. rewrite IpfsDir_plain, He by done.
  unfold bind, of_result. by rewrite os_WriteFile_quiet.
Qed.

Lemma RepoVersion_initialized p buf spec s :
  p <> "" -> Expand p = Ok p ->
  forall l, RepoVersion p (Disk (files (initialized p buf spec s)) l (open_ds s) [])
  = (Ok RepoVersionNumber, Disk (files (initialized p buf spec s)) l (open_ds s) []).
Proof.
  intros Hp He l. unfold RepoVersion, CheckIpfsDir, repoVersion. rewrite IpfsDir_plain, He by done.
  unfold bind, of_result. rewrite may_fail_quiet by done. simpl ret.
  unfold ret. rewrite os_ReadFile_quiet by done. simpl files. by rewrite lookup_insert_eq.
Qed.

Lemma os_Remove_quiet p c s : quiet s -> files s !! p = Some c -> os_Remove p s = drop_file p s.
Proof. intros Q E. unfold os_Remove, bind. rewrite may_fail_quiet by done. by rewrite E. Qed.

Lemma Writable_quiet p s : quiet s ->
  Writable p s = (Ok tt, Disk (delete (Join p "._check_writable") (files s)) (locks s) (open_ds s) []).
Proof.
  intros Q. unfold Writable, bind, try. rewrite may_fail_quiet by done.
  rewrite os_Create_quiet by done. unfold put_file.
  erewrite os_Remove_quiet; [|done|simpl; apply lookup_insert_eq].
  unfold drop_file. simpl. rewrite delete_insert_eq. by rewrite Q.
Qed.

Lemma openConfig_quiet r s buf conf :
  quiet s -> files s !! configFilePath r = Some buf -> decode_config buf = Ok conf ->
  openConfig r s = (Ok (with_config conf r), s).
Proof.
  intros Q Hf D. unfold openConfig, Load, ReadConfigFile, bind. rewrite os_ReadFile_quiet, Hf by done.
  by rewrite D.
Qed.

Lemma openDatastore_quiet r conf spec dsc opened s :
  quiet s -> path r <> "" -> ds_Type conf = "" -> ds_Path conf = "" -> ds_Spec conf = Some spec ->
  parse_spec spec = Ok dsc -> Create (path r) dsc = (None, opened) ->
  files s !! Join (path r) specFn = Some (spec_String dsc) ->
  openDatastore r conf s
  = (Ok (with_ds opened r), Disk (files s) (locks s) (open_ds s ++ opened) []).
Proof.
  intros Q Hp Ht Hpa Hsp Pd Hc Hf. unfold openDatastore. rewrite Ht, Hpa, Hsp.
  rewrite decide_False by naive_solver. rewrite Pd. unfold bind at 1, of_result at 1.
  unfold readSpec. rewrite Path_plain by done.
  unfold bind, of_result. rewrite os_ReadFile_quiet, Hf by done. simpl.
  assert (TrimSpace (spec_String dsc) = spec_String dsc) as -> by apply TrimSpace_idemp.
  rewrite decide_False by naive_solver. unfold ds_Create. rewrite Hc. by rewrite Q.
Qed.

Definition fresh_repo (p : string) : FSRepo := MkFSRepo false p (Join p DefaultConfigFile) None [] None.

Lemma open_locked_quiet p conf buf spec dsc opened s :
  quiet s -> p <> "" -> RepoVersion p s = (Ok RepoVersionNumber, s) ->
  files s !! Join p DefaultConfigFile = Some buf -> decode_config buf = Ok conf ->
  files s !! Join p specFn = Some (spec_String dsc) ->
  ds_Type conf = "" -> ds_Path conf = "" -> ds_Spec conf = Some spec -> parse_spec spec = Ok dsc ->
  Create p dsc = (None, opened) ->
  exists r s', open_locked (fresh_repo p) s = (Ok r, s') /\
    path r = p /\ config r = Some conf /\ repo_ds r = opened.
Proof.
  intros Q Hp V Fc Dc Fs Ty Pa Sp Pd Cr. unfold open_locked. simpl path.
  unfold bind at 1, try. rewrite V. rewrite Z.ltb_irrefl. cbv iota.
  rewrite (bind_run _ _ _ _ _ (Writable_quiet p s Q)). set (s1 := Disk _ _ _ []).
  assert (F1 : files s1 !! Join p DefaultConfigFile = Some buf).
  { simpl. rewrite lookup_delete_ne by diff_files Hp. done. }
  assert (F2 : files s1 !! Join p specFn = Some (spec_String dsc)).
  { simpl. rewrite lookup_delete_ne by diff_files Hp. done. }
  rewrite (bind_run _ _ _ _ _ (openConfig_quiet (fresh_repo p) s1 buf conf eq_refl F1 Dc)).
  change (config (with_config conf (fresh_repo p))) with (Some conf). cbv iota.
  rewrite (bind_run _ _ _ _ _ (openDatastore_quiet (with_config conf (fresh_repo p)) conf spec dsc opened s1
    eq_refl Hp Ty Pa Sp Pd Cr F2)).
  unfold openKeystore, bind. rewrite may_fail_quiet by done. unfold ret. do 2 eexists. split; [done|].
  by destruct (_ || _).
Qed.



(** ** What opening leaves alone *)

(** [m] leaves the file at [p] as it is, and makes no faults. *)
Definition calm (p : string) {A} (m : io A) : Prop := forall s r s', m s = (r, s') ->
  files s' !! p = files s !! p /\ (faults s = [] -> faults s' = []).

Lemma calm_bind p {A B} (m : io A) (k : A -> io B) : calm p m -> (forall a, calm p (k a)) -> calm p (bind m k).
Proof.
  intros Cm Ck s r s' E. unfold bind in E. destruct (m s) as [[a|e] s1] eqn:M; [|simplify_eq; by apply (Cm _ _ _ M)].
  destruct (Cm _ _ _ M) as [F1 Q1]. destruct (Ck _ _ _ _ E) as [F2 Q2]. split; [congruence|auto].
Qed.
Lemma calm_try p {A} (m : io A) : calm p m -> calm p (try m).
Proof. intros C s r s' E. unfold try in E. destruct (m s) as [x s1] eqn:M. simplify_eq. by apply (C _ _ _ M). Qed.
Lemma calm_fn p {A} (f : disk -> result A * disk) :
  (forall s, files (f s).2 !! p = files s !! p /\ faults (f s).2 = faults s) -> calm p f.
Proof. intros F s r s' E. specialize (F s). rewrite E in F. cbn in F. destruct F as [F1 F2]. split; [done|congruence]. Qed.
Lemma calm_ret p {A} (a : A) : calm p (ret a). Proof. by apply calm_fn. Qed.
Lemma calm_throw p {A} e : calm p (throw (A := A) e). Proof. by apply calm_fn. Qed.
Lemma calm_of_result p {A} (x : result A) : calm p (of_result x). Proof. by apply calm_fn. Qed.
Lemma calm_FileExists p q : calm p (FileExists q). Proof. by apply calm_fn. Qed.
Lemma calm_may_fail p : calm p may_fail.
Proof. intros s r s' E. unfold may_fail, next_fault in E. destruct (faults s) as [|[[]|]] eqn:Q; simplify_eq/=; (split; [done|by intros]). Qed.
Lemma calm_os_ReadFile p q : calm p (os_ReadFile q).
Proof. unfold os_ReadFile. apply calm_bind; [apply calm_may_fail|intros _]. apply calm_fn. intros s. by destruct (files s !! q). Qed.
Lemma calm_os_Create p q : p <> q -> calm p (os_Create q).
Proof. intros Hn. unfold os_Create. apply calm_bind; [apply calm_may_fail|intros _]. apply calm_fn. intros s. cbn. by rewrite lookup_insert_ne. Qed.
Lemma calm_os_Remove p q : p <> q -> calm p (os_Remove q).
Proof.
  intros Hn. unfold os_Remove. apply calm_bind; [apply calm_may_fail|intros _]. apply calm_fn. intros s.
  destruct (files s !! q); [|done]. cbn. by rewrite lookup_delete_ne.
Qed.

Ltac calm_step := first
  [ apply calm_ret | apply calm_throw | apply calm_of_result | apply calm_may_fail | apply calm_os_ReadFile | apply calm_FileExists
  | (apply calm_os_Create; done) | (apply calm_os_Remove; done) | apply calm_try | (apply calm_bind; [|intros ?])
  | (apply calm_fn; intros ?; by repeat case_match) | case_match ].
Ltac calm_tac := repeat calm_step.

Lemma calm_checkInitialized p q : calm p (checkInitialized q).
Proof. unfold checkInitialized, isInitializedUnsynced, configIsInitialized. calm_tac. Qed.
Lemma calm_Writable p q : p <> Join q "._check_writable" -> calm p (Writable q).
Proof. intros Hn. unfold Writable. calm_tac. Qed.
Lemma calm_RepoVersion p q : calm p (RepoVersion q).
Proof. unfold RepoVersion, CheckIpfsDir, repoVersion. calm_tac. Qed.
Lemma calm_ReadConfigFile p {A} (dec : string -> result A) f : calm p (ReadConfigFile dec f).
Proof. intros s r s' E. unfold ReadConfigFile in E. destruct (os_ReadFile f s) as [[c|e] s1] eqn:R; apply (calm_os_ReadFile p) in R; by simplify_eq. Qed.
Lemma calm_openConfig p r : calm p (openConfig r).
Proof. unfold openConfig, Load. apply calm_bind; [apply calm_ReadConfigFile|intros; calm_tac]. Qed.
Lemma calm_openDatastore p r conf : calm p (openDatastore r conf).
Proof.
  unfold openDatastore, readSpec. calm_tac. apply calm_fn. intros s. unfold ds_Create. by destruct (Create _ _).
Qed.
Lemma calm_openKeystore p r : calm p (openKeystore r). Proof. unfold openKeystore. calm_tac. Qed.

(** Opening reads the configuration that is in the file, and leaves the file. *)
Lemma open_locked_calm p r s res s' :
  p <> Join (path r) "._check_writable" -> open_locked r s = (res, s') ->
  files s' !! p = files s !! p /\ (faults s = [] -> faults s' = []).
Proof.
  intros Hn. revert s res s'. change (calm p (open_locked r)). unfold open_locked.
  repeat first [apply calm_RepoVersion|apply calm_Writable; done|apply calm_openConfig|apply calm_openDatastore|apply calm_openKeystore|calm_step].
Qed.

Lemma open_locked_config r s r' s' :
  configFilePath r <> Join (path r) "._check_writable" -> open_locked r s = (Ok r', s') ->
  exists buf conf, files s !! configFilePath r = Some buf /\ decode_config buf = Ok conf /\ config r' = Some conf.
Proof.
  intros Hn E. unfold open_locked in E. apply bind_ok in E as (v & s1 & E1 & E).
  apply (calm_try (configFilePath r) _ (calm_RepoVersion _ _)) in E1 as [F1 _].
  destruct v as [ver|e]; [|done]. destruct (ver <? RepoVersionNumber); [done|]. destruct (RepoVersionNumber <? ver); [done|].
  apply bind_ok in E as ([] & s2 & E2 & E). apply (calm_Writable (configFilePath r) _ Hn) in E2 as [F2 _].
  apply bind_ok in E as (r3 & s3 & E3 & E). unfold openConfig in E3. apply bind_ok in E3 as (conf & s4 & E4 & E3). unfold ret in E3. simplify_eq.
  apply ReadConfigFile_ok in E4 as (_ & buf & Hb & Hd). cbn [config with_config] in E.
  apply bind_ok in E as (r4 & s5 & E5 & E). apply openDatastore_ok in E5 as (_ & R4 & _).
  apply bind_ok in E as (r5 & s6 & E6 & E). unfold openKeystore in E6. apply bind_ok in E6 as (? & ? & _ & E6). unfold ret in *. simplify_eq.
  exists buf, conf. split; [congruence|]. split; [done|]. rewrite R4. by destruct (_ || _).
Qed.

Lemma Join_last d n : plain_name n -> exists l, split_on slash (Join d n) = l ++ [n].
Proof.
  intros Hn. destruct (decide (d = "")) as [-> |Hd]; [|rewrite (split_Join d n Hd Hn); eexists; by rewrite (assoc (++))].
  exists []. destruct Hn as (Hs & H1 & H2 & H3). assert (E : Join "" n = n); [|by rewrite E].
  unfold Join. destruct n as [|c n]; [done|]. unfold Clean, elements_of. rewrite Hs, filter_cons, decide_True by done. rewrite filter_nil.
  assert (Ha : IsAbs (String c n) = false).
  { cbn [IsAbs]. destruct (Ascii.eqb c slash) eqn:Ec; [|done]. cbn [split_on] in Hs. rewrite Ec in Hs. injection Hs as _ Hs. by apply split_on_nonempty in Hs. }
  rewrite Ha. cbn [resolve]. by rewrite decide_False.
Qed.
Lemma Join_names_differ d1 d2 n1 n2 : plain_name n1 -> plain_name n2 -> n1 <> n2 -> Join d1 n1 <> Join d2 n2.
Proof.
  intros P1 P2 Hn E. destruct (Join_last d1 n1 P1) as [l1 S1]. destruct (Join_last d2 n2 P2) as [l2 S2]. rewrite E, S2 in S1.
  apply app_inj_2 in S1 as [_ [= ?]]; [|done]. by destruct Hn.
Qed.

Lemma Filename_config root cf : Filename root "" = Ok cf -> exists d, cf = Join d DefaultConfigFile.
Proof.
  unfold Filename, Path. rewrite decide_True by done. case_decide; [|intros [= <-]; eauto]. destruct PathRoot; [intros [= <-]; eauto|done].
Qed.

Lemma config_file_apart root cf d n : Filename root "" = Ok cf -> plain_name n -> n <> DefaultConfigFile -> cf <> Join d n.
Proof. intros [d' ->]%Filename_config Hp Hn. apply Join_names_differ; [apply plain_names|done|done]. Qed.

(** The repository [open] gives has the configuration of the file. *)
Lemma open_config root cf s res s' :
  Filename root "" = Ok cf -> open root "" s = (res, s') ->
  files s' !! cf = files s !! cf /\ (faults s = [] -> faults s' = []) /\
  match res with
  | Ok r => configFilePath r = cf /\ closed r = false /\
      exists buf conf, files s !! cf = Some buf /\ decode_config buf = Ok conf /\ config r = Some conf
  | Err _ => True
  end.
Proof.
  intros Hf E. unfold open, newFSRepo in E. unfold bind at 1, of_result in E. rewrite Hf in E. destruct (Expand (Clean root)) as [p|e]; [|by simplify_eq].
  set (r0 := MkFSRepo false p cf None [] None) in *. unfold bind at 1 in E. destruct (checkInitialized (path r0) s) as [[[]|e] s1] eqn:C;
    apply (calm_checkInitialized cf) in C as [F1 Q1]; [|simplify_eq; auto].
  unfold bind at 1, lockfile_Lock, bind in E. destruct (may_fail s1) as [[[]|e] s2] eqn:M; apply (calm_may_fail cf) in M as [F2 Q2];
    [|simplify_eq; split; [congruence|auto]].
  case_decide; [simplify_eq; split; [congruence|auto]|]. cbn in E.
  assert (Hw : cf <> Join (path r0) "._check_writable") by (apply (config_file_apart root); [done|apply plain_names|done]).
  destruct (open_locked r0 _) as [[r'|e] s3] eqn:O; pose proof (open_locked_calm cf r0 _ _ _ Hw O) as [F3 Q3]; cbn in F3, Q3; simplify_eq.
  - split; [congruence|]. split; [auto|]. pose proof O as O'. apply open_locked_ok in O as (_ & P & Cl & _).
    apply open_locked_config in O' as (buf & conf & Hb & Hd & Hc); [|done]. cbn in Hb. split_and!; [done|done|].
    exists buf, conf. split_and!; [congruence|done|done].
  - cbn. split; [congruence|]. split; [auto|done].
Qed.

Lemma Close_calm cf root r s res r' s' : Filename root "" = Ok cf -> Close r s = (res, r', s') -> files s' !! cf = files s !! cf.
Proof.
  intros Hf E. unfold Close in E. destruct (closed r); [by simplify_eq|].
  assert (H1 : cf <> Join (path r) apiFile) by (apply (config_file_apart root); [done|by vm_compute|done]).
  assert (H2 : cf <> Join (path r) gatewayFile) by (apply (config_file_apart root); [done|by vm_compute|done]).
  destruct (os_Remove (Join (path r) apiFile) s) as [x1 s1] eqn:E1. apply (calm_os_Remove cf _ H1) in E1 as [F1 _]. cbn in E.
  destruct (os_Remove (Join (path r) gatewayFile) s1) as [x2 s2] eqn:E2. apply (calm_os_Remove cf _ H2) in E2 as [F2 _]. cbn in E.
  destruct (may_fail s2) as [[[]|e] s3] eqn:E3; apply (calm_may_fail cf) in E3 as [F3 _]; [|simplify_eq; congruence].
  destruct (may_fail _) as [x4 s4] eqn:E4. apply (calm_may_fail cf) in E4 as [F4 _]. cbn in F4. simplify_eq. congruence.
Qed.

(** ** Addresses *)

Definition api_tmp (r : FSRepo) : string := Join (path r) ("." +:+ apiFile +:+ ".tmp").

Lemma api_files_differ r : path r <> "" -> api_tmp r <> Join (path r) apiFile.
Proof. intros Hp E. apply Join_inj in E; [discriminate|done|by vm_compute..]. Qed.

(** Publishing the API address is atomic: whatever fails on the way,
    [SetAPIAddr] leaves the old [api] file or the complete new address, the new
    one exactly when it succeeds, and then [APIAddr] of a clean path reads the
    same address back (addresses have no surrounding white space and are shorter
    than 2048 bytes). *)
Theorem api_addr_atomic r addr s res s' :
  path r <> "" -> SetAPIAddr r addr s = (res, s') ->
  (res = Ok tt -> files s' !! Join (path r) apiFile = Some (ma_String addr)) /\
  (res <> Ok tt -> files s' !! Join (path r) apiFile = files s !! Join (path r) apiFile) /\
  (res = Ok tt -> Clean (path r) = path r -> quiet s' ->
   (String.length (ma_String addr) < 2048)%nat -> TrimSpace (ma_String addr) = ma_String addr ->
   APIAddr (path r) s' = (Ok addr, s')).
Proof.
  intros Hp E. pose proof (api_files_differ r Hp) as Hne. unfold SetAPIAddr in E. fold (api_tmp r) in E.
  set (api := Join (path r) apiFile) in *.
  assert (Main : (res = Ok tt /\ files s' !! api = Some (ma_String addr)) \/
                 (res <> Ok tt /\ files s' !! api = files s !! api)).
  { unfold bind at 1 in E. destruct (os_Create (api_tmp r) s) as [[[]|e1] s1] eqn:C;
      apply (os_Create_other _ api) in C; [|done|simplify_eq; by right|done]. rewrite <- C.
    unfold bind at 1 in E. destruct (os_WriteString (api_tmp r) _ s1) as [[[]|e2] s2] eqn:W;
      apply (os_WriteString_spec _ _ api) in W as [W1 W2]; [|done|simplify_eq; by right|done].
    rewrite <- W1. specialize (W2 eq_refl).
    unfold bind at 1 in E. destruct (may_fail s2) as [[[]|e3] s3] eqn:M;
      apply may_fail_files in M; rewrite <- M in *; [|simplify_eq; by right].
    unfold bind at 1, try in E. destruct (os_Rename (api_tmp r) api s3) as [[[]|e4] s4] eqn:R;
      apply os_Rename_spec in R; try done.
    - unfold ret in E. simplify_eq. left. by rewrite R.
    - unfold bind, throw in E. destruct (os_Remove (api_tmp r) s4) as [r5 s5] eqn:Rm.
      apply (os_Remove_other _ api) in Rm; [|done]. simplify_eq. right. split; [done|congruence]. }
  split_and!.
  - intros ->. naive_solver.
  - naive_solver.
  - intros -> Hcl Q Hlen Htr. destruct Main as [[_ F]|[]]; [|done].
    unfold APIAddr. rewrite Hcl, os_ReadFile_quiet by done. fold api. rewrite F.
    rewrite substring_whole by lia. rewrite decide_False by lia. by rewrite Htr, NewMultiaddr_String.
Qed.

(** ** Closing *)

(** Closing releases everything or nothing: whatever fails, after [Close] of
    an open repository either it is marked closed, its lock is released and none
    of its datastores is open any more, or it is still open, holds its lock and
    its datastores, and the call returned an error; a closed repository refuses to
    be closed again and to read or write configuration keys. *)
Theorem fsrepo_close r s res r' s' :
  closed r = false -> Close r s = (res, r', s') ->
  (closed r' = true /\ locks s' = (locks s ∖ {[ Join (path r) LockFile ]}) /\
   open_ds s' = filter (fun d => d ∉ repo_ds r) (open_ds s) /\
   (forall s2, Close r' s2 = (Err "repo is closed", r', s2)) /\
   (forall key v s2, SetConfigKey key v r' s2 = (Err "repo is closed", r', s2)) /\
   (forall key s2, GetConfigKey r' key s2 = (Err "repo is closed", s2))) \/
  (r' = r /\ (exists e, res = Err e) /\ locks s' = locks s /\ open_ds s' = open_ds s).
Proof.
  intros Hc E. unfold Close in E. rewrite Hc in E.
  destruct (os_Remove (Join (path r) apiFile) s) as [x1 s1] eqn:R1. simpl in E.
  destruct (os_Remove (Join (path r) gatewayFile) s1) as [x2 s2] eqn:R2. simpl in E.
  destruct (frame_os_Remove false _ _ _ _ R1) as [L1 D1]. destruct (frame_os_Remove false _ _ _ _ R2) as [L2 D2].
  rewrite <- L1, <- D1, <- L2, <- D2 by done.
  destruct (may_fail s2) as [[[]|e] s3] eqn:M; destruct (frame_may_fail false _ _ _ M) as [L3 D3];
    rewrite <- L3, <- D3 by done.
  - destruct (may_fail (unlock _ _)) as [x4 s4] eqn:M4. simplify_eq.
    destruct (frame_may_fail false _ _ _ M4) as [L4 D4]. left. by rewrite L4, D4.
  - simplify_eq. right. eauto.
Qed.

End FsRepo.

(** ** A small repository on a disk *)

Module DemoRepo.

Definition id_obj (extra : object) : json := JObj (("PrivKey", JStr "secret") :: extra).
Definition ds_obj : json := JObj [("Spec", JObj [("type", JStr "levelds"); ("path", JStr "datastore")])].

(** The configuration before and after setting [Identity] to an empty object and
    [A.B] to a string. *)
Definition conf0 : object := [("Identity", id_obj [("PeerID", JStr "Qm")]); ("Datastore", ds_obj)].
Definition conf1 : object := [("Identity", id_obj []); ("Datastore", ds_obj)].
Definition conf2 : object := conf0 ++ [("A", JObj [("B", JStr "x")])].

(** The texts these are encoded to. *)
Definition demo_Marshal (m : object) : result string :=
  if json_eqb (JObj conf0) (JObj m) then Ok "conf0"
  else if json_eqb (JObj conf1) (JObj m) then Ok "conf1"
  else if json_eqb (JObj conf2) (JObj m) then Ok "conf2"
  else Err "json: unsupported value".
Definition demo_decode (s : string) : result object :=
  if decide (s = "conf0") then Ok conf0 else if decide (s = "conf1") then Ok conf1
  else if decide (s = "conf2") then Ok conf2 else Err "unexpected end of JSON input".

Lemma demo_decode_Marshal m s : demo_Marshal m = Ok s -> demo_decode s = Ok m.
Proof.
  unfold demo_Marshal. intros E.
  destruct (json_eqb (JObj conf0) (JObj m)) eqn:E0; [apply json_eqb_eq in E0; simplify_eq; reflexivity|].
  destruct (json_eqb (JObj conf1) (JObj m)) eqn:E1; [apply json_eqb_eq in E1; simplify_eq; reflexivity|].
  destruct (json_eqb (JObj conf2) (JObj m)) eqn:E2; [apply json_eqb_eq in E2; simplify_eq; reflexivity|done].
Qed.

Lemma wf_cons k v m : k ∉ m.*1 -> wf v -> wf (JObj m) -> wf (JObj ((k, v) :: m)).
Proof.
  intros Hk Hv Hm. constructor.
  - csimpl. apply NoDup_cons. split; [done|by apply wf_keys].
  - intros k' v' [?|Hin]%elem_of_cons; [by simplify_eq|]. inversion Hm; subst. eauto.
Qed.

Lemma demo_wf s m : demo_decode s = Ok m -> wf (JObj m).
Proof.
  unfold demo_decode. intros E. repeat case_decide; simplify_eq;
    repeat first [apply wf_empty|apply wf_str|(apply wf_cons; [csimpl; set_solver| |])].
Qed.

Definition demo_env : RepoEnv'.
Proof.
  refine {| Config := object; ds_Type := fun _ => ""; ds_Path := fun _ => "";
            ds_Spec := fun c => match get_path (JObj c) ["Datastore"; "Spec"] with Some (JObj m) => Some m | _ => None end;
            FilestoreEnabled := fun _ => false; UrlstoreEnabled := fun _ => true;
            decode_map := demo_decode; decode_config := demo_decode;
            Marshal_map := demo_Marshal; Marshal_config := demo_Marshal;
            Marshal_spec := fun _ => "levelds at datastore"; Expand := fun p => Ok p;
            homedir_Dir := Ok "/home"; env_IPFS_PATH := "";
            repo_registry := [("levelds", levelds_parse)];
            Multiaddr := string; ma_String := fun s => s; NewMultiaddr := fun s => Ok s |}.
  - exact demo_wf.
  - intros m s _. apply demo_decode_Marshal.
  - apply demo_decode_Marshal.
  - reflexivity.
Defined.

Definition empty_disk : disk := Disk ∅ ∅ [] [].

End DemoRepo.

Section FsRepoWitnesses.
Import DemoRepo.
Local Existing Instance demo_env.
Local Existing Instance demo_ds.

(** The repository [/repo] after [Init]. *)
Definition demo_disk (fs : list (option (error * nat))) : disk :=
  Disk {[ "/repo/config" := "conf0"; "/repo/datastore_spec" := "levelds at datastore";
          "/repo/version" := FormatInt 12 +:+ newline ]} ∅ [] fs.

Definition demo_repo0 : FSRepo := MkFSRepo false "/repo" "/repo/config" (Some conf0) ["/repo/datastore"] None.

(** A failing keystore leaks the datastore: when the keystore directory
    cannot be opened, [open] returns that error and releases the lock, but the
    datastore it opened before stays open and unreachable. *)
Theorem open_keystore_failure_leaks :
  let out := open "/repo" "" (demo_disk (replicate 8 None ++ [Some ("too many open files", 0%nat)])) in
  match out.1 with Err e => e = "too many open files" | Ok _ => False end /\
  open_ds out.2 = ["/repo/datastore"] /\ bool_decide ("/repo/repo.lock" ∈ locks out.2) = false.
Proof. vm_compute. done. Qed.


Lemma fsrepo_open_lock_witness :
  match (open "/repo" "" (demo_disk [])).1 with
  | Err _ => locks (open "/repo" "" (demo_disk [])).2 = locks (demo_disk [])
  | Ok r => (Join (path r) LockFile ∉ locks (demo_disk [])) /\
            locks (open "/repo" "" (demo_disk [])).2 = ({[ Join (path r) LockFile ]} ∪ locks (demo_disk [])) /\
            closed r = false /\ is_Some (config r) /\
            open_ds (open "/repo" "" (demo_disk [])).2 = open_ds (demo_disk []) ++ repo_ds r
  end.
Proof.
  exact (fsrepo_open_lock "/repo" "" (demo_disk []) (open "/repo" "" (demo_disk [])).1
    (open "/repo" "" (demo_disk [])).2 (surjective_pairing _)).
Defined.


Lemma set_config_merges_witness :
  exists u m', ToMap (conf1 : @Config demo_env) = Ok u /\
    config_map (SetConfig (conf1 : @Config demo_env) demo_repo0 (demo_disk [])).1.2
      (SetConfig (conf1 : @Config demo_env) demo_repo0 (demo_disk [])).2 = Some m' /\
    MapGetKV m' "Identity.PeerID" = Ok (JStr "Qm").
Proof.
  destruct (set_config_merges (conf1 : @Config demo_env) demo_repo0 (demo_disk [])
    (SetConfig (conf1 : @Config demo_env) demo_repo0 (demo_disk [])).1.2
    (SetConfig (conf1 : @Config demo_env) demo_repo0 (demo_disk [])).2 conf0 eq_refl eq_refl eq_refl)
    as (u & m' & A & _ & B & _ & C & _). exists u, m'. split_and!; [exact A|exact B|].
  assert (u = conf1) as -> by (assert (Ok conf1 = Ok u) by (rewrite <- A; reflexivity); congruence).
  apply C; [reflexivity|]. intros p x Hp Hx.
  destruct p as [|k1 [|k2 p]].
  - injection Hx as <-. done.
  - apply prefix_cons_inv_1 in Hp as ->. vm_compute in Hx. injection Hx as <-. done.
  - apply prefix_cons_inv_1 in Hp as Hk. subst k1. apply prefix_cons_inv_2 in Hp as Hp.
    apply prefix_cons_inv_1 in Hp as ->. discriminate.
Defined.

Lemma write_config_drops_rename_error_witness :
  exists s', WriteConfigFile "/repo/config" (Ok "conf2") (demo_disk [None; None; None; Some ("device error", 0%nat)]) = (Ok tt, s') /\
    files s' !! "/repo/config" = Some "conf0".
Proof.
  exact (write_config_drops_rename_error "/repo/config" "conf2" (demo_disk [None; None; None; Some ("device error", 0%nat)]) "device error" 0 eq_refl).
Defined.

Lemma write_config_error_replaces_file_witness :
  exists s', WriteConfigFile "/repo/config" (Ok "conf2") (demo_disk [None; None; Some ("no space left on device", 3%nat)])
             = (Err "no space left on device", s') /\ files s' !! "/repo/config" = Some "con".
Proof.
  exact (write_config_error_replaces_file "/repo/config" "conf2"
    (demo_disk [None; None; Some ("no space left on device", 3%nat)]) "no space left on device" 3 eq_refl).
Defined.

Lemma api_addr_atomic_witness :
  APIAddr "/repo" (SetAPIAddr demo_repo0 ("/ip4/127.0.0.1/tcp/5001" : @Multiaddr demo_env) (demo_disk [])).2
  = (Ok ("/ip4/127.0.0.1/tcp/5001" : @Multiaddr demo_env),
     (SetAPIAddr demo_repo0 ("/ip4/127.0.0.1/tcp/5001" : @Multiaddr demo_env) (demo_disk [])).2).
Proof.
  assert (Hp : path demo_repo0 <> "") by done.
  pose proof (api_addr_atomic demo_repo0 ("/ip4/127.0.0.1/tcp/5001" : @Multiaddr demo_env) (demo_disk [])
    (Ok tt) (SetAPIAddr demo_repo0 ("/ip4/127.0.0.1/tcp/5001" : @Multiaddr demo_env) (demo_disk [])).2 Hp) as G.
  refine (proj2 (proj2 (G _)) _ _ _ _ _); try reflexivity. apply Nat.ltb_lt. reflexivity.
Defined.

Lemma fsrepo_close_witness :
  locks (Close demo_repo0 (demo_disk [])).2 = (locks (demo_disk []) ∖ {[ "/repo/repo.lock" ]}) \/
  locks (Close demo_repo0 (demo_disk [])).2 = locks (demo_disk []).
Proof.
  destruct (fsrepo_close demo_repo0 (demo_disk []) (Close demo_repo0 (demo_disk [])).1.1
    (Close demo_repo0 (demo_disk [])).1.2 (Close demo_repo0 (demo_disk [])).2 eq_refl) as [G|G].
  - reflexivity.
  - left. apply G.
  - right. apply G.
Defined.

End FsRepoWitnesses.
