(* ===== verification/BoxService.v ===== *)
(** The messaging service of the box: [core/box/service] ([websocket.go], [user.go],
    [relay.go], [req_resp.go], [config.go]), the user table [core/box/ds] and
    [ParseBootstrapPeers2] of [config/bootstrap_peers.go].

    A node is its peer identity, the table [WsConMap] from user names to websocket
    connections, the connections with what was written to them, and the user
    table.  Handlers run in goroutines, so a panic in one of them ends the
    process: the node is then [crashed].

    JSON and TOML encoding, multiaddresses, the libp2p network and the websocket
    connection belong to other packages; [BoxEnv] states what is used of them.
    Writing to a nil connection is a nil pointer dereference. *)
From Stdlib Require Import ZArith Lia Ascii String.
From stdpp Require Import base list strings gmap sets relations.
From S2P Require Import Prelude GoStrings GoPath ConfigMap.

(** ** Messages: [core/box/model] *)

Record Req := MkReq {
  Protocol : string;
  From : string;
  To : string;
  RemotePeer : string;
  Data : json;
}.

Record Res := MkRes {
  res_Protocol : string;
  res_Code : bool;
  res_Msg : string;
  res_From : string;
  res_Data : json;
}.

Record User := MkUser { Id : string; NickName : string; HeadImg : string }.

(** The members present in a JSON text decoded into a [Req]. *)
Record ReqPatch := MkPatch {
  p_Protocol : option string;
  p_From : option string;
  p_To : option string;
  p_RemotePeer : option string;
  p_Data : option json;
}.

(** [json.Unmarshal(msg, &req)] leaves absent members as they were. *)
Definition apply_patch (p : ReqPatch) (r : Req) : Req :=
  MkReq (default (Protocol r) (p_Protocol p)) (default (From r) (p_From p))
        (default (To r) (p_To p)) (default (RemotePeer r) (p_RemotePeer p))
        (default (Data r) (p_Data p)).

Definition zero_Req : Req := MkReq "" "" "" "" JNull.

(** ** Other packages *)

Definition nl : ascii := ascii_of_N 10.

Class BoxEnv := {
  Marshal_Req : Req -> string;
  Marshal_Res : Res -> string;
  Unmarshal_Req : string -> result ReqPatch;
  (** [jsonvalue]: the string member of a JSON text *)
  GetString : string -> string -> result string;
  (** [json.Marshal] of the data of a request *)
  Marshal_Data : json -> result string;
  (** a marshalled request is one line and has its [to] member, a marshalled
      response has its code *)
  Marshal_Req_line : forall r, split_on nl (Marshal_Req r) = [Marshal_Req r];
  Marshal_Res_code : forall r1 r2, Marshal_Res r1 = Marshal_Res r2 -> res_Code r1 = res_Code r2;
  Marshal_Req_to : forall r, GetString (Marshal_Req r) "to" = Ok (To r);
  (** multiaddresses *)
  maddr : Type;
  NewMultiaddr : string -> result maddr;
  AddrInfosFromP2pAddrs : list maddr -> result (list string);
  (** [fmt.Errorf] of a text that may contain verbs *)
  Errorf : string -> error
}.

(** ** A node *)

Record conn := Conn { is_open : bool; sent : list string }.

Record node := Node {
  peer_ID : string;
  WsConMap : gmap string nat;
  conns : gmap nat conn;
  users : gmap string User;
  db_fails : option error;
  crashed : bool;
  host_addrs : list string;
  publicIP : string;
}.

Definition with_conns (cs : gmap nat conn) (n : node) : node :=
  Node (peer_ID n) (WsConMap n) cs (users n) (db_fails n) (crashed n) (host_addrs n) (publicIP n).
Definition with_ws (m : gmap string nat) (n : node) : node :=
  Node (peer_ID n) m (conns n) (users n) (db_fails n) (crashed n) (host_addrs n) (publicIP n).
Definition with_users (u : gmap string User) (n : node) : node :=
  Node (peer_ID n) (WsConMap n) (conns n) u (db_fails n) (crashed n) (host_addrs n) (publicIP n).
Definition crash (n : node) : node :=
  Node (peer_ID n) (WsConMap n) (conns n) (users n) (db_fails n) true (host_addrs n) (publicIP n).

(** [WriteMessage] on the connection [WsConMap[to]] holds, a nil pointer when
    there is none. *)
Definition WriteMessage (to msg : string) (n : node) : outcome (option error) * node :=
  match WsConMap n !! to with
  | None => (Panic "invalid memory address or nil pointer dereference", n)
  | Some id =>
      match conns n !! id with
      | Some (Conn true out) => (Ret None, with_conns (<[id := Conn true (out ++ [msg])]> (conns n)) n)
      | _ => (Ret (Some "websocket: close sent"), n)
      end
  end.

Definition SendWsMsg (to msg : string) (n : node) : outcome (option error) * node := WriteMessage to msg n.

(** *** The user table: ds/user.go

    [db.Create] fails on an existing key, [db.Save] writes in any case; either
    fails when the database does. *)
Definition db_Create (u : User) (n : node) : option error * node :=
  match db_fails n with
  | Some e => (Some e, n)
  | None =>
      match users n !! Id u with
      | Some _ => (Some "UNIQUE constraint failed: user.id", n)
      | None => (None, with_users (<[Id u := u]> (users n)) n)
      end
  end.
Definition db_Save (u : User) (n : node) : option error * node :=
  match db_fails n with
  | Some e => (Some e, n)
  | None => (None, with_users (<[Id u := u]> (users n)) n)
  end.

Definition InserUserInfo (user : User) (n : node) : option error * node :=
  match db_Create user n with
  | (Some _, n) => db_Save user n
  | (None, n) => (None, n)
  end.

Definition GetUserInfo (id : string) (n : node) : result User :=
  match db_fails n with
  | Some e => Err e
  | None => match users n !! id with Some u => Ok u | None => Err "record not found" end
  end.

Definition UserCount (n : node) : result nat :=
  match db_fails n with Some e => Err e | None => Ok (size (users n)) end.

Section Box.
Context `{BoxEnv}.

(** *** config/bootstrap_peers.go *)

Fixpoint parse_addrs (addrs : list string) : result (list maddr) :=
  match addrs with
  | [] => Ok []
  | a :: addrs =>
      match NewMultiaddr a with
      | Err e => Err e
      | Ok m => match parse_addrs addrs with Err e => Err e | Ok ms => Ok (m :: ms) end
      end
  end.

Definition ParseBootstrapPeers2 (addrs : list string) : result (list string) :=
  match parse_addrs addrs with
  | Err e => Err e
  | Ok maddrs => AddrInfosFromP2pAddrs maddrs
  end.

(** *** relay.go: the handler of the [/relay] protocol *)

(** [ReadString]: the text up to and including the first newline; without one an
    error. *)
Definition read_line (inp : string) : result string :=
  match split_on nl inp with
  | line :: _ :: _ => Ok line
  | _ => Err "EOF"
  end.

(** What the handler writes back on the stream. *)
Definition relay_Send (str : string) : string := str +:+ String nl "".

Definition relay (inp : string) (n : node) : outcome string * node :=
  match read_line inp with
  | Err err => (Ret (relay_Send err), n)
  | Ok str =>
      match GetString str "to" with
      | Err err => (Ret (relay_Send err), n)
      | Ok to =>
          match WriteMessage to str n with
          | (Panic m, n) => (Panic m, n)
          | (Ret (Some err), n) => (Ret (relay_Send err), n)
          | (Ret None, n) => (Ret (relay_Send "true"), n)
          end
      end
  end.

(** *** req_resp.go *)

(** The network between two nodes as one request sees it: whether the peer is
    connected, the errors of [Connect] and [NewStream], and whether the deadline
    passes before the reply. *)
Record network := Network {
  net_connected : bool;
  net_connect : option error;
  net_stream : option error;
  net_deadline : bool;
}.

Record world := World { local : node; remote : node }.

(** The remote node serves one stream; its crash resets the stream. *)
Definition serve (inp : string) (n : node) : string * node :=
  if crashed n then ("", n) else
  match relay inp n with
  | (Ret out, n) => (out, n)
  | (Panic _, n) => ("", crash n)
  end.

(** [ReadString] on the reply and [TrimSuffix]: an incomplete line is kept. *)
Definition reply_line (out : string) : string :=
  match split_on nl out with
  | line :: _ => line
  | [] => ""
  end.

Definition SendRequest (net : network) (req : Req) (w : world) : result string * world :=
  match (if net_connected net then None else net_connect net) with
  | Some _ => (Err "RemotePeers not connect", w)
  | None =>
      match net_stream net with
      | Some e => (Err e, w)
      | None =>
          let data := Marshal_Req req in
          let '(out, r) := serve (data +:+ String nl "") (remote w) in
          let w := World (local w) r in
          let resp := if net_deadline net then "" else reply_line out in
          if decide (resp <> "") then
            if decide (resp <> "true") then (Err (Errorf resp), w) else (Ok resp, w)
          else (Err "request timeout", w)
      end
  end.

(** *** user.go *)

(** A handler's own calls of [SendWsMsg], on the local node. *)
Definition send_local (to msg : string) (w : world) : outcome (option error) * world :=
  let '(r, n) := SendWsMsg to msg (local w) in (r, World n (remote w)).

(** A send whose error is dropped: only a panic matters. *)
Definition tell (to : string) (res : Res) (w : world) : outcome unit * world :=
  match send_local to (Marshal_Res res) w with
  | (Panic m, w) => (Panic m, w)
  | (Ret _, w) => (Ret tt, w)
  end.

(** The port is the last element of the host's first address. *)
Definition getLocalPeer (n : node) : string :=
  let port := match host_addrs n with
              | [] => "0"
              | v :: _ => let splits := split_on "/"%char v in
                          default "" (splits !! (length splits - 1)%nat)
              end in
  "/ip4/" +:+ publicIP n +:+ "/tcp/" +:+ port +:+ "/p2p/" +:+ peer_ID n.

Definition UploadInfo (req : Req) (w : world) : outcome unit * world :=
  let res code msg data := MkRes (Protocol req) code msg "" data in
  match Marshal_Data (Data req) with
  | Err err => tell (To req) (res false err JNull) w
  | Ok data =>
      let str k := match GetString data k with Ok s => s | Err _ => "" end in
      let user := MkUser (From req) (str "nickName") (str "headImg") in
      match InserUserInfo user (local w) with
      | (Some err, n) => tell (To req) (res false err JNull) (World n (remote w))
      | (None, n) =>
          tell (To req) (res true "" (JObj [("LocalPeer", JStr (getLocalPeer n))])) (World n (remote w))
      end
  end.

Definition Add_qr (net : network) (req : Req) (w : world) : outcome unit * world :=
  let res code msg := MkRes (Protocol req) code msg (To req) JNull in
  match ParseBootstrapPeers2 [RemotePeer req] with
  | Err err => tell (From req) (res false err) w
  | Ok [] => (Panic "index out of range [0] with length 0", w)
  | Ok (peer :: _) =>
      if decide (peer <> peer_ID (local w)) then
        match SendRequest net req w with
        | (Err err, w) => tell (From req) (res false ("remote error:" +:+ err)) w
        | (Ok _, w) => tell (From req) (res true "") w
        end
      else
        match send_local (To req) (Marshal_Req req) w with
        | (Panic m, w) => (Panic m, w)
        | (Ret (Some _), w) => tell (From req) (res true "") w
        | (Ret None, w) => (Ret tt, w)
        end
  end.

(** [agree] has the same body. *)
Definition agree (net : network) (req : Req) (w : world) : outcome unit * world :=
  let res code msg := MkRes (Protocol req) code msg (To req) JNull in
  match ParseBootstrapPeers2 [RemotePeer req] with
  | Err err => tell (From req) (res false err) w
  | Ok [] => (Panic "index out of range [0] with length 0", w)
  | Ok (peer :: _) =>
      if decide (peer <> peer_ID (local w)) then
        match SendRequest net req w with
        | (Err err, w) => tell (From req) (res false ("remote error:" +:+ err)) w
        | (Ok _, w) => tell (From req) (res true "") w
        end
      else
        match send_local (To req) (Marshal_Req req) w with
        | (Panic m, w) => (Panic m, w)
        | (Ret (Some _), w) => tell (From req) (res true "") w
        | (Ret None, w) => (Ret tt, w)
        end
  end.

(** *** websocket.go *)

(** [initWsRoute]: the goroutine a request starts, if any. *)
Definition initWsRoute (net : network) (req : Req) : option (world -> outcome unit * world) :=
  if decide (Protocol req = "/user/uploadInfo") then Some (UploadInfo req)
  else if decide (Protocol req = "/user/add_qr") then Some (Add_qr net req)
  else if decide (Protocol req = "/user/agree") then Some (agree net req)
  else None.

(** One iteration of the read loop of connection [id] on a message: the request
    variable and the node afterwards; [None] ends the handler, which closes the
    connection. *)
Definition ws_message (id : nat) (msg : string) (req : Req) (n : node) : option Req * node :=
  match Unmarshal_Req msg with
  | Err _ => (None, n)
  | Ok p => let req := apply_patch p req in (Some req, with_ws (<[From req := id]> (WsConMap n)) n)
  end.

Definition ws_Close (id : nat) (n : node) : node :=
  with_conns (alter (fun c => Conn false (sent c)) id (conns n)) n.

(** The service as a transition system: the read loops of the connections with
    their request variables, and the goroutines that have been started.  A
    goroutine that panics ends the process. *)
Record service := Service {
  s_world : world;
  loops : gmap nat Req;
  jobs : list Req;
}.

Definition run_job (net : network) (req : Req) (w : world) : world :=
  match initWsRoute net req with
  | None => w
  | Some h => match h w with
              | (Ret _, w) => w
              | (Panic _, w) => World (crash (local w)) (remote w)
              end
  end.

Definition with_local (n : node) (w : world) : world := World n (remote w).

Inductive step : service -> service -> Prop :=
| step_accept w ls js id :
    crashed (local w) = false -> conns (local w) !! id = None ->
    step (Service w ls js)
         (Service (with_local (with_conns (<[id := Conn true []]> (conns (local w))) (local w)) w)
                  (<[id := zero_Req]> ls) js)
| step_message w ls js id msg req req' n :
    crashed (local w) = false -> ls !! id = Some req ->
    ws_message id msg req (local w) = (Some req', n) ->
    step (Service w ls js) (Service (with_local n w) (<[id := req']> ls) (js ++ [req']))
| step_bad_message w ls js id msg req n :
    crashed (local w) = false -> ls !! id = Some req ->
    ws_message id msg req (local w) = (None, n) ->
    step (Service w ls js) (Service (with_local (ws_Close id n) w) (delete id ls) js)
| step_disconnect w ls js id req :
    crashed (local w) = false -> ls !! id = Some req ->
    step (Service w ls js) (Service (with_local (ws_Close id (local w)) w) (delete id ls) js)
| step_job w ls js1 js2 req net :
    crashed (local w) = false ->
    step (Service w ls (js1 ++ req :: js2)) (Service (run_job net req w) ls (js1 ++ js2)).

(** ** Lemmas *)

Lemma read_line_marshalled req : read_line (Marshal_Req req +:+ String nl "") = Ok (Marshal_Req req).
Proof.
  unfold read_line. by rewrite split_on_app_sep, Marshal_Req_line.
Qed.

(** The state of the connection of a user. *)
Definition user_conn (u : string) (n : node) : option (nat * conn) :=
  match WsConMap n !! u with
  | None => None
  | Some id => match conns n !! id with Some c => Some (id, c) | None => None end
  end.

(** The node after a message was written to an open connection. *)
Definition delivered (id : nat) (out : list string) (msg : string) (n : node) : node :=
  with_conns (<[id := Conn true (out ++ [msg])]> (conns n)) n.

Lemma WriteMessage_open u msg n id out :
  user_conn u n = Some (id, Conn true out) -> WriteMessage u msg n = (Ret None, delivered id out msg n).
Proof.
  unfold user_conn, WriteMessage. intros E. destruct (WsConMap n !! u) as [i|]; [|done].
  destruct (conns n !! i) as [c|] eqn:Ec; [|done]. by simplify_eq.
Qed.

Lemma WriteMessage_ok u msg n n' :
  WriteMessage u msg n = (Ret None, n') ->
  exists id out, user_conn u n = Some (id, Conn true out) /\ n' = delivered id out msg n.
Proof.
  unfold user_conn, WriteMessage. intros E. destruct (WsConMap n !! u) as [i|]; [|done].
  destruct (conns n !! i) as [[[] out]|] eqn:Ec; simplify_eq. eauto.
Qed.

Lemma WriteMessage_fail u msg n r n' :
  WriteMessage u msg n = (r, n') -> r <> Ret None ->
  n' = n /\ (WsConMap n !! u = None -> exists m, r = Panic m) /\
  (is_Some (WsConMap n !! u) -> r = Ret (Some "websocket: close sent")).
Proof.
  unfold WriteMessage. intros E Hr. destruct (WsConMap n !! u) as [i|].
  - destruct (conns n !! i) as [[[] out]|]; simplify_eq; split_and!; naive_solver.
  - simplify_eq. split_and!; [done|eauto|by intros []].
Qed.

(** What [serve] does with a marshalled request. *)
Lemma serve_request req n :
  crashed n = false ->
  (forall id out, user_conn (To req) n = Some (id, Conn true out) ->
     serve (Marshal_Req req +:+ String nl "") n
     = (relay_Send "true", delivered id out (Marshal_Req req) n)) /\
  (WsConMap n !! To req = None -> serve (Marshal_Req req +:+ String nl "") n = ("", crash n)) /\
  (is_Some (WsConMap n !! To req) -> (forall id out, user_conn (To req) n <> Some (id, Conn true out)) ->
     serve (Marshal_Req req +:+ String nl "") n = (relay_Send "websocket: close sent", n)).
Proof.
  intros Hc. unfold serve, relay. rewrite Hc, read_line_marshalled, Marshal_Req_to.
  split_and!.
  - intros id out E. by rewrite (WriteMessage_open _ _ _ _ _ E).
  - intros E. unfold WriteMessage. by rewrite E.
  - intros [id Hid] Hno. unfold WriteMessage. rewrite Hid. unfold user_conn in Hno. rewrite Hid in Hno.
    destruct (conns n !! id) as [[[] out]|] eqn:Ec; [|done..]. by destruct (Hno id out).
Qed.

(** The network lets a request through. *)
Definition net_ok (net : network) : Prop :=
  (net_connected net = true \/ net_connect net = None) /\ net_stream net = None.

Lemma net_ok_connect net : net_ok net -> (if net_connected net then None else net_connect net) = None.
Proof. intros [[->| ->] _]; [done|]. by destruct (net_connected net). Qed.

(** All outcomes of a request to a live node. *)
Lemma SendRequest_spec net req w r w' :
  SendRequest net req w = (r, w') -> crashed (remote w) = false ->
  local w' = local w /\
  (~ net_ok net /\ (exists e, r = Err e) /\ w' = w \/
   net_ok net /\
   ((exists id out, user_conn (To req) (remote w) = Some (id, Conn true out) /\
       remote w' = delivered id out (Marshal_Req req) (remote w) /\
       r = if net_deadline net then Err "request timeout" else Ok "true") \/
    (WsConMap (remote w) !! To req = None /\ remote w' = crash (remote w) /\ r = Err "request timeout") \/
    (is_Some (WsConMap (remote w) !! To req) /\
       (forall id out, user_conn (To req) (remote w) <> Some (id, Conn true out)) /\
       remote w' = remote w /\ exists e, r = Err e))).
Proof.
  intros E Hc. unfold SendRequest in E.
  destruct (if net_connected net then None else net_connect net) as [e|] eqn:Ec.
  { simplify_eq. split; [done|]. left. split_and!; [|eauto|done].
    intros Hn%net_ok_connect. congruence. }
  destruct (net_stream net) as [e|] eqn:Es.
  { simplify_eq. split; [done|]. left. split_and!; [|eauto|done]. unfold net_ok. naive_solver. }
  assert (Hok : net_ok net).
  { split; [|done]. destruct (net_connected net); [by left|by right]. }
  destruct (serve_request req (remote w) Hc) as (S1 & S2 & S3).
  destruct (serve _ (remote w)) as [out n] eqn:Hs. simpl in E.
  assert (Hl : local w' = local w) by (repeat case_decide; by simplify_eq).
  assert (Hr : remote w' = n) by (repeat case_decide; by simplify_eq).
  split; [done|right]. split; [done|]. rewrite Hr.
  destruct (WsConMap (remote w) !! To req) as [id|] eqn:Eid.
  2: { right; left. specialize (S2 eq_refl). simplify_eq. split_and!; [done|done|].
       destruct (net_deadline net); repeat case_decide; by simplify_eq. }
  destruct (user_conn (To req) (remote w)) as [[id' [[] o]]|] eqn:Eu.
  - left. exists id', o. specialize (S1 _ _ eq_refl). simplify_eq. split_and!; [done|done|].
    destruct (net_deadline net); repeat case_decide; simplify_eq; done.
  - right; right. assert (S3' := S3 ltac:(eauto) ltac:(congruence)). simplify_eq. split_and!; [eauto|congruence|congruence|].
    destruct (net_deadline net); repeat case_decide; simplify_eq; eauto.
  - right; right. assert (S3' := S3 ltac:(eauto) ltac:(congruence)). simplify_eq. split_and!; [eauto|congruence|congruence|].
    destruct (net_deadline net); repeat case_decide; simplify_eq; eauto.
Qed.


Lemma tell_open u res w id out :
  user_conn u (local w) = Some (id, Conn true out) ->
  tell u res w = (Ret tt, World (delivered id out (Marshal_Res res) (local w)) (remote w)).
Proof. intros E. unfold tell, send_local, SendWsMsg. by rewrite (WriteMessage_open _ _ _ _ _ E). Qed.

Lemma tell_local u res w r w' :
  tell u res w = (r, w') ->
  remote w' = remote w /\
  (local w' = local w \/ exists id out, user_conn u (local w) = Some (id, Conn true out) /\
                           local w' = delivered id out (Marshal_Res res) (local w)).
Proof.
  unfold tell, send_local, SendWsMsg. intros E.
  destruct (WriteMessage u (Marshal_Res res) (local w)) as [x n] eqn:W.
  assert (remote w' = remote w /\ local w' = n) as [-> ->] by (destruct x; by simplify_eq).
  split; [done|]. destruct x as [[e|]|m].
  - left. apply WriteMessage_fail in W as [-> _]; done.
  - right. by apply WriteMessage_ok in W.
  - left. apply WriteMessage_fail in W as [-> _]; done.
Qed.

(** Writing changes what the connection has been sent. *)
Lemma delivered_sent id out msg n : conns (delivered id out msg n) !! id = Some (Conn true (out ++ [msg])).
Proof. simpl. apply lookup_insert_eq. Qed.

Lemma user_conn_lookup u n id c : user_conn u n = Some (id, c) -> conns n !! id = Some c.
Proof. unfold user_conn. repeat case_match; naive_solver. Qed.

(** The replies of [Add_qr] and [agree]. *)
Definition reply (req : Req) (code : bool) (msg : string) : Res := MkRes (Protocol req) code msg (To req) JNull.

(** The two handlers are the same function. *)
Lemma agree_Add_qr net req w : agree net req w = Add_qr net req w.
Proof. done. Qed.

(** ** Properties *)

(** C6: A friend request or agreement reaches a user on another box: when the
    other node is reachable and the recipient is connected there, [Add_qr] (and
    [agree]) writes the request, unchanged and exactly once, on the recipient's
    connection of the other node, tells the sender success on the sender's
    connection, and changes nothing else on either node. *)
Theorem box_remote_delivery net req w peer rest id out idf outf :
  ParseBootstrapPeers2 [RemotePeer req] = Ok (peer :: rest) -> peer <> peer_ID (local w) ->
  net_ok net -> net_deadline net = false -> crashed (remote w) = false ->
  user_conn (To req) (remote w) = Some (id, Conn true out) ->
  user_conn (From req) (local w) = Some (idf, Conn true outf) ->
  Add_qr net req w
  = (Ret tt, World (delivered idf outf (Marshal_Res (reply req true "")) (local w))
                   (delivered id out (Marshal_Req req) (remote w))) /\
  agree net req w = Add_qr net req w.
Proof.
  intros Hp Hne Hn Hd Hc Ht Hf. split; [|apply agree_Add_qr]. unfold Add_qr. rewrite Hp, decide_True by done.
  destruct (SendRequest net req w) as [r w1] eqn:S.
  apply SendRequest_spec in S as (Hl & [(Hbad & _)|(_ & [(id' & out' & Ht' & Hr & Hres)|[(Hx & _)|(_ & Hx & _)]])]); try done.
  - rewrite Ht in Ht'. simplify_eq. rewrite Hd. rewrite (tell_open (From req) _ w1 idf outf) by (by rewrite Hl).
    by rewrite Hl, Hr.
  - unfold user_conn in Ht. by rewrite Hx in Ht.
  - by apply Hx in Ht.
Qed.

(** A success reply is never wrong across boxes: if a request for another
    box ends with the success reply on the sender's connection, then the request
    was written on the recipient's open connection of the other node. *)
Theorem box_ack_sound net req w w' x peer rest idf outf :
  ParseBootstrapPeers2 [RemotePeer req] = Ok (peer :: rest) -> peer <> peer_ID (local w) ->
  crashed (remote w) = false -> Add_qr net req w = (x, w') ->
  user_conn (From req) (local w) = Some (idf, Conn true outf) ->
  conns (local w') !! idf = Some (Conn true (outf ++ [Marshal_Res (reply req true "")])) ->
  exists id out, user_conn (To req) (remote w) = Some (id, Conn true out) /\
    remote w' = delivered id out (Marshal_Req req) (remote w).
Proof.
  intros Hp Hne Hc E Hf Hs. unfold Add_qr in E. rewrite Hp, decide_True in E by done.
  destruct (SendRequest net req w) as [r w1] eqn:S. apply SendRequest_spec in S as [Hl S]; [|done].
  destruct r as [a|e].
  - apply tell_local in E as [-> _].
    destruct S as [(_ & [? ?] & _)|(_ & [(id & out & ? & ? & _)|[(_ & _ & ?)|(_ & _ & _ & [? ?])]])]; try done. eauto.
  - exfalso. rewrite (tell_open (From req) _ w1 idf outf) in E by (by rewrite Hl). simplify_eq.
    simpl in Hs. rewrite lookup_insert_eq in Hs. injection Hs as Hs. apply app_inv_head in Hs.
    injection Hs as Hs%Marshal_Res_code. discriminate.
Qed.

(** Writing to a user who never connected ends the process: a friend request
    for such a user of the same box crashes that box, and one for such a user of
    another box crashes the other box, whatever the sender is. *)
Theorem box_unknown_recipient_crashes net req w peer rest :
  ParseBootstrapPeers2 [RemotePeer req] = Ok (peer :: rest) -> Protocol req = "/user/add_qr" ->
  (peer = peer_ID (local w) -> WsConMap (local w) !! To req = None ->
   crashed (local (run_job net req w)) = true) /\
  (peer <> peer_ID (local w) -> net_ok net -> crashed (remote w) = false ->
   WsConMap (remote w) !! To req = None -> crashed (remote (run_job net req w)) = true).
Proof.
  intros Hp Hprot. unfold run_job, initWsRoute. rewrite decide_False by (by rewrite Hprot).
  rewrite decide_True by done. unfold Add_qr. rewrite Hp. split.
  - intros -> Hn. rewrite decide_False by auto. unfold send_local, SendWsMsg, WriteMessage. by rewrite Hn.
  - intros Hne Hok Hc Hn. rewrite decide_True by done.
    destruct (SendRequest net req w) as [r w1] eqn:S.
    apply SendRequest_spec in S as (Hl & [(Hbad & _)|(_ & [(id & out & Hu & _)|[(_ & Hr & ->)|([? ?] & _)]])]); try done.
    + unfold user_conn in Hu. by rewrite Hn in Hu.
    + destruct (tell _ _ w1) as [x w2] eqn:T. apply tell_local in T as [Hr2 _].
      destruct x; simpl; by rewrite Hr2, Hr.
    + congruence.
Qed.

(** A failed local delivery is reported as success: when the recipient of the
    same box has disconnected, the request is written nowhere and the sender is
    told success. *)
Theorem box_local_failure_acked net req w peer rest id idf outf :
  ParseBootstrapPeers2 [RemotePeer req] = Ok (peer :: rest) -> peer = peer_ID (local w) ->
  WsConMap (local w) !! To req = Some id -> (forall out, conns (local w) !! id <> Some (Conn true out)) ->
  user_conn (From req) (local w) = Some (idf, Conn true outf) ->
  Add_qr net req w
  = (Ret tt, World (delivered idf outf (Marshal_Res (reply req true "")) (local w)) (remote w)).
Proof.
  intros Hp -> Hid Hclosed Hf. unfold Add_qr. rewrite Hp, decide_False by auto.
  unfold send_local, SendWsMsg. unfold WriteMessage at 1. rewrite Hid.
  assert (G : tell (From req) (reply req true "") w
    = (Ret tt, World (delivered idf outf (Marshal_Res (reply req true "")) (local w)) (remote w)))
    by (by apply tell_open). destruct w as [lw rw]. simpl in *.
  destruct (conns lw !! id) as [[[] out]|] eqn:Ec; [by destruct (Hclosed out)|exact G|exact G].
Qed.

(** Storing a user is an upsert: if [InserUserInfo] returns nil the user reads
    back by its key and every other user as before; if it fails the table is
    unchanged, and it fails only when the database does, in particular not on an
    existing key. *)
Theorem user_upsert u n err n' :
  InserUserInfo u n = (err, n') ->
  (err = None <-> db_fails n = None) /\
  (err = None -> GetUserInfo (Id u) n' = Ok u /\
     (forall k, k <> Id u -> GetUserInfo k n' = GetUserInfo k n) /\
     UserCount n' = Ok (if decide (is_Some (users n !! Id u)) then size (users n) else S (size (users n)))) /\
  (err <> None -> n' = n).
Proof.
  unfold InserUserInfo, db_Create, db_Save, GetUserInfo, UserCount. intros E.
  destruct (db_fails n) as [e|] eqn:F; [rewrite F in E; simplify_eq; split_and!; done|].
  destruct (users n !! Id u) as [u0|] eqn:Eu; [rewrite F in E|]; simplify_eq/=; rewrite F.
  - split_and!; try done. intros _. rewrite lookup_insert_eq. split_and!; [done| |].
    + intros k Hk. by rewrite lookup_insert_ne.
    + f_equal. by apply map_size_insert_Some.
  - split_and!; try done. intros _. rewrite lookup_insert_eq. split_and!; [done| |].
    + intros k Hk. by rewrite lookup_insert_ne.
    + f_equal. by apply map_size_insert_None.
Qed.

(** Members a message leaves out keep the values of the connection's previous
    message: a message without [from] acts for the user of the message before. *)
Theorem ws_fields_carry_over id msg p req n :
  Unmarshal_Req msg = Ok p -> p_From p = None ->
  exists req', ws_message id msg req n = (Some req', with_ws (<[From req := id]> (WsConMap n)) n) /\
    From req' = From req /\ (p_To p = None -> To req' = To req) /\ (p_Data p = None -> Data req' = Data req).
Proof.
  intros U Pf. unfold ws_message. rewrite U. eexists. unfold apply_patch. rewrite Pf. simpl.
  split_and!; try done; by intros ->.
Qed.

(** ** The service as a whole *)

(** A node that keeps its table and on whose connections more may have been
    written. *)
Definition extends (n n' : node) : Prop :=
  WsConMap n' = WsConMap n /\
  forall id, match conns n !! id with
             | None => conns n' !! id = None
             | Some c => exists more, conns n' !! id = Some (Conn (is_open c) (sent c ++ more))
             end.

#[local] Instance extends_preorder : PreOrder extends.
Proof.
  split.
  - intros n. split; [done|]. intros id. destruct (conns n !! id) as [c|]; [|done].
    exists []. rewrite app_nil_r. by destruct c.
  - intros n1 n2 n3 [W1 C1] [W2 C2]. split; [congruence|]. intros id. specialize (C1 id). specialize (C2 id).
    destruct (conns n1 !! id) as [c|].
    + destruct C1 as [m1 E1]. rewrite E1 in C2. destruct C2 as [m2 E2]. simpl in E2.
      exists (m1 ++ m2). by rewrite E2, app_assoc.
    + by rewrite C1 in C2.
Qed.

Lemma extends_delivered id out msg n :
  conns n !! id = Some (Conn true out) -> extends n (delivered id out msg n).
Proof.
  intros E. split; [done|]. intros id'. simpl. destruct (decide (id = id')) as [<-|].
  - rewrite E, lookup_insert_eq. by exists [msg].
  - rewrite lookup_insert_ne by done. destruct (conns n !! id') as [c|]; [|done].
    exists []. rewrite app_nil_r. by destruct c.
Qed.

Lemma extends_WriteMessage u msg n r n' : WriteMessage u msg n = (r, n') -> extends n n'.
Proof.
  intros W. unfold WriteMessage in W. destruct (WsConMap n !! u) as [i|]; [|by simplify_eq].
  destruct (conns n !! i) as [[[] out]|] eqn:E; simplify_eq; try done. by apply extends_delivered.
Qed.

Lemma extends_tell u res w r w' : tell u res w = (r, w') -> extends (local w) (local w').
Proof.
  unfold tell, send_local, SendWsMsg. intros E.
  destruct (WriteMessage u (Marshal_Res res) (local w)) as [x n] eqn:W. apply extends_WriteMessage in W.
  destruct x; by simplify_eq.
Qed.

Lemma SendRequest_local net req w r w' : SendRequest net req w = (r, w') -> local w' = local w.
Proof. unfold SendRequest. intros E. repeat case_match; by simplify_eq. Qed.

Lemma extends_Add_qr net req w r w' : Add_qr net req w = (r, w') -> extends (local w) (local w').
Proof.
  unfold Add_qr. intros E. destruct (ParseBootstrapPeers2 _) as [[|peer rest]|e]; [by simplify_eq| |by eapply extends_tell].
  case_decide.
  - destruct (SendRequest net req w) as [[a|e] w1] eqn:S; apply SendRequest_local in S; rewrite <- S;
      by eapply extends_tell.
  - unfold send_local, SendWsMsg in E. destruct (WriteMessage _ _ (local w)) as [x n] eqn:W.
    apply extends_WriteMessage in W. destruct x as [[e|]|m]; simplify_eq; try done.
    apply extends_tell in E. simpl in E. by etrans.
Qed.

Lemma extends_UploadInfo req w r w' : UploadInfo req w = (r, w') -> extends (local w) (local w').
Proof.
  unfold UploadInfo. intros E. destruct (Marshal_Data (Data req)) as [data|e]; [|by eapply extends_tell].
  destruct (InserUserInfo _ (local w)) as [err n] eqn:I.
  assert (En : extends (local w) n).
  { unfold InserUserInfo, db_Create, db_Save in I. repeat case_match; simplify_eq; try done;
      by split; [|intros id; simpl; destruct (conns (local w) !! id) as [c|]; [exists []; rewrite app_nil_r; destruct c|]]. }
  destruct err as [err|]; apply extends_tell in E; simpl in E; by etrans.
Qed.

Lemma extends_run_job net req w : extends (local w) (local (run_job net req w)).
Proof.
  unfold run_job. destruct (initWsRoute net req) as [h|] eqn:Eh; [|done].
  assert (Hh : forall r w', h w = (r, w') -> extends (local w) (local w')).
  { unfold initWsRoute in Eh. repeat case_decide; simplify_eq; intros r w' E;
      [by eapply extends_UploadInfo|by eapply extends_Add_qr|by eapply extends_Add_qr]. }
  destruct (h w) as [[[]|m] w'] eqn:E; specialize (Hh _ _ eq_refl); [done|]. simpl. destruct Hh as [E1 E2]. by split.
Qed.

(** What holds of a running service: users are registered with connections that
    exist, a read loop has an open connection, and the sender of a pending
    request is registered. *)
Record service_inv (s : service) : Prop := {
  inv_table : forall u id, WsConMap (local (s_world s)) !! u = Some id ->
    is_Some (conns (local (s_world s)) !! id);
  inv_loops : forall id req, loops s !! id = Some req ->
    exists out, conns (local (s_world s)) !! id = Some (Conn true out);
  inv_jobs : forall req, req ∈ jobs s -> is_Some (WsConMap (local (s_world s)) !! From req)
}.

Lemma service_inv_extends w w' ls js js' :
  service_inv (Service w ls js) -> extends (local w) (local w') -> (forall r, r ∈ js' -> r ∈ js) ->
  service_inv (Service w' ls js').
Proof.
  intros [It Il Ij] [W C] Hj. split; simpl in *; rewrite ?W; auto.
  - intros u id E. apply It in E as [c Ec]. specialize (C id). rewrite Ec in C. destruct C as [? C]. eauto.
  - intros id req E. apply Il in E as [out Ec]. specialize (C id). rewrite Ec in C. destruct C as [? C]. eauto.
Qed.

Lemma service_inv_close w ls js id :
  service_inv (Service w ls js) -> service_inv (Service (with_local (ws_Close id (local w)) w) (delete id ls) js).
Proof.
  intros [It Il Ij]. split; simpl in *; auto.
  - intros u i E. apply It in E as [c Ec]. rewrite lookup_alter. case_decide; subst; rewrite Ec; simpl; eauto.
  - intros i req [Hne E]%lookup_delete_Some. apply Il in E as [out E]. rewrite lookup_alter_ne by done. eauto.
Qed.

Lemma service_inv_step s s' : service_inv s -> step s s' -> service_inv s'.
Proof.
  intros I St. inversion St as [w ls js id Hc Hid|w ls js id msg req req' n Hc Hl M|w ls js id msg req n Hc Hl M
    |w ls js id req Hc Hl|w ls js1 js2 req net Hc]; subst.
  - destruct I as [It Il Ij]. split; simpl in *; auto.
    + intros u i E. apply It in E as [c Ec]. rewrite lookup_insert_ne by congruence. eauto.
    + intros i req [[<- <-]|[Hne E]]%lookup_insert_Some; [rewrite lookup_insert_eq; eauto|].
      rewrite lookup_insert_ne by done. eauto.
  - unfold ws_message in M. destruct (Unmarshal_Req msg) as [p|]; [|done]. simplify_eq.
    destruct I as [It Il Ij]. destruct (Il _ _ Hl) as [out Hout]. split; simpl in *.
    + intros u i [[_ <-]|[_ E]]%lookup_insert_Some; [by rewrite Hout|eauto].
    + intros i r [[<- _]|[_ E]]%lookup_insert_Some; eauto.
    + intros r [Hr|Hr%list_elem_of_singleton]%elem_of_app.
      * destruct (decide (From r = default (From req) (p_From p))) as [->|Hne];
          [rewrite lookup_insert_eq; eauto|rewrite lookup_insert_ne by auto; auto].
      * subst r. simpl. rewrite lookup_insert_eq. eauto.
  - unfold ws_message in M. destruct (Unmarshal_Req msg) as [p|]; [done|]. simplify_eq.
    by apply service_inv_close.
  - by apply service_inv_close.
  - eapply service_inv_extends; [exact I|apply extends_run_job|set_solver].
Qed.

(** The service with a freshly started node. *)
Definition started (w : world) : service := Service w ∅ [].

Lemma service_inv_reachable w s : WsConMap (local w) = ∅ -> rtc step (started w) s -> service_inv s.
Proof.
  intros E R. assert (I0 : service_inv (started w)) by (split; simpl; [rewrite E|..]; set_solver).
  revert I0. generalize (started w) R. clear. intros s0 R. induction R as [s|s1 s2 s3 St R IH]; [done|].
  intros I. by apply IH, (service_inv_step s1).
Qed.

Lemma WriteMessage_safe u msg n :
  is_Some (WsConMap n !! u) -> exists e n', WriteMessage u msg n = (Ret e, n') /\ crashed n' = crashed n /\
    WsConMap n' = WsConMap n.
Proof.
  intros [i Hi]. unfold WriteMessage. rewrite Hi. destruct (conns n !! i) as [[[] out]|]; eauto.
Qed.

Lemma tell_safe u res w :
  is_Some (WsConMap (local w) !! u) -> exists w', tell u res w = (Ret tt, w') /\
    crashed (local w') = crashed (local w).
Proof.
  intros Hu. unfold tell, send_local, SendWsMsg.
  destruct (WriteMessage_safe u (Marshal_Res res) (local w) Hu) as (e & n & -> & Hc & _). eauto.
Qed.

Lemma Add_qr_safe net req w :
  is_Some (WsConMap (local w) !! From req) ->
  (exists e, ParseBootstrapPeers2 [RemotePeer req] = Err e) \/
  (exists peer rest, ParseBootstrapPeers2 [RemotePeer req] = Ok (peer :: rest) /\
    (peer = peer_ID (local w) -> is_Some (WsConMap (local w) !! To req))) ->
  exists w', Add_qr net req w = (Ret tt, w') /\ crashed (local w') = crashed (local w).
Proof.
  intros Hf Hp. unfold Add_qr.
  destruct Hp as [[e ->]|(peer & rest & -> & Hto)]; [by apply tell_safe|]. case_decide as Hd.
  - destruct (SendRequest net req w) as [r w1] eqn:S. apply SendRequest_local in S. rewrite <- S in *.
    destruct r; by apply tell_safe.
  - assert (peer = peer_ID (local w)) as -> by (destruct (decide (peer = peer_ID (local w))); naive_solver).
    unfold send_local, SendWsMsg.
    destruct (WriteMessage_safe (To req) (Marshal_Req req) (local w) (Hto eq_refl)) as (e & n & -> & Hc & Hw).
    destruct e as [e|]; [|eauto]. rewrite <- Hc.
    change n with (local (World n (remote w))) at 2. apply tell_safe. simpl. by rewrite Hw.
Qed.

(** In every run of the service from its start, with any interleaving of
    accepted connections, messages, disconnections and handler goroutines: the
    sender of every pending request is registered, so a friend request or
    agreement whose peer address parses ends the process only if its recipient
    belongs to this box and never connected; and what was written on a
    connection is never taken back. *)
Theorem box_service_safe w s net req peer rest :
  WsConMap (local w) = ∅ -> rtc step (started w) s -> req ∈ jobs s ->
  crashed (local (s_world s)) = false ->
  Protocol req = "/user/add_qr" \/ Protocol req = "/user/agree" ->
  (exists e, ParseBootstrapPeers2 [RemotePeer req] = Err e) \/
  ParseBootstrapPeers2 [RemotePeer req] = Ok (peer :: rest) /\
    (peer = peer_ID (local (s_world s)) -> is_Some (WsConMap (local (s_world s)) !! To req)) ->
  crashed (local (run_job net req (s_world s))) = false /\
  extends (local (s_world s)) (local (run_job net req (s_world s))).
Proof.
  intros E R Hin Hc Hprot Hparse. split; [|apply extends_run_job].
  pose proof (inv_jobs _ (service_inv_reachable w s E R) _ Hin) as Hfrom.
  destruct (Add_qr_safe net req (s_world s) Hfrom) as (w' & Ew & Hcr).
  { destruct Hparse as [?|[? ?]]; [by left|right; eauto]. }
  unfold run_job, initWsRoute. rewrite decide_False by (destruct Hprot as [-> | ->]; done).
  destruct Hprot as [Hpr|Hpr].
  - rewrite decide_True by done. rewrite Ew. congruence.
  - rewrite decide_False by (by rewrite Hpr). rewrite decide_True by done. rewrite agree_Add_qr, Ew. congruence.
Qed.

End Box.

(** ** The configuration file of the box: config.go *)

Record ConfigBox := MkConfigBox { Sqlite : string; HttpServer : string; IsPrivateNet : bool }.

Class Toml := {
  toml_Marshal : ConfigBox -> result string;
  toml_Unmarshal : string -> result ConfigBox;
  toml_roundtrip : forall c s, toml_Marshal c = Ok s -> toml_Unmarshal s = Ok c
}.

Section Config.
Context `{Toml}.

Definition default_config : ConfigBox := MkConfigBox "box.db" "0.0.0.0:9988" true.
Definition zero_config : ConfigBox := MkConfigBox "" "" false.

(** [file] is [configBox.toml], [None] when it does not exist; [werr] and [rerr]
    are the errors of writing and reading it. *)
Definition initConfigBox (werr : option error) (file : option string) : outcome (option string) :=
  match file with
  | Some c => Ret (Some c)
  | None =>
      match toml_Marshal default_config with
      | Err _ => Panic "toml error"
      | Ok data => match werr with Some _ => Panic "toml error" | None => Ret (Some data) end
      end
  end.

(** The configuration and the error returned.  When the text does not parse the
    error returned is that of reading, which is nil. *)
Definition GetConfig (werr rerr : option error) (file : option string)
    : outcome (ConfigBox * option error * option string) :=
  match initConfigBox werr file with
  | Panic m => Panic m
  | Ret file =>
      match rerr, file with
      | Some e, _ => Ret (zero_config, Some e, file)
      | None, None => Ret (zero_config, Some "file does not exist", file)
      | None, Some content =>
          match toml_Unmarshal content with
          | Err _ => Ret (zero_config, None, file)
          | Ok config => Ret (config, None, file)
          end
      end
  end.

(** The box configuration: on the first start the default configuration is
    written and read back; an existing file that parses is returned and never
    overwritten; a file that does not parse yields the empty configuration with a
    nil error, so the service starts with an empty listen address instead of
    reporting the broken file. *)
Theorem box_config werr content c :
  (forall data, toml_Marshal default_config = Ok data ->
     GetConfig None None None = Ret (default_config, None, Some data)) /\
  (toml_Unmarshal content = Ok c -> GetConfig werr None (Some content) = Ret (c, None, Some content)) /\
  (forall e, toml_Unmarshal content = Err e ->
     GetConfig werr None (Some content) = Ret (zero_config, None, Some content)).
Proof.
  unfold GetConfig, initConfigBox. split_and!.
  - intros data E. rewrite E. by rewrite (toml_roundtrip _ _ E).
  - by intros ->.
  - by intros e ->.
Qed.

End Config.

(** ** Witnesses *)

Module DemoBox.

(** A line encoding of a text. *)
Fixpoint enc (s : string) : string :=
  match s with
  | EmptyString => ""
  | String c s => if Ascii.eqb c nl then String "n"%char (enc s) else String "c"%char (String c (enc s))
  end.
Fixpoint dec (s : string) : string :=
  match s with
  | String "n"%char s => String nl (dec s)
  | String "c"%char (String c s) => String c (dec s)
  | _ => ""
  end.

Lemma dec_enc s : dec (enc s) = s.
Proof.
  induction s as [|c s IH]; simpl; [done|]. destruct (Ascii.eqb_spec c nl) as [->|]; simpl; by rewrite IH.
Qed.

Lemma enc_line s : split_on nl (enc s) = [enc s].
Proof.
  induction s as [|c s IH]; simpl; [done|].
  destruct (Ascii.eqb c nl) eqn:E; simpl; [by rewrite IH|]. by rewrite E, IH.
Qed.

Definition demo_box : BoxEnv.
Proof.
  refine {| Marshal_Req := fun r => enc (To r); Marshal_Res := fun r => if res_Code r then "ok" else "failed";
            Unmarshal_Req := fun s =>
              if decide (s = "self") then Ok (MkPatch (Some "/user/add_qr") (Some "alice") (Some "alice") (Some "A") None)
              else Ok (MkPatch None None (Some s) None None);
            GetString := fun s _ => Ok (dec s); Marshal_Data := fun _ => Ok "";
            maddr := string; NewMultiaddr := fun s => Ok s; AddrInfosFromP2pAddrs := fun l => Ok l;
            Errorf := fun s => s |}.
  - intros r. apply enc_line.
  - intros r1 r2. by destruct (res_Code r1), (res_Code r2).
  - intros r. by rewrite dec_enc.
Defined.

(** Alice is connected to box [A], Bob to box [B], where Carol has left. *)
Definition boxA : node := Node "A" {[ "alice" := 1%nat; "carol" := 2%nat ]} {[ 1%nat := Conn true []; 2%nat := Conn false [] ]} ∅ None false [] "1.2.3.4".
Definition boxB : node := Node "B" {[ "bob" := 7%nat ]} {[ 7%nat := Conn true [] ]} ∅ None false [] "5.6.7.8".
Definition boxes : world := World boxA boxB.
Definition net0 : network := Network true None None false.
Definition request (to peer : string) : Req := MkReq "/user/add_qr" "alice" to peer JNull.

End DemoBox.

Section BoxWitnesses.
Import DemoBox.
Local Existing Instance demo_box.

Lemma net0_ok : net_ok net0.
Proof. split; [by left|done]. Qed.

Lemma box_remote_delivery_witness :
  Add_qr net0 (request "bob" "B") boxes
  = (Ret tt, World (delivered 1 [] "ok" boxA) (delivered 7 [] (enc "bob") boxB)) /\
  agree net0 (request "bob" "B") boxes = Add_qr net0 (request "bob" "B") boxes.
Proof.
  exact (box_remote_delivery net0 (request "bob" "B") boxes "B" [] 7 [] 1 []
    eq_refl ltac:(discriminate) net0_ok eq_refl eq_refl eq_refl eq_refl).
Defined.

Lemma box_ack_sound_witness :
  exists id out, user_conn "bob" boxB = Some (id, Conn true out) /\
    remote (Add_qr net0 (request "bob" "B") boxes).2 = delivered id out (enc "bob") boxB.
Proof.
  refine (box_ack_sound net0 (request "bob" "B") boxes (Add_qr net0 (request "bob" "B") boxes).2
    (Add_qr net0 (request "bob" "B") boxes).1 "B" [] 1 [] _ _ _ _ _ _); try reflexivity; try discriminate.
Defined.

Lemma box_unknown_recipient_crashes_witness :
  crashed (remote (run_job net0 (request "dave" "B") boxes)) = true.
Proof.
  refine (proj2 (box_unknown_recipient_crashes net0 (request "dave" "B") boxes "B" [] eq_refl eq_refl)
    _ net0_ok eq_refl eq_refl). discriminate.
Defined.

Lemma box_local_failure_acked_witness :
  Add_qr net0 (request "carol" "A") boxes = (Ret tt, World (delivered 1 [] "ok" boxA) boxB).
Proof.
  refine (box_local_failure_acked net0 (request "carol" "A") boxes "A" [] 2 1 []
    eq_refl eq_refl eq_refl _ eq_refl). intros out. discriminate.
Defined.

Lemma user_upsert_witness :
  GetUserInfo "u" (InserUserInfo (MkUser "u" "nick" "img") boxA).2 = Ok (MkUser "u" "nick" "img").
Proof.
  apply (proj1 (proj2 (user_upsert (MkUser "u" "nick" "img") boxA None
    (InserUserInfo (MkUser "u" "nick" "img") boxA).2 eq_refl)) eq_refl).
Defined.

Lemma ws_fields_carry_over_witness :
  exists req', ws_message 1 "bob" (request "carol" "A") boxA
    = (Some req', with_ws (<["alice" := 1%nat]> (WsConMap boxA)) boxA) /\ From req' = "alice" /\
    (Some "bob" = None -> To req' = "carol") /\ (None = @None json -> Data req' = JNull).
Proof.
  exact (ws_fields_carry_over 1 "bob" (MkPatch None None (Some "bob") None None) (request "carol" "A") boxA
    eq_refl eq_refl).
Defined.

(** Alice connects to an empty box and asks for herself. *)
Definition box0 : node := Node "A" ∅ ∅ ∅ None false [] "1.2.3.4".
Definition world0 : world := World box0 boxB.

Lemma box_service_safe_witness :
  exists s req, rtc step (started world0) s /\ req ∈ jobs s /\
    crashed (local (run_job net0 req (s_world s))) = false.
Proof.
  set (n1 := with_conns (<[1%nat := Conn true []]> ∅) box0).
  set (r1 := MkReq "/user/add_qr" "alice" "alice" "A" JNull).
  set (n2 := with_ws (<["alice" := 1%nat]> ∅) n1).
  set (s2 := Service (World n2 boxB) (<[1%nat := r1]> (<[1%nat := zero_Req]> ∅)) [r1]).
  assert (R : rtc step (started world0) s2).
  { apply (rtc_l _ _ (Service (World n1 boxB) (<[1%nat := zero_Req]> ∅) [])).
    - exact (step_accept world0 ∅ [] 1 eq_refl eq_refl).
    - apply rtc_once.
      exact (step_message (World n1 boxB) (<[1%nat := zero_Req]> ∅) [] 1 "self" zero_Req r1 n2 eq_refl eq_refl eq_refl). }
  exists s2, r1. split; [exact R|]. split; [apply list_elem_of_singleton; reflexivity|].
  refine (proj1 (box_service_safe world0 s2 net0 r1 "A" [] eq_refl R _ eq_refl (or_introl eq_refl)
    (or_intror (conj eq_refl _)))).
  - apply list_elem_of_singleton. reflexivity.
  - intros _. exists 1%nat. reflexivity.
Defined.

End BoxWitnesses.

Section TomlWitness.

#[local] Instance ConfigBox_eq_dec : EqDecision ConfigBox.
Proof. solve_decision. Defined.

(** Only the default configuration is ever written. *)
Definition demo_toml : Toml.
Proof.
  refine {| toml_Marshal := fun c => if decide (c = default_config) then Ok "default" else Err "toml error";
            toml_Unmarshal := fun s => if decide (s = "default") then Ok default_config else Err "parse error" |}.
  intros c s. destruct (decide (c = default_config)) as [->|]; [by intros [= <-]|done].
Defined.
Local Existing Instance demo_toml.

Lemma box_config_witness :
  GetConfig None None None = Ret (default_config, None, Some "default") /\
  GetConfig None None (Some "[broken") = Ret (zero_config, None, Some "[broken").
Proof.
  split.
  - exact (proj1 (box_config None "default" default_config) "default" eq_refl).
  - exact (proj2 (proj2 (box_config None "[broken" default_config)) "parse error" eq_refl).
Defined.

End TomlWitness.
