(* ===== verification/P2P.v ===== *)
(** Forwarding of libp2p streams: [p2p/stream.go], [p2p/listener.go],
    [p2p/local.go], [p2p/remote.go] and [p2p/p2p.go].

    A stream joins a local connection and a remote stream, named by numbers; the
    set [open_ends] has those that are open.  The registry counts the streams of
    each peer and tags the peers in the connection manager.  [nextID] is a 64-bit
    counter.  Each registered stream starts two copying goroutines, each of which
    ends by closing or resetting the stream. *)
From Stdlib Require Import ZArith Lia String.
From stdpp Require Import base list strings gmap sets fin_maps relations.
From S2P Require Import Prelude.

Local Open Scope Z_scope.

(** ** Streams *)

Record Stream := MkStream {
  id : Z;
  s_proto : string;
  s_peer : string;
  Local_ : nat;
  Remote : nat;
}.

Record StreamRegistry := MkRegistry {
  Streams : gmap Z Stream;
  conns : gmap string Z;
  nextID : Z;
  tags : gset string;
  open_ends : gset nat;
}.

Definition empty_registry : StreamRegistry := MkRegistry ∅ ∅ 0 ∅ ∅.

(** [conns[p]]: zero when absent. *)
Definition count_of (p : string) (r : StreamRegistry) : Z := default 0 (conns r !! p).

Definition Register (s : Stream) (r : StreamRegistry) : Stream * StreamRegistry :=
  let s := MkStream (nextID r) (s_proto s) (s_peer s) (Local_ s) (Remote s) in
  (s, MkRegistry (<[nextID r := s]> (Streams r)) (<[s_peer s := count_of (s_peer s) r + 1]> (conns r))
        (u64 (nextID r + 1)) ({[ s_peer s ]} ∪ tags r) (open_ends r)).

Definition Deregister (streamID : Z) (r : StreamRegistry) : StreamRegistry :=
  match Streams r !! streamID with
  | None => r
  | Some s =>
      let p := s_peer s in
      let n := count_of p r - 1 in
      if n <? 1
      then MkRegistry (delete streamID (Streams r)) (delete p (conns r)) (nextID r) (tags r ∖ {[ p ]}) (open_ends r)
      else MkRegistry (delete streamID (Streams r)) (<[p := n]> (conns r)) (nextID r) (tags r) (open_ends r)
  end.

Definition close_ends (s : Stream) (r : StreamRegistry) : StreamRegistry :=
  MkRegistry (Streams r) (conns r) (nextID r) (tags r) (open_ends r ∖ {[ Local_ s; Remote s ]}).

(** [Close] and [Reset] differ in how the remote end is closed. *)
Definition Registry_Close (s : Stream) (r : StreamRegistry) : StreamRegistry :=
  Deregister (id s) (close_ends s r).
Definition Registry_Reset (s : Stream) (r : StreamRegistry) : StreamRegistry :=
  Deregister (id s) (close_ends s r).

(** How a copying goroutine of [startStreaming] ends. *)
Definition copy_done (s : Stream) (err : option error) (r : StreamRegistry) : StreamRegistry :=
  match err with
  | Some _ => Registry_Reset s r
  | None => Registry_Close s r
  end.

(** ** Listeners *)

Inductive Listener :=
| localListener (proto laddr peer : string) (listener : nat)
| remoteListener (proto addr : string) (reportRemote : bool).

Definition key (l : Listener) : string :=
  match l with
  | localListener _ laddr _ _ => laddr
  | remoteListener proto _ _ => proto
  end.

Abbreviation Listeners := (gmap string Listener).

Definition Listeners_Register (l : Listener) (r : Listeners) : option error * Listeners :=
  match r !! key l with
  | Some _ => (Some "listener already registered", r)
  | None => (None, <[key l := l]> r)
  end.

(** The loop of [Close] over the entries of the map. *)
Definition close_loop (matchFunc : Listener -> bool) (entries : list (string * Listener)) (r : Listeners)
    : Listeners * list Listener :=
  fold_left (fun st kv =>
    let '(r, todo) := st in
    let l := kv.2 in
    if negb (matchFunc l) then (r, todo)
    else match r !! key l with
         | Some _ => (delete (key l) r, todo ++ [l])
         | None => (r, todo)
         end) entries (r, []).

(** The table, the listeners that are closed and their number. *)
Definition Listeners_Close (matchFunc : Listener -> bool) (r : Listeners) : Listeners * list Listener * nat :=
  let '(r', todo) := close_loop matchFunc (map_to_list r) r in (r', todo, length todo).

(** ** The service *)

Record P2P := MkP2P {
  ListenersLocal : Listeners;
  ListenersP2P : Listeners;
  registry : StreamRegistry;
  os_listeners : gset nat;
}.

Definition New : P2P := MkP2P ∅ ∅ empty_registry ∅.

Definition with_registry (r : StreamRegistry) (p : P2P) : P2P :=
  MkP2P (ListenersLocal p) (ListenersP2P p) r (os_listeners p).

Definition CheckProtoExists (protos : list string) (proto : string) : bool :=
  existsb (fun p => bool_decide (p = proto)) protos.

(** [ForwardLocal]: [listen] is what [manet.Listen] returns, the listener and its
    address.  A listener that cannot be registered stays open. *)
Definition ForwardLocal (listen : result (nat * string)) (peer proto : string) (p : P2P)
    : result Listener * P2P :=
  match listen with
  | Err e => (Err e, p)
  | Ok (maListener, laddr) =>
      let l := localListener proto laddr peer maListener in
      let open_ := {[ maListener ]} ∪ os_listeners p in
      match Listeners_Register l (ListenersLocal p) with
      | (Some e, _) => (Err e, MkP2P (ListenersLocal p) (ListenersP2P p) (registry p) open_)
      | (None, ls) => (Ok l, MkP2P ls (ListenersP2P p) (registry p) open_)
      end
  end.

Definition ForwardRemote (proto addr : string) (reportRemote : bool) (p : P2P) : result Listener * P2P :=
  let l := remoteListener proto addr reportRemote in
  match Listeners_Register l (ListenersP2P p) with
  | (Some e, _) => (Err e, p)
  | (None, ls) => (Ok l, MkP2P (ListenersLocal p) ls (registry p) (os_listeners p))
  end.

Definition open_end (e : nat) (r : StreamRegistry) : StreamRegistry :=
  MkRegistry (Streams r) (conns r) (nextID r) (tags r) ({[ e ]} ∪ open_ends r).
Definition close_end (e : nat) (r : StreamRegistry) : StreamRegistry :=
  MkRegistry (Streams r) (conns r) (nextID r) (tags r) (open_ends r ∖ {[ e ]}).

(** [setupStream] of a local listener for the accepted connection [local]; [dial]
    is the new libp2p stream. *)
Definition setupStream (proto peer : string) (local : nat) (dial : result nat) (r : StreamRegistry)
    : StreamRegistry :=
  match dial with
  | Err _ => close_end local r
  | Ok remote => (Register (MkStream 0 proto peer local remote) (open_end remote r)).2
  end.

(** [handleStream] of a remote listener: [dial] is the connection to the target,
    [report] whether the peer identity could be written, [peerMa] whether the
    peer's address is valid. *)
Definition handleStream (l_proto : string) (reportRemote : bool) (remote : nat) (peer : string)
    (dial : result nat) (report peerMa : bool) (r : StreamRegistry) : StreamRegistry :=
  match dial with
  | Err _ => close_end remote r
  | Ok local =>
      let r := open_end local r in
      if reportRemote && negb report then close_end remote r
      else if negb peerMa then close_end remote r
      else (Register (MkStream 0 l_proto peer local remote) r).2
  end.

(** The stream handler [newListenersP2P] installs: the protocols it accepts and the
    listener an incoming stream goes to. *)
Definition p2p_match (reg : Listeners) (p : string) : bool := bool_decide (is_Some (reg !! p)).
Definition p2p_dispatch (reg : Listeners) (proto : string) : option Listener := reg !! proto.

(** ** The registry counts streams *)

Definition of_peer (p : string) (m : gmap Z Stream) : gmap Z Stream :=
  filter (fun kv => s_peer kv.2 = p) m.

Definition streams_of (p : string) (m : gmap Z Stream) : Z := Z.of_nat (size (of_peer p m)).

Lemma streams_of_insert p i s m : m !! i = None ->
  streams_of p (<[i := s]> m) = if decide (s_peer s = p) then streams_of p m + 1 else streams_of p m.
Proof.
  intros Hi. unfold streams_of, of_peer. case_decide as Hp.
  - rewrite map_filter_insert_True by done. rewrite map_size_insert_None; [lia|].
    rewrite map_lookup_filter_None. by left.
  - rewrite map_filter_insert_not'; [done|done|]. intros y E. congruence.
Qed.

Lemma streams_of_delete p i s m : m !! i = Some s ->
  streams_of p (delete i m) = if decide (s_peer s = p) then streams_of p m - 1 else streams_of p m.
Proof.
  intros Hi. unfold streams_of, of_peer. rewrite map_filter_delete. case_decide as Hp.
  - rewrite map_size_delete_Some by (exists s; by apply map_lookup_filter_Some).
    assert (size (filter (fun kv : Z * Stream => s_peer kv.2 = p) m) <> 0%nat); [|lia].
    rewrite map_size_non_empty_iff. intros E.
    assert (filter (fun kv : Z * Stream => s_peer kv.2 = p) m !! i = Some s) as Hs by (by apply map_lookup_filter_Some).
    by rewrite E in Hs.
  - rewrite delete_id; [done|]. rewrite map_lookup_filter_None. right. intros x Hx. by simplify_eq.
Qed.

Lemma streams_of_nonneg p m : 0 <= streams_of p m.
Proof. unfold streams_of. lia. Qed.

Lemma streams_of_pos p i s m : m !! i = Some s -> s_peer s = p -> 0 < streams_of p m.
Proof.
  intros Hi Hp. pose proof (streams_of_delete p i s m Hi) as E. rewrite decide_True in E by done.
  pose proof (streams_of_nonneg p (delete i m)). lia.
Qed.

Record registry_inv (r : StreamRegistry) : Prop := {
  inv_ids : forall i s, Streams r !! i = Some s -> id s = i /\ 0 <= i < nextID r;
  inv_count : forall p, conns r !! p = if decide (streams_of p (Streams r) = 0) then None
                                     else Some (streams_of p (Streams r));
  inv_tags : forall p, p ∈ tags r <-> is_Some (conns r !! p)
}.

Lemma inv_count_of r p : registry_inv r -> count_of p r = streams_of p (Streams r).
Proof. intros I. unfold count_of. rewrite (inv_count _ I). case_decide; simpl; lia. Qed.

Lemma Register_inv s r : registry_inv r -> 0 <= nextID r -> nextID r + 1 < 2 ^ 64 ->
  registry_inv (Register s r).2 /\ nextID (Register s r).2 = nextID r + 1 /\
  Streams r !! nextID r = None.
Proof.
  intros I H0 Hb.
  assert (Hn : Streams r !! nextID r = None).
  { destruct (Streams r !! nextID r) as [x|] eqn:E; [|done]. apply (inv_ids _ I) in E. lia. }
  assert (Hu : u64 (nextID r + 1) = nextID r + 1) by (apply wrapU_small; unfold inU; lia).
  split_and!; [|done|done]. unfold Register. split; simpl; rewrite ?Hu.
  - intros i x [[<- <-]|[Hne E]]%lookup_insert_Some; [simpl; split; [done|lia]|].
    apply (inv_ids _ I) in E. lia.
  - intros p. rewrite streams_of_insert by done. simpl. rewrite (inv_count_of _ _ I).
    pose proof (streams_of_nonneg p (Streams r)).
    destruct (decide (s_peer s = p)) as [<-|Hp].
    + rewrite lookup_insert_eq, decide_False by lia. done.
    + rewrite lookup_insert_ne by done. apply (inv_count _ I).
  - intros p. destruct (decide (s_peer s = p)) as [<-|Hp].
    + rewrite lookup_insert_eq. set_solver.
    + rewrite lookup_insert_ne by done. rewrite <- (inv_tags _ I). set_solver.
Qed.

Lemma Deregister_inv i r : registry_inv r -> registry_inv (Deregister i r).
Proof.
  intros I. unfold Deregister. destruct (Streams r !! i) as [s|] eqn:E; [|done].
  pose proof (streams_of_pos (s_peer s) i s _ E eq_refl) as Hpos. rewrite (inv_count_of _ _ I).
  assert (Hids : forall j x, delete i (Streams r) !! j = Some x -> id x = j /\ 0 <= j < nextID r).
  { intros j x [_ Hx]%lookup_delete_Some. by apply (inv_ids _ I). }
  destruct (Z.ltb_spec (streams_of (s_peer s) (Streams r) - 1) 1) as [Hl|Hl]; split; simpl; try done.
  - intros p. rewrite (streams_of_delete p i s) by done. destruct (decide (s_peer s = p)) as [<-|Hp].
    + rewrite lookup_delete_eq. by rewrite decide_True by lia.
    + rewrite lookup_delete_ne by done. apply (inv_count _ I).
  - intros p. destruct (decide (p = s_peer s)) as [->|Hp].
    + rewrite lookup_delete_eq. split; [set_solver|by intros []].
    + rewrite lookup_delete_ne by done. rewrite <- (inv_tags _ I). set_solver.
  - intros p. rewrite (streams_of_delete p i s) by done. destruct (decide (s_peer s = p)) as [<-|Hp].
    + rewrite lookup_insert_eq. by rewrite decide_False by lia.
    + rewrite lookup_insert_ne by done. apply (inv_count _ I).
  - intros p. destruct (decide (p = s_peer s)) as [->|Hp].
    + rewrite lookup_insert_eq. rewrite (inv_tags _ I), (inv_count _ I), decide_False by lia. naive_solver.
    + rewrite lookup_insert_ne by done. apply (inv_tags _ I).
Qed.

Lemma close_ends_inv s r : registry_inv r -> registry_inv (close_ends s r).
Proof. intros [I1 I2 I3]. by split. Qed.

Lemma Deregister_Streams i r : Streams (Deregister i r) = delete i (Streams r).
Proof.
  unfold Deregister. destruct (Streams r !! i) eqn:E; [by case_match|]. by rewrite delete_id.
Qed.

Lemma Deregister_nextID i r : nextID (Deregister i r) = nextID r.
Proof. unfold Deregister. by repeat case_match. Qed.

Lemma Deregister_ends i r : open_ends (Deregister i r) = open_ends r.
Proof. unfold Deregister. by repeat case_match. Qed.

(** ** Runs *)

(** The registry and the copying goroutines that are still running. *)
Record running := Running { reg : StreamRegistry; copies : list Stream }.

Inductive step : running -> running -> Prop :=
| step_register s r cs :
    nextID r + 1 < 2 ^ 64 ->
    step (Running r cs)
         (Running (Register s (open_end (Remote s) (open_end (Local_ s) r))).2
                  (cs ++ let s' := (Register s r).1 in [s'; s']))
| step_copy_done r cs1 s cs2 err :
    step (Running r (cs1 ++ s :: cs2)) (Running (copy_done s err r) (cs1 ++ cs2))
| step_user_close r cs i s :
    Streams r !! i = Some s -> step (Running r cs) (Running (Registry_Close s r) cs).

(** Streams that are registered are those not finished: identities are never
    reused, so a late end of a copy cannot remove another stream. *)
Record running_inv (x : running) : Prop := {
  run_reg : registry_inv (reg x);
  run_next : 0 <= nextID (reg x);
  run_copies : forall s, s ∈ copies x -> id s < nextID (reg x);
  run_same : forall s s', s ∈ copies x -> Streams (reg x) !! id s = Some s' -> s' = s
}.

Lemma close_any_inv s r cs cs' :
  running_inv (Running r cs) -> (forall c, c ∈ cs' -> c ∈ cs) ->
  running_inv (Running (Registry_Close s r) cs').
Proof.
  intros [I0 I1 I2 I3] Hc. unfold Registry_Close. split; simpl in *.
  - by apply Deregister_inv, close_ends_inv.
  - by rewrite Deregister_nextID.
  - intros c Hin. rewrite Deregister_nextID. simpl. auto.
  - intros c c' Hin. rewrite Deregister_Streams. simpl. intros [_ E]%lookup_delete_Some. eauto.
Qed.

Lemma running_inv_step x y : running_inv x -> step x y -> running_inv y.
Proof.
  intros I St. destruct St as [s r cs Hb|r cs1 s cs2 err|r cs i s Hs].
  - destruct I as [I0 I1 I2 I3]. simpl in *.
    assert (I0' : registry_inv (open_end (Remote s) (open_end (Local_ s) r))) by (destruct I0; by split).
    destruct (Register_inv s _ I0' I1 Hb) as (J & Jn & Jf). simpl in Jn, Jf. split; simpl reg; simpl copies.
    + done.
    + rewrite Jn. simpl. lia.
    + rewrite Jn. intros c [Hc|Hc]%elem_of_app; [apply I2 in Hc; simpl; lia|].
      assert (c = (Register s r).1) as -> by set_solver. simpl. lia.
    + intros c c' Hc. simpl. intros [[E <-]|[Hne E]]%lookup_insert_Some.
      * apply elem_of_app in Hc as [Hc|Hc]; [apply I2 in Hc; lia|]. set_solver.
      * apply elem_of_app in Hc as [Hc|Hc]; [eauto|]. set_solver.
  - assert (Hsub : forall c, c ∈ cs1 ++ cs2 -> c ∈ cs1 ++ s :: cs2) by set_solver.
    destruct err; simpl; by eapply close_any_inv.
  - by eapply close_any_inv.
Qed.

Lemma running_inv_start : running_inv (Running empty_registry []).
Proof.
  split; simpl; [|done|set_solver|set_solver]. split; simpl.
  - intros i s. by rewrite lookup_empty.
  - intros p. by rewrite lookup_empty.
  - intros p. rewrite lookup_empty. split; [set_solver|by intros []].
Qed.

Lemma running_inv_reachable x : rtc step (Running empty_registry []) x -> running_inv x.
Proof.
  intros R. pose proof running_inv_start as I0. revert I0. generalize dependent x.
  generalize (Running empty_registry []). intros s0 x R. induction R as [|a b c St R IH]; [done|].
  intros I. by apply IH, (running_inv_step a).
Qed.

(** ** Listeners *)

Definition keys_ok (r : Listeners) : Prop := forall k l, r !! k = Some l -> key l = k.

Definition close_step (m : Listener -> bool) (st : Listeners * list Listener) (kv : string * Listener)
    : Listeners * list Listener :=
  let '(r, todo) := st in
  let l := kv.2 in
  if negb (m l) then (r, todo)
  else match r !! key l with
       | Some _ => (delete (key l) r, todo ++ [l])
       | None => (r, todo)
       end.

Lemma close_loop_spec m es r todo :
  NoDup es.*1 -> (forall k l, (k, l) ∈ es -> r !! k = Some l /\ key l = k) ->
  let '(r', todo') := fold_left (close_step m) es (r, todo) in
  todo' = todo ++ filter (fun l => m l = true) es.*2 /\
  forall k, r' !! k = match r !! k with
                      | Some l => if decide (m l = true /\ k ∈ es.*1) then None else Some l
                      | None => None
                      end.
Proof.
  revert r todo. induction es as [|[k l] es IH]; intros r todo N Hes; csimpl.
  { rewrite filter_nil, app_nil_r. split; [done|]. intros k. destruct (r !! k); [|done].
    rewrite decide_False; [done|]. set_solver. }
  apply NoDup_cons in N as [Hk N]. destruct (Hes k l) as [Hr Hkey]; [set_solver|].
  rewrite filter_cons. destruct (m l) eqn:Em; simpl.
  - rewrite Hkey, Hr.
    assert (Hes' : forall k' l', (k', l') ∈ es -> delete k r !! k' = Some l' /\ key l' = k').
    { intros k' l' Hin. rewrite lookup_delete_ne; [apply Hes; set_solver|].
      intros ->. apply Hk, list_elem_of_fmap. by exists (k', l'). }
    specialize (IH (delete k r) (todo ++ [l]) N Hes'). destruct (fold_left _ _ _) as [r' todo'].
    destruct IH as [-> IH]. split; [by rewrite <- app_assoc|]. intros k'. rewrite IH.
    destruct (decide (k = k')) as [<-|Hne].
    + rewrite lookup_delete_eq, Hr. rewrite decide_True; [done|]. set_solver.
    + rewrite lookup_delete_ne by done. destruct (r !! k') as [l'|]; [|done].
      assert (Hiff : (m l' = true /\ k' ∈ es.*1) <-> (m l' = true /\ k' ∈ k :: es.*1)) by set_solver.
      repeat case_decide; tauto.
  - assert (Hes' : forall k' l', (k', l') ∈ es -> r !! k' = Some l' /\ key l' = k')
      by (intros; apply Hes; set_solver).
    specialize (IH r todo N Hes'). destruct (fold_left _ _ _) as [r' todo'].
    destruct IH as [-> IH]. split; [done|]. intros k'. rewrite IH.
    destruct (r !! k') as [l'|] eqn:El; [|done].
    destruct (decide (k = k')) as [<-|Hne].
    + assert (m l' = false) as Eml by congruence. rewrite Eml. by repeat case_decide; destruct_and?.
    + assert (Hiff : (m l' = true /\ k' ∈ es.*1) <-> (m l' = true /\ k' ∈ k :: es.*1)) by set_solver.
      repeat case_decide; tauto.
Qed.

(** ** Properties *)

(** C27: The registry is exact in every run: through any interleaving of
    registrations, ends of the copying goroutines (twice per stream) and closes by
    the user, a peer has an entry in the count table exactly when one of its
    streams is registered, with the number of its streams, it is tagged in the
    connection manager exactly then, and every stream is filed under its own
    identity. *)
Theorem p2p_registry_counts x p :
  rtc step (Running empty_registry []) x ->
  let r := reg x in
  (conns r !! p = None <-> streams_of p (Streams r) = 0) /\
  (forall n, conns r !! p = Some n -> n = streams_of p (Streams r) /\ 0 < n) /\
  (p ∈ tags r <-> exists i s, Streams r !! i = Some s /\ s_peer s = p) /\
  (forall i s, Streams r !! i = Some s -> id s = i).
Proof.
  intros R r. destruct (running_inv_reachable x R) as [I _ _ _]. fold r in I.
  pose proof (inv_count _ I p) as C. pose proof (streams_of_nonneg p (Streams r)) as N.
  split_and!.
  - rewrite C. by case_decide.
  - intros n Hn. rewrite C in Hn. case_decide; simplify_eq. lia.
  - rewrite (inv_tags _ I), C. split.
    + intros [n Hn]. case_decide as Hz; [done|].
      destruct (map_choose (of_peer p (Streams r))) as (i & s & E).
      { intros E. apply Hz. unfold streams_of. by rewrite E. }
      apply map_lookup_filter_Some in E as [E Hp]. eauto.
    + intros (i & s & E & Hp). pose proof (streams_of_pos p i s _ E Hp).
      rewrite decide_False by lia. eauto.
  - intros i s E. by apply (inv_ids _ I) in E as [? _].
Qed.

(** A finished copy removes its own stream and nothing else: in every
    reachable state, when a copying goroutine ends (with or without an error) its
    stream is no longer registered, both its ends are closed, every other stream
    stays registered, and a second end of the same stream changes nothing. *)
Theorem p2p_copy_end_exact x s err err' :
  rtc step (Running empty_registry []) x -> s ∈ copies x ->
  let r' := copy_done s err (reg x) in
  Streams r' !! id s = None /\ (Local_ s ∉ open_ends r') /\ (Remote s ∉ open_ends r') /\
  (forall i s', Streams (reg x) !! i = Some s' -> s' <> s -> Streams r' !! i = Some s') /\
  copy_done s err' r' = r'.
Proof.
  intros R Hin r'. destruct (running_inv_reachable x R) as [I In Ic Is].
  assert (Hr : r' = Deregister (id s) (close_ends s (reg x))) by (unfold r'; by destruct err).
  assert (Hst : Streams r' = delete (id s) (Streams (reg x))) by (by rewrite Hr, Deregister_Streams).
  assert (Hend : open_ends r' = (open_ends (reg x) ∖ {[ Local_ s; Remote s ]})) by (by rewrite Hr, Deregister_ends).
  rewrite Hst, Hend. split_and!.
  - apply lookup_delete_eq.
  - set_solver.
  - set_solver.
  - intros i s' E Hne. rewrite lookup_delete_ne; [done|]. intros <-. by apply Hne, Is.
  - assert (copy_done s err' r' = Deregister (id s) (close_ends s r')) as -> by (by destruct err').
    unfold Deregister. simpl. rewrite Hst, lookup_delete_eq. unfold close_ends. destruct r'; simpl in *.
    f_equal. set_solver.
Qed.

(** Closing listeners: when every listener is filed under its key,
    [Listeners.Close] removes exactly the listeners the function matches, closes
    each of them once, and returns their number; the others stay registered, and
    a key that was removed can be registered again. *)
Theorem p2p_listeners_close m r r' todo n :
  keys_ok r -> Listeners_Close m r = (r', todo, n) ->
  r' = filter (fun kv => m kv.2 = false) r /\ keys_ok r' /\
  todo = filter (fun l => m l = true) (map_to_list r).*2 /\ n = length todo /\
  (forall l, l ∈ todo -> (Listeners_Register l r').1 = None).
Proof.
  intros Hk E. unfold Listeners_Close in E.
  pose proof (close_loop_spec m (map_to_list r) r [] (NoDup_fst_map_to_list r)) as S.
  change (close_loop m (map_to_list r) r) with (fold_left (close_step m) (map_to_list r) (r, [])) in E.
  destruct (fold_left (close_step m) (map_to_list r) (r, [])) as [r1 todo1].
  destruct S as [St Sr]; [intros k l Hin%elem_of_map_to_list; auto|]. simpl in St. simplify_eq.
  assert (Hr' : r' = filter (fun kv => m kv.2 = false) r).
  { apply map_eq. intros k. rewrite Sr. destruct (r !! k) as [l|] eqn:El.
    - assert (Hin : k ∈ (map_to_list r).*1).
      { apply list_elem_of_fmap. exists (k, l). split; [done|]. by apply elem_of_map_to_list. }
      destruct (m l) eqn:Em.
      + rewrite decide_True by done. symmetry. apply map_lookup_filter_None. right.
        intros x Hx. simplify_eq/=. congruence.
      + rewrite decide_False by naive_solver. symmetry. by apply map_lookup_filter_Some.
    - symmetry. apply map_lookup_filter_None. by left. }
  split_and!; try done.
  - rewrite Hr'. intros k l [E _]%map_lookup_filter_Some. by apply Hk.
  - intros l [Hm Hl]%list_elem_of_filter. unfold Listeners_Register.
    apply list_elem_of_fmap in Hl as ([k l'] & -> & Hl%elem_of_map_to_list). simpl in *.
    rewrite (Hk _ _ Hl). rewrite Hr'.
    destruct (filter _ r !! k) eqn:F; [|done]. apply map_lookup_filter_Some in F as [F1 F2]. simplify_eq/=. congruence.
Qed.

(** An incoming stream whose peer identity cannot be reported leaks the
    connection to the target: the remote end is reset and the stream is not
    registered, but the local connection that was dialled stays open. *)
Theorem p2p_report_failure_leaks proto remote peer local pm r :
  local <> remote ->
  let r' := handleStream proto true remote peer (Ok local) false pm r in
  Streams r' = Streams r /\ (remote ∉ open_ends r') /\ local ∈ open_ends r'.
Proof. intros Hne r'. unfold r'. simpl. split_and!; set_solver. Qed.

(** ** Witnesses *)

Definition s0 : Stream := MkStream 0 "/x/ssh" "QmPeer" 1 2.
Definition run1 : running :=
  Running (Register s0 (open_end 2 (open_end 1 empty_registry))).2 [s0; s0].

Lemma run1_reachable : rtc step (Running empty_registry []) run1.
Proof. apply rtc_once. exact (step_register s0 empty_registry [] eq_refl). Defined.

Lemma p2p_registry_counts_witness :
  (conns (reg run1) !! "QmPeer" = None <-> streams_of "QmPeer" (Streams (reg run1)) = 0) /\
  conns (reg run1) !! "QmPeer" = Some 1.
Proof.
  split; [exact (proj1 (p2p_registry_counts run1 "QmPeer" run1_reachable))|reflexivity].
Defined.

Lemma p2p_copy_end_exact_witness :
  Streams (copy_done s0 None (reg run1)) !! 0 = None.
Proof.
  refine (proj1 (p2p_copy_end_exact run1 s0 None (Some "reset") run1_reachable _)). set_solver.
Defined.

Lemma p2p_listeners_close_witness :
  (Listeners_Close (fun _ => true) {[ "/x/ssh" := remoteListener "/x/ssh" "/ip4/127.0.0.1/tcp/22" false ]}).1.1
  = filter (fun kv => (fun _ => true) kv.2 = false)
      ({[ "/x/ssh" := remoteListener "/x/ssh" "/ip4/127.0.0.1/tcp/22" false ]} : Listeners).
Proof.
  refine (proj1 (p2p_listeners_close (fun _ => true) {[ "/x/ssh" := remoteListener "/x/ssh" "/ip4/127.0.0.1/tcp/22" false ]}
    _ (Listeners_Close (fun _ => true) {[ "/x/ssh" := remoteListener "/x/ssh" "/ip4/127.0.0.1/tcp/22" false ]}).1.2
    _ _ eq_refl)).
  intros k l [<- <-]%lookup_singleton_Some. reflexivity.
Defined.

Lemma p2p_report_failure_leaks_witness :
  1%nat ∈ open_ends (handleStream "/x/ssh" true 2 "QmPeer" (Ok 1%nat) false true (open_end 2 empty_registry)).
Proof. refine (proj2 (proj2 (p2p_report_failure_leaks "/x/ssh" 2 "QmPeer" 1 true (open_end 2 empty_registry) _))). done. Defined.
