(* ===== verification/Peering.v ===== *)
(** The peering service: [peering/peering.go].

    Handlers live in a store and are referred to by goroutines and timers also
    after they were removed from the table of peers.  Durations are nanoseconds.
    A reconnect timer is nil, armed with a delay, or has fired.  The goroutines
    that were started and not yet run are the list [jobs]; each critical section
    of the source is one step.  [rand.Int63n] panics on a non-positive bound. *)
From Stdlib Require Import ZArith Lia String.
From stdpp Require Import base list strings gmap sets relations.
From S2P Require Import Prelude GoStrings.

Local Open Scope Z_scope.

Definition second : Z := 1000000000.
Definition maxBackoff : Z := 10 * 60 * second.
Definition maxBackoffJitter : Z := 10.
Definition initialDelay : Z := 5 * second.

(** ** States *)

Definition StateInit : Z := 0.
Definition StateRunning : Z := 1.
Definition StateStopped : Z := 2.

Definition State_String (s : Z) : string :=
  if s =? StateInit then "init"
  else if s =? StateRunning then "running"
  else if s =? StateStopped then "stopped"
  else "unkown peering state: " +:+ FormatInt s.

(** ** Handlers *)

Inductive timer := Armed (delay : Z) | Fired.

Record peerHandler := MkHandler {
  h_peer : string;
  cancelled : bool;
  addrs : list string;
  reconnectTimer : option timer;
  nextDelay : Z;
}.

Definition set_timer (t : option timer) (h : peerHandler) : peerHandler :=
  MkHandler (h_peer h) (cancelled h) (addrs h) t (nextDelay h).

Definition setAddrs (a : list string) (h : peerHandler) : peerHandler :=
  MkHandler (h_peer h) (cancelled h) a (reconnectTimer h) (nextDelay h).

Definition getAddrs (h : peerHandler) : list string := addrs h.

Definition stop (h : peerHandler) : peerHandler :=
  MkHandler (h_peer h) true (addrs h) None (nextDelay h).

(** [rand.Int63n(n)]: the random source gives [r], reduced into the range. *)
Definition Int63n (r n : Z) : outcome Z :=
  if n <=? 0 then Panic "invalid argument to Int63n" else Ret (r mod n).

Definition cap_backoff (d r : Z) : outcome Z :=
  if maxBackoff <? d then
    match Int63n r (i64 (maxBackoff * maxBackoffJitter) / 100) with
    | Panic m => Panic m
    | Ret j => Ret (i64 (maxBackoff - j))
    end
  else Ret d.

Definition nextBackoff (r1 r2 : Z) (h : peerHandler) : outcome (Z * peerHandler) :=
  let grown :=
    if nextDelay h <? maxBackoff then
      match Int63n r1 (nextDelay h) with
      | Panic m => Panic m
      | Ret j => Ret (i64 (nextDelay h + i64 (Z.quot (nextDelay h) 2 + j)))
      end
    else Ret (nextDelay h) in
  match grown with
  | Panic m => Panic m
  | Ret d =>
      match cap_backoff d r2 with
      | Panic m => Panic m
      | Ret d => Ret (d, MkHandler (h_peer h) (cancelled h) (addrs h) (reconnectTimer h) d)
      end
  end.

(** The middle of [reconnect] after a failed [Connect]. *)
Definition reconnect_failed (r1 r2 : Z) (h : peerHandler) : outcome peerHandler :=
  match reconnectTimer h with
  | None => Ret h
  | Some _ =>
      match nextBackoff r1 r2 h with
      | Panic m => Panic m
      | Ret (d, h) => Ret (set_timer (Some (Armed d)) h)
      end
  end.

Definition stopIfConnected (connected : bool) (h : peerHandler) : peerHandler :=
  match reconnectTimer h with
  | Some _ => if connected then MkHandler (h_peer h) (cancelled h) (addrs h) None initialDelay else h
  | None => h
  end.

Definition startIfDisconnected (connected : bool) (r1 r2 : Z) (h : peerHandler) : outcome peerHandler :=
  match reconnectTimer h with
  | Some _ => Ret h
  | None =>
      if connected then Ret h
      else match nextBackoff r1 r2 h with
           | Panic m => Panic m
           | Ret (d, h) => Ret (set_timer (Some (Armed d)) h)
           end
  end.

(** ** The service *)

Inductive job :=
| JStart (h : nat)
| JStop (h : nat)
| JReconnect (h : nat).

Record PeeringService := MkService {
  handlers : gmap nat peerHandler;
  peers : gmap string nat;
  state : Z;
  protected : gset string;
  notified : bool;
  connected : gset string;
  jobs : list job;
}.

Definition NewPeeringService (conn : gset string) : PeeringService :=
  MkService ∅ ∅ StateInit ∅ false conn [].

Definition with_handlers (hs : gmap nat peerHandler) (ps : PeeringService) : PeeringService :=
  MkService hs (peers ps) (state ps) (protected ps) (notified ps) (connected ps) (jobs ps).
Definition add_jobs (js : list job) (ps : PeeringService) : PeeringService :=
  MkService (handlers ps) (peers ps) (state ps) (protected ps) (notified ps) (connected ps) (jobs ps ++ js).

Definition Start (ps : PeeringService) : option error * PeeringService :=
  if state ps =? StateRunning then (None, ps)
  else if state ps =? StateStopped then (Some "already stopped", ps)
  else (None, MkService (handlers ps) (peers ps) StateRunning (protected ps) true (connected ps)
                (jobs ps ++ (JStart <$> (map_to_list (peers ps)).*2))).

Definition GetState (ps : PeeringService) : Z := state ps.

(** [handler.stop()] for each registered peer. *)
Definition stop_all (ps : PeeringService) : gmap nat peerHandler :=
  fold_right (fun h hs => alter stop h hs) (handlers ps) (map_to_list (peers ps)).*2.

(** [Stop] ends the notifications before it takes the lock, so it is two steps. *)
Definition StopNotify (ps : PeeringService) : PeeringService :=
  MkService (handlers ps) (peers ps) (state ps) (protected ps) false (connected ps) (jobs ps).

Definition Stop_locked (ps : PeeringService) : option error * PeeringService :=
  if (state ps =? StateInit) || (state ps =? StateRunning)
  then (None, MkService (stop_all ps) (peers ps) StateStopped (protected ps) (notified ps) (connected ps) (jobs ps))
  else (None, ps).

Definition Stop (ps : PeeringService) : option error * PeeringService := Stop_locked (StopNotify ps).

Definition AddPeer (id : string) (a : list string) (ps : PeeringService) : PeeringService :=
  match peers ps !! id with
  | Some h => with_handlers (alter (setAddrs a) h (handlers ps)) ps
  | None =>
      let h := fresh (dom (handlers ps)) in
      let handler := MkHandler id (state ps =? StateStopped) a None initialDelay in
      MkService (<[h := handler]> (handlers ps)) (<[id := h]> (peers ps)) (state ps) ({[ id ]} ∪ protected ps)
        (notified ps) (connected ps)
        (jobs ps ++ if state ps =? StateRunning then [JStart h] else [])
  end.

Definition ListPeers (ps : PeeringService) : list (string * list string) :=
  map (fun '(id, h) => (id, match handlers ps !! h with Some x => addrs x | None => [] end)) (map_to_list (peers ps)).

Definition RemovePeer (id : string) (ps : PeeringService) : PeeringService :=
  match peers ps !! id with
  | None => ps
  | Some h => MkService (alter stop h (handlers ps)) (delete id (peers ps)) (state ps) (protected ps ∖ {[ id ]})
                (notified ps) (connected ps) (jobs ps)
  end.

(** The network notifications [Connected] and [Disconnected]. *)
Definition Connected (p : string) (ps : PeeringService) : PeeringService :=
  match peers ps !! p with Some h => add_jobs [JStop h] ps | None => ps end.
Definition Disconnected (p : string) (ps : PeeringService) : PeeringService :=
  match peers ps !! p with Some h => add_jobs [JStart h] ps | None => ps end.

Definition is_connected (h : peerHandler) (ps : PeeringService) : bool := bool_decide (h_peer h ∈ connected ps).

(** One goroutine runs; [err] is whether its [Connect] fails. *)
Definition run_job (j : job) (err : bool) (r1 r2 : Z) (ps : PeeringService) : outcome PeeringService :=
  match j with
  | JStart i =>
      match handlers ps !! i with
      | None => Ret ps
      | Some h =>
          match startIfDisconnected (is_connected h ps) r1 r2 h with
          | Panic m => Panic m
          | Ret h' => Ret (with_handlers (<[i := h']> (handlers ps)) ps)
          end
      end
  | JStop i =>
      match handlers ps !! i with
      | None => Ret ps
      | Some h => Ret (with_handlers (<[i := stopIfConnected (is_connected h ps) h]> (handlers ps)) ps)
      end
  | JReconnect i =>
      match handlers ps !! i with
      | None => Ret ps
      | Some h =>
          if err then
            match reconnect_failed r1 r2 h with
            | Panic m => Panic m
            | Ret h' => Ret (add_jobs [JStop i] (with_handlers (<[i := h']> (handlers ps)) ps))
            end
          else Ret (add_jobs [JStop i] ps)
      end
  end.

Definition set_connected (c : gset string) (ps : PeeringService) : PeeringService :=
  MkService (handlers ps) (peers ps) (state ps) (protected ps) (notified ps) c (jobs ps).
Definition set_jobs (js : list job) (ps : PeeringService) : PeeringService :=
  MkService (handlers ps) (peers ps) (state ps) (protected ps) (notified ps) (connected ps) js.

Inductive step : PeeringService -> PeeringService -> Prop :=
| step_start ps : step ps (Start ps).2
| step_stop_notify ps : step ps (StopNotify ps)
| step_stop_locked ps : step ps (Stop_locked ps).2
| step_add ps id a : step ps (AddPeer id a ps)
| step_remove ps id : step ps (RemovePeer id ps)
| step_connect ps p :
    step ps ((if notified ps then Connected p else fun x => x) (set_connected ({[ p ]} ∪ connected ps) ps))
| step_disconnect ps p :
    step ps ((if notified ps then Disconnected p else fun x => x) (set_connected (connected ps ∖ {[ p ]}) ps))
| step_fire ps i h d :
    handlers ps !! i = Some h -> reconnectTimer h = Some (Armed d) ->
    step ps (add_jobs [JReconnect i] (with_handlers (<[i := set_timer (Some Fired) h]> (handlers ps)) ps))
| step_job ps js1 j js2 err r1 r2 ps' :
    jobs ps = js1 ++ j :: js2 -> run_job j err r1 r2 (set_jobs (js1 ++ js2) ps) = Ret ps' -> step ps ps'.

(** ** Lemmas on the back-off *)

Definition in_range (d : Z) : Prop := initialDelay <= d <= maxBackoff.

Lemma Int63n_range r n : 0 < n -> exists j, Int63n r n = Ret j /\ 0 <= j < n.
Proof.
  intros Hn. unfold Int63n. rewrite (proj2 (Z.leb_gt _ _)) by lia.
  eexists. split; [done|]. by apply Z.mod_pos_bound.
Qed.

(** The least delay after a failed attempt. *)
Definition grown_delay (d : Z) : Z := Z.min (d + d / 2) (maxBackoff * 90 / 100).

Lemma cap_backoff_spec d r : 0 <= d < 2 ^ 62 ->
  exists d', cap_backoff d r = Ret d' /\ d' <= maxBackoff /\ Z.min d (maxBackoff * 90 / 100) <= d' /\
    (d <= maxBackoff -> d' = d).
Proof.
  intros Hd. unfold cap_backoff. destruct (Z.ltb_spec maxBackoff d) as [Hc|Hc].
  - rewrite (i64_small (maxBackoff * maxBackoffJitter)) by (vm_compute; split; congruence).
    destruct (Int63n_range r (maxBackoff * maxBackoffJitter / 100)) as (j & -> & Hj); [reflexivity|].
    change (maxBackoff * maxBackoffJitter / 100) with 60000000000 in Hj.
    unfold maxBackoff, second in *. rewrite i64_small by lia. eexists. split; [done|].
    change (10 * 60 * 1000000000 * 90 / 100) with 540000000000. lia.
  - exists d. split; [done|]. lia.
Qed.

Lemma nextBackoff_spec r1 r2 h : in_range (nextDelay h) ->
  exists d, nextBackoff r1 r2 h
            = Ret (d, MkHandler (h_peer h) (cancelled h) (addrs h) (reconnectTimer h) d) /\
    in_range d /\ grown_delay (nextDelay h) <= d.
Proof.
  intros Hr. unfold nextBackoff, in_range in *.
  assert (Hb : initialDelay = 5000000000 /\ maxBackoff = 600000000000) by done. destruct Hb as [Hi Hm].
  assert (Hg : grown_delay (nextDelay h) = Z.min (nextDelay h + nextDelay h / 2) 540000000000) by done.
  rewrite Hg.
  destruct (Z.ltb_spec (nextDelay h) maxBackoff) as [Hl|Hl].
  - destruct (Int63n_range r1 (nextDelay h)) as (j & -> & Hj); [lia|].
    rewrite Z.quot_div_nonneg by lia.
    assert (0 <= nextDelay h / 2 <= nextDelay h) by (Z.to_euclidean_division_equations; lia).
    rewrite (i64_small (nextDelay h / 2 + j)) by lia. rewrite i64_small by lia.
    destruct (cap_backoff_spec (nextDelay h + (nextDelay h / 2 + j)) r2) as (d & -> & D1 & D2 & D3); [lia|].
    change (maxBackoff * 90 / 100) with 540000000000 in D2. exists d. split; [done|]. lia.
  - assert (nextDelay h = maxBackoff) as E by lia. rewrite E.
    destruct (cap_backoff_spec maxBackoff r2) as (d & -> & D1 & D2 & D3); [lia|]. rewrite D3 by lia.
    exists maxBackoff. split; [done|]. lia.
Qed.

Lemma grown_delay_mono a b : a <= b -> grown_delay a <= grown_delay b.
Proof. intros Hab. unfold grown_delay. assert (a / 2 <= b / 2) by (apply Z.div_le_mono; lia). lia. Qed.

Lemma iter_grown_mono n a b : a <= b -> Nat.iter n grown_delay a <= Nat.iter n grown_delay b.
Proof. intros Hab. induction n as [|n IH]; simpl; [done|]. by apply grown_delay_mono. Qed.

(** The delay after a run of failed attempts with the given random numbers. *)
Fixpoint backoffs (rs : list (Z * Z)) (h : peerHandler) : outcome (Z * peerHandler) :=
  match rs with
  | [] => Ret (nextDelay h, h)
  | (r1, r2) :: rs =>
      match nextBackoff r1 r2 h with
      | Panic m => Panic m
      | Ret (_, h) => backoffs rs h
      end
  end.

Lemma backoffs_grow rs h : in_range (nextDelay h) ->
  exists d h', backoffs rs h = Ret (d, h') /\ nextDelay h' = d /\ in_range d /\
    Nat.iter (length rs) grown_delay (nextDelay h) <= d.
Proof.
  revert h. induction rs as [|[r1 r2] rs IH]; intros h Hr; simpl.
  { exists (nextDelay h), h. by split_and!. }
  destruct (nextBackoff_spec r1 r2 h Hr) as (d & -> & Hd & Hg).
  destruct (IH (MkHandler (h_peer h) (cancelled h) (addrs h) (reconnectTimer h) d) Hd) as (d' & h' & -> & E & R & G).
  exists d', h'. split_and!; try done. simpl in G. rewrite <- Nat.iter_succ, Nat.iter_succ_r.
  etrans; [apply iter_grown_mono, Hg|done].
Qed.

Lemma backoff_floor_12 d : in_range d -> 9 * 60 * second <= Nat.iter 12 grown_delay d.
Proof.
  intros [H _]. etrans; [|apply (iter_grown_mono 12 initialDelay d H)]. by vm_compute.
Qed.

Lemma backoff_floor_iter n d : 9 * 60 * second <= d -> 9 * 60 * second <= Nat.iter n grown_delay d.
Proof.
  intros H. induction n as [|n IH]; simpl; [done|]. etrans; [|apply grown_delay_mono, IH]. by vm_compute.
Qed.

(** ** The invariant of the service *)

Record handler_ok (h : peerHandler) : Prop := {
  ok_delay : in_range (nextDelay h);
  ok_timer : forall d, reconnectTimer h = Some (Armed d) -> in_range d
}.

Record peering_inv (ps : PeeringService) : Prop := {
  inv_handlers : forall i h, handlers ps !! i = Some h -> handler_ok h;
  inv_peers : forall p i, peers ps !! p = Some i -> exists h, handlers ps !! i = Some h /\ h_peer h = p;
  inv_protected : forall p, p ∈ protected ps <-> is_Some (peers ps !! p);
  inv_notified : notified ps = true -> state ps <> StateInit;
  inv_state : state ps = StateInit \/ state ps = StateRunning \/ state ps = StateStopped;
  inv_stopped : state ps = StateStopped -> forall p i h, peers ps !! p = Some i ->
                  handlers ps !! i = Some h -> cancelled h = true
}.

(** Handlers change only their timer, delay, addresses and, to cancelled, their
    context. *)
Definition evolves (hs hs' : gmap nat peerHandler) : Prop :=
  forall i h, hs !! i = Some h -> exists h', hs' !! i = Some h' /\ h_peer h' = h_peer h /\
    (cancelled h = true -> cancelled h' = true).

Lemma evolves_insert hs i h h' : hs !! i = Some h -> h_peer h' = h_peer h ->
  (cancelled h = true -> cancelled h' = true) -> evolves hs (<[i := h']> hs).
Proof.
  intros E Hp Hc j x Ex. destruct (decide (i = j)) as [<-|Hne].
  - simplify_eq. rewrite lookup_insert_eq. eauto.
  - rewrite lookup_insert_ne by done. eauto.
Qed.

Lemma peering_inv_handlers ps hs js :
  peering_inv ps -> evolves (handlers ps) hs -> (forall i h, hs !! i = Some h -> handler_ok h) ->
  peering_inv (set_jobs js (with_handlers hs ps)).
Proof.
  intros [I1 I2 I3 I4 I5 I6] Ev Hok. split; simpl; auto.
  - intros p i E. destruct (I2 p i E) as (h & Eh & Hp). destruct (Ev i h Eh) as (h' & Eh' & Hp' & _).
    exists h'. split; [done|congruence].
  - intros Hs p i h' E Eh'. destruct (I2 p i E) as (h & Eh & Hp).
    destruct (Ev i h Eh) as (h2 & Eh2 & _ & Hc). simplify_eq. eauto.
Qed.

Lemma insert_ok (hs : gmap nat peerHandler) i h' : (forall j h, hs !! j = Some h -> handler_ok h) -> handler_ok h' ->
  forall j h, <[i := h']> hs !! j = Some h -> handler_ok h.
Proof. intros Hhs Hh j h [[<- <-]|[_ E]]%lookup_insert_Some; eauto. Qed.

Lemma alter_ok f (hs : gmap nat peerHandler) i : (forall h, handler_ok h -> handler_ok (f h)) ->
  (forall j h, hs !! j = Some h -> handler_ok h) ->
  forall j h, alter f i hs !! j = Some h -> handler_ok h.
Proof. intros Hf Hhs j h [(_ & h0 & E & ->)|[_ E]]%lookup_alter_Some; eauto. Qed.

Lemma evolves_alter f hs i : (forall h, h_peer (f h) = h_peer h) ->
  (forall h, cancelled h = true -> cancelled (f h) = true) -> evolves hs (alter f i hs).
Proof.
  intros Hp Hc j h E. destruct (decide (i = j)) as [<-|Hne].
  - rewrite lookup_alter_eq, E. simpl. eauto.
  - rewrite lookup_alter_ne by done. eauto.
Qed.

Lemma stop_ok h : handler_ok h -> handler_ok (stop h).
Proof. intros [D T]. by split. Qed.
Lemma setAddrs_ok a h : handler_ok h -> handler_ok (setAddrs a h).
Proof. intros [D T]. by split. Qed.

(** *** Jobs *)

Lemma startIfDisconnected_spec b r1 r2 h : handler_ok h ->
  exists h', startIfDisconnected b r1 r2 h = Ret h' /\ handler_ok h' /\ h_peer h' = h_peer h /\
    cancelled h' = cancelled h /\ (b = false -> is_Some (reconnectTimer h')) /\
    (b = true -> h' = h).
Proof.
  intros O. pose proof O as [D T]. unfold startIfDisconnected.
  destruct (reconnectTimer h) as [t|] eqn:Et; [exists h; rewrite Et; split_and!; eauto|].
  destruct b; [by exists h|].
  destruct (nextBackoff_spec r1 r2 h D) as (d & -> & Hd & _). eexists. split; [done|]. simpl.
  split_and!; eauto; try done. split; simpl; [done|]. by intros ? [= <-].
Qed.

Lemma reconnect_failed_spec r1 r2 h : handler_ok h ->
  exists h', reconnect_failed r1 r2 h = Ret h' /\ handler_ok h' /\ h_peer h' = h_peer h /\
    cancelled h' = cancelled h.
Proof.
  intros O. pose proof O as [D T]. unfold reconnect_failed.
  destruct (reconnectTimer h) as [t|] eqn:Et; [|by exists h].
  destruct (nextBackoff_spec r1 r2 h D) as (d & -> & Hd & _). eexists. split; [done|]. simpl.
  split_and!; try done. split; simpl; [done|]. by intros ? [= <-].
Qed.

Lemma stopIfConnected_spec b h : handler_ok h ->
  handler_ok (stopIfConnected b h) /\ h_peer (stopIfConnected b h) = h_peer h /\
  cancelled (stopIfConnected b h) = cancelled h.
Proof.
  intros O. unfold stopIfConnected. destruct (reconnectTimer h) as [t|]; [destruct b|]; try done.

Qed.

Lemma run_job_inv j err r1 r2 ps : peering_inv ps ->
  exists ps', run_job j err r1 r2 ps = Ret ps' /\ peering_inv ps'.
Proof.
  intros I. pose proof (inv_handlers _ I) as Hok.
  assert (Same : forall js, peering_inv (set_jobs js ps)) by (intros js; destruct I; by split).
  assert (Put : forall i h h' js, handlers ps !! i = Some h -> handler_ok h' -> h_peer h' = h_peer h ->
    cancelled h' = cancelled h -> peering_inv (set_jobs js (with_handlers (<[i := h']> (handlers ps)) ps))).
  { intros i h h' js E O P C. apply peering_inv_handlers; [done| |by apply insert_ok].
    apply (evolves_insert _ _ h); [done|done|by rewrite C]. }
  destruct j as [i|i|i]; simpl; destruct (handlers ps !! i) as [h|] eqn:E; try by eauto.
  - destruct (startIfDisconnected_spec (is_connected h ps) r1 r2 h (Hok _ _ E)) as (h' & -> & O & P & C & _).
    eexists. split; [done|]. exact (Put i h h' (jobs ps) E O P C).
  - eexists. split; [done|]. destruct (stopIfConnected_spec (is_connected h ps) h (Hok _ _ E)) as (O & P & C).
    exact (Put i h _ (jobs ps) E O P C).
  - destruct err.
    + destruct (reconnect_failed_spec r1 r2 h (Hok _ _ E)) as (h' & -> & O & P & C).
      eexists. split; [done|]. exact (Put i h h' (jobs ps ++ [JStop i]) E O P C).
    + eexists. split; [done|]. apply Same.
Qed.

Lemma run_job_state j err r1 r2 ps ps' : run_job j err r1 r2 ps = Ret ps' -> state ps' = state ps.
Proof.
  destruct j as [i|i|i]; simpl; destruct (handlers ps !! i) as [h|]; try by intros [= <-].
  - by destruct (startIfDisconnected _ _ _ _); [intros [= <-]|].
  - destruct err; [|by intros [= <-]]. by destruct (reconnect_failed _ _ _); [intros [= <-]|].
Qed.

(** *** Operations *)

Lemma stop_all_spec ps :
  evolves (handlers ps) (stop_all ps) /\
  ((forall i h, handlers ps !! i = Some h -> handler_ok h) ->
   forall i h, stop_all ps !! i = Some h -> handler_ok h) /\
  (forall p i h, peers ps !! p = Some i -> stop_all ps !! i = Some h ->
     cancelled h = true /\ reconnectTimer h = None).
Proof.
  unfold stop_all.
  assert (Hin : forall p i, peers ps !! p = Some i -> i ∈ (map_to_list (peers ps)).*2).
  { intros p i E. apply list_elem_of_fmap. exists (p, i). split; [done|]. by apply elem_of_map_to_list. }
  split_and!.
  - clear Hin. induction (map_to_list (peers ps)).*2 as [|j l IH]; simpl; [by intros i h E; eauto|].
    intros i h E. destruct (IH i h E) as (h' & E' & P' & C').
    destruct (evolves_alter stop (fold_right (fun h hs => alter stop h hs) (handlers ps) l) j
      (fun _ => eq_refl) (fun _ _ => eq_refl) i h' E') as (h2 & E2 & P2 & C2).
    exists h2. split_and!; [done|congruence|auto].
  - intros Hok. clear Hin. induction (map_to_list (peers ps)).*2 as [|j l IH]; simpl; [done|].
    apply alter_ok; [apply stop_ok|done].
  - intros p i h E. apply Hin in E. clear Hin. revert E h.
    induction (map_to_list (peers ps)).*2 as [|j l IH]; simpl; [set_solver|].
    intros Hi h [(<- & h0 & E & ->)|[Hne E]]%lookup_alter_Some; [done|].
    apply elem_of_cons in Hi as [->|Hi]; [done|]. by apply IH.
Qed.

Lemma Start_inv ps : peering_inv ps -> peering_inv (Start ps).2.
Proof.
  intros I. unfold Start. destruct (Z.eqb_spec (state ps) StateRunning); [done|].
  destruct (Z.eqb_spec (state ps) StateStopped); [done|]. destruct I as [I1 I2 I3 I4 I5 I6].
  split; simpl; auto. done.
Qed.

Lemma StopNotify_inv ps : peering_inv ps -> peering_inv (StopNotify ps).
Proof. intros [I1 I2 I3 I4 I5 I6]. by split. Qed.

Lemma Stop_locked_inv ps : peering_inv ps -> peering_inv (Stop_locked ps).2.
Proof.
  intros [I1 I2 I3 I4 I5 I6]. unfold Stop_locked. destruct (orb _ _) eqn:Eo; simpl; [|by split].
  destruct (stop_all_spec ps) as (Ev & Hok & Hst). split; simpl; auto; try done; [by apply Hok| |].
  - intros p i E. destruct (I2 p i E) as (h & Eh & Hp). destruct (Ev i h Eh) as (h' & Eh' & Hp' & _).
    exists h'. split; [done|congruence].
  - intros _ p i h E Eh. by apply (Hst p i h E Eh).
Qed.

Lemma AddPeer_inv id a ps : peering_inv ps -> peering_inv (AddPeer id a ps).
Proof.
  intros I. pose proof I as [I1 I2 I3 I4 I5 I6]. unfold AddPeer. destruct (peers ps !! id) as [i|] eqn:E.
  { apply (peering_inv_handlers ps _ (jobs ps) I); [by apply evolves_alter|].
    apply alter_ok; [apply setAddrs_ok|done]. }
  set (f := fresh (dom (handlers ps))).
  assert (Hf : handlers ps !! f = None) by (apply not_elem_of_dom, is_fresh).
  assert (Hpf : forall p i, peers ps !! p = Some i -> i <> f).
  { intros p i Ep ->. destruct (I2 _ _ Ep) as (h & Eh & _). congruence. }
  split; simpl; auto.
  - apply insert_ok; [done|]. split; simpl; [done|done].
  - intros p i [[<- <-]|[Hne Ep]]%lookup_insert_Some.
    + rewrite lookup_insert_eq. eauto.
    + rewrite lookup_insert_ne by (intros Heq; exact (Hpf _ _ Ep (eq_sym Heq))). auto.
  - intros p. destruct (decide (id = p)) as [<-|Hne].
    + rewrite lookup_insert_eq. split; [eauto|set_solver].
    + rewrite lookup_insert_ne by done. rewrite <- I3. set_solver.
  - intros Hs p i h [[<- <-]|[Hne Ep]]%lookup_insert_Some.
    + rewrite lookup_insert_eq. intros [= <-]. simpl. by apply Z.eqb_eq.
    + rewrite lookup_insert_ne by (intros Heq; exact (Hpf _ _ Ep (eq_sym Heq))). by apply (I6 Hs p).
Qed.

Lemma RemovePeer_inv id ps : peering_inv ps -> peering_inv (RemovePeer id ps).
Proof.
  intros I. pose proof I as [I1 I2 I3 I4 I5 I6]. unfold RemovePeer. destruct (peers ps !! id) as [i|] eqn:E; [|done].
  assert (Ev : evolves (handlers ps) (alter stop i (handlers ps))) by (by apply evolves_alter).
  split; simpl; auto.
  - apply alter_ok; [apply stop_ok|done].
  - intros p j [Hne Ep]%lookup_delete_Some. destruct (I2 p j Ep) as (h & Eh & Hp).
    destruct (Ev j h Eh) as (h' & Eh' & Hp' & _). exists h'. split; [done|congruence].
  - intros p. destruct (decide (id = p)) as [<-|Hne].
    + rewrite lookup_delete_eq. split; [set_solver|by intros []].
    + rewrite lookup_delete_ne by done. rewrite <- I3. set_solver.
  - intros Hs p j h' [Hne Ep]%lookup_delete_Some Eh'. destruct (I2 p j Ep) as (h & Eh & Hp).
    destruct (Ev j h Eh) as (h2 & Eh2 & _ & Hc). simplify_eq. eauto.
Qed.

Lemma peering_inv_env c js ps : peering_inv ps -> peering_inv (set_jobs js (set_connected c ps)).
Proof. intros [I1 I2 I3 I4 I5 I6]. by split. Qed.

Lemma peering_inv_step ps ps' : peering_inv ps -> step ps ps' -> peering_inv ps'.
Proof.
  intros I St. destruct St as [ps|ps|ps|ps id a|ps id|ps p|ps p|ps i h d E T|ps js1 j js2 err r1 r2 ps' Ej R].
  - by apply Start_inv.
  - by apply StopNotify_inv.
  - by apply Stop_locked_inv.
  - by apply AddPeer_inv.
  - by apply RemovePeer_inv.
  - destruct (notified ps); [unfold Connected; destruct (peers _ !! p) as [i|]|]; first
      [exact (peering_inv_env _ (jobs ps ++ [JStop i]) ps I) | exact (peering_inv_env _ (jobs ps) ps I)].
  - destruct (notified ps); [unfold Disconnected; destruct (peers _ !! p) as [i|]|]; first
      [exact (peering_inv_env _ (jobs ps ++ [JStart i]) ps I) | exact (peering_inv_env _ (jobs ps) ps I)].
  - apply (peering_inv_handlers ps _ (jobs ps ++ [JReconnect i]) I).
    + by apply (evolves_insert _ _ h).
    + apply insert_ok; [apply I|]. destruct (inv_handlers _ I _ _ E) as [D _]. by split.
  - assert (I' : peering_inv (set_jobs (js1 ++ js2) ps)) by (destruct I; by split).
    destruct (run_job_inv j err r1 r2 _ I') as (ps2 & R2 & I2). congruence.
Qed.

Lemma peering_inv_reachable c ps : rtc step (NewPeeringService c) ps -> peering_inv ps.
Proof.
  assert (I0 : peering_inv (NewPeeringService c)).
  { split; simpl; try done; [|by left].
    intros p. rewrite lookup_empty. split; [set_solver|by intros []]. }
  revert I0. generalize (NewPeeringService c). intros s0 I0 R. induction R as [|a b d St R IH]; [done|].
  by apply IH, (peering_inv_step a).
Qed.

Lemma state_monotone ps ps' : state ps = StateStopped -> step ps ps' -> state ps' = StateStopped.
Proof.
  intros Hs St. destruct St as [ps|ps|ps|ps id a|ps id|ps p|ps p|ps i h d E T|ps js1 j js2 err r1 r2 ps' Ej R]; simpl; try done.
  - unfold Start. by rewrite Hs.
  - unfold Stop_locked. by rewrite Hs.
  - unfold AddPeer. by destruct (peers ps !! id).
  - unfold RemovePeer. by destruct (peers ps !! id).
  - destruct (notified ps); [unfold Connected; destruct (peers _ !! p)|]; done.
  - destruct (notified ps); [unfold Disconnected; destruct (peers _ !! p)|]; done.
  - apply run_job_state in R. by rewrite R.
Qed.

(** ** Properties *)

(** Reconnect back-off: whatever the random numbers, a run of failed attempts
    on a handler whose delay is in range never panics and leaves a delay between
    five seconds and ten minutes, at least half again the previous one until
    90% of the maximum is reached; twelve failed attempts reach nine minutes. *)
Theorem peering_backoff (rs : list (Z * Z)) (h : peerHandler) (R : in_range (nextDelay h)) :
  exists d h', backoffs rs h = Ret (d, h') /\ nextDelay h' = d /\ in_range d /\
    Nat.iter (length rs) grown_delay (nextDelay h) <= d /\
    ((12 <= length rs)%nat -> 9 * 60 * second <= d).
Proof.
  destruct (backoffs_grow rs h R) as (d & h' & E & N & D & G). exists d, h'. split_and!; try done.
  intros L. etrans; [|exact G]. replace (length rs) with (length rs - 12 + 12)%nat by lia.
  rewrite Nat.iter_add. generalize (length rs - 12)%nat. intros n.
  apply (backoff_floor_iter n), backoff_floor_12, R.
Qed.

Lemma peering_backoff_witness :
  exists d h', backoffs [(1, 2); (7, 8)] (MkHandler "QmPeer" false [] None initialDelay) = Ret (d, h') /\
    nextDelay h' = d /\ in_range d /\
    Nat.iter 2 grown_delay initialDelay <= d /\ ((12 <= 2)%nat -> 9 * 60 * second <= d).
Proof.
  apply (peering_backoff [(1, 2); (7, 8)] (MkHandler "QmPeer" false [] None initialDelay)).
  vm_compute; split; congruence.
Defined.

(** C28: Every interleaving of the service's operations, network events, timers and
    goroutines keeps its invariant: every delay is in range, the table's entries
    are handlers of their own peer, exactly the registered peers are protected
    from the connection manager, and once the service is stopped every
    registered handler is cancelled; no goroutine can panic, and a stopped
    service never runs again. *)
Theorem peering_invariant (c : gset string) (ps : PeeringService)
  (R : rtc step (NewPeeringService c) ps) :
  peering_inv ps /\
  (forall j err r1 r2, exists ps', run_job j err r1 r2 ps = Ret ps' /\ peering_inv ps') /\
  (state ps = StateStopped -> (Start ps).1 = Some "already stopped" /\
     forall ps', rtc step ps ps' -> state ps' = StateStopped).
Proof.
  pose proof (peering_inv_reachable c ps R) as I. split_and!; [done|by intros; apply run_job_inv|].
  intros Hs. split; [unfold Start; by rewrite Hs|]. intros ps' R'. revert Hs. clear R I.
  induction R' as [|a b d St R' IH]; [done|]. intros Hs. apply IH. by apply (state_monotone a).
Qed.

(** The service of one peer, registered before it is started. *)
Definition demo_peering : PeeringService := (Start (AddPeer "QmPeer" ["/ip4/1.2.3.4"] (NewPeeringService ∅))).2.

Lemma demo_peering_reachable : rtc step (NewPeeringService ∅) demo_peering.
Proof.
  eapply rtc_l; [apply (step_add _ "QmPeer" ["/ip4/1.2.3.4"])|].
  eapply rtc_l; [apply step_start|]. apply rtc_refl.
Qed.

Lemma peering_invariant_witness :
  peering_inv (Stop demo_peering).2 /\ (Start (Stop demo_peering).2).1 = Some "already stopped".
Proof.
  assert (R : rtc step (NewPeeringService ∅) (Stop demo_peering).2).
  { etrans; [apply demo_peering_reachable|]. eapply rtc_l; [apply step_stop_notify|].
    eapply rtc_l; [apply step_stop_locked|]. apply rtc_refl. }
  destruct (peering_invariant ∅ _ R) as (I & _ & S). split; [exact I|]. by apply S.
Defined.

(** A reachable handler that is disconnected when its start goroutine runs is
    left with a reconnect timer; a connected one is left as it is. *)
Theorem peering_reconnects (c : gset string) (ps : PeeringService) (i : nat) (h : peerHandler) (err : bool) (r1 r2 : Z)
  (R : rtc step (NewPeeringService c) ps) (E : handlers ps !! i = Some h) :
  exists h', run_job (JStart i) err r1 r2 ps = Ret (with_handlers (<[i := h']> (handlers ps)) ps) /\
    (is_connected h ps = false -> is_Some (reconnectTimer h')) /\ (is_connected h ps = true -> h' = h).
Proof.
  pose proof (inv_handlers _ (peering_inv_reachable c ps R) i h E) as O.
  destruct (startIfDisconnected_spec (is_connected h ps) r1 r2 h O) as (h' & Eq & _ & _ & _ & T & U).
  exists h'. simpl. by rewrite E, Eq.
Qed.

Lemma peering_reconnects_witness :
  exists h', run_job (JStart 0) false 3 4 demo_peering
             = Ret (with_handlers (<[0%nat := h']> (handlers demo_peering)) demo_peering) /\
    is_Some (reconnectTimer h').
Proof.
  destruct (peering_reconnects ∅ demo_peering 0 (MkHandler "QmPeer" false ["/ip4/1.2.3.4"] None initialDelay) false 3 4
              demo_peering_reachable eq_refl) as (h' & E & T & _).
  exists h'. split; [exact E|]. by apply T.
Defined.

(** [stop] is said to stop a handler permanently, but a start goroutine that
    was launched before [Stop] and runs after it arms the timer of the cancelled
    handler again: the stopped service keeps a reconnect timer. *)
Theorem peering_stop_race :
  exists ps h, rtc step (NewPeeringService ∅) ps /\ state ps = StateStopped /\
    peers ps !! "QmPeer" = Some 0%nat /\ handlers ps !! 0%nat = Some h /\ cancelled h = true /\
    is_Some (reconnectTimer h).
Proof.
  set (s := (Stop demo_peering).2).
  assert (R : rtc step (NewPeeringService ∅) s).
  { etrans; [apply demo_peering_reachable|]. eapply rtc_l; [apply step_stop_notify|].
    eapply rtc_l; [apply step_stop_locked|]. apply rtc_refl. }
  destruct (run_job (JStart 0) false 0 0 (set_jobs [] s)) as [ps|] eqn:E; [|by vm_compute in E].
  eexists ps, _. split.
  { etrans; [exact R|]. eapply rtc_l; [|apply rtc_refl]. by apply (step_job s [] (JStart 0) [] false 0 0 ps). }
  vm_compute in E. injection E as <-. by split_and!.
Qed.
