(* ===== verification/Fetchers.v ===== *)
(** Downloading migration binaries: [repo/fsrepo/migrations/fetcher.go],
    [httpfetcher.go], [retryfetcher.go], [versions.go], [fetch.go] and
    [unpack.go].

    Programs run in the monad of the repository over a state that adds to the
    disk the directories, a counter for the names of temporary directories and
    the log of the external programs that were run.  A [Fetcher] is the record of
    the interface's methods.  HTTP, archives, semantic versions and the context
    belong to other packages: [FetchEnv] states what is used of them. *)
From Stdlib Require Import ZArith Lia Ascii String Sorted.
From stdpp Require Import base list strings gmap sets sorting.
From S2P Require Import Prelude GoStrings GoPath FsRepo.

Local Open Scope Z_scope.
Local Open Scope io_scope.

(** ** State *)

Record mfs := Mfs {
  m_disk : disk;
  m_dirs : gset string;
  m_tmp : Z;
  m_ran : list (string * list string);
}.

Abbreviation mio A := (sio mfs A).

Definition lift {A} (m : io A) : mio A := fun s =>
  let '(r, d) := m (m_disk s) in (r, Mfs d (m_dirs s) (m_tmp s) (m_ran s)).

(** [os.Stat]: whether the path is a directory. *)
Definition os_Stat (p : string) : mio bool :=
  lift may_fail ;; fun s =>
  if decide (p ∈ m_dirs s) then (Ok true, s)
  else match files (m_disk s) !! p with
       | Some _ => (Ok false, s)
       | None => (Err ErrNotExist, s)
       end.

Definition below (dir p : string) : bool := String.prefix (dir +:+ "/") p || String.eqb p dir.

Definition os_RemoveAll (dir : string) : mio unit :=
  lift may_fail ;; fun s =>
  (Ok tt, Mfs (Disk (filter (fun kv => below dir kv.1 = false) (files (m_disk s))) (locks (m_disk s))
                 (open_ds (m_disk s)) (faults (m_disk s)))
            (filter (fun d => below dir d = false) (m_dirs s)) (m_tmp s) (m_ran s)).

(** The body, then the deferred call, whose error is dropped. *)
Definition deferred {A} (cleanup : mio unit) (body : mio A) : mio A :=
  do r <- try body; do _ <- try cleanup; of_result r.

Record http_response := Response {
  StatusCode : Z;
  Status : string;
  Body : string;
  body_err : option error;
}.

Class FetchEnv := {
  GOOS : string;
  GOARCH : string;
  TempDir : string;
  DownloadDirectory : string;
  env_IPFS_DIST_PATH : string;
  (** output of [ldd --version] *)
  ldd_version : result string;
  (** the context, as the state shows it *)
  ctx_Err : mfs -> option error;
  (** net/http *)
  NewRequest : string -> option error;
  http_Do : string -> string -> io http_response;
  (** archives: the entries, and the error that ends them *)
  read_tgz : string -> result (list (string * string) * option error);
  read_zip : string -> result (list (string * result string));
  (** go-multierror *)
  multierror : list error -> error;
  (** semver *)
  Version : Type;
  semver_Make : string -> result Version;
  ver_String : Version -> string;
  ver_leb : Version -> Version -> bool;
  ver_le_trans : Transitive (fun a b => ver_leb a b = true);
  ver_le_total : forall a b, ver_leb a b = true \/ ver_leb b a = true;
  (** [sort.Sort], which is not stable *)
  sort_Sort : (Version -> Version -> bool) -> list Version -> list Version;
  sort_Permutation : forall R l, sort_Sort R l ≡ₚ l;
  sort_Sorted : forall (R : Version -> Version -> bool) l, Transitive (fun a b => R a b = true) ->
    (forall a b, R a b = true \/ R b a = true) -> StronglySorted (fun a b => R a b = true) (sort_Sort R l);
  (** the order in which [n] goroutines run *)
  go_order : nat -> list nat;
  go_order_perm : forall n, go_order n ≡ₚ seq 0 n
}.

Definition LatestIpfsDist : string := "/ipns/dist.ipfs.tech".
Definition defaultGatewayURL : string := "https://ipfs.io".
Definition defaultFetchLimit : Z := 1024 * 1024 * 512.
Definition distVersions : string := "versions".

(** The interface: its methods. *)
Record Fetcher := MkFetcher {
  Fetch : string -> mio string;
  Fetcher_Close : mio unit;
}.

Record HttpFetcher := MkHttpFetcher {
  distPath : string;
  gateway : string;
  limit : Z;
  userAgent : string;
}.

Definition NewHttpFetcher (dist gw ua : string) (fetchLimit : Z) : HttpFetcher :=
  MkHttpFetcher
    (if decide (dist = "") then LatestIpfsDist else if HasPrefix dist "/" then dist else "/" +:+ dist)
    (if decide (gw = "") then defaultGatewayURL else trim_right (Ascii.eqb slash) gw)
    (if decide (fetchLimit = 0) then defaultFetchLimit else if fetchLimit <? 0 then 0 else fetchLimit)
    "".

Section Fetchers.
Context `{FetchEnv}.

Definition os_MkdirTemp (pattern : string) : mio string :=
  lift may_fail ;; fun s =>
  let name := Join TempDir (pattern +:+ FormatInt (m_tmp s)) in
  if decide (name ∈ m_dirs s) then (Err "file exists", s)
  else (Ok name, Mfs (m_disk s) ({[ name ]} ∪ m_dirs s) (m_tmp s + 1) (m_ran s)).

(** [io.ReadAll], of a body that [io.LimitReader] cuts silently. *)
Definition ReadAll (r : http_response) : result string :=
  match body_err r with Some e => Err e | None => Ok (Body r) end.
Definition ReadAll_limited (limit : Z) (r : http_response) : result string :=
  if limit <=? Z.of_nat (String.length (Body r)) then Ok (substring 0 (Z.to_nat limit) (Body r))
  else ReadAll r.

Definition HttpFetcher_Fetch (f : HttpFetcher) (filePath : string) : mio string :=
  let gwURL := gateway f +:+ Join (distPath f) filePath in
  match NewRequest gwURL with
  | Some e => throw ("http.NewRequest error: " +:+ e)
  | None =>
      do r <- try (lift (http_Do gwURL (userAgent f)));
      match r with
      | Err e => throw ("http.DefaultClient.Do error: " +:+ e)
      | Ok resp =>
          if 400 <=? StatusCode resp then
            match ReadAll resp with
            | Err e => throw ("error reading error body: " +:+ e)
            | Ok mes => throw ("GET " +:+ gwURL +:+ " error: " +:+ Status resp +:+ ": " +:+ mes)
            end
          else of_result (if decide (limit f = 0) then ReadAll resp else ReadAll_limited (limit f) resp)
      end
  end.

Definition http_fetcher (f : HttpFetcher) : Fetcher := MkFetcher (HttpFetcher_Fetch f) (ret tt).

(** *** retryfetcher.go *)

Fixpoint retry_loop (f : Fetcher) (filePath : string) (tries : nat) (lastErr : error) : mio string :=
  match tries with
  | O => throw ("exceeded number of retries. last error was " +:+ lastErr)
  | S n =>
      do r <- try (Fetch f filePath);
      match r with
      | Ok out => ret out
      | Err err => fun s =>
          match ctx_Err s with
          | Some e => (Err e, s)
          | None => retry_loop f filePath n err s
          end
      end
  end.

Definition RetryFetcher (f : Fetcher) (MaxTries : nat) : Fetcher :=
  MkFetcher (fun filePath => retry_loop f filePath MaxTries "%!w(<nil>)") (Fetcher_Close f).

(** *** fetcher.go *)

Fixpoint multi_loop (fs : list Fetcher) (ipfsPath : string) (errs : list error) : mio string :=
  match fs with
  | [] => if decide (errs = []) then ret "" else throw (multierror errs)
  | f :: fs =>
      do r <- try (Fetch f ipfsPath);
      match r with
      | Ok out => ret out
      | Err e => multi_loop fs ipfsPath (errs ++ [e])
      end
  end.

Fixpoint multi_close (fs : list Fetcher) (errs : list error) : mio unit :=
  match fs with
  | [] => if decide (errs = []) then ret tt else throw (multierror errs)
  | f :: fs =>
      do r <- try (Fetcher_Close f);
      multi_close fs (errs ++ match r with Ok _ => [] | Err e => [e] end)
  end.

Definition NewMultiFetcher (fs : list Fetcher) : Fetcher :=
  MkFetcher (fun p => multi_loop fs p []) (multi_close fs []).

Definition GetDistPathEnv (dist : string) : string :=
  if decide (env_IPFS_DIST_PATH <> "") then env_IPFS_DIST_PATH
  else if decide (dist = "") then LatestIpfsDist else dist.

(** *** versions.go *)

(** [bufio.Scanner]: lines without their end, up to the first that does not fit
    the scanner's buffer. *)
Definition strip_cr (l : string) : string :=
  match String.get (String.length l - 1) l with
  | Some c => if Ascii.eqb c (ascii_of_N 13) then substring 0 (String.length l - 1) l else l
  | None => l
  end.
Fixpoint take_lines (ls : list string) : list string * option error :=
  match ls with
  | [] => ([], None)
  | l :: ls =>
      if decide (ls = [] /\ l = "") then ([], None)
      else if 65536 <=? Z.of_nat (String.length l) then ([], Some "bufio.Scanner: token too long")
      else let '(r, e) := take_lines ls in (strip_cr l :: r, e)
  end.
Definition scan_lines (s : string) : list string * option error := take_lines (split_on (ascii_of_N 10) s).

Definition parse_version (line : string) : option Version :=
  match semver_Make (trim_left (Ascii.eqb "v") line) with Ok v => Some v | Err _ => None end.

Definition DistVersions (f : Fetcher) (dist : string) (sortDesc : bool) : mio (list string) :=
  do versionBytes <- Fetch f (Join dist distVersions);
  let '(lines, err) := scan_lines versionBytes in
  let vers := omap parse_version lines in
  match err with
  | Some e => throw ("could not read versions: " +:+ e)
  | None =>
      let vers := if sortDesc then sort_Sort (flip ver_leb) vers else sort_Sort ver_leb vers in
      ret (map (fun v => "v" +:+ ver_String v) vers)
  end.

Definition skipped (stableOnly : bool) (ver : string) : bool :=
  (stableOnly && Contains ver "-rc") || Contains ver "-dev".

(** The loop from the last version down. *)
Fixpoint latest (stableOnly : bool) (vs : list string) : result string :=
  match vs with
  | [] => Err "could not find a non dev version"
  | ver :: vs => if skipped stableOnly ver then latest stableOnly vs else Ok ver
  end.

Definition LatestDistVersion (f : Fetcher) (dist : string) (stableOnly : bool) : mio string :=
  do vs <- DistVersions f dist false; of_result (latest stableOnly (rev vs)).

(** *** unpack.go *)

(** [io.Copy] into a file just created. *)
Definition writeToPath (content out : string) : mio unit :=
  do r <- try (lift (os_Create out));
  match r with
  | Err e => throw ("error creating output file '" +:+ out +:+ "': " +:+ e)
  | Ok _ => lift (os_WriteString out content)
  end.

Definition find_entry {A} (name : string) (entries : list (string * A)) : option A :=
  snd <$> head (filter (fun e => e.1 = name) entries).

Definition unpackTgz (arcPath root name out : string) : mio unit :=
  do r <- try (lift (os_ReadFile arcPath));
  match r with
  | Err e => throw ("cannot open archive file: " +:+ e)
  | Ok bytes =>
      match read_tgz bytes with
      | Err e => throw ("error opening gzip reader: " +:+ e)
      | Ok (entries, err) =>
          match find_entry (root +:+ "/" +:+ name) entries, err with
          | Some content, _ => writeToPath content out
          | None, Some e => throw ("cannot read archive: " +:+ e)
          | None, None => throw "no binary found in archive"
          end
      end
  end.

Definition unpackZip (arcPath root name out : string) : mio unit :=
  do r <- try (lift (os_ReadFile arcPath));
  match r with
  | Err e => throw ("error opening zip reader: " +:+ e)
  | Ok bytes =>
      match read_zip bytes with
      | Err e => throw ("error opening zip reader: " +:+ e)
      | Ok entries =>
          match find_entry (root +:+ "/" +:+ name) entries with
          | Some (Err e) => throw ("error extracting binary from archive: " +:+ e)
          | Some (Ok content) => writeToPath content out
          | None => throw "no binary found in archive"
          end
      end
  end.

Definition unpackArchive (arcPath atype root name out : string) : mio unit :=
  if decide (atype = "tar.gz") then unpackTgz arcPath root name out
  else if decide (atype = "zip") then unpackZip arcPath root name out
  else throw ("unrecognized archive type: " +:+ atype).

(** *** fetch.go *)

Definition ExeName (name : string) : string := if decide (GOOS = "windows") then name +:+ ".exe" else name.

(** [filepath.Base] *)
Definition Base (p : string) : string :=
  let t := trim_right (Ascii.eqb slash) p in
  if decide (p = "") then "." else if decide (t = "") then "/" else default "" (last (split_on slash t)).

Definition makeArchivePath (dist name ver atype : string) : string * string :=
  let arcName := name +:+ "_" +:+ ver +:+ "_" +:+ GOOS +:+ "-" +:+ GOARCH +:+ "." +:+ atype in
  (dist +:+ "/" +:+ ver +:+ "/" +:+ arcName, arcName).

Definition osWithVariant : result string :=
  if decide (GOOS <> "linux") then Ok GOOS
  else match ldd_version with
  | Err e => Err e
  | Ok out => Ok (if existsb (fun l => Contains l "musl") (scan_lines out).1 then "linux-musl" else "linux")
  end.

Definition ErrExist (p : string) : error := "FetchBinary " +:+ p +:+ ": file already exists".

(** The destination: a new file, or a name in an existing directory. *)
Definition out_path (out binName : string) : mio string :=
  do r <- try (os_Stat out);
  match r with
  | Err e => if IsNotExist e then ret out else throw e
  | Ok false => throw (ErrExist out)
  | Ok true =>
      let out := Join out binName in
      do r <- try (os_Stat out);
      match r with
      | Err e => if IsNotExist e then ret out else throw e
      | Ok _ => throw (ErrExist out)
      end
  end.

(** The archive is stored in [tmpDir] and unpacked from there. *)
Definition fetch_into (f : Fetcher) (tmpDir dist arcName ver binName out : string) : mio string :=
  let atype := if decide (GOOS = "windows") then "zip" else "tar.gz" in
  let '(arcDistPath, arcFullName) := makeArchivePath dist arcName ver atype in
  let arcPath := Join tmpDir arcFullName in
  lift (os_Create arcPath) ;;
  do arcBytes <- Fetch f arcDistPath;
  lift (os_WriteString arcPath arcBytes) ;;
  unpackArchive arcPath atype dist binName out ;;
  lift may_fail ;;
  ret out.

Definition FetchBinary (f : Fetcher) (dist ver binName out : string) : mio string :=
  let arcName := Base dist in
  let binName := ExeName (if decide (binName = "") then arcName else binName) in
  do out <- out_path out binName;
  if decide (DownloadDirectory <> "") then
    do dir <- os_Stat DownloadDirectory;
    if (dir : bool) then fetch_into f DownloadDirectory dist arcName ver binName out
    else throw (ErrExist DownloadDirectory)
  else
    do tmpDir <- os_MkdirTemp arcName;
    deferred (os_RemoveAll tmpDir) (fetch_into f tmpDir dist arcName ver binName out).

(** ** Lemmas *)

(** A computation that runs no external program. *)
Definition silent {A} (m : mio A) : Prop := forall s r s', m s = (r, s') -> m_ran s' = m_ran s.

Record silent_fetcher (f : Fetcher) : Prop := {
  silent_Fetch : forall p, silent (Fetch f p);
  silent_Close : silent (Fetcher_Close f)
}.

Lemma silent_ret {A} (a : A) : silent (ret a).
Proof. by intros s r s' [= _ <-]. Qed.
Lemma silent_throw {A} e : silent (throw (A := A) e).
Proof. by intros s r s' [= _ <-]. Qed.
Lemma silent_of_result {A} (x : result A) : silent (of_result x).
Proof. by intros s r s' [= _ <-]. Qed.
Lemma silent_lift {A} (m : io A) : silent (lift m).
Proof. intros s r s'. unfold lift. destruct (m (m_disk s)). by intros [= _ <-]. Qed.
Lemma silent_bind {A B} (m : mio A) (k : A -> mio B) : silent m -> (forall a, silent (k a)) -> silent (bind m k).
Proof.
  intros Hm Hk s r s'. unfold bind. destruct (m s) as [[a|e] s1] eqn:E; intros R.
  - rewrite (Hk a _ _ _ R). by apply (Hm _ _ _ E).
  - injection R as <- <-. by apply (Hm _ _ _ E).
Qed.
Lemma silent_try {A} (m : mio A) : silent m -> silent (try m).
Proof. intros Hm s r s'. unfold try. destruct (m s) eqn:E. intros [= _ <-]. by apply (Hm _ _ _ E). Qed.
Lemma silent_deferred {A} c (m : mio A) : silent c -> silent m -> silent (deferred c m).
Proof. intros. repeat first [apply silent_bind | apply silent_try | apply silent_of_result | done | intro]. Qed.

Create HintDb silent.
#[local] Hint Resolve silent_ret silent_throw silent_of_result silent_lift silent_bind silent_try silent_deferred : silent.
#[local] Hint Resolve silent_Fetch silent_Close : silent.

(** Case analysis down to the primitive calls. *)
Ltac silent :=
  repeat first
    [ progress intros
    | progress eauto 4 with silent
    | apply silent_bind
    | match goal with
      | |- silent (match ?x with _ => _ end) => destruct x
      | |- silent (if ?x then _ else _) => destruct x
      end ].

Lemma silent_os_Stat p : silent (os_Stat p).
Proof.
  apply silent_bind; [apply silent_lift|]. intros _ s r s'. destruct (decide _); [by intros [= _ <-]|].
  destruct (files _ !! p); by intros [= _ <-].
Qed.
Lemma silent_os_RemoveAll p : silent (os_RemoveAll p).
Proof. apply silent_bind; [apply silent_lift|]. by intros _ s r s' [= _ <-]. Qed.
Lemma silent_os_MkdirTemp p : silent (os_MkdirTemp p).
Proof.
  apply silent_bind; [apply silent_lift|]. intros _ s r s'. simpl. destruct (decide _); by intros [= _ <-].
Qed.
#[local] Hint Resolve silent_os_Stat silent_os_RemoveAll silent_os_MkdirTemp : silent.

(** Every fetcher built here runs no program. *)
Lemma silent_http f : silent_fetcher (http_fetcher f).
Proof. split; [intros p; simpl; unfold HttpFetcher_Fetch|simpl]; silent. Qed.

Lemma silent_retry_loop f p n e : silent_fetcher f -> silent (retry_loop f p n e).
Proof.
  intros F. revert e. induction n as [|n IH]; intros e; simpl; [silent|].
  apply silent_bind; [silent|]. intros [out|err]; [silent|]. intros s r s'.
  destruct (ctx_Err s); [by intros [= _ <-]|]. apply IH.
Qed.

Lemma silent_retry f n : silent_fetcher f -> silent_fetcher (RetryFetcher f n).
Proof. intros F. split; [intros p; by apply silent_retry_loop|apply F]. Qed.

Lemma silent_multi fs : Forall silent_fetcher fs -> silent_fetcher (NewMultiFetcher fs).
Proof.
  intros F. split; [intros p|]; simpl; generalize (@nil error); induction F as [|f fs F FS IH]; intros errs; simpl; silent; apply IH.
Qed.

Lemma silent_DistVersions f dist b : silent_fetcher f -> silent (DistVersions f dist b).
Proof. intros F. unfold DistVersions. silent. Qed.

Lemma silent_LatestDistVersion f dist b : silent_fetcher f -> silent (LatestDistVersion f dist b).
Proof. intros F. apply silent_bind; [by apply silent_DistVersions|]. silent. Qed.

Lemma silent_writeToPath c out : silent (writeToPath c out).
Proof. unfold writeToPath. silent. Qed.
#[local] Hint Resolve silent_writeToPath : silent.

Lemma silent_unpackArchive a t r n out : silent (unpackArchive a t r n out).
Proof. unfold unpackArchive, unpackTgz, unpackZip. silent. Qed.
#[local] Hint Resolve silent_unpackArchive : silent.

Lemma silent_fetch_into f t d a v b out : silent_fetcher f -> silent (fetch_into f t d a v b out).
Proof. intros F. unfold fetch_into. silent. Qed.
#[local] Hint Resolve silent_fetch_into : silent.

Lemma silent_FetchBinary f dist ver b out : silent_fetcher f -> silent (FetchBinary f dist ver b out).
Proof. intros F. unfold FetchBinary, out_path. silent. Qed.

(** ** Properties *)

(** [k] attempts in a row fail while the context is alive; [last] is the error of
    the last one. *)
Inductive failures (f : Fetcher) (p : string) : nat -> error -> mfs -> mfs -> error -> Prop :=
| no_failure e s : failures f p 0 e s s e
| one_failure n e err s s1 s2 last :
    Fetch f p s = (Err err, s1) -> ctx_Err s1 = None ->
    failures f p n err s1 s2 last -> failures f p (S n) e s s2 last.

Lemma retry_loop_spec f p n e s r s' :
  retry_loop f p n e s = (r, s') ->
  exists k s1 last, failures f p k e s s1 last /\
    ((k < n)%nat /\ (exists out, Fetch f p s1 = (Ok out, s') /\ r = Ok out) \/
     (k < n)%nat /\ (exists err c, Fetch f p s1 = (Err err, s') /\ ctx_Err s' = Some c /\ r = Err c) \/
     k = n /\ s' = s1 /\ r = Err ("exceeded number of retries. last error was " +:+ last)).
Proof.
  revert e s. induction n as [|n IH]; intros e s R; simpl in R.
  { injection R as <- <-. exists 0%nat, s, e. split; [constructor|]. by right; right. }
  unfold bind, try in R. destruct (Fetch f p s) as [[out|err] s1] eqn:E.
  { injection R as <- <-. exists 0%nat, s, e. split; [constructor|]. left. split; [lia|eauto]. }
  destruct (ctx_Err s1) as [c|] eqn:C.
  { injection R as <- <-. exists 0%nat, s, e. split; [constructor|]. right; left. split; [lia|eauto]. }
  destruct (IH err s1 R) as (k & s2 & last & F & D). exists (S k), s2, last.
  split; [by econstructor|]. destruct D as [[L D]|[[L D]|(-> & D)]]; [left|right; left|right; right]; split; try done; lia.
Qed.

(** [fs] fail one after the other. *)
Inductive all_fail (p : string) : list Fetcher -> mfs -> mfs -> list error -> Prop :=
| none_fail s : all_fail p [] s s []
| next_fails f fs err s s1 s2 errs :
    Fetch f p s = (Err err, s1) -> all_fail p fs s1 s2 errs -> all_fail p (f :: fs) s s2 (err :: errs).

Lemma multi_loop_spec p fs errs0 s r s' :
  multi_loop fs p errs0 s = (r, s') ->
  (exists fs1 f fs2 s1 errs out, fs = fs1 ++ f :: fs2 /\ all_fail p fs1 s s1 errs /\
     Fetch f p s1 = (Ok out, s') /\ r = Ok out) \/
  (exists errs, all_fail p fs s s' errs /\
     r = if decide (errs0 ++ errs = []) then Ok "" else Err (multierror (errs0 ++ errs))).
Proof.
  revert errs0 s. induction fs as [|f fs IH]; intros errs0 s R; simpl in R.
  { right. exists []. rewrite app_nil_r. destruct (decide _); injection R as <- <-; split; by constructor. }
  unfold bind, try in R. destruct (Fetch f p s) as [[out|err] s1] eqn:E.
  { injection R as <- <-. left. exists [], f, fs, s, [], out. split_and!; [done|constructor|done|done]. }
  destruct (IH (errs0 ++ [err]) s1 R) as [(fs1 & g & fs2 & s2 & errs & out & -> & F & G & ->)|(errs & F & ->)].
  - left. exists (f :: fs1), g, fs2, s2, (err :: errs), out. split_and!; [done|by econstructor|done|done].
  - right. exists (err :: errs). rewrite <- (app_assoc errs0). simpl. split; [by econstructor|done].
Qed.

(** Fetching with retries and fallbacks: a [RetryFetcher] returns the first
    success among at most [MaxTries] attempts, stops as soon as the context is
    done, and otherwise reports the last error; a [MultiFetcher] over at least
    one source returns the first success in the order of its sources and fails
    only when all failed, with all their errors.  Neither runs a program. *)
Theorem fetch_retries_and_falls_back f MaxTries fs p s :
  silent_fetcher f -> Forall silent_fetcher fs -> fs <> [] ->
  (forall r s', Fetch (RetryFetcher f MaxTries) p s = (r, s') -> m_ran s' = m_ran s /\
     exists k s1 last, failures f p k "%!w(<nil>)" s s1 last /\ (k <= MaxTries)%nat /\
       match r with
       | Ok out => Fetch f p s1 = (Ok out, s')
       | Err e => (exists err, Fetch f p s1 = (Err err, s') /\ ctx_Err s' = Some e) \/
                  k = MaxTries /\ s' = s1 /\ e = "exceeded number of retries. last error was " +:+ last
       end) /\
  (forall r s', Fetch (NewMultiFetcher fs) p s = (r, s') -> m_ran s' = m_ran s /\
     match r with
     | Ok out => exists fs1 g fs2 s1 errs, fs = fs1 ++ g :: fs2 /\ all_fail p fs1 s s1 errs /\
                   Fetch g p s1 = (Ok out, s')
     | Err e => exists errs, all_fail p fs s s' errs /\ e = multierror errs
     end).
Proof.
  intros F FS Hne. split; intros r s' R.
  - split; [by apply (silent_Fetch _ (silent_retry f MaxTries F) p _ _ _ R)|].
    destruct (retry_loop_spec _ _ _ _ _ _ _ R) as (k & s1 & last & K & D). exists k, s1, last.
    destruct D as [(L & out & E & ->)|[(L & err & c & E & C & ->)|(-> & -> & ->)]];
      (split_and!; [done|lia|]); eauto.
  - split; [by apply (silent_Fetch _ (silent_multi fs FS) p _ _ _ R)|].
    destruct (multi_loop_spec _ _ _ _ _ _ R) as [(fs1 & g & fs2 & s1 & errs & out & E & A & G & ->)|(errs & A & ->)];
      [by exists fs1, g, fs2, s1, errs|].
    simpl. destruct (decide (errs = [])) as [->|]; [|by exists errs]. by inversion A; subst.
Qed.

Lemma latest_spec stable vs :
  match latest stable vs with
  | Ok v => exists vs1 vs2, vs = vs1 ++ v :: vs2 /\ skipped stable v = false /\
              Forall (fun x => skipped stable x = true) vs1
  | Err _ => Forall (fun x => skipped stable x = true) vs
  end.
Proof.
  induction vs as [|v vs IH]; simpl; [constructor|]. destruct (skipped stable v) eqn:E.
  - destruct (latest stable vs) as [w|e]; [|by constructor].
    destruct IH as (vs1 & vs2 & -> & S & A). exists (v :: vs1), vs2. split_and!; [done|done|by constructor].
  - exists [], vs. by split_and!.
Qed.

Definition ver_le (a b : Version) : Prop := ver_leb a b = true.
Definition version_name (v : Version) : string := "v" +:+ ver_String v.

Lemma sorted_last_max (l1 l2 : list Version) v w : StronglySorted ver_le (l1 ++ v :: l2) -> w ∈ l1 -> ver_le w v.
Proof.
  induction l1 as [|x l1 IH]; simpl; [by intros _ ?%elem_of_nil|].
  intros [S A]%StronglySorted_inv [->|Hw]%elem_of_cons; [|by apply IH].
  rewrite Forall_forall in A. apply A. set_solver.
Qed.

(** The latest version of a distribution: when the list of versions can be
    fetched and scanned, [LatestDistVersion] returns a listed version that is
    acceptable (not a development version, not a release candidate if only
    stable ones are wanted) and no acceptable listed version is later; it fails
    exactly when none is acceptable.  Lines that are no versions are ignored. *)
Theorem latest_dist_version f dist stable s bytes s' lines :
  Fetch f (Join dist distVersions) s = (Ok bytes, s') -> scan_lines bytes = (lines, None) ->
  let vers := omap parse_version lines in
  let ok v := skipped stable (version_name v) = false in
  exists r, LatestDistVersion f dist stable s = (r, s') /\
    match r with
    | Ok n => exists v, n = version_name v /\ v ∈ vers /\ ok v /\ forall w, w ∈ vers -> ok w -> ver_le w v
    | Err _ => forall w, w ∈ vers -> ~ ok w
    end.
Proof.
  intros F L vers ok. exists (latest stable (rev (version_name <$> sort_Sort ver_leb vers))). split.
  { unfold LatestDistVersion, DistVersions. rewrite !bind_run with (a := version_name <$> sort_Sort ver_leb vers) (s1 := s').
    - done.
    - rewrite (bind_run _ _ _ _ _ F). by rewrite L. }
  pose proof (sort_Permutation ver_leb vers) as P. pose proof (sort_Sorted ver_leb vers ver_le_trans ver_le_total) as S.
  pose proof (latest_spec stable (rev (version_name <$> sort_Sort ver_leb vers))) as Sp.
  destruct (latest _ _) as [n|e].
  - destruct Sp as (vs1 & vs2 & E & Hn & A).
    apply (f_equal (@rev _)) in E. rewrite rev_involutive, rev_app_distr in E. simpl in E.
    rewrite <- app_assoc in E. simpl in E. apply fmap_app_inv in E as (l1 & l2 & _ & E2 & E3).
    symmetry in E2. apply fmap_cons_inv in E2 as (v & l3 & E2 & E4 & ->).
    rewrite E3 in *. exists v. split_and!; [done| |by unfold ok; rewrite <- E2|].
    + rewrite <- P. set_solver.
    + intros w Hw Hok. rewrite <- P in Hw. apply elem_of_app in Hw as [Hw|[->|Hw]%elem_of_cons].
      * by apply (sorted_last_max l1 l3).
      * by destruct (ver_le_total v v).
      * exfalso. rewrite Forall_forall in A. unfold ok in Hok. rewrite A in Hok; [done|].
        apply list_elem_of_In, in_rev, list_elem_of_In. rewrite E4. by apply list_elem_of_fmap_2.
  - intros w Hw Hok. rewrite <- P in Hw. rewrite Forall_forall in Sp. unfold ok in Hok. rewrite Sp in Hok; [done|].
    apply list_elem_of_In, in_rev. rewrite rev_involutive. apply list_elem_of_In. by apply list_elem_of_fmap_2.
Qed.

End Fetchers.

(** ** Instances *)

Definition order_bool {A} (R : A -> A -> bool) (a b : A) : Prop := R a b = true.
#[local] Instance order_bool_dec {A} (R : A -> A -> bool) : RelDecision (order_bool R).
Proof. intros a b. unfold order_bool. solve_decision. Defined.

(** A node on Linux whose versions are numbers and whose archives are plain. *)
Definition demo_fetch : FetchEnv.
Proof.
  refine {| GOOS := "linux"; GOARCH := "amd64"; TempDir := "/tmp"; DownloadDirectory := "";
            env_IPFS_DIST_PATH := ""; ldd_version := Ok "ldd (GNU libc) 2.36"; ctx_Err _ := None;
            NewRequest _ := None; http_Do url _ := ret (Response 200 "200 OK" ("v10" +:+ newline +:+ "junk" +:+ newline +:+ "v9") None);
            read_tgz b := Ok ([("fs-repo-11-to-12/fs-repo-11-to-12", b)], None); read_zip _ := Ok [];
            multierror := join_with "; "; Version := Z;
            semver_Make t := match ParseInt t with Some v => Ok v | None => Err "bad version" end;
            ver_String := FormatInt; ver_leb := Z.leb;
            sort_Sort R l := merge_sort (order_bool R) l; go_order n := seq 0 n |}.
  - intros a b c. rewrite !Z.leb_le. lia.
  - intros a b. rewrite !Z.leb_le. lia.
  - intros R l. apply merge_sort_Permutation.
  - intros R l T O. apply (@StronglySorted_merge_sort _ (order_bool R) _ T O l).
  - done.
Defined.

Definition demo_mfs : mfs := Mfs (Disk ∅ ∅ [] []) {[ "/tmp" ]} 0 [].

Lemma fetch_retries_and_falls_back_witness :
  let f := @http_fetcher demo_fetch (NewHttpFetcher "" "" "go-ipfs" 0) in
  m_ran (Fetch (@RetryFetcher demo_fetch f 3) "versions" demo_mfs).2 = [] /\
  m_ran (Fetch (@NewMultiFetcher demo_fetch [f; f]) "versions" demo_mfs).2 = [].
Proof.
  intros f. pose proof (@silent_http demo_fetch (NewHttpFetcher "" "" "go-ipfs" 0)) as S.
  destruct (@fetch_retries_and_falls_back demo_fetch f 3 [f; f] "versions" demo_mfs S) as [A B];
    [by rewrite !Forall_cons|done|].
  split; [by apply (A _ _ (surjective_pairing _))|by apply (B _ _ (surjective_pairing _))].
Defined.

Lemma latest_dist_version_witness :
  exists v s', @LatestDistVersion demo_fetch (@http_fetcher demo_fetch (NewHttpFetcher "" "" "go-ipfs" 0))
                 "fs-repo-11-to-12" false demo_mfs = (Ok (@version_name demo_fetch v), s').
Proof.
  destruct (@latest_dist_version demo_fetch (@http_fetcher demo_fetch (NewHttpFetcher "" "" "go-ipfs" 0))
    "fs-repo-11-to-12" false demo_mfs ("v10" +:+ newline +:+ "junk" +:+ newline +:+ "v9") demo_mfs
    ["v10"; "junk"; "v9"]) as (r & E & S); [reflexivity|reflexivity|].
  destruct r as [n|e]; [destruct S as (v & -> & _); eauto|].
  exfalso. apply (S 10); [|reflexivity]. vm_compute. by left.
Defined.
