(* ===== verification/Migrations.v ===== *)
(** Repository migrations: [repo/fsrepo/migrations/migrations.go].

    [RunMigration] finds the binaries that take the repository from its version
    to the target one step at a time, downloads the missing ones and runs them in
    order.  The goroutines that download write disjoint cells of one slice; they
    run one after the other in an arbitrary order.  Versions are taken to be far
    enough from the limits of [int] for their difference not to overflow. *)
From Stdlib Require Import ZArith Lia Ascii String.
From stdpp Require Import base list strings gmap sets.
From S2P Require Import Prelude GoStrings GoPath Datastores FsRepo Fetchers.

Local Open Scope Z_scope.
Local Open Scope io_scope.

Definition distMigsRoot : string := "".

(** ** What other packages provide *)

Record Migration := MkMigration { DownloadSources : list string; Keep : string }.

Class MigEnv := {
  (** [exec.LookPath], and the effect of a program on the disk *)
  LookPath : string -> result string;
  run_cmd : string -> list string -> io unit;
  (** [json]: the [Migration] section *)
  decode_migration : string -> result Migration;
  (** [url.Parse]: the scheme, and the URL printed with a given scheme *)
  url_Parse : string -> result (string * (string -> string))
}.

Definition DefaultMigrationKeep : string := "cache".
Definition DefaultMigrationDownloadSources : list string := ["HTTPS"; "IPFS"].

Section Migrations.
Context `{RepoEnv', DatastoreEnv, FetchEnv, MigEnv}.

Definition migrationName (from to : Z) : string :=
  "fs-repo-" +:+ FormatInt from +:+ "-to-" +:+ FormatInt to.

(** [findMigrations]: [n] more versions to cross. *)
Fixpoint find_loop (n : nat) (cur step : Z) (migrations : list string) (binPaths : gmap string string)
  : mio (list string * gmap string string) :=
  match n with
  | O => ret (migrations, binPaths)
  | S n => fun s =>
      match ctx_Err s with
      | Some e => (Err e, s)
      | None =>
          let migName := if step =? -1 then migrationName (cur + step) cur else migrationName cur (cur + step) in
          find_loop n (cur + step) step (migrations ++ [migName])
            match LookPath migName with Ok bin => <[migName := bin]> binPaths | Err _ => binPaths end s
      end
  end.

Definition findMigrations (from to : Z) : mio (list string * gmap string string) :=
  let step := if to <? from then -1 else 1 in
  find_loop (Z.to_nat (Z.abs (to - from))) from step [] ∅.

Definition command_args (ipfsDir : string) (revert : bool) : list string :=
  ["-path=" +:+ ipfsDir; "-verbose=true"] ++ (if revert then ["-revert"] else []).

Definition runMigration (binPath ipfsDir : string) (revert : bool) : mio unit := fun s =>
  let args := command_args ipfsDir revert in
  lift (run_cmd binPath args) (Mfs (m_disk s) (m_dirs s) (m_tmp s) (m_ran s ++ [(binPath, args)])).

(** One goroutine of [fetchMigrations]. *)
Definition download (f : Fetcher) (needed : list string) (destDir : string) (i : nat) (bins : list string)
  : mio (list string) :=
  let name := default "" (needed !! i) in
  let dist := Join distMigsRoot name in
  do ver <- try (LatestDistVersion f dist false);
  match ver with
  | Err _ => ret bins
  | Ok ver =>
      do loc <- try (FetchBinary f dist ver name destDir);
      match loc with
      | Err _ => ret bins
      | Ok loc => ret (<[i := loc]> bins)
      end
  end.

Fixpoint downloads (f : Fetcher) (needed : list string) (destDir : string) (order : list nat) (bins : list string)
  : mio (list string) :=
  match order with
  | [] => ret bins
  | i :: order => do bins <- download f needed destDir i bins; downloads f needed destDir order bins
  end.

Definition failed_names (needed bins : list string) : list string :=
  fst <$> filter (fun nb => nb.2 = "") (zip needed bins).

Definition fetchMigrations (f : Fetcher) (needed : list string) (destDir : string) : mio (list string) :=
  do osv <- of_result osWithVariant;
  if decide (osv = "linux-musl")
  then throw "linux-musl not supported, you must build the binary from source for your platform"
  else
    do bins <- downloads f needed destDir (go_order (length needed)) (replicate (length needed) "");
    let fails := failed_names needed bins in
    if decide (fails = []) then ret bins
    else fun s =>
      let err := "failed to download migrations: " +:+ join_with " " fails in
      (Err match ctx_Err s with Some e => e +:+ ", " +:+ err | None => err end, s).

Fixpoint run_all (migrations : list string) (binPaths : gmap string string) (ipfsDir : string) (revert : bool)
  : mio unit :=
  match migrations with
  | [] => ret tt
  | m :: migrations =>
      do r <- try (runMigration (default "" (binPaths !! m)) ipfsDir revert);
      match r with
      | Err e => throw ("migration " +:+ m +:+ " failed: " +:+ e)
      | Ok _ => run_all migrations binPaths ipfsDir revert
      end
  end.

(** [binPaths[missing[i]] = fetched[i]] *)
Definition add_paths (missing fetched : list string) (binPaths : gmap string string) : gmap string string :=
  foldl (fun m kv => <[kv.1 := kv.2]> m) binPaths (zip missing fetched).

(** After the guards: find, download, run. *)
Definition migrate (f : Fetcher) (fromVer targetVer : Z) (ipfsDir : string) : mio unit :=
  do (migrations, binPaths) <- findMigrations fromVer targetVer;
  let revert := targetVer <? fromVer in
  if (size binPaths <? length migrations)%nat then
    let missing := filter (fun m => binPaths !! m = None) migrations in
    do tmpDir <- os_MkdirTemp "migrations";
    deferred (os_RemoveAll tmpDir)
      (do fetched <- fetchMigrations f missing tmpDir;
       run_all migrations (add_paths missing fetched binPaths) ipfsDir revert)
  else run_all migrations binPaths ipfsDir revert.

Definition RunMigration (f : Fetcher) (targetVer : Z) (ipfsDir : string) (allowDowngrade : bool) : mio unit :=
  do ipfsDir <- lift (CheckIpfsDir ipfsDir);
  do v <- try (lift (RepoVersion ipfsDir));
  match v with
  | Err e => throw ("could not get repo version: " +:+ e)
  | Ok fromVer =>
      if fromVer =? targetVer then ret tt
      else if (targetVer <? fromVer) && negb allowDowngrade
      then throw ("downgrade not allowed from " +:+ FormatInt fromVer +:+ " to " +:+ FormatInt targetVer)
      else migrate f fromVer targetVer ipfsDir
  end.

Definition NeedMigration (target : Z) : io bool :=
  do v <- try (RepoVersion "");
  match v with
  | Err e => throw ("could not get repo version: " +:+ e)
  | Ok vnum => ret (negb (vnum =? target))
  end.

(** *** Configuration and sources *)

Definition ReadMigrationConfig (repoRoot userConfigFile : string) : io Migration :=
  do cfgPath <- of_result (Filename repoRoot userConfigFile);
  do c <- os_ReadFile cfgPath;
  do cfg <- of_result (decode_migration c);
  do keep <- (if decide (Keep cfg = "") then ret DefaultMigrationKeep
              else if decide (Keep cfg ∈ ["discard"; "cache"; "keep"]) then ret (Keep cfg)
              else throw "unknown config value, Migrations.Keep must be 'cache', 'pin', or 'discard'");
  ret (MkMigration (if decide (DownloadSources cfg = []) then DefaultMigrationDownloadSources
                    else DownloadSources cfg) keep).

Definition httpUserAgent : string := "go-ipfs".
Definition numTriesPerHTTP : nat := 3.

(** The fetchers one source stands for. *)
Definition source_fetchers (src dist : string) (newIpfsFetcher : option (string -> Fetcher)) : result (list Fetcher) :=
  let http gw := RetryFetcher (http_fetcher (NewHttpFetcher dist gw httpUserAgent 0)) numTriesPerHTTP in
  let src := TrimSpace src in
  if decide (src ∈ ["HTTPS"; "https"; "HTTP"; "http"]) then Ok [http ""]
  else if decide (src ∈ ["IPFS"; "ipfs"]) then
    Ok match newIpfsFetcher with Some new => [new dist] | None => [] end
  else if decide (src = "") then Ok []
  else match url_Parse src with
  | Err e => Err ("bad gateway address: " +:+ e)
  | Ok (scheme, print) =>
      if decide (scheme = "") then Ok [http (print "https")]
      else if decide (scheme ∈ ["https"; "http"]) then Ok [http (print scheme)]
      else Err "bad gateway address: url scheme must be http or https"
  end.

Fixpoint all_sources (srcs : list string) (dist : string) (newIpfsFetcher : option (string -> Fetcher))
  : result (list Fetcher) :=
  match srcs with
  | [] => Ok []
  | src :: srcs =>
      match source_fetchers src dist newIpfsFetcher with
      | Err e => Err e
      | Ok fs => match all_sources srcs dist newIpfsFetcher with Err e => Err e | Ok gs => Ok (fs ++ gs) end
      end
  end.

Definition GetMigrationFetcher (srcs : list string) (dist : string) (newIpfsFetcher : option (string -> Fetcher))
  : result Fetcher :=
  match all_sources srcs dist newIpfsFetcher with
  | Err e => Err e
  | Ok [] => Err "no sources specified"
  | Ok [f] => Ok f
  | Ok fs => Ok (NewMultiFetcher fs)
  end.

(** ** Lemmas *)

(** *** The plan *)

(** The migrations from [from] to [to], first to last. *)
Definition plan (from to : Z) : list string :=
  if to <? from
  then map (fun i => migrationName (from - 1 - Z.of_nat i) (from - Z.of_nat i)) (seq 0 (Z.to_nat (from - to)))
  else map (fun i => migrationName (from + Z.of_nat i) (from + Z.of_nat i + 1)) (seq 0 (Z.to_nat (to - from))).

(** The name of the next migration, as the loop computes it. *)
Definition next_name (step cur : Z) : string :=
  if step =? -1 then migrationName (cur + step) cur else migrationName cur (cur + step).

Lemma find_loop_spec n cur step ms bp s r s' :
  find_loop n cur step ms bp s = (r, s') ->
  s' = s /\
  match r with
  | Ok (ms', bp') =>
      ms' = ms ++ map (fun i => next_name step (cur + step * Z.of_nat i)) (seq 0 n) /\
      (forall m p, bp' !! m = Some p -> bp !! m = Some p \/ LookPath m = Ok p /\
         m ∈ map (fun i => next_name step (cur + step * Z.of_nat i)) (seq 0 n)) /\
      (forall m p, m ∈ map (fun i => next_name step (cur + step * Z.of_nat i)) (seq 0 n) ->
         LookPath m = Ok p -> is_Some (bp' !! m)) /\
      (forall m, is_Some (bp !! m) -> is_Some (bp' !! m))
  | Err e => ctx_Err s = Some e
  end.
Proof.
  revert cur ms bp. induction n as [|n IH]; intros cur ms bp R; simpl in R.
  { injection R as <- <-. split; [done|]. rewrite app_nil_r. split_and!; [done|by left| |done].
    intros m p []%elem_of_nil. }
  destruct (ctx_Err s) as [e|] eqn:C; [injection R as <- <-; done|].
  destruct (IH _ _ _ R) as [-> D]. split; [done|]. destruct r as [[ms' bp']|e]; [|done].
  fold (next_name step cur) in D.
  assert (E : map (fun i => next_name step (cur + step * Z.of_nat i)) (seq 0 (S n))
              = next_name step cur :: map (fun i => next_name step (cur + step + step * Z.of_nat i)) (seq 0 n)).
  { simpl. rewrite Z.mul_0_r, Z.add_0_r. f_equal. rewrite <- seq_shift, map_map. apply map_ext.
    intros i. f_equal. lia. }
  rewrite E. destruct D as (-> & D1 & D2 & D3). split_and!.
  - by rewrite <- app_assoc.
  - intros m p Hm. destruct (D1 m p Hm) as [Hb|[L M]]; [|right; split; [done|by right]].
    destruct (LookPath (next_name step cur)) as [bin|] eqn:L; [|by left].
    apply lookup_insert_Some in Hb as [[<- <-]|[_ Hb]]; [|by left]. right. split; [done|by left].
  - intros m p [->|Hm]%elem_of_cons L; [|by apply (D2 m p)]. apply D3. rewrite L, lookup_insert_eq. eauto.
  - intros m Hm. apply D3. destruct (LookPath _); [|done]. by apply lookup_insert_is_Some'; right.
Qed.

Lemma findMigrations_spec from to s r s' :
  findMigrations from to s = (r, s') ->
  s' = s /\
  match r with
  | Ok (ms, bp) => ms = plan from to /\ (forall m p, bp !! m = Some p -> LookPath m = Ok p /\ m ∈ plan from to) /\
      (forall m p, m ∈ plan from to -> LookPath m = Ok p -> is_Some (bp !! m))
  | Err e => ctx_Err s = Some e
  end.
Proof.
  intros R. destruct (find_loop_spec _ _ _ _ _ _ _ _ R) as [-> D]. split; [done|].
  destruct r as [[ms bp]|e]; [|done].
  assert (E : map (fun i => next_name (if to <? from then -1 else 1) (from + (if to <? from then -1 else 1) * Z.of_nat i))
                (seq 0 (Z.to_nat (Z.abs (to - from)))) = plan from to).
  { unfold plan. destruct (Z.ltb_spec to from).
    - replace (Z.to_nat (Z.abs (to - from))) with (Z.to_nat (from - to)) by lia. apply map_ext. intros i.
      unfold next_name. simpl (-1 =? -1). apply (f_equal2 migrationName); lia.
    - replace (Z.to_nat (Z.abs (to - from))) with (Z.to_nat (to - from)) by lia. apply map_ext. intros i.
      unfold next_name. simpl (1 =? -1). apply (f_equal2 migrationName); lia. }
  rewrite E in D. destruct D as (-> & D1 & D2 & _). split_and!; [done| |done].
  intros m p Hm. destruct (D1 m p Hm) as [Hb|?]; [by rewrite lookup_empty in Hb|done].
Qed.

(** *** Downloads *)

(** [p] is where the binary of migration [m] was unpacked. *)
Definition fetched_for (f : Fetcher) (destDir m p : string) : Prop :=
  exists ver s1 s2, FetchBinary f (Join distMigsRoot m) ver m destDir s1 = (Ok p, s2).

Lemma download_spec f needed d i bins s r s' :
  download f needed d i bins s = (r, s') -> length bins = length needed ->
  exists bins', r = Ok bins' /\ length bins' = length bins /\
    forall j b, bins' !! j = Some b -> bins !! j = Some b \/
      exists m, needed !! j = Some m /\ fetched_for f d m b.
Proof.
  unfold download. intros R L. unfold bind at 1, try at 1 in R.
  destruct (LatestDistVersion _ _ _ s) as [[ver|e] s1] eqn:Ev; [|injection R as <- <-; eauto].
  unfold bind, try in R. destruct (FetchBinary _ _ _ _ _ s1) as [[loc|e] s2] eqn:Ef; injection R as <- <-; [|eauto].
  eexists. split_and!; [done|apply length_insert|]. intros j b Hj.
  destruct (decide (i = j)) as [<-|Hne]; [|rewrite list_lookup_insert_ne in Hj; eauto].
  assert (Hi : (i < length needed)%nat).
  { rewrite <- L, <- (length_insert bins i loc). by apply lookup_lt_Some in Hj. }
  rewrite list_lookup_insert_eq in Hj by lia. injection Hj as <-.
  destruct (lookup_lt_is_Some_2 _ _ Hi) as [m Hm]. rewrite Hm in Ef. simpl in Ef. right. exists m.
  split; [done|]. by exists ver, s1, s2.
Qed.

Lemma downloads_spec f needed d order bins s r s' :
  downloads f needed d order bins s = (r, s') -> length bins = length needed ->
  exists bins', r = Ok bins' /\ length bins' = length bins /\
    forall j b, bins' !! j = Some b -> bins !! j = Some b \/
      exists m, needed !! j = Some m /\ fetched_for f d m b.
Proof.
  revert bins s. induction order as [|i order IH]; intros bins s R L; simpl in R.
  { injection R as <- <-. eauto. }
  unfold bind in R. destruct (download f needed d i bins s) as [r1 s1] eqn:E.
  destruct (download_spec _ _ _ _ _ _ _ _ E L) as (b1 & -> & L1 & D1).
  destruct (IH b1 s1 R) as (b2 & -> & L2 & D2); [lia|]. exists b2. split_and!; [done|lia|].
  intros j b Hj. destruct (D2 j b Hj) as [Hb|?]; eauto.
Qed.

Lemma fetchMigrations_spec f needed d s bins s' :
  fetchMigrations f needed d s = (Ok bins, s') ->
  length bins = length needed /\
  forall j m b, needed !! j = Some m -> bins !! j = Some b -> b <> "" /\ fetched_for f d m b.
Proof.
  intros R. apply bind_ok in R as (osv & s1 & E1 & R). destruct (decide _); [done|].
  apply bind_ok in R as (bins0 & s2 & E2 & R).
  destruct (downloads_spec _ _ _ _ _ _ _ _ E2) as (bins1 & [= <-] & L & D); [by rewrite length_replicate|].
  cbv zeta in R. destruct (decide _) as [F|]; [|done]. injection R as <- <-. rewrite length_replicate in L.
  split; [done|]. intros j m b Hm Hb.
  assert (b <> "") as Hne.
  { intros ->. unfold failed_names in F. apply fmap_nil_inv in F.
    assert ((m, "") ∈ filter (fun nb : string * string => nb.2 = "") (zip needed bins0)) as Hin; [|rewrite F in Hin; by apply elem_of_nil in Hin].
    apply list_elem_of_filter. split; [done|]. apply list_elem_of_lookup. exists j.
    apply lookup_zip_with_Some. by exists m, "". }
  split; [done|]. destruct (D j b Hb) as [Hr|(m' & Hm' & Fm)].
  - apply lookup_replicate in Hr as [-> _]. done.
  - by simplify_eq.
Qed.

Lemma add_paths_spec missing fetched bp m :
  length fetched = length missing ->
  (forall p, add_paths missing fetched bp !! m = Some p ->
     bp !! m = Some p \/ exists j, missing !! j = Some m /\ fetched !! j = Some p) /\
  (is_Some (bp !! m) \/ m ∈ missing -> is_Some (add_paths missing fetched bp !! m)).
Proof.
  unfold add_paths. revert fetched bp. induction missing as [|x missing IH]; intros [|y fetched] bp L; try done.
  { simpl. split; [by left|]. by intros [?|[]%elem_of_nil]. }
  simpl. simpl in L. destruct (IH fetched (<[x := y]> bp)) as [A B]; [lia|]. split.
  - intros p Hp. destruct (A p Hp) as [[[-> ->]|[_ ?]]%lookup_insert_Some|(j & ? & ?)]; [right; by exists 0%nat|by left|right; by exists (S j)].
  - intros Hm. apply B. destruct (decide (x = m)) as [->|Hne].
    + left. rewrite lookup_insert_eq. eauto.
    + rewrite lookup_insert_ne by done. destruct Hm as [?|[?|?]%elem_of_cons]; [by left|congruence|by right].
Qed.

(** *** Running *)

Definition commands (bp : gmap string string) (d : string) (revert : bool) (ms : list string)
  : list (string * list string) :=
  map (fun m => (default "" (bp !! m), command_args d revert)) ms.

Lemma run_all_trace ms bp d revert s r s' :
  run_all ms bp d revert s = (r, s') ->
  exists ms1 ms2, ms = ms1 ++ ms2 /\ m_ran s' = m_ran s ++ commands bp d revert ms1 /\
    match r with
    | Ok _ => ms2 = []
    | Err e => exists ms0 m err, ms1 = ms0 ++ [m] /\ e = "migration " +:+ m +:+ " failed: " +:+ err
    end.
Proof.
  revert s. induction ms as [|m ms IH]; intros s R; simpl in R.
  { injection R as <- <-. exists [], []. simpl. rewrite app_nil_r. done. }
  unfold bind, try, runMigration, lift in R. simpl in R. destruct (run_cmd _ _ (m_disk s)) as [[u|e] d1].
  - destruct (IH _ R) as (ms1 & ms2 & -> & T & D). exists (m :: ms1), ms2. split_and!; [done| |].
    + rewrite T. simpl. by rewrite <- app_assoc.
    + destruct r as [|e]; [done|]. destruct D as (ms0 & m' & err & -> & ->). by exists (m :: ms0), m', err.
  - injection R as <- <-. exists [m], ms. split_and!; [done|done|]. by exists [], m, e.
Qed.

Lemma silent_fetchMigrations f needed d : silent_fetcher f -> silent (fetchMigrations f needed d).
Proof.
  intros F.
  assert (D : forall order bins, silent (downloads f needed d order bins)).
  { induction order as [|i order IH]; intros bins; simpl; [apply silent_ret|]. apply silent_bind; [|done].
    apply silent_bind; [by apply silent_try, silent_LatestDistVersion|]. intros [ver|e]; [|apply silent_ret].
    apply silent_bind; [by apply silent_try, silent_FetchBinary|]. intros [loc|e]; apply silent_ret. }
  apply silent_bind; [apply silent_of_result|]. intros osv. destruct (decide _); [apply silent_throw|].
  apply silent_bind; [done|]. intros bins. cbv zeta. destruct (decide _); [apply silent_ret|]. by intros s r s' [= _ <-].
Qed.

Lemma deferred_trace {A} c (m : mio A) s r s' : silent c -> deferred c m s = (r, s') ->
  exists s1, m s = (r, s1) /\ m_ran s' = m_ran s1.
Proof.
  intros C. unfold deferred, bind, try, of_result. destruct (m s) as [r1 s1] eqn:E. destruct (c s1) as [r2 s2] eqn:E2.
  intros [= <- <-]. exists s1. split; [done|]. by apply (C _ _ _ E2).
Qed.

(** All of a plan is found when as many binaries were found as it has steps. *)
Lemma size_covers (bp : gmap string string) (ms : list string) :
  (forall m, is_Some (bp !! m) -> m ∈ ms) -> (length ms <= size bp)%nat ->
  forall m, m ∈ ms -> is_Some (bp !! m).
Proof.
  intros Sub L m Hm.
  assert (Hd : dom bp ⊆ (list_to_set ms : gset string)).
  { intros x Hx. apply elem_of_list_to_set, Sub. by apply elem_of_dom. }
  assert (Hs : (size (list_to_set ms : gset string) <= size (dom bp))%nat).
  { rewrite size_dom. etrans; [|done]. clear. induction ms as [|x ms IH]; simpl; [done|].
    rewrite size_union_alt, size_singleton.
    assert (size ((list_to_set ms : gset string) ∖ {[x]}) <= size (list_to_set ms : gset string))%nat
      by (apply subseteq_size; set_solver). lia. }
  apply elem_of_dom. rewrite (set_subseteq_size_eq _ _ Hd Hs). set_solver.
Qed.

(** The binary used for a migration is the one on the search path or the one
    downloaded for it. *)
Definition binary_of (f : Fetcher) (m p : string) : Prop :=
  LookPath m = Ok p \/ exists tmp, fetched_for f tmp m p.

Lemma migrate_trace f from target d s r s' :
  silent_fetcher f -> migrate f from target d s = (r, s') ->
  exists bp ms1 ms2, plan from target = ms1 ++ ms2 /\
    m_ran s' = m_ran s ++ commands bp d (target <? from) ms1 /\
    (ms1 <> [] -> forall m, m ∈ plan from target -> exists p, bp !! m = Some p /\ binary_of f m p) /\
    (r = Ok tt -> ms2 = []).
Proof.
  intros F R. unfold migrate, bind at 1 in R. destruct (findMigrations from target s) as [r1 s1] eqn:Ef.
  destruct (findMigrations_spec _ _ _ _ _ Ef) as [-> D].
  destruct r1 as [[ms bp]|e].
  2:{ injection R as <- <-. exists ∅, [], (plan from target). simpl. rewrite app_nil_r. by split_and!. }
  destruct D as (-> & D1 & D2). destruct (Nat.ltb_spec (size bp) (length (plan from target))) as [Lt|Ge].
  - unfold bind at 1 in R. destruct (os_MkdirTemp _ s) as [[tmp|e] s1] eqn:Et;
      pose proof (silent_os_MkdirTemp _ _ _ _ Et) as Rt.
    2:{ injection R as <- <-. exists ∅, [], (plan from target). simpl. rewrite app_nil_r. by split_and!. }
    apply deferred_trace in R as (s2 & R & E2); [|apply silent_os_RemoveAll].
    unfold bind at 1 in R. destruct (fetchMigrations _ _ tmp s1) as [[bins|e] s3] eqn:Eg;
      pose proof (silent_fetchMigrations _ _ _ F _ _ _ Eg) as Rg.
    2:{ injection R as <- <-. exists ∅, [], (plan from target). simpl. rewrite app_nil_r. split_and!; try done. congruence. }
    destruct (fetchMigrations_spec _ _ _ _ _ _ Eg) as [Lg Dg].
    destruct (run_all_trace _ _ _ _ _ _ _ R) as (ms1 & ms2 & E & T & Dr).
    exists (add_paths (filter (fun m => bp !! m = None) (plan from target)) bins bp), ms1, ms2.
    split_and!; [done|congruence| |by intros ->].
    intros _ m Hm. destruct (add_paths_spec _ bins bp m Lg) as [A B].
    destruct B as [p Hp].
    { destruct (bp !! m) eqn:Eb; [left; eauto|]. right. by apply list_elem_of_filter. }
    exists p. split; [done|]. destruct (A p Hp) as [Hb|(j & Hj & Hp')]; [left; by apply D1|].
    right. exists tmp. by apply (Dg j m p).
  - destruct (run_all_trace _ _ _ _ _ _ _ R) as (ms1 & ms2 & E & T & Dr). exists bp, ms1, ms2.
    split_and!; [done|done| |by intros ->]. intros _ m Hm.
    destruct (size_covers bp (plan from target)) with (m := m) as [p Hp]; [|done|done|].
    { intros x [p Hx]. by apply (D1 x p). }
    exists p. split; [done|]. left. by apply D1.
Qed.

(** ** Properties *)

(** C29: [RunMigration] runs the right programs in the right order: once the
    repository's directory and version are read, nothing is run when the version
    is the target or when it is later and downgrading is not allowed; otherwise
    the programs run are the first steps of the chain of migrations from the
    version to the target, each once, in order, with [-revert] exactly when
    going down, each the binary found on the search path or downloaded for that
    step; none runs unless every binary of the chain is there, and the call
    succeeds only if the whole chain was run. *)
Theorem run_migration_plan f target dir allow s d s0 from s1 r s' :
  silent_fetcher f ->
  lift (CheckIpfsDir dir) s = (Ok d, s0) -> lift (RepoVersion d) s0 = (Ok from, s1) ->
  RunMigration f target dir allow s = (r, s') ->
  (from = target -> r = Ok tt /\ s' = s1) /\
  (target < from -> allow = false -> (exists e, r = Err e) /\ s' = s1) /\
  exists bp ms1 ms2, plan from target = ms1 ++ ms2 /\
    m_ran s' = m_ran s ++ commands bp d (target <? from) ms1 /\
    (ms1 <> [] -> forall m, m ∈ plan from target -> exists p, bp !! m = Some p /\ binary_of f m p) /\
    (r = Ok tt -> ms2 = []).
Proof.
  intros F Ed Ev R. unfold RunMigration in R. rewrite (bind_run _ _ _ _ _ Ed) in R.
  pose proof (silent_lift _ _ _ _ Ed) as T0. pose proof (silent_lift _ _ _ _ Ev) as T1.
  unfold bind, try in R. rewrite Ev in R. destruct (Z.eqb_spec from target) as [->|Hne].
  { injection R as <- <-. split_and!; [done|lia|]. exists ∅, [], []. simpl. rewrite app_nil_r.
    split_and!; try done; [|congruence]. unfold plan. rewrite Z.ltb_irrefl, Z.sub_diag. done. }
  destruct ((target <? from) && negb allow) eqn:G.
  { injection R as <- <-. apply andb_true_iff in G as [G1%Z.ltb_lt G2].
    split_and!; [done|eauto|]. exists ∅, [], (plan from target). simpl. rewrite app_nil_r. split_and!; try done. congruence. }
  split_and!; [done| |].
  { intros L ->. rewrite (proj2 (Z.ltb_lt _ _) L) in G. done. }
  destruct (migrate_trace _ _ _ _ _ _ _ F R) as (bp & ms1 & ms2 & E & T & B & D).
  exists bp, ms1, ms2. split_and!; try done. congruence.
Qed.

(** The version file of the repository in [d] says [v]. *)
Definition version_at (d : string) (v : Z) (s : disk) : Prop :=
  exists c, files s !! Join d versionFile = Some c /\ ParseInt (TrimSpace c) = Some v.

(** The programs do what their names say, on this repository. *)
Definition genuine (bp : gmap string string) (d : string) : Prop :=
  forall i p s s', bp !! migrationName i (i + 1) = Some p ->
    (run_cmd p (command_args d false) s = (Ok tt, s') -> version_at d i s -> version_at d (i + 1) s') /\
    (run_cmd p (command_args d true) s = (Ok tt, s') -> version_at d (i + 1) s -> version_at d i s').

Lemma run_all_step m ms bp d revert s s' :
  run_all (m :: ms) bp d revert s = (Ok tt, s') ->
  exists s1, run_cmd (default "" (bp !! m)) (command_args d revert) (m_disk s) = (Ok tt, m_disk s1) /\
    run_all ms bp d revert s1 = (Ok tt, s').
Proof.
  intros R. simpl in R. unfold bind, try, runMigration, lift in R. simpl in R.
  destruct (run_cmd _ _ (m_disk s)) as [[[]|e] d1]; [|done]. eexists. split; [|exact R]. done.
Qed.

Lemma run_up bp d from n k s s' :
  genuine bp d -> version_at d (from + Z.of_nat k) (m_disk s) ->
  let ms := map (fun i => migrationName (from + Z.of_nat i) (from + Z.of_nat i + 1)) (seq k n) in
  (forall m, m ∈ ms -> is_Some (bp !! m)) ->
  run_all ms bp d false s = (Ok tt, s') -> version_at d (from + Z.of_nat (k + n)) (m_disk s').
Proof.
  intros G. revert k s. induction n as [|n IH]; intros k s V ms P R; simpl in *.
  { injection R as <-. by rewrite Nat.add_0_r. }
  destruct (run_all_step _ _ _ _ _ _ _ R) as (s1 & E & R1). destruct (P _ (list_elem_of_here _ _)) as [p Hp].
  rewrite Hp in E. simpl in E. destruct (G _ _ (m_disk s) (m_disk s1) Hp) as [U _]. specialize (U E V).
  replace (k + S n)%nat with (S k + n)%nat by lia. apply (IH (S k) s1); [|by intros m Hm; apply P; right|done].
  replace (from + Z.of_nat (S k)) with (from + Z.of_nat k + 1) by lia. done.
Qed.

Lemma run_down bp d from n k s s' :
  genuine bp d -> version_at d (from - Z.of_nat k) (m_disk s) ->
  let ms := map (fun i => migrationName (from - 1 - Z.of_nat i) (from - Z.of_nat i)) (seq k n) in
  (forall m, m ∈ ms -> is_Some (bp !! m)) ->
  run_all ms bp d true s = (Ok tt, s') -> version_at d (from - Z.of_nat (k + n)) (m_disk s').
Proof.
  intros G. revert k s. induction n as [|n IH]; intros k s V ms P R; simpl in *.
  { injection R as <-. by rewrite Nat.add_0_r. }
  destruct (run_all_step _ _ _ _ _ _ _ R) as (s1 & E & R1). destruct (P _ (list_elem_of_here _ _)) as [p Hp].
  rewrite Hp in E. simpl in E.
  replace (from - Z.of_nat k) with (from - 1 - Z.of_nat k + 1) in Hp, V by lia.
  destruct (G _ _ (m_disk s) (m_disk s1) Hp) as [_ U]. specialize (U E V).
  replace (k + S n)%nat with (S k + n)%nat by lia. apply (IH (S k) s1); [|by intros m Hm; apply P; right|done].
  replace (from - Z.of_nat (S k)) with (from - 1 - Z.of_nat k) by lia. done.
Qed.

(** The chain reaches its target, up or down: when every program of the chain
    takes the repository across its own step, running the whole chain takes the
    version file from the first version to the target. *)
Theorem migrations_reach_target bp d from target s s' :
  genuine bp d -> (forall m, m ∈ plan from target -> is_Some (bp !! m)) ->
  version_at d from (m_disk s) ->
  run_all (plan from target) bp d (target <? from) s = (Ok tt, s') ->
  version_at d target (m_disk s').
Proof.
  intros G P V R. unfold plan in *. destruct (Z.ltb_spec target from) as [L|L].
  - replace target with (from - Z.of_nat (0 + Z.to_nat (from - target))) by lia.
    apply (run_down bp d from _ 0 s); [done| |done|done]. by rewrite Z.sub_0_r.
  - replace target with (from + Z.of_nat (0 + Z.to_nat (target - from))) by lia.
    apply (run_up bp d from _ 0 s); [done| |done|done]. by rewrite Z.add_0_r.
Qed.

(** The sources: [GetMigrationFetcher] fails exactly when a source is a bad
    address or none is left, and what it builds runs no program of its own. *)
Theorem migration_fetcher srcs dist new :
  (forall g, new = Some g -> forall d, silent_fetcher (g d)) ->
  match GetMigrationFetcher srcs dist new with
  | Ok f => silent_fetcher f
  | Err e => (exists src, src ∈ srcs /\ source_fetchers src dist new = Err e) \/
             (forall src, src ∈ srcs -> source_fetchers src dist new = Ok [])
  end.
Proof.
  intros New.
  assert (One : forall src fs, source_fetchers src dist new = Ok fs -> Forall silent_fetcher fs).
  { intros src fs. unfold source_fetchers. cbv zeta.
    assert (Hh : forall gw, Forall silent_fetcher [RetryFetcher (http_fetcher (NewHttpFetcher dist gw httpUserAgent 0)) numTriesPerHTTP]).
    { intros gw. apply Forall_singleton, silent_retry, silent_http. }
    destruct (decide _); [by intros [= <-]|].
    destruct (decide _); [intros [= <-]; destruct new as [g|]; [apply Forall_singleton; by apply (New g)|done]|].
    destruct (decide _); [by intros [= <-]|]. destruct (url_Parse _) as [[scheme print]|]; [|done].
    destruct (decide _); [by intros [= <-]|]. by destruct (decide _); [intros [= <-]|]. }
  assert (All : match all_sources srcs dist new with
    | Ok fs => Forall silent_fetcher fs /\ (fs = [] -> forall src, src ∈ srcs -> source_fetchers src dist new = Ok [])
    | Err e => exists src, src ∈ srcs /\ source_fetchers src dist new = Err e end).
  { induction srcs as [|src srcs IH]; simpl; [split; [done|intros _ src []%elem_of_nil]|].
    destruct (source_fetchers src dist new) as [fs|e] eqn:E; [|exists src; split; [by left|done]].
    destruct (all_sources srcs dist new) as [gs|e].
    - destruct IH as [A B]. split; [apply Forall_app; eauto|]. intros [-> ->]%app_nil src' [->|Hs]%elem_of_cons; auto.
    - destruct IH as (src' & ? & ?). exists src'. split; [by right|done]. }
  unfold GetMigrationFetcher. destruct (all_sources srcs dist new) as [[|f [|g fs]]|e].
  - right. by apply All.
  - destruct All as [A _]. by apply Forall_cons_1 in A as [A _].
  - apply silent_multi, All.
  - by left.
Qed.

(** The documented value [pin] of [Migration.Keep] is refused, and the
    undocumented [keep] accepted, on any configuration that can be read. *)
Theorem migration_keep_pin_refused root user s path c cfg s' :
  Filename root user = Ok path -> os_ReadFile path s = (Ok c, s') -> decode_migration c = Ok cfg ->
  (Keep cfg = "pin" -> exists e, ReadMigrationConfig root user s = (Err e, s')) /\
  (Keep cfg = "keep" -> exists m, ReadMigrationConfig root user s = (Ok m, s') /\ Keep m = "keep") /\
  (Keep cfg = "" -> exists m, ReadMigrationConfig root user s = (Ok m, s') /\ Keep m = "cache").
Proof.
  intros P R D. unfold ReadMigrationConfig. rewrite P. rewrite (bind_run _ _ _ path s) by done.
  rewrite (bind_run _ _ _ _ _ R). rewrite D, (bind_run _ _ _ cfg s') by done.
  split_and!; intros ->; simpl; eexists; done.
Qed.

End Migrations.

(** ** Instances *)

(** A host whose search path has every migration; the programs move the
    repository in [/repo] between versions 11 and 12. *)
Definition demo_run (p : string) (args : list string) : io unit := fun s =>
  match files s !! "/repo/version" with
  | Some c =>
      if decide (c = "11" /\ length args = 2%nat) then put_file "/repo/version" "12" s
      else if decide (c = "12" /\ length args = 3%nat) then put_file "/repo/version" "11" s
      else (Err "wrong version", s)
  | None => (Err "no repo", s)
  end.

Definition demo_mig : MigEnv :=
  {| LookPath m := Ok ("/bin/" +:+ m); run_cmd := demo_run;
     decode_migration c := Ok (MkMigration [] c); url_Parse _ := Err "bad" |}.

Definition old_repo : mfs := Mfs (Disk {[ "/repo/version" := "11" ]} ∅ [] []) {[ "/tmp"; "/repo" ]} 0 [].

Section MigrationWitnesses.
Import DemoRepo.
Local Existing Instances demo_env demo_fetch demo_mig.

Definition demo_fetcher : Fetcher := http_fetcher (NewHttpFetcher "" "" "go-ipfs" 0).

Lemma run_migration_plan_witness :
  exists bp ms1 ms2, plan 11 12 = ms1 ++ ms2 /\
    m_ran (RunMigration demo_fetcher 12 "/repo" false old_repo).2 = [] ++ commands bp "/repo" false ms1 /\
    (ms1 <> [] -> forall m, m ∈ plan 11 12 -> exists p, bp !! m = Some p /\ binary_of demo_fetcher m p) /\
    ((RunMigration demo_fetcher 12 "/repo" false old_repo).1 = Ok tt -> ms2 = []).
Proof.
  refine (proj2 (proj2 (run_migration_plan demo_fetcher 12 "/repo" false old_repo "/repo" old_repo 11 old_repo
    (RunMigration demo_fetcher 12 "/repo" false old_repo).1 (RunMigration demo_fetcher 12 "/repo" false old_repo).2
    _ _ _ (surjective_pairing _)))); [apply silent_http|reflexivity|reflexivity].
Defined.

Lemma demo_genuine bp : genuine bp "/repo".
Proof.
  intros i p s s' _. unfold version_at. change (Join "/repo" versionFile) with "/repo/version".
  split; intros R (c & E & V); simpl in R; unfold demo_run in R; rewrite E in R;
    (destruct (decide (c = "11" /\ _)) as [[-> L]|_]; [|destruct (decide (c = "12" /\ _)) as [[-> L]|_]]); try done;
    injection R as <-; eexists; (split; [simpl; apply lookup_insert_eq|]).
  - change (Some 11 = Some i) in V. by injection V as <-.
  - change (Some 12 = Some (i + 1)) in V. injection V as V. by replace i with 11 by lia.
Qed.

Lemma migrations_reach_target_witness :
  exists s', run_all (plan 11 12) {[ "fs-repo-11-to-12" := "/bin/fs-repo-11-to-12" ]} "/repo" false old_repo = (Ok tt, s') /\
    version_at "/repo" 12 (m_disk s').
Proof.
  eexists. split; [reflexivity|].
  apply (migrations_reach_target {[ "fs-repo-11-to-12" := "/bin/fs-repo-11-to-12" ]} "/repo" 11 12 old_repo);
    [apply demo_genuine| | |reflexivity].
  - intros m Hm. change (m ∈ ["fs-repo-11-to-12"]) in Hm. apply list_elem_of_singleton in Hm as ->.
    exists "/bin/fs-repo-11-to-12". reflexivity.
  - exists "11". split; reflexivity.
Defined.

Lemma migration_fetcher_witness :
  match GetMigrationFetcher ["HTTPS"; " "; "IPFS"] "" (Some (fun _ => demo_fetcher)) with
  | Ok f => silent_fetcher f
  | Err _ => False
  end.
Proof.
  pose proof (migration_fetcher ["HTTPS"; " "; "IPFS"] "" (Some (fun _ => demo_fetcher))) as M.
  apply M. intros g [= <-] d. apply silent_http.
Defined.

Lemma migration_keep_pin_refused_witness :
  let d := Disk {[ "/repo/config" := "pin" ]} ∅ [] [] in
  exists e, ReadMigrationConfig "/repo" "" d = (Err e, d).
Proof.
  intros d. apply (migration_keep_pin_refused "/repo" "" d "/repo/config" "pin" (MkMigration [] "pin") d); reflexivity.
Defined.

End MigrationWitnesses.
