(* ===== verification/OnlyOne.v ===== *)
(** Sharing open repositories: [repo/onlyone.go].

    References live in a store, since clients keep them after they leave the
    table.  The open function the caller passes is its result, the identity of a
    repository; [open_repos] are the repositories that are open.  Counters are
    32-bit. *)
From Stdlib Require Import ZArith Lia String.
From stdpp Require Import base list strings gmap sets relations.
From S2P Require Import Prelude.

Local Open Scope Z_scope.

Record ref := MkRef { ref_key : string; ref_refs : Z; ref_Repo : nat }.

Record OnlyOne := MkOnlyOne {
  active : gmap string nat;
  refs : gmap nat ref;
  open_repos : gset nat;
}.

Definition no_repos : OnlyOne := MkOnlyOne ∅ ∅ ∅.

(** [item.refs++] *)
Definition bump (r : ref) : ref := MkRef (ref_key r) (u32 (ref_refs r + 1)) (ref_Repo r).

Definition Open (key : string) (open : result nat) (o : OnlyOne) : result nat * OnlyOne :=
  match active o !! key with
  | Some item => (Ok item, MkOnlyOne (active o) (alter bump item (refs o)) (open_repos o))
  | None =>
      match open with
      | Err e => (Err e, o)
      | Ok repo =>
          let item := fresh (dom (refs o)) in
          (Ok item, MkOnlyOne (<[key := item]> (active o)) (<[item := bump (MkRef key 0 repo)]> (refs o))
                      ({[ repo ]} ∪ open_repos o))
      end
  end.

(** [closeErr]: what [Repo.Close] returns. *)
Definition ref_Close (item : nat) (closeErr : option error) (o : OnlyOne) : option error * OnlyOne :=
  match refs o !! item with
  | None => (None, o)
  | Some r =>
      let n := u32 (ref_refs r - 1) in
      let refs' := <[item := MkRef (ref_key r) n (ref_Repo r)]> (refs o) in
      if 0 <? n then (None, MkOnlyOne (active o) refs' (open_repos o))
      else (closeErr, MkOnlyOne (delete (ref_key r) (active o)) refs' (open_repos o ∖ {[ ref_Repo r ]}))
  end.

(** ** Runs

    [handles]: the references clients hold, once per successful [Open] they have
    not closed. *)

Record sys := Sys { one : OnlyOne; handles : list nat }.

Definition after_open (key : string) (open : result nat) (x : sys) : sys :=
  match Open key open (one x) with
  | (Ok item, o) => Sys o (item :: handles x)
  | (Err _, o) => Sys o (handles x)
  end.

Inductive step : sys -> sys -> Prop :=
| step_open x key open :
    (forall repo, open = Ok repo -> repo ∉ open_repos (one x)) ->
    Z.of_nat (length (handles x)) < 2 ^ 32 - 1 ->
    step x (after_open key open x)
| step_close x hs1 item hs2 err :
    handles x = hs1 ++ item :: hs2 ->
    step x (Sys (ref_Close item err (one x)).2 (hs1 ++ hs2)).

Definition held (item : nat) (hs : list nat) : Z := Z.of_nat (length (filter (item =.) hs)).

Lemma held_cons item i hs : held item (i :: hs) = held item hs + (if decide (item = i) then 1 else 0).
Proof. unfold held. rewrite filter_cons. destruct (decide (item = i)); simpl; lia. Qed.

Lemma held_middle item i hs1 hs2 :
  held item (hs1 ++ i :: hs2) = held item (hs1 ++ hs2) + (if decide (item = i) then 1 else 0).
Proof.
  unfold held. rewrite !filter_app, filter_cons. rewrite !length_app. destruct (decide (item = i)); simpl; lia.
Qed.

Lemma held_pos item hs : 0 < held item hs <-> item ∈ hs.
Proof.
  induction hs as [|i hs IH]; [unfold held; simpl; split; [lia|by intros ?%elem_of_nil]|].
  rewrite held_cons, elem_of_cons. assert (0 <= held item hs) by (unfold held; lia).
  destruct (decide (item = i)) as [->|]; [split; [by left|lia]|]. rewrite Z.add_0_r, IH.
  split; [by right|by intros [?|?]].
Qed.

Lemma held_le item hs : held item hs <= Z.of_nat (length hs).
Proof. unfold held. pose proof (length_filter (item =.) hs). lia. Qed.

(** Exactly the references that are held are active, with their count; exactly
    their repositories are open. *)
Record shared (x : sys) : Prop := {
  sh_active : forall k i, active (one x) !! k = Some i ->
    exists r, refs (one x) !! i = Some r /\ ref_key r = k /\ ref_refs r = held i (handles x) /\
      i ∈ handles x /\ ref_Repo r ∈ open_repos (one x);
  sh_held : forall i, i ∈ handles x -> exists k, active (one x) !! k = Some i;
  sh_open : forall p, p ∈ open_repos (one x) -> exists k i r, active (one x) !! k = Some i /\
    refs (one x) !! i = Some r /\ ref_Repo r = p;
  sh_distinct : forall k1 i1 r1 k2 i2 r2, active (one x) !! k1 = Some i1 -> refs (one x) !! i1 = Some r1 ->
    active (one x) !! k2 = Some i2 -> refs (one x) !! i2 = Some r2 -> ref_Repo r1 = ref_Repo r2 -> k1 = k2;
  sh_bound : Z.of_nat (length (handles x)) < 2 ^ 32
}.

(** Another active key has another reference. *)
Lemma shared_ref_key x k i r : shared x -> active (one x) !! k = Some i -> refs (one x) !! i = Some r -> ref_key r = k.
Proof. intros I A R. destruct (sh_active _ I k i A) as (r' & R' & K & _). congruence. Qed.

Lemma shared_reopen x k i :
  shared x -> active (one x) !! k = Some i -> Z.of_nat (length (handles x)) < 2 ^ 32 - 1 ->
  shared (Sys (MkOnlyOne (active (one x)) (alter bump i (refs (one x))) (open_repos (one x))) (i :: handles x)).
Proof.
  intros I A B. destruct (sh_active _ I k i A) as (r & R & K & C & Hi & Ho).
  assert (L : forall j s, alter bump i (refs (one x)) !! j = Some s ->
            exists s0, refs (one x) !! j = Some s0 /\ ref_Repo s = ref_Repo s0 /\ ref_key s = ref_key s0).
  { intros j s [(<- & s0 & E & ->)|[_ E]]%lookup_alter_Some; eauto. }
  split; simpl.
  - intros k' j Hj. destruct (sh_active _ I k' j Hj) as (s & S & Ks & Cs & Hs & Os).
    rewrite held_cons. destruct (decide (j = i)) as [->|Hne].
    + exists (bump r). rewrite lookup_alter_eq, R. simpl. simplify_eq. split_and!; try done; [|by left].
      rewrite C, u32_small; [done|]. pose proof (held_le i (handles x)). unfold held in *. lia.
    + exists s. rewrite lookup_alter_ne by done. split_and!; try done; [lia|by right].
  - intros j [->|Hj]%elem_of_cons; [eauto|]. by apply (sh_held _ I).
  - intros p Hp. destruct (sh_open _ I p Hp) as (k' & j & s & Aj & Sj & E). exists k', j.
    destruct (decide (j = i)) as [->|Hne]; [exists (bump s); by rewrite lookup_alter_eq, Sj|].
    exists s. by rewrite lookup_alter_ne.
  - intros k1 i1 r1 k2 i2 r2 A1 R1 A2 R2 E. apply L in R1 as (s1 & R1 & E1 & _). apply L in R2 as (s2 & R2 & E2 & _).
    apply (sh_distinct _ I k1 i1 s1 k2 i2 s2); congruence.
  - lia.
Qed.

Lemma shared_new x k repo i :
  shared x -> active (one x) !! k = None -> refs (one x) !! i = None -> repo ∉ open_repos (one x) ->
  Z.of_nat (length (handles x)) < 2 ^ 32 - 1 ->
  shared (Sys (MkOnlyOne (<[k := i]> (active (one x))) (<[i := bump (MkRef k 0 repo)]> (refs (one x)))
                 ({[ repo ]} ∪ open_repos (one x))) (i :: handles x)).
Proof.
  intros I A R P B.
  assert (Hi : forall k' j, active (one x) !! k' = Some j -> j <> i).
  { intros k' j Hj ->. destruct (sh_active _ I k' i Hj) as (r & E & _). congruence. }
  assert (Hn : i ∉ handles x).
  { intros Hh. destruct (sh_held _ I i Hh) as [k' Hk]. by apply (Hi k' i). }
  assert (L : forall k' j s, <[k := i]> (active (one x)) !! k' = Some j -> <[i := bump (MkRef k 0 repo)]> (refs (one x)) !! j = Some s ->
            k' = k /\ j = i /\ ref_Repo s = repo \/
            active (one x) !! k' = Some j /\ refs (one x) !! j = Some s /\ ref_Repo s ∈ open_repos (one x)).
  { intros k' j s [[<- <-]|[Hne Hj]]%lookup_insert_Some Hs.
    - rewrite lookup_insert_eq in Hs. injection Hs as <-. by left.
    - rewrite lookup_insert_ne in Hs by (symmetry; by apply (Hi k')). right. split_and!; try done.
      destruct (sh_active _ I k' j Hj) as (s' & E & _ & _ & _ & O). congruence. }
  split; simpl.
  - intros k' j [[<- <-]|[Hne Hj]]%lookup_insert_Some.
    + exists (bump (MkRef k 0 repo)). rewrite lookup_insert_eq. simpl. split_and!; try done; [|by left|set_solver].
      rewrite held_cons, decide_True by done. unfold held.
      destruct (filter (i =.) (handles x)) as [|y l] eqn:F; [done|]. exfalso. apply Hn.
      assert (y ∈ filter (i =.) (handles x)) as Hy by (rewrite F; by left). apply list_elem_of_filter in Hy as [-> Hy]. done.
    + destruct (sh_active _ I k' j Hj) as (s & E & K & C & Hh & O). exists s.
      rewrite lookup_insert_ne by (symmetry; by apply (Hi k')). rewrite held_cons, decide_False by (by apply (Hi k')).
      split_and!; try done; [lia|by right|set_solver].
  - intros j [->|Hj]%elem_of_cons; [exists k; apply lookup_insert_eq|].
    destruct (sh_held _ I j Hj) as [k' Hk]. exists k'. rewrite lookup_insert_ne by congruence. done.
  - intros p [->%elem_of_singleton|Hp]%elem_of_union.
    + exists k, i, (bump (MkRef k 0 repo)). by rewrite !lookup_insert_eq.
    + destruct (sh_open _ I p Hp) as (k' & j & s & Aj & Sj & E). exists k', j, s.
      rewrite !lookup_insert_ne; [done|symmetry; by apply (Hi k')|congruence].
  - intros k1 i1 r1 k2 i2 r2 A1 R1 A2 R2 E.
    destruct (L _ _ _ A1 R1) as [(-> & -> & E1)|(B1 & C1 & O1)], (L _ _ _ A2 R2) as [(-> & -> & E2)|(B2 & C2 & O2)];
      [done|congruence|congruence|by apply (sh_distinct _ I k1 i1 r1 k2 i2 r2)].
  - lia.
Qed.

(** Closing a reference that is held twice only lowers its count. *)
Lemma shared_release x k i r hs1 hs2 :
  shared x -> handles x = hs1 ++ i :: hs2 -> active (one x) !! k = Some i -> refs (one x) !! i = Some r ->
  i ∈ hs1 ++ hs2 ->
  shared (Sys (MkOnlyOne (active (one x)) (<[i := MkRef (ref_key r) (ref_refs r - 1) (ref_Repo r)]> (refs (one x)))
                 (open_repos (one x))) (hs1 ++ hs2)).
Proof.
  intros I H A R Hi.
  assert (L : forall j s, <[i := MkRef (ref_key r) (ref_refs r - 1) (ref_Repo r)]> (refs (one x)) !! j = Some s ->
            exists s0, refs (one x) !! j = Some s0 /\ ref_Repo s = ref_Repo s0).
  { intros j s [[<- <-]|[_ E]]%lookup_insert_Some; eauto. }
  split; simpl.
  - intros k' j Hj. destruct (sh_active _ I k' j Hj) as (s & S & Ks & Cs & Hs & Os). rewrite H, held_middle in Cs.
    destruct (decide (j = i)) as [->|Hne].
    + simplify_eq. eexists. rewrite lookup_insert_eq. split_and!; try done. simpl. lia.
    + exists s. rewrite lookup_insert_ne by done. split_and!; try done; [lia|]. rewrite H in Hs. set_solver.
  - intros j Hj. apply (sh_held _ I). rewrite H. set_solver.
  - intros p Hp. destruct (sh_open _ I p Hp) as (k' & j & s & Aj & Sj & E). exists k', j.
    destruct (decide (j = i)) as [->|Hne]; [eexists; rewrite lookup_insert_eq; split_and!; try done; simpl; congruence|].
    exists s. by rewrite lookup_insert_ne.
  - intros k1 i1 r1 k2 i2 r2 A1 R1 A2 R2 E. apply L in R1 as (s1 & R1 & E1). apply L in R2 as (s2 & R2 & E2).
    apply (sh_distinct _ I k1 i1 s1 k2 i2 s2); congruence.
  - pose proof (sh_bound _ I) as B. rewrite H, length_app in B. simpl in B. rewrite length_app. lia.
Qed.

(** Closing the last one closes the repository. *)
Lemma shared_last x k i r n hs1 hs2 :
  shared x -> handles x = hs1 ++ i :: hs2 -> active (one x) !! k = Some i -> refs (one x) !! i = Some r ->
  i ∉ hs1 ++ hs2 ->
  shared (Sys (MkOnlyOne (delete k (active (one x))) (<[i := MkRef (ref_key r) n (ref_Repo r)]> (refs (one x)))
                 (open_repos (one x) ∖ {[ ref_Repo r ]})) (hs1 ++ hs2)).
Proof.
  intros I H A R Hi.
  assert (Hk : forall k' j, active (one x) !! k' = Some j -> k' <> k -> j <> i).
  { intros k' j Hj Hne ->. apply Hne. destruct (sh_active _ I k' i Hj) as (r1 & E1 & K1 & _).
    destruct (sh_active _ I k i A) as (r2 & E2 & K2 & _). congruence. }
  split; simpl.
  - intros k' j [Hne Hj]%lookup_delete_Some. pose proof (Hk _ _ Hj (not_eq_sym Hne)) as Hji.
    destruct (sh_active _ I k' j Hj) as (s & S & Ks & Cs & Hs & Os). rewrite H, held_middle, decide_False in Cs by done.
    exists s. rewrite lookup_insert_ne by done. split_and!; try done; [lia|rewrite H in Hs; set_solver|].
    apply elem_of_difference. split; [done|]. intros E%elem_of_singleton.
    apply Hne. symmetry. by apply (sh_distinct _ I k' j s k i r).
  - intros j Hj. assert (Hj' : j ∈ handles x) by (rewrite H; set_solver).
    destruct (sh_held _ I j Hj') as [k' Hk']. exists k'. rewrite lookup_delete_ne; [done|].
    intros <-. simplify_eq. done.
  - intros p [Hp Hne]%elem_of_difference. destruct (sh_open _ I p Hp) as (k' & j & s & Aj & Sj & E).
    assert (k' <> k) as Hkk by (intros ->; simplify_eq; set_solver).
    exists k', j, s. rewrite lookup_delete_ne, lookup_insert_ne; [done| |done]. symmetry. by apply (Hk k').
  - intros k1 i1 r1 k2 i2 r2 [N1 A1]%lookup_delete_Some R1 [N2 A2]%lookup_delete_Some R2 E.
    rewrite lookup_insert_ne in R1 by (symmetry; by apply (Hk k1)). rewrite lookup_insert_ne in R2 by (symmetry; by apply (Hk k2)).
    by apply (sh_distinct _ I k1 i1 r1 k2 i2 r2).
  - pose proof (sh_bound _ I) as B. rewrite H, length_app in B. simpl in B. rewrite length_app. lia.
Qed.

(** [ref_Close] of a held reference, by whether it is the last one. *)
Lemma ref_Close_held x i err hs1 hs2 :
  shared x -> handles x = hs1 ++ i :: hs2 ->
  exists k r, active (one x) !! k = Some i /\ refs (one x) !! i = Some r /\
    shared (Sys (ref_Close i err (one x)).2 (hs1 ++ hs2)) /\
    (i ∈ hs1 ++ hs2 -> (ref_Close i err (one x)).1 = None /\ open_repos (ref_Close i err (one x)).2 = open_repos (one x)) /\
    (i ∉ hs1 ++ hs2 -> (ref_Close i err (one x)).1 = err /\
       open_repos (ref_Close i err (one x)).2 = open_repos (one x) ∖ {[ ref_Repo r ]} /\
       active (ref_Close i err (one x)).2 !! k = None).
Proof.
  intros I H. assert (Hi : i ∈ handles x) by (rewrite H; set_solver).
  destruct (sh_held _ I i Hi) as [k A]. destruct (sh_active _ I k i A) as (r & R & K & C & _ & O).
  exists k, r. split_and!; [done|done| | |].
  all: unfold ref_Close; rewrite R; cbv zeta; rewrite H, held_middle, decide_True in C by done;
    pose proof (held_le i (hs1 ++ hs2)) as Hle; pose proof (sh_bound _ I) as B;
    rewrite H, length_app in B; simpl in B; rewrite length_app in Hle;
    assert (0 <= held i (hs1 ++ hs2)) by (unfold held; lia);
    rewrite (u32_small (ref_refs r - 1)) by lia;
    destruct (Z.ltb_spec 0 (ref_refs r - 1)) as [L|L]; simpl.
  - apply (shared_release x k i r hs1 hs2); try done. apply held_pos. lia.
  - rewrite K. rewrite <- K at 2. apply (shared_last x k i r _ hs1 hs2); try done. rewrite <- held_pos. lia.
  - done.
  - intros Hin%held_pos. lia.
  - intros Hout. exfalso. apply Hout, held_pos. lia.
  - intros _. split_and!; [done|done|]. rewrite K. apply lookup_delete_eq.
Qed.

Lemma shared_step x x' : shared x -> step x x' -> shared x'.
Proof.
  intros I St. destruct St as [x key open P B|x hs1 i hs2 err H].
  - unfold after_open, Open. destruct (active (one x) !! key) as [i|] eqn:A; [by apply (shared_reopen x key)|].
    destruct open as [repo|e]; [|by destruct x].
    apply shared_new; try done; [|by apply P]. apply not_elem_of_dom, is_fresh.
  - destruct (ref_Close_held x i err hs1 hs2 I H) as (k & r & _ & _ & S & _). exact S.
Qed.

Lemma shared_reachable x : rtc step (Sys no_repos []) x -> shared x.
Proof.
  assert (I0 : shared (Sys no_repos [])).
  { split; simpl.
    - intros k i E. by rewrite lookup_empty in E.
    - by intros i ?%elem_of_nil.
    - by intros p ?%elem_of_empty.
    - intros k1 i1 r1 k2 i2 r2 E. by rewrite lookup_empty in E.
    - done. }
  revert I0. generalize (Sys no_repos []). intros s0 I0 R. induction R as [|a b c St R IH]; [done|].
  by apply IH, (shared_step a).
Qed.

(** ** Properties *)

(** C26: One open repository per key, for as long as someone holds it: in every run
    in which clients close each handle they were given once, a key with an
    outstanding handle is served the same handle again without opening anything,
    whatever the open function would do; closing a handle closes its repository
    exactly when it was the last one, returning the repository's error; the open
    repositories are exactly those of the outstanding handles, one per key; and a
    key without one is opened anew, its failure leaving everything as it was. *)
Theorem onlyone_shares_repos (x : sys) (R : rtc step (Sys no_repos []) x) :
  (forall key i open, active (one x) !! key = Some i ->
     i ∈ handles x /\ (Open key open (one x)).1 = Ok i /\
     open_repos (Open key open (one x)).2 = open_repos (one x)) /\
  (forall key e, active (one x) !! key = None -> Open key (Err e) (one x) = (Err e, one x)) /\
  (forall i hs1 hs2 err, handles x = hs1 ++ i :: hs2 ->
     exists r, refs (one x) !! i = Some r /\
       open_repos (ref_Close i err (one x)).2
       = (if decide (i ∈ hs1 ++ hs2) then open_repos (one x) else open_repos (one x) ∖ {[ ref_Repo r ]}) /\
       (ref_Close i err (one x)).1 = (if decide (i ∈ hs1 ++ hs2) then None else err)) /\
  (forall p, p ∈ open_repos (one x) <-> exists i r, i ∈ handles x /\ refs (one x) !! i = Some r /\ ref_Repo r = p).
Proof.
  pose proof (shared_reachable x R) as I. split_and!.
  - intros key i open A. destruct (sh_active _ I key i A) as (r & _ & _ & _ & Hi & _). unfold Open. by rewrite A.
  - intros key e A. unfold Open. by rewrite A.
  - intros i hs1 hs2 err H. destruct (ref_Close_held x i err hs1 hs2 I H) as (k & r & _ & Er & _ & Hin & Hout).
    exists r. split; [done|]. destruct (decide (i ∈ hs1 ++ hs2)) as [E|E]; [destruct (Hin E)|destruct (Hout E) as (? & ? & _)]; done.
  - intros p. split.
    + intros Hp. destruct (sh_open _ I p Hp) as (k & i & r & A & E & Q). exists i, r.
      destruct (sh_active _ I k i A) as (_ & _ & _ & _ & Hi & _). done.
    + intros (i & r & Hi & E & <-). destruct (sh_held _ I i Hi) as [k A].
      destruct (sh_active _ I k i A) as (r' & E' & _ & _ & _ & O). congruence.
Qed.

(** Two clients of one repository. *)
Definition two_clients : sys := after_open "a" (Err "unused") (after_open "a" (Ok 7%nat) (Sys no_repos [])).

Lemma onlyone_shares_repos_witness :
  (Open "a" (Ok 8%nat) (one two_clients)).1 = Ok 0%nat /\
  (ref_Close 0 (Some "err") (one two_clients)).1 = None.
Proof.
  assert (R : rtc step (Sys no_repos []) two_clients).
  { eapply rtc_l; [apply (step_open _ "a" (Ok 7%nat)); [set_solver|done]|].
    eapply rtc_l; [apply (step_open _ "a" (Err "unused")); [done|done]|]. apply rtc_refl. }
  destruct (onlyone_shares_repos two_clients R) as (A & _ & C & _). split.
  - apply (A "a" 0%nat (Ok 8%nat)). reflexivity.
  - destruct (C 0%nat [] [0%nat] (Some "err") eq_refl) as (r & _ & _ & ->). rewrite decide_True by set_solver. done.
Defined.

(** Closing a reference once more than it was opened is not detected: the
    counter wraps around, the call returns nil, and the reference, although no
    longer in the table, counts 2^32 - 1 users. *)
Theorem onlyone_extra_close :
  let o := (Open "a" (Ok 7%nat) no_repos).2 in
  let o := (ref_Close 0 None o).2 in
  ref_Close 0 (Some "closed twice") o
  = (None, MkOnlyOne ∅ {[ 0%nat := MkRef "a" (2 ^ 32 - 1) 7 ]} ∅).
Proof. vm_compute. reflexivity. Qed.
