(* ===== verification/RmBlocks.v ===== *)
(** Removing single blocks: [blocks/blockstoreutil/remove.go].

    The results sent on the channel are a list.  The pinner is [PinCheck]; the
    blockstore is the collector's, with [Has]. *)
From Stdlib Require Import ZArith Lia String.
From stdpp Require Import base list strings gmap sets.
From S2P Require Import Prelude GC.

Record RemovedBlock := MkRemoved { rm_Hash : string; rm_Error : option error }.
Record RmBlocksOpts := MkOpts { Prefix : string; Quiet : bool; Force : bool }.

(** [pin.Pinned]: a CID, whether it is pinned, and the reason. *)
Record Pinned := MkPinned { Key : cid; is_pinned : bool; reason : string }.

Class PinCheck := {
  (** the pins, under the very CIDs they were made with *)
  pinned_cid : cid -> bool;
  CheckIfPinned : list cid -> result (list Pinned);
  CheckIfPinned_each : forall cs res, CheckIfPinned cs = Ok res ->
    Key <$> res ≡ₚ cs /\ Forall (fun r => is_pinned r = pinned_cid (Key r)) res;
  cid_String : cid -> string
}.

Class HasBlock `{GCBlockstore} := {
  Has : bstore -> cid -> result bool;
  Has_spec : forall s c b, Has s c = Ok b -> b = bs_has s (Hash c)
}.

Section RmBlocks.
Context `{PinCheck, HasBlock}.

(** The results sent and the CIDs that may be removed. *)
Definition FilterPinned (cids : list cid) : list RemovedBlock * list cid :=
  match CheckIfPinned cids with
  | Err e => ([MkRemoved "" (Some ("pin check failed: " +:+ e))], [])
  | Ok res =>
      (map (fun r => MkRemoved (cid_String (Key r)) (Some (reason r))) (filter (fun r => is_pinned r = true) res),
       map Key (filter (fun r => is_pinned r = false) res))
  end.

(** One round of the loop. *)
Definition remove_one (opts : RmBlocksOpts) (c : cid) (bs : bstore) : list RemovedBlock * bstore :=
  match Has bs c with
  | Err e => ([MkRemoved (cid_String c) (Some e)], bs)
  | Ok has =>
      if negb has && negb (Force opts)
      then ([MkRemoved (cid_String c) (Some ("ipld: could not find " +:+ cid_String c))], bs)
      else match DeleteBlock bs c with
           | (Some e, bs) => ([MkRemoved (cid_String c) (Some e)], bs)
           | (None, bs) => (if Quiet opts then [] else [MkRemoved (cid_String c) None], bs)
           end
  end.

Fixpoint remove_loop (opts : RmBlocksOpts) (cids : list cid) (bs : bstore) : list RemovedBlock * bstore :=
  match cids with
  | [] => ([], bs)
  | c :: cids =>
      let '(out, bs) := remove_one opts c bs in
      let '(outs, bs) := remove_loop opts cids bs in (out ++ outs, bs)
  end.

Definition RmBlocks (cids : list cid) (opts : RmBlocksOpts) (bs : bstore) : list RemovedBlock * bstore :=
  let '(out, stillOkay) := FilterPinned cids in
  let '(outs, bs) := remove_loop opts stillOkay bs in (out ++ outs, bs).

(** ** Lemmas *)

Lemma FilterPinned_spec cids out ok : FilterPinned cids = (out, ok) ->
  (forall c, c ∈ ok -> c ∈ cids /\ pinned_cid c = false) /\
  (cids <> [] -> length out + length ok <= length cids) /\
  ((exists res, CheckIfPinned cids = Ok res) -> forall c, c ∈ cids -> pinned_cid c = false -> c ∈ ok).
Proof.
  unfold FilterPinned. destruct (CheckIfPinned cids) as [res|e] eqn:E; intros [= <- <-].
  - destruct (CheckIfPinned_each _ _ E) as [P F]. rewrite Forall_forall in F. split_and!.
    + intros c Hc. apply list_elem_of_fmap in Hc as (r & -> & [Hr1 Hr2]%list_elem_of_filter).
      split; [|rewrite <- (F r Hr2); done]. rewrite <- P. by apply list_elem_of_fmap_2.
    + intros _. rewrite !length_map, <- P, length_fmap. clear.
      induction res as [|r res IH]; simpl; [lia|]. rewrite !filter_cons. destruct (is_pinned r); simpl; lia.
    + intros _ c Hc Hp. rewrite <- P in Hc. apply list_elem_of_fmap in Hc as (r & -> & Hr).
      apply list_elem_of_fmap_2, list_elem_of_filter. split; [by rewrite (F r Hr)|done].
  - split_and!; [by intros c ?%elem_of_nil| |by intros []]. intros Hne. simpl. destruct cids; [done|simpl; lia].
Qed.

Lemma remove_one_spec opts c bs out bs' : remove_one opts c bs = (out, bs') ->
  length out <= 1 /\ (forall h, h <> Hash c -> bs_has bs' h = bs_has bs h) /\
  (Forall (fun r => rm_Error r = None) out -> bs_has bs' (Hash c) = false).
Proof.
  unfold remove_one. destruct (Has bs c) as [has|e] eqn:Eh.
  2:{ intros [= <- <-]. split_and!; [done|done|by intros [? _]%Forall_cons_1]. }
  destruct (negb has && negb (Force opts)).
  { intros [= <- <-]. split_and!; [done|done|by intros [? _]%Forall_cons_1]. }
  pose proof (DeleteBlock_other bs c) as O. pose proof (DeleteBlock_done bs c) as D.
  destruct (DeleteBlock bs c) as [[e|] bs1]; simpl in *; intros [= <- <-].
  - split_and!; [done|done|by intros [? _]%Forall_cons_1].
  - split_and!; [by destruct (Quiet opts); simpl; lia|done|by intros _; apply D].
Qed.

Lemma remove_loop_spec opts cids bs out bs' : remove_loop opts cids bs = (out, bs') ->
  length out <= length cids /\
  (forall h, (forall c, c ∈ cids -> Hash c <> h) -> bs_has bs' h = bs_has bs h).
Proof.
  revert bs out. induction cids as [|c cids IH]; intros bs out; simpl; [by intros [= <- <-]|].
  destruct (remove_one opts c bs) as [o1 bs1] eqn:E1. destruct (remove_loop opts cids bs1) as [o2 bs2] eqn:E2.
  intros [= <- <-]. destruct (remove_one_spec _ _ _ _ _ E1) as (L1 & K1 & _). destruct (IH _ _ E2) as [L2 K2].
  split; [rewrite length_app; lia|]. intros h Hh. rewrite K2, K1; [done| |].
  - intros ->. by apply (Hh c); [left|].
  - intros c' Hc'. apply Hh. by right.
Qed.

(** A loop without errors removes every block it was given: later rounds do not
    bring a block back. *)
Lemma remove_loop_done opts cids bs out bs' : remove_loop opts cids bs = (out, bs') ->
  Forall (fun r => rm_Error r = None) out -> forall c, c ∈ cids -> bs_has bs' (Hash c) = false.
Proof.
  revert bs out. induction cids as [|c cids IH]; intros bs out; simpl; [by intros _ _ c ?%elem_of_nil|].
  destruct (remove_one opts c bs) as [o1 bs1] eqn:E1. destruct (remove_loop opts cids bs1) as [o2 bs2] eqn:E2.
  intros [= <- <-] [F1 F2]%Forall_app x [->|Hx]%elem_of_cons; [|by apply (IH _ _ E2 F2)].
  destruct (remove_one_spec _ _ _ _ _ E1) as (_ & _ & D).
  destruct (decide (Hash c ∈ Hash <$> cids)) as [(y & -> & Hy)%list_elem_of_fmap|Hn]; [by apply (IH _ _ E2 F2)|].
  destruct (remove_loop_spec _ _ _ _ _ E2) as [_ K].
  rewrite K by (intros y Hy Hh; apply Hn; rewrite <- Hh; by apply list_elem_of_fmap_2). by apply D.
Qed.

(** ** Properties *)

(** [RmBlocks] removes what it was asked to and nothing else: a block changes
    only if some requested CID with its multihash is not pinned under that CID;
    when no error is reported every requested block is gone and none of the
    CIDs was pinned; and never more results than CIDs are sent, so the channel,
    which has room for one per CID, never blocks while the lock is held. *)
Theorem rm_blocks_exact cids opts bs out bs' :
  cids <> [] -> RmBlocks cids opts bs = (out, bs') ->
  (forall h, (forall c, c ∈ cids -> Hash c = h -> pinned_cid c = true) -> bs_has bs' h = bs_has bs h) /\
  (Forall (fun r => rm_Error r = None) out ->
     forall c, c ∈ cids -> pinned_cid c = false /\ bs_has bs' (Hash c) = false) /\
  length out <= length cids.
Proof.
  intros Hne. unfold RmBlocks. destruct (FilterPinned cids) as [o1 ok] eqn:Ef.
  destruct (remove_loop opts ok bs) as [o2 bs2] eqn:Er. intros [= <- <-].
  destruct (FilterPinned_spec _ _ _ Ef) as (F1 & F2 & F3). destruct (remove_loop_spec _ _ _ _ _ Er) as [L K]. split_and!.
  - intros h Hh. apply K. intros c Hc Heq. destruct (F1 c Hc) as [Hin Hp]. rewrite (Hh c Hin Heq) in Hp. done.
  - intros Hall c Hc. apply Forall_app in Hall as [A1 A2]. rewrite Forall_forall in A1.
    assert (C : exists res, CheckIfPinned cids = Ok res).
    { unfold FilterPinned in Ef. destruct (CheckIfPinned cids) as [res|e]; [eauto|].
      injection Ef as <- <-. by specialize (A1 _ (list_elem_of_here _ _)). }
    destruct (pinned_cid c) eqn:Ep; [|split; [done|]; apply (remove_loop_done _ _ _ _ _ Er A2); by apply F3].
    exfalso. destruct C as [res C]. destruct (CheckIfPinned_each _ _ C) as [P F].
    unfold FilterPinned in Ef. rewrite C in Ef. injection Ef as <- <-. rewrite <- P in Hc.
    apply list_elem_of_fmap in Hc as (r & -> & Hr). rewrite Forall_forall in F.
    assert (is_pinned r = true) as Hpr by (by rewrite (F r Hr)).
    specialize (A1 (MkRemoved (cid_String (Key r)) (Some (reason r)))). simpl in A1.
    discriminate A1. apply list_elem_of_fmap. exists r. split; [done|]. by apply list_elem_of_filter.
  - rewrite length_app. specialize (F2 Hne). lia.
Qed.

End RmBlocks.

(** ** Instances *)

Section RmBlocksWitnesses.
Import Demo.
Local Existing Instance demo_store.

(** The CIDv0 of block [a] is pinned. *)
Definition demo_pins : PinCheck.
Proof.
  refine {| pinned_cid c := bool_decide (c = v0 "a");
            CheckIfPinned cs := Ok (map (fun c => MkPinned c (bool_decide (c = v0 "a")) "pinned") cs);
            cid_String := Hash |}.
  intros cs res [= <-]. split.
  - rewrite <- list_fmap_compose. by rewrite list_fmap_id.
  - apply Forall_fmap, Forall_true. done.
Defined.

Definition demo_has : HasBlock.
Proof. refine {| Has s c := Ok (bs_has s (Hash c)) |}. by intros s c b [= <-]. Defined.

Local Existing Instances demo_pins demo_has.

Definition store1 : @bstore demo_store := store0.

Lemma rm_blocks_exact_witness :
  bs_has (RmBlocks [v0 "a"; v1 "b"] (MkOpts "" false false) store1).2 "a" = true /\
  length (RmBlocks [v0 "a"; v1 "b"] (MkOpts "" false false) store1).1 <= 2.
Proof.
  destruct (rm_blocks_exact [v0 "a"; v1 "b"] (MkOpts "" false false) store1 _ _ ltac:(discriminate)
    (surjective_pairing _)) as (K & _ & L).
  split; [|exact L]. rewrite K; [reflexivity|].
  intros c Hc Hh. apply elem_of_cons in Hc as [->|Hc]; [reflexivity|]. apply list_elem_of_singleton in Hc as ->. discriminate Hh.
Defined.

(** Under a pinner that compares CIDs as they are given, a block that is
    pinned under its CIDv0 is removed when it is named by its CIDv1. *)
Theorem rm_blocks_other_version :
  pinned_cid (v0 "a") = true /\ bs_has store1 "a" = true /\
  bs_has (RmBlocks [v1 "a"] (MkOpts "" false false) store1).2 (Hash (v0 "a")) = false.
Proof. split_and!; reflexivity. Qed.

End RmBlocksWitnesses.
