(* ===== verification/LazySeek.v ===== *)
(** The lazy seeker of the gateway: [core/corehttp/lazyseek.go].

    The wrapped [io.ReadSeeker] is the class [ReadSeeker]: a reader of some
    content with a position, whose reads may be short and whose calls may fail.
    Nothing is said of where a seek that fails leaves it: [io.Seeker] does not.
    Offsets are 64-bit. *)
From Stdlib Require Import ZArith Lia.
From stdpp Require Import base list strings.
From S2P Require Import Prelude GoStrings.

Local Open Scope Z_scope.

Definition SeekStart : Z := 0.
Definition SeekCurrent : Z := 1.
Definition SeekEnd : Z := 2.
Definition EOF : error := "EOF".

Class ReadSeeker := {
  rs : Type;
  content : rs -> list byte;
  rs_pos : rs -> Z;
  rs_Seek : rs -> Z -> result Z * rs;
  rs_Read : rs -> nat -> list byte * option error * rs;
  (** [Seek(off, io.SeekStart)] *)
  rs_Seek_spec : forall r off x r', rs_Seek r off = (x, r') -> 0 <= off ->
    content r' = content r /\
    forall o, x = Ok o -> o = off /\ rs_pos r' = off;
  rs_Read_spec : forall r n b e r', rs_Read r n = (b, e, r') -> 0 <= rs_pos r ->
    content r' = content r /\ (length b <= n)%nat /\
    b `prefix_of` drop (Z.to_nat (rs_pos r)) (content r) /\ rs_pos r' = rs_pos r + Z.of_nat (length b)
}.

Section LazySeek.
Context `{ReadSeeker}.

Record lazySeeker := MkLazy { reader : rs; size : Z; offset : Z; realOffset : Z }.

Definition set_offset (o : Z) (s : lazySeeker) : lazySeeker := MkLazy (reader s) (size s) o (realOffset s).

Definition seek_start (o : Z) (s : lazySeeker) : Z * option error * lazySeeker :=
  if o <? 0 then (offset s, Some "invalid seek offset", s)
  else (o, None, set_offset o s).

(** The recursive calls are to [io.SeekStart]. *)
Definition Seek (o whence : Z) (s : lazySeeker) : Z * option error * lazySeeker :=
  if whence =? SeekEnd then seek_start (i64 (size s + o)) s
  else if whence =? SeekCurrent then seek_start (i64 (offset s + o)) s
  else if whence =? SeekStart then seek_start o s
  else (offset s, Some ("invalid whence: " +:+ FormatInt whence), s).

(** The loop that moves the reader; [None] when it has not ended within the
    fuel. *)
Fixpoint sync (fuel : nat) (s : lazySeeker) : option (option error * lazySeeker) :=
  if offset s =? realOffset s then Some (None, s)
  else match fuel with
  | O => None
  | S fuel =>
      match rs_Seek (reader s) (offset s) with
      | (Err e, r) => Some (Some e, MkLazy r (size s) (offset s) (realOffset s))
      | (Ok off, r) => sync fuel (MkLazy r (size s) (offset s) off)
      end
  end.

Definition Read (fuel : nat) (n : nat) (s : lazySeeker) : option (list byte * option error * lazySeeker) :=
  if size s <=? offset s then Some ([], Some EOF, s)
  else match sync fuel s with
  | None => None
  | Some (Some e, s) => Some ([], Some e, s)
  | Some (None, s) =>
      let '(b, e, r) := rs_Read (reader s) n in
      let k := Z.of_nat (length b) in
      Some (b, e, MkLazy r (size s) (i64 (offset s + k)) (i64 (realOffset s + k)))
  end.

(** ** The specification: a cursor over the content. *)

Record cursor := Cursor { data : list byte; at_ : Z }.

(** What a seek to [target] does to the cursor. *)
Definition cursor_seek (target : Z) (c : cursor) : Z * option error * cursor :=
  if target <? 0 then (at_ c, Some "invalid seek offset", c) else (target, None, Cursor (data c) target).

(** Reading at the cursor gives a piece of the content there and moves past it. *)
Definition cursor_read (n : nat) (c : cursor) (b : list byte) (c' : cursor) : Prop :=
  (length b <= n)%nat /\ b `prefix_of` drop (Z.to_nat (at_ c)) (data c) /\
  c' = Cursor (data c) (at_ c + Z.of_nat (length b)).

(** The seeker stands for the cursor at its offset: the reader is where
    [realOffset] says. *)
Record stands_for (s : lazySeeker) (c : cursor) : Prop := {
  sf_data : content (reader s) = data c;
  sf_size : size s = Z.of_nat (length (data c));
  sf_max : size s < 2 ^ 63;
  sf_off : offset s = at_ c;
  sf_range : 0 <= at_ c < 2 ^ 63;
  sf_real : realOffset s = rs_pos (reader s);
  sf_pos : 0 <= rs_pos (reader s)
}.

(** The target of a seek. *)
Definition seek_target (o whence : Z) (s : lazySeeker) : Z :=
  if whence =? SeekEnd then i64 (size s + o) else if whence =? SeekCurrent then i64 (offset s + o) else o.

Lemma seek_start_refines o s c : stands_for s c -> o < 2 ^ 63 ->
  (seek_start o s).1 = (cursor_seek o c).1 /\ stands_for (seek_start o s).2 (cursor_seek o c).2.
Proof.
  intros [S1 S2 S3 S4 S5 S6 S7] Ho. unfold seek_start, cursor_seek. rewrite S4. destruct (Z.ltb_spec o 0); simpl.
  - split; [done|by split].
  - split; [done|]. split; simpl; auto; lia.
Qed.

(** Where a read starts: the wrapped reader as it is, or after a seek. *)
Definition positioned (s : lazySeeker) (c : cursor) (r : rs) : Prop :=
  if decide (at_ c = realOffset s) then r = reader s else exists o, rs_Seek (reader s) (at_ c) = (Ok o, r).

Lemma sync_ok fuel s c r : stands_for s c -> positioned s c r ->
  sync (S fuel) s = Some (None, MkLazy r (size s) (offset s) (at_ c)) /\ content r = data c /\ rs_pos r = at_ c.
Proof.
  intros [S1 S2 S3 S4 S5 S6 S7]. unfold positioned. destruct s as [rd sz off ro]. simpl in *. subst off ro.
  case_decide as D; [intros ->; rewrite <- D, Z.eqb_refl; by rewrite D|].
  intros [o E]. destruct (Z.eqb_spec (at_ c) (rs_pos rd)) as [|_]; [done|]. rewrite E.
  destruct (rs_Seek_spec _ _ _ _ E) as [C P]; [lia|]. destruct (P o eq_refl) as [-> Q].
  split; [|split; congruence]. by destruct fuel; simpl; rewrite Z.eqb_refl.
Qed.

(** ** Properties *)

(** C39: The lazy seeker is a cursor.  A seek sets what it should of a cursor over the
    content (the 64-bit sum for the relative forms), with an error and without moving
    for a negative target or another origin.  A read always returns.  At or past the
    size it is the end of the file.  Otherwise the wrapped reader is put at the cursor
    by at most one seek, and none when it is there: if that fails its error is
    returned with nothing read, and the seeker goes on standing for the cursor when
    the reader was not moved; if not, what is returned is what the wrapped reader
    reads, bytes and error, a piece of the content at the cursor, which moves past
    it. *)
Theorem lazy_seeker_refines_cursor s c (R : stands_for s c) :
  (forall o whence, whence = SeekStart \/ whence = SeekCurrent \/ whence = SeekEnd -> o < 2 ^ 63 ->
     (Seek o whence s).1 = (cursor_seek (seek_target o whence s) c).1 /\
     stands_for (Seek o whence s).2 (cursor_seek (seek_target o whence s) c).2) /\
  (forall o whence, whence ∉ [SeekStart; SeekCurrent; SeekEnd] ->
     Seek o whence s = (at_ c, Some ("invalid whence: " +:+ FormatInt whence), s)) /\
  (forall fuel n, size s <= at_ c -> Read (S fuel) n s = Some ([], Some EOF, s)) /\
  (forall fuel n e r, at_ c < size s -> at_ c <> realOffset s -> rs_Seek (reader s) (at_ c) = (Err e, r) ->
     exists s', Read (S fuel) n s = Some ([], Some e, s') /\ reader s' = r /\ (rs_pos r = rs_pos (reader s) -> stands_for s' c)) /\
  (forall fuel n r b e r', at_ c < size s -> positioned s c r -> rs_Read r n = (b, e, r') ->
     exists s' c', Read (S fuel) n s = Some (b, e, s') /\ reader s' = r' /\ cursor_read n c b c' /\ stands_for s' c').
Proof.
  pose proof R as [S1 S2 S3 S4 S5 S6 S7]. split_and!.
  - intros o whence W Ho. unfold Seek, seek_target.
    assert (B : forall z, i64 z < 2 ^ 63) by (intros z; pose proof (wrapS_range 64 z); unfold inS in *; lia).
    destruct W as [-> | [-> | ->]]; simpl; by apply seek_start_refines.
  - intros o whence W. rewrite !not_elem_of_cons in W. unfold Seek. by rewrite !(proj2 (Z.eqb_neq _ _)), S4 by tauto.
  - intros fuel n L. unfold Read. by rewrite (proj2 (Z.leb_le _ _)) by lia.
  - intros fuel n e r L Hne E. exists (MkLazy r (size s) (offset s) (realOffset s)). destruct (rs_Seek_spec _ _ _ _ E) as [C _]; [lia|].
    split_and!; [|done|intros P; split; simpl; auto; congruence]. unfold Read. rewrite (proj2 (Z.leb_gt _ _)) by lia.
    simpl. by rewrite (proj2 (Z.eqb_neq _ _)), S4, E by congruence.
  - intros fuel n r b e r' L Hp Er. destruct (sync_ok fuel s c r R Hp) as (Hs & C & P).
    destruct (rs_Read_spec _ _ _ _ _ Er) as (C' & Lb & Pb & Pos); [lia|]. rewrite C, P in Pb.
    assert (Hlen : at_ c + Z.of_nat (length b) <= size s) by (apply prefix_length in Pb; rewrite length_drop in Pb; lia).
    exists (MkLazy r' (size s) (i64 (offset s + Z.of_nat (length b))) (i64 (at_ c + Z.of_nat (length b)))), (Cursor (data c) (at_ c + Z.of_nat (length b))).
    split_and!; [|done|by split_and!|split; simpl; auto; rewrite ?i64_small by lia; try lia; congruence].
    unfold Read. rewrite (proj2 (Z.leb_gt _ _)), Hs by lia. cbn [reader offset realOffset size]. by rewrite Er.
Qed.

End LazySeek.

(** ** Instances *)

(** A reader in memory that delivers at most two bytes at a time. *)
Definition mem_reader : ReadSeeker.
Proof.
  refine {| rs := list byte * Z; content := fst; rs_pos := snd;
            rs_Seek r off := (Ok off, (r.1, off));
            rs_Read r n := let b := take (n `min` 2) (drop (Z.to_nat r.2) r.1) in
                           (b, None, (r.1, r.2 + Z.of_nat (length b))) |}.
  - intros r off x r' [= <- <-] _. split; [done|]. intros o [= <-]. by split.
  - intros r n b e r' [= <- <- <-] _. split_and!; try done; [rewrite length_take; lia|apply prefix_take].
Defined.

Lemma lazy_seeker_refines_cursor_witness :
  let d := [Byte.x61; Byte.x62; Byte.x63] in
  let s := @MkLazy mem_reader (d, 0) 3 0 0 in
  stands_for s (Cursor d 0) /\
  exists s' c', Read 1 2 (Seek (-2) SeekEnd s).2 = Some ([Byte.x62; Byte.x63], None, s') /\
    cursor_read 2 (Cursor d 1) [Byte.x62; Byte.x63] c' /\ stands_for s' c'.
Proof.
  intros d s.
  assert (R : stands_for s (Cursor d 0)) by (split; simpl; (reflexivity || lia)).
  split; [exact R|].
  destruct (lazy_seeker_refines_cursor s (Cursor d 0) R) as [Hs _].
  destruct (Hs (-2) SeekEnd) as [_ R1]; [by right; right|reflexivity|].
  change (cursor_seek (seek_target (-2) SeekEnd s) (Cursor d 0)).2 with (Cursor d 1) in R1.
  destruct (lazy_seeker_refines_cursor _ (Cursor d 1) R1) as (_ & _ & _ & _ & Hr).
  destruct (Hr 0%nat 2%nat (d, 1) [Byte.x62; Byte.x63] None (d, 3)) as (s' & c' & E & _ & C & S);
    [reflexivity|by exists 1|reflexivity|]. exists s', c'. by split_and!.
Defined.

(** A reader whose seeks past its third byte fail and leave it at the start. *)
Definition resetting_reader : ReadSeeker.
Proof.
  refine {| rs := list byte * Z; content := fst; rs_pos := snd;
            rs_Seek r off := if 2 <? off then (Err "not found", (r.1, 0)) else (Ok off, (r.1, off));
            rs_Read r n := let b := take n (drop (Z.to_nat r.2) r.1) in (b, None, (r.1, r.2 + Z.of_nat (length b))) |}.
  - intros r off x r'. destruct (2 <? off); intros [= <- <-] _; (split; [done|]); [done|]. intros o [= <-]. by split.
  - intros r n b e r' [= <- <- <-] _. split_and!; try done; [rewrite length_take; lia|apply prefix_take].
Defined.

(** What a failed seek does to the wrapped reader goes unnoticed: it is thought to be
    where it was before, and a read there, once the cursor is back, gives other bytes
    without an error. *)
Theorem failed_seek_misreads :
  let d := [Byte.x61; Byte.x62; Byte.x63; Byte.x64] in let s := @MkLazy resetting_reader (d, 0) 4 0 0 in
  exists s1 s2 s3, stands_for s (Cursor d 0) /\
    Read 1 1 s = Some ([Byte.x61], None, s1) /\ Read 1 1 (Seek 3 SeekStart s1).2 = Some ([], Some "not found", s2) /\
    Read 1 1 (Seek 1 SeekStart s2).2 = Some ([Byte.x61], None, s3).
Proof. do 3 eexists. split; [split; simpl; (reflexivity || lia)|split_and!; reflexivity]. Qed.
