(* ===== verification/Hostname.v ===== *)
(** Host-name gateways: [core/corehttp/hostname.go].

    A request is what the handler reads of it; the reply says what the handler
    does: pass the request on with a path and the context values and [Location]
    header it set, redirect, or answer with an error.  A wildcard whose regular
    expression does not compile is stored as nil, and matching against nil
    panics.

    CIDs, peer identities, DNS and URL parsing belong to other packages:
    [HostEnv] states what is used of them. *)
From Stdlib Require Import ZArith Lia Ascii String.
From stdpp Require Import base list strings gmap sets.
From S2P Require Import Prelude GoStrings GoPath ConfigTypes GC.

Local Open Scope Z_scope.

(** ** Configuration *)

Record GatewaySpec := MkSpec {
  Paths : list string;
  UseSubdomains : bool;
  NoDNSLink : bool;
  InlineDNSLink : Z;
}.

Definition DefaultInlineDNSLink : bool := false.
Definition defaultPaths : list string := ["/ipfs/"; "/ipns/"; "/api/"; "/p2p/"].
Definition subdomainGatewaySpec : GatewaySpec := MkSpec defaultPaths true false Default_.
Definition defaultKnownGateways : gmap string GatewaySpec := {[ "localhost" := subdomainGatewaySpec ]}.
Definition dnsLabelMaxLength : nat := 63.

(** ** Wildcards

    The regular expression of a wildcard: literal characters and [[^.]+],
    followed by an optional port. *)

Inductive piece := Lit (c : ascii) | Label.

Definition is_digit (c : ascii) : bool := match digit_val c with Some _ => true | None => false end.
Fixpoint all_digits (s : string) : bool :=
  match s with EmptyString => true | String c s => is_digit c && all_digits s end.

(** [(?::\d+)?$] *)
Definition port_end (s : string) : bool :=
  match s with
  | EmptyString => true
  | String c s => Ascii.eqb c ":" && negb (String.eqb s "") && all_digits s
  end.

Fixpoint match_pieces (ps : list piece) : string -> bool :=
  match ps with
  | [] => port_end
  | Lit c :: ps => fun s =>
      match s with EmptyString => false | String d s => Ascii.eqb c d && match_pieces ps s end
  | Label :: ps =>
      fix label (s : string) : bool :=
        match s with
        | EmptyString => false
        | String d s => negb (Ascii.eqb d ".") && (match_pieces ps s || label s)
        end
  end.

Fixpoint pieces_of (h : string) : list piece :=
  match h with
  | EmptyString => []
  | String c h => (if Ascii.eqb c "*" then Label else Lit c) :: pieces_of h
  end.

(** Characters that stand for themselves in a regular expression; the period is
    escaped. *)
Definition plain_char (c : ascii) : bool :=
  let n := N_of_ascii c in
  (((48 <=? n) && (n <=? 58)) || ((65 <=? n) && (n <=? 90)) || ((97 <=? n) && (n <=? 122)) || (n =? 45) ||
   (n =? 95) || (n =? 46) || (n =? 42))%N.
Fixpoint plain_host (h : string) : bool :=
  match h with EmptyString => true | String c h => plain_char c && plain_host h end.

(** ** What other packages provide *)

Inductive encoding := Base32 | Base36.
Definition Libp2pKey : Z := 114.

Class HostEnv := {
  cid_Decode : string -> result cid;
  StringOfBase : encoding -> cid -> result string;
  (** a CIDv1 is read back from its text, which has no period *)
  Decode_StringOfBase : forall b codec h s, StringOfBase b (NewCidV1 codec h) = Ok s ->
    cid_Decode s = Ok (NewCidV1 codec h) /\ has_char "." s = false;
  (** [peer.Decode], giving the text of the identity's CID *)
  peer_Decode : string -> result string;
  (** [dns.IsDomainName] *)
  IsDomainName : string -> bool;
  (** whether [/ipns/name] resolves, or only runs into the depth limit *)
  resolves : string -> bool;
  (** [url.ParseRequestURI], printed again *)
  ParseRequestURI : string -> result string;
  (** other wildcard host names, as regular expressions *)
  regexp_other : string -> option (string -> bool)
}.

Section Hostname.
Context `{HostEnv}.

Definition regexp_Compile (hostname : string) : option (string -> bool) :=
  if plain_host hostname then Some (match_pieces (pieces_of hostname)) else regexp_other hostname.

Record gatewayHosts := MkHosts {
  exact : gmap string GatewaySpec;
  wildcard : list (option (string -> bool) * GatewaySpec);
}.

(** One round of the loop of [prepareKnownGateways]. *)
Definition add_gateway (hosts : gatewayHosts) (e : string * option GatewaySpec) : gatewayHosts :=
  match e.2 with
  | None => MkHosts (delete e.1 (exact hosts)) (wildcard hosts)
  | Some gw =>
      if Contains e.1 "*"
      then MkHosts (exact hosts) (wildcard hosts ++ [(regexp_Compile e.1, gw)])
      else MkHosts (<[e.1 := gw]> (exact hosts)) (wildcard hosts)
  end.

(** [publicGateways]: the map's entries in the order of the iteration. *)
Definition prepareKnownGateways (publicGateways : list (string * option GatewaySpec)) : gatewayHosts :=
  foldl add_gateway (MkHosts defaultKnownGateways []) publicGateways.

(** [net.SplitHostPort], the host part. *)
Definition SplitHostPort (hostport : string) : option string :=
  match hostport with
  | String c rest =>
      if Ascii.eqb c "[" then
        match SplitN "]" rest 2 with
        | [h; String d port] =>
            if Ascii.eqb d ":" && negb (has_char ":" port) && negb (has_char "[" rest) && negb (has_char "]" port)
            then Some h else None
        | _ => None
        end
      else match split_on ":" hostport with
      | [h; _] => if has_char "[" hostport || has_char "]" hostport then None else Some h
      | _ => None
      end
  | EmptyString => None
  end.

Definition stripPort (hostname : string) : string := default hostname (SplitHostPort hostname).

Fixpoint match_wildcards (ws : list (option (string -> bool) * GatewaySpec)) (hostname : string)
  : outcome (option GatewaySpec) :=
  match ws with
  | [] => Ret None
  | (None, _) :: _ => Panic "invalid memory address or nil pointer dereference"
  | (Some re, spec) :: ws => if re hostname then Ret (Some spec) else match_wildcards ws hostname
  end.

Definition isKnownHostname (hostname : string) (known : gatewayHosts) : outcome (option GatewaySpec) :=
  match exact known !! hostname with
  | Some gw => Ret (Some gw)
  | None =>
      match exact known !! stripPort hostname with
      | Some gw => Ret (Some gw)
      | None => match_wildcards (wildcard known) hostname
      end
  end.

Definition isSubdomainNamespace (ns : string) : bool := bool_decide (ns ∈ ["ipfs"; "ipns"; "p2p"; "ipld"]).
Definition isPeerIDNamespace (ns : string) : bool := bool_decide (ns ∈ ["ipns"; "p2p"]).

(** The loop of [knownSubdomainDetails]: [i] counts down to 2. *)
Fixpoint subdomain_loop (i : nat) (labels : list string) (known : gatewayHosts)
  : outcome (option (GatewaySpec * string * string * string)) :=
  match i with
  | S (S _ as j) =>
      let fqdn := join_with "." (drop i labels) in
      match isKnownHostname fqdn known with
      | Panic m => Panic m
      | Ret None => subdomain_loop j labels known
      | Ret (Some gw) =>
          let ns := default "" (labels !! j) in
          if isSubdomainNamespace ns then Ret (Some (gw, fqdn, ns, join_with "." (take j labels)))
          else subdomain_loop j labels known
      end
  | _ => Ret None
  end.

Definition knownSubdomainDetails (hostname : string) (known : gatewayHosts)
  : outcome (option (GatewaySpec * string * string * string)) :=
  let labels := split_on "." hostname in subdomain_loop (length labels - 1) labels known.

Definition isDomainNameAndNotPeerID (hostname : string) : bool :=
  if decide (hostname = "") then false
  else match peer_Decode hostname with Ok _ => false | Err _ => IsDomainName hostname end.

Definition isDNSLinkName (host : string) : bool :=
  isDomainNameAndNotPeerID (stripPort host) && resolves (stripPort host).

Definition toDNSLabel (rootID : string) (rootCID : cid) : result string :=
  if (String.length rootID <=? dnsLabelMaxLength)%nat then Ok rootID
  else match StringOfBase Base36 (NewCidV1 (Type_ rootCID) (Hash rootCID)) with
  | Err e => Err e
  | Ok rootID =>
      if (String.length rootID <=? dnsLabelMaxLength)%nat then Ok rootID
      else Err ("CID incompatible with DNS label length limit of 63: " +:+ rootID)
  end.

Definition toDNSLinkDNSLabel (fqdn : string) : result string :=
  let dnsLabel := ReplaceAll (ReplaceAll fqdn "-" "--") "." "-" in
  if (dnsLabelMaxLength <? String.length dnsLabel)%nat
  then Err ("DNSLink representation incompatible with DNS label length limit of 63: " +:+ dnsLabel)
  else Ok dnsLabel.

Definition toDNSLinkFQDN (dnsLabel : string) : string :=
  ReplaceAll (ReplaceAll (ReplaceAll dnsLabel "--" "@") "-" ".") "@" "-".

(** ** Requests *)

Record Request := MkRequest {
  Host : string;
  XForwardedHost : string;
  XForwardedProto : string;
  URL_Scheme : string;
  URL_Path : string;
  URL_RawQuery : string;
}.

Definition isHTTPSRequest (r : Request) : bool :=
  String.eqb (URL_Scheme r) "https" || String.eqb (XForwardedProto r) "https".

(** The text of the root in the new host name. *)
Definition subdomain_root (ns rootID : string) (inline : bool) : result string :=
  let rootID :=
    if isPeerIDNamespace ns && negb (isDomainNameAndNotPeerID rootID)
    then match peer_Decode rootID with Ok c => c | Err _ => rootID end else rootID in
  match cid_Decode rootID with
  | Ok rootCID =>
      let rootCID := NewCidV1 (if isPeerIDNamespace ns then Libp2pKey else Type_ rootCID) (Hash rootCID) in
      match StringOfBase (if isPeerIDNamespace ns then Base36 else Base32) rootCID with
      | Err e => Err e
      | Ok rootID => toDNSLabel rootID rootCID
      end
  | Err _ =>
      if inline && String.eqb ns "ipns" && Contains rootID "." && isDNSLinkName rootID
      then toDNSLinkDNSLabel rootID else Ok rootID
  end.

(** The empty string means that no redirect applies. *)
Definition toSubdomainURL (hostname path : string) (r : Request) (inlineDNSLink : bool) : result string :=
  let go ns rootID rest :=
    if negb (isSubdomainNamespace ns) then Ok "" else
    let query := if decide (URL_RawQuery r <> "") then "?" +:+ URL_RawQuery r else "" in
    match subdomain_root ns rootID (inlineDNSLink || isHTTPSRequest r) with
    | Err e => Err e
    | Ok rootID =>
        ParseRequestURI ((if isHTTPSRequest r then "https:" else "http:") +:+ "//" +:+ rootID +:+ "." +:+ ns
                         +:+ "." +:+ hostname +:+ "/" +:+ rest +:+ query)
    end in
  match SplitN "/" path 4 with
  | [_; ns; rootID; rest] => go ns rootID rest
  | [_; ns; rootID] => go ns rootID ""
  | _ => Ok ""
  end.

Definition hasPrefix (path : string) (prefixes : list string) : bool :=
  existsb (fun prefix =>
    let p := TrimSuffix prefix "/" in String.eqb p path || HasPrefix path (p +:+ "/")) prefixes.

(** What the handler does. *)
Inductive reply :=
| Serve (path location : string) (gw_hostname dnslink_hostname : option string)
| Redirect (url : string)
| NotFound
| BadRequest (msg : error).

(** A subdomain request whose root is a CID: the redirect, if any. *)
Definition canonical_redirect (gwHostname ns rootID : string) (rootCID : cid) (inline : bool) (r : Request)
  : option reply :=
  let pathPrefix := "/" +:+ ns +:+ "/" +:+ rootID in
  let fix_codec :=
    if isPeerIDNamespace ns && negb (Type_ rootCID =? Libp2pKey) then
      match toSubdomainURL gwHostname (pathPrefix +:+ URL_Path r) r inline with
      | Err e => Some (BadRequest e)
      | Ok url => if decide (url <> "") then Some (Redirect url) else None
      end
    else None in
  match toDNSLabel rootID rootCID with
  | Err e => Some (BadRequest e)
  | Ok dnsCID =>
      if HasPrefix (Host r) dnsCID then fix_codec
      else match toSubdomainURL gwHostname ("/" +:+ ns +:+ "/" +:+ dnsCID +:+ URL_Path r) r inline with
           | Err e => Some (BadRequest e)
           | Ok url => if decide (url <> "") then Some (Redirect url) else fix_codec
           end
  end.

(** The name a single label stands for, when it is an inlined DNSLink. *)
Definition dnslink_prefix (ns rootID : string) : string :=
  if String.eqb ns "ipns" && negb (Contains rootID ".") && negb (isDNSLinkName rootID)
     && isDNSLinkName (toDNSLinkFQDN rootID)
  then "/ipns/" +:+ toDNSLinkFQDN rootID else "/" +:+ ns +:+ "/" +:+ rootID.

Definition serve_subdomain (gw : GatewaySpec) (gwHostname ns rootID : string) (inline : bool) (r : Request) : reply :=
  if negb (UseSubdomains gw && hasPrefix ("/" +:+ ns +:+ "/" +:+ rootID) (Paths gw)) then NotFound
  else match cid_Decode rootID with
  | Ok rootCID =>
      match canonical_redirect gwHostname ns rootID rootCID inline r with
      | Some x => x
      | None => Serve ("/" +:+ ns +:+ "/" +:+ rootID +:+ URL_Path r) "" (Some gwHostname) None
      end
  | Err _ => Serve (dnslink_prefix ns rootID +:+ URL_Path r) "" (Some gwHostname) None
  end.

(** A request to a known gateway itself. *)
Definition serve_known (gw : GatewaySpec) (host : string) (inline : bool) (r : Request) : reply :=
  if hasPrefix (URL_Path r) (Paths gw) then
    if UseSubdomains gw then
      match toSubdomainURL host (URL_Path r) r inline with
      | Err e => BadRequest e
      | Ok newURL => Serve (URL_Path r) newURL None None
      end
    else Serve (URL_Path r) "" None None
  else if negb (NoDNSLink gw) && isDNSLinkName host
  then Serve ("/ipns/" +:+ stripPort host +:+ URL_Path r) "" (Some host) None
  else NotFound.

Definition HostnameOption (known : gatewayHosts) (noDNSLink : bool) (r : Request) : outcome reply :=
  let host := if decide (XForwardedHost r <> "") then XForwardedHost r else Host r in
  match isKnownHostname host known with
  | Panic m => Panic m
  | Ret (Some gw) =>
      if hasPrefix (URL_Path r) (Paths gw) && UseSubdomains gw then
        match Flag_WithDefault (InlineDNSLink gw) DefaultInlineDNSLink with
        | Panic m => Panic m
        | Ret inline => Ret (serve_known gw host inline r)
        end
      else Ret (serve_known gw host false r)
  | Ret None =>
      match knownSubdomainDetails host known with
      | Panic m => Panic m
      | Ret (Some (gw, gwHostname, ns, rootID)) =>
          match Flag_WithDefault (InlineDNSLink gw) DefaultInlineDNSLink with
          | Panic m => Panic m
          | Ret inline => Ret (serve_subdomain gw gwHostname ns rootID inline r)
          end
      | Ret None =>
          if negb noDNSLink && isDNSLinkName host
          then Ret (Serve ("/ipns/" +:+ stripPort host +:+ URL_Path r) "" (Some host) (Some host))
          else Ret (Serve (URL_Path r) "" None None)
      end
  end.

(** ** Lemmas *)

(** *** Inlined DNSLink names *)

(** Replacing one character. *)
Fixpoint map_char (f : ascii -> string) (s : string) : string :=
  match s with EmptyString => EmptyString | String c s => f c +:+ map_char f s end.

Lemma ReplaceAll_char s c new :
  ReplaceAll s (String c "") new = map_char (fun d => if Ascii.eqb d c then new else String d "") s.
Proof.
  unfold ReplaceAll. induction s as [|d s IH]; [done|]. cbn [map_char replace_from String.prefix String.length].
  rewrite <- IH. destruct (Ascii.eqb_spec d c) as [->|Hne].
  - destruct (ascii_dec c c); [|done]. by destruct s.
  - destruct (ascii_dec c d); [congruence|done].
Qed.

Lemma map_char_app f a b : map_char f (a +:+ b) = map_char f a +:+ map_char f b.
Proof.
  induction a as [|c a IH]; [done|]. rewrite string_app_cons. simpl. by rewrite IH, string_app_assoc.
Qed.

Lemma map_char_comp f g s : map_char f (map_char g s) = map_char (fun c => map_char f (g c)) s.
Proof. induction s as [|c s IH]; [done|]. simpl. by rewrite map_char_app, IH. Qed.

(** A name whose labels are not empty and do not begin with a hyphen, so that
    no period is followed by another or by a hyphen. *)
Fixpoint dns_name (s : string) : bool :=
  match s with
  | EmptyString => true
  | String c s' =>
      negb (Ascii.eqb c "@") && dns_name s' &&
      (if Ascii.eqb c "." then match s' with
                               | String d _ => negb (Ascii.eqb d "." || Ascii.eqb d "-")
                               | EmptyString => true
                               end
       else true)
  end.

(** What one character becomes in the label, and with hyphens marked. *)
Definition enc_char (c : ascii) : string :=
  if Ascii.eqb c "-" then "--" else if Ascii.eqb c "." then "-" else String c "".
Definition mark_char (c : ascii) : string :=
  if Ascii.eqb c "-" then "@" else if Ascii.eqb c "." then "-" else String c "".

Lemma map_char_ext f g s : (forall c, f c = g c) -> map_char f s = map_char g s.
Proof. intros E. induction s as [|c s IH]; [done|]. simpl. by rewrite E, IH. Qed.

Lemma label_enc s : ReplaceAll (ReplaceAll s "-" "--") "." "-" = map_char enc_char s.
Proof.
  rewrite !ReplaceAll_char, map_char_comp. apply map_char_ext. intros c. unfold enc_char.
  destruct (Ascii.eqb_spec c "-") as [->|]; [done|]. simpl. by destruct (Ascii.eqb c ".").
Qed.

Lemma enc_head s : dns_name (String "." s) = true ->
  match map_char enc_char s with String d _ => d <> "-"%char | EmptyString => True end.
Proof.
  destruct s as [|d s]; [done|]. intros Hd. assert (E : Ascii.eqb d "." || Ascii.eqb d "-" = false).
  { cbn -[Ascii.eqb] in Hd. apply andb_true_iff in Hd as [_ Hd]. by apply negb_true_iff in Hd. }
  apply orb_false_iff in E as [E1 E2]. cbn -[Ascii.eqb]. unfold enc_char. rewrite E1, E2.
  by apply Ascii.eqb_neq in E2.
Qed.

Lemma replace_pairs s : dns_name s = true -> ReplaceAll (map_char enc_char s) "--" "@" = map_char mark_char s.
Proof.
  unfold ReplaceAll. induction s as [|c s IH]; intros Hs; [done|].
  assert (Hs' : dns_name s = true).
  { cbn -[Ascii.eqb] in Hs. by apply andb_true_iff in Hs as [[_ Hs]%andb_true_iff _]. }
  cbn [map_char]. unfold enc_char at 1, mark_char at 1.
  destruct (Ascii.eqb_spec c "-") as [->|Hc]; [|destruct (Ascii.eqb_spec c ".") as [->|Hd]].
  - rewrite <- IH by done. by destruct (map_char enc_char s).
  - rewrite !string_app_cons. pose proof (enc_head s Hs) as Hh. change ("" +:+ map_char enc_char s) with (map_char enc_char s).
    change ("" +:+ map_char mark_char s) with (map_char mark_char s). rewrite <- IH by done.
    destruct (map_char enc_char s) as [|d t]; [done|]. cbn [replace_from String.prefix].
    destruct (ascii_dec "-" "-"); [|done]. destruct (ascii_dec "-" d); [congruence|done].
  - rewrite !string_app_cons. cbn [replace_from]. rewrite <- IH by done.
    cbn [String.prefix]. destruct (ascii_dec "-" c); [congruence|done].
Qed.

Lemma unmark s : dns_name s = true -> ReplaceAll (ReplaceAll (map_char mark_char s) "-" ".") "@" "-" = s.
Proof.
  intros Hs. rewrite !ReplaceAll_char, !map_char_comp. induction s as [|c s IH]; [done|].
  cbn -[Ascii.eqb] in Hs. apply andb_true_iff in Hs as [[Ha Hs]%andb_true_iff _].
  cbn [map_char]. rewrite IH by done. clear IH. unfold mark_char.
  apply negb_true_iff in Ha. destruct (Ascii.eqb_spec c "-") as [->|Hc]; [done|].
  destruct (Ascii.eqb_spec c ".") as [->|Hd]; [done|]. simpl.
  apply Ascii.eqb_neq in Hc. rewrite Hc. simpl. by rewrite Ha.
Qed.

(** *** Subdomains *)

Lemma join_with_app sep l1 l2 : l1 <> [] -> l2 <> [] ->
  join_with sep (l1 ++ l2) = join_with sep l1 +:+ sep +:+ join_with sep l2.
Proof.
  intros H1 H2. induction l1 as [|x l1 IH]; [done|]. destruct l1 as [|y l1].
  - simpl. by destruct l2.
  - transitivity (x +:+ sep +:+ join_with sep ((y :: l1) ++ l2)); [done|].
    rewrite (IH ltac:(done)). change (join_with sep (x :: y :: l1)) with (x +:+ sep +:+ join_with sep (y :: l1)).
    by rewrite !string_app_assoc.
Qed.

(** The three parts of a host name at position [i]. *)
Definition parts_at (labels : list string) (i : nat) : string * string * string :=
  (join_with "." (take (i - 1) labels), default "" (labels !! (i - 1)%nat), join_with "." (drop i labels)).

(** Position [i] qualifies. *)
Definition qualifies (labels : list string) (known : gatewayHosts) (i : nat) (gw : GatewaySpec) : Prop :=
  isKnownHostname (parts_at labels i).2 known = Ret (Some gw) /\ isSubdomainNamespace (parts_at labels i).1.2 = true.

Lemma subdomain_loop_S j labels known :
  subdomain_loop (S (S j)) labels known =
  match isKnownHostname (join_with "." (drop (S (S j)) labels)) known with
  | Panic m => Panic m
  | Ret None => subdomain_loop (S j) labels known
  | Ret (Some gw) =>
      if isSubdomainNamespace (default "" (labels !! S j))
      then Ret (Some (gw, join_with "." (drop (S (S j)) labels), default "" (labels !! S j), join_with "." (take (S j) labels)))
      else subdomain_loop (S j) labels known
  end.
Proof. done. Qed.

Lemma subdomain_loop_spec i labels known :
  match subdomain_loop i labels known with
  | Ret (Some (gw, fqdn, ns, root)) =>
      exists j, (2 <= j <= i)%nat /\ (root, ns, fqdn) = parts_at labels j /\ qualifies labels known j gw /\
        forall k gw', (j < k <= i)%nat -> ~ qualifies labels known k gw'
  | Ret None => forall k gw', (2 <= k <= i)%nat -> ~ qualifies labels known k gw'
  | Panic _ => exists m k, isKnownHostname (parts_at labels k).2 known = Panic m
  end.
Proof.
  induction i as [|i IH]; [intros k gw'; lia|]. destruct i as [|i']; [intros k gw'; lia|].
  rewrite subdomain_loop_S. set (i := S i') in *.
  assert (Eq : forall k gw', (k <= S i)%nat -> qualifies labels known k gw' -> k = S i \/ (k <= i)%nat) by lia.
  destruct (isKnownHostname (join_with "." (drop (S i) labels)) known) as [[gw|]|m] eqn:Ek.
  - destruct (isSubdomainNamespace (default "" (labels !! i))) eqn:En.
    + exists (S i). split_and!; try done; lia.
    + assert (Hno : forall gw', ~ qualifies labels known (S i) gw').
      { intros gw' [_ Q]. change (isSubdomainNamespace (default "" (labels !! i)) = true) in Q. congruence. }
      revert IH. destruct (subdomain_loop i labels known) as [[[[[g f] n] r]|]|m]; intros IH; [| |done].
      * destruct IH as (j & Hj & E & Q & Hs). exists j. split_and!; [lia|lia|done|done|].
        intros k gw' Hk. destruct (decide (k = S i)) as [->|]; [apply Hno|apply Hs; lia].
      * intros k gw' Hk. destruct (decide (k = S i)) as [->|]; [apply Hno|apply IH; lia].
  - assert (Hno : forall gw', ~ qualifies labels known (S i) gw').
    { intros gw' [Q _]. unfold parts_at in Q. simpl in Q. congruence. }
    revert IH. destruct (subdomain_loop i labels known) as [[[[[g f] n] r]|]|m]; intros IH; [| |done].
    + destruct IH as (j & Hj & E & Q & Hs). exists j. split_and!; [lia|lia|done|done|].
      intros k gw' Hk. destruct (decide (k = S i)) as [->|]; [apply Hno|apply Hs; lia].
    + intros k gw' Hk. destruct (decide (k = S i)) as [->|]; [apply Hno|apply IH; lia].
  - exists m, (S i). done.
Qed.

Lemma parts_join labels i : (2 <= i < length labels)%nat ->
  join_with "." labels = (parts_at labels i).1.1 +:+ "." +:+ (parts_at labels i).1.2 +:+ "." +:+ (parts_at labels i).2.
Proof.
  intros Hi. unfold parts_at. simpl.
  destruct (lookup_lt_is_Some_2 labels (i - 1)) as [x Hx]; [lia|]. rewrite Hx. simpl.
  rewrite <- (take_drop_middle labels (i - 1) x) at 1 by done.
  assert (E : S (i - 1) = i) by lia. rewrite E.
  assert (T : take (i - 1) labels <> []) by (intros ?%(f_equal length); rewrite length_take in *; simpl in *; lia).
  assert (D : drop i labels <> []) by (intros ?%(f_equal length); rewrite length_drop in *; simpl in *; lia).
  rewrite join_with_app by done. f_equal. f_equal. by destruct (drop i labels).
Qed.

(** No label suffix of [fqdn] other than itself is a known gateway preceded by a
    namespace. *)
Definition innermost (fqdn : string) (known : gatewayHosts) : Prop :=
  forall k gw, (1 <= k < length (split_on "." fqdn))%nat ->
    ~ (isKnownHostname (join_with "." (drop k (split_on "." fqdn))) known = Ret (Some gw) /\
       isSubdomainNamespace (default "" (split_on "." fqdn !! (k - 1)%nat)) = true).

(** Regular expressions of wildcards that compile never panic. *)
Lemma isKnownHostname_total h known : Forall (fun w => is_Some w.1) (wildcard known) ->
  exists x, isKnownHostname h known = Ret x.
Proof.
  intros W. unfold isKnownHostname. destruct (exact known !! h); [eauto|]. destruct (exact known !! stripPort h); [eauto|].
  induction W as [|[re spec] ws [f Hf] W IH]; simpl; [eauto|]. simpl in Hf. subst re. destruct (f h); eauto.
Qed.

Lemma knownSubdomainDetails_complete root ns fqdn known gw :
  Forall (fun w => is_Some w.1) (wildcard known) ->
  isKnownHostname fqdn known = Ret (Some gw) -> isSubdomainNamespace ns = true -> has_char "." ns = false ->
  innermost fqdn known ->
  knownSubdomainDetails (root +:+ "." +:+ ns +:+ "." +:+ fqdn) known = Ret (Some (gw, fqdn, ns, root)).
Proof.
  intros W K N D I. unfold knownSubdomainDetails.
  assert (L : split_on "." (root +:+ "." +:+ ns +:+ "." +:+ fqdn) = split_on "." root ++ ns :: split_on "." fqdn).
  { change ("." +:+ ns +:+ "." +:+ fqdn) with (String "." (ns +:+ String "." fqdn)).
    by rewrite !split_on_app_sep, (split_on_no_sep "." ns). }
  rewrite L. set (lr := split_on "." root). set (lf := split_on "." fqdn).
  assert (Hr : lr <> []) by apply split_on_nonempty. assert (Hf : lf <> []) by apply split_on_nonempty.
  assert (Lr : (1 <= length lr)%nat) by (destruct lr; [done|simpl; lia]).
  assert (Lf : (1 <= length lf)%nat) by (destruct lf; [done|simpl; lia]).
  pose proof (subdomain_loop_spec (length (lr ++ ns :: lf) - 1) (lr ++ ns :: lf) known) as S.
  rewrite length_app in *. simpl length in *.
  assert (P : parts_at (lr ++ ns :: lf) (Datatypes.S (length lr)) = (root, ns, fqdn)).
  { unfold parts_at. simpl. rewrite ?Nat.sub_0_r, take_app_length, lookup_app_r, Nat.sub_diag by lia. simpl.
    rewrite drop_app_ge by lia. replace (Datatypes.S (length lr) - length lr)%nat with 1%nat by lia.
    unfold lr, lf. simpl. by rewrite drop_0, !join_split. }
  assert (Q : qualifies (lr ++ ns :: lf) known (Datatypes.S (length lr)) gw) by (unfold qualifies; by rewrite P).
  assert (Hout : forall k gw', (Datatypes.S (length lr) < k <= length lr + Datatypes.S (length lf) - 1)%nat ->
            ~ qualifies (lr ++ ns :: lf) known k gw').
  { intros k gw' Hk [Q1 Q2]. apply (I (k - Datatypes.S (length lr))%nat gw'); [fold lf; lia|]. fold lf.
    unfold parts_at in Q1, Q2. simpl in Q1, Q2. rewrite drop_app_ge in Q1 by lia. rewrite lookup_app_r in Q2 by lia.
    replace (k - length lr)%nat with (Datatypes.S (k - Datatypes.S (length lr)))%nat in Q1 by lia.
    replace (k - 1 - length lr)%nat with (Datatypes.S (k - Datatypes.S (length lr) - 1))%nat in Q2 by lia. done. }
  destruct (subdomain_loop _ _ _) as [[[[[g f] n] r]|]|m].
  - destruct S as (j & Hj & E & Qj & Hs). assert (j = Datatypes.S (length lr)) as ->.
    { destruct (Nat.lt_trichotomy j (Datatypes.S (length lr))) as [?|[?|?]]; [|done|].
      - exfalso. apply (Hs (Datatypes.S (length lr)) gw); [lia|done].
      - exfalso. apply (Hout j g); [lia|done]. }
    rewrite P in E. injection E as -> -> ->. destruct Qj as [Qj _]. rewrite P in Qj. simpl in Qj. congruence.
  - exfalso. apply (S (Datatypes.S (length lr)) gw); [lia|done].
  - destruct S as (m' & k & Hm). destruct (isKnownHostname_total (parts_at (lr ++ ns :: lf) k).2 known W). congruence.
Qed.

Lemma SplitN_path ns root rest : has_char "/" ns = false -> has_char "/" root = false ->
  SplitN "/" ("/" +:+ ns +:+ "/" +:+ root +:+ "/" +:+ rest) 4 = [""; ns; root; rest].
Proof.
  intros Hn Hr. unfold SplitN.
  assert (E : split_on "/" ("/" +:+ ns +:+ "/" +:+ root +:+ "/" +:+ rest) = "" :: ns :: root :: split_on "/" rest).
  { change ("/" +:+ ns +:+ "/" +:+ root +:+ "/" +:+ rest) with ("" +:+ String "/" (ns +:+ String "/" (root +:+ String "/" rest))).
    rewrite !split_on_app_sep, (split_on_no_sep "/" ns), (split_on_no_sep "/" root) by done. done. }
  rewrite E. pose proof (split_on_nonempty "/" rest) as Hne. destruct (Nat.leb_spec (length ("" :: ns :: root :: split_on "/" rest)) 4) as [L|L].
  - destruct (split_on "/" rest) as [|x [|y l]] eqn:Er; [done| |simpl in L; lia].
    rewrite <- (join_split "/" rest), Er. done.
  - simpl. by rewrite drop_0, join_split.
Qed.

(** What the root of a path stands for: in a namespace of keys a peer identity is
    read first. *)
Definition requested_cid (ns root : string) : result cid :=
  cid_Decode (if isPeerIDNamespace ns && negb (isDomainNameAndNotPeerID root)
              then match peer_Decode root with Ok c => c | Err _ => root end else root).

(** The CID a subdomain names: that one as a CIDv1, with the key codec in a
    namespace of keys. *)
Definition subdomain_cid (ns : string) (c : cid) : cid :=
  NewCidV1 (if isPeerIDNamespace ns then Libp2pKey else Type_ c) (Hash c).

(** The host the gateway looks at. *)
Definition request_host (r : Request) : string := if decide (XForwardedHost r <> "") then XForwardedHost r else Host r.

(** The root of a subdomain URL made from a CID is a text of that CID. *)
Lemma subdomain_root_canonical ns root inline label c :
  requested_cid ns root = Ok c -> subdomain_root ns root inline = Ok label ->
  cid_Decode label = Ok (subdomain_cid ns c) /\ (String.length label <= dnsLabelMaxLength)%nat.
Proof.
  unfold requested_cid, subdomain_cid, subdomain_root. intros ->.
  set (codec := if isPeerIDNamespace ns then Libp2pKey else Type_ c).
  destruct (StringOfBase _ (NewCidV1 codec (Hash c))) as [s|e] eqn:E; [|done].
  unfold toDNSLabel. cbn [Type_ Hash NewCidV1]. destruct (Nat.leb_spec (String.length s) dnsLabelMaxLength).
  { intros [= <-]. destruct (Decode_StringOfBase _ _ _ _ E). eauto. }
  destruct (StringOfBase Base36 (NewCidV1 codec (Hash c))) as [s'|e] eqn:E'; [|done].
  destruct (Nat.leb_spec (String.length s') dnsLabelMaxLength); [|done].
  intros [= <-]. destruct (Decode_StringOfBase _ _ _ _ E'). eauto.
Qed.

(** A request under a canonical label is served. *)
Lemma canonical_served spec gw ns label codec h inline r :
  UseSubdomains spec = true -> hasPrefix ("/" +:+ ns +:+ "/" +:+ label) (Paths spec) = true ->
  cid_Decode label = Ok (NewCidV1 codec h) -> (String.length label <= dnsLabelMaxLength)%nat ->
  (isPeerIDNamespace ns = true -> codec = Libp2pKey) -> HasPrefix (Host r) label = true ->
  serve_subdomain spec gw ns label inline r = Serve ("/" +:+ ns +:+ "/" +:+ label +:+ URL_Path r) "" (Some gw) None.
Proof.
  intros U P D L C Hp. unfold serve_subdomain. rewrite U, P. simpl. rewrite D.
  unfold canonical_redirect, toDNSLabel. rewrite (proj2 (Nat.leb_le _ _) L), Hp. cbn [Type_ NewCidV1].
  destruct (isPeerIDNamespace ns) eqn:E; [rewrite (C eq_refl)|]; done.
Qed.

(** ** Properties *)

(** An inlined DNSLink name is recovered: whenever the label of a name whose
    labels are not empty and do not begin with a hyphen fits, it is at most 63
    characters long and the name read back from it is the original, so no two
    such names share a label. *)
Theorem dnslink_label_roundtrip (fqdn label : string) :
  dns_name fqdn = true -> toDNSLinkDNSLabel fqdn = Ok label ->
  toDNSLinkFQDN label = fqdn /\ (String.length label <= 63)%nat.
Proof.
  intros Hn. unfold toDNSLinkDNSLabel. rewrite label_enc. destruct (Nat.ltb_spec dnsLabelMaxLength (String.length (map_char enc_char fqdn)));
    [done|]. intros [= <-]. split; [|done]. unfold toDNSLinkFQDN. rewrite replace_pairs by done. by apply unmark.
Qed.

(** Splitting the host of a subdomain request: what [knownSubdomainDetails] finds
    are parts of the host in order, the last a known gateway and the one before
    it a namespace, with the gateway's name as short as possible; and for a host
    made of a root, a namespace and a known gateway within which no other
    gateway follows a namespace, it finds exactly these. *)
Theorem subdomain_details_exact (known : gatewayHosts) (host : string) :
  Forall (fun w => is_Some w.1) (wildcard known) ->
  (forall gw fqdn ns root, knownSubdomainDetails host known = Ret (Some (gw, fqdn, ns, root)) ->
     host = root +:+ "." +:+ ns +:+ "." +:+ fqdn /\
     isKnownHostname fqdn known = Ret (Some gw) /\ isSubdomainNamespace ns = true) /\
  (forall root ns fqdn gw, host = root +:+ "." +:+ ns +:+ "." +:+ fqdn -> has_char "." ns = false ->
     isKnownHostname fqdn known = Ret (Some gw) -> isSubdomainNamespace ns = true -> innermost fqdn known ->
     knownSubdomainDetails host known = Ret (Some (gw, fqdn, ns, root))).
Proof.
  intros W. split.
  - intros gw fqdn ns root E. unfold knownSubdomainDetails in E.
    pose proof (subdomain_loop_spec (length (split_on "." host) - 1) (split_on "." host) known) as S. rewrite E in S.
    destruct S as (j & Hj & P & [Q1 Q2] & _). rewrite <- P in Q1, Q2. split_and!; try done.
    rewrite <- (join_split "." host) at 1. rewrite (parts_join _ j) by lia. by rewrite <- P.
  - intros root ns fqdn gw -> D K N I. by apply knownSubdomainDetails_complete.
Qed.


(** Behind a reverse proxy that passes the original host in [X-Forwarded-Host],
    a canonical subdomain request is redirected to its own URL, for ever: the
    canonical form is looked for at the start of [Host]. *)
Theorem forwarded_host_redirect_loop (spec : GatewaySpec) (gw ns label rest : string) (codec : Z) (h : string) (inline : bool)
  (r : Request) (url : string) :
  UseSubdomains spec = true -> hasPrefix ("/" +:+ ns +:+ "/" +:+ label) (Paths spec) = true ->
  isSubdomainNamespace ns = true -> has_char "/" label = false -> (String.length label <= dnsLabelMaxLength)%nat ->
  cid_Decode label = Ok (NewCidV1 codec h) -> subdomain_root ns label (inline || isHTTPSRequest r) = Ok label ->
  HasPrefix (Host r) label = false -> URL_Path r = "/" +:+ rest -> URL_RawQuery r = "" -> url <> "" ->
  ParseRequestURI ((if isHTTPSRequest r then "https:" else "http:") +:+ "//" +:+ label +:+ "." +:+ ns
       +:+ "." +:+ gw +:+ "/" +:+ rest) = Ok url ->
  serve_subdomain spec gw ns label inline r = Redirect url.
Proof.
  intros U P N Hl L D S Hp Hpath Q Hne E.
  assert (Hns : has_char "/" ns = false).
  { apply bool_decide_eq_true in N. rewrite !elem_of_cons in N. destruct N as [-> | [-> | [-> | [-> | []%elem_of_nil]]]]; done. }
  unfold serve_subdomain. rewrite U, P. simpl. rewrite D. unfold canonical_redirect.
  unfold toDNSLabel at 1. rewrite (proj2 (Nat.leb_le _ _) L), Hp, Hpath. unfold toSubdomainURL.
  rewrite SplitN_path by done. rewrite N. simpl negb. cbv iota. rewrite S, Q, decide_False by (by intros []).
  rewrite string_app_nil. rewrite E. by rewrite decide_True.
Qed.

Lemma dnslink_label_roundtrip_witness :
  toDNSLinkFQDN "my-v--long-example-com" = "my.v-long.example.com" /\ (String.length "my-v--long-example-com" <= 63)%nat.
Proof. apply (dnslink_label_roundtrip "my.v-long.example.com"); reflexivity. Defined.

(** Names outside that class collide: a label beginning with a hyphen. *)
Theorem dnslink_label_collision :
  toDNSLinkDNSLabel "a.-b" = toDNSLinkDNSLabel "a-.b" /\ toDNSLinkFQDN "a---b" = "a-.b".
Proof. split; reflexivity. Qed.

End Hostname.

(** ** Instances *)

(** CIDs written as one letter for the codec and the hash. *)
Definition demo_decode_cid (s : string) : result cid :=
  match s with
  | String c h =>
      if has_char "." h then Err "invalid cid"
      else if Ascii.eqb c "d" then Ok (NewCidV1 112 h) else if Ascii.eqb c "k" then Ok (NewCidV1 Libp2pKey h)
      else Err "invalid cid"
  | EmptyString => Err "cid too short"
  end.

Definition demo_host : HostEnv.
Proof.
  refine {| cid_Decode := demo_decode_cid;
            StringOfBase _ c :=
              if has_char "." (Hash c) then Err "no text"
              else if Type_ c =? 112 then Ok (String "d" (Hash c))
              else if Type_ c =? Libp2pKey then Ok (String "k" (Hash c)) else Err "no text";
            peer_Decode _ := Err "invalid peer"; IsDomainName _ := true; resolves _ := false;
            ParseRequestURI u := Ok u; regexp_other _ := None |}.
  intros b codec h s. cbn [Type_ Hash NewCidV1]. destruct (has_char "." h) eqn:E; [done|].
  destruct (Z.eqb_spec codec 112) as [->|]; [|destruct (Z.eqb_spec codec Libp2pKey) as [->|]; [|done]];
    intros [= <-]; simpl; by rewrite E.
Defined.

Section HostnameWitnesses.
Local Existing Instance demo_host.

Definition demo_known : gatewayHosts := prepareKnownGateways [("dweb.link", Some subdomainGatewaySpec)].
Definition path_request : Request := MkRequest "dweb.link" "" "" "http" "/ipfs/dabc/a/b" "".
Definition sub_request : Request := MkRequest "dabc.ipfs.dweb.link" "" "" "http" "/a/b" "".

Lemma demo_innermost : innermost "dweb.link" demo_known.
Proof.
  intros k gw Hk [_ N]. change (length (split_on "." "dweb.link")) with 2%nat in Hk.
  replace k with 1%nat in N by lia. discriminate N.
Qed.

Lemma subdomain_details_exact_witness :
  knownSubdomainDetails "dabc.ipfs.dweb.link" demo_known = Ret (Some (subdomainGatewaySpec, "dweb.link", "ipfs", "dabc")).
Proof.
  apply (proj2 (subdomain_details_exact demo_known "dabc.ipfs.dweb.link" (Forall_nil_2 _)) "dabc" "ipfs" "dweb.link");
    try reflexivity. apply demo_innermost.
Defined.


Lemma forwarded_host_redirect_loop_witness :
  let r := MkRequest "127.0.0.1:8080" "dabc.ipfs.dweb.link" "" "http" "/a/b" "" in
  HostnameOption demo_known false r = Ret (Redirect "http://dabc.ipfs.dweb.link/a/b").
Proof.
  intros r. transitivity (Ret (serve_subdomain subdomainGatewaySpec "dweb.link" "ipfs" "dabc" false r)); [reflexivity|].
  apply (f_equal (@Ret reply)). apply (forwarded_host_redirect_loop subdomainGatewaySpec "dweb.link" "ipfs" "dabc" "a/b" 112 "abc" false r
    "http://dabc.ipfs.dweb.link/a/b"); try reflexivity; try discriminate; vm_compute; lia.
Defined.

(** A wildcard that is no regular expression is only logged when the gateways are
    prepared, and panics on the first request that reaches it. *)
Theorem broken_wildcard_panics :
  exists m, HostnameOption (prepareKnownGateways [("*.[bad", Some subdomainGatewaySpec)]) false path_request = Panic m.
Proof. eexists. reflexivity. Qed.

End HostnameWitnesses.
