(* ===== verification/Etag.v ===== *)
(** Entity tags of the gateway: the conditional-request helpers at the end of
    [core/corehttp/gateway_handler.go] and the tags of generated pages.

    The theorems: the loop of [etagMatch] always ends, and on a well-formed
    [If-None-Match] list it is weak comparison with some member of the list. *)
From Stdlib Require Import ZArith Lia Ascii String.
From stdpp Require Import base list strings.
From S2P Require Import Prelude GoStrings.

(** [textproto.TrimString] *)
Definition isASCIISpace (c : ascii) : bool :=
  Ascii.eqb c " " || Ascii.eqb c (ascii_of_N 9) || Ascii.eqb c (ascii_of_N 10) || Ascii.eqb c (ascii_of_N 13).
Definition TrimString (s : string) : string := trim_right isASCIISpace (trim_left isASCIISpace s).

Definition dquote : ascii := ascii_of_N 34.

(** Character values allowed in tags. *)
Definition etag_char (c : ascii) : bool :=
  let n := N_of_ascii c in ((n =? 0x21) || ((0x23 <=? n) && (n <=? 0x7E)) || (0x80 <=? n))%N.

(** The loop of [scanETag]: what comes up to the closing quote, and the rest. *)
Fixpoint scan_quoted (s : string) : option (string * string) :=
  match s with
  | EmptyString => None
  | String c s =>
      if etag_char c then match scan_quoted s with Some (a, b) => Some (String c a, b) | None => None end
      else if Ascii.eqb c dquote then Some (String dquote "", s)
      else None
  end.

(** The text from the first character after an optional [W/]. *)
Definition scan_at (start rest : string) : string * string :=
  match rest with
  | String q (String _ _ as body) =>
      if Ascii.eqb q dquote then
        match scan_quoted body with Some (a, b) => (start +:+ String q a, b) | None => ("", "") end
      else ("", "")
  | _ => ("", "")
  end.

Definition scanETag (s : string) : string * string :=
  let s := TrimString s in
  if HasPrefix s "W/" then scan_at "W/" (TrimPrefix s "W/") else scan_at "" s.

Definition etagWeakMatch (a b : string) : bool := String.eqb (TrimPrefix a "W/") (TrimPrefix b "W/").

(** The loop of [etagMatch]; [None] when it has not ended within the fuel. *)
Fixpoint etag_loop (fuel : nat) (buf cidEtag dirEtag : string) : option bool :=
  match fuel with
  | O => None
  | S fuel =>
      match TrimString buf with
      | EmptyString => Some false
      | String c rest =>
          if Ascii.eqb c "," then etag_loop fuel rest cidEtag dirEtag
          else if Ascii.eqb c "*" then Some true
          else
            let (etag, remain) := scanETag (String c rest) in
            if String.eqb etag "" then Some false
            else if etagWeakMatch etag cidEtag || etagWeakMatch etag dirEtag then Some true
            else etag_loop fuel remain cidEtag dirEtag
      end
  end.

Definition etag_fuel (h : string) : nat := S (String.length h).

Definition etagMatch (ifNoneMatchHeader cidEtag dirEtag : string) : bool :=
  default false (etag_loop (etag_fuel ifNoneMatchHeader) ifNoneMatchHeader cidEtag dirEtag).

(** The tag of a response: the CID, with the short name of the format. *)
Definition last_part (s : string) : string :=
  List.last (split_on "." (List.last (split_on "/" s) "")) "".
Definition quoted (s : string) : string := String dquote (s +:+ String dquote "").
Definition format_etag (cid responseFormat : string) : string :=
  quoted (cid +:+ (if decide (responseFormat = "") then "" else "." +:+ last_part responseFormat)).

(** ** Lemmas *)

Lemma trim_left_length p s : (String.length (trim_left p s) <= String.length s)%nat.
Proof. induction s as [|c s IH]; simpl; [lia|]. destruct (p c); simpl; lia. Qed.

Lemma trim_right_length p s : (String.length (trim_right p s) <= String.length s)%nat.
Proof. induction s as [|c s IH]; simpl; [lia|]. destruct (trim_right p s); [destruct (p c)|]; simpl in *; lia. Qed.

Lemma TrimString_length s : (String.length (TrimString s) <= String.length s)%nat.
Proof.
  unfold TrimString. etransitivity; [apply trim_right_length|apply trim_left_length].
Qed.

Lemma TrimString_idemp s : TrimString (TrimString s) = TrimString s.
Proof. apply trim_idemp. Qed.

Lemma scan_quoted_length s a b : scan_quoted s = Some (a, b) -> (String.length b < String.length s)%nat.
Proof.
  revert a. induction s as [|c s IH]; intros a; simpl; [done|]. destruct (etag_char c).
  - destruct (scan_quoted s) as [[a' b']|]; [|done]. intros [= _ ->]. specialize (IH _ eq_refl). lia.
  - destruct (Ascii.eqb c dquote); [|done]. intros [= _ ->]. lia.
Qed.

Lemma scan_at_length start rest e r : scan_at start rest = (e, r) -> e <> "" -> (String.length r < String.length rest)%nat.
Proof.
  destruct rest as [|q [|x body]]; try (by intros [= <- _]). cbn [scan_at].
  destruct (Ascii.eqb q dquote); [|by intros [= <- _]].
  destruct (scan_quoted (String x body)) as [[a b]|] eqn:E; [|by intros [= <- _]].
  intros [= _ <-] _. apply scan_quoted_length in E. simpl in *. lia.
Qed.

Lemma TrimPrefix_length s p : (String.length (TrimPrefix s p) <= String.length s)%nat.
Proof.
  unfold TrimPrefix. destruct (HasPrefix s p) eqn:E; [|lia]. apply prefix_iff in E as [t ->].
  rewrite substring_skip, substring_whole; rewrite string_app_length; lia.
Qed.

Lemma scanETag_length s e r : scanETag s = (e, r) -> e <> "" -> (String.length r < String.length s)%nat.
Proof.
  unfold scanETag. intros E He. pose proof (TrimString_length s). pose proof (TrimPrefix_length (TrimString s) "W/").
  destruct (HasPrefix (TrimString s) "W/"); apply scan_at_length in E; try done; lia.
Qed.

(** The loop ends when the fuel exceeds the length. *)
Lemma etag_loop_total n buf c d : (String.length buf < n)%nat -> etag_loop n buf c d <> None.
Proof.
  revert buf. induction n as [|n IH]; intros buf Hn; [lia|]. simpl.
  pose proof (TrimString_length buf) as Hl. destruct (TrimString buf) as [|x rest]; [done|]. simpl in Hl.
  destruct (Ascii.eqb x ","); [apply IH; lia|]. destruct (Ascii.eqb x "*"); [done|].
  destruct (scanETag (String x rest)) as [e r] eqn:E. destruct (String.eqb_spec e "") as [|He]; [done|].
  case_match; [done|]. apply IH. apply scanETag_length in E; [|done]. simpl in E. lia.
Qed.

(** More fuel does not change the answer. *)
Lemma etag_loop_mono n m buf c d b : (n <= m)%nat -> etag_loop n buf c d = Some b -> etag_loop m buf c d = Some b.
Proof.
  revert m buf. induction n as [|n IH]; intros m buf Hm; [done|]. destruct m as [|m]; [lia|]. simpl.
  destruct (TrimString buf) as [|x rest]; [done|]. destruct (Ascii.eqb x ","); [apply IH; lia|].
  destruct (Ascii.eqb x "*"); [done|]. destruct (scanETag (String x rest)) as [e r].
  destruct (String.eqb e ""); [done|]. case_match; [done|]. apply IH; lia.
Qed.

Lemma etag_loop_match n buf c d : (String.length buf < n)%nat -> etag_loop n buf c d = Some (etagMatch buf c d).
Proof.
  intros Hn. unfold etagMatch. destruct (etag_loop (etag_fuel buf) buf c d) as [b|] eqn:E.
  - apply (etag_loop_mono _ _ _ _ _ _ Hn E).
  - exfalso. revert E. apply etag_loop_total. unfold etag_fuel. lia.
Qed.

(** *** The equations of [etagMatch] *)

Section Equations.
Context (c d : string).
Let E (h : string) : bool := etagMatch h c d.

Lemma etagMatch_trim a b : TrimString a = TrimString b -> E a = E b.
Proof.
  intros Ht. unfold E, etagMatch, etag_fuel. set (n := (String.length a + String.length b)%nat).
  enough (Some (etagMatch a c d) = Some (etagMatch b c d)) as [= Heq] by exact Heq.
  rewrite <- (etag_loop_match (S n) a), <- (etag_loop_match (S n) b) by lia. simpl. by rewrite Ht.
Qed.

Lemma TrimString_space x s : isASCIISpace x = true -> TrimString (String x s) = TrimString s.
Proof. intros Hx. unfold TrimString. simpl. by rewrite Hx. Qed.

Lemma trim_right_cons p x s : p x = false -> trim_right p (String x s) = String x (trim_right p s).
Proof. intros Hx. simpl. destruct (trim_right p s); [by rewrite Hx|done]. Qed.

Lemma TrimString_cons x s : isASCIISpace x = false ->
  TrimString (String x s) = String x (trim_right isASCIISpace s).
Proof. intros Hx. unfold TrimString. simpl trim_left. rewrite Hx. by apply trim_right_cons. Qed.

(** Trimming the right end first changes nothing. *)
Lemma TrimString_right s : TrimString (trim_right isASCIISpace s) = TrimString s.
Proof.
  induction s as [|x s IH]; [done|]. destruct (isASCIISpace x) eqn:Hx.
  - simpl. rewrite Hx, (TrimString_space x s Hx), <- IH.
    destruct (trim_right isASCIISpace s) as [|y t]; [done|]. by apply TrimString_space.
  - rewrite trim_right_cons, !TrimString_cons by done. by rewrite trim_right_idemp.
Qed.

Lemma etagMatch_nil : E "" = false.
Proof. done. Qed.

Lemma etagMatch_space x s : isASCIISpace x = true -> E (String x s) = E s.
Proof. intros. apply etagMatch_trim. by apply TrimString_space. Qed.

Lemma etagMatch_step buf : E buf =
  match TrimString buf with
  | EmptyString => false
  | String x rest =>
      if Ascii.eqb x "," then E rest else if Ascii.eqb x "*" then true
      else let (etag, remain) := scanETag (String x rest) in
           if String.eqb etag "" then false
           else if etagWeakMatch etag c || etagWeakMatch etag d then true else E remain
  end.
Proof.
  enough (Hs : Some (E buf) = Some _) by (injection Hs as Hs; exact Hs).
  unfold E. remember (S (String.length buf)) as n eqn:Hn.
  rewrite <- (etag_loop_match (S n)) by lia. cbn [etag_loop].
  pose proof (TrimString_length buf) as Hl. destruct (TrimString buf) as [|x rest]; [done|]. simpl in Hl.
  destruct (Ascii.eqb x ","); [apply etag_loop_match; lia|]. destruct (Ascii.eqb x "*"); [done|].
  destruct (scanETag (String x rest)) as [e r] eqn:Es. destruct (String.eqb_spec e "") as [|He]; [done|].
  case_match; [done|]. apply etag_loop_match. apply scanETag_length in Es; [|done]. simpl in Es. lia.
Qed.

Lemma etagMatch_comma s : E (String "," s) = E s.
Proof. rewrite etagMatch_step, TrimString_cons by done. simpl. apply etagMatch_trim, TrimString_right. Qed.

Lemma etagMatch_star s : E (String "*" s) = true.
Proof. by rewrite etagMatch_step, TrimString_cons. Qed.
End Equations.

(** *** Lists of tags *)

(** A tag: whether it is weak, and its opaque text. *)
Definition tag : Type := bool * string.
Fixpoint all_chars (p : ascii -> bool) (s : string) : bool :=
  match s with EmptyString => true | String c s => p c && all_chars p s end.
Definition tag_ok (t : tag) : bool := all_chars etag_char t.2.
Definition print_tag (t : tag) : string := (if t.1 then "W/" else "") +:+ quoted t.2.

(** Separators are commas and white space. *)
Definition sep_char (c : ascii) : bool := Ascii.eqb c "," || isASCIISpace c.

(** A header: tags, each after a separator, and what follows the last. *)
Fixpoint print_tags (l : list (string * tag)) (rest : string) : string :=
  match l with
  | [] => rest
  | (sep, t) :: l => sep +:+ print_tag t +:+ print_tags l rest
  end.

Definition tag_matches (e : string) (t : tag) : bool := etagWeakMatch (print_tag t) e.

Lemma etag_char_not_space c : etag_char c = true -> isASCIISpace c = false.
Proof.
  unfold isASCIISpace. intros He.
  destruct (Ascii.eqb_spec c " ") as [->|_]; [done|]. destruct (Ascii.eqb_spec c (ascii_of_N 9)) as [->|_]; [done|].
  destruct (Ascii.eqb_spec c (ascii_of_N 10)) as [->|_]; [done|].
  by destruct (Ascii.eqb_spec c (ascii_of_N 13)) as [->|_].
Qed.

Lemma scan_quoted_print o s : all_chars etag_char o = true ->
  scan_quoted (o +:+ String dquote s) = Some (o +:+ String dquote "", s).
Proof.
  induction o as [|x o IH]; intros Ho; [done|]. simpl in Ho. apply andb_true_iff in Ho as [Hx Ho].
  rewrite !string_app_cons. cbn [scan_quoted]. by rewrite Hx, IH.
Qed.

Lemma trim_right_print o s : all_chars etag_char o = true ->
  trim_right isASCIISpace (o +:+ String dquote s) = o +:+ String dquote (trim_right isASCIISpace s).
Proof.
  induction o as [|x o IH]; intros Ho; [by apply trim_right_cons|].
  simpl in Ho. apply andb_true_iff in Ho as [Hx Ho]. rewrite !string_app_cons.
  rewrite trim_right_cons by by apply etag_char_not_space. by rewrite IH.
Qed.

Lemma print_tag_cons t s : exists c u, print_tag t +:+ s = String c u /\ isASCIISpace c = false /\
  Ascii.eqb c "," = false /\ Ascii.eqb c "*" = false.
Proof. destruct t as [[] o]; eexists _, _; by repeat split. Qed.

Lemma TrimString_tag t s : tag_ok t = true ->
  TrimString (print_tag t +:+ s) = print_tag t +:+ trim_right isASCIISpace s.
Proof.
  destruct t as [w o]. unfold tag_ok, print_tag, quoted. simpl. intros Ho.
  pose proof (trim_right_print o s Ho) as Hp. destruct w.
  - change (TrimString (String "W" (String "/" (String dquote ((o +:+ String dquote "") +:+ s))))
            = String "W" (String "/" (String dquote ((o +:+ String dquote "") +:+ trim_right isASCIISpace s)))).
    rewrite TrimString_cons, !trim_right_cons, !string_app_assoc by done. by repeat apply (f_equal (String _)).
  - change (TrimString (String dquote ((o +:+ String dquote "") +:+ s))
            = String dquote ((o +:+ String dquote "") +:+ trim_right isASCIISpace s)).
    rewrite TrimString_cons, !string_app_assoc by done. by apply (f_equal (String _)).
Qed.

Lemma scan_at_tag start o s : all_chars etag_char o = true ->
  scan_at start (String dquote (o +:+ String dquote s)) = (start +:+ quoted o, s).
Proof.
  intros Ho. unfold quoted. pose proof (scan_quoted_print o s Ho) as Hp.
  destruct (o +:+ String dquote s) as [|x u] eqn:E; [by destruct o|]. cbn [scan_at]. by rewrite Hp.
Qed.

Lemma scanETag_print t s : tag_ok t = true ->
  scanETag (print_tag t +:+ s) = (print_tag t, trim_right isASCIISpace s).
Proof.
  intros Ht. unfold scanETag. rewrite TrimString_tag by done. destruct t as [w o]. unfold print_tag, quoted.
  unfold tag_ok in Ht. simpl in *. destruct w.
  - rewrite string_app_assoc. unfold HasPrefix. rewrite prefix_app, TrimPrefix_app, string_app_cons, string_app_assoc.
    by apply scan_at_tag.
  - change ("" +:+ ?x) with x. rewrite string_app_cons, string_app_assoc. by apply (scan_at_tag "").
Qed.

Lemma print_tag_ne t : String.eqb (print_tag t) "" = false.
Proof. by destruct t as [[] o]. Qed.

Lemma etagMatch_tag c d t s : tag_ok t = true ->
  etagMatch (print_tag t +:+ s) c d = tag_matches c t || tag_matches d t || etagMatch s c d.
Proof.
  intros Ht. rewrite etagMatch_step, TrimString_tag by done.
  destruct (print_tag_cons t (trim_right isASCIISpace s)) as (x & u & E & _ & H1 & H2). rewrite E, H1, H2, <- E.
  rewrite scanETag_print by done. rewrite print_tag_ne. unfold tag_matches. case_match; [done|]. simpl.
  apply etagMatch_trim. by rewrite trim_right_idemp, TrimString_right.
Qed.

Lemma etagMatch_sep c d sep s : all_chars sep_char sep = true ->
  etagMatch (sep +:+ s) c d = etagMatch s c d.
Proof.
  induction sep as [|x sep IH]; intros Hs; [done|]. simpl in Hs. apply andb_true_iff in Hs as [Hx Hs].
  rewrite string_app_cons, <- IH by done. unfold sep_char in Hx. destruct (Ascii.eqb_spec x ",") as [->|].
  - apply etagMatch_comma.
  - by apply etagMatch_space.
Qed.

Definition tags_ok (l : list (string * tag)) : bool :=
  forallb (fun e => all_chars sep_char e.1 && tag_ok e.2) l.

Lemma etagMatch_tags c d l s : tags_ok l = true ->
  etagMatch (print_tags l s) c d = existsb (fun e => tag_matches c e.2 || tag_matches d e.2) l || etagMatch s c d.
Proof.
  induction l as [|[sep t] l IH]; intros Hl; [done|]. simpl in Hl.
  apply andb_true_iff in Hl as [[Hs Ht]%andb_true_iff Hl]. cbn [print_tags existsb snd].
  rewrite etagMatch_sep, etagMatch_tag, IH by done. by rewrite !orb_assoc.
Qed.

(** ** Theorems *)

(** [etagMatch] ends on every header, within as many rounds as the header has
    characters and one more; a larger bound gives the same answer. *)
Theorem etag_match_terminates (h c d : string) (n : nat) :
  (etag_fuel h <= n)%nat -> etag_loop n h c d = Some (etagMatch h c d).
Proof. intros Hn. apply etag_loop_match. unfold etag_fuel in Hn. lia. Qed.

Lemma etag_match_terminates_witness : etag_loop 40 ", *" "x" "y" = Some true.
Proof. rewrite etag_match_terminates; [reflexivity|]. vm_compute. lia. Defined.

(** [etagMatch] on a well-formed [If-None-Match] header, a list of weak and
    strong tags between separators of commas and white space, is whether some
    member agrees with one of the two tags under weak comparison. *)
Theorem etag_match_list (c d : string) (l : list (string * tag)) (tail : string) :
  tags_ok l = true -> all_chars sep_char tail = true ->
  etagMatch (print_tags l tail) c d = existsb (fun e => tag_matches c e.2 || tag_matches d e.2) l.
Proof.
  intros Hl Ht. rewrite etagMatch_tags by done.
  rewrite <- (string_app_nil tail), etagMatch_sep by done. by rewrite orb_false_r.
Qed.

Lemma etag_match_list_witness :
  etagMatch (print_tags [("", (false, "a")); (", ", (true, "bafk.car"))] " ,") (quoted "bafk.car") "" = true.
Proof. by rewrite etag_match_list. Defined.
