(* ===== verification/GwWriter.v ===== *)
(** The HTTP side of the gateway: response writers, headers, [http.Error],
    [http.Redirect], and what the gateway asks of the rest of the node.

    A handler is a computation over [W]: the state of the node's API, the response
    written so far, and a log of the metrics observed.  It may panic; the server
    recovers, as [ServeHTTP] does.  The writer follows [net/http]: the first
    [WriteHeader] fixes the status and the headers, later ones are counted as
    superfluous, the first [Write] implies status 200, and writes may fail.

    [GwEnv] states what other packages provide: the core API over a state of its
    own, MFS, path parsing, content sniffing, templates. *)
From Stdlib Require Import ZArith Lia Ascii String.
From stdpp Require Import base list strings gmap.
From S2P Require Import Prelude GoStrings GoPath ConfigTypes GC Hostname Etag.

Local Open Scope Z_scope.

(** ** Errors

    The errors the gateway tells apart, and all others by their text. *)

Inductive gerr :=
| NoLink (m : string)
| RoutingNotFound
| IpldNotFound (m : string)
| DeadlineExceeded
| Offline
| OsNotExist
| NotProtobuf
| Plain (m : string).

#[export] Instance gerr_eq_dec : EqDecision gerr.
Proof. solve_decision. Defined.

Definition err_text (e : gerr) : string :=
  match e with
  | NoLink m | IpldNotFound m | Plain m => m
  | RoutingNotFound => "routing: not found"
  | DeadlineExceeded => "context deadline exceeded"
  | Offline => "this action must be run in online mode, try running 'ipfs daemon' first"
  | OsNotExist => "file does not exist"
  | NotProtobuf => "expected protobuf dag node"
  end.

(** [%s] of an error, which may be nil. *)
Definition show_err (e : option gerr) : string := match e with Some e => err_text e | None => "%!s(<nil>)" end.

(** ** Requests *)

Inductive ctx_key := RequestContextKey (s : string) | StringKey (s : string).
#[export] Instance ctx_key_eq_dec : EqDecision ctx_key.
Proof. solve_decision. Defined.

Record HTTPRequest := MkHTTP {
  req :> Request;
  Method : string;
  RequestURI : string;
  Header : gmap string (list string);
  Body : string;
  Ctx : list (ctx_key * string);
}.

Definition Header_Values (r : HTTPRequest) (k : string) : list string := default [] (Header r !! k).
Definition Header_Get (r : HTTPRequest) (k : string) : string := default "" (head (Header_Values r k)).
Definition Ctx_Value (r : HTTPRequest) (k : ctx_key) : option string :=
  match list_find (fun e => e.1 = k) (Ctx r) with Some (_, e) => Some e.2 | None => None end.

(** ** What is read *)

Record Resolved := MkResolved { rp_cid : cid; rp_String : string; rp_Remainder : string }.

(** A UnixFS file: its size, whether it is a symbolic link, its data and how
    reading ends. *)
Record file := MkFile { f_Size : Z + gerr; f_isSymlink : bool; f_data : string; f_err : option gerr }.
(** A directory: the sizes of its entries in the order of the iteration, and its
    own size. *)
Record directory := MkDir { d_entries : list (Z + gerr); d_Size : Z + gerr }.
Inductive node := NFile (f : file) | NDirectory (d : directory) | NOther.

Record link := MkLink { l_Name : string; l_Cid : cid }.

Record Rule := MkRule { From : string; To : string; Status : Z }.

Record URL := MkURL { u_Scheme : string; u_Host : string; u_Path : string; u_RawQuery : string }.

Inductive modtime := noModtime | Now.

Inductive content := BytesReader (data : string) | LazySeeker (f : file).

(** What [http.ServeContent] does to the writer it is given. *)
Inductive wop :=
| OpSet (k v : string)
| OpDel (k : string)
| OpWriteHeader (code : Z)
| OpWrite (data : string)
| OpReadFrom (data : string) (e : option gerr).

(** ** Directory listings: [gateway_indexPage.go] *)

Record directoryItem := MkItem {
  i_Size : string; i_Name : string; i_Path : string; i_Hash : string; i_ShortHash : string }.
Record breadcrumb := MkCrumb { b_Name : string; b_Path : string }.
Record listingTemplateData := MkListing {
  GatewayURL : string;
  DNSLink : bool;
  Listing : list directoryItem;
  ld_Size : string;
  ld_Path : string;
  Breadcrumbs : list breadcrumb;
  BackLink : string;
  ld_Hash : string;
  ld_FastDirIndexThreshold : Z;
}.

(** ** What other packages provide *)

Class GwEnv := {
  St : Type;
  cid_String : cid -> string;
  (** the text of a CID may stand in a tag *)
  cid_String_chars : forall c, all_chars etag_char (cid_String c) = true;
  (** [path.ParsePath], [path.Join], [path.SplitList] of go-path *)
  ParsePath : string -> list string + gerr;
  segs_Join : list string -> string;
  SplitList : string -> list string;
  (** [ipath]: paths are their texts *)
  Namespace : string -> string;
  Mutable : string -> bool;
  IsValid : string -> option gerr;
  ipath_Join : string -> string -> string;
  ipath_Join_ipns : forall p n, HasPrefix p "/ipns/" = true -> HasPrefix (ipath_Join p n) "/ipns/" = true;
  (** names under [/ipns/] may change; go-path looks at the text without its dot-dot
      segments, and so does the server's multiplexer, which redirects a request for
      a path that has some *)
  Mutable_ipns : forall p, HasPrefix p "/ipns/" = true -> Mutable p = true;
  (** the core API *)
  ResolvePath : string -> St -> (Resolved + gerr) * St;
  Unixfs_Get : string -> St -> (node + gerr) * St;
  Unixfs_Ls : string -> St -> (list (link + gerr) + gerr) * St;
  Unixfs_Add : string -> St -> (Resolved + gerr) * St;
  (** the reader of the block, as [io.ReadAll] gives it *)
  Block_Get : string -> St -> ((string + gerr) + gerr) * St;
  (** [Block().Stat] of the offline API *)
  Block_Stat : string -> St -> option gerr * St;
  (** [Dag().Get]: whether the node is a protobuf node, and the node encoded in a
      codec, when it is a universal node *)
  dag_node : Type;
  Dag_Get : cid -> St -> (dag_node + gerr) * St;
  dag_typeName : dag_node -> string;
  isProtoNode : dag_node -> bool;
  isUniversalNode : dag_node -> bool;
  LookupEncoder : Z -> option gerr;
  encode : Z -> dag_node -> string + gerr;
  (** MFS; [None] is a node that is not a directory *)
  mfs_root : Type;
  mfs_NewRoot : dag_node -> St -> (mfs_root + gerr) * St;
  mfs_Mkdir : mfs_root -> string -> St -> (mfs_root + gerr) * St;
  mfs_Lookup : mfs_root -> string -> St -> (bool + gerr) * St;
  mfs_Unlink : mfs_root -> string -> string -> St -> (mfs_root + gerr) * St;
  mfs_AddChild : mfs_root -> string -> string -> dag_node -> St -> (mfs_root + gerr) * St;
  mfs_GetNode : mfs_root -> St -> (cid + gerr) * St;
  (** [redirects.Parse] and [Rule.MatchAndExpandPlaceholders], which gives the
      expanded target *)
  redirects_Parse : file -> list Rule + gerr;
  MatchAndExpandPlaceholders : Rule -> string -> option string;
  (** parsing of URLs, queries and media-type parameters *)
  url_Parse : string -> URL + gerr;
  url_ParseRequestURI : string -> string + gerr;
  Query_Get : string -> string -> string;
  Query_Encode : string -> string;
  media_params : string -> gmap string string + gerr;
  html_EscapeString : string -> string;
  (** [%+q] and [%q] *)
  quote_ascii : string -> string;
  quote : string -> string;
  hexEscapeNonASCII : string -> string;
  (** [http.ServeContent], which leaves the tag and the cache policy alone *)
  http_ServeContent : HTTPRequest -> gmap string (list string) -> string -> modtime -> content -> St -> list wop * St;
  ServeContent_headers : forall r h n m c s op, op ∈ (http_ServeContent r h n m c s).1 ->
    match op with OpSet k _ | OpDel k => k <> "Etag" /\ k <> "Cache-Control" | _ => True end;
  TypeByExtension : string -> string;
  mimetype_Detect : content -> St -> (string + gerr) * St;
  humanize_Bytes : Z -> string;
  AssetHash : string;
  AssetHash_chars : all_chars etag_char AssetHash = true;
  listing_Execute : listingTemplateData -> string * option gerr;
  dagIndex_Execute : string -> cid -> string * option gerr;
  redirect_Execute : string -> string -> string -> string * option gerr;
  redirect_body : string -> Z -> string;
  car_Write : cid -> St -> (string * option gerr) * St;
  NewTarWriter_err : option gerr;
  tar_Write : node -> string -> St -> (string * option gerr) * St;
  formatted_now : string
}.

Section Writer.
Context `{GwEnv}.

(** ** Computations *)

Record W := MkW {
  api : St;
  hdr : gmap string (list string);
  status : option Z;
  sent : gmap string (list string);
  body : list string;
  superfluous : nat;
  write_fails : list bool;
  metrics : list string;
  writes : list string;
}.

Definition M (A : Type) : Type := W -> outcome A * W.
#[export] Instance M_ret : MRet M := fun A a w => (Ret a, w).
#[export] Instance M_bind : MBind M := fun A B f m w =>
  match m w with (Ret a, w) => f a w | (Panic e, w) => (Panic e, w) end.
Definition panic {A} (msg : string) : M A := fun w => (Panic msg, w).
Definition skip : M unit := mret tt.

Definition index_out_of_range : string := "index out of range".
Definition slice_out_of_range : string := "slice bounds out of range".

(** A call of the API. *)
Definition call {A} (f : St -> A * St) : M A := fun w =>
  let (a, s) := f (api w) in
  (Ret a, MkW s (hdr w) (status w) (sent w) (body w) (superfluous w) (write_fails w) (metrics w) (writes w)).

Definition set_hdr (h : gmap string (list string)) (w : W) : W :=
  MkW (api w) h (status w) (sent w) (body w) (superfluous w) (write_fails w) (metrics w) (writes w).
Definition with_hdr (f : gmap string (list string) -> gmap string (list string)) : M unit := fun w =>
  (Ret tt, set_hdr (f (hdr w)) w).
Definition Set_ (k v : string) : M unit := with_hdr <[k := [v]]>.
Definition Add_ (k v : string) : M unit := with_hdr (fun h => <[k := default [] (h !! k) ++ [v]]> h).
Definition Del (k : string) : M unit := with_hdr (delete k).
Definition Get (k : string) : M string := fun w => (Ret (default "" (head (default [] (hdr w !! k)))), w).
Definition headers : M (gmap string (list string)) := fun w => (Ret (hdr w), w).

Definition observe (name : string) : M unit := fun w =>
  (Ret tt, MkW (api w) (hdr w) (status w) (sent w) (body w) (superfluous w) (write_fails w) (name :: metrics w) (writes w)).
(** Notes a call that adds data to the node. *)
Definition log_write (name : string) : M unit := fun w =>
  (Ret tt, MkW (api w) (hdr w) (status w) (sent w) (body w) (superfluous w) (write_fails w) (metrics w) (name :: writes w)).

Definition WriteHeader (code : Z) : M unit := fun w =>
  (Ret tt, match status w with
           | None => MkW (api w) (hdr w) (Some code) (hdr w) (body w) (superfluous w) (write_fails w) (metrics w) (writes w)
           | Some _ => MkW (api w) (hdr w) (status w) (sent w) (body w) (S (superfluous w)) (write_fails w) (metrics w) (writes w)
           end).

Definition bodyAllowed (code : Z) : bool := negb ((code <? 200) || (code =? 204) || (code =? 304)).

(** Appends to the body, unless the status has none or the connection fails. *)
Definition send (data : string) (w : W) : option gerr * W :=
  if negb (bodyAllowed (default 200 (status w)))
  then (Some (Plain "http: request method or response status code does not allow body"), w)
  else match write_fails w with
  | true :: fails =>
      (Some (Plain "write failed"),
       MkW (api w) (hdr w) (status w) (sent w) (body w) (superfluous w) fails (metrics w) (writes w))
  | fails =>
      (None, MkW (api w) (hdr w) (status w) (sent w) (body w ++ [data]) (superfluous w) (tail fails) (metrics w) (writes w))
  end.

Definition Write (data : string) : M (option gerr) := fun w =>
  let w := match status w with
           | None => MkW (api w) (hdr w) (Some 200) (hdr w) (body w) (superfluous w) (write_fails w) (metrics w) (writes w)
           | Some _ => w
           end in
  let (e, w) := send data w in (Ret e, w).

(** [io.CopyN(w, f, size)] *)
Definition CopyN (f : file) (size : Z) : M (option gerr) :=
  let data := substring 0 (Z.to_nat size) (f_data f) in
  e ← (if decide (data = "") then mret None else Write data);
  match e with
  | Some e => mret (Some e)
  | None => mret (if Z.of_nat (String.length data) <? size then Some (default (Plain "EOF") (f_err f)) else None)
  end.

(** ** [net/http] *)

Definition newline : string := String (ascii_of_N 10) "".

Definition http_Error (error : string) (code : Z) : M unit :=
  Set_ "Content-Type" "text/plain; charset=utf-8";;
  Set_ "X-Content-Type-Options" "nosniff";;
  WriteHeader code;;
  Write (error +:+ newline);; skip.

(** The target of [http.Redirect]. *)
Definition redirect_location (oldpath url : string) : string :=
  match url_Parse url with
  | inr _ => url
  | inl u =>
      if decide (u_Scheme u = "" /\ u_Host u = "") then
        let oldpath := if decide (oldpath = "") then "/" else oldpath in
        let url := if IsAbs url then url else (path_Split oldpath).1 +:+ url in
        let path := default "" (head (split_on "?" url)) in
        let query := substring (String.length path) (String.length url) url in
        let cleaned := Clean path in
        let cleaned := if HasSuffix path "/" && negb (HasSuffix cleaned "/") then cleaned +:+ "/" else cleaned in
        cleaned +:+ query
      else url
  end.

Definition http_Redirect (r : HTTPRequest) (url : string) (code : Z) : M unit :=
  let url := redirect_location (URL_Path r) url in
  h ← headers;
  let hadCT := bool_decide (is_Some (h !! "Content-Type")) in
  Set_ "Location" (hexEscapeNonASCII url);;
  (if negb hadCT && bool_decide (Method r ∈ ["GET"; "HEAD"])
   then Set_ "Content-Type" "text/html; charset=utf-8" else skip);;
  WriteHeader code;;
  (if negb hadCT && String.eqb (Method r) "GET" then Write (redirect_body url code);; skip else skip).

(** ** Writers of the gateway *)

Definition statusResponseWriter_WriteHeader (code : Z) : M unit :=
  redirect ← Get "Location";
  WriteHeader (if decide (redirect <> "" /\ code = 200) then 301 else code).

Record errRecordingResponseWriter := MkEw { code : Z; err : option gerr }.

(** [inner] is the [WriteHeader] of the wrapped writer. *)
Definition ew_WriteHeader (inner : Z -> M unit) (c : Z) (ew : errRecordingResponseWriter) : M errRecordingResponseWriter :=
  inner c;; mret (MkEw (if code ew =? 0 then c else code ew) (err ew)).

Definition record_err (e : option gerr) (ew : errRecordingResponseWriter) : errRecordingResponseWriter :=
  match e, err ew with Some _, None => MkEw (code ew) e | _, _ => ew end.

Definition ew_Write (p : string) (ew : errRecordingResponseWriter) : M (option gerr * errRecordingResponseWriter) :=
  e ← Write p; mret (e, record_err e ew).

Definition ew_ReadFrom (data : string) (readErr : option gerr) (ew : errRecordingResponseWriter)
  : M (option gerr * errRecordingResponseWriter) :=
  e ← (if decide (data = "") then mret None else Write data);
  let e := match e with Some _ => e | None => readErr end in
  mret (e, record_err e ew).

(** What [http.ServeContent] does to the recording writer; it stops at the first
    error. *)
Fixpoint run_ops (inner : Z -> M unit) (ops : list wop) (ew : errRecordingResponseWriter) : M errRecordingResponseWriter :=
  match ops with
  | [] => mret ew
  | OpSet k v :: ops => Set_ k v;; run_ops inner ops ew
  | OpDel k :: ops => Del k;; run_ops inner ops ew
  | OpWriteHeader c :: ops => ew ← ew_WriteHeader inner c ew; run_ops inner ops ew
  | OpWrite d :: ops =>
      p ← ew_Write d ew;
      match p with (Some _, ew) => mret ew | (None, ew) => run_ops inner ops ew end
  | OpReadFrom d e :: ops =>
      p ← ew_ReadFrom d e ew;
      match p with (Some _, ew) => mret ew | (None, ew) => run_ops inner ops ew end
  end.

Definition ServeContent (inner : Z -> M unit) (r : HTTPRequest) (name : string) (mt : modtime) (c : content)
  : M (Z * bool * option gerr) :=
  h ← headers;
  ops ← call (http_ServeContent r h name mt c);
  ew ← run_ops inner ops (MkEw 0 None);
  let dataSent := (code ew / 100 =? 2) && bool_decide (err ew = None) in
  mret (code ew, dataSent, err ew).

(** ** Invariants of computations *)

(** Every run keeps [P], also one that panics. *)
Definition keeps {A} (P : W -> Prop) (m : M A) : Prop := forall w, P w -> P (m w).2.

Lemma keeps_ret {A} P (a : A) : keeps P (mret a : M A).
Proof. by intros w. Qed.

Lemma keeps_panic {A} P e : keeps P (panic e : M A).
Proof. by intros w. Qed.

Lemma keeps_bind {A B} P (m : M A) (f : A -> M B) : keeps P m -> (forall a, keeps P (f a)) -> keeps P (m ≫= f).
Proof.
  intros Hm Hf w Hw. unfold mbind, M_bind. specialize (Hm w Hw). destruct (m w) as [[a|e] w']; [|done].
  by apply Hf.
Qed.

(** The computation leaves the state alone. *)
Lemma keeps_pure {A} P (m : M A) : (forall w, (m w).2 = w) -> keeps P m.
Proof. intros E w Hw. by rewrite E. Qed.

Lemma keeps_Get P k : keeps P (Get k).
Proof. by apply keeps_pure. Qed.

Lemma keeps_headers P : keeps P headers.
Proof. by apply keeps_pure. Qed.

(** What a predicate on responses must allow, for it to be kept by the handlers:
    headers other than the tag and the cache policy are free; [tagok] says which
    tags may be set and [cacheok] whether the cache policy may. *)
Record frame (P : W -> Prop) (tagok : string -> Prop) (cacheok : Prop) : Prop := {
  fr_api : forall w s ms, P w ->
    P (MkW s (hdr w) (status w) (sent w) (body w) (superfluous w) (write_fails w) ms (writes w));
  fr_set : forall k v, k <> "Etag" -> k <> "Cache-Control" -> keeps P (Set_ k v);
  fr_add : forall k v, k <> "Etag" -> k <> "Cache-Control" -> keeps P (Add_ k v);
  fr_etag : forall e, tagok e -> keeps P (Set_ "Etag" e);
  fr_cache : forall v, cacheok -> keeps P (Set_ "Cache-Control" v);
  fr_del : forall k, k <> "Etag" -> keeps P (Del k);
  fr_WriteHeader : forall c, keeps P (WriteHeader c);
  fr_Write : forall d, keeps P (Write d)
}.

Section Frame.
Context (P : W -> Prop) (tagok : string -> Prop) (cacheok : Prop) (F : frame P tagok cacheok).

Lemma keeps_call {A} (f : St -> A * St) : keeps P (call f).
Proof. intros w Hw. unfold call. destruct (f (api w)). by apply (fr_api _ _ _ F). Qed.

Lemma keeps_observe n : keeps P (observe n).
Proof. intros w Hw. by apply (fr_api _ _ _ F). Qed.

Lemma keeps_set k v : k <> "Etag" -> k <> "Cache-Control" -> keeps P (Set_ k v).
Proof. apply (fr_set _ _ _ F). Qed.
End Frame.
End Writer.

Create HintDb gw.
#[export] Hint Resolve keeps_ret keeps_panic keeps_bind keeps_Get keeps_headers : gw.

(** Splits a computation into its calls and branches. *)
Ltac keep_step :=
  match goal with
  | |- keeps _ (mret _) => apply keeps_ret
  | |- keeps _ skip => apply keeps_ret
  | |- keeps _ (panic _) => apply keeps_panic
  | |- keeps _ (_ ≫= _) => apply keeps_bind; [|intros ?]
  | |- keeps _ (Get _) => apply keeps_Get
  | |- keeps _ headers => apply keeps_headers
  | F : frame ?P _ _ |- keeps ?P (call _) => apply (keeps_call _ _ _ F)
  | F : frame ?P _ _ |- keeps ?P (observe _) => apply (keeps_observe _ _ _ F)
  | F : frame ?P _ _ |- keeps ?P (WriteHeader _) => apply (fr_WriteHeader _ _ _ F)
  | F : frame ?P _ _ |- keeps ?P (Write _) => apply (fr_Write _ _ _ F)
  | F : frame ?P _ _ |- keeps ?P (Set_ "Etag" _) => apply (fr_etag _ _ _ F)
  | F : frame ?P _ _ |- keeps ?P (Set_ "Cache-Control" _) => apply (fr_cache _ _ _ F)
  | F : frame ?P _ _ |- keeps ?P (Set_ _ _) => apply (fr_set _ _ _ F); [done|done]
  | F : frame ?P _ _ |- keeps ?P (Add_ _ _) => apply (fr_add _ _ _ F); [done|done]
  | F : frame ?P _ _ |- keeps ?P (Del _) => apply (fr_del _ _ _ F); done
  | |- keeps _ (let (_, _) := ?x in _) => destruct x
  | |- keeps _ (match ?x with _ => _ end) => destruct x
  | |- keeps _ _ => progress cbv zeta
  end.
Ltac keep := repeat (keep_step; try (solve [eauto 3 with gw])).

Section FrameHttp.
Context `{GwEnv} (P : W -> Prop) (tagok : string -> Prop) (cacheok : Prop) (F : frame P tagok cacheok).

Lemma keeps_CopyN f n : keeps P (CopyN f n).
Proof. unfold CopyN. keep. Qed.

Lemma keeps_http_Error m c : keeps P (http_Error m c).
Proof. unfold http_Error. keep. Qed.

Lemma keeps_http_Redirect r u c : keeps P (http_Redirect r u c).
Proof. unfold http_Redirect. keep. Qed.

Lemma keeps_run_ops inner ops ew :
  (forall c, keeps P (inner c)) ->
  (forall op, op ∈ ops -> match op with OpSet k _ | OpDel k => k <> "Etag" /\ k <> "Cache-Control" | _ => True end) ->
  keeps P (run_ops inner ops ew).
Proof.
  intros Hi. revert ew. induction ops as [|op ops IH]; intros ew Ho; [apply keeps_ret|].
  assert (Hops : forall ew, keeps P (run_ops inner ops ew)).
  { intros ew'. apply IH. intros o' Ho'. apply Ho. by apply list_elem_of_further. }
  pose proof (Ho op ltac:(apply list_elem_of_here)) as Hop.
  destruct op; cbn [run_ops]; unfold ew_WriteHeader, ew_Write, ew_ReadFrom; keep; try (by apply Hops);
    try (by apply Hi); try (by apply (fr_del _ _ _ F), Hop); by apply (fr_set _ _ _ F); apply Hop.
Qed.

Lemma keeps_ServeContent inner r name mt c : (forall c, keeps P (inner c)) -> keeps P (ServeContent inner r name mt c).
Proof.
  intros Hi w Hw. unfold ServeContent, mbind, M_bind. cbn.
  pose proof (ServeContent_headers r (hdr w) name mt c (api w)) as Hh. unfold call.
  destruct (http_ServeContent r (hdr w) name mt c (api w)) as [ops s']. cbn in Hh.
  pose proof (keeps_run_ops inner ops (MkEw 0 None) Hi Hh _ (fr_api _ _ _ F w s' (metrics w) Hw)) as Hk.
  by destruct (run_ops inner ops _ _) as [[ew|e] w'].
Qed.

Lemma keeps_status_WriteHeader c : keeps P (statusResponseWriter_WriteHeader c).
Proof. unfold statusResponseWriter_WriteHeader. keep. Qed.
End FrameHttp.

#[export] Hint Resolve keeps_CopyN keeps_http_Error keeps_http_Redirect keeps_ServeContent keeps_status_WriteHeader : gw.

(** ** A small node

    Paths are looked up in a table; files are sent whole. *)

Definition demo_table : Type := gmap string (Resolved * node).
Definition demo_text (c : cid) : string := if all_chars etag_char (Hash c) then Hash c else "cid".
Definition demo_data (n : node) : string := match n with NFile f => f_data f | _ => "" end.
Definition demo_lookup {A} (f : Resolved * node -> A) (p : string) (s : demo_table) : (A + gerr) * demo_table :=
  (match s !! p with Some e => inl (f e) | None => inr (NoLink "no link by that name") end, s).
Definition demo_unsupported {A} : A + gerr := inr (Plain "not supported").
Definition demo_serve (c : content) : list wop :=
  [OpSet "Accept-Ranges" "bytes"; OpWriteHeader 200;
   OpReadFrom (match c with BytesReader d => d | LazySeeker f => f_data f end) None].

Definition demo_gw : GwEnv.
Proof.
  refine {| St := demo_table; cid_String := demo_text;
            ParsePath p := inl (split_on "/" (TrimPrefix p "/")); segs_Join := join_with "/"; SplitList := split_on "/";
            Namespace p := default "" (split_on "/" p !! 1%nat);
            Mutable p := HasPrefix p "/ipns/"; IsValid p := None; ipath_Join p n := p +:+ "/" +:+ n;
            ResolvePath := demo_lookup fst; Unixfs_Get := demo_lookup snd;
            Unixfs_Ls p s := (inl [], s); Unixfs_Add d s := (demo_unsupported, s);
            Block_Get := demo_lookup (fun e => inl (demo_data e.2));
            Block_Stat p s := (match s !! p with Some _ => None | None => Some (Plain "not found") end, s);
            dag_node := string; Dag_Get c s := (demo_unsupported, s); dag_typeName n := "node";
            isProtoNode n := true; isUniversalNode n := true; LookupEncoder k := None; encode k n := inl n;
            mfs_root := unit; mfs_NewRoot n s := (inl tt, s); mfs_Mkdir m p s := (inl tt, s);
            mfs_Lookup m p s := (inl true, s); mfs_Unlink m p n s := (inl tt, s); mfs_AddChild m p n d s := (inl tt, s);
            mfs_GetNode m s := (demo_unsupported, s);
            redirects_Parse f := inl [MkRule "/old" "/new.html" 200];
            MatchAndExpandPlaceholders rule u := if String.eqb (From rule) u then Some (To rule) else None;
            url_Parse u := inl (MkURL "" "" u ""); url_ParseRequestURI u := inl u;
            Query_Get q k := if HasPrefix q (k +:+ "=") then TrimPrefix q (k +:+ "=") else "";
            Query_Encode q := q; media_params v := inl ∅; html_EscapeString s := s; quote_ascii s := s; quote s := s;
            hexEscapeNonASCII s := s; http_ServeContent r h n m c s := (demo_serve c, s);
            TypeByExtension e := if String.eqb e ".html" then "text/html; charset=utf-8" else "";
            mimetype_Detect c s := (inl "text/plain", s); humanize_Bytes n := FormatInt n; AssetHash := "0a1b";
            listing_Execute d := ("listing", None); dagIndex_Execute p c := ("dag", None);
            redirect_Execute a b d := (a, None); redirect_body u k := u;
            car_Write c s := (("car", None), s); NewTarWriter_err := None; tar_Write n c s := (("tar", None), s);
            formatted_now := "now" |}.
  - intros c. unfold demo_text. by destruct (all_chars etag_char (Hash c)) eqn:E.
  - intros p n [t ->]%prefix_iff. apply prefix_iff. exists (t +:+ "/" +:+ n). by rewrite !string_app_assoc.
  - by intros p.
  - intros r h n m c s op. unfold demo_serve. cbn [fst]. rewrite !elem_of_cons.
    intros [-> | [-> | [-> | E]]]; try done. by apply not_elem_of_nil in E.
  - done.
Defined.

Definition demo_cid : cid := Cid 1 85 "bafk".
Definition demo_file : file := MkFile (inl 5) false "hello" None.
Definition demo_site : demo_table :=
  {[ "/ipfs/bafk" := (MkResolved demo_cid "/ipfs/bafk" "", NFile demo_file);
     "/ipns/site" := (MkResolved demo_cid "/ipns/site" "", NFile demo_file) ]}.
Definition demo_get (path : string) : HTTPRequest :=
  MkHTTP (MkRequest "localhost" "" "" "http" path "") "GET" path ∅ "" [].
Definition demo_state : @St demo_gw := demo_site.
