(* ===== verification/Gateway.v ===== *)
(** The gateway handler: [core/corehttp/gateway_handler.go] and the response
    formats in [gateway_handler_block.go], [_car.go], [_tar.go], [_codec.go],
    [_unixfs.go], [_unixfs_file.go], [_unixfs_dir.go], [_unixfs__redirects.go] and
    [gateway_indexPage.go], as computations of [GwWriter].

    Each handler is one definition with the branches of the source, in its order;
    logging and tracing are left out, metrics are noted. *)
From Stdlib Require Import ZArith Lia Ascii String.
From stdpp Require Import base list strings gmap sorting.
From S2P Require Import Prelude GoStrings GoPath ConfigTypes GC Hostname Etag GwWriter.

Local Open Scope Z_scope.

Definition ipfsPathPrefix : string := "/ipfs/".
Definition ipnsPathPrefix : string := "/ipns/".
Definition immutableCacheControl : string := "public, max-age=29030400, immutable".

Record GatewayConfig := MkGwConfig {
  Headers : gmap string (list string);
  Writable : bool;
  FastDirIndexThreshold : Z;
}.

Record requestError := MkRequestError { re_Message : string; re_StatusCode : Z; re_Err : option gerr }.
Definition newRequestError (message : string) (err : gerr) (statusCode : Z) : requestError :=
  MkRequestError message statusCode (Some err).

(** Multicodec codes. *)
Definition mc_Cbor : Z := 0x51.
Definition mc_DagCbor : Z := 0x71.
Definition mc_DagJson : Z := 0x0129.
Definition mc_Json : Z := 0x0200.

(** ** Pure helpers *)

(** [mime.ParseMediaType]: the type itself; parameters are [media_params]. *)
Definition isTokenChar (c : ascii) : bool :=
  let n := N_of_ascii c in
  ((32 <? n) && (n <? 127))%N &&
  negb (bool_decide (c ∈ ["("; ")"; "<"; ">"; "@"; ","; ";"; ":"; "\"; dquote; "/"; "["; "]"; "?"; "="]%char)).
Fixpoint consumeToken (s : string) : string * string :=
  match s with
  | String c t => if isTokenChar c then let (a, b) := consumeToken t in (String c a, b) else ("", s)
  | EmptyString => ("", "")
  end.
Definition checkMediaTypeDisposition (s : string) : option gerr :=
  let (typ, rest) := consumeToken s in
  if decide (typ = "") then Some (Plain "mime: no media type")
  else match rest with
  | EmptyString => None
  | String c rest =>
      if negb (Ascii.eqb c "/") then Some (Plain "mime: expected slash after first token")
      else let (subtype, rest) := consumeToken rest in
           if decide (subtype = "") then Some (Plain "mime: expected token after slash")
           else if decide (rest = "") then None else Some (Plain "mime: unexpected content after media subtype")
  end.

(** [strings.Count(path.Clean(s), "/")] *)
Definition getFilename (contentPath : string) : string :=
  if (HasPrefix contentPath ipfsPathPrefix || HasPrefix contentPath ipnsPathPrefix)
     && (count_char "/" (Clean contentPath) <=? 2)%nat
  then "" else path_Base contentPath.

Definition preferred404Filename (acceptHeaders : list string) : (string * string) + gerr :=
  if existsb (fun h => existsb (fun spec =>
       bool_decide (default "" (head (SplitN ";" spec 1)) ∈ ["*/*"; "text/*"; "text/html"])) (split_on "," h)) acceptHeaders
  then inl ("ipfs-404.html", "text/html")
  else inr (Plain "there is no 404 file for the requested content types").

Definition isUnixfsResponseFormat (responseFormat : string) : bool := String.eqb responseFormat "".

Definition hasOriginIsolation (r : HTTPRequest) : bool :=
  bool_decide (is_Some (Ctx_Value r (RequestContextKey "gw-hostname"))) ||
  bool_decide (is_Some (Ctx_Value r (StringKey "dnslink-hostname"))).

(** [^/ip[fn]s/[^/]+$] *)
Definition namespace_root (p : string) : bool :=
  match split_on "/" p with
  | [EmptyString; ns; root] => bool_decide (ns ∈ ["ipfs"; "ipns"]) && negb (String.eqb root "")
  | _ => false
  end.

Definition handleServiceWorkerRegistration (r : HTTPRequest) : option requestError :=
  if String.eqb (Header_Get r "Service-Worker") "script" && namespace_root (URL_Path r)
  then Some (newRequestError "navigator.serviceWorker" (Plain "registration is not allowed for this scope") 400)
  else None.

Definition handleUnsupportedHeaders (r : HTTPRequest) : option requestError :=
  if decide (Header_Get r "X-Ipfs-Gateway-Prefix" <> "")
  then Some (newRequestError "unsupported HTTP header"
               (Plain "X-Ipfs-Gateway-Prefix support was removed: https://github.com/ipfs/kubo/issues/7702") 400)
  else None.

Definition shortHash (hash : string) : string :=
  if (String.length hash <=? 8)%nat then hash
  else substring 0 4 hash +:+ "…" +:+ substring (String.length hash - 4) 4 hash.

Definition hasDNSLinkOrigin (gwURL path : string) : bool :=
  if decide (gwURL <> "") then HasPrefix path ("/ipns/" +:+ stripPort (TrimPrefix gwURL "//")) else false.

(** [codecToContentType], [contentTypeToCodecs], [contentTypeToExtension] *)
Definition codecToContentType (codec : Z) : option string :=
  if codec =? mc_Json then Some "application/json"
  else if codec =? mc_Cbor then Some "application/cbor"
  else if codec =? mc_DagJson then Some "application/vnd.ipld.dag-json"
  else if codec =? mc_DagCbor then Some "application/vnd.ipld.dag-cbor" else None.
Definition contentTypeToCodecs (t : string) : option (list Z) :=
  if decide (t = "application/json") then Some [mc_Json; mc_DagJson]
  else if decide (t = "application/vnd.ipld.dag-json") then Some [mc_DagJson]
  else if decide (t = "application/cbor") then Some [mc_Cbor; mc_DagCbor]
  else if decide (t = "application/vnd.ipld.dag-cbor") then Some [mc_DagCbor] else None.
Definition contentTypeToExtension (t : string) : option string :=
  if decide (t = "application/json" \/ t = "application/vnd.ipld.dag-json") then Some ".json"
  else if decide (t = "application/cbor" \/ t = "application/vnd.ipld.dag-cbor") then Some ".cbor" else None.

Definition disposition_value (filename disposition : string) : string :=
  let q := String dquote "" in
  disposition +:+ "; filename=" +:+ q +:+ PathEscape (ascii_only filename) +:+ q
  +:+ "; filename*=UTF-8''" +:+ PathEscape filename.

Section Gateway.
Context `{HostEnv, GwEnv}.

Definition Query (r : HTTPRequest) (k : string) : string := Query_Get (URL_RawQuery r) k.

Definition ParseMediaType (v : string) : (string * gmap string string) + gerr :=
  let mediatype := TrimSpace (ToLower (default "" (head (split_on ";" v)))) in
  match checkMediaTypeDisposition mediatype with
  | Some e => inr e
  | None => match media_params v with inl ps => inl (mediatype, ps) | inr e => inr e end
  end.

Fixpoint accept_format (values : list string) : (string * gmap string string) + gerr :=
  match values with
  | [] => inl ("", ∅)
  | accept :: values =>
      if HasPrefix accept "application/vnd.ipld" || HasPrefix accept "application/x-tar"
         || HasPrefix accept "application/json" || HasPrefix accept "application/cbor"
      then ParseMediaType accept else accept_format values
  end.

Definition format_param (formatParam : string) : option string :=
  if decide (formatParam = "raw") then Some "application/vnd.ipld.raw"
  else if decide (formatParam = "car") then Some "application/vnd.ipld.car"
  else if decide (formatParam = "tar") then Some "application/x-tar"
  else if decide (formatParam = "dag-json") then Some "application/vnd.ipld.dag-json"
  else if decide (formatParam = "json") then Some "application/json"
  else if decide (formatParam = "dag-cbor") then Some "application/vnd.ipld.dag-cbor"
  else if decide (formatParam = "cbor") then Some "application/cbor" else None.

Definition customResponseFormat (r : HTTPRequest) : (string * gmap string string) + gerr :=
  match format_param (Query r "format") with
  | Some t => inl (t, ∅)
  | None => accept_format (Header_Values r "Accept")
  end.

Definition getEtag (r : HTTPRequest) (c : cid) : string :=
  format_etag (cid_String c) (match customResponseFormat r with inl (f, _) => f | inr _ => "" end).
Definition getDirListingEtag (dirCid : cid) : string := quoted ("DirIndex-" +:+ AssetHash +:+ "_CID-" +:+ cid_String dirCid).
Definition getDagIndexEtag (dagCid : cid) : string := quoted ("DagIndex-" +:+ AssetHash +:+ "_CID-" +:+ cid_String dagCid).

Definition debugStr (path : string) : string :=
  let q := quote_ascii path in
  if (3 <=? String.length q)%nat then substring 1 (String.length q - 2) q else q.

(** Whether the segments of a breadcrumb's path begin at the root. *)
Fixpoint crumbs_from (pre segs : list string) : list breadcrumb :=
  match segs with
  | [] => []
  | seg :: segs =>
      MkCrumb seg (if decide (pre = []) then "" else "/" +:+ join_with "/" (pre ++ [seg]))
      :: crumbs_from (pre ++ [seg]) segs
  end.

Definition breadcrumbs (urlPath : string) (dnslinkOrigin : bool) : outcome (list breadcrumb) :=
  match ParsePath urlPath with
  | inr _ => Ret []
  | inl segs =>
      match segs !! 1%nat with
      | None => Panic index_out_of_range
      | Some contentRoot =>
          let ret := crumbs_from [] segs in
          if dnslinkOrigin then
            let prefix := "/ipns/" +:+ contentRoot in
            let ret := map (fun c => if HasPrefix (b_Path c) prefix
                                     then MkCrumb (b_Name c) (replace_first prefix "" (b_Path c)) else c) ret in
            Ret (alter (fun c => MkCrumb (b_Name c) "/") 1%nat ret)
          else Ret ret
      end
  end.

(** ** Errors and headers *)

Definition webErrorWithCode (message : string) (err : option gerr) (code : Z) : M unit :=
  http_Error (message +:+ ": " +:+ show_err err) code.

Definition webError_code (err : option gerr) (defaultCode : Z) : Z :=
  match err with
  | Some (NoLink _) | Some RoutingNotFound | Some (IpldNotFound _) => 404
  | Some DeadlineExceeded => 408
  | _ => defaultCode
  end.

Definition webError (message : string) (err : option gerr) (defaultCode : Z) : M unit :=
  webErrorWithCode message err (webError_code err defaultCode).

Definition webRequestError (e : requestError) : M unit := webError (re_Message e) (re_Err e) (re_StatusCode e).
Definition internalWebError (err : option gerr) : M unit := webErrorWithCode "internalWebError" err 500.

Definition addUserHeaders (c : GatewayConfig) : M unit := with_hdr (fun h => Headers c ∪ h).

Definition addCacheControlHeaders (r : HTTPRequest) (contentPath : string) (fileCid : cid) : M modtime :=
  Set_ "Etag" (getEtag r fileCid);;
  if Mutable contentPath then mret Now
  else Set_ "Cache-Control" immutableCacheControl;; mret noModtime.

Definition setContentDispositionHeader (filename disposition : string) : M unit :=
  Set_ "Content-Disposition" (disposition_value filename disposition).

Definition addContentDispositionHeader (r : HTTPRequest) (contentPath : string) : M string :=
  let urlFilename := Query r "filename" in
  if decide (urlFilename <> "") then
    setContentDispositionHeader urlFilename (if String.eqb (Query r "download") "true" then "attachment" else "inline");;
    mret urlFilename
  else mret (getFilename contentPath).

(** The loop of [buildIpfsRootsHeader]: [sp] is the builder. *)
Fixpoint roots_loop (sp : string) (segs : list string) (pathRoots : list string) : M (list string + gerr) :=
  match segs with
  | [] => mret (inl pathRoots)
  | EmptyString :: segs => roots_loop sp segs pathRoots
  | root :: segs =>
      let sp := sp +:+ "/" +:+ root in
      p ← call (ResolvePath sp);
      match p with
      | inr e => mret (inr e)
      | inl resolved => roots_loop sp segs (pathRoots ++ [cid_String (rp_cid resolved)])
      end
  end.

Definition buildIpfsRootsHeader (contentPath : string) : M (string + gerr) :=
  if (String.length contentPath <? 6)%nat then panic slice_out_of_range
  else
    let pathSegments := split_on "/" (substring 6 (String.length contentPath) contentPath) in
    p ← roots_loop (substring 0 5 contentPath) pathSegments [];
    mret (match p with inl roots => inl (join_with "," roots) | inr e => inr e end).

Definition setCommonHeaders (c : GatewayConfig) (contentPath : string) : M (option requestError) :=
  addUserHeaders c;;
  Set_ "X-Ipfs-Path" contentPath;;
  p ← buildIpfsRootsHeader contentPath;
  match p with
  | inl rootCids => Set_ "X-Ipfs-Roots" rootCids;; mret None
  | inr e => mret (Some (newRequestError "error while resolving X-Ipfs-Roots" e 500))
  end.

Definition handleGettingFirstBlock (contentPath : string) (resolvedPath : Resolved) : M (option requestError) :=
  p ← call (Block_Get (rp_String resolvedPath));
  match p with
  | inr e => mret (Some (newRequestError ("ipfs block get " +:+ cid_String (rp_cid resolvedPath)) e 500))
  | inl _ => observe "unixfsGetMetric";; observe "firstContentBlockGetMetric";; mret None
  end.

(** ** Redirects of the request *)

Definition handleProtocolHandlerRedirect (r : HTTPRequest) : M bool :=
  let uriParam := Query r "uri" in
  if decide (uriParam = "") then mret false
  else match url_Parse uriParam with
  | inr e => webError "failed to parse uri query parameter" (Some e) 400;; mret true
  | inl u =>
      if decide (u_Scheme u <> "ipfs" /\ u_Scheme u <> "ipns")
      then webError "uri query parameter scheme must be ipfs or ipns" None 400;; mret true
      else
        let path := if decide (u_RawQuery u <> "") then u_Path u +:+ "?" +:+ u_RawQuery u else u_Path u in
        http_Redirect r (path_Join ["/"; u_Scheme u; u_Host u; path]) 301;; mret true
  end.

Definition handleSuperfluousNamespace (r : HTTPRequest) (contentPath : string) : M bool :=
  if decide (IsValid contentPath = None) then mret false
  else if negb (HasPrefix (URL_Path r) "/ipfs/ipfs/" || HasPrefix (URL_Path r) "/ipfs/ipns/") then mret false
  else
    let intendedPath := TrimPrefix (URL_Path r) "/ipfs" in
    match IsValid intendedPath with
    | Some e => webError "invalid ipfs path" (Some e) 400;; mret true
    | None =>
        let intendedURL := if decide (URL_RawQuery r <> "") then intendedPath +:+ "?" +:+ Query_Encode (URL_RawQuery r)
                           else intendedPath in
        WriteHeader 400;;
        let (page, e) := redirect_Execute intendedURL intendedPath
          ("invalid path: " +:+ quote (URL_Path r) +:+ " should be " +:+ quote intendedPath) in
        Write page;;
        (if decide (e = None) then skip else webError "failed to redirect when fixing superfluous namespace" e 400);;
        mret true
    end.

Definition handleOnlyIfCached (r : HTTPRequest) (contentPath : string) : M bool :=
  if String.eqb (Header_Get r "Cache-Control") "only-if-cached" then
    e ← call (Block_Stat contentPath);
    match e with
    | Some _ =>
        if String.eqb (Method r) "HEAD" then WriteHeader 412;; mret true
        else http_Error (quote contentPath +:+ " not in local datastore") 412;; mret true
    | None => if String.eqb (Method r) "HEAD" then WriteHeader 200;; mret true else mret false
    end
  else mret false.

(** ** The [_redirects] file *)

Definition getRootPath (path : string) : outcome string :=
  match split_on "/" path !! 2%nat with
  | Some part => Ret (path_Join ["/"; Namespace path; part])
  | None => Panic index_out_of_range
  end.

Definition getRedirectsFile (contentPath : string) : M (option Resolved) :=
  match getRootPath contentPath with
  | Panic m => panic m
  | Ret rootPath =>
      p ← call (ResolvePath (ipath_Join rootPath "_redirects"));
      mret (match p with inl resolved => Some resolved | inr _ => None end)
  end.

Definition getRedirectRules (redirectsFilePath : Resolved) : M (list Rule + gerr) :=
  p ← call (Unixfs_Get (rp_String redirectsFilePath));
  mret (match p with
        | inr e => inr (Plain ("could not get _redirects: " +:+ err_text e))
        | inl (NFile f) =>
            match redirects_Parse f with
            | inl rules => inl rules
            | inr e => inr (Plain ("could not parse _redirects: " +:+ err_text e))
            end
        | inl _ => inr (Plain "could not parse _redirects: %!w(<nil>)")
        end).

Definition serve4xx (r : HTTPRequest) (content4xxPath : string) (status : Z) : M (option gerr) :=
  p ← call (ResolvePath content4xxPath);
  match p with
  | inr e => mret (Some e)
  | inl resolved =>
      n ← call (Unixfs_Get (rp_String resolved));
      match n with
      | inr e => mret (Some e)
      | inl (NFile f) =>
          match f_Size f with
          | inr _ => mret (Some (Plain ("could not get size of " +:+ FormatInt status +:+ " page")))
          | inl size =>
              Set_ "Content-Type" "text/html";;
              Set_ "Content-Length" (FormatInt size);;
              addCacheControlHeaders r content4xxPath (rp_cid resolved);;
              WriteHeader status;;
              CopyN f size
          end
      | inl _ => mret (Some (Plain ("could not convert node for " +:+ FormatInt status +:+ " page to file")))
      end
  end.

(** The loop over the rules; the result is whether the reply was written, the
    path of a rewrite, and the error. *)
Fixpoint rules_loop (r : HTTPRequest) (rootPath urlPath : string) (rules : list Rule)
  : M (bool * string * option gerr) :=
  match rules with
  | [] => mret (false, "", None)
  | rule :: rules =>
      match MatchAndExpandPlaceholders rule urlPath with
      | None => rules_loop r rootPath urlPath rules
      | Some to =>
          if Status rule =? 200 then mret (false, rootPath +:+ to, None)
          else if (Status rule =? 404) || (Status rule =? 410) || (Status rule =? 451) then
            e ← serve4xx r (rootPath +:+ to) (Status rule); mret (true, rootPath +:+ to, e)
          else if (301 <=? Status rule) && (Status rule <=? 308) then
            http_Redirect r to (Status rule);; mret (true, "", None)
          else rules_loop r rootPath urlPath rules
      end
  end.

Definition handleRedirectsFileRules (r : HTTPRequest) (contentPath : string) (redirectRules : list Rule)
  : M (bool * string * option gerr) :=
  let pathParts := split_on "/" contentPath in
  if (3 <? length pathParts)%nat then
    rules_loop r (join_with "/" (take 3 pathParts)) (TrimSuffix ("/" +:+ join_with "/" (drop 3 pathParts)) "/") redirectRules
  else mret (false, "", None).

(** [None]: no rule matched and nothing was written.  [Some None]: the reply was
    written. *)
Definition serveRedirectsIfPresent (r : HTTPRequest) (contentPath : string) : M (option (option (Resolved * string))) :=
  redirectsFile ← getRedirectsFile contentPath;
  match redirectsFile with
  | None => mret None
  | Some rf =>
      rules ← getRedirectRules rf;
      match rules with
      | inr e => internalWebError (Some e);; mret (Some None)
      | inl rules =>
          x ← handleRedirectsFileRules r contentPath rules;
          match x with
          | (_, _, Some e) =>
              internalWebError (Some (Plain ("trouble processing _redirects file at " +:+ quote (rp_String rf)
                                             +:+ ": " +:+ err_text e)));; mret (Some None)
          | (true, _, None) => mret (Some None)
          | (false, newPath, None) =>
              if decide (newPath <> "") then
                p ← call (ResolvePath newPath);
                match p with
                | inr e => internalWebError (Some e);; mret (Some None)
                | inl resolved => mret (Some (Some (resolved, newPath)))
                end
              else mret None
          end
      end
  end.

(** The loop of [searchUpTreeFor404]: [idx] counts down to 3. *)
Fixpoint search404 (idx : nat) (pathComponents : list string) (filename404 : string) : M (Resolved + gerr) :=
  match idx with
  | S (S (S _) as j) =>
      let parsed404Path := "/" +:+ path_Join (take idx pathComponents ++ [filename404]) in
      if decide (IsValid parsed404Path <> None) then mret (inr (Plain "no pretty 404 in any parent folder"))
      else
        p ← call (ResolvePath parsed404Path);
        match p with
        | inl resolved => mret (inl resolved)
        | inr _ => search404 j pathComponents filename404
        end
  | _ => mret (inr (Plain "no pretty 404 in any parent folder"))
  end.

Definition searchUpTreeFor404 (r : HTTPRequest) (contentPath : string) : M ((Resolved * string) + gerr) :=
  match preferred404Filename (Header_Values r "Accept") with
  | inr e => mret (inr e)
  | inl (filename404, ctype) =>
      let pathComponents := split_on "/" contentPath in
      p ← search404 (length pathComponents) pathComponents filename404;
      mret (match p with inl resolved => inl (resolved, ctype) | inr e => inr e end)
  end.

Definition serveLegacy404IfPresent (r : HTTPRequest) (contentPath : string) : M bool :=
  p ← searchUpTreeFor404 r contentPath;
  match p with
  | inr _ => mret false
  | inl (resolved404Path, ctype) =>
      n ← call (Unixfs_Get (rp_String resolved404Path));
      match n with
      | inl (NFile f) =>
          match f_Size f with
          | inr _ => mret false
          | inl size =>
              Set_ "Content-Type" ctype;;
              Set_ "Content-Length" (FormatInt size);;
              WriteHeader 404;;
              e ← CopyN f size;
              mret (bool_decide (e = None))
          end
      | _ => mret false
      end
  end.

(** [None]: the handler is done. *)
Definition handlePathResolution (r : HTTPRequest) (responseFormat contentPath : string) : M (option (Resolved * string)) :=
  p ← call (ResolvePath contentPath);
  match p with
  | inl resolvedPath => mret (Some (resolvedPath, contentPath))
  | inr Offline => webError ("ipfs resolve -r " +:+ debugStr contentPath) (Some Offline) 503;; mret None
  | inr err =>
      let fail := webError ("ipfs resolve -r " +:+ debugStr contentPath) (Some err) 400;; mret None in
      let legacy := served ← serveLegacy404IfPresent r contentPath; if (served : bool) then mret None else fail in
      if isUnixfsResponseFormat responseFormat then
        if hasOriginIsolation r then
          x ← serveRedirectsIfPresent r contentPath;
          match x with Some done => mret done | None => legacy end
        else legacy
      else fail
  end.

(** ** Responses *)

Definition serveRawBlock (r : HTTPRequest) (resolvedPath : Resolved) (contentPath : string) : M unit :=
  let blockCid := rp_cid resolvedPath in
  p ← call (Block_Get (rp_String resolvedPath));
  match p with
  | inr e | inl (inr e) => webError ("ipfs block get " +:+ cid_String blockCid) (Some e) 500
  | inl (inl block) =>
      let urlFilename := Query r "filename" in
      let name := if decide (urlFilename <> "") then urlFilename else cid_String blockCid +:+ ".bin" in
      setContentDispositionHeader name "attachment";;
      modtime ← addCacheControlHeaders r contentPath blockCid;
      Set_ "Content-Type" "application/vnd.ipld.raw";;
      Set_ "X-Content-Type-Options" "nosniff";;
      x ← ServeContent WriteHeader r name modtime (BytesReader block);
      if (x.1.2 : bool) then observe "rawBlockGetMetric" else skip
  end.

Definition serveCAR (r : HTTPRequest) (resolvedPath : Resolved) (contentPath carVersion : string) : M unit :=
  if decide (carVersion <> "" /\ carVersion <> "1")
  then webError "unsupported CAR version" (Some (Plain "only version=1 is supported")) 400
  else
    let rootCid := rp_cid resolvedPath in
    let urlFilename := Query r "filename" in
    let name := if decide (urlFilename <> "") then urlFilename else cid_String rootCid +:+ ".car" in
    setContentDispositionHeader name "attachment";;
    addCacheControlHeaders r contentPath rootCid;;
    let etag := "W/" +:+ getEtag r rootCid in
    Set_ "Etag" etag;;
    if String.eqb (Header_Get r "If-None-Match") etag then WriteHeader 304
    else
      Set_ "Accept-Ranges" "none";;
      Set_ "Content-Type" "application/vnd.ipld.car; version=1";;
      Set_ "X-Content-Type-Options" "nosniff";;
      c ← call (car_Write rootCid);
      e ← Write c.1;
      match (match e with Some _ => e | None => c.2 end) with
      | Some e => Set_ "X-Stream-Error" (err_text e)
      | None => observe "carStreamGetMetric"
      end.

Definition set_last_modified (mt : modtime) : M unit :=
  match mt with noModtime => skip | Now => Set_ "Last-Modified" formatted_now end.

Definition serveTAR (r : HTTPRequest) (resolvedPath : Resolved) (contentPath : string) : M unit :=
  p ← call (Unixfs_Get (rp_String resolvedPath));
  match p with
  | inr e => webError ("ipfs cat " +:+ html_EscapeString contentPath) (Some e) 400
  | inl file =>
      let rootCid := rp_cid resolvedPath in
      modtime ← addCacheControlHeaders r contentPath rootCid;
      let etag := "W/" +:+ getEtag r rootCid in
      Set_ "Etag" etag;;
      if String.eqb (Header_Get r "If-None-Match") etag then WriteHeader 304
      else
        let urlFilename := Query r "filename" in
        let name := if decide (urlFilename <> "") then urlFilename else cid_String rootCid +:+ ".tar" in
        setContentDispositionHeader name "attachment";;
        match NewTarWriter_err with
        | Some e => webError "could not build tar writer" (Some e) 500
        | None =>
            set_last_modified modtime;;
            Set_ "Content-Type" "application/x-tar";;
            Set_ "X-Content-Type-Options" "nosniff";;
            t ← call (tar_Write file (cid_String rootCid));
            e ← Write t.1;
            match (match e with Some _ => e | None => t.2 end) with
            | Some e => Set_ "X-Stream-Error" (err_text e);; Write (err_text e);; skip
            | None => skip
            end
        end
  end.
(** *** IPLD codecs *)

Definition setCodecContentDisposition (r : HTTPRequest) (resolvedPath : Resolved) (contentType : string) : M string :=
  let ext := default ".bin" (contentTypeToExtension contentType) in
  let urlFilename := Query r "filename" in
  let name := if decide (urlFilename <> "") then urlFilename else cid_String (rp_cid resolvedPath) +:+ ext in
  let dispType := if String.eqb (Query r "download") "true" then "attachment"
                  else if String.eqb ext ".json" then "inline" else "attachment" in
  setContentDispositionHeader name dispType;; mret name.

Definition serveCodecHTML (resolvedPath : Resolved) (contentPath : string) : M unit :=
  Set_ "Content-Type" "text/html";;
  Del "Content-Disposition";;
  Set_ "Etag" (getDagIndexEtag (rp_cid resolvedPath));;
  Del "Cache-Control";;
  let (page, e) := dagIndex_Execute contentPath (rp_cid resolvedPath) in
  w ← Write page;
  match (match w with Some _ => w | None => e end) with
  | Some e => webError "failed to generate HTML listing for this DAG: try fetching raw block with ?format=raw" (Some e) 500
  | None => skip
  end.

Definition serveCodecRaw (r : HTTPRequest) (resolvedPath : Resolved) (name : string) (mt : modtime) : M unit :=
  p ← call (Block_Get (rp_String resolvedPath));
  match p with
  | inr e | inl (inr e) => webError ("ipfs block get " +:+ cid_String (rp_cid resolvedPath)) (Some e) 500
  | inl (inl block) => ServeContent WriteHeader r name mt (BytesReader block);; skip
  end.

Definition serveCodecConverted (resolvedPath : Resolved) (toCodec : Z) (mt : modtime) : M unit :=
  p ← call (Dag_Get (rp_cid resolvedPath));
  match p with
  | inr e => webError ("ipfs dag get " +:+ html_EscapeString (rp_String resolvedPath)) (Some e) 500
  | inl obj =>
      if negb (isUniversalNode obj)
      then let e := Plain (dag_typeName obj +:+ " is not a valid IPLD node") in webError (err_text e) (Some e) 500
      else match LookupEncoder toCodec with
      | Some e => webError (err_text e) (Some e) 500
      | None =>
          match encode toCodec obj with
          | inr e => webError (err_text e) (Some e) 500
          | inl bytes => set_last_modified mt;; Write bytes;; skip
          end
      end
  end.

Definition serveCodec (r : HTTPRequest) (resolvedPath : Resolved) (contentPath requestedContentType : string) : M unit :=
  let cidCodec := Type_ (rp_cid resolvedPath) in
  if decide (rp_Remainder resolvedPath <> "") then
    let path := TrimSuffix (rp_String resolvedPath) (rp_Remainder resolvedPath) in
    webError "unsupported pathing" (Some (Plain (quote (rp_Remainder resolvedPath) +:+ " of " +:+ quote (rp_String resolvedPath)
      +:+ " could not be returned: reading IPLD Kinds other than Links (CBOR Tag 42) is not implemented: try reading "
      +:+ quote path +:+ " instead"))) 501
  else
    match (if decide (requestedContentType = "") then codecToContentType cidCodec else Some requestedContentType) with
    | None => webError "internal error" (Some (Plain ("content type not found for codec: " +:+ FormatInt cidCodec))) 500
    | Some responseContentType =>
        modtime ← addCacheControlHeaders r contentPath (rp_cid resolvedPath);
        name ← setCodecContentDisposition r resolvedPath responseContentType;
        Set_ "Content-Type" responseContentType;;
        Set_ "X-Content-Type-Options" "nosniff";;
        if decide (requestedContentType = "") then
          let isDAG := (cidCodec =? mc_DagJson) || (cidCodec =? mc_DagCbor) in
          let acceptsHTML := Contains (Header_Get r "Accept") "text/html" in
          let download := String.eqb (Query r "download") "true" in
          if isDAG && acceptsHTML && negb download then serveCodecHTML resolvedPath contentPath
          else serveCodecRaw r resolvedPath name modtime
        else match contentTypeToCodecs requestedContentType with
        | None =>
            let e := Plain ("unsupported content type: " +:+ requestedContentType) in webError (err_text e) (Some e) 500
        | Some codecs =>
            let toCodec := List.last codecs 0 in
            if Contains requestedContentType "dag-" then serveCodecConverted resolvedPath toCodec modtime
            else if bool_decide (cidCodec ∈ codecs) then serveCodecRaw r resolvedPath name modtime
            else serveCodecConverted resolvedPath toCodec modtime
        end
    end.

(** *** UnixFS *)

(** The type of a file's content; moving the lazy seeker back to the start does
    not fail. *)
Definition file_ctype (f : file) (name : string) : M (string + gerr) :=
  if f_isSymlink f then mret (inl "inode/symlink")
  else
    let strip ctype := if HasPrefix ctype "text/html;" then "text/html" else ctype in
    let ctype := TypeByExtension (path_Ext name) in
    if decide (ctype <> "") then mret (inl (strip ctype))
    else
      p ← call (mimetype_Detect (LazySeeker f));
      mret (match p with inl ctype => inl (strip ctype) | inr e => inr e end).

Definition serveFile (r : HTTPRequest) (resolvedPath : Resolved) (contentPath : string) (f : file) : M unit :=
  modtime ← addCacheControlHeaders r contentPath (rp_cid resolvedPath);
  name ← addContentDispositionHeader r contentPath;
  match f_Size f with
  | inr _ => http_Error "cannot serve files with unknown sizes" 502
  | inl size =>
      if size =? 0 then Set_ "Content-Type" "text/plain";; WriteHeader 200
      else
        p ← file_ctype f name;
        match p with
        | inr e => http_Error ("cannot detect content-type: " +:+ err_text e) 500
        | inl ctype =>
            Set_ "Content-Type" ctype;;
            x ← ServeContent statusResponseWriter_WriteHeader r name modtime (LazySeeker f);
            if (x.1.2 : bool) then observe "unixfsFileGetMetric" else skip
        end
  end.

(** The items of a listing; [None] when a link carries an error. *)
Fixpoint listing_items (originalURLPath : string) (links : list (link + gerr)) : option (list directoryItem) :=
  match links with
  | [] => Some []
  | inr _ :: _ => None
  | inl l :: links =>
      match listing_items originalURLPath links with
      | None => None
      | Some items =>
          let hash := cid_String (l_Cid l) in
          Some (MkItem "" (l_Name l) (path_Join [originalURLPath; l_Name l]) hash (shortHash hash) :: items)
      end
  end.

Definition size_text (s : Z + gerr) : string := match s with inl n => humanize_Bytes (u64 n) | inr _ => "?" end.

(** The sizes of the entries are written over the items from the first. *)
Fixpoint fill_sizes (sizes : list (Z + gerr)) (items : list directoryItem) : outcome (list directoryItem) :=
  match sizes, items with
  | [], _ => Ret items
  | _ :: _, [] => Panic index_out_of_range
  | s :: sizes, it :: items =>
      obind (fill_sizes sizes items) (fun items =>
        Ret (MkItem (size_text s) (i_Name it) (i_Path it) (i_Hash it) (i_ShortHash it) :: items))
  end.

Definition back_link (originalURLPath contentPath : string) : string :=
  let up := if HasSuffix originalURLPath "/" then originalURLPath +:+ ".." else originalURLPath +:+ "/.." in
  match SplitList contentPath with
  | [_; _; _] => ""
  | [_; _; _; EmptyString] => ""
  | _ => up
  end.

Definition gateway_url (r : HTTPRequest) : string :=
  match Ctx_Value r (RequestContextKey "gw-hostname") with Some h => "//" +:+ h | None => "" end.

Definition lift {A} (o : outcome A) : M A := fun w => (o, w).

Definition serveListing (c : GatewayConfig) (r : HTTPRequest) (resolvedPath : Resolved) (contentPath originalURLPath : string)
    (dir : directory) : M unit :=
  results ← call (Unixfs_Ls (rp_String resolvedPath));
  match results with
  | inr e => internalWebError (Some e)
  | inl links =>
      match listing_items originalURLPath links with
      | None => internalWebError None
      | Some items =>
          items ← (if Z.of_nat (length items) <? FastDirIndexThreshold c
                   then lift (fill_sizes (d_entries dir) items) else mret items);
          let gwURL := gateway_url r in
          let dnslink := hasDNSLinkOrigin gwURL contentPath in
          crumbs ← lift (breadcrumbs contentPath dnslink);
          let (page, e) := listing_Execute (MkListing gwURL dnslink items (size_text (d_Size dir)) contentPath crumbs
            (back_link originalURLPath contentPath) (cid_String (rp_cid resolvedPath)) (FastDirIndexThreshold c)) in
          w ← Write page;
          match (match w with Some _ => w | None => e end) with
          | Some e => internalWebError (Some e)
          | None => observe "unixfsGenDirGetMetric"
          end
      end
  end.

Definition serveDirectory (c : GatewayConfig) (r : HTTPRequest) (resolvedPath : Resolved) (contentPath : string)
    (dir : directory) : M unit :=
  match url_ParseRequestURI (RequestURI r) with
  | inr e => webError "failed to parse request path" (Some e) 500
  | inl originalURLPath =>
      if decide (originalURLPath = "") then panic index_out_of_range
      else if negb (HasSuffix originalURLPath "/") && negb (String.eqb (Query r "go-get") "1") then
        http_Redirect r (originalURLPath +:+ "/" +:+ (if decide (URL_RawQuery r <> "") then "?" +:+ URL_RawQuery r else "")) 301
      else
        let idxPath := ipath_Join contentPath "index.html" in
        idx ← call (Unixfs_Get idxPath);
        match idx with
        | inl (NFile f) => serveFile r resolvedPath idxPath f
        | inl _ => internalWebError (Some (Plain "file isn't a regular file"))
        | inr (NoLink _) =>
            location ← Get "Location";
            if decide (location <> "") then WriteHeader 301
            else
              Set_ "Content-Type" "text/html";;
              Set_ "Etag" (getDirListingEtag (rp_cid resolvedPath));;
              if String.eqb (Method r) "HEAD" then skip
              else serveListing c r resolvedPath contentPath originalURLPath dir
        | inr e => internalWebError (Some e)
        end
  end.

Definition serveUnixFS (c : GatewayConfig) (r : HTTPRequest) (resolvedPath : Resolved) (contentPath : string) : M unit :=
  p ← call (Unixfs_Get (rp_String resolvedPath));
  match p with
  | inr e => webError ("ipfs cat " +:+ html_EscapeString contentPath) (Some e) 400
  | inl (NFile f) => serveFile r resolvedPath contentPath f
  | inl (NDirectory d) => serveDirectory c r resolvedPath contentPath d
  | inl NOther => internalWebError (Some (Plain "unsupported UnixFS type"))
  end.

(** ** GET and HEAD *)

Definition ipld_codec (codec : Z) : bool := bool_decide (codec ∈ [mc_Json; mc_DagJson; mc_Cbor; mc_DagCbor]).

Definition serveFormat (c : GatewayConfig) (r : HTTPRequest) (responseFormat : string) (formatParams : gmap string string)
    (resolvedPath : Resolved) (contentPath : string) : M unit :=
  if decide (responseFormat = "") then
    if ipld_codec (Type_ (rp_cid resolvedPath)) then serveCodec r resolvedPath contentPath responseFormat
    else serveUnixFS c r resolvedPath contentPath
  else if decide (responseFormat = "application/vnd.ipld.raw") then serveRawBlock r resolvedPath contentPath
  else if decide (responseFormat = "application/vnd.ipld.car")
  then serveCAR r resolvedPath contentPath (default "" (formatParams !! "version"))
  else if decide (responseFormat = "application/x-tar") then serveTAR r resolvedPath contentPath
  else if decide (responseFormat = "application/json" \/ responseFormat = "application/vnd.ipld.dag-json" \/
                  responseFormat = "application/cbor" \/ responseFormat = "application/vnd.ipld.dag-cbor")
  then serveCodec r resolvedPath contentPath responseFormat
  else webError "failed respond with requested content type" (Some (Plain ("unsupported format " +:+ quote responseFormat))) 400.

(** Everything after the path is resolved and the tag did not match. *)
Definition serveResolved (c : GatewayConfig) (r : HTTPRequest) (responseFormat : string) (formatParams : gmap string string)
    (resolvedPath : Resolved) (contentPath : string) : M unit :=
  e ← handleGettingFirstBlock contentPath resolvedPath;
  match e with
  | Some e => webRequestError e
  | None =>
      e ← setCommonHeaders c contentPath;
      match e with
      | Some e => webRequestError e
      | None => serveFormat c r responseFormat formatParams resolvedPath contentPath
      end
  end.

Definition notModified (r : HTTPRequest) (pathCid : cid) : bool :=
  let inm := Header_Get r "If-None-Match" in
  negb (String.eqb inm "") && etagMatch inm (getEtag r pathCid) (getDirListingEtag pathCid).

Definition getOrHeadHandler (c : GatewayConfig) (r : HTTPRequest) : M unit :=
  match handleUnsupportedHeaders r with
  | Some e => webRequestError e
  | None =>
      handled ← handleProtocolHandlerRedirect r;
      if (handled : bool) then skip else
      match handleServiceWorkerRegistration r with
      | Some e => webRequestError e
      | None =>
          let contentPath := URL_Path r in
          handled ← handleOnlyIfCached r contentPath;
          if (handled : bool) then skip else
          handled ← handleSuperfluousNamespace r contentPath;
          if (handled : bool) then skip else
          match customResponseFormat r with
          | inr e => webError "error while processing the Accept header" (Some e) 400
          | inl (responseFormat, formatParams) =>
              p ← handlePathResolution r responseFormat contentPath;
              match p with
              | None => skip
              | Some (resolvedPath, contentPath) =>
                  if notModified r (rp_cid resolvedPath) then WriteHeader 304
                  else serveResolved c r responseFormat formatParams resolvedPath contentPath
              end
          end
      end
  end.
(** ** Writing *)

Definition parseIpfsPath (p : string) : outcome ((cid * string) + gerr) :=
  match ParsePath p with
  | inr e => Ret (inr e)
  | inl rsegs =>
      match rsegs with
      | [] => Panic index_out_of_range
      | ns :: rest =>
          if decide (ns <> "ipfs") then Ret (inr (Plain "WritableGateway: only ipfs paths supported"))
          else match rest with
          | [] => Panic index_out_of_range
          | root :: rest =>
              match cid_Decode root with
              | Err e => Ret (inr (Plain e))
              | Ok rootCid => Ret (inl (rootCid, segs_Join rest))
              end
          end
      end
  end.

Definition postHandler (c : GatewayConfig) (r : HTTPRequest) : M unit :=
  log_write "Unixfs().Add";;
  p ← call (Unixfs_Add (Body r));
  match p with
  | inr e => internalWebError (Some e)
  | inl p =>
      addUserHeaders c;;
      Set_ "Ipfs-Hash" (cid_String (rp_cid p));;
      http_Redirect r (rp_String p) 201
  end.

(** Continues with the result of a call, or reports its error. *)
Definition or_fail {A} (m : M (A + gerr)) (message : string) (code : Z) (k : A -> M unit) : M unit :=
  p ← m; match p with inr e => webError message (Some e) code | inl a => k a end.

Definition empty_path (p : string) : bool := String.eqb p "" || String.eqb p "/".

(** The new root with the file linked in, once both nodes are at hand. *)
Definition put_link (c : GatewayConfig) (r : HTTPRequest) (root : mfs_root) (newPath : string) (newFile : dag_node) : M unit :=
  let (newDirectory, newFileName) := path_Split newPath in
  or_fail (if decide (newDirectory <> "") then call (mfs_Mkdir root newDirectory) else mret (inl root))
    "WritableGateway: failed to create MFS directory" 500 (fun root =>
  or_fail (call (mfs_Lookup root newDirectory)) "WritableGateway: failed to lookup directory" 500 (fun isDir =>
  if negb isDir then http_Error "WritableGateway: target directory is not a directory" 400
  else
    unlinked ← call (mfs_Unlink root newDirectory newFileName);
    match (match unlinked with inl root => inl root | inr OsNotExist => inl root | inr e => inr e end) with
    | inr e => webError "WritableGateway: failed to replace existing file" (Some e) 400
    | inl root =>
        or_fail (call (mfs_AddChild root newDirectory newFileName newFile))
          "WritableGateway: failed to link file into directory" 500 (fun root =>
        or_fail (call (mfs_GetNode root)) "WritableGateway: failed to finalize" 500 (fun newcid =>
          addUserHeaders c;;
          Set_ "Ipfs-Hash" (cid_String newcid);;
          http_Redirect r (path_Join [ipfsPathPrefix; cid_String newcid; newPath]) 201))
    end)).

Definition putHandler (c : GatewayConfig) (r : HTTPRequest) : M unit :=
  parsed ← lift (parseIpfsPath (URL_Path r));
  match parsed with
  | inr e => webError "WritableGateway: failed to parse the path" (Some e) 400
  | inl (rootCid, newPath) =>
      if empty_path newPath then http_Error "WritableGateway: empty path" 400
      else
        or_fail (call (Dag_Get rootCid)) "WritableGateway: Could not create DAG from request" 500 (fun rnode =>
        if negb (isProtoNode rnode)
        then webError "Cannot read non protobuf nodes through gateway" (Some NotProtobuf) 400
        else
          log_write "Unixfs().Add";;
          or_fail (call (Unixfs_Add (Body r))) "WritableGateway: could not create DAG from request" 500 (fun newFilePath =>
          or_fail (call (Dag_Get (rp_cid newFilePath))) "WritableGateway: failed to resolve new file" 500 (fun newFile =>
          log_write "mfs.NewRoot";;
          or_fail (call (mfs_NewRoot rnode)) "WritableGateway: failed to create MFS root" 400 (fun root =>
            put_link c r root newPath newFile))))
  end.

Definition deleteHandler (c : GatewayConfig) (r : HTTPRequest) : M unit :=
  parsed ← lift (parseIpfsPath (URL_Path r));
  match parsed with
  | inr e => webError "WritableGateway: failed to parse the path" (Some e) 400
  | inl (rootCid, newPath) =>
      if empty_path newPath then http_Error "WritableGateway: empty path" 400
      else
        let (directory, filename) := path_Split newPath in
        or_fail (call (Dag_Get rootCid)) "WritableGateway: failed to resolve root CID" 500 (fun rootNode =>
        if negb (isProtoNode rootNode) then http_Error "WritableGateway: empty path" 500
        else
          log_write "mfs.NewRoot";;
          or_fail (call (mfs_NewRoot rootNode)) "WritableGateway: failed to construct the MFS root" 400 (fun root =>
          or_fail (call (mfs_Lookup root directory)) "WritableGateway: failed to look up parent" 500 (fun isDir =>
          if negb isDir then http_Error "WritableGateway: parent is not a directory" 500
          else
            unlinked ← call (mfs_Unlink root directory filename);
            match (match unlinked with inl root => Some root | inr OsNotExist => Some root | inr _ => None end) with
            | None => webError "WritableGateway: failed to remove file" None 500
            | Some root =>
                or_fail (call (mfs_GetNode root)) "WritableGateway: failed to finalize" 500 (fun ncid =>
                  addUserHeaders c;;
                  Set_ "Ipfs-Hash" (cid_String ncid);;
                  http_Redirect r (path_Join [ipfsPathPrefix +:+ cid_String ncid; directory]) 201)
            end)))
  end.

(** ** The handler *)

Definition optionsHandler (c : GatewayConfig) : M unit := addUserHeaders c.

Definition dispatch (c : GatewayConfig) (r : HTTPRequest) : M unit :=
  if Writable c && String.eqb (Method r) "POST" then postHandler c r
  else if Writable c && String.eqb (Method r) "PUT" then putHandler c r
  else if Writable c && String.eqb (Method r) "DELETE" then deleteHandler c r
  else if bool_decide (Method r ∈ ["GET"; "HEAD"]) then getOrHeadHandler c r
  else if String.eqb (Method r) "OPTIONS" then optionsHandler c
  else
    let errmsg := "Method " +:+ Method r +:+ " not allowed: " in
    if negb (Writable c) then
      Add_ "Allow" "GET";; Add_ "Allow" "HEAD";; Add_ "Allow" "OPTIONS";;
      http_Error (errmsg +:+ "read only access") 405
    else http_Error (errmsg +:+ "bad request for " +:+ URL_Path r) 400.

(** [ServeHTTP] recovers from panics; when nothing was written the server answers
    200 with the headers set so far. *)
Definition ServeHTTP (c : GatewayConfig) (r : HTTPRequest) (w : W) : W :=
  let w := (dispatch c r w).2 in
  match status w with
  | Some _ => w
  | None => (WriteHeader 200 w).2
  end.

(** The response to a request: the API's state and the headers an outer handler
    has set. *)
Definition fresh (s : St) (h : gmap string (list string)) (fails : list bool) : W :=
  MkW s h None ∅ [] 0 fails [] [].

(** ** From the host name to the handler: [hostname.go] *)

Definition withHostnameContext (hostname : string) (r : HTTPRequest) : HTTPRequest :=
  MkHTTP (req r) (Method r) (RequestURI r) (Header r) (Body r)
    ((RequestContextKey "gw-hostname", hostname) :: Ctx r).

Definition with_path (p : string) (r : HTTPRequest) : HTTPRequest :=
  MkHTTP (MkRequest (Host r) (XForwardedHost r) (XForwardedProto r) (URL_Scheme r) p (URL_RawQuery r))
    (Method r) (RequestURI r) (Header r) (Body r) (Ctx r).

(** The request that [HostnameOption] hands on. *)
Definition handed_on (path : string) (gw_hostname dnslink_hostname : option string) (r : HTTPRequest) : HTTPRequest :=
  let r := with_path path r in
  let r := match dnslink_hostname with
           | Some h => MkHTTP (req r) (Method r) (RequestURI r) (Header r) (Body r)
                         ((RequestContextKey "dnslink-hostname", h) :: Ctx r)
           | None => r
           end in
  match gw_hostname with Some h => withHostnameContext h r | None => r end.

(** The host-name handler in front of the gateway, for the paths of the gateway. *)
Definition serve_host (c : GatewayConfig) (known : gatewayHosts) (noDNSLink : bool) (r : HTTPRequest) (w : W) : outcome W :=
  match HostnameOption known noDNSLink r with
  | Panic m => Panic m
  | Ret (Serve path location gw dns) =>
      let w := if decide (location <> "") then (Set_ "Location" location w).2 else w in
      Ret (ServeHTTP c (handed_on path gw dns r) w)
  | Ret (Redirect url) => Ret (http_Redirect r url 301 w).2
  | Ret NotFound => Ret (http_Error "404 page not found" 404 w).2
  | Ret (BadRequest e) => Ret (http_Error e 400 w).2
  end.
End Gateway.

(** ** Access control: [gateway.go] *)

(** [http.CanonicalHeaderKey] of a valid name: the first letter of each part in
    upper case, the others in lower case. *)
Definition upper_char (c : ascii) : ascii :=
  let n := N_of_ascii c in if ((97 <=? n) && (n <=? 122))%N then ascii_of_N (n - 32) else c.
Fixpoint canonical_from (upper : bool) (s : string) : string :=
  match s with
  | EmptyString => EmptyString
  | String c s => String (if upper then upper_char c else lower_char c) (canonical_from (Ascii.eqb c "-") s)
  end.
Fixpoint valid_header_name (s : string) : bool :=
  match s with EmptyString => true | String c s => isTokenChar c && valid_header_name s end.
Definition CanonicalHeaderKey (s : string) : string := if valid_header_name s then canonical_from true s else s.

(** [sort.Strings] *)
Definition string_le (a b : string) : Prop := String.leb a b = true.
#[export] Instance string_le_dec a b : Decision (string_le a b).
Proof. unfold string_le. apply _. Defined.

Definition cleanHeaderSet (headers : list string) : list string :=
  merge_sort string_le (elements (list_to_set (CanonicalHeaderKey <$> headers) : gset string)).

Definition AddAccessControlHeaders (headers : gmap string (list string)) : gmap string (list string) :=
  let add_default k v (h : gmap string (list string)) := match h !! k with Some _ => h | None => <[k := [v]]> h end in
  let headers := add_default "Access-Control-Allow-Origin" "*" headers in
  let headers := add_default "Access-Control-Allow-Methods" "GET" headers in
  let clean k (fixed : list string) (h : gmap string (list string)) :=
    <[k := cleanHeaderSet (fixed ++ default [] (h !! k))]> h in
  let headers := clean "Access-Control-Allow-Headers" ["Content-Type"; "User-Agent"; "Range"; "X-Requested-With"] headers in
  clean "Access-Control-Expose-Headers"
    ["Content-Length"; "Content-Range"; "X-Chunked-Output"; "X-Stream-Output"; "X-Ipfs-Path"; "X-Ipfs-Roots"] headers.

(** The configuration of [GatewayOption]: [httpHeaders] are the entries of the
    map in the order of the iteration. *)
Definition gateway_config (writable : bool) (httpHeaders : list (string * list string)) (threshold : Z) : GatewayConfig :=
  let headers := foldl (fun h e => <[CanonicalHeaderKey e.1 := e.2]> h) ∅ httpHeaders in
  MkGwConfig (AddAccessControlHeaders headers) writable threshold.

(** ** The proxy of HTTP requests to peers: [p2p_proxy.go] *)

Record proxyRequest := MkProxy { target : string; proxy_name : string; httpPath : string }.

Definition parseRequest `{HostEnv} (path : string) : result proxyRequest :=
  let invalid := Err ("invalid request path '" +:+ path +:+ "'") in
  match SplitN "/" path 5 with
  | [_; _; id; kind; rest] =>
      match peer_Decode id with
      | Err _ => invalid
      | Ok _ =>
          if decide (kind = "http") then Ok (MkProxy id "/http" rest)
          else match SplitN "/" path 7 with
          | [_; _; id; x; name; http; rest] =>
              if decide (x = "x" /\ http = "http") then Ok (MkProxy id ("/x/" +:+ name +:+ "/http") rest) else invalid
          | _ => invalid
          end
      end
  | _ => invalid
  end.
