(* ===== verification/GatewaySafety.v ===== *)
(** What every response of the gateway has in common, whatever the node's API
    answers: the tags it carries, the cache policy, and that reading adds nothing
    to the node.

    The handlers keep every predicate with a [frame]; the theorems instantiate it. *)
From Stdlib Require Import ZArith Lia Ascii String.
From stdpp Require Import base list strings gmap.
From S2P Require Import Prelude GoStrings GoPath ConfigTypes GC Hostname Etag GwWriter Gateway.

Local Open Scope Z_scope.

Section Keep.
Context `{HostEnv, GwEnv} (P : W -> Prop) (tagok : string -> Prop) (cacheok : Prop).
Context (F : frame P tagok cacheok).

Lemma keeps_webError m e c : keeps P (webError m e c).
Proof. unfold webError, webErrorWithCode. eauto with gw. Qed.
Lemma keeps_webRequestError e : keeps P (webRequestError e).
Proof. apply keeps_webError. Qed.
Lemma keeps_internalWebError e : keeps P (internalWebError e).
Proof. unfold internalWebError, webErrorWithCode. eauto with gw. Qed.
Lemma keeps_lift {A} (o : outcome A) : keeps P (lift o).
Proof. by apply keeps_pure. Qed.
Lemma keeps_disposition a b : keeps P (setContentDispositionHeader a b).
Proof. unfold setContentDispositionHeader. keep. Qed.
End Keep.

#[export] Hint Resolve keeps_webError keeps_webRequestError keeps_internalWebError keeps_lift keeps_disposition : gw.

(** The tags a response for a CID may carry. *)
Definition tags_of `{HostEnv, GwEnv} (r : HTTPRequest) (c : cid) : list string :=
  [getEtag r c; "W/" +:+ getEtag r c; getDirListingEtag c; getDagIndexEtag c].

Section KeepServe.
Context `{HostEnv, GwEnv} (P : W -> Prop) (tagok : string -> Prop) (cacheok : Prop).
Context (F : frame P tagok cacheok) (r : HTTPRequest).

Lemma keeps_addCacheControl p c : tagok (getEtag r c) -> (Mutable p = false -> cacheok) ->
  keeps P (addCacheControlHeaders r p c).
Proof. intros Ht Hc. unfold addCacheControlHeaders. destruct (Mutable p) eqn:E; keep; by auto. Qed.

Section Resolved.
Context (rp : Resolved) (p : string).
Context (Ht : forall e, e ∈ tags_of r (rp_cid rp) -> tagok e) (Hc : Mutable p = false -> cacheok).

Lemma tag_0 : tagok (getEtag r (rp_cid rp)).
Proof. apply Ht. set_solver. Qed.
Lemma tag_1 : tagok ("W/" +:+ getEtag r (rp_cid rp)).
Proof. apply Ht. set_solver. Qed.
Lemma tag_2 : tagok (getDirListingEtag (rp_cid rp)).
Proof. apply Ht. set_solver. Qed.
Lemma tag_3 : tagok (getDagIndexEtag (rp_cid rp)).
Proof. apply Ht. set_solver. Qed.
Local Hint Resolve tag_0 tag_1 tag_2 tag_3 keeps_addCacheControl : gw.

Lemma keeps_serveRawBlock : keeps P (serveRawBlock r rp p).
Proof. unfold serveRawBlock. keep; eauto 6 with gw. apply (keeps_ServeContent _ _ _ F); intros; keep. Qed.

Lemma keeps_serveCAR v : keeps P (serveCAR r rp p v).
Proof. unfold serveCAR. keep; eauto 6 with gw. Qed.

Lemma keeps_serveTAR : keeps P (serveTAR r rp p).
Proof. unfold serveTAR, set_last_modified. keep; eauto 6 with gw. Qed.

Lemma keeps_serveCodecRaw n mt : keeps P (serveCodecRaw r rp n mt).
Proof. unfold serveCodecRaw. keep; eauto 6 with gw. apply (keeps_ServeContent _ _ _ F); intros; keep. Qed.

Lemma keeps_serveCodecConverted k mt : keeps P (serveCodecConverted rp k mt).
Proof. unfold serveCodecConverted, set_last_modified. keep; eauto 6 with gw. Qed.

Lemma keeps_serveCodecHTML q : keeps P (serveCodecHTML rp q).
Proof. unfold serveCodecHTML. keep; eauto 6 with gw. Qed.

Lemma keeps_codecDisposition t : keeps P (setCodecContentDisposition r rp t).
Proof. unfold setCodecContentDisposition. keep; eauto 6 with gw. Qed.
Local Hint Resolve keeps_serveCodecRaw keeps_serveCodecConverted keeps_serveCodecHTML keeps_codecDisposition : gw.

Lemma keeps_serveCodec t : keeps P (serveCodec r rp p t).
Proof. unfold serveCodec. keep; eauto 6 with gw. Qed.

Lemma keeps_serveFile f : keeps P (serveFile r rp p f).
Proof.
  unfold serveFile, file_ctype, addContentDispositionHeader. keep; eauto 6 with gw.
Qed.

Lemma keeps_serveListing c o d : keeps P (serveListing c r rp p o d).
Proof. unfold serveListing. keep; eauto 6 with gw. Qed.
End Resolved.

Lemma keeps_serveDirectory c rp p d :
  (forall e, e ∈ tags_of r (rp_cid rp) -> tagok e) -> (Mutable p = false -> cacheok) ->
  (Mutable (ipath_Join p "index.html") = false -> cacheok) -> keeps P (serveDirectory c r rp p d).
Proof.
  intros Ht Hc Hi. unfold serveDirectory. keep; eauto using keeps_serveFile, keeps_serveListing, tag_2 with gw.
Qed.

(** The file at the index of a directory is under the same policy. *)
Definition path_cacheok (p : string) : Prop :=
  (Mutable p = false -> cacheok) /\ (Mutable (ipath_Join p "index.html") = false -> cacheok).

Lemma keeps_serveFormat c f ps rp p :
  (forall e, e ∈ tags_of r (rp_cid rp) -> tagok e) -> path_cacheok p -> keeps P (serveFormat c r f ps rp p).
Proof.
  intros Ht [Hc Hi]. unfold serveFormat, serveUnixFS.
  keep; eauto using keeps_serveCodec, keeps_serveRawBlock, keeps_serveCAR, keeps_serveTAR, keeps_serveFile,
    keeps_serveDirectory with gw.
Qed.

Lemma keeps_roots_loop sp segs roots : keeps P (roots_loop sp segs roots).
Proof. revert sp roots. induction segs as [|[|x s] segs IH]; intros sp roots; cbn [roots_loop]; keep; eauto. Qed.

Lemma keeps_serveResolved c f ps rp p : keeps P (addUserHeaders c) ->
  (forall e, e ∈ tags_of r (rp_cid rp) -> tagok e) -> path_cacheok p -> keeps P (serveResolved c r f ps rp p).
Proof.
  intros Hu Ht Hp. unfold serveResolved, handleGettingFirstBlock, setCommonHeaders, buildIpfsRootsHeader.
  keep; eauto using keeps_serveFormat, keeps_roots_loop with gw.
Qed.

(** *** Before the path is resolved *)

Lemma keeps_protocol : keeps P (handleProtocolHandlerRedirect r).
Proof. unfold handleProtocolHandlerRedirect. keep; eauto with gw. Qed.
Lemma keeps_superfluous p : keeps P (handleSuperfluousNamespace r p).
Proof. unfold handleSuperfluousNamespace. keep; eauto with gw. Qed.
Lemma keeps_onlyIfCached p : keeps P (handleOnlyIfCached r p).
Proof. unfold handleOnlyIfCached. keep; eauto with gw. Qed.

Lemma keeps_serve4xx p k : (forall c, tagok (getEtag r c)) -> (Mutable p = false -> cacheok) -> keeps P (serve4xx r p k).
Proof. intros. unfold serve4xx. keep; eauto using keeps_addCacheControl with gw. Qed.

(** The paths a rule may lead to. *)
Definition under_root (contentPath q : string) : Prop :=
  exists to, q = join_with "/" (take 3 (split_on "/" contentPath)) +:+ to.

Lemma keeps_redirects p : (forall q k, under_root p q -> k <> 200 -> keeps P (serve4xx r q k)) ->
  keeps P (serveRedirectsIfPresent r p).
Proof.
  intros H4. unfold serveRedirectsIfPresent, getRedirectsFile, getRedirectRules, handleRedirectsFileRules.
  assert (Hr : forall u rules, keeps P (rules_loop r (join_with "/" (take 3 (split_on "/" p))) u rules)).
  { intros u rules. induction rules as [|rule rules IH]; cbn [rules_loop]; [keep|].
    destruct (MatchAndExpandPlaceholders rule u) as [to|]; [|done].
    destruct (Z.eqb_spec (Status rule) 200) as [|Hne]; keep; eauto with gw.
    all: apply H4; [by eexists|done]. }
  destruct (getRootPath p); keep; eauto with gw.
Qed.

Lemma keeps_legacy404 p : keeps P (serveLegacy404IfPresent r p).
Proof.
  unfold serveLegacy404IfPresent, searchUpTreeFor404.
  assert (Hs : forall i l f, keeps P (search404 i l f)).
  { induction i as [|i IH]; intros; cbn [search404]; keep; eauto. }
  keep; eauto with gw.
Qed.
End KeepServe.

(** ** The path a request ends up with *)

Section Paths.
Context `{HostEnv, GwEnv}.

Lemma bind_Ret_inv {A B} (m : M A) (f : A -> M B) w b w' : (m ≫= f) w = (Ret b, w') ->
  exists a w1, m w = (Ret a, w1) /\ f a w1 = (Ret b, w').
Proof. unfold mbind, M_bind. destruct (m w) as [[a|e] w1]; [|done]. eauto. Qed.

Ltac inv_bind E := apply bind_Ret_inv in E as (? & ? & ? & E).

Lemma rules_rewrite r root u rules w to e w' :
  rules_loop r root u rules w = (Ret (false, to, e), w') -> to = "" \/ exists t, to = root +:+ t.
Proof.
  revert w. induction rules as [|rule rules IH]; intros w; cbn [rules_loop]; [by intros [= <- _ _]; left|].
  destruct (MatchAndExpandPlaceholders rule u) as [t|]; [|apply IH].
  destruct (Status rule =? 200); [intros [= <- _ _]; right; by exists t|].
  destruct (_ || _); [intros E; by inv_bind E|]. destruct (_ && _); [intros E; by inv_bind E|apply IH].
Qed.

Lemma redirects_path r p w rp q w' :
  serveRedirectsIfPresent r p w = (Ret (Some (Some (rp, q))), w') -> under_root p q.
Proof.
  unfold serveRedirectsIfPresent. intros E. inv_bind E. destruct x as [rf|]; [|done]. inv_bind E.
  destruct x as [rules|]; [|by inv_bind E]. inv_bind E. destruct x as [[[] to] [e|]]; try (by inv_bind E); [done|].
  destruct (decide (to <> "")) as [Hto|]; [|done]. inv_bind E.
  destruct x as [rp'|]; [|by inv_bind E]. injection E as _ <- _.
  match goal with Hh : handleRedirectsFileRules _ _ _ _ = _ |- _ => revert Hh end. unfold handleRedirectsFileRules.
  destruct (_ <? _)%nat; [|by intros [= E' _]]. intros [->|[t ->]]%rules_rewrite; [done|]. by exists t.
Qed.

Lemma resolution_path r f p w rp q w' :
  handlePathResolution r f p w = (Ret (Some (rp, q)), w') -> q = p \/ under_root p q.
Proof.
  unfold handlePathResolution. intros E. inv_bind E. destruct x as [rp'|err]; [injection E as _ <- _; by left|].
  assert (Hl : forall w, (served ← serveLegacy404IfPresent r p;
    (if (served : bool) then mret None else webError ("ipfs resolve -r " +:+ debugStr p) (Some err) 400;; mret None : M (option (Resolved * string)))) w
    <> (Ret (Some (rp, q)), w')).
  { intros w1 E'. inv_bind E'. destruct x; [done|]. by inv_bind E'. }
  destruct err; cbv zeta in E; (by inv_bind E) ||
    (destruct (isUnixfsResponseFormat f); [|by inv_bind E]; destruct (hasOriginIsolation r); [|by apply Hl in E];
     inv_bind E; destruct x as [[x|]|]; [injection E as -> ->; right; by eapply redirects_path|done|by apply Hl in E]).
Qed.
End Paths.

Section KeepAll.
Context `{HostEnv, GwEnv} (P : W -> Prop) (tagok : string -> Prop) (cacheok : Prop).
Context (F : frame P tagok cacheok) (r : HTTPRequest) (c : GatewayConfig).
Context (Ht : forall e, tagok e) (Hu : keeps P (addUserHeaders c)).
Context (Hp : forall q, q = URL_Path r \/ under_root (URL_Path r) q -> path_cacheok cacheok q).

Lemma keeps_resolution f : keeps P (handlePathResolution r f (URL_Path r)).
Proof.
  unfold handlePathResolution. keep; eauto using keeps_legacy404 with gw.
  all: apply (keeps_redirects _ _ _ F); intros q k Hq _; apply (keeps_serve4xx _ _ _ F);
    [done|exact (proj1 (Hp q (or_intror Hq)))].
Qed.

Lemma keeps_resolved f ps :
  keeps P (p ← handlePathResolution r f (URL_Path r);
    match p with
    | None => skip
    | Some (rp, q) => if notModified r (rp_cid rp) then WriteHeader 304 else serveResolved c r f ps rp q
    end).
Proof.
  intros w Hw. unfold mbind, M_bind. pose proof (keeps_resolution f w Hw) as Hk.
  destruct (handlePathResolution r f (URL_Path r) w) as [[[[rp q]|]|e] w1] eqn:E; try done.
  destruct (notModified r (rp_cid rp)); [by apply (fr_WriteHeader _ _ _ F)|].
  apply (keeps_serveResolved _ _ _ F); auto. apply Hp. by eapply resolution_path.
Qed.

Lemma keeps_getOrHead : keeps P (getOrHeadHandler c r).
Proof.
  unfold getOrHeadHandler.
  repeat (apply keeps_resolved || keep_step;
          try solve [eauto using keeps_protocol, keeps_superfluous, keeps_onlyIfCached with gw]).
Qed.

Context (Hl : forall n, keeps P (log_write n)).

Lemma keeps_or_fail {A} (m : M (A + gerr)) msg k (f : A -> M unit) :
  keeps P m -> (forall a, keeps P (f a)) -> keeps P (or_fail m msg k f).
Proof. intros. unfold or_fail. keep; eauto with gw. Qed.

Ltac keep_write :=
  repeat lazymatch goal with
  | |- keeps _ (or_fail _ _ _ _) => apply keeps_or_fail; [|intros ?]
  | |- keeps _ (log_write _) => apply Hl
  | |- keeps _ (addUserHeaders _) => apply Hu
  | |- keeps _ (http_Redirect _ _ _) => apply (keeps_http_Redirect _ _ _ F)
  | |- keeps _ (http_Error _ _) => apply (keeps_http_Error _ _ _ F)
  | |- keeps _ (webError _ _ _) => apply (keeps_webError _ _ _ F)
  | |- keeps _ (internalWebError _) => apply (keeps_internalWebError _ _ _ F)
  | |- keeps _ (lift _) => apply keeps_lift
  | _ => keep_step
  end.

Lemma keeps_put_link root p f : keeps P (put_link c r root p f).
Proof.
  unfold put_link. destruct (path_Split p) as [d n].
  keep_write.
Qed.

Lemma keeps_writing : keeps P (postHandler c r) /\ keeps P (putHandler c r) /\ keeps P (deleteHandler c r).
Proof.
  split_and!; [unfold postHandler|unfold putHandler|unfold deleteHandler];
    keep_write; apply keeps_put_link.
Qed.
End KeepAll.

(** ** Predicates with a frame *)

Section Frames.
Context `{GwEnv}.

(** A condition on one header, both as set and as sent. *)
Definition header_is (K : string) (V : option (list string) -> Prop) (w : W) : Prop := V (hdr w !! K) /\ V (sent w !! K).

Lemma header_is_WriteHeader K V c : keeps (header_is K V) (WriteHeader c).
Proof. intros w [H1 H2]. unfold WriteHeader. destruct (status w) eqn:E; by split. Qed.

Lemma send_hdr d w : hdr (send d w).2 = hdr w /\ sent (send d w).2 = sent w /\ status (send d w).2 = status w
  /\ writes (send d w).2 = writes w.
Proof. unfold send. destruct (negb _); [done|]. by destruct (write_fails w) as [|[] fs]. Qed.

Lemma header_is_Write K V d : keeps (header_is K V) (Write d).
Proof.
  intros w [H1 H2]. unfold Write, header_is. set (w' := match status w with None => _ | Some _ => _ end).
  assert (Hw : V (hdr w' !! K) /\ V (sent w' !! K)) by (unfold w'; by destruct (status w)).
  destruct (send_hdr d w') as (E1 & E2 & _). destruct (send d w') as [e w2]. simpl in *. by rewrite E1, E2.
Qed.

Lemma header_is_set K V k v : (k = K -> V (Some [v])) -> keeps (header_is K V) (Set_ k v).
Proof.
  intros Hv w [H1 H2]. split; [|done]. unfold Set_, with_hdr. cbn. destruct (decide (k = K)) as [->|].
  - rewrite lookup_insert_eq. auto.
  - by rewrite lookup_insert_ne.
Qed.

Lemma header_is_del K V k : V None -> keeps (header_is K V) (Del k).
Proof.
  intros Hv w [H1 H2]. split; [|done]. unfold Del, with_hdr. cbn. destruct (decide (k = K)) as [->|].
  - by rewrite lookup_delete_eq.
  - by rewrite lookup_delete_ne.
Qed.

Lemma header_is_user K V c : Headers c !! K = None -> keeps (header_is K V) (addUserHeaders c).
Proof. intros Hc w [H1 H2]. split; [|done]. unfold addUserHeaders, with_hdr. cbn. by rewrite lookup_union_r. Qed.

Lemma header_frame K V (tagok : string -> Prop) (cacheok : Prop) :
  K = "Etag" \/ K = "Cache-Control" -> V None ->
  (K = "Etag" -> forall e, tagok e -> V (Some [e])) -> (K = "Cache-Control" -> cacheok -> forall v, V (Some [v])) ->
  frame (header_is K V) tagok cacheok.
Proof.
  intros HK HN He Hc. split.
  - by intros w s ms [H1 H2].
  - intros k v H1 H2. apply header_is_set. intros ->. by destruct HK.
  - intros k v H1 H2 w [Hh Hs]. split; [|done]. unfold Add_, with_hdr. cbn. rewrite lookup_insert_ne; [done|].
    intros ->. by destruct HK.
  - intros e Ht. apply header_is_set. intros <-. by apply He.
  - intros v Hk. apply header_is_set. intros <-. by apply Hc.
  - intros k _. by apply header_is_del.
  - intros c. apply header_is_WriteHeader.
  - intros d. apply header_is_Write.
Qed.

(** Nothing was added to the node. *)
Definition no_writes (w : W) : Prop := writes w = [].

Lemma no_writes_frame : frame no_writes (fun _ => True) True.
Proof.
  split; unfold keeps, no_writes; try done.
  - intros c w Hw. unfold WriteHeader. by destruct (status w).
  - intros d w Hw. unfold Write. set (w' := match status w with None => _ | Some _ => _ end).
    assert (E : writes w' = []) by (unfold w'; by destruct (status w)).
    destruct (send_hdr d w') as (_ & _ & _ & E4). destruct (send d w') as [e w2]. simpl in *. by rewrite E4.
Qed.
End Frames.

Section Theorems.
Context `{HostEnv, GwEnv}.

(** What holds at the end of the handler holds of the response. *)
Lemma keeps_ServeHTTP P tagok cacheok (F : frame P tagok cacheok) c r w :
  keeps P (dispatch c r) -> P w -> P (ServeHTTP c r w).
Proof.
  intros Hd Hw. unfold ServeHTTP. specialize (Hd w Hw). destruct (status _); [done|]. by apply (fr_WriteHeader _ _ _ F).
Qed.

Lemma under_ipns p q : HasPrefix p "/ipns/" = true -> q = p \/ under_root p q -> HasPrefix q "/ipns/" = true.
Proof.
  intros Hp [->|[to ->]]; [done|]. apply prefix_iff in Hp as [t ->].
  change ("/ipns/" +:+ t) with (String slash ("ipns" +:+ String slash t)).
  change (split_on "/" (String slash ("ipns" +:+ String slash t))) with ("" :: "ipns" :: split_on "/" t).
  destruct (split_on "/" t) as [|x l] eqn:E; [by apply split_on_nonempty in E|]. cbn [take]. rewrite take_0.
  apply prefix_iff. exists (x +:+ to).
  change (join_with "/" [""; "ipns"; x]) with ("/ipns/" +:+ x). apply string_app_assoc.
Qed.

(** C4: whatever the node answers, no response to a request under [/ipns/] (by
    path, by host name or rewritten by a rule of a [_redirects] file) is marked
    immutable for caches, unless the operator configured that header. *)
Theorem mutable_never_immutable (c : GatewayConfig) (r : HTTPRequest) (w : W) :
  HasPrefix (URL_Path r) "/ipns/" = true -> Headers c !! "Cache-Control" = None ->
  hdr w !! "Cache-Control" = None -> sent w !! "Cache-Control" = None ->
  sent (ServeHTTP c r w) !! "Cache-Control" <> Some [immutableCacheControl].
Proof.
  intros Hr Hc H1 H2. set (V := fun x => x <> Some [immutableCacheControl]).
  assert (F : frame (header_is "Cache-Control" V) (fun _ => True) False) by (apply header_frame; auto; done).
  apply (keeps_ServeHTTP _ _ _ F c r w); [|by split; [rewrite H1|rewrite H2]].
  assert (Hu : keeps (header_is "Cache-Control" V) (addUserHeaders c)) by by apply header_is_user.
  assert (Hl : forall n, keeps (header_is "Cache-Control" V) (log_write n)) by by intros n w' [].
  destruct (keeps_writing _ _ _ F r c Hu Hl) as (K1 & K2 & K3).
  assert (K4 : keeps (header_is "Cache-Control" V) (getOrHeadHandler c r)).
  { apply (keeps_getOrHead _ _ _ F); [done|done|]. intros q Hq%(under_ipns _ _ Hr).
    split; intros E; rewrite Mutable_ipns in E; auto using ipath_Join_ipns; done. }
  unfold dispatch, optionsHandler. keep; eauto with gw.
Qed.

(** a gateway that is not writable never adds data to the node, whatever the
    method, the request and the answers of the API. *)
Theorem readonly_never_writes (c : GatewayConfig) (r : HTTPRequest) (w : W) :
  Writable c = false -> writes w = [] -> writes (ServeHTTP c r w) = [].
Proof.
  intros Hc Hw. pose proof no_writes_frame as F. apply (keeps_ServeHTTP _ _ _ F c r w); [|done].
  assert (K4 : keeps no_writes (getOrHeadHandler c r)).
  { apply (keeps_getOrHead _ _ _ F); [done|by intros w'|]. by intros. }
  assert (K5 : keeps no_writes (addUserHeaders c)) by by intros w'.
  unfold dispatch, optionsHandler. rewrite Hc. cbn [andb negb]. keep; eauto with gw.
Qed.

(** a request that a gateway that is not writable does not serve is answered
    with 405 and the list of methods. *)
Theorem readonly_method_refused (c : GatewayConfig) (r : HTTPRequest) (s : St) (fails : list bool) :
  Writable c = false -> Method r ∉ ["GET"; "HEAD"; "OPTIONS"] ->
  let w := ServeHTTP c r (fresh s ∅ fails) in
  status w = Some 405 /\ sent w !! "Allow" = Some ["GET"; "HEAD"; "OPTIONS"].
Proof.
  intros Hc Hm. unfold ServeHTTP, dispatch. rewrite Hc. cbn [andb negb].
  rewrite bool_decide_eq_false_2 by set_solver.
  assert (String.eqb (Method r) "OPTIONS" = false) as -> by (apply String.eqb_neq; set_solver).
  cbn. unfold send. cbn. by destruct fails as [|[] fails].
Qed.
End Theorems.

(** ** Witnesses *)

Local Existing Instance demo_host.
Local Existing Instance demo_gw.

Definition demo_config : GatewayConfig := MkGwConfig ∅ false 100.

Lemma mutable_never_immutable_witness :
  status (ServeHTTP demo_config (demo_get "/ipns/site") (fresh demo_state ∅ [])) = Some 200 /\
  sent (ServeHTTP demo_config (demo_get "/ipns/site") (fresh demo_state ∅ [])) !! "Cache-Control" <> Some [immutableCacheControl].
Proof. split; [reflexivity|]. by apply (mutable_never_immutable demo_config (demo_get "/ipns/site")). Defined.

Lemma readonly_never_writes_witness :
  writes (ServeHTTP demo_config (demo_get "/ipfs/bafk") (fresh demo_state ∅ [])) = [].
Proof. by apply (readonly_never_writes demo_config (demo_get "/ipfs/bafk")). Defined.

Lemma readonly_method_refused_witness :
  let r := MkHTTP (demo_get "/ipfs/bafk") "PUT" "" ∅ "" [] in
  status (ServeHTTP demo_config r (fresh demo_state ∅ [])) = Some 405.
Proof.
  apply (readonly_method_refused demo_config (MkHTTP (demo_get "/ipfs/bafk") "PUT" "" ∅ "" []) demo_state []); [done|].
  cbn. set_solver.
Defined.
