(* ===== verification/GatewayCache.v ===== *)
(** Conditional requests to the gateway: a client that sends back the tag of a
    response is told that nothing changed. *)
From Stdlib Require Import ZArith Lia Ascii String.
From stdpp Require Import base list strings gmap.
From S2P Require Import Prelude GoStrings GoPath ConfigTypes GC Hostname Etag GwWriter Gateway GatewaySafety.

Local Open Scope Z_scope.

(** ** Formats are made of characters that may stand in a tag *)

Lemma all_chars_app p a b : all_chars p (a +:+ b) = all_chars p a && all_chars p b.
Proof. induction a as [|x a IH]; [done|]. rewrite string_app_cons. simpl. by rewrite IH, andb_assoc. Qed.

Lemma all_chars_split p sep s : all_chars p s = true -> Forall (fun x => all_chars p x = true) (split_on sep s).
Proof.
  induction s as [|c s IH]; intros Hs; simpl in *; [by repeat constructor|]. apply andb_true_iff in Hs as [Hc Hs].
  specialize (IH Hs). destruct (Ascii.eqb c sep); [by constructor|].
  destruct (split_on sep s) as [|y l]; constructor; simpl; rewrite ?Hc; try done; by apply Forall_cons in IH as [].
Qed.

Lemma last_elem {A} (l : list A) d (P : A -> Prop) : P d -> Forall P l -> P (List.last l d).
Proof. intros Hd Hl. induction Hl as [|x l Hx Hl IH]; [done|]. by destruct l. Qed.

Lemma last_part_chars p s : all_chars p s = true -> all_chars p (last_part s) = true.
Proof.
  intros Hs. unfold last_part. apply (last_elem _ _ (fun x => all_chars p x = true)); [done|].
  apply all_chars_split. apply (last_elem _ _ (fun x => all_chars p x = true)); [done|]. by apply all_chars_split.
Qed.

Lemma token_etag c : isTokenChar c = true -> etag_char c = true.
Proof. destruct c as [[] [] [] [] [] [] [] []]; by vm_compute. Qed.

Lemma consumeToken_spec s a b : consumeToken s = (a, b) -> s = a +:+ b /\ all_chars etag_char a = true.
Proof.
  revert a b. induction s as [|c s IH]; intros a b; simpl; [by intros [= <- <-]|].
  destruct (isTokenChar c) eqn:E; [|by intros [= <- <-]].
  destruct (consumeToken s) as [a' b']. intros [= <- <-]. destruct (IH _ _ eq_refl) as [-> Ha].
  split; [done|]. simpl. by rewrite token_etag.
Qed.

Lemma media_type_chars s : checkMediaTypeDisposition s = None -> all_chars etag_char s = true.
Proof.
  unfold checkMediaTypeDisposition. destruct (consumeToken s) as [t rest] eqn:E1.
  destruct (consumeToken_spec _ _ _ E1) as [-> Ht]. case_decide; [done|]. rewrite all_chars_app, Ht.
  destruct rest as [|c rest]; [done|]. destruct (Ascii.eqb_spec c "/") as [->|]; [|done].
  destruct (consumeToken rest) as [u rest'] eqn:E2. destruct (consumeToken_spec _ _ _ E2) as [-> Hu].
  cbn [negb]. case_decide; [done|]. case_decide as Hr; [|done]. subst rest'. intros _. cbn [all_chars].
  by rewrite string_app_nil, Hu.
Qed.

Section Cache.
Context `{HostEnv, GwEnv}.

Lemma accept_chars l f ps : accept_format l = inl (f, ps) -> all_chars etag_char f = true.
Proof.
  induction l as [|a l IH]; simpl; [by intros [= <- _]|]. case_match; [|done]. unfold ParseMediaType.
  destruct (checkMediaTypeDisposition _) eqn:E; [done|]. case_match; [|done]. intros [= <- _].
  by apply media_type_chars.
Qed.

Lemma format_chars r f ps : customResponseFormat r = inl (f, ps) -> all_chars etag_char f = true.
Proof.
  unfold customResponseFormat, format_param. repeat case_decide; try (by intros [= <- _]). apply accept_chars.
Qed.

(** The tags as the specification prints them. *)
Lemma getEtag_tag r c : exists t, tag_ok (false, t) = true /\ getEtag r c = print_tag (false, t) /\
  "W/" +:+ getEtag r c = print_tag (true, t).
Proof.
  unfold getEtag, format_etag. eexists. split; [|split; reflexivity].
  unfold tag_ok. cbn [snd]. rewrite all_chars_app, cid_String_chars. cbn [andb].
  destruct (customResponseFormat r) as [[f ps]|] eqn:E; case_decide; try done.
  rewrite all_chars_app, last_part_chars; [done|]. by eapply format_chars.
Qed.

Lemma getDirListingEtag_tag c : exists t, tag_ok (false, t) = true /\ getDirListingEtag c = print_tag (false, t).
Proof.
  exists ("DirIndex-" +:+ AssetHash +:+ "_CID-" +:+ cid_String c). split; [|reflexivity]. unfold tag_ok. cbn [snd].
  by rewrite !all_chars_app, AssetHash_chars, cid_String_chars.
Qed.

Lemma print_tag_weak w w' t : etagWeakMatch (print_tag (w, t)) (print_tag (w', t)) = true.
Proof.
  assert (E : forall b, TrimPrefix (print_tag (b, t)) "W/" = quoted t).
  { intros []; [apply TrimPrefix_app|done]. }
  unfold etagWeakMatch. rewrite !E. apply String.eqb_refl.
Qed.

Lemma tag_revalidates r c e : e ∈ tags_of r c -> e <> getDagIndexEtag c ->
  e <> "" /\ etagMatch e (getEtag r c) (getDirListingEtag c) = true.
Proof.
  intros He Hd. destruct (getEtag_tag r c) as (t & Ht & E1 & E2). destruct (getDirListingEtag_tag c) as (u & Hu & E3).
  assert (Hm : forall b x y, tag_ok (b, x) = true -> tag_matches (getEtag r c) (b, x) || tag_matches (getDirListingEtag c) (b, x) = true ->
    y = print_tag (b, x) -> y <> "" /\ etagMatch y (getEtag r c) (getDirListingEtag c) = true).
  { intros b x y Hx Hmt ->. split; [by destruct b|].
    rewrite <- (string_app_nil (print_tag (b, x))), etagMatch_tag by done. by rewrite Hmt. }
  unfold tags_of in He. rewrite !elem_of_cons in He. destruct He as [-> | [-> | [-> | [-> | He]]]];
    [| | |done|by apply not_elem_of_nil in He].
  - apply (Hm false t); [done| |done]. unfold tag_matches. by rewrite E1, print_tag_weak.
  - apply (Hm true t); [done| |done]. unfold tag_matches. by rewrite E1, print_tag_weak.
  - apply (Hm false u); [done| |done]. unfold tag_matches. by rewrite E3, print_tag_weak, orb_true_r.
Qed.

(** ** The request with a condition *)

Definition with_header (k v : string) (r : HTTPRequest) : HTTPRequest :=
  MkHTTP (req r) (Method r) (RequestURI r) (<[k := [v]]> (Header r)) (Body r) (Ctx r).

Section Same.
Context (e : string) (r : HTTPRequest).
Let r' : HTTPRequest := with_header "If-None-Match" e r.

Lemma same_values k : k <> "If-None-Match" -> Header_Values r' k = Header_Values r k.
Proof. intros Hk. unfold Header_Values. cbn. by rewrite lookup_insert_ne. Qed.

Lemma same_get k : k <> "If-None-Match" -> Header_Get r' k = Header_Get r k.
Proof. intros Hk. unfold Header_Get. by rewrite same_values. Qed.

Lemma same_format : customResponseFormat r' = customResponseFormat r.
Proof. unfold customResponseFormat. by rewrite same_values. Qed.

Lemma same_etag : getEtag r' = getEtag r.
Proof. unfold getEtag. by rewrite same_format. Qed.

Lemma same_rules root u rules : rules_loop r' root u rules = rules_loop r root u rules.
Proof.
  induction rules as [|rule rules IH]; [done|]. cbn [rules_loop]. rewrite IH.
  unfold serve4xx, addCacheControlHeaders. by rewrite same_etag.
Qed.

Lemma bind_ext {A B} (m : M A) (f g : A -> M B) w : (forall a w, f a w = g a w) -> (m ≫= f) w = (m ≫= g) w.
Proof. intros E. unfold mbind, M_bind. destruct (m w) as [[a|m'] w']; [apply E|done]. Qed.

Lemma bind_ext_l {A B} (m n : M A) (f : A -> M B) w : m w = n w -> (m ≫= f) w = (n ≫= f) w.
Proof. intros E. unfold mbind, M_bind. by rewrite E. Qed.

Lemma same_redirects p w : serveRedirectsIfPresent r' p w = serveRedirectsIfPresent r p w.
Proof.
  apply bind_ext. intros [rf|] w1; [|done]. apply bind_ext. intros [rules|] w2; [|done]. apply bind_ext_l.
  unfold handleRedirectsFileRules. cbv zeta. destruct (_ <? _)%nat; [|done]. by rewrite same_rules.
Qed.

Lemma same_legacy p : serveLegacy404IfPresent r' p = serveLegacy404IfPresent r p.
Proof. unfold serveLegacy404IfPresent, searchUpTreeFor404. by rewrite same_values. Qed.

Lemma same_resolution f p w : handlePathResolution r' f p w = handlePathResolution r f p w.
Proof.
  apply bind_ext. intros [rp|err] w1; [done|]. rewrite same_legacy. change (hasOriginIsolation r') with (hasOriginIsolation r).
  destruct err; try done; destruct (isUnixfsResponseFormat f); try done; destruct (hasOriginIsolation r); try done;
    apply bind_ext_l, same_redirects.
Qed.

Lemma same_cached p : handleOnlyIfCached r' p = handleOnlyIfCached r p.
Proof. unfold handleOnlyIfCached. by rewrite same_get. Qed.
End Same.

(** ** The part of the handler before the condition *)

(** Up to the resolution of the path; [None] when the request was answered. *)
Definition front (r : HTTPRequest) : M (option (string * gmap string string * Resolved * string)) :=
  match handleUnsupportedHeaders r with
  | Some e => webRequestError e;; mret None
  | None =>
      handled ← handleProtocolHandlerRedirect r;
      if (handled : bool) then mret None else
      match handleServiceWorkerRegistration r with
      | Some e => webRequestError e;; mret None
      | None =>
          handled ← handleOnlyIfCached r (URL_Path r);
          if (handled : bool) then mret None else
          handled ← handleSuperfluousNamespace r (URL_Path r);
          if (handled : bool) then mret None else
          match customResponseFormat r with
          | inr e => webError "error while processing the Accept header" (Some e) 400;; mret None
          | inl (f, ps) =>
              p ← handlePathResolution r f (URL_Path r);
              mret (match p with Some (rp, q) => Some (f, ps, rp, q) | None => None end)
          end
      end
  end.

Definition back (c : GatewayConfig) (r : HTTPRequest) (x : option (string * gmap string string * Resolved * string)) : M unit :=
  match x with
  | None => skip
  | Some (f, ps, rp, q) =>
      if notModified r (rp_cid rp) then WriteHeader 304 else serveResolved c r f ps rp q
  end.

Lemma gw_bind_run {A B} (m : M A) (f : A -> M B) w :
  (m ≫= f) w = match m w with (Ret a, w1) => f a w1 | (Panic e, w1) => (Panic e, w1) end.
Proof. done. Qed.

Lemma webError_unit m e k w : exists w', webError m e k w = (Ret tt, w').
Proof.
  unfold webError, webErrorWithCode, http_Error, mbind, M_bind, Write. cbn -[send].
  match goal with |- context [send ?a ?b] => destruct (send a b) end. by eexists.
Qed.

Lemma getOrHead_front c r w : getOrHeadHandler c r w = (front r ≫= back c r) w.
Proof.
  unfold getOrHeadHandler, front. destruct (handleUnsupportedHeaders r) as [e|].
  { rewrite !gw_bind_run. destruct (webError_unit (re_Message e) (re_Err e) (re_StatusCode e) w) as [w' E].
    unfold webRequestError. by rewrite E. }
  rewrite !gw_bind_run. destruct (handleProtocolHandlerRedirect r w) as [[[]|] w1]; [done| |done].
  destruct (handleServiceWorkerRegistration r) as [e|].
  { rewrite !gw_bind_run. destruct (webError_unit (re_Message e) (re_Err e) (re_StatusCode e) w1) as [w' E].
    unfold webRequestError. by rewrite E. }
  rewrite !gw_bind_run. destruct (handleOnlyIfCached r (URL_Path r) w1) as [[[]|] w2]; [done| |done].
  rewrite !gw_bind_run. destruct (handleSuperfluousNamespace r (URL_Path r) w2) as [[[]|] w3]; [done| |done].
  destruct (customResponseFormat r) as [[f ps]|e].
  - rewrite !gw_bind_run. by destruct (handlePathResolution r f (URL_Path r) w3) as [[[[rp q]|]|] w4].
  - rewrite !gw_bind_run. destruct (webError_unit "error while processing the Accept header" (Some e) 400 w3) as [w' E].
    by rewrite E.
Qed.

Lemma front_same e r w : front (with_header "If-None-Match" e r) w = front r w.
Proof.
  unfold front. unfold handleUnsupportedHeaders. rewrite same_get by done.
  destruct (decide (Header_Get r "X-Ipfs-Gateway-Prefix" <> "")); [done|]. apply bind_ext. intros [] w1; [done|].
  unfold handleServiceWorkerRegistration. rewrite same_get by done. change (URL_Path (with_header _ e r)) with (URL_Path r).
  destruct (_ && _); [done|]. rewrite same_cached. apply bind_ext. intros [] w2; [done|].
  apply bind_ext. intros [] w3; [done|]. rewrite same_format. destruct (customResponseFormat r) as [[f ps]|]; [|done].
  apply bind_ext_l, same_resolution.
Qed.

(** *** It is silent when it lets the request through *)

Definition silent (w w' : W) : Prop := status w' = status w /\ hdr w' = hdr w /\ sent w' = sent w.

Lemma silent_trans a b d : silent a b -> silent b d -> silent a d.
Proof. intros (? & ? & ?) (? & ? & ?). repeat split; congruence. Qed.

Lemma silent_call {A} (f : St -> A * St) w a w' : call f w = (a, w') -> silent w w'.
Proof. unfold call. destruct (f (api w)). by intros [= _ <-]. Qed.

Lemma silent_rules r root u rules w to e w' :
  rules_loop r root u rules w = (Ret (false, to, e), w') -> w' = w.
Proof.
  revert w. induction rules as [|rule rules IH]; intros w; cbn [rules_loop]; [by intros [= _ _ <-]|].
  destruct (MatchAndExpandPlaceholders rule u) as [t|]; [|apply IH].
  destruct (Status rule =? 200); [by intros [= _ _ <-]|].
  destruct (_ || _); [intros (? & ? & ? & E)%bind_Ret_inv; done|].
  destruct (_ && _); [intros (? & ? & ? & E)%bind_Ret_inv; done|apply IH].
Qed.

Lemma silent_redirects r p w x w' : serveRedirectsIfPresent r p w = (Ret (Some (Some x)), w') -> silent w w'.
Proof.
  unfold serveRedirectsIfPresent. intros (rf & w1 & E1 & E)%bind_Ret_inv.
  assert (S1 : silent w w1).
  { revert E1. unfold getRedirectsFile. destruct (getRootPath p) as [q|]; [|done].
    intros (a & w0 & E0 & [= _ <-])%bind_Ret_inv. by eapply silent_call. }
  destruct rf as [rf|]; [|done]. apply bind_Ret_inv in E as (rules & w2 & E2 & E).
  assert (S2 : silent w1 w2).
  { revert E2. unfold getRedirectRules. intros (a & w0 & E0 & [= _ <-])%bind_Ret_inv. by eapply silent_call. }
  destruct rules as [rules|]; [|by apply bind_Ret_inv in E as (? & ? & ? & E)].
  apply bind_Ret_inv in E as ([[[] to] [e|]] & w3 & E3 & E); try (by apply bind_Ret_inv in E as (? & ? & ? & E)); [done|].
  destruct (decide (to <> "")) as [Hto|]; [|done]. apply bind_Ret_inv in E as (rp & w4 & E4 & E).
  destruct rp; [|by apply bind_Ret_inv in E as (? & ? & ? & E)]. injection E as _ <-.
  assert (w3 = w2) as ->.
  { revert E3. unfold handleRedirectsFileRules. cbv zeta. destruct (_ <? _)%nat; [apply silent_rules|by intros [= _ <-]]. }
  eapply silent_trans; [done|]. eapply silent_trans; [done|]. by eapply silent_call.
Qed.

Lemma silent_resolution r f p w x w' : handlePathResolution r f p w = (Ret (Some x), w') -> silent w w'.
Proof.
  unfold handlePathResolution. intros (y & w1 & E1 & E)%bind_Ret_inv. apply silent_call in E1.
  destruct y as [rp'|err]; [by injection E as _ <-|].
  assert (Hl : forall w, (served ← serveLegacy404IfPresent r p;
    (if (served : bool) then mret None else webError ("ipfs resolve -r " +:+ debugStr p) (Some err) 400;; mret None : M (option (Resolved * string)))) w
    <> (Ret (Some x), w')).
  { intros w2 (sv & ? & ? & E')%bind_Ret_inv. destruct sv; [done|]. by apply bind_Ret_inv in E' as (? & ? & ? & E'). }
  destruct err; cbv zeta in E; (by apply bind_Ret_inv in E as (? & ? & ? & E)) ||
    (destruct (isUnixfsResponseFormat f); [|by apply bind_Ret_inv in E as (? & ? & ? & E)];
     destruct (hasOriginIsolation r); [|by apply Hl in E];
     apply bind_Ret_inv in E as ([[z|]|] & w2 & E2 & E); [|done|by apply Hl in E];
     injection E as -> ->; eapply silent_trans; [done|by eapply silent_redirects]).
Qed.

Lemma silent_front r w x w' : front r w = (Ret (Some x), w') -> silent w w'.
Proof.
  unfold front. destruct (handleUnsupportedHeaders r); [by intros (? & ? & ? & E)%bind_Ret_inv|].
  intros (h1 & w1 & E1 & E)%bind_Ret_inv. destruct h1; [done|].
  assert (w1 = w) as ->.
  { revert E1. unfold handleProtocolHandlerRedirect. cbv zeta. case_decide; [by intros [= <-]|].
    destruct (url_Parse _); [case_decide|]; by intros (? & ? & ? & E')%bind_Ret_inv. }
  destruct (handleServiceWorkerRegistration r); [by apply bind_Ret_inv in E as (? & ? & ? & E)|].
  apply bind_Ret_inv in E as (h2 & w2 & E2 & E). destruct h2; [done|].
  assert (S2 : silent w w2).
  { revert E2. unfold handleOnlyIfCached. destruct (String.eqb _ _); [|by intros [= <-]].
    intros (se & w3 & E3 & E')%bind_Ret_inv. apply silent_call in E3.
    destruct se, (String.eqb _ _); try (by apply bind_Ret_inv in E' as (? & ? & ? & E')). by injection E' as <-. }
  apply bind_Ret_inv in E as (h3 & w3 & E3 & E). destruct h3; [done|].
  assert (w3 = w2) as ->.
  { revert E3. unfold handleSuperfluousNamespace. cbv zeta. case_decide; [by intros [= <-]|].
    destruct (negb _); [by intros [= <-]|]. destruct (IsValid (TrimPrefix (URL_Path r) "/ipfs")); [by intros (? & ? & ? & E')%bind_Ret_inv|].
    intros (? & ? & ? & E')%bind_Ret_inv. destruct (redirect_Execute _ _ _).
    apply bind_Ret_inv in E' as (? & ? & ? & E'). by apply bind_Ret_inv in E' as (? & ? & ? & E'). }
  destruct (customResponseFormat r) as [[f ps]|]; [|by apply bind_Ret_inv in E as (? & ? & ? & E)].
  apply bind_Ret_inv in E as (p & w4 & E4 & E). destruct p as [[rp q]|]; [|done]. injection E as _ <-.
  eapply silent_trans; [done|]. by eapply silent_resolution.
Qed.

(** *** What it answers itself carries no tag, unless it is an error page *)

Definition untagged (w : W) : Prop :=
  match status w with
  | None => hdr w !! "Etag" = None
  | Some k => k <> 200 \/ sent w !! "Etag" = None
  end.

Lemma untagged_status w k : untagged w -> untagged (WriteHeader k w).2.
Proof. unfold untagged, WriteHeader. destruct (status w) eqn:E; cbn; rewrite ?E; auto. Qed.

Lemma untagged_final w : untagged w -> untagged (match status w with Some _ => w | None => (WriteHeader 200 w).2 end).
Proof. intros Hw. destruct (status w) eqn:E; [done|by apply untagged_status]. Qed.

Lemma untagged_hdr w g : untagged w -> g (hdr w) !! "Etag" = hdr w !! "Etag" -> untagged (set_hdr (g (hdr w)) w).
Proof. unfold untagged. cbn. intros Hw E. destruct (status w); [done|]. by rewrite E. Qed.

Lemma untagged_frame : frame untagged (fun _ => False) True.
Proof.
  split; try done.
  - intros k v H1 H2 w Hw. apply untagged_hdr; [done|]. by rewrite lookup_insert_ne.
  - intros k v H1 H2 w Hw. apply (untagged_hdr w (fun h => <[k := default [] (h !! k) ++ [v]]> h)); [done|].
    by rewrite lookup_insert_ne.
  - intros v _ w Hw. apply untagged_hdr; [done|]. by rewrite lookup_insert_ne.
  - intros k Hk w Hw. apply (untagged_hdr w (delete k)); [done|]. by rewrite lookup_delete_ne.
  - intros k w Hw. by apply untagged_status.
  - intros d w Hw. unfold Write. set (w' := match status w with None => _ | Some _ => _ end).
    assert (Hw' : untagged w') by (unfold untagged, w' in *; destruct (status w) eqn:E; cbn; rewrite ?E; auto).
    destruct (send_hdr d w') as (E1 & E2 & E3 & _). destruct (send d w') as [e w2]. simpl in *.
    unfold untagged in *. by rewrite E1, E2, E3.
Qed.

Lemma untagged_serve4xx r q k : k <> 200 -> keeps untagged (serve4xx r q k).
Proof.
  intros Hk. pose proof untagged_frame as F. unfold serve4xx.
  apply keeps_bind; [keep|]. intros [rp|]; [|keep]. apply keeps_bind; [keep|]. intros [[f| |]|]; [|keep..].
  destruct (f_Size f) as [size|]; [|keep]. apply keeps_bind; [keep|]. intros _. apply keeps_bind; [keep|]. intros _.
  intros w Hw.
  assert (Hm : exists mt w1, addCacheControlHeaders r q (rp_cid rp) w = (Ret mt, w1) /\ status w1 = status w /\ sent w1 = sent w).
  { unfold addCacheControlHeaders. destruct (Mutable q); by eexists _, _. }
  destruct Hm as (mt & w1 & E & Es & Et). rewrite gw_bind_run, E. cbn [snd]. rewrite gw_bind_run.
  apply (keeps_CopyN _ _ _ F). unfold WriteHeader, untagged in *. cbn [fst snd]. rewrite Es.
  destruct (status w) eqn:E2; cbn [status]; [by rewrite Et|auto].
Qed.

Lemma untagged_front r : keeps untagged (front r).
Proof.
  pose proof untagged_frame as F. unfold front, handlePathResolution.
  assert (Hr : forall p, keeps untagged (serveRedirectsIfPresent r p)).
  { intros p. apply (keeps_redirects _ _ _ F). intros. by apply untagged_serve4xx. }
  keep; eauto using keeps_protocol, keeps_superfluous, keeps_onlyIfCached, keeps_legacy404 with gw.
Qed.

(** ** Theorem *)

Lemma dispatch_read c r : Method r ∈ ["GET"; "HEAD"] -> dispatch c r = getOrHeadHandler c r.
Proof.
  intros Hm. unfold dispatch. rewrite bool_decide_eq_true_2 by done.
  rewrite !elem_of_cons in Hm. destruct Hm as [-> | [-> | Hm]]; [| |by apply not_elem_of_nil in Hm];
    by destruct (Writable c).
Qed.

(** What the last part sends is tagged for the resolved CID. *)
Lemma back_tags c r f ps rp q w t : Headers c !! "Etag" = None -> hdr w !! "Etag" = None -> sent w !! "Etag" = None ->
  let w1 := (serveResolved c r f ps rp q w).2 in
  sent w1 !! "Etag" = Some [t] \/ hdr w1 !! "Etag" = Some [t] -> t ∈ tags_of r (rp_cid rp).
Proof.
  intros Hc H1 H2. set (V := fun x => forall t, x = Some [t] -> t ∈ tags_of r (rp_cid rp)).
  assert (F : frame (header_is "Etag" V) (fun e => e ∈ tags_of r (rp_cid rp)) True).
  { apply header_frame; [by left|by intros ?| |done]. intros _ e He t' [= <-]. done. }
  assert (HK : keeps (header_is "Etag" V) (serveResolved c r f ps rp q)).
  { apply (keeps_serveResolved _ _ _ F); auto; [by apply header_is_user|by split]. }
  destruct (HK w) as [K1 K2]; [by split; [rewrite H1|rewrite H2]; intros ?|].
  intros w1 [E|E]; [by apply K2|by apply K1].
Qed.

(** C3: when a GET or HEAD request is answered 200 with a tag, the same request
    with the tag as its [If-None-Match] is answered 304, for files, directories,
    raw blocks, CAR and TAR streams and IPLD data alike.  Only the HTML view of
    IPLD data, whose tag is not looked at, is excepted. *)
Theorem conditional_roundtrip (c : GatewayConfig) (r : HTTPRequest) (s : St) (h : gmap string (list string))
    (fails : list bool) (e : string) :
  Method r ∈ ["GET"; "HEAD"] -> Header_Get r "If-None-Match" = "" ->
  Headers c !! "Etag" = None -> h !! "Etag" = None ->
  status (ServeHTTP c r (fresh s h fails)) = Some 200 ->
  sent (ServeHTTP c r (fresh s h fails)) !! "Etag" = Some [e] -> (forall k, e <> getDagIndexEtag k) ->
  status (ServeHTTP c (with_header "If-None-Match" e r) (fresh s h fails)) = Some 304.
Proof.
  intros Hm Hi Hc Hh. unfold ServeHTTP. rewrite !dispatch_read by done. rewrite !getOrHead_front, !gw_bind_run, front_same.
  pose proof (untagged_front r (fresh s h fails) Hh) as Hu.
  assert (Hno : forall w, untagged w -> status w = Some 200 -> sent w !! "Etag" = Some [e] -> False).
  { unfold untagged. intros w Hw E1 E2. rewrite E1 in Hw. destruct Hw; congruence. }
  destruct (front r (fresh s h fails)) as [[[[[[f ps] rp] q]|]|m] w1] eqn:E; cbn [back snd].
  2,3: intros E1 E2 _; exfalso; revert E1 E2; apply Hno; exact (untagged_final w1 Hu).
  apply silent_front in E as (S1 & S2 & S3). cbn in S1, S2, S3.
  assert (notModified r (rp_cid rp) = false) as -> by (unfold notModified; by rewrite Hi). intros _ He Hd.
  assert (Hin : e ∈ tags_of r (rp_cid rp)).
  { eapply (back_tags c r f ps rp q w1); [done|by rewrite S2|by rewrite S3|].
    destruct (status (serveResolved c r f ps rp q w1).2) eqn:Es; [by left|right].
    unfold WriteHeader in He. by rewrite Es in He. }
  destruct (tag_revalidates r (rp_cid rp) e Hin (Hd _)) as [Hne Hma].
  assert (notModified (with_header "If-None-Match" e r) (rp_cid rp) = true) as ->.
  { unfold notModified. assert (Header_Get (with_header "If-None-Match" e r) "If-None-Match" = e) as ->.
    { unfold Header_Get, Header_Values. cbn [with_header Header]. by rewrite lookup_insert_eq. }
    apply String.eqb_neq in Hne. by rewrite same_etag, Hma, Hne. }
  unfold WriteHeader. rewrite S1. cbn. done.
Qed.
End Cache.

(** ** Witness *)

Local Existing Instance demo_host.
Local Existing Instance demo_gw.

Lemma conditional_roundtrip_witness :
  status (ServeHTTP demo_config (with_header "If-None-Match" (quoted "bafk") (demo_get "/ipfs/bafk"))
            (fresh demo_state ∅ [])) = Some 304.
Proof.
  apply (conditional_roundtrip demo_config (demo_get "/ipfs/bafk") demo_state ∅ [] (quoted "bafk"));
    try reflexivity; [cbn; set_solver|]. intros k. discriminate.
Defined.
