(* ===== verification/GatewayReplies.v ===== *)
(** Particular replies of the gateway: the redirect of path requests to
    subdomains, isolation of origins, rules of [_redirects] files, names of
    downloads, access control, and some replies that are not what the source
    means. *)
From Stdlib Require Import ZArith Lia Ascii String.
From stdpp Require Import base list strings gmap sorting.
From S2P Require Import Prelude GoStrings GoPath ConfigTypes GC Hostname Etag GwWriter Gateway GatewaySafety GatewayCache.

Local Open Scope Z_scope.

Section Replies.
Context `{HostEnv, GwEnv}.

(** ** Redirects of path requests *)

(** The first status that [http.ServeContent] asks for, and that it asks for it
    before it writes or touches the location. *)
Fixpoint first_status (ops : list wop) : option Z :=
  match ops with
  | OpWriteHeader k :: _ => Some k
  | OpSet k _ :: ops | OpDel k :: ops => if String.eqb k "Location" then None else first_status ops
  | _ => None
  end.

(** A status that was written stays. *)
Lemma status_frame j : frame (fun w => status w = Some j) (fun _ => True) True.
Proof.
  split; unfold keeps; try done.
  - intros k w Hw. unfold WriteHeader. by rewrite Hw.
  - intros d w Hw. unfold Write. rewrite Hw. destruct (send_hdr d w) as (_ & _ & E & _). destruct (send d w). cbn in *. congruence.
Qed.

Lemma run_ops_status ops ew w k u :
  (forall op, op ∈ ops -> match op with OpSet k _ | OpDel k => k <> "Etag" /\ k <> "Cache-Control" | _ => True end) ->
  first_status ops = Some k -> status w = None -> hdr w !! "Location" = Some [u] -> u <> "" ->
  status (run_ops statusResponseWriter_WriteHeader ops ew w).2 = Some (if k =? 200 then 301 else k).
Proof.
  intros Ho Hk Hs Hu Hne. revert w Hs Hu. induction ops as [|op ops IH]; intros w Hs Hu; [done|].
  assert (Ho' : forall op, op ∈ ops -> match op with OpSet k _ | OpDel k => k <> "Etag" /\ k <> "Cache-Control" | _ => True end).
  { intros op' Hop. apply Ho. by apply list_elem_of_further. }
  destruct op as [x v|x|j|d|d e]; try done; cbn [first_status] in Hk.
  - destruct (String.eqb_spec x "Location") as [|Hne']; [done|]. cbn [run_ops]. rewrite gw_bind_run. cbn [Set_ with_hdr].
    apply IH; [done|done|done|]. cbn. by rewrite lookup_insert_ne.
  - destruct (String.eqb_spec x "Location") as [|Hne']; [done|]. cbn [run_ops]. rewrite gw_bind_run. cbn [Del with_hdr].
    apply IH; [done|done|done|]. cbn. by rewrite lookup_delete_ne.
  - injection Hk as ->. cbn [run_ops]. rewrite gw_bind_run. unfold ew_WriteHeader. rewrite gw_bind_run.
    unfold statusResponseWriter_WriteHeader, Get. rewrite gw_bind_run, Hu. cbn [default head]. unfold WriteHeader at 1. rewrite Hs.
    apply (keeps_run_ops _ _ _ (status_frame _)); [|done|].
    + intros k'. apply (keeps_status_WriteHeader _ _ _ (status_frame _)).
    + cbn. destruct (Z.eqb_spec k 200); [by rewrite decide_True|by rewrite decide_False by (intros []; done)].
Qed.

(** Nothing was written and the location is set. *)
Definition located (u : string) (w : W) : Prop := status w = None /\ hdr w !! "Location" = Some [u].

Lemma located_set u k v : k <> "Location" -> keeps (located u) (Set_ k v).
Proof. intros Hk w [H1 H2]. split; [done|]. cbn. by rewrite lookup_insert_ne. Qed.

Lemma located_call {A} u (f : St -> A * St) : keeps (located u) (call f).
Proof. intros w Hw. unfold call. by destruct (f (api w)). Qed.

Lemma located_before u r p c q : keeps (located u) (addCacheControlHeaders r p c) /\
  keeps (located u) (addContentDispositionHeader r q).
Proof.
  split; [unfold addCacheControlHeaders; destruct (Mutable p)|unfold addContentDispositionHeader, setContentDispositionHeader; case_decide];
    repeat (first [apply keeps_ret | apply keeps_bind; [|intros ?] | by apply located_set]).
Qed.

Lemma located_ctype u f n : keeps (located u) (file_ctype f n).
Proof.
  unfold file_ctype. cbv zeta. destruct (f_isSymlink f); [apply keeps_ret|]. case_decide; [apply keeps_ret|].
  apply keeps_bind; [apply located_call|]. intros ?. apply keeps_ret.
Qed.

(** A computation that does not panic, run first. *)
Lemma run_first {A B} (m : M A) (g : A -> M B) P (Q : W -> Prop) w :
  keeps P m -> (forall e w', m w <> (Panic e, w')) -> P w -> (forall a w', P w' -> m w = (Ret a, w') -> Q (g a w').2) ->
  Q ((m ≫= g) w).2.
Proof.
  intros Hm Hp Hw Hg. rewrite gw_bind_run. specialize (Hm w Hw). destruct (m w) as [[a|e] w'] eqn:E; [by apply Hg|].
  by destruct (Hp e w').
Qed.

(** a file requested by path from a gateway that uses subdomains, for which
    the host-name handler has set the location, is answered with its content and
    status 301: what [http.ServeContent] reports as 200 becomes 301, and any
    other status stays. *)
Theorem path_request_redirected (r : HTTPRequest) (rp : Resolved) (p u : string) (f : file) (size : Z) (w : W) (k : Z) :
  status w = None -> hdr w !! "Location" = Some [u] -> u <> "" -> f_Size f = inl size -> size <> 0 ->
  (forall s, exists t, (mimetype_Detect (LazySeeker f) s).1 = inl t) ->
  (forall h n m s, first_status (http_ServeContent r h n m (LazySeeker f) s).1 = Some k) ->
  status (serveFile r rp p f w).2 = Some (if k =? 200 then 301 else k).
Proof.
  intros Hs Hl Hu Hf Hz Hd Hk. unfold serveFile. destruct (located_before u r p (rp_cid rp) p) as [L1 L2].
  apply (run_first _ _ (located u) (fun w => status w = _)); [done| |done|].
  { unfold addCacheControlHeaders. by destruct (Mutable p). }
  intros mt w1 Hw1 _. apply (run_first _ _ (located u) (fun w => status w = _)); [done| |done|].
  { unfold addContentDispositionHeader. cbv zeta. by case_decide. }
  intros name w2 Hw2 _. rewrite Hf. destruct (Z.eqb_spec size 0) as [|_]; [done|].
  apply (run_first _ _ (located u) (fun w => status w = _)); [apply located_ctype| |done|].
  { unfold file_ctype. cbv zeta. destruct (f_isSymlink f); [done|]. case_decide; [done|].
    rewrite gw_bind_run. unfold call. by destruct (mimetype_Detect _ _). }
  intros ct w3 Hw3 Ect.
  assert (exists t, ct = inl t) as [t ->].
  { revert Ect. unfold file_ctype. cbv zeta. destruct (f_isSymlink f); [intros [= <- _]; eauto|].
    case_decide; [intros [= <- _]; eauto|]. rewrite gw_bind_run. unfold call. destruct (Hd (api w2)) as [t Ht].
    destruct (mimetype_Detect (LazySeeker f) (api w2)) as [x s']. cbn in *. subst x. intros [= <- _]. eauto. }
  apply (run_first _ _ (located u) (fun w => status w = _)); [by apply located_set|done|done|].
  intros _ w4 [H41 H42] _. rewrite gw_bind_run. unfold ServeContent. rewrite gw_bind_run. cbn [headers]. rewrite gw_bind_run.
  unfold call. pose proof (Hk (hdr w4) name mt (api w4)) as Hfirst.
  pose proof (ServeContent_headers r (hdr w4) name mt (LazySeeker f) (api w4)) as Hh.
  destruct (http_ServeContent r (hdr w4) name mt (LazySeeker f) (api w4)) as [ops s']. cbn [fst] in *. rewrite gw_bind_run.
  set (w5 := MkW _ _ _ _ _ _ _ _ _).
  pose proof (run_ops_status ops (MkEw 0 None) w5 k u Hh Hfirst H41 H42 Hu) as Hst.
  destruct (run_ops statusResponseWriter_WriteHeader ops (MkEw 0 None) w5) as [[ew|e] w6]; cbn in Hst; [|done].
  cbn. by destruct (_ && _).
Qed.

(** an empty file is answered 200 although the location is set: clients are
    not sent to the subdomain. *)
Theorem empty_file_not_redirected (r : HTTPRequest) (rp : Resolved) (p u : string) (f : file) (w : W) :
  status w = None -> hdr w !! "Location" = Some [u] -> f_Size f = inl 0 ->
  status (serveFile r rp p f w).2 = Some 200 /\ sent (serveFile r rp p f w).2 !! "Location" = Some [u].
Proof.
  intros Hs Hl Hf. unfold serveFile. destruct (located_before u r p (rp_cid rp) p) as [L1 L2].
  apply (run_first _ _ (located u) (fun w => status w = _ /\ sent w !! _ = _)); [done| |done|].
  { unfold addCacheControlHeaders. by destruct (Mutable p). }
  intros mt w1 Hw1 _. apply (run_first _ _ (located u) (fun w => status w = _ /\ sent w !! _ = _)); [done| |done|].
  { unfold addContentDispositionHeader. cbv zeta. by case_decide. }
  intros name w2 [H1 H2] _. rewrite Hf. cbn [Z.eqb]. rewrite gw_bind_run. cbn [Set_ with_hdr]. unfold WriteHeader, set_hdr. cbn [status].
  rewrite H1. cbn. by rewrite lookup_insert_ne.
Qed.

(** a file under an immutable path whose size is not known is answered 502
    with a cache policy that lets caches keep the error for a year. *)
Theorem size_error_cached (r : HTTPRequest) (rp : Resolved) (p : string) (f : file) (e : gerr) (s : St) (h : gmap string (list string)) (fails : list bool) :
  Mutable p = false -> f_Size f = inr e ->
  let w := (serveFile r rp p f (fresh s h fails)).2 in
  status w = Some 502 /\ sent w !! "Cache-Control" = Some [immutableCacheControl].
Proof.
  intros Hm Hf. unfold serveFile, addCacheControlHeaders, addContentDispositionHeader, setContentDispositionHeader. rewrite Hm, Hf.
  cbv zeta. unfold http_Error, mbind, M_bind, Write, WriteHeader, send.
  destruct (decide (Query r "filename" <> "")); destruct fails as [|[] fails]; split; try reflexivity;
    cbn -[insert lookup]; by rewrite !lookup_insert_ne, lookup_insert_eq by done.
Qed.

(** ** Isolation of origins *)

Lemma prefix_longer a b : a <> "" -> a +:+ b <> b.
Proof.
  intros Ha E. apply (f_equal String.length) in E. rewrite string_app_length in E. destruct a; [done|]. simpl in E. lia.
Qed.

Lemma isolation_handed_on p g d r : Ctx r = [] -> hasOriginIsolation (handed_on p g d r) = bool_decide (is_Some g).
Proof.
  intros Hr. unfold hasOriginIsolation, handed_on, withHostnameContext, with_path, Ctx_Value.
  destruct g, d; cbn [Ctx]; rewrite Hr; done.
Qed.

Lemma serve_known_root gw host inline r p l g d :
  serve_known gw host inline r = Serve p l g d -> is_Some g <-> p <> URL_Path r.
Proof.
  unfold serve_known. destruct (hasPrefix _ _).
  - destruct (UseSubdomains gw); [destruct (toSubdomainURL _ _ _ _)|]; try done; intros [= <- _ <- _]; split; try done; by intros [].
  - destruct (_ && _); [|done]. intros [= <- _ <- _]. split; [intros _|done]. rewrite <- string_app_assoc. by apply prefix_longer.
Qed.

Lemma serve_subdomain_root gw h ns id inline r p l g d :
  serve_subdomain gw h ns id inline r = Serve p l g d -> is_Some g /\ p <> URL_Path r.
Proof.
  unfold serve_subdomain. destruct (negb _); [done|]. destruct (cid_Decode id) as [c|].
  - destruct (canonical_redirect _ _ _ _ _ _) as [x|] eqn:E.
    + intros ->. exfalso. revert E. unfold canonical_redirect. cbv zeta. destruct (toDNSLabel id c) as [dns|]; [|done].
      repeat (case_match; try done).
    + intros [= <- _ <- _]. split; [done|]. rewrite <- !string_app_assoc. by apply prefix_longer.
  - intros [= <- _ <- _]. split; [done|]. apply prefix_longer. unfold dnslink_prefix. by case_match.
Qed.

(** C23: the gateway treats a request as isolated in its own origin, and so reads
    [_redirects] files for it, exactly when the host-name handler took the content
    root from the host name (a subdomain or a DNSLink name); a content root in
    the path never gives isolation. *)
Theorem isolation_iff_root_from_host (known : gatewayHosts) (nd : bool) (r : HTTPRequest) (p l : string) (g d : option string) :
  Ctx r = [] -> HostnameOption known nd r = Ret (Serve p l g d) ->
  hasOriginIsolation (handed_on p g d r) = true <-> p <> URL_Path r.
Proof.
  intros Hr. rewrite isolation_handed_on by done. rewrite bool_decide_eq_true. unfold HostnameOption. cbv zeta.
  destruct (isKnownHostname _ known) as [[gw|]|]; [| |done].
  - destruct (_ && _); [destruct (Flag_WithDefault _ _); [|done]|]; intros [= E]; by eapply serve_known_root.
  - destruct (knownSubdomainDetails _ known) as [[[[[gw h] ns] id]|]|]; [| |done].
    + destruct (Flag_WithDefault _ _); [|done]. intros [= E]. apply serve_subdomain_root in E as [E1 E2]. by split.
    + destruct (_ && _); intros [= <- _ <- _].
      * split; [intros _|done]. rewrite <- string_app_assoc. by apply prefix_longer.
      * split; [by intros []|done].
Qed.

(** ** Rules *)

(** A rule that matches and has a status the gateway knows. *)
Definition rule_target (u : string) (rule : Rule) : option string :=
  if (Status rule =? 200) || (Status rule =? 404) || (Status rule =? 410) || (Status rule =? 451)
     || ((301 <=? Status rule) && (Status rule <=? 308))
  then MatchAndExpandPlaceholders rule u else None.

(** What one rule does. *)
Definition apply_rule (r : HTTPRequest) (root to : string) (k : Z) : M (bool * string * option gerr) :=
  if k =? 200 then mret (false, root +:+ to, None)
  else if k <? 400 then http_Redirect r to k;; mret (true, "", None)
  else e ← serve4xx r (root +:+ to) k; mret (true, root +:+ to, e).

Fixpoint first_rule (u : string) (rules : list Rule) : option (Rule * string) :=
  match rules with
  | [] => None
  | rule :: rules => match rule_target u rule with Some to => Some (rule, to) | None => first_rule u rules end
  end.

(** the rules of a [_redirects] file are applied in order: the first rule that
    matches the path and has a known status decides, with its expanded target,
    and without one the request is left as it was. *)
Theorem redirect_rules_first_match (r : HTTPRequest) (root u : string) (rules : list Rule) (w : W) :
  rules_loop r root u rules w =
  match first_rule u rules with
  | Some (rule, to) => apply_rule r root to (Status rule) w
  | None => (Ret (false, "", None), w)
  end.
Proof.
  induction rules as [|rule rules IH]; [done|]. cbn [rules_loop first_rule]. unfold rule_target.
  destruct (MatchAndExpandPlaceholders rule u) as [to|]; [|by destruct (_ || _)].
  destruct (Z.eqb_spec (Status rule) 200) as [E|N1]; [cbn; unfold apply_rule; by rewrite E|].
  destruct (Z.eqb_spec (Status rule) 404) as [E|N2]; [cbn; unfold apply_rule; by rewrite E|].
  destruct (Z.eqb_spec (Status rule) 410) as [E|N3]; [cbn; unfold apply_rule; by rewrite E|].
  destruct (Z.eqb_spec (Status rule) 451) as [E|N4]; [cbn; unfold apply_rule; by rewrite E|]. cbn [orb]. unfold apply_rule.
  destruct (_ && _) eqn:E; [|exact IH]. apply andb_true_iff in E as [E1 E2].
  assert ((Status rule =? 200) = false) as -> by lia.
  assert ((Status rule <? 400) = true) as -> by lia. done.
Qed.

(** ** Names of downloads *)

Definition printable (c : ascii) : bool := let n := N_of_ascii c in ((32 <=? n) && (n <=? 126))%N.

Lemma str_all_impl (p q : ascii -> bool) s : (forall c, p c = true -> q c = true) -> str_all p s = true -> str_all q s = true.
Proof.
  intros Hpq. induction s as [|c s IH]; [done|]. cbn. intros [Hc Hs]%andb_true_iff. by rewrite (Hpq c Hc), IH.
Qed.

Lemma header_printable c : header_char c = true -> printable c = true.
Proof. destruct c as [[] [] [] [] [] [] [] []]; by vm_compute. Qed.

(** whatever name a client asks for with [?filename=], the
    [Content-Disposition] header has only printable ASCII characters and exactly
    the two quotes around the name: the name cannot end the parameter or the
    header. *)
Theorem disposition_header_safe (filename disposition : string) :
  disposition = "inline" \/ disposition = "attachment" ->
  str_all printable (disposition_value filename disposition) = true /\
  count_char dquote (disposition_value filename disposition) = 2%nat.
Proof.
  intros Hd. assert (Hs : str_all printable disposition = true /\ count_char dquote disposition = 0%nat) by by destruct Hd as [-> | ->].
  destruct Hs as [Hs1 Hs2]. unfold disposition_value. cbv zeta. rewrite !str_all_app, !count_char_app, Hs1, Hs2.
  rewrite !(header_char_no_quote _ (PathEscape_safe _)).
  by rewrite !(str_all_impl _ _ _ header_printable (PathEscape_safe _)).
Qed.

(** ** Writing *)

Definition hash_header : string := "Ipfs-Hash".

(** Nothing written yet, and no hash announced. *)
Definition unsent (w : W) : Prop := status w = None /\ hdr w !! hash_header = None /\ sent w !! hash_header = None.

(** The reply is a success that announces a hash, or an error that does not. *)
Definition replied (w : W) : Prop :=
  (status w = Some 201 /\ is_Some (sent w !! hash_header)) \/
  (exists k, status w = Some k /\ 400 <= k /\ sent w !! hash_header = None).

Definition replies (m : M unit) : Prop := forall w, unsent w -> replied (m w).2.

Lemma Write_kept d w k : status w = Some k -> status (Write d w).2 = Some k /\ sent (Write d w).2 = sent w.
Proof.
  intros Hs. unfold Write. rewrite Hs. destruct (send_hdr d w) as (_ & E2 & E3 & _). destruct (send d w) as [e w'].
  cbn in *. split; congruence.
Qed.

Lemma http_Error_run m k w : status w = None ->
  let w' := (http_Error m k w).2 in
  status w' = Some k /\
  sent w' = <["X-Content-Type-Options" := ["nosniff"]]> (<["Content-Type" := ["text/plain; charset=utf-8"]]> (hdr w)).
Proof.
  intros Hs. unfold http_Error, mbind, M_bind, WriteHeader. cbn -[insert Write]. rewrite Hs.
  match goal with |- context [Write ?d ?w2] => destruct (Write_kept d w2 k eq_refl) as [E1 E2]; destruct (Write d w2) as [[e|] w3] end;
    cbn -[insert] in *; by rewrite E1, E2.
Qed.

Lemma replies_http_Error m k : 400 <= k -> replies (http_Error m k).
Proof.
  intros Hk w (H1 & H2 & H3). right. exists k. destruct (http_Error_run m k w H1) as [E1 E2].
  rewrite E1, E2, !lookup_insert_ne by done. done.
Qed.

Lemma replies_webError m e k : 400 <= k -> replies (webError m e k).
Proof. intros Hk. apply replies_http_Error. destruct e as [[]|]; cbn; lia. Qed.

Lemma replies_call {A} (f : St -> A * St) (g : A -> M unit) : (forall a, replies (g a)) -> replies (call f ≫= g).
Proof. intros Hg w (H1 & H2 & H3). rewrite gw_bind_run. unfold call. destruct (f (api w)) as [a s']. by apply Hg. Qed.

Lemma replies_log n (m : M unit) : replies m -> replies (log_write n;; m).
Proof. intros Hm w Hw. rewrite gw_bind_run. by apply Hm. Qed.

Lemma replies_or_fail {A} (f : St -> (A + gerr) * St) msg k (g : A -> M unit) :
  400 <= k -> (forall a, replies (g a)) -> replies (or_fail (call f) msg k g).
Proof. intros Hk Hg. apply replies_call. intros [a|e]; [apply Hg|by apply replies_webError]. Qed.

Lemma replies_success c r h u : Headers c !! hash_header = None ->
  replies (addUserHeaders c;; Set_ "Ipfs-Hash" h;; http_Redirect r u 201).
Proof.
  intros Hc w (H1 & H2 & H3). left.
  assert (Hst : forall w, status w = None -> is_Some (hdr w !! hash_header) ->
    status (http_Redirect r u 201 w).2 = Some 201 /\ is_Some (sent (http_Redirect r u 201 w).2 !! hash_header)).
  { intros w1 Hs Hh. unfold http_Redirect, mbind, M_bind, WriteHeader. cbn -[insert lookup Write redirect_location bool_decide String.eqb].
    assert (Hw : forall d w2, status w2 = Some 201 -> is_Some (sent w2 !! hash_header) ->
      status (match Write d w2 with (Ret _, w3) => skip w3 | (Panic e, w3) => (Panic e, w3) end).2 = Some 201 /\
      is_Some (sent (match Write d w2 with (Ret _, w3) => skip w3 | (Panic e, w3) => (Panic e, w3) end).2 !! hash_header)).
    { intros d w2 Hs2 Hh2. destruct (Write_kept d w2 201 Hs2) as [E1 E2]. destruct (Write d w2) as [[x|] w3];
        cbn -[lookup] in *; by rewrite E1, E2. }
    destruct (negb _ && bool_decide (Method r ∈ _)); cbn -[insert lookup Write redirect_location String.eqb]; rewrite Hs;
      (destruct (negb _ && String.eqb _ _); [apply Hw; [done|]|split; [done|]]); cbn -[insert lookup];
      by rewrite !lookup_insert_ne by done. }
  rewrite !gw_bind_run. apply Hst; [done|]. cbn -[insert lookup union]. rewrite lookup_insert_eq. eauto.
Qed.

Lemma replies_put_link c r root p f : Headers c !! hash_header = None -> replies (put_link c r root p f).
Proof.
  intros Hc. unfold put_link. destruct (path_Split p) as [d n].
  assert (Hk : forall root, replies (or_fail (call (mfs_Lookup root d)) "WritableGateway: failed to lookup directory" 500 (fun isDir =>
    if negb isDir then http_Error "WritableGateway: target directory is not a directory" 400
    else
      unlinked ← call (mfs_Unlink root d n);
      match (match unlinked with inl root => inl root | inr OsNotExist => inl root | inr e => inr e end) with
      | inr e => webError "WritableGateway: failed to replace existing file" (Some e) 400
      | inl root =>
          or_fail (call (mfs_AddChild root d n f)) "WritableGateway: failed to link file into directory" 500 (fun root =>
          or_fail (call (mfs_GetNode root)) "WritableGateway: failed to finalize" 500 (fun newcid =>
            addUserHeaders c;;
            Set_ "Ipfs-Hash" (cid_String newcid);;
            http_Redirect r (path_Join [ipfsPathPrefix; cid_String newcid; p]) 201))
      end))).
  { intros root'. apply replies_or_fail; [lia|]. intros []; [|by apply replies_http_Error]. apply replies_call. intros x.
    destruct (match x with inl root => inl root | inr OsNotExist => inl root' | inr e => inr e end); [|by apply replies_webError].
    apply replies_or_fail; [lia|]. intros ?. apply replies_or_fail; [lia|]. intros ?. by apply replies_success. }
  case_decide; [apply replies_or_fail; [lia|done]|]. intros w Hw. by apply Hk.
Qed.

(** A panic leaves nothing written. *)
Lemma replies_parsed (o : outcome ((cid * string) + gerr)) (k : cid -> string -> M unit) w :
  unsent w -> (forall c p, replies (k c p)) ->
  let w' := ((lift o ≫= fun parsed => match parsed with
     | inr e => webError "WritableGateway: failed to parse the path" (Some e) 400
     | inl (rootCid, newPath) => k rootCid newPath
     end) w).2 in replied w' \/ unsent w'.
Proof.
  intros Hw Hk. rewrite gw_bind_run. destruct o as [[[c p]|e]|m]; cbn [lift].
  - left. by apply Hk.
  - left. by apply replies_webError.
  - by right.
Qed.

Lemma replies_put c r rootCid newPath : Headers c !! hash_header = None ->
  replies (if empty_path newPath then http_Error "WritableGateway: empty path" 400
      else
        or_fail (call (Dag_Get rootCid)) "WritableGateway: Could not create DAG from request" 500 (fun rnode =>
        if negb (isProtoNode rnode)
        then webError "Cannot read non protobuf nodes through gateway" (Some NotProtobuf) 400
        else
          log_write "Unixfs().Add";;
          or_fail (call (Unixfs_Add (Body r))) "WritableGateway: could not create DAG from request" 500 (fun newFilePath =>
          or_fail (call (Dag_Get (rp_cid newFilePath))) "WritableGateway: failed to resolve new file" 500 (fun newFile =>
          log_write "mfs.NewRoot";;
          or_fail (call (mfs_NewRoot rnode)) "WritableGateway: failed to create MFS root" 400 (fun root =>
            put_link c r root newPath newFile))))).
Proof.
  intros Hc. destruct (empty_path newPath); [by apply replies_http_Error|]. apply replies_or_fail; [lia|]. intros n.
  destruct (negb _); [by apply replies_webError|]. apply replies_log. do 2 (apply replies_or_fail; [lia|]; intros ?).
  apply replies_log. apply replies_or_fail; [lia|]. intros ?. by apply replies_put_link.
Qed.

Lemma replies_delete c r rootCid newPath : Headers c !! hash_header = None ->
  replies (if empty_path newPath then http_Error "WritableGateway: empty path" 400
      else
        let (directory, filename) := path_Split newPath in
        or_fail (call (Dag_Get rootCid)) "WritableGateway: failed to resolve root CID" 500 (fun rootNode =>
        if negb (isProtoNode rootNode) then http_Error "WritableGateway: empty path" 500
        else
          log_write "mfs.NewRoot";;
          or_fail (call (mfs_NewRoot rootNode)) "WritableGateway: failed to construct the MFS root" 400 (fun root =>
          or_fail (call (mfs_Lookup root directory)) "WritableGateway: failed to look up parent" 500 (fun isDir =>
          if negb isDir then http_Error "WritableGateway: parent is not a directory" 500
          else
            unlinked ← call (mfs_Unlink root directory filename);
            match (match unlinked with inl root => Some root | inr OsNotExist => Some root | inr _ => None end) with
            | None => webError "WritableGateway: failed to remove file" None 500
            | Some root =>
                or_fail (call (mfs_GetNode root)) "WritableGateway: failed to finalize" 500 (fun ncid =>
                  addUserHeaders c;;
                  Set_ "Ipfs-Hash" (cid_String ncid);;
                  http_Redirect r (path_Join [ipfsPathPrefix +:+ cid_String ncid; directory]) 201)
            end)))).
Proof.
  intros Hc. destruct (empty_path newPath); [by apply replies_http_Error|]. destruct (path_Split newPath) as [d n].
  apply replies_or_fail; [lia|]. intros nd. destruct (negb _); [by apply replies_http_Error|]. apply replies_log.
  do 2 (apply replies_or_fail; [lia|]; intros ?). destruct (negb _); [by apply replies_http_Error|].
  apply replies_call. intros x. destruct (match x with inl root => Some root | inr OsNotExist => Some _ | inr _ => None end);
    [|by apply replies_webError]. apply replies_or_fail; [lia|]. intros ?. by apply replies_success.
Qed.

Lemma writing_replied c r w : Method r ∈ ["POST"; "PUT"; "DELETE"] -> Writable c = true -> Headers c !! hash_header = None ->
  unsent w -> replied (dispatch c r w).2 \/ unsent (dispatch c r w).2.
Proof.
  intros Hm Hwr Hc Hw. unfold dispatch. rewrite Hwr. rewrite !elem_of_cons in Hm.
  destruct Hm as [-> | [-> | [-> | Hm]]]; [| | |by apply not_elem_of_nil in Hm]; cbn [String.eqb Ascii.eqb andb eqb].
  - left. revert w Hw. apply (replies_log "Unixfs().Add"), replies_call. intros [p|e]; [by apply replies_success|by apply replies_http_Error].
  - apply (replies_parsed _ (fun rootCid newPath => _)); [done|]. intros. by apply replies_put.
  - apply (replies_parsed _ (fun rootCid newPath => _)); [done|]. intros. by apply replies_delete.
Qed.

(** a writable gateway answers POST, PUT and DELETE with 201 exactly when it
    announces the hash of a new root; every failure, of the path, the node or MFS,
    is reported without one. *)
Theorem write_reply_exact (c : GatewayConfig) (r : HTTPRequest) (s : St) (h : gmap string (list string)) (fails : list bool) :
  Method r ∈ ["POST"; "PUT"; "DELETE"] -> Writable c = true -> Headers c !! hash_header = None -> h !! hash_header = None ->
  let w := ServeHTTP c r (fresh s h fails) in
  status w = Some 201 <-> is_Some (sent w !! hash_header).
Proof.
  intros Hm Hwr Hc Hh. unfold ServeHTTP.
  assert (Hus : unsent (fresh s h fails)) by by split.
  destruct (writing_replied c r _ Hm Hwr Hc Hus) as [[[E1 E2]|(k & E1 & E2 & E3)]|(E1 & E2 & E3)]; cbv zeta.
  - rewrite E1. by split.
  - rewrite E1, E3. split; [intros E4; rewrite E1 in E4; injection E4; lia|by intros []].
  - generalize dependent (dispatch c r (fresh s h fails)).2. intros w E1 E2 E3. rewrite E1. unfold WriteHeader. rewrite E1.
    cbn -[lookup]. rewrite E2. split; [done|by intros []].
Qed.

(** ** Accepted types *)

Lemma trim_right_app_cons p a c b : p c = false -> exists b', trim_right p (a +:+ String c b) = a +:+ String c b'.
Proof.
  intros Hc. induction a as [|x a [b' IH]].
  - exists (trim_right p b). by apply trim_right_cons.
  - exists b'. rewrite !string_app_cons. cbn [trim_right]. rewrite IH. by destruct a.
Qed.

Lemma ToLower_app a b : ToLower (a +:+ b) = ToLower a +:+ ToLower b.
Proof. induction a as [|x a IH]; [done|]. rewrite !string_app_cons. cbn [ToLower]. by rewrite IH. Qed.

Lemma split_head_app a b : has_char ";" a = false -> exists b', head (split_on ";" (a +:+ b)) = Some (a +:+ b').
Proof.
  induction a as [|x a IH]; intros Ha.
  - change ("" +:+ b) with b. destruct (split_on ";" b) as [|y l] eqn:E; [by apply split_on_nonempty in E|]. by exists y.
  - cbn [has_char] in Ha. apply orb_false_iff in Ha as [Hx Ha]. destruct (IH Ha) as [b' E]. exists b'.
    rewrite string_app_cons. cbn [split_on]. rewrite Hx. destruct (split_on ";" (a +:+ b)); [done|].
    cbn in E. injection E as ->. done.
Qed.

(** a request that accepts JSON first and other types after it in one header
    line, as browsers' HTTP clients do, is refused with an error of the media
    type parser, although JSON is a format the gateway has. *)
Theorem accept_list_refused (r : HTTPRequest) (rest : string) :
  format_param (Query r "format") = None -> Header_Values r "Accept" = ["application/json," +:+ rest] ->
  customResponseFormat r = inr (Plain "mime: unexpected content after media subtype").
Proof.
  intros Hf Ha. unfold customResponseFormat. rewrite Hf, Ha. cbn [accept_format].
  assert (HasPrefix ("application/json," +:+ rest) "application/json" = true) as ->.
  { apply (prefix_app "application/json" ("," +:+ rest)). }
  rewrite orb_true_r. cbn [orb]. unfold ParseMediaType.
  destruct (split_head_app "application/json," rest eq_refl) as [b ->].
  change (default "" (Some ?x)) with x. rewrite ToLower_app.
  unfold TrimSpace. change (trim_left is_space (ToLower "application/json," +:+ ToLower b)) with ("application/json" +:+ String "," (ToLower b)).
  destruct (trim_right_app_cons is_space "application/json" "," (ToLower b) eq_refl) as [b' ->]. done.
Qed.
End Replies.

(** ** Access control *)

Lemma string_le_trans : Transitive string_le.
Proof. intros a b c. apply string_leb_trans. Qed.
Lemma string_le_total : Total string_le.
Proof. intros a b. unfold string_le. destruct (String.leb_total a b); auto. Qed.

(** [cleanHeaderSet] gives the canonical names of its arguments, each once and
    in order, so that the result does not depend on the iteration of the map. *)
Theorem clean_header_set_exact (headers : list string) :
  StronglySorted string_le (cleanHeaderSet headers) /\ NoDup (cleanHeaderSet headers) /\
  forall x, x ∈ cleanHeaderSet headers <-> exists y, y ∈ headers /\ x = CanonicalHeaderKey y.
Proof.
  unfold cleanHeaderSet. pose proof string_le_trans. pose proof string_le_total. split_and!.
  - by apply StronglySorted_merge_sort.
  - rewrite merge_sort_Permutation. apply NoDup_elements.
  - intros x. rewrite merge_sort_Permutation, elem_of_elements, elem_of_list_to_set, list_elem_of_fmap. naive_solver.
Qed.

(** ** Witnesses *)

Local Existing Instance demo_host.
Local Existing Instance demo_gw.

Definition demo_located : W := fresh demo_state {[ "Location" := ["http://bafk.ipfs.localhost/"] ]} [].
Definition demo_resolved : Resolved := MkResolved demo_cid "/ipfs/bafk" "".

Lemma path_request_redirected_witness :
  status (serveFile (demo_get "/ipfs/bafk") demo_resolved "/ipfs/bafk" demo_file demo_located).2 = Some 301.
Proof.
  apply (path_request_redirected (demo_get "/ipfs/bafk") demo_resolved "/ipfs/bafk" "http://bafk.ipfs.localhost/" demo_file 5
           demo_located 200); try reflexivity; try done. intros s. by eexists.
Defined.

Lemma empty_file_not_redirected_witness :
  status (serveFile (demo_get "/ipfs/bafk") demo_resolved "/ipfs/bafk" (MkFile (inl 0) false "" None) demo_located).2 = Some 200.
Proof.
  apply (empty_file_not_redirected (demo_get "/ipfs/bafk") demo_resolved "/ipfs/bafk" "http://bafk.ipfs.localhost/"
           (MkFile (inl 0) false "" None) demo_located); reflexivity.
Defined.

Lemma size_error_cached_witness :
  status (serveFile (demo_get "/ipfs/bafk") demo_resolved "/ipfs/bafk" (MkFile (inr Offline) false "" None)
            (fresh demo_state ∅ [])).2 = Some 502.
Proof.
  apply (size_error_cached (demo_get "/ipfs/bafk") demo_resolved "/ipfs/bafk" (MkFile (inr Offline) false "" None) Offline
           demo_state ∅ []); reflexivity.
Defined.

(** The request of [Hostname]'s example, as the gateway sees it. *)
Definition demo_sub : HTTPRequest := MkHTTP sub_request "GET" "/a/b" ∅ "" [].

Lemma isolation_iff_root_from_host_witness :
  hasOriginIsolation (handed_on "/ipfs/dabc/a/b" (Some "dweb.link") None demo_sub) = true.
Proof.
  by apply (isolation_iff_root_from_host demo_known false demo_sub "/ipfs/dabc/a/b" "" (Some "dweb.link") None).
Defined.

Lemma disposition_header_safe_witness : count_char dquote (disposition_value "a b.txt" "inline") = 2%nat.
Proof. apply (disposition_header_safe "a b.txt" "inline"). by left. Defined.

Lemma write_reply_exact_witness :
  let c := MkGwConfig ∅ true 100 in let r := MkHTTP (demo_get "/ipfs/bafk") "POST" "" ∅ "data" [] in
  status (ServeHTTP c r (fresh demo_state ∅ [])) = Some 500 /\
  (status (ServeHTTP c r (fresh demo_state ∅ [])) = Some 201
   <-> is_Some (sent (ServeHTTP c r (fresh demo_state ∅ [])) !! hash_header)).
Proof.
  split; [reflexivity|].
  apply (write_reply_exact (MkGwConfig ∅ true 100) (MkHTTP (demo_get "/ipfs/bafk") "POST" "" ∅ "data" []) demo_state ∅ []);
    try done. cbn. set_solver.
Defined.

Lemma accept_list_refused_witness :
  customResponseFormat (MkHTTP (demo_get "/ipfs/bafk") "GET" "" {[ "Accept" := ["application/json, text/plain, */*"] ]} "" [])
  = inr (Plain "mime: unexpected content after media subtype").
Proof.
  by apply (accept_list_refused
    (MkHTTP (demo_get "/ipfs/bafk") "GET" "" {[ "Accept" := ["application/json, text/plain, */*"] ]} "" []) " text/plain, */*").
Defined.
