(* ===== verification/PluginLoader.v ===== *)
(** The plugin loader: [plugin/loader/loader.go], with the interfaces of
    [plugin/] and [config/plugins.go].

    A plugin is what its methods return and which of the optional interfaces it
    has.  The loader's effects on plugins are a list of events; datastore plugins
    go into the registry of [Datastores].  The iteration over the map of plugins is
    a list of its entries in any order, an argument of the operations.  Runs of a
    loader are the relation [lstep]. *)
From Stdlib Require Import ZArith Lia Ascii String.
From stdpp Require Import base list strings gmap sets relations.
From S2P Require Import Prelude GoStrings GoPath ConfigMap Datastores.

(** ** Data *)

(** The parsers of datastore specs, and the table of them. *)
Abbreviation handler := (object -> outcome (result DatastoreConfig)).
Abbreviation registry := (list (string * handler)).

Inductive loaderState :=
| loaderLoading | loaderInitializing | loaderInitialized | loaderInjecting | loaderInjected
| loaderStarting | loaderStarted | loaderClosing | loaderClosed | loaderFailed.

#[export] Instance loaderState_eq_dec : EqDecision loaderState.
Proof. solve_decision. Defined.

Definition loaderState_String (ls : loaderState) : string :=
  match ls with
  | loaderLoading => "Loading"
  | loaderInitializing => "Initializing"
  | loaderInitialized => "Initialized"
  | loaderInjecting => "Injecting"
  | loaderInjected => "Injected"
  | loaderStarting => "Starting"
  | loaderStarted => "Started"
  | loaderClosing => "Closing"
  | loaderClosed => "Closed"
  | loaderFailed => "Failed"
  end.

(** Optional interfaces are [None] when the plugin does not have them, and
    otherwise what the method returns. *)
Record Plugin := MkPlugin {
  pl_Name : string;
  pl_Version : string;
  pl_Init : option error;
  pl_IPLD : option (option error);
  pl_Tracer : option (option error);
  pl_Datastore : option (string * handler);
  pl_Fx : bool;
  pl_Daemon : option (option error);
  pl_DaemonInternal : option (option error);
  pl_Closer : option (option error);
}.

(** [config.Plugin] *)
Record PluginConfig := MkPluginConfig { Disabled : bool; pc_Config : json }.

Record PluginLoader := MkLoader {
  ld_state : loaderState;
  plugins : gmap string Plugin;
  started : list Plugin;
  ld_config : gmap string PluginConfig;
  ld_repo : string;
}.

Inductive event :=
| EInit (name repo : string) (config : json)
| EIPLD (name : string)
| ETracer (name : string)
| EFx (name : string)
| EStart (name : string)
| EClose (name : string).

(** The loader, the datastore registry and what was done to the plugins, the
    latest last. *)
Record world := MkWorld { ld : PluginLoader; reg : registry; events : list event }.

Definition op : Type := world -> option error * world.

Definition set_state (s : loaderState) (w : world) : world :=
  MkWorld (MkLoader s (plugins (ld w)) (started (ld w)) (ld_config (ld w)) (ld_repo (ld w))) (reg w) (events w).
Definition emit (e : event) (w : world) : world := MkWorld (ld w) (reg w) (events w ++ [e]).
Definition set_started (l : list Plugin) (w : world) : world :=
  MkWorld (MkLoader (ld_state (ld w)) (plugins (ld w)) l (ld_config (ld w)) (ld_repo (ld w))) (reg w) (events w).

(** ** Operations *)

Definition assertState (s : loaderState) (w : world) : option error :=
  if decide (ld_state (ld w) = s) then None
  else Some ("loader state must be " +:+ loaderState_String s +:+ ", was " +:+ loaderState_String (ld_state (ld w))).

Definition transition (from to : loaderState) : op := fun w =>
  match assertState from w with Some e => (Some e, w) | None => (None, set_state to w) end.

(** Missing entries of the configuration are zero values. *)
Definition plugin_config (name : string) (l : PluginLoader) : PluginConfig :=
  default (MkPluginConfig false JNull) (ld_config l !! name).

Definition Load_plugin (pl : Plugin) : op := fun w =>
  match assertState loaderLoading w with
  | Some e => (Some e, w)
  | None =>
      let l := ld w in
      match plugins l !! pl_Name pl with
      | Some ppl => (Some ("plugin: " +:+ pl_Name pl +:+ ", is duplicated in version: " +:+ pl_Version ppl
                           +:+ ", while trying to load dynamically: " +:+ pl_Version pl), w)
      | None =>
          if Disabled (plugin_config (pl_Name pl) l) then (None, w)
          else (None, MkWorld (MkLoader (ld_state l) (<[pl_Name pl := pl]> (plugins l)) (started l) (ld_config l) (ld_repo l))
                        (reg w) (events w))
      end
  end.

Fixpoint load_all (pls : list Plugin) : op := fun w =>
  match pls with
  | [] => (None, w)
  | pl :: pls => match Load_plugin pl w with (Some e, w) => (Some e, w) | (None, w) => load_all pls w end
  end.

(** What [filepath.Walk] visits: the path, the error it passes, whether it is a
    directory, the permission bits, and what loading the file gives. *)
Record walked := MkWalked {
  fi : string; walk_err : option error; IsDir : bool; Perm : Z; loadPluginFunc : result (list Plugin) }.

Fixpoint walk_plugins (entries : list walked) (acc : list Plugin) : list Plugin * option error :=
  match entries with
  | [] => (acc, None)
  | e :: entries =>
      match walk_err e with
      | Some err => (acc, Some err)
      | None =>
          if IsDir e then walk_plugins entries acc
          else if (Z.land (Perm e) 73 =? 0)%Z then walk_plugins entries acc
          else match loadPluginFunc e with
          | Ok newPlugins => walk_plugins entries (acc ++ newPlugins)
          | Err err => (acc, Some ("loading plugin " +:+ fi e +:+ ": " +:+ err))
          end
      end
  end.

(** [os.Stat] of the directory. *)
Inductive stat_result := StatNotExist | StatErr (e : error) | StatOk.

Definition loadDynamicPlugins (stat : stat_result) (entries : list walked) : result (list Plugin) :=
  match stat with
  | StatNotExist => Ok []
  | StatErr e => Err e
  | StatOk => match walk_plugins entries [] with (pls, None) => Ok pls | (_, Some e) => Err e end
  end.

Definition LoadDirectory (stat : stat_result) (entries : list walked) : op := fun w =>
  match assertState loaderLoading w with
  | Some e => (Some e, w)
  | None =>
      match loadDynamicPlugins stat entries with
      | Err e => (Some e, w)
      | Ok newPls => load_all newPls w
      end
  end.

(** [cfg]: the plugins section of the configuration; an error of [Load] other than
    that the repository is not initialized is returned. *)
Definition NewPluginLoader (repo : string) (cfg : result (gmap string PluginConfig)) (notInitialized : error)
    (preload : list Plugin) (stat : stat_result) (entries : list walked) (reg0 : registry) : result world :=
  let start config :=
    let w := MkWorld (MkLoader loaderLoading ∅ [] config repo) reg0 [] in
    match load_all preload w with
    | (Some e, _) => Err e
    | (None, w) => match LoadDirectory stat entries w with (Some e, _) => Err e | (None, w) => Ok w end
    end in
  if decide (repo = "") then start ∅
  else match cfg with
  | Ok c => start c
  | Err e => if decide (e = notInitialized) then start ∅ else Err e
  end.

Fixpoint init_all (ps : list (string * Plugin)) : op := fun w =>
  match ps with
  | [] => (None, w)
  | (name, p) :: ps =>
      let w := emit (EInit name (ld_repo (ld w)) (pc_Config (plugin_config name (ld w)))) w in
      match pl_Init p with
      | Some e => (Some e, set_state loaderFailed w)
      | None => init_all ps w
      end
  end.

Definition Initialize (ps : list (string * Plugin)) : op := fun w =>
  match transition loaderLoading loaderInitializing w with
  | (Some e, w) => (Some e, w)
  | (None, w) =>
      match init_all ps w with
      | (Some e, w) => (Some e, w)
      | (None, w) => transition loaderInitializing loaderInitialized w
      end
  end.

(** The four kinds of injection of one plugin, in order. *)
Definition injectIPLDPlugin (p : Plugin) : op := fun w =>
  match pl_IPLD p with None => (None, w) | Some e => (e, emit (EIPLD (pl_Name p)) w) end.
Definition injectTracerPlugin (p : Plugin) : op := fun w =>
  match pl_Tracer p with None => (None, w) | Some (Some e) => (Some e, w) | Some None => (None, emit (ETracer (pl_Name p)) w) end.
Definition injectDatastorePlugin (p : Plugin) : op := fun w =>
  match pl_Datastore p with
  | None => (None, w)
  | Some (ty, parser) =>
      let (e, r) := AddDatastoreConfigHandler ty parser (reg w) in (e, MkWorld (ld w) r (events w))
  end.
Definition injectFxPlugin (p : Plugin) : op := fun w =>
  if pl_Fx p then (None, emit (EFx (pl_Name p)) w) else (None, w).

(** Runs steps until one fails. *)
Fixpoint until_err (ops : list op) : op := fun w =>
  match ops with
  | [] => (None, w)
  | o :: ops => match o w with (Some e, w) => (Some e, w) | (None, w) => until_err ops w end
  end.

Definition inject_one (p : Plugin) : op :=
  until_err [injectIPLDPlugin p; injectTracerPlugin p; injectDatastorePlugin p; injectFxPlugin p].

Definition Inject (ps : list (string * Plugin)) : op := fun w =>
  match transition loaderInitialized loaderInjecting w with
  | (Some e, w) => (Some e, w)
  | (None, w) =>
      match until_err (inject_one <$> ps.*2) w with
      | (Some e, w) => (Some e, set_state loaderFailed w)
      | (None, w) => transition loaderInjecting loaderInjected w
      end
  end.

(** The loop of [Close]: the errors. *)
Fixpoint close_all (pls : list Plugin) (w : world) : list string * world :=
  match pls with
  | [] => ([], w)
  | p :: pls =>
      match pl_Closer p with
      | None => close_all pls w
      | Some e =>
          let (errs, w) := close_all pls (emit (EClose (pl_Name p)) w) in
          (match e with
           | Some e => ("error closing plugin " +:+ pl_Name p +:+ ": " +:+ e) :: errs
           | None => errs
           end, w)
      end
  end.

Definition Close_loader : op := fun w =>
  if decide (ld_state (ld w) ∈ [loaderClosing; loaderFailed; loaderClosed]) then (None, w)
  else
    let pls := started (ld w) in
    let (errs, w) := close_all pls (set_started [] (set_state loaderClosing w)) in
    if decide (errs = []) then (None, set_state loaderClosed w)
    else (Some (join_with (String (ascii_of_N 10) "") errs), set_state loaderFailed w).

(** Starting one plugin through one of the two daemon interfaces. *)
Definition start_daemon (p : Plugin) (iface : option (option error)) : op := fun w =>
  match iface with
  | None => (None, w)
  | Some (Some e) => (Some e, (Close_loader w).2)
  | Some None => (None, set_started (started (ld w) ++ [p]) (emit (EStart (pl_Name p)) w))
  end.

Definition start_one (p : Plugin) : op := until_err [start_daemon p (pl_Daemon p); start_daemon p (pl_DaemonInternal p)].

(** [apiErr]: what [coreapi.NewCoreAPI] returns. *)
Definition Start_loader (apiErr : option error) (ps : list (string * Plugin)) : op := fun w =>
  match transition loaderInjected loaderStarting w with
  | (Some e, w) => (Some e, w)
  | (None, w) =>
      match apiErr with
      | Some e => (Some e, w)
      | None =>
          match until_err (start_one <$> ps.*2) w with
          | (Some e, w) => (Some e, w)
          | (None, w) => transition loaderStarting loaderStarted w
          end
      end
  end.

(** ** Runs *)

(** The entries of the map in some order. *)
Definition ranges (ps : list (string * Plugin)) (w : world) : Prop := ps ≡ₚ map_to_list (plugins (ld w)).

Inductive lstep : world -> world -> Prop :=
| SLoad pl w : lstep w (Load_plugin pl w).2
| SLoadDirectory stat entries w : lstep w (LoadDirectory stat entries w).2
| SInitialize ps w : ranges ps w -> lstep w (Initialize ps w).2
| SInject ps w : ranges ps w -> lstep w (Inject ps w).2
| SStart apiErr ps w : ranges ps w -> lstep w (Start_loader apiErr ps w).2
| SClose w : lstep w (Close_loader w).2.

Definition new_loader (repo : string) (config : gmap string PluginConfig) (r : registry) : world :=
  MkWorld (MkLoader loaderLoading ∅ [] config repo) r [].

(** ** Events *)

Definition init_of (e : event) : option string := match e with EInit n _ _ => Some n | _ => None end.
Definition start_of (e : event) : option string := match e with EStart n => Some n | _ => None end.
Definition close_of (e : event) : option string := match e with EClose n => Some n | _ => None end.

Definition inits (w : world) : list string := omap init_of (events w).
Definition starts (w : world) : list string := omap start_of (events w).
Definition closes (w : world) : list string := omap close_of (events w).

Fixpoint occurrences (n : string) (l : list string) : nat :=
  match l with [] => 0 | m :: l => (if decide (m = n) then 1 else 0) + occurrences n l end.

Lemma occurrences_app n a b : occurrences n (a ++ b) = (occurrences n a + occurrences n b)%nat.
Proof. induction a as [|m a IH]; [done|]. simpl. rewrite IH. lia. Qed.

(** A plugin with a closer. *)
Definition closable (p : Plugin) : bool := bool_decide (is_Some (pl_Closer p)).

(** ** The invariant *)

(** Nothing was started or closed. *)
Definition unstarted (w : world) : Prop := starts w = [] /\ closes w = [] /\ started (ld w) = [].

Record loader_inv (w : world) : Prop := {
  li_names : forall n p, plugins (ld w) !! n = Some p -> pl_Name p = n;
  li_started : forall p, p ∈ started (ld w) -> plugins (ld w) !! pl_Name p = Some p;
  li_counts : forall n p, plugins (ld w) !! n = Some p ->
    if closable p then occurrences n (starts w) = (occurrences n (closes w) + occurrences n (pl_Name <$> started (ld w)))%nat
    else occurrences n (closes w) = 0%nat;
  li_stage :
    match ld_state (ld w) with
    | loaderLoading => inits w = [] /\ unstarted w
    | loaderInitialized | loaderInjected => inits w ≡ₚ (map_to_list (plugins (ld w))).*1 /\ unstarted w
    | loaderStarting | loaderStarted => inits w ≡ₚ (map_to_list (plugins (ld w))).*1
    | loaderClosed | loaderFailed =>
        NoDup (inits w) /\ (starts w = [] \/ inits w ≡ₚ (map_to_list (plugins (ld w))).*1) /\ started (ld w) = []
    | loaderInitializing | loaderInjecting | loaderClosing => False
    end
}.

Lemma inits_NoDup w : inits w ≡ₚ (map_to_list (plugins (ld w))).*1 -> NoDup (inits w).
Proof. intros ->. apply NoDup_fst_map_to_list. Qed.

Lemma new_loader_inv repo config r : loader_inv (new_loader repo config r).
Proof. split; try done. intros p Hp. by apply not_elem_of_nil in Hp. Qed.


(** Two worlds with the same plugins and history of starts and closes. *)
Definition same_history (w w' : world) : Prop :=
  plugins (ld w') = plugins (ld w) /\ started (ld w') = started (ld w) /\ starts w' = starts w /\ closes w' = closes w.

Lemma unstarted_counts w n p : unstarted w ->
  if closable p then occurrences n (starts w) = (occurrences n (closes w) + occurrences n (pl_Name <$> started (ld w)))%nat
  else occurrences n (closes w) = 0%nat.
Proof. intros (-> & -> & ->). by destruct (closable p). Qed.

(** *** Loading *)

Lemma assertState_spec s w : assertState s w = None <-> ld_state (ld w) = s.
Proof. unfold assertState. by case_decide. Qed.

Lemma load_inv pl w : loader_inv w -> loader_inv (Load_plugin pl w).2.
Proof.
  intros HI. unfold Load_plugin. destruct (assertState loaderLoading w) eqn:E; [done|]. apply assertState_spec in E.
  cbv zeta. destruct (plugins (ld w) !! pl_Name pl) as [p|] eqn:Hp; [done|]. destruct (Disabled _); [done|].
  destruct HI as [H1 H2 H3 H4]. rewrite E in H4. destruct H4 as (I1 & I2). split; cbn.
  - intros n p. destruct (decide (n = pl_Name pl)) as [->|]; [rewrite lookup_insert_eq; by intros [= <-]|].
    rewrite lookup_insert_ne by done. apply H1.
  - destruct I2 as (_ & _ & ->). intros p Hp'. by apply not_elem_of_nil in Hp'.
  - intros n p _. by apply (unstarted_counts w).
  - rewrite E. auto.
Qed.

Lemma load_all_inv pls w : loader_inv w -> loader_inv (load_all pls w).2.
Proof.
  revert w. induction pls as [|pl pls IH]; intros w HI; [done|]. cbn [load_all]. pose proof (load_inv pl w HI) as HI'.
  destruct (Load_plugin pl w) as [[e|] w']; [done|]. by apply IH.
Qed.

Lemma load_directory_inv stat entries w : loader_inv w -> loader_inv (LoadDirectory stat entries w).2.
Proof.
  intros HI. unfold LoadDirectory. destruct (assertState loaderLoading w); [done|].
  destruct (loadDynamicPlugins stat entries); [by apply load_all_inv|done].
Qed.

(** *** Initializing *)

Lemma omap_events (f : event -> option string) w e : omap f (events (emit e w)) = omap f (events w) ++ omap f [e].
Proof. unfold emit. cbn. by rewrite omap_app. Qed.

Lemma init_all_spec ps w : match init_all ps w with
  | (r, w') => same_history w w' /\ exists done_, done_ `prefix_of` ps.*1 /\ inits w' = inits w ++ done_ /\
      (match r with None => done_ = ps.*1 /\ ld_state (ld w') = ld_state (ld w) | Some _ => ld_state (ld w') = loaderFailed end)
  end.
Proof.
  revert w. induction ps as [|[n p] ps IH]; intros w; cbn [init_all].
  { split; [done|]. exists []. split_and!; try done. by rewrite app_nil_r. }
  set (w1 := emit _ w). assert (Ei : inits w1 = inits w ++ [n]) by (unfold inits, w1; by rewrite omap_events).
  assert (Es : same_history w w1).
  { unfold same_history, starts, closes, w1. rewrite !omap_events. cbn. by rewrite !app_nil_r. }
  destruct (pl_Init p) as [e|].
  - split; [done|]. exists [n]. split_and!; try done. cbn. apply prefix_cons, prefix_nil.
  - specialize (IH w1). destruct (init_all ps w1) as [r w']. destruct IH as ((A1 & A2 & A3 & A4) & d & D1 & D2 & D3).
    destruct Es as (B1 & B2 & B3 & B4). split; [repeat split; congruence|]. exists (n :: d). split_and!.
    + cbn. by apply prefix_cons.
    + rewrite D2, Ei. by rewrite <- app_assoc.
    + destruct r; [done|]. destruct D3 as [-> ->]. done.
Qed.

Lemma unstarted_history w w' : same_history w w' -> unstarted w -> unstarted w'.
Proof. intros (_ & A2 & A3 & A4) (U1 & U2 & U3). repeat split; congruence. Qed.

Lemma initialize_inv ps w : ranges ps w -> loader_inv w -> loader_inv (Initialize ps w).2.
Proof.
  intros HR HI. unfold Initialize, transition. destruct (assertState loaderLoading w) eqn:E; [done|].
  apply assertState_spec in E. destruct HI as [H1 H2 H3 H4]. rewrite E in H4. destruct H4 as (I1 & I2).
  pose proof (init_all_spec ps (set_state loaderInitializing w)) as Hs.
  destruct (init_all ps (set_state loaderInitializing w)) as [r w']. destruct Hs as (Hh & d & D1 & D2 & D3).
  assert (Ed : inits w' = d) by (rewrite D2; unfold inits in *; cbn; by rewrite I1).
  assert (Hk : ps.*1 ≡ₚ (map_to_list (plugins (ld w'))).*1).
  { destruct Hh as (-> & _). cbn. unfold ranges in HR. by rewrite HR. }
  pose proof (unstarted_history _ _ Hh I2) as HU. assert (Ep : plugins (ld w') = plugins (ld w)) by apply Hh.
  assert (Hnd : NoDup d).
  { destruct D1 as [k Ek]. apply (NoDup_app d k). rewrite <- Ek, Hk. apply NoDup_fst_map_to_list. }
  destruct r as [e|]; cbn [snd].
  - split.
    + rewrite Ep. done.
    + destruct HU as (_ & _ & ->). intros p Hp. by apply not_elem_of_nil in Hp.
    + intros n p _. by apply unstarted_counts.
    + rewrite D3, Ed. split_and!; [done|left; apply HU|apply HU].
  - destruct D3 as [-> D4]. cbn in D4. assert (assertState loaderInitializing w' = None) as -> by by apply assertState_spec. cbn [snd]. split; cbn.
    + rewrite Ep. done.
    + destruct HU as (_ & _ & ->). intros p Hp. by apply not_elem_of_nil in Hp.
    + intros n p _. by apply (unstarted_counts w').
    + change (inits w' ≡ₚ (map_to_list (plugins (ld w'))).*1 /\ unstarted w'). by rewrite Ed.
Qed.

(** *** Injecting *)

(** A step that touches neither the loader nor the history. *)
Definition quiet (o : op) : Prop := forall w, let w' := (o w).2 in
  ld w' = ld w /\ inits w' = inits w /\ starts w' = starts w /\ closes w' = closes w.

Lemma until_err_quiet ops : Forall quiet ops -> quiet (until_err ops).
Proof.
  intros Ho. induction Ho as [|o ops Ho Hops IH]; intros w; [done|]. cbn [until_err]. specialize (Ho w).
  destruct (o w) as [[e|] w']; [done|]. specialize (IH w'). cbn in *. naive_solver congruence.
Qed.

Lemma inject_one_quiet p : quiet (inject_one p).
Proof.
  apply until_err_quiet. rewrite !Forall_cons. split_and!; [intros w; cbv zeta..|apply Forall_nil_2].
  - unfold injectIPLDPlugin. destruct (pl_IPLD p); [|done]. unfold inits, starts, closes. cbn [snd]. rewrite !omap_events. cbn. by rewrite !app_nil_r.
  - unfold injectTracerPlugin. destruct (pl_Tracer p) as [[]|]; try done. unfold inits, starts, closes. cbn [snd]. rewrite !omap_events. cbn. by rewrite !app_nil_r.
  - unfold injectDatastorePlugin. destruct (pl_Datastore p) as [[ty f]|]; [|done]. by destruct (AddDatastoreConfigHandler _ _ _).
  - unfold injectFxPlugin. destruct (pl_Fx p); [|done]. unfold inits, starts, closes. cbn [snd]. rewrite !omap_events. cbn. by rewrite !app_nil_r.
Qed.

(** A world in an early stage satisfies the invariant. *)
Lemma early_inv w : (forall n p, plugins (ld w) !! n = Some p -> pl_Name p = n) -> unstarted w ->
  (match ld_state (ld w) with
   | loaderInitialized | loaderInjected | loaderStarting => inits w ≡ₚ (map_to_list (plugins (ld w))).*1
   | loaderFailed | loaderClosed => NoDup (inits w)
   | _ => False
   end) -> loader_inv w.
Proof.
  intros Hn HU Hs. split; [done| |intros n p _; by apply unstarted_counts|].
  - destruct HU as (_ & _ & ->). intros p Hp. by apply not_elem_of_nil in Hp.
  - destruct (ld_state (ld w)); try done; (split; [done|]); [split; [left|]; apply HU..].
Qed.

Lemma inject_inv ps w : loader_inv w -> loader_inv (Inject ps w).2.
Proof.
  intros HI. unfold Inject, transition. destruct (assertState loaderInitialized w) eqn:E; [done|].
  apply assertState_spec in E. destruct HI as [H1 H2 H3 H4]. rewrite E in H4. destruct H4 as (I1 & I2).
  assert (Hq : quiet (until_err (inject_one <$> ps.*2))).
  { apply until_err_quiet, Forall_fmap, Forall_true. apply inject_one_quiet. }
  specialize (Hq (set_state loaderInjecting w)). destruct (until_err (inject_one <$> ps.*2) (set_state loaderInjecting w)) as [[e|] w'];
    cbn [snd] in *; destruct Hq as (Q1 & Q2 & Q3 & Q4).
  - apply early_inv.
    + cbn. by rewrite Q1.
    + change (starts w' = [] /\ closes w' = [] /\ started (ld w') = []). by rewrite Q1, Q3, Q4.
    + change (NoDup (inits w')). rewrite Q2. by apply inits_NoDup.
  - assert (assertState loaderInjecting w' = None) as -> by (apply assertState_spec; by rewrite Q1). cbn [snd].
    apply early_inv.
    + cbn. by rewrite Q1.
    + change (starts w' = [] /\ closes w' = [] /\ started (ld w') = []). by rewrite Q1, Q3, Q4.
    + change (inits w' ≡ₚ (map_to_list (plugins (ld w'))).*1). by rewrite Q1, Q2.
Qed.

(** *** Closing *)

Lemma close_all_spec pls w : match close_all pls w with
  | (errs, w') => ld w' = ld w /\ inits w' = inits w /\ starts w' = starts w /\
      closes w' = closes w ++ (pl_Name <$> filter (fun p => closable p = true) pls)
  end.
Proof.
  revert w. induction pls as [|p pls IH]; intros w; cbn [close_all].
  { split_and!; try done. by rewrite app_nil_r. }
  destruct (pl_Closer p) as [e|] eqn:Hc.
  - set (w1 := emit _ w). specialize (IH w1). destruct (close_all pls w1) as [errs w'].
    assert (Hf : closable p = true) by (unfold closable; rewrite Hc; by apply bool_decide_eq_true_2).
    rewrite filter_cons_True by done. destruct IH as (-> & -> & -> & ->). unfold inits, starts, closes, w1.
    rewrite !omap_events. cbn. rewrite !app_nil_r. split_and!; try done. by rewrite <- app_assoc.
  - rewrite filter_cons_False; [apply IH|]. unfold closable. rewrite Hc. by rewrite bool_decide_eq_false_2 by (by intros []).
Qed.

Lemma occurrences_closable n p pls (m : gmap string Plugin) :
  (forall q, q ∈ pls -> m !! pl_Name q = Some q) -> m !! n = Some p ->
  occurrences n (pl_Name <$> filter (fun q => closable q = true) pls) =
  (if closable p then occurrences n (pl_Name <$> pls) else 0)%nat.
Proof.
  intros Hm Hn. induction pls as [|q pls IH]; [by destruct (closable p)|].
  assert (Hq : m !! pl_Name q = Some q) by (apply Hm; by left).
  assert (IH' := IH ltac:(intros q' Hq'; apply Hm; by right)). rewrite filter_cons. cbn [fmap list_fmap occurrences].
  case_decide as Hc; cbn [fmap list_fmap occurrences]; rewrite IH'; destruct (decide (pl_Name q = n)) as [<-|]; try done;
    rewrite Hq in Hn; injection Hn as <-; by destruct (closable q).
Qed.

(** Closing from any world whose history is exact. *)
Record exact_history (w : world) : Prop := {
  eh_names : forall n p, plugins (ld w) !! n = Some p -> pl_Name p = n;
  eh_started : forall p, p ∈ started (ld w) -> plugins (ld w) !! pl_Name p = Some p;
  eh_counts : forall n p, plugins (ld w) !! n = Some p ->
    if closable p then occurrences n (starts w) = (occurrences n (closes w) + occurrences n (pl_Name <$> started (ld w)))%nat
    else occurrences n (closes w) = 0%nat
}.

Lemma close_exact w : exact_history w -> NoDup (inits w) ->
  starts w = [] \/ inits w ≡ₚ (map_to_list (plugins (ld w))).*1 ->
  ld_state (ld w) ∉ [loaderClosing; loaderFailed; loaderClosed] -> loader_inv (Close_loader w).2.
Proof.
  intros [E1 E2 E3] Hn Hs Hst. unfold Close_loader. rewrite decide_False by done. cbv zeta.
  set (w0 := set_started [] (set_state loaderClosing w)). pose proof (close_all_spec (started (ld w)) w0) as Hc.
  destruct (close_all (started (ld w)) w0) as [errs w']. destruct Hc as (C1 & C2 & C3 & C4).
  change (inits w0) with (inits w) in C2. change (starts w0) with (starts w) in C3. change (closes w0) with (closes w) in C4.
  assert (Hi : forall s, s = loaderClosed \/ s = loaderFailed -> loader_inv (set_state s w')).
  { intros s Hs'. split.
    - cbn. rewrite C1. cbn. done.
    - cbn. rewrite C1. cbn. intros p Hp. by apply not_elem_of_nil in Hp.
    - intros n p Hp. change (plugins (ld w') !! n = Some p) in Hp. rewrite C1 in Hp. specialize (E3 n p Hp).
      change (if closable p
              then occurrences n (starts w') = (occurrences n (closes w') + occurrences n (pl_Name <$> started (ld w')))%nat
              else occurrences n (closes w') = 0%nat).
      rewrite C1, C3, C4, occurrences_app, (occurrences_closable n p (started (ld w)) (plugins (ld w)) E2 Hp).
      destruct (closable p); cbn; lia.
    - destruct Hs' as [-> | ->];
        change (NoDup (inits w') /\ (starts w' = [] \/ inits w' ≡ₚ (map_to_list (plugins (ld w'))).*1) /\ started (ld w') = []);
        by rewrite C1, C2, C3. }
  case_decide; apply Hi; auto.
Qed.

Lemma inv_exact w : loader_inv w -> exact_history w.
Proof. intros [H1 H2 H3 _]. by split. Qed.

Lemma close_inv w : loader_inv w -> loader_inv (Close_loader w).2.
Proof.
  intros HI. destruct (decide (ld_state (ld w) ∈ [loaderClosing; loaderFailed; loaderClosed])) as [Hst|Hst].
  { unfold Close_loader. by rewrite decide_True. }
  pose proof (li_stage _ HI) as Hs. apply close_exact; [by apply inv_exact| | |done];
    destruct (ld_state (ld w)); try done; try (destruct Hs as (Hs & Hu)).
  all: try (by apply inits_NoDup). all: try (by right). all: try (by left; apply Hu).
  all: try (exfalso; apply Hst; set_solver).
  rewrite Hs. constructor.
Qed.

(** *** Starting *)

Lemma start_daemon_inv p i w : loader_inv w -> ld_state (ld w) = loaderStarting -> plugins (ld w) !! pl_Name p = Some p ->
  match start_daemon p i w with
  | (None, w') => loader_inv w' /\ ld_state (ld w') = loaderStarting /\ plugins (ld w') = plugins (ld w)
  | (Some _, w') => loader_inv w'
  end.
Proof.
  intros HI Hst Hp. unfold start_daemon. destruct i as [[e|]|]; [by apply close_inv| |done].
  split; [|done]. pose proof (li_stage _ HI) as Hs. rewrite Hst in Hs. destruct HI as [H1 H2 H3 _].
  set (w' := set_started _ _).
  assert (Es : starts w' = starts w ++ [pl_Name p]) by (unfold starts; apply (omap_events start_of w (EStart (pl_Name p)))).
  assert (Ec : closes w' = closes w).
  { unfold closes. transitivity (omap close_of (events w) ++ []); [|apply app_nil_r]. apply (omap_events close_of w (EStart (pl_Name p))). }
  assert (Ei : inits w' = inits w).
  { unfold inits. transitivity (omap init_of (events w) ++ []); [|apply app_nil_r]. apply (omap_events init_of w (EStart (pl_Name p))). }
  split.
  - done.
  - cbn. intros q [Hq|Hq]%elem_of_app; [by apply H2|]. apply list_elem_of_singleton in Hq as ->. done.
  - intros n q Hq. cbn in Hq. specialize (H3 n q Hq). rewrite Es, Ec. cbn [w' set_started ld started].
    change (started (ld w')) with (started (ld w) ++ [p]). rewrite fmap_app, !occurrences_app. cbn.
    destruct (closable q); [|done]. lia.
  - change (ld_state (ld w')) with (ld_state (ld w)). rewrite Hst, Ei. done.
Qed.

Lemma start_one_inv p w : loader_inv w -> ld_state (ld w) = loaderStarting -> plugins (ld w) !! pl_Name p = Some p ->
  match start_one p w with
  | (None, w') => loader_inv w' /\ ld_state (ld w') = loaderStarting /\ plugins (ld w') = plugins (ld w)
  | (Some _, w') => loader_inv w'
  end.
Proof.
  intros HI Hst Hp. unfold start_one. cbn [until_err].
  pose proof (start_daemon_inv p (pl_Daemon p) w HI Hst Hp) as H1. destruct (start_daemon p (pl_Daemon p) w) as [[e|] w1]; [done|].
  destruct H1 as (HI1 & Hst1 & Hp1).
  pose proof (start_daemon_inv p (pl_DaemonInternal p) w1 HI1 Hst1 ltac:(by rewrite Hp1)) as H2.
  destruct (start_daemon p (pl_DaemonInternal p) w1) as [[e|] w2]; [done|]. destruct H2 as (? & ? & ?). split_and!; try done. congruence.
Qed.

Lemma start_all_inv pls w : loader_inv w -> ld_state (ld w) = loaderStarting ->
  (forall p, p ∈ pls -> plugins (ld w) !! pl_Name p = Some p) ->
  match until_err (start_one <$> pls) w with
  | (None, w') => loader_inv w' /\ ld_state (ld w') = loaderStarting /\ plugins (ld w') = plugins (ld w)
  | (Some _, w') => loader_inv w'
  end.
Proof.
  revert w. induction pls as [|p pls IH]; intros w HI Hst Hp; [done|]. cbn [fmap list_fmap until_err].
  pose proof (start_one_inv p w HI Hst ltac:(apply Hp; by left)) as H1. destruct (start_one p w) as [[e|] w1]; [done|].
  destruct H1 as (HI1 & Hst1 & Hp1). specialize (IH w1 HI1 Hst1 ltac:(intros q Hq; rewrite Hp1; apply Hp; by right)).
  destruct (until_err (start_one <$> pls) w1) as [[e|] w2]; [done|]. destruct IH as (? & ? & ?). split_and!; try done. congruence.
Qed.

Lemma start_inv apiErr ps w : ranges ps w -> loader_inv w -> loader_inv (Start_loader apiErr ps w).2.
Proof.
  intros HR HI. unfold Start_loader, transition. destruct (assertState loaderInjected w) eqn:E; [done|].
  apply assertState_spec in E. pose proof (li_stage _ HI) as Hs. rewrite E in Hs. destruct Hs as (I1 & I2).
  assert (HI1 : loader_inv (set_state loaderStarting w)).
  { apply early_inv; [apply (li_names _ HI)|done|done]. }
  destruct apiErr as [e|]; [done|].
  assert (Hp : forall p, p ∈ ps.*2 -> plugins (ld (set_state loaderStarting w)) !! pl_Name p = Some p).
  { intros p ([n q] & -> & Hq)%list_elem_of_fmap. cbn. unfold ranges in HR. rewrite HR in Hq. apply elem_of_map_to_list in Hq.
    by rewrite (li_names _ HI n q Hq). }
  pose proof (start_all_inv ps.*2 _ HI1 eq_refl Hp) as H1. destruct (until_err _ _) as [[e|] w1]; [done|].
  destruct H1 as (HI2 & Hst & _). assert (assertState loaderStarting w1 = None) as -> by by apply assertState_spec. cbn [snd].
  pose proof (li_stage _ HI2) as Hs. rewrite Hst in Hs. destruct HI2 as [H1 H2 H3 _]. by split.
Qed.

Lemma lstep_inv w w' : lstep w w' -> loader_inv w -> loader_inv w'.
Proof.
  intros [] HI; auto using load_inv, load_directory_inv, initialize_inv, inject_inv, start_inv, close_inv.
Qed.

Lemma reachable_inv repo config r w : rtc lstep (new_loader repo config r) w -> loader_inv w.
Proof.
  intros Hr. assert (H0 : loader_inv (new_loader repo config r)) by apply new_loader_inv.
  induction Hr as [|a b c Hab Hbc IH]; [done|]. apply IH. by eapply lstep_inv.
Qed.

(** ** Theorems *)

(** C25: in every run of the loader, whatever the order in which maps are iterated
    and whatever fails: each plugin is initialized at most once; nothing is
    started unless every loaded plugin was initialized; and a plugin with a
    closer has been closed exactly as often as it was started, less the starts
    that are still listed.  Once the loader is closed or has failed none is
    listed, so every started plugin was closed. *)
Theorem plugin_lifecycle (repo : string) (config : gmap string PluginConfig) (r : registry) (w : world) :
  rtc lstep (new_loader repo config r) w ->
  NoDup (inits w) /\
  (starts w <> [] -> inits w ≡ₚ (map_to_list (plugins (ld w))).*1) /\
  (forall n p, plugins (ld w) !! n = Some p -> is_Some (pl_Closer p) ->
     occurrences n (starts w) = (occurrences n (closes w) + occurrences n (pl_Name <$> started (ld w)))%nat) /\
  (ld_state (ld w) = loaderClosed \/ ld_state (ld w) = loaderFailed -> started (ld w) = []).
Proof.
  intros Hr. pose proof (reachable_inv _ _ _ _ Hr) as HI. pose proof (li_stage _ HI) as Hs. split_and!.
  - destruct (ld_state (ld w)); try done; try (by apply inits_NoDup, Hs); try apply Hs. destruct Hs as [-> _]. constructor.
  - intros Hne. destruct (ld_state (ld w)); try done; destruct Hs as (S1 & S2); try done.
    + by destruct S2 as (? & _).
    + destruct S2 as ([?|?] & _); done.
    + destruct S2 as ([?|?] & _); done.
  - intros n p Hp Hc. pose proof (li_counts _ HI n p Hp) as Hk. unfold closable in Hk. by rewrite bool_decide_eq_true_2 in Hk.
  - by intros [E|E]; rewrite E in Hs; apply Hs.
Qed.

(** a loader that is closed or has failed stays as it is: no operation does
    anything to a plugin, and every operation but [Close] reports the state. *)
Theorem loader_terminal (w : world) (apiErr : option error) (pl : Plugin) (stat : stat_result) (entries : list walked)
    (ps : list (string * Plugin)) :
  ld_state (ld w) = loaderClosed \/ ld_state (ld w) = loaderFailed ->
  (Close_loader w = (None, w)) /\
  (forall o, o ∈ [Load_plugin pl; LoadDirectory stat entries; Initialize ps; Inject ps; Start_loader apiErr ps] ->
     exists e, o w = (Some e, w)).
Proof.
  intros Hs. split.
  - unfold Close_loader. rewrite decide_True; [done|]. destruct Hs as [-> | ->]; set_solver.
  - intros o Ho. assert (Ha : forall s, s ∈ [loaderLoading; loaderInitialized; loaderInjected] -> exists e, assertState s w = Some e).
    { intros s Hin. unfold assertState. rewrite decide_False; [by eexists|]. intros Es. rewrite <- Es in Hin.
      destruct Hs as [Hs|Hs]; rewrite Hs in Hin; set_solver. }
    destruct (Ha loaderLoading ltac:(set_solver)) as [e1 E1]. destruct (Ha loaderInitialized ltac:(set_solver)) as [e2 E2].
    destruct (Ha loaderInjected ltac:(set_solver)) as [e3 E3]. rewrite !elem_of_cons in Ho.
    destruct Ho as [-> | [-> | [-> | [-> | [-> | Ho]]]]]; [..|by apply not_elem_of_nil in Ho].
    + exists e1. unfold Load_plugin. by rewrite E1.
    + exists e1. unfold LoadDirectory. by rewrite E1.
    + exists e1. unfold Initialize, transition. by rewrite E1.
    + exists e2. unfold Inject, transition. by rewrite E2.
    + exists e3. unfold Start_loader, transition. by rewrite E3.
Qed.

(** [Start] that fails on one plugin closes the loader: the error is returned
    and every plugin started before it that has a closer is closed. *)
Theorem start_failure_closes (ps : list (string * Plugin)) (w : world) (e : error) (repo : string)
    (config : gmap string PluginConfig) (r : registry) :
  rtc lstep (new_loader repo config r) w -> ranges ps w -> ld_state (ld w) = loaderInjected ->
  (Start_loader None ps w).1 = Some e ->
  let w' := (Start_loader None ps w).2 in
  (ld_state (ld w') = loaderClosed \/ ld_state (ld w') = loaderFailed) /\
  forall n p, plugins (ld w') !! n = Some p -> is_Some (pl_Closer p) -> occurrences n (starts w') = occurrences n (closes w').
Proof.
  intros Hr HR Hst He w'. assert (HI : loader_inv w') by (apply start_inv; [done|]; by eapply reachable_inv).
  assert (Hcl : forall w0 : world, ld_state (ld w0) = loaderStarting ->
    ld_state (ld (Close_loader w0).2) = loaderClosed \/ ld_state (ld (Close_loader w0).2) = loaderFailed).
  { intros w0 Hw0. unfold Close_loader. rewrite decide_False by (rewrite Hw0; set_solver). cbv zeta.
    destruct (close_all _ _). case_decide; cbn; auto. }
  assert (Hd : forall p i w0, ld_state (ld w0) = loaderStarting ->
    match start_daemon p i w0 with
    | (None, w1) => ld_state (ld w1) = loaderStarting
    | (Some _, w1) => ld_state (ld w1) = loaderClosed \/ ld_state (ld w1) = loaderFailed
    end).
  { intros p i w0 Hw0. unfold start_daemon. destruct i as [[e'|]|]; [by apply Hcl|done|done]. }
  assert (Hall : forall pls w0, ld_state (ld w0) = loaderStarting ->
    match until_err (start_one <$> pls) w0 with
    | (None, w1) => ld_state (ld w1) = loaderStarting
    | (Some _, w1) => ld_state (ld w1) = loaderClosed \/ ld_state (ld w1) = loaderFailed
    end).
  { induction pls as [|p pls IH]; intros w0 Hw0; [done|]. cbn [fmap list_fmap until_err]. unfold start_one at 1. cbn [until_err].
    pose proof (Hd p (pl_Daemon p) w0 Hw0) as D1. destruct (start_daemon p (pl_Daemon p) w0) as [[e1|] w1]; [done|].
    pose proof (Hd p (pl_DaemonInternal p) w1 D1) as D2. destruct (start_daemon p (pl_DaemonInternal p) w1) as [[e2|] w2]; [done|].
    by apply IH. }
  assert (Hs : ld_state (ld w') = loaderClosed \/ ld_state (ld w') = loaderFailed).
  { revert He. unfold w', Start_loader, transition. assert (assertState loaderInjected w = None) as -> by by apply assertState_spec.
    specialize (Hall ps.*2 (set_state loaderStarting w) eq_refl). destruct (until_err _ _) as [[e'|] w1]; [done|].
    by assert (assertState loaderStarting w1 = None) as -> by by apply assertState_spec. }
  split; [done|]. intros n p Hp Hc. pose proof (li_counts _ HI n p Hp) as Hk. unfold closable in Hk.
  rewrite bool_decide_eq_true_2 in Hk by done. rewrite Hk.
  assert (started (ld w') = []) as -> by (pose proof (li_stage _ HI) as Hg; by destruct Hs as [E|E]; rewrite E in Hg; apply Hg).
  cbn. lia.
Qed.

(** ** Witnesses *)

Definition demo_plugin (name : string) (daemon : option error) : Plugin :=
  MkPlugin name "1" None None None None false (Some daemon) None (Some None).

Definition demo_entries : list (string * Plugin) :=
  [("a", demo_plugin "a" None); ("b", demo_plugin "b" (Some "cannot start"))].

(** Loaded, initialized and injected. *)
Definition demo_loader : world :=
  (Inject demo_entries (Initialize demo_entries
     (load_all demo_entries.*2 (new_loader "repo" ∅ [])).2).2).2.

Lemma demo_ranges w : plugins (ld w) = list_to_map demo_entries -> ranges demo_entries w.
Proof. intros E. unfold ranges. rewrite E. symmetry. apply map_to_list_to_map. by apply (bool_decide_unpack _). Qed.

Lemma demo_reachable : rtc lstep (new_loader "repo" ∅ []) demo_loader.
Proof.
  eapply rtc_l; [apply (SLoad (demo_plugin "a" None))|]. eapply rtc_l; [apply (SLoad (demo_plugin "b" (Some "cannot start")))|].
  eapply rtc_l; [apply (SInitialize demo_entries); by apply demo_ranges|].
  eapply rtc_l; [apply (SInject demo_entries); by apply demo_ranges|]. apply rtc_refl.
Qed.

Lemma plugin_lifecycle_witness : NoDup (inits demo_loader).
Proof. apply (plugin_lifecycle "repo" ∅ [] demo_loader), demo_reachable. Defined.

Lemma loader_terminal_witness :
  Close_loader (set_state loaderFailed demo_loader) = (None, set_state loaderFailed demo_loader).
Proof. apply (loader_terminal (set_state loaderFailed demo_loader) None (demo_plugin "a" None) StatOk [] []). by right. Defined.

Lemma start_failure_closes_witness :
  ld_state (ld (Start_loader None demo_entries demo_loader).2) = loaderClosed \/
  ld_state (ld (Start_loader None demo_entries demo_loader).2) = loaderFailed.
Proof.
  apply (start_failure_closes demo_entries demo_loader "cannot start" "repo" ∅ []);
    [apply demo_reachable|by apply demo_ranges|reflexivity|reflexivity].
Defined.
