(* ===== verification/Keys.v ===== *)
(** The key API: [core/coreapi/key.go].

    The keystore belongs to another package: [Keystore] states what is used of it,
    a table of private keys whose calls may fail without changing it.  Private keys
    are abstract; [IDFromPublicKey] may fail. *)
From Stdlib Require Import ZArith Lia String.
From stdpp Require Import base list strings gmap sorting.
From S2P Require Import Prelude GoStrings Gateway.

Local Open Scope Z_scope.

Class Keystore := {
  ks : Type;
  priv : Type;
  ks_keys : ks -> gmap string priv;
  ks_Get : string -> ks -> result priv * ks;
  ks_Has : string -> ks -> result bool * ks;
  ks_Put : string -> priv -> ks -> option error * ks;
  ks_Delete : string -> ks -> option error * ks;
  ks_List : ks -> result (list string) * ks;
  ks_Get_spec : forall n s r s', ks_Get n s = (r, s') ->
    ks_keys s' = ks_keys s /\ match r with Ok k => ks_keys s !! n = Some k | Err _ => True end;
  ks_Has_spec : forall n s r s', ks_Has n s = (r, s') ->
    ks_keys s' = ks_keys s /\ match r with Ok b => b = bool_decide (is_Some (ks_keys s !! n)) | Err _ => True end;
  (** a name that is taken is refused *)
  ks_Put_spec : forall n k s e s', ks_Put n k s = (e, s') ->
    match e with
    | None => ks_keys s !! n = None /\ ks_keys s' = <[n := k]> (ks_keys s)
    | Some _ => ks_keys s' = ks_keys s
    end;
  ks_Delete_spec : forall n s e s', ks_Delete n s = (e, s') ->
    match e with None => ks_keys s' = delete n (ks_keys s) | Some _ => ks_keys s' = ks_keys s end;
  ks_List_spec : forall s r s', ks_List s = (r, s') ->
    ks_keys s' = ks_keys s /\ match r with Ok l => l ≡ₚ (map_to_list (ks_keys s)).*1 | Err _ => True end;
  (** [peer.IDFromPublicKey] of the key's public part, and key generation *)
  IDFromPublicKey : priv -> result string;
  GenerateRSA : Z -> result priv;
  GenerateEd25519 : result priv
}.

Definition DefaultRSALen : Z := 2048.

(** ** Operations *)

Record key := MkKey { key_name : string; peerID : string }.

Section Keys.
Context `{Keystore}.

(** [options]: the outcome of [caopts.KeyGenerateOptions]. *)
Definition Generate (name : string) (options : result (string * Z)) (s : ks) : result key * ks :=
  match options with
  | Err e => (Err e, s)
  | Ok (algorithm, size) =>
      if decide (name = "self") then (Err "cannot create key with name 'self'", s)
      else match ks_Get name s with
      | (Ok _, s) => (Err ("key with name '" +:+ name +:+ "' already exists"), s)
      | (Err _, s) =>
          match (if decide (algorithm = "rsa") then GenerateRSA (if size =? -1 then DefaultRSALen else size)
                 else if decide (algorithm = "ed25519") then GenerateEd25519
                 else Err ("unrecognized key type: " +:+ algorithm)) with
          | Err e => (Err e, s)
          | Ok sk =>
              match ks_Put name sk s with
              | (Some e, s) => (Err e, s)
              | (None, s) => match IDFromPublicKey sk with Err e => (Err e, s) | Ok pid => (Ok (MkKey name pid), s) end
              end
          end
      end
  end.

Fixpoint list_loop (keys : list string) (s : ks) : result (list key) * ks :=
  match keys with
  | [] => (Ok [], s)
  | k :: keys =>
      match ks_Get k s with
      | (Err e, s) => (Err e, s)
      | (Ok privKey, s) =>
          match IDFromPublicKey privKey with
          | Err e => (Err e, s)
          | Ok pid =>
              match list_loop keys s with
              | (Err e, s) => (Err e, s)
              | (Ok out, s) => (Ok (MkKey k pid :: out), s)
              end
          end
      end
  end.

Definition List_keys (identity : string) (s : ks) : result (list key) * ks :=
  match ks_List s with
  | (Err e, s) => (Err e, s)
  | (Ok keys, s) =>
      match list_loop (merge_sort string_le keys) s with
      | (Err e, s) => (Err e, s)
      | (Ok out, s) => (Ok (MkKey "self" identity :: out), s)
      end
  end.

(** The part of [Rename] that overwrites: whether a key was deleted. *)
Definition overwrite_key (newName : string) (s : ks) : result bool * ks :=
  match ks_Has newName s with
  | (Err e, s) => (Err e, s)
  | (Ok false, s) => (Ok false, s)
  | (Ok true, s) => match ks_Delete newName s with (Some e, s) => (Err e, s) | (None, s) => (Ok true, s) end
  end.

(** The result carries the key also with the error of the last deletion. *)
Definition Rename (oldName newName : string) (options : result bool) (s : ks) : option (key * bool) * option error * ks :=
  match options with
  | Err e => (None, Some e, s)
  | Ok force =>
      if decide (oldName = "self") then (None, Some "cannot rename key with name 'self'", s)
      else if decide (newName = "self") then (None, Some "cannot overwrite key with name 'self'", s)
      else match ks_Get oldName s with
      | (Err _, s) => (None, Some ("no key named " +:+ oldName +:+ " was found"), s)
      | (Ok oldKey, s) =>
          match IDFromPublicKey oldKey with
          | Err e => (None, Some e, s)
          | Ok pid =>
              if decide (newName = oldName) then (Some (MkKey oldName pid, false), None, s)
              else match (if (force : bool) then overwrite_key newName s else (Ok false, s)) with
              | (Err e, s) => (None, Some e, s)
              | (Ok overwrite, s) =>
                  match ks_Put newName oldKey s with
                  | (Some e, s) => (None, Some e, s)
                  | (None, s) =>
                      let (e, s) := ks_Delete oldName s in (Some (MkKey newName pid, overwrite), e, s)
                  end
              end
          end
      end
  end.

Definition Remove_key (name : string) (s : ks) : result key * ks :=
  if decide (name = "self") then (Err "cannot remove key with name 'self'", s)
  else match ks_Get name s with
  | (Err _, s) => (Err ("no key named " +:+ name +:+ " was found"), s)
  | (Ok removed, s) =>
      match IDFromPublicKey removed with
      | Err e => (Err e, s)
      | Ok pid => match ks_Delete name s with (Some e, s) => (Err e, s) | (None, s) => (Ok (MkKey "" pid), s) end
      end
  end.

Definition Self (identity : string) : result key :=
  if decide (identity = "") then Err "identity not loaded" else Ok (MkKey "self" identity).

(** ** Theorems *)

Lemma overwrite_key_spec n s r s' : overwrite_key n s = (r, s') ->
  match r with
  | Ok b => b = bool_decide (is_Some (ks_keys s !! n)) /\ ks_keys s' = delete n (ks_keys s)
  | Err _ => ks_keys s' = ks_keys s
  end.
Proof.
  unfold overwrite_key. destruct (ks_Has n s) as [[b|e] s1] eqn:E1; apply ks_Has_spec in E1 as [K1 Hb].
  - destruct b.
    + destruct (ks_Delete n s1) as [[e|] s2] eqn:E2; apply ks_Delete_spec in E2; intros [= <- <-]; [congruence|].
      split; [done|congruence].
    + intros [= <- <-]. split; [done|]. rewrite K1. symmetry. apply delete_id.
      symmetry in Hb. apply bool_decide_eq_false in Hb. by apply eq_None_not_Some.
  - intros [= <- <-]. done.
Qed.

(** [Rename] without error moves exactly one key: the new name holds the old
    name's key, the old name is gone, every other name is as before, and the
    result says whether a key was overwritten, which happens only with [Force]. *)
Theorem rename_exact (oldName newName : string) (force : bool) (s s' : ks) (k : key) (overwritten : bool) :
  Rename oldName newName (Ok force) s = (Some (k, overwritten), None, s') -> oldName <> newName ->
  exists sk, ks_keys s !! oldName = Some sk /\ ks_keys s' = <[newName := sk]> (delete oldName (ks_keys s)) /\
    overwritten = bool_decide (is_Some (ks_keys s !! newName)) /\ (overwritten = true -> force = true) /\
    key_name k = newName /\ IDFromPublicKey sk = Ok (peerID k).
Proof.
  intros E Hne. unfold Rename in E. do 2 (case_decide; [done|]).
  destruct (ks_Get oldName s) as [[sk|e] s1] eqn:E1; [|done]. apply ks_Get_spec in E1 as [K1 Hk].
  destruct (IDFromPublicKey sk) as [pid|] eqn:Ei; [|done]. rewrite decide_False in E by done.
  destruct (if force then _ else _) as [[b|e] s2] eqn:E2; [|done].
  destruct (ks_Put newName sk s2) as [[e|] s3] eqn:E3; [done|]. apply ks_Put_spec in E3 as [Hn K3].
  assert (Hb : ks_keys s2 = delete newName (ks_keys s) /\ b = bool_decide (is_Some (ks_keys s !! newName)) /\ (b = true -> force = true)).
  { destruct force.
    - apply overwrite_key_spec in E2 as [-> K2]. rewrite K1 in *. done.
    - injection E2 as <- <-. rewrite K1 in *. split_and!; [by rewrite delete_id| |done].
      rewrite Hn. symmetry. apply bool_decide_eq_false_2. by intros []. }
  destruct Hb as (K2 & -> & Hf). destruct (ks_Delete oldName s3) as [e s4] eqn:E4. injection E as <- <- -> <-.
  apply ks_Delete_spec in E4. exists sk. split_and!; try done.
  rewrite E4, K3, K2, delete_insert_ne, delete_delete by done. by rewrite insert_delete_eq.
Qed.

(** whatever fails, [Rename] keeps every key under its name except the one it
    moves and, with [Force], the one at the new name; and the key it moves is
    afterwards under the old name or the new one. *)
Theorem rename_keeps_keys (oldName newName : string) (options : result bool) (s s' : ks) (r : option (key * bool)) (e : option error) :
  Rename oldName newName options s = (r, e, s') ->
  (forall n, n <> oldName -> n <> newName -> ks_keys s' !! n = ks_keys s !! n) /\
  (forall sk, ks_keys s !! oldName = Some sk -> ks_keys s' !! oldName = Some sk \/ ks_keys s' !! newName = Some sk) /\
  (options = Ok false -> forall sk, ks_keys s !! newName = Some sk -> newName <> oldName -> ks_keys s' !! newName = Some sk).
Proof.
  intros E. unfold Rename in E.
  assert (Hsame : forall t, ks_keys t = ks_keys s ->
    (forall n, n <> oldName -> n <> newName -> ks_keys t !! n = ks_keys s !! n) /\
    (forall sk, ks_keys s !! oldName = Some sk -> ks_keys t !! oldName = Some sk \/ ks_keys t !! newName = Some sk) /\
    (options = Ok false -> forall sk, ks_keys s !! newName = Some sk -> newName <> oldName -> ks_keys t !! newName = Some sk)).
  { intros t ->. split_and!; auto. }
  destruct options as [force|]; [|injection E as _ _ <-; by apply Hsame].
  do 2 (case_decide; [injection E as _ _ <-; by apply Hsame|]).
  destruct (ks_Get oldName s) as [[sk|e1] s1] eqn:E1; apply ks_Get_spec in E1 as [K1 Hk]; [|injection E as _ _ <-; by apply Hsame].
  destruct (IDFromPublicKey sk) as [pid|]; [|injection E as _ _ <-; by apply Hsame].
  case_decide as Hne; [injection E as _ _ <-; by apply Hsame|].
  destruct (if force then _ else _) as [[b|e2] s2] eqn:E2.
  2: { injection E as _ _ <-. apply Hsame. destruct force; [apply overwrite_key_spec in E2; congruence|done]. }
  assert (K2 : ks_keys s2 = if force then delete newName (ks_keys s) else ks_keys s).
  { destruct force; [apply overwrite_key_spec in E2 as [_ K2]; congruence|by injection E2 as _ <-]. }
  assert (Hnew : forall t, (forall n, n <> oldName -> n <> newName -> ks_keys t !! n = ks_keys s !! n) ->
    (ks_keys t !! oldName = Some sk \/ ks_keys t !! newName = Some sk) ->
    (force = false -> forall x, ks_keys s !! newName = Some x -> ks_keys t !! newName = Some x) ->
    (forall n, n <> oldName -> n <> newName -> ks_keys t !! n = ks_keys s !! n) /\
    (forall sk', ks_keys s !! oldName = Some sk' -> ks_keys t !! oldName = Some sk' \/ ks_keys t !! newName = Some sk') /\
    (Ok force = Ok false -> forall x, ks_keys s !! newName = Some x -> newName <> oldName -> ks_keys t !! newName = Some x)).
  { intros t A1 A2 A3. split_and!; [done| |intros [= ->]; auto]. intros sk' E'. rewrite Hk in E'. by injection E' as <-. }
  destruct (ks_Put newName sk s2) as [[e3|] s3] eqn:E3; apply ks_Put_spec in E3.
  - injection E as _ _ <-. apply Hnew; rewrite E3, K2; destruct force; auto.
    + intros n Hn1 Hn2. by rewrite lookup_delete_ne.
    + left. by rewrite lookup_delete_ne.
    + done.
  - destruct E3 as [Hn K3]. destruct (ks_Delete oldName s3) as [e4 s4] eqn:E4. injection E as _ _ <-.
    apply ks_Delete_spec in E4.
    assert (Hk4 : ks_keys s4 = <[newName := sk]> (ks_keys s2) \/ ks_keys s4 = delete oldName (<[newName := sk]> (ks_keys s2))).
    { destruct e4; [left|right]; congruence. }
    apply Hnew.
    + intros n Hn1 Hn2. destruct Hk4 as [-> | ->]; rewrite ?lookup_delete_ne, lookup_insert_ne, K2 by done;
        (destruct force; [by rewrite lookup_delete_ne|done]).
    + right. destruct Hk4 as [-> | ->]; [|rewrite lookup_delete_ne by done]; apply lookup_insert_eq.
    + intros -> x Hx. rewrite K2 in Hn. congruence.
Qed.

(** the name [self] is never created, overwritten, renamed or removed. *)
Theorem self_is_protected (s : ks) (options : result (string * Z)) (force : result bool) (n : string) :
  (Generate "self" options s).2 = s /\ (Rename "self" n force s).2 = s /\ (Rename n "self" force s).2 = s /\
  (Remove_key "self" s).2 = s.
Proof.
  split_and!.
  - unfold Generate. by destruct options as [[]|].
  - unfold Rename. by destruct force.
  - unfold Rename. destruct force; [|done]. by case_decide.
  - done.
Qed.

(** [Generate] adds one key under a name that was free and changes nothing
    else; when it fails, it has at most added that key. *)
Theorem generate_adds_one (name : string) (options : result (string * Z)) (s s' : ks) (r : result key) :
  Generate name options s = (r, s') ->
  match r with
  | Ok k => ks_keys s !! name = None /\ key_name k = name /\
      exists sk, ks_keys s' = <[name := sk]> (ks_keys s) /\ IDFromPublicKey sk = Ok (peerID k)
  | Err _ => ks_keys s' = ks_keys s \/
      (ks_keys s !! name = None /\ exists sk e, ks_keys s' = <[name := sk]> (ks_keys s) /\ IDFromPublicKey sk = Err e)
  end.
Proof.
  intros E. unfold Generate in E. destruct options as [[alg size]|]; [|injection E as <- <-; by left].
  case_decide; [injection E as <- <-; by left|].
  destruct (ks_Get name s) as [[x|e] s1] eqn:E1; apply ks_Get_spec in E1 as [K1 _]; [injection E as <- <-; by left|].
  match type of E with match ?g with _ => _ end = _ => destruct g as [sk|e2] end; [|injection E as <- <-; by left].
  destruct (ks_Put name sk s1) as [[e3|] s2] eqn:E3; apply ks_Put_spec in E3; simpl in E3;
    [injection E as <- <-; left; by rewrite E3, K1|].
  rewrite K1 in E3. destruct E3 as [Hn K3]. destruct (IDFromPublicKey sk) as [pid|e4] eqn:Ei; injection E as <- <-.
  - split_and!; try done. by exists sk.
  - right. split; [done|]. by exists sk, e4.
Qed.

(** [List] gives the node's own key first and then one key for each name of
    the keystore, in order of their names, with the identity of the stored key. *)
Theorem list_keys_exact (identity : string) (s s' : ks) (l : list key) :
  List_keys identity s = (Ok l, s') ->
  exists rest, l = MkKey "self" identity :: rest /\ ks_keys s' = ks_keys s /\
    (key_name <$> rest) ≡ₚ (map_to_list (ks_keys s)).*1 /\ StronglySorted string_le (key_name <$> rest) /\
    Forall (fun k => exists sk, ks_keys s !! key_name k = Some sk /\ IDFromPublicKey sk = Ok (peerID k)) rest.
Proof.
  intros E. unfold List_keys in E. destruct (ks_List s) as [[names|] s1] eqn:E1; [|done]. apply ks_List_spec in E1 as [K1 Hl].
  assert (Hloop : forall ns t t' out, ks_keys t = ks_keys s -> list_loop ns t = (Ok out, t') ->
    ks_keys t' = ks_keys s /\ key_name <$> out = ns /\
    Forall (fun k => exists sk, ks_keys s !! key_name k = Some sk /\ IDFromPublicKey sk = Ok (peerID k)) out).
  { induction ns as [|n ns IH]; intros t t' out Ht; cbn [list_loop]; [by intros [= <- <-]|].
    destruct (ks_Get n t) as [[sk|] t1] eqn:Eg; [|done]. apply ks_Get_spec in Eg as [G1 G2].
    destruct (IDFromPublicKey sk) as [pid|] eqn:Ei; [|done]. destruct (list_loop ns t1) as [[o|] t2] eqn:El; [|done].
    intros [= <- <-]. destruct (IH t1 t2 o) as (A1 & A2 & A3); [congruence|done|]. split_and!; [done|by rewrite <- A2|].
    constructor; [|done]. exists sk. split; [by rewrite <- Ht|done]. }
  destruct (list_loop (merge_sort string_le names) s1) as [[out|] s2] eqn:E2; [|done]. injection E as <- <-.
  destruct (Hloop _ _ _ _ K1 E2) as (A1 & A2 & A3). exists out. split_and!; try done.
  - by rewrite A2, merge_sort_Permutation.
  - rewrite A2. pose proof (string_leb_trans). apply StronglySorted_merge_sort.
    + intros a b c. apply string_leb_trans.
    + intros a b. unfold string_le. destruct (String.leb_total a b); auto.
Qed.
End Keys.

(** ** A keystore with faults

    The table and, for each call that changes it, whether it fails. *)

Definition faulty : Type := gmap string string * list bool.
Definition fails (s : faulty) : bool := default false (head s.2).
Definition demo_change (f : gmap string string -> gmap string string) (s : faulty) : option error * faulty :=
  if fails s then (Some "disk full", (s.1, tail s.2)) else (None, (f s.1, tail s.2)).

Definition demo_keystore : Keystore.
Proof.
  refine {| ks := faulty; priv := string; ks_keys := fst;
            ks_Get n s := (match s.1 !! n with Some k => Ok k | None => Err "no key by the given name was found" end, s);
            ks_Has n s := (Ok (bool_decide (is_Some (s.1 !! n))), s);
            ks_Put n k s := match s.1 !! n with
                            | Some _ => (Some "key by that name already exists, refusing to overwrite", s)
                            | None => demo_change <[n := k]> s
                            end;
            ks_Delete n s := demo_change (delete n) s;
            ks_List s := (Ok ((map_to_list s.1).*1), s);
            IDFromPublicKey k := Ok ("id-" +:+ k); GenerateRSA n := Ok "rsa"; GenerateEd25519 := Ok "ed" |}.
  - intros n s r s' [= <- <-]. split; [done|]. by destruct (s.1 !! n).
  - by intros n s r s' [= <- <-].
  - intros n k s e s'. destruct (s.1 !! n) eqn:E; [by intros [= <- <-]|]. unfold demo_change. destruct (fails s); by intros [= <- <-].
  - intros n s e s'. unfold demo_change. destruct (fails s); by intros [= <- <-].
  - intros s r s' [= <- <-]. done.
Defined.

Section KeyWitnesses.
Local Existing Instance demo_keystore.

Definition two_keys : gmap string string := {[ "a" := "ka"; "b" := "kb" ]}.
Definition quiet_keys : @ks demo_keystore := (two_keys, []).
(** The second change fails. *)
Definition full_keys : @ks demo_keystore := (two_keys, [false; true]).

(** a forced [Rename] deletes the key at the new name before it stores the
    renamed one: when storing fails the command reports an error, nothing was
    renamed, and the other key is gone. *)
Theorem rename_failure_loses_key :
  let '(r, e, s') := Rename "a" "b" (Ok true) full_keys in
  r = None /\ e = Some "disk full" /\ ks_keys s' !! "a" = Some "ka" /\ ks_keys s' !! "b" = None.
Proof. by vm_compute. Qed.

Lemma rename_exact_witness : ks_keys (Rename "a" "b" (Ok true) quiet_keys).2 = <["b" := "ka"]> (delete "a" two_keys).
Proof.
  destruct (rename_exact "a" "b" true quiet_keys (Rename "a" "b" (Ok true) quiet_keys).2 (MkKey "b" "id-ka") true)
    as (sk & E1 & E2 & _); [reflexivity|done|]. rewrite E2. by injection E1 as <-.
Defined.

Lemma rename_keeps_keys_witness : ks_keys (Rename "a" "b" (Ok true) full_keys).2 !! "a" = Some "ka" \/
  ks_keys (Rename "a" "b" (Ok true) full_keys).2 !! "b" = Some "ka".
Proof.
  destruct (Rename "a" "b" (Ok true) full_keys) as [[r e] s'] eqn:E.
  by apply (rename_keeps_keys "a" "b" (Ok true) full_keys s' r e E).
Defined.

Lemma generate_adds_one_witness : exists sk, ks_keys (Generate "c" (Ok ("ed25519", -1)) quiet_keys).2 = <["c" := sk]> two_keys.
Proof.
  pose proof (generate_adds_one "c" (Ok ("ed25519", -1)) quiet_keys (Generate "c" (Ok ("ed25519", -1)) quiet_keys).2
    (Ok (MkKey "c" "id-ed"))) as (_ & _ & sk & E & _); [reflexivity|]. by exists sk.
Defined.

Lemma list_keys_exact_witness : exists rest, (List_keys "me" quiet_keys).1 = Ok (MkKey "self" "me" :: rest).
Proof.
  destruct (list_keys_exact "me" quiet_keys (List_keys "me" quiet_keys).2 [MkKey "self" "me"; MkKey "a" "id-ka"; MkKey "b" "id-kb"])
    as (rest & E & _); [reflexivity|]. exists rest. by rewrite <- E.
Defined.
End KeyWitnesses.
