(* ===== verification/Bootstrap.v ===== *)
(** Bootstrapping: [core/bootstrap/bootstrap.go].

    One round is a function of what the host reports, the permutation drawn and
    the order in which the connection attempts finish.  [Bootstrap] itself, with
    its periodic worker and the channel they meet on, is the relation [bstep]: the
    process package runs a function at once and at every tick, one tick at a time,
    and closing a process waits until the functions it runs have returned. *)
From Stdlib Require Import ZArith Lia String.
From stdpp Require Import base list strings sets relations.
From S2P Require Import Prelude GoStrings.

Local Open Scope Z_scope.

Definition ErrNotEnoughBootstrapPeers : error := "not enough bootstrap peers to bootstrap".

Record AddrInfo := MkAddrInfo { ai_ID : string; ai_Addrs : list string }.
#[export] Instance AddrInfo_eq_dec : EqDecision AddrInfo.
Proof. solve_decision. Defined.

(** Durations are in nanoseconds. *)
Record BootstrapConfig := MkBootstrapConfig {
  MinPeerThreshold : Z;
  Period : Z;
  ConnectionTimeout : Z;
  BootstrapPeers : list AddrInfo;
}.

Definition Second : Z := 1000000000.
Definition DefaultBootstrapConfig : BootstrapConfig := MkBootstrapConfig 4 (30 * Second) (30 * Second / 3) [].
Definition BootstrapConfigWithPeers (pis : list AddrInfo) : BootstrapConfig :=
  let cfg := DefaultBootstrapConfig in
  MkBootstrapConfig (MinPeerThreshold cfg) (Period cfg) (ConnectionTimeout cfg) pis.

(** ** One round *)

(** [perm]: what [rand.Perm(len(in))] returned. *)
Definition randomSubsetOfPeers (inp : list AddrInfo) (max : Z) (perm : list nat) : outcome (list AddrInfo) :=
  let max := if Z.of_nat (length inp) <? max then Z.of_nat (length inp) else max in
  match slice_to perm max with
  | Panic m => Panic m
  | Ret vals => Ret (omap (fun val => inp !! val) vals)
  end.

(** The channel of errors after all attempts: in the order of [order], the peers
    as their attempts finish. *)
Definition attempt_errors (Connect : AddrInfo -> option error) (order : list AddrInfo) : list error := omap Connect order.

Definition bootstrapConnect (Connect : AddrInfo -> option error) (peers order : list AddrInfo) : option error :=
  if (length peers <? 1)%nat then Some ErrNotEnoughBootstrapPeers
  else
    let errs := attempt_errors Connect order in
    if (length errs =? length peers)%nat then Some ("failed to bootstrap. " +:+ List.last errs "") else None.

(** The peers a round dials, or why it does not. *)
Definition round_peers (cfg : BootstrapConfig) (connected : nat) (isConnected : AddrInfo -> bool) (perm : list nat)
  : outcome (result (list AddrInfo)) :=
  if MinPeerThreshold cfg <=? Z.of_nat connected then Ret (Ok [])
  else
    let numToDial := MinPeerThreshold cfg - Z.of_nat connected in
    let notConnected := filter (fun p => isConnected p = false) (BootstrapPeers cfg) in
    if (length notConnected <? 1)%nat then Ret (Err ErrNotEnoughBootstrapPeers)
    else match randomSubsetOfPeers notConnected numToDial perm with
    | Panic m => Panic m
    | Ret randSubset => Ret (Ok randSubset)
    end.

(** [connected]: the number of peers of the network. *)
Definition bootstrapRound (cfg : BootstrapConfig) (connected : nat) (isConnected : AddrInfo -> bool) (perm : list nat)
    (Connect : AddrInfo -> option error) (order : list AddrInfo) : outcome (option error) :=
  if MinPeerThreshold cfg <=? Z.of_nat connected then Ret None
  else match round_peers cfg connected isConnected perm with
  | Panic m => Panic m
  | Ret (Err e) => Ret (Some e)
  | Ret (Ok randSubset) => Ret (bootstrapConnect Connect randSubset order)
  end.

(** ** The process *)

Inductive main_pc :=
| MRouting                       (** about to bootstrap the routing system *)
| MClose (e : error)             (** in [proc.Close()], with the error to return *)
| MSend                          (** at [doneWithRound <- struct{}{}] *)
| MCloseChan                     (** at [close(doneWithRound)] *)
| MReturned (e : option error).

Inductive worker_pc := WRound | WReceive | WEnd.

(** [first]: the run started at once; [ticked]: the run of the latest tick. *)
Record proc := MkProc { main : main_pc; first : worker_pc; ticked : worker_pc; closed : bool }.

Definition started_proc : proc := MkProc MRouting WRound WEnd false.

(** The worker's next program point; a receive needs a sender or a closed
    channel. *)
Inductive wstep (closed : bool) : worker_pc -> worker_pc -> Prop :=
| WRoundDone : wstep closed WRound WReceive
| WReceived : closed = true -> wstep closed WReceive WEnd.

(** [rt]: what the routing system's bootstrap returns, if there is one. *)
Inductive bstep (rt : option error) : proc -> proc -> Prop :=
| BRouted f t c : rt = None -> bstep rt (MkProc MRouting f t c) (MkProc MSend f t c)
| BRoutingFailed e f t c : rt = Some e -> bstep rt (MkProc MRouting f t c) (MkProc (MClose e) f t c)
| BClosed e c : bstep rt (MkProc (MClose e) WEnd WEnd c) (MkProc (MReturned (Some e)) WEnd WEnd c)
| BSentFirst t c : bstep rt (MkProc MSend WReceive t c) (MkProc MCloseChan WEnd t c)
| BSentTicked f c : bstep rt (MkProc MSend f WReceive c) (MkProc MCloseChan f WEnd c)
| BCloseChan f t c : bstep rt (MkProc MCloseChan f t c) (MkProc (MReturned None) f t true)
| BFirst m f f' t c : wstep c f f' -> bstep rt (MkProc m f t c) (MkProc m f' t c)
| BTicked m f t t' c : wstep c t t' -> bstep rt (MkProc m f t c) (MkProc m f t' c).

(** A tick starts the next run when the last has ended. *)
Inductive tick : proc -> proc -> Prop :=
| Tick m f c : tick (MkProc m f WEnd c) (MkProc m f WRound c).

Definition bstep_or_tick (rt : option error) (a b : proc) : Prop := bstep rt a b \/ tick a b.

(** ** Lemmas *)

Lemma omap_lookup_length {A} (l : list A) (idx : list nat) : Forall (fun i => (i < length l)%nat) idx ->
  length (omap (fun i => l !! i) idx) = length idx.
Proof.
  induction 1 as [|i idx Hi _ IH]; [done|]. cbn. destruct (lookup_lt_is_Some_2 l i Hi) as [x Hx]. rewrite Hx. cbn. by rewrite IH.
Qed.

Lemma omap_lookup_all {A} (l : list A) : omap (fun i => l !! i) (seq 0 (length l)) = l.
Proof.
  induction l as [|x l IH]; [done|]. cbn [length seq]. change (omap (fun i => (x :: l) !! i) (0%nat :: seq 1 (length l)))
    with (x :: omap (fun i => (x :: l) !! i) (seq 1 (length l))).
  rewrite <- fmap_S_seq. assert (E : forall idx : list nat, omap (fun i => (x :: l) !! i) (S <$> idx) = omap (fun i => l !! i) idx).
  { intros idx. induction idx as [|i idx IHi]; [done|]. cbn. by rewrite IHi. }
  f_equal. etransitivity; [apply E|apply IH].
Qed.

Lemma omap_submseteq {A B} (f : A -> option B) l k : l ⊆+ k -> omap f l ⊆+ omap f k.
Proof. intros [m Hm]%submseteq_Permutation. rewrite Hm, omap_app. apply submseteq_inserts_r. done. Qed.

Lemma subset_spec inp max perm : 0 <= max -> perm ≡ₚ seq 0 (length inp) ->
  exists out, randomSubsetOfPeers inp max perm = Ret out /\ out ⊆+ inp /\
    Z.of_nat (length out) = Z.min max (Z.of_nat (length inp)).
Proof.
  intros Hm Hp. unfold randomSubsetOfPeers, slice_to. assert (Hl : length perm = length inp) by (rewrite Hp; by rewrite length_seq).
  set (k := if Z.of_nat (length inp) <? max then Z.of_nat (length inp) else max).
  assert (Hk : k = Z.min max (Z.of_nat (length inp))) by (unfold k; destruct (Z.ltb_spec (Z.of_nat (length inp)) max); lia).
  rewrite Hl. rewrite (proj2 (Z.leb_le 0 k)), (proj2 (Z.leb_le k _)) by lia. cbn [andb].
  eexists. split; [reflexivity|].
  assert (Hsub : take (Z.to_nat k) perm ⊆+ seq 0 (length inp)) by (rewrite <- Hp; apply sublist_submseteq, sublist_take).
  split.
  - transitivity (omap (fun i => inp !! i) (seq 0 (length inp))); [by apply omap_submseteq|by rewrite omap_lookup_all].
  - rewrite omap_lookup_length; [rewrite length_take; lia|].
    apply Forall_forall. intros i Hin. apply (elem_of_submseteq _ _ _ Hin) in Hsub. apply elem_of_seq in Hsub. lia.
Qed.

Lemma omap_length_full {A B} (f : A -> option B) (l : list A) :
  (length (omap f l) <= length l)%nat /\ (length (omap f l) = length l <-> Forall (fun p => is_Some (f p)) l).
Proof.
  induction l as [|q l [IH1 IH2]]; [split; [done|]; split; [intros _; constructor|done]|].
  rewrite Forall_cons. change (omap f (q :: l)) with (match f q with Some y => y :: omap f l | None => omap f l end).
  destruct (f q) as [e|]; cbn [length].
  - split; [lia|]. rewrite <- IH2. split; [intros; split; [done|lia]|intros [_ ?]; lia].
  - split; [lia|]. split; [intros E; exfalso; lia|intros [[] _]; done].
Qed.

(** ** Theorems *)

(** a round dials nothing when the node has enough connections; otherwise it
    dials exactly as many as are missing, or all it has, among the bootstrap peers
    it is not connected to, each entry at most once, whatever permutation is
    drawn; it fails only when there is none. *)
Theorem round_dials_missing (cfg : BootstrapConfig) (connected : nat) (isConnected : AddrInfo -> bool) (perm : list nat) :
  let candidates := filter (fun p => isConnected p = false) (BootstrapPeers cfg) in
  perm ≡ₚ seq 0 (length candidates) ->
  match round_peers cfg connected isConnected perm with
  | Panic _ => False
  | Ret (Err e) => e = ErrNotEnoughBootstrapPeers /\ Z.of_nat connected < MinPeerThreshold cfg /\ candidates = []
  | Ret (Ok dialed) =>
      dialed ⊆+ candidates /\
      Z.of_nat (length dialed) = Z.min (Z.max 0 (MinPeerThreshold cfg - Z.of_nat connected)) (Z.of_nat (length candidates))
  end.
Proof.
  intros candidates Hp. unfold round_peers. fold candidates.
  destruct (Z.leb_spec (MinPeerThreshold cfg) (Z.of_nat connected)) as [Hle|Hgt].
  - split; [apply submseteq_nil_l|]. cbn. lia.
  - cbv zeta. destruct (Nat.ltb_spec (length candidates) 1) as [Hl|Hl].
    + split_and!; [done|done|]. destruct candidates; [done|simpl in Hl; lia].
    + destruct (subset_spec candidates (MinPeerThreshold cfg - Z.of_nat connected) perm) as (out & E & Hs & Hlen); [lia|done|].
      rewrite E. split; [done|]. lia.
Qed.

(** connecting fails exactly when no attempt succeeded, in whatever order the
    attempts finish. *)
Theorem bootstrap_connect_fails_iff (Connect : AddrInfo -> option error) (peers order : list AddrInfo) :
  order ≡ₚ peers ->
  is_Some (bootstrapConnect Connect peers order) <-> Forall (fun p => is_Some (Connect p)) peers.
Proof.
  intros Ho. unfold bootstrapConnect, attempt_errors. destruct peers as [|p peers]; [split; [intros _; constructor|done]|].
  pose proof (omap_length_full Connect) as Hl.
  cbn [length Nat.ltb]. change (S (length peers) <? 1)%nat with false. cbv iota.
  destruct (Hl order) as [_ Ho2]. assert (El : length order = S (length peers)) by (rewrite Ho; done). rewrite El in Ho2.
  assert (HF : Forall (fun q => is_Some (Connect q)) order <-> Forall (fun q => is_Some (Connect q)) (p :: peers)) by (by rewrite Ho).
  rewrite HF in Ho2. destruct (Nat.eqb_spec (length (omap Connect order)) (S (length peers))) as [E|E].
  - split; [intros _; by apply Ho2|done].
  - split; [by intros []|]. intros Hf. by apply Ho2 in Hf.
Qed.

(** *** The process *)

Definition worker_rank (w : worker_pc) : nat := match w with WRound => 2 | WReceive => 1 | WEnd => 0 end.
Definition main_rank (m : main_pc) : nat :=
  match m with MRouting => 3 | MSend | MClose _ => 2 | MCloseChan => 1 | MReturned _ => 0 end.
Definition rank (p : proc) : nat := (main_rank (main p) + worker_rank (first p) + worker_rank (ticked p))%nat.

Lemma bstep_rank rt a b : bstep rt a b -> (rank b < rank a)%nat.
Proof. intros []; unfold rank; cbn; repeat match goal with Hw : wstep _ _ _ |- _ => destruct Hw end; cbn; lia. Qed.

(** While the main function has not returned, the first run has not ended unless
    it has received from it, and the channel is open. *)
Definition binv (p : proc) : Prop :=
  match main p with
  | MRouting | MSend => closed p = false /\ first p <> WEnd
  | MCloseChan => closed p = false
  | MClose _ => False
  | MReturned e => e = None /\ closed p = true
  end.

Lemma wstep_open f f' : wstep false f f' -> f' <> WEnd.
Proof. by intros Hw; inversion Hw. Qed.

Lemma binv_step a b : bstep_or_tick None a b -> binv a -> binv b.
Proof.
  intros [Hs|Ht]; [|by destruct Ht]. destruct Hs as [f t c| | | | | |m f f' t c Hw|m f t t' c Hw]; unfold binv; cbn; try done.
  - by intros [-> _].
  - by intros [-> _].
  - destruct m; cbn; try done; intros [-> _]; (split; [done|]); by eapply wstep_open.
Qed.

(** C30: when the routing system bootstraps without error, [Bootstrap] returns: in
    every reachable state in which it has not, some step other than a tick is
    possible, every such step brings it closer, and where no step is left it has
    returned without error. *)
Theorem bootstrap_returns (p : proc) :
  rtc (bstep_or_tick None) started_proc p ->
  Acc (flip (bstep None)) p /\
  (main p <> MReturned None -> exists p', bstep None p p') /\
  (forall p', rtc (bstep None) p p' -> (forall p'', ~ bstep None p' p'') -> main p' = MReturned None).
Proof.
  intros Hr. assert (Hinv : forall q, rtc (bstep_or_tick None) started_proc q -> binv q).
  { clear Hr. intros q Hq. assert (H0 : binv started_proc) by by split.
    induction Hq as [|a b c Hab _ IH]; [done|]. apply IH. by eapply binv_step. }
  assert (Hprog : forall q, binv q -> main q <> MReturned None -> exists q', bstep None q q').
  { intros [m f t c] Hb Hm. unfold binv in Hb. destruct m as [|e| | |e]; cbn in *.
    - eexists. by apply BRouted.
    - done.
    - destruct Hb as [-> Hf]. destruct f as [| |]; [|eexists; apply BSentFirst|done].
      eexists. apply BFirst, WRoundDone.
    - eexists. apply BCloseChan.
    - destruct Hb as [-> _]. done. }
  split_and!.
  - clear Hr. induction p as [p IH] using (well_founded_induction (well_founded_ltof _ rank)).
    constructor. intros q Hq. apply IH. by eapply bstep_rank.
  - apply Hprog, Hinv, Hr.
  - intros p' Hp' Hstuck. assert (Hb : binv p').
    { apply Hinv. etransitivity; [done|]. clear -Hp'. induction Hp' as [|a b c Hab _ IH]; [done|]. eapply rtc_l; [by left|done]. }
    destruct (main p') as [|e| | |[e|]] eqn:E; try done;
      destruct (Hprog p' Hb ltac:(by rewrite E)) as [q Hq]; by destruct (Hstuck q).
Qed.

(** when the routing system cannot bootstrap, [Bootstrap] never returns the
    error: it closes its process, which waits for the run started at once, which
    waits for a channel that nobody sends to or closes. *)
Theorem bootstrap_routing_error_blocks (e : error) (p : proc) :
  rtc (bstep_or_tick (Some e)) started_proc p -> forall r, main p <> MReturned r.
Proof.
  intros Hr r. set (I := fun p => closed p = false /\ first p <> WEnd /\ (main p = MRouting \/ main p = MClose e)).
  assert (HI : I p).
  { assert (H0 : I started_proc) by (split_and!; [done|done|by left]).
    induction Hr as [|a b c Hab _ IH]; [done|]. apply IH. clear IH. destruct Hab as [Hs|Ht]; [|by destruct Ht].
    destruct Hs as [f t c0 E|e' f t c0 E| | | | |m f f' t c0 Hw|m f t t' c0 Hw]; unfold I in *; cbn in *;
      destruct H0 as (C & Hf & Hm); try done; try (by destruct Hm).
    - split_and!; [done|done|]. right. congruence.
    - subst c0. split_and!; [done|by eapply wstep_open|done]. }
  destruct HI as (_ & _ & [-> | ->]); done.
Qed.

(** ** Witnesses *)

Definition demo_peers : list AddrInfo := [MkAddrInfo "p" []; MkAddrInfo "q" []; MkAddrInfo "r" []].

Lemma round_dials_missing_witness :
  round_peers (MkBootstrapConfig 3 0 0 demo_peers) 1 (fun p => bool_decide (ai_ID p = "q")) [1%nat; 0%nat]
    = Ret (Ok [MkAddrInfo "r" []; MkAddrInfo "p" []]) /\
  [MkAddrInfo "r" []; MkAddrInfo "p" []] ⊆+ [MkAddrInfo "p" []; MkAddrInfo "r" []].
Proof.
  split; [reflexivity|].
  assert (Hp : [1%nat; 0%nat] ≡ₚ [0%nat; 1%nat]) by apply perm_swap.
  exact (proj1 (round_dials_missing (MkBootstrapConfig 3 0 0 demo_peers) 1 (fun p => bool_decide (ai_ID p = "q")) [1%nat; 0%nat] Hp)).
Defined.

Lemma bootstrap_connect_fails_iff_witness :
  is_Some (bootstrapConnect (fun p => Some (ai_ID p)) demo_peers demo_peers) <-> Forall (fun p => is_Some (Some (ai_ID p))) demo_peers.
Proof. by apply (bootstrap_connect_fails_iff (fun p => Some (ai_ID p)) demo_peers demo_peers). Defined.

Lemma bootstrap_returns_witness : exists p', bstep None started_proc p'.
Proof. apply (bootstrap_returns started_proc); [apply rtc_refl|done]. Defined.

Lemma bootstrap_routing_error_blocks_witness : main (MkProc (MClose "no route") WReceive WEnd false) <> MReturned (Some "no route").
Proof.
  apply (bootstrap_routing_error_blocks "no route").
  eapply rtc_l; [left; apply BFirst, WRoundDone|]. eapply rtc_l; [left; by apply BRoutingFailed|]. apply rtc_refl.
Defined.
