(* ===== verification/RoutingConfig.v ===== *)
(** The configuration of routers: [config/routing.go] and the [Duration] of
    [config/types.go].

    [RouterParser_UnmarshalJSON] decodes a router in two passes, as the source
    does: first the type and the raw parameters, then the parameters as the type
    says.  The decoder of structs is that of [encoding/json]: keys in the order of
    the document, names compared without case, unknown keys ignored, the first
    type error reported after the rest was decoded. *)
From Stdlib Require Import ZArith Lia String Ascii.
From stdpp Require Import base list strings gmap.
From S2P Require Import Prelude GoStrings GoPath ConfigTypes ConfigMap.

Local Open Scope Z_scope.

(** ** Data *)

Definition RouterTypeReframe : string := "reframe".
Definition RouterTypeDHT : string := "dht".
Definition RouterTypeSequential : string := "sequential".
Definition RouterTypeParallel : string := "parallel".

Definition DHTModeServer : string := "server".
Definition DHTModeClient : string := "client".
Definition DHTModeAuto : string := "auto".

Definition MethodNameProvide : string := "provide".
Definition MethodNameFindProviders : string := "find-providers".
Definition MethodNameFindPeers : string := "find-peers".
Definition MethodNameGetIPNS : string := "get-ipns".
Definition MethodNamePutIPNS : string := "put-ipns".
Definition MethodNameList : list string :=
  [MethodNameProvide; MethodNameFindPeers; MethodNameFindProviders; MethodNameGetIPNS; MethodNamePutIPNS].

(** Durations are in nanoseconds. *)
Record ConfigRouter := MkConfigRouter {
  cr_RouterName : string;
  cr_Timeout : Z;
  cr_IgnoreErrors : bool;
  cr_ExecuteAfter : option OptionalDuration;
}.
Record ReframeRouterParams := MkReframe { Endpoint : string }.
Record DHTRouterParams := MkDHTParams { dht_Mode : string; AcceleratedDHTClient : bool; PublicIPNetwork : bool }.
Record ComposableRouterParams := MkComposable { crp_Routers : list ConfigRouter; crp_Timeout : option OptionalDuration }.

(** The dynamic types a router's [Parameters interface{}] can hold after
    decoding; [PGeneric None] is the nil interface. *)
Inductive router_params :=
| PReframe (p : ReframeRouterParams)
| PDHT (p : DHTRouterParams)
| PComposable (p : ComposableRouterParams)
| PGeneric (v : option json).

Record Router := MkRouter { rt_Type : string; Parameters : router_params }.

Abbreviation Routers := (gmap string Router).
(** A method has only the name of its router. *)
Abbreviation Methods := (gmap string string).

(** ** [Methods.Check]; [order]: the keys of the map as they are iterated *)

Fixpoint first_missing (names : list string) (m : Methods) : option string :=
  match names with
  | [] => None
  | mn :: names => match m !! mn with Some _ => first_missing names m | None => Some mn end
  end.

Fixpoint first_unsupported (keys : list string) : option string :=
  match keys with
  | [] => None
  | k :: keys => if existsb (String.eqb k) MethodNameList then first_unsupported keys else Some k
  end.

Definition Check (m : Methods) (order : list string) : option error :=
  match first_missing MethodNameList m with
  | Some mn => Some ("method name " +:+ quoted mn +:+ " is missing from Routing.Methods config param")
  | None =>
      match first_unsupported order with
      | Some k => Some ("method name " +:+ quoted k +:+ " is not a supported method on Routing.Methods config param")
      | None => None
      end
  end.

(** ** Decoding *)

(** What of the standard library's text forms the decoders use: the raw text of a
    value, and the nanoseconds of a number. *)
Class JSONText := {
  raw_text : json -> string;
  float_ns : string -> result Z;
}.

Abbreviation lower := ToLower.

Section Decoding.
Context `{DurationText, JSONText}.

Definition type_error (field : string) : error := "json: cannot unmarshal into Go struct field " +:+ field.

(** One struct: the setter of the field a key names is applied to its value. *)
Fixpoint decode_fields {S} (fields : list (string * (json -> S -> result S))) (m : object) (s : S) (err : option error)
  : result S :=
  match m with
  | [] => match err with Some e => Err e | None => Ok s end
  | (k, v) :: m =>
      match List.find (fun f => String.eqb (lower f.1) (lower k)) fields with
      | None => decode_fields fields m s err
      | Some f =>
          match f.2 v s with
          | Ok s => decode_fields fields m s err
          | Err e => decode_fields fields m s (match err with Some _ => err | None => Some e end)
          end
      end
  end.

Definition decode_struct {S} (fields : list (string * (json -> S -> result S))) (zero : S) (v : json) : result S :=
  match v with
  | JObj m => decode_fields fields m zero None
  | JNull => Ok zero
  | _ => Err (type_error "")
  end.

Definition set_string {S} (name : string) (set : string -> S -> S) : string * (json -> S -> result S) :=
  (name, fun v s => match v with JStr t => Ok (set t s) | JNull => Ok s | _ => Err (type_error name) end).
Definition set_bool {S} (name : string) (set : bool -> S -> S) : string * (json -> S -> result S) :=
  (name, fun v s => match v with JBool b => Ok (set b s) | JNull => Ok s | _ => Err (type_error name) end).

(** [(d *Duration) UnmarshalJSON]: called for every value, null included. *)
Definition Duration_UnmarshalJSON (v : json) : result Z :=
  match v with
  | JNum lit => float_ns lit
  | JStr value => match ParseDuration value with Some d => Ok d | None => Err ("time: invalid duration " +:+ quoted value) end
  | _ => Err "unable to parse duration, expected a duration string or a float"
  end.

Definition set_duration {S} (name : string) (set : Z -> S -> S) : string * (json -> S -> result S) :=
  (name, fun v s => match Duration_UnmarshalJSON v with Ok d => Ok (set d s) | Err e => Err e end).
(** A pointer field: null makes it nil. *)
Definition set_optional {S} (name : string) (set : option OptionalDuration -> S -> S) : string * (json -> S -> result S) :=
  (name, fun v s =>
     match v with
     | JNull => Ok (set None s)
     | _ => match OptionalDuration_UnmarshalJSON (raw_text v) with Ok d => Ok (set (Some d) s) | Err e => Err e end
     end).

Definition reframe_fields : list (string * (json -> ReframeRouterParams -> result ReframeRouterParams)) :=
  [set_string "Endpoint" (fun t _ => MkReframe t)].
Definition dht_fields : list (string * (json -> DHTRouterParams -> result DHTRouterParams)) :=
  [set_string "Mode" (fun t p => MkDHTParams t (AcceleratedDHTClient p) (PublicIPNetwork p));
   set_bool "AcceleratedDHTClient" (fun b p => MkDHTParams (dht_Mode p) b (PublicIPNetwork p));
   set_bool "PublicIPNetwork" (fun b p => MkDHTParams (dht_Mode p) (AcceleratedDHTClient p) b)].
Definition config_router_fields : list (string * (json -> ConfigRouter -> result ConfigRouter)) :=
  [set_string "RouterName" (fun t c => MkConfigRouter t (cr_Timeout c) (cr_IgnoreErrors c) (cr_ExecuteAfter c));
   set_duration "Timeout" (fun d c => MkConfigRouter (cr_RouterName c) d (cr_IgnoreErrors c) (cr_ExecuteAfter c));
   set_bool "IgnoreErrors" (fun b c => MkConfigRouter (cr_RouterName c) (cr_Timeout c) b (cr_ExecuteAfter c));
   set_optional "ExecuteAfter" (fun d c => MkConfigRouter (cr_RouterName c) (cr_Timeout c) (cr_IgnoreErrors c) d)].

Fixpoint decode_routers (l : list json) : result (list ConfigRouter) :=
  match l with
  | [] => Ok []
  | v :: l =>
      match decode_struct config_router_fields (MkConfigRouter "" 0 false None) v with
      | Err e => Err e
      | Ok c => match decode_routers l with Err e => Err e | Ok cs => Ok (c :: cs) end
      end
  end.

Definition composable_fields : list (string * (json -> ComposableRouterParams -> result ComposableRouterParams)) :=
  [("Routers", fun v p =>
     match v with
     | JNull => Ok (MkComposable [] (crp_Timeout p))
     | JArr l => match decode_routers l with Ok cs => Ok (MkComposable cs (crp_Timeout p)) | Err e => Err e end
     | _ => Err (type_error "Routers")
     end);
   set_optional "Timeout" (fun d p => MkComposable (crp_Routers p) d)].

(** The first pass: [out.Parameters] is an interface that holds a pointer to a
    raw message; null empties the interface, and a value put into the empty
    interface afterwards is a generic one. *)
Inductive raw_iface := RawMessage (v : option json) | RawNil | RawGeneric.

Definition set_raw (v : json) (r : raw_iface) : raw_iface :=
  match v, r with
  | JNull, _ => RawNil
  | _, RawMessage _ => RawMessage (Some v)
  | _, _ => RawGeneric
  end.

Definition outer_fields : list (string * (json -> string * raw_iface -> result (string * raw_iface))) :=
  [set_string "Type" (fun t o => (t, o.2)); ("Parameters", fun v o => Ok (o.1, set_raw v o.2))].

(** The second pass. *)
Definition decode_params (type : string) (v : json) : result router_params :=
  if String.eqb type RouterTypeReframe then
    match decode_struct reframe_fields (MkReframe "") v with Ok p => Ok (PReframe p) | Err e => Err e end
  else if String.eqb type RouterTypeDHT then
    match decode_struct dht_fields (MkDHTParams "" false false) v with Ok p => Ok (PDHT p) | Err e => Err e end
  else if String.eqb type RouterTypeSequential || String.eqb type RouterTypeParallel then
    match decode_struct composable_fields (MkComposable [] None) v with Ok p => Ok (PComposable p) | Err e => Err e end
  else Ok (PGeneric (Some v)).

Definition RouterParser_UnmarshalJSON (b : json) : outcome (result Router) :=
  match decode_struct outer_fields ("", RawMessage None) b with
  | Err e => Ret (Err e)
  | Ok (type, RawNil) => Panic "interface conversion: interface {} is nil, not *json.RawMessage"
  | Ok (type, RawGeneric) => Panic "interface conversion: interface {} is not *json.RawMessage"
  | Ok (type, RawMessage None) => Ret (Err "unexpected end of JSON input")
  | Ok (type, RawMessage (Some raw)) =>
      match decode_params type raw with
      | Err e => Ret (Err e)
      | Ok p => Ret (Ok (MkRouter type p))
      end
  end.

End Decoding.

(** ** What the router factory relies on *)

Definition composable (type : string) : bool := String.eqb type RouterTypeSequential || String.eqb type RouterTypeParallel.

(** The parameters of a router have the dynamic type its [Type] asks for. *)
Definition params_match (r : Router) : bool :=
  if String.eqb (rt_Type r) RouterTypeReframe then match Parameters r with PReframe _ => true | _ => false end
  else if String.eqb (rt_Type r) RouterTypeDHT then match Parameters r with PDHT _ => true | _ => false end
  else if composable (rt_Type r) then match Parameters r with PComposable _ => true | _ => false end
  else match Parameters r with PGeneric _ => true | _ => false end.

(** ** Lemmas *)

Lemma first_missing_spec names m : first_missing names m = None <-> Forall (fun mn => is_Some (m !! mn)) names.
Proof.
  induction names as [|mn names IH]; [done|]. cbn. rewrite Forall_cons, <- IH.
  destruct (m !! mn); [naive_solver|]. split; [done|]. by intros [[] _].
Qed.

Lemma first_unsupported_spec keys : first_unsupported keys = None <-> Forall (fun k => k ∈ MethodNameList) keys.
Proof.
  induction keys as [|k keys IH]; [done|]. cbn [first_unsupported]. rewrite Forall_cons, <- IH.
  destruct (existsb (String.eqb k) MethodNameList) eqn:E.
  - apply existsb_exists in E as (x & Hx & ->%String.eqb_eq). apply list_elem_of_In in Hx. naive_solver.
  - split; [done|]. intros [Hk _]. apply list_elem_of_In in Hk.
    assert (existsb (String.eqb k) MethodNameList = true) by (apply existsb_exists; exists k; by rewrite String.eqb_refl). congruence.
Qed.

(** ** Theorems *)

(** [Methods.Check] accepts exactly the maps that name a router for each of
    the five methods and for nothing else, in whatever order the map is
    iterated. *)
Theorem methods_check_exact (m : Methods) (order : list string) :
  order ≡ₚ (map_to_list m).*1 ->
  Check m order = None <-> dom m =@{gset string} list_to_set MethodNameList.
Proof.
  intros Ho. unfold Check. assert (Hk : forall k, k ∈ order <-> k ∈ (dom m : gset string)).
  { intros k. rewrite Ho. rewrite (elem_of_dom (D := gset string) m k). split.
    - intros ([k' v] & -> & Hin)%list_elem_of_fmap. apply elem_of_map_to_list in Hin. by exists v.
    - intros [v Hv]. apply list_elem_of_fmap. exists (k, v). split; [done|]. by apply elem_of_map_to_list. }
  destruct (first_missing MethodNameList m) as [mn|] eqn:E1.
  - split; [done|]. intros Hd. assert (first_missing MethodNameList m = None); [|congruence].
    apply first_missing_spec, Forall_forall. intros k Hk'. apply elem_of_dom. rewrite Hd. by apply elem_of_list_to_set.
  - apply first_missing_spec in E1. rewrite Forall_forall in E1.
    assert (Hl : (match first_unsupported order with Some k => Some ("method name " +:+ quoted k +:+ " is not a supported method on Routing.Methods config param") | None => None end = None) <-> first_unsupported order = None)
      by (destruct (first_unsupported order); naive_solver).
    rewrite Hl, first_unsupported_spec, Forall_forall. split.
    + intros Hu. apply set_eq. intros k. rewrite elem_of_list_to_set, <- Hk. split; [apply Hu|]. intros Hin. apply Hk, elem_of_dom, E1, Hin.
    + intros Hd k Hin. apply Hk in Hin. rewrite Hd in Hin. by apply elem_of_list_to_set in Hin.
Qed.

(** C22: a router that was decoded has parameters of the dynamic type its factory
    asserts: those of reframe for type reframe, those of the DHT for dht, those of a
    composition for sequential and parallel, and for any other type, for which there
    is no factory, a generic value. *)
Theorem decoded_params_match `{DurationText, JSONText} (b : json) (r : Router) :
  RouterParser_UnmarshalJSON b = Ret (Ok r) -> params_match r = true.
Proof.
  unfold RouterParser_UnmarshalJSON. destruct (decode_struct outer_fields _ b) as [[type [[raw|]| |]]|e]; try done.
  destruct (decode_params type raw) as [p|e] eqn:E; [|done]. intros [= <-]. revert E.
  unfold decode_params, params_match, composable. cbn [rt_Type Parameters].
  destruct (String.eqb type RouterTypeReframe); [destruct (decode_struct _ _ _); naive_solver|].
  destruct (String.eqb type RouterTypeDHT); [destruct (decode_struct _ _ _); naive_solver|].
  destruct (String.eqb type RouterTypeSequential || String.eqb type RouterTypeParallel); [destruct (decode_struct _ _ _); naive_solver|naive_solver].
Qed.

(** a router whose parameters are null stops the program: whatever its type, the
    decoder of the configuration panics. *)
Theorem null_params_panic `{DurationText, JSONText} (type : string) :
  exists m, RouterParser_UnmarshalJSON (JObj [("Type", JStr type); ("Parameters", JNull)]) = Panic m.
Proof. by eexists. Qed.

(** ** Witnesses *)

Definition demo_json_text : JSONText := {| raw_text := fun _ => "null"; float_ns := fun _ => Ok 0 |}.

Definition demo_methods : Methods :=
  {[ MethodNameProvide := "all"; MethodNameFindPeers := "dht"; MethodNameFindProviders := "all";
     MethodNameGetIPNS := "dht"; MethodNamePutIPNS := "dht" ]}.

Lemma methods_check_exact_witness :
  Check demo_methods (map_to_list demo_methods).*1 = None /\ dom demo_methods =@{gset string} list_to_set MethodNameList.
Proof.
  assert (E : Check demo_methods (map_to_list demo_methods).*1 = None) by (vm_compute; reflexivity).
  split; [exact E|]. exact (proj1 (methods_check_exact demo_methods _ (Permutation_refl _)) E).
Defined.

Definition demo_router_json : json :=
  JObj [("Type", JStr "parallel"); ("Parameters", JObj [("Routers", JArr [JObj [("RouterName", JStr "dht"); ("ignoreerrors", JBool true)]])])].
Definition demo_router : Router :=
  MkRouter "parallel" (PComposable (MkComposable [MkConfigRouter "dht" 0 true None] None)).

Lemma decoded_params_match_witness :
  @RouterParser_UnmarshalJSON nanosecond_text demo_json_text demo_router_json = Ret (Ok demo_router) /\ params_match demo_router = true.
Proof.
  assert (E : @RouterParser_UnmarshalJSON nanosecond_text demo_json_text demo_router_json = Ret (Ok demo_router)) by reflexivity.
  split; [exact E|]. exact (@decoded_params_match nanosecond_text demo_json_text demo_router_json demo_router E).
Defined.
