(* ===== verification/Delegated.v ===== *)
(** Delegated and composed routing: [routing/delegated.go], [routing/composer.go],
    [routing/wrapper.go] and [routing/error.go].

    The routers of the libraries are opaque values with the operations of
    [routing.Routing]; their constructors act on a state of the node.  [parse] is
    the recursive factory with its two shared maps, [visited] and
    [createdRouters]. *)
From Stdlib Require Import ZArith Lia String.
From stdpp Require Import base list strings gmap sets relations.
From S2P Require Import Prelude GoStrings ConfigTypes ConfigMap RoutingConfig.

Local Open Scope Z_scope.

(** ** The libraries *)

(** [Lib]: routers of the libraries; [DRClient], [Client]: clients of the
    delegated-routing library. *)
Class RouterTypes := { Lib : Type; DRClient : Type; Client : Type; PrivKey : Type; NodeState : Type }.

(** [reframeRoutingWrapper]: a client and the content-routing client made of it. *)
Inductive routing `{RouterTypes} :=
| reframeRoutingWrapper (c : Client)
| LibRouting (l : Lib).

Record ParallelRouter `{RouterTypes} := MkParallel {
  pr_Router : routing; pr_IgnoreError : bool; pr_Timeout : Z; pr_ExecuteAfter : Z }.
Record SequentialRouter `{RouterTypes} := MkSequential {
  sr_Router : routing; sr_IgnoreError : bool; sr_Timeout : Z }.

Arguments MkParallel {_}. Arguments MkSequential {_}.

Inductive ModeOpt := ModeAuto | ModeClient | ModeServer.

(** [public]: the filters for public networks, or those for private ones. *)
Inductive dht_option :=
| QueryFilter (public : bool)
| RoutingTableFilter (public : bool)
| RoutingTablePeerDiversityFilter (perCpl perTable : Z)
| ProtocolExtension_Lan
| Concurrency (n : Z)
| Mode (m : ModeOpt)
| Datastore
| Validator
| BootstrapPeersOpt (peers : list string)
| BucketSize (n : Z).

Record Provider := MkProvider { prov_ID : string; prov_Addrs : list string; prov_Protos : list string }.

Class RouterEnv `{RouterTypes} := {
  New_DelegatedRouting_Client : string -> result DRClient;
  view_Register : NodeState -> option error * NodeState;
  peer_Decode : string -> result string;
  NewMultiaddr : string -> result string;
  base64_DecodeString : string -> result string;
  UnmarshalPrivateKey : string -> result PrivKey;
  NewClient : DRClient -> option (Provider * PrivKey) -> result Client;
  dht_New : list dht_option -> NodeState -> result Lib * NodeState;
  NewFullRT : list dht_option -> NodeState -> result Lib * NodeState;
  NewComposableParallel : list ParallelRouter -> Lib;
  NewComposableSequential : list SequentialRouter -> Lib;
  (** the operations of library routers, and of clients where the wrapper has none of its own *)
  lib_Provide : Lib -> string -> bool -> NodeState -> option error * NodeState;
  lib_ProvideMany : Lib -> option (list string -> NodeState -> option error * NodeState);
  lib_Ready : Lib -> option bool;
  lib_FindProviders : Lib -> string -> Z -> NodeState -> list string * NodeState;
  lib_FindPeer : Lib -> string -> NodeState -> result string * NodeState;
  lib_PutValue : Lib -> string -> string -> NodeState -> option error * NodeState;
  lib_GetValue : Lib -> string -> NodeState -> result string * NodeState;
  lib_SearchValue : Lib -> string -> NodeState -> result (list string) * NodeState;
  lib_Bootstrap : Lib -> NodeState -> option error * NodeState;
  client_Provide : Client -> string -> bool -> NodeState -> option error * NodeState;
  client_ProvideMany : Client -> list string -> NodeState -> option error * NodeState;
  client_Ready : Client -> bool;
  client_FindProviders : Client -> string -> Z -> NodeState -> list string * NodeState;
  client_PutValue : Client -> string -> string -> NodeState -> option error * NodeState;
  client_GetValue : Client -> string -> NodeState -> result string * NodeState;
  client_SearchValue : Client -> string -> NodeState -> result (list string) * NodeState;
  (** the text of [multierror.Append(e, es...)] *)
  multierror_Append : option error -> list (option error) -> error;
}.

Record ExtraReframeParams := MkExtraReframe { PeerID : string; Addrs : list string; PrivKeyB64 : string }.

Section Factory.
Context `{RouterEnv}.

(** ** [routing/wrapper.go]: the interface of routers *)

Definition ErrNotSupported : error := "routing: operation or key not supported".

Definition r_Provide (r : routing) (id : string) (announce : bool) (s : NodeState) : option error * NodeState :=
  match r with reframeRoutingWrapper c => client_Provide c id announce s | LibRouting l => lib_Provide l id announce s end.
Definition r_FindProvidersAsync (r : routing) (id : string) (count : Z) (s : NodeState) : list string * NodeState :=
  match r with reframeRoutingWrapper c => client_FindProviders c id count s | LibRouting l => lib_FindProviders l id count s end.
Definition r_Bootstrap (r : routing) (s : NodeState) : option error * NodeState :=
  match r with reframeRoutingWrapper _ => (None, s) | LibRouting l => lib_Bootstrap l s end.
Definition r_FindPeer (r : routing) (id : string) (s : NodeState) : result string * NodeState :=
  match r with reframeRoutingWrapper _ => (Err ErrNotSupported, s) | LibRouting l => lib_FindPeer l id s end.
Definition r_PutValue (r : routing) (k v : string) (s : NodeState) : option error * NodeState :=
  match r with reframeRoutingWrapper c => client_PutValue c k v s | LibRouting l => lib_PutValue l k v s end.
Definition r_GetValue (r : routing) (k : string) (s : NodeState) : result string * NodeState :=
  match r with reframeRoutingWrapper c => client_GetValue c k s | LibRouting l => lib_GetValue l k s end.
Definition r_SearchValue (r : routing) (k : string) (s : NodeState) : result (list string) * NodeState :=
  match r with reframeRoutingWrapper c => client_SearchValue c k s | LibRouting l => lib_SearchValue l k s end.
(** The type assertion to [ProvideManyRouter]. *)
Definition r_ProvideMany (r : routing) : option (list string -> NodeState -> option error * NodeState) :=
  match r with reframeRoutingWrapper c => Some (client_ProvideMany c) | LibRouting l => lib_ProvideMany l end.
Definition r_Ready (r : routing) : option bool :=
  match r with reframeRoutingWrapper c => Some (client_Ready c) | LibRouting l => lib_Ready l end.

(** ** [routing/composer.go]; a field that was not set is a nil interface *)

Record Composer := MkComposer {
  GetValueRouter : option routing;
  PutValueRouter : option routing;
  FindPeersRouter : option routing;
  FindProvidersRouter : option routing;
  ProvideRouter : option routing;
}.

Definition nil_deref {A} : outcome A := Panic "invalid memory address or nil pointer dereference".

Definition call {A} (r : option routing) (f : routing -> NodeState -> A * NodeState) (s : NodeState) : outcome (A * NodeState) :=
  match r with Some r => Ret (f r s) | None => nil_deref end.

Definition c_Provide (c : Composer) id provide := call (ProvideRouter c) (fun r => r_Provide r id provide).
Definition c_ProvideMany (c : Composer) (keys : list string) (s : NodeState) : option error * NodeState :=
  match ProvideRouter c with
  | Some r => match r_ProvideMany r with Some pmr => pmr keys s | None => (None, s) end
  | None => (None, s)
  end.
Definition c_Ready (c : Composer) : bool :=
  match ProvideRouter c with Some r => default false (r_Ready r) | None => false end.
Definition c_FindProvidersAsync (c : Composer) id count := call (FindProvidersRouter c) (fun r => r_FindProvidersAsync r id count).
Definition c_FindPeer (c : Composer) pid := call (FindPeersRouter c) (fun r => r_FindPeer r pid).
Definition c_PutValue (c : Composer) k v := call (PutValueRouter c) (fun r => r_PutValue r k v).
Definition c_GetValue (c : Composer) k := call (GetValueRouter c) (fun r => r_GetValue r k).
Definition c_SearchValue (c : Composer) k := call (GetValueRouter c) (fun r => r_SearchValue r k).

(** The result is the pointer [multierror.Append] returns, converted to an
    interface: not nil, whatever it points to. *)
Definition c_Bootstrap (c : Composer) (s : NodeState) : outcome (option error * NodeState) :=
  match call (FindPeersRouter c) r_Bootstrap s with
  | Panic m => Panic m
  | Ret (errfp, s) =>
      match call (FindProvidersRouter c) r_Bootstrap s with
      | Panic m => Panic m
      | Ret (errfps, s) =>
          match call (GetValueRouter c) r_Bootstrap s with
          | Panic m => Panic m
          | Ret (errgv, s) =>
              match call (PutValueRouter c) r_Bootstrap s with
              | Panic m => Panic m
              | Ret (errpv, s) =>
                  match call (ProvideRouter c) r_Bootstrap s with
                  | Panic m => Panic m
                  | Ret (errp, s) => Ret (Some (multierror_Append errfp [errfps; errgv; errpv; errp]), s)
                  end
              end
          end
      end
  end.

(** ** [routing/error.go] *)

Definition NewParamNeededErr (param routing : string) : error :=
  "configuration param '" +:+ param +:+ "' is needed for " +:+ routing +:+ " delegated routing types".

(** ** Constructors of single routers *)

Inductive made_result (A : Type) := Done (a : A) | Failed (e : error) | Panicked (m : string) | OutOfFuel.
Arguments Done {A}. Arguments Failed {A}. Arguments Panicked {A}. Arguments OutOfFuel {A}.

Definition of_res {A} (r : result A) : made_result A := match r with Ok a => Done a | Err e => Failed e end.

Definition decodePrivKey (keyB64 : string) : result PrivKey :=
  match base64_DecodeString keyB64 with Err e => Err e | Ok pk => UnmarshalPrivateKey pk end.

Fixpoint multiaddrs (addrs : list string) : result (list string) :=
  match addrs with
  | [] => Ok []
  | a :: addrs =>
      match NewMultiaddr a with
      | Err e => Err e
      | Ok m => match multiaddrs addrs with Err e => Err e | Ok ms => Ok (m :: ms) end
      end
  end.

Definition createProvider (peerID : string) (addrs : list string) : result Provider :=
  match peer_Decode peerID with
  | Err e => Err e
  | Ok pID =>
      match multiaddrs addrs with
      | Err e => Err e
      | Ok mas => Ok (MkProvider pID mas ["transport-bitswap"])
      end
  end.

Definition reframeRoutingFromConfig (conf : Router) (extraReframe : option ExtraReframeParams) (s : NodeState)
  : made_result routing * NodeState :=
  match Parameters conf with
  | PReframe params =>
      if String.eqb (Endpoint params) "" then (Failed (NewParamNeededErr "Endpoint" (rt_Type conf)), s)
      else match New_DelegatedRouting_Client (Endpoint params) with
      | Err e => (Failed e, s)
      | Ok dr =>
          let '(err, s) := view_Register s in
          match err with
          | Some e => (Failed ("registering delegated routing views: " +:+ e), s)
          | None =>
              let c :=
                match extraReframe with
                | None => NewClient dr None
                | Some x =>
                    match createProvider (PeerID x) (Addrs x) with
                    | Err e => Err e
                    | Ok prov =>
                        match decodePrivKey (PrivKeyB64 x) with
                        | Err e => Err e
                        | Ok key => NewClient dr (Some (prov, key))
                        end
                    end
                end in
              match c with
              | Err e => (Failed e, s)
              | Ok c => (Done (reframeRoutingWrapper c), s)
              end
          end
      end
  | _ => (Panicked "interface conversion: Parameters is not *config.ReframeRouterParams", s)
  end.

Definition createDHT (bootstrapPeers : list string) (public : bool) (mode : ModeOpt) (s : NodeState)
  : made_result routing * NodeState :=
  let opts :=
    if public then [QueryFilter true; RoutingTableFilter true; RoutingTablePeerDiversityFilter 2 3]
    else [ProtocolExtension_Lan; QueryFilter false; RoutingTableFilter false] in
  let '(r, s) := dht_New (opts ++ [Concurrency 10; Mode mode; Datastore; Validator; BootstrapPeersOpt bootstrapPeers]) s in
  (of_res (match r with Ok l => Ok (LibRouting l) | Err e => Err e end), s).

Definition createFullRT (bootstrapPeers : list string) (s : NodeState) : made_result routing * NodeState :=
  let '(r, s) := NewFullRT [Validator; Datastore; BootstrapPeersOpt bootstrapPeers; BucketSize 20] s in
  (of_res (match r with Ok l => Ok (LibRouting l) | Err e => Err e end), s).

Definition dhtRoutingFromConfig (conf : Router) (bootstrapPeers : list string) (s : NodeState)
  : made_result routing * NodeState :=
  match Parameters conf with
  | PDHT params =>
      if AcceleratedDHTClient params then createFullRT bootstrapPeers s
      else if String.eqb (dht_Mode params) DHTModeAuto then createDHT bootstrapPeers (PublicIPNetwork params) ModeAuto s
      else if String.eqb (dht_Mode params) DHTModeClient then createDHT bootstrapPeers (PublicIPNetwork params) ModeClient s
      else if String.eqb (dht_Mode params) DHTModeServer then createDHT bootstrapPeers (PublicIPNetwork params) ModeServer s
      else (Failed ("invalid DHT mode: " +:+ quoted (dht_Mode params)), s)
  | _ => (Failed "incorrect params for DHT router", s)
  end.

(** ** The factory *)

(** [made]: the names of the routers logged as created, in order. *)
Record pstate := MkP { visited : gset string; createdRouters : gmap string routing; made : list string; node : NodeState }.

Definition visit (name : string) (s : pstate) : pstate :=
  MkP ({[name]} ∪ visited s) (createdRouters s) (made s) (node s).
Definition record_router (name : string) (r : routing) (s : pstate) : pstate :=
  MkP (visited s) (<[name := r]> (createdRouters s)) (made s ++ [name]) (node s).
Definition with_node (n : NodeState) (s : pstate) : pstate := MkP (visited s) (createdRouters s) (made s) n.

Fixpoint parse_children (p : string -> pstate -> made_result routing * pstate) (crs : list ConfigRouter) (s : pstate)
  : made_result (list (ConfigRouter * routing)) * pstate :=
  match crs with
  | [] => (Done [], s)
  | cr :: crs =>
      let '(ri, s) := p (cr_RouterName cr) s in
      match ri with
      | Done ri =>
          let '(rs, s) := parse_children p crs s in
          match rs with
          | Done rs => (Done ((cr, ri) :: rs), s)
          | Failed e => (Failed e, s) | Panicked m => (Panicked m, s) | OutOfFuel => (OutOfFuel, s)
          end
      | Failed e => (Failed e, s) | Panicked m => (Panicked m, s) | OutOfFuel => (OutOfFuel, s)
      end
  end.

Definition to_parallel (x : ConfigRouter * routing) : ParallelRouter :=
  MkParallel x.2 (cr_IgnoreErrors x.1) (cr_Timeout x.1) (OptionalDuration_WithDefault (cr_ExecuteAfter x.1) 0).
Definition to_sequential (x : ConfigRouter * routing) : SequentialRouter :=
  MkSequential x.2 (cr_IgnoreErrors x.1) (cr_Timeout x.1).

Definition compose (type : string) (rs : list (ConfigRouter * routing)) : routing :=
  LibRouting (if String.eqb type RouterTypeParallel then NewComposableParallel (to_parallel <$> rs)
              else NewComposableSequential (to_sequential <$> rs)).

Definition build (p : string -> pstate -> made_result routing * pstate) (peers : list string) (extraReframe : option ExtraReframeParams)
    (cfg : Router) (s : pstate) : made_result routing * pstate :=
  if String.eqb (rt_Type cfg) RouterTypeReframe then
    let '(r, n) := reframeRoutingFromConfig cfg extraReframe (node s) in (r, with_node n s)
  else if String.eqb (rt_Type cfg) RouterTypeDHT then
    let '(r, n) := dhtRoutingFromConfig cfg peers (node s) in (r, with_node n s)
  else if String.eqb (rt_Type cfg) RouterTypeParallel || String.eqb (rt_Type cfg) RouterTypeSequential then
    match Parameters cfg with
    | PComposable crp =>
        let '(rs, s) := parse_children p (crp_Routers crp) s in
        match rs with
        | Done rs => (Done (compose (rt_Type cfg) rs), s)
        | Failed e => (Failed e, s) | Panicked m => (Panicked m, s) | OutOfFuel => (OutOfFuel, s)
        end
    | _ => (Panicked "interface conversion: Parameters is not *config.ComposableRouterParams", s)
    end
  else (Failed ("unknown router type " +:+ quoted (rt_Type cfg)), s).

Fixpoint parse (fuel : nat) (routersCfg : Routers) (peers : list string) (extraReframe : option ExtraReframeParams)
    (routerName : string) (s : pstate) : made_result routing * pstate :=
  match fuel with
  | O => (OutOfFuel, s)
  | S fuel =>
      match createdRouters s !! routerName with
      | Some r => (Done r, s)
      | None =>
          if decide (routerName ∈ visited s) then (Failed ("dependency loop creating router with name " +:+ quoted routerName), s)
          else
            let s := visit routerName s in
            match routersCfg !! routerName with
            | None => (Failed ("config for router with name " +:+ quoted routerName +:+ " not found"), s)
            | Some cfg =>
                let '(router, s) := build (parse fuel routersCfg peers extraReframe) peers extraReframe cfg s in
                match router with
                | Done router => (Done router, record_router routerName router s)
                | other => (other, s)
                end
            end
      end
  end.

Definition set_method (mn : string) (r : routing) (c : Composer) : Composer :=
  if String.eqb mn MethodNamePutIPNS then MkComposer (GetValueRouter c) (Some r) (FindPeersRouter c) (FindProvidersRouter c) (ProvideRouter c)
  else if String.eqb mn MethodNameGetIPNS then MkComposer (Some r) (PutValueRouter c) (FindPeersRouter c) (FindProvidersRouter c) (ProvideRouter c)
  else if String.eqb mn MethodNameFindPeers then MkComposer (GetValueRouter c) (PutValueRouter c) (Some r) (FindProvidersRouter c) (ProvideRouter c)
  else if String.eqb mn MethodNameFindProviders then MkComposer (GetValueRouter c) (PutValueRouter c) (FindPeersRouter c) (Some r) (ProvideRouter c)
  else if String.eqb mn MethodNameProvide then MkComposer (GetValueRouter c) (PutValueRouter c) (FindPeersRouter c) (FindProvidersRouter c) (Some r)
  else c.

Definition method_router (mn : string) (c : Composer) : option routing :=
  if String.eqb mn MethodNamePutIPNS then PutValueRouter c
  else if String.eqb mn MethodNameGetIPNS then GetValueRouter c
  else if String.eqb mn MethodNameFindPeers then FindPeersRouter c
  else if String.eqb mn MethodNameFindProviders then FindProvidersRouter c
  else if String.eqb mn MethodNameProvide then ProvideRouter c else None.

(** The loop over the methods; [visited] is a new map for each. *)
Fixpoint parse_methods (p : string -> pstate -> made_result routing * pstate) (methods : list (string * string)) (c : Composer) (s : pstate)
  : made_result Composer * pstate :=
  match methods with
  | [] => (Done c, s)
  | (mn, name) :: methods =>
      let '(router, s) := p name (MkP ∅ (createdRouters s) (made s) (node s)) in
      match router with
      | Done router => parse_methods p methods (set_method mn router c) s
      | Failed e => (Failed e, s) | Panicked m => (Panicked m, s) | OutOfFuel => (OutOfFuel, s)
      end
  end.

Definition empty_composer : Composer := MkComposer None None None None None.

(** Enough for every chain of routers without repetition. *)
Definition parse_fuel (routers : Routers) : nat := S (size routers).

(** [order]: the methods as the map is iterated. *)
Definition Parse (routers : Routers) (methods : Methods) (order : list (string * string)) (peers : list string)
    (extraReframe : option ExtraReframeParams) (n : NodeState) : made_result Composer * pstate :=
  match Check methods order.*1 with
  | Some e => (Failed e, MkP ∅ ∅ [] n)
  | None => parse_methods (parse (parse_fuel routers) routers peers extraReframe) order empty_composer (MkP ∅ ∅ [] n)
  end.

End Factory.

Arguments Done {A}. Arguments Failed {A}. Arguments Panicked {A}. Arguments OutOfFuel {A}.
