(* ===== verification/DelegatedSpec.v ===== *)
(** What the router factory of [routing/delegated.go] builds: termination, the
    exact condition of success, and the shape and sharing of the result
    ([Delegated]). *)
From Stdlib Require Import ZArith Lia String.
From stdpp Require Import base list strings gmap sets relations.
From S2P Require Import Prelude GoStrings ConfigTypes ConfigMap RoutingConfig Delegated.

Local Open Scope Z_scope.

Definition known_type (cfg : Router) : Prop :=
  rt_Type cfg ∈ [RouterTypeReframe; RouterTypeDHT; RouterTypeParallel; RouterTypeSequential].

(** The names a router refers to. *)
Definition children (cfg : Router) : list string :=
  if composable (rt_Type cfg) then match Parameters cfg with PComposable crp => cr_RouterName <$> crp_Routers crp | _ => [] end
  else [].

(** [a] refers to [b]. *)
Definition dep (routers : Routers) (a b : string) : Prop := exists cfg, routers !! a = Some cfg /\ b ∈ children cfg.

(** Every router below the name is configured with a known type, and following
    references ends. *)
Inductive buildable (routers : Routers) : string -> Prop :=
| Buildable n cfg : routers !! n = Some cfg -> known_type cfg ->
    (forall c, c ∈ children cfg -> buildable routers c) -> buildable routers n.

Lemma buildable_acyclic routers n : buildable routers n -> ~ tc (dep routers) n n.
Proof.
  induction 1 as [n cfg Hn _ _ IH]. intros Hc. apply tc_rtc_l with (x := n) in Hc; [|apply rtc_refl].
  inversion Hc as [? ? Hd|? c ? Hd Ht]; subst.
  - destruct Hd as (cfg' & E & Hin). simplify_eq. apply (IH n Hin). by apply tc_once; exists cfg.
  - pose proof Hd as (cfg' & E & Hin). simplify_eq. apply (IH c Hin). eapply tc_r; done.
Qed.

Section Spec.
Context `{RouterEnv} (routers : Routers) (peers : list string) (extra : option ExtraReframeParams).
Implicit Types s : pstate.

Definition parser : Type := string -> pstate -> made_result routing * pstate.

(** ** Single routers *)

Definition leaf (cfg : Router) (n : NodeState) : made_result routing * NodeState :=
  if String.eqb (rt_Type cfg) RouterTypeReframe then reframeRoutingFromConfig cfg extra n
  else dhtRoutingFromConfig cfg peers n.

Lemma reframe_ends cfg n : (reframeRoutingFromConfig cfg extra n).1 <> OutOfFuel /\
  ((match Parameters cfg with PReframe _ => true | _ => false end) = true ->
   forall m, (reframeRoutingFromConfig cfg extra n).1 <> Panicked m).
Proof.
  unfold reframeRoutingFromConfig. destruct (Parameters cfg) as [q|q|q|q]; try done.
  repeat (case_match; simplify_eq; try done).
Qed.

Lemma dht_ends cfg n : (dhtRoutingFromConfig cfg peers n).1 <> OutOfFuel /\
  forall m, (dhtRoutingFromConfig cfg peers n).1 <> Panicked m.
Proof.
  unfold dhtRoutingFromConfig, createFullRT, createDHT, of_res. destruct (Parameters cfg) as [q|q|q|q]; try done.
  repeat (case_match; simplify_eq; try done).
Qed.

(** The factory of one router, by kind. *)
Lemma build_cases (p : parser) cfg s :
  (composable (rt_Type cfg) = false /\ known_type cfg /\ build p peers extra cfg s = let '(r, n) := leaf cfg (node s) in (r, with_node n s)) \/
  (composable (rt_Type cfg) = true /\ known_type cfg /\ build p peers extra cfg s =
     match Parameters cfg with
     | PComposable crp =>
         let '(rs, s) := parse_children p (crp_Routers crp) s in
         match rs with
         | Done rs => (Done (compose (rt_Type cfg) rs), s)
         | Failed e => (Failed e, s) | Panicked m => (Panicked m, s) | OutOfFuel => (OutOfFuel, s)
         end
     | _ => (Panicked "interface conversion: Parameters is not *config.ComposableRouterParams", s)
     end) \/
  (~ known_type cfg /\ exists e, build p peers extra cfg s = (Failed e, s)).
Proof.
  unfold build, leaf, composable, known_type.
  destruct (String.eqb_spec (rt_Type cfg) RouterTypeReframe) as [-> |]; [left; split_and!; [done|set_solver|done]|].
  destruct (String.eqb_spec (rt_Type cfg) RouterTypeDHT) as [-> |]; [left; split_and!; [done|set_solver|done]|].
  destruct (String.eqb_spec (rt_Type cfg) RouterTypeParallel) as [-> |]; [right; left; split_and!; [done|set_solver|done]|].
  destruct (String.eqb_spec (rt_Type cfg) RouterTypeSequential) as [-> |]; [right; left; split_and!; [done|set_solver|done]|].
  right; right. split; [set_solver|by eexists].
Qed.

(** ** The state of the factory *)

(** The router [r] is what the configuration [cfg] says, from the routers
    created: a single router its constructor returned, or the composition of the
    routers created under the names it refers to. *)
Definition explains (created : gmap string routing) (cfg : Router) (r : routing) : Prop :=
  known_type cfg /\
  if composable (rt_Type cfg)
  then exists crp rs, Parameters cfg = PComposable crp /\ rs.*1 = crp_Routers crp /\
       Forall (fun x => created !! cr_RouterName x.1 = Some x.2) rs /\ r = compose (rt_Type cfg) rs
  else exists n n', leaf cfg n = (Done r, n').

Record sinv (s : pstate) : Prop := {
  made_once : NoDup (made s);
  made_created n : n ∈ made s <-> is_Some (createdRouters s !! n);
  made_explained n r : createdRouters s !! n = Some r -> exists cfg, routers !! n = Some cfg /\ explains (createdRouters s) cfg r;
  made_ordered pre n post : made s = pre ++ n :: post -> forall c, dep routers n c -> c ∈ pre;
}.

(** Maps only grow, and a router under construction is not created meanwhile. *)
Record ext (s s' : pstate) : Prop := {
  ext_visited : visited s ⊆ visited s';
  ext_created : createdRouters s ⊆ createdRouters s';
  ext_made : exists l, made s' = made s ++ l;
  ext_open n : n ∈ visited s -> createdRouters s !! n = None -> createdRouters s' !! n = None;
}.

Lemma ext_refl s : ext s s.
Proof. split; [done|done|exists []; by rewrite app_nil_r|done]. Qed.

Lemma ext_trans s1 s2 s3 : ext s1 s2 -> ext s2 s3 -> ext s1 s3.
Proof.
  intros [A1 B1 (l1 & M1) C1] [A2 B2 (l2 & M2) C2]. split; [set_solver|by etransitivity| |].
  - exists (l1 ++ l2). by rewrite M2, M1, (assoc (++)).
  - intros n Hn E. apply C2; [set_solver|auto].
Qed.

Lemma ext_node n s : ext s (with_node n s).
Proof. split; [done|done|exists []; by rewrite app_nil_r|done]. Qed.

Lemma sinv_node n s : sinv s -> sinv (with_node n s).
Proof. by intros []. Qed.

Lemma sinv_visit name s : sinv s -> sinv (visit name s).
Proof. by intros []. Qed.

Lemma explains_mono c c' cfg r : c ⊆ c' -> explains c cfg r -> explains c' cfg r.
Proof.
  intros Hc [Hk He]. split; [done|]. destruct (composable (rt_Type cfg)); [|done].
  destruct He as (crp & rs & E1 & E2 & Hf & E3). exists crp, rs. split_and!; try done.
  eapply Forall_impl; [exact Hf|]. intros x Hx. cbn in Hx. eapply lookup_weaken; [exact Hx|exact Hc].
Qed.

Lemma explains_children c cfg r k : explains c cfg r -> k ∈ children cfg -> is_Some (c !! k).
Proof.
  intros [_ He] Hk. unfold children in Hk. destruct (composable (rt_Type cfg)); [|set_solver].
  destruct He as (crp & rs & E1 & E2 & Hf & _). rewrite E1, <- E2 in Hk.
  apply list_elem_of_fmap in Hk as (cr & -> & Hin). apply list_elem_of_fmap in Hin as (x & -> & Hin).
  rewrite Forall_forall in Hf. exists x.2. by apply Hf.
Qed.

(** A parser does its part: it keeps the invariant, extends the state, and
    leaves the router it returns under its name. *)
Definition psem (p : parser) : Prop := forall name s, sinv s ->
  sinv (p name s).2 /\ ext s (p name s).2 /\
  forall r, (p name s).1 = Done r -> createdRouters (p name s).2 !! name = Some r.

Lemma children_sem p crs s : psem p -> sinv s ->
  sinv (parse_children p crs s).2 /\ ext s (parse_children p crs s).2 /\
  forall rs, (parse_children p crs s).1 = Done rs -> rs.*1 = crs /\
    Forall (fun x => createdRouters (parse_children p crs s).2 !! cr_RouterName x.1 = Some x.2) rs.
Proof.
  intros Hp. revert s. induction crs as [|cr crs IH]; intros s Hs; [split_and!; [done|apply ext_refl|by intros rs [= <-]]|].
  cbn. destruct (Hp (cr_RouterName cr) s Hs) as (I1 & X1 & D1). destruct (p (cr_RouterName cr) s) as [ri s1]. cbn in *.
  destruct ri as [r|e|m|]; try done. destruct (IH s1 I1) as (I2 & X2 & D2).
  destruct (parse_children p crs s1) as [rs s2]. cbn in *. pose proof (ext_trans _ _ _ X1 X2) as X3.
  destruct rs as [rs|e|m|]; try done. split_and!; [done|done|]. intros rs' [= <-].
  destruct (D2 rs eq_refl) as (E & Hf). split; [cbn; by rewrite E|]. constructor; [|done]. cbn.
  eapply lookup_weaken; [by apply D1|apply X2].
Qed.

Lemma build_sem p cfg s : psem p -> sinv s ->
  sinv (build p peers extra cfg s).2 /\ ext s (build p peers extra cfg s).2 /\
  forall r, (build p peers extra cfg s).1 = Done r -> explains (createdRouters (build p peers extra cfg s).2) cfg r.
Proof.
  intros Hp Hs. destruct (build_cases p cfg s) as [(Hc & Hk & ->)|[(Hc & Hk & ->)|(Hk & e & ->)]].
  - destruct (leaf cfg (node s)) as [r n] eqn:E. cbn. split_and!; [by apply sinv_node|apply ext_node|].
    intros r' ->. split; [done|]. rewrite Hc. eauto.
  - destruct (Parameters cfg) as [q|q|crp|q] eqn:EP; try (split_and!; [done|apply ext_refl|done]).
    destruct (children_sem p (crp_Routers crp) s Hp Hs) as (I & X & D).
    destruct (parse_children p (crp_Routers crp) s) as [rs s']. cbn in *. destruct rs as [rs|e|m|]; try done.
    split_and!; [done|done|]. intros r [= <-]. split; [done|]. rewrite Hc. destruct (D rs eq_refl). eauto 6.
  - cbn. split_and!; [done|apply ext_refl|done].
Qed.

Lemma sinv_record name cfg r s : sinv s -> routers !! name = Some cfg -> createdRouters s !! name = None ->
  explains (createdRouters s) cfg r -> sinv (record_router name r s).
Proof.
  intros [I1 I2 I3 I4] Hc Hn He. assert (Hsub : createdRouters s ⊆ <[name := r]> (createdRouters s)) by (by apply insert_subseteq).
  split; cbn.
  - apply NoDup_app. split_and!; [done| |apply NoDup_singleton]. intros x Hx Hx'%list_elem_of_singleton. subst x.
    apply I2 in Hx. rewrite Hn in Hx. by destruct Hx.
  - intros n. rewrite elem_of_app, list_elem_of_singleton, I2, lookup_insert_is_Some'. naive_solver.
  - intros n r'. rewrite lookup_insert_Some. intros [[<- <-]|[_ E]]; [exists cfg; split; [done|by eapply explains_mono]|].
    destruct (I3 _ _ E) as (cfg' & E' & He'). exists cfg'. split; [done|by eapply explains_mono].
  - intros pre n post E c (cfg' & Hn' & Hin). destruct (decide (post = [])) as [-> |Hpost].
    + apply app_inj_2 in E as [<- [= <-]]; [|done]. simplify_eq. apply I2. by eapply explains_children.
    + destruct (exists_last Hpost) as (post' & x & ->). rewrite app_comm_cons, (assoc (++)) in E.
      apply app_inj_2 in E as [E _]; [|done]. eapply I4; [exact E|by exists cfg'].
Qed.


Lemma parse_sem fuel : psem (parse fuel routers peers extra).
Proof.
  induction fuel as [|fuel IH]; intros name s Hs; [cbn; split_and!; [done|apply ext_refl|done]|].
  cbn [parse]. destruct (createdRouters s !! name) as [r|] eqn:Ecr; [cbn; split_and!; [done|apply ext_refl|by intros ? [= <-]]|].
  destruct (decide (name ∈ visited s)) as [Hv|Hv]; [cbn; split_and!; [done|apply ext_refl|done]|].
  assert (Xv : ext s (visit name s)) by (split; [cbn; set_solver|done|exists []; by rewrite app_nil_r|done]).
  destruct (routers !! name) as [cfg|] eqn:Ecfg; [|cbn; split_and!; [by apply sinv_visit|done|done]].
  destruct (build_sem _ cfg (visit name s) IH (sinv_visit name s Hs)) as (I & X & D).
  destruct (build (parse fuel routers peers extra) peers extra cfg (visit name s)) as [router s1]. cbn in I, X, D.
  pose proof (ext_trans _ _ _ Xv X) as X1. destruct router as [r|e|m|]; try (cbn; done).
  assert (Hn : createdRouters s1 !! name = None) by (apply X; [cbn; set_solver|done]). cbn.
  split_and!; [eapply sinv_record; eauto| |intros r' [= <-]; apply lookup_insert_eq].
  destruct X1 as [A B (l & M) C]. split; cbn; [done|by etransitivity; [|apply insert_subseteq]|exists (l ++ [name]); by rewrite M, (assoc (++))|].
  intros n Hin E. rewrite lookup_insert_ne; [auto|]. intros <-. done.
Qed.

(** ** Termination *)

Definition unvisited s : nat := size ((dom routers : gset string) ∖ visited s).

Lemma unvisited_mono s s' : visited s ⊆ visited s' -> (unvisited s' <= unvisited s)%nat.
Proof. intros Hv. unfold unvisited. apply subseteq_size. set_solver. Qed.

Lemma children_ends k p crs s : psem p ->
  (forall name s, sinv s -> (unvisited s < k)%nat -> (p name s).1 <> OutOfFuel) ->
  sinv s -> (unvisited s < k)%nat -> (parse_children p crs s).1 <> OutOfFuel.
Proof.
  intros Hp He. revert s. induction crs as [|cr crs IH]; intros s Hs Hk; [done|]. cbn.
  destruct (Hp (cr_RouterName cr) s Hs) as (I1 & X1 & _). specialize (He (cr_RouterName cr) s Hs Hk).
  destruct (p (cr_RouterName cr) s) as [ri s1]. cbn in *. destruct ri as [r|e|m|]; try done.
  assert (Hk1 : (unvisited s1 < k)%nat) by (pose proof (unvisited_mono _ _ (ext_visited _ _ X1)); lia).
  specialize (IH s1 I1 Hk1). destruct (parse_children p crs s1) as [[rs|e|m|] s2]; done.
Qed.

Lemma parse_ends fuel name s : sinv s -> (unvisited s < fuel)%nat -> (parse fuel routers peers extra name s).1 <> OutOfFuel.
Proof.
  revert name s. induction fuel as [|fuel IH]; intros name s Hs Hk; [lia|]. cbn [parse].
  destruct (createdRouters s !! name) as [r|]; [done|]. destruct (decide (name ∈ visited s)) as [Hv|Hv]; [done|].
  destruct (routers !! name) as [cfg|] eqn:Ecfg; [|done].
  assert (Hk1 : (unvisited (visit name s) < fuel)%nat).
  { unfold unvisited in *. cbn. assert (Hlt : (size ((dom routers : gset string) ∖ ({[name]} ∪ visited s)) < size ((dom routers : gset string) ∖ visited s))%nat); [|lia].
    apply subset_size. apply (elem_of_dom_2 (D := gset string)) in Ecfg. set_solver. }
  assert (Hb : (build (parse fuel routers peers extra) peers extra cfg (visit name s)).1 <> OutOfFuel).
  { destruct (build_cases (parse fuel routers peers extra) cfg (visit name s)) as [(_ & _ & ->)|[(_ & _ & ->)|(_ & e & ->)]]; [| |done].
    - unfold leaf. pose proof (reframe_ends cfg (node (visit name s))) as [Hr _]. pose proof (dht_ends cfg (node (visit name s))) as [Hd _].
      destruct (String.eqb (rt_Type cfg) RouterTypeReframe); [destruct (reframeRoutingFromConfig _ _ _)|destruct (dhtRoutingFromConfig _ _ _)]; done.
    - destruct (Parameters cfg) as [q|q|crp|q]; try done.
      pose proof (children_ends fuel _ (crp_Routers crp) _ (parse_sem fuel) IH (sinv_visit name s Hs) Hk1) as Hc.
      destruct (parse_children _ _ _) as [[rs|e|m|] s2]; done. }
  destruct (build _ _ _ _ _) as [[r|e|m|] s1]; done.
Qed.

(** More fuel than enough changes nothing. *)
Lemma children_more (p q : parser) crs s : (forall name s, (p name s).1 <> OutOfFuel -> q name s = p name s) ->
  (parse_children p crs s).1 <> OutOfFuel -> parse_children q crs s = parse_children p crs s.
Proof.
  intros Hpq. revert s. induction crs as [|cr crs IH]; intros s; [done|]. cbn. specialize (Hpq (cr_RouterName cr) s).
  destruct (p (cr_RouterName cr) s) as [ri s1]. cbn in Hpq. destruct ri as [r|e|m|]; [|by rewrite Hpq|by rewrite Hpq|done].
  rewrite Hpq by done. specialize (IH s1). destruct (parse_children p crs s1) as [rs s2]. cbn in IH.
  destruct rs as [rs|e|m|]; intros Hn; try done; by rewrite IH.
Qed.

Lemma parse_more f1 f2 name s : (f1 <= f2)%nat -> (parse f1 routers peers extra name s).1 <> OutOfFuel ->
  parse f2 routers peers extra name s = parse f1 routers peers extra name s.
Proof.
  revert f2 name s. induction f1 as [|f1 IH]; intros f2 name s Hle Hn; [done|]. destruct f2 as [|f2]; [lia|]. cbn [parse] in *.
  destruct (createdRouters s !! name); [done|]. destruct (decide (name ∈ visited s)); [done|]. destruct (routers !! name) as [cfg|]; [|done].
  assert (Hb : build (parse f2 routers peers extra) peers extra cfg (visit name s) = build (parse f1 routers peers extra) peers extra cfg (visit name s)).
  { revert Hn. unfold build. destruct (String.eqb (rt_Type cfg) RouterTypeReframe); [done|].
    destruct (String.eqb (rt_Type cfg) RouterTypeDHT); [done|].
    destruct (String.eqb (rt_Type cfg) RouterTypeParallel || String.eqb (rt_Type cfg) RouterTypeSequential); [|done]. destruct (Parameters cfg) as [q|q|crp|q]; try done. intros Hn.
    assert (Hch : (parse_children (parse f1 routers peers extra) (crp_Routers crp) (visit name s)).1 <> OutOfFuel)
      by (destruct (parse_children _ _ _) as [[]]; done).
    rewrite (children_more _ (parse f2 routers peers extra) _ _ (fun nm st Hst => IH f2 nm st ltac:(lia) Hst) Hch). done. }
  by rewrite Hb.
Qed.

(** ** No panic on decoded configurations *)

Section Decoded.
Hypothesis decoded : map_Forall (fun _ cfg => params_match cfg = true) routers.

Lemma children_no_panic p crs s m : (forall name s m, (p name s).1 <> Panicked m) -> (parse_children p crs s).1 <> Panicked m.
Proof.
  intros Hp. revert s. induction crs as [|cr crs IH]; intros s; [done|]. cbn. specialize (Hp (cr_RouterName cr) s).
  destruct (p (cr_RouterName cr) s) as [ri s1]. cbn in Hp. destruct ri as [r|e|m'|]; try done; [|by destruct (Hp m')].
  specialize (IH s1). destruct (parse_children p crs s1) as [[rs|e|m'|] s2]; cbn in *; congruence.
Qed.

Lemma parse_no_panic fuel name s m : (parse fuel routers peers extra name s).1 <> Panicked m.
Proof.
  revert name s m. induction fuel as [|fuel IH]; intros name s m; [done|]. cbn [parse].
  destruct (createdRouters s !! name) as [r|]; [done|]. destruct (decide (name ∈ visited s)); [done|].
  destruct (routers !! name) as [cfg|] eqn:Ecfg; [|done]. pose proof (decoded _ _ Ecfg) as Hm. cbn in Hm.
  assert (Hb : (build (parse fuel routers peers extra) peers extra cfg (visit name s)).1 <> Panicked m).
  { unfold params_match in Hm. destruct (build_cases (parse fuel routers peers extra) cfg (visit name s)) as [(Hc & _ & ->)|[(Hc & Hk & ->)|(_ & e & ->)]]; [| |done].
    - unfold leaf. pose proof (reframe_ends cfg (node (visit name s))) as [_ Hr]. pose proof (dht_ends cfg (node (visit name s))) as [_ Hd].
      destruct (String.eqb (rt_Type cfg) RouterTypeReframe); [specialize (Hr Hm m); destruct (reframeRoutingFromConfig _ _ _)|specialize (Hd m); destruct (dhtRoutingFromConfig _ _ _)]; done.
    - rewrite Hc in Hm. destruct (String.eqb_spec (rt_Type cfg) RouterTypeReframe) as [E|_]; [by rewrite E in Hc|].
      destruct (String.eqb_spec (rt_Type cfg) RouterTypeDHT) as [E|_]; [by rewrite E in Hc|].
      destruct (Parameters cfg) as [q|q|crp|q]; try done.
      pose proof (children_no_panic _ (crp_Routers crp) (visit name s) m IH) as Hch.
      destruct (parse_children _ _ _) as [[rs|e|m'|] s2]; cbn in *; congruence. }
  destruct (build _ _ _ _ _) as [[r|e|m'|] s1]; cbn in *; congruence.
Qed.

(** ** Success *)

Hypothesis leaves_ok : forall n cfg st, routers !! n = Some cfg -> known_type cfg -> composable (rt_Type cfg) = false ->
  exists r st', leaf cfg st = (Done r, st').

(** The routers under construction. *)
Definition open s : string -> Prop := fun n => n ∈ visited s /\ createdRouters s !! n = None.

Definition ptotal (k : nat) (p : parser) : Prop := forall name s, sinv s -> buildable routers name -> (unvisited s < k)%nat ->
  (forall q, open s q -> tc (dep routers) q name) ->
  (exists r, (p name s).1 = Done r) /\ (forall q, open (p name s).2 q -> open s q).

Lemma children_total k p crs s parent : psem p -> ptotal k p -> sinv s -> (unvisited s < k)%nat ->
  Forall (fun cr => buildable routers (cr_RouterName cr) /\ dep routers parent (cr_RouterName cr)) crs ->
  (forall q, open s q -> q = parent \/ tc (dep routers) q parent) ->
  (exists rs, (parse_children p crs s).1 = Done rs) /\ (forall q, open (parse_children p crs s).2 q -> open s q).
Proof.
  intros Hp Ht. revert s. induction crs as [|cr crs IH]; intros s Hs Hk Hall Hopen; [split; [by eexists|done]|].
  apply Forall_cons in Hall as [[Hb Hd] Hall]. cbn. destruct (Hp (cr_RouterName cr) s Hs) as (I1 & X1 & _).
  destruct (Ht (cr_RouterName cr) s Hs Hb Hk) as ((r & Er) & Ho).
  { intros q Hq. destruct (Hopen q Hq) as [-> |Hq']; [by apply tc_once|by eapply tc_r]. }
  destruct (p (cr_RouterName cr) s) as [ri s1]. cbn in *. subst ri.
  assert (Hk1 : (unvisited s1 < k)%nat) by (pose proof (unvisited_mono _ _ (ext_visited _ _ X1)); lia).
  destruct (IH s1 I1 Hk1 Hall ltac:(auto)) as ((rs & Ers) & Ho2). destruct (parse_children p crs s1) as [res s2]. cbn in *. subst res.
  split; [by eexists|auto].
Qed.

Lemma parse_total fuel : ptotal fuel (parse fuel routers peers extra).
Proof.
  induction fuel as [|fuel IH]; intros name s Hs Hb Hk Hopen; [lia|]. cbn [parse].
  destruct (createdRouters s !! name) as [r|] eqn:Ecr; [split; [by eexists|done]|].
  destruct (decide (name ∈ visited s)) as [Hv|Hv]; [exfalso; by apply (buildable_acyclic _ _ Hb), Hopen|].
  pose proof Hb as Hb'. destruct Hb' as [name cfg Ecfg Hknown Hch]. rewrite Ecfg.
  assert (Hk1 : (unvisited (visit name s) < fuel)%nat).
  { unfold unvisited in *. cbn. assert (Hlt : (size ((dom routers : gset string) ∖ ({[name]} ∪ visited s)) < size ((dom routers : gset string) ∖ visited s))%nat); [|lia].
    apply subset_size. pose proof (elem_of_dom_2 (D := gset string) _ _ _ Ecfg). set_solver. }
  assert (Hbd : (exists r, (build (parse fuel routers peers extra) peers extra cfg (visit name s)).1 = Done r) /\
     forall q, open (build (parse fuel routers peers extra) peers extra cfg (visit name s)).2 q -> open (visit name s) q).
  { destruct (build_cases (parse fuel routers peers extra) cfg (visit name s)) as [(Hc & _ & ->)|[(Hc & _ & ->)|(Hnk & _)]]; [| |done].
    - destruct (leaves_ok name cfg (node (visit name s)) Ecfg Hknown Hc) as (r & st' & ->). split; [by eexists|done].
    - pose proof (decoded _ _ Ecfg) as Hm. cbn in Hm. unfold params_match in Hm. rewrite Hc in Hm.
      destruct (String.eqb_spec (rt_Type cfg) RouterTypeReframe) as [E|_]; [by rewrite E in Hc|].
      destruct (String.eqb_spec (rt_Type cfg) RouterTypeDHT) as [E|_]; [by rewrite E in Hc|].
      destruct (Parameters cfg) as [q|q|crp|q] eqn:EP; try done.
      assert (Ech : children cfg = cr_RouterName <$> crp_Routers crp) by (unfold children; by rewrite Hc, EP).
      destruct (children_total fuel _ (crp_Routers crp) (visit name s) name (parse_sem fuel) IH (sinv_visit name s Hs) Hk1) as ((rs & Ers) & Ho).
      + apply Forall_forall. intros cr Hcr. assert (Hin : cr_RouterName cr ∈ children cfg) by (rewrite Ech; by apply list_elem_of_fmap_2).
        split; [by apply Hch|by exists cfg].
      + intros q [Hq1 Hq2]. cbn in *. apply elem_of_union in Hq1 as [Hq1|Hq1]; [left; set_solver|right; by apply Hopen].
      + destruct (parse_children _ _ _) as [res s2]. cbn in *. subst res. split; [by eexists|done]. }
  destruct Hbd as ((r & Er) & Ho). destruct (build _ _ _ _ _) as [res s1]. cbn in *. subst res. split; [by eexists|]. cbn.
  intros q [Hq1 Hq2]. cbn in *. rewrite lookup_insert_None in Hq2. destruct Hq2 as [Hq2 Hne].
  destruct (Ho q) as [Ho1 Ho2]; [done|]. cbn in *. split; [set_solver|done].
Qed.

End Decoded.

(** Everything created is buildable. *)
Lemma created_buildable s name : sinv s -> is_Some (createdRouters s !! name) -> buildable routers name.
Proof.
  intros Hs Hn. apply (made_created _ Hs), list_elem_of_split in Hn as (pre & post & E). remember (length pre) as k eqn:Ek.
  revert name pre post E Ek. induction (lt_wf k) as [k _ IH]. intros name pre post E ->.
  assert (Hin : is_Some (createdRouters s !! name)) by (apply (made_created _ Hs); rewrite E; set_solver).
  destruct Hin as [r Hr]. destruct (made_explained _ Hs _ _ Hr) as (cfg & Ecfg & Hk & _). apply (Buildable _ _ cfg); [done|done|].
  intros c Hc. pose proof (made_ordered _ Hs _ _ _ E c ltac:(by exists cfg)) as Hpre.
  apply list_elem_of_split in Hpre as (p1 & p2 & E2). eapply (IH (length p1)); [|rewrite E, E2, <- (assoc (++)); reflexivity|done].
  rewrite E2, length_app. cbn. lia.
Qed.

(** ** The loop over the methods *)

Definition fresh_visit s : pstate := MkP ∅ (createdRouters s) (made s) (node s).

Lemma sinv_fresh s : sinv s -> sinv (fresh_visit s).
Proof. by intros []. Qed.

Lemma sinv_start n : sinv (MkP ∅ ∅ [] n).
Proof.
  split; cbn; [constructor| |done|].
  - intros k. rewrite lookup_empty. split; [set_solver|by intros []].
  - intros pre k post E. by destruct pre.
Qed.

Lemma method_set mn mn' r c : mn ∈ MethodNameList -> method_router mn (set_method mn' r c) = if decide (mn = mn') then Some r else method_router mn c.
Proof.
  intros Hin. case_decide as Hd.
  - subst mn'. by repeat (apply elem_of_cons in Hin as [-> |Hin]; [done|]); apply elem_of_nil in Hin.
  - unfold set_method.
    do 5 (match goal with |- context [String.eqb mn' ?x] => destruct (String.eqb_spec mn' x) as [-> |] end;
      [by repeat (apply elem_of_cons in Hin as [-> |Hin]; [try done|]); apply elem_of_nil in Hin|]).
    done.
Qed.

Lemma methods_sem p order c s : psem p -> sinv s ->
  sinv (parse_methods p order c s).2 /\ createdRouters s ⊆ createdRouters (parse_methods p order c s).2 /\
  forall c', (parse_methods p order c s).1 = Done c' ->
    (forall mn, mn ∈ MethodNameList -> mn ∉ order.*1 -> method_router mn c' = method_router mn c) /\
    (NoDup order.*1 -> forall mn name, mn ∈ MethodNameList -> (mn, name) ∈ order ->
       exists r, createdRouters (parse_methods p order c s).2 !! name = Some r /\ method_router mn c' = Some r) /\
    Forall (fun x => is_Some (createdRouters (parse_methods p order c s).2 !! x.2)) order.
Proof.
  intros Hp. revert c s. induction order as [|[mn name] order IH]; intros c s Hs; cbn.
  { split_and!; [done|done|]. intros c' [= <-]. split_and!; [done|set_solver|constructor]. }
  fold (fresh_visit s). destruct (Hp name (fresh_visit s) (sinv_fresh s Hs)) as (I1 & X1 & D1).
  destruct (p name (fresh_visit s)) as [router s1]. cbn in *. pose proof (ext_created _ _ X1) as Hc1. cbn in Hc1.
  destruct router as [r|e|m|]; try (by split_and!). destruct (IH (set_method mn r c) s1 I1) as (I2 & Hc2 & D2).
  destruct (parse_methods p order (set_method mn r c) s1) as [res s2]. cbn in *. split_and!; [done|by etransitivity|].
  intros c' ->. destruct (D2 c' eq_refl) as (D3 & D4 & D5).
  assert (Hr : createdRouters s2 !! name = Some r) by (eapply lookup_weaken; [by apply D1|done]). split_and!.
  - intros mn' Hin Hnot. rewrite D3 by set_solver. rewrite method_set by done. rewrite decide_False by set_solver. done.
  - intros Hnd mn' name' Hin Ho. apply NoDup_cons in Hnd as [Hn Hnd]. apply elem_of_cons in Ho as [[= -> ->]|Ho]; [|by apply D4].
    exists r. split; [done|]. rewrite D3 by done. rewrite method_set by done. by rewrite decide_True.
  - constructor; [|done]. cbn. by exists r.
Qed.

Lemma methods_more (p q : parser) order c s : (forall name s, sinv s -> visited s = ∅ -> q name s = p name s) -> psem p -> sinv s ->
  parse_methods q order c s = parse_methods p order c s.
Proof.
  intros Hpq Hp. revert c s. induction order as [|[mn name] order IH]; intros c s Hs; [done|]. cbn. fold (fresh_visit s).
  rewrite (Hpq name (fresh_visit s)) by (done || by apply sinv_fresh).
  destruct (Hp name (fresh_visit s) (sinv_fresh s Hs)) as (I1 & _ & _).
  destruct (p name (fresh_visit s)) as [[r|e|m|] s1]; try done. by apply IH.
Qed.

Lemma methods_ends p order c s : psem p -> sinv s ->
  (forall name s, sinv s -> visited s = ∅ -> (p name s).1 <> OutOfFuel) ->
  (parse_methods p order c s).1 <> OutOfFuel.
Proof.
  intros Hp Hs He. revert c s Hs. induction order as [|[mn name] order IH]; intros c s Hs; [done|]. cbn. fold (fresh_visit s).
  destruct (Hp name (fresh_visit s) (sinv_fresh s Hs)) as (I1 & _ & _). pose proof (He name (fresh_visit s) (sinv_fresh s Hs) eq_refl) as Hn.
  destruct (p name (fresh_visit s)) as [[r|e|m|] s1]; try done. by apply IH.
Qed.

Lemma enough_fuel s : visited s = ∅ -> (unvisited s < parse_fuel routers)%nat.
Proof. intros E. unfold unvisited, parse_fuel. rewrite E, difference_empty_L, size_dom. lia. Qed.

End Spec.

(** ** Theorems *)

(** C21: the factory ends on every configuration, loops included: as many nested
    calls as there are routers, and one more, are enough, and allowing more
    changes nothing. *)
Theorem routing_parse_terminates `{RouterEnv} (routers : Routers) (order : list (string * string)) (peers : list string)
    (extra : option ExtraReframeParams) (c : Composer) (n : NodeState) (fuel : nat) :
  (parse_fuel routers <= fuel)%nat ->
  (parse_methods (parse fuel routers peers extra) order c (MkP ∅ ∅ [] n)).1 <> OutOfFuel /\
  parse_methods (parse fuel routers peers extra) order c (MkP ∅ ∅ [] n) =
  parse_methods (parse (parse_fuel routers) routers peers extra) order c (MkP ∅ ∅ [] n).
Proof.
  intros Hf. pose proof (sinv_start routers peers extra n) as Hst.
  assert (He : forall name s, sinv routers peers extra s -> visited s = ∅ -> (parse (parse_fuel routers) routers peers extra name s).1 <> OutOfFuel)
    by (intros name s Hs Hv; apply parse_ends; [done|by apply enough_fuel]).
  assert (E : parse_methods (parse fuel routers peers extra) order c (MkP ∅ ∅ [] n) =
    parse_methods (parse (parse_fuel routers) routers peers extra) order c (MkP ∅ ∅ [] n)).
  { apply (methods_more routers peers extra); [|apply parse_sem|done]. intros name s Hs Hv. apply parse_more; [done|by apply He]. }
  rewrite E. split; [|done]. apply (methods_ends routers peers extra); [apply parse_sem|done|done].
Qed.

(** The check of the methods, in terms of their names. *)
Lemma five_methods (m : Methods) order : order ≡ₚ (map_to_list m).*1 ->
  Check m order = None <-> dom m =@{gset string} {["provide"; "find-providers"; "find-peers"; "get-ipns"; "put-ipns"]}.
Proof.
  intros Ho. rewrite (methods_check_exact m order Ho).
  assert (E : list_to_set MethodNameList =@{gset string} {["provide"; "find-providers"; "find-peers"; "get-ipns"; "put-ipns"]}); [|by rewrite E].
  unfold MethodNameList, MethodNameProvide, MethodNameFindPeers, MethodNameFindProviders, MethodNameGetIPNS, MethodNamePutIPNS. set_solver.
Qed.

(** C17: on a decoded configuration whose single routers can be constructed, [Parse]
    succeeds exactly when the names of the methods are provide, find-providers,
    find-peers, get-ipns and put-ipns and no others, and every
    router they lead to is configured, of a known type and not on a loop; it
    fails with an error otherwise and never panics.  The maps shared between the
    methods and between the branches of a composition make no difference. *)
Theorem routing_parse_exact `{RouterEnv} (routers : Routers) (methods : Methods) (order : list (string * string)) (peers : list string)
    (extra : option ExtraReframeParams) (n : NodeState) :
  order ≡ₚ map_to_list methods ->
  map_Forall (fun _ cfg => params_match cfg = true) routers ->
  (forall name cfg st, routers !! name = Some cfg -> known_type cfg -> composable (rt_Type cfg) = false ->
     exists r st', leaf peers extra cfg st = (Done r, st')) ->
  let good := dom methods =@{gset string} {["provide"; "find-providers"; "find-peers"; "get-ipns"; "put-ipns"]} /\
    map_Forall (fun _ name => buildable routers name) methods in
  match (Parse routers methods order peers extra n).1 with
  | Done _ => good
  | Failed _ => ~ good
  | Panicked _ | OutOfFuel => False
  end.
Proof.
  intros Ho Hd Hl good. unfold Parse, good. clear good.
  assert (Ho' : order.*1 ≡ₚ (map_to_list methods).*1) by (by rewrite Ho). pose proof (five_methods methods order.*1 Ho') as Hfive. clear Ho'.
  destruct (Check methods order.*1) as [e|] eqn:Ec; [cbn; intros [Hm _]; by apply Hfive in Hm|]. pose proof (proj1 Hfive eq_refl) as Hm. clear Hfive.
  assert (Hall : map_Forall (fun _ name => buildable routers name) methods <-> Forall (fun x => buildable routers x.2) order).
  { rewrite map_Forall_to_list, <- Ho. apply Forall_iff. by intros []. }
  enough (Hgoal : match (parse_methods (parse (parse_fuel routers) routers peers extra) order empty_composer (MkP ∅ ∅ [] n)).1 with
    | Done _ => Forall (fun x => buildable routers x.2) order
    | Failed _ => ~ Forall (fun x => buildable routers x.2) order
    | Panicked _ | OutOfFuel => False
    end) by (destruct (parse_methods _ _ _ _) as [[] ?]; cbn in *; naive_solver).
  clear Ec Hall Ho. pose proof (sinv_start routers peers extra n) as Hst. set (s := MkP ∅ ∅ [] n) in *. clearbody s.
  generalize empty_composer. revert s Hst. induction order as [|[mn name] order IH]; intros s Hs c; [constructor|].
  cbn [parse_methods]. fold (fresh_visit s). pose proof (sinv_fresh _ _ _ s Hs) as Hs'.
  destruct (parse_sem routers peers extra (parse_fuel routers) name (fresh_visit s) Hs') as (I1 & X1 & D1).
  pose proof (parse_ends routers peers extra (parse_fuel routers) name (fresh_visit s) Hs' (enough_fuel routers (fresh_visit s) eq_refl)) as Hne.
  pose proof (parse_no_panic routers peers extra Hd (parse_fuel routers) name (fresh_visit s)) as Hnp.
  assert (Ht : buildable routers name -> exists r, (parse (parse_fuel routers) routers peers extra name (fresh_visit s)).1 = Done r).
  { intros Hb. apply (parse_total routers peers extra Hd Hl (parse_fuel routers) name (fresh_visit s) Hs' Hb (enough_fuel routers (fresh_visit s) eq_refl)).
    intros q [Hq _]. cbn in Hq. set_solver. }
  destruct (parse _ _ _ _ name (fresh_visit s)) as [router s1]. cbn in *. destruct router as [r|e|m|].
  - specialize (IH s1 I1 (set_method mn r c)). destruct (parse_methods _ order _ s1) as [[c'|e|m|] s2]; cbn in *; try done.
    + constructor; [|done]. cbn. eapply created_buildable; [exact I1|]. exists r. by apply D1.
    + intros Hall. apply Forall_cons in Hall as [_ Hall]. by apply IH.
  - intros Hall. apply Forall_cons in Hall as [Hb _]. by destruct (Ht Hb).
  - by destruct (Hnp m).
  - done.
Qed.

(** what [Parse] returns: every method goes to the router created for the name
    its configuration gives; each router is created once, after those it refers
    to, and is what its own configuration says: a single router its constructor
    returned, or the composition of the very routers created under the names it
    lists, in their order and with their options. *)
Theorem routing_parse_shape `{RouterEnv} (routers : Routers) (methods : Methods) (order : list (string * string)) (peers : list string)
    (extra : option ExtraReframeParams) (n : NodeState) (c : Composer) (s : pstate) :
  order ≡ₚ map_to_list methods -> Parse routers methods order peers extra n = (Done c, s) ->
  (forall mn, mn ∈ MethodNameList -> exists name r,
     methods !! mn = Some name /\ createdRouters s !! name = Some r /\ method_router mn c = Some r) /\
  NoDup (made s) /\
  (forall pre name post, made s = pre ++ name :: post -> forall child, dep routers name child -> child ∈ pre) /\
  (forall name r, createdRouters s !! name = Some r ->
     exists cfg, routers !! name = Some cfg /\ explains peers extra (createdRouters s) cfg r).
Proof.
  intros Ho. unfold Parse. destruct (Check methods order.*1) as [e|] eqn:Ec; [done|]. intros E.
  pose proof (methods_sem routers peers extra _ order empty_composer (MkP ∅ ∅ [] n) (parse_sem routers peers extra (parse_fuel routers)) (sinv_start _ _ _ n))
    as (I & _ & D). rewrite E in I, D. cbn in I, D. destruct (D c eq_refl) as (_ & D2 & _).
  assert (Hnd : NoDup order.*1) by (rewrite Ho; apply NoDup_fst_map_to_list).
  assert (Hm : Forall (fun mn => is_Some (methods !! mn)) MethodNameList).
  { apply first_missing_spec. unfold Check in Ec. by destruct (first_missing MethodNameList methods). }
  rewrite Forall_forall in Hm. split_and!; [|apply I|apply I|apply I].
  intros mn Hin. destruct (Hm mn Hin) as [name Hname]. destruct (D2 Hnd mn name Hin) as (r & Hr & Hc); [|eauto].
  rewrite Ho. by apply elem_of_map_to_list.
Qed.

(** the composed router never reports success of its bootstrap: it returns the
    accumulated error as an interface, which is not nil even when no router
    failed. *)
Theorem composer_bootstrap_never_nil `{RouterEnv} (c : Composer) (s s' : NodeState) (e : option error) :
  c_Bootstrap c s = Ret (e, s') -> e <> None.
Proof. unfold c_Bootstrap. do 5 (destruct (call _ _ _) as [[? ?]|]; [|done]). by intros [= <- _]. Qed.

(** ** Witnesses *)

Definition demo_types : RouterTypes :=
  {| Lib := string; DRClient := string; Client := string; PrivKey := string; NodeState := nat |}.

(** Every constructor succeeds and counts itself; nothing else fails. *)
Definition demo_env : @RouterEnv demo_types := {|
  New_DelegatedRouting_Client := fun e => Ok e : result (@DRClient demo_types);
  view_Register := fun n => (None, n);
  peer_Decode := Ok; NewMultiaddr := Ok; base64_DecodeString := Ok;
  UnmarshalPrivateKey := fun k => Ok k : result (@PrivKey demo_types);
  NewClient := fun d _ => Ok d : result (@Client demo_types);
  dht_New := fun _ n => (Ok "dht" : result (@Lib demo_types), S n);
  NewFullRT := fun _ n => (Ok "fullrt" : result (@Lib demo_types), S n);
  NewComposableParallel := fun _ => "parallel";
  NewComposableSequential := fun _ => "sequential";
  lib_Provide := fun _ _ _ n => (None, n);
  lib_ProvideMany := fun _ => None; lib_Ready := fun _ => None;
  lib_FindProviders := fun _ _ _ n => ([], n);
  lib_FindPeer := fun _ _ n => (Err "not found", n);
  lib_PutValue := fun _ _ _ n => (None, n);
  lib_GetValue := fun _ _ n => (Err "not found", n);
  lib_SearchValue := fun _ _ n => (Ok [], n);
  lib_Bootstrap := fun _ n => (None, n);
  client_Provide := fun _ _ _ n => (None, n);
  client_ProvideMany := fun _ _ n => (None, n);
  client_Ready := fun _ => true;
  client_FindProviders := fun _ _ _ n => ([], n);
  client_PutValue := fun _ _ _ n => (None, n);
  client_GetValue := fun _ _ n => (Err "not found", n);
  client_SearchValue := fun _ _ n => (Ok [], n);
  multierror_Append := fun _ _ => "0 errors occurred";
|}.

(** A composition that uses one router twice. *)
Definition demo_routers : Routers :=
  {[ "dht" := MkRouter "dht" (PDHT (MkDHTParams "auto" false true));
     "rf" := MkRouter "reframe" (PReframe (MkReframe "https://example.net"));
     "seq" := MkRouter "sequential" (PComposable (MkComposable [MkConfigRouter "dht" 5 false None] None));
     "all" := MkRouter "parallel" (PComposable (MkComposable [MkConfigRouter "seq" 0 true None; MkConfigRouter "dht" 0 false None; MkConfigRouter "rf" 0 false None] None)) ]}.
Definition loop_routers : Routers :=
  <["dht" := MkRouter "sequential" (PComposable (MkComposable [MkConfigRouter "all" 0 true None] None))]> demo_routers.

Definition demo_order : list (string * string) := map_to_list demo_methods.

Definition demo_start : @pstate demo_types := @MkP demo_types ∅ ∅ [] 0%nat.

Lemma routing_parse_terminates_witness :
  @parse_methods demo_types (@parse demo_types demo_env 9 loop_routers [] None) demo_order empty_composer demo_start =
  @parse_methods demo_types (@parse demo_types demo_env (parse_fuel loop_routers) loop_routers [] None) demo_order empty_composer demo_start.
Proof.
  apply (@routing_parse_terminates demo_types demo_env loop_routers demo_order [] None empty_composer 0%nat 9%nat).
  vm_compute. lia.
Defined.

Lemma demo_decoded : map_Forall (fun _ cfg => params_match cfg = true) demo_routers.
Proof. apply (bool_decide_unpack _). vm_compute. exact I. Qed.

Lemma demo_leaves name cfg st : demo_routers !! name = Some cfg -> known_type cfg -> composable (rt_Type cfg) = false ->
  exists r st', @leaf demo_types demo_env [] None cfg st = (Done r, st').
Proof.
  intros E _ Hc. apply elem_of_map_to_list in E. vm_compute in E. repeat (apply elem_of_cons in E as [[= -> ->]|E]; [try done; eauto|]). by apply elem_of_nil in E.
Qed.

Lemma routing_parse_exact_witness :
  map_Forall (fun _ name => buildable demo_routers name) demo_methods.
Proof.
  pose proof (@routing_parse_exact demo_types demo_env demo_routers demo_methods demo_order [] None 0%nat
    (Permutation_refl _) demo_decoded demo_leaves) as Hx.
  assert (E : exists c, (@Parse demo_types demo_env demo_routers demo_methods demo_order [] None 0%nat).1 = Done c)
    by (eexists; vm_compute; reflexivity).
  destruct E as [c E]. cbv zeta in Hx. rewrite E in Hx. exact (proj2 Hx).
Defined.

Lemma routing_parse_shape_witness :
  exists c s, @Parse demo_types demo_env demo_routers demo_methods demo_order [] None 0%nat = (Done c, s) /\
    node s = 1%nat /\ NoDup (made s).
Proof.
  eexists _, _. split; [vm_compute; reflexivity|]. split; [reflexivity|].
  refine (proj1 (proj2 (@routing_parse_shape demo_types demo_env demo_routers demo_methods demo_order [] None 0%nat _ _ (Permutation_refl _) _))).
  vm_compute. reflexivity.
Defined.

Definition demo_composer : @Composer demo_types :=
  let r := Some (@LibRouting demo_types "a") in @MkComposer demo_types r r r r r.

Lemma composer_bootstrap_never_nil_witness :
  exists e, @c_Bootstrap demo_types demo_env demo_composer 0%nat
    = Ret (e, 0%nat) /\ e <> None.
Proof.
  eexists. split; [reflexivity|].
  apply (@composer_bootstrap_never_nil demo_types demo_env demo_composer 0%nat 0%nat).
  reflexivity.
Defined.
