(* ===== verification/ConfigCmd.v ===== *)
(** The configuration commands: [core/commands/config.go].

    The commands run on the repository of [FsRepo].  Secrets are the private key
    of the identity and the API keys of remote pinning services; what the commands
    show is proved not to depend on them.  Names are compared without the case of
    ASCII letters; other letters are compared as they are. *)
From Stdlib Require Import ZArith Lia String Ascii.
From stdpp Require Import base list strings gmap.
From S2P Require Import Prelude GoStrings GoPath ConfigTypes ConfigMap Datastores FsRepo RoutingConfig.

Local Open Scope Z_scope.
Local Open Scope io_scope.

Definition IdentityTag : string := "Identity".
Definition PrivKeyTag : string := "PrivKey".
Definition RemoteServicesPath : string := "Pinning.RemoteServices".
Definition PinningConcealSelector : list string := ["Pinning"; "RemoteServices"; "*"; "API"; "Key"].
Definition PrivKeyPath : list string := [IdentityTag; PrivKeyTag].

Definition EqualFold (s t : string) : bool := String.eqb (lower s) (lower t).

(** ** Guards *)

(** The loop over the patterns from [i] on; [k]: the parts from [i] on. *)
Fixpoint glob_loop (k glob : list string) : bool :=
  match glob, k with
  | [], _ => true
  | _, [] => true
  | g :: glob, p :: k => if String.eqb g "*" then glob_loop k glob else if EqualFold p g then glob_loop k glob else false
  end.

Definition matchesGlobPrefix (key : string) (glob : list string) : bool := glob_loop (parts_of key) glob.

Definition config_guard (key : string) : option error :=
  if String.eqb (ToLower key) "identity" || String.eqb (ToLower key) "identity.privkey"
  then Some "cannot show or change private key through API"
  else if matchesGlobPrefix key PinningConcealSelector then Some "cannot show or change pinning services credentials"
  else None.

(** ** Scrubbing *)

(** [v == nil]: the value passed is the nil map left by the failed assertion, which
    is not a nil interface. *)
Definition scrubValueInternal (v_is_nil okIfMissing : bool) : option error :=
  if v_is_nil && negb okIfMissing then Some "failed to find specified key" else None.

Definition glob_match (g k : string) : bool := String.eqb g "*" || EqualFold g k.

Fixpoint scrubMapInternal (key : list string) (okIfMissing : bool) (m : object) : result object :=
  match key with
  | [] => Ok []
  | g :: key =>
      (fix loop (m : object) : result object :=
         match m with
         | [] => Ok []
         | (k, v) :: m =>
             if glob_match g k then
               let u :=
                 match v with
                 | JObj o => match scrubMapInternal key okIfMissing o with Ok o => Ok (Some (JObj o)) | Err e => Err e end
                 | _ => match scrubValueInternal false okIfMissing with Some e => Err e | None => Ok None end
                 end in
               match u with
               | Err e => Err e
               | Ok None => loop m
               | Ok (Some u) => match loop m with Ok n => Ok ((k, u) :: n) | Err e => Err e end
               end
             else match loop m with Ok n => Ok ((k, v) :: n) | Err e => Err e end
         end) m
  end.

Definition scrubValue (m : object) (key : list string) : result object := scrubMapInternal key false m.
Definition scrubOptionalValue (m : object) (key : list string) : result object := scrubMapInternal key true m.

(** What [config show] makes of the decoded file. *)
Definition shown (cfg : object) : result object :=
  match scrubValue cfg PrivKeyPath with
  | Err e => Err e
  | Ok cfg => scrubOptionalValue cfg PinningConcealSelector
  end.

(** ** Commands *)

(** The fields of [config.Config] that [config replace] reads and writes. *)
Record RemotePinningServiceAPI := MkAPI { api_Endpoint : string; api_Key : string }.
Record RemotePinningServiceMFSPolicy := MkMFSPolicy { Enable : bool; PinName : string; RepinInterval : string }.
(** [Policies] has the single field [MFS]. *)
Record RemotePinningService := MkService { svc_API : RemotePinningServiceAPI; svc_Policies : RemotePinningServiceMFSPolicy }.

#[export] Instance API_eq_dec : EqDecision RemotePinningServiceAPI.
Proof. solve_decision. Defined.
#[export] Instance MFSPolicy_eq_dec : EqDecision RemotePinningServiceMFSPolicy.
Proof. solve_decision. Defined.
#[export] Instance Service_eq_dec : EqDecision RemotePinningService.
Proof. solve_decision. Defined.

Class ConfigFields `{RepoEnv'} := {
  Identity_PrivKey : Config -> string;
  set_PrivKey : string -> Config -> Config;
  RemoteServices : Config -> gmap string RemotePinningService;
  set_RemoteServices : gmap string RemotePinningService -> Config -> Config;
  (** [json.Unmarshal] into a service *)
  decode_service : json -> result RemotePinningService;
  PrivKey_set k c : Identity_PrivKey (set_PrivKey k c) = k;
  PrivKey_set_services v c : Identity_PrivKey (set_RemoteServices v c) = Identity_PrivKey c;
  services_set v c : RemoteServices (set_RemoteServices v c) = v;
  services_set_PrivKey k c : RemoteServices (set_PrivKey k c) = RemoteServices c;
  (** the encoding of a configuration: its identity is an object, with the private
      key unless that is empty, and each service has its two API fields *)
  ToMap_PrivKey c u : ToMap c = Ok u ->
    get_path (JObj u) PrivKeyPath = Some (JStr (Identity_PrivKey c)) \/
    Identity_PrivKey c = "" /\ get_path (JObj u) PrivKeyPath = None /\ (exists o, get_path (JObj u) [IdentityTag] = Some (JObj o));
  ToMap_service c u name svc : ToMap c = Ok u -> RemoteServices c !! name = Some svc ->
    get_path (JObj u) ["Pinning"; "RemoteServices"; name; "API"; "Endpoint"] = Some (JStr (api_Endpoint (svc_API svc))) /\
    get_path (JObj u) ["Pinning"; "RemoteServices"; name; "API"; "Key"] = Some (JStr (api_Key (svc_API svc)));
}.

Section Commands.
Context `{RepoEnv', DatastoreEnv}.

Abbreviation rio A := (FSRepo -> disk -> result A * FSRepo * disk).

Definition getConfig (key : string) : rio json := fun r s =>
  let '(v, s) := GetConfigKey r key s in
  match v with
  | Err e => (Err ("failed to get config value: " +:+ quoted e), r, s)
  | Ok v => (Ok v, r, s)
  end.

Definition setConfig (key : string) (value : json) : rio json := fun r s =>
  match SetConfigKey key value r s with
  | (Err e, r, s) => (Err ("failed to set config value: " +:+ e +:+ " (maybe use --json?)"), r, s)
  | (Ok _, r, s) => getConfig key r s
  end.

(** [defer r.Close()]: its error is dropped. *)
Definition with_repo {A} (cfgRoot : string) (body : rio A) : io A := fun s =>
  match open cfgRoot "" s with
  | (Err e, s) => (Err e, s)
  | (Ok r, s) => let '(res, r, s) := body r s in let '(_, _, s) := Close r s in (res, s)
  end.

(** The value argument and how the options say to read it. *)
Inductive value_arg := NoValue | PlainValue (v : string) | BoolValue (v : string) | JSONValue (v : result json).

Definition config_Run (cfgRoot key : string) (arg : value_arg) : io json :=
  match config_guard key with
  | Some e => throw e
  | None =>
      with_repo cfgRoot (fun r s =>
        match arg with
        | NoValue => getConfig key r s
        | PlainValue v => setConfig key (JStr v) r s
        | BoolValue v => setConfig key (JBool (String.eqb v "true")) r s
        | JSONValue (Ok v) => setConfig key v r s
        | JSONValue (Err e) => (Err ("failed to unmarshal json. " +:+ e), r, s)
        end)
  end.

Definition configShow_Run (cfgRoot configFileOpt : string) : io object :=
  do fname <- of_result (Filename cfgRoot configFileOpt);
  do data <- os_ReadFile fname;
  do cfg <- of_result (decode_map data);
  of_result (shown cfg).

(** [scrubPrivKey]: used for the output of [config profile apply]. *)
Definition scrubPrivKey (cfg : Config) : result object :=
  match ToMap cfg with Err e => Err e | Ok m => scrubValue m PrivKeyPath end.

(** [temp]: the name of the backup file. *)
Definition transformConfig (cfgRoot temp : string) (transformer : Config -> result Config) (dryRun : bool)
  : io (Config * Config) :=
  with_repo cfgRoot (fun r s =>
    match Config_ r with
    | Err e => (Err e, r, s)
    | Ok None => (Err "no config", r, s) (* [open] has set it *)
    | Ok (Some oldCfg) =>
        match Clone oldCfg with
        | Err e => (Err e, r, s)
        | Ok newCfg =>
            match transformer newCfg with
            | Err e => (Err e, r, s)
            | Ok newCfg =>
                if dryRun then (Ok (oldCfg, newCfg), r, s)
                else match BackupConfig r temp s with
                | (Err e, s) => (Err e, r, s)
                | (Ok _, s) =>
                    match SetConfig newCfg r s with
                    | (Err e, r, s) => (Err e, r, s)
                    | (Ok _, r, s) => (Ok (oldCfg, newCfg), r, s)
                    end
                end
            end
        end
    end).

Definition profileApply_Run (cfgRoot temp : string) (transformer : Config -> result Config) (dryRun : bool) : io (object * object) :=
  do cfgs <- transformConfig cfgRoot temp transformer dryRun;
  do oldCfgMap <- of_result (scrubPrivKey cfgs.1);
  do newCfgMap <- of_result (scrubPrivKey cfgs.2);
  ret (oldCfgMap, newCfgMap).

(** *** [config replace] *)

Context `{!ConfigFields}.

(** [json.Unmarshal] into a map of services. *)
Fixpoint decode_services (val : object) : result (gmap string RemotePinningService) :=
  match val with
  | [] => Ok ∅
  | (name, j) :: val =>
      match decode_service j with
      | Err e => Err e
      | Ok svc => match decode_services val with Err e => Err e | Ok m => Ok (<[name := svc]> m) end
      end
  end.

Definition getRemotePinningServices : rio (gmap string RemotePinningService) := fun r s =>
  match getConfig RemoteServicesPath r s with
  | (Ok (JObj val), r, s) => (decode_services val, r, s)
  | (_, r, s) => (Ok ∅, r, s)
  end.

Definition cannot_add_or_remove : error := "cannot add or remove remote pinning services with 'config replace'".

(** The loop over the old services, as the map is iterated. *)
Fixpoint reapply (old : list (string * RemotePinningService)) (new : gmap string RemotePinningService)
  : result (gmap string RemotePinningService) :=
  match old with
  | [] => Ok new
  | (name, oldSvc) :: old =>
      match new !! name with
      | None => Err cannot_add_or_remove
      | Some newSvc =>
          if negb (String.eqb (api_Key (svc_API newSvc)) "") ||
             (negb (String.eqb (api_Endpoint (svc_API newSvc)) "") && negb (String.eqb (api_Endpoint (svc_API newSvc)) (api_Endpoint (svc_API oldSvc))))
          then Err "cannot change remote pinning services api info with `config replace`"
          else reapply old (<[name := MkService (svc_API oldSvc) (svc_Policies newSvc)]> new)
      end
  end.

(** [order]: the old services as the map is iterated. *)
Definition replaceConfig (file : result Config) (order : gmap string RemotePinningService -> list (string * RemotePinningService)) : rio unit := fun r s =>
  match file with
  | Err _ => (Err "failed to decode file as config", r, s)
  | Ok newCfg =>
      if negb (String.eqb (Identity_PrivKey newCfg) "") then (Err "setting private key with API is not supported", r, s)
      else match getConfig PrivKeySelector r s with
      | (Err _, r, s) => (Err "failed to get PrivKey", r, s)
      | (Ok (JStr pkstr), r, s) =>
          let newCfg := set_PrivKey pkstr newCfg in
          let newServices := RemoteServices newCfg in
          match getRemotePinningServices r s with
          | (Err e, r, s) => (Err ("failed to load remote pinning services info (" +:+ e +:+ ")"), r, s)
          | (Ok oldServices, r, s) =>
              if negb (size newServices =? size oldServices)%nat then (Err cannot_add_or_remove, r, s)
              else match reapply (order oldServices) newServices with
              | Err e => (Err e, r, s)
              | Ok services => SetConfig (set_RemoteServices services newCfg) r s
              end
          end
      | (Ok _, r, s) => (Err "private key in config was not a string", r, s)
      end
  end.

End Commands.

(** ** Secrets *)

(** The values at the paths a selector matches, other than maps, replaced by
    strings: another configuration with the same secrets-free part. *)
Fixpoint replace_at (f : json -> string) (glob : list string) (v : json) : json :=
  match glob with
  | [] => match v with JObj _ => v | _ => JStr (f v) end
  | g :: glob =>
      match v with
      | JObj m => JObj ((fun e => (e.1, if glob_match g e.1 then replace_at f glob e.2 else e.2)) <$> m)
      | _ => v
      end
  end.

Definition replace_in (f : json -> string) (g : string) (glob : list string) (m : object) : object :=
  (fun e => (e.1, if glob_match g e.1 then replace_at f glob e.2 else e.2)) <$> m.

(** A configuration with other secrets. *)
Definition with_secrets (f h : json -> string) (m : object) : object :=
  replace_in f IdentityTag [PrivKeyTag] (replace_in h "Pinning" ["RemoteServices"; "*"; "API"; "Key"] m).

(** ** Lemmas *)

Lemma glob_match_sym g k : glob_match g k = (String.eqb g "*" || EqualFold k g).
Proof. unfold glob_match, EqualFold. by rewrite (String.eqb_sym (lower g)). Qed.

(** Scrubbing never fails, whatever is missing. *)
Lemma scrub_ok glob ok m : exists n, scrubMapInternal glob ok m = Ok n /\ scrubMapInternal glob true m = Ok n.
Proof.
  revert m. induction glob as [|g glob IH]; intros m; [by eexists|].
  induction m as [|[k v] m [n [IH1 IH2]]]; [by eexists|]. cbn in *.
  destruct (glob_match g k); [|rewrite IH1, IH2; by eexists].
  destruct v as [| | | | |o]; try (rewrite IH1, IH2; by eexists).
  destruct (IH o) as (n' & -> & ->). rewrite IH1, IH2. by eexists.
Qed.

(** The result as a function. *)
Definition scrubbed (glob : list string) (m : object) : object :=
  match scrubMapInternal glob true m with Ok n => n | Err _ => [] end.

Lemma scrub_eq glob ok m : scrubMapInternal glob ok m = Ok (scrubbed glob m).
Proof. destruct (scrub_ok glob ok m) as (n & E1 & E2). unfold scrubbed. by rewrite E1, E2. Qed.

Lemma scrubbed_cons g glob k v m : scrubbed (g :: glob) ((k, v) :: m) =
  if glob_match g k then match v with JObj o => (k, JObj (scrubbed glob o)) :: scrubbed (g :: glob) m | _ => scrubbed (g :: glob) m end
  else (k, v) :: scrubbed (g :: glob) m.
Proof.
  pose proof (scrub_eq (g :: glob) true m) as Em. unfold scrubbed at 1. cbn in *. rewrite Em.
  destruct (glob_match g k); [|done]. destruct v as [| | | | |o]; try done. by rewrite scrub_eq.
Qed.

Lemma replace_at_obj f g glob m : replace_at f (g :: glob) (JObj m) = JObj (replace_in f g glob m).
Proof. done. Qed.

Lemma scrubbed_replace_at f glob m : scrubbed glob (match replace_at f glob (JObj m) with JObj o => o | _ => m end) = scrubbed glob m.
Proof.
  revert m. induction glob as [|g glob IH]; intros m; [done|]. rewrite replace_at_obj.
  induction m as [|[k v] m IHm]; [done|]. unfold replace_in in *. rewrite fmap_cons, !scrubbed_cons. cbn [fst snd]. rewrite IHm.
  destruct (glob_match g k); [|done]. destruct v as [| | | | |o]; try (by destruct glob).
  specialize (IH o). destruct glob as [|g' glob']; [done|]. rewrite replace_at_obj in *. by rewrite IH.
Qed.

Lemma scrubbed_replace f g glob m : scrubbed (g :: glob) (replace_in f g glob m) = scrubbed (g :: glob) m.
Proof. exact (scrubbed_replace_at f (g :: glob) m). Qed.

(** Scrubbing one selector leaves the secrets of a selector with another head. *)
Lemma scrubbed_replace_other f g1 glob1 g2 glob2 m : (forall k, glob_match g1 k = true -> glob_match g2 k = false) ->
  scrubbed (g1 :: glob1) (replace_in f g2 glob2 m) = replace_in f g2 glob2 (scrubbed (g1 :: glob1) m).
Proof.
  intros Hd. unfold replace_in. induction m as [|[k v] m IH]; [done|]. rewrite fmap_cons, !scrubbed_cons. cbn [fst snd]. rewrite IH.
  specialize (Hd k). destruct (glob_match g1 k); [|done]. rewrite Hd by done. destruct v; try done.
  rewrite fmap_cons. cbn [fst snd]. by rewrite Hd.
Qed.

Lemma tags_differ k : glob_match IdentityTag k = true -> glob_match "Pinning" k = false.
Proof.
  unfold glob_match, EqualFold. cbn [String.eqb orb]. change (String.eqb IdentityTag "*") with false. change (String.eqb "Pinning" "*") with false. cbn [orb].
  intros E%String.eqb_eq. rewrite <- E. reflexivity.
Qed.

Lemma shown_eq m : shown m = Ok (scrubbed PinningConcealSelector (scrubbed PrivKeyPath m)).
Proof. unfold shown, scrubValue, scrubOptionalValue. by rewrite !scrub_eq. Qed.

(** *** Paths *)

Lemma scrubbed_lookup g glob k m : NoDup m.*1 -> mlookup k (scrubbed (g :: glob) m) =
  if glob_match g k then match mlookup k m with Some (JObj o) => Some (JObj (scrubbed glob o)) | _ => None end else mlookup k m.
Proof.
  induction m as [|[k' v] m IH]; [by destruct (glob_match g k)|]. intros Hnd. csimpl in Hnd. apply NoDup_cons in Hnd as [Hn Hnd].
  specialize (IH Hnd). rewrite scrubbed_cons. cbn [mlookup]. destruct (decide (k = k')) as [<- |Hk].
  - assert (Hnone : mlookup k m = None).
    { destruct (mlookup k m) as [w|] eqn:E; [|done]. exfalso. apply Hn. clear -E. induction m as [|[k2 v2] m IH]; [done|]. csimpl in *.
      destruct (decide (k = k2)) as [-> |]; [by left|right; auto]. }
    destruct (glob_match g k) eqn:G; [|cbn [mlookup]; by rewrite decide_True].
    destruct v as [| | | | |o]; try (rewrite IH, Hnone; done). cbn [mlookup]. by rewrite decide_True.
  - destruct (glob_match g k'); [|cbn [mlookup]; by rewrite decide_False].
    destruct v; try done. cbn [mlookup]. by rewrite decide_False.
Qed.

(** A path that leaves the selector reads as before. *)
Lemma scrubbed_keeps glob ps m : wf (JObj m) -> glob_loop ps glob = false -> get_path (JObj (scrubbed glob m)) ps = get_path (JObj m) ps.
Proof.
  revert ps m. induction glob as [|g glob IH]; intros ps m Hw Hg; [by destruct ps|]. destruct ps as [|p ps]; [done|].
  cbn [get_path]. rewrite scrubbed_lookup by (by apply wf_keys). cbn [glob_loop] in Hg. rewrite glob_match_sym.
  destruct (String.eqb g "*") eqn:Es; cbn [orb].
  - destruct (mlookup p m) as [v|] eqn:E; [|done]. destruct v as [| | | | |o]; try (destruct ps; [by destruct glob|done]).
    apply IH; [by eapply wf_lookup|done].
  - destruct (EqualFold p g) eqn:Ef; [|done].
    destruct (mlookup p m) as [v|] eqn:E; [|done]. destruct v as [| | | | |o]; try (destruct ps; [by destruct glob|done]).
    apply IH; [by eapply wf_lookup|done].
Qed.

(** Nothing is left at a path the selector matches, but an empty map where there
    was a map. *)
Lemma scrubbed_hides glob ps m : wf (JObj m) -> glob <> [] -> length ps = length glob -> glob_loop ps glob = true ->
  get_path (JObj (scrubbed glob m)) ps = None \/ get_path (JObj (scrubbed glob m)) ps = Some (JObj []).
Proof.
  revert ps m. induction glob as [|g glob IH]; intros ps m Hw Hne Hl Hg; [done|]. destruct ps as [|p ps]; [done|]. cbn [length] in Hl.
  cbn [get_path]. rewrite scrubbed_lookup by (by apply wf_keys). cbn [glob_loop] in Hg. rewrite glob_match_sym.
  assert (Hm : String.eqb g "*" || EqualFold p g = true /\ glob_loop ps glob = true)
    by (destruct (String.eqb g "*"); [done|]; destruct (EqualFold p g); done).
  destruct Hm as [-> Hg2]. destruct (mlookup p m) as [[| | | | |o]|] eqn:E; try (by left).
  destruct glob as [|g' glob']; [destruct ps; [by right|done]|].
  apply IH; [by eapply wf_lookup|done|lia|done].
Qed.

Lemma wf_scrubbed glob m : wf (JObj m) -> wf (JObj (scrubbed glob m)).
Proof.
  revert m. induction glob as [|g glob IH]; intros m Hw; [apply wf_empty|]. inversion Hw as [| | | | |? Hnd Hall]; subst. clear Hw.
  assert (Hk : forall k v, (k, v) ∈ scrubbed (g :: glob) m -> exists w, (k, w) ∈ m /\ wf v).
  { clear Hnd. induction m as [|[k v] m IHm]; [set_solver|]. intros k' v'. rewrite scrubbed_cons.
    assert (Hm : forall k v, (k, v) ∈ scrubbed (g :: glob) m -> exists w, (k, w) ∈ (m : object) /\ wf v) by (apply IHm; set_solver). clear IHm.
    intros Hin. assert (Hc : (exists w, k' = k /\ w = v /\ wf v') \/ (k', v') ∈ scrubbed (g :: glob) m).
    { destruct (glob_match g k); [destruct v as [| | | | |o]; try (by right)|]; apply elem_of_cons in Hin as [[= -> ->]|Hin]; try (by right); left; eexists; split_and!; try done.
      - apply IH. apply (Hall k). set_solver.
      - apply (Hall k). set_solver. }
    destruct Hc as [(w & -> & -> & Hv)|Hin']; [exists v; split; [set_solver|done]|].
    destruct (Hm _ _ Hin') as (w & ? & ?). exists w. split; [set_solver|done]. }
  constructor; [|intros k v Hin; by destruct (Hk k v Hin) as (w & _ & ?)].
  clear Hk Hall. induction m as [|[k v] m IHm]; [constructor|]. csimpl in Hnd. apply NoDup_cons in Hnd as [Hn Hnd]. specialize (IHm Hnd).
  assert (Hsub : k ∉ (scrubbed (g :: glob) m).*1).
  { intros Hin. apply Hn. clear -Hin. induction m as [|[k2 v2] m IH]; [set_solver|]. rewrite scrubbed_cons in Hin. csimpl.
    destruct (glob_match g k2); [destruct v2|]; csimpl in Hin; set_solver. }
  rewrite scrubbed_cons. destruct (glob_match g k); [destruct v; try done|]; csimpl; by apply NoDup_cons.
Qed.

(** *** Reading keys *)

Lemma mlookup_replace f g glob k m : mlookup k (replace_in f g glob m) =
  (fun v => if glob_match g k then replace_at f glob v else v) <$> mlookup k m.
Proof. unfold replace_in. induction m as [|[k' v] m IH]; [done|]. rewrite fmap_cons. cbn. by case_decide as Hd; [subst k'|]. Qed.

(** Reading a path that is longer than the selector, or leaves it, does not see
    the secrets. *)
Lemma get_loop_replace f glob v sofar ps : glob_loop ps glob = false \/ (length glob < length ps)%nat ->
  get_loop (replace_at f glob v) sofar ps = get_loop v sofar ps.
Proof.
  revert v sofar ps. induction glob as [|g glob IH]; intros v sofar ps Hc.
  - destruct ps as [|p ps]; [cbn in Hc; destruct Hc as [?|?]; [done|lia]|]. by destruct v.
  - destruct v as [| | | | |m]; try done. rewrite replace_at_obj. destruct ps as [|p ps]; [cbn in Hc; destruct Hc as [?|?]; [done|lia]|].
    cbn [get_loop]. rewrite mlookup_replace. destruct (mlookup p m) as [v|]; [|done]. cbn [fmap option_fmap option_map].
    rewrite glob_match_sym. cbn [glob_loop length] in Hc.
    destruct (String.eqb g "*"); cbn [orb]; [apply IH; destruct Hc; [by left|right; lia]|].
    destruct (EqualFold p g); [|done]. apply IH; destruct Hc; [by left|right; lia].
Qed.

Lemma lower_split sep s : lower_char sep = sep -> (forall c, lower_char c = sep -> c = sep) -> split_on sep (lower s) = lower <$> split_on sep s.
Proof.
  intros Hs Hi. induction s as [|c s IH]; [done|]. cbn [lower split_on]. rewrite IH.
  destruct (Ascii.eqb_spec c sep) as [-> |Hc]; [by rewrite Hs, Ascii.eqb_refl|].
  destruct (Ascii.eqb_spec (lower_char c) sep) as [E|_]; [by apply Hi in E|].
  pose proof (split_on_nonempty sep s). by destruct (split_on sep s).
Qed.

Lemma lower_dot c : lower_char c = dot -> c = dot.
Proof. destruct c as [[] [] [] [] [] [] [] []]; vm_compute; congruence. Qed.

Lemma guard_identity key : config_guard key = None -> glob_loop (parts_of key) PrivKeyPath = false \/ (length PrivKeyPath < length (parts_of key))%nat.
Proof.
  unfold config_guard. destruct (String.eqb_spec (lower key) "identity") as [|H1]; [done|].
  destruct (String.eqb_spec (lower key) "identity.privkey") as [|H2]; [done|]. intros _.
  destruct (glob_loop (parts_of key) PrivKeyPath) eqn:E; [|by left]. right.
  pose proof (lower_split dot key eq_refl lower_dot) as Hl. pose proof (join_split dot (lower key)) as Hj.
  unfold parts_of in *. pose proof (split_on_nonempty dot key) as Hne. rewrite Hl in Hj.
  destruct (split_on dot key) as [|p1 [|p2 [|p3 ps]]]; [done| | |cbn; lia]; exfalso; cbn in E; unfold EqualFold in E.
  - destruct (String.eqb_spec (lower p1) (lower IdentityTag)) as [E1|]; [|done]. apply H1. rewrite <- Hj. cbn. by rewrite E1.
  - destruct (String.eqb_spec (lower p1) (lower IdentityTag)) as [E1|]; [|done].
    destruct (String.eqb_spec (lower p2) (lower PrivKeyTag)) as [E2|]; [|done]. apply H2. rewrite <- Hj. cbn. by rewrite E1, E2.
Qed.

Lemma guard_pinning key : config_guard key = None -> glob_loop (parts_of key) PinningConcealSelector = false.
Proof. unfold config_guard, matchesGlobPrefix. repeat case_match; done. Qed.

Lemma replace_at_MapGetKV f g glob m key : glob_loop (parts_of key) (g :: glob) = false \/ (length (g :: glob) < length (parts_of key))%nat ->
  MapGetKV (replace_in f g glob m) key = MapGetKV m key.
Proof. intros Hc. unfold MapGetKV. rewrite <- replace_at_obj. by apply get_loop_replace. Qed.

(** ** Theorems *)

(** C13: what [config show] outputs does not depend on the secrets: two
    configurations that differ only in the private key and in the API keys of
    remote pinning services (under any letter case) give the same output; every
    value at a path outside the two selectors is shown as it is. *)
Theorem config_show_conceals (f h : json -> string) (m : object) :
  wf (JObj m) ->
  exists out, shown m = Ok out /\ shown (with_secrets f h m) = Ok out /\
  (forall ps, glob_loop ps PrivKeyPath = false -> glob_loop ps PinningConcealSelector = false ->
     get_path (JObj out) ps = get_path (JObj m) ps) /\
  forall ps, (length ps = 2%nat /\ glob_loop ps PrivKeyPath = true) \/ (length ps = 5%nat /\ glob_loop ps PinningConcealSelector = true) ->
    get_path (JObj out) ps = None \/ get_path (JObj out) ps = Some (JObj []).
Proof.
  intros Hw. exists (scrubbed PinningConcealSelector (scrubbed PrivKeyPath m)). rewrite !shown_eq.
  pose proof (wf_scrubbed PrivKeyPath m Hw) as Hw2. split_and!; [done| | |].
  - unfold with_secrets, PrivKeyPath, PinningConcealSelector. rewrite scrubbed_replace.
    rewrite (scrubbed_replace_other h IdentityTag [PrivKeyTag] "Pinning") by apply tags_differ. by rewrite scrubbed_replace.
  - intros ps H1 H2. by rewrite !scrubbed_keeps.
  - intros ps [[Hl Hg]|[Hl Hg]]; [|by apply scrubbed_hides].
    rewrite scrubbed_keeps; [by apply scrubbed_hides|done|]. destruct ps as [|p ps]; [done|].
    cbn [glob_loop PrivKeyPath] in Hg. change (String.eqb IdentityTag "*") with false in Hg. cbv iota in Hg.
    destruct (EqualFold p IdentityTag) eqn:E; [|done]. cbn [glob_loop PinningConcealSelector]. change (String.eqb "Pinning" "*") with false. cbv iota.
    unfold EqualFold in *. apply String.eqb_eq in E. by rewrite E.
Qed.

(** What the help text says otherwise: the services stay in the output, with their
    endpoints and policies. *)
Theorem config_show_has_services (m out : object) name field rest :
  wf (JObj m) -> shown m = Ok out -> EqualFold field "API" = false \/ rest <> [] /\ EqualFold (List.hd "" rest) "Key" = false ->
  get_path (JObj out) ("Pinning" :: "RemoteServices" :: name :: field :: rest) = get_path (JObj m) ("Pinning" :: "RemoteServices" :: name :: field :: rest).
Proof.
  intros Hw. rewrite shown_eq. intros [= <-] Hf. pose proof (wf_scrubbed PrivKeyPath m Hw) as Hw2.
  assert (Hg : glob_loop ("Pinning" :: "RemoteServices" :: name :: field :: rest) PinningConcealSelector = false).
  { cbn -[EqualFold]. change (EqualFold "Pinning" "Pinning") with true. change (EqualFold "RemoteServices" "RemoteServices") with true.
    cbn -[EqualFold]. destruct Hf as [-> |[Hr Hf]]; [done|]. destruct rest as [|k rest]; [done|]. cbn -[EqualFold] in Hf. destruct (EqualFold field "API"); [|done]. cbn -[EqualFold]. rewrite Hf. done. }
  rewrite (scrubbed_keeps PinningConcealSelector) by done. by apply scrubbed_keeps.
Qed.

(** what [config <key>] reads does not depend on the secrets: a key that passes
    the command's guards reads the same from two configurations that differ only
    in the private key and in the API keys of remote pinning services. *)
Theorem config_get_conceals (f h : json -> string) (m : object) (key : string) :
  config_guard key = None -> MapGetKV (with_secrets f h m) key = MapGetKV m key.
Proof.
  intros Hg. unfold with_secrets. rewrite replace_at_MapGetKV by (by apply guard_identity).
  apply replace_at_MapGetKV. left. by apply guard_pinning.
Qed.

(** the output of [config profile apply] has the API keys of remote pinning
    services in clear: only the private key is scrubbed from it. *)
Theorem profile_apply_shows_api_keys `{RepoEnv'} (cfg : Config) (m out : object) (name : string) :
  ToMap cfg = Ok m -> scrubPrivKey cfg = Ok out ->
  let path := ["Pinning"; "RemoteServices"; name; "API"; "Key"] in
  get_path (JObj out) path = get_path (JObj m) path.
Proof.
  intros Em. unfold scrubPrivKey, scrubValue. rewrite Em, scrub_eq. intros [= <-]. apply scrubbed_keeps; [|done].
  unfold ToMap in Em. repeat (case_match; simplify_eq). by eapply decode_map_wf.
Qed.

(** [scrubValue], documented to return an error if the key is missing, never
    does: it tests the map left nil by a failed type assertion. *)
Theorem scrub_never_reports (m : object) (key : list string) : exists n, scrubValue m key = Ok n.
Proof. unfold scrubValue. rewrite scrub_eq. by eexists. Qed.

(** *** [config replace] *)

Lemma reapply_spec old new new' : NoDup old.*1 -> reapply old new = Ok new' ->
  dom new' = dom new /\
  (forall name svc, (name, svc) ∈ old -> is_Some (new !! name) /\ svc_API <$> new' !! name = Some (svc_API svc)) /\
  (forall name, name ∉ old.*1 -> new' !! name = new !! name).
Proof.
  revert new. induction old as [|[name svc] old IH]; intros new Hnd; [intros [= <-]; split_and!; [done|set_solver|done]|].
  csimpl in Hnd. apply NoDup_cons in Hnd as [Hn Hnd]. cbn. destruct (new !! name) as [newSvc|] eqn:E; [|done]. case_match; [done|]. intros Hr.
  destruct (IH _ Hnd Hr) as (D1 & D2 & D3). split_and!.
  - rewrite D1, dom_insert_L. apply (elem_of_dom_2 (D := gset string)) in E. set_solver.
  - intros name' svc' [[= -> ->]|Hin]%elem_of_cons.
    + split; [by eexists|]. rewrite D3 by done. by rewrite lookup_insert_eq.
    + destruct (D2 _ _ Hin) as [H1 H2]. split; [|done]. destruct (decide (name' = name)) as [-> |Hne]; [by eexists|]. by rewrite lookup_insert_ne in H1.
  - intros name' Hni. csimpl in Hni. apply not_elem_of_cons in Hni as [Hne Hni]. rewrite D3 by done. by rewrite lookup_insert_ne.
Qed.

Lemma decode_services_lookup `{RepoEnv', !ConfigFields} val svcs : NoDup val.*1 -> decode_services val = Ok svcs ->
  forall name, match mlookup name val with
               | Some j => exists svc, decode_service j = Ok svc /\ svcs !! name = Some svc
               | None => svcs !! name = None
               end.
Proof.
  revert svcs. induction val as [|[k j] val IH]; intros svcs Hnd; [by intros [= <-]|]. csimpl in Hnd. apply NoDup_cons in Hnd as [Hn Hnd]. cbn.
  destruct (decode_service j) as [svc|] eqn:Ej; [|done]. destruct (decode_services val) as [m|] eqn:Em; [|done]. intros [= <-] name.
  destruct (decide (name = k)) as [-> |Hne]; [exists svc; by rewrite lookup_insert_eq|]. rewrite lookup_insert_ne by done. by apply IH.
Qed.

(** The services of a configuration file: what its map has below
    [Pinning.RemoteServices], each decoded. *)
Definition services_are `{RepoEnv', !ConfigFields} (m : object) (svcs : gmap string RemotePinningService) : Prop :=
  forall name, match get_path (JObj m) ["Pinning"; "RemoteServices"; name] with
               | Some j => exists svc, decode_service j = Ok svc /\ svcs !! name = Some svc
               | None => svcs !! name = None
               end.

Lemma getConfig_quiet `{RepoEnv'} key r s m : quiet s -> closed r = false -> config_map r s = Some m ->
  getConfig key r s = (match MapGetKV m key with Ok v => Ok v | Err e => Err ("failed to get config value: " +:+ quoted e) end, r, s).
Proof.
  intros Q Hc C. unfold getConfig, GetConfigKey. rewrite Hc. unfold bind, ReadConfigFile. rewrite os_ReadFile_quiet by done.
  unfold config_map in C. destruct (files s !! configFilePath r) as [c|]; [|done]. destruct (decode_map c); [|done]. simplify_eq.
  unfold of_result. by destruct (MapGetKV m key).
Qed.

(** When the read goes well and when it does not. *)
Lemma getConfig_next `{RepoEnv'} key r s m fs : faults s = None :: fs -> closed r = false -> config_map r s = Some m ->
  getConfig key r s =
    (match MapGetKV m key with Ok v => Ok v | Err e => Err ("failed to get config value: " +:+ quoted e) end, r, Disk (files s) (locks s) (open_ds s) fs).
Proof.
  intros Hf Hc C. unfold getConfig, GetConfigKey. rewrite Hc. unfold bind, ReadConfigFile, os_ReadFile, bind, may_fail, next_fault. rewrite Hf. cbn [files].
  unfold config_map in C. destruct (files s !! configFilePath r) as [c|]; [|done]. destruct (decode_map c); [|done]. simplify_eq.
  unfold of_result. by destruct (MapGetKV m key).
Qed.
Lemma getConfig_fails `{RepoEnv'} key r s e n fs : faults s = Some (e, n) :: fs ->
  exists e' s', getConfig key r s = (Err e', r, s') /\ (closed r = false -> s' = Disk (files s) (locks s) (open_ds s) fs).
Proof.
  intros Hf. unfold getConfig, GetConfigKey. destruct (closed r); [by do 2 eexists|].
  unfold bind, ReadConfigFile, os_ReadFile, bind, may_fail, next_fault. rewrite Hf. by do 2 eexists.
Qed.

Lemma getRemotePinningServices_quiet `{RepoEnv', !ConfigFields} r s m res r' s' :
  quiet s -> closed r = false -> config_map r s = Some m -> wf (JObj m) -> getRemotePinningServices r s = (Ok res, r', s') ->
  r' = r /\ s' = s /\ services_are m res.
Proof.
  intros Q Hc C W. unfold getRemotePinningServices. rewrite (getConfig_quiet _ _ _ m) by done.
  assert (Hp : forall v, MapGetKV m RemoteServicesPath = Ok v <-> get_path (JObj m) ["Pinning"; "RemoteServices"] = Some v) by (intros v; apply MapGetKV_path).
  assert (Hg : forall name, get_path (JObj m) ["Pinning"; "RemoteServices"; name] =
    match get_path (JObj m) ["Pinning"; "RemoteServices"] with Some v => get_path v [name] | None => None end) by (intros name; apply (get_path_app _ ["Pinning"; "RemoteServices"] [name])).
  assert (Hnone : (forall o, get_path (JObj m) ["Pinning"; "RemoteServices"] <> Some (JObj o)) -> services_are m ∅).
  { intros Hn name. rewrite Hg. destruct (get_path (JObj m) ["Pinning"; "RemoteServices"]) as [[]|]; try done. by destruct (Hn m0). }
  destruct (MapGetKV m RemoteServicesPath) as [v|e].
  - pose proof (proj1 (Hp v) eq_refl) as Hv.
    destruct v as [| | | | |val]; try (intros [= <- <- <-]; split_and!; [done|done|]; apply Hnone; intros o; rewrite Hv; discriminate).
    intros E. injection E as E <- <-. split_and!; [done|done|]. intros name. rewrite Hg, Hv. cbn.
    assert (Hnd : NoDup val.*1) by (apply wf_keys; by apply (get_path_wf _ _ _ W Hv)).
    pose proof (decode_services_lookup val res Hnd E name) as Hl. by destruct (mlookup name val).
  - intros [= <- <- <-]. split_and!; [done|done|]. apply Hnone. intros o Ho. apply Hp in Ho. done.
Qed.

Lemma config_map_wf `{RepoEnv'} r s m : config_map r s = Some m -> wf (JObj m).
Proof.
  unfold config_map. destruct (files s !! configFilePath r); [|done]. destruct (decode_map _) eqn:E; [|done]. intros [= <-]. by eapply decode_map_wf.
Qed.

(** The services after the loop are the new ones, with the API of the old. *)
Lemma reapply_apis old new services l : l ≡ₚ map_to_list old -> size new = size old -> reapply l new = Ok services ->
  forall name, svc_API <$> services !! name = svc_API <$> old !! name.
Proof.
  intros Hl Hsz Er. apply reapply_spec in Er as (D1 & D2 & D3); [|rewrite Hl; apply NoDup_fst_map_to_list].
  assert (Hdom : (dom old : gset string) = dom new).
  { apply set_subseteq_size_eq.
    - intros name [svc Hs]%elem_of_dom. apply elem_of_dom. apply (D2 name svc). rewrite Hl. by apply elem_of_map_to_list.
    - rewrite !size_dom. lia. }
  intros name. destruct (old !! name) as [svc|] eqn:E.
  - cbn. apply D2. rewrite Hl. by apply elem_of_map_to_list.
  - cbn. assert (Hnone : services !! name = None); [|by rewrite Hnone].
    apply (not_elem_of_dom (D := gset string)). rewrite D1, <- Hdom. by apply not_elem_of_dom.
Qed.

(** C16: [config replace] keeps every secret: on a disk that does not fail, when it
    succeeds, the configuration in memory has the private key of the file, the
    services of the file and no others, and for each the endpoint and the API key
    the file had, in whatever order they are iterated; and the file it wrote has
    the same private key, and the same endpoint and key of each service. *)
Theorem config_replace_keeps_secrets `{RepoEnv', !ConfigFields} (file : result Config)
    (order : gmap string RemotePinningService -> list (string * RemotePinningService)) (r r' : FSRepo) (s s' : disk) (m : object) :
  (forall m, order m ≡ₚ map_to_list m) -> quiet s -> config_map r s = Some m -> replaceConfig file order r s = (Ok tt, r', s') ->
  exists c m' pk, config r' = Some c /\ config_map r' s' = Some m' /\
    get_path (JObj m) PrivKeyPath = Some (JStr pk) /\ Identity_PrivKey c = pk /\ get_path (JObj m') PrivKeyPath = Some (JStr pk) /\
    forall name, match get_path (JObj m) ["Pinning"; "RemoteServices"; name] with
      | None => RemoteServices c !! name = None
      | Some j => exists svc, decode_service j = Ok svc /\ svc_API <$> RemoteServices c !! name = Some (svc_API svc) /\
          get_path (JObj m') ["Pinning"; "RemoteServices"; name; "API"; "Endpoint"] = Some (JStr (api_Endpoint (svc_API svc))) /\
          get_path (JObj m') ["Pinning"; "RemoteServices"; name; "API"; "Key"] = Some (JStr (api_Key (svc_API svc)))
      end.
Proof.
  intros Ho Q C. unfold replaceConfig. destruct file as [newCfg|]; [|done]. case_match; [done|].
  destruct (closed r) eqn:Hc; [unfold getConfig, GetConfigKey; by rewrite Hc|]. pose proof (config_map_wf r s m C) as W.
  rewrite (getConfig_quiet _ _ _ m) by done. destruct (MapGetKV m PrivKeySelector) as [pkv|] eqn:Ek; [|done].
  destruct pkv as [| | |pk| |]; try done. apply MapGetKV_path in Ek. change (get_path (JObj m) PrivKeyPath = Some (JStr pk)) in Ek.
  destruct (getRemotePinningServices r s) as [[old r2] s2] eqn:E2. destruct old as [old|]; [|done].
  apply (getRemotePinningServices_quiet r s m) in E2 as (-> & -> & Hsvc); [|done..].
  destruct (Nat.eqb_spec (size (RemoteServices (set_PrivKey pk newCfg))) (size old)) as [Hsz|]; [|done]. cbn [negb].
  destruct (reapply (order old) _) as [services|] eqn:Er; [|done]. intros Es.
  apply (SetConfig_written _ _ _ _ _ m) in Es as (u & Tu & Wu & Hr' & Hm'); [|done..].
  set (c := set_RemoteServices services (set_PrivKey pk newCfg)) in *.
  assert (Hpk : Identity_PrivKey c = pk) by (unfold c; by rewrite PrivKey_set_services, PrivKey_set).
  pose proof (reapply_apis old _ services (order old) (Ho old) Hsz Er) as Happly.
  exists c, (MapMergeDeep m u), pk. split_and!; [done..| |].
  - destruct (ToMap_PrivKey c u Tu) as [Hu|(He & Hu & o & Ho')]; [rewrite <- Hpk; by apply merge_right_leaf|].
    apply merge_left_kept; [done..|]. intros p1 x [rest Hp1] Hx. destruct p1 as [|k1 [|k2 p1]].
    + split; [by injection Hx as <-|done].
    + injection Hp1 as Hk1 _. rewrite <- Hk1, Ho' in Hx. by injection Hx as <-.
    + injection Hp1 as Hk1 Hk2 Hp1. destruct p1; [|done]. rewrite <- Hk1, <- Hk2 in Hx. change [IdentityTag; PrivKeyTag] with PrivKeyPath in Hx. by rewrite Hu in Hx.
  - intros name. specialize (Hsvc name). specialize (Happly name). assert (Hcs : RemoteServices c = services) by (unfold c; by rewrite services_set).
    destruct (get_path (JObj m) ["Pinning"; "RemoteServices"; name]) as [j|]; [|rewrite Hsvc in Happly; rewrite Hcs; by destruct (services !! name)].
    destruct Hsvc as (svc & Hd & Hsvc). exists svc. rewrite Hsvc in Happly. cbn in Happly. rewrite Hcs. split_and!; [done|done| |].
    all: destruct (services !! name) as [svc'|] eqn:E; [|done]; injection Happly as Happly; rewrite <- Happly;
      destruct (ToMap_service c u name svc' Tu) as [U1 U2]; [by rewrite Hcs|]; by apply merge_right_leaf.
Qed.

(** When the services cannot be read, [config replace] takes it that there are none:
    the file's services and their API keys are left out of the configuration that
    is saved, without an error. *)
Theorem config_replace_forgets_services `{RepoEnv', !ConfigFields} (newCfg : Config) order (r : FSRepo) (s : disk) (m : object) pk e n :
  faults s = [None; Some (e, n)] -> closed r = false -> config_map r s = Some m -> get_path (JObj m) PrivKeyPath = Some (JStr pk) ->
  Identity_PrivKey newCfg = "" -> RemoteServices newCfg = ∅ -> (forall m, order m ≡ₚ map_to_list m) ->
  replaceConfig (Ok newCfg) order r s =
    SetConfig (set_RemoteServices ∅ (set_PrivKey pk newCfg)) r (Disk (files s) (locks s) (open_ds s) []).
Proof.
  intros Hf Hc C Hk Hp Hs Ho. unfold replaceConfig. rewrite Hp. cbn [String.eqb negb].
  apply (MapGetKV_path m PrivKeySelector) in Hk. rewrite (getConfig_next _ _ _ m [Some (e, n)]) by done. rewrite Hk.
  unfold getRemotePinningServices. set (s1 := Disk _ _ _ _).
  destruct (getConfig_fails RemoteServicesPath r s1 e n [] eq_refl) as (e' & s2 & E2 & Hs2). rewrite E2, (Hs2 Hc).
  rewrite services_set_PrivKey, Hs, map_size_empty. cbn [Nat.eqb negb]. pose proof (Ho ∅) as Hn. rewrite map_to_list_empty in Hn.
  apply Permutation_nil_r in Hn. by rewrite Hn.
Qed.

(** ** Witnesses *)

Module DemoConfig.

Definition demo_map : object :=
  [("Identity", JObj [("PrivKey", JStr "secret")]);
   ("Pinning", JObj [("RemoteServices", JObj [("svc", JObj [("API", JObj [("Endpoint", JStr "e"); ("Key", JStr "k")])])])])].
Definition policy : RemotePinningServiceMFSPolicy := MkMFSPolicy true "" "".
Definition old_services : gmap string RemotePinningService := {[ "svc" := MkService (MkAPI "e" "k") policy ]}.
Definition new_services : gmap string RemotePinningService := {[ "svc" := MkService (MkAPI "" "") policy ]}.

(** A configuration is its private key and its services; one of them has a text. *)
Definition demo_config : Type := string * gmap string RemotePinningService.
Definition merged : demo_config := ("secret", old_services).

Lemma demo_map_wf : wf (JObj demo_map).
Proof. repeat first [apply wf_empty|apply wf_str|(apply DemoRepo.wf_cons; [csimpl; set_solver| |])]. Qed.

Definition config_env : RepoEnv'.
Proof.
  refine {| Config := demo_config; ds_Type := fun _ => ""; ds_Path := fun _ => ""; ds_Spec := fun _ => None;
            FilestoreEnabled := fun _ => false; UrlstoreEnabled := fun _ => true;
            decode_map := fun s => if decide (s = "text") then Ok demo_map else Err "unexpected end of JSON input";
            decode_config := fun s => if decide (s = "text") then Ok merged else Err "unexpected end of JSON input";
            Marshal_map := fun m => if json_eqb (JObj demo_map) (JObj m) then Ok "text" else Err "json: unsupported value";
            Marshal_config := fun c => if decide (c = merged) then Ok "text" else Err "json: unsupported value";
            Marshal_spec := fun _ => ""; Expand := fun p => Ok p;
            homedir_Dir := Ok "/home"; env_IPFS_PATH := ""; repo_registry := [];
            Multiaddr := string; ma_String := fun s => s; NewMultiaddr := fun s => Ok s |}.
  - intros s m. case_decide; [|done]. intros [= <-]. apply demo_map_wf.
  - intros m s _ E. destruct (json_eqb (JObj demo_map) (JObj m)) eqn:Ej; [|done]. apply json_eqb_eq in Ej. simplify_eq. by case_decide.
  - intros c s E. case_decide; [|done]. simplify_eq. by case_decide.
  - reflexivity.
Defined.

Lemma demo_ToMap (c : @Config config_env) u : @ToMap config_env c = Ok u -> c = merged /\ u = demo_map.
Proof. unfold ToMap. cbn. case_decide; [|done]. rewrite decide_True by done. by intros [= <-]. Qed.

Definition config_fields : @ConfigFields config_env.
Proof.
  refine {| Identity_PrivKey := fst : @Config config_env -> string;
            set_PrivKey := fun k (c : @Config config_env) => (k, c.2) : @Config config_env;
            RemoteServices := snd : @Config config_env -> _;
            set_RemoteServices := fun v (c : @Config config_env) => (c.1, v) : @Config config_env;
            decode_service := fun _ => Ok (MkService (MkAPI "e" "k") policy) |}; try reflexivity.
  - intros c u [-> ->]%demo_ToMap. by left.
  - intros c u name svc [-> ->]%demo_ToMap. cbn. unfold old_services. intros [<- <-]%lookup_singleton_Some. done.
Defined.

Definition demo_repo : @FSRepo config_env := @MkFSRepo config_env false "/repo" "/repo/config" (Some merged) [] None.
Definition demo_disk : disk := Disk {[ "/repo/config" := "text" ]} ∅ [] [].

End DemoConfig.

Lemma config_show_conceals_witness :
  exists out, shown DemoConfig.demo_map = Ok out /\ shown (with_secrets (fun _ => "other") (fun _ => "keys") DemoConfig.demo_map) = Ok out.
Proof.
  destruct (config_show_conceals (fun _ => "other") (fun _ => "keys") DemoConfig.demo_map DemoConfig.demo_map_wf) as (out & H1 & H2 & _).
  exists out. exact (conj H1 H2).
Defined.

Lemma config_get_conceals_witness :
  config_guard "Identity.PeerID" = None /\
  MapGetKV (with_secrets (fun _ => "other") (fun _ => "keys") DemoConfig.demo_map) "Identity.PeerID" = MapGetKV DemoConfig.demo_map "Identity.PeerID".
Proof.
  assert (E : config_guard "Identity.PeerID" = None) by reflexivity.
  exact (conj E (config_get_conceals (fun _ => "other") (fun _ => "keys") DemoConfig.demo_map "Identity.PeerID" E)).
Defined.

Lemma profile_apply_shows_api_keys_witness :
  exists out, @scrubPrivKey DemoConfig.config_env DemoConfig.merged = Ok out /\
    get_path (JObj out) ["Pinning"; "RemoteServices"; "svc"; "API"; "Key"] = Some (JStr "k").
Proof.
  eexists. split; [vm_compute; reflexivity|].
  refine (eq_trans (@profile_apply_shows_api_keys DemoConfig.config_env DemoConfig.merged DemoConfig.demo_map _ "svc" _ _) _); vm_compute; reflexivity.
Defined.


Lemma config_replace_keeps_secrets_witness :
  exists r' s' m', @replaceConfig DemoConfig.config_env DemoConfig.config_fields (Ok ("", DemoConfig.new_services)) map_to_list
      DemoConfig.demo_repo DemoConfig.demo_disk = (Ok tt, r', s') /\
    config_map r' s' = Some m' /\ get_path (JObj m') PrivKeyPath = Some (JStr "secret") /\
    get_path (JObj m') ["Pinning"; "RemoteServices"; "svc"; "API"; "Key"] = Some (JStr "k").
Proof.
  destruct (@replaceConfig DemoConfig.config_env DemoConfig.config_fields (Ok ("", DemoConfig.new_services)) map_to_list
      DemoConfig.demo_repo DemoConfig.demo_disk) as [[res r'] s'] eqn:E.
  assert (Er : res = Ok tt) by (apply (f_equal (fun x => x.1.1)) in E; vm_compute in E; exact (eq_sym E)). subst res.
  destruct (@config_replace_keeps_secrets DemoConfig.config_env DemoConfig.config_fields (Ok ("", DemoConfig.new_services)) map_to_list
    DemoConfig.demo_repo r' DemoConfig.demo_disk s' DemoConfig.demo_map (fun m => Permutation_refl _) (eq_refl : quiet DemoConfig.demo_disk) eq_refl E) as (c & m' & pk & _ & Hm & Hpk & _ & Hpk' & Hsvc).
  exists r', s', m'. split_and!; [reflexivity|exact Hm| |].
  - injection Hpk as <-. exact Hpk'.
  - specialize (Hsvc "svc"). destruct Hsvc as (svc & [= <-] & _ & _ & Hkey). exact Hkey.
Defined.

Lemma config_show_has_services_witness : exists out, shown DemoConfig.demo_map = Ok out /\
  get_path (JObj out) ["Pinning"; "RemoteServices"; "svc"; "API"; "Endpoint"] = Some (JStr "e").
Proof.
  destruct (shown DemoConfig.demo_map) as [out|e] eqn:E; [|vm_compute in E; discriminate]. exists out. split; [reflexivity|].
  refine (eq_trans (config_show_has_services DemoConfig.demo_map out "svc" "API" ["Endpoint"] DemoConfig.demo_map_wf E _) _); [|reflexivity].
  right. split; [discriminate|reflexivity].
Defined.
