(* ===== verification/Refs.v ===== *)
(** Listing references: [core/commands/refs.go].

    A node's links are a function of its CID.  Every fetch and every write takes
    its outcome from a list of faults, so that all error paths are runs of the
    model.  The recursion is over the DAG; [fuel] bounds its height. *)
From Stdlib Require Import ZArith Lia String.
From stdpp Require Import base list strings gmap relations.
From S2P Require Import Prelude GoStrings.

Local Open Scope Z_scope.

(** The DAG and the encoder of CIDs. *)
Class RefsEnv := {
  Links : string -> list (string * string);   (** name and CID of each link *)
  Encode : string -> string;
}.

Record RefWriter := MkRefWriter { Unique : bool; MaxDepth : Z; PrintFmt : string }.

(** [RefWrapper] as it is emitted, with the edge it renders. *)
Record ref_out := MkRef_out { Ref : string; edge : string * string * string }.

(** [rw.seen], what was emitted and the outcomes to come. *)
Record rstate := MkRState { seen : gmap string Z; out : list ref_out; errs : list string; faults : list (option error) }.

Section Refs.
Context `{RefsEnv} (rw : RefWriter).

Definition next (s : rstate) : option error * rstate :=
  match faults s with
  | [] => (None, s)
  | f :: fs => (f, MkRState (seen s) (out s) (errs s) fs)
  end.

Definition see (c : string) (depth : Z) (s : rstate) : rstate :=
  MkRState (<[c := depth]> (seen s)) (out s) (errs s) (faults s).

(** [goDeeper], [shouldWrite]. *)
Definition visit (c : string) (depth : Z) (s : rstate) : bool * bool * rstate :=
  let atMaxDepth := (0 <=? MaxDepth rw) && (depth =? MaxDepth rw) in
  let overMaxDepth := (0 <=? MaxDepth rw) && (MaxDepth rw <? depth) in
  if overMaxDepth then (false, false, s)
  else if negb (Unique rw) then (negb atMaxDepth, true, s)
  else
    match seen s !! c with
    | Some oldDepth =>
        if (MaxDepth rw <? 0) || (oldDepth <=? depth) then (false, false, s)
        else (negb atMaxDepth, false, see c depth s)
    | None => (negb atMaxDepth, true, see c depth s)
    end.

Definition edge_text (from to linkname : string) : string :=
  if String.eqb (PrintFmt rw) "" then Encode to
  else ReplaceAll (ReplaceAll (ReplaceAll (PrintFmt rw) "<src>" (Encode from)) "<dst>" (Encode to)) "<linkname>" linkname.

(** The outcome stands for the check of the context and for [Emit]. *)
Definition WriteEdge (from to linkname : string) (s : rstate) : option error * rstate :=
  let '(err, s) := next s in
  match err with
  | Some e => (Some e, s)
  | None => (None, MkRState (seen s) (out s ++ [MkRef_out (edge_text from to linkname) (from, to, linkname)]) (errs s) (faults s))
  end.

(** [None]: out of fuel; otherwise the count and the error. *)
Definition walked : Type := option (Z * option error).

(** The loop over the links of [nc]; [deeper]: the recursive call on a child. *)
Fixpoint refs_loop (deeper : string -> rstate -> walked * rstate) (nc : string) (depth : Z) (links : list (string * string)) (count : Z)
    (s : rstate) : walked * rstate :=
  match links with
  | [] => (Some (count, None), s)
  | (name, lc) :: links =>
      let '(goDeeper, shouldWrite, s) := visit lc (depth + 1) s in
      if negb shouldWrite && negb goDeeper then refs_loop deeper nc depth links count s
      else
        let '(err, s) := next s in
        match err with
        | Some e => (Some (count, Some e), s)
        | None =>
            let '(err, count, s) :=
              if shouldWrite then
                let '(err, s) := WriteEdge nc lc name s in
                (err, match err with Some _ => count | None => count + 1 end, s)
              else (None, count, s) in
            match err with
            | Some e => (Some (count, Some e), s)
            | None =>
                if goDeeper then
                  let '(c, s) := deeper lc s in
                  match c with
                  | None => (None, s)
                  | Some (c, Some e) => (Some (count + c, Some e), s)
                  | Some (c, None) => refs_loop deeper nc depth links (count + c) s
                  end
                else refs_loop deeper nc depth links count s
            end
        end
  end.

Fixpoint writeRefsRecursive (fuel : nat) (n : string) (depth : Z) (s : rstate) : walked * rstate :=
  match fuel with
  | O => (None, s)
  | S fuel => refs_loop (fun c => writeRefsRecursive fuel c (depth + 1)) n depth (Links n) 0 s
  end.

Definition WriteRefs (fuel : nat) (c : string) (s : rstate) : walked * rstate :=
  let '(err, s) := next s in
  match err with
  | Some e => (Some (0, Some e), s)
  | None => writeRefsRecursive fuel c 0 s
  end.

(** The command's loop over the resolved arguments; [Some e]: the error it
    returns. *)
Fixpoint refs_run (fuel : nat) (objs : list string) (s : rstate) : option (option error) * rstate :=
  match objs with
  | [] => (Some None, s)
  | o :: objs =>
      let '(r, s) := WriteRefs fuel o s in
      match r with
      | None => (None, s)
      | Some (_, None) => refs_run fuel objs s
      | Some (_, Some e) =>
          let '(err, s) := next s in
          match err with
          | Some e' => (Some (Some e'), s)
          | None => refs_run fuel objs (MkRState (seen s) (out s) (errs s ++ [e]) (faults s))
          end
      end
  end.

(** The options of the command: a depth of one unless recursive; edges exclude
    another format. *)
Definition refs_options (unique recursive edges : bool) (maxDepth : Z) (format : string) : result RefWriter :=
  let maxDepth := if recursive then maxDepth else 1 in
  if edges then
    if negb (String.eqb format "<dst>") then Err "using format argument with edges is not allowed"
    else Ok (MkRefWriter unique maxDepth "<src> -> <dst>")
  else Ok (MkRefWriter unique maxDepth format).

End Refs.

(** ** What is listed *)

(** [c] is [d] links below [r]. *)
Inductive below `{RefsEnv} (r : string) : string -> Z -> Prop :=
| below_root : below r r 0
| below_link c d name ch : below r c d -> (name, ch) ∈ Links c -> below r ch (d + 1).

Definition dest (o : ref_out) : string := (edge o).1.2.

Section UniqueRefs.
Context `{RefsEnv} (rw : RefWriter) (Hunique : Unique rw = true).
(** Links go down: a CID is the hash of the links below it. *)
Context (rank : string -> nat) (rank_link : forall c name ch, (name, ch) ∈ Links c -> (rank ch < rank c)%nat).
Context (roots : string -> Prop).

Definition reach (c : string) (d : Z) : Prop := exists r, roots r /\ below r c d.

Definition lim (d : Z) : Prop := MaxDepth rw < 0 \/ d <= MaxDepth rw.

Definition covered (sn : gmap string Z) (c : string) (d : Z) : Prop := exists m, sn !! c = Some m /\ (MaxDepth rw < 0 \/ m <= d).

(** All that must be seen below a CID seen at depth [d] is seen. *)
Definition closed (sn : gmap string Z) (c : string) (d : Z) : Prop :=
  forall name ch, (name, ch) ∈ Links c -> lim (d + 1) -> covered sn ch (d + 1).

Record good (s : rstate) : Prop := {
  no_faults : faults s = [];
  no_errs : errs s = [];
  once : NoDup (dest <$> out s);
  listed c : c ∈ dest <$> out s <-> is_Some (seen s !! c);
  sound c d : seen s !! c = Some d -> reach c d /\ 1 <= d /\ lim d;
}.

(** Depths only decrease, and what is newly seen is closed. *)
Record grows (s s' : rstate) : Prop := {
  lower_seen c m : seen s !! c = Some m -> exists m', seen s' !! c = Some m' /\ m' <= m;
  settled c d : seen s' !! c = Some d -> seen s !! c = Some d \/ closed (seen s') c d;
}.

Lemma covered_mono s s' c d : grows s s' -> covered (seen s) c d -> covered (seen s') c d.
Proof. intros [L _] (m & E & Hm). destruct (L _ _ E) as (m' & E' & Hle). exists m'. split; [done|]. destruct Hm; [by left|right; lia]. Qed.

Lemma grows_refl s : grows s s.
Proof. split; [|auto]. intros c m E. exists m. split; [done|lia]. Qed.

Lemma grows_trans s1 s2 s3 : grows s1 s2 -> grows s2 s3 -> grows s1 s3.
Proof.
  intros G1 G2. split.
  - intros c m E. destruct (lower_seen _ _ G1 _ _ E) as (m1 & E1 & ?). destruct (lower_seen _ _ G2 _ _ E1) as (m2 & E2 & ?).
    exists m2. split; [done|lia].
  - intros c d E. destruct (settled _ _ G2 _ _ E) as [E2|]; [|by right]. destruct (settled _ _ G1 _ _ E2) as [|Hc]; [by left|right].
    intros name ch Hin Hl. eapply covered_mono; [exact G2|by eapply Hc].
Qed.

(** Entering a CID at a smaller depth, then closing it. *)
Lemma grows_enter s s2 s3 c d : seen s2 = <[c := d]> (seen s) -> (forall m, seen s !! c = Some m -> d <= m) ->
  grows s2 s3 -> closed (seen s3) c d -> grows s s3.
Proof.
  intros E2 Hd G Hc. split.
  - intros x m E. destruct (decide (x = c)) as [-> |Hx].
    + destruct (lower_seen _ _ G c d) as (m' & E' & ?); [by rewrite E2, lookup_insert_eq|]. exists m'. split; [done|]. specialize (Hd m E). lia.
    + apply (lower_seen _ _ G). by rewrite E2, lookup_insert_ne.
  - intros x e E. destruct (settled _ _ G _ _ E) as [E'|]; [|by right]. rewrite E2 in E'.
    destruct (decide (x = c)) as [-> |Hx]; [|left; by rewrite lookup_insert_ne in E'].
    rewrite lookup_insert_eq in E'. injection E' as <-. by right.
Qed.

Lemma good_see s c d : good s -> is_Some (seen s !! c) -> reach c d -> 1 <= d -> lim d -> good (see c d s).
Proof.
  intros [F E O L S] Hs Hr H1 Hl. split; cbn; [done|done|done| |].
  - intros x. rewrite L. destruct (decide (x = c)) as [-> |Hx]; [rewrite lookup_insert_eq|by rewrite lookup_insert_ne]. split; [by eexists|done].
  - intros x e. destruct (decide (x = c)) as [-> |Hx]; [rewrite lookup_insert_eq; by intros [= <-]|rewrite lookup_insert_ne by done; apply S].
Qed.

Lemma good_write s c d nc name t : good s -> seen s !! c = None -> reach c d -> 1 <= d -> lim d ->
  good (MkRState (<[c := d]> (seen s)) (out s ++ [MkRef_out t (nc, c, name)]) (errs s) (faults s)).
Proof.
  intros [F E O L S] Hs Hr H1 Hl. split; cbn; [done|done| | |].
  - rewrite fmap_app. apply NoDup_app. split_and!; [done| |apply NoDup_singleton].
    intros x Hx Hx'%list_elem_of_singleton. apply L in Hx. cbn in Hx'. subst x. rewrite Hs in Hx. by destruct Hx.
  - intros x. rewrite fmap_app. change (dest <$> [MkRef_out t (nc, c, name)]) with [c].
    rewrite elem_of_app, list_elem_of_singleton, L.
    destruct (decide (x = c)) as [-> |Hx]; [rewrite lookup_insert_eq|rewrite lookup_insert_ne by done]; naive_solver.
  - intros x e. destruct (decide (x = c)) as [-> |Hx]; [rewrite lookup_insert_eq; by intros [= <-]|rewrite lookup_insert_ne by done; apply S].
Qed.

(** A walk of the children of [n], itself at [depth]. *)
Definition walks (n : string) (depth : Z) (r : walked * rstate) (s : rstate) (links : list (string * string)) : Prop :=
  exists k, r.1 = Some (k, None) /\ good r.2 /\ grows s r.2 /\
    forall name ch, (name, ch) ∈ links -> lim (depth + 1) -> covered (seen r.2) ch (depth + 1).

Lemma refs_loop_walks deeper nc depth links count s :
  (forall ch s, (rank ch < rank nc)%nat -> good s -> reach ch (depth + 1) -> walks ch (depth + 1) (deeper ch s) s (Links ch)) ->
  (forall name ch, (name, ch) ∈ links -> (name, ch) ∈ Links nc) -> reach nc depth -> 0 <= depth ->
  good s -> walks nc depth (refs_loop rw deeper nc depth links count s) s links.
Proof.
  intros Hdeep Hsub Hr H0. revert count s. induction links as [|[name c] links IH]; intros count s Hg.
  { exists count. split_and!; [done|done|apply grows_refl|set_solver]. }
  assert (Hin : (name, c) ∈ Links nc) by (apply Hsub; set_solver).
  assert (Hrc : reach c (depth + 1)) by (destruct Hr as (r & Hroot & Hb); exists r; split; [done|by eapply below_link]).
  assert (IH' : forall count s, good s -> walks nc depth (refs_loop rw deeper nc depth links count s) s links) by (apply IH; set_solver). clear IH.
  (* the rest of the loop from a state where this child is done *)
  assert (Hrest : forall count s3, good s3 -> grows s s3 -> (lim (depth + 1) -> covered (seen s3) c (depth + 1)) ->
            walks nc depth (refs_loop rw deeper nc depth links count s3) s ((name, c) :: links)).
  { intros cnt s3 G3 Gr Hc. destruct (IH' cnt s3 G3) as (k & E & G4 & Gr4 & Hcov). exists k. split_and!; [done|done|by eapply grows_trans|].
    intros name' ch [[= -> ->]|Hch]%elem_of_cons Hl; [by eapply covered_mono; [exact Gr4|apply Hc]|by eapply Hcov]. }
  pose proof (no_faults _ Hg) as Hf. cbn [refs_loop]. unfold visit. rewrite Hunique. cbn [negb].
  destruct ((0 <=? MaxDepth rw) && (MaxDepth rw <? depth + 1)) eqn:Eover.
  { cbn. apply Hrest; [done|apply grows_refl|]. intros [Hl|Hl]; lia. }
  assert (Hl : lim (depth + 1)) by (unfold lim; lia).
  set (at_max := (0 <=? MaxDepth rw) && (depth + 1 =? MaxDepth rw)).
  (* one child entered at this depth, in the state [s2] *)
  assert (Henter : forall count s2, good s2 -> seen s2 = <[c := depth + 1]> (seen s) -> (forall m, seen s !! c = Some m -> depth + 1 <= m) ->
     walks nc depth (if negb at_max then
        let '(c0, s) := deeper c s2 in
        match c0 with
        | None => (None, s)
        | Some (c0, Some e) => (Some (count + c0, Some e), s)
        | Some (c0, None) => refs_loop rw deeper nc depth links (count + c0) s
        end else refs_loop rw deeper nc depth links count s2) s ((name, c) :: links)).
  { intros cnt s2 G2 E2 Hle. destruct at_max eqn:Emax; cbn [negb].
    - apply Hrest; [done| |].
      + eapply grows_enter; [exact E2|done|apply grows_refl|]. intros name' ch _ [Hm|Hm]; unfold at_max in Emax; lia.
      + intros _. exists (depth + 1). split; [by rewrite E2, lookup_insert_eq|right; lia].
    - destruct (Hdeep c s2) as (k & Ek & G3 & Gr3 & Hcov); [by eapply rank_link|done|done|].
      destruct (deeper c s2) as [res s3]. cbn in *. subst res. apply Hrest; [done| |].
      + eapply grows_enter; [exact E2|done|done|]. intros name' ch Hch Hl'. by eapply Hcov.
      + intros _. destruct (lower_seen _ _ Gr3 c (depth + 1)) as (m & Em & Hm); [by rewrite E2, lookup_insert_eq|]. exists m. split; [done|right; lia]. }
  destruct (seen s !! c) as [old|] eqn:Es.
  - destruct ((MaxDepth rw <? 0) || (old <=? depth + 1)) eqn:Ep.
    + cbn [negb andb]. apply Hrest; [done|apply grows_refl|]. intros _. exists old. split; [done|]. lia.
    + cbn [negb andb]. destruct at_max eqn:Emax; cbn [negb andb].
      * specialize (Henter count (see c (depth + 1) s)). cbn [negb] in Henter. apply Henter; [apply good_see; (done || lia || by rewrite Es)|done|]. intros m [= <-]. lia.
      * unfold next. cbn [see faults]. rewrite Hf. apply Henter; [apply good_see; (done || lia || by rewrite Es)|done|]. intros m [= <-]. lia.
  - pose proof (good_write s c (depth + 1) nc name (edge_text rw nc c name) Hg Es Hrc ltac:(lia) Hl) as Hw.
    cbn [negb andb]. unfold WriteEdge, next at 1. cbn [see faults]. rewrite Hf. cbv beta iota. unfold next. cbn [see faults]. rewrite Hf.
    cbv beta iota. cbn [seen out errs faults see]. apply Henter; [exact Hw|done|done].
Qed.

Lemma writeRefs_walks fuel n depth s : (rank n < fuel)%nat -> good s -> reach n depth -> 0 <= depth ->
  walks n depth (writeRefsRecursive rw fuel n depth s) s (Links n).
Proof.
  revert n depth s. induction fuel as [|fuel IH]; intros n depth s Hk Hg Hr H0; [lia|]. cbn [writeRefsRecursive].
  apply refs_loop_walks; try done. intros ch s' Hlt Hg' Hr'. apply IH; [lia|done|done|lia].
Qed.

(** What is seen from closed roots includes everything within the limit. *)
Lemma covers_all sn r : (forall c d, sn !! c = Some d -> closed sn c d) ->
  (forall name ch, (name, ch) ∈ Links r -> lim 1 -> covered sn ch 1) ->
  forall c d, below r c d -> 1 <= d -> lim d -> covered sn c d.
Proof.
  intros Hc Hr c d Hb. induction Hb as [|c d name ch Hb IH Hin]; [lia|]. intros H1 Hl.
  assert (Hd : 0 <= d) by (clear -Hb; induction Hb; lia).
  destruct (decide (d = 0)) as [-> |Hd0].
  - assert (c = r) as -> by (inversion Hb as [|? d' ? ? Hb' ? E]; subst; [done|]; exfalso; assert (0 <= d') by (clear -Hb'; induction Hb'; lia); lia).
    by eapply Hr.
  - destruct IH as (m & E & Hm); [lia|unfold lim in *; lia|].
    destruct (Hc c m E name ch Hin) as (m' & E' & Hm'); [unfold lim in *; destruct Hm; lia|]. exists m'. split; [done|lia].
Qed.

(** All roots. *)
Lemma refs_run_walks fuel objs s : Forall (fun o => roots o /\ (rank o < fuel)%nat) objs -> good s ->
  exists s', refs_run rw fuel objs s = (Some None, s') /\ good s' /\ grows s s' /\
    Forall (fun o => forall name ch, (name, ch) ∈ Links o -> lim 1 -> covered (seen s') ch 1) objs.
Proof.
  revert s. induction objs as [|o objs IH]; intros s Hall Hg; [exists s; split_and!; [done|done|apply grows_refl|constructor]|].
  apply Forall_cons in Hall as [[Ho Hk] Hall]. cbn [refs_run]. unfold WriteRefs, next. rewrite (no_faults _ Hg).
  destruct (writeRefs_walks fuel o 0 s Hk Hg) as (k & Ek & G1 & Gr1 & Hc1); [exists o; split; [done|constructor]|lia|].
  destruct (writeRefsRecursive rw fuel o 0 s) as [res s1]. cbn in *. subst res.
  destruct (IH s1 Hall G1) as (s' & E & G2 & Gr2 & Hc2). exists s'. split_and!; [done|done|by eapply grows_trans|].
  constructor; [|done]. intros name ch Hin Hl. eapply covered_mono; [exact Gr2|by eapply Hc1].
Qed.

End UniqueRefs.

(** ** Theorems *)

(** C31: with [--unique], and when nothing fails, the listing of several objects is
    exact: it ends without error, every CID that some chain of links within the
    depth limit leads to from one of the objects is listed, nothing else is, and
    none twice.  Pruning by the depth at which a CID was seen loses nothing. *)
Theorem refs_unique_exact `{RefsEnv} (rw : RefWriter) (rank : string -> nat) (objs : list string) (fuel : nat) :
  Unique rw = true -> (forall c name ch, (name, ch) ∈ Links c -> (rank ch < rank c)%nat) ->
  Forall (fun o => (rank o < fuel)%nat) objs ->
  exists s, refs_run rw fuel objs (MkRState ∅ [] [] []) = (Some None, s) /\ errs s = [] /\ NoDup (dest <$> out s) /\
    forall c, c ∈ dest <$> out s <->
      exists o d, o ∈ objs /\ below o c d /\ 1 <= d /\ (MaxDepth rw < 0 \/ d <= MaxDepth rw).
Proof.
  intros Hu Hrank Hk. set (roots := fun o => o ∈ objs).
  assert (Hg0 : good rw roots (MkRState ∅ [] [] [])).
  { split; cbn; [done|done|constructor| |done]. intros c. rewrite lookup_empty. split; [set_solver|by intros []]. }
  destruct (refs_run_walks rw Hu rank Hrank roots fuel objs (MkRState ∅ [] [] [])) as (s & E & Hg & Hgr & Hcov); [|done|].
  { rewrite Forall_forall in Hk. apply Forall_forall. intros o Ho. split; [done|by apply Hk]. }
  exists s. split_and!; [done|by apply Hg|by apply Hg|].
  rewrite Forall_forall in Hcov. intros c. rewrite (listed _ _ _ Hg). split.
  - intros [d Hd]. destruct (sound _ _ _ Hg _ _ Hd) as ((r & Hr & Hb) & H1 & Hl). by exists r, d.
  - intros (o & d & Ho & Hb & H1 & Hl). destruct (covers_all rw (seen s) o) with (c := c) (d := d) as (m & Em & _); try done.
    + intros x e Ex. destruct (settled _ _ _ Hgr _ _ Ex) as [Hx|]; [cbn [seen] in Hx; by rewrite lookup_empty in Hx|done].
    + intros name ch Hin. exact (Hcov o Ho name ch Hin).
Qed.

(** the walk ends for every mode and whatever fails: fuel above the height of
    every object is enough. *)
Theorem refs_terminates `{RefsEnv} (rw : RefWriter) (rank : string -> nat) (objs : list string) (fuel : nat) (s : rstate) :
  (forall c name ch, (name, ch) ∈ Links c -> (rank ch < rank c)%nat) ->
  Forall (fun o => (rank o < fuel)%nat) objs -> (refs_run rw fuel objs s).1 <> None.
Proof.
  intros Hrank.
  assert (Hloop : forall deeper nc depth links count s, (forall ch s, (exists name, (name, ch) ∈ links) -> (deeper ch s).1 <> None) ->
            (refs_loop rw deeper nc depth links count s).1 <> None).
  { intros deeper nc depth links. induction links as [|[name c] links IH]; intros count s0 Hd; [done|].
    assert (Hd' : forall ch s, (exists name, (name, ch) ∈ links) -> (deeper ch s).1 <> None)
      by (intros ch s1 [nm Hin]; apply Hd; exists nm; set_solver).
    assert (Hc : forall s, (deeper c s).1 <> None) by (intros s1; apply Hd; exists name; set_solver).
    cbn [refs_loop]. destruct (visit rw c (depth + 1) s0) as [[goDeeper shouldWrite] s1].
    destruct (negb shouldWrite && negb goDeeper); [by apply IH|]. destruct (next s1) as [[e|] s2]; [done|].
    assert (Hw : forall k s, (if goDeeper then let '(c0, s) := deeper c s in
        match c0 with None => (None, s) | Some (c0, Some e) => (Some (k + c0, Some e), s) | Some (c0, None) => refs_loop rw deeper nc depth links (k + c0) s end
        else refs_loop rw deeper nc depth links k s).1 <> None).
    { intros k s3. destruct goDeeper; [|by apply IH]. specialize (Hc s3). destruct (deeper c s3) as [[[k' [e|]]|] s4]; [done|by apply IH|done]. }
    destruct shouldWrite; [|apply Hw]. destruct (WriteEdge rw nc c name s2) as [[e|] s3]; [done|apply Hw]. }
  assert (Hrec : forall fuel n depth s, (rank n < fuel)%nat -> (writeRefsRecursive rw fuel n depth s).1 <> None).
  { intros f. induction f as [|f IH]; intros n depth s0 Hk; [lia|]. cbn [writeRefsRecursive]. apply Hloop. intros ch s1 [name Hin].
    apply IH. apply Hrank in Hin. lia. }
  revert s. induction objs as [|o objs IH]; intros s Hall; [done|]. apply Forall_cons in Hall as [Hk Hall]. cbn [refs_run]. unfold WriteRefs.
  destruct (next s) as [[e|] s1]; cbn.
  - destruct (next s1) as [[e'|] s2]; [done|by apply IH].
  - specialize (Hrec fuel o 0 s1 Hk). destruct (writeRefsRecursive rw fuel o 0 s1) as [[[k [e|]]|] s2]; [|by apply IH|done].
    destruct (next s2) as [[e'|] s3]; [done|by apply IH].
Qed.

(** ** Witnesses *)

(** [a -> p, b -> p, p -> x, p -> y, a -> y]. *)
Definition demo_links (c : string) : list (string * string) :=
  if String.eqb c "a" then [("1", "p"); ("2", "y")]
  else if String.eqb c "b" then [("1", "p")]
  else if String.eqb c "p" then [("1", "x"); ("2", "y")] else [].
Definition demo_dag : RefsEnv := {| Links := demo_links; Encode := fun c => c |}.
Definition demo_rank (c : string) : nat := if String.eqb c "a" || String.eqb c "b" then 2 else if String.eqb c "p" then 1 else 0.

Lemma demo_rank_link c name ch : (name, ch) ∈ @Links demo_dag c -> (demo_rank ch < demo_rank c)%nat.
Proof.
  cbn. unfold demo_links, demo_rank. repeat case_match; intros Hin; cbn;
    repeat (apply elem_of_cons in Hin as [[= -> ->]|Hin]; [cbn in *; try done; lia|]); by apply elem_of_nil in Hin.
Qed.

Definition demo_writer : RefWriter := MkRefWriter true 2 "<src> -> <dst>".

Lemma refs_unique_exact_witness :
  exists s, @refs_run demo_dag demo_writer 3 ["a"; "b"] (MkRState ∅ [] [] []) = (Some None, s) /\ NoDup (dest <$> out s) /\
    Ref <$> out s = ["a -> p"; "p -> x"; "p -> y"].
Proof.
  destruct (@refs_unique_exact demo_dag demo_writer demo_rank ["a"; "b"] 3 eq_refl demo_rank_link) as (s & E & _ & Hn & _).
  { repeat constructor; cbn; lia. }
  exists s. split; [exact E|]. split; [exact Hn|]. apply (f_equal snd) in E. cbn [snd] in E. rewrite <- E. vm_compute. reflexivity.
Defined.

Lemma refs_terminates_witness : (@refs_run demo_dag (MkRefWriter false (-1) "") 3 ["a"; "b"] (MkRState ∅ [] [] [None; None; Some "gone"])).1 <> None.
Proof.
  apply (@refs_terminates demo_dag (MkRefWriter false (-1) "") demo_rank ["a"; "b"] 3 _ demo_rank_link).
  repeat constructor; cbn; lia.
Defined.

(** after a failure the rest of a listing is incomplete without a word: here
    [x] cannot be fetched once, below [a]; the error is reported for [a], and the
    listing of [b], the same subtree, is then empty and without error. *)
Theorem refs_error_hides_refs :
  exists s, @refs_run demo_dag (MkRefWriter true (-1) "<dst>") 3 ["a"; "b"] (MkRState ∅ [] [] [None; None; None; Some "not found"]) = (Some None, s) /\
    Ref <$> out s = ["p"] /\ errs s = ["not found"] /\
    @below demo_dag "b" "x" 2 /\ @below demo_dag "b" "y" 2.
Proof.
  eexists. split; [vm_compute; reflexivity|]. split_and!; try reflexivity.
  - apply (@below_link demo_dag "b" "p" 1 "1" "x"); [apply (@below_link demo_dag "b" "b" 0 "1" "p"); [apply below_root|]|]; cbn; set_solver.
  - apply (@below_link demo_dag "b" "p" 1 "2" "y"); [apply (@below_link demo_dag "b" "b" 0 "1" "p"); [apply below_root|]|]; cbn; set_solver.
Qed.
