(* ===== verification/BootstrapCmd.v ===== *)
(** Editing the bootstrap list: [core/commands/bootstrap.go] and
    [config/bootstrap_peers.go].

    Multiaddresses and their grouping by peer belong to other packages;
    [P2pAddrs] states what is used of them.  The configuration is edited in place:
    the repository's own copy has the new list even when saving it fails. *)
From Stdlib Require Import ZArith Lia Ascii String.
From stdpp Require Import base list strings gmap sorting.
From S2P Require Import Prelude GoStrings ConfigMap Datastores FsRepo Gateway.

Local Open Scope Z_scope.
Local Open Scope io_scope.

(** ** Addresses of peers *)

(** A multiaddress is a transport, if any, and the peer, if any ([SplitAddr]). *)
Class P2pAddrs := {
  Maddr : Type;
  Maddr_eq_dec :: EqDecision Maddr;
  Parse : string -> result Maddr;                    (** [ma.NewMultiaddr] *)
  Text : Maddr -> string;
  SplitAddr : Maddr -> option Maddr * option string;
  Infos : list Maddr -> result (list (string * list Maddr));   (** [peer.AddrInfosFromP2pAddrs] *)
  P2pAddr : option Maddr -> string -> Maddr;          (** the address of a peer, with its transport *)
  Parse_Text a : Parse (Text a) = Ok a;
  Split_P2p t id : SplitAddr (P2pAddr t id) = (t, Some id);
  (** one entry for each peer, with the transports given for it; it fails only for
      an address that names no peer *)
  Infos_ok l : Forall (fun a => is_Some (SplitAddr a).2) l -> exists r, Infos l = Ok r;
  Infos_NoDup l r : Infos l = Ok r -> NoDup r.*1;
  Infos_peer l r id : Infos l = Ok r -> id ∈ r.*1 <-> exists a, a ∈ l /\ (SplitAddr a).2 = Some id;
  Infos_addr l r id t : Infos l = Ok r ->
    (exists ts, (id, ts) ∈ r /\ t ∈ ts) <-> exists a, a ∈ l /\ SplitAddr a = (Some t, Some id);
}.

Section Bootstrap.
Context `{P2pAddrs}.

Abbreviation AddrInfo := (string * list Maddr)%type.

Definition DefaultBootstrapAddresses : list string :=
  ["/ip4/103.39.231.191/tcp/4031/p2p/12D3KooWH8bQr5iQQH5Dcd9odvZCFTV1ktPbC4Jh5Wvf7TMKJh1N"].

Fixpoint parse_all (addrs : list string) : result (list Maddr) :=
  match addrs with
  | [] => Ok []
  | a :: addrs =>
      match Parse a with
      | Err e => Err e
      | Ok m => match parse_all addrs with Err e => Err e | Ok ms => Ok (m :: ms) end
      end
  end.

Definition ParseBootstrapPeers (addrs : list string) : result (list AddrInfo) :=
  match parse_all addrs with Err e => Err e | Ok maddrs => Infos maddrs end.

Definition DefaultBootstrapPeers : result (list AddrInfo) :=
  match ParseBootstrapPeers DefaultBootstrapAddresses with
  | Err e => Err ("failed to parse hardcoded bootstrap peers: " +:+ e)
  | Ok ps => Ok ps
  end.

(** [peer.AddrInfoToP2pAddrs]: the bare address of a peer without transports. *)
Definition AddrInfoToP2pAddrs (pi : AddrInfo) : list Maddr :=
  match pi.2 with [] => [P2pAddr None pi.1] | ts => (fun t => P2pAddr (Some t) pi.1) <$> ts end.

Definition BootstrapPeerStrings (bps : list AddrInfo) : list string :=
  bps ≫= fun pi => Text <$> AddrInfoToP2pAddrs pi.

(** ** Lists *)

(** Validation of the arguments of [bootstrap add]; the last component of an
    address must name a peer. *)
Fixpoint check_peers (peers : list string) : option error :=
  match peers with
  | [] => None
  | p :: peers =>
      match Parse p with
      | Err e => Some e
      | Ok m =>
          match SplitAddr m with
          | (_, None) => Some ("invalid bootstrap address: " +:+ p)
          | (None, Some _) => Some ("bootstrap address without a transport: " +:+ p)
          | (Some _, Some _) => check_peers peers
          end
      end
  end.

(** One of the loops that add peers: [addedMap] and the list appended to. *)
Fixpoint add_new (peers : list string) (added : gset string) (acc : list string) : gset string * list string :=
  match peers with
  | [] => (added, acc)
  | s :: peers => if decide (s ∈ added) then add_new peers added acc else add_new peers ({[s]} ∪ added) (acc ++ [s])
  end.

(** The new list and the peers reported as added. *)
Definition added_lists (bpeers peers : list string) : list string * list string :=
  let '(addedMap, addedList) := add_new peers ∅ [] in
  ((add_new bpeers addedMap addedList).2, addedList).

(** [bootstrap rm]: one peer of the list; [toRemove]: the map of the arguments. *)
Definition remove_addrs (toRemove : list AddrInfo) (p : AddrInfo) : option AddrInfo * option AddrInfo :=
  match list_find (fun q => q.1 = p.1) toRemove with
  | None => (Some p, None)
  | Some (_, (_, [])) => (None, Some p)
  | Some (_, (_, addrs)) =>
      let keptAddrs := filter (fun a => a ∉ addrs) p.2 in
      let removedAddrs := filter (fun a => a ∈ addrs) p.2 in
      (if decide (keptAddrs = []) then None else Some (p.1, keptAddrs),
       if decide (removedAddrs = []) then None else Some (p.1, removedAddrs))
  end.

Definition remove_peers (toRemove peers : list AddrInfo) : list AddrInfo * list AddrInfo :=
  (omap (fun p => (remove_addrs toRemove p).1) peers, omap (fun p => (remove_addrs toRemove p).2) peers).

(** [bootstrapWritePeers]: the lines written. *)
Definition bootstrapWritePeers (prefix : string) (peers : list string) : list string :=
  (fun p => prefix +:+ p +:+ newline) <$> merge_sort string_le peers.

End Bootstrap.

(** ** Commands *)

Class BootstrapField `{RepoEnv'} := {
  Bootstrap : Config -> list string;
  set_Bootstrap : list string -> Config -> Config;
  Bootstrap_set l c : Bootstrap (set_Bootstrap l c) = l;
}.

Section Commands.
Context `{RepoEnv', DatastoreEnv, P2pAddrs, !BootstrapField}.

Abbreviation rio A := (FSRepo -> disk -> result A * FSRepo * disk).

(** The list is stored in the repository's configuration before it is saved. *)
Definition save (cfg : Config) (out : list string) : rio (list string) := fun r s =>
  match SetConfig cfg (with_config cfg r) s with
  | (Err e, r, s) => (Err e, r, s)
  | (Ok _, r, s) => (Ok out, r, s)
  end.

Definition bootstrapAdd (cfg : Config) (peers : list string) : rio (list string) := fun r s =>
  match check_peers peers with
  | Some e => (Err e, r, s)
  | None =>
      let '(list, addedList) := added_lists (Bootstrap cfg) peers in
      save (set_Bootstrap list cfg) addedList r s
  end.

Definition bootstrapRemove (cfg : Config) (toRemove : list string) : rio (list string) := fun r s =>
  match ParseBootstrapPeers toRemove with
  | Err e => (Err e, r, s)
  | Ok toRemoveAddr =>
      match ParseBootstrapPeers (Bootstrap cfg) with
      | Err e => (Err e, r, s)
      | Ok peers =>
          let '(keep, removed) := remove_peers toRemoveAddr peers in
          save (set_Bootstrap (BootstrapPeerStrings keep) cfg) (BootstrapPeerStrings removed) r s
      end
  end.

Definition bootstrapRemoveAll (cfg : Config) : rio (list string) := fun r s =>
  match ParseBootstrapPeers (Bootstrap cfg) with
  | Err e => (Err e, r, s)
  | Ok removed => save (set_Bootstrap [] cfg) (BootstrapPeerStrings removed) r s
  end.

(** The commands: the repository is opened, its configuration edited, and the
    repository closed. *)
Definition with_config_of {A} (cfgRoot : string) (body : Config -> rio A) : io A := fun s =>
  match open cfgRoot "" s with
  | (Err e, s) => (Err e, s)
  | (Ok r, s) =>
      let '(res, r, s) :=
        match Config_ r with
        | Err e => (Err e, r, s)
        | Ok None => (Err "no config", r, s)
        | Ok (Some cfg) => body cfg r s
        end in
      let '(_, _, s) := Close r s in (res, s)
  end.

Definition bootstrapAdd_Run (cfgRoot : string) (deflt : bool) (args : result (list string)) : io (list string) :=
  match (if deflt then Ok DefaultBootstrapAddresses else args) with
  | Err e => throw e
  | Ok [] => throw "no bootstrap peers to add"
  | Ok inputPeers => with_config_of cfgRoot (fun cfg => bootstrapAdd cfg inputPeers)
  end.

Definition bootstrapRemove_Run (cfgRoot : string) (all : bool) (args : result (list string)) : io (list string) :=
  with_config_of cfgRoot (fun cfg r s =>
    if all then bootstrapRemoveAll cfg r s
    else match args with Err e => (Err e, r, s) | Ok args => bootstrapRemove cfg args r s end).

Definition bootstrapList_Run (cfgRoot : string) : io (list string) :=
  with_config_of cfgRoot (fun cfg r s =>
    match ParseBootstrapPeers (Bootstrap cfg) with
    | Err e => (Err e, r, s)
    | Ok peers => (Ok (BootstrapPeerStrings peers), r, s)
    end).

End Commands.

(** ** Lemmas *)

Lemma add_new_spec peers added acc : NoDup acc -> (forall x, x ∈ acc -> x ∈ added) ->
  let '(added', acc') := add_new peers added acc in
  NoDup acc' /\ (forall x, x ∈ acc' <-> x ∈ acc \/ (x ∈ peers /\ x ∉ added)) /\
  (forall x, x ∈ added' <-> x ∈ added \/ x ∈ peers) /\ exists tl, acc' = acc ++ tl.
Proof.
  revert added acc. induction peers as [|s peers IH]; intros added acc Hn Ha; cbn.
  { split_and!; [done|set_solver|set_solver|exists []; by rewrite app_nil_r]. }
  case_decide as Hs.
  - specialize (IH added acc Hn Ha). destruct (add_new peers added acc) as [added' acc']. destruct IH as (H1 & H2 & H3 & H4).
    split_and!; [done| |set_solver|done]. intros x. rewrite H2. set_solver.
  - assert (Hn' : NoDup (acc ++ [s])) by (apply NoDup_app; split_and!; [done|set_solver|apply NoDup_singleton]).
    specialize (IH ({[s]} ∪ added) (acc ++ [s]) Hn' ltac:(set_solver)). destruct (add_new peers ({[s]} ∪ added) (acc ++ [s])) as [added' acc'].
    destruct IH as (H1 & H2 & H3 & tl & H4). split_and!; [done| |set_solver|exists (s :: tl); by rewrite H4, <- (assoc (++))].
    intros x. rewrite H2, elem_of_app, list_elem_of_singleton, elem_of_cons. destruct (decide (x = s)) as [-> |]; set_solver.
Qed.

Section RemoveLemmas.
Context `{P2pAddrs}.

(** The peer [id] is listed with the transport [t]. *)
Definition addr_in (r : list (string * list Maddr)) (id : string) (t : Maddr) : Prop := exists ts, (id, ts) ∈ r /\ t ∈ ts.

(** The arguments ask for the removal of the whole peer, or of this address. *)
Definition asked (toRemove : list (string * list Maddr)) (id : string) (t : Maddr) : Prop :=
  (id, []) ∈ toRemove \/ addr_in toRemove id t.

Lemma parse_all_texts l : parse_all (Text <$> l) = Ok l.
Proof. induction l as [|a l IH]; [done|]. cbn. by rewrite Parse_Text, IH. Qed.

Lemma strings_texts bps : BootstrapPeerStrings bps = Text <$> (bps ≫= AddrInfoToP2pAddrs).
Proof. unfold BootstrapPeerStrings. induction bps as [|p bps IH]; [done|]. cbn. by rewrite IH, fmap_app. Qed.

Lemma infos_p2p p a : a ∈ AddrInfoToP2pAddrs p -> (SplitAddr a).2 = Some p.1.
Proof.
  unfold AddrInfoToP2pAddrs. destruct (p.2) as [|t ts].
  - intros ->%list_elem_of_singleton. by rewrite Split_P2p.
  - intros (t' & -> & _)%list_elem_of_fmap. by rewrite Split_P2p.
Qed.

Lemma p2p_transport p a t : a ∈ AddrInfoToP2pAddrs p -> (SplitAddr a).1 = Some t <-> t ∈ p.2 /\ a = P2pAddr (Some t) p.1.
Proof.
  unfold AddrInfoToP2pAddrs. destruct (p.2) as [|t0 ts] eqn:E.
  - intros ->%list_elem_of_singleton. rewrite Split_P2p. cbn. split; [done|]. by intros [?%elem_of_nil _].
  - intros (t' & -> & Hin)%list_elem_of_fmap. rewrite Split_P2p. cbn. split; [by intros [= <-]|].
    intros [Hin' E']. apply (f_equal SplitAddr) in E'. rewrite !Split_P2p in E'. by simplify_eq.
Qed.

(** A list of peers written and read back has the same addresses. *)
Lemma strings_roundtrip bps : exists r, ParseBootstrapPeers (BootstrapPeerStrings bps) = Ok r /\
  (forall id t, addr_in r id t <-> addr_in bps id t) /\ (forall id, id ∈ r.*1 <-> id ∈ bps.*1).
Proof.
  rewrite strings_texts. unfold ParseBootstrapPeers. rewrite parse_all_texts.
  destruct (Infos_ok (bps ≫= AddrInfoToP2pAddrs)) as [r Er].
  { apply Forall_forall. intros a (p & Ha & _)%list_elem_of_bind. apply infos_p2p in Ha. by eexists. }
  exists r. split_and!; [done| |].
  - intros id t. unfold addr_in at 1. rewrite (Infos_addr _ _ id t Er). split.
    + intros (a & (p & Ha & Hp)%list_elem_of_bind & Es). pose proof (infos_p2p p a Ha) as E2. rewrite Es in E2. cbn in E2. simplify_eq.
      exists p.2. split; [by destruct p|]. apply (p2p_transport p a t Ha). by rewrite Es.
    + intros (ts & Hin & Ht). exists (P2pAddr (Some t) id). split; [|apply Split_P2p]. apply list_elem_of_bind. exists (id, ts). split; [|done].
      unfold AddrInfoToP2pAddrs. cbn. destruct ts as [|t0 ts]; [by apply elem_of_nil in Ht|]. change (P2pAddr (Some t) id ∈ (fun t => P2pAddr (Some t) id) <$> t0 :: ts). by apply (list_elem_of_fmap_2 (fun t => P2pAddr (Some t) id)).
  - intros id. rewrite (Infos_peer _ _ id Er). split.
    + intros (a & (p & Ha & Hp)%list_elem_of_bind & Es). pose proof (infos_p2p p a Ha) as E2. rewrite Es in E2. simplify_eq. by apply list_elem_of_fmap_2.
    + intros (p & -> & Hp)%list_elem_of_fmap. destruct (AddrInfoToP2pAddrs p) as [|a l] eqn:E; [unfold AddrInfoToP2pAddrs in E; by destruct p.2|].
      exists a. assert (Ha : a ∈ AddrInfoToP2pAddrs p) by (rewrite E; set_solver). split; [apply list_elem_of_bind; by exists p|by apply infos_p2p].
Qed.

Lemma some_filter (P : Maddr -> Prop) `{forall a, Decision (P a)} (l : list Maddr) (id : string) t :
  (exists q, (if decide (filter P l = []) then None else Some (id, filter P l)) = Some q /\ q.1 = id /\ t ∈ q.2) <-> t ∈ l /\ P t.
Proof.
  rewrite (comm and), <- list_elem_of_filter. case_decide as Hd; [rewrite Hd; split; [naive_solver|by intros ?%elem_of_nil]|].
  split; [intros (q & [= <-] & _ & Ht); exact Ht|]. intros Ht. by eexists.
Qed.

Lemma asked_unique toRemove id addrs t : NoDup toRemove.*1 -> (id, addrs) ∈ toRemove -> asked toRemove id t <-> addrs = [] \/ t ∈ addrs.
Proof.
  intros Hnd Hin. assert (Huniq : forall ts, (id, ts) ∈ toRemove -> ts = addrs).
  { intros ts Hts. apply list_elem_of_lookup in Hts as [j Hj]. apply list_elem_of_lookup in Hin as [i Hi].
    pose proof (NoDup_lookup _ i j id Hnd) as Hu. rewrite !list_lookup_fmap, Hi, Hj in Hu. specialize (Hu eq_refl eq_refl). subst j. congruence. }
  split; [intros [Hp|(ts & Hts & Ht)]; [left; symmetry; by apply Huniq|right; by rewrite <- (Huniq _ Hts)]|].
  intros [-> |Ht]; [by left|right; by exists addrs].
Qed.

(** One peer: its addresses are split by what was asked. *)
Lemma remove_addrs_spec toRemove p t : NoDup toRemove.*1 ->
  ((exists q, (remove_addrs toRemove p).1 = Some q /\ q.1 = p.1 /\ t ∈ q.2) <-> t ∈ p.2 /\ ~ asked toRemove p.1 t) /\
  ((exists q, (remove_addrs toRemove p).2 = Some q /\ q.1 = p.1 /\ t ∈ q.2) <-> t ∈ p.2 /\ asked toRemove p.1 t).
Proof.
  intros Hnd. unfold remove_addrs. destruct (list_find (fun q => q.1 = p.1) toRemove) as [[i [id addrs]]|] eqn:E.
  - apply list_find_Some in E as (Hi & E & _). cbn in E. subst id. apply list_elem_of_lookup_2 in Hi.
    rewrite (asked_unique _ _ _ t Hnd Hi). destruct addrs as [|a0 addrs]; [cbn; naive_solver|].
    cbn [fst snd]. rewrite !some_filter. naive_solver.
  - apply list_find_None in E. rewrite Forall_forall in E. assert (Hn : ~ asked toRemove p.1 t).
    { intros [Hin|(ts & Hin & _)]; exact (E _ Hin eq_refl). }
    cbn. naive_solver.
Qed.

Lemma remove_one_id toRemove p q : (remove_addrs toRemove p).1 = Some q \/ (remove_addrs toRemove p).2 = Some q -> q.1 = p.1.
Proof. unfold remove_addrs. repeat case_match; cbn; intros [?|?]; simplify_eq; done. Qed.

Lemma remove_peers_spec toRemove peers id t : NoDup toRemove.*1 ->
  (addr_in (remove_peers toRemove peers).1 id t <-> addr_in peers id t /\ ~ asked toRemove id t) /\
  (addr_in (remove_peers toRemove peers).2 id t <-> addr_in peers id t /\ asked toRemove id t).
Proof.
  intros Hnd. unfold remove_peers, addr_in. cbn [fst snd]. split; split.
  - intros (ts & (p & Hp & Er)%list_elem_of_omap & Ht). pose proof (remove_one_id toRemove p (id, ts) (or_introl Er)) as E. cbn in E. subst id.
    destruct (proj1 (proj1 (remove_addrs_spec toRemove p t Hnd))) as [H1 H2]; [by exists (p.1, ts)|]. split; [|done]. exists p.2. by destruct p.
  - intros [(ts & Hin & Ht) Hn]. destruct (proj2 (proj1 (remove_addrs_spec toRemove (id, ts) t Hnd))) as (q & E & Eq & Htq); [done|].
    exists q.2. split; [|done]. apply list_elem_of_omap. exists (id, ts). split; [done|]. cbn in Eq. subst id. by destruct q.
  - intros (ts & (p & Hp & Er)%list_elem_of_omap & Ht). pose proof (remove_one_id toRemove p (id, ts) (or_intror Er)) as E. cbn in E. subst id.
    destruct (proj1 (proj2 (remove_addrs_spec toRemove p t Hnd))) as [H1 H2]; [by exists (p.1, ts)|]. split; [|done]. exists p.2. by destruct p.
  - intros [(ts & Hin & Ht) Hn]. destruct (proj2 (proj2 (remove_addrs_spec toRemove (id, ts) t Hnd))) as (q & E & Eq & Htq); [done|].
    exists q.2. split; [|done]. apply list_elem_of_omap. exists (id, ts). split; [done|]. cbn in Eq. subst id. by destruct q.
Qed.

End RemoveLemmas.

(** ** Theorems *)

Lemma save_ok `{RepoEnv'} (cfg : Config) (out out' : list string) (r r' : FSRepo) (s s' : disk) :
  save cfg out r s = (Ok out', r', s') -> out' = out /\ config r' = Some cfg.
Proof.
  unfold save. destruct (SetConfig cfg (with_config cfg r) s) as [[[[]|e] r1] s1] eqn:E; [|done]. intros [= <- <- <-]. split; [done|].
  unfold SetConfig in E. destruct (ReadConfigFile _ _ _) as [[m|] s2]; [|done]. destruct (ToMap cfg) as [m'|]; [|done].
  destruct (WriteConfigFile _ _ _) as [[[]|] s3]; [|done]. by injection E as <- <-.
Qed.

(** [bootstrap add] puts the given addresses, without repetitions, before the
    old ones: the new list has each address once, has exactly the given and the
    old addresses, and begins with those reported, which are exactly the given
    ones, whether or not they were in the list. *)
Theorem bootstrap_add_exact `{RepoEnv', P2pAddrs, !BootstrapField} (cfg : Config) (peers out : list string) (r r' : FSRepo) (s s' : disk) :
  bootstrapAdd cfg peers r s = (Ok out, r', s') ->
  exists cfg' tl, config r' = Some cfg' /\ Bootstrap cfg' = out ++ tl /\ NoDup (Bootstrap cfg') /\
    (forall a, a ∈ out <-> a ∈ peers) /\ (forall a, a ∈ Bootstrap cfg' <-> a ∈ peers \/ a ∈ Bootstrap cfg) /\
    Forall (fun a => exists m t id, Parse a = Ok m /\ SplitAddr m = (Some t, Some id)) peers.
Proof.
  unfold bootstrapAdd, added_lists. destruct (check_peers peers) as [e|] eqn:Ec; [done|].
  pose proof (add_new_spec peers ∅ [] (NoDup_nil_2) ltac:(set_solver)) as Hs1. destruct (add_new peers ∅ []) as [added1 list1]. destruct Hs1 as (N1 & M1 & A1 & _).
  pose proof (add_new_spec (Bootstrap cfg) added1 list1 N1) as Hs2. destruct (add_new (Bootstrap cfg) added1 list1) as [added2 list2].
  destruct Hs2 as (N2 & M2 & A2 & tl & Htl); [intros x Hx; apply A1; apply M1 in Hx; set_solver|]. cbn [snd].
  intros [-> Hc]%save_ok. exists (set_Bootstrap list2 cfg), tl. rewrite Bootstrap_set. split_and!; [done|done|done| | |].
  - intros a. rewrite M1. set_solver.
  - intros a. rewrite M2, M1, A1. destruct (decide (a ∈ peers)); set_solver.
  - clear -Ec. induction peers as [|p peers IH]; [constructor|]. cbn in Ec. destruct (Parse p) as [m|] eqn:Ep; [|done].
    destruct (SplitAddr m) as [[t|] [id|]] eqn:Es; try done. constructor; [by eauto|by apply IH].
Qed.

(** [bootstrap rm] removes exactly what is asked: an address of a peer stays in
    the list when it was there and neither the whole peer nor that address was
    named, and is reported as removed when it was there and was named; the saved
    list can be read back. *)
Theorem bootstrap_remove_exact `{RepoEnv', P2pAddrs, !BootstrapField} (cfg : Config) (args out : list string) (r r' : FSRepo) (s s' : disk) :
  bootstrapRemove cfg args r s = (Ok out, r', s') ->
  exists cfg' old asked_peers kept removed, config r' = Some cfg' /\
    ParseBootstrapPeers (Bootstrap cfg) = Ok old /\ ParseBootstrapPeers args = Ok asked_peers /\
    ParseBootstrapPeers (Bootstrap cfg') = Ok kept /\ ParseBootstrapPeers out = Ok removed /\
    forall id t, (addr_in kept id t <-> addr_in old id t /\ ~ asked asked_peers id t) /\
                 (addr_in removed id t <-> addr_in old id t /\ asked asked_peers id t).
Proof.
  unfold bootstrapRemove. destruct (ParseBootstrapPeers args) as [ask|] eqn:Ea; [|done].
  destruct (ParseBootstrapPeers (Bootstrap cfg)) as [old|] eqn:Eo; [|done].
  destruct (remove_peers ask old) as [keep rem] eqn:Er. intros [-> Hc]%save_ok.
  destruct (strings_roundtrip keep) as (kept & Ek & Hk & _). destruct (strings_roundtrip rem) as (removed & Em & Hm & _).
  assert (Hnd : NoDup ask.*1) by (unfold ParseBootstrapPeers in Ea; case_match; [by eapply Infos_NoDup|done]).
  exists (set_Bootstrap (BootstrapPeerStrings keep) cfg), old, ask, kept, removed. rewrite Bootstrap_set. split_and!; try done.
  intros id t. rewrite Hk, Hm. pose proof (remove_peers_spec ask old id t Hnd) as Hs. rewrite Er in Hs. exact Hs.
Qed.

(** ** Witnesses *)

(** Addresses as texts: [P], or [T] and a transport in which every character is
    marked, and the peer. *)
Module DemoAddrs.

Fixpoint marked (t rest : string) : string :=
  match t with EmptyString => String "."%char rest | String c t => String "x"%char (String c (marked t rest)) end.
Fixpoint unmark (s : string) : option (string * string) :=
  match s with
  | String "."%char rest => Some ("", rest)
  | String "x"%char (String c s) => match unmark s with Some (t, rest) => Some (String c t, rest) | None => None end
  | _ => None
  end.

Lemma unmark_marked t rest : unmark (marked t rest) = Some (t, rest).
Proof. induction t as [|c t IH]; [done|]. cbn. by rewrite IH. Qed.

Definition split (s : string) : option string * option string :=
  match s with
  | String "P"%char id => (None, Some id)
  | String "T"%char s => match unmark s with Some (t, id) => (Some t, Some id) | None => (Some s, None) end
  | EmptyString => (None, None)
  | _ => (Some s, Some "other")
  end.
Definition p2p (t : option string) (id : string) : string :=
  match t with None => String "P"%char id | Some t => String "T"%char (marked t id) end.

Definition ids (l : list string) : list string := remove_dups (omap (fun a => (split a).2) l).
Definition transports (l : list string) (id : string) : list string :=
  omap (fun a => match split a with (Some t, Some id') => if decide (id = id') then Some t else None | _ => None end) l.
Definition infos (l : list string) : result (list (string * list string)) :=
  if decide (Forall (fun a => is_Some (split a).2) l) then Ok ((fun id => (id, transports l id)) <$> ids l) else Err "invalid p2p multiaddr".

Definition demo_addrs : P2pAddrs.
Proof.
  refine {| Maddr := string; Parse := Ok; Text := fun a => a; SplitAddr := split; Infos := infos; P2pAddr := p2p |}.
  - done.
  - intros [t|] id; [|done]. cbn. by rewrite unmark_marked.
  - intros l Hl. unfold infos. rewrite decide_True by done. by eexists.
  - intros l r. unfold infos. case_decide; [|done]. intros [= <-]. rewrite <- list_fmap_compose.
    change (fst ∘ (fun id => (id, transports l id))) with (fun id : string => id). rewrite list_fmap_id. apply NoDup_remove_dups.
  - intros l r id. unfold infos. case_decide; [|done]. intros [= <-]. rewrite <- list_fmap_compose.
    change (fst ∘ (fun id => (id, transports l id))) with (fun id : string => id). rewrite list_fmap_id. unfold ids.
    rewrite elem_of_remove_dups, list_elem_of_omap. done.
  - intros l r id t. unfold infos. case_decide; [|done]. intros [= <-]. split.
    + intros (ts & (id' & [= -> ->] & _)%list_elem_of_fmap & Ht). unfold transports in Ht. apply list_elem_of_omap in Ht as (a & Ha & E).
      exists a. split; [done|]. destruct (split a) as [[t'|] [id''|]]; try done. by case_decide; simplify_eq.
    + intros (a & Ha & E). exists (transports l id). split.
      * apply list_elem_of_fmap. exists id. split; [done|]. unfold ids. rewrite elem_of_remove_dups, list_elem_of_omap. exists a. by rewrite E.
      * unfold transports. apply list_elem_of_omap. exists a. split; [done|]. rewrite E. by rewrite decide_True.
Defined.

(** A configuration is its bootstrap list; one of them has a text. *)
Definition saved : list string := ["Txa.I"; "Txb.J"].
Definition saved_map : object := [("Bootstrap", JArr [JStr "Txa.I"; JStr "Txb.J"])].

Lemma saved_wf : wf (JObj saved_map).
Proof. apply DemoRepo.wf_cons; [csimpl; set_solver| |apply wf_empty]. constructor. repeat constructor. Qed.

Definition list_env : RepoEnv'.
Proof.
  refine {| Config := list string; ds_Type := fun _ => ""; ds_Path := fun _ => ""; ds_Spec := fun _ => None;
            FilestoreEnabled := fun _ => false; UrlstoreEnabled := fun _ => true;
            decode_map := fun s => if decide (s = "text") then Ok saved_map else Err "unexpected end of JSON input";
            decode_config := fun s => if decide (s = "text") then Ok saved else Err "unexpected end of JSON input";
            Marshal_map := fun m => if json_eqb (JObj saved_map) (JObj m) then Ok "text" else Err "json: unsupported value";
            Marshal_config := fun c => if decide (c = saved) then Ok "text" else Err "json: unsupported value";
            Marshal_spec := fun _ => ""; Expand := fun p => Ok p;
            homedir_Dir := Ok "/home"; env_IPFS_PATH := ""; repo_registry := [];
            Multiaddr := string; ma_String := fun s => s; NewMultiaddr := fun s => Ok s |}.
  - intros s m. case_decide; [|done]. intros [= <-]. apply saved_wf.
  - intros m s _ E. destruct (json_eqb (JObj saved_map) (JObj m)) eqn:Ej; [|done]. apply json_eqb_eq in Ej. simplify_eq. by case_decide.
  - intros c s E. case_decide; [|done]. simplify_eq. by case_decide.
  - reflexivity.
Defined.

Definition list_field : @BootstrapField list_env.
Proof. refine {| Bootstrap := fun c : @Config list_env => c; set_Bootstrap := fun l _ => l : @Config list_env |}; reflexivity. Defined.

Definition demo_repo (c : list string) : @FSRepo list_env := @MkFSRepo list_env false "/repo" "/repo/config" (Some (c : @Config list_env)) [] None.
Definition demo_disk : disk := Disk {[ "/repo/config" := "text" ]} ∅ [] [].

End DemoAddrs.

Lemma bootstrap_add_exact_witness :
  exists out r' s', @bootstrapAdd DemoAddrs.list_env DemoAddrs.demo_addrs DemoAddrs.list_field ["Txb.J"; "Txb.J"] ["Txa.I"; "Txa.I"]
      (DemoAddrs.demo_repo ["Txb.J"; "Txb.J"]) DemoAddrs.demo_disk = (Ok out, r', s') /\ forall a, a ∈ out <-> a ∈ ["Txa.I"; "Txa.I"].
Proof.
  destruct (@bootstrapAdd DemoAddrs.list_env DemoAddrs.demo_addrs DemoAddrs.list_field ["Txb.J"; "Txb.J"] ["Txa.I"; "Txa.I"]
      (DemoAddrs.demo_repo ["Txb.J"; "Txb.J"]) DemoAddrs.demo_disk) as [[res r'] s'] eqn:E.
  assert (Er : res = Ok ["Txa.I"]) by (apply (f_equal (fun x => x.1.1)) in E; vm_compute in E; exact (eq_sym E)). subst res.
  exists ["Txa.I"], r', s'. split; [reflexivity|].
  destruct (@bootstrap_add_exact DemoAddrs.list_env DemoAddrs.demo_addrs DemoAddrs.list_field _ _ _ _ _ _ _ E) as (c & tl & _ & _ & _ & Hout & _).
  exact Hout.
Defined.

Lemma bootstrap_remove_exact_witness :
  exists out r' s', @bootstrapRemove DemoAddrs.list_env DemoAddrs.demo_addrs DemoAddrs.list_field ["Txa.I"; "Txb.J"; "Txc.J"; "Txc.K"] ["Txc.J"; "PK"]
      (DemoAddrs.demo_repo []) DemoAddrs.demo_disk = (Ok out, r', s') /\
    out = ["Txc.J"; "Txc.K"] /\ exists cfg', config r' = Some cfg'.
Proof.
  destruct (@bootstrapRemove DemoAddrs.list_env DemoAddrs.demo_addrs DemoAddrs.list_field ["Txa.I"; "Txb.J"; "Txc.J"; "Txc.K"] ["Txc.J"; "PK"]
      (DemoAddrs.demo_repo []) DemoAddrs.demo_disk) as [[res r'] s'] eqn:E.
  assert (Er : res = Ok ["Txc.J"; "Txc.K"]) by (apply (f_equal (fun x => x.1.1)) in E; vm_compute in E; exact (eq_sym E)). subst res.
  exists ["Txc.J"; "Txc.K"], r', s'. split; [reflexivity|]. split; [reflexivity|].
  destruct (@bootstrap_remove_exact DemoAddrs.list_env DemoAddrs.demo_addrs DemoAddrs.list_field _ _ _ _ _ _ _ E) as (c & ? & ? & ? & ? & Hc & _).
  exists c. exact Hc.
Defined.
