(* ===== verification/Profiles.v ===== *)
(** Default configuration and profiles: [config/init.go], [config/profile.go],
    [config/autonat.go].

    The record holds the fields that initialization or a profile sets to
    something; the fields that stay at their zero value are in [others].  Go
    pointers to durations and integers are options. *)
From Stdlib Require Import ZArith Lia String.
From stdpp Require Import base list strings gmap.
From S2P Require Import Prelude GoStrings ConfigTypes ConfigMap Datastores FsRepo BootstrapCmd.

Local Open Scope Z_scope.

(** ** Sections of the configuration *)

Record Addresses := MkAddresses {
  Swarm : list string; Announce : list string; AppendAnnounce : list string; NoAnnounce : list string;
  API : list string; Gateway_addrs : list string }.
Record Identity := MkIdentity { PeerID : string; PrivKey : string }.
Record Datastore := MkDatastore {
  StorageMax : string; StorageGCWatermark : Z; GCPeriod : string;
  dst_Type : string; dst_Path : string; NoSync : bool; Params : option json;
  Spec : object; HashOnRead : bool; BloomFilterSize : Z }.
Record Gateway := MkGateway {
  gw_HTTPHeaders : list (string * list string); RootRedirect : string; gw_Writable : bool; PathPrefixes : list string;
  FastDirIndexThreshold : option Z; APICommands : list string; NoFetch : bool; gw_NoDNSLink : bool;
  PublicGateways : list (string * json) }.
Record ConnMgr := MkConnMgr {
  cm_Type : option string; LowWater : option Z; HighWater : option Z; GracePeriod : option Z }.
(** [sw_others] and [others] hold, as JSON, the fields that no profile touches. *)
Record SwarmConfig := MkSwarm { AddrFilters : list string; DisableNatPortMap : bool; sw_ConnMgr : ConnMgr; sw_others : object }.
Record Reprovider := MkReprovider { Interval : string; Strategy : string }.

Inductive AutoNATServiceMode := AutoNATServiceUnset | AutoNATServiceEnabled | AutoNATServiceDisabled.

Record FullConfig := MkFullConfig {
  c_Identity : Identity;
  c_Datastore : Datastore;
  c_Addresses : Addresses;
  c_Mounts : string * string;
  MDNS_Enabled : bool;
  Routing_Type : string;
  ResolveCacheSize : Z;
  c_Bootstrap : list string;
  c_Gateway : Gateway;
  c_Swarm : SwarmConfig;
  ServiceMode : AutoNATServiceMode;
  c_Reprovider : Reprovider;
  others : object;
}.

(** *** [config/autonat.go] *)

Definition AutoNAT_UnmarshalText (text : string) : result AutoNATServiceMode :=
  if String.eqb text "" then Ok AutoNATServiceUnset
  else if String.eqb text "enabled" then Ok AutoNATServiceEnabled
  else if String.eqb text "disabled" then Ok AutoNATServiceDisabled
  else Err ("unknown autonat mode: " +:+ text).

Definition AutoNAT_MarshalText (m : AutoNATServiceMode) : string :=
  match m with AutoNATServiceUnset => "" | AutoNATServiceEnabled => "enabled" | AutoNATServiceDisabled => "disabled" end.

(** ** [config/init.go] *)

Definition DefaultConnMgrHighWater : Z := 900.
Definition DefaultConnMgrLowWater : Z := 600.
Definition DefaultConnMgrGracePeriod : Z := 20 * 1000000000.
Definition DefaultConnMgrType : string := "basic".

Definition addressesConfig : Addresses :=
  MkAddresses ["/ip4/0.0.0.0/tcp/4031"; "/ip6/::/tcp/4031"; "/ip4/0.0.0.0/udp/4031/quic"; "/ip6/::/udp/4031/quic"]
    [] [] [] ["/ip4/127.0.0.1/tcp/5031"] ["/ip4/127.0.0.1/tcp/8083"].

Definition badgerSpec : object :=
  [("type", JStr "measure"); ("prefix", JStr "badger.datastore");
   ("child", JObj [("type", JStr "badgerds"); ("path", JStr "badgerds"); ("syncWrites", JBool false); ("truncate", JBool true)])].

Definition flatfsSpec : object :=
  [("type", JStr "mount");
   ("mounts", JArr [
      JObj [("mountpoint", JStr "/blocks"); ("type", JStr "measure"); ("prefix", JStr "flatfs.datastore");
            ("child", JObj [("type", JStr "flatfs"); ("path", JStr "blocks"); ("sync", JBool true);
                            ("shardFunc", JStr "/repo/flatfs/shard/v1/next-to-last/2")])];
      JObj [("mountpoint", JStr "/"); ("type", JStr "measure"); ("prefix", JStr "leveldb.datastore");
            ("child", JObj [("type", JStr "levelds"); ("path", JStr "datastore"); ("compression", JStr "none")])]])].

Definition DefaultDatastoreConfig : Datastore := MkDatastore "500GB" 90 "1h" "" "" false None flatfsSpec false 0.

Section Init.
Context `{P2pAddrs}.

Definition InitWithIdentity (identity : Identity) : result FullConfig :=
  match DefaultBootstrapPeers with
  | Err e => Err e
  | Ok bootstrapPeers =>
      Ok (MkFullConfig identity DefaultDatastoreConfig addressesConfig ("/ipfs", "/ipns") true "dht" 128
            (BootstrapPeerStrings bootstrapPeers)
            (MkGateway [("Access-Control-Allow-Origin", ["*"]); ("Access-Control-Allow-Methods", ["GET"]);
                        ("Access-Control-Allow-Headers", ["X-Requested-With"; "Range"; "User-Agent"])] "" false [] None [] false false [])
            (MkSwarm [] false (MkConnMgr None None None None) []) AutoNATServiceUnset (MkReprovider "12h" "all")
            [("API", JObj [("HTTPHeaders", JObj [])]); ("DNS", JObj [("Resolvers", JObj [])]);
             ("Migration", JObj [("DownloadSources", JArr []); ("Keep", JStr "")]); ("Pinning", JObj [("RemoteServices", JObj [])])])
  end.

(** [CreateIdentity]: the key generators of the crypto package and the options as
    they were parsed. *)
Class KeyGen := {
  GenerateRSA : Z -> result string;
  GenerateEd25519 : result string;
  MarshalPrivateKey : string -> result string;
  base64_Encode : string -> string;
  ID_of_key : string -> result string;
}.

Definition RSALen : Z := 2048.

Definition CreateIdentity `{KeyGen} (settings : result (string * Z)) : result Identity :=
  match settings with
  | Err e => Err e
  | Ok (Algorithm, Size) =>
      let sk :=
        if String.eqb Algorithm "rsa" then GenerateRSA (if Size =? -1 then RSALen else Size)
        else if String.eqb Algorithm "ed25519" then
          if negb (Size =? -1) then Err "number of key bits does not apply when using ed25519 keys" else GenerateEd25519
        else Err ("unrecognized key type: " +:+ Algorithm) in
      match sk with
      | Err e => Err e
      | Ok sk =>
          match MarshalPrivateKey sk with
          | Err e => Err e
          | Ok skbytes =>
              match ID_of_key sk with
              | Err e => Err e
              | Ok id => Ok (MkIdentity id (base64_Encode skbytes))
              end
          end
      end
  end.

Definition Init_config `{KeyGen} (settings : result (string * Z)) : result FullConfig :=
  match CreateIdentity settings with Err e => Err e | Ok identity => InitWithIdentity identity end.

(** ** [config/profile.go] *)

Definition defaultServerFilters : list string :=
  ["/ip4/10.0.0.0/ipcidr/8"; "/ip4/100.64.0.0/ipcidr/10"; "/ip4/169.254.0.0/ipcidr/16"; "/ip4/172.16.0.0/ipcidr/12";
   "/ip4/192.0.0.0/ipcidr/24"; "/ip4/192.0.2.0/ipcidr/24"; "/ip4/192.168.0.0/ipcidr/16"; "/ip4/198.18.0.0/ipcidr/15";
   "/ip4/198.51.100.0/ipcidr/24"; "/ip4/203.0.113.0/ipcidr/24"; "/ip4/240.0.0.0/ipcidr/4"; "/ip6/100::/ipcidr/64";
   "/ip6/2001:2::/ipcidr/48"; "/ip6/2001:db8::/ipcidr/32"; "/ip6/fc00::/ipcidr/7"; "/ip6/fe80::/ipcidr/10"].

Definition appendSingle (a b : list string) : list string :=
  let '(m, out) := add_new a ∅ [] in (add_new b m out).2.

(** [order]: the keys of a map as they are iterated. *)
Definition deleteEntries (order : gset string -> list string) (arr del : list string) : list string :=
  order (list_to_set arr ∖ list_to_set del).

Definition set_addresses (f : Addresses -> Addresses) (c : FullConfig) : FullConfig :=
  let '(MkFullConfig i d a m md rt rc b g s sm rp o) := c in
  MkFullConfig i d (f a) m md rt rc b g s sm rp o.
Definition set_mdns (enabled : bool) (c : FullConfig) : FullConfig :=
  let '(MkFullConfig i d a m md rt rc b g s sm rp o) := c in
  MkFullConfig i d a m enabled rt rc b g s sm rp o.
Definition set_swarm (f : SwarmConfig -> SwarmConfig) (c : FullConfig) : FullConfig :=
  let '(MkFullConfig i d a m md rt rc b g s sm rp o) := c in
  MkFullConfig i d a m md rt rc b g (f s) sm rp o.
Definition set_bootstrap (l : list string) (c : FullConfig) : FullConfig :=
  let '(MkFullConfig i d a m md rt rc b g s sm rp o) := c in
  MkFullConfig i d a m md rt rc l g s sm rp o.
Definition set_spec (spec : object) (c : FullConfig) : FullConfig :=
  let '(MkFullConfig i d a m md rt rc b g s sm rp o) := c in
  MkFullConfig i (MkDatastore (StorageMax d) (StorageGCWatermark d) (GCPeriod d) (dst_Type d) (dst_Path d) (NoSync d) (Params d) spec
    (HashOnRead d) (BloomFilterSize d)) a m md rt rc b g s sm rp o.

Definition with_filters (f : list string -> list string) (nat_off : bool) (s : SwarmConfig) : SwarmConfig :=
  MkSwarm (f (AddrFilters s)) nat_off (sw_ConnMgr s) (sw_others s).
Definition with_NoAnnounce (f : list string -> list string) (a : Addresses) : Addresses :=
  MkAddresses (Swarm a) (Announce a) (AppendAnnounce a) (f (NoAnnounce a)) (API a) (Gateway_addrs a).

Definition server (c : FullConfig) : FullConfig :=
  set_swarm (with_filters (fun l => appendSingle l defaultServerFilters) true)
    (set_mdns false (set_addresses (with_NoAnnounce (fun l => appendSingle l defaultServerFilters)) c)).

Definition local_discovery (order : gset string -> list string) (c : FullConfig) : FullConfig :=
  set_swarm (with_filters (fun l => deleteEntries order l defaultServerFilters) false)
    (set_mdns true (set_addresses (with_NoAnnounce (fun l => deleteEntries order l defaultServerFilters)) c)).

Definition test_profile (c : FullConfig) : FullConfig :=
  set_mdns false (set_bootstrap [] (set_swarm (with_filters (fun l => l) true)
    (set_addresses (fun a => MkAddresses ["/ip4/127.0.0.1/tcp/0"] (Announce a) (AppendAnnounce a) (NoAnnounce a)
       ["/ip4/127.0.0.1/tcp/0"] ["/ip4/127.0.0.1/tcp/0"]) c))).

Definition default_networking (c : FullConfig) : result FullConfig :=
  let c := set_addresses (fun _ => addressesConfig) c in
  match DefaultBootstrapPeers with
  | Err e => Err e
  | Ok bootstrapPeers =>
      Ok (set_mdns true (set_swarm (with_filters (fun l => l) false)
        (set_bootstrap (appendSingle (c_Bootstrap c) (BootstrapPeerStrings bootstrapPeers)) c)))
  end.

Definition lowpower (c : FullConfig) : FullConfig :=
  MkFullConfig (c_Identity c) (c_Datastore c) (c_Addresses c) (c_Mounts c) (MDNS_Enabled c) "dhtclient" (ResolveCacheSize c)
    (c_Bootstrap c) (c_Gateway c)
    (MkSwarm (AddrFilters (c_Swarm c)) (DisableNatPortMap (c_Swarm c)) (MkConnMgr (Some "basic") (Some 20) (Some 40) (Some (60 * 1000000000))) (sw_others (c_Swarm c)))
    AutoNATServiceDisabled (MkReprovider "0" (Strategy (c_Reprovider c))) (others c).

(** [port]: what [getAvailablePort] returned. *)
Definition randomports (port : result Z) (c : FullConfig) : result FullConfig :=
  match port with
  | Err e => Err e
  | Ok port =>
      Ok (set_addresses (fun a => MkAddresses ["/ip4/0.0.0.0/tcp/" +:+ FormatInt port; "/ip6/::/tcp/" +:+ FormatInt port]
            (Announce a) (AppendAnnounce a) (NoAnnounce a) (API a) (Gateway_addrs a)) c)
  end.

(** The table of profiles: the transformer and [InitOnly]. *)
Definition Profiles (order : gset string -> list string) (port : result Z) (name : string)
  : option ((FullConfig -> result FullConfig) * bool) :=
  if String.eqb name "server" then Some (fun c => Ok (server c), false)
  else if String.eqb name "local-discovery" then Some (fun c => Ok (local_discovery order c), false)
  else if String.eqb name "test" then Some (fun c => Ok (test_profile c), false)
  else if String.eqb name "default-networking" then Some (default_networking, false)
  else if String.eqb name "default-datastore" then Some (fun c => Ok (set_spec flatfsSpec c), true)
  else if String.eqb name "flatfs" then Some (fun c => Ok (set_spec flatfsSpec c), true)
  else if String.eqb name "badgerds" then Some (fun c => Ok (set_spec badgerSpec c), true)
  else if String.eqb name "lowpower" then Some (fun c => Ok (lowpower c), false)
  else if String.eqb name "randomports" then Some (randomports port, false)
  else None.

(** ** Lemmas *)

Lemma appendSingle_spec a b : NoDup (appendSingle a b) /\ (forall x, x ∈ appendSingle a b <-> x ∈ a \/ x ∈ b) /\
  (NoDup a -> exists tl, appendSingle a b = a ++ tl).
Proof.
  unfold appendSingle. pose proof (add_new_spec a ∅ [] NoDup_nil_2 ltac:(set_solver)) as H1.
  assert (Ha : NoDup a -> (add_new a ∅ []).2 = a).
  { clear. assert (Hgen : forall l m acc, NoDup l -> (forall x, x ∈ l -> x ∉ m) -> (add_new l m acc).2 = acc ++ l).
    { induction l as [|s l IH]; intros m acc Hn Hm; [cbn; by rewrite app_nil_r|]. apply NoDup_cons in Hn as [Hs Hn]. cbn.
      rewrite decide_False by (apply Hm; set_solver). rewrite IH; [by rewrite <- (assoc (++))|done|]. intros x Hx. specialize (Hm x). set_solver. }
    intros Hn. rewrite Hgen; [done|done|set_solver]. }
  destruct (add_new a ∅ []) as [m out]. destruct H1 as (N1 & M1 & A1 & _).
  pose proof (add_new_spec b m out N1) as H2. destruct (add_new b m out) as [m2 out2]. destruct H2 as (N2 & M2 & _ & tl & Htl); [intros x Hx; apply A1, or_intror; apply M1 in Hx; set_solver|].
  cbn in *. split_and!; [done| |].
  - intros x. rewrite M2, M1, A1. destruct (decide (x ∈ a)); set_solver.
  - intros Hn. exists tl. by rewrite Htl, (Ha Hn).
Qed.

(** Appending what is there changes nothing. *)
Lemma appendSingle_id a b : NoDup a -> (forall x, x ∈ b -> x ∈ a) -> appendSingle a b = a.
Proof.
  intros Hn Hb. destruct (appendSingle_spec a b) as (N & M & T). destruct (T Hn) as [tl Htl]. rewrite Htl in *.
  apply NoDup_app in N as (_ & Hd & _). destruct tl as [|x tl]; [by rewrite app_nil_r|]. exfalso.
  assert (Hx : x ∈ a) by (destruct (proj1 (M x)); [set_solver|done|by apply Hb]). apply (Hd x Hx). set_solver.
Qed.

Lemma appendSingle_idem a b : appendSingle (appendSingle a b) b = appendSingle a b.
Proof. destruct (appendSingle_spec a b) as (N & M & _). apply appendSingle_id; [done|]. intros x Hx. apply M. by right. Qed.

End Init.

#[local] Arguments appendSingle : simpl never.
#[local] Arguments deleteEntries : simpl never.
#[local] Arguments defaultServerFilters : simpl never.
#[local] Arguments BootstrapPeerStrings : simpl never.

(** ** Theorems *)

(** applying a profile a second time changes nothing, for every profile whose
    result does not depend on the iteration order of a map or on a free port. *)
Theorem profile_idempotent `{P2pAddrs} (order : gset string -> list string) (port : result Z) (name : string)
    (t : FullConfig -> result FullConfig) (initOnly : bool) (c c1 : FullConfig) :
  name ∉ ["local-discovery"; "randomports"] -> Profiles order port name = Some (t, initOnly) -> t c = Ok c1 -> t c1 = Ok c1.
Proof.
  intros Hn. unfold Profiles. destruct c as [i d a m md rt rc b g sw sm rp o].
  destruct (String.eqb name "server"); [intros [= <- <-] [= <-]; cbn; unfold with_NoAnnounce, with_filters; cbn; by rewrite !appendSingle_idem|].
  destruct (String.eqb_spec name "local-discovery") as [-> |_]; [exfalso; apply Hn; by left|].
  destruct (String.eqb name "test"); [intros [= <- <-] [= <-]; reflexivity|].
  destruct (String.eqb name "default-networking").
  { intros [= <- <-]. unfold default_networking. destruct DefaultBootstrapPeers as [ps|e]; [|done]. intros [= <-]. cbn. by rewrite appendSingle_idem. }
  do 3 (destruct (String.eqb name _); [intros [= <- <-] [= <-]; reflexivity|]).
  destruct (String.eqb name "lowpower"); [intros [= <- <-] [= <-]; reflexivity|].
  destruct (String.eqb_spec name "randomports") as [-> |_]; [exfalso; apply Hn; right; by left|done].
Qed.

(** [default-networking] is the inverse of [test], as documented: on a freshly
    initialized configuration the one undoes the other completely. *)
Theorem test_profile_undone `{P2pAddrs} (identity : Identity) (c : FullConfig) :
  InitWithIdentity identity = Ok c -> NoDup (c_Bootstrap c) -> default_networking (test_profile c) = Ok c.
Proof.
  unfold InitWithIdentity, default_networking. destruct DefaultBootstrapPeers as [ps|e]; [|done]. intros [= <-] Hn. cbn in Hn.
  cbn. f_equal. f_equal.
  enough (E : appendSingle [] (BootstrapPeerStrings ps) = BootstrapPeerStrings ps) by done.
  assert (Hgen : forall l (m : gset string) acc, NoDup l -> (forall x, x ∈ l -> x ∉ m) -> (add_new l m acc).2 = acc ++ l).
  { clear. induction l as [|s l IH]; intros m acc Hn Hm; [cbn; by rewrite app_nil_r|]. apply NoDup_cons in Hn as [Hs Hn]. cbn.
    rewrite decide_False by (apply Hm; set_solver). rewrite IH; [by rewrite <- (assoc (++))|done|]. intros x Hx. specialize (Hm x). set_solver. }
  unfold appendSingle. cbn [add_new]. rewrite Hgen; [done|done|set_solver].
Qed.

(** [local-discovery] undoes [server]: whatever filters a node had of its own are
    kept, each once, the filters of the server profile are gone, discovery and
    port mapping are on and nothing else is touched; a freshly initialized
    configuration is restored exactly. *)
Theorem server_profile_undone `{P2pAddrs} (order : gset string -> list string) (c : FullConfig) :
  (forall m, order m ≡ₚ elements m) ->
  let c' := local_discovery order (server c) in
  (forall f, f ∈ NoAnnounce (c_Addresses c') <-> f ∈ NoAnnounce (c_Addresses c) /\ f ∉ defaultServerFilters) /\
  (forall f, f ∈ AddrFilters (c_Swarm c') <-> f ∈ AddrFilters (c_Swarm c) /\ f ∉ defaultServerFilters) /\
  NoDup (NoAnnounce (c_Addresses c')) /\ NoDup (AddrFilters (c_Swarm c')) /\
  c' = set_swarm (with_filters (fun _ => AddrFilters (c_Swarm c')) false)
         (set_mdns true (set_addresses (with_NoAnnounce (fun _ => NoAnnounce (c_Addresses c'))) c)) /\
  (forall identity, InitWithIdentity identity = Ok c -> c' = c).
Proof.
  intros Ho c'. assert (Hdel : forall l f, f ∈ deleteEntries order (appendSingle l defaultServerFilters) defaultServerFilters <-> f ∈ l /\ f ∉ defaultServerFilters).
  { intros l f. unfold deleteEntries. rewrite (Ho _), elem_of_elements, elem_of_difference, !elem_of_list_to_set.
    destruct (appendSingle_spec l defaultServerFilters) as (_ & M & _). rewrite M. tauto. }
  assert (Hnd : forall l, NoDup (deleteEntries order l defaultServerFilters)) by (intros l; unfold deleteEntries; rewrite (Ho _); apply NoDup_elements).
  split_and!.
  1-5: clear -Hdel Hnd; destruct c; cbn in c'; unfold c'; cbn; auto.
  intros identity. unfold InitWithIdentity. destruct DefaultBootstrapPeers as [ps|e]; [|done]. intros E.
  assert (Hnil : deleteEntries order (appendSingle [] defaultServerFilters) defaultServerFilters = []).
  { destruct (deleteEntries order (appendSingle [] defaultServerFilters) defaultServerFilters) as [|f l] eqn:El; [done|].
    destruct (proj1 (Hdel [] f)) as [Hf _]; [rewrite El; set_solver|]. by apply elem_of_nil in Hf. }
  unfold c'. injection E as <-. cbn. unfold with_NoAnnounce, with_filters. cbn. by rewrite !Hnil.
Qed.

(** *** Datastore profiles *)

Section DatastoreProfiles.
Context `{DatastoreEnv, RepoEnv'}.
Hypothesis registered : repo_registry = [("flatfs", flatfs_parse); ("levelds", levelds_parse); ("badgerds", badgerds_parse)].
Hypothesis shard : ParseShardFunc "/repo/flatfs/shard/v1/next-to-last/2" = Ok "/repo/flatfs/shard/v1/next-to-last/2".
Hypothesis keys : forall k, NewKey k = k.

Definition flatfs_config : DatastoreConfig :=
  mountDatastoreConfig
    [(measureDatastoreConfig (flatfsConfig "blocks" "/repo/flatfs/shard/v1/next-to-last/2" true) "flatfs.datastore", "/blocks");
     (measureDatastoreConfig (leveldsConfig "datastore" NoCompression) "leveldb.datastore", "/")].
Definition badger_config : DatastoreConfig := measureDatastoreConfig (badgerdsConfig "badgerds" false true default_vlog) "badger.datastore".

Lemma flatfs_parses : parse_spec flatfsSpec = Ok flatfs_config.
Proof.
  unfold parse_spec, AnyDatastoreConfig. rewrite registered. change (depth (JObj flatfsSpec)) with 5%nat. lazy -[ParseShardFunc NewKey sort_mounts flatfs_config].
  rewrite shard. rewrite !keys. reflexivity.
Qed.

(** The spec left in the file by applying [badgerds] to a configuration with the
    [flatfs] spec: maps are merged, so the mounts stay. *)
Lemma merged_parses : parse_spec (MapMergeDeep flatfsSpec badgerSpec) = Ok badger_config.
Proof. unfold parse_spec, AnyDatastoreConfig. rewrite registered. reflexivity. Qed.

(** a profile that may only be applied at initialization is applied to any
    repository, and the repository cannot be opened afterwards: the table's
    [InitOnly] is never looked at, and the datastore no longer matches what is on
    disk. *)
Theorem init_only_profile_breaks_repo (order : gset string -> list string) (port : result Z) (r : FSRepo) (conf : Config) (s s1 : disk) `{P2pAddrs} :
  ds_Type conf = "" -> ds_Path conf = "" -> ds_Spec conf = Some (MapMergeDeep flatfsSpec badgerSpec) ->
  readSpec r s = (Ok (spec_String flatfs_config), s1) -> spec_String flatfs_config <> spec_String badger_config ->
  (exists t, Profiles order port "badgerds" = Some (t, true)) /\ parse_spec flatfsSpec = Ok flatfs_config /\
  exists e s', openDatastore r conf s = (Err e, s').
Proof.
  intros Et Ep Es Hr Hne. split; [by eexists|]. split; [apply flatfs_parses|]. unfold openDatastore.
  rewrite decide_False by (rewrite Et, Ep; naive_solver). rewrite Es, merged_parses. unfold bind, of_result. rewrite Hr.
  rewrite decide_True by done. by eexists _, _.
Qed.

End DatastoreProfiles.

(** ** Witnesses *)

Definition demo_identity : Identity := MkIdentity "Qm" "key".

Definition empty_config : FullConfig :=
  MkFullConfig demo_identity DefaultDatastoreConfig addressesConfig ("", "") true "" 0 [] (MkGateway [] "" false [] None [] false false [])
    (MkSwarm [] false (MkConnMgr None None None None) []) AutoNATServiceUnset (MkReprovider "" "") [].
Definition fresh_config : FullConfig :=
  match @InitWithIdentity DemoAddrs.demo_addrs demo_identity with Ok c => c | Err _ => empty_config end.

Lemma fresh_config_init : @InitWithIdentity DemoAddrs.demo_addrs demo_identity = Ok fresh_config.
Proof. vm_compute. reflexivity. Qed.

Lemma profile_idempotent_witness : Ok (server (server fresh_config)) = Ok (server fresh_config).
Proof.
  refine (@profile_idempotent DemoAddrs.demo_addrs elements (Ok 4031) "server" (fun c => Ok (server c)) false fresh_config _ _ eq_refl eq_refl).
  set_solver.
Defined.

Lemma test_profile_undone_witness : @default_networking DemoAddrs.demo_addrs (test_profile fresh_config) = Ok fresh_config.
Proof.
  apply (@test_profile_undone DemoAddrs.demo_addrs demo_identity fresh_config fresh_config_init).
  vm_compute. apply NoDup_singleton.
Defined.

Lemma server_profile_undone_witness : local_discovery elements (server fresh_config) = fresh_config.
Proof.
  destruct (@server_profile_undone DemoAddrs.demo_addrs elements fresh_config (fun m => Permutation_refl _)) as (_ & _ & _ & _ & _ & Hf).
  exact (Hf demo_identity fresh_config_init).
Defined.

(** A repository whose specs are written as their types. *)
Definition profile_env : RepoEnv'.
Proof.
  refine {| Config := unit; ds_Type := fun _ => ""; ds_Path := fun _ => ""; ds_Spec := fun _ => Some (MapMergeDeep flatfsSpec badgerSpec);
            FilestoreEnabled := fun _ => false; UrlstoreEnabled := fun _ => false;
            decode_map := fun _ => Err "no map"; decode_config := fun _ => Ok tt;
            Marshal_map := fun _ => Err "no map"; Marshal_config := fun _ => Ok "";
            Marshal_spec := fun m => match mlookup "type" (default [] m) with Some (JStr t) => t | _ => "" end;
            Expand := fun p => Ok p; homedir_Dir := Ok "/home"; env_IPFS_PATH := "";
            repo_registry := [("flatfs", @flatfs_parse demo_ds); ("levelds", @levelds_parse); ("badgerds", @badgerds_parse demo_ds)];
            Multiaddr := string; ma_String := fun s => s; NewMultiaddr := fun s => Ok s |}; try done.
  by intros [] s _.
Defined.

Lemma init_only_profile_breaks_repo_witness :
  exists e s', @openDatastore profile_env demo_ds (@MkFSRepo profile_env false "/repo" "/repo/config" None [] None) tt
    (Disk {[ "/repo/datastore_spec" := "mount" ]} ∅ [] []) = (Err e, s').
Proof.
  apply (@init_only_profile_breaks_repo demo_ds profile_env eq_refl eq_refl (fun k => eq_refl) elements (Ok 4031)
    (@MkFSRepo profile_env false "/repo" "/repo/config" None [] None) tt (Disk {[ "/repo/datastore_spec" := "mount" ]} ∅ [] [])
    (Disk {[ "/repo/datastore_spec" := "mount" ]} ∅ [] []) DemoAddrs.demo_addrs eq_refl eq_refl eq_refl); [reflexivity|].
  vm_compute. discriminate.
Defined.
