(* ===== verification/PinMFS.v ===== *)
(** Remote pinning of the files root: [cmd/ipfs/pinmfs.go].

    Times and durations are nanoseconds.  A remote service answers a listing and a
    request; the model records the requests that were sent.  The services are
    contacted in parallel, so the results arrive in any order.  The context is not
    cancelled while a round runs; the error of a duration that does not parse is
    reported without the parser's own text. *)
From Stdlib Require Import ZArith Lia String.
From stdpp Require Import base list strings gmap.
From S2P Require Import Prelude GoStrings ConfigTypes FsRepo ConfigCmd.

Local Open Scope Z_scope.

Record lastPin := MkLastPin { Time : Z; ServiceName : string; ServiceConfig : RemotePinningService; CID : string }.

(** [lastPin{}]. *)
Definition no_pin : lastPin := MkLastPin 0 "" (MkService (MkAPI "" "") (MkMFSPolicy false "" "")) "".
#[export] Instance lastPin_eq_dec : EqDecision lastPin.
Proof. solve_decision. Defined.
Definition IsValid (x : lastPin) : bool := bool_decide (x <> no_pin).

Definition Second : Z := 1000000000.
Definition daemonConfigPollInterval : Z := 60 * Second / 2.
Definition defaultRepinInterval : Z := 5 * 60 * Second.

Inductive Status := StatusQueued | StatusPinning | StatusPinned | StatusFailed.
#[export] Instance Status_eq_dec : EqDecision Status.
Proof. solve_decision. Defined.

Record PinStatus := MkPinStatus { RequestId : string; ps_CID : string; ps_Status : Status; Created : Z }.

(** A request that changes the pins of a service. *)
Inductive request := Replace (id cid name : string) | Add (cid name : string).

(** What happens around one service in a round: the time at which it is contacted,
    its listing with the error, its answers to requests, and the addresses of the
    node, where it has a host. *)
Record service_answers := MkAnswers {
  contacted : Z;
  Ls : list PinStatus * option error;
  answer : request -> option error;
  origins : option (option error);
}.

(** The loop over the listing: the last request seen, and the creation time of a
    pin for the CID that has not failed. *)
Fixpoint ls_loop (cid : string) (l : list PinStatus) (existing : string) : string * option Z :=
  match l with
  | [] => (existing, None)
  | ps :: l =>
      if bool_decide (ps_CID ps = cid) && negb (bool_decide (ps_Status ps = StatusFailed)) then (RequestId ps, Some (Created ps))
      else ls_loop cid l (RequestId ps)
  end.

Definition pin_name (identity : string) (svcConfig : RemotePinningService) : string :=
  let pinName := PinName (svc_Policies svcConfig) in
  if String.eqb pinName "" then "policy/" +:+ identity +:+ "/mfs" else pinName.

(** The result and the requests sent. *)
Definition pinMFS (identity cid svcName : string) (svcConfig : RemotePinningService) (a : service_answers)
  : result lastPin * list request :=
  let name := pin_name identity svcConfig in
  let '(existingRequestID, pinning) := ls_loop cid (Ls a).1 "" in
  match (Ls a).2 with
  | Some e => (Err ("error while listing remote pins: " +:+ e), [])
  | None =>
      match pinning with
      | Some pinTime => (Ok (MkLastPin pinTime svcName svcConfig cid), [])
      | None =>
          match origins a with
          | Some (Some e) => (Err e, [])
          | _ =>
              let req := if negb (String.eqb existingRequestID "") then Replace existingRequestID cid name else Add cid name in
              (match answer a req with
               | Some e => Err e
               | None => Ok (MkLastPin (contacted a) svcName svcConfig cid)
               end, [req])
          end
      end
  end.

Section PinAll.
Context `{DurationText}.

Definition repin_interval (svcConfig : RemotePinningService) : option Z :=
  let s := RepinInterval (svc_Policies svcConfig) in
  if String.eqb s "" then Some defaultRepinInterval else ParseDuration s.

(** The decision of [pinAllMFS] for one service, before its goroutine. *)
Inductive decision := Skip | Refuse (e : error) | Contact.

Definition considered (now : Z) (rootCid : string) (lastPins : gmap string lastPin) (svcName : string) (svcConfig : RemotePinningService) : decision :=
  if negb (Enable (svc_Policies svcConfig)) then Skip
  else
    match repin_interval svcConfig with
    | None => Refuse ("remote pinning service " +:+ quoted svcName +:+ " has invalid MFS.RepinInterval")
    | Some repinInterval =>
        match lastPins !! svcName with
        | Some last =>
            if bool_decide (ServiceConfig last = svcConfig) && (bool_decide (CID last = rootCid) || (now - Time last <? repinInterval)) then Skip
            else Contact
        | None => Contact
        end
    end.

(** One service in one round: what is sent on the channel of results, what on the
    channel of errors, and the requests. *)
Record served := MkServed { sent : lastPin; reported : option error; requests : list request }.

Definition pin_service (now : Z) (identity rootCid : string) (lastPins : gmap string lastPin) (svc : string * RemotePinningService)
    (a : service_answers) : served :=
  match considered now rootCid lastPins svc.1 svc.2 with
  | Skip => MkServed no_pin None []
  | Refuse e => MkServed no_pin (Some e) []
  | Contact =>
      match pinMFS identity rootCid svc.1 svc.2 a with
      | (Ok r, reqs) => MkServed r None reqs
      | (Err e, reqs) => MkServed no_pin (Some ("pinning MFS root " +:+ quoted rootCid +:+ " to " +:+ quoted svc.1 +:+ " (" +:+ e +:+ ")")) reqs
      end
  end.

(** The receiving loop. *)
Definition store (lastPins : gmap string lastPin) (x : lastPin) : gmap string lastPin :=
  if IsValid x then <[ServiceName x := x]> lastPins else lastPins.

(** [arrivals]: the services in the order in which their results arrive. *)
Definition pinAllMFS (now : Z) (identity rootCid : string) (arrivals : list (string * RemotePinningService))
    (answers : string -> service_answers) (lastPins : gmap string lastPin) : gmap string lastPin :=
  foldl store lastPins ((fun svc => sent (pin_service now identity rootCid lastPins svc (answers svc.1))) <$> arrivals).

(** The errors of a round. *)
Definition round_errors (now : Z) (identity rootCid : string) (arrivals : list (string * RemotePinningService))
    (answers : string -> service_answers) (lastPins : gmap string lastPin) : list error :=
  omap (fun svc => reported (pin_service now identity rootCid lastPins svc (answers svc.1))) arrivals.

(** One turn of [pinMFSOnChange] after the sleep: the configuration and the root
    may be unavailable. *)
Definition turn (now : Z) (identity : string) (cfg : result (list (string * RemotePinningService))) (root : result string)
    (answers : string -> service_answers) (lastPins : gmap string lastPin) : list error * gmap string lastPin :=
  match cfg with
  | Err e => (["pinning reading config (" +:+ e +:+ ")"], lastPins)
  | Ok services =>
      match root with
      | Err e => (["pinning reading MFS root (" +:+ e +:+ ")"], lastPins)
      | Ok rootCid => (round_errors now identity rootCid services answers lastPins, pinAllMFS now identity rootCid services answers lastPins)
      end
  end.

(** ** Lemmas *)

Lemma pinMFS_named identity cid svcName c a r reqs :
  pinMFS identity cid svcName c a = (Ok r, reqs) -> ServiceName r = svcName /\ ServiceConfig r = c /\ CID r = cid.
Proof.
  unfold pinMFS. destruct (ls_loop cid (Ls a).1 "") as [ex [t|]]; destruct (Ls a).2; try done; [by intros [= <- _]|].
  destruct (origins a) as [[e|]|]; try done; destruct (answer a _); try done; by intros [= <- _].
Qed.

Lemma pin_service_named now identity cid pins svc a :
  let x := sent (pin_service now identity cid pins svc a) in
  IsValid x = true -> ServiceName x = svc.1 /\ ServiceConfig x = svc.2 /\ CID x = cid /\ Enable (svc_Policies svc.2) = true.
Proof.
  cbn zeta. unfold pin_service. destruct (considered _ _ _ _ _) eqn:Ec; [done|done|].
  assert (Enable (svc_Policies svc.2) = true) by (unfold considered in Ec; by destruct (Enable _)).
  destruct (pinMFS _ _ _ _ _) as [[r|e] reqs] eqn:E; [|done]. by apply pinMFS_named in E as (? & ? & ?).
Qed.

(** The table after the results of services with distinct names. *)
Lemma pinAll_lookup now identity cid l answers pins0 pins name :
  NoDup l.*1 ->
  foldl store pins ((fun svc => sent (pin_service now identity cid pins0 svc (answers svc.1))) <$> l) !! name =
  match list_find (fun svc => svc.1 = name) l with
  | Some (_, svc) =>
      let x := sent (pin_service now identity cid pins0 svc (answers name)) in if IsValid x then Some x else pins !! name
  | None => pins !! name
  end.
Proof.
  revert pins. induction l as [|svc l IH]; intros pins Hnd; [done|]. csimpl in Hnd. apply NoDup_cons in Hnd as [Hn Hnd].
  cbn [fmap list_fmap foldl]. rewrite IH by done. cbn [list_find]. unfold store at 1.
  set (x := sent (pin_service now identity cid pins0 svc (answers svc.1))).
  assert (Hx : IsValid x = true -> ServiceName x = svc.1) by apply (pin_service_named now identity cid pins0 svc).
  assert (Hl : (if IsValid x then <[ServiceName x := x]> pins else pins) !! name =
     if decide (svc.1 = name) then (if IsValid x then Some x else pins !! name) else pins !! name).
  { destruct (IsValid x); [rewrite (Hx eq_refl)|by case_decide]. case_decide as Hd; [by rewrite Hd, lookup_insert_eq|by rewrite lookup_insert_ne]. }
  unfold store. fold x. rewrite Hl. case_decide as Hd.
  - assert (Hfind : list_find (fun svc => svc.1 = name) l = None).
    { apply list_find_None. apply Forall_forall. intros s Hs E. apply Hn. rewrite Hd, <- E. by apply list_elem_of_fmap_2. }
    rewrite Hfind. unfold x. by rewrite Hd.
  - by destruct (list_find (fun svc => svc.1 = name) l) as [[]|].
Qed.

(** The loop over the listing stops at the first pin of the CID that has not
    failed; otherwise it has seen the last entry. *)
Lemma ls_loop_spec cid l ex :
  ls_loop cid l ex =
  match list_find (fun ps => ps_CID ps = cid /\ ps_Status ps <> StatusFailed) l with
  | Some (_, ps) => (RequestId ps, Some (Created ps))
  | None => (default ex (RequestId <$> last l), None)
  end.
Proof.
  revert ex. induction l as [|ps l IH]; intros ex; [done|]. cbn [ls_loop list_find].
  destruct (decide (ps_CID ps = cid)) as [E|E], (decide (ps_Status ps = StatusFailed)) as [F|F];
    repeat first [rewrite bool_decide_true by done | rewrite bool_decide_false by done]; cbn [andb negb];
    try (rewrite decide_True by tauto; done); (rewrite decide_False by tauto); rewrite IH;
    destruct (list_find _ l) as [[]|]; try done; cbn [fmap option_fmap option_map];
    (destruct l as [|y l _] using rev_ind; [done|]); by rewrite app_comm_cons, !last_snoc.
Qed.

Lemma find_permuted l l' (name : string) :
  NoDup (A := string) l.*1 -> l ≡ₚ l' ->
  snd <$> list_find (fun svc : string * RemotePinningService => svc.1 = name) l = snd <$> list_find (fun svc : string * RemotePinningService => svc.1 = name) l'.
Proof.
  intros Hnd Hp. destruct (list_find _ l) as [[i x]|] eqn:E, (list_find _ l') as [[j y]|] eqn:E'; cbn; try done.
  - apply list_find_Some in E as (Hx & <- & _), E' as (Hy & Hn & _). f_equal.
    apply list_elem_of_lookup_2 in Hx, Hy. rewrite <- Hp in Hy.
    apply list_elem_of_lookup_1 in Hx as [a Ha], Hy as [b Hb].
    assert (a = b) as ->; [|by simplify_eq].
    eapply (NoDup_lookup (l.*1)); [done| |]; rewrite list_lookup_fmap; [by rewrite Ha|by rewrite Hb; cbn; rewrite Hn].
  - apply list_find_Some in E as (Hx & <- & _). apply list_find_None in E'. rewrite Forall_forall in E'.
    exfalso. apply (E' x); [|done]. rewrite <- Hp. by eapply list_elem_of_lookup_2.
  - apply list_find_Some in E' as (Hx & <- & _). apply list_find_None in E. rewrite Forall_forall in E.
    exfalso. apply (E y); [|done]. rewrite Hp. by eapply list_elem_of_lookup_2.
Qed.

(** ** Properties *)

(** the order in which the services answer does not matter: with the services
    of a configuration (whose names are distinct) every order of arrival gives the
    same table of last pins, and the same errors up to their order. *)
Theorem pin_arrival_order_irrelevant now identity cid l l' answers pins :
  NoDup l.*1 -> l ≡ₚ l' ->
  pinAllMFS now identity cid l answers pins = pinAllMFS now identity cid l' answers pins /\
  round_errors now identity cid l answers pins ≡ₚ round_errors now identity cid l' answers pins.
Proof.
  intros Hnd Hp. split; [|unfold round_errors; by rewrite Hp]. apply map_eq. intros name. unfold pinAllMFS.
  rewrite !pinAll_lookup by (by rewrite <- ?Hp). pose proof (find_permuted l l' name Hnd Hp) as Hf.
  destruct (list_find _ l) as [[]|], (list_find _ l') as [[]|]; cbn in Hf; by simplify_eq.
Qed.

(** which requests one contact with a service sends, and what is remembered.
    Nothing is sent when the listing fails, or when it shows a pin of the root
    that has not failed, whose creation time is then remembered; otherwise the
    last pin listed under the name is replaced, or one is added where none (or
    one without an identifier) is listed, once; the pin is remembered exactly if
    that request succeeds. *)
Theorem pin_requests_exact identity cid name c a :
  let live := list_find (fun ps => ps_CID ps = cid /\ ps_Status ps <> StatusFailed) (Ls a).1 in
  let before := default "" (RequestId <$> last (Ls a).1) in
  let '(r, reqs) := pinMFS identity cid name c a in
  match (Ls a).2, live with
  | Some _, _ => reqs = [] /\ exists e, r = Err e
  | None, Some (_, ps) => reqs = [] /\ r = Ok (MkLastPin (Created ps) name c cid)
  | None, None =>
      (exists e, origins a = Some (Some e) /\ reqs = [] /\ r = Err e) \/
      (exists q, reqs = [q] /\
         q = (if String.eqb before "" then Add cid (pin_name identity c) else Replace before cid (pin_name identity c)) /\
         r = match answer a q with None => Ok (MkLastPin (contacted a) name c cid) | Some e => Err e end)
  end.
Proof.
  cbn zeta. unfold pinMFS. rewrite ls_loop_spec. destruct (Ls a) as [l [e|]]; cbn [fst snd].
  - destruct (list_find _ l) as [[]|]; by eauto.
  - destruct (list_find _ l) as [[i ps]|]; [done|].
    destruct (origins a) as [[e|]|]; [left; by eauto|right|right]; destruct (String.eqb _ "");
      eexists; (split; [reflexivity|split; [reflexivity|]]); by destruct (answer a _).
Qed.

(** a service is left alone, and its entry kept, for as long as its
    configuration is the one of the last pin and either the root is the one
    pinned or the repin interval has not passed; the same for a service that is
    not configured any more; and an entry changes only to a pin of the current
    root under the current configuration. *)
Theorem pin_rate_limited now identity cid l answers pins name :
  NoDup l.*1 ->
  let pins' := pinAllMFS now identity cid l answers pins in
  (name ∉ l.*1 -> pins' !! name = pins !! name) /\
  forall c, (name, c) ∈ l ->
    let out := pin_service now identity cid pins (name, c) (answers name) in
    (forall last t, pins !! name = Some last -> ServiceConfig last = c -> repin_interval c = Some t ->
       CID last = cid \/ now - Time last < t ->
       requests out = [] /\ reported out = None /\ pins' !! name = Some last) /\
    (pins' !! name = pins !! name \/
     exists p, pins' !! name = Some p /\ ServiceName p = name /\ ServiceConfig p = c /\ CID p = cid /\ Enable (svc_Policies c) = true).
Proof.
  intros Hnd. cbn zeta. unfold pinAllMFS. rewrite pinAll_lookup by done. split.
  { intros Hn. destruct (list_find _ l) as [[i svc]|] eqn:E; [|done]. apply list_find_Some in E as (Hl & <- & _).
    exfalso. apply Hn, list_elem_of_fmap_2. by eapply list_elem_of_lookup_2. }
  intros c Hc.
  assert (Hf : snd <$> list_find (fun svc : string * RemotePinningService => svc.1 = name) l = Some (name, c)).
  { apply list_elem_of_split in Hc as (l1 & l2 & ->). rewrite (find_permuted _ ((name, c) :: l1 ++ l2)) by (done || by rewrite Permutation_middle).
    cbn. by rewrite decide_True. }
  destruct (list_find _ l) as [[i svc]|]; cbn in Hf; simplify_eq. cbn zeta. split.
  - intros last t Hl Hcfg Ht Hor. unfold pin_service, considered. cbn [fst snd]. rewrite Hl, Ht, Hcfg. destruct (Enable _); cbn [negb]; [|done].
    rewrite bool_decide_true by done. destruct Hor as [->|Hlt]; [rewrite bool_decide_true by done|rewrite (proj2 (Z.ltb_lt _ _) Hlt), orb_true_r]; done.
  - pose proof (pin_service_named now identity cid pins (name, c) (answers name)) as Hx. cbn zeta in Hx.
    destruct (IsValid _) eqn:Ev; [right|by left]. specialize (Hx eq_refl). by eexists.
Qed.

End PinAll.

(** ** Witnesses *)

Module DemoPins.
Definition cfg (interval : string) : RemotePinningService := MkService (MkAPI "https://a" "key") (MkMFSPolicy true "" interval).
Definition quiet : service_answers := MkAnswers 100 ([], None) (fun _ => None) None.
Definition failing : service_answers := MkAnswers 100 ([MkPinStatus "r1" "old" StatusPinned 3; MkPinStatus "r2" "cid" StatusFailed 4], None) (fun _ => Some "busy") None.
Definition answers (name : string) : service_answers := if String.eqb name "b" then failing else quiet.
Definition two : list (string * RemotePinningService) := [("a", cfg ""); ("b", cfg "")].
Definition pinned : gmap string lastPin := {[ "a" := MkLastPin 50 "a" (cfg "") "old" ]}.
End DemoPins.

Lemma pin_arrival_order_irrelevant_witness :
  pinAllMFS (H := nanosecond_text) 100 "me" "cid" DemoPins.two DemoPins.answers ∅ =
  pinAllMFS (H := nanosecond_text) 100 "me" "cid" (reverse DemoPins.two) DemoPins.answers ∅.
Proof.
  apply (pin_arrival_order_irrelevant (H := nanosecond_text)); [|by rewrite reverse_Permutation].
  apply (bool_decide_eq_true_1 _). vm_compute. reflexivity.
Defined.

Lemma pin_rate_limited_witness :
  pinAllMFS (H := nanosecond_text) 100 "me" "cid" DemoPins.two DemoPins.answers DemoPins.pinned !! "a" = DemoPins.pinned !! "a" /\
  requests (pin_service (H := nanosecond_text) 100 "me" "cid" DemoPins.pinned ("b", DemoPins.cfg "") DemoPins.failing) = [Replace "r2" "cid" "policy/me/mfs"].
Proof.
  split; [|reflexivity].
  destruct (pin_rate_limited (H := nanosecond_text) 100 "me" "cid" DemoPins.two DemoPins.answers DemoPins.pinned "a") as [_ Hl];
    [apply (bool_decide_eq_true_1 _); vm_compute; reflexivity|].
  destruct (Hl (DemoPins.cfg "")) as [Hkeep _]; [apply list_elem_of_here|].
  destruct (Hkeep (MkLastPin 50 "a" (DemoPins.cfg "") "old") defaultRepinInterval) as (_ & _ & E); [reflexivity|reflexivity|reflexivity|right; reflexivity|].
  rewrite E. reflexivity.
Defined.
