(* ===== verification/PinAPI.v ===== *)
(** The pin API and the pin commands: [core/coreapi/pin.go] and
    [core/commands/pin/pin.go].

    The pinner, path resolution, the blockstore's links and [merkledag.Walk] are
    fields of [PinEnv].  The operations that change pins thread the pinner's state
    and a trace of what was called, in which the pin lock appears; [Verify] and
    [pinVerify] are the same memoised recursion, [checkPin]; a listing is the list
    of what was sent on its channel, and the list [cancel] says at which sends the
    context is seen to be done; [pinVerify] runs without cancellation. *)
From Stdlib Require Import ZArith Lia String.
From stdpp Require Import base list strings gmap sets.
From S2P Require Import Prelude.

Abbreviation cid := string.

Class PinEnv := {
  PS : Type;
  (** resolution of a path that is not a CID yet, and fetching a node *)
  Resolve : string -> result cid;
  GetNode : cid -> option error;
  StringToMode : string -> bool;
  Pinner_Pin : cid -> bool -> PS -> option error * PS;
  Pinner_Unpin : cid -> bool -> PS -> option error * PS;
  Pinner_Update : cid -> cid -> bool -> PS -> option error * PS;
  Pinner_Flush : PS -> option error * PS;
  Provide : cid -> option error;
  (** the mode a CID is pinned in ([IsPinnedWithType]) *)
  IsPinnedWithType : cid -> string -> PS -> result (string * bool);
  RecursiveKeys : PS -> result (list cid);
  DirectKeys : PS -> result (list cid);
  ValidateCid : cid -> option error;
  (** links of blocks in the local store, and of those that can be fetched *)
  LocalLinks : cid -> result (list cid);
  DagLinks : cid -> result (list cid);
  (** [merkledag.Walk] with [SkipRoot] and a set as its visit function: a walk
      without error has added every link of the root and of what it added, and
      nothing that is not reached from the root *)
  Walk : cid -> gset cid -> result (gset cid);
  Walk_ok root set set' : Walk root set = Ok set' ->
    set ⊆ set' /\
    (exists ls, DagLinks root = Ok ls /\ Forall (fun c => c ∈ set') ls) /\
    (forall c, c ∈ set' -> c ∉ set -> exists ls, DagLinks c = Ok ls /\ Forall (fun d => d ∈ set') ls) /\
    (forall c, c ∈ set' -> c ∉ set -> tc (fun a b => exists ls, DagLinks a = Ok ls /\ b ∈ ls) root c)
}.

(** A path: to be resolved, or resolved to a CID. *)
Inductive pin_path := Named (p : string) | At (c : cid).

Section PinAPI.
Context `{PinEnv}.

Definition ResolvePath (p : pin_path) : result cid := match p with At c => Ok c | Named s => Resolve s end.
Definition ResolveNode (p : pin_path) : result cid :=
  match ResolvePath p with
  | Err e => Err e
  | Ok c => match GetNode c with Some e => Err e | None => Ok c end
  end.

(** ** Operations on pins *)

Inductive event :=
| PinLock | Unlock
| Pinned (c : cid) (recursive : bool) | Unpinned (c : cid) (recursive : bool) | Updated (from to : cid) (unpin : bool)
| Provided (c : cid) | Flushed.

Record api := MkApi { pinning : PS; trace : list event }.

Definition emit (e : event) (a : api) : api := MkApi (pinning a) (trace a ++ [e]).

(** A call of the pinner. *)
Definition pinner (e : event) (f : PS -> option error * PS) (a : api) : option error * api :=
  let '(r, p) := f (pinning a) in (r, MkApi p (trace a ++ [e])).

(** [defer api.blockstore.PinLock(ctx).Unlock(ctx)]. *)
Definition locked (body : api -> option error * api) (a : api) : option error * api :=
  let '(r, a) := body (emit PinLock a) in (r, emit Unlock a).

Definition Add (p : pin_path) (recursive : bool) (a : api) : option error * api :=
  match ResolveNode p with
  | Err e => (Some ("pin: " +:+ e), a)
  | Ok c =>
      locked (fun a =>
        match pinner (Pinned c recursive) (Pinner_Pin c recursive) a with
        | (Some e, a) => (Some ("pin: " +:+ e), a)
        | (None, a) =>
            match Provide c with
            | Some e => (Some e, emit (Provided c) a)
            | None => pinner Flushed Pinner_Flush (emit (Provided c) a)
            end
        end) a
  end.

Definition Rm (p : pin_path) (recursive : bool) (a : api) : option error * api :=
  match ResolvePath p with
  | Err e => (Some e, a)
  | Ok c =>
      locked (fun a =>
        match pinner (Unpinned c recursive) (Pinner_Unpin c recursive) a with
        | (Some e, a) => (Some e, a)
        | (None, a) => pinner Flushed Pinner_Flush a
        end) a
  end.

Definition Update (from to : pin_path) (unpin : bool) (a : api) : option error * api :=
  match ResolvePath from with
  | Err e => (Some e, a)
  | Ok fp =>
      match ResolvePath to with
      | Err e => (Some e, a)
      | Ok tp =>
          locked (fun a =>
            match pinner (Updated fp tp unpin) (Pinner_Update fp tp unpin) a with
            | (Some e, a) => (Some e, a)
            | (None, a) => pinner Flushed Pinner_Flush a
            end) a
      end
  end.

(** [pin add] of several paths stops at the first error, and so does [pin rm];
    [enc] encodes CIDs. *)
Fixpoint pinAddMany (enc : cid -> string) (paths : list string) (recursive : bool) (added : list string) (a : api)
  : result (list string) * api :=
  match paths with
  | [] => (Ok added, a)
  | b :: paths =>
      match ResolvePath (Named b) with
      | Err e => (Err e, a)
      | Ok rp =>
          match Add (At rp) recursive a with
          | (Some e, a) => (Err e, a)
          | (None, a) => pinAddMany enc paths recursive (added ++ [enc rp]) a
          end
      end
  end.

Fixpoint rmPin_Run (enc : cid -> string) (paths : list string) (recursive : bool) (pins : list string) (a : api)
  : result (list string) * api :=
  match paths with
  | [] => (Ok pins, a)
  | b :: paths =>
      match ResolvePath (Named b) with
      | Err e => (Err e, a)
      | Ok rp =>
          match Rm (At rp) recursive a with
          | (Some e, a) => (Err e, a)
          | (None, a) => rmPin_Run enc paths recursive (pins ++ [enc rp]) a
          end
      end
  end.

(** [pin update] resolves both paths before it updates. *)
Definition updatePin_Run (enc : cid -> string) (arg0 arg1 : string) (unpin : bool) (a : api) : result (list string) * api :=
  match ResolvePath (Named arg0) with
  | Err e => (Err e, a)
  | Ok from =>
      match ResolvePath (Named arg1) with
      | Err e => (Err e, a)
      | Ok to =>
          match Update (At from) (At to) unpin a with
          | (Some e, a) => (Err e, a)
          | (None, a) => (Ok [enc from; enc to], a)
          end
      end
  end.

(** ** Listing *)

Inductive pinInfo := PinOf (pinType : string) (c : cid) | PinErr (e : error).

Record ls_state := MkLs { keys : gset cid; sent : list pinInfo; cancel : list bool }.

Definition ctx_Err : error := "context canceled".

Fixpoint AddToResultKeys (keyList : list cid) (typeStr : string) (s : ls_state) : option error * ls_state :=
  match keyList with
  | [] => (None, s)
  | c :: keyList =>
      if decide (c ∈ keys s) then AddToResultKeys keyList typeStr s
      else
        let visited := {[ c ]} ∪ keys s in
        match cancel s with
        | true :: cs => (Some ctx_Err, MkLs visited (sent s) cs)
        | cs => AddToResultKeys keyList typeStr (MkLs visited (sent s ++ [PinOf typeStr c]) (tail cs))
        end
  end.

Definition VisitKeys (keyList : list cid) (s : ls_state) : ls_state := MkLs (list_to_set keyList ∪ keys s) (sent s) (cancel s).

Fixpoint walk_pins (rkeys : list cid) (set : gset cid) : result (gset cid) :=
  match rkeys with
  | [] => Ok set
  | k :: rkeys => match Walk k set with Ok set => walk_pins rkeys set | Err e => Err e end
  end.

(** A step of the goroutine: an error is sent and ends it. *)
Definition ls_step (r : option error * ls_state) (k : ls_state -> list pinInfo) : list pinInfo :=
  match r with (Some e, s) => sent s ++ [PinErr e] | (None, s) => k s end.
Definition ls_keys {A} (r : result A) (s : ls_state) (k : A -> list pinInfo) : list pinInfo :=
  match r with Err e => sent s ++ [PinErr e] | Ok l => k l end.

(** [order] is the order in which a set of CIDs lists its elements. *)
Definition pinLsAll (order : gset cid -> list cid) (typeStr : string) (p : PS) (cancelled : list bool) : list pinInfo :=
  let s := MkLs ∅ [] cancelled in
  let indirect (rkeys : list cid) (s : ls_state) :=
    ls_keys (walk_pins rkeys ∅) s (fun set => ls_step (AddToResultKeys (order set) "indirect" s) sent) in
  if String.eqb typeStr "recursive" then
    ls_keys (RecursiveKeys p) s (fun rkeys => ls_step (AddToResultKeys rkeys "recursive" s) sent)
  else if String.eqb typeStr "direct" then
    ls_keys (DirectKeys p) s (fun dkeys => ls_step (AddToResultKeys dkeys "direct" s) sent)
  else if String.eqb typeStr "all" then
    ls_keys (RecursiveKeys p) s (fun rkeys =>
    ls_step (AddToResultKeys rkeys "recursive" s) (fun s =>
    ls_keys (DirectKeys p) s (fun dkeys =>
    ls_step (AddToResultKeys dkeys "direct" s) (fun s =>
    indirect rkeys s))))
  else if String.eqb typeStr "indirect" then
    ls_keys (DirectKeys p) s (fun dkeys =>
    let s := VisitKeys dkeys s in
    ls_keys (RecursiveKeys p) s (fun rkeys =>
    indirect rkeys (VisitKeys rkeys s)))
  else [].

Definition valid_type (typeStr : string) : bool := bool_decide (typeStr ∈ ["all"; "direct"; "indirect"; "recursive"]).

Definition invalid_type (typeStr : string) : error :=
  "invalid type '" +:+ typeStr +:+ "', must be one of {direct, indirect, recursive, all}".

Definition Ls (order : gset cid -> list cid) (typeStr : string) (p : PS) (cancelled : list bool) : result (list pinInfo) :=
  if valid_type typeStr then Ok (pinLsAll order typeStr p cancelled) else Err (invalid_type typeStr).

Definition IsPinned (path : pin_path) (withType : string) (p : PS) : result (string * bool) :=
  match ResolvePath path with
  | Err e => Err ("error resolving path: " +:+ e)
  | Ok c => if StringToMode withType then IsPinnedWithType c withType p else Err (invalid_type withType)
  end.

(** [pin ls]: what is emitted, until the first error. *)
Fixpoint emit_pins (enc : cid -> string) (pins : list pinInfo) (out : list (string * string)) : list (string * string) * option error :=
  match pins with
  | [] => (out, None)
  | PinErr e :: _ => (out, Some e)
  | PinOf t c :: pins => emit_pins enc pins (out ++ [(enc c, t)])
  end.

Definition pin_type_text (pinType : string) : string :=
  if bool_decide (pinType ∈ ["direct"; "indirect"; "recursive"; "internal"]) then pinType else "indirect through " +:+ pinType.

Fixpoint pinLsKeys (enc : cid -> string) (typeStr : string) (args : list string) (p : PS) (out : list (string * string))
  : list (string * string) * option error :=
  match args with
  | [] => (out, None)
  | arg :: args =>
      match ResolvePath (Named arg) with
      | Err e => (out, Some e)
      | Ok rp =>
          match IsPinned (At rp) typeStr p with
          | Err e => (out, Some e)
          | Ok (_, false) => (out, Some ("path '" +:+ arg +:+ "' is not pinned"))
          | Ok (pinType, true) => pinLsKeys enc typeStr args p (out ++ [(enc rp, pin_type_text pinType)])
          end
      end
  end.

(** Without [--stream] the objects are collected in a map and emitted at the end,
    and an error discards them. *)
Definition listPin_Run (enc : cid -> string) (order : gset cid -> list cid) (typeStr : string) (stream : bool) (args : list string)
    (p : PS) (cancelled : list bool) : list (string * string) * option (gmap string string) * option error :=
  if negb (valid_type typeStr) then ([], None, Some (invalid_type typeStr))
  else
    let '(out, err) :=
      match args with
      | [] => match Ls order typeStr p cancelled with Err e => ([], Some e) | Ok pins => emit_pins enc pins [] end
      | _ => pinLsKeys enc typeStr args p []
      end in
    match err with
    | Some e => (if stream then out else [], None, Some e)
    | None => if stream then (out, None, None) else ([], Some (list_to_map (reverse out)), None)
    end.

(** ** Verification *)

Record pinStatus := MkStatus { st_Ok : bool; badNodes : list (cid * error) }.

(** [checkPin] with its map of visited CIDs; [None] when the recursion is deeper
    than [fuel].  [inspect] gives the links of a CID, or the reason why it is bad;
    the command collects reasons only when asked to ([explain]). *)
Section Check.
Variable (inspect : cid -> result (list cid)) (explain : bool).

Abbreviation memo := (gmap cid pinStatus).

Fixpoint check_links (check : cid -> memo -> option (pinStatus * memo)) (links : list cid) (status : pinStatus) (visited : memo)
  : option (pinStatus * memo) :=
  match links with
  | [] => Some (status, visited)
  | lnk :: links =>
      match check lnk visited with
      | None => None
      | Some (res, visited) =>
          check_links check links (if st_Ok res then status else MkStatus false (badNodes status ++ badNodes res)) visited
      end
  end.

Fixpoint checkPin (fuel : nat) (root : cid) (visited : memo) : option (pinStatus * memo) :=
  match fuel with
  | O => None
  | S fuel =>
      match visited !! root with
      | Some status => Some (status, visited)
      | None =>
          match inspect root with
          | Err e =>
              let status := MkStatus false (if explain then [(root, e)] else []) in
              Some (status, <[root := status]> visited)
          | Ok links =>
              match check_links (checkPin fuel) links (MkStatus true []) visited with
              | None => None
              | Some (status, visited) => Some (status, <[root := status]> visited)
              end
          end
      end
  end.

(** The statuses of the recursive pins, one after the other with the same map. *)
Fixpoint check_pins (fuel : nat) (recPins : list cid) (visited : memo) : option (list (cid * pinStatus)) :=
  match recPins with
  | [] => Some []
  | c :: recPins =>
      match checkPin fuel c visited with
      | None => None
      | Some (status, visited) =>
          match check_pins fuel recPins visited with None => None | Some l => Some ((c, status) :: l) end
      end
  end.
End Check.

Definition Verify (fuel : nat) (p : PS) : option (result (list (cid * pinStatus))) :=
  match RecursiveKeys p with
  | Err e => Some (Err e)
  | Ok recPins => Ok <$> check_pins LocalLinks true fuel recPins ∅
  end.

Definition validated_links (c : cid) : result (list cid) :=
  match ValidateCid c with Some e => Err e | None => LocalLinks c end.

(** What [pin verify] sends: [includeOk] adds the pins that are complete. *)
Definition pinVerify (fuel : nat) (explain includeOk : bool) (p : PS) : option (result (list (cid * pinStatus))) :=
  match RecursiveKeys p with
  | Err e => Some (Err e)
  | Ok recPins =>
      (fun l => Ok (filter (fun x => negb (st_Ok x.2) || includeOk) l)) <$> check_pins validated_links explain fuel recPins ∅
  end.

Definition verifyPin_Run (fuel : nat) (verbose quiet : bool) (p : PS) : option (result (list (cid * pinStatus))) :=
  if verbose && quiet then Some (Err "the --verbose and --quiet options can not be used at the same time")
  else pinVerify fuel (negb quiet) verbose p.
End PinAPI.

(** ** Specification *)

(** What a listing of one type is to contain. *)
Section Listed.
Context `{PinEnv}.

Definition dag_link (a b : cid) : Prop := exists ls, DagLinks a = Ok ls /\ b ∈ ls.
Definition recursive_pin (p : PS) (c : cid) : Prop := exists l, RecursiveKeys p = Ok l /\ c ∈ l.
Definition direct_pin (p : PS) (c : cid) : Prop := exists l, DirectKeys p = Ok l /\ c ∈ l.
Definition indirect_pin (p : PS) (c : cid) : Prop := exists k, recursive_pin p k /\ tc dag_link k c.

Definition listed (p : PS) (typeStr t : string) (c : cid) : Prop :=
  (t = "recursive" /\ (typeStr = "all" \/ typeStr = "recursive") /\ recursive_pin p c) \/
  (t = "direct" /\ direct_pin p c /\ (typeStr = "direct" \/ typeStr = "all" /\ ~ recursive_pin p c)) \/
  (t = "indirect" /\ (typeStr = "all" \/ typeStr = "indirect") /\ indirect_pin p c /\ ~ recursive_pin p c /\ ~ direct_pin p c).

Definition pin_cids (l : list pinInfo) : list cid := omap (fun x => match x with PinOf _ c => Some c | PinErr _ => None end) l.

Lemma add_keys_spec l t s r s' : AddToResultKeys l t s = (r, s') ->
  exists new, sent s' = sent s ++ (PinOf t <$> new) /\ NoDup new /\
    (forall c, c ∈ new -> c ∈ l /\ (c ∉ keys s) /\ c ∈ keys s') /\ keys s ⊆ keys s' /\
    (r = None -> (forall c, c ∈ l -> c ∉ keys s -> c ∈ new) /\ keys s' = list_to_set l ∪ keys s) /\
    (Forall (fun b => b = false) (cancel s) -> r = None /\ Forall (fun b => b = false) (cancel s')).
Proof.
  revert s. induction l as [|c l IH]; intros s; cbn [AddToResultKeys].
  { intros [= <- <-]. exists []. split_and!; try done; [by rewrite app_nil_r|constructor|set_solver|]. split; set_solver. }
  case_decide as Hc.
  { intros (new & E1 & E2 & E3 & Ek & E4 & E5)%IH. exists new. split_and!; try done; [set_solver|]. intros Hr. destruct (E4 Hr) as [F1 F2]. set_solver. }
  intros E. assert (Hcase : (exists cs, cancel s = true :: cs /\ r = Some ctx_Err /\ s' = MkLs ({[c]} ∪ keys s) (sent s) cs) \/
    AddToResultKeys l t (MkLs ({[c]} ∪ keys s) (sent s ++ [PinOf t c]) (tail (cancel s))) = (r, s')).
  { destruct (cancel s) as [|[] cs]; [by right|left; simplify_eq; eauto|by right]. }
  destruct Hcase as [(cs & Ec & -> & ->)|Hrec].
  { exists []. rewrite Ec. cbn. split_and!; [by rewrite app_nil_r|constructor|set_solver|set_solver|done|]. intros Hf. by inversion Hf. }
  apply IH in Hrec as (new & E1 & E2 & E3 & Ek & E4 & E5). cbn in *. exists (c :: new). split_and!.
  - rewrite E1. cbn. by rewrite <- (assoc (++)).
  - constructor; [intros Hin; apply E3 in Hin as [_ Hin]; set_solver|done].
  - intros d [-> |Hd]%elem_of_cons; [set_solver|]. apply E3 in Hd. set_solver.
  - set_solver.
  - intros Hr. destruct (E4 Hr) as [F1 F2]. split; [|set_solver]. intros d [-> |Hd]%elem_of_cons Hk; [set_solver|].
    destruct (decide (d = c)) as [-> |]; [set_solver|]. apply list_elem_of_further, F1; set_solver.
  - intros Hf. apply E5. destruct (cancel s); [done|]. by inversion Hf.
Qed.

Definition closed (set : gset cid) : Prop := forall c, c ∈ set -> exists ls, DagLinks c = Ok ls /\ Forall (fun d => d ∈ set) ls.

Lemma walk_pins_spec rkeys set set' : closed set -> walk_pins rkeys set = Ok set' ->
  closed set' /\ set ⊆ set' /\ (forall k d, k ∈ rkeys -> dag_link k d -> d ∈ set') /\
  (forall c, c ∈ set' -> c ∉ set -> exists k, k ∈ rkeys /\ tc dag_link k c).
Proof.
  revert set. induction rkeys as [|k rkeys IH]; intros set Hcl; cbn; [intros [= <-]; set_solver|].
  destruct (Walk k set) as [set1|] eqn:E; [|done]. apply Walk_ok in E as (W1 & (ls & Wl & W2) & W3 & W4). intros Hw.
  assert (Hcl1 : closed set1).
  { intros c Hc. destruct (decide (c ∈ set)) as [Hs|Hs]; [|by apply W3].
    destruct (Hcl c Hs) as (lc & El & Hl). exists lc. split; [done|]. eapply Forall_impl; [exact Hl|]. cbn. set_solver. }
  apply IH in Hw as (I1 & I2 & I3 & I4); [|done]. split_and!; [done|set_solver| |].
  - intros k' d [-> |Hk]%elem_of_cons; [|by apply I3]. intros (ls' & El & Hd). rewrite Wl in El. simplify_eq.
    rewrite Forall_forall in W2. set_solver.
  - intros c Hc Hn. destruct (decide (c ∈ set1)) as [Hs|Hs]; [exists k|]; [|destruct (I4 c Hc Hs) as (k' & ? & ?); exists k'];
      (split; [set_solver|]); [by apply W4|done].
Qed.

Lemma walk_pins_exact rkeys set : walk_pins rkeys ∅ = Ok set -> forall c, c ∈ set <-> exists k, k ∈ rkeys /\ tc dag_link k c.
Proof.
  intros E. apply walk_pins_spec in E as (C & _ & R & S); [|intros c; set_solver]. intros c. split; [intros Hc; apply S; set_solver|].
  intros (k & Hk & Ht). revert c Ht. apply tc_ind_r; [by eauto|]. intros y z _ (ls & El & Hz) Hy.
  destruct (C y Hy) as (ls' & El' & Hl). rewrite El in El'. simplify_eq. rewrite Forall_forall in Hl. by apply Hl.
Qed.

(** The state of a listing that has sent exactly the pins [Q], and a listing that
    has ended, with an error or complete. *)
Record sending (Q : string -> cid -> Prop) (s : ls_state) : Prop := {
  sending_once : NoDup (pin_cids (sent s));
  sending_keys c : c ∈ pin_cids (sent s) -> c ∈ keys s;
  sending_pins : Forall (fun x => exists t c, x = PinOf t c) (sent s);
  sending_exact t c : PinOf t c ∈ sent s <-> Q t c;
}.

Definition ended (Q : string -> cid -> Prop) (out : list pinInfo) : Prop :=
  NoDup (pin_cids out) /\ (forall t c, PinOf t c ∈ out -> Q t c) /\
  ((exists pins e, out = pins ++ [PinErr e] /\ Forall (fun x => exists t c, x = PinOf t c) pins) \/
   (Forall (fun x => exists t c, x = PinOf t c) out /\ forall t c, Q t c -> PinOf t c ∈ out)).

Lemma pin_cids_app l1 l2 : pin_cids (l1 ++ l2) = pin_cids l1 ++ pin_cids l2.
Proof. apply omap_app. Qed.

Lemma pin_cids_of t l : pin_cids (PinOf t <$> l) = l.
Proof. unfold pin_cids. induction l as [|c l IH]; [done|]. cbn. by f_equal. Qed.

Lemma ended_error (Q Q' : string -> cid -> Prop) s e :
  sending Q s -> (forall t c, Q t c -> Q' t c) -> ended Q' (sent s ++ [PinErr e]).
Proof.
  intros Hs Hq. split_and!.
  - rewrite pin_cids_app. cbn. rewrite app_nil_r. apply Hs.
  - intros t c Hin. apply elem_of_app in Hin as [Hin|Hin]; [by apply Hq, Hs|]. by apply list_elem_of_singleton in Hin.
  - left. exists (sent s), e. split; [done|apply Hs].
Qed.

Lemma ended_done (Q : string -> cid -> Prop) s : sending Q s -> ended Q (sent s).
Proof. intros Hs. split_and!; [apply Hs|apply Hs|]. right. split; [apply Hs|]. intros t c. apply Hs. Qed.

Lemma sending_proper Q Q' s : (forall t c, Q t c <-> Q' t c) -> sending Q s -> sending Q' s.
Proof. intros E [A B C D]. split; [done|done|done|]. intros t c. by rewrite D, E. Qed.

Lemma add_keys_sending Q l t s r s' : sending Q s -> AddToResultKeys l t s = (r, s') ->
  exists P : cid -> Prop, sending (fun t' c => Q t' c \/ t' = t /\ P c) s' /\
    (forall c, P c -> c ∈ l /\ c ∉ keys s) /\
    (r = None -> (forall c, P c <-> c ∈ l /\ c ∉ keys s) /\ keys s' = list_to_set l ∪ keys s).
Proof.
  intros [A B C D] E. pose proof (add_keys_spec _ _ _ _ _ E) as (new & E1 & E2 & E3 & Ek & E4 & _). exists (fun c => c ∈ new). split_and!.
  - split.
    + rewrite E1, pin_cids_app, pin_cids_of. apply NoDup_app. split_and!; [done| |done]. intros c Hc Hn. apply E3 in Hn. set_solver.
    + intros c. rewrite E1, pin_cids_app, pin_cids_of, elem_of_app. intros [Hc|Hc]; [by apply Ek, B|by apply E3].
    + rewrite E1. apply Forall_app. split; [done|]. apply Forall_fmap, Forall_true. intros c. cbn. eauto.
    + intros t' c. rewrite E1, elem_of_app, D, list_elem_of_fmap. naive_solver.
  - naive_solver.
  - intros Hr. destruct (E4 Hr) as [F1 F2]. split; [|done]. intros c. naive_solver.
Qed.

(** Sending the indirect pins, where [s] has seen all others. *)
Lemma indirect_ended order p rkeys dkeys Q s typeStr :
  (forall m, order m ≡ₚ elements m) -> RecursiveKeys p = Ok rkeys -> DirectKeys p = Ok dkeys ->
  (typeStr = "all" \/ typeStr = "indirect") -> (forall c, c ∈ keys s <-> c ∈ dkeys \/ c ∈ rkeys) -> sending Q s ->
  (forall t c, Q t c <-> listed p typeStr t c /\ t <> "indirect") ->
  ended (listed p typeStr)
    (ls_keys (walk_pins rkeys ∅) s (fun set => ls_step (AddToResultKeys (order set) "indirect" s) sent)).
Proof.
  intros Ho Er Ed Ht Hk Hs Hq. destruct (walk_pins rkeys ∅) as [set|e] eqn:Ew; cbn; [|eapply ended_error; [exact Hs|naive_solver]].
  assert (Hrec : forall c, recursive_pin p c <-> c ∈ rkeys) by (intros c; unfold recursive_pin; rewrite Er; naive_solver).
  assert (Hdir : forall c, direct_pin p c <-> c ∈ dkeys) by (intros c; unfold direct_pin; rewrite Ed; naive_solver).
  assert (Hind : forall c, indirect_pin p c <-> c ∈ set).
  { intros c. rewrite (walk_pins_exact _ _ Ew). unfold indirect_pin. by setoid_rewrite Hrec. }
  assert (Hl : forall c, listed p typeStr "indirect" c <-> c ∈ set /\ c ∉ keys s).
  { intros c. unfold listed. rewrite Hrec, Hdir, Hind, Hk. set_solver. }
  destruct (AddToResultKeys (order set) "indirect" s) as [r s'] eqn:Ea. apply (add_keys_sending _ _ _ _ _ _ Hs) in Ea as (P & Hs' & HP & Hr).
  assert (Hset : forall c, c ∈ order set <-> c ∈ set) by (intros c; by rewrite (Ho set), elem_of_elements).
  destruct r as [e|]; cbn.
  - eapply ended_error; [exact Hs'|]. intros t c [Hc|[-> Hc]]; [by apply Hq|]. apply Hl. apply HP in Hc. by rewrite Hset in Hc.
  - destruct (Hr eq_refl) as [Hall _]. eapply ended_done, sending_proper; [|exact Hs']. intros t c. cbn. rewrite Hq, Hall, Hset, <- Hl.
    destruct (decide (t = "indirect")) as [-> |]; naive_solver.
Qed.
Lemma start_sending cs : sending (fun _ _ => False) (MkLs ∅ [] cs).
Proof. split; cbn; [constructor|set_solver|constructor|set_solver]. Qed.

Lemma visit_sending Q l s : sending Q s -> sending Q (VisitKeys l s).
Proof. intros [A B C D]. split; cbn; set_solver. Qed.

(** One list of keys as the whole listing. *)
Lemma keys_ended (keyres : result (list cid)) t p cs :
  (forall t' c, listed p t t' c <-> t' = t /\ exists l, keyres = Ok l /\ c ∈ l) ->
  ended (listed p t) (ls_keys keyres (MkLs ∅ [] cs) (fun l => ls_step (AddToResultKeys l t (MkLs ∅ [] cs)) sent)).
Proof.
  intros Hl. destruct keyres as [l|e]; cbn; [|eapply (ended_error _ _ (MkLs ∅ [] cs)); [apply start_sending|done]].
  destruct (AddToResultKeys l t _) as [r s] eqn:E. apply (add_keys_sending _ _ _ _ _ _ (start_sending cs)) in E as (P & Hs & HP & Hr).
  assert (Hsub : forall t' c, False \/ t' = t /\ P c -> listed p t t' c).
  { intros t' c [[]|[-> Hc]]. apply Hl. apply HP in Hc as [Hc _]. eauto. }
  destruct r as [e|]; cbn; [by eapply ended_error|]. destruct (Hr eq_refl) as [Hall _].
  eapply ended_done, sending_proper; [|exact Hs]. intros t' c. split; [apply Hsub|]. intros (-> & l' & [= <-] & Hc)%Hl. right. split; [done|].
  apply Hall. set_solver.
Qed.

Lemma all_ended order p cs : (forall m, order m ≡ₚ elements m) -> ended (listed p "all") (pinLsAll order "all" p cs).
Proof.
  intros Ho. change (pinLsAll order "all" p cs) with
    (ls_keys (RecursiveKeys p) (MkLs ∅ [] cs) (fun rkeys => ls_step (AddToResultKeys rkeys "recursive" (MkLs ∅ [] cs)) (fun s =>
     ls_keys (DirectKeys p) s (fun dkeys => ls_step (AddToResultKeys dkeys "direct" s) (fun s =>
     ls_keys (walk_pins rkeys ∅) s (fun set => ls_step (AddToResultKeys (order set) "indirect" s) sent)))))).
  destruct (RecursiveKeys p) as [rk|e] eqn:Er; cbn; [|eapply (ended_error _ _ (MkLs ∅ [] cs)); [apply start_sending|done]].
  assert (Hrec : forall c, recursive_pin p c <-> c ∈ rk) by (intros c; unfold recursive_pin; rewrite Er; naive_solver).
  destruct (AddToResultKeys rk "recursive" _) as [r1 s1] eqn:E1. apply (add_keys_sending _ _ _ _ _ _ (start_sending cs)) in E1 as (P1 & S1 & H1 & R1).
  assert (Q1 : forall t c, False \/ t = "recursive" /\ P1 c -> listed p "all" t c).
  { intros t c [[]|[-> Hc]]. left. split_and!; [done|auto|]. apply Hrec. by apply H1. }
  destruct r1 as [e|]; cbn; [by eapply ended_error|]. destruct (R1 eq_refl) as [A1 K1].
  destruct (DirectKeys p) as [dk|e] eqn:Ed; cbn; [|by eapply ended_error].
  assert (Hdir : forall c, direct_pin p c <-> c ∈ dk) by (intros c; unfold direct_pin; rewrite Ed; naive_solver).
  destruct (AddToResultKeys dk "direct" s1) as [r2 s2] eqn:E2. apply (add_keys_sending _ _ _ _ _ _ S1) in E2 as (P2 & S2 & H2 & R2).
  assert (Q2 : forall t c, (False \/ t = "recursive" /\ P1 c) \/ t = "direct" /\ P2 c -> listed p "all" t c).
  { intros t c [Hc|[-> Hc]]; [by apply Q1|]. apply H2 in Hc as [Hd Hn]. rewrite K1 in Hn. right; left. rewrite Hdir, Hrec. split_and!; [done|done|right]. set_solver. }
  destruct r2 as [e|]; cbn; [by eapply ended_error|]. destruct (R2 eq_refl) as [A2 K2].
  eapply indirect_ended; [done|done|done|auto| |exact S2|].
  - intros c. rewrite K2, K1. set_solver.
  - intros t c. split; [intros Hc; split; [by apply Q2|naive_solver]|].
    intros [[(-> & _ & Hc)|[(-> & Hd & [Hn|[_ Hn]])|(-> & _)]] Hne]; [left; right; split; [done|]|done|right; split; [done|]|done].
    + apply A1. rewrite <- Hrec. set_solver.
    + apply A2. rewrite K1, <- Hdir. rewrite Hrec in Hn. set_solver.
Qed.

Lemma indirect_listing_ended order p cs : (forall m, order m ≡ₚ elements m) -> ended (listed p "indirect") (pinLsAll order "indirect" p cs).
Proof.
  intros Ho. change (pinLsAll order "indirect" p cs) with
    (ls_keys (DirectKeys p) (MkLs ∅ [] cs) (fun dkeys => let s := VisitKeys dkeys (MkLs ∅ [] cs) in
     ls_keys (RecursiveKeys p) s (fun rkeys =>
     ls_keys (walk_pins rkeys ∅) (VisitKeys rkeys s) (fun set => ls_step (AddToResultKeys (order set) "indirect" (VisitKeys rkeys s)) sent)))).
  destruct (DirectKeys p) as [dk|e] eqn:Ed; cbn -[AddToResultKeys VisitKeys]; [|eapply (ended_error _ _ (MkLs ∅ [] cs)); [apply start_sending|done]].
  destruct (RecursiveKeys p) as [rk|e] eqn:Er; cbn -[AddToResultKeys VisitKeys]; [|eapply (ended_error _ _ (VisitKeys dk (MkLs ∅ [] cs))); [apply visit_sending, start_sending|done]].
  eapply indirect_ended; [done|done|done|auto| |do 2 apply visit_sending; apply start_sending|].
  - intros c. cbn. set_solver.
  - intros t c. split; [done|]. by intros [[(_ & [Hc|Hc] & _)|[(_ & _ & [Hc|[Hc _]])|(-> & _)]] Hn].
Qed.

(** A listing in which nothing fails sends no error. *)
Lemma ls_no_error order typeStr p rk dk set :
  RecursiveKeys p = Ok rk -> DirectKeys p = Ok dk -> walk_pins rk ∅ = Ok set ->
  Forall (fun x => exists t c, x = PinOf t c) (pinLsAll order typeStr p []).
Proof.
  intros Er Ed Ew. set (pins := Forall (fun x => exists t c, x = PinOf t c)).
  assert (Hstep : forall l t s, cancel s = [] -> pins (sent s) -> exists s', AddToResultKeys l t s = (None, s') /\ cancel s' = [] /\ pins (sent s')).
  { clear. induction l as [|c l IH]; intros t s Hc Hp; cbn; [by eauto|]. case_decide; [by apply IH|]. rewrite Hc. apply IH; [done|]. cbn.
    apply Forall_app. split; [done|]. constructor; eauto. }
  unfold pinLsAll. rewrite Er, Ed. cbn [ls_keys]. rewrite Ew. cbn [ls_keys]. set (s0 := MkLs ∅ [] []).
  assert (H0 : pins (sent s0)) by constructor.
  destruct (Hstep rk "recursive" s0 eq_refl H0) as (s1 & -> & C1 & P1). destruct (Hstep dk "direct" s0 eq_refl H0) as (s1' & -> & _ & P1').
  destruct (Hstep dk "direct" s1 C1 P1) as (s2 & E2 & C2 & P2). destruct (Hstep (order set) "indirect" s2 C2 P2) as (s3 & E3 & _ & P3).
  destruct (Hstep (order set) "indirect" (VisitKeys rk (VisitKeys dk s0)) eq_refl H0) as (s4 & -> & _ & P4).
  cbn [ls_step]. rewrite E2. cbn [ls_step]. rewrite E3. cbn [ls_step]. repeat case_match; first [done|constructor].
Qed.

(** ** Theorems *)

(** C14: a listing of pins is exact.  Whatever fails or is cancelled, every pin it
    sends is one of the type asked for, under its strongest kind, and no CID is
    sent twice; it ends either with one error after them or complete; and it is
    complete when the keys can be listed, the walks succeed and nothing is
    cancelled. *)
Theorem pin_ls_exact order typeStr p cancelled :
  (forall m, order m ≡ₚ elements m) -> valid_type typeStr = true ->
  let out := pinLsAll order typeStr p cancelled in
  NoDup (pin_cids out) /\ (forall t c, PinOf t c ∈ out -> listed p typeStr t c) /\
  ((exists pins e, out = pins ++ [PinErr e] /\ Forall (fun x => exists t c, x = PinOf t c) pins) \/
   (forall t c, listed p typeStr t c <-> PinOf t c ∈ out)) /\
  (forall rk dk set, RecursiveKeys p = Ok rk -> DirectKeys p = Ok dk -> walk_pins rk ∅ = Ok set -> cancelled = [] ->
     forall t c, listed p typeStr t c <-> PinOf t c ∈ out).
Proof.
  intros Ho Hv. cbn zeta. enough (He : ended (listed p typeStr) (pinLsAll order typeStr p cancelled)).
  { destruct He as (A & B & C). split_and!; [done|done|destruct C as [C|[_ C]]; [by left|right; split; auto]|].
    intros rk dk set Er Ed Ew -> t c. split; [|by apply B]. pose proof (ls_no_error order typeStr p rk dk set Er Ed Ew) as Hp.
    destruct C as [(pins & e & E & _)|[_ C]]; [|by apply C]. rewrite E in Hp. apply Forall_app in Hp as [_ Hp].
    apply Forall_inv in Hp as (t' & c' & [=]). }
  unfold valid_type in Hv. apply bool_decide_eq_true in Hv.
  repeat (apply elem_of_cons in Hv as [-> |Hv]); [by apply all_ended| |by apply indirect_listing_ended| |by apply elem_of_nil in Hv].
  - apply (keys_ended (DirectKeys p) "direct"). intros t' c. unfold listed, direct_pin, recursive_pin. naive_solver.
  - apply (keys_ended (RecursiveKeys p) "recursive"). intros t' c. unfold listed, direct_pin, recursive_pin. naive_solver.
Qed.
End Listed.

(** ** Verification is exact *)

Section Verified.
Variable (inspect : string -> result (list string)) (explain : bool) (rank : string -> nat).

Definition child (a b : cid) : Prop := exists ls, inspect a = Ok ls /\ b ∈ ls.
Hypothesis acyclic : forall a b, child a b -> (rank b < rank a)%nat.

(** The plain recursion: the bad nodes below a CID, once for every path to them. *)
Fixpoint broken_below (fuel : nat) (c : cid) : list (cid * error) :=
  match fuel with
  | O => []
  | S fuel => match inspect c with Err e => [(c, e)] | Ok ls => ls ≫= broken_below fuel end
  end.

Definition broken (c : cid) : list (cid * error) := broken_below (S (rank c)) c.
Definition status_of (bad : list (cid * error)) : pinStatus := MkStatus (bool_decide (bad = [])) (if explain then bad else []).

Lemma bind_ext_in {A B} (f g : A -> list B) (l : list A) : (forall x, x ∈ l -> f x = g x) -> l ≫= f = l ≫= g.
Proof. intros E. induction l as [|x l IH]; [done|]. cbn. rewrite E by set_solver. f_equal. apply IH. set_solver. Qed.

Lemma broken_fuel fuel c : (rank c < fuel)%nat -> broken_below fuel c = broken c.
Proof.
  unfold broken. revert c. induction fuel as [fuel IH] using lt_wf_ind; intros c Hc. destruct fuel as [|fuel]; [lia|].
  cbn. destruct (inspect c) as [ls|e] eqn:E; [|done]. apply bind_ext_in. intros d Hd.
  assert (Hr : (rank d < rank c)%nat) by (apply acyclic; exists ls; eauto).
  rewrite (IH fuel) by lia. symmetry. apply IH; lia.
Qed.

Lemma broken_unfold c : broken c = match inspect c with Err e => [(c, e)] | Ok ls => ls ≫= broken end.
Proof.
  unfold broken at 1. cbn. destruct (inspect c) as [ls|e] eqn:E; [|done]. apply bind_ext_in. intros d Hd. apply broken_fuel. apply acyclic.
  exists ls. eauto.
Qed.

Definition memo_ok (m : gmap cid pinStatus) : Prop := map_Forall (fun c st => st = status_of (broken c)) m.

Lemma status_of_app bad c :
  status_of (bad ++ broken c) =
  if st_Ok (status_of (broken c)) then status_of bad else MkStatus false (badNodes (status_of bad) ++ badNodes (status_of (broken c))).
Proof.
  unfold status_of. cbn [st_Ok badNodes]. destruct (decide (broken c = [])) as [Hb|Hb].
  - by rewrite Hb, app_nil_r, (bool_decide_true ([] = [])).
  - rewrite (bool_decide_false (broken c = [])), bool_decide_false; [by destruct explain|by intros [_ E]%app_eq_nil|done].
Qed.

Lemma checkPin_ok fuel c m : (rank c < fuel)%nat -> memo_ok m ->
  exists m', checkPin inspect explain fuel c m = Some (status_of (broken c), m') /\ memo_ok m'.
Proof.
  revert c m. induction fuel as [|fuel IH]; intros c m Hc Hm; [lia|]. cbn [checkPin].
  destruct (m !! c) as [st|] eqn:Em; [exists m; by rewrite (Hm _ _ Em)|].
  rewrite broken_unfold. destruct (inspect c) as [ls|e] eqn:E.
  - assert (Hls : forall l bad m, (forall d, d ∈ l -> (rank d < fuel)%nat) -> memo_ok m ->
      exists m', check_links (checkPin inspect explain fuel) l (status_of bad) m = Some (status_of (bad ++ (l ≫= broken)), m') /\ memo_ok m').
    { induction l as [|d l IHl]; intros bad m0 Hd Hm0; [exists m0; cbn; by rewrite app_nil_r|]. cbn [check_links].
      destruct (IH d m0) as (m1 & -> & Hm1); [apply Hd; set_solver|done|]. rewrite <- status_of_app.
      destruct (IHl (bad ++ broken d) m1) as (m2 & -> & Hm2); [intros x Hx; apply Hd; set_solver|done|]. exists m2. cbn. by rewrite <- (assoc (++)). }
    destruct (Hls ls [] m) as (m' & E' & Hm'); [|done|].
    { intros d Hd. assert ((rank d < rank c)%nat) by (apply acyclic; exists ls; eauto). lia. }
    assert (Est : status_of [] = MkStatus true []) by (unfold status_of; by destruct explain). rewrite Est in E'. rewrite E'. cbn [app].
    eexists. split; [done|]. apply map_Forall_insert_2; [|done]. by rewrite broken_unfold, E.
  - assert (Est : MkStatus false (if explain then [(c, e)] else []) = status_of [(c, e)]) by done. rewrite Est.
    eexists. split; [done|]. apply map_Forall_insert_2; [|done]. by rewrite broken_unfold, E.
Qed.

Lemma check_pins_ok fuel pins m : Forall (fun c => (rank c < fuel)%nat) pins -> memo_ok m ->
  check_pins inspect explain fuel pins m = Some ((fun c => (c, status_of (broken c))) <$> pins).
Proof.
  revert m. induction pins as [|c pins IH]; intros m Hf Hm; [done|]. apply Forall_cons in Hf as [Hc Hf]. cbn.
  destruct (checkPin_ok fuel c m Hc Hm) as (m' & -> & Hm'). by rewrite (IH m').
Qed.

Lemma broken_in c d e : (d, e) ∈ broken c <-> rtc child c d /\ inspect d = Err e.
Proof.
  revert d e. induction (Wf_nat.well_founded_ltof _ rank c) as [c _ IH]. intros d e. rewrite broken_unfold.
  destruct (inspect c) as [ls|e'] eqn:E.
  - rewrite list_elem_of_bind. split.
    + intros (x & Hx & Hin). assert (Hch : child c x) by (exists ls; eauto). apply IH in Hx as [Hr He]; [|by apply acyclic].
      split; [by eapply rtc_l|done].
    + intros [Hr He]. inversion Hr as [|? x ? Hch Hr']; subst; [congruence|]. exists x.
      destruct Hch as (ls' & E' & Hx). assert (ls' = ls) as -> by congruence. split; [|done].
      apply IH; [apply acyclic; by exists ls|done].
  - rewrite list_elem_of_singleton. split; [intros [= -> ->]; split; [constructor|done]|].
    intros [Hr He]. inversion Hr as [|? x ? (ls & E' & _) Hr']; subst; congruence.
Qed.

Lemma broken_nil c : broken c = [] <-> forall d, rtc child c d -> exists ls, inspect d = Ok ls.
Proof.
  split.
  - intros E d Hd. destruct (inspect d) as [ls|e] eqn:Ei; [by eauto|]. assert (Hin : (d, e) ∈ broken c) by (by apply broken_in).
    rewrite E in Hin. by apply elem_of_nil in Hin.
  - intros Hall. destruct (broken c) as [|[d e] l] eqn:E; [done|]. assert (Hin : (d, e) ∈ broken c) by (rewrite E; set_solver).
    apply broken_in in Hin as [Hr He]. destruct (Hall d Hr). congruence.
Qed.
End Verified.

(** ** Theorems *)

Section PinTheorems.
Context `{PinEnv}.

(** C12: [Verify] ends and is exact.  On a store whose links have no cycle (the
    recursion needs no more depth than the height of the DAG), it reports every
    recursive pin once, in order: complete exactly when the links of every block
    below it can be read, and otherwise with exactly the blocks below it that
    cannot be, and why.  Sharing the map of visited CIDs between links and between
    pins changes nothing: each status is the one of the plain recursion. *)
Theorem pin_verify_exact p recPins (rank : string -> nat) fuel :
  RecursiveKeys p = Ok recPins -> (forall a b, child LocalLinks a b -> (rank b < rank a)%nat) ->
  Forall (fun c => (rank c < fuel)%nat) recPins ->
  exists l, Verify fuel p = Some (Ok l) /\ l.*1 = recPins /\
    Forall (fun x => (st_Ok x.2 = true <-> forall d, rtc (child LocalLinks) x.1 d -> exists ls, LocalLinks d = Ok ls) /\
      (forall d e, (d, e) ∈ badNodes x.2 <-> rtc (child LocalLinks) x.1 d /\ LocalLinks d = Err e) /\
      badNodes x.2 = broken LocalLinks rank x.1) l.
Proof.
  intros Er Ha Hf. unfold Verify. rewrite Er, (check_pins_ok _ _ rank Ha) by (done || apply map_Forall_empty). cbn.
  eexists. split_and!; [done| |].
  - rewrite <- list_fmap_compose. apply list_fmap_id.
  - apply Forall_fmap, Forall_true. intros c. cbn. split_and!; [|apply broken_in, Ha|done].
    rewrite <- (broken_nil _ _ Ha). unfold status_of. cbn. by rewrite bool_decide_eq_true.
Qed.

(** what [pin verify] prints: an object is reported as broken exactly when some
    block below it has an invalid CID or cannot be read; complete pins are listed
    only with [--verbose], and reasons are given unless [--quiet] is. *)
Theorem pin_verify_command p recPins (rank : string -> nat) fuel verbose quiet :
  RecursiveKeys p = Ok recPins -> (forall a b, child validated_links a b -> (rank b < rank a)%nat) ->
  Forall (fun c => (rank c < fuel)%nat) recPins -> verbose && quiet = false ->
  exists l, verifyPin_Run fuel verbose quiet p = Some (Ok l) /\
    (forall c st, (c, st) ∈ l <-> c ∈ recPins /\ st = status_of (negb quiet) (broken validated_links rank c) /\
       (verbose = true \/ exists d e, rtc (child validated_links) c d /\ validated_links d = Err e)) /\
    (quiet = true -> Forall (fun x => badNodes x.2 = []) l).
Proof.
  intros Er Ha Hf Hvq. unfold verifyPin_Run, pinVerify. rewrite Hvq, Er, (check_pins_ok _ _ rank Ha) by (done || apply map_Forall_empty).
  cbn [fmap option_fmap option_map]. eexists. split_and!; [done| |].
  - intros c st. rewrite list_elem_of_filter, list_elem_of_fmap. cbn.
    assert (Hok : st = status_of (negb quiet) (broken validated_links rank c) ->
      (negb (st_Ok st) || verbose) <-> (verbose = true \/ exists d e, rtc (child validated_links) c d /\ validated_links d = Err e)).
    { intros ->. unfold status_of. cbn [st_Ok]. destruct verbose; [rewrite orb_true_r; naive_solver|]. rewrite orb_false_r.
      destruct (broken validated_links rank c) as [|[d e] l] eqn:Eb.
      - rewrite bool_decide_true by done. split; [done|]. intros [|(d & e & Hd & He)]; [done|]. assert (Hin : (d, e) ∈ broken validated_links rank c) by (by apply broken_in).
        rewrite Eb in Hin. by apply elem_of_nil in Hin.
      - rewrite (bool_decide_false ((d, e) :: l = [])) by discriminate. split; [intros _; right|intros _; exact I]. exists d, e. apply (broken_in _ rank Ha). rewrite Eb. set_solver. }
    split.
    + intros (Hp & c' & [= -> ->] & Hin). split_and!; [done|done|]. by apply Hok.
    + intros (Hin & -> & Hor). split; [by apply Hok|]. by exists c.
  - intros ->. apply Forall_forall. intros x (_ & Hx)%list_elem_of_filter. apply list_elem_of_fmap in Hx as (c & -> & _). done.
Qed.

(** The three operations that change pins. *)
Inductive pin_op := OpAdd (path : pin_path) (recursive : bool) | OpRm (path : pin_path) (recursive : bool) | OpUpdate (from to : pin_path) (unpin : bool).

Definition run_op (o : pin_op) : api -> option error * api :=
  match o with OpAdd p r => Add p r | OpRm p r => Rm p r | OpUpdate f t u => Update f t u end.

Lemma locked_trace body a r a' : (forall b, exists seg, trace (body b).2 = trace b ++ seg /\ (PinLock ∉ seg) /\ (Unlock ∉ seg) /\
    ((body b).1 = None -> last seg = Some Flushed)) ->
  locked body a = (r, a') -> exists seg, trace a' = trace a ++ PinLock :: seg ++ [Unlock] /\ (PinLock ∉ seg) /\ (Unlock ∉ seg) /\
    (r = None -> last seg = Some Flushed).
Proof.
  intros Hb. unfold locked. destruct (Hb (emit PinLock a)) as (seg & Et & H1 & H2 & H3). destruct (body (emit PinLock a)) as [r0 b]. cbn in *.
  intros [= <- <-]. exists seg. cbn. rewrite Et. split_and!; try done. by rewrite <- !(assoc (++)).
Qed.

(** the pin lock.  An operation on pins that cannot resolve its paths fails and
    calls nothing; every other one takes the pin lock once, makes all its calls
    of the pinner under it and releases it on every path; and one that succeeds
    has flushed the pins last. *)
Theorem pin_lock_discipline o a r a' :
  run_op o a = (r, a') ->
  (a' = a /\ r <> None) \/
  exists seg, trace a' = trace a ++ PinLock :: seg ++ [Unlock] /\ (PinLock ∉ seg) /\ (Unlock ∉ seg) /\ (r = None -> last seg = Some Flushed).
Proof.
  destruct o as [p rec|p rec|f t u]; cbn; unfold Add, Rm, Update; intros E.
  - destruct (ResolveNode p) as [c|e]; [right|left; by simplify_eq]. eapply locked_trace; [|exact E]. intros b. unfold pinner.
    destruct (Pinner_Pin c rec (pinning b)) as [[e|] p1]; cbn; [exists [Pinned c rec]; split_and!; set_solver|].
    destruct (Provide c); cbn; [exists [Pinned c rec; Provided c]; rewrite <- (assoc (++)); split_and!; set_solver|].
    destruct (Pinner_Flush p1) as [r1 p2]; cbn. exists [Pinned c rec; Provided c; Flushed]. rewrite <- !(assoc (++)). split_and!; set_solver.
  - destruct (ResolvePath p) as [c|e]; [right|left; by simplify_eq]. eapply locked_trace; [|exact E]. intros b. unfold pinner.
    destruct (Pinner_Unpin c rec (pinning b)) as [[e|] p1]; cbn; [exists [Unpinned c rec]; split_and!; set_solver|].
    destruct (Pinner_Flush p1) as [r1 p2]; cbn. exists [Unpinned c rec; Flushed]. rewrite <- !(assoc (++)). split_and!; set_solver.
  - destruct (ResolvePath f) as [c|e]; [|left; by simplify_eq]. destruct (ResolvePath t) as [d|e]; [right|left; by simplify_eq].
    eapply locked_trace; [|exact E]. intros b. unfold pinner.
    destruct (Pinner_Update c d u (pinning b)) as [[e|] p1]; cbn; [exists [Updated c d u]; split_and!; set_solver|].
    destruct (Pinner_Flush p1) as [r1 p2]; cbn. exists [Updated c d u; Flushed]. rewrite <- !(assoc (++)). split_and!; set_solver.
Qed.
End PinTheorems.

(** ** Witnesses *)

Module DemoPin.
Definition links (c : string) : list string :=
  if String.eqb c "a" then ["b"; "c"] else if String.eqb c "b" then ["d"] else if String.eqb c "c" then ["d"] else [].
Definition below (c : string) : gset string :=
  if String.eqb c "a" then {[ "b"; "c"; "d" ]} else if String.eqb c "b" then {[ "d" ]} else if String.eqb c "c" then {[ "d" ]} else ∅.
Definition local (c : string) : result (list string) := if String.eqb c "d" then Err "not found" else Ok (links c).
Definition rank (c : string) : nat :=
  if String.eqb c "a" then 2 else if String.eqb c "b" then 1 else if String.eqb c "c" then 1 else 0.

Lemma below_closed c d : d ∈ below c -> Forall (fun x => x ∈ below c) (links d).
Proof.
  unfold below. destruct (String.eqb c "a"); [|destruct (String.eqb c "b"); [|destruct (String.eqb c "c"); [|set_solver]]]; intros Hd.
  - assert (d = "b" \/ d = "c" \/ d = "d") as [-> |[-> | ->]] by set_solver; cbn; repeat constructor; set_solver.
  - assert (d = "d") as -> by set_solver. constructor.
  - assert (d = "d") as -> by set_solver. constructor.
Qed.

Lemma links_below c : Forall (fun x => x ∈ below c) (links c).
Proof. unfold links, below. repeat destruct (String.eqb c _); repeat constructor; set_solver. Qed.

Lemma below_reached c d : d ∈ below c -> tc (fun a b => exists ls, Ok (links a) = Ok ls /\ b ∈ ls) c d.
Proof.
  set (R := fun a b => exists ls, Ok (links a) = Ok ls /\ b ∈ ls).
  assert (HR : forall a b, b ∈ links a -> R a b) by (intros a b Hb; exists (links a); done).
  unfold below. destruct (String.eqb_spec c "a") as [-> |]; [|destruct (String.eqb_spec c "b") as [-> |]; [|destruct (String.eqb_spec c "c") as [-> |]; [|set_solver]]]; intros Hd.
  - assert (d = "b" \/ d = "c" \/ d = "d") as [-> |[-> | ->]] by set_solver; [constructor; apply HR; cbn; set_solver..|].
    apply tc_l with "b"; [|constructor]; apply HR; cbn; set_solver.
  - assert (d = "d") as -> by set_solver. constructor. apply HR. cbn. set_solver.
  - assert (d = "d") as -> by set_solver. constructor. apply HR. cbn. set_solver.
Qed.

Definition env : PinEnv.
Proof.
  refine {| PS := list string; Resolve := fun p => Ok p; GetNode := fun _ => None; StringToMode := fun _ => true;
            Pinner_Pin := fun c _ p => (None, c :: p); Pinner_Unpin := fun c _ p => (None, p); Pinner_Update := fun _ _ _ p => (None, p);
            Pinner_Flush := fun p => (None, p); Provide := fun _ => None; IsPinnedWithType := fun _ _ _ => Ok ("recursive", true);
            RecursiveKeys := fun p => Ok p; DirectKeys := fun _ => Ok ["b"]; ValidateCid := fun _ => None;
            LocalLinks := local; DagLinks := fun c => Ok (links c); Walk := fun c set => Ok (set ∪ below c) |}.
  intros root set set' [= <-]. split_and!; [set_solver| | |].
  - eexists. split; [done|]. eapply Forall_impl; [apply links_below|]. cbn. set_solver.
  - intros c Hc Hn. eexists. split; [done|]. eapply Forall_impl; [apply (below_closed root); set_solver|]. cbn. set_solver.
  - intros c Hc Hn. apply below_reached. set_solver.
Defined.

Lemma acyclic a b : child local a b -> (rank b < rank a)%nat.
Proof.
  intros (ls & E & Hb). unfold local in E. destruct (String.eqb a "d"); [done|]. injection E as <-. unfold links, rank in *.
  destruct (String.eqb a "a"); [|destruct (String.eqb a "b"); [|destruct (String.eqb a "c"); [|set_solver]]].
  - assert (b = "b" \/ b = "c") as [-> | ->] by set_solver; cbn; lia.
  - assert (b = "d") as -> by set_solver. cbn. lia.
  - assert (b = "d") as -> by set_solver. cbn. lia.
Qed.
End DemoPin.

Lemma pin_ls_exact_witness :
  listed (H := DemoPin.env) (["a"] : @PS DemoPin.env) "all" "indirect" "d" /\
  pinLsAll (H := DemoPin.env) elements "all" (["a"] : @PS DemoPin.env) [] = [PinOf "recursive" "a"; PinOf "direct" "b"; PinOf "indirect" "c"; PinOf "indirect" "d"].
Proof.
  assert (E : pinLsAll (H := DemoPin.env) elements "all" (["a"] : @PS DemoPin.env) [] =
    [PinOf "recursive" "a"; PinOf "direct" "b"; PinOf "indirect" "c"; PinOf "indirect" "d"]) by (vm_compute; reflexivity).
  split; [|exact E].
  destruct (pin_ls_exact (H := DemoPin.env) elements "all" (["a"] : @PS DemoPin.env) [] (fun m => Permutation_refl _) eq_refl) as (_ & Hs & _).
  apply Hs. rewrite E. do 3 apply list_elem_of_further. apply list_elem_of_here.
Defined.

Lemma pin_verify_exact_witness : exists l, Verify (H := DemoPin.env) 3 (["b"; "a"] : @PS DemoPin.env) = Some (Ok l) /\ l.*1 = ["b"; "a"] /\
  Forall (fun x => st_Ok x.2 = false) l.
Proof.
  destruct (pin_verify_exact (H := DemoPin.env) (["b"; "a"] : @PS DemoPin.env) ["b"; "a"] DemoPin.rank 3 eq_refl DemoPin.acyclic) as (l & E & E1 & _).
  { repeat constructor. }
  exists l. split; [exact E|]. split; [exact E1|]. vm_compute in E. injection E as <-. repeat constructor.
Defined.

Lemma pin_verify_command_witness : exists l, verifyPin_Run (H := DemoPin.env) 3 false true (["b"; "a"] : @PS DemoPin.env) = Some (Ok l) /\
  Forall (fun x => badNodes x.2 = []) l.
Proof.
  destruct (pin_verify_command (H := DemoPin.env) (["b"; "a"] : @PS DemoPin.env) ["b"; "a"] DemoPin.rank 3 false true eq_refl DemoPin.acyclic) as (l & E & _ & Hq).
  { repeat constructor. }
  { reflexivity. }
  exists l. split; [exact E|]. apply Hq. reflexivity.
Defined.

Lemma pin_lock_discipline_witness : exists seg,
  trace (run_op (H := DemoPin.env) (OpAdd (Named "a") true) (@MkApi DemoPin.env [] [])).2 = PinLock :: seg ++ [Unlock].
Proof.
  destruct (pin_lock_discipline (H := DemoPin.env) (OpAdd (Named "a") true) (@MkApi DemoPin.env [] []) None _ eq_refl) as [[_ Hn]|(seg & E & _)];
    [exfalso; by apply Hn|]. exists seg. exact E.
Defined.
