(* ===== verification/TarFormat.v ===== *)
(** Tar archives as DAGs: [tar/format.go].

    A node of the store is a protobuf node with data and named links, or another
    node.  [ExportTar] returns a reader, [tarReader], that is a small state
    machine over the links still to come, a header, a nested reader, a file and
    the padding; its [Read] is translated case by case.  The content of a file is
    a stream of [GoIO], delivered in arbitrary pieces, whose end is reported with
    the last piece or after it.  [ImportTar] drives the DAG editor; the archive it
    reads is the list of its entries and the error that ends it. *)
From Stdlib Require Import ZArith Lia Strings.Byte Ascii String.
From stdpp Require Import base strings list.
From S2P Require Import Prelude GoIO GoStrings GoPath.

Abbreviation bytes := (list byte).
Abbreviation link := (string * string)%type.

Inductive dag_node := ProtoNode (Data_ : bytes) (Links_ : list link) | OtherNode.

Definition blockSize : nat := 512.
Definition ErrNotProtobuf : error := "expected protobuf dag node".

(** A file being read: the pieces to come, and whether the end of the file is
    reported together with the last piece. *)
Record file := MkFile { pieces : stream; eof_with_data : bool }.

Definition file_Read (f : file) (n : nat) : bytes * option error * file :=
  match GoIO.Read (pieces f) n with
  | (b, None, []) => (b, if eof_with_data f then Some EOF else None, MkFile [] (eof_with_data f))
  | (b, err, r) => (b, err, MkFile r (eof_with_data f))
  end.

Class DagStore := {
  GetNode : string -> result dag_node;
  NewDagReader : dag_node -> result file;
}.

(** ** Export *)

Inductive tarReader := MkTar {
  links : list link;
  childRead : option tarReader;
  hdrBuf : option bytes;
  (** [countReader]: the file and the bytes read from it *)
  fileRead : option (file * nat);
  pad : nat;
}.

Definition new_reader (ls : list link) : tarReader := MkTar ls None None None 0.

(** [bytes.Reader.Read]. *)
Definition bytes_Read (buf : bytes) (n : nat) : bytes * option error * bytes :=
  match buf with [] => ([], Some EOF, []) | _ => (take n buf, None, drop n buf) end.

Definition zeros (n : nat) : bytes := replicate n x00.

Section Exporting.
Context `{DagStore}.

Definition find_link (name : string) (ls : list link) : option string := (fun x => x.2.2) <$> list_find (fun l : link => l.1 = name) ls.

(** [GetLinkedProtoNode]: [Ok None] when there is no such link. *)
Definition GetLinkedProtoNode (ls : list link) (name : string) : result (option dag_node) :=
  match find_link name ls with
  | None => Ok None
  | Some c =>
      match GetNode c with
      | Err e => Err e
      | Ok OtherNode => Err ErrNotProtobuf
      | Ok nd => Ok (Some nd)
      end
  end.

(** The header has priority. *)
Definition read_header (buf : bytes) (n : nat) (tr : tarReader) : bytes * option error * tarReader :=
  match bytes_Read buf n with
  | (b, None, buf) => (b, None, MkTar (links tr) (childRead tr) (Some buf) (fileRead tr) (pad tr))
  | (b, Some _, _) => (b, None, MkTar (links tr) (childRead tr) None (fileRead tr) (pad tr))
  end.

(** The next link is opened, and then its header is read. *)
Definition open_next (next : link) (rest : list link) (p : nat) (n : nat) : bytes * option error * tarReader :=
  match GetNode next.2 with
  | Err e => ([], Some e, MkTar rest None None None p)
  | Ok OtherNode => ([], Some ErrNotProtobuf, MkTar rest None None None p)
  | Ok (ProtoNode data ls) =>
      match GetLinkedProtoNode ls "data" with
      | Err e => ([], Some e, MkTar rest None (Some data) None p)
      | Ok (Some dataNd) =>
          match NewDagReader dataNd with
          | Err e => ([], Some e, MkTar rest None (Some data) None p)
          | Ok f => read_header data n (MkTar rest None (Some data) (Some (f, 0)) p)
          end
      | Ok None =>
          let child := match ls with [] => None | _ => Some (new_reader ls) end in
          read_header data n (MkTar rest child (Some data) None p)
      end
  end.

Fixpoint Read (tr : tarReader) (n : nat) {struct tr} : bytes * option error * tarReader :=
  let '(MkTar ls child hdr f p) := tr in
  match hdr with
  | Some buf => read_header buf n tr
  | None =>
      match child with
      | Some c =>
          match Read c n with
          | (b, Some e, c') =>
              if decide (e = EOF) then (b, None, MkTar ls None None f p) else (b, Some e, MkTar ls (Some c') None f p)
          | (b, None, c') => (b, None, MkTar ls (Some c') None f p)
          end
      | None =>
          match f with
          | Some (fl, cnt) =>
              match file_Read fl n with
              | (b, Some e, fl) =>
                  let nr := (cnt + length b)%nat in
                  if decide (e = EOF) then
                    (b, None, MkTar ls None None None ((blockSize - nr mod blockSize) mod blockSize))
                  else (b, Some e, MkTar ls None None (Some (fl, nr)) p)
              | (b, None, fl) => (b, None, MkTar ls None None (Some (fl, cnt + length b)%nat) p)
              end
          | None =>
              if decide (0 < p)%nat then
                let k := Nat.min n p in (zeros k, None, MkTar ls None None None (p - k))
              else
                match ls with
                | [] => ([], Some EOF, tr)
                | next :: rest => open_next next rest p n
                end
          end
      end
  end.

Definition ExportTar (root : dag_node) : result tarReader :=
  match root with
  | ProtoNode data ls =>
      if decide (data = String.list_byte_of_string "ipfs/tar") then Ok (new_reader ls) else Err "not an IPFS tarchive"
  | OtherNode => Err ErrNotProtobuf
  end.

(** Reading to the end with buffers of the given sizes: what was read and the
    error that ended it, or [None] if more than [k] reads are needed. *)
Fixpoint read_all (k : nat) (sizes : nat -> nat) (tr : tarReader) : option (bytes * error) :=
  match k with
  | O => None
  | S k =>
      match Read tr (sizes k) with
      | (b, Some e, _) => Some (b, e)
      | (b, None, tr) => match read_all k sizes tr with Some (bs, e) => Some (b ++ bs, e) | None => None end
      end
  end.
End Exporting.

(** ** Import *)

Record Header := MkHeader { h_Name : string; h_Size : Z }.

Class Importer := {
  Editor : Type;
  marshalHeader : Header -> result bytes;
  BuildDagFromReader : bytes -> Editor -> result string * Editor;
  ds_Add : dag_node -> Editor -> option error * Editor;
  InsertNodeAtPath : string -> dag_node -> Editor -> option error * Editor;
  Finalize : Editor -> result dag_node * Editor;
}.

(** [path.SplitList(strings.Trim(pth, "/"))], each with a dash before it. *)
Definition escapePath (pth : string) : string :=
  join_with "/" ((fun e => "-" +:+ e) <$> split_on "/"%char (trim_char "/"%char pth)).

Section Importing.
Context `{Importer}.

Definition import_entry (h : Header) (content : bytes) (s : Editor) : option error * Editor :=
  match marshalHeader h with
  | Err e => (Some e, s)
  | Ok headerBytes =>
      let add (ls : list link) (s : Editor) :=
        let header := ProtoNode headerBytes ls in
        match ds_Add header s with
        | (Some e, s) => (Some e, s)
        | (None, s) => InsertNodeAtPath (escapePath (h_Name h)) header s
        end in
      if (0 <? h_Size h)%Z then
        match BuildDagFromReader content s with
        | (Err e, s) => (Some e, s)
        | (Ok nd, s) => add [("data", nd)] s
        end
      else add [] s
  end.

Fixpoint import_loop (entries : list (Header * bytes)) (ending : option error) (s : Editor) : option error * Editor :=
  match entries with
  | [] => (ending, s)
  | (h, content) :: entries =>
      match import_entry h content s with
      | (Some e, s) => (Some e, s)
      | (None, s) => import_loop entries ending s
      end
  end.

(** [ending]: [None] is the end of the archive. *)
Definition ImportTar (entries : list (Header * bytes)) (ending : option error) (s : Editor) : result dag_node * Editor :=
  match import_loop entries ending s with
  | (Some e, s) => (Err e, s)
  | (None, s) => Finalize s
  end.
End Importing.

(** ** What an archive is

    [exports ls out m]: the archive of the links [ls] is [out].  A link to a node
    with a [data] link gives the node's data (the header), the file and zeros up
    to the next block; any other gives the header and the archive of its own
    links.  [m] bounds the number of reads it can take. *)
Definition pad_len (n : nat) : nat := (blockSize - n mod blockSize) mod blockSize.

Fixpoint stream_cost (r : stream) : nat :=
  match r with [] => 0 | Data bs :: r => S (length bs) + stream_cost r | Fail _ :: r => S (stream_cost r) end.

Definition stream_bytes (r : stream) : bytes := r ≫= fun e => match e with Data bs => bs | Fail _ => [] end.

(** A file without failures whose bytes are [bs]. *)
Definition holds (f : file) (bs : bytes) : Prop :=
  Forall (fun e => exists b, e = Data b) (pieces f) /\ stream_bytes (pieces f) = bs.

Section Archive.
Context `{DagStore}.

Inductive exports : list link -> bytes -> nat -> Prop :=
| exports_nil : exports [] [] 0
| exports_file name c rest data ls nd f bs out k :
    GetNode c = Ok (ProtoNode data ls) -> GetLinkedProtoNode ls "data" = Ok (Some nd) -> NewDagReader nd = Ok f -> holds f bs ->
    exports rest out k ->
    exports ((name, c) :: rest) (data ++ bs ++ zeros (pad_len (length bs)) ++ out)
      (2 + length data + S (stream_cost (pieces f)) + pad_len (length bs) + k)
| exports_dir name c rest data ls sub out k1 k2 :
    GetNode c = Ok (ProtoNode data ls) -> GetLinkedProtoNode ls "data" = Ok None -> exports ls sub k1 ->
    exports rest out k2 ->
    exports ((name, c) :: rest) (data ++ sub ++ out) (3 + length data + k1 + k2).

(** What a reader has still to deliver. *)
Definition header_left (hdr : option bytes) (out : bytes) (m : nat) : Prop :=
  match hdr with None => out = [] /\ m = 0 | Some b => out = b /\ m = S (length b) end.

Definition file_left (f : option (file * nat)) (p : nat) (out : bytes) (m : nat) : Prop :=
  match f with
  | None => out = zeros p /\ m = p
  | Some (fl, cnt) =>
      p = 0 /\ exists bs, holds fl bs /\ out = bs ++ zeros (pad_len (cnt + length bs)) /\
        m = S (stream_cost (pieces fl)) + pad_len (cnt + length bs)
  end.

Inductive left_to_read : tarReader -> bytes -> nat -> Prop :=
| left_plain ls hdr f p hb fb lb mh mf ml :
    header_left hdr hb mh -> file_left f p fb mf -> exports ls lb ml ->
    left_to_read (MkTar ls None hdr f p) (hb ++ fb ++ lb) (mh + mf + ml)
| left_child ls c hdr f p hb cb fb lb mh mc mf ml :
    header_left hdr hb mh -> left_to_read c cb mc -> file_left f p fb mf -> exports ls lb ml ->
    left_to_read (MkTar ls (Some c) hdr f p) (hb ++ cb ++ fb ++ lb) (mh + S mc + mf + ml).

Lemma file_Read_step fl bs n cnt : holds fl bs -> (0 < n)%nat ->
  (exists b fl' bs', file_Read fl n = (b, None, fl') /\ bs = b ++ bs' /\ holds fl' bs' /\ (stream_cost (pieces fl') < stream_cost (pieces fl))%nat /\
     (cnt + length b + length bs' = cnt + length bs)%nat) \/
  (exists fl', file_Read fl n = (bs, Some EOF, fl')).
Proof.
  intros [Hd <-] Hn. unfold file_Read. destruct fl as [r ed]. cbn [pieces eof_with_data] in *. destruct r as [|[b|e] r]; [right; by eexists| |].
  2:{ apply Forall_inv in Hd as [? [=]]. }
  apply Forall_cons_1 in Hd as [_ Hd]. cbn [GoIO.Read]. case_decide as Hl.
  - destruct r as [|ev r].
    + unfold stream_bytes. cbn. rewrite app_nil_r. destruct ed; [right; by eexists|]. left. exists b, (MkFile [] false), []. split_and!; cbn; try done; try lia; by rewrite ?app_nil_r.
    + left. exists b, (MkFile (ev :: r) ed), (stream_bytes (ev :: r)). split_and!; [done|done|done|cbn; lia|]. change (stream_bytes (Data b :: ev :: r)) with (b ++ stream_bytes (ev :: r)). rewrite length_app. lia.
  - left. exists (take n b), (MkFile (Data (drop n b) :: r) ed), (drop n b ++ stream_bytes r). split_and!; [done| | |cbn; rewrite length_drop; lia|].
    + change (stream_bytes (Data b :: r)) with (b ++ stream_bytes r). by rewrite (assoc (++)), take_drop.
    + split; [constructor; eauto|done].
    + change (stream_bytes (Data b :: r)) with (b ++ stream_bytes r). rewrite !length_app, length_take, length_drop. lia.
Qed.

Lemma read_header_step buf n tr : (0 < n)%nat -> exists b hdr',
  read_header buf n tr = (b, None, MkTar (links tr) (childRead tr) hdr' (fileRead tr) (pad tr)) /\
  exists hb' m', header_left hdr' hb' m' /\ buf = b ++ hb' /\ (m' < S (length buf))%nat.
Proof.
  intros Hn. unfold read_header, bytes_Read. destruct buf as [|x buf].
  - exists [], None. split; [done|]. exists [], 0. cbn. split_and!; auto; lia.
  - exists (take n (x :: buf)), (Some (drop n (x :: buf))). split; [done|]. exists (drop n (x :: buf)), (S (length (drop n (x :: buf)))).
    split_and!; [done|by rewrite take_drop|]. rewrite length_drop. cbn. lia.
Qed.

Lemma open_next_step name c rest n out m : exports ((name, c) :: rest) out m -> (0 < n)%nat ->
  exists b out' tr' m', open_next (name, c) rest 0 n = (b, None, tr') /\ out = b ++ out' /\ left_to_read tr' out' m' /\ (m' < m)%nat.
Proof.
  intros He Hn. unfold open_next. inversion He as [|? ? ? data ls nd f bs out1 k Eg El Ef Hh Hr|? ? ? data ls sub out1 k1 k2 Eg El Hs Hr]; subst; cbn [snd]; rewrite Eg, El.
  - rewrite Ef. destruct (read_header_step data n (MkTar rest None (Some data) (Some (f, 0)) 0) Hn) as (b & hdr & -> & hb & m' & Hl & E & Hm). cbn [links childRead fileRead pad].
    exists b, (hb ++ (bs ++ zeros (pad_len (length bs))) ++ out1), (MkTar rest None hdr (Some (f, 0)) 0), (m' + (S (stream_cost (pieces f)) + pad_len (length bs)) + k)%nat.
    split_and!; [done|rewrite E; by rewrite <- !(assoc (++))|constructor; [done| |done]|lia]. split; [done|]. by exists bs.
  - set (child := match ls with [] => None | _ => Some (new_reader ls) end).
    destruct (read_header_step data n (MkTar rest child (Some data) None 0) Hn) as (b & hdr & -> & hb & m' & Hl & E & Hm). cbn [links childRead fileRead pad].
    destruct ls as [|l ls].
    + inversion Hs; subst. exists b, (hb ++ [] ++ out1), (MkTar rest None hdr None 0), (m' + 0 + k2)%nat.
      split_and!; [done|by rewrite <- (assoc (++))|by constructor|lia].
    + exists b, (hb ++ sub ++ [] ++ out1), (MkTar rest child hdr None 0), (m' + S (0 + 0 + k1) + 0 + k2)%nat.
      split_and!; [done|rewrite E; by rewrite <- (assoc (++))| |lia]. constructor; [done| |done|done].
      apply (left_plain (l :: ls) None None 0 [] [] sub 0 0 k1); done.
Qed.

Lemma Read_step tr out m n : left_to_read tr out m -> (0 < n)%nat ->
  (out = [] /\ Read tr n = ([], Some EOF, tr)) \/
  exists b out' tr' m', Read tr n = (b, None, tr') /\ out = b ++ out' /\ left_to_read tr' out' m' /\ (m' < m)%nat.
Proof.
  intros Hl Hn. induction Hl as [ls hdr f p hb fb lb mh mf ml Hh Hf Hx|ls c hdr f p hb cb fb lb mh mc mf ml Hh Hc IH Hf Hx].
  - destruct hdr as [buf|].
    { right. destruct Hh as [-> ->]. cbn [Read]. destruct (read_header_step buf n (MkTar ls None (Some buf) f p) Hn) as (b & hdr & -> & hb & m' & Hl & E & Hm).
      exists b, (hb ++ fb ++ lb), (MkTar ls None hdr f p), (m' + mf + ml)%nat. split_and!; [done|rewrite E; by rewrite <- (assoc (++))|by constructor|lia]. }
    destruct Hh as [-> ->]. cbn [Read]. destruct f as [[fl cnt]|].
    { right. destruct Hf as (-> & bs & Hh & -> & ->). destruct (file_Read_step fl bs n cnt Hh Hn) as [(b & fl' & bs' & -> & -> & Hh' & Hcost & Hlen)|(fl' & ->)].
      - exists b, ([] ++ (bs' ++ zeros (pad_len (cnt + length (b ++ bs')))) ++ lb), (MkTar ls None None (Some (fl', cnt + length b)%nat) 0), (0 + (S (stream_cost (pieces fl')) + pad_len (cnt + length (b ++ bs'))) + ml)%nat.
        split_and!; [done|cbn; by rewrite <- !(assoc (++))| |lia]. constructor; [done| |done]. split; [done|]. exists bs'. rewrite Hlen. done.
      - rewrite decide_True by done. exists bs, ([] ++ zeros (pad_len (cnt + length bs)) ++ lb), (MkTar ls None None None (pad_len (cnt + length bs))), (0 + pad_len (cnt + length bs) + ml)%nat.
        split_and!; [done|cbn; by rewrite <- !(assoc (++))|by constructor|lia]. }
    destruct Hf as [-> ->]. destruct (decide (0 < p)%nat) as [Hp|Hp].
    { right. exists (zeros (Nat.min n p)), ([] ++ zeros (p - Nat.min n p) ++ lb), (MkTar ls None None None (p - Nat.min n p)), (0 + (p - Nat.min n p) + ml)%nat.
      split_and!; [done| |by constructor|lia]. cbn. rewrite (assoc (++)). f_equal. unfold zeros. rewrite <- replicate_add. f_equal. lia. }
    assert (p = 0) as -> by lia. destruct ls as [|[name c] rest]; [left; by inversion Hx|right]. by apply open_next_step.
  - right. destruct hdr as [buf|].
    { destruct Hh as [-> ->]. cbn [Read]. destruct (read_header_step buf n (MkTar ls (Some c) (Some buf) f p) Hn) as (b & hdr & -> & hb & m' & Hl & E & Hm).
      exists b, (hb ++ cb ++ fb ++ lb), (MkTar ls (Some c) hdr f p), (m' + S mc + mf + ml)%nat. split_and!; [done|rewrite E; by rewrite <- (assoc (++))|by constructor|lia]. }
    destruct Hh as [-> ->]. cbn [Read]. destruct IH as [[-> ->]|(b & out' & c' & m' & -> & -> & Hc' & Hm)].
    + rewrite decide_True by done. exists [], ([] ++ fb ++ lb), (MkTar ls None None f p), (0 + mf + ml)%nat. split_and!; [done|done|by constructor|lia].
    + exists b, ([] ++ out' ++ fb ++ lb), (MkTar ls (Some c') None f p), (0 + S m' + mf + ml)%nat.
      split_and!; [done|cbn; by rewrite <- !(assoc (++))|by constructor|lia].
Qed.

Lemma read_all_exact k sizes tr out m : left_to_read tr out m -> (m < k)%nat -> (forall i, (0 < sizes i)%nat) -> read_all k sizes tr = Some (out, EOF).
Proof.
  revert tr out m. induction k as [|k IH]; intros tr out m Hl Hm Hs; [lia|]. cbn [read_all].
  destruct (Read_step tr out m (sizes k) Hl (Hs k)) as [[-> ->]|(b & out' & tr' & m' & -> & -> & Hl' & Hm')]; [done|].
  by rewrite (IH tr' out' m') by (done || lia).
Qed.

(** ** Theorems *)

(** C15: the exported reader refines the archive.  Whatever the sizes of the
    buffers and however the files deliver their content, reading an exported
    archive to its end takes a bounded number of reads, reports no error but the
    end, and gives exactly the archive of the links: headers, files padded to
    whole blocks and nested entries in order.  When every header is whole blocks,
    so is the archive. *)
Theorem tar_export_exact ls out m :
  exports ls out m ->
  (exists tr, ExportTar (ProtoNode (String.list_byte_of_string "ipfs/tar") ls) = Ok tr /\
     forall k sizes, (m < k)%nat -> (forall i, (0 < sizes i)%nat) -> read_all k sizes tr = Some (out, EOF)) /\
  ((forall c data ls', GetNode c = Ok (ProtoNode data ls') -> (length data mod blockSize = 0)%nat) -> (length out mod blockSize = 0)%nat).
Proof.
  intros He. split.
  - exists (new_reader ls). unfold ExportTar. rewrite decide_True by done. split; [done|]. intros k sizes Hk Hs.
    apply (read_all_exact _ _ _ ([] ++ [] ++ out) (0 + 0 + m)); [by constructor|done|done].
  - intros Hb. assert (Hsum : forall a b, (a mod blockSize = 0 -> b mod blockSize = 0 -> (a + b) mod blockSize = 0)%nat).
    { intros a b Ha Hb'. rewrite Nat.Div0.add_mod, Ha, Hb'. done. }
    assert (Hpad : forall n, ((n + pad_len n) mod blockSize = 0)%nat).
    { intros n. unfold pad_len, blockSize. pose proof (Nat.div_mod_eq n 512). pose proof (Nat.mod_upper_bound n 512 ltac:(done)).
      destruct (decide (n mod 512 = 0)) as [E|E]; [by rewrite E, Nat.sub_0_r, Nat.Div0.mod_same, Nat.add_0_r|]. rewrite (Nat.mod_small (512 - n mod 512)) by lia.
      replace (n + (512 - n mod 512)) with ((n / 512 + 1) * 512) by lia. apply Nat.Div0.mod_mul. }
    induction He as [|? ? ? data ls nd f bs out k Eg El Ef Hh Hr IH|? ? ? data ls sub out k1 k2 Eg El Hs IHs Hr IH]; [done| |].
    + rewrite !length_app. apply Hsum; [by eapply Hb|]. rewrite Nat.add_assoc. apply Hsum; [|done]. unfold zeros. rewrite length_replicate. apply Hpad.
    + rewrite !length_app. apply Hsum; [by eapply Hb|]. by apply Hsum.
Qed.
End Archive.

(** the names of an archive never clash with the [data] links of the format:
    the elements of an escaped path are the elements of the path with a dash, none
    of them is [data], and two paths are escaped alike only if they are equal but
    for slashes at their ends. *)
Theorem tar_escape_injective p q :
  split_on "/"%char (escapePath p) = (fun e => "-" +:+ e) <$> split_on "/"%char (trim_char "/"%char p) /\
  ("data" ∉ split_on "/"%char (escapePath p)) /\
  (escapePath p = escapePath q <-> trim_char "/"%char p = trim_char "/"%char q).
Proof.
  assert (Hs : forall p, split_on "/"%char (escapePath p) = (fun e => "-" +:+ e) <$> split_on "/"%char (trim_char "/"%char p)).
  { intros p'. unfold escapePath. apply (split_join_with "/"%char).
    - intros E. apply fmap_nil_inv in E. by apply split_on_nonempty in E.
    - apply Forall_fmap. eapply Forall_impl; [apply split_on_pieces|]. intros x Hx. cbn. change ("-" +:+ x) with (String "-" x).
      cbn [split_on]. rewrite Hx. done. }
  split_and!; [apply Hs| |].
  - rewrite Hs. intros (e & E & _)%list_elem_of_fmap. done.
  - split; [|unfold escapePath; by intros ->]. intros E. apply (f_equal (split_on "/"%char)) in E. rewrite !Hs in E.
    assert (Hinj : Inj (=) (=) (fun e => "-" +:+ e)) by (intros x y E0; change (String "-" x = String "-" y) in E0; by injection E0). apply (list_fmap_eq_inj _ Hinj) in E.
    by rewrite <- (join_split "/"%char (trim_char _ p)), E, join_split.
Qed.

(** ** Witnesses *)

Module DemoTar.
(** A file and a directory with an empty file in it; headers of one byte. *)
Definition get (c : string) : result dag_node :=
  if String.eqb c "f" then Ok (ProtoNode [x41] [("data", "fd")])
  else if String.eqb c "fd" then Ok (ProtoNode [x42; x43; x44] [])
  else if String.eqb c "d" then Ok (ProtoNode [x45] [("-x", "x")])
  else if String.eqb c "x" then Ok (ProtoNode [x46] [])
  else Err "not found".

Definition store : DagStore := {|
  GetNode := get;
  NewDagReader := fun nd => match nd with ProtoNode d _ => Ok (MkFile [Data (take 1 d); Data []; Data (drop 1 d)] true) | OtherNode => Err "no" end |}.

Definition root : list link := [("-f", "f"); ("-d", "d")].
Definition archive : bytes := [x41; x42; x43; x44] ++ zeros 509 ++ [x45; x46].
End DemoTar.

Lemma tar_export_exact_witness : exists tr, ExportTar (ProtoNode (String.list_byte_of_string "ipfs/tar") DemoTar.root) = Ok tr /\
  read_all (H := DemoTar.store) 600 (fun _ => 2) tr = Some (DemoTar.archive, EOF).
Proof.
  assert (He : exports (H := DemoTar.store) DemoTar.root
    ([x41] ++ [x42; x43; x44] ++ zeros (pad_len 3) ++ [x45] ++ ([x46] ++ [] ++ []) ++ [])
    (2 + 1 + 7 + pad_len 3 + (3 + 1 + (3 + 1 + 0 + 0) + 0))).
  { eapply (exports_file (H := DemoTar.store) "-f" "f" _ [x41] _ (ProtoNode [x42; x43; x44] []) (MkFile [Data [x42]; Data []; Data [x43; x44]] true) [x42; x43; x44]);
      [reflexivity|reflexivity|reflexivity|split; [repeat constructor; eauto|reflexivity]|].
    eapply (exports_dir (H := DemoTar.store) "-d" "d"); [reflexivity|reflexivity| |apply exports_nil].
    eapply (exports_dir (H := DemoTar.store) "-x" "x"); [reflexivity|reflexivity|apply exports_nil|apply exports_nil]. }
  destruct (tar_export_exact (H := DemoTar.store) _ _ _ He) as [(tr & E & Hr) _]. exists tr. split; [exact E|].
  apply Hr; [apply (bool_decide_eq_true_1 _); vm_compute; reflexivity|intros _; lia].
Defined.
