(* ===== verification/Rcmgr.v ===== *)
(** Limits of the network resource manager: [core/node/libp2p/rcmgr.go] and
    [rcmgr_defaults.go], with the commands [swarm limit] and [swarm stats].

    libp2p's resource manager is the class [ResourceManager]: scopes are viewed by
    their identity and may or may not have a limit that can be read and set (the
    null manager's have not).  The configuration is the one of [FsRepo], edited in
    place: the pointer the repository hands out is its own.  [NetLimit] returns the
    variable its callback fills together with the callback's error; the value
    after the call is taken, as the compiler does. *)
From Stdlib Require Import ZArith Lia String.
From stdpp Require Import base list strings gmap.
From S2P Require Import Prelude GoStrings ConfigTypes ConfigMap Datastores FsRepo.

Local Open Scope Z_scope.

Definition ResourceMgrSystemScope : string := "system".
Definition ResourceMgrTransientScope : string := "transient".
Definition ResourceMgrServiceScopePrefix : string := "svc:".
Definition ResourceMgrProtocolScopePrefix : string := "proto:".
Definition ResourceMgrPeerScopePrefix : string := "peer:".

Definition ErrNoResourceMgr : error := "missing ResourceMgr: make sure the daemon is running with Swarm.ResourceMgr.Enabled".

Record BaseLimit := MkBase {
  Streams : Z; StreamsInbound : Z; StreamsOutbound : Z; Conns : Z; ConnsInbound : Z; ConnsOutbound : Z; FD : Z; Memory : Z }.

Record ScopeStat := MkStat {
  NumStreamsInbound : Z; NumStreamsOutbound : Z; NumConnsInbound : Z; NumConnsOutbound : Z; NumFD : Z; stat_Memory : Z }.

(** The scopes that can be named. *)
Inductive scope_id := System | Transient | Service (name : string) | Protocol (id : string) | Peer (id : string).
#[export] Instance scope_id_eq_dec : EqDecision scope_id.
Proof. solve_decision. Defined.

#[export] Instance scope_result_eq_dec : EqDecision (result scope_id).
Proof. solve_decision. Defined.

(** [rcmgr.LimitConfig], as far as it is read or written here. *)
Record LimitConfig := MkLimits {
  lim_System : BaseLimit; lim_Transient : BaseLimit;
  ServiceDefault : BaseLimit; lim_Service : gmap string BaseLimit;
  ProtocolDefault : BaseLimit; lim_Protocol : gmap string BaseLimit;
  PeerDefault : BaseLimit; lim_Peer : gmap string BaseLimit }.

Definition zero_limit : BaseLimit := MkBase 0 0 0 0 0 0 0 0.
Definition empty_limits : LimitConfig := MkLimits zero_limit zero_limit zero_limit ∅ zero_limit ∅ zero_limit ∅.

(** ** Defaults *)

Definition MaxInt : Z := 2 ^ 63 - 1.
Definition bigEnough : Z := MaxInt / 2.
Definition infiniteBaseLimit : BaseLimit :=
  MkBase bigEnough bigEnough bigEnough bigEnough bigEnough bigEnough bigEnough bigEnough.

(** What a scope's limit is when it is looked at. *)
Inductive scope_view := BaseLimited (l : BaseLimit) | OtherLimit (type : string) | NotLimiter.

Record Stats := MkStats {
  st_System : ScopeStat; st_Transient : ScopeStat;
  st_Services : gmap string ScopeStat; st_Protocols : gmap string ScopeStat; st_Peers : gmap string ScopeStat }.

Class ResourceManager := {
  Mgr : Type;
  Frac : Type;                                     (** float64 *)
  frac0 : Frac;
  (** viewing a scope may fail, and may create it *)
  View : scope_id -> Mgr -> result scope_view * Mgr;
  SetLimit : scope_id -> BaseLimit -> Mgr -> Mgr;
  has_state : Mgr -> bool;                         (** [rcmgr.ResourceManagerState] *)
  Stat : Mgr -> Stats;
  ScopeStat_of : scope_id -> Mgr -> result ScopeStat * Mgr;
  ListServices : Mgr -> list string;
  ListProtocols : Mgr -> list string;
  ListPeers : Mgr -> list string;
  peer_Decode : string -> result string;
  TotalMemory : Z;
  humanize_Bytes : Z -> string;
  humanize_ParseBytes : string -> result Z;
  GetNumFDs : Z;
  (** looking at a scope changes no limit, and setting one changes only it *)
  View_View i j m : (View i (View j m).2).1 = (View i m).1;
  View_SetLimit i l m m' v : View i m = (Ok v, m') -> v <> NotLimiter -> (View i (SetLimit i l m')).1 = Ok (BaseLimited l);
  View_SetLimit_ne i j l m : i <> j -> (View i (SetLimit j l m)).1 = (View i m).1;
}.

Record BaseLimitIncrease `{ResourceManager} := MkIncrease {
  inc_Conns : Z; inc_ConnsInbound : Z; inc_ConnsOutbound : Z; inc_Streams : Z; inc_StreamsInbound : Z; inc_StreamsOutbound : Z;
  inc_Memory : Z; FDFraction : Frac }.

Record ScalingLimitConfig `{ResourceManager} := MkScaling {
  SystemBaseLimit : BaseLimit; SystemLimitIncrease : BaseLimitIncrease;
  TransientBaseLimit : BaseLimit; TransientLimitIncrease : BaseLimitIncrease;
  AllowlistedSystemBaseLimit : BaseLimit; AllowlistedSystemLimitIncrease : BaseLimitIncrease;
  AllowlistedTransientBaseLimit : BaseLimit; AllowlistedTransientLimitIncrease : BaseLimitIncrease;
  ServiceBaseLimit : BaseLimit; ServiceLimitIncrease : BaseLimitIncrease;
  ServicePeerBaseLimit : BaseLimit; ServicePeerLimitIncrease : BaseLimitIncrease;
  ProtocolBaseLimit : BaseLimit; ProtocolLimitIncrease : BaseLimitIncrease;
  ProtocolPeerBaseLimit : BaseLimit; ProtocolPeerLimitIncrease : BaseLimitIncrease;
  ConnBaseLimit : BaseLimit; ConnLimitIncrease : BaseLimitIncrease;
  StreamBaseLimit : BaseLimit; StreamLimitIncrease : BaseLimitIncrease;
  PeerBaseLimit : BaseLimit; PeerLimitIncrease : BaseLimitIncrease }.

(** libp2p's own default limits and the scaling of limits. *)
Class Scaling `{ResourceManager} := {
  DefaultLimits : ScalingLimitConfig;
  SetDefaultServiceLimits : ScalingLimitConfig -> ScalingLimitConfig;
  Scale : ScalingLimitConfig -> Z -> Z -> LimitConfig;
}.

(** The part of the configuration that is used: [Swarm.ResourceMgr]. *)
Class ResourceMgrFields `{RepoEnv'} := {
  Limits : Config -> option LimitConfig;
  set_Limits : LimitConfig -> Config -> Config;
  MaxMemory : Config -> option OptionalString;
  MaxFileDescriptors : Config -> option OptionalInteger;
  Limits_set l c : Limits (set_Limits l c) = Some l;
}.

Section Rcmgr.
Context `{RepoEnv', !ResourceMgrFields, ResourceManager, !Scaling}.

Definition noLimitIncrease : BaseLimitIncrease := MkIncrease _ 0 0 0 0 0 0 0 frac0.

(** The limits before they are scaled. *)
Definition scaling_limits (maxMemory numFD : Z) : ScalingLimitConfig :=
  let d := DefaultLimits in
  MkScaling _
    (MkBase bigEnough (StreamsInbound (SystemBaseLimit d)) bigEnough bigEnough (ConnsInbound (SystemBaseLimit d)) bigEnough numFD (i64 maxMemory))
    (MkIncrease _ 0 (inc_ConnsInbound (SystemLimitIncrease d)) 0 0 (inc_StreamsInbound (SystemLimitIncrease d)) 0
       (inc_Memory (SystemLimitIncrease d)) (FDFraction (SystemLimitIncrease d)))
    (MkBase bigEnough (StreamsInbound (TransientBaseLimit d)) bigEnough bigEnough (ConnsInbound (TransientBaseLimit d)) bigEnough
       (FD (TransientBaseLimit d)) (Memory (TransientBaseLimit d)))
    (MkIncrease _ 0 (inc_ConnsInbound (TransientLimitIncrease d)) 0 0 (inc_StreamsInbound (TransientLimitIncrease d)) 0
       (inc_Memory (TransientLimitIncrease d)) (FDFraction (TransientLimitIncrease d)))
    infiniteBaseLimit noLimitIncrease infiniteBaseLimit noLimitIncrease
    infiniteBaseLimit noLimitIncrease infiniteBaseLimit noLimitIncrease infiniteBaseLimit noLimitIncrease
    infiniteBaseLimit noLimitIncrease infiniteBaseLimit noLimitIncrease infiniteBaseLimit noLimitIncrease
    (MkBase bigEnough (StreamsInbound (PeerBaseLimit d)) bigEnough bigEnough (ConnsInbound (PeerBaseLimit d)) bigEnough bigEnough bigEnough)
    (MkIncrease _ 0 (inc_ConnsInbound (PeerLimitIncrease d)) 0 0 (inc_StreamsInbound (PeerLimitIncrease d)) 0 0 frac0).

Definition createDefaultLimitConfig (cfg : Config) : result LimitConfig :=
  let maxMemoryDefaultString := humanize_Bytes (TotalMemory / 8) in
  match humanize_ParseBytes (OptionalString_WithDefault (MaxMemory cfg) maxMemoryDefaultString) with
  | Err e => Err e
  | Ok maxMemory =>
      let numFD := OptionalInteger_WithDefault (MaxFileDescriptors cfg) (Z.quot GetNumFDs 2) in
      Ok (Scale (SetDefaultServiceLimits (scaling_limits maxMemory numFD)) (i64 maxMemory) numFD)
  end.

(** [ResourceManager]: the environment overrides the configuration; addresses of
    the allow list that do not parse are skipped. *)
Definition rcmgr_enabled (Enabled : Z) (LIBP2P_RCMGR : string) : outcome bool :=
  match Flag_WithDefault Enabled true with
  | Panic e => Panic e
  | Ret enabled =>
      Ret (if bool_decide (LIBP2P_RCMGR ∈ ["0"; "false"]) then false
           else if bool_decide (LIBP2P_RCMGR ∈ ["1"; "true"]) then true else enabled)
  end.

Definition rcmgr_allowlist {A} (NewMultiaddr : string -> result A) (Allowlist : list string) : list A :=
  omap (fun s => match NewMultiaddr s with Ok a => Some a | Err _ => None end) Allowlist.

(** ** Naming a scope *)

Definition scope_of (scope : string) : result scope_id :=
  if String.eqb scope ResourceMgrSystemScope then Ok System
  else if String.eqb scope ResourceMgrTransientScope then Ok Transient
  else if HasPrefix scope ResourceMgrServiceScopePrefix then Ok (Service (TrimPrefix scope ResourceMgrServiceScopePrefix))
  else if HasPrefix scope ResourceMgrProtocolScopePrefix then Ok (Protocol (TrimPrefix scope ResourceMgrProtocolScopePrefix))
  else if HasPrefix scope ResourceMgrPeerScopePrefix then
    let p := TrimPrefix scope ResourceMgrPeerScopePrefix in
    match peer_Decode p with
    | Err e => Err ("invalid peer ID: " +:+ quoted p +:+ ": " +:+ e)
    | Ok pid => Ok (Peer pid)
    end
  else Err ("invalid scope " +:+ quoted scope).

(** ** Reading limits *)

Definition NetLimit (scope : string) (m : Mgr) : result BaseLimit * Mgr :=
  match scope_of scope with
  | Err e => (Err e, m)
  | Ok id =>
      match View id m with
      | (Err e, m) => (Err e, m)
      | (Ok NotLimiter, m) => (Err ErrNoResourceMgr, m)
      | (Ok (OtherLimit t), m) => (Err ("unknown limit type " +:+ t), m)
      | (Ok (BaseLimited l), m) => (Ok l, m)
      end
  end.

Record NetStatOut := MkOut {
  out_System : option BaseLimit; out_Transient : option BaseLimit;
  Services : gmap string BaseLimit; Protocols : gmap string BaseLimit; Peers : gmap string BaseLimit }.

Definition no_out : NetStatOut := MkOut None None ∅ ∅ ∅.

(** One map of limits: the limits of the scopes [prefix ++ name]. *)
Fixpoint limits_of (prefix : string) (names : list string) (acc : gmap string BaseLimit) (m : Mgr) : result (gmap string BaseLimit) * Mgr :=
  match names with
  | [] => (Ok acc, m)
  | n :: names =>
      match NetLimit (prefix +:+ n) m with
      | (Err e, m) => (Err e, m)
      | (Ok l, m) => limits_of prefix names (<[n := l]> acc) m
      end
  end.

Definition NetLimitAll (m : Mgr) : result NetStatOut * Mgr :=
  if negb (has_state m) then (Err ErrNoResourceMgr, m)
  else
    match NetLimit ResourceMgrSystemScope m with
    | (Err e, m) => (Err e, m)
    | (Ok sys, m) =>
        match NetLimit ResourceMgrSystemScope m with
        | (Err e, m) => (Err e, m)
        | (Ok trans, m) =>
            match limits_of ResourceMgrServiceScopePrefix (ListServices m) ∅ m with
            | (Err e, m) => (Err e, m)
            | (Ok svcs, m) =>
                match limits_of ResourceMgrProtocolScopePrefix (ListProtocols m) ∅ m with
                | (Err e, m) => (Err e, m)
                | (Ok protos, m) =>
                    match limits_of ResourceMgrPeerScopePrefix (ListPeers m) ∅ m with
                    | (Err e, m) => (Err e, m)
                    | (Ok peers, m) => (Ok (MkOut (Some sys) (Some trans) svcs protos peers), m)
                    end
                end
            end
        end
    end.

(** ** Usage *)

Definition scopeToLimit (s : ScopeStat) : BaseLimit :=
  MkBase (i64 (NumStreamsInbound s + NumStreamsOutbound s)) (NumStreamsInbound s) (NumStreamsOutbound s)
    (i64 (NumConnsInbound s + NumConnsOutbound s)) (NumConnsInbound s) (NumConnsOutbound s) (NumFD s) (stat_Memory s).

Definition abovePercentage (v1 v2 percentage : Z) : bool :=
  if percentage =? 0 then true
  else if v2 =? 0 then false
  else percentage <=? i64 (i64 (Z.quot v1 v2) * 100).

Definition compareLimits (stat : BaseLimit) (limit : option BaseLimit) (percentage : Z) : option BaseLimit :=
  match limit with
  | None => None
  | Some limit =>
      if abovePercentage (Memory stat) (Memory limit) percentage then Some stat
      else if abovePercentage (ConnsInbound stat) (ConnsInbound limit) percentage then Some stat
      else if abovePercentage (ConnsOutbound stat) (ConnsOutbound limit) percentage then Some stat
      else if abovePercentage (Conns stat) (Conns limit) percentage then Some stat
      else if abovePercentage (FD stat) (FD limit) percentage then Some stat
      else if abovePercentage (StreamsInbound stat) (StreamsInbound limit) percentage then Some stat
      else if abovePercentage (StreamsOutbound stat) (StreamsOutbound limit) percentage then Some stat
      else if abovePercentage (Streams stat) (Streams limit) percentage then Some stat
      else None
  end.

(** A limit that is not listed is the zero limit. *)
Definition compare_all (stats : gmap string ScopeStat) (limits : gmap string BaseLimit) (percentage : Z) : gmap string BaseLimit :=
  map_imap (fun name s => compareLimits (scopeToLimit s) (Some (default zero_limit (limits !! name))) percentage) stats.

Definition NetStat (scope : string) (percentage : Z) (m : Mgr) : result NetStatOut * Mgr :=
  if String.eqb scope "all" then
    if negb (has_state m) then (Err ErrNoResourceMgr, m)
    else
      match NetLimitAll m with
      | (Err e, m) => (Err e, m)
      | (Ok limits, m) =>
          let stat := Stat m in
          (Ok (MkOut (compareLimits (scopeToLimit (st_System stat)) (out_System limits) percentage)
                     (compareLimits (scopeToLimit (st_Transient stat)) (out_Transient limits) percentage)
                     (compare_all (st_Services stat) (Services limits) percentage)
                     (compare_all (st_Protocols stat) (Protocols limits) percentage)
                     (compare_all (st_Peers stat) (Peers limits) percentage)), m)
      end
  else
    match scope_of scope with
    | Err e => (Err e, m)
    | Ok id =>
        match ScopeStat_of id m with
        | (Err e, m) => (Err e, m)
        | (Ok st, m) =>
            let l := scopeToLimit st in
            (Ok (match id with
                 | System => MkOut (Some l) None ∅ ∅ ∅
                 | Transient => MkOut None (Some l) ∅ ∅ ∅
                 | Service svc => MkOut None None {[ svc := l ]} ∅ ∅
                 | Protocol proto => MkOut None None ∅ {[ proto := l ]} ∅
                 | Peer _ => MkOut None None ∅ ∅ {[ TrimPrefix scope ResourceMgrPeerScopePrefix := l ]}
                 end), m)
        end
    end.

(** ** Setting limits *)

Definition set_scope_limit (id : scope_id) (l : BaseLimit) (c : LimitConfig) : LimitConfig :=
  let '(MkLimits sy tr sd sv pd pr ed pe) := c in
  match id with
  | System => MkLimits l tr sd sv pd pr ed pe
  | Transient => MkLimits sy l sd sv pd pr ed pe
  | Service s => MkLimits sy tr sd (<[s := l]> sv) pd pr ed pe
  | Protocol s => MkLimits sy tr sd sv pd (<[s := l]> pr) ed pe
  | Peer s => MkLimits sy tr sd sv pd pr ed (<[s := l]> pe)
  end.

Definition scope_limit (id : scope_id) (c : LimitConfig) : option BaseLimit :=
  match id with
  | System => Some (lim_System c)
  | Transient => Some (lim_Transient c)
  | Service s => lim_Service c !! s
  | Protocol s => lim_Protocol c !! s
  | Peer s => lim_Peer c !! s
  end.

Definition default_limit (id : scope_id) (c : LimitConfig) : BaseLimit :=
  match id with
  | System => lim_System c
  | Transient => lim_Transient c
  | Service _ => ServiceDefault c
  | Protocol _ => ProtocolDefault c
  | Peer _ => PeerDefault c
  end.

Abbreviation mio A := (Mgr -> FSRepo -> disk -> result A * Mgr * FSRepo * disk).

(** The part shared by setting and resetting, after the configuration was read:
    missing limits are added to it, the scope is viewed and its limit set, and the
    configuration with the limit is saved. *)
Definition apply_limit (cfg : Config) (id : scope_id) (limit : BaseLimit) (failed saving : string) : mio BaseLimit := fun m r s =>
  let configLimits := default empty_limits (Limits cfg) in
  let r := with_config (set_Limits configLimits cfg) r in
  match View id m with
  | (Err e, m) => (Err (failed +:+ e), m, r, s)
  | (Ok NotLimiter, m) => (Err (failed +:+ ErrNoResourceMgr), m, r, s)
  | (Ok _, m) =>
      let m := SetLimit id limit m in
      let cfg := set_Limits (set_scope_limit id limit configLimits) cfg in
      match SetConfig cfg (with_config cfg r) s with
      | (Err e, r, s) => (Err (saving +:+ e), m, r, s)
      | (Ok _, r, s) => (Ok limit, m, r, s)
      end
  end.

Definition NetSetLimit (scope : string) (limit : BaseLimit) : mio unit := fun m r s =>
  match Config_ r with
  | Err e => (Err ("reading config to set limit: " +:+ e), m, r, s)
  | Ok None => (Err "no config", m, r, s)
  | Ok (Some cfg) =>
      match scope_of scope with
      | Err e => (Err e, m, with_config (set_Limits (default empty_limits (Limits cfg)) cfg) r, s)
      | Ok id =>
          match apply_limit cfg id limit "setting new limits on resource manager: " "writing new limits to repo config: " m r s with
          | (Err e, m, r, s) => (Err e, m, r, s)
          | (Ok _, m, r, s) => (Ok tt, m, r, s)
          end
      end
  end.

Definition NetResetLimit (scope : string) : mio BaseLimit := fun m r s =>
  match Config_ r with
  | Err e => (Err ("reading config to reset limit: " +:+ e), m, r, s)
  | Ok None => (Err "no config", m, r, s)
  | Ok (Some cfg) =>
      match createDefaultLimitConfig cfg with
      | Err e => (Err ("creating default limit config: " +:+ e), m, r, s)
      | Ok defaults =>
          match scope_of scope with
          | Err e => (Err e, m, with_config (set_Limits (default empty_limits (Limits cfg)) cfg) r, s)
          | Ok id =>
              apply_limit cfg id (default_limit id defaults) "resetting new limits on resource manager: " "writing new limits to repo config: " m r s
          end
      end
  end.
(** ** Lemmas *)

Lemma scope_limit_set id l c : scope_limit id (set_scope_limit id l c) = Some l.
Proof. destruct c, id; cbn; try done; apply lookup_insert_eq. Qed.

Lemma scope_limit_set_ne id j l c : j <> id -> scope_limit j (set_scope_limit id l c) = scope_limit j c.
Proof. intros Hn. destruct c, id, j; cbn; try done; apply lookup_insert_ne; congruence. Qed.

Lemma SetConfig_ok c r s r' s' : SetConfig c r s = (Ok tt, r', s') -> config r' = Some c.
Proof.
  unfold SetConfig. destruct (ReadConfigFile _ _ _) as [[m|] s1]; [|done]. destruct (ToMap c) as [m'|]; [|done].
  destruct (WriteConfigFile _ _ _) as [[[]|] s2]; [|done]. by intros [= <- <-].
Qed.

Lemma NetLimit_view scope id m : scope_of scope = Ok id ->
  (NetLimit scope m).1 = match (View id m).1 with
    | Err e => Err e | Ok NotLimiter => Err ErrNoResourceMgr | Ok (OtherLimit t) => Err ("unknown limit type " +:+ t) | Ok (BaseLimited l) => Ok l end.
Proof. intros E. unfold NetLimit. rewrite E. by destruct (View id m) as [[[]|] ?]. Qed.

(** What a limit that was applied has done: the manager has it, and so has the
    saved configuration, and nothing else has changed. *)
Definition limit_applied (cfg : Config) (id : scope_id) (l : BaseLimit) (m m' : Mgr) (r' : FSRepo) : Prop :=
  (forall scope, (NetLimit scope m').1 = if decide (scope_of scope = Ok id) then Ok l else (NetLimit scope m).1) /\
  exists cfg' lc, config r' = Some cfg' /\ Limits cfg' = Some lc /\ scope_limit id lc = Some l /\
    forall j, j <> id -> scope_limit j lc = scope_limit j (default empty_limits (Limits cfg)).

Lemma apply_limit_ok cfg id l f sv m r s l' m' r' s' :
  apply_limit cfg id l f sv m r s = (Ok l', m', r', s') -> l' = l /\ limit_applied cfg id l m m' r'.
Proof.
  unfold apply_limit. destruct (View id m) as [[v|e] m1] eqn:Ev; [|done].
  assert (Hcase : v = NotLimiter \/ v <> NotLimiter) by (destruct v; auto; by right). destruct Hcase as [-> |Hv]; [done|].
  set (c1 := set_Limits (default empty_limits (Limits cfg)) cfg). set (c2 := set_Limits (set_scope_limit id l (default empty_limits (Limits cfg))) cfg).
  assert (Hgo : match SetConfig c2 (with_config c2 (with_config c1 r)) s with
    | (Err e, r, s) => (Err (sv +:+ e), SetLimit id l m1, r, s) | (Ok _, r, s) => (Ok l, SetLimit id l m1, r, s) end = (Ok l', m', r', s') ->
    l' = l /\ limit_applied cfg id l m m' r'); [|by destruct v].
  destruct (SetConfig c2 _ s) as [[[[]|e] r1] s1] eqn:Es; [|done]. intros [= <- <- <- <-]. split; [done|]. apply SetConfig_ok in Es. split.
  - intros scope. case_decide as Hs.
    + rewrite (NetLimit_view _ id) by done. by rewrite (View_SetLimit id l m m1 v).
    + destruct (scope_of scope) as [j|e] eqn:Ej; [|unfold NetLimit; by rewrite Ej].
      rewrite !(NetLimit_view _ j) by done. rewrite View_SetLimit_ne by congruence.
      pose proof (View_View j id m) as Hvv. rewrite Ev in Hvv. cbn in Hvv. by rewrite Hvv.
  - exists c2, (set_scope_limit id l (default empty_limits (Limits cfg))). split_and!; [done|apply Limits_set|apply scope_limit_set|].
    intros j Hj. by apply scope_limit_set_ne.
Qed.

(** ** Theorems *)

(** a limit that was set takes effect and is kept: after [NetSetLimit] reports
    success [NetLimit] of the same scope, however it is written, gives the limit,
    every other scope has the limit it had, and the saved configuration has the
    limit under that scope with all other configured limits as they were. *)
Theorem net_set_limit_exact scope limit m r s m' r' s' :
  NetSetLimit scope limit m r s = (Ok tt, m', r', s') ->
  exists id cfg, scope_of scope = Ok id /\ config r = Some cfg /\ limit_applied cfg id limit m m' r'.
Proof.
  unfold NetSetLimit, Config_. destruct (closed r); [done|]. destruct (config r) as [cfg|] eqn:Ec; [|done].
  destruct (scope_of scope) as [id|] eqn:Es; [|done].
  destruct (apply_limit cfg id limit _ _ m r s) as [[[[l|] m1] r1] s1] eqn:Ea; [|done]. intros [= <- <- <-].
  apply apply_limit_ok in Ea as [_ Ha]. by exists id, cfg.
Qed.

(** a reset puts the computed default of the scope in place, in the manager and
    in the saved configuration, returns it, and changes nothing else. *)
Theorem net_reset_limit_exact scope l m r s m' r' s' :
  NetResetLimit scope m r s = (Ok l, m', r', s') ->
  exists id cfg defaults, scope_of scope = Ok id /\ config r = Some cfg /\ createDefaultLimitConfig cfg = Ok defaults /\
    l = default_limit id defaults /\ limit_applied cfg id l m m' r'.
Proof.
  unfold NetResetLimit, Config_. destruct (closed r); [done|]. destruct (config r) as [cfg|] eqn:Ec; [|done].
  destruct (createDefaultLimitConfig cfg) as [d|] eqn:Ed; [|done]. destruct (scope_of scope) as [id|] eqn:Es; [|done].
  intros [-> Ha]%apply_limit_ok. by exists id, cfg, d.
Qed.

(** what [NetLimitAll] gives as the limits of the transient scope are those of the
    system scope. *)
Theorem transient_limits_are_system m out m' :
  NetLimitAll m = (Ok out, m') -> out_Transient out = out_System out.
Proof.
  unfold NetLimitAll. destruct (has_state m); [|done]. cbn [negb].
  destruct (NetLimit ResourceMgrSystemScope m) as [[sys|] m1] eqn:E1; [|done].
  destruct (NetLimit ResourceMgrSystemScope m1) as [[tr|] m2] eqn:E2; [|done].
  assert (sys = tr) as ->.
  { pose proof (NetLimit_view ResourceMgrSystemScope System m eq_refl) as V1. pose proof (NetLimit_view ResourceMgrSystemScope System m1 eq_refl) as V2.
    assert (Em : m1 = (View System m).2) by (unfold NetLimit in E1; cbn in E1; by destruct (View System m) as [[[]|] ?]; simplify_eq).
    rewrite Em, View_View, <- Em, <- V1, E1, E2 in V2. by injection V2. }
  repeat (destruct (limits_of _ _ _ _) as [[?|] ?]; [|done]). by intros [= <- _].
Qed.
End Rcmgr.

(** a use below its limit is never reported, whatever percentage is asked for: the
    quotient is taken before the percentage. *)
Theorem usage_below_limit_unreported v1 v2 percentage :
  0 <= v1 < v2 -> 0 < percentage -> abovePercentage v1 v2 percentage = false.
Proof.
  intros Hv Hp. unfold abovePercentage. rewrite (proj2 (Z.eqb_neq _ _)), (proj2 (Z.eqb_neq _ _)) by lia.
  rewrite Z.quot_small by lia. apply Z.leb_gt. done.
Qed.

(** ** Witnesses *)

#[export] Instance BaseLimit_eq_dec : EqDecision BaseLimit.
Proof. solve_decision. Defined.
#[export] Instance LimitConfig_eq_dec : EqDecision LimitConfig.
Proof. solve_decision. Defined.

Module DemoRcmgr.
Definition lim : BaseLimit := MkBase 1 1 1 1 1 1 1 1.
Definition saved : option LimitConfig := Some (set_scope_limit (Service "x") lim empty_limits).
Definition saved_map : object := [("Swarm", JBool true)].

Lemma rcmgr_saved_wf : wf (JObj saved_map).
Proof. apply DemoRepo.wf_cons; [csimpl; set_solver| |apply wf_empty]. constructor. Qed.

Definition env : RepoEnv'.
Proof.
  refine {| Config := option LimitConfig; ds_Type := fun _ => ""; ds_Path := fun _ => ""; ds_Spec := fun _ => None;
            FilestoreEnabled := fun _ => false; UrlstoreEnabled := fun _ => true;
            decode_map := fun s => if decide (s = "text") then Ok saved_map else Err "unexpected end of JSON input";
            decode_config := fun s => if decide (s = "text") then Ok saved else Err "unexpected end of JSON input";
            Marshal_map := fun m => if json_eqb (JObj saved_map) (JObj m) then Ok "text" else Err "json: unsupported value";
            Marshal_config := fun c => if decide (c = saved) then Ok "text" else Err "json: unsupported value";
            Marshal_spec := fun _ => ""; Expand := fun p => Ok p;
            homedir_Dir := Ok "/home"; env_IPFS_PATH := ""; repo_registry := [];
            Multiaddr := string; ma_String := fun s => s; NewMultiaddr := fun s => Ok s |}.
  - intros s m. case_decide; [|done]. intros [= <-]. apply rcmgr_saved_wf.
  - intros m s _ E. destruct (json_eqb (JObj saved_map) (JObj m)) eqn:Ej; [|done]. apply json_eqb_eq in Ej. simplify_eq. by case_decide.
  - intros c s E. case_decide; [|done]. simplify_eq. by case_decide.
  - reflexivity.
Defined.

Definition fields : @ResourceMgrFields env.
Proof.
  refine {| Limits := fun c : @Config env => c; set_Limits := fun l _ => Some l : @Config env; MaxMemory := fun _ => None;
            MaxFileDescriptors := fun _ => None |}. reflexivity.
Defined.

(** A manager that is the limits that were set. *)
Definition manager : ResourceManager.
Proof.
  refine {| Mgr := list (scope_id * BaseLimit); Frac := unit; frac0 := tt;
            View := fun i m => (Ok (BaseLimited (default zero_limit ((fun x => x.2.2) <$> list_find (fun x : scope_id * BaseLimit => x.1 = i) m))), m);
            SetLimit := fun i l m => (i, l) :: m; has_state := fun _ => true;
            Stat := fun _ => MkStats (MkStat 0 0 0 0 0 0) (MkStat 0 0 0 0 0 0) ∅ ∅ ∅;
            ScopeStat_of := fun _ m => (Ok (MkStat 0 0 0 0 0 0), m);
            ListServices := fun _ => []; ListProtocols := fun _ => []; ListPeers := fun _ => [];
            peer_Decode := fun s => Ok s; TotalMemory := 8; humanize_Bytes := FormatInt;
            humanize_ParseBytes := fun s => match ParseInt s with Some z => Ok z | None => Err "no size" end; GetNumFDs := 8 |}.
  - reflexivity.
  - intros i l m m' v [= <- <-] _. cbn. by rewrite decide_True.
  - intros i j l m Hn. cbn. rewrite decide_False by congruence. by destruct (list_find _ m) as [[]|].
Defined.

Definition scaling : @Scaling manager.
Proof.
  pose (z := @MkIncrease manager 0 0 0 0 0 0 0 tt).
  refine {| DefaultLimits := @MkScaling manager zero_limit z zero_limit z zero_limit z zero_limit z zero_limit z zero_limit z zero_limit z zero_limit z zero_limit z zero_limit z zero_limit z;
            SetDefaultServiceLimits := fun c => c;
            Scale := fun c mem fd => MkLimits (@SystemBaseLimit manager c) zero_limit lim ∅ zero_limit ∅ zero_limit ∅ |}.
Defined.

Definition repo : @FSRepo env := @MkFSRepo env false "/repo" "/repo/config" (Some (None : @Config env)) [] None.
Definition repo_disk : disk := Disk {[ "/repo/config" := "text" ]} ∅ [] [].
End DemoRcmgr.

Lemma net_set_limit_exact_witness : exists m' r' s',
  @NetSetLimit DemoRcmgr.env DemoRcmgr.fields DemoRcmgr.manager "svc:x" DemoRcmgr.lim [] DemoRcmgr.repo DemoRcmgr.repo_disk = (Ok tt, m', r', s') /\
  (@NetLimit DemoRcmgr.manager "svc:x" m').1 = Ok DemoRcmgr.lim.
Proof.
  destruct (@NetSetLimit DemoRcmgr.env DemoRcmgr.fields DemoRcmgr.manager "svc:x" DemoRcmgr.lim [] DemoRcmgr.repo DemoRcmgr.repo_disk) as [[[res m'] r'] s'] eqn:E.
  assert (Er : res = Ok tt) by (apply (f_equal (fun x => x.1.1.1)) in E; vm_compute in E; exact (eq_sym E)). subst res.
  exists m', r', s'. split; [reflexivity|].
  destruct (@net_set_limit_exact DemoRcmgr.env DemoRcmgr.fields DemoRcmgr.manager _ _ _ _ _ _ _ _ E) as (id & cfg & Ei & _ & Hl & _).
  rewrite Hl. rewrite decide_True by exact Ei. reflexivity.
Defined.

Lemma net_reset_limit_exact_witness : exists m' r' s',
  @NetResetLimit DemoRcmgr.env DemoRcmgr.fields DemoRcmgr.manager DemoRcmgr.scaling "svc:x" [] DemoRcmgr.repo DemoRcmgr.repo_disk = (Ok DemoRcmgr.lim, m', r', s') /\
  (@NetLimit DemoRcmgr.manager "svc:x" m').1 = Ok DemoRcmgr.lim.
Proof.
  destruct (@NetResetLimit DemoRcmgr.env DemoRcmgr.fields DemoRcmgr.manager DemoRcmgr.scaling "svc:x" [] DemoRcmgr.repo DemoRcmgr.repo_disk) as [[[res m'] r'] s'] eqn:E.
  assert (Er : res = Ok DemoRcmgr.lim) by (apply (f_equal (fun x => x.1.1.1)) in E; vm_compute in E; exact (eq_sym E)). subst res.
  exists m', r', s'. split; [reflexivity|].
  destruct (@net_reset_limit_exact DemoRcmgr.env DemoRcmgr.fields DemoRcmgr.manager DemoRcmgr.scaling _ _ _ _ _ _ _ _ E) as (id & cfg & d & Ei & _ & _ & _ & Hl & _).
  rewrite Hl. rewrite decide_True by exact Ei. reflexivity.
Defined.

Lemma transient_limits_are_system_witness : exists out m', @NetLimitAll DemoRcmgr.manager [(System, DemoRcmgr.lim)] = (Ok out, m') /\
  out_Transient out = out_System out.
Proof.
  destruct (@NetLimitAll DemoRcmgr.manager [(System, DemoRcmgr.lim)]) as [res m'] eqn:E.
  assert (Er : res = Ok (MkOut (Some DemoRcmgr.lim) (Some DemoRcmgr.lim) ∅ ∅ ∅)) by (apply (f_equal fst) in E; vm_compute in E; exact (eq_sym E)). subst res.
  exists (MkOut (Some DemoRcmgr.lim) (Some DemoRcmgr.lim) ∅ ∅ ∅), m'. split; [reflexivity|].
  exact (@transient_limits_are_system DemoRcmgr.manager _ _ _ E).
Defined.

Lemma usage_below_limit_unreported_witness : abovePercentage 99 100 90 = false.
Proof. apply (usage_below_limit_unreported 99 100 90); lia. Defined.

(** ** [swarm limit] and [swarm stats] *)

(** The file argument: none at all; no entry, with the iterator's error; an entry that is
    not a file; a file. *)
Inductive limit_arg := NoFiles | NoEntry (err : option error) | NotAFile | LimitFile (content : string).

(** What the command puts out. *)
Inductive limit_reply := Silent | ScopeLimit (l : BaseLimit) | AllLimits (out : NetStatOut).

Section Commands.
Context `{RepoEnv', !ResourceMgrFields, ResourceManager, !Scaling}.
(** The JSON decoder over at most so many bytes of the content. *)
Context (Decode_limit : Z -> string -> result BaseLimit).

Abbreviation mio A := (Mgr -> FSRepo -> disk -> result A * Mgr * FSRepo * disk).

(** A reading of the manager, as a command of the repository. *)
Definition reading {A} (f : Mgr -> result A * Mgr) : mio A := fun m r s => let '(res, m) := f m in (res, m, r, s).
Definition replying {A} (reply : A -> limit_reply) (f : mio A) : mio limit_reply := fun m r s =>
  match f m r s with
  | (Err e, m, r, s) => (Err e, m, r, s)
  | (Ok a, m, r, s) => (Ok (reply a), m, r, s)
  end.

(** [swarmLimitCmd.Run] of a node with a manager; [reset] is the option as it was given. *)
Definition limit_shown (scope : string) (reset : option bool) : mio limit_reply :=
  match reset with
  | Some _ => replying ScopeLimit (NetResetLimit scope)
  | None =>
      if String.eqb scope "all" then replying AllLimits (reading NetLimitAll)
      else replying ScopeLimit (reading (NetLimit scope))
  end.

Definition limit_Run (scope : string) (arg : limit_arg) (reset : option bool) : mio limit_reply :=
  match arg with
  | NotAFile => fun m r s => (Err "expected a JSON file", m, r, s)
  | LimitFile content =>
      match Decode_limit (32 * 1024 * 1024) content with
      | Err e => fun m r s => (Err ("decoding JSON as ResourceMgrScopeConfig: " +:+ e), m, r, s)
      | Ok newLimit => replying (fun _ => Silent) (NetSetLimit scope newLimit)
      end
  | NoEntry (Some e) => fun m r s => (Err ("error opening limit JSON file: " +:+ e), m, r, s)
  | NoEntry None | NoFiles => limit_shown scope reset
  end.

(** The commands of a node, which may have no manager. *)
Definition swarm_limit (scope : string) (arg : limit_arg) (reset : option bool) (m : option Mgr) (r : FSRepo) (s : disk) : result limit_reply * option Mgr * FSRepo * disk :=
  match m with
  | None => (Err ErrNoResourceMgr, None, r, s)
  | Some m => let '(res, m, r, s) := limit_Run scope arg reset m r s in (res, Some m, r, s)
  end.

Definition swarm_stats (args : list string) (percentage : option Z) (m : option Mgr) : result NetStatOut * option Mgr :=
  match m with
  | None => (Err ErrNoResourceMgr, None)
  | Some m =>
      match args with
      | [scope] => let '(res, m) := NetStat scope (default 0 percentage) m in (res, Some m)
      | _ => (Err "must specify exactly one scope", Some m)
      end
  end.

Lemma NetSetLimit_applied scope l m r s m' r' s' :
  NetSetLimit scope l m r s = (Ok tt, m', r', s') ->
  exists id cfg, scope_of scope = Ok id /\ limit_applied cfg id l m m' r'.
Proof.
  unfold NetSetLimit. destruct (Config_ r) as [[cfg |] | e]; [| done | done]. destruct (scope_of scope) as [id | e] eqn:Es; [| done].
  destruct (apply_limit cfg id l _ _ m r s) as [[[[l' |] m1] r1] s1] eqn:Ea; [| done]. intros [= <- <- <-].
  apply apply_limit_ok in Ea as [_ Ha]. by exists id, cfg.
Qed.

(** A limit set from a file is what the command shows for the scope afterwards, and every other
    scope shows what it did before. *)
Theorem limit_set_is_shown scope content reset l m r s m' r' s' :
  Decode_limit (32 * 1024 * 1024) content = Ok l ->
  swarm_limit scope (LimitFile content) reset (Some m) r s = (Ok Silent, m', r', s') ->
  exists m1, m' = Some m1 /\
    (limit_Run scope NoFiles None m1 r' s').1.1.1 = Ok (ScopeLimit l) /\
    forall other, other <> "all" -> scope_of other <> scope_of scope ->
      (limit_Run other NoFiles None m1 r' s').1.1.1 = (limit_Run other NoFiles None m r s).1.1.1.
Proof.
  intros Hdec Hrun. unfold swarm_limit in Hrun. cbn [limit_Run] in Hrun. rewrite Hdec in Hrun. unfold replying in Hrun.
  destruct (NetSetLimit scope l m r s) as [[[[[] |] m1] r1] s1] eqn:Hset; [| done]. injection Hrun as <- <- <-.
  apply NetSetLimit_applied in Hset as (id & cfg & Hid & Hshown & _). exists m1. split; [done |].
  assert (Hall : forall sc n r0 s0, sc <> "all" ->
    (limit_Run sc NoFiles None n r0 s0).1.1.1 = match (NetLimit sc n).1 with Ok l => Ok (ScopeLimit l) | Err e => Err e end).
  { intros sc n r0 s0 Hsc. cbn [limit_Run limit_shown]. rewrite (proj2 (String.eqb_neq _ _) Hsc). unfold replying, reading.
    by destruct (NetLimit sc n) as [[? | ?] ?]. }
  split.
  - rewrite Hall by (intros ->; by cbn in Hid). by rewrite Hshown, decide_True.
  - intros other Ho Hne. rewrite !Hall by done. rewrite Hshown, decide_False by congruence. done.
Qed.

(** What the reset option was set to does not matter: [--reset=false] resets as well. *)
Theorem reset_false_resets scope b m r s : swarm_limit scope NoFiles (Some b) m r s = swarm_limit scope NoFiles (Some true) m r s.
Proof. done. Qed.

(** The percentage of [swarm stats] counts for [all] only. *)
Theorem stats_percentage_unused scope p q m : scope <> "all" -> swarm_stats [scope] p m = swarm_stats [scope] q m.
Proof.
  intros Hs. destruct m as [m |]; [| done]. cbn [swarm_stats]. unfold NetStat. by rewrite (proj2 (String.eqb_neq _ _) Hs).
Qed.
End Commands.

Lemma limit_set_is_shown_witness : exists m1 r' s',
  @limit_Run DemoRcmgr.env DemoRcmgr.fields DemoRcmgr.manager DemoRcmgr.scaling (fun _ _ => Ok DemoRcmgr.lim) "svc:x" NoFiles None m1 r' s' = (Ok (ScopeLimit DemoRcmgr.lim), m1, r', s').
Proof.
  destruct (@swarm_limit DemoRcmgr.env DemoRcmgr.fields DemoRcmgr.manager DemoRcmgr.scaling (fun _ _ => Ok DemoRcmgr.lim) "svc:x" (LimitFile "{}") None (Some []) DemoRcmgr.repo DemoRcmgr.repo_disk) as [[[res m'] r'] s'] eqn:E.
  assert (Er : res = Ok Silent) by (apply (f_equal (fun x => x.1.1.1)) in E; vm_compute in E; exact (eq_sym E)). subst res.
  destruct (@limit_set_is_shown DemoRcmgr.env DemoRcmgr.fields DemoRcmgr.manager DemoRcmgr.scaling (fun _ _ => Ok DemoRcmgr.lim) "svc:x" "{}" None DemoRcmgr.lim [] _ _ _ _ _ eq_refl E) as (m1 & _ & Hshown & _).
  exists m1, r', s'. cbn in Hshown |- *. unfold replying, reading in *. cbn in *. by injection Hshown as ->.
Defined.

Lemma stats_percentage_unused_witness : "system" <> "all" /\
  @swarm_stats DemoRcmgr.manager ["system"] (Some 90) (Some []) = @swarm_stats DemoRcmgr.manager ["system"] None (Some []).
Proof. split; [done | by apply (@stats_percentage_unused DemoRcmgr.manager)]. Defined.
