(* ===== verification/Adder.v ===== *)
(** Adding files: [core/coreunix/add.go].

    The adder drives the importer, the in-memory file system ([mfs]), the DAG
    service and the pinner, which are fields of [AdderEnv] over a state [W].  A
    trace records the calls that matter for garbage collection: the pin lock, every
    block handed to the DAG service (logged before the call, which may have written
    it also when it fails), every call of [mfs] that may write nodes of the tree
    (before the call), what was put into the tree and the pins and their flush
    (after the call succeeded).  [gc_requests] answers [GCRequested].  A file is the
    sequence of the results its reads give while it is chunked; a directory of [mfs]
    as [outputDirs] sees it is a tree. *)
From Stdlib Require Import ZArith Lia Ascii String.
From stdpp Require Import base list strings.
From S2P Require Import Prelude GoStrings GoPath.

Local Open Scope Z_scope.

Abbreviation cid := string.

(** [files.Node]: the entries of a directory with the error its iterator ends
    with; a file with its reads (bytes and whether the end was reported). *)
Inductive fnode :=
| FDir (entries : list (string * fnode)) (iter_err : option error)
| FSymlink (target : string)
| FFile (content : string) (reads : list (Z * bool))
| FUnknown.

Inductive fsn := FsFile (node : result cid) | FsDir (children : result (list (string * result fsn))) (node : result cid).

Definition fsn_GetNode (f : fsn) : result cid := match f with FsFile n => n | FsDir _ n => n end.

Class AdderEnv := {
  W : Type;
  mfs_NewRoot : W -> result unit * W;
  mfs_RootNode : W -> result (cid * list cid) * W;
  ds_GetNode : cid -> W -> result cid * W;
  ds_Add : cid -> W -> option error * W;
  ds_Sync : W -> option error * W;
  Unpin : cid -> W -> option error * W;
  PinWithMode : cid -> W -> W;
  pin_Flush : W -> option error * W;
  mfs_Mkdir : string -> W -> option error * W;
  mfs_PutNode : string -> cid -> W -> option error * W;
  mfs_FlushMemFree : W -> option error * W;
  mfs_Flush : W -> option error * W;
  mfs_ListNames : W -> result (list string) * W;
  mfs_Child : string -> W -> result fsn * W;
  mfs_Root : W -> fsn;
  mfs_Close : W -> option error * W;
  (** chunking, layout and commit of a file's content, with the blocks it wrote *)
  layout : string -> W -> result cid * list cid * W;
  SymlinkNode : string -> result cid;
  node_Size : cid -> result Z;
}.

Inductive event :=
| PinLock | Unlock
| Wrote (c : cid)                      (** a block is handed to the DAG service *)
| TreeWrite                            (** [mfs] may write nodes of the tree *)
| Mkdir (path : string) | Put (path : string) (c : cid)
| Root (c : cid)                       (** the root of the tree as it is *)
| Pinned (c : cid) | Unpinned (c : cid) | Flushed.

Inductive AddEvent := AddedNode (name path size : string) | Progress_ (name : string) (bytes : Z).

Definition liveCacheSize : Z := Z.shiftl 256 10.
Definition progressReaderIncrement : Z := 1024 * 256.

(** ** Progress *)

Record progressReader := MkProgress { pr_bytes : Z; lastProgress : Z; events : list AddEvent }.

Definition progress_Read (path : string) (r : Z * bool) (i : progressReader) : progressReader :=
  let bytes := i64 (pr_bytes i + r.1) in
  if (progressReaderIncrement <=? i64 (bytes - lastProgress i)) || r.2
  then MkProgress bytes bytes (events i ++ [Progress_ path bytes])
  else MkProgress bytes (lastProgress i) (events i).

Definition progress_events (path : string) (reads : list (Z * bool)) : list AddEvent :=
  events (foldl (fun i r => progress_Read path r i) (MkProgress 0 0 []) reads).

(** ** The adder *)

Record Adder `{AdderEnv} := MkAdder {
  Pin : bool; Silent : bool; Progress : bool;
  mroot : bool; unlocker : bool; tempRoot : option cid; liveNodes : Z;
  Out : option (list AddEvent);
  gc_requests : list bool;
  trace : list event;
  world : W;
}.
Arguments MkAdder {_}.

Section Add.
Context `{AdderEnv}.

Definition NewAdder (gc_requests : list bool) (w : W) : Adder := MkAdder true false false false false None 0 None gc_requests [] w.

(** Computations of the adder: an error leaves the state as it is at that point. *)
Definition st (A : Type) : Type := Adder -> result A * Adder.
Definition ret {A} (a : A) : st A := fun s => (Ok a, s).
Definition fail {A} (e : error) : st A := fun s => (Err e, s).
Definition bind {A B} (m : st A) (k : A -> st B) : st B := fun s =>
  match m s with (Err e, s) => (Err e, s) | (Ok a, s) => k a s end.

Local Notation "x <- m ; k" := (bind m (fun x => k)) (at level 100, m at next level, right associativity).
Local Notation "m ;; k" := (bind m (fun _ => k)) (at level 100, right associativity).

Definition with_world (w : W) (s : Adder) : Adder :=
  MkAdder (Pin s) (Silent s) (Progress s) (mroot s) (unlocker s) (tempRoot s) (liveNodes s) (Out s) (gc_requests s) (trace s) w.
Definition logs (l : list event) : st unit := fun s =>
  (Ok tt, MkAdder (Pin s) (Silent s) (Progress s) (mroot s) (unlocker s) (tempRoot s) (liveNodes s) (Out s) (gc_requests s) (trace s ++ l) (world s)).
Definition log (e : event) : st unit := logs [e].
Definition set_unlocker (b : bool) : st unit := fun s =>
  (Ok tt, MkAdder (Pin s) (Silent s) (Progress s) (mroot s) b (tempRoot s) (liveNodes s) (Out s) (gc_requests s) (trace s) (world s)).
Definition set_tempRoot (c : cid) : st unit := fun s =>
  (Ok tt, MkAdder (Pin s) (Silent s) (Progress s) (mroot s) (unlocker s) (Some c) (liveNodes s) (Out s) (gc_requests s) (trace s) (world s)).
Definition set_liveNodes (n : Z) : st unit := fun s =>
  (Ok tt, MkAdder (Pin s) (Silent s) (Progress s) (mroot s) (unlocker s) (tempRoot s) n (Out s) (gc_requests s) (trace s) (world s)).
Definition set_mroot : st unit := fun s =>
  (Ok tt, MkAdder (Pin s) (Silent s) (Progress s) true (unlocker s) (tempRoot s) (liveNodes s) (Out s) (gc_requests s) (trace s) (world s)).
Definition send (l : list AddEvent) : st unit := fun s =>
  (Ok tt, MkAdder (Pin s) (Silent s) (Progress s) (mroot s) (unlocker s) (tempRoot s) (liveNodes s) ((fun o => o ++ l) <$> Out s) (gc_requests s) (trace s) (world s)).
Definition asks {A} (f : Adder -> A) : st A := fun s => (Ok (f s), s).

(** [GCRequested]. *)
Definition GCRequested : st bool := fun s =>
  (Ok (default false (head (gc_requests s))),
   MkAdder (Pin s) (Silent s) (Progress s) (mroot s) (unlocker s) (tempRoot s) (liveNodes s) (Out s) (tail (gc_requests s)) (trace s) (world s)).

(** Calls of the libraries. *)
Definition call {A} (f : W -> result A * W) : st A := fun s => let '(r, w) := f (world s) in (r, with_world w s).
Definition call_ (f : W -> option error * W) : st unit := fun s =>
  let '(r, w) := f (world s) in (match r with Some e => Err e | None => Ok tt end, with_world w s).
Definition of_result {A} (r : result A) : st A := fun s => (r, s).
Definition when (b : bool) (m : st unit) : st unit := if b then m else ret tt.

(** The calls that write: a block, the tree, a file's content. *)
Definition dagAdd (c : cid) : st unit := log (Wrote c) ;; call_ (ds_Add c).
Definition tree_call {A} (f : W -> result A * W) : st A := log TreeWrite ;; call f.
Definition tree_call_ (f : W -> option error * W) : st unit := log TreeWrite ;; call_ f.
Definition mkdir (path : string) : st unit := tree_call_ (mfs_Mkdir path) ;; log (Mkdir path).
Definition putNode (path : string) (node : cid) : st unit := tree_call_ (mfs_PutNode path node) ;; log (Put path node).

(** [add]: the blocks are written whether or not it fails. *)
Definition add (content : string) : st cid :=
  r <- call (fun w => let '(r, blocks, w) := layout content w in (Ok (r, blocks), w));
  logs (Wrote <$> r.2) ;; of_result r.1.

Definition mfsRoot : st unit :=
  b <- asks mroot; if (b : bool) then ret tt else (tree_call mfs_NewRoot ;; set_mroot).

Definition curRootNode : st cid :=
  mfsRoot ;;
  root <- tree_call mfs_RootNode;
  c <- (match root.2 with [l] => call (ds_GetNode l) | _ => ret root.1 end);
  log (Root c) ;; ret c.

Definition PinRoot (root : cid) : st unit :=
  pin <- asks Pin;
  if negb pin then ret tt
  else
    (dagAdd root ;;
     t <- asks tempRoot;
     (match t with
      | Some t => call_ (Unpin t) ;; log (Unpinned t) ;; set_tempRoot root
      | None => ret tt
      end) ;;
     call (fun w => (Ok tt, PinWithMode root w)) ;; log (Pinned root) ;;
     call_ pin_Flush ;; log Flushed).

Definition outputDagnode (name : string) (c : cid) : st unit :=
  o <- asks Out;
  match o with
  | None => ret tt
  | Some _ => size <- of_result (node_Size c); send [AddedNode name ("/ipfs/" +:+ c) (FormatInt size)]
  end.

Fixpoint outputDirs (path : string) (f : fsn) {struct f} : st unit :=
  match f with
  | FsFile _ => ret tt
  | FsDir (Err e) _ => fail e
  | FsDir (Ok names) node =>
      (fix output_children (l : list (string * result fsn)) : st unit :=
         match l with
         | [] => ret tt
         | (_, Err e) :: _ => fail e
         | (name, Ok child) :: l => outputDirs (Join path name) child ;; output_children l
         end) names ;;
      nd <- of_result node; outputDagnode path nd
  end.

Definition addNode (node : cid) (path : string) : st unit :=
  let path := if String.eqb path "" then node else path in
  mfsRoot ;;
  let dir := Dir path in
  when (negb (String.eqb dir ".")) (mkdir dir) ;;
  putNode path node ;;
  silent <- asks Silent;
  when (negb silent) (outputDagnode path node).

Definition addSymlink (path target : string) : st unit :=
  nd <- of_result (SymlinkNode target); dagAdd nd ;; addNode nd path.

Definition addFile (path content : string) (reads : list (Z * bool)) : st unit :=
  p <- asks Progress;
  when p (send (progress_events path reads)) ;;
  nd <- add content; addNode nd path.

Definition maybePauseForGC : st unit :=
  u <- asks unlocker;
  if (u : bool) then
    (g <- GCRequested;
     if (g : bool) then
       (rn <- curRootNode; PinRoot rn ;;
        log Unlock ;; set_unlocker true ;; log PinLock)
     else ret tt)
  else ret tt.

(** The part of [addFileNode] before the switch. *)
Definition add_prologue : st unit :=
  maybePauseForGC ;;
  n <- asks liveNodes;
  when (liveCacheSize <=? n) (mfsRoot ;; tree_call_ mfs_FlushMemFree ;; set_liveNodes 0) ;;
  n <- asks liveNodes; set_liveNodes (u64 (n + 1)).

Definition mkdir_of (path : string) (toplevel : bool) : st unit :=
  when (negb (toplevel && String.eqb path "")) (mfsRoot ;; mkdir path).

(** [addFileNode] with [addDir] inlined. *)
Fixpoint addFileNode (path : string) (file : fnode) (toplevel : bool) {struct file} : st unit :=
  add_prologue ;;
  match file with
  | FDir entries iter_err =>
      mkdir_of path toplevel ;;
      (fix add_entries (l : list (string * fnode)) : st unit :=
         match l with
         | [] => match iter_err with Some e => fail e | None => ret tt end
         | (name, f) :: l => addFileNode (Join path name) f false ;; add_entries l
         end) entries
  | FSymlink target => addSymlink path target
  | FFile content reads => addFile path content reads
  | FUnknown => fail "unknown file type"
  end.

(** The deferred unlock. *)
Definition finally_unlock {A} (m : st A) : st A := fun s =>
  let '(r, s) := m s in
  if unlocker s then (r, (log Unlock s).2) else (r, s).

(** The function between the two. *)
Definition add_all (file : fnode) : st cid :=
  addFileNode "" file true ;;
  mfsRoot ;;
  tree_call_ mfs_Flush ;;
  nr <- (match file with
         | FDir _ _ => r <- call (fun w => (Ok (mfs_Root w), w)); ret ("", r)
         | _ =>
             children <- call mfs_ListNames;
             match children with
             | [] => fail "expected at least one child dir, got none"
             | name :: _ => r <- call (mfs_Child name); ret (name, r)
             end
         end);
  tree_call_ mfs_Close ;;
  nd <- of_result (fsn_GetNode nr.2); log (Root nd) ;;
  outputDirs nr.1 nr.2 ;;
  call_ ds_Sync ;;
  pin <- asks Pin;
  if (negb pin : bool) then ret nd else (PinRoot nd ;; ret nd).

Definition AddAllAndPin (file : fnode) : st cid :=
  pin <- asks Pin;
  when pin (log PinLock ;; set_unlocker true) ;;
  finally_unlock (add_all file).

(** ** Lemmas

    The pin lock and what protects the tree while it is free.  While it is held:
    whether blocks were written that are not yet in the tree, the root of the tree
    if it was computed since anything was written, the pin taken since, and whether
    the pins were flushed since.  The lock may be given up only when nothing is
    pending and that root is pinned and flushed, and nothing may be written while
    it is free. *)
Inductive protection := Free | Held (pending : bool) (root pinned : option cid) (flushed : bool).

Definition protect (p : protection) (e : event) : option protection :=
  match p with
  | Free => match e with PinLock => Some (Held false None None false) | _ => None end
  | Held pending root pinned flushed =>
      match e with
      | PinLock => None
      | Wrote c => Some (if bool_decide (root = Some c) then p else Held true None None false)
      | TreeWrite | Mkdir _ => Some (Held pending None None false)
      | Put _ _ => Some (Held false None None false)
      | Root c => Some (Held pending (Some c) None false)
      | Unpinned _ => Some (Held pending root None false)
      | Pinned c => Some (Held pending root (Some c) false)
      | Flushed => Some (Held pending root pinned true)
      | Unlock => if negb pending && flushed && bool_decide (is_Some root) && bool_decide (root = pinned) then Some Free else None
      end
  end.

Fixpoint accepts (p : protection) (l : list event) : option protection :=
  match l with
  | [] => Some p
  | e :: l => match protect p e with Some p => accepts p l | None => None end
  end.

Lemma accepts_app p l1 l2 : accepts p (l1 ++ l2) = match accepts p l1 with Some p => accepts p l2 | None => None end.
Proof. revert p. induction l1 as [|e l1 IH]; intros p; [done|]. cbn [accepts app]. destruct (protect p e); [apply IH|done]. Qed.

Definition held (p : protection) : Prop := match p with Held _ _ _ _ => True | Free => False end.
Definition settled (p : protection) : Prop := match p with Held pending _ _ _ => pending = false | Free => False end.
Lemma settled_held p : settled p -> held p. Proof. by destruct p. Qed.

(** *** Segments of the trace

    A computation that keeps [I] of the switches and the temporary root, and whose
    part of the trace is in [J true] when it succeeds and in [J false] when it fails;
    [J] contains the empty segment and is closed under concatenation. *)
Definition is_ok {A} (r : result A) : bool := match r with Ok _ => true | Err _ => false end.

Class Segments (J : bool -> list event -> Prop) := {
  segments_nil b : J b [];
  segments_app b l1 l2 : J true l1 -> J b l2 -> J b (l1 ++ l2);
}.

Definition holds (I : bool -> bool -> option cid -> Prop) (s : Adder) : Prop := I (Pin s) (unlocker s) (tempRoot s).

(** The parts of the trace of a computation that fails are in [E], of one that
    returns [a] in [K a]. *)
Definition ends I {A} (E : list event -> Prop) (K : A -> list event -> Prop) (m : st A) : Prop := forall s, holds I s ->
  holds I (m s).2 /\ exists seg, trace (m s).2 = trace s ++ seg /\ match (m s).1 with Ok a => K a seg | Err _ => E seg end.

Lemma ends_bind I {A B} (E1 E : list event -> Prop) (K1 : A -> list event -> Prop) (E2 : A -> list event -> Prop)
    (K2 : A -> B -> list event -> Prop) (K : B -> list event -> Prop) (m : st A) (k : A -> st B) :
  ends I E1 K1 m -> (forall a, ends I (E2 a) (K2 a) (k a)) ->
  (forall l, E1 l -> E l) -> (forall a l1 l2, K1 a l1 -> E2 a l2 -> E (l1 ++ l2)) ->
  (forall a b l1 l2, K1 a l1 -> K2 a b l2 -> K b (l1 ++ l2)) -> ends I E K (bind m k).
Proof.
  intros Hm Hk HE HEE HK s Hs. unfold bind. destruct (Hm s Hs) as [H1 (seg1 & T1 & P1)]. destruct (m s) as [[a|e] s1]; cbn [fst snd] in *; [|eauto].
  destruct (Hk a s1 H1) as [H2 (seg2 & T2 & P2)]. split; [done|]. exists (seg1 ++ seg2). split; [by rewrite T2, T1, (assoc (++))|].
  destruct (k a s1).1; eauto.
Qed.

Lemma ends_weaken I {A} (E1 E : list event -> Prop) (K1 K : A -> list event -> Prop) (m : st A) :
  (forall l, E1 l -> E l) -> (forall a l, K1 a l -> K a l) -> ends I E1 K1 m -> ends I E K m.
Proof. intros HE HK Hm s Hs. destruct (Hm s Hs) as [H1 (seg & T & P)]. split; [done|]. exists seg. split; [done|]. destruct (m s).1; auto. Qed.

Lemma ends_logs I (E : list event -> Prop) (K : unit -> list event -> Prop) l : K tt l -> ends I E K (logs l).
Proof. intros Hl s Hs. split; [done|]. by exists l. Qed.

Definition runs I (J : bool -> list event -> Prop) {A} (m : st A) : Prop := ends I (J false) (fun _ => J true) m.

Section Runs.
Context (I : bool -> bool -> option cid -> Prop) (J : bool -> list event -> Prop) `{!Segments J}.

Lemma runs_same {A} (m : st A) : (forall s, holds I s -> holds I (m s).2 /\ trace (m s).2 = trace s) -> runs I J m.
Proof. intros Hm s Hs. destruct (Hm s Hs) as [H1 H2]. split; [done|]. exists []. rewrite H2, app_nil_r. split; [done|]. destruct (m s).1; apply segments_nil. Qed.

Lemma runs_bind {A B} (m : st A) (k : A -> st B) : runs I J m -> (forall a, runs I J (k a)) -> runs I J (bind m k).
Proof. intros Hm Hk. apply (ends_bind I _ _ _ _ _ _ m k Hm Hk); [done| |]; intros; by apply segments_app. Qed.

Lemma runs_logs l : J true l -> runs I J (logs l). Proof. apply (ends_logs I (J false) (fun _ => J true)). Qed.
Lemma runs_log e : J true [e] -> runs I J (log e). Proof. apply runs_logs. Qed.
Lemma runs_ret {A} (a : A) : runs I J (ret a). Proof. by apply runs_same. Qed.
Lemma runs_fail {A} (e : error) : runs I J (fail (A := A) e). Proof. by apply runs_same. Qed.
Lemma runs_asks {A} (f : Adder -> A) : runs I J (asks f). Proof. by apply runs_same. Qed.
Lemma runs_of_result {A} (r : result A) : runs I J (of_result r). Proof. by apply runs_same. Qed.
Lemma runs_call {A} (f : W -> result A * W) : runs I J (call f).
Proof. apply runs_same. intros s Hs. unfold call. by destruct (f (world s)). Qed.
Lemma runs_call_ f : runs I J (call_ f).
Proof. apply runs_same. intros s Hs. unfold call_. by destruct (f (world s)). Qed.
Lemma runs_send l : runs I J (send l). Proof. by apply runs_same. Qed.
Lemma runs_set_mroot : runs I J set_mroot. Proof. by apply runs_same. Qed.
Lemma runs_set_liveNodes n : runs I J (set_liveNodes n). Proof. by apply runs_same. Qed.
Lemma runs_GCRequested : runs I J GCRequested. Proof. by apply runs_same. Qed.
End Runs.
End Add.

Create HintDb adder.
#[export] Hint Resolve runs_ret runs_fail runs_asks runs_of_result runs_call runs_call_ runs_send runs_set_mroot
  runs_set_liveNodes runs_GCRequested runs_log runs_logs : adder.
#[export] Hint Extern 0 (Segments _) => (typeclasses eauto) : adder.

(** Decomposes a computation into its calls. *)
Ltac runs_auto := repeat first
  [ solve [auto with adder] | apply runs_bind; [typeclasses eauto| |intros ?] | progress unfold when | case_match ].

(** Everything but the pinning of the root and the pauses is common to all such [I] and [J]. *)
Section Tree.
Context `{AdderEnv} (I : bool -> bool -> option cid -> Prop) (J : bool -> list event -> Prop) `{!Segments J}.
Hypothesis J_tree : J true [TreeWrite].
Hypothesis J_mkdir : forall p, J true [Mkdir p].
Hypothesis J_root : forall c, J true [Root c].
Hypothesis runs_PinRoot : forall c, runs I J (PinRoot c).
Hypothesis runs_maybePauseForGC : runs I J maybePauseForGC.
Hypothesis runs_addSymlink : forall path t, runs I J (addSymlink path t).
Hypothesis runs_addFile : forall path c r, runs I J (addFile path c r).
#[local] Hint Resolve runs_PinRoot runs_maybePauseForGC runs_addSymlink runs_addFile J_tree J_mkdir J_root : adder.

Lemma runs_tree_call {A} (f : W -> result A * W) : runs I J (tree_call f). Proof. unfold tree_call. runs_auto. Qed.
Lemma runs_tree_call_ f : runs I J (tree_call_ f). Proof. unfold tree_call_. runs_auto. Qed.
#[local] Hint Resolve runs_tree_call runs_tree_call_ : adder.
Lemma runs_mkdir p : runs I J (mkdir p). Proof. unfold mkdir. runs_auto. Qed.
Lemma runs_mfsRoot : runs I J mfsRoot. Proof. unfold mfsRoot. runs_auto. Qed.
Lemma runs_curRootNode : runs I J curRootNode. Proof. unfold curRootNode, mfsRoot. runs_auto. Qed.
Lemma runs_outputDagnode name c : runs I J (outputDagnode name c). Proof. unfold outputDagnode. runs_auto. Qed.
#[local] Hint Resolve runs_mkdir runs_mfsRoot runs_outputDagnode : adder.
Lemma runs_mkdir_of path t : runs I J (mkdir_of path t). Proof. unfold mkdir_of. runs_auto. Qed.
Lemma runs_add_prologue : runs I J add_prologue. Proof. unfold add_prologue. runs_auto. Qed.
#[local] Hint Resolve runs_mkdir_of runs_add_prologue : adder.

Fixpoint runs_outputDirs path f {struct f} : runs I J (outputDirs path f).
Proof.
  destruct f as [n|[names|e] n]; cbn; [auto with adder| |auto with adder]. apply runs_bind; [done| |intros _; runs_auto].
  induction names as [|[name [child|e]] names IH]; [auto with adder| |auto with adder].
  apply runs_bind; [done|apply runs_outputDirs|intros _; exact IH].
Qed.

Fixpoint runs_addFileNode path f top {struct f} : runs I J (addFileNode path f top).
Proof.
  destruct f as [es ie|t|c r|]; cbn [addFileNode]; (apply runs_bind; [done|auto with adder|intros _]); [|auto with adder..].
  apply runs_bind; [done|auto with adder|intros _]. induction es as [|[name f] es IH]; [runs_auto|].
  apply runs_bind; [done|apply runs_addFileNode|intros _; exact IH].
Qed.
#[local] Hint Resolve runs_addFileNode runs_outputDirs : adder.

Lemma runs_add_all file : runs I J (add_all file). Proof. unfold add_all. runs_auto. Qed.
End Tree.

(** The writes of a file or a symbolic link, where each of them is in [J]. *)
Section Files.
Context `{AdderEnv} (I : bool -> bool -> option cid -> Prop) (J : bool -> list event -> Prop) `{!Segments J}.
Hypothesis J_tree : J true [TreeWrite].
Hypothesis J_mkdir : forall p, J true [Mkdir p].
Hypothesis J_put : forall p c, J true [Put p c].
Hypothesis J_wrote : forall c, J true [Wrote c].
#[local] Hint Resolve J_tree J_mkdir J_put J_wrote : adder.

Lemma J_writes l : J true (Wrote <$> l).
Proof. induction l as [|c l IH]; [apply segments_nil|]. exact (segments_app true [Wrote c] (Wrote <$> l) (J_wrote c) IH). Qed.
Lemma runs_dagAdd c : runs I J (dagAdd c). Proof. unfold dagAdd. runs_auto. Qed.
Lemma runs_add content : runs I J (add content).
Proof. unfold add. apply runs_bind; [done|auto with adder|]. intros r. apply runs_bind; [done| |runs_auto]. apply runs_logs. apply J_writes. Qed.
Lemma runs_addNode c path : runs I J (addNode c path).
Proof.
  unfold addNode, putNode. apply runs_bind; [done|by apply runs_mfsRoot|intros _].
  apply runs_bind; [done|unfold when; case_match; [by apply runs_mkdir|auto with adder]|intros _].
  apply runs_bind; [done|apply runs_bind; [done|by apply runs_tree_call_|runs_auto]|intros _].
  apply runs_bind; [done|auto with adder|intros b]. unfold when. case_match; [by apply runs_outputDagnode|auto with adder].
Qed.
#[local] Hint Resolve runs_dagAdd runs_add runs_addNode : adder.
Lemma files_addSymlink path t : runs I J (addSymlink path t). Proof. unfold addSymlink. runs_auto. Qed.
Lemma files_addFile path c r : runs I J (addFile path c r). Proof. unfold addFile. runs_auto. Qed.
End Files.

(** *** Frames

    A relation that every call of the libraries keeps, between the state before and
    the state after, holds between the ends of an add. *)
Class Framed `{AdderEnv} (R : W -> W -> Prop) := {
  framed_refl w : R w w;
  framed_trans w1 w2 w3 : R w1 w2 -> R w2 w3 -> R w1 w3;
  framed_NewRoot w : R w (mfs_NewRoot w).2;
  framed_RootNode w : R w (mfs_RootNode w).2;
  framed_GetNode c w : R w (ds_GetNode c w).2;
  framed_Add c w : R w (ds_Add c w).2;
  framed_Sync w : R w (ds_Sync w).2;
  framed_Unpin c w : R w (Unpin c w).2;
  framed_PinWithMode c w : R w (PinWithMode c w);
  framed_Flush_pins w : R w (pin_Flush w).2;
  framed_Mkdir p w : R w (mfs_Mkdir p w).2;
  framed_PutNode p c w : R w (mfs_PutNode p c w).2;
  framed_FlushMemFree w : R w (mfs_FlushMemFree w).2;
  framed_Flush w : R w (mfs_Flush w).2;
  framed_ListNames w : R w (mfs_ListNames w).2;
  framed_Child n w : R w (mfs_Child n w).2;
  framed_Close w : R w (mfs_Close w).2;
  framed_layout c w : R w (layout c w).2;
}.

Create HintDb frame.
Ltac framed := first [ apply framed_refl | apply framed_NewRoot | apply framed_RootNode | apply framed_GetNode | apply framed_Add | apply framed_Sync
  | apply framed_Unpin | apply framed_PinWithMode | apply framed_Flush_pins | apply framed_Mkdir | apply framed_PutNode
  | apply framed_FlushMemFree | apply framed_Flush | apply framed_ListNames | apply framed_Child | apply framed_Close ].

Section Frame.
Context `{AdderEnv} (R : W -> W -> Prop) `{!Framed R}.

Definition frames {A} (m : st A) : Prop := forall s, R (world s) (world (m s).2).

Lemma frames_same {A} (m : st A) : (forall s, world (m s).2 = world s) -> frames m.
Proof. intros Hm s. rewrite Hm. apply framed_refl. Qed.
Lemma frames_bind {A B} (m : st A) (k : A -> st B) : frames m -> (forall a, frames (k a)) -> frames (bind m k).
Proof.
  intros Hm Hk s. unfold bind. specialize (Hm s). destruct (m s) as [[a|e] s1]; [|done]. exact (framed_trans _ _ _ Hm (Hk a s1)).
Qed.
Lemma frames_call {A} (f : W -> result A * W) : (forall w, R w (f w).2) -> frames (call f).
Proof. intros Hf s. unfold call. specialize (Hf (world s)). by destruct (f (world s)). Qed.
Lemma frames_call_ f : (forall w, R w (f w).2) -> frames (call_ f).
Proof. intros Hf s. unfold call_. specialize (Hf (world s)). by destruct (f (world s)). Qed.
Lemma frames_PinWithMode c : frames (call (fun w => (Ok tt, PinWithMode c w))).
Proof. apply frames_call. intros w. apply framed_PinWithMode. Qed.
Lemma frames_mfs_Root : frames (call (fun w => (Ok (mfs_Root w), w))).
Proof. apply frames_call. intros w. apply framed_refl. Qed.
Lemma frames_ret {A} (a : A) : frames (ret a). Proof. by apply frames_same. Qed.
Lemma frames_fail {A} (e : error) : frames (fail (A := A) e). Proof. by apply frames_same. Qed.
Lemma frames_asks {A} (f : Adder -> A) : frames (asks f). Proof. by apply frames_same. Qed.
Lemma frames_of_result {A} (r : result A) : frames (of_result r). Proof. by apply frames_same. Qed.
Lemma frames_logs l : frames (logs l). Proof. by apply frames_same. Qed.
Lemma frames_send l : frames (send l). Proof. by apply frames_same. Qed.
Lemma frames_set_mroot : frames set_mroot. Proof. by apply frames_same. Qed.
Lemma frames_set_liveNodes n : frames (set_liveNodes n). Proof. by apply frames_same. Qed.
Lemma frames_set_tempRoot c : frames (set_tempRoot c). Proof. by apply frames_same. Qed.
Lemma frames_set_unlocker b : frames (set_unlocker b). Proof. by apply frames_same. Qed.
Lemma frames_GCRequested : frames GCRequested. Proof. by apply frames_same. Qed.
#[local] Hint Resolve frames_PinWithMode frames_mfs_Root frames_ret frames_fail frames_asks frames_of_result frames_logs frames_send
  frames_set_mroot frames_set_liveNodes frames_set_tempRoot frames_set_unlocker frames_GCRequested : frame.

Ltac frames_auto := repeat first
  [ solve [auto with frame] | apply frames_bind; [|intros ?] | apply frames_call; intros ?; framed | apply frames_call_; intros ?; framed | progress unfold when, tree_call, tree_call_, log | case_match ].

Lemma frames_mfsRoot : frames mfsRoot. Proof. unfold mfsRoot. frames_auto. Qed.
#[local] Hint Resolve frames_mfsRoot : frame.
Lemma frames_curRootNode : frames curRootNode. Proof. unfold curRootNode. frames_auto. Qed.
Lemma frames_PinRoot c : frames (PinRoot c). Proof. unfold PinRoot, dagAdd. frames_auto. Qed.
Lemma frames_outputDagnode n c : frames (outputDagnode n c). Proof. unfold outputDagnode. frames_auto. Qed.
#[local] Hint Resolve frames_curRootNode frames_PinRoot frames_outputDagnode : frame.
Lemma frames_addNode c p : frames (addNode c p). Proof. unfold addNode, mkdir, putNode. frames_auto. Qed.
Lemma frames_add content : frames (add content).
Proof.
  unfold add. frames_auto. apply frames_call. intros w. pose proof (framed_layout content w) as Hl. by destruct (layout content w) as [[r bs] w'].
Qed.
Lemma frames_add_prologue : frames add_prologue. Proof. unfold add_prologue, maybePauseForGC. frames_auto. Qed.
#[local] Hint Resolve frames_addNode frames_add frames_add_prologue : frame.

Fixpoint frames_outputDirs path f {struct f} : frames (outputDirs path f).
Proof.
  destruct f as [n|[names|e] n]; cbn; [auto with frame| |auto with frame]. apply frames_bind; [|intros _; frames_auto].
  induction names as [|[name [child|e]] names IH]; [auto with frame| |auto with frame].
  apply frames_bind; [apply frames_outputDirs|intros _; exact IH].
Qed.

Fixpoint frames_addFileNode path f top {struct f} : frames (addFileNode path f top).
Proof.
  destruct f as [es ie|t|c r|]; cbn [addFileNode]; (apply frames_bind; [auto with frame|intros _]).
  - unfold mkdir_of, mkdir. apply frames_bind; [frames_auto|intros _]. induction es as [|[name f] es IH]; [frames_auto|].
    apply frames_bind; [apply frames_addFileNode|intros _; exact IH].
  - unfold addSymlink, dagAdd. frames_auto.
  - unfold addFile. frames_auto.
  - auto with frame.
Qed.
#[local] Hint Resolve frames_outputDirs frames_addFileNode : frame.

Lemma frames_AddAllAndPin file : frames (AddAllAndPin file).
Proof.
  assert (Ha : frames (add_all file)) by (unfold add_all; frames_auto).
  unfold AddAllAndPin. apply frames_bind; [auto with frame|intros p]. apply frames_bind; [frames_auto|intros _].
  intros s. unfold finally_unlock. specialize (Ha s). destruct (add_all file s) as [r s1]. by destruct (unlocker s1).
Qed.
End Frame.

(** *** The root and its pin *)
Section Guarded.
Context `{AdderEnv}.

Definition under_lock (pin lock : bool) (_ : option cid) : Prop := pin = true /\ lock = true.

(** Parts of the trace that keep the lock; that keep it with nothing pending; that
    leave nothing pending; that keep the root that was computed; that end with it
    computed; that end with it pinned. *)
Definition any_held (b : bool) (seg : list event) : Prop := forall p, held p -> exists p', accepts p seg = Some p' /\ held p'.
Definition lock_safe (b : bool) (seg : list event) : Prop :=
  forall p, settled p -> exists p', accepts p seg = Some p' /\ held p' /\ (b = true -> settled p').
Definition clears (seg : list event) : Prop := forall p, held p -> exists p', accepts p seg = Some p' /\ settled p'.
Definition at_root (c : cid) (b : bool) (seg : list event) : Prop :=
  forall q f, exists q' f', accepts (Held false (Some c) q f) seg = Some (Held false (Some c) q' f').
Definition rooted (c : cid) (seg : list event) : Prop := forall p, settled p -> exists q f, accepts p seg = Some (Held false (Some c) q f).
Definition pinned_root (c : cid) : protection := Held false (Some c) (Some c) true.
Definition pinned_at (c : cid) (seg : list event) : Prop :=
  (forall q f, accepts (Held false (Some c) q f) seg = Some (pinned_root c)) /\ exists pre, seg = pre ++ [Pinned c; Flushed].
Definition add_done (c : cid) (seg : list event) : Prop :=
  (forall p, settled p -> accepts p seg = Some (pinned_root c)) /\ exists pre, seg = pre ++ [Pinned c; Flushed].

#[local] Instance any_held_segments : Segments any_held.
Proof.
  split; [by intros b p Hp; exists p|]. intros b l1 l2 P1 P2 p Hp. destruct (P1 p Hp) as (p1 & A1 & Hp1). destruct (P2 p1 Hp1) as (p2 & A2 & Hp2).
  exists p2. by rewrite accepts_app, A1.
Qed.
#[local] Instance lock_safe_segments : Segments lock_safe.
Proof.
  split; [by intros b p Hp; exists p; split_and!; [|apply settled_held|]|]. intros b l1 l2 P1 P2 p Hp.
  destruct (P1 p Hp) as (p1 & A1 & _ & Hp1). destruct (P2 p1 (Hp1 eq_refl)) as (p2 & A2 & Hp2). exists p2. by rewrite accepts_app, A1.
Qed.
#[local] Instance at_root_segments c : Segments (at_root c).
Proof.
  split; [by intros b q f; exists q, f|]. intros b l1 l2 P1 P2 q f. destruct (P1 q f) as (q1 & f1 & A1). destruct (P2 q1 f1) as (q2 & f2 & A2).
  exists q2, f2. by rewrite accepts_app, A1.
Qed.

Lemma any_held_event b e : (forall x r q f, exists p', protect (Held x r q f) e = Some p' /\ held p') -> any_held b [e].
Proof. intros He [|x r q f] Hp; [done|]. destruct (He x r q f) as (p' & E & Hp'). exists p'. cbn [accepts]. by rewrite E. Qed.
Lemma lock_safe_event b e : (forall r q f, exists p', protect (Held false r q f) e = Some p' /\ settled p') -> lock_safe b [e].
Proof.
  intros He [|x r q f] Hp; [done|]. cbn in Hp. subst x. destruct (He r q f) as (p' & E & Hp'). exists p'. cbn [accepts]. rewrite E.
  split_and!; [done|by apply settled_held|done].
Qed.
Lemma at_root_event c b e : (forall q f, exists q' f', protect (Held false (Some c) q f) e = Some (Held false (Some c) q' f')) -> at_root c b [e].
Proof. intros He q f. destruct (He q f) as (q' & f' & E). exists q', f'. cbn [accepts]. by rewrite E. Qed.
#[local] Hint Extern 1 (any_held _ [_]) => (apply any_held_event; intros; eexists; split; [reflexivity|exact I]) : adder.
#[local] Hint Extern 1 (lock_safe _ [_]) => (apply lock_safe_event; intros; eexists; split; [reflexivity|reflexivity]) : adder.
#[local] Hint Extern 1 (at_root _ _ [_]) => (apply at_root_event; intros; do 2 eexists; reflexivity) : adder.
Lemma any_held_wrote c : any_held true [Wrote c].
Proof. apply any_held_event. intros. eexists. split; [reflexivity|]. by destruct (bool_decide _). Qed.
Lemma at_root_wrote c : at_root c true [Wrote c].
Proof. apply at_root_event. intros q f. exists q, f. cbn. by rewrite bool_decide_eq_true_2. Qed.
#[local] Hint Resolve any_held_wrote at_root_wrote : adder.

Lemma guarded_set_tempRoot J `{!Segments J} c : runs under_lock J (set_tempRoot c). Proof. apply runs_same; [apply _|done]. Qed.
#[local] Hint Resolve guarded_set_tempRoot : adder.

Lemma bind_asks {A B} (f : Adder -> A) (k : A -> st B) s : bind (asks f) k s = k (f s) s.
Proof. done. Qed.

Lemma ends_pin {B} E K (k : bool -> st B) : ends under_lock E K (k true) -> ends under_lock E K (bind (asks Pin) k).
Proof. intros Hk s Hs. rewrite bind_asks. pose proof Hs as [Hp _]. rewrite Hp. by apply Hk. Qed.

(** A part that keeps the computed root before one that ends with it pinned. *)
Lemma ends_at_root c {A} (m : st A) (k : A -> st unit) :
  runs under_lock (at_root c) m -> (forall a, ends under_lock (at_root c false) (fun _ => pinned_at c) (k a)) ->
  ends under_lock (at_root c false) (fun _ => pinned_at c) (bind m k).
Proof.
  intros Hm Hk. apply (ends_bind under_lock _ _ _ _ _ _ m k Hm Hk); [done|intros _; apply segments_app|].
  intros _ _ l1 l2 P1 [P2 [pre ->]]. split; [|exists (l1 ++ pre); by rewrite (assoc (++))]. intros q f. destruct (P1 q f) as (q1 & f1 & A1).
  by rewrite accepts_app, A1.
Qed.

Lemma ends_pinned c : ends under_lock (at_root c false) (fun _ => pinned_at c)
  (bind (log (Pinned c)) (fun _ => bind (call_ pin_Flush) (fun _ => log Flushed))).
Proof.
  intros s Hs. unfold bind, log, logs, call_. cbn. destruct (pin_Flush (world s)) as [[e|] w]; cbn; (split; [done|]).
  - exists [Pinned c]. split; [done|]. intros q f. by do 2 eexists.
  - exists [Pinned c; Flushed]. split; [by rewrite <- (assoc (++))|]. split; [done|]. by exists [].
Qed.

Lemma ends_PinRoot c : ends under_lock (at_root c false) (fun _ => pinned_at c) (PinRoot c).
Proof.
  unfold PinRoot. apply ends_pin. cbn [negb]. apply ends_at_root; [unfold dagAdd; runs_auto|intros _].
  apply ends_at_root; [auto with adder|intros t]. apply ends_at_root; [destruct t; runs_auto|intros _].
  apply ends_at_root; [auto with adder|intros _]. apply ends_pinned.
Qed.

(** A part that keeps the lock before one that ends with the root computed, or pinned. *)
Lemma ends_lock_safe {A B} (K : B -> list event -> Prop) (m : st A) (k : A -> st B) :
  (forall b l1 l2, lock_safe true l1 -> K b l2 -> K b (l1 ++ l2)) -> runs under_lock lock_safe m ->
  (forall a, ends under_lock (lock_safe false) K (k a)) -> ends under_lock (lock_safe false) K (bind m k).
Proof. intros HK Hm Hk. apply (ends_bind under_lock _ _ _ _ _ _ m k Hm Hk); [done|intros _; apply segments_app|]. intros _ b l1 l2. apply HK. Qed.

Lemma rooted_app c l1 l2 : lock_safe true l1 -> rooted c l2 -> rooted c (l1 ++ l2).
Proof. intros P1 P2 p Hp. destruct (P1 p Hp) as (p1 & A1 & _ & Hp1). rewrite accepts_app, A1. by apply P2, Hp1. Qed.

Lemma ends_log_root c : ends under_lock (lock_safe false) rooted (bind (log (Root c)) (fun _ => ret c)).
Proof.
  intros s Hs. split; [done|]. exists [Root c]. split; [done|]. intros [|x r q f] Hp; [done|]. cbn in Hp. subst x. cbn. eauto.
Qed.

Lemma ends_curRootNode : ends under_lock (lock_safe false) rooted curRootNode.
Proof.
  unfold curRootNode. apply ends_lock_safe; [apply rooted_app|apply runs_mfsRoot; auto with adder; apply _|intros _].
  apply ends_lock_safe; [apply rooted_app|apply runs_tree_call; auto with adder; apply _|intros r].
  apply ends_lock_safe; [apply rooted_app|repeat case_match; runs_auto|intros c]. apply ends_log_root.
Qed.

Lemma at_root_safe c l1 l2 : rooted c l1 -> at_root c false l2 -> lock_safe false (l1 ++ l2).
Proof.
  intros P1 P2 p Hp. destruct (P1 p Hp) as (q & f & A1). destruct (P2 q f) as (q' & f' & A2). rewrite accepts_app, A1, A2. eexists.
  split_and!; [done|done|discriminate].
Qed.

Lemma ends_pause c : ends under_lock (at_root c false) (fun _ seg => forall q f, accepts (Held false (Some c) q f) seg = Some (Held false None None false))
  (bind (PinRoot c) (fun _ => bind (log Unlock) (fun _ => bind (set_unlocker true) (fun _ => log PinLock)))).
Proof.
  apply (ends_bind under_lock (at_root c false) (at_root c false) (fun _ => pinned_at c) (fun _ _ => False) (fun _ _ l => l = [Unlock; PinLock])).
  - apply ends_PinRoot.
  - intros _ s Hs. destruct Hs. split; [done|]. exists [Unlock; PinLock]. split; [|done]. cbn. by rewrite <- (assoc (++)).
  - done.
  - done.
  - intros _ _ l1 l2 [P1 _] -> q f. rewrite accepts_app, P1. cbn. by rewrite !bool_decide_eq_true_2.
Qed.

Lemma guarded_maybePauseForGC : runs under_lock lock_safe maybePauseForGC.
Proof.
  unfold maybePauseForGC. apply runs_bind; [apply _|auto with adder|]. intros [|]; [|auto with adder].
  apply runs_bind; [apply _|auto with adder|]. intros [|]; [|auto with adder].
  apply (ends_bind under_lock _ _ _ _ _ _ _ _ ends_curRootNode ends_pause); [done|intros c l1 l2; apply at_root_safe|].
  intros c _ l1 l2 P1 P2 p Hp. destruct (P1 p Hp) as (q & f & A1). rewrite accepts_app, A1, P2. by eexists.
Qed.

(** What [addNode] puts is what was pending. *)
Lemma ends_put path c : ends under_lock (any_held false) (fun _ => clears) (putNode path c).
Proof.
  unfold putNode. apply (ends_bind under_lock (any_held false) _ (fun _ => any_held true) (fun _ _ => False) (fun _ _ l => l = [Put path c])).
  - apply runs_tree_call_; [apply _|auto with adder].
  - intros _. by apply ends_logs.
  - done.
  - done.
  - intros _ _ l1 l2 P1 -> p Hp. destruct (P1 p Hp) as (p1 & A1 & Hp1). rewrite accepts_app, A1. destruct p1; [done|]. by eexists.
Qed.

Lemma clears_app l1 l2 b : clears l1 -> lock_safe b l2 -> any_held b (l1 ++ l2).
Proof.
  intros P1 P2 p Hp. destruct (P1 p Hp) as (p1 & A1 & Hp1). destruct (P2 p1 Hp1) as (p2 & A2 & Hp2 & _). exists p2. by rewrite accepts_app, A1.
Qed.
Lemma clears_safe l1 l2 : clears l1 -> lock_safe true l2 -> clears (l1 ++ l2).
Proof.
  intros P1 P2 p Hp. destruct (P1 p Hp) as (p1 & A1 & Hp1). destruct (P2 p1 Hp1) as (p2 & A2 & _ & Hs). exists p2. rewrite accepts_app, A1. auto.
Qed.
Lemma held_clears l1 l2 : any_held true l1 -> clears l2 -> clears (l1 ++ l2).
Proof. intros P1 P2 p Hp. destruct (P1 p Hp) as (p1 & A1 & Hp1). rewrite accepts_app, A1. by apply P2. Qed.

Lemma ends_any {A} (m : st A) (k : A -> st unit) :
  runs under_lock any_held m -> (forall a, ends under_lock (any_held false) (fun _ => clears) (k a)) ->
  ends under_lock (any_held false) (fun _ => clears) (bind m k).
Proof. intros Hm Hk. apply (ends_bind under_lock _ _ _ _ _ _ m k Hm Hk); [done|intros _; apply segments_app|]. intros _ _. apply held_clears. Qed.

Lemma ends_addNode c path : ends under_lock (any_held false) (fun _ => clears) (addNode c path).
Proof.
  unfold addNode. apply ends_any; [apply runs_mfsRoot; auto with adder; apply _|intros _].
  apply ends_any; [unfold when; case_match; [apply runs_mkdir; auto with adder; apply _|runs_auto]|intros _].
  apply (ends_bind under_lock (any_held false) _ (fun _ => clears) (fun _ => lock_safe false) (fun _ _ => lock_safe true)); [apply ends_put| |done| |].
  - intros _. apply (runs_bind under_lock lock_safe); [auto with adder|intros b]. unfold when. case_match; [by apply runs_outputDagnode; apply _|runs_auto].
  - intros _ l1 l2. apply clears_app.
  - intros _ _. apply clears_safe.
Qed.

Lemma clears_runs (m : st unit) : ends under_lock (any_held false) (fun _ => clears) m -> runs under_lock lock_safe m.
Proof.
  apply ends_weaken; [|intros _]; intros l P p Hp.
  - destruct (P p (settled_held p Hp)) as (p' & A & Hp'). by exists p'.
  - destruct (P p (settled_held p Hp)) as (p' & A & Hp'). exists p'. split_and!; [done|by apply settled_held|done].
Qed.

Lemma guarded_addSymlink path t : runs under_lock lock_safe (addSymlink path t).
Proof.
  apply clears_runs. unfold addSymlink. apply ends_any; [runs_auto|intros c]. apply ends_any; [unfold dagAdd; runs_auto|intros _]. apply ends_addNode.
Qed.

Lemma guarded_addFile path c r : runs under_lock lock_safe (addFile path c r).
Proof.
  apply clears_runs. unfold addFile. apply ends_any; [runs_auto|intros b]. apply ends_any; [runs_auto|intros _].
  apply ends_any; [apply runs_add; auto with adder|intros nd]. apply ends_addNode.
Qed.
#[local] Hint Resolve guarded_maybePauseForGC guarded_addSymlink guarded_addFile : adder.

(** The end of the add, from the root on. *)
Lemma ends_final nd path f : ends under_lock (at_root nd false) (fun c l => c = nd /\ pinned_at nd l)
  (bind (outputDirs path f) (fun _ => bind (call_ ds_Sync) (fun _ => bind (asks Pin) (fun pin =>
     if negb pin : bool then ret nd else bind (PinRoot nd) (fun _ => ret nd))))).
Proof.
  assert (Hk : forall l1 l2 c, at_root nd true l1 -> c = nd /\ pinned_at nd l2 -> c = nd /\ pinned_at nd (l1 ++ l2)).
  { intros l1 l2 c P1 [-> [P2 [pre ->]]]. split; [done|]. split; [|exists (l1 ++ pre); by rewrite (assoc (++))].
    intros q f0. destruct (P1 q f0) as (q1 & f1 & A1). by rewrite accepts_app, A1. }
  eapply (ends_bind under_lock (at_root nd false) _ (fun _ => at_root nd true) (fun _ => at_root nd false) (fun _ c l => c = nd /\ pinned_at nd l));
    [apply runs_outputDirs; apply _|intros _|done|intros _; apply segments_app|intros _ c l1 l2; apply Hk].
  eapply (ends_bind under_lock (at_root nd false) _ (fun _ => at_root nd true) (fun _ => at_root nd false) (fun _ c l => c = nd /\ pinned_at nd l));
    [apply (runs_call_ under_lock (at_root nd))|intros _|done|intros _; apply segments_app|intros _ c l1 l2; apply Hk].
  apply ends_pin. cbn [negb].
  apply (ends_bind under_lock (at_root nd false) _ (fun _ => pinned_at nd) (fun _ _ => False) (fun _ c l => c = nd /\ l = [])); [apply ends_PinRoot| |done|done|].
  - intros _ s Hs. split; [done|]. exists []. by rewrite app_nil_r.
  - intros _ c l1 l2 P1 [-> ->]. by rewrite app_nil_r.
Qed.

Lemma add_done_app c l1 l2 : lock_safe true l1 -> add_done c l2 -> add_done c (l1 ++ l2).
Proof.
  intros P1 [P2 [pre ->]]. split; [|exists (l1 ++ pre); by rewrite (assoc (++))]. intros p Hp. destruct (P1 p Hp) as (p1 & A1 & _ & Hp1).
  rewrite accepts_app, A1. by apply P2, Hp1.
Qed.

Lemma ends_add_all file : ends under_lock (lock_safe false) add_done (add_all file).
Proof.
  unfold add_all. apply ends_lock_safe; [apply add_done_app|apply runs_addFileNode; auto with adder; apply _|intros _].
  apply ends_lock_safe; [apply add_done_app|apply runs_mfsRoot; auto with adder; apply _|intros _].
  apply ends_lock_safe; [apply add_done_app|apply runs_tree_call_; auto with adder; apply _|intros _].
  apply ends_lock_safe; [apply add_done_app|destruct file; runs_auto|intros nr].
  apply ends_lock_safe; [apply add_done_app|apply runs_tree_call_; auto with adder; apply _|intros _].
  apply ends_lock_safe; [apply add_done_app|auto with adder|intros nd].
  eapply (ends_bind under_lock _ _ (fun _ l => l = [Root nd]) _ _ _ _ _ (ends_logs _ (lock_safe false) _ _ eq_refl) (fun _ => ends_final nd nr.1 nr.2)); [done| |].
  - intros _ l1 l2 -> P2. apply (at_root_safe nd); [|done]. intros [|x r q f] Hp; [done|]. cbn in Hp. subst x. cbn. eauto.
  - intros _ c l1 l2 -> [-> [P2 [pre ->]]]. split; [|by exists (Root nd :: pre)]. intros [|x r q f] Hp; [done|]. cbn in Hp. subst x. apply P2.
Qed.

(** Nothing is ever unpinned. *)
Definition no_temp (_ _ : bool) (t : option cid) : Prop := t = None.
Definition no_unpin (_ : bool) (seg : list event) : Prop := forall c, Unpinned c ∉ seg.

#[local] Instance no_unpin_segments : Segments no_unpin.
Proof. split; [by intros b c Hc%not_elem_of_nil|]. intros b l1 l2 P1 P2 c [Hc|Hc]%elem_of_app; [by apply (P1 c)|by apply (P2 c)]. Qed.

Lemma no_unpin_event b e : (forall c, e <> Unpinned c) -> no_unpin b [e].
Proof. intros He c Hc%list_elem_of_singleton. by destruct (He c). Qed.
#[local] Hint Extern 1 (no_unpin _ [_]) => (apply no_unpin_event; discriminate) : adder.

Lemma unpinless_PinRoot c : runs no_temp no_unpin (PinRoot c).
Proof.
  unfold PinRoot. apply runs_bind; [apply _|auto with adder|]. intros [|]; cbn [negb]; [|auto with adder].
  apply runs_bind; [apply _|unfold dagAdd; runs_auto|intros _]. intros s Hs. rewrite bind_asks. pose proof Hs as Ht. unfold holds, no_temp in Ht.
  rewrite Ht. clear Ht. revert s Hs. apply (runs_bind no_temp no_unpin); [runs_auto|intros _; runs_auto].
Qed.

Lemma unpinless_set_unlocker b : runs no_temp no_unpin (set_unlocker b). Proof. apply runs_same; [apply _|done]. Qed.
#[local] Hint Resolve unpinless_set_unlocker unpinless_PinRoot : adder.
Lemma unpinless_curRootNode : runs no_temp no_unpin curRootNode.
Proof. apply runs_curRootNode; auto with adder; apply _. Qed.
#[local] Hint Resolve unpinless_curRootNode : adder.
Lemma unpinless_maybePauseForGC : runs no_temp no_unpin maybePauseForGC.
Proof. unfold maybePauseForGC. runs_auto. Qed.
#[local] Hint Resolve unpinless_maybePauseForGC : adder.
Lemma unpinless_add_all file : runs no_temp no_unpin (add_all file).
Proof.
  apply runs_add_all; auto with adder; try apply _; intros; first [apply files_addSymlink | apply files_addFile]; auto with adder; apply _.
Qed.

(** *** What is put into the tree *)

Inductive leaf := LSymlink (target : string) | LFile (content : string).

Fixpoint leaves (path : string) (f : fnode) {struct f} : list (string * leaf) :=
  match f with
  | FDir entries _ =>
      (fix entries_leaves (l : list (string * fnode)) : list (string * leaf) :=
         match l with [] => [] | (name, f) :: l => leaves (Join path name) f ++ entries_leaves l end) entries
  | FSymlink target => [(path, LSymlink target)]
  | FFile content _ => [(path, LFile content)]
  | FUnknown => []
  end.

Definition puts (seg : list event) : list (string * cid) := omap (fun e => match e with Put p c => Some (p, c) | _ => None end) seg.

(** The node of a link, or a node the importer made of the content of a file. *)
Definition node_of (l : leaf) (c : cid) : Prop :=
  match l with
  | LSymlink target => SymlinkNode target = Ok c
  | LFile content => exists w blocks w', layout content w = (Ok c, blocks, w')
  end.

(** A node is put at its path, or named by its CID when that is empty. *)
Definition put_at (l : string * leaf) (pc : string * cid) : Prop :=
  pc.1 = (if String.eqb l.1 "" then pc.2 else l.1) /\ node_of l.2 pc.2.

(** A computation that puts nodes at the paths [l], or at the first of them when it fails. *)
Definition adds (l : list (string * leaf)) {A} (m : st A) : Prop := forall s, exists seg, trace (m s).2 = trace s ++ seg /\
  match (m s).1 with Ok _ => Forall2 put_at l (puts seg) | Err _ => exists l', l' `prefix_of` l /\ Forall2 put_at l' (puts seg) end.

Lemma adds_bind {A B} l1 l2 (m : st A) (k : A -> st B) : adds l1 m -> (forall a, adds l2 (k a)) -> adds (l1 ++ l2) (bind m k).
Proof.
  intros Hm Hk s. unfold bind. destruct (Hm s) as (seg1 & E1 & P1). destruct (m s) as [[a|e] s1]; cbn [fst snd] in *.
  - destruct (Hk a s1) as (seg2 & E2 & P2). exists (seg1 ++ seg2). rewrite E2, E1, (assoc (++)). split; [done|]. unfold puts. rewrite omap_app.
    destruct (k a s1).1; [by apply Forall2_app|]. destruct P2 as (l' & Hl & P2). exists (l1 ++ l'). split; [by apply list.prefix_app|by apply Forall2_app].
  - destruct P1 as (l' & Hl & P1). exists seg1. split; [done|]. exists l'. split; [by apply list.prefix_app_r|done].
Qed.
Lemma adds_bind_l {A B} l (m : st A) (k : A -> st B) : adds l m -> (forall a, adds [] (k a)) -> adds l (bind m k).
Proof. intros Hm Hk. rewrite <- (app_nil_r l). by apply adds_bind. Qed.
Lemma adds_bind_r {A B} l (m : st A) (k : A -> st B) : adds [] m -> (forall a, adds l (k a)) -> adds l (bind m k).
Proof. intros Hm Hk. change l with ([] ++ l). by apply adds_bind. Qed.

Definition no_puts (_ : bool) (seg : list event) : Prop := puts seg = [].
#[local] Instance no_puts_segments : Segments no_puts.
Proof. split; [done|]. unfold no_puts, puts. intros _ l1 l2 P1 P2. by rewrite omap_app, P1, P2. Qed.
#[local] Hint Extern 1 (no_puts _ [_]) => (exact eq_refl) : adder.

Definition any (_ _ : bool) (_ : option cid) : Prop := True.
Lemma adds_none {A} (m : st A) : runs any no_puts m -> adds [] m.
Proof.
  intros Hm s. destruct (Hm s I) as [_ (seg & E & P)]. exists seg. split; [done|].
  destruct (m s).1; unfold no_puts in P; rewrite P; [constructor|by exists []].
Qed.

Lemma putless_set_tempRoot c : runs any no_puts (set_tempRoot c). Proof. apply runs_same; [apply _|done]. Qed.
Lemma putless_set_unlocker b : runs any no_puts (set_unlocker b). Proof. apply runs_same; [apply _|done]. Qed.
#[local] Hint Resolve putless_set_tempRoot putless_set_unlocker : adder.
Lemma putless_tree_call {A} (f : W -> result A * W) : runs any no_puts (tree_call f). Proof. unfold tree_call. runs_auto. Qed.
Lemma putless_tree_call_ f : runs any no_puts (tree_call_ f). Proof. unfold tree_call_. runs_auto. Qed.
Lemma putless_dagAdd c : runs any no_puts (dagAdd c). Proof. unfold dagAdd. runs_auto. Qed.
#[local] Hint Resolve putless_tree_call putless_tree_call_ putless_dagAdd : adder.
Lemma putless_mkdir p : runs any no_puts (mkdir p). Proof. unfold mkdir. runs_auto. Qed.
Lemma putless_mfsRoot : runs any no_puts mfsRoot. Proof. unfold mfsRoot. runs_auto. Qed.
#[local] Hint Resolve putless_mfsRoot putless_mkdir : adder.
Lemma putless_PinRoot c : runs any no_puts (PinRoot c). Proof. unfold PinRoot. runs_auto. Qed.
Lemma putless_outputDagnode n c : runs any no_puts (outputDagnode n c). Proof. unfold outputDagnode. runs_auto. Qed.
Lemma putless_curRootNode : runs any no_puts curRootNode. Proof. unfold curRootNode. runs_auto. Qed.
#[local] Hint Resolve putless_PinRoot putless_outputDagnode putless_curRootNode : adder.
Lemma putless_add_prologue : runs any no_puts add_prologue. Proof. unfold add_prologue, maybePauseForGC. runs_auto. Qed.
Lemma putless_mkdir_of p t : runs any no_puts (mkdir_of p t). Proof. unfold mkdir_of. runs_auto. Qed.

Fixpoint putless_outputDirs path f {struct f} : runs any no_puts (outputDirs path f).
Proof.
  destruct f as [n|[names|e] n]; cbn; [auto with adder| |auto with adder]. apply runs_bind; [apply _| |intros _; runs_auto].
  induction names as [|[name [child|e]] names IH]; [auto with adder| |auto with adder].
  apply runs_bind; [apply _|apply putless_outputDirs|intros _; exact IH].
Qed.
#[local] Hint Resolve putless_outputDirs putless_mkdir_of putless_add_prologue : adder.

Lemma adds_putNode path l c : node_of l c -> adds [(path, l)] (putNode (if String.eqb path "" then c else path) c).
Proof.
  intros Hn. unfold putNode. apply adds_bind_r; [apply adds_none; auto with adder|intros _].
  intros s. eexists [_]. split; [done|]. cbn. by repeat constructor.
Qed.

Lemma adds_addNode path l c : node_of l c -> adds [(path, l)] (addNode c path).
Proof.
  intros Hn. unfold addNode. apply adds_bind_r; [apply adds_none; auto with adder|intros _]. apply adds_bind_r; [apply adds_none; runs_auto|intros _].
  apply adds_bind_l; [by apply adds_putNode|intros _]. apply adds_none. runs_auto.
Qed.

(** A failure before anything is put, and what a success tells. *)
Lemma adds_of_result {A B} l (r : result A) (k : A -> st B) : (forall a, r = Ok a -> adds l (k a)) -> adds l (bind (of_result r) k).
Proof.
  intros Hk s. unfold bind, of_result. destruct r as [a|e]; [by apply Hk|]. exists []. cbn. rewrite app_nil_r. split; [done|].
  exists []. split; [apply prefix_nil|constructor].
Qed.

Lemma puts_wrote bs : puts (Wrote <$> bs) = []. Proof. by induction bs. Qed.

Lemma adds_add {B} l content (k : cid -> st B) : (forall c, node_of (LFile content) c -> adds l (k c)) -> adds l (bind (add content) k).
Proof.
  intros Hk s. destruct (layout content (world s)) as [[r bs] w] eqn:E.
  set (s1 := MkAdder (Pin s) (Silent s) (Progress s) (mroot s) (unlocker s) (tempRoot s) (liveNodes s) (Out s) (gc_requests s) (trace s ++ (Wrote <$> bs)) w).
  assert (Ha : add content s = (r, s1)).
  { unfold add, bind at 1, call. cbn beta. rewrite E. cbn beta iota. unfold bind, logs, of_result. by destruct r. }
  unfold bind. rewrite Ha. destruct r as [c|e]; cbn [fst snd].
  - destruct (Hk c (ltac:(by eexists _, _, _)) s1) as (seg & T & P). exists ((Wrote <$> bs) ++ seg). split; [rewrite T; symmetry; apply (assoc (++))|].
    replace (puts ((Wrote <$> bs) ++ seg)) with (puts seg); [done|]. unfold puts. rewrite omap_app. fold (puts (Wrote <$> bs)). by rewrite puts_wrote.
  - exists (Wrote <$> bs). split; [done|]. rewrite puts_wrote. exists []. split; [apply prefix_nil|constructor].
Qed.

Fixpoint adds_addFileNode path f top {struct f} : adds (leaves path f) (addFileNode path f top).
Proof.
  destruct f as [es ie|t|c r|]; cbn [addFileNode leaves]; (apply adds_bind_r; [apply adds_none; auto with adder|intros _]).
  - apply adds_bind_r; [apply adds_none; auto with adder|intros _]. induction es as [|[name f] es IH]; [apply adds_none; runs_auto|].
    apply adds_bind; [apply adds_addFileNode|intros _; exact IH].
  - unfold addSymlink. apply adds_of_result. intros nd Hn. apply adds_bind_r; [apply adds_none; auto with adder|intros _]. by apply adds_addNode.
  - unfold addFile. do 2 (apply adds_bind_r; [apply adds_none; runs_auto|intros ?]). apply adds_add. intros nd Hn. by apply adds_addNode.
  - apply adds_none. runs_auto.
Qed.

(** *** Progress *)

Fixpoint spaced (from : Z) (marks : list Z) (to : Z) : Prop :=
  match marks with [] => from <= to | m :: marks => from + progressReaderIncrement <= m /\ spaced m marks to end.

Definition total (reads : list (Z * bool)) : Z := foldr (fun r t => r.1 + t) 0 reads.

(** How many bytes were read after each of the reads. *)
Fixpoint running (from : Z) (reads : list (Z * bool)) : list Z :=
  match reads with [] => [] | r :: reads => (from + r.1) :: running (from + r.1) reads end.

(** The bytes read when something was last reported are never as much as the
    increment behind. *)
Definition reported (from : Z) (marks : list Z) (t : Z) : Prop := exists m, m ∈ from :: marks /\ m <= t < m + progressReaderIncrement.

Lemma total_nonneg reads : Forall (fun r => 0 <= r.1 /\ r.2 = false) reads -> 0 <= total reads.
Proof. induction 1 as [|r reads [Hr _] _ IH]; [done|]. cbn [total foldr]. fold (total reads). lia. Qed.

Lemma progress_inner path reads i :
  Forall (fun r => 0 <= r.1 /\ r.2 = false) reads -> 0 <= lastProgress i <= pr_bytes i -> pr_bytes i < lastProgress i + progressReaderIncrement ->
  pr_bytes i + total reads < 2 ^ 63 ->
  exists marks l, foldl (fun i r => progress_Read path r i) i reads =
    MkProgress (pr_bytes i + total reads) l (events i ++ map (Progress_ path) marks) /\ 0 <= l <= pr_bytes i + total reads /\
    spaced (lastProgress i) marks (pr_bytes i + total reads) /\ Forall (fun m => m ∈ running (pr_bytes i) reads) marks /\
    Forall (reported (lastProgress i) marks) (running (pr_bytes i) reads).
Proof.
  intros Hr. revert i. induction Hr as [|[n e] reads [Hn He] Hr IH]; intros i Hl Hi Hb.
  { exists [], (lastProgress i). destruct i as [b l ev]. cbn in *. rewrite app_nil_r, Z.add_0_r. split_and!; [done|lia..|constructor|constructor]. }
  cbn in Hn, He. subst e. cbn [total foldr fst] in Hb. fold (total reads) in Hb. pose proof (total_nonneg reads Hr) as Ht.
  cbn [foldl total foldr fst running]. fold (total reads). rewrite Z.add_assoc in *. unfold progress_Read at 2. cbn [fst snd]. rewrite orb_false_r.
  rewrite (i64_small (pr_bytes i + n)) by lia. rewrite (i64_small (pr_bytes i + n - lastProgress i)) by lia.
  destruct (Z.leb_spec progressReaderIncrement (pr_bytes i + n - lastProgress i)) as [Hle|Hlt].
  - destruct (IH (MkProgress (pr_bytes i + n) (pr_bytes i + n) (events i ++ [Progress_ path (pr_bytes i + n)]))) as (marks & l & E & Hl2 & Hs & Hm & Hrep);
      [cbn; lia|cbn; unfold progressReaderIncrement; lia|cbn; lia|]. cbn [pr_bytes lastProgress events] in *.
    exists (pr_bytes i + n :: marks), l. rewrite E, <- (assoc (++)). split_and!; [done|lia|lia|split; [lia|done]| |].
    + constructor; [by left|]. apply (Forall_impl _ _ _ Hm). intros m. by right.
    + constructor; [exists (pr_bytes i + n); split; [by right; left|unfold progressReaderIncrement; lia]|].
      apply (Forall_impl _ _ _ Hrep). intros t (m & Hin & Hlt). exists m. split; [by right|done].
  - destruct (IH (MkProgress (pr_bytes i + n) (lastProgress i) (events i))) as (marks & l & E & Hl2 & Hs & Hm & Hrep); [cbn; lia..|].
    cbn [pr_bytes lastProgress events] in *. exists marks, l. split_and!; [done|lia|lia|done| |].
    + apply (Forall_impl _ _ _ Hm). intros m. by right.
    + constructor; [|done]. exists (lastProgress i). split; [by left|lia].
Qed.

(** ** Theorems *)

(** The part of the trace between the first lock and the deferred unlock. *)
Lemma AddAllAndPin_trace file s r s' :
  Pin s = true -> AddAllAndPin file s = (r, s') ->
  exists seg, trace s' = trace s ++ PinLock :: seg ++ [Unlock] /\ match r with Ok c => add_done c seg | Err _ => lock_safe false seg end.
Proof.
  intros Hp. unfold AddAllAndPin. rewrite bind_asks, Hp. cbn [when]. unfold bind, log, logs, set_unlocker. cbn -[finally_unlock].
  set (s1 := MkAdder _ _ _ _ _ _ _ _ _ _ _). assert (L1 : holds under_lock s1) by done.
  unfold finally_unlock. destruct (ends_add_all file s1 L1) as [[_ L2] (seg & T2 & P2)]. destruct (add_all file s1) as [r1 s2]. cbn [fst snd] in *. rewrite L2.
  intros [= <- <-]. exists seg. split; [|done]. cbn. rewrite T2. cbn. by rewrite <- !(assoc (++)).
Qed.


(** An add that succeeds with pinning ends with the root it returns pinned and the
    pins flushed, and only then releases the pin lock. *)
Lemma AddAllAndPin_ends file s c s' :
  Pin s = true -> AddAllAndPin file s = (Ok c, s') -> exists pre, trace s' = pre ++ [Pinned c; Flushed; Unlock].
Proof.
  intros Hp E. destruct (AddAllAndPin_trace file s _ s' Hp E) as (seg & T & _ & pre & ->). exists (trace s ++ PinLock :: pre).
  rewrite T. cbn. by rewrite <- !(assoc (++)).
Qed.

(** C19: what an add puts into the tree is the tree it is given: one node for each
    file and symbolic link, in the order of the entries, at the path joined from
    the names above it (at its CID when that is empty), and the node is the one made
    of the link's target or the one the importer made of the file's content; a failed
    add has put the first of them. *)
Theorem adder_puts_tree file s r s' :
  AddAllAndPin file s = (r, s') ->
  exists seg, trace s' = trace s ++ seg /\
    match r with
    | Ok _ => Forall2 put_at (leaves "" file) (puts seg)
    | Err _ => exists l, l `prefix_of` leaves "" file /\ Forall2 put_at l (puts seg)
    end.
Proof.
  intros E. assert (Ha : adds (leaves "" file) (add_all file)).
  { unfold add_all. apply adds_bind_l; [apply adds_addFileNode|intros _]. apply adds_none. runs_auto. }
  cut (adds (leaves "" file) (AddAllAndPin file)); [intros Hs; destruct (Hs s) as (seg & H1 & H2); rewrite E in H1, H2; by exists seg|].
  unfold AddAllAndPin. do 2 (apply adds_bind_r; [apply adds_none; runs_auto|intros ?]). clear E. intros s1.
  destruct (Ha s1) as (seg & E & P). unfold finally_unlock. destruct (add_all file s1) as [r1 s2]. cbn [fst snd] in *.
  destruct (unlocker s2); [|by exists seg]. exists (seg ++ [Unlock]). split; [cbn; by rewrite E, (assoc (++))|].
  cbn [fst]. unfold puts. rewrite omap_app. cbn. by rewrite app_nil_r.
Qed.

(** C40: the progress of a file of fewer than 2^63 bytes read to its end is reported
    after reads, with the number of bytes read until then, in steps of at least 256
    KiB and never that much late, and the last report is the number of bytes read. *)
Theorem progress_reports path reads n :
  Forall (fun r => 0 <= r.1 /\ r.2 = false) reads -> 0 <= n -> total reads + n < 2 ^ 63 ->
  exists marks, progress_events path (reads ++ [(n, true)]) = map (Progress_ path) (marks ++ [total reads + n]) /\
    spaced 0 marks (total reads) /\ Forall (fun m => m ∈ running 0 reads) marks /\ Forall (reported 0 marks) (running 0 reads).
Proof.
  intros Hr Hn Hb. unfold progress_events. rewrite foldl_app. pose proof (total_nonneg reads Hr) as Ht.
  destruct (progress_inner path reads (MkProgress 0 0 []) Hr) as (marks & l & E & Hl & Hs & Hm & Hrep); [done|done|cbn; lia|].
  rewrite E. exists marks. cbn [pr_bytes lastProgress events app] in *. split_and!; [|done..]. cbn [foldl]. unfold progress_Read. cbn [fst snd].
  rewrite orb_true_r. cbn [events pr_bytes]. rewrite Z.add_0_l, i64_small by lia. by rewrite map_app.
Qed.

(** an adder without a temporary root, as [NewAdder] makes it, never gets one
    and never unpins: the roots pinned at the pauses for the collector stay
    pinned after the add. *)
Theorem adder_never_unpins file s r s' :
  tempRoot s = None -> AddAllAndPin file s = (r, s') ->
  tempRoot s' = None /\ exists seg, trace s' = trace s ++ seg /\ forall c, Unpinned c ∉ seg.
Proof.
  intros Ht E. cut (runs no_temp no_unpin (AddAllAndPin file)).
  { intros Hr. destruct (Hr s Ht) as [H1 (seg & T & P)]. rewrite E in H1, T, P. split; [done|]. exists seg. split; [done|]. by destruct r. }
  unfold AddAllAndPin. apply runs_bind; [apply _|auto with adder|intros p]. apply runs_bind; [apply _|runs_auto|intros _].
  clear. intros s Hs. unfold finally_unlock. destruct (unpinless_add_all file s Hs) as [H1 (seg & E & Hseg)].
  destruct (add_all file s) as [r s1]. cbn [fst snd] in *. destruct (unlocker s1); [|by split; [|exists seg]].
  split; [done|]. exists (seg ++ [Unlock]). split; [cbn; by rewrite E, (assoc (++))|].
  assert (Hq : no_unpin true (seg ++ [Unlock])) by (apply (segments_app (J := no_unpin)); [by destruct r|auto with adder]). by destruct r.
Qed.
End Guarded.

(** ** Witnesses *)
Module DemoAdd.

#[local] Instance env : AdderEnv := {|
  W := list (string * cid);
  mfs_NewRoot w := (Ok tt, w);
  mfs_RootNode w := (Ok ("root", w.*2), w);
  ds_GetNode c w := (Ok c, w);
  ds_Add _ w := (None, w);
  ds_Sync w := (None, w);
  Unpin _ w := (None, w);
  PinWithMode _ w := w;
  pin_Flush w := (None, w);
  mfs_Mkdir _ w := (None, w);
  mfs_PutNode p c w := (None, w ++ [(p, c)]);
  mfs_FlushMemFree w := (None, w);
  mfs_Flush w := (None, w);
  mfs_ListNames w := (Ok w.*1, w);
  mfs_Child name w := (Ok (FsFile (Ok name)), w);
  mfs_Root w := FsDir (Ok ((fun pc => (pc.1, Ok (FsFile (Ok pc.2)))) <$> w)) (Ok "root");
  mfs_Close w := (None, w);
  layout content w := (if String.eqb content "" then Err "empty" else Ok ("Qm" +:+ content), ["Qc" +:+ content; "Qm" +:+ content], w);
  SymlinkNode t := Ok ("Ql" +:+ t);
  node_Size _ := Ok 12;
|}.

Definition start : Adder := MkAdder true false true false false None 0 (Some []) [false; true; true; false] [] [].

Definition tree : fnode :=
  FDir [("a", FFile "x" [(1, true)]); ("d", FDir [("l", FSymlink "t"); ("b", FFile "y" [(262144, false); (5, true)])] None)] None.

(** Two collections are let in: after [a] was added and pinned, and again with nothing new. *)
Example run_demo : AddAllAndPin tree start =
  (Ok "root", MkAdder true false true true true None 5
     (Some [Progress_ "a" 1; AddedNode "a" "/ipfs/Qmx" "12"; AddedNode "d/l" "/ipfs/Qlt" "12"; Progress_ "d/b" 262144; Progress_ "d/b" 262149;
            AddedNode "d/b" "/ipfs/Qmy" "12"; AddedNode "" "/ipfs/root" "12"])
     [] (trace (AddAllAndPin tree start).2) [("a", "Qmx"); ("d/l", "Qlt"); ("d/b", "Qmy")]).
Proof. vm_compute. reflexivity. Qed.


Lemma adder_puts_tree_witness :
  exists seg, trace (AddAllAndPin tree start).2 = [] ++ seg /\
    Forall2 put_at [("a", LFile "x"); ("d/l", LSymlink "t"); ("d/b", LFile "y")] (puts seg).
Proof. exact (adder_puts_tree tree start (Ok "root") (AddAllAndPin tree start).2 ltac:(vm_compute; reflexivity)). Defined.

Lemma progress_reports_witness :
  exists marks, progress_events "f" ([(262143, false); (7, false)] ++ [(5, true)]) = map (Progress_ "f") (marks ++ [262155]) /\
    spaced 0 marks 262150 /\ Forall (fun m => m ∈ [262143; 262150]) marks /\ Forall (reported 0 marks) [262143; 262150].
Proof. apply (progress_reports "f" [(262143, false); (7, false)] 5); [by repeat constructor|done|done]. Defined.

Lemma adder_never_unpins_witness :
  tempRoot (AddAllAndPin tree start).2 = None /\
  exists seg, trace (AddAllAndPin tree start).2 = [] ++ seg /\ forall c, Unpinned c ∉ seg.
Proof. apply (adder_never_unpins tree start (AddAllAndPin tree start).1); [reflexivity|apply surjective_pairing]. Defined.

(** The root pinned at the first pause is still pinned when the final root is. *)
Example leftover_pin : Pinned "Qmx" ∈ trace (AddAllAndPin tree start).2 /\ Pinned "root" ∈ trace (AddAllAndPin tree start).2.
Proof. split; apply list_elem_of_In; vm_compute; tauto. Qed.
End DemoAdd.
