(* ===== verification/UnixfsAPI.v ===== *)
(** The UnixFS API: [core/coreapi/unixfs.go], over the adder of [Adder.v].

    [Add] chooses the block store, the exchange and the pinner the adder works on
    ([services_of]): the node's, or to hash only those of a node without a
    repository, with the tree kept over a mock DAG service.  The services are
    values of a state [hosts] and the choice is of references into it, so that an
    adder given the node's services changes the node.  [Ls] is the list of the
    entries sent on its channel. *)
From Stdlib Require Import ZArith Lia String.
From stdpp Require Import base strings list.
From S2P Require Import Prelude GoStrings Adder.

Local Open Scope Z_scope.

(** ** Adding *)

Inductive Layout := BalancedLayout | TrickleLayout | OtherLayout (n : Z).

Record UnixfsAddSettings := MkAddSettings {
  as_Layout : Layout; as_Pin : bool; as_OnlyHash : bool; as_FsCache : bool; as_NoCopy : bool;
  as_Events : bool; as_Silent : bool; as_Progress : bool;
}.

(** What [Add] reads of the configuration. *)
Record experimental := MkExperimental { FilestoreEnabled : bool; UrlstoreEnabled : bool }.

(** The libraries: a DAG service is a block store (read through the cache or not)
    with an exchange; [mfs] and the importer work on one. *)
Class UnixfsEnv := {
  BS : Type; EX : Type; PN : Type; DS : Type; MF : Type;
  d_GetNode : bool -> cid -> BS * EX -> result cid * (BS * EX);
  d_Add : bool -> cid -> BS * EX -> option error * (BS * EX);
  d_layout : bool -> string -> BS * EX -> result cid * list cid * (BS * EX);
  p_Unpin : cid -> PN -> option error * PN;
  p_PinWithMode : cid -> PN -> PN;
  p_Flush : PN -> option error * PN;
  m_NewRoot : bool -> MF * (BS * EX) -> result unit * (MF * (BS * EX));
  m_RootNode : bool -> MF * (BS * EX) -> result (cid * list cid) * (MF * (BS * EX));
  m_Mkdir : bool -> string -> MF * (BS * EX) -> option error * (MF * (BS * EX));
  m_PutNode : bool -> string -> cid -> MF * (BS * EX) -> option error * (MF * (BS * EX));
  m_FlushMemFree : bool -> MF * (BS * EX) -> option error * (MF * (BS * EX));
  m_Flush : bool -> MF * (BS * EX) -> option error * (MF * (BS * EX));
  m_ListNames : bool -> MF * (BS * EX) -> result (list string) * (MF * (BS * EX));
  m_Child : bool -> string -> MF * (BS * EX) -> result fsn * (MF * (BS * EX));
  m_Close : bool -> MF * (BS * EX) -> option error * (MF * (BS * EX));
  m_Root : MF -> fsn;
  m_none : MF;                     (** before [NewRoot] *)
  Mock : BS * EX;                  (** [dagtest.Mock()] *)
  store_Sync : string -> DS -> option error * DS;
  u_SymlinkNode : string -> result cid;
  u_node_Size : cid -> result Z;
}.

Section Add.
Context `{UnixfsEnv}.

(** The services of a node that adding uses. *)
Record services := MkServices { Blockstore : BS; Exchange : EX; Pinning : PN }.

(** The node of the API, the node without a repository, the mock DAG service, the
    repository's datastore and the tree of the add. *)
Record hosts := MkHosts { h_api : services; h_nil : services; h_mock : BS * EX; h_ds : DS; h_mfs : MF }.

(** References to them. *)
Inductive owner := ApiNode | NilNode.
Inductive dag_ref := DagOf (cached : bool) (blocks exch : owner) | MockDag.

Definition host (o : owner) (h : hosts) : services := match o with ApiNode => h_api h | NilNode => h_nil h end.
Definition set_host (o : owner) (s : services) (h : hosts) : hosts :=
  match o with
  | ApiNode => MkHosts s (h_nil h) (h_mock h) (h_ds h) (h_mfs h)
  | NilNode => MkHosts (h_api h) s (h_mock h) (h_ds h) (h_mfs h)
  end.
Definition set_blocks (b : BS) (s : services) : services := MkServices b (Exchange s) (Pinning s).
Definition set_exchange (e : EX) (s : services) : services := MkServices (Blockstore s) e (Pinning s).
Definition set_pinning (p : PN) (s : services) : services := MkServices (Blockstore s) (Exchange s) p.

Definition cached (d : dag_ref) : bool := match d with DagOf c _ _ => c | MockDag => false end.
Definition dag (d : dag_ref) (h : hosts) : BS * EX :=
  match d with DagOf _ b e => (Blockstore (host b h), Exchange (host e h)) | MockDag => h_mock h end.
Definition set_dag (d : dag_ref) (x : BS * EX) (h : hosts) : hosts :=
  match d with
  | DagOf _ b e =>
      let h := set_host b (set_blocks x.1 (host b h)) h in
      set_host e (set_exchange x.2 (host e h)) h
  | MockDag => MkHosts (h_api h) (h_nil h) x (h_ds h) (h_mfs h)
  end.
Definition set_mfs (m : MF) (h : hosts) : hosts := MkHosts (h_api h) (h_nil h) (h_mock h) (h_ds h) m.

(** A call on a DAG service, on a tree over one, and on a pinner. *)
Definition on_dag {A} (d : dag_ref) (f : bool -> BS * EX -> A * (BS * EX)) (h : hosts) : A * hosts :=
  let '(r, x) := f (cached d) (dag d h) in (r, set_dag d x h).
Definition on_mfs {A} (d : dag_ref) (f : bool -> MF * (BS * EX) -> A * (MF * (BS * EX))) (h : hosts) : A * hosts :=
  let '(r, (m, x)) := f (cached d) (h_mfs h, dag d h) in (r, set_mfs m (set_dag d x h)).
Definition on_pinner {A} (o : owner) (f : PN -> A * PN) (h : hosts) : A * hosts :=
  let '(r, p) := f (Pinning (host o h)) in (r, set_host o (set_pinning p (host o h)) h).

(** [syncDagService]'s [syncFn] on the node's datastore. *)
Definition sync_datastore (d : DS) : option error * DS :=
  match store_Sync "/blocks" d with
  | (Some e, d) => (Some e, d)
  | (None, d) => store_Sync "/filestore" d
  end.

(** What the adder works on: [dserv], the DAG service of its tree, its pinner, and
    whether its [Sync] is the datastore's. *)
Definition adder_env (dserv tree : dag_ref) (pinning : owner) (synced : bool) : AdderEnv := {|
  W := hosts;
  mfs_NewRoot := on_mfs dserv m_NewRoot;
  mfs_RootNode := on_mfs tree m_RootNode;
  ds_GetNode c := on_dag dserv (fun b => d_GetNode b c);
  ds_Add c := on_dag dserv (fun b => d_Add b c);
  ds_Sync h :=
    if synced then let '(r, d) := sync_datastore (h_ds h) in (r, MkHosts (h_api h) (h_nil h) (h_mock h) d (h_mfs h)) else (None, h);
  Unpin c := on_pinner pinning (p_Unpin c);
  PinWithMode c h := (on_pinner pinning (fun p => (tt, p_PinWithMode c p)) h).2;
  pin_Flush := on_pinner pinning p_Flush;
  mfs_Mkdir p := on_mfs tree (fun b => m_Mkdir b p);
  mfs_PutNode p c := on_mfs tree (fun b => m_PutNode b p c);
  mfs_FlushMemFree := on_mfs tree m_FlushMemFree;
  mfs_Flush := on_mfs tree m_Flush;
  mfs_ListNames := on_mfs tree m_ListNames;
  mfs_Child n := on_mfs tree (fun b => m_Child b n);
  mfs_Root h := m_Root (h_mfs h);
  mfs_Close := on_mfs tree m_Close;
  layout content := on_dag dserv (fun b => d_layout b content);
  SymlinkNode := u_SymlinkNode;
  node_Size := u_node_Size;
|}.

(** [addblockstore] with [exch], and [pinning]: the node's, with the cache only for
    [FsCache] or [NoCopy], unless it is to hash only. *)
Definition services_of (settings : UnixfsAddSettings) : dag_ref * owner :=
  let addblockstore := (true, ApiNode) in
  let addblockstore := if negb (as_FsCache settings || as_NoCopy settings) then (false, ApiNode) else addblockstore in
  let exch := ApiNode in
  let pinning := ApiNode in
  let '(addblockstore, exch, pinning) :=
    if as_OnlyHash settings then ((true, NilNode), NilNode, NilNode) else (addblockstore, exch, pinning) in
  (DagOf addblockstore.1 addblockstore.2 exch, pinning).

(** The node: its services, its datastore, the node without a repository as it is or
    will be made, the CIDs it provided, and the events of adding. *)
Record node := MkNode { nd_api : services; nd_ds : DS; nd_nil : services; provided : list cid; events_out : list event }.

(** [fileAdder] after its fields are set, with the tree already made ([mroot]) or
    not; [gc] answers [GCRequested]. *)
Definition fileAdder {E : AdderEnv} (settings : UnixfsAddSettings) (mroot : bool) (gc : list bool) (w : @W E) : @Adder E :=
  let a := NewAdder gc w in
  MkAdder (as_Pin settings && negb (as_OnlyHash settings)) (as_Silent settings)
    (if as_Events settings then as_Progress settings else Progress a)
    mroot (unlocker a) (tempRoot a) (liveNodes a)
    (if as_Events settings then Some [] else Out a) gc (trace a) w.

(** The part of [Add] from the choice of the services to [AddAllAndPin]: the tree is
    made over a mock DAG service to hash only, and by the adder otherwise. *)
Definition add_on (settings : UnixfsAddSettings) (gc : list bool) (file : fnode) (h : hosts) : result cid * list event * hosts :=
  let '(dserv, pinning) := services_of settings in
  if as_OnlyHash settings then
    match on_mfs MockDag m_NewRoot h with
    | (Err e, h) => (Err e, [], h)
    | (Ok _, h) =>
        let E := adder_env dserv MockDag pinning false in
        let '(r, a) := @AddAllAndPin E file (@fileAdder E settings true gc h) in (r, trace a, world a)
    end
  else
    let E := adder_env dserv dserv pinning true in
    let '(r, a) := @AddAllAndPin E file (@fileAdder E settings false gc h) in (r, trace a, world a).

(** [options]: the outcome of [UnixfsAddOptions]; [nil_made]: a panic of
    [getOrCreateNilNode], which is only called to hash. *)
Definition Unixfs_Add (options : result UnixfsAddSettings) (cfg : result experimental) (nil_made : option error)
    (provider_Provide : cid -> option error) (gc : list bool) (file : fnode) (n : node) : result string * node :=
  match options with
  | Err e => (Err e, n)
  | Ok settings =>
      match cfg with
      | Err e => (Err e, n)
      | Ok cfg =>
          if as_NoCopy settings && negb (FilestoreEnabled cfg || UrlstoreEnabled cfg)
          then (Err "either the filestore or the urlstore must be enabled to use nocopy, see: https://github.com/ipfs/kubo/blob/master/docs/experimental-features.md#ipfs-filestore", n)
          else
            match (if as_OnlyHash settings then nil_made else None), as_Layout settings with
            | Some e, _ => (Err e, n)
            | None, OtherLayout l => (Err ("unknown layout: " +:+ FormatInt l), n)
            | None, _ =>
                let '(r, evs, h) := add_on settings gc file (MkHosts (nd_api n) (nd_nil n) Mock (nd_ds n) m_none) in
                let n := MkNode (h_api h) (h_ds h) (h_nil h) (provided n) (events_out n ++ evs) in
                match r with
                | Err e => (Err e, n)
                | Ok nd =>
                    if as_OnlyHash settings then (Ok ("/ipfs/" +:+ nd), n)
                    else
                      match provider_Provide nd with
                      | Some e => (Err e, n)
                      | None => (Ok ("/ipfs/" +:+ nd), MkNode (nd_api n) (nd_ds n) (nd_nil n) (provided n ++ [nd]) (events_out n))
                      end
                end
            end
      end
  end.

(** *** Lemmas *)

(** No call of an adder on the node without a repository and a mock tree reaches the
    node of the API or its datastore. *)
Definition same_node (h h' : hosts) : Prop := h_api h' = h_api h /\ h_ds h' = h_ds h.

Lemma same_on_dag {A} c (f : bool -> BS * EX -> A * (BS * EX)) h : same_node h (on_dag (DagOf c NilNode NilNode) f h).2.
Proof. unfold on_dag. by destruct (f _ _). Qed.
Lemma same_on_mfs {A} (f : bool -> MF * (BS * EX) -> A * (MF * (BS * EX))) h : same_node h (on_mfs MockDag f h).2.
Proof. unfold on_mfs. by destruct (f _ _) as [r [m x]]. Qed.
Lemma same_nil_mfs {A} c (f : bool -> MF * (BS * EX) -> A * (MF * (BS * EX))) h : same_node h (on_mfs (DagOf c NilNode NilNode) f h).2.
Proof. unfold on_mfs. by destruct (f _ _) as [r [m x]]. Qed.
Lemma same_on_pinner {A} (f : PN -> A * PN) h : same_node h (on_pinner NilNode f h).2.
Proof. unfold on_pinner. by destruct (f _). Qed.

Lemma nil_framed c : @Framed (adder_env (DagOf c NilNode NilNode) MockDag NilNode false) same_node.
Proof.
  split; intros; first [apply same_on_dag | apply same_on_mfs | apply same_nil_mfs | apply same_on_pinner | done | idtac].
  match goal with H1 : same_node _ _, H2 : same_node _ _ |- _ => destruct H1 as [A1 B1], H2 as [A2 B2] end. split; congruence.
Qed.

Definition unpinning (pin lock : bool) (_ : option cid) : Prop := pin = false /\ lock = false.

(** No pin lock, no pin and no flush of the pins. *)
Definition quiet (seg : list event) : Prop :=
  Forall (fun e => match e with Wrote _ | TreeWrite | Mkdir _ | Put _ _ | Root _ => True | _ => False end) seg.
Definition quiet_seg (_ : bool) : list event -> Prop := quiet.

#[local] Instance quiet_segments : Segments quiet_seg.
Proof. split; [constructor|]. intros b l1 l2 H1 H2. by apply Forall_app. Qed.

Lemma quiet_event e : match e with Wrote _ | TreeWrite | Mkdir _ | Put _ _ | Root _ => True | _ => False end -> quiet_seg true [e].
Proof. intros He. by constructor. Qed.
Lemma quiet_PinRoot {E : AdderEnv} c : runs unpinning quiet_seg (PinRoot c).
Proof. intros s Hs. unfold PinRoot. rewrite bind_asks. pose proof Hs as [Hp _]. rewrite Hp. cbn [negb]. exact (runs_ret unpinning quiet_seg tt s Hs). Qed.
Lemma quiet_maybePauseForGC {E : AdderEnv} : runs unpinning quiet_seg maybePauseForGC.
Proof.
  intros s Hs. unfold maybePauseForGC. rewrite bind_asks. pose proof Hs as [_ Hl]. rewrite Hl. exact (runs_ret unpinning quiet_seg tt s Hs).
Qed.

Lemma quiet_add_all {E : AdderEnv} file : runs unpinning quiet_seg (add_all file).
Proof.
  apply runs_add_all; [apply _|intros; by apply quiet_event..|apply quiet_PinRoot|apply quiet_maybePauseForGC| |]; intros;
    [apply files_addSymlink|apply files_addFile]; try apply _; intros; by apply quiet_event.
Qed.

Lemma unpinned_add {E : AdderEnv} file s r s' :
  Pin s = false -> unlocker s = false -> AddAllAndPin file s = (r, s') -> exists seg, trace s' = trace s ++ seg /\ quiet seg.
Proof.
  intros Hp Hl. unfold AddAllAndPin. rewrite bind_asks, Hp. unfold when at 1, bind at 1. cbn [ret]. unfold finally_unlock.
  assert (Hs : holds unpinning s) by done. destruct (quiet_add_all file s Hs) as [[_ H2] (seg & T & Q)].
  destruct (add_all file s) as [r1 s1]. cbn [fst snd] in *. rewrite H2. intros [= <- <-]. exists seg. split; [done|]. by destruct r1.
Qed.

Lemma hash_add_on settings gc file h r evs h' :
  as_OnlyHash settings = true -> add_on settings gc file h = (r, evs, h') -> same_node h h' /\ quiet evs.
Proof.
  intros Ho. unfold add_on, services_of. rewrite Ho. cbn [fst snd]. pose proof (same_on_mfs m_NewRoot h) as H1.
  destruct (on_mfs MockDag m_NewRoot h) as [[u|e] h1]; cbn [snd] in H1; [|intros [= <- <- <-]; by split; [|constructor]].
  set (E := adder_env _ _ _ _). set (a0 := @fileAdder E settings true gc h1).
  pose proof (@frames_AddAllAndPin E same_node (nil_framed true) file a0) as Hf. destruct (@AddAllAndPin E file a0) as [r1 a] eqn:Ea.
  intros [= <- <- <-]. apply unpinned_add in Ea as (seg & T & Q); [|cbn; by rewrite Ho, andb_false_r|done].
  split; [|by rewrite T]. destruct H1 as [A1 B1], Hf as [F1 F2]. split; [exact (eq_trans F1 A1)|exact (eq_trans F2 B1)].
Qed.

(** *** Theorems *)

(** C32: adding to hash only leaves the node alone: nothing is written to its block
    store or its datastore, asked of its exchange or done to its pinner, nothing is
    pinned, the pin lock is not taken, and nothing is provided, whatever the other
    settings are and whether or not it fails. *)
Theorem only_hash_leaves_node settings cfg nil_made provide gc file n r n' :
  as_OnlyHash settings = true -> Unixfs_Add (Ok settings) cfg nil_made provide gc file n = (r, n') ->
  nd_api n' = nd_api n /\ nd_ds n' = nd_ds n /\ provided n' = provided n /\ exists seg, events_out n' = events_out n ++ seg /\ quiet seg.
Proof.
  intros Ho. unfold Unixfs_Add. rewrite Ho.
  assert (Hsame : nd_api n = nd_api n /\ nd_ds n = nd_ds n /\ provided n = provided n /\ exists seg, events_out n = events_out n ++ seg /\ quiet seg).
  { split_and!; [done..|]. exists []. split; [by rewrite app_nil_r|constructor]. }
  destruct cfg as [cfg|]; [|by intros [= <- <-]]. destruct (as_NoCopy settings && _); [by intros [= <- <-]|].
  destruct nil_made; [by intros [= <- <-]|].
  destruct (add_on settings gc file _) as [[r1 evs] h] eqn:E. apply hash_add_on in E as [[Ha Hd] Q]; [|done].
  assert (Hdone : forall r2, (r2, MkNode (h_api h) (h_ds h) (h_nil h) (provided n) (events_out n ++ evs)) = (r, n') ->
    nd_api n' = nd_api n /\ nd_ds n' = nd_ds n /\ provided n' = provided n /\ exists seg, events_out n' = events_out n ++ seg /\ quiet seg).
  { intros r2 [= <- <-]. split_and!; [done..|]. by exists evs. }
  destruct (as_Layout settings); [| |by intros [= <- <-]]; destruct r1; apply Hdone.
Qed.

(** an add that succeeds has the node provide exactly the root it returns, after
    the root was pinned and the lock released, when it is asked to pin. *)
Theorem unixfs_add_exact settings cfg nil_made provide gc file n p n' :
  as_OnlyHash settings = false -> Unixfs_Add (Ok settings) cfg nil_made provide gc file n = (Ok p, n') ->
  exists c, p = "/ipfs/" +:+ c /\ provide c = None /\ provided n' = provided n ++ [c] /\
    (as_Pin settings = true -> exists pre, events_out n' = pre ++ [Pinned c; Flushed; Unlock]).
Proof.
  intros Ho. unfold Unixfs_Add. destruct cfg as [cfg|]; [|done]. destruct (as_NoCopy settings && _); [done|]. rewrite Ho.
  destruct (add_on settings gc file _) as [[r1 evs] h] eqn:E. destruct r1 as [c|e]; [|by destruct (as_Layout settings)].
  assert (Hp : as_Pin settings = true -> exists pre, evs = pre ++ [Pinned c; Flushed; Unlock]).
  { intros Hp. revert E. unfold add_on. rewrite Ho. destruct (services_of settings) as [d o]. set (E := adder_env _ _ _ _). set (a0 := @fileAdder E _ _ _ _).
    destruct (@AddAllAndPin E file a0) as [r1 a] eqn:Ea. intros [= -> <- <-]. eapply AddAllAndPin_ends; [|exact Ea]. cbn. by rewrite Hp, Ho. }
  destruct (as_Layout settings); [| |done].
  all: destruct (provide c) eqn:Ep; [done|]; intros [= <- <-];
    exists c; split_and!; [done..|]; intros Hpin; destruct (Hp Hpin) as [pre Epre]; exists (events_out n ++ pre); cbn; by rewrite Epre, (assoc (++)).
Qed.
End Add.

(** ** Listing *)

Inductive file_type := TUnknown | TFile | TDirectory | TSymlink.

(** What the entries of a directory can be. *)
Inductive unixfs_type := FtRaw | FtDirectory | FtFile | FtMetadata | FtSymlink | FtHAMTShard.
Inductive codec := RawCodec | DagProtobuf | OtherCodec.

Record llink := MkLLink { ll_name : string; ll_cid : cid; ll_size : Z; ll_codec : codec }.

(** A child: not a protobuf node, or one with its type, its size and its data, or an
    error in parsing it. *)
Inductive child := NotProto | Proto (d : result (unixfs_type * Z * string)).

Record DirEntry := MkDirEntry { de_Name : string; de_Cid : cid; de_Size : Z; de_Type : file_type; de_Target : string; de_Err : option error }.

Section Ls.
Context (GetNode : cid -> result child).

Definition processLink (ResolveChildren : bool) (linkres : llink + error) : DirEntry :=
  match linkres with
  | inr e => MkDirEntry "" "" 0 TUnknown "" (Some e)
  | inl l =>
      let entry := MkDirEntry (ll_name l) (ll_cid l) in
      match ll_codec l with
      | RawCodec => entry (ll_size l) TFile "" None
      | DagProtobuf =>
          if negb ResolveChildren then entry 0 TUnknown "" None
          else match GetNode (ll_cid l) with
          | Err e => entry 0 TUnknown "" (Some e)
          | Ok NotProto => entry 0 TUnknown "" None
          | Ok (Proto (Err e)) => entry 0 TUnknown "" (Some e)
          | Ok (Proto (Ok (t, size, data))) =>
              match t with
              | FtFile | FtRaw => entry size TFile "" None
              | FtHAMTShard | FtDirectory | FtMetadata => entry size TDirectory "" None
              | FtSymlink => entry size TSymlink data None
              end
          end
      | OtherCodec => entry 0 TUnknown "" None
      end
  end.

Definition lsFromLinks (ResolveChildren : bool) (ndlinks : list llink) : list DirEntry := (fun l => processLink ResolveChildren (inl l)) <$> ndlinks.

(** [links] is what [EnumLinksAsync] gives; [sent] the number of entries taken before
    the context is done. *)
Definition lsFromLinksAsync (ResolveChildren : bool) (links : list (llink + error)) (sent : option nat) : list DirEntry :=
  let l := processLink ResolveChildren <$> links in match sent with Some n => take n l | None => l end.

(** The kinds of node a path can resolve to: [NewDirectoryFromNode] gives a directory,
    says that it is none, or fails. *)
Inductive dir_node := IsDir (links : list (llink + error)) | NotADir (links : list llink) | DirErr (e : error).

Definition Unixfs_Ls (options : result bool) (node : result dir_node) (sent : option nat) : result (list DirEntry) :=
  match options with
  | Err e => Err e
  | Ok resolveChildren =>
      match node with
      | Err e => Err e
      | Ok (NotADir links) => Ok (lsFromLinks resolveChildren links)
      | Ok (DirErr e) => Err e
      | Ok (IsDir links) => Ok (lsFromLinksAsync resolveChildren links sent)
      end
  end.

(** a listing has one entry for each link, in their order and with their names and
    CIDs, also for links whose node cannot be fetched or parsed: those carry the
    error and no type. *)
Theorem ls_entries resolve links :
  let out := Unixfs_Ls (Ok resolve) (Ok (IsDir (inl <$> links))) None in
  exists entries, out = Ok entries /\ Unixfs_Ls (Ok resolve) (Ok (NotADir links)) None = Ok entries /\
    (fun e => (de_Name e, de_Cid e)) <$> entries = (fun l => (ll_name l, ll_cid l)) <$> links /\
    Forall (fun e => de_Err e <> None -> de_Type e = TUnknown /\ de_Size e = 0) entries /\
    (resolve = false -> Forall (fun e => de_Err e = None) entries).
Proof.
  cbn zeta. unfold Unixfs_Ls, lsFromLinksAsync, lsFromLinks. rewrite <- list_fmap_compose. eexists. split; [done|]. split; [done|].
  induction links as [|l links (H1 & H2 & H3)]; [split; [done|]; split; constructor|]. cbn [fmap list_fmap].
  split; [f_equal; [|exact H1]|split].
  - cbn. by repeat case_match.
  - constructor; [|exact H2]. cbn. by repeat case_match.
  - intros Hr. constructor; [|by apply H3]. cbn. rewrite Hr. cbn. by repeat case_match.
Qed.
End Ls.

(** ** Witnesses *)
Module DemoUnixfs.

(** Blocks are appended to the store, a tree is its list of nodes; every call to get
    a node asks the exchange. *)
#[local] Instance env : UnixfsEnv := {|
  BS := list cid; EX := list cid; PN := list cid; DS := list string; MF := list (string * cid);
  d_GetNode _ c x := (Ok c, (x.1, x.2 ++ [c]));
  d_Add _ c x := (None, (x.1 ++ [c], x.2));
  d_layout _ content x := (Ok ("Qm" +:+ content), ["Qm" +:+ content], (x.1 ++ ["Qm" +:+ content], x.2));
  p_Unpin _ p := (None, p);
  p_PinWithMode c p := p ++ [c];
  p_Flush p := (None, p);
  m_NewRoot _ x := (Ok tt, x);
  m_RootNode _ x := (Ok ("root", x.1.*2), x);
  m_Mkdir _ _ x := (None, x);
  m_PutNode _ p c x := (None, (x.1 ++ [(p, c)], x.2));
  m_FlushMemFree _ x := (None, x);
  m_Flush _ x := (None, (x.1, (x.2.1 ++ ["root"], x.2.2)));
  m_ListNames _ x := (Ok x.1.*1, x);
  m_Child _ name x := (Ok (FsFile (Ok name)), x);
  m_Close _ x := (None, x);
  m_Root m := FsDir (Ok ((fun pc => (pc.1, Ok (FsFile (Ok pc.2)))) <$> m)) (Ok "root");
  m_none := [];
  Mock := ([], []);
  store_Sync p d := (None, d ++ [p]);
  u_SymlinkNode t := Ok ("Ql" +:+ t);
  u_node_Size _ := Ok 12;
|}.

Definition tree : fnode := FDir [("a", FFile "x" [(1, true)]); ("l", FSymlink "t")] None.
Definition settings (hash : bool) : UnixfsAddSettings := MkAddSettings BalancedLayout true hash false false true false true.
Definition the_node : node := MkNode (MkServices [] [] []) [] (MkServices [] [] []) [] [].
Abbreviation run hash :=
  (Unixfs_Add (Ok (settings hash)) (Ok (MkExperimental false false)) None (fun _ => None) [false; true] tree the_node).

(** To hash only, the blocks are in the nil node and the tree's in the mock. *)
Example run_hash : ((run true).1, nd_api (run true).2, Blockstore (nd_nil (run true).2)) = (Ok "/ipfs/root", MkServices [] [] [], ["Qmx"; "Qlt"]).
Proof. vm_compute. reflexivity. Qed.
Example run_node : ((run false).1, nd_api (run false).2, nd_ds (run false).2) =
  (Ok "/ipfs/root", MkServices ["root"; "Qmx"; "Qlt"; "root"; "root"] [] ["root"; "root"], ["/blocks"; "/filestore"]).
Proof. vm_compute. reflexivity. Qed.

Lemma only_hash_leaves_node_witness :
  nd_api (run true).2 = nd_api the_node /\ nd_ds (run true).2 = nd_ds the_node /\ provided (run true).2 = provided the_node /\
  exists seg, events_out (run true).2 = events_out the_node ++ seg /\ quiet seg.
Proof.
  exact (only_hash_leaves_node (settings true) (Ok (MkExperimental false false)) None (fun _ => None) [false; true] tree the_node
    (run true).1 (run true).2 eq_refl (surjective_pairing (run true))).
Defined.

Lemma run_ok : run false = (Ok "/ipfs/root", (run false).2).
Proof. apply (eq_trans (surjective_pairing _)). f_equal. Qed.

Lemma unixfs_add_exact_witness :
  exists c, "/ipfs/root" = "/ipfs/" +:+ c /\ None = (None : option error) /\ provided (run false).2 = provided the_node ++ [c] /\
    (true = true -> exists pre, events_out (run false).2 = pre ++ [Pinned c; Flushed; Unlock]).
Proof.
  exact (unixfs_add_exact (settings false) (Ok (MkExperimental false false)) None (fun _ => None) [false; true] tree the_node
    "/ipfs/root" (run false).2 eq_refl run_ok).
Defined.
End DemoUnixfs.
