(* ===== verification/Cat.v ===== *)
(** [ipfs cat]: [core/commands/cat.go].

    The files a path resolves to come from the core API ([Get]); a file answers
    [Size] and [Seek] and then reads its bytes from the position it was left at.
    A reader stands for what is read from it, with the bound of [io.LimitReader]. *)
From Stdlib Require Import ZArith Lia String.
From stdpp Require Import base strings list.
From S2P Require Import Prelude.

Local Open Scope Z_scope.

Record ufile := MkUFile { content : list Byte.byte; size : result Z; seek : Z -> result Z }.
Inductive unode := UFile (f : ufile) | UDir | UOther.

Definition ErrIsDir : error := "this dag node is a directory".
Definition ErrNotSupported : error := "operation not supported".

(** A file left at a position, all of it or at most [n] bytes. *)
Inductive reader := RFile (f : ufile) (pos : Z) | RLimit (f : ufile) (pos n : Z).

Definition read_reader (r : reader) : list Byte.byte :=
  match r with
  | RFile f pos => drop (Z.to_nat pos) (content f)
  | RLimit f pos n => take (Z.to_nat n) (drop (Z.to_nat pos) (content f))
  end.

Section Cat.
Context (Get : string -> result unode).

Fixpoint cat_loop (paths : list string) (offset max length : Z) (readers : list reader) : result (list reader * Z) :=
  match paths with
  | [] => Ok (readers, length)
  | p :: paths =>
      match Get p with
      | Err e => Err e
      | Ok UDir => Err ErrIsDir
      | Ok UOther => Err ErrNotSupported
      | Ok (UFile file) =>
          match size file with
          | Err e => Err e
          | Ok fsize =>
              if offset >? fsize then cat_loop paths (i64 (offset - fsize)) max length readers
              else
                match seek file offset with
                | Err e => Err e
                | Ok count =>
                    match size file with
                    | Err e => Err e
                    | Ok fsize =>
                        let size := u64 (fsize - count) in
                        let length := u64 (length + size) in
                        if (max >? 0) && (length >=? u64 max) then
                          let overshoot := i64 (length - u64 max) in
                          if overshoot =? 0 then Ok (readers ++ [RFile file count], length)
                          else Ok (readers ++ [RLimit file count (i64 (i64 size - overshoot))], u64 max)
                        else cat_loop paths 0 max length (readers ++ [RFile file count])
                    end
                end
          end
      end
  end.

Definition cat (paths : list string) (offset max : Z) : result (list reader * Z) :=
  if max =? 0 then Ok ([], 0) else cat_loop paths offset max 0 [].

(** [CatCmd.Run]: the length that is announced and the bytes that are emitted. *)
Definition CatCmd_Run (paths : list string) (offset max : option Z) : result (Z * list Byte.byte) :=
  let offset := default 0 offset in
  if offset <? 0 then Err "cannot specify negative offset"
  else if default 0 max <? 0 then Err "cannot specify negative length"
  else
    let max := default (-1) max in
    match cat paths offset max with
    | Err e => Err e
    | Ok (readers, length) => Ok (length, concat (map read_reader readers))
    end.

(** ** Lemmas *)

(** What [cat] relies on in a file. *)
Definition file_ok (f : ufile) : Prop :=
  size f = Ok (Z.of_nat (length (content f))) /\
  forall o, 0 <= o <= Z.of_nat (length (content f)) -> seek f o = Ok o.

Definition resolves (p : string) (f : ufile) : Prop := Get p = Ok (UFile f) /\ file_ok f.

Definition contents (fs : list ufile) : list Byte.byte := concat (map content fs).
Definition upto (max : Z) (l : list Byte.byte) : list Byte.byte := if max <? 0 then l else take (Z.to_nat max) l.

Lemma u64_id z : 0 <= z < 2 ^ 63 -> u64 z = z.
Proof. intros. apply wrapU_small. unfold inU. lia. Qed.
Lemma s64_id z : 0 <= z < 2 ^ 63 -> i64 z = z.
Proof. intros. apply wrapS_small; [lia|]. unfold inS. change (2 ^ (64 - 1)) with (2 ^ 63). lia. Qed.

Lemma cat_loop_exact paths fs offset max len acc :
  Forall2 resolves paths fs -> 0 <= offset < 2 ^ 63 -> max < 0 \/ 0 <= len < max -> max < 2 ^ 63 ->
  0 <= len -> len + Z.of_nat (length (contents fs)) < 2 ^ 63 ->
  let out := if max <? 0 then drop (Z.to_nat offset) (contents fs) else take (Z.to_nat (max - len)) (drop (Z.to_nat offset) (contents fs)) in
  exists rs, cat_loop paths offset max len acc = Ok (acc ++ rs, len + Z.of_nat (length out)) /\ concat (map read_reader rs) = out.
Proof.
  intros HF. revert offset len acc. induction HF as [|p f paths fs [Hg [Hs Hk]] HF IH]; intros offset len acc Ho Hm Hmax Hl Htot; cbn zeta.
  { exists []. cbn. rewrite drop_nil, take_nil, app_nil_r. destruct (max <? 0); cbn; by rewrite Z.add_0_r. }
  cbn [cat_loop]. rewrite Hg, Hs. unfold contents in *. cbn [map concat] in *. rewrite length_app in Htot. set (n := length (content f)) in *.
  rewrite Z.gtb_ltb. destruct (Z.ltb_spec (Z.of_nat n) offset) as [Hlt|Hge].
  - rewrite s64_id by lia. destruct (IH (offset - Z.of_nat n) len acc) as (rs & E & Er); [lia..|]. exists rs. rewrite E.
    rewrite drop_app_ge by lia. replace (Z.to_nat (offset - Z.of_nat n)) with (Z.to_nat offset - n)%nat in * by lia. done.
  - rewrite Hk by lia. cbn zeta. rewrite (u64_id (Z.of_nat n - offset)) by lia. rewrite (u64_id (len + (Z.of_nat n - offset))) by lia.
    assert (Hd : length (drop (Z.to_nat offset) (content f)) = Z.to_nat (Z.of_nat n - offset)) by (rewrite length_drop; lia).
    rewrite drop_app_le by lia. set (d := drop (Z.to_nat offset) (content f)) in *.
    rewrite Z.gtb_ltb, Z.geb_leb. destruct (Z.ltb_spec 0 max) as [Hpos|Hneg]; cbn [andb].
    + rewrite (proj2 (Z.ltb_ge max 0)) by lia. rewrite (u64_id max) by lia. destruct (Z.leb_spec max (len + (Z.of_nat n - offset))) as [Hle|Hgt].
      * rewrite s64_id by lia. rewrite take_app_le by lia. destruct (Z.eqb_spec (len + (Z.of_nat n - offset) - max) 0) as [He|He].
        -- exists [RFile f offset]. cbn [map concat read_reader]. rewrite app_nil_r. fold d. rewrite take_ge by lia. split; [|done]. do 2 f_equal. lia.
        -- rewrite (s64_id (Z.of_nat n - offset)), s64_id by lia. exists [RLimit f offset (max - len)]. split.
           ++ do 2 f_equal; [do 3 f_equal; lia|]. rewrite length_take. lia.
           ++ cbn. by rewrite app_nil_r.
      * destruct (IH 0 (len + (Z.of_nat n - offset)) (acc ++ [RFile f offset])) as (rs & E & Er); [lia..|]. rewrite E. clear E.
        rewrite (proj2 (Z.ltb_ge max 0)) in * by lia. rewrite drop_0 in *. exists (RFile f offset :: rs).
        rewrite <- (assoc (++)). cbn [map concat read_reader app]. fold d. rewrite Er, take_app_ge by lia.
        replace (Z.to_nat (max - (len + (Z.of_nat n - offset)))) with (Z.to_nat (max - len) - length d)%nat by lia.
        split; [|done]. do 2 f_equal. rewrite length_app. lia.
    + assert (max < 0) by lia. rewrite (proj2 (Z.ltb_lt max 0)) in * by lia.
      destruct (IH 0 (len + (Z.of_nat n - offset)) (acc ++ [RFile f offset])) as (rs & E & Er); [lia..|]. rewrite E. clear E.
      rewrite drop_0 in *. exists (RFile f offset :: rs). rewrite <- (assoc (++)). cbn [map concat read_reader app]. fold d. rewrite Er.
      split; [|done]. do 2 f_equal. rewrite length_app. lia.
Qed.

(** ** Theorems *)

(** [ipfs cat] of several files with an offset and a maximal length emits that
    part of their concatenation, byte for byte, and announces exactly its length;
    where the offset or the length fall in the middle of a file, span several, or
    are past the end. *)
Theorem cat_exact paths fs offset max :
  Forall2 resolves paths fs -> 0 <= default 0 offset < 2 ^ 63 -> 0 <= default 0 max < 2 ^ 63 ->
  Z.of_nat (length (contents fs)) < 2 ^ 63 ->
  let out := upto (default (-1) max) (drop (Z.to_nat (default 0 offset)) (contents fs)) in
  CatCmd_Run paths offset max = Ok (Z.of_nat (length out), out).
Proof.
  intros HF Ho Hm Ht. cbn zeta. unfold CatCmd_Run. rewrite !(proj2 (Z.ltb_ge _ 0)) by lia. unfold cat.
  destruct (Z.eqb_spec (default (-1) max) 0) as [Hz|Hz]; [by rewrite Hz|].
  destruct (cat_loop_exact paths fs (default 0 offset) (default (-1) max) 0 []) as (rs & E & Er); [done|lia|destruct max; cbn in *; lia..|].
  rewrite E. cbn [app]. unfold upto. rewrite Z.sub_0_r in *. by rewrite Er.
Qed.
End Cat.

(** ** Witnesses *)
Module DemoCat.
Definition file_of (l : list Byte.byte) : ufile :=
  MkUFile l (Ok (Z.of_nat (length l))) (fun o => if (0 <=? o) && (o <=? Z.of_nat (length l)) then Ok o else Err "invalid offset").

Lemma file_of_ok l : file_ok (file_of l).
Proof. split; [done|]. intros o Ho. cbn in *. destruct (Z.leb_spec 0 o), (Z.leb_spec o (Z.of_nat (length l))); cbn; try lia; done. Qed.

Definition Get (p : string) : result unode :=
  if String.eqb p "/a" then Ok (UFile (file_of [Byte.x61; Byte.x62; Byte.x63])) else
  if String.eqb p "/b" then Ok (UFile (file_of [Byte.x64; Byte.x65])) else Ok UDir.

Lemma cat_exact_witness : CatCmd_Run Get ["/a"; "/b"; "/a"] (Some 2) (Some 5) = Ok (5, [Byte.x63; Byte.x64; Byte.x65; Byte.x61; Byte.x62]).
Proof.
  apply (cat_exact Get ["/a"; "/b"; "/a"] [file_of [Byte.x61; Byte.x62; Byte.x63]; file_of [Byte.x64; Byte.x65]; file_of [Byte.x61; Byte.x62; Byte.x63]] (Some 2) (Some 5)).
  - repeat constructor; by apply file_of_ok.
  - cbn. lia.
  - cbn. lia.
  - cbn. lia.
Defined.

Example cat_dir : CatCmd_Run Get ["/a"; "/c"] None None = Err ErrIsDir. Proof. reflexivity. Qed.
End DemoCat.
