(* ===== verification/ReqLog.v ===== *)
(** The request log: [commands/reqlog.go], with [LogRequest] of
    [commands/context.go] and the commands of [core/commands/active.go].

    Entries are shared: the log holds pointers to them, [Finish] writes through
    one whether or not the log still holds it, and [Report] copies.  A pointer is a
    number and [heap] the entries; [now] is the time an operation reads.  The lock
    makes the operations atomic, so an execution is a sequence of them. *)
From Stdlib Require Import ZArith Lia String Sorted.
From stdpp Require Import base strings gmap list.
From S2P Require Import Prelude.

Local Open Scope Z_scope.

Abbreviation ptr := nat.

Record ReqLogEntry := MkEntry { StartTime : Z; EndTime : Z; Active : bool; Command : string; Args : list string; ID : Z }.

Record ReqLog := MkLog { heap : gmap ptr ReqLogEntry; Requests : list ptr; nextID : Z; keep : Z }.

Definition with_heap (h : gmap ptr ReqLogEntry) (rl : ReqLog) : ReqLog := MkLog h (Requests rl) (nextID rl) (keep rl).
Definition with_requests (l : list ptr) (rl : ReqLog) : ReqLog := MkLog (heap rl) l (nextID rl) (keep rl).
Definition with_keep (k : Z) (rl : ReqLog) : ReqLog := MkLog (heap rl) (Requests rl) (nextID rl) k.

(** The test of [cleanup]: [Active || EndTime.Add(keep).After(now)]. *)
Definition keeps (rl : ReqLog) (now : Z) (p : ptr) : bool :=
  match heap rl !! p with Some e => Active e || (now <? EndTime e + keep rl) | None => false end.

(** The loop of [cleanup]: [j] runs over the requests, which it compacts in place
    up to [i]. *)
Fixpoint cleanup_loop (rl : ReqLog) (now : Z) (fuel j i : nat) (reqs : list ptr) : nat * list ptr :=
  match fuel with
  | O => (i, reqs)
  | S fuel =>
      match reqs !! j with
      | None => (i, reqs)
      | Some rj => if keeps rl now rj then cleanup_loop rl now fuel (S j) (S i) (<[i := rj]> reqs) else cleanup_loop rl now fuel (S j) i reqs
      end
  end.

Definition cleanup (now : Z) (rl : ReqLog) : ReqLog :=
  let '(i, reqs) := cleanup_loop rl now (length (Requests rl)) 0 0 (Requests rl) in with_requests (take i reqs) rl.

Definition maybeCleanup (now : Z) (rl : ReqLog) : ReqLog :=
  if Z.of_nat (length (Requests rl)) mod 10 =? 0 then cleanup now rl else rl.

Definition AddEntry (p : ptr) (rle : ReqLogEntry) (now : Z) (rl : ReqLog) : ReqLog :=
  let rle := MkEntry (StartTime rle) (EndTime rle) (Active rle) (Command rle) (Args rle) (nextID rl) in
  let rl := MkLog (<[p := rle]> (heap rl)) (Requests rl ++ [p]) (i64 (nextID rl + 1)) (keep rl) in
  if Active rle then rl else maybeCleanup now rl.

Definition ClearInactive (now : Z) (rl : ReqLog) : ReqLog :=
  let k := keep rl in with_keep k (cleanup now (with_keep 0 rl)).

Definition SetKeepTime (t : Z) (rl : ReqLog) : ReqLog := with_keep t rl.

Definition Report (rl : ReqLog) : list ReqLogEntry := omap (fun p => heap rl !! p) (Requests rl).

Definition Finish (p : ptr) (now : Z) (rl : ReqLog) : ReqLog :=
  let finish e := MkEntry (StartTime e) now false (Command e) (Args e) (ID e) in
  maybeCleanup now (with_heap (alter finish p (heap rl)) rl).

(** [Context.LogRequest]: a fresh entry; the function it returns is [Finish] on it. *)
Definition LogRequest (path args : list string) (now : Z) (rl : ReqLog) : ptr * ReqLog :=
  let p := fresh (dom (heap rl)) in
  (p, AddEntry p (MkEntry now 0 true (String.concat "/" path) args 0) now rl).

(** ** Executions *)
Inductive op := OpLog (path args : list string) | OpFinish (p : ptr) | OpClear | OpKeep (t : Z).

Definition apply_op (o : op) (now : Z) (rl : ReqLog) : ReqLog :=
  match o with
  | OpLog path args => (LogRequest path args now rl).2
  | OpFinish p => Finish p now rl
  | OpClear => ClearInactive now rl
  | OpKeep t => SetKeepTime t rl
  end.

Definition run (ops : list (op * Z)) (rl : ReqLog) : ReqLog := foldl (fun rl o => apply_op o.1 o.2 rl) rl ops.

(** The log the daemon starts with. *)
Definition empty_log : ReqLog := MkLog ∅ [] 0 0.

(** ** Lemmas *)

(** The loop is a filter: what is before [i] is the part kept, what is from [j] on
    is untouched. *)
Lemma cleanup_loop_filter rl now fuel : forall j i reqs,
  (i <= j <= length reqs)%nat -> (length reqs - j <= fuel)%nat ->
  let '(i', reqs') := cleanup_loop rl now fuel j i reqs in
  take i' reqs' = take i reqs ++ filter (fun p => keeps rl now p = true) (drop j reqs).
Proof.
  induction fuel as [|fuel IH]; intros j i reqs Hij Hf; cbn [cleanup_loop].
  - rewrite drop_ge by lia. cbn. by rewrite app_nil_r.
  - destruct (reqs !! j) as [rj|] eqn:Ej.
    2:{ apply lookup_ge_None in Ej. rewrite drop_ge by lia. cbn. by rewrite app_nil_r. }
    pose proof (lookup_lt_Some _ _ _ Ej) as Hj. rewrite (drop_S reqs rj j Ej), filter_cons. destruct (keeps rl now rj) eqn:Ek.
    + specialize (IH (S j) (S i) (<[i := rj]> reqs)). rewrite length_insert in IH. destruct (cleanup_loop rl now fuel (S j) (S i) _) as [i' reqs'].
      rewrite IH by lia. rewrite (decide_True (P := true = true)) by done. rewrite drop_insert_lt by lia.
      rewrite (take_S_r (<[i := rj]> reqs) i rj) by (rewrite list_lookup_insert_eq by lia; done).
      rewrite take_insert_ge by lia. by rewrite <- (assoc (++)).
    + specialize (IH (S j) i reqs). destruct (cleanup_loop rl now fuel (S j) i reqs) as [i' reqs']. rewrite IH by lia.
      rewrite (decide_False (P := false = true)) by done. done.
Qed.

Lemma cleanup_filter now rl : cleanup now rl = with_requests (filter (fun p => keeps rl now p = true) (Requests rl)) rl.
Proof.
  unfold cleanup. pose proof (cleanup_loop_filter rl now (length (Requests rl)) 0 0 (Requests rl)) as E.
  destruct (cleanup_loop _ _ _ _ _ _) as [i reqs]. rewrite E by lia. by rewrite take_0, drop_0.
Qed.

Definition entry_ID (rl : ReqLog) (p : ptr) : Z := match heap rl !! p with Some e => ID e | None => 0 end.
Definition active (rl : ReqLog) (p : ptr) : Prop := exists e, heap rl !! p = Some e /\ Active e = true.

(** The invariant: the log's entries exist, in the order of their IDs, which are
    below the next one, and no active entry is missing. *)
Record log_ok (rl : ReqLog) : Prop := {
  lo_dom : forall p, p ∈ Requests rl -> is_Some (heap rl !! p);
  lo_sorted : StronglySorted (fun p q => entry_ID rl p < entry_ID rl q) (Requests rl);
  lo_below : forall p, p ∈ Requests rl -> entry_ID rl p < nextID rl;
  lo_active : forall p, active rl p -> p ∈ Requests rl;
}.

Lemma StronglySorted_filter {A} (R : A -> A -> Prop) (P : A -> Prop) `{!forall x, Decision (P x)} l :
  StronglySorted R l -> StronglySorted R (filter P l).
Proof.
  induction 1 as [|x l Hs IH Hx]; [constructor|]. rewrite filter_cons. case_decide; [|done]. constructor; [done|].
  apply Forall_forall. intros y [_ Hy]%list_elem_of_filter. by eapply Forall_forall in Hx.
Qed.

Lemma StronglySorted_snoc {A} (R : A -> A -> Prop) l x : StronglySorted R l -> (forall y, y ∈ l -> R y x) -> StronglySorted R (l ++ [x]).
Proof.
  induction 1 as [|y l Hs IH Hy]; intros HR; [repeat constructor|]. cbn. constructor.
  - apply IH. intros z Hz. apply HR. by apply list_elem_of_further.
  - apply Forall_app. split; [done|]. apply Forall_singleton, HR, list_elem_of_here.
Qed.

Lemma StronglySorted_impl {A} (R S : A -> A -> Prop) l :
  StronglySorted R l -> (forall x y, x ∈ l -> y ∈ l -> R x y -> S x y) -> StronglySorted S l.
Proof.
  induction 1 as [|x l Hs IH Hx]; intros HRS; [constructor|]. constructor.
  - apply IH. intros y z Hy Hz. apply HRS; by apply list_elem_of_further.
  - apply Forall_forall. intros y Hy. apply HRS; [apply list_elem_of_here|by apply list_elem_of_further|]. by eapply Forall_forall in Hx.
Qed.

Lemma log_ok_cleanup now rl : log_ok rl -> log_ok (cleanup now rl).
Proof.
  intros [H1 H2 H3 H4]. rewrite cleanup_filter. split; unfold entry_ID, active in *; cbn.
  - intros p [_ Hp]%list_elem_of_filter. auto.
  - by apply StronglySorted_filter.
  - intros p [_ Hp]%list_elem_of_filter. auto.
  - intros p (e & Ee & Ha). apply list_elem_of_filter. split; [|by apply H4; eauto]. unfold keeps. by rewrite Ee, Ha.
Qed.

Lemma log_ok_maybeCleanup now rl : log_ok rl -> log_ok (maybeCleanup now rl).
Proof. unfold maybeCleanup. destruct (_ =? 0); [apply log_ok_cleanup|done]. Qed.

Lemma log_ok_with_keep k rl : log_ok rl -> log_ok (with_keep k rl).
Proof. by intros [H1 H2 H3 H4]. Qed.

Lemma log_ok_LogRequest path args now rl :
  log_ok rl -> nextID rl + 1 < 2 ^ 63 -> 0 <= nextID rl -> log_ok (LogRequest path args now rl).2.
Proof.
  intros [H1 H2 H3 H4] Hn Hn0. unfold LogRequest, AddEntry. set (p := fresh (dom (heap rl))). cbn.
  assert (Hp : heap rl !! p = None) by (apply not_elem_of_dom, is_fresh).
  assert (Hold : forall q, q ∈ Requests rl -> q <> p) by (intros q Hq ->; apply H1 in Hq; by rewrite Hp in Hq; destruct Hq).
  assert (Ei : i64 (nextID rl + 1) = nextID rl + 1) by (apply wrapS_small; [lia|]; unfold inS; change (2 ^ (64 - 1)) with (2 ^ 63); lia).
  split; unfold entry_ID, active in *; cbn; rewrite ?Ei.
  - intros q [Hq|Hq]%elem_of_app; [rewrite lookup_insert_ne by (by apply not_eq_sym, Hold); auto|].
    apply list_elem_of_singleton in Hq as ->. by rewrite lookup_insert_eq.
  - apply StronglySorted_snoc.
    + eapply StronglySorted_impl; [done|]. intros x y Hx Hy. cbn. rewrite !lookup_insert_ne by (by apply not_eq_sym, Hold). done.
    + intros q Hq. rewrite lookup_insert_ne by (by apply not_eq_sym, Hold). rewrite lookup_insert_eq. cbn. auto.
  - intros q [Hq|Hq]%elem_of_app; [rewrite lookup_insert_ne by (by apply not_eq_sym, Hold); specialize (H3 q Hq); lia|].
    apply list_elem_of_singleton in Hq as ->. rewrite lookup_insert_eq. cbn. lia.
  - intros q (e & Ee & Ha). apply elem_of_app. destruct (decide (q = p)) as [-> |Hne]; [right; by apply list_elem_of_singleton|].
    rewrite lookup_insert_ne in Ee by done. left. eauto.
Qed.

Lemma log_ok_Finish p now rl : log_ok rl -> log_ok (Finish p now rl).
Proof.
  intros [H1 H2 H3 H4]. apply log_ok_maybeCleanup. unfold with_heap. set (finish := fun e => _).
  assert (Ei : forall q, match alter finish p (heap rl) !! q with Some e => ID e | None => 0 end = entry_ID rl q).
  { intros q. unfold entry_ID. destruct (decide (q = p)) as [-> |Hne]; [|by rewrite lookup_alter_ne]. rewrite lookup_alter_eq. by destruct (heap rl !! p). }
  split; [| | |unfold active in *]; cbn.
  - intros q Hq. destruct (decide (q = p)) as [-> |Hne]; [rewrite lookup_alter_eq; apply fmap_is_Some; auto|rewrite lookup_alter_ne by done; auto].
  - eapply StronglySorted_impl; [done|]. intros x y _ _. unfold entry_ID at 3 4. cbn. by rewrite !Ei.
  - intros q Hq. unfold entry_ID. cbn. rewrite Ei. auto.
  - intros q (e & Ee & Ha). destruct (decide (q = p)) as [-> |Hne]; [|rewrite lookup_alter_ne in Ee by done; eauto].
    rewrite lookup_alter_eq in Ee. apply fmap_Some in Ee as (e' & _ & ->). done.
Qed.

Lemma log_ok_apply o now rl : log_ok rl -> 0 <= nextID rl -> nextID rl + 1 < 2 ^ 63 -> log_ok (apply_op o now rl).
Proof.
  intros Hok H0 H1. destruct o as [path args|p| |t]; cbn [apply_op].
  - by apply log_ok_LogRequest.
  - by apply log_ok_Finish.
  - unfold ClearInactive. by apply log_ok_with_keep, log_ok_cleanup, log_ok_with_keep.
  - by apply log_ok_with_keep.
Qed.

Lemma nextID_cleanup now rl : nextID (cleanup now rl) = nextID rl. Proof. by rewrite cleanup_filter. Qed.
Lemma nextID_maybeCleanup now rl : nextID (maybeCleanup now rl) = nextID rl.
Proof. unfold maybeCleanup. destruct (_ =? 0); [apply nextID_cleanup|done]. Qed.

Lemma nextID_apply o now rl : 0 <= nextID rl -> nextID rl + 1 < 2 ^ 63 -> nextID rl <= nextID (apply_op o now rl) <= nextID rl + 1.
Proof.
  intros H0 H1. destruct o; cbn [apply_op].
  - unfold LogRequest, AddEntry. cbn. rewrite wrapS_small; [lia..|]. unfold inS. change (2 ^ (64 - 1)) with (2 ^ 63). lia.
  - unfold Finish. rewrite nextID_maybeCleanup. cbn. lia.
  - unfold ClearInactive. cbn [with_keep nextID]. rewrite nextID_cleanup. cbn. lia.
  - cbn. lia.
Qed.

Lemma log_ok_run ops rl :
  log_ok rl -> 0 <= nextID rl -> nextID rl + Z.of_nat (length ops) < 2 ^ 63 -> log_ok (run ops rl).
Proof.
  revert rl. induction ops as [|[o now] ops IH]; intros rl Hok H0 H1; [done|]. cbn [length] in H1.
  pose proof (nextID_apply o now rl H0 ltac:(lia)) as Hn. change (run ((o, now) :: ops) rl) with (run ops (apply_op o now rl)). apply IH; [apply log_ok_apply; [done|lia..]|lia..].
Qed.

Lemma sorted_entries rl l :
  (forall p, p ∈ l -> is_Some (heap rl !! p)) -> StronglySorted (fun p q => entry_ID rl p < entry_ID rl q) l ->
  StronglySorted (fun e f => ID e < ID f) (omap (fun p => heap rl !! p) l).
Proof.
  intros H1 H2. unfold entry_ID in H2. induction H2 as [|p l Hs IH Hp]; [constructor|].
  destruct (H1 p (list_elem_of_here _ _)) as [e Ee]. cbn. rewrite Ee. constructor.
  - apply IH. intros q Hq. by apply H1, list_elem_of_further.
  - apply Forall_forall. intros f (q & Hq & Ef)%list_elem_of_omap. eapply Forall_forall in Hp; [|done]. by rewrite Ee, Ef in Hp.
Qed.

(** ** Theorems *)

(** C35: whatever requests are logged and finished, in whatever order and with
    whatever cleaning in between, no active request is missing from the log, and
    its entries are in the order of their IDs, which are distinct. *)
Theorem reqlog_keeps_active ops :
  Z.of_nat (length ops) < 2 ^ 63 ->
  let rl := run ops empty_log in
  (forall p, active rl p -> p ∈ Requests rl) /\
  StronglySorted (fun e f => ID e < ID f) (Report rl).
Proof.
  intros Hl rl. assert (Hok : log_ok rl).
  { apply log_ok_run; [|done|done]. split; cbn; [by intros p Hp%not_elem_of_nil|constructor|by intros p Hp%not_elem_of_nil|].
    intros p (e & Ee & _). change (@lookup ptr ReqLogEntry (gmap ptr ReqLogEntry) _ p ∅ = Some e) in Ee. by rewrite lookup_empty in Ee. }
  clearbody rl. destruct Hok as [H1 H2 _ H4]. split; [done|]. by apply sorted_entries.
Qed.

(** cleaning keeps exactly the entries that are active or ended less than the
    keep time ago, in their order; clearing keeps the active ones (and those that
    end later than now), whatever the keep time is, and leaves that as it was. *)
Theorem reqlog_cleanup_exact now rl :
  Requests (cleanup now rl) = filter (fun p => keeps rl now p = true) (Requests rl) /\
  Requests (ClearInactive now rl) = filter (fun p => keeps (with_keep 0 rl) now p = true) (Requests rl) /\
  keep (ClearInactive now rl) = keep rl /\ heap (ClearInactive now rl) = heap rl.
Proof. unfold ClearInactive. by rewrite !cleanup_filter. Qed.

(** ** Witnesses *)
Module DemoLog.
Definition ops : list (op * Z) :=
  [(OpKeep 100, 0); (OpLog ["add"] ["x"], 1); (OpLog ["pin"; "ls"] [], 2); (OpFinish 1, 5); (OpLog ["id"] [], 6); (OpClear, 7)].

Lemma reqlog_keeps_active_witness :
  Z.of_nat (length ops) < 2 ^ 63 /\
  (forall p, active (run ops empty_log) p -> p ∈ Requests (run ops empty_log)) /\
  StronglySorted (fun e f => ID e < ID f) (Report (run ops empty_log)).
Proof. split; [reflexivity|]. exact (reqlog_keeps_active ops eq_refl). Defined.

Example report_ops : map (fun e => (ID e, Command e, Active e)) (Report (run ops empty_log)) = [(0, "add", true); (2, "id", true)].
Proof. vm_compute. reflexivity. Qed.
End DemoLog.
