(* ===== verification/Files.v ===== *)
(** The mutable file system commands: [core/commands/files.go].

    The file system itself ([go-mfs]) and the DAG are the class [MFS]: a state [M]
    with directory and file handles and file descriptors.  A command is a
    computation over [M] that fails with an error and keeps the state reached.
    What the commands need of the descriptors is stated in [FdLaws]. *)
From Stdlib Require Import ZArith Lia Ascii String.
From stdpp Require Import base strings list.
From S2P Require Import Prelude GoStrings GoPath.

Local Open Scope Z_scope.

Abbreviation bytes := (list Byte.byte).

Definition ErrNotExist : error := "file does not exist".

Record Prefix := MkPrefix { Version : Z; MhType : Z; MhLength : Z }.

(** A node as [statNode] takes it apart. *)
Inductive unixfs_type := TRaw | TDirectory | TFile | TMetadata | TSymlink | THAMTShard.
Inductive node_kind := ProtoNode (data : result (unixfs_type * Z)) | RawNode | OtherNode.
Record dnode := MkNode { n_cid : string; n_size : result Z; n_links : Z; n_kind : node_kind }.

Record MkdirOpts := MkMkdirOpts { Mkparents : bool; Flush : bool; CidBuilder : option Prefix }.
Record Flags := MkFlags { fRead : bool; fWrite : bool; fSync : bool }.

(** [mfs.NodeListing]. *)
Record NodeListing := MkListing { l_Name : string; l_Type : Z; l_Size : Z; l_Hash : string }.

Class MFS := {
  M : Type; dirh : Type; fileh : Type; fd : Type;
  Lookup : string -> M -> result (dirh + fileh);
  ResolveNode : string -> M -> result dnode;
  GetNode : dirh + fileh -> M -> result dnode;
  Mkdir : string -> MkdirOpts -> M -> option error * M;
  PutNode : string -> dnode -> M -> option error * M;
  FlushPath : string -> M -> result string * M;
  Mv : string -> string -> M -> option error * M;
  (** directories *)
  Unlink : dirh -> string -> M -> option error * M;
  dir_Flush : dirh -> M -> option error * M;
  Child : dirh -> string -> M -> result (dirh + fileh);
  AddChild : dirh -> string -> option Prefix -> M -> option error * M;
  GetCidBuilder : dirh -> M -> option Prefix;
  SetCidBuilder : dirh -> option Prefix -> M -> M;
  ListNames : dirh -> M -> result (list string);
  List : dirh -> M -> result (list NodeListing);
  (** files and their descriptors *)
  file_Type : fileh -> Z;
  file_Size : fileh -> M -> result Z;
  set_RawLeaves : fileh -> bool -> M -> M;
  Open : fileh -> Flags -> M -> result fd * M;
  fd_Size : fd -> M -> result Z;
  fd_Seek : fd -> Z -> M -> option error * M;
  fd_Truncate : fd -> Z -> M -> option error * M;
  fd_Write : fd -> bytes -> M -> option error * M;
  fd_Close : fd -> M -> option error * M;
  (** what reading a descriptor to its end gives, and the error it ends with *)
  fd_ReadAll : fd -> M -> bytes * option error;
  (** [dag.PrefixForCidVersion], [mh.Names], [enc.Encode] *)
  PrefixForCidVersion : Z -> result Prefix;
  mh_Names : string -> option Z;
  Encode : string -> string;
}.

(** ** Paths *)

(** [strings.HasSuffix(p, "/")], the test of the last byte of a non-empty path. *)
Fixpoint ends_in_slash (p : string) : bool :=
  match p with
  | EmptyString => false
  | String c EmptyString => Ascii.eqb c slash
  | String _ p => ends_in_slash p
  end.

Definition checkPath (p : string) : result string :=
  if String.eqb p "" then Err "paths must not be empty"
  else if negb (IsAbs p) then Err "paths must start with a leading slash"
  else
    let cleaned := Clean p in
    Ok (if ends_in_slash p && negb (String.eqb p "/") then cleaned +:+ "/" else cleaned).

(** ** Statistics *)

Record statOutput := MkStat { Hash : string; Size : Z; CumulativeSize : Z; Blocks : Z; Type_ : string }.

Definition moreThanOne (a b c : bool) : bool := a && b || b && c || a && c.

Definition newline : string := String "010" "".
Definition defaultStatFormat : string :=
  "<hash>" +:+ newline +:+ "Size: <size>" +:+ newline +:+ "CumulativeSize: <cumulsize>" +:+ newline +:+ "ChildBlocks: <childs>" +:+ newline +:+ "Type: <type>".

Definition statGetFormatOptions (hash size : bool) (format : string) : result string :=
  if moreThanOne hash size (negb (String.eqb format defaultStatFormat))
  then Err "format was set by multiple options. Only one format option is allowed"
  else if hash then Ok "<hash>" else if size then Ok "<cumulsize>" else Ok format.

Definition unixfs_type_String (t : unixfs_type) : string :=
  match t with TRaw => "Raw" | TDirectory => "Directory" | TFile => "File" | TMetadata => "Metadata" | TSymlink => "Symlink" | THAMTShard => "HAMTShard" end.

Definition statNode `{MFS} (nd : dnode) : result statOutput :=
  match n_size nd with
  | Err e => Err e
  | Ok cumulsize =>
      match n_kind nd with
      | ProtoNode (Err e) => Err e
      | ProtoNode (Ok (t, filesize)) =>
          match t with
          | TDirectory | THAMTShard => Ok (MkStat (Encode (n_cid nd)) filesize cumulsize (n_links nd) "directory")
          | TFile | TMetadata | TRaw => Ok (MkStat (Encode (n_cid nd)) filesize cumulsize (n_links nd) "file")
          | _ => Err ("unrecognized node type: " +:+ unixfs_type_String t)
          end
      | RawNode => Ok (MkStat (Encode (n_cid nd)) cumulsize cumulsize 0 "file")
      | OtherNode => Err "not unixfs node (proto or raw)"
      end
  end.

(** The text of [ipfs files stat] without its line on locality. *)
Definition stat_text (format : string) (out : statOutput) : string :=
  let s := ReplaceAll format "<hash>" (Hash out) in
  let s := ReplaceAll s "<size>" (FormatInt (Size out)) in
  let s := ReplaceAll s "<cumulsize>" (FormatInt (CumulativeSize out)) in
  let s := ReplaceAll s "<childs>" (FormatInt (Blocks out)) in
  ReplaceAll s "<type>" (Type_ out) +:+ newline.

(** A block as an offline DAG service shows it: its size and, for each link, what
    getting it gives. *)
Inductive block := MkBlock (len : Z) (links : list got)
with got := Found (b : block) | NotFound | Failed (e : error).

(** The values next to an error are the ones [walkBlock] returns with it. *)
Fixpoint walkBlock (nd : block) : bool * Z * option error :=
  match nd with
  | MkBlock len links =>
      (fix walk_links (links : list got) (local : bool) (sizeLocal : Z) : bool * Z * option error :=
         match links with
         | [] => (local, sizeLocal, None)
         | NotFound :: links => walk_links links false sizeLocal
         | Failed e :: _ => (local, sizeLocal, Some e)
         | Found child :: links =>
             match walkBlock child with
             | (_, _, Some e) => (local, sizeLocal, Some e)
             | (childLocal, childLocalSize, None) => walk_links links (local && childLocal) (u64 (sizeLocal + childLocalSize))
             end
         end) links true (u64 len)
  end.

(** ** Commands *)

Section Commands.
Context `{MFS}.

Definition cmd (A : Type) : Type := M -> result A * M.
Definition ret {A} (a : A) : cmd A := fun m => (Ok a, m).
Definition fail {A} (e : error) : cmd A := fun m => (Err e, m).
Definition bind {A B} (c : cmd A) (k : A -> cmd B) : cmd B := fun m =>
  match c m with (Ok a, m) => k a m | (Err e, m) => (Err e, m) end.
Definition reads {A} (f : M -> result A) : cmd A := fun m => (f m, m).
Definition act (f : M -> option error * M) : cmd unit := fun m =>
  match f m with (None, m) => (Ok tt, m) | (Some e, m) => (Err e, m) end.
Definition of_result {A} (r : result A) : cmd A := fun m => (r, m).
Definition when (b : bool) (c : cmd unit) : cmd unit := if b then c else ret tt.
(** [fmt.Errorf] around the error of a call. *)
Definition wrap {A} (f : error -> error) (c : cmd A) : cmd A := fun m =>
  match c m with (Ok a, m) => (Ok a, m) | (Err e, m) => (Err (f e), m) end.

Local Notation "x <- c ; k" := (bind c (fun x => k)) (at level 100, c at next level, right associativity).
Local Notation "c ;; k" := (bind c (fun _ => k)) (at level 100, right associativity).

Definition getNodeFromPath (p : string) : cmd dnode :=
  if HasPrefix p "/ipfs/" then reads (ResolveNode p)
  else fsn <- reads (Lookup p); reads (GetNode fsn).

Definition getPrefix (cidVer : option Z) (hashFun : option string) : result (option Prefix) :=
  match cidVer, hashFun with
  | None, None => Ok None
  | _, _ =>
      let ver := default 0 cidVer in
      let ver := if bool_decide (is_Some hashFun) && (ver =? 0) then 1 else ver in
      match PrefixForCidVersion ver with
      | Err e => Err e
      | Ok prefix =>
          match hashFun with
          | None => Ok (Some prefix)
          | Some h =>
              match mh_Names (ToLower h) with
              | None => Err ("unrecognized hash function: " +:+ ToLower h)
              | Some code => Ok (Some (MkPrefix (Version prefix) code (-1)))
              end
          end
      end
  end.

Definition ensureContainingDirectoryExists (path : string) (builder : option Prefix) : cmd unit :=
  let dirtomake := Dir path in
  if String.eqb dirtomake "/" then ret tt else act (Mkdir dirtomake (MkMkdirOpts true false builder)).

Definition getParentDir (dir : string) : cmd dirh :=
  parent <- reads (Lookup dir);
  match parent with
  | inl d => ret d
  | inr _ => fail "expected *mfs.Directory, didn't get it. This is likely a race condition"
  end.

Definition getFileHandle (path : string) (create : bool) (builder : option Prefix) : cmd fileh := fun m =>
  match Lookup path m with
  | Ok (inr fi) => (Ok fi, m)
  | Ok (inl _) => (Err (path +:+ " was not a file"), m)
  | Err e =>
      if negb (String.eqb e ErrNotExist) || negb create then (Err e, m)
      else
        let (dirname, fname) := path_Split path in
        (pdir <- getParentDir dirname;
         fun m =>
           let builder := match builder with None => GetCidBuilder pdir m | b => b end in
           (act (AddChild pdir fname builder) ;;
            fsn <- reads (Child pdir fname);
            match fsn with
            | inr fi => ret fi
            | inl _ => fail "expected *mfs.File, didn't get it. This is likely a race condition"
            end) m) m
  end.

(** The source has a second copy of [getPrefix], used by [files cp]. *)
Definition getPrefixNew : option Z -> option string -> result (option Prefix) := getPrefix.

(** [filesCpCmd.Run] *)
Definition files_cp (src dst : string) (mkParents flush : bool) (cidVer : option Z) (hashFun : option string) : cmd unit :=
  prefix <- of_result (getPrefixNew cidVer hashFun);
  src <- of_result (checkPath src);
  let src := trim_right (Ascii.eqb slash) src in
  dst <- of_result (checkPath dst);
  let dst := if ends_in_slash dst then dst +:+ path_Base src else dst in
  node <- wrap (fun e => "cp: cannot get node from path " +:+ src +:+ ": " +:+ e) (getNodeFromPath src);
  when mkParents (ensureContainingDirectoryExists dst prefix) ;;
  wrap (fun e => "cp: cannot put node in path " +:+ dst +:+ ": " +:+ e) (act (PutNode dst node)) ;;
  when flush (wrap (fun e => "cp: cannot flush the created file " +:+ dst +:+ ": " +:+ e) (FlushPath dst ;; ret tt)).

(** [filesLsCmd.Run] *)
Definition files_ls (arg : option string) (long : bool) : cmd (list NodeListing) :=
  path <- of_result (checkPath (default "/" arg));
  fsn <- reads (Lookup path);
  match fsn with
  | inl d =>
      if long then reads (List d)
      else names <- reads (ListNames d); ret ((fun name => MkListing name 0 0 "") <$> names)
  | inr f =>
      let name := (path_Split path).2 in
      if long then
        size <- reads (file_Size f); nd <- reads (GetNode (inr f)); ret [MkListing name (file_Type f) size (Encode (n_cid nd))]
      else ret [MkListing name 0 0 ""]
  end.

(** [io.LimitReader] around what a reader gives. *)
Definition limit_reader (count : option Z) (r : bytes * option error) : bytes * option error :=
  match count with
  | None => r
  | Some n => if n <=? Z.of_nat (length r.1) then (take (Z.to_nat n) r.1, None) else r
  end.

(** The deferred [Close] of a descriptor that was read: its error is dropped. *)
Definition closing {A} (d : fd) (c : cmd A) : cmd A := fun m => let '(r, m) := c m in (r, (fd_Close d m).2).

(** [filesReadCmd.Run]: the bytes emitted and the error the emission ends with. *)
Definition files_read (arg : string) (offset count : option Z) : cmd (bytes * option error) :=
  path <- of_result (checkPath arg);
  fsn <- reads (Lookup path);
  match fsn with
  | inl _ => fail (path +:+ " was not a file")
  | inr fi =>
      rfd <- Open fi (MkFlags true false false);
      closing rfd (
        let offset := default 0 offset in
        if offset <? 0 then fail "cannot specify negative offset"
        else
          filen <- reads (fd_Size rfd);
          if offset >? filen then fail ("offset was past end of file (" +:+ FormatInt offset +:+ " > " +:+ FormatInt filen +:+ ")")
          else
            act (fd_Seek rfd offset) ;;
            match count with
            | Some n => if n <? 0 then fail "cannot specify negative 'count'" else fun m => (Ok (limit_reader count (fd_ReadAll rfd m)), m)
            | None => fun m => (Ok (fd_ReadAll rfd m), m)
            end)
  end.

(** [filesMvCmd.Run] *)
Definition files_mv (src dst : string) (flush : bool) : cmd unit :=
  src <- of_result (checkPath src);
  dst <- of_result (checkPath dst);
  act (Mv src dst) ;;
  when flush (FlushPath "/" ;; ret tt).

Record write_opts := MkWriteOpts {
  w_create : bool; w_parents : bool; w_truncate : bool; w_flush : bool; w_rawLeaves : option bool;
  w_offset : option Z; w_count : option Z; w_cidVer : option Z; w_hash : option string;
}.

(** The deferred [Close] of a descriptor that was written: its error is the
    command's when there is no other. *)
Definition closing_write (d : fd) (c : cmd unit) : cmd unit := fun m =>
  let '(r, m) := c m in
  let '(e, m) := fd_Close d m in
  (match r, e with Ok _, Some e => Err e | r, _ => r end, m).

(** The writing of the input to the descriptor.  [file] is the file argument: an
    error, or the bytes reading it gives and the error it ends with. *)
Definition write_fd (o : write_opts) (file : result (bytes * option error)) (wfd : fd) : cmd unit :=
  when (w_truncate o) (act (fd_Truncate wfd 0)) ;;
  match w_count o with
  | Some count => when (count <? 0) (fail "cannot have negative byte count")
  | None => ret tt
  end ;;
  act (fd_Seek wfd (default 0 (w_offset o))) ;;
  r <- of_result file;
  let r := limit_reader (w_count o) r in
  act (fd_Write wfd r.1) ;;
  match r.2 with Some e => fail e | None => ret tt end.

(** [filesWriteCmd.Run] *)
Definition files_write (arg : string) (o : write_opts) (file : result (bytes * option error)) : cmd unit :=
  path <- of_result (checkPath arg);
  prefix <- of_result (getPrefix (w_cidVer o) (w_hash o));
  if default 0 (w_offset o) <? 0 then fail "cannot have negative write offset"
  else
    when (w_parents o) (ensureContainingDirectoryExists path prefix) ;;
    fi <- getFileHandle path (w_create o) prefix;
    (match w_rawLeaves o with Some b => fun m => (Ok tt, set_RawLeaves fi b m) | None => ret tt end) ;;
    wfd <- Open fi (MkFlags false true (w_flush o));
    closing_write wfd (write_fd o file wfd).

(** [filesMkdirCmd.Run] *)
Definition files_mkdir (arg : string) (dashp flush : bool) (cidVer : option Z) (hashFun : option string) : cmd unit :=
  dirtomake <- of_result (checkPath arg);
  prefix <- of_result (getPrefix cidVer hashFun);
  act (Mkdir dirtomake (MkMkdirOpts dashp flush prefix)).

(** [filesFlushCmd.Run] *)
Definition files_flush (arg : option string) : cmd string :=
  c <- FlushPath (default "/" arg); ret (Encode c).

Definition updatePath (pth : string) (builder : option Prefix) : cmd unit :=
  match builder with
  | None => ret tt
  | Some _ =>
      nd <- reads (Lookup pth);
      match nd with
      | inl d => fun m => (Ok tt, SetCidBuilder d builder m)
      | inr _ => fail "can only update directories"
      end
  end.

(** [filesChcidCmd.Run] *)
Definition files_chcid (arg : option string) (flush : bool) (cidVer : option Z) (hashFun : option string) : cmd unit :=
  let path := default "/" arg in
  prefix <- of_result (getPrefix cidVer hashFun);
  updatePath path prefix ;;
  when flush (FlushPath path ;; ret tt).

(** [path[:len(path)-1]] *)
Definition chop (p : string) : string := substring 0 (String.length p - 1) p.

Definition removePath (path : string) (force dashr : bool) : cmd unit :=
  if String.eqb path "/" then fail "cannot delete root"
  else
    let path := if ends_in_slash path then chop path else path in
    let (dir, name) := path_Split path in
    fun m =>
      match getParentDir dir m with
      | (Err e, m) => if force && String.eqb e ErrNotExist then (Ok tt, m) else (Err e, m)
      | (Ok pdir, m) =>
          if force then
            match Unlink pdir name m with
            | (Some e, m) => if String.eqb e ErrNotExist then (Ok tt, m) else (Err e, m)
            | (None, m) => act (dir_Flush pdir) m
            end
          else
            (child <- reads (Child pdir name);
             match child with
             | inl _ => when (negb dashr) (fail "path is a directory, use -r to remove directories")
             | inr _ => ret tt
             end ;;
             act (Unlink pdir name) ;;
             act (dir_Flush pdir)) m
      end.

(** The loop of [filesRmCmd.Run]. *)
Fixpoint rm_loop (args : list string) (force dashr : bool) (errs : list error) (m : M) : list error * M :=
  match args with
  | [] => (errs, m)
  | arg :: args =>
      match checkPath arg with
      | Err e => rm_loop args force dashr (errs ++ [arg +:+ " is not a valid path: " +:+ e]) m
      | Ok path =>
          match removePath path force dashr m with
          | (Err e, m) => rm_loop args force dashr (errs ++ [path +:+ ": " +:+ e]) m
          | (Ok _, m) => rm_loop args force dashr errs m
          end
      end
  end.

(** [filesRmCmd.Run]: the messages it emits, its error and the state. *)
Definition files_rm (args : list string) (force dashr : bool) (m : M) : list error * option error * M :=
  let '(errs, m) := rm_loop args force dashr [] m in
  match errs with
  | [] => ([], None, m)
  | _ => (errs, Some "can't remove some files", m)
  end.

(** [filesStatCmd.Run]; [offline nd] is the graph below the node as an offline DAG
    service over the node's blockstore shows it.  The second component holds the
    fields [Local] and [SizeLocal] when [WithLocality] is set. *)
Definition files_stat (offline : dnode -> block) (arg : string) (hash size : bool) (format : string) (withLocal : bool) : cmd (statOutput * option (bool * Z)) :=
  _ <- of_result (statGetFormatOptions hash size format);
  path <- of_result (checkPath arg);
  nd <- getNodeFromPath path;
  o <- of_result (statNode nd);
  if negb withLocal then ret (o, None)
  else
    match walkBlock (offline nd) with
    | (_, _, Some e) => fail e
    | (local, sizeLocal, None) => ret (o, Some (local, sizeLocal))
    end.
End Commands.

(** ** Lemmas *)

(** *** Paths in normal form *)

Definition clean_elems (l : list string) : Prop :=
  Forall (fun e => split_on slash e = [e] /\ e <> "" /\ e <> "." /\ e <> "..") l.

Lemma elements_of_meaningful p : Forall (fun e => split_on slash e = [e] /\ e <> "" /\ e <> ".") (elements_of p).
Proof.
  apply Forall_forall. intros e He. pose proof (proj1 (Forall_forall _ _) (elements_of_pieces p) e He).
  by apply list_elem_of_filter in He as [[H1 H2] _].
Qed.

Lemma resolve_rooted stack l :
  clean_elems stack -> Forall (fun e => split_on slash e = [e] /\ e <> "" /\ e <> ".") l -> clean_elems (resolve true stack l).
Proof.
  revert stack. induction l as [|e l IH]; intros stack Hs Hl; cbn [resolve]; [by apply Forall_reverse|].
  apply Forall_cons in Hl as [He Hl]. destruct (decide (e = "..")) as [-> |Hne].
  - destruct stack as [|top stack]; [by apply IH|]. apply Forall_cons in Hs as [Ht Hs]. destruct (decide (top = "..")); [naive_solver|by apply IH].
  - apply IH; [|done]. constructor; [naive_solver|done].
Qed.

Lemma resolve_id l : forall stack, Forall (fun e => e <> "..") l -> resolve true stack l = reverse stack ++ l.
Proof.
  induction l as [|e l IH]; intros stack Hl; cbn [resolve]; [by rewrite app_nil_r|]. apply Forall_cons in Hl as [He Hl].
  rewrite decide_False, IH by done. rewrite reverse_cons, <- (assoc (++)). done.
Qed.

Lemma elements_of_rooted l : clean_elems l -> elements_of (String slash (join_with "/" l)) = l.
Proof.
  intros Hl. unfold elements_of. change (String slash ?x) with ("" +:+ String slash x). rewrite split_on_app_sep. cbn [split_on app].
  rewrite filter_cons, decide_False by naive_solver. destruct l as [|e l]; [by vm_compute|].
  rewrite (split_join_with slash); [|done|eapply Forall_impl; [exact Hl|naive_solver]].
  revert Hl. generalize (e :: l). clear. induction l as [|e l IH]; [done|]. intros [He Hl]%Forall_cons. rewrite filter_cons, decide_True, IH by naive_solver. done.
Qed.

Lemma elements_of_slash p : elements_of (p +:+ "/") = elements_of p.
Proof.
  unfold elements_of. change (p +:+ "/") with (p +:+ String slash ""). rewrite split_on_app_sep, filter_app. cbn.
  rewrite decide_False by naive_solver. apply app_nil_r.
Qed.

Definition rooted (l : list string) : string := String slash (join_with "/" l).

Lemma Clean_rooted p : IsAbs p = true -> exists l, clean_elems l /\ Clean p = rooted l.
Proof.
  intros Ha. exists (resolve true [] (elements_of p)). split.
  - apply resolve_rooted; [constructor|apply elements_of_meaningful].
  - unfold Clean. by rewrite Ha.
Qed.

Lemma Clean_of_rooted l : clean_elems l -> Clean (rooted l) = rooted l /\ Clean (rooted l +:+ "/") = rooted l.
Proof.
  intros Hl. assert (Hr : resolve true [] l = l) by (apply resolve_id; eapply Forall_impl; [exact Hl|naive_solver]).
  unfold Clean. rewrite elements_of_slash. rewrite (IsAbs_app (rooted l) "/") by done.
  rewrite (eq_refl : IsAbs (rooted l) = true), (elements_of_rooted l Hl : elements_of (rooted l) = l), Hr. done.
Qed.

Lemma ends_in_slash_app p : ends_in_slash (p +:+ "/") = true.
Proof. induction p as [|c p IH]; [done|]. rewrite string_app_cons. cbn [ends_in_slash]. destruct p; [done|]. exact IH. Qed.

Lemma ends_in_slash_cons c p : p <> "" -> ends_in_slash (String c p) = ends_in_slash p.
Proof. by destruct p. Qed.

Lemma ends_in_slash_suffix a b : b <> "" -> ends_in_slash (a +:+ b) = ends_in_slash b.
Proof.
  intros Hb. induction a as [|c a IH]; [done|]. rewrite string_app_cons, ends_in_slash_cons, IH; [done|].
  destruct a; [by destruct b|done].
Qed.

Lemma piece_no_slash e : split_on slash e = [e] -> ends_in_slash e = false.
Proof.
  induction e as [|c e IH]; [done|]. intros Es. cbn [split_on] in Es. destruct (Ascii.eqb c slash) eqn:Ec.
  - injection Es as Es Es'. by apply split_on_nonempty in Es'.
  - destruct (split_on slash e) as [|x y] eqn:Ey; [by apply split_on_nonempty in Ey|]. injection Es as -> ->.
    destruct e; [exact Ec|]. rewrite ends_in_slash_cons by done. by apply IH.
Qed.

Lemma rooted_ends l : clean_elems l -> ends_in_slash (rooted l) = bool_decide (l = []).
Proof.
  unfold rooted. destruct l as [|e l]; [done|]. intros Hl. rewrite ends_in_slash_cons.
  2:{ destruct l; [by apply Forall_cons in Hl as [(_ & ? & _) _]|]. cbn. apply Forall_cons in Hl as [(_ & ? & _) _]. by destruct e. }
  cbn [bool_decide]. revert e Hl. induction l as [|e' l IH]; intros e [(Hp & Hne & _) Hl]%Forall_cons; [by apply piece_no_slash|].
  cbn [join_with]. change (match l with [] => e' | _ :: _ => e' +:+ "/" +:+ join_with "/" l end) with (join_with "/" (e' :: l)).
  rewrite ends_in_slash_suffix by done. change ("/" +:+ ?x) with (String slash x). rewrite ends_in_slash_cons; [by apply IH|].
  apply Forall_cons in Hl as [(_ & ? & _) _]. destruct l; [done|]. cbn. by destruct e'.
Qed.

(** *** Descriptors *)

Definition zero : Byte.byte := Byte.x00.

(** [data] over the bytes of [c] from [pos] on. *)
Definition overwrite (pos : Z) (data c : bytes) : bytes :=
  take (Z.to_nat pos) c ++ data ++ drop (Z.to_nat pos + length data) c.

(** What the commands rely on in [go-mfs]: of a descriptor opened for what is done
    with it, a call that succeeds does what it is for.  [Open] gives the content of
    the file; [Seek] moves the position, for writing also past the end, which it
    fills with zeros; [Truncate] cuts, [Write] overwrites at the position and [Close]
    makes the content the file's; reading gives the content from the position on,
    or a part of it with an error.  Any call may fail, and nothing is said of the
    state then. *)
Class FdLaws `{MFS} := {
  content : fileh -> M -> bytes;
  fd_file : fd -> fileh;
  fd_flags : fd -> Flags;
  fd_content : fd -> M -> bytes;
  fd_pos : fd -> M -> Z;
  open_law f fl m d m' : Open f fl m = (Ok d, m') -> fd_file d = f /\ fd_flags d = fl /\ fd_content d m' = content f m;
  size_law d m n : fd_Size d m = Ok n -> n = Z.of_nat (length (fd_content d m));
  seek_law d o m m' : fd_Seek d o m = (None, m') -> 0 <= o -> fWrite (fd_flags d) = true \/ o <= Z.of_nat (length (fd_content d m)) ->
    fd_pos d m' = o /\ fd_content d m' = resize (length (fd_content d m) `max` Z.to_nat o) zero (fd_content d m);
  truncate_law d n m m' : fd_Truncate d n m = (None, m') -> 0 <= n -> fWrite (fd_flags d) = true ->
    fd_content d m' = resize (Z.to_nat n) zero (fd_content d m);
  write_law d b m m' : fd_Write d b m = (None, m') -> fWrite (fd_flags d) = true ->
    fd_content d m' = overwrite (fd_pos d m) b (fd_content d m);
  close_law d m m' : fd_Close d m = (None, m') -> fWrite (fd_flags d) = true -> content (fd_file d) m' = fd_content d m;
  read_law d m b e : fd_ReadAll d m = (b, e) -> fRead (fd_flags d) = true ->
    b `prefix_of` drop (Z.to_nat (fd_pos d m)) (fd_content d m) /\ (e = None -> b = drop (Z.to_nat (fd_pos d m)) (fd_content d m));
}.

(** The errors [go-mfs] may give for a file: of opening it, and of the calls on its
    descriptors. *)
Inductive mfs_failed `{FdLaws} (f : fileh) (e : error) : Prop :=
| FailOpen fl m : (Open f fl m).1 = Err e -> mfs_failed f e
| FailSize d m : fd_file d = f -> fd_Size d m = Err e -> mfs_failed f e
| FailSeek d o m : fd_file d = f -> (fd_Seek d o m).1 = Some e -> mfs_failed f e
| FailTruncate d n m : fd_file d = f -> (fd_Truncate d n m).1 = Some e -> mfs_failed f e
| FailWrite d b m : fd_file d = f -> (fd_Write d b m).1 = Some e -> mfs_failed f e
| FailClose d m : fd_file d = f -> (fd_Close d m).1 = Some e -> mfs_failed f e.

(** What of the input is written. *)
Definition counted (o : write_opts) (data : bytes) : bytes := match w_count o with Some n => take (Z.to_nat n) data | None => data end.

(** The content a write leaves. *)
Definition written (o : write_opts) (data old : bytes) : bytes :=
  let old := if w_truncate o then [] else old in
  let off := default 0 (w_offset o) in
  overwrite off (counted o data)
    (resize (length old `max` Z.to_nat off) zero old).

Section Laws.
Context `{FdLaws}.

Lemma limit_reader_take count data :
  limit_reader count (data, None) = (match count with Some n => take (Z.to_nat n) data | None => data end, None).
Proof. destruct count as [n|]; [|done]. unfold limit_reader. cbn [fst]. destruct (Z.leb_spec n (Z.of_nat (length data))); [done|]. by rewrite take_ge by lia. Qed.

Lemma write_fd_spec o data d m :
  0 <= default 0 (w_offset o) -> 0 <= default 0 (w_count o) -> fWrite (fd_flags d) = true ->
  match write_fd o (Ok (data, None)) d m with
  | (Ok _, m') => fd_content d m' = written o data (fd_content d m)
  | (Err e, _) => mfs_failed (fd_file d) e
  end.
Proof.
  intros Ho Hc Hw. unfold write_fd, written, bind at 1.
  assert (Ht : match when (w_truncate o) (act (fd_Truncate d 0)) m with
    | (Ok _, m1) => fd_content d m1 = if w_truncate o then [] else fd_content d m
    | (Err e, _) => mfs_failed (fd_file d) e end).
  { destruct (w_truncate o); [|done]. unfold when, act. destruct (fd_Truncate d 0 m) as [[e|] m1] eqn:E.
    - apply (FailTruncate _ _ d 0 m); [done|by rewrite E].
    - rewrite (truncate_law d 0 m m1 E) by done. apply resize_0. }
  destruct (when (w_truncate o) (act (fd_Truncate d 0)) m) as [[[]|e] m1]; [|done]. rewrite <- Ht.
  assert (Hcount : match w_count o with Some count => when (count <? 0) (fail "cannot have negative byte count") | None => ret tt end m1 = (Ok tt, m1)).
  { destruct (w_count o) as [n|]; [|done]. cbn in Hc. by rewrite (proj2 (Z.ltb_ge n 0)) by lia. }
  unfold bind at 1. rewrite Hcount. unfold bind, act, of_result. rewrite limit_reader_take. cbn [fst snd]. fold (counted o data).
  destruct (fd_Seek d (default 0 (w_offset o)) m1) as [[e|] m2] eqn:E2; [apply (FailSeek _ _ d (default 0 (w_offset o)) m1); [done|by rewrite E2]|].
  destruct (seek_law d _ m1 m2 E2 Ho) as [P2 C2]; [by left|].
  destruct (fd_Write d (counted o data) m2) as [[e|] m3] eqn:E3; [apply (FailWrite _ _ d (counted o data) m2); [done|by rewrite E3]|].
  cbn. by rewrite (write_law d _ m2 m3 E3 Hw), P2, C2.
Qed.

Lemma files_write_spec arg path pre o data fi m :
  checkPath arg = Ok path -> Lookup path m = Ok (inr fi) -> getPrefix (w_cidVer o) (w_hash o) = Ok pre ->
  w_parents o = false -> w_rawLeaves o = None -> 0 <= default 0 (w_offset o) -> 0 <= default 0 (w_count o) ->
  match files_write arg o (Ok (data, None)) m with
  | (Ok _, m') => content fi m' = written o data (content fi m)
  | (Err e, _) => mfs_failed fi e
  end.
Proof.
  intros Hp Hl Hpre Hpar Hraw Ho Hc. unfold files_write. unfold bind at 1 2, of_result at 1 2. rewrite Hp, Hpre.
  rewrite (proj2 (Z.ltb_ge _ 0)) by done. rewrite Hpar, Hraw. unfold bind at 1, when at 1. cbn [ret].
  unfold bind at 1. unfold getFileHandle. rewrite Hl. unfold bind at 1. cbn [ret]. unfold bind at 1.
  destruct (Open fi (MkFlags false true (w_flush o)) m) as [[d|e] m1] eqn:E1; [|apply (FailOpen _ _ (MkFlags false true (w_flush o)) m); by rewrite E1].
  apply open_law in E1 as (<- & Fl & C1). assert (Hw : fWrite (fd_flags d) = true) by (by rewrite Fl).
  unfold closing_write. pose proof (write_fd_spec o data d m1 Ho Hc Hw) as Hs. destruct (write_fd o (Ok (data, None)) d m1) as [[[]|e] m2].
  - destruct (fd_Close d m2) as [[e|] m3] eqn:E3; [apply (FailClose _ _ d m2); [done|by rewrite E3]|].
    rewrite (close_law d m2 m3 E3 Hw), Hs. by rewrite C1.
  - by destruct (fd_Close d m2).
Qed.

Lemma limit_reader_prefix n (rest b : bytes) e : 0 <= n -> b `prefix_of` rest -> (e = None -> b = rest) ->
  (limit_reader (Some n) (b, e)).1 `prefix_of` take (Z.to_nat n) rest /\
  ((limit_reader (Some n) (b, e)).2 = None -> (limit_reader (Some n) (b, e)).1 = take (Z.to_nat n) rest).
Proof.
  intros Hn [k ->] He. unfold limit_reader. cbn [fst]. destruct (Z.leb_spec n (Z.of_nat (length b))) as [Hle|Hlt]; cbn [fst snd].
  - rewrite take_app_le by lia. done.
  - split; [rewrite take_app_ge by lia; by apply prefix_app_r|]. intros E. specialize (He E). rewrite take_ge; [done|]. rewrite <- He. lia.
Qed.

Lemma files_read_spec arg path offset count fi m :
  checkPath arg = Ok path -> Lookup path m = Ok (inr fi) -> 0 <= count ->
  0 <= default 0 offset <= Z.of_nat (length (content fi m)) ->
  let rest := take (Z.to_nat count) (drop (Z.to_nat (default 0 offset)) (content fi m)) in
  match (files_read arg offset (Some count) m).1 with
  | Ok (out, err) => out `prefix_of` rest /\ (err = None -> out = rest)
  | Err e => mfs_failed fi e
  end.
Proof.
  intros Hp Hl Hc Ho. cbn zeta. unfold files_read. unfold bind at 1 2, of_result at 1, reads at 1. rewrite Hp, Hl. unfold bind at 1.
  destruct (Open fi (MkFlags true false false) m) as [[d|e] m1] eqn:E1; [|apply (FailOpen _ _ (MkFlags true false false) m); by rewrite E1].
  apply open_law in E1 as (<- & Fl & C1). unfold closing. cbn [fst]. rewrite (proj2 (Z.ltb_ge _ 0)) by lia. unfold bind at 1, reads at 1.
  destruct (fd_Size d m1) as [n|e] eqn:Es; [|by apply (FailSize _ _ d m1)]. apply size_law in Es. rewrite C1 in Es. subst n.
  rewrite Z.gtb_ltb, (proj2 (Z.ltb_ge _ _)) by lia. unfold bind, act.
  destruct (fd_Seek d (default 0 offset) m1) as [[e|] m2] eqn:E2; [apply (FailSeek _ _ d (default 0 offset) m1); [done|by rewrite E2]|].
  destruct (seek_law d _ m1 m2 E2) as [P2 C2]; [lia|right; rewrite C1; lia|]. rewrite C1, resize_ge, Nat.max_l, Nat.sub_diag, app_nil_r in C2 by lia.
  rewrite (proj2 (Z.ltb_ge count 0)) by lia. destruct (fd_ReadAll d m2) as [b e] eqn:Er.
  apply read_law in Er as [Hb He]; [|by rewrite Fl]. rewrite P2, C2 in Hb, He.
  pose proof (limit_reader_prefix count _ b e Hc Hb He) as Hlim. cbn [fst]. by destruct (limit_reader (Some count) (b, e)).
Qed.

(** What a write puts at an offset is what is there afterwards. *)
Lemma written_at o data old :
  0 <= default 0 (w_offset o) ->
  let c := written o data old in
  default 0 (w_offset o) <= Z.of_nat (length c) /\
  take (length (counted o data)) (drop (Z.to_nat (default 0 (w_offset o))) c) = counted o data.
Proof.
  intros Ho. unfold written. cbn zeta. set (old' := if w_truncate o then [] else old). set (off := default 0 (w_offset o)) in *.
  set (c := resize _ zero old'). assert (Hlen : (Z.to_nat off <= length c)%nat) by (unfold c; rewrite length_resize; lia).
  unfold overwrite. split.
  - rewrite length_app, length_take. lia.
  - rewrite drop_app_exact by (rewrite length_take; lia). by apply take_app_exact.
Qed.
End Laws.

(** *** Locality *)

Section Locality.
Fixpoint local_sizes (nd : block) : list Z :=
  match nd with
  | MkBlock len links =>
      len :: (fix sizes (links : list got) : list Z :=
        match links with [] => [] | Found b :: links => local_sizes b ++ sizes links | _ :: links => sizes links end) links
  end.
Fixpoint complete (nd : block) : bool :=
  match nd with
  | MkBlock _ links =>
      (fix all (links : list got) : bool :=
         match links with [] => true | Found b :: links => complete b && all links | _ :: _ => false end) links
  end.
Fixpoint readable (nd : block) : bool :=
  match nd with
  | MkBlock _ links =>
      (fix all (links : list got) : bool :=
         match links with [] => true | Found b :: links => readable b && all links | NotFound :: links => all links | Failed _ :: _ => false end) links
  end.

Definition sum (l : list Z) : Z := foldr Z.add 0 l.

Lemma sum_app l k : sum (l ++ k) = sum l + sum k.
Proof. induction l as [|x l IH]; [done|]. cbn. fold (sum (l ++ k)) (sum l). lia. Qed.

Lemma u64_add a b : u64 (u64 a + u64 b) = u64 (a + b).
Proof. unfold wrapU. symmetry. apply Zplus_mod. Qed.

Fixpoint walkBlock_readable nd {struct nd} : readable nd = true -> walkBlock nd = (complete nd, u64 (sum (local_sizes nd)), None).
Proof.
  destruct nd as [len links]. cbn [readable walkBlock complete local_sizes]. intros Hr.
  cut (forall local s, (fix walk_links (links : list got) (local : bool) (sizeLocal : Z) : bool * Z * option error :=
         match links with
         | [] => (local, sizeLocal, None)
         | NotFound :: links => walk_links links false sizeLocal
         | Failed e :: _ => (local, sizeLocal, Some e)
         | Found child :: links =>
             match walkBlock child with
             | (_, _, Some e) => (local, sizeLocal, Some e)
             | (childLocal, childLocalSize, None) => walk_links links (local && childLocal) (u64 (sizeLocal + childLocalSize))
             end
         end) links local (u64 s) =
     (local && (fix all (links : list got) : bool :=
         match links with [] => true | Found b :: links => complete b && all links | _ :: _ => false end) links,
      u64 (s + sum ((fix sizes (links : list got) : list Z :=
        match links with [] => [] | Found b :: links => local_sizes b ++ sizes links | _ :: links => sizes links end) links)), None)).
  { intros Hw. rewrite Hw. done. }
  induction links as [|[child| |e] links IH]; intros local s.
  - by rewrite andb_true_r, Z.add_0_r.
  - apply andb_prop in Hr as [Hc Hr]. rewrite (walkBlock_readable child Hc), u64_add, IH by done.
    rewrite sum_app, andb_assoc, Z.add_assoc. done.
  - rewrite IH by done. by rewrite andb_false_r.
  - done.
Qed.
End Locality.

(** ** Theorems *)

Section Theorems.
Context `{FdLaws}.

(** C18: what [ipfs files write] writes at an offset of an existing file, with or
    without truncating it, limited by a count or not, [ipfs files read] reads back
    there, whatever the file held and also when the offset is past its end.  Both
    succeed unless [go-mfs] fails to open the file or in a call on its descriptor,
    and then give its error; a read that breaks off has given a part of it. *)
Theorem files_write_read arg path pre o data fi m :
  checkPath arg = Ok path -> Lookup path m = Ok (inr fi) -> getPrefix (w_cidVer o) (w_hash o) = Ok pre ->
  w_parents o = false -> w_rawLeaves o = None -> 0 <= default 0 (w_count o) -> 0 <= default 0 (w_offset o) ->
  match files_write arg o (Ok (data, None)) m with
  | (Err e, _) => mfs_failed fi e
  | (Ok _, m') =>
      Lookup path m' = Ok (inr fi) ->
      match (files_read arg (w_offset o) (Some (Z.of_nat (length (counted o data)))) m').1 with
      | Err e => mfs_failed fi e
      | Ok (out, err) => out `prefix_of` counted o data /\ (err = None -> out = counted o data)
      end
  end.
Proof.
  intros Hp Hl Hpre Hpar Hraw Hc Ho. pose proof (files_write_spec arg path pre o data fi m Hp Hl Hpre Hpar Hraw Ho Hc) as Hs.
  destruct (files_write arg o (Ok (data, None)) m) as [[[]|e] m']; [|done]. intros Hl'.
  destruct (written_at o data (content fi m) Ho) as [Hlen Hat]. rewrite <- Hs in Hlen, Hat.
  pose proof (files_read_spec arg path (w_offset o) (Z.of_nat (length (counted o data))) fi m' Hp Hl' ltac:(lia) (conj Ho Hlen)) as Hr.
  by rewrite Nat2Z.id, Hat in Hr.
Qed.

(** Without an offset and without truncation, a write that succeeds is to the
    beginning of the file, not to its end. *)
Theorem write_without_offset_overwrites arg path pre o data fi m m' :
  checkPath arg = Ok path -> Lookup path m = Ok (inr fi) -> getPrefix (w_cidVer o) (w_hash o) = Ok pre ->
  w_parents o = false -> w_rawLeaves o = None -> w_truncate o = false -> w_count o = None -> w_offset o = None ->
  files_write arg o (Ok (data, None)) m = (Ok tt, m') -> content fi m' = data ++ drop (length data) (content fi m).
Proof.
  intros Hp Hl Hpre Hpar Hraw Ht Hc Ho E. assert (Hs : content fi m' = written o data (content fi m)).
  { pose proof (files_write_spec arg path pre o data fi m Hp Hl Hpre Hpar Hraw) as Hs. rewrite E, Ho, Hc in Hs. by apply Hs. }
  rewrite Hs. unfold written, counted, overwrite. rewrite Ht, Hc, Ho. cbn. by rewrite Nat.max_0_r, resize_all.
Qed.

(** [ipfs files write] checks a negative count only after it has truncated: the
    command is refused and the file is empty. *)
Theorem write_refused_after_truncate arg path pre o data fi n m d m1 m2 m3 :
  checkPath arg = Ok path -> Lookup path m = Ok (inr fi) -> getPrefix (w_cidVer o) (w_hash o) = Ok pre ->
  w_parents o = false -> w_rawLeaves o = None -> w_truncate o = true -> 0 <= default 0 (w_offset o) -> w_count o = Some n -> n < 0 ->
  Open fi (MkFlags false true (w_flush o)) m = (Ok d, m1) -> fd_Truncate d 0 m1 = (None, m2) -> fd_Close d m2 = (None, m3) ->
  files_write arg o data m = (Err "cannot have negative byte count", m3) /\ content fi m3 = [].
Proof.
  intros Hp Hl Hpre Hpar Hraw Ht Ho Hc Hn E1 E2 E3. unfold files_write. unfold bind at 1 2, of_result at 1 2. rewrite Hp, Hpre.
  rewrite (proj2 (Z.ltb_ge _ 0)) by done. rewrite Hpar, Hraw. unfold bind at 1, when at 1. cbn [ret].
  unfold bind at 1. unfold getFileHandle. rewrite Hl. unfold bind at 1. cbn [ret]. unfold bind at 1. rewrite E1.
  unfold closing_write, write_fd. rewrite Ht, Hc, (proj2 (Z.ltb_lt n 0)) by done. unfold bind, when, act, fail. rewrite E2, E3. split; [done|].
  apply open_law in E1 as (<- & Fl & _). assert (Hw : fWrite (fd_flags d) = true) by (by rewrite Fl).
  rewrite (close_law d m2 m3 E3 Hw), (truncate_law d 0 m1 m2 E2) by done. apply resize_0.
Qed.

(** a path the commands accept is in normal form: absolute, its elements cleaned
    of empty ones, dots and parents, with at most one more slash at the end; and
    checking it again changes nothing. *)
Theorem check_path_normal p q :
  checkPath p = Ok q ->
  (exists l, clean_elems l /\ (q = rooted l \/ q = rooted l +:+ "/")) /\ checkPath q = Ok q.
Proof.
  unfold checkPath at 1. destruct (String.eqb_spec p ""); [done|]. destruct (IsAbs p) eqn:Ha; [|done]. cbn [negb]. cbn zeta. intros E.
  destruct (Clean_rooted p Ha) as (l & Hl & Ec). rewrite Ec in E. destruct (Clean_of_rooted l Hl) as [C1 C2].
  assert (Hq : q = (if ends_in_slash p && negb (String.eqb p "/") then rooted l +:+ "/" else rooted l)) by congruence. clear E. subst q.
  destruct (ends_in_slash p && negb (String.eqb p "/")); (split; [exists l; by auto|]); unfold checkPath.
  - rewrite (eq_refl : String.eqb (rooted l +:+ "/") "" = false), (eq_refl : IsAbs (rooted l +:+ "/") = true). cbn [negb]. cbn zeta.
    rewrite C2, ends_in_slash_app. unfold rooted at 1. rewrite string_app_cons. cbn [String.eqb].
    replace (String.eqb (join_with "/" l +:+ "/") "") with false by (by destruct (join_with "/" l)). done.
  - rewrite (eq_refl : String.eqb (rooted l) "" = false), (eq_refl : IsAbs (rooted l) = true). cbn [negb]. cbn zeta. rewrite C1, rooted_ends by done.
    destruct l as [|e l]; [done|]. by rewrite bool_decide_eq_false_2.
Qed.
End Theorems.

Section Removal.
Context `{MFS}.

(** without [--recursive] and [--force], [ipfs files rm] unlinks no directory: a
    property of the file system that unlinking files and flushing keep is kept by
    the command, whatever its arguments. *)
Theorem rm_unlinks_only_files (P : M -> Prop) args m errs e m' :
  (forall d name f m, Child d name m = Ok (inr f) -> P m -> P (Unlink d name m).2) ->
  (forall d m, P m -> P (dir_Flush d m).2) ->
  P m -> files_rm args false false m = (errs, e, m') -> P m'.
Proof.
  intros Hu Hf Hm. assert (Hrm : forall path m, P m -> P (removePath path false false m).2).
  { clear -Hu Hf. intros path m Hm. unfold removePath. destruct (String.eqb path "/"); [done|]. destruct (path_Split _) as [dir name].
    unfold getParentDir, bind at 1, reads at 1. destruct (Lookup dir m) as [[pdir|f]|e]; [|done..]. cbn [ret andb].
    unfold bind, reads, when, act, ret, fail. destruct (Child pdir name m) as [[d|f]|e] eqn:Ec; [done| |done]. cbn [negb].
    pose proof (Hu pdir name f m Ec Hm) as H1. destruct (Unlink pdir name m) as [[e|] m1]; [done|].
    pose proof (Hf pdir m1 H1) as H2. by destruct (dir_Flush pdir m1) as [[e|] m2]. }
  assert (Hloop : forall errs0 m, P m -> P (rm_loop args false false errs0 m).2).
  { clear m Hm. induction args as [|arg args IH]; intros errs0 m Hm; [done|]. cbn [rm_loop]. destruct (checkPath arg) as [path|e1]; [|by apply IH].
    pose proof (Hrm path m Hm) as H1. destruct (removePath path false false m) as [[[]|e1] m1]; by apply IH. }
  unfold files_rm. specialize (Hloop [] m Hm). destruct (rm_loop args false false [] m) as [[|e1 l] m1]; intros [= _ _ <-]; done.
Qed.

(** the guard that the root is not removed does not see the path [//], which
    [checkPath] lets through: the removal goes on and unlinks the empty name in
    the root. *)
Theorem rm_root_by_two_slashes d m :
  Lookup "/" m = Ok (inl d) ->
  checkPath "/" = Ok "/" /\ (removePath "/" true true m).1 = Err "cannot delete root" /\
  checkPath "//" = Ok "//" /\
  removePath "//" true true m =
    match Unlink d "" m with
    | (Some e, m) => if String.eqb e ErrNotExist then (Ok tt, m) else (Err e, m)
    | (None, m) => act (dir_Flush d) m
    end.
Proof.
  intros Hl. split; [done|]. split; [done|]. split; [done|]. unfold removePath.
  rewrite (eq_refl : path_Split (if ends_in_slash "//" then chop "//" else "//") = ("/", "")), (eq_refl : String.eqb "//" "/" = false).
  unfold getParentDir, bind, reads. by rewrite Hl.
Qed.
End Removal.

(** the locality of a DAG whose blocks can be read or are missing: it is local
    when no link is missing anywhere in it, and its local size is the sum of the
    blocks found, modulo 2^64. *)
Theorem walk_block_exact nd : readable nd = true -> walkBlock nd = (complete nd, u64 (sum (local_sizes nd)), None).
Proof. apply walkBlock_readable. Qed.

(** ** Witnesses *)
Module DemoFiles.

(** A file system with the file [/f], the directory [/d] and one descriptor. *)
Record fs := MkFs { file : bytes; buffer : bytes; pos : Z; has_file : bool; has_dir : bool }.

#[local] Instance mfs : MFS := {|
  M := fs; dirh := string; fileh := unit; fd := Flags;
  Lookup p m := if String.eqb p "/" then Ok (inl "/") else if String.eqb p "/f" && has_file m then Ok (inr tt)
    else if String.eqb p "/d" && has_dir m then Ok (inl "/d") else Err ErrNotExist;
  ResolveNode _ _ := Err "not found";
  GetNode _ _ := Ok (MkNode "Qm" (Ok 3) 0 RawNode);
  Mkdir _ _ m := (None, m); PutNode _ _ m := (None, m); FlushPath _ m := (Ok "Qm", m); Mv _ _ m := (None, m);
  Unlink d n m := if String.eqb n "f" then (None, MkFs (file m) (buffer m) (pos m) false (has_dir m))
    else if String.eqb n "d" then (None, MkFs (file m) (buffer m) (pos m) (has_file m) false) else (Some ErrNotExist, m);
  dir_Flush _ m := (None, m);
  Child d n m := if String.eqb n "f" then Ok (inr tt) else if String.eqb n "d" then Ok (inl "/d") else Err ErrNotExist;
  AddChild _ _ _ m := (None, m); GetCidBuilder _ _ := None; SetCidBuilder _ _ m := m;
  ListNames _ _ := Ok ["d"; "f"]; List _ _ := Ok [];
  file_Type _ := 2; file_Size _ m := Ok (Z.of_nat (length (file m))); set_RawLeaves _ _ m := m;
  Open _ fl m := (Ok fl, MkFs (file m) (file m) 0 (has_file m) (has_dir m));
  fd_Size _ m := Ok (Z.of_nat (length (buffer m)));
  fd_Seek _ o m := (None, MkFs (file m) (resize (length (buffer m) `max` Z.to_nat o) zero (buffer m)) o (has_file m) (has_dir m));
  fd_Truncate _ n m := (None, MkFs (file m) (resize (Z.to_nat n) zero (buffer m)) (pos m) (has_file m) (has_dir m));
  fd_Write _ b m := (None, MkFs (file m) (overwrite (pos m) b (buffer m)) (pos m) (has_file m) (has_dir m));
  fd_Close _ m := (None, MkFs (buffer m) (buffer m) (pos m) (has_file m) (has_dir m));
  fd_ReadAll _ m := (drop (Z.to_nat (pos m)) (buffer m), None);
  PrefixForCidVersion v := Ok (MkPrefix v 18 32); mh_Names _ := Some 18; Encode c := c;
|}.

#[local] Instance laws : FdLaws.
Proof.
  refine {| content _ m := file m; fd_file _ := tt; fd_flags d := d; fd_content _ m := buffer m; fd_pos _ m := pos m |}.
  - by intros [] fl m d m' [= <- <-].
  - by intros d m n [= <-].
  - by intros d o m m' [= <-].
  - by intros d n m m' [= <-].
  - by intros d b m m' [= <-].
  - by intros d m m' [= <-].
  - by intros d m b e [= <- <-].
Defined.

Definition start : @M mfs := MkFs [Byte.x61; Byte.x62] [] 0 true true.
Definition opts : write_opts := MkWriteOpts false false false true None (Some 3) None None None.

Lemma files_write_read_witness :
  match files_write "//./f" opts (Ok ([Byte.x63; Byte.x64], None)) start with
  | (Err e, _) => mfs_failed (tt : @fileh mfs) e
  | (Ok _, m') =>
      @Lookup mfs "/f" m' = Ok (inr tt) ->
      match (files_read "//./f" (Some 3) (Some 2) m').1 with
      | Err e => mfs_failed (tt : @fileh mfs) e
      | Ok (out, err) => out `prefix_of` [Byte.x63; Byte.x64] /\ (err = None -> out = [Byte.x63; Byte.x64])
      end
  end.
Proof. apply (files_write_read (H := mfs) (H0 := laws) "//./f" "/f" None opts [Byte.x63; Byte.x64] tt start); try reflexivity; cbn; lia. Defined.

(** Both succeed here. *)
Example write_read_run : (files_write "//./f" opts (Ok ([Byte.x63; Byte.x64], None)) start).1 = Ok tt /\
  (files_read "//./f" (Some 3) (Some 2) (files_write "//./f" opts (Ok ([Byte.x63; Byte.x64], None)) start).2).1 = Ok ([Byte.x63; Byte.x64], None).
Proof. split; vm_compute; reflexivity. Qed.

Definition appending : write_opts := MkWriteOpts false false false true None None None None None.
Lemma write_without_offset_overwrites_witness :
  file (files_write "/f" appending (Ok ([Byte.x63], None)) start).2 = [Byte.x63] ++ drop 1 [Byte.x61; Byte.x62].
Proof.
  apply (write_without_offset_overwrites (H := mfs) (H0 := laws) "/f" "/f" None appending [Byte.x63] tt start
    (files_write "/f" appending (Ok ([Byte.x63], None)) start).2); reflexivity.
Defined.

Example written_content : file (files_write "//./f" opts (Ok ([Byte.x63; Byte.x64], None)) start).2 = [Byte.x61; Byte.x62; Byte.x00; Byte.x63; Byte.x64].
Proof. vm_compute. reflexivity. Qed.

Definition truncating : write_opts := MkWriteOpts false false true true None None (Some (-1)) None None.
Lemma write_refused_after_truncate_witness :
  exists m', files_write "/f" truncating (Ok ([Byte.x63], None)) start = (Err "cannot have negative byte count", m') /\ file m' = [].
Proof.
  eexists. apply (write_refused_after_truncate (H := mfs) (H0 := laws) "/f" "/f" None truncating (Ok ([Byte.x63], None)) tt (-1) start
    (MkFlags false true true) (MkFs [Byte.x61; Byte.x62] [Byte.x61; Byte.x62] 0 true true) (MkFs [Byte.x61; Byte.x62] [] 0 true true) (MkFs [] [] 0 true true)); reflexivity.
Defined.

Lemma check_path_normal_witness :
  (exists l, clean_elems l /\ ("/a/c/" = rooted l \/ "/a/c/" = rooted l +:+ "/")) /\ checkPath "/a/c/" = Ok "/a/c/".
Proof. apply (check_path_normal "/a/./b/..//c/" "/a/c/"). vm_compute. reflexivity. Defined.

Lemma rm_unlinks_only_files_witness : has_dir (files_rm ["/f"; "/d"; "x"] false false start).2 = true.
Proof.
  apply (rm_unlinks_only_files (H := mfs) (fun m => has_dir m = true) ["/f"; "/d"; "x"] start
    (files_rm ["/f"; "/d"; "x"] false false start).1.1 (files_rm ["/f"; "/d"; "x"] false false start).1.2).
  - intros d name f m Hc Hm. cbn in *. destruct (String.eqb name "f"); [done|]. by destruct (String.eqb name "d").
  - done.
  - done.
  - vm_compute. reflexivity.
Defined.

Lemma rm_root_by_two_slashes_witness : removePath "//" true true start = (Ok tt, start).
Proof. exact (proj2 (proj2 (proj2 (rm_root_by_two_slashes (H := mfs) "/" start eq_refl)))). Defined.

Definition dag : block := MkBlock 10 [Found (MkBlock 5 []); NotFound; Found (MkBlock 7 [Found (MkBlock 1 [])])].
Lemma walk_block_exact_witness : walkBlock dag = (false, 23, None).
Proof. exact (walk_block_exact dag eq_refl). Defined.
End DemoFiles.
