(* ===== verification/KeyCmds.v ===== *)
(** The key commands: [core/commands/keystore.go], over the key API of [Keys.v].

    The key's serialisations are parameters; [KeyFormats] says that what is
    marshalled is unmarshalled again.  The rotation of the identity runs on the
    repository of FsRepo.v. *)
From Stdlib Require Import ZArith Lia Ascii String.
From stdpp Require Import base strings gmap list.
From S2P Require Import Prelude GoStrings GoPath ConfigMap Datastores FsRepo Keys.

Local Open Scope Z_scope.

Abbreviation bytes := (list Byte.byte).

Inductive key_type := RsaPrivateKey | Ed25519PrivateKey | OtherPrivateKey (name : string).

Definition keyFormatPemCleartextOption : string := "pem-pkcs8-cleartext".
Definition keyFormatLibp2pCleartextOption : string := "libp2p-protobuf-cleartext".

Record KeyOutput := MkKeyOutput { ko_Name : string; ko_Id : string }.
Record KeyRenameOutput := MkKeyRenameOutput { Was : string; Now : string; kro_Id : string; Overwrite : bool }.

Class KeyFormats `{Keystore} := {
  type_of : priv -> key_type;
  std_key : Type;
  PrivKeyToStdKey : priv -> result std_key;
  KeyPairFromStdKey : std_key -> result priv;
  MarshalPKCS8PrivateKey : std_key -> result bytes;
  ParsePKCS8PrivateKey : bytes -> result std_key;
  MarshalPrivateKey : priv -> result bytes;
  UnmarshalPrivateKey : bytes -> result priv;
  (** [pem]: a block's type and bytes *)
  pem_Encode : string -> bytes -> bytes;
  pem_Decode : bytes -> option (string * bytes);
  pkcs8_law x b : MarshalPKCS8PrivateKey x = Ok b -> ParsePKCS8PrivateKey b = Ok x;
  std_law k x : PrivKeyToStdKey k = Ok x -> KeyPairFromStdKey x = Ok k;
  libp2p_law k b : MarshalPrivateKey k = Ok b -> UnmarshalPrivateKey b = Ok k;
  pem_law b : pem_Decode (pem_Encode "PRIVATE KEY" b) = Some ("PRIVATE KEY", b);
}.

(** [config.Identity], and the field of that type in a configuration; encoded, it has
    its two members, the private key unless that is empty. *)
Record identity := MkIdentity { id_PeerID : string; id_PrivKey : string }.

Class IdentityFields `{RepoEnv'} := {
  Identity : Config -> identity;
  set_Identity : identity -> Config -> Config;
  ToMap_Identity c i u : ToMap (set_Identity i c) = Ok u ->
    get_path (JObj u) ["Identity"; "PeerID"] = Some (JStr (id_PeerID i)) /\
    (id_PrivKey i <> "" -> get_path (JObj u) ["Identity"; "PrivKey"] = Some (JStr (id_PrivKey i)));
}.

(** ** Generation, listing, renaming and removal *)

Section Commands.
Context `{KeyFormats} (FormatID : string -> string).

(** [keyGenCmd.Run]; [keyEnc] is the outcome of [KeyEncoderFromString]. *)
Definition key_gen (typ : option string) (size : option Z) (keyEnc : option error) (name : string) (options : result (string * Z))
    (s : ks) : result KeyOutput * ks :=
  match typ with
  | None => (Err "please specify a key type with --type", s)
  | Some _ =>
      if decide (name = "self") then (Err "cannot create key with name 'self'", s)
      else match keyEnc with
      | Some e => (Err e, s)
      | None =>
          match Generate name options s with
          | (Err e, s) => (Err e, s)
          | (Ok k, s) => (Ok (MkKeyOutput name (FormatID (peerID k))), s)
          end
      end
  end.

(** [keyListCmd.Run] *)
Definition key_list (keyEnc : option error) (own_id : string) (s : ks) : result (list KeyOutput) * ks :=
  match keyEnc with
  | Some e => (Err e, s)
  | None =>
      match List_keys own_id s with
      | (Err e, s) => (Err e, s)
      | (Ok keys, s) => (Ok ((fun k => MkKeyOutput (key_name k) (FormatID (peerID k))) <$> keys), s)
      end
  end.

(** [keyRenameCmd.Run] *)
Definition key_rename (keyEnc : option error) (name newName : string) (force : bool) (s : ks) : result KeyRenameOutput * ks :=
  match keyEnc with
  | Some e => (Err e, s)
  | None =>
      match Rename name newName (Ok force) s with
      | (_, Some e, s) => (Err e, s)
      | (Some (k, overwritten), None, s) => (Ok (MkKeyRenameOutput name newName (FormatID (peerID k)) overwritten), s)
      | (None, None, s) => (Err "nil key", s)
      end
  end.

(** The loop of [keyRmCmd.Run]. *)
Fixpoint rm_keys (names : list string) (out : list KeyOutput) (s : ks) : result (list KeyOutput) * ks :=
  match names with
  | [] => (Ok out, s)
  | name :: names =>
      match Remove_key name s with
      | (Err e, s) => (Err e, s)
      | (Ok k, s) => rm_keys names (out ++ [MkKeyOutput name (FormatID (peerID k))]) s
      end
  end.

Definition key_rm (keyEnc : option error) (names : list string) (s : ks) : result (list KeyOutput) * ks :=
  match keyEnc with Some e => (Err e, s) | None => rm_keys names [] s end.

(** ** Export and import *)

Definition fsrepo_RepoVersion : Z := 12.

(** [keyExportCmd.Run]: the bytes emitted.  [ver] is what [migrations.RepoVersion] gives. *)
Definition key_export (ver : result Z) (format : string) (name : string) (s : ks) : result bytes * ks :=
  if decide (name = "self") then (Err "cannot export key with name 'self'", s)
  else match ver with
  | Err e => (Err e, s)
  | Ok ver =>
      if negb (ver =? fsrepo_RepoVersion)
      then (Err ("key export expects repo version (" +:+ FormatInt fsrepo_RepoVersion +:+ ") but found (" +:+ FormatInt ver +:+ ")"), s)
      else match ks_Get name s with
      | (Err _, s) => (Err ("key with name '" +:+ name +:+ "' doesn't exist"), s)
      | (Ok sk, s) =>
          (if decide (format = keyFormatPemCleartextOption) then
             match PrivKeyToStdKey sk with
             | Err e => Err ("converting libp2p private key to std Go key: " +:+ e)
             | Ok stdKey =>
                 match MarshalPKCS8PrivateKey stdKey with Err e => Err ("marshalling key to PKCS8 format: " +:+ e) | Ok b => Ok b end
             end
           else if decide (format = keyFormatLibp2pCleartextOption) then MarshalPrivateKey sk
           else Err ("unrecognized export format: " +:+ format), s)
      end
  end.

(** The path [keyExportCmd.PostRun] writes to, and what it writes. *)
Definition export_path (outPath format name : string) : string :=
  if decide (outPath = "") then
    let fileExtension :=
      if decide (format = keyFormatPemCleartextOption) then "pem"
      else if decide (format = keyFormatLibp2pCleartextOption) then "key" else "" in
    let trimmed := trim_right (Ascii.eqb slash) (name +:+ "." +:+ fileExtension) in
    Clean (path_Split trimmed).2
  else outPath.

Definition export_file (format : string) (emitted : bytes) : bytes :=
  if decide (format = keyFormatPemCleartextOption) then pem_Encode "PRIVATE KEY" emitted
  else if decide (format = keyFormatLibp2pCleartextOption) then emitted else [].

(** The decoding of [keyImportCmd.Run]. *)
Definition import_key (format : string) (data : bytes) : result priv :=
  if decide (format = keyFormatPemCleartextOption) then
    match pem_Decode data with
    | None => Err ("PEM block not found in input data:" +:+ String "010" (string_of_list_byte data))
    | Some (t, b) =>
        if decide (t = "PRIVATE KEY") then
          match ParsePKCS8PrivateKey b with
          | Err e => Err ("parsing PKCS8 format: " +:+ e)
          | Ok stdKey =>
              match KeyPairFromStdKey stdKey with Err e => Err ("converting std Go key to libp2p key: " +:+ e) | Ok sk => Ok sk end
          end
        else Err ("expected PRIVATE KEY type in PEM block but got: " +:+ t)
    end
  else if decide (format = keyFormatLibp2pCleartextOption) then
    match UnmarshalPrivateKey data with
    | Ok sk => Ok sk
    | Err e =>
        match pem_Decode data with
        | Some _ => Err ("unexpected PEM block for format=" +:+ keyFormatLibp2pCleartextOption +:+ ": try again with format=" +:+ keyFormatPemCleartextOption)
        | None => Err ("unable to unmarshall format=" +:+ keyFormatLibp2pCleartextOption +:+ ": " +:+ e)
        end
    end
  else Err ("unrecognized import format: " +:+ format).

Definition allowed_type (t : key_type) : bool :=
  match t with RsaPrivateKey | Ed25519PrivateKey => true | OtherPrivateKey _ => false end.
Definition type_name (t : key_type) : string :=
  match t with RsaPrivateKey => "*crypto.RsaPrivateKey" | Ed25519PrivateKey => "*crypto.Ed25519PrivateKey" | OtherPrivateKey n => n end.

(** [keyImportCmd.Run]; [opened] is the outcome of [fsrepo.Open]. *)
Definition key_import (keyEnc : option error) (file : result bytes) (format : string) (allowAnyKeyType : bool) (opened : option error)
    (name : string) (s : ks) : result KeyOutput * ks :=
  if decide (name = "self") then (Err "cannot import key with name 'self'", s)
  else match keyEnc, file with
  | Some e, _ => (Err e, s)
  | None, Err e => (Err e, s)
  | None, Ok data =>
      match import_key format data with
      | Err e => (Err e, s)
      | Ok sk =>
          if negb allowAnyKeyType && negb (allowed_type (type_of sk)) then
            (Err ("key type " +:+ type_name (type_of sk) +:+ " is not allowed to be imported, only RSA or Ed25519; use flag --allow-any-key-type if you are sure of what you're doing"), s)
          else match opened with
          | Some e => (Err e, s)
          | None =>
              match ks_Get name s with
              | (Ok _, s) => (Err ("key with name '" +:+ name +:+ "' already exists"), s)
              | (Err _, s) =>
                  match ks_Put name sk s with
                  | (Some e, s) => (Err e, s)
                  | (None, s) =>
                      match IDFromPublicKey sk with
                      | Err e => (Err e, s)
                      | Ok pid => (Ok (MkKeyOutput name (FormatID pid)), s)
                      end
                  end
              end
          end
      end
  end.

(** ** Rotation of the identity *)

(** The repository on its disk, and the keystore in it. *)
Record rotating := MkRotating { r_disk : disk; store : ks }.

Section Rotate.
Context `{RepoEnv', DatastoreEnv, !IdentityFields}.
Context (CreateIdentity : string -> option Z -> result identity).
Context (DecodePrivateKey : string -> result priv).

(** From the opened repository to the deferred [Close]. *)
Definition rotate_open (oldKey algorithm : string) (nBits : option Z) (repo : FSRepo) (d : disk) (s : ks)
  : option error * FSRepo * disk * ks :=
  match Config_ repo with
  | Err e => (Some ("reading config from repo (" +:+ e +:+ ")"), repo, d, s)
  | Ok None => (Some "invalid memory address or nil pointer dereference", repo, d, s) (* [open] has set it *)
  | Ok (Some cfg) =>
      match CreateIdentity algorithm nBits with
      | Err e => (Some ("creating identity (" +:+ e +:+ ")"), repo, d, s)
      | Ok new_identity =>
          match DecodePrivateKey (id_PrivKey (Identity cfg)) with
          | Err e => (Some ("decoding old private key (" +:+ e +:+ ")"), repo, d, s)
          | Ok oldPrivKey =>
              match ks_Put oldKey oldPrivKey s with
              | (Some e, s) => (Some ("saving old key in keystore (" +:+ e +:+ ")"), repo, d, s)
              | (None, s) =>
                  match SetConfig (set_Identity new_identity cfg) repo d with
                  | (Err e, repo, d) => (Some ("saving new key to config (" +:+ e +:+ ")"), repo, d, s)
                  | (Ok _, repo, d) => (None, repo, d, s)
                  end
              end
          end
      end
  end.

Definition doRotate (repoRoot oldKey algorithm : string) (nBits : option Z) (r : rotating) : option error * rotating :=
  match open repoRoot "" (r_disk r) with
  | (Err e, d) => (Some ("opening repo (" +:+ e +:+ ")"), MkRotating d (store r))
  | (Ok repo, d) =>
      let '(e, repo, d, s) := rotate_open oldKey algorithm nBits repo d (store r) in
      let '(_, _, d) := Close repo d in (e, MkRotating d s)
  end.

Definition DaemonNotRunning (ConfigRoot : string) (d : disk) : option error * disk :=
  match LockedByOtherProcess ConfigRoot d with
  | (Err e, d) => (Some e, d)
  | (Ok true, d) => (Some "ipfs daemon is running. please stop it to run this command", d)
  | (Ok false, d) => (None, d)
  end.

(** [keyRotateCmd]: [PreRun] and [Run]. *)
Definition key_rotate (ConfigRoot : string) (oldKey : option string) (algorithm : string) (nBits : option Z) (r : rotating)
  : option error * rotating :=
  match DaemonNotRunning ConfigRoot (r_disk r) with
  | (Some e, d) => (Some e, MkRotating d (store r))
  | (None, d) =>
      let r := MkRotating d (store r) in
      match oldKey with
      | None => (Some "keystore name for backing up old key must be provided", r)
      | Some oldKey =>
          if decide (oldKey = "self") then (Some "keystore name for back up cannot be named 'self'", r)
          else doRotate ConfigRoot oldKey algorithm nBits r
      end
  end.

(** *** Lemmas *)

(** The configuration file has the identity [i]: its peer and, unless it is empty,
    its private key. *)
Definition has_identity (i : identity) (m : object) : Prop :=
  get_path (JObj m) ["Identity"; "PeerID"] = Some (JStr (id_PeerID i)) /\
  (id_PrivKey i <> "" -> get_path (JObj m) ["Identity"; "PrivKey"] = Some (JStr (id_PrivKey i))).

(** What the file at [cf] is after a rotation that reports success. *)
Definition rotated (cf buf : string) (i : identity) (fs : list (option (error * nat))) (d : disk) : Prop :=
  (exists buf' m, files d !! cf = Some buf' /\ decode_map buf' = Ok m /\ has_identity i m) \/
  fs <> [] /\ files d !! cf = Some buf.

Lemma SetConfig_identity i cfg repo d repo' d' buf :
  files d !! configFilePath repo = Some buf -> SetConfig (set_Identity i cfg) repo d = (Ok tt, repo', d') ->
  rotated (configFilePath repo) buf i (faults d) d'.
Proof.
  intros Hb E. apply SetConfig_any in E as (m & u & C & T & Wu & _ & Hw). destruct Hw as [Hw|[Hq Hf]].
  - left. unfold config_map in Hw. destruct (files d' !! configFilePath repo) as [buf'|]; [|done]. destruct (decode_map buf') as [m'|] eqn:Ed; [|done].
    injection Hw as ->. exists buf', (MapMergeDeep m u). split_and!; [done..|]. destruct (ToMap_Identity cfg i u T) as [H1' H2'].
    split; [by apply merge_right_leaf|]. intros Hne. apply merge_right_leaf; auto.
  - right. split; [done|congruence].
Qed.

(** What holds of the keystore and the file at [cf] whatever happens, and after a success. *)
Definition key_kept (cf buf name : string) (sk : priv) (s0 : ks) (r' : rotating) : Prop :=
  (files (r_disk r') !! cf = Some buf \/ ks_keys (store r') !! name = Some sk) /\
  (ks_keys (store r') = ks_keys s0 \/ ks_keys s0 !! name = None /\ ks_keys (store r') = <[name := sk]> (ks_keys s0)).

Lemma rotate_open_kept cf buf cfg name algorithm nBits repo d s sk e repo' d' s' :
  configFilePath repo = cf -> config repo = Some cfg -> files d !! cf = Some buf ->
  DecodePrivateKey (id_PrivKey (Identity cfg)) = Ok sk ->
  rotate_open name algorithm nBits repo d s = (e, repo', d', s') ->
  key_kept cf buf name sk s (MkRotating d' s') /\
  (e = None -> ks_keys s' = <[name := sk]> (ks_keys s) /\ exists i, CreateIdentity algorithm nBits = Ok i /\ rotated cf buf i (faults d) d').
Proof.
  intros <- Hc Hb Hd E. assert (Hsame : key_kept (configFilePath repo) buf name sk s (MkRotating d s)) by (split; by left).
  unfold rotate_open, Config_ in E. destruct (closed repo); [by simplify_eq|]. rewrite Hc in E.
  destruct (CreateIdentity algorithm nBits) as [i|] eqn:Ei; [|by simplify_eq]. rewrite Hd in E.
  destruct (ks_Put name sk s) as [[pe|] s1] eqn:Ep; apply ks_Put_spec in Ep.
  - simplify_eq. split; [|done]. split; left; cbn; congruence.
  - destruct Ep as [Hnone Hins]. assert (Hkey : key_kept (configFilePath repo) buf name sk s (MkRotating d' s1)).
    { split; [right|right]; cbn; [by rewrite Hins, lookup_insert_eq|done]. }
    destruct (SetConfig (set_Identity i cfg) repo d) as [[[[]|se] repo1] d1] eqn:Es; simplify_eq; (split; [done|]); [|done].
    intros _. split; [done|]. exists i. split; [done|]. by eapply SetConfig_identity.
Qed.

Lemma DaemonNotRunning_calm root d e d' : DaemonNotRunning root d = (e, d') ->
  files d' = files d /\ (faults d = [] -> faults d' = []) /\ (Join (Clean root) LockFile ∈ locks d -> e <> None).
Proof.
  unfold DaemonNotRunning, LockedByOtherProcess, lockfile_Locked, bind. intros E. destruct (may_fail d) as [[[]|fe] d1] eqn:M;
    pose proof (may_fail_files _ _ _ M) as F; apply (calm_may_fail "") in M as M'; destruct M' as [_ Q];
    destruct (frame_may_fail false _ _ _ M) as [L _]; [|by simplify_eq].
  rewrite <- L. destruct (bool_decide_reflect (Join (Clean root) LockFile ∈ locks d1)); by simplify_eq.
Qed.

(** ** Theorems *)

(** C20: rotating the identity never loses a key: whatever calls of the operating
    system or the keystore fail, the configuration file is as it was or the old
    private key is in the keystore under the name asked for, and no key of the
    keystore is overwritten.  When the rotation reports success, the keystore has the
    old key and the file the new identity, unless a call failed, when the file may
    still be the old one.  While the repository is locked by a running daemon the
    command fails and changes neither the files nor the keystore. *)
Theorem rotate_keeps_old_key root oldKey algorithm nBits r e r' cf buf cfg sk :
  Filename root "" = Ok cf -> files (r_disk r) !! cf = Some buf -> decode_config buf = Ok cfg ->
  DecodePrivateKey (id_PrivKey (Identity cfg)) = Ok sk ->
  key_rotate root oldKey algorithm nBits r = (e, r') ->
  (files (r_disk r') !! cf = Some buf \/ exists name, oldKey = Some name /\ ks_keys (store r') !! name = Some sk) /\
  (forall n k, ks_keys (store r) !! n = Some k -> ks_keys (store r') !! n = Some k) /\
  (e = None -> exists name i, oldKey = Some name /\ name <> "self" /\ CreateIdentity algorithm nBits = Ok i /\
     ks_keys (store r') = <[name := sk]> (ks_keys (store r)) /\ rotated cf buf i (faults (r_disk r)) (r_disk r')) /\
  (Join (Clean root) LockFile ∈ locks (r_disk r) -> e <> None /\ files (r_disk r') = files (r_disk r) /\ store r' = store r).
Proof.
  intros Hf Hb Hdec Hsk E. unfold key_rotate in E. destruct (DaemonNotRunning root (r_disk r)) as [de d] eqn:Ed.
  apply (DaemonNotRunning_calm root) in Ed as (Fd & Qd & Ld). destruct de as [de|].
  { simplify_eq. cbn. rewrite Fd. split_and!; [by left|done|done|intros; split_and!; done]. }
  assert (Hlock : Join (Clean root) LockFile ∈ locks (r_disk r) -> e <> None /\ files (r_disk r') = files (r_disk r) /\ store r' = store r)
    by (intros Hl; by destruct (Ld Hl)). clear Ld.
  destruct oldKey as [name|]; [|simplify_eq; cbn; rewrite Fd; split_and!; [by left|done|done|intros; split_and!; done]].
  destruct (decide (name = "self")) as [|Hns]; [simplify_eq; cbn; rewrite Fd; split_and!; [by left|done|done|intros; split_and!; done]|].
  unfold doRotate in E. cbn [r_disk store] in E. destruct (open root "" d) as [[repo|oe] d1] eqn:Eo;
    apply (open_config root cf) in Eo as (F1 & Q1 & Ho); [|done| |done].
  2: { simplify_eq. cbn in *. rewrite F1, Fd. split_and!; [by left|done|done|exact Hlock]. }
  destruct Ho as (Hp & _ & buf' & conf & Hb' & Hd' & Hconf). rewrite Fd, Hb in Hb'. injection Hb' as <-. rewrite Hdec in Hd'. injection Hd' as <-.
  destruct (rotate_open name algorithm nBits repo d1 (store r)) as [[[e2 repo2] d2] s2] eqn:Er.
  eapply (rotate_open_kept cf buf cfg) in Er as [[K1 K2] Hok]; [|done|done|by rewrite F1, Fd|done].
  destruct (Close repo2 d2) as [[ce repo3] d3] eqn:Ec. apply (Close_calm cf root) in Ec; [|done]. simplify_eq. cbn in *. split_and!; [| | |done].
  - rewrite Ec. destruct K1 as [K1|K1]; [by left|right; by exists name].
  - intros n k Hk. destruct K2 as [-> |[Hn ->]]; [done|]. destruct (decide (n = name)) as [-> |Hne]; [by rewrite Hn in Hk|by rewrite lookup_insert_ne].
  - intros He. destruct (Hok He) as (H1' & i & H2' & Hr). exists name, i. split_and!; [done..|]. unfold rotated in *. rewrite Ec.
    destruct Hr as [Hr|[Hq Hr]]; [by left|right; split; [auto|done]].
Qed.
End Rotate.

(** a key exported in either format and imported under a free name is the same
    key: the import succeeds, stores it and reports its identity. *)
Theorem export_import_roundtrip ver format name name2 any s s1 b sk :
  key_export ver format name s = (Ok b, s1) -> ks_keys s !! name = Some sk ->
  name2 <> "self" -> any = true \/ allowed_type (type_of sk) = true ->
  forall t r t', key_import None (Ok (export_file format b)) format any None name2 t = (r, t') ->
  (exists out, r = Ok out /\ ks_keys t !! name2 = None /\ ks_keys t' = <[name2 := sk]> (ks_keys t) /\ ko_Name out = name2 /\
     exists pid, IDFromPublicKey sk = Ok pid /\ ko_Id out = FormatID pid) \/
  (exists e, r = Err e /\
     (ks_keys t' = ks_keys t \/ (ks_keys t' = <[name2 := sk]> (ks_keys t) /\ exists e', IDFromPublicKey sk = Err e'))).
Proof.
  intros E Hsk Hself Hany t r t'. unfold key_export in E. destruct (decide (name = "self")); [done|]. destruct ver as [ver|]; [|done].
  destruct (negb (ver =? fsrepo_RepoVersion)); [done|]. destruct (ks_Get name s) as [[sk'|] s2] eqn:Eg; [|done]. apply ks_Get_spec in Eg as [_ Hk].
  rewrite Hsk in Hk. injection Hk as <-.
  assert (Hi : import_key format (export_file format b) = Ok sk).
  { injection E as Eb _. unfold import_key, export_file. destruct (decide (format = keyFormatPemCleartextOption)).
    - rewrite pem_law, decide_True by done. destruct (PrivKeyToStdKey sk) as [x|] eqn:Ex; [|done].
      destruct (MarshalPKCS8PrivateKey x) as [b'|] eqn:Em; [|done]. injection Eb as <-. by rewrite (pkcs8_law x b' Em), (std_law sk x Ex).
    - destruct (decide (format = keyFormatLibp2pCleartextOption)); [|done]. by rewrite (libp2p_law sk b Eb). }
  unfold key_import. rewrite decide_False by done. rewrite Hi.
  assert (Hal : negb any && negb (allowed_type (type_of sk)) = false) by (destruct Hany as [-> | ->]; [done|apply andb_false_r]). rewrite Hal.
  destruct (ks_Get name2 t) as [[x|ge] t1] eqn:Et; apply ks_Get_spec in Et as [Ht _].
  { intros [= <- <-]. right. eexists. split; [done|]. by left. }
  destruct (ks_Put name2 sk t1) as [[pe|] t2] eqn:Ep; apply ks_Put_spec in Ep; cbn in Ep.
  { intros [= <- <-]. right. eexists. split; [done|]. left. congruence. }
  destruct Ep as [Hn Hins]. rewrite Ht in Hn, Hins. destruct (IDFromPublicKey sk) as [pid|ie] eqn:Ei; intros [= <- <-].
  - left. eexists. split; [done|]. split_and!; [done..|]. by exists pid.
  - right. eexists. split; [done|]. right. split; [done|]. by exists ie.
Qed.

(** removing keys removes exactly the names given, each of which was there, and
    reports them in order; when it fails, the names before the failing one are
    gone and nothing else is. *)
Theorem key_rm_exact names s r s' :
  key_rm None names s = (r, s') ->
  exists removed, removed `prefix_of` names /\ ks_keys s' = foldl (fun m n => delete n m) (ks_keys s) removed /\
    match r with Ok out => removed = names /\ ko_Name <$> out = names | Err _ => True end.
Proof.
  unfold key_rm. cut (forall out, rm_keys names out s = (r, s') ->
    exists removed, removed `prefix_of` names /\ ks_keys s' = foldl (fun m n => delete n m) (ks_keys s) removed /\
    match r with Ok l => removed = names /\ ko_Name <$> l = (ko_Name <$> out) ++ names | Err _ => True end).
  { intros Hc E. destruct (Hc [] E) as (rm & H1 & H2 & H3). by exists rm. }
  revert s. induction names as [|name names IH]; intros s out; cbn [rm_keys].
  { intros [= <- <-]. exists []. by rewrite app_nil_r. }
  unfold Remove_key. destruct (decide (name = "self")); [intros [= <- <-]; exists []; split; [apply prefix_nil|done]|].
  destruct (ks_Get name s) as [[sk|e] s1] eqn:Eg; apply ks_Get_spec in Eg as [Hg _]; [|intros [= <- <-]; exists []; split; [apply prefix_nil|done]].
  destruct (IDFromPublicKey sk) as [pid|]; [|intros [= <- <-]; exists []; split; [apply prefix_nil|done]].
  destruct (ks_Delete name s1) as [[e|] s2] eqn:Ed; apply ks_Delete_spec in Ed; [intros [= <- <-]; exists []; split; [apply prefix_nil|]; split; [cbn; congruence|done]|].
  intros E. destruct (IH s2 _ E) as (rm & H1 & H2 & H3). exists (name :: rm). split; [by apply prefix_cons|]. split; [by rewrite H2, Ed, Hg|].
  destruct r as [l|]; [|done]. destruct H3 as [-> H3]. split; [done|]. rewrite H3, fmap_app. cbn. by rewrite <- (assoc (++)).
Qed.
End Commands.

(** *** The path of an export *)

Lemma split_on_app_last sep a b : has_char sep b = false ->
  exists l x, split_on sep a = l ++ [x] /\ split_on sep (a +:+ b) = l ++ [x +:+ b].
Proof.
  intros Hb. induction a as [|c a (l & x & E1 & E2)]; [exists [], ""; split; [done|by apply split_on_no_sep]|].
  rewrite string_app_cons. cbn [split_on]. rewrite E1, E2. destruct (Ascii.eqb c sep).
  - by exists ("" :: l), x.
  - destruct l as [|y l]; cbn; [by exists [], (String c x)|by exists (String c y :: l), x].
Qed.

Lemma trim_right_keeps p a c : p c = false -> trim_right p (a +:+ String c "") = a +:+ String c "".
Proof.
  intros Hc. induction a as [|d a IH]; [change ("" +:+ ?x) with x; cbn; by rewrite Hc|]. rewrite string_app_cons. cbn [trim_right]. rewrite IH. by destruct a.
Qed.

Lemma Clean_plain n : plain_name n -> Clean n = n.
Proof.
  intros (Hs & H1 & H2 & H3). unfold Clean, elements_of. rewrite Hs, filter_cons, decide_True by done. rewrite filter_nil.
  destruct n as [|c n]; [done|]. assert (Ha : IsAbs (String c n) = false).
  { cbn [IsAbs]. destruct (Ascii.eqb c slash) eqn:Ec; [|done]. cbn [split_on] in Hs. rewrite Ec in Hs. injection Hs as _ Hs. by apply split_on_nonempty in Hs. }
  rewrite Ha. cbn [resolve]. by rewrite decide_False.
Qed.

(** without an output path a key is exported into the current directory,
    whatever its name is: the path is one plain element. *)
Theorem export_stays_in_directory format name :
  format = keyFormatPemCleartextOption \/ format = keyFormatLibp2pCleartextOption ->
  plain_name (export_path "" format name).
Proof.
  intros Hf. assert (Hext : exists ext c, (if decide (format = keyFormatPemCleartextOption) then "pem"
      else if decide (format = keyFormatLibp2pCleartextOption) then "key" else "") = ext +:+ String c "" /\ (2 <= String.length ext)%nat /\
      Ascii.eqb slash c = false /\ has_char slash ("." +:+ ext +:+ String c "") = false).
  { destruct Hf as [-> | ->]; [exists "pe", "m"%char|exists "ke", "y"%char]; done. }
  destruct Hext as (ext & c & E & Hlen & Hc & Hns). unfold export_path. rewrite decide_True by done. rewrite E. cbn zeta.
  rewrite <- !string_app_assoc, trim_right_keeps by done. rewrite !string_app_assoc.
  destruct (split_on_app_last slash name ("." +:+ ext +:+ String c "") Hns) as (l & x & _ & Es).
  assert (Hp : plain_name (x +:+ "." +:+ ext +:+ String c "")).
  { assert (Hl : (4 <= String.length (x +:+ "." +:+ ext +:+ String c ""))%nat).
    { rewrite !string_app_length. cbn [String.length]. lia. }
    pose proof (split_on_pieces slash (name +:+ "." +:+ ext +:+ String c "")) as Hp. rewrite Es in Hp. apply Forall_app in Hp as [_ Hp].
    rewrite Forall_singleton in Hp. unfold plain_name. split_and!; [done|..]; intros En; rewrite En in Hl; cbn in Hl; lia. }
  replace (path_Split (name +:+ "." +:+ ext +:+ String c "")).2 with (x +:+ "." +:+ ext +:+ String c ""); [by rewrite Clean_plain|].
  unfold path_Split. rewrite Es, reverse_app. cbn [reverse rev_append app]. destruct (reverse l) as [|y k] eqn:El; [|done].
  apply (f_equal reverse) in El. rewrite reverse_involutive in El. cbn in El. subst l. cbn in Es.
  rewrite <- (join_split slash (name +:+ "." +:+ ext +:+ String c "")), Es. done.
Qed.

(** ** Witnesses *)
Module DemoKeyCmds.
#[local] Existing Instance demo_keystore.

#[local] Instance formats : KeyFormats.
Proof.
  refine {| type_of k := if String.eqb k "ka" then Ed25519PrivateKey else OtherPrivateKey "*crypto.Secp256k1PrivateKey";
            std_key := string; PrivKeyToStdKey k := Ok k; KeyPairFromStdKey k := Ok k;
            MarshalPKCS8PrivateKey k := Ok (list_byte_of_string k); ParsePKCS8PrivateKey b := Ok (string_of_list_byte b);
            MarshalPrivateKey k := Ok (list_byte_of_string k); UnmarshalPrivateKey b := Ok (string_of_list_byte b);
            pem_Encode _ b := Byte.x2d :: b;
            pem_Decode b := match b with Byte.x2d :: b => Some ("PRIVATE KEY", b) | _ => None end |}.
  - intros x b [= <-]. by rewrite string_of_list_byte_of_string.
  - by intros k x [= <-].
  - intros k b [= <-]. by rewrite string_of_list_byte_of_string.
  - done.
Defined.

Definition fmt (id : string) : string := "k-" +:+ id.

(** A configuration is its map; two of them have texts. *)
Definition conf (id key : string) : object :=
  [("Identity", JObj [("PeerID", JStr id); ("PrivKey", JStr key)]); ("Datastore", DemoRepo.ds_obj)].
Definition old_conf : object := conf "Qo" "so".
Definition new_conf : object := conf "Qn" "sn".
Definition rot_Marshal (m : object) : result string :=
  if json_eqb (JObj old_conf) (JObj m) then Ok "old" else if json_eqb (JObj new_conf) (JObj m) then Ok "new" else Err "json: unsupported value".
Definition rot_decode (s : string) : result object :=
  if String.eqb s "old" then Ok old_conf else if String.eqb s "new" then Ok new_conf else Err "unexpected end of JSON input".

Lemma rot_decode_Marshal m s : rot_Marshal m = Ok s -> rot_decode s = Ok m.
Proof.
  unfold rot_Marshal. intros E. destruct (json_eqb (JObj old_conf) (JObj m)) eqn:E0; [apply json_eqb_eq in E0; simplify_eq; reflexivity|].
  destruct (json_eqb (JObj new_conf) (JObj m)) eqn:E1; [apply json_eqb_eq in E1; simplify_eq; reflexivity|done].
Qed.

Lemma rot_wf s m : rot_decode s = Ok m -> wf (JObj m).
Proof.
  unfold rot_decode. intros E. repeat case_match; simplify_eq;
    repeat first [apply wf_empty|apply wf_str|(apply DemoRepo.wf_cons; [csimpl; set_solver| |])].
Qed.

Definition rot_env : RepoEnv'.
Proof.
  refine {| Config := object; ds_Type := fun _ => ""; ds_Path := fun _ => "";
            ds_Spec := fun c => match get_path (JObj c) ["Datastore"; "Spec"] with Some (JObj m) => Some m | _ => None end;
            FilestoreEnabled := fun _ => false; UrlstoreEnabled := fun _ => false;
            decode_map := rot_decode; decode_config := rot_decode;
            Marshal_map := rot_Marshal; Marshal_config := rot_Marshal;
            Marshal_spec := fun _ => "levelds at datastore"; Expand := fun p => Ok p;
            homedir_Dir := Ok "/home"; env_IPFS_PATH := "";
            repo_registry := [("levelds", levelds_parse)];
            Multiaddr := string; ma_String := fun s => s; NewMultiaddr := fun s => Ok s |}.
  - exact rot_wf.
  - intros m s _. apply rot_decode_Marshal.
  - apply rot_decode_Marshal.
  - reflexivity.
Defined.

Definition conf_identity (c : object) : identity :=
  match get_path (JObj c) ["Identity"; "PeerID"], get_path (JObj c) ["Identity"; "PrivKey"] with
  | Some (JStr p), Some (JStr k) => MkIdentity p k
  | _, _ => MkIdentity "" ""
  end.

Definition rot_fields : @IdentityFields rot_env.
Proof.
  refine {| Identity := conf_identity : @Config rot_env -> identity;
            set_Identity i (_ : @Config rot_env) := conf (id_PeerID i) (id_PrivKey i) : @Config rot_env |}.
  intros c i u E. assert (Hu : u = conf (id_PeerID i) (id_PrivKey i)); [|by rewrite Hu].
  unfold ToMap in E. cbn in E. destruct (rot_Marshal (conf (id_PeerID i) (id_PrivKey i))) as [b|] eqn:Em; [|done].
  by rewrite (rot_decode_Marshal _ _ Em) in E; injection E as <-.
Defined.

Definition rot_disk (lock : bool) : disk :=
  Disk {[ "/repo/config" := "old"; "/repo/datastore_spec" := "levelds at datastore"; "/repo/version" := FormatInt 12 +:+ newline ]}
    (if lock then {[ "/repo/repo.lock" ]} else ∅) [] [].
Abbreviation rotate lock := (@key_rotate demo_keystore rot_env demo_ds rot_fields (fun _ _ => Ok (MkIdentity "Qn" "sn")) (fun k => Ok k)
  "/repo" (Some "backup") "ed25519" None (MkRotating (rot_disk lock) quiet_keys)).

(** The rotation writes the new identity and keeps the old key; with the lock held it refuses. *)
Example rotate_run : (rotate false).1 = None /\ files (r_disk (rotate false).2) !! "/repo/config" = Some "new" /\
  ks_keys (store (rotate false).2) !! "backup" = Some "so" /\ (rotate true).1 <> None.
Proof. split_and!; vm_compute; [reflexivity|reflexivity|reflexivity|discriminate]. Qed.

Lemma rotate_keeps_old_key_witness :
  (files (r_disk (rotate false).2) !! "/repo/config" = Some "old" \/
   exists name, Some "backup" = Some name /\ ks_keys (store (rotate false).2) !! name = Some "so") /\
  ("/repo/repo.lock" ∈ locks (rot_disk false) -> (rotate false).1 <> None).
Proof.
  destruct (@rotate_keeps_old_key demo_keystore rot_env demo_ds rot_fields (fun _ _ => Ok (MkIdentity "Qn" "sn")) (fun k => Ok k)
    "/repo" (Some "backup") "ed25519" None (MkRotating (rot_disk false) quiet_keys) (rotate false).1 (rotate false).2 "/repo/config" "old" old_conf "so")
    as (H1 & _ & _ & H2); [vm_compute; reflexivity|vm_compute; reflexivity|reflexivity|reflexivity|apply surjective_pairing|].
  split; [exact H1|]. intros Hl. apply H2. exact Hl.
Defined.

Lemma export_import_roundtrip_witness :
  exists b, (key_export (Ok 12) keyFormatPemCleartextOption "a" quiet_keys).1 = Ok b /\
  let '(r, t') := key_import fmt None (Ok (export_file keyFormatPemCleartextOption b)) keyFormatPemCleartextOption false None "c" quiet_keys in
  (exists out, r = Ok out /\ ks_keys quiet_keys !! "c" = None /\ ks_keys t' = <["c" := "ka"]> (ks_keys quiet_keys) /\ ko_Name out = "c" /\
     exists pid, IDFromPublicKey "ka" = Ok pid /\ ko_Id out = fmt pid) \/
  (exists e, r = Err e /\
     (ks_keys t' = ks_keys quiet_keys \/ (ks_keys t' = <["c" := "ka"]> (ks_keys quiet_keys) /\ exists e', IDFromPublicKey "ka" = Err e'))).
Proof.
  exists (list_byte_of_string "ka"). split; [reflexivity|].
  destruct (key_import fmt None (Ok (export_file keyFormatPemCleartextOption (list_byte_of_string "ka"))) keyFormatPemCleartextOption false None "c" quiet_keys)
    as [r t'] eqn:E.
  apply (export_import_roundtrip fmt (Ok 12) keyFormatPemCleartextOption "a" "c" false quiet_keys quiet_keys (list_byte_of_string "ka") "ka");
    [reflexivity|reflexivity|done|by right|exact E].
Defined.

Lemma key_rm_exact_witness :
  exists removed, removed `prefix_of` ["a"; "x"; "b"] /\ ks_keys (key_rm fmt None ["a"; "x"; "b"] quiet_keys).2 = foldl (fun m n => delete n m) two_keys removed.
Proof.
  destruct (key_rm_exact fmt ["a"; "x"; "b"] quiet_keys (key_rm fmt None ["a"; "x"; "b"] quiet_keys).1 (key_rm fmt None ["a"; "x"; "b"] quiet_keys).2) as (rm & H1 & H2 & _);
    [apply surjective_pairing|]. by exists rm.
Defined.

Lemma export_stays_in_directory_witness : plain_name (export_path "" keyFormatLibp2pCleartextOption "../../etc/passwd").
Proof. apply export_stays_in_directory. by right. Defined.
Example export_ex : export_path "" keyFormatLibp2pCleartextOption "../../etc/passwd" = "passwd.key" /\ export_path "" keyFormatPemCleartextOption "a/.." = "...pem".
Proof. split; reflexivity. Qed.
End DemoKeyCmds.
