(* ===== verification/CoreAPI.v ===== *)
(** The core API without pins and UnixFS: [core/coreapi/dag.go], [block.go],
    [object.go], [dht.go], [name.go] and [path.go].

    The DAG and block services, the pinner, routing, name resolution and the DAG
    editor are fields of [ApiEnv] over a state [W].  Operations thread the state
    with a trace of what is added, pinned and provided and of the pin lock. *)
From Stdlib Require Import ZArith Lia String.
From stdpp Require Import base strings gmap list.
From S2P Require Import Prelude GoStrings GoPath Keys.

Local Open Scope Z_scope.

Abbreviation cid := string.
Abbreviation bytes := (list Byte.byte).

(** A link and a node of the DAG; [proto] is the data of a protobuf node. *)
Record ilink := MkLink { l_name : string; l_size : Z; l_cid : cid }.
Record inode := MkINode { nd_cid : cid; nd_links : list ilink; nd_proto : option bytes }.

(** A path: already resolved, or to be resolved. *)
Inductive ipath := Resolved (c : cid) | Unresolved (p : string).

Class ApiEnv := {
  W : Type;
  dag_Add : inode -> W -> option error * W;
  dag_AddMany : list inode -> W -> option error * W;
  dag_Get : cid -> W -> result inode;
  blocks_AddBlock : cid -> bytes -> W -> option error * W;
  blocks_GetBlock : cid -> W -> result (cid * bytes);
  blockstore_Has : cid -> W -> result bool;
  PinWithMode : cid -> W -> W;
  pin_Flush : W -> option error * W;
  (** the first result of [util.RmBlocks], if any *)
  util_RmBlocks : cid -> bool -> W -> result (option (option error)) * W;
  (** [CidPrefix.Sum], [blocks.NewBlockWithCid] *)
  prefix_Sum : bytes -> result cid;
  NewBlockWithCid : bytes -> cid -> option error;
  (** nodes: the CID of a node with given links and data, and its parts *)
  node_of : list ilink -> bytes -> inode;
  empty_dir : inode;
  cid_Decode : string -> result cid;
  SetLinks : list ilink -> option error;
  base64_Decode : string -> result bytes;
  (** [dagutils.DagEditor] *)
  InsertNodeAtPath : inode -> string -> inode -> bool -> W -> result inode * W;
  editor_RmLink : inode -> string -> W -> result inode * W;
  editor_Finalize : inode -> W -> result inode * W;
  dagutils_Diff : inode -> inode -> W -> result (list (Z * string * option cid * option cid));
  (** routing and names *)
  checkOnline : bool -> option error;
  checkPublishAllowed : option error;
  routing_Provide : cid -> W -> option error * W;
  FindProvidersAsync : cid -> Z -> W -> list string;
  IsValid : string -> option error;
  ResolveIPNS : string -> W -> result string;
  path_Segments : string -> list string;
  ResolveToLastNode : bool -> string -> W -> result (cid * list string);
}.

Definition ErrNotProtobuf : error := "expected protobuf dag node".
Definition ErrNoNamesys : error := "core/resolve: no Namesys on IpfsNode - can't resolve ipns entry".
Definition ErrOffline : error := "this action must be run in online mode, try running 'ipfs daemon' first".

Inductive event := PinLock | Unlock | Added (c : cid) | Pinned (c : cid) | Flushed | Provided (c : cid).

Section CoreAPI.
Context `{ApiEnv}.

Record st := MkSt { world : W; trace : list event }.

Definition log (e : event) (s : st) : st := MkSt (world s) (trace s ++ [e]).

(** A call that is recorded when it succeeds. *)
Definition effect (es : list event) (f : W -> option error * W) (s : st) : option error * st :=
  let '(r, w) := f (world s) in (r, MkSt w (trace s ++ match r with None => es | Some _ => [] end)).

(** [defer api.blockstore.PinLock(ctx).Unlock(ctx)] *)
Definition locked {A} (body : st -> A * st) (s : st) : A * st :=
  let '(r, s) := body (log PinLock s) in (r, log Unlock s).

Definition pin_one (c : cid) (s : st) : st := MkSt (PinWithMode c (world s)) (trace s ++ [Pinned c]).

(** ** [dag.go] *)

Definition pinningAdder_Add (nd : inode) : st -> option error * st :=
  locked (fun s =>
    match effect [Added (nd_cid nd)] (dag_Add nd) s with
    | (Some e, s) => (Some e, s)
    | (None, s) => effect [Flushed] pin_Flush (pin_one (nd_cid nd) s)
    end).

(** The loop of [AddMany]: [cids] are the CIDs visited. *)
Fixpoint pin_new (nds : list inode) (cids : gset cid) (s : st) : st :=
  match nds with
  | [] => s
  | nd :: nds =>
      let c := nd_cid nd in
      if decide (c ∈ cids) then pin_new nds cids s else pin_new nds ({[ c ]} ∪ cids) (pin_one c s)
  end.

Definition pinningAdder_AddMany (nds : list inode) : st -> option error * st :=
  locked (fun s =>
    match effect (Added <$> (nd_cid <$> nds)) (dag_AddMany nds) s with
    | (Some e, s) => (Some e, s)
    | (None, s) => effect [Flushed] pin_Flush (pin_new nds ∅ s)
    end).

(** ** [path.go] *)

Definition namespace_error (p : string) : error := "unsupported path namespace: " +:+ nth 1 (split_on slash p) "".

Definition ResolvePath (p : ipath) (s : st) : result cid :=
  match p with
  | Resolved c => Ok c
  | Unresolved p =>
      match IsValid p with
      | Some e => Err e
      | None =>
          match ResolveIPNS p (world s) with
          | Err e => if String.eqb e ErrNoNamesys then Err ErrOffline else Err e
          | Ok ip =>
              match path_Segments ip with
              | ns :: root :: _ =>
                  if negb (String.eqb ns "ipfs") && negb (String.eqb ns "ipld") then Err (namespace_error p)
                  else match ResolveToLastNode (String.eqb ns "ipld") ip (world s) with
                  | Err e => Err e
                  | Ok (node, rest) => match cid_Decode root with Err e => Err e | Ok _ => Ok node end
                  end
              | _ => Err "index out of range"
              end
          end
      end
  end.

Definition ResolveNode (p : ipath) (s : st) : result inode :=
  match ResolvePath p s with Err e => Err e | Ok c => dag_Get c (world s) end.

(** ** [block.go] *)

Record BlockStat := MkBlockStat { bs_path : cid; bs_size : Z }.

Definition Block_Put (src : result bytes) (Pin : bool) (s : st) : result BlockStat * st :=
  match src with
  | Err e => (Err e, s)
  | Ok data =>
      match prefix_Sum data with
      | Err e => (Err e, s)
      | Ok bcid =>
          match NewBlockWithCid data bcid with
          | Some e => (Err e, s)
          | None =>
              (if Pin then locked (A := result BlockStat) else fun body => body) (fun s =>
                match effect [Added bcid] (blocks_AddBlock bcid data) s with
                | (Some e, s) => (Err e, s)
                | (None, s) =>
                    if Pin then
                      match effect [Flushed] pin_Flush (pin_one bcid s) with
                      | (Some e, s) => (Err e, s)
                      | (None, s) => (Ok (MkBlockStat bcid (Z.of_nat (length data))), s)
                      end
                    else (Ok (MkBlockStat bcid (Z.of_nat (length data))), s)
                end) s
          end
      end
  end.

Definition Block_Get (p : ipath) (s : st) : result bytes :=
  match ResolvePath p s with
  | Err e => Err e
  | Ok c => match blocks_GetBlock c (world s) with Err e => Err e | Ok b => Ok b.2 end
  end.

Definition Block_Rm (p : ipath) (Force : result bool) (s : st) : option error * st :=
  match ResolvePath p s with
  | Err e => (Some e, s)
  | Ok c =>
      match Force with
      | Err e => (Some e, s)
      | Ok force =>
          let '(r, w) := util_RmBlocks c force (world s) in
          (match r with
           | Err e => Some e
           | Ok None => None
           | Ok (Some removed) => removed
           end, MkSt w (trace s))
      end
  end.

Definition Block_Stat (p : ipath) (s : st) : result BlockStat :=
  match ResolvePath p s with
  | Err e => Err e
  | Ok c => match blocks_GetBlock c (world s) with Err e => Err e | Ok b => Ok (MkBlockStat b.1 (Z.of_nat (length b.2))) end
  end.

(** ** [object.go] *)

Definition inputLimit : Z := Z.shiftl 2 20.

Record Node := MkObject { Links : list (string * string * Z); Data : string }.

Definition Object_New (type : string) (s : st) : result inode * st :=
  match (if String.eqb type "empty" then Ok (node_of [] []) else if String.eqb type "unixfs-dir" then Ok empty_dir
         else Err ("unknown node type: " +:+ type)) with
  | Err e => (Err e, s)
  | Ok n => match effect [Added (nd_cid n)] (dag_Add n) s with (Some e, s) => (Err e, s) | (None, s) => (Ok n, s) end
  end.

Fixpoint decode_links (links : list (string * string * Z)) : result (list ilink) :=
  match links with
  | [] => Ok []
  | (name, hash, size) :: links =>
      match cid_Decode hash with
      | Err e => Err e
      | Ok c => match decode_links links with Err e => Err e | Ok l => Ok (MkLink name size c :: l) end
      end
  end.

Definition deserializeNode (nd : Node) (dataFieldEncoding : string) : result inode :=
  match (if String.eqb dataFieldEncoding "text" then Ok (list_byte_of_string (Data nd))
         else if String.eqb dataFieldEncoding "base64" then base64_Decode (Data nd)
         else Err "unknown data field encoding") with
  | Err e => Err e
  | Ok data =>
      match decode_links (Links nd) with
      | Err e => Err e
      | Ok links => match SetLinks links with Some e => Err e | None => Ok (node_of links data) end
      end
  end.

(** [decode_json], [decode_xml] and [decode_pb] decode the bytes read, which are at
    most [inputLimit + 10]. *)
Definition Object_Put (decode_json decode_xml : bytes -> result Node) (decode_pb : bytes -> result inode)
    (src : result bytes) (Pin : bool) (DataType InputEnc : string) (s : st) : result cid * st :=
  match src with
  | Err e => (Err e, s)
  | Ok all =>
      let data := take (Z.to_nat (inputLimit + 10)) all in
      let decoded :=
        if String.eqb InputEnc "json" then match decode_json data with Err e => Err e | Ok node => deserializeNode node DataType end
        else if String.eqb InputEnc "protobuf" then decode_pb data
        else if String.eqb InputEnc "xml" then match decode_xml data with Err e => Err e | Ok node => deserializeNode node DataType end
        else Err "unknown object encoding" in
      match decoded with
      | Err e => (Err e, s)
      | Ok dagnode =>
          (if Pin then locked (A := result cid) else fun body => body) (fun s =>
            match effect [Added (nd_cid dagnode)] (dag_Add dagnode) s with
            | (Some e, s) => (Err e, s)
            | (None, s) =>
                if Pin then
                  match effect [Flushed] pin_Flush (pin_one (nd_cid dagnode) s) with
                  | (Some e, s) => (Err e, s)
                  | (None, s) => (Ok (nd_cid dagnode), s)
                  end
                else (Ok (nd_cid dagnode), s)
            end) s
      end
  end.

Definition Object_Get (p : ipath) (s : st) : result inode := ResolveNode p s.

Definition Object_Data (p : ipath) (s : st) : result bytes :=
  match ResolveNode p s with
  | Err e => Err e
  | Ok nd => match nd_proto nd with None => Err ErrNotProtobuf | Some d => Ok d end
  end.

Definition Object_Links (p : ipath) (s : st) : result (list ilink) :=
  match ResolveNode p s with Err e => Err e | Ok nd => Ok (nd_links nd) end.

(** The state after a call of the editor. *)
Definition in_world {A} (r : result A * W) (s : st) : result A * st := (r.1, MkSt r.2 (trace s)).

Definition finalize (r : result inode * st) : result cid * st :=
  match r with
  | (Err e, s) => (Err e, s)
  | (Ok nd, s) =>
      match in_world (editor_Finalize nd (world s)) s with
      | (Err e, s) => (Err e, s)
      | (Ok nnode, s) => (Ok (nd_cid nnode), s)
      end
  end.

Definition AddLink (base : ipath) (name : string) (child : ipath) (Create : bool) (s : st) : result cid * st :=
  match ResolveNode base s with
  | Err e => (Err e, s)
  | Ok baseNd =>
      match ResolveNode child s with
      | Err e => (Err e, s)
      | Ok childNd =>
          match nd_proto baseNd with
          | None => (Err ErrNotProtobuf, s)
          | Some _ => finalize (in_world (InsertNodeAtPath baseNd name childNd Create (world s)) s)
          end
      end
  end.

Definition RmLink (base : ipath) (link : string) (s : st) : result cid * st :=
  match ResolveNode base s with
  | Err e => (Err e, s)
  | Ok baseNd =>
      match nd_proto baseNd with
      | None => (Err ErrNotProtobuf, s)
      | Some _ => finalize (in_world (editor_RmLink baseNd link (world s)) s)
      end
  end.

Definition patchData (p : ipath) (r : result bytes) (appendData : bool) (s : st) : result cid * st :=
  match ResolveNode p s with
  | Err e => (Err e, s)
  | Ok nd =>
      match nd_proto nd with
      | None => (Err ErrNotProtobuf, s)
      | Some old =>
          match r with
          | Err e => (Err e, s)
          | Ok data =>
              let pbnd := node_of (nd_links nd) (if appendData then old ++ data else data) in
              match effect [Added (nd_cid pbnd)] (dag_Add pbnd) s with
              | (Some e, s) => (Err e, s)
              | (None, s) => (Ok (nd_cid pbnd), s)
              end
          end
      end
  end.

Definition AppendData (p : ipath) (r : result bytes) : st -> result cid * st := patchData p r true.
Definition SetData (p : ipath) (r : result bytes) : st -> result cid * st := patchData p r false.

Record ObjectChange := MkChange { ch_Type : Z; ch_Path : string; ch_Before : option string; ch_After : option string }.

Definition Diff (before after : ipath) (s : st) : result (list ObjectChange) :=
  match ResolveNode before s with
  | Err e => Err e
  | Ok beforeNd =>
      match ResolveNode after s with
      | Err e => Err e
      | Ok afterNd =>
          match dagutils_Diff beforeNd afterNd (world s) with
          | Err e => Err e
          | Ok changes =>
              Ok ((fun '(t, p, b, a) => MkChange t p ((fun c => "/ipfs/" +:+ c) <$> b) ((fun c => "/ipfs/" +:+ c) <$> a)) <$> changes)
          end
      end
  end.

(** ** [dht.go] *)

Definition FindProviders (p : ipath) (NumProviders : Z) (s : st) : result (list string) :=
  match checkOnline false with
  | Some e => Err e
  | None =>
      match ResolvePath p s with
      | Err e => Err e
      | Ok c => if NumProviders <? 1 then Err "number of providers must be greater than 0" else Ok (FindProvidersAsync c NumProviders (world s))
      end
  end.

Fixpoint provideKeys (cids : list cid) (s : st) : option error * st :=
  match cids with
  | [] => (None, s)
  | c :: cids => match effect [Provided c] (routing_Provide c) s with (Some e, s) => (Some e, s) | (None, s) => provideKeys cids s end
  end.

(** [provideKeysRec] runs a walker beside the loop that receives from it: what the
    walker still sends, and what the loop has returned. *)
Inductive sends := SendKey (c : cid) | SendErr (e : error).
Record rec_state := MkRec { walker : list sends; loop_returned : option (option error); rec_st : st }.

Inductive rec_step : rec_state -> rec_state -> Prop :=
| rec_key c ws s : (effect [Provided c] (routing_Provide c) s).1 = None ->
    rec_step (MkRec (SendKey c :: ws) None s) (MkRec ws None (effect [Provided c] (routing_Provide c) s).2)
| rec_key_fails c ws s e : (effect [Provided c] (routing_Provide c) s).1 = Some e ->
    rec_step (MkRec (SendKey c :: ws) None s) (MkRec ws (Some (Some e)) (effect [Provided c] (routing_Provide c) s).2)
| rec_err e ws s : rec_step (MkRec (SendErr e :: ws) None s) (MkRec ws (Some (Some e)) s)
| rec_cancelled ws s : rec_step (MkRec ws None s) (MkRec ws (Some (Some "context canceled")) s).

(** The walker's sends for each root: the keys it visits first, and its error if
    it has one. *)
Definition walker_of (walks : list (list cid * option error)) : list sends :=
  w ← walks; (SendKey <$> w.1) ++ match w.2 with Some e => [SendErr e] | None => [] end.

(** [Provide] up to the choice between the two. *)
Definition Provide (p : ipath) (s : st) : result cid :=
  match checkOnline false with
  | Some e => Err e
  | None =>
      match ResolvePath p s with
      | Err e => Err e
      | Ok c =>
          match blockstore_Has c (world s) with
          | Err e => Err e
          | Ok false => Err ("block " +:+ c +:+ " not found locally, cannot provide")
          | Ok true => Ok c
          end
      end
  end.

Definition Provide_direct (p : ipath) (s : st) : option error * st :=
  match Provide p s with Err e => (Some e, s) | Ok c => provideKeys [c] s end.
End CoreAPI.

(** ** [name.go] *)

Definition ErrNoSuchKey : error := "no key by the given name was found".
Definition ErrResolveFailed : error := "could not resolve name".

Section Names.
Context `{Keystore} (peer_Decode : string -> result string).

(** The last loop of [keylookup]. *)
Fixpoint lookup_by_id (keys : list string) (targetPid : string) (s : ks) : result priv * ks :=
  match keys with
  | [] => (Err "no key by the given name or PeerID was found", s)
  | key :: keys =>
      match ks_Get key s with
      | (Err e, s) => (Err e, s)
      | (Ok privKey, s) =>
          match IDFromPublicKey privKey with
          | Err e => (Err e, s)
          | Ok pid => if String.eqb targetPid pid then (Ok privKey, s) else lookup_by_id keys targetPid s
          end
      end
  end.

Definition keylookup (self : priv) (k : string) (s : ks) : result priv * ks :=
  if String.eqb k "self" then (Ok self, s)
  else match ks_Get k s with
  | (Ok res, s) => (Ok res, s)
  | (Err e, s) =>
      if negb (String.eqb e ErrNoSuchKey) then (Err e, s)
      else match ks_List s with
      | (Err e, s) => (Err e, s)
      | (Ok keys, s) =>
          match peer_Decode k with
          | Err _ => (Err ErrNoSuchKey, s)
          | Ok targetPid =>
              match IDFromPublicKey self with
              | Err e => (Err ("failed to determine peer ID for private key: " +:+ e), s)
              | Ok pid => if String.eqb pid targetPid then (Ok self, s) else lookup_by_id keys targetPid s
              end
          end
      end
  end.

(** [Publish]: what is handed to [PublishWithEOL], and the name of the entry.
    [now] is the time, [ValidTime] the record's validity. *)
Definition Publish `{ApiEnv} (ParsePath : string -> option error) (PublishWithEOL : priv -> string -> Z -> option error)
    (self : priv) (p key : string) (AllowOffline : bool) (ValidTime now : Z) (s : ks) : result (string * string) * ks :=
  match checkPublishAllowed with
  | Some e => (Err e, s)
  | None =>
      match checkOnline AllowOffline with
      | Some e => (Err e, s)
      | None =>
          match ParsePath p with
          | Some e => (Err e, s)
          | None =>
              match keylookup self key s with
              | (Err e, s) => (Err e, s)
              | (Ok k, s) =>
                  match PublishWithEOL k p (now + ValidTime) with
                  | Some e => (Err e, s)
                  | None => match IDFromPublicKey k with Err e => (Err e, s) | Ok pid => (Ok (pid, p), s) end
                  end
              end
          end
      end
  end.

(** What [keylookup] finds: by name first, and then by identity. *)
Lemma lookup_by_id_sound keys targetPid s sk s' :
  lookup_by_id keys targetPid s = (Ok sk, s') ->
  ks_keys s' = ks_keys s /\ IDFromPublicKey sk = Ok targetPid /\ exists n, n ∈ keys /\ ks_keys s !! n = Some sk.
Proof.
  revert s. induction keys as [|n keys IH]; intros s; cbn [lookup_by_id]; [done|].
  destruct (ks_Get n s) as [[k|e] s1] eqn:E; [|done]. apply ks_Get_spec in E as [K1 Hk].
  destruct (IDFromPublicKey k) as [pid|] eqn:Ei; [|done]. destruct (String.eqb_spec targetPid pid) as [-> |Hne].
  - intros [= <- <-]. split; [done|]. split; [done|]. exists n. split; [apply list_elem_of_here|done].
  - intros E2. destruct (IH s1 E2) as (K2 & Hi & n' & Hn & Hs). rewrite K1 in *. split; [done|]. split; [done|]. exists n'.
    split; [by apply list_elem_of_further|done].
Qed.

Lemma lookup_by_id_complete keys targetPid s :
  (forall n t, n ∈ keys -> ks_keys t = ks_keys s -> exists k pid t', ks_Get n t = (Ok k, t') /\ IDFromPublicKey k = Ok pid) ->
  (exists n sk, n ∈ keys /\ ks_keys s !! n = Some sk /\ IDFromPublicKey sk = Ok targetPid) ->
  exists sk s', lookup_by_id keys targetPid s = (Ok sk, s').
Proof.
  revert s. induction keys as [|n keys IH]; intros s Hget (m & sk & Hm & Hk & Hi); [by apply not_elem_of_nil in Hm|]. cbn [lookup_by_id].
  destruct (Hget n s (list_elem_of_here _ _) eq_refl) as (k & pid & t & Eg & Ei). rewrite Eg, Ei.
  apply ks_Get_spec in Eg as [Kt Hkn]. destruct (String.eqb_spec targetPid pid) as [-> |Hne]; [by exists k, t|].
  apply IH.
  - intros n' t' Hn' Ht'. apply Hget; [by apply list_elem_of_further|congruence].
  - exists m, sk. split_and!; [|by rewrite Kt|done]. apply elem_of_cons in Hm as [-> |Hm]; [|done]. congruence.
Qed.

(** ** Theorems *)

(** the key a name is published with.  [self] is the node's own key; a name of
    the keystore gives the key stored under it; anything else is taken for an
    identity, and the key found is the node's or a stored one with exactly that
    identity.  Nothing is changed. *)
Theorem keylookup_sound self k s sk s' :
  keylookup self k s = (Ok sk, s') ->
  ks_keys s' = ks_keys s /\
  ((k = "self" /\ sk = self) \/ (k <> "self" /\ ks_keys s !! k = Some sk) \/
   (exists pid, peer_Decode k = Ok pid /\ IDFromPublicKey sk = Ok pid /\ (sk = self \/ exists n, ks_keys s !! n = Some sk))).
Proof.
  unfold keylookup. destruct (String.eqb_spec k "self") as [-> |Hself]; [intros [= <- <-]; auto|].
  destruct (ks_Get k s) as [[res|e] s1] eqn:E1; apply ks_Get_spec in E1 as [K1 Hk]; [intros [= <- <-]; auto|].
  destruct (negb (String.eqb e ErrNoSuchKey)); [done|]. destruct (ks_List s1) as [[keys|] s2] eqn:E2; [|done].
  apply ks_List_spec in E2 as [K2 _]. destruct (peer_Decode k) as [tp|]; [|done]. destruct (IDFromPublicKey self) as [pid|] eqn:Ei; [|done].
  destruct (String.eqb_spec pid tp) as [-> |Hne].
  - intros [= <- <-]. split; [congruence|]. right. right. exists tp. by auto.
  - intros E3. apply lookup_by_id_sound in E3 as (K3 & Hi & n & _ & Hn). split; [congruence|]. right. right. exists tp. split; [done|]. split; [done|].
    right. exists n. congruence.
Qed.
End Names.

(** [Resolve]: the results of [Search] as they arrive. *)
Fixpoint resolve_loop (results : list (string * option error)) (p : string) (err : option error) : string * option error :=
  match results with
  | [] => (p, err)
  | (p, Some e) :: _ => (p, Some e)
  | (p, None) :: results => resolve_loop results p None
  end.
Definition Resolve (results : list (string * option error)) : string * option error := resolve_loop results "" (Some ErrResolveFailed).

(** [Search]: the name it looks up. *)
Definition search_name (name : string) : string := if HasPrefix name "/ipns/" then name else "/ipns/" +:+ name.

(** resolving a name gives the last, most recent, of the values found before the
    first error, which is the result's error if there is one; with no value at all
    it fails. *)
Theorem resolve_latest values fails :
  Resolve (((fun p => (p, None)) <$> values) ++ fails) =
  match fails with
  | (p, Some e) :: _ => (p, Some e)
  | _ => match last values with
         | Some p => match fails with [] => (p, None) | _ => resolve_loop fails p None end
         | None => Resolve fails
         end
  end.
Proof.
  unfold Resolve. generalize (Some ErrResolveFailed : option error) as err. generalize "" as q.
  induction values as [|p values IH]; intros q err.
  - cbn [fmap list_fmap app]. by destruct fails as [|[p [e|]] fails].
  - cbn [fmap list_fmap app resolve_loop]. rewrite IH. destruct fails as [|[p' [e|]] fails]; [|done|].
    + rewrite last_cons. by destruct (last values).
    + rewrite last_cons. by destruct (last values).
Qed.

Section Theorems.
Context `{ApiEnv}.

Lemma effect_trace es f s r s' : effect es f s = (r, s') -> trace s' = trace s ++ match r with None => es | Some _ => [] end.
Proof. unfold effect. destruct (f (world s)) as [r0 w]. by intros [= <- <-]. Qed.

(** The CIDs of the nodes without repetitions, in order. *)
Fixpoint distinct (l : list cid) (seen : gset cid) : list cid :=
  match l with [] => [] | c :: l => if decide (c ∈ seen) then distinct l seen else c :: distinct l ({[ c ]} ∪ seen) end.

Lemma pin_new_trace nds cids s : trace (pin_new nds cids s) = trace s ++ (Pinned <$> distinct (nd_cid <$> nds) cids).
Proof.
  revert cids s. induction nds as [|nd nds IH]; intros cids s; cbn; [by rewrite app_nil_r|]. destruct (decide (nd_cid nd ∈ cids)); rewrite IH; [done|].
  cbn. by rewrite <- (assoc (++)).
Qed.

Lemma distinct_spec l seen : NoDup (distinct l seen) /\ forall c, c ∈ distinct l seen <-> c ∈ l /\ (c ∉ seen).
Proof.
  revert seen. induction l as [|c l IH]; intros seen; cbn; [split; [constructor|set_solver]|].
  destruct (decide (c ∈ seen)) as [Hc|Hc].
  - destruct (IH seen) as [H1 H2]. split; [done|]. intros x. rewrite H2. set_solver.
  - destruct (IH ({[ c ]} ∪ seen)) as [H1 H2]. split; [constructor; [rewrite H2; set_solver|done]|]. intros x. rewrite elem_of_cons, H2.
    destruct (decide (x = c)); set_solver.
Qed.

(** adding several nodes with pinning happens under one pin lock: they are
    added, then each of their CIDs is pinned once, then the pins are flushed, and
    the lock is released on every path; nothing is pinned that was not added, and
    success means that all of it was done. *)
Theorem add_many_under_lock nds s r s' :
  pinningAdder_AddMany nds s = (r, s') ->
  exists seg pins, trace s' = trace s ++ PinLock :: seg ++ [Unlock] /\
    NoDup pins /\ (forall c, c ∈ pins <-> c ∈ nd_cid <$> nds) /\
    let all := (Added <$> (nd_cid <$> nds)) ++ (Pinned <$> pins) ++ [Flushed] in
    match r with
    | None => seg = all
    | Some _ => seg = [] \/ seg = (Added <$> (nd_cid <$> nds)) ++ (Pinned <$> pins)
    end.
Proof.
  unfold pinningAdder_AddMany, locked. destruct (distinct_spec (nd_cid <$> nds) ∅) as [H1 H2].
  destruct (effect (Added <$> (nd_cid <$> nds)) (dag_AddMany nds) (log PinLock s)) as [[e|] s1] eqn:E1; apply effect_trace in E1; cbn in E1.
  - intros [= <- <-]. exists [], (distinct (nd_cid <$> nds) ∅). cbn. rewrite E1, app_nil_r. split_and!; [by rewrite <- (assoc (++))|done|set_solver|by left].
  - destruct (effect [Flushed] pin_Flush (pin_new nds ∅ s1)) as [r2 s2] eqn:E2. apply effect_trace in E2. rewrite pin_new_trace, E1 in E2. intros [= <- <-].
    exists ((Added <$> (nd_cid <$> nds)) ++ (Pinned <$> distinct (nd_cid <$> nds) ∅) ++ match r2 with None => [Flushed] | Some _ => [] end),
      (distinct (nd_cid <$> nds) ∅). cbn [log trace]. rewrite E2. split; [by rewrite <- !(assoc (++))|]. split; [done|]. split; [set_solver|]. cbn zeta.
    destruct r2 as [e|]; [right|]; rewrite ?app_nil_r; done.
Qed.

Lemma provide_all_keys keys s :
  (forall c w, (routing_Provide c w).1 = None) ->
  exists s', rtc rec_step (MkRec (SendKey <$> keys) None s) (MkRec [] None s') /\ trace s' = trace s ++ (Provided <$> keys).
Proof.
  intros Hp. revert s. induction keys as [|c keys IH]; intros s; cbn [fmap list_fmap]; [exists s; by rewrite app_nil_r|].
  pose proof (effect_trace [Provided c] (routing_Provide c) s) as Ht. pose proof (rec_key c (SendKey <$> keys) s) as Hstep.
  destruct (effect [Provided c] (routing_Provide c) s) as [r s1] eqn:E. specialize (Ht r s1 eq_refl).
  assert (r = None) as ->.
  { unfold effect in E. specialize (Hp c (world s)). destruct (routing_Provide c (world s)) as [r0 w]. cbn in Hp. by injection E as <- _. }
  destruct (IH s1) as (s' & Hrun & Htr). exists s'. split; [eapply rtc_l; [by apply Hstep|done]|]. rewrite Htr, Ht. by rewrite <- (assoc (++)).
Qed.

(** the recursive [Provide] never returns without an error: its loop returns
    only on an error of the walk, of routing or of the context, and the end of the
    walk is not reported to it.  With a walk and a routing without errors every
    key is provided, and then the loop waits until the context is done. *)
Theorem provide_recursive_never_succeeds walks s :
  (forall x, rtc rec_step (MkRec (walker_of walks) None s) x -> loop_returned x <> Some None) /\
  ((forall w, w ∈ walks -> w.2 = None) -> (forall c w, (routing_Provide c w).1 = None) ->
   exists s', rtc rec_step (MkRec (walker_of walks) None s) (MkRec [] None s') /\
     trace s' = trace s ++ (Provided <$> (walks ≫= fst)) /\
     forall y, rec_step (MkRec [] None s') y -> loop_returned y = Some (Some "context canceled")).
Proof.
  split.
  - intros x Hx. assert (Hinv : forall x y, rtc rec_step x y -> loop_returned x <> Some None -> loop_returned y <> Some None).
    { clear. induction 1 as [|x y z Hs _ IH]; [done|]. intros Hn. apply IH. destruct Hs; cbn; discriminate. }
    apply (Hinv _ _ Hx). discriminate.
  - intros Hw Hp. assert (E : walker_of walks = SendKey <$> (walks ≫= fst)).
    { clear -Hw. unfold walker_of. induction walks as [|w walks IH]; [done|]. cbn. rewrite IH by (intros w' Hw'; apply Hw; by apply list_elem_of_further).
      rewrite (Hw w (list_elem_of_here _ _)), app_nil_r, fmap_app. done. }
    rewrite E. destruct (provide_all_keys (walks ≫= fst) s Hp) as (s' & Hrun & Htr). exists s'. split; [done|]. split; [done|].
    intros y Hy. by inversion Hy; subst.
Qed.

(** the data of an object that was appended to is the old data followed by the
    new, under the CID that is returned. *)
Theorem append_data_exact p data s c s' nd old :
  (forall n w w', dag_Add n w = (None, w') -> dag_Get (nd_cid n) w' = Ok n) ->
  (forall ls d, nd_proto (node_of ls d) = Some d) ->
  ResolveNode p s = Ok nd -> nd_proto nd = Some old ->
  AppendData p (Ok data) s = (Ok c, s') ->
  Object_Data (Resolved c) s' = Ok (old ++ data).
Proof.
  intros Hadd Hproto Hr Ho. unfold AppendData, patchData. rewrite Hr, Ho. unfold effect.
  destruct (dag_Add _ (world s)) as [[e|] w] eqn:Ea; [done|]. intros [= <- <-]. unfold Object_Data, ResolveNode. cbn [ResolvePath world].
  rewrite (Hadd _ _ _ Ea). by rewrite Hproto.
Qed.
End Theorems.

(** ** Witnesses *)
Module DemoApi.

Definition node_cid (ls : list ilink) (d : bytes) : cid := String.concat "," (l_cid <$> ls) +:+ ":" +:+ string_of_list_byte d.
Definition make (ls : list ilink) (d : bytes) : inode := MkINode (node_cid ls d) ls (Some d).

#[local] Instance env : ApiEnv := {|
  W := list (cid * inode);
  dag_Add n w := (None, (nd_cid n, n) :: w);
  dag_AddMany ns w := (None, ((fun n => (nd_cid n, n)) <$> ns) ++ w);
  dag_Get c w := match list_find (fun p => p.1 = c) w with Some (_, (_, n)) => Ok n | None => Err "not found" end;
  blocks_AddBlock _ _ w := (None, w); blocks_GetBlock c _ := Ok (c, []); blockstore_Has _ _ := Ok true;
  PinWithMode _ w := w; pin_Flush w := (None, w); util_RmBlocks _ _ w := (Ok None, w);
  prefix_Sum d := Ok (string_of_list_byte d); NewBlockWithCid _ _ := None;
  node_of := make; empty_dir := make [] [Byte.x08];
  cid_Decode c := Ok c; SetLinks _ := None; base64_Decode _ := Err "illegal base64";
  InsertNodeAtPath n _ _ _ w := (Ok n, w); editor_RmLink n _ w := (Ok n, w); editor_Finalize n w := (Ok n, w); dagutils_Diff _ _ _ := Ok [];
  checkOnline _ := None; checkPublishAllowed := None; routing_Provide _ w := (None, w); FindProvidersAsync _ _ _ := [];
  IsValid _ := None; ResolveIPNS p _ := Ok p; path_Segments p := split_on slash p; ResolveToLastNode _ p _ := Ok (p, []);
|}.

Definition a_node : inode := make [] [Byte.x61].
Definition start : st := MkSt [(nd_cid a_node, a_node)] [].

Lemma add_many_under_lock_witness :
  exists seg pins, trace (pinningAdder_AddMany [a_node; a_node] start).2 = [] ++ PinLock :: seg ++ [Unlock] /\
    NoDup pins /\ (forall c, c ∈ pins <-> c ∈ nd_cid <$> [a_node; a_node]).
Proof.
  destruct (add_many_under_lock [a_node; a_node] start (pinningAdder_AddMany [a_node; a_node] start).1 (pinningAdder_AddMany [a_node; a_node] start).2)
    as (seg & pins & H1 & H2 & H3 & _); [apply surjective_pairing|]. by exists seg, pins.
Defined.

Lemma append_data_exact_witness :
  Object_Data (Resolved (nd_cid (make [] [Byte.x61; Byte.x62]))) (AppendData (Resolved (nd_cid a_node)) (Ok [Byte.x62]) start).2 = Ok [Byte.x61; Byte.x62].
Proof.
  apply (append_data_exact (H := env) (Resolved (nd_cid a_node)) [Byte.x62] start _ _ a_node [Byte.x61]).
  - intros n w w' [= <-]. cbn. by rewrite decide_True.
  - done.
  - reflexivity.
  - reflexivity.
  - reflexivity.
Defined.

#[local] Existing Instance demo_keystore.
Lemma keylookup_sound_witness :
  ks_keys (keylookup (fun k => Ok k) "me" "id-kb" quiet_keys).2 = ks_keys quiet_keys.
Proof. apply (keylookup_sound (H := demo_keystore) (fun k => Ok k) "me" "id-kb" quiet_keys "kb"). reflexivity. Defined.

Example pins_once : trace (pinningAdder_AddMany [a_node; a_node] start).2 = [PinLock; Added ":a"; Added ":a"; Pinned ":a"; Flushed; Unlock].
Proof. reflexivity. Qed.
End DemoApi.
