(* ===== verification/RemotePin.v ===== *)
(** Remote pinning: [core/commands/pin/remotepin.go].

    The pinning service is its answers: what [Add], the polls of [GetStatusByID],
    [Ls] and [DeleteByID] give.  The configured services are a table; URLs are
    parsed and printed by [net/url], which [UrlText] stands for. *)
From Stdlib Require Import ZArith Lia Ascii String Sorted.
From stdpp Require Import base strings gmap list sorting.
From S2P Require Import Prelude GoStrings GoPath Files Gateway.

Local Open Scope Z_scope.

(** ** Endpoints *)

Record URL := MkURL { Scheme : string; Host : string; Path : string; RawQuery : string }.

Class UrlText := {
  ParseRequestURI : string -> result URL;
  url_String : URL -> string;
}.

Definition normalize_path (p : string) : string := TrimSuffix (TrimSuffix (Clean p) ".") "/".

Definition normalizeEndpoint `{UrlText} (endpoint : string) : result string :=
  match ParseRequestURI endpoint with
  | Err _ => Err "service endpoint must be a valid HTTP URL"
  | Ok uri =>
      if negb (String.eqb (Scheme uri) "http" || String.eqb (Scheme uri) "https") then Err "service endpoint must be a valid HTTP URL"
      else
        let uri := MkURL (Scheme uri) (Host uri) (normalize_path (Path uri)) (RawQuery uri) in
        if negb (String.eqb (RawQuery uri) "") then Err "service endpoint should be provided without any query parameters"
        else if HasSuffix (Path uri) "/pins" then Err "service endpoint should be provided without the /pins suffix"
        else Ok (url_String uri)
  end.

(** ** Services *)

Record RemotePinningService := MkService { Endpoint : string; Key : string }.

(** [cfg.Pinning.RemoteServices]: nil or a map. *)
Abbreviation services := (option (gmap string RemotePinningService)).

Section Services.
Context `{UrlText} (SetConfig : services -> services -> option error * services).

(** [addRemotePinServiceCmd.Run] on the configuration of the opened repository. *)
Definition service_add (args : list string) (cfg : services) : option error * services :=
  match args with
  | name :: arg :: key :: _ =>
      match normalizeEndpoint arg with
      | Err e => (Some e, cfg)
      | Ok endpoint =>
          match cfg with
          | Some m =>
              match m !! name with
              | Some _ => (Some "service already present", cfg)
              | None => SetConfig (Some (<[name := MkService endpoint key]> m)) cfg
              end
          | None => SetConfig (Some {[name := MkService endpoint key]}) cfg
          end
      end
  | _ => (Some "expecting three arguments: service name, endpoint and key", cfg)
  end.

(** [rmRemotePinServiceCmd.Run] *)
Definition service_rm (args : list string) (cfg : services) : option error * services :=
  match args with
  | [name] => SetConfig ((fun m => delete name m) <$> cfg) cfg
  | _ => (Some "expecting one argument: name", cfg)
  end.

Definition getRemotePinServiceInfo (name : string) (cfg : services) : result (string * string) :=
  match cfg with
  | None => Err "service not known"
  | Some m =>
      match m !! name with
      | None => Err "service not known"
      | Some service => match normalizeEndpoint (Endpoint service) with Err e => Err e | Ok endpoint => Ok (endpoint, Key service) end
      end
  end.

Definition getRemotePinService (name : string) (cfg : services) : result (string * string) :=
  if String.eqb name "" then Err "remote pinning service name not specified" else getRemotePinServiceInfo name cfg.

Definition getRemotePinServiceFromRequest (service : option string) (cfg : services) : result (string * string) :=
  match service with None => Err "a service name must be passed" | Some name => getRemotePinService name cfg end.

(** The counts a service answers for each status. *)
Record PinCount := MkPinCount { Queued : Z; Pinning : Z; Pinned : Z; Failed : Z }.
Record ServiceDetails := MkDetails { Service : string; ApiEndpoint : string; Stat : option (string * option PinCount) }.

(** [count] gives the number of pins with a status, for a client. *)
Definition lsRemotePinCount (count : string * string -> string -> result Z) (svcName : string) (cfg : services) : result PinCount :=
  match getRemotePinService svcName cfg with
  | Err e => Err e
  | Ok c =>
      match count c "queued", count c "pinning", count c "pinned", count c "failed" with
      | Ok q, Ok p, Ok d, Ok f => Ok (MkPinCount q p d f)
      | Err e, _, _, _ | _, Err e, _, _ | _, _, Err e, _ | _, _, _, Err e => Err e
      end
  end.

(** The order of [PinServicesList]. *)
Definition by_service (a b : ServiceDetails) : Prop := string_le (Service a) (Service b).
#[global] Instance by_service_dec a b : Decision (by_service a b) := _.

(** [lsRemotePinServiceCmd.Run]; [order] is the order in which the map is ranged over. *)
Definition service_ls (count : string * string -> string -> result Z) (order : gmap string RemotePinningService -> list (string * RemotePinningService))
    (stat : bool) (cfg : services) : list ServiceDetails :=
  match cfg with
  | None => []
  | Some m =>
      merge_sort by_service ((fun '(svcName, svc) =>
        MkDetails svcName (Endpoint svc)
          (if stat then Some (match lsRemotePinCount count svcName cfg with Ok pc => ("valid", Some pc) | Err _ => ("invalid", None) end) else None))
        <$> order m)
  end.
End Services.

(** ** Pins *)

Record PinStatus := MkPinStatus { RequestId : string; Status : string; pin_Cid : string; pin_Name : string }.

Definition quote (s : string) : string := String "034" (s +:+ String "034" "").

(** The loop that waits for a pin: the answers to its polls, and after each poll that
    is not final whether the context is done.  [None] while it is still waiting. *)
Fixpoint wait_pinned (requestID : string) (polls : list (result PinStatus * bool)) : option (result PinStatus) :=
  match polls with
  | [] => None
  | (Err e, _) :: _ => Some (Err ("failed to check pin status for requestid=" +:+ quote requestID +:+ " due to error: " +:+ e))
  | (Ok ps, cancelled) :: polls =>
      if negb (String.eqb (RequestId ps) requestID)
      then Some (Err ("failed to check pin status for requestid=" +:+ quote requestID +:+ ", remote service sent unexpected requestid=" +:+ quote (RequestId ps)))
      else if String.eqb (Status ps) "pinned" then Some (Ok ps)
      else if String.eqb (Status ps) "failed" then Some (Err ("remote service failed to pin requestid=" +:+ quote requestID))
      else if cancelled : bool then Some (Err ("waiting for pin interrupted, requestid=" +:+ quote requestID +:+ " remains on remote service"))
      else wait_pinned requestID polls
  end.

(** [addRemotePinCmd.Run] after the service and the path are resolved: [added] is the
    answer of the service, [delegates] whether each of its delegates is an
    address. *)
Definition remote_add (added : result PinStatus) (delegates : list (option error)) (background : bool) (polls : list (result PinStatus * bool))
  : option (result PinStatus) :=
  match added with
  | Err e => Some (Err e)
  | Ok ps =>
      match list_find is_Some delegates with
      | Some (_, Some e) => Some (Err e)
      | _ => if background then Some (Ok ps) else wait_pinned (RequestId ps) polls
      end
  end.

(** The filters of [lsRemote]. *)
Definition valid_status (s : string) : bool := bool_decide (s ∈ ["queued"; "pinning"; "pinned"; "failed"]).

Fixpoint parse_cids (decode : string -> result string) (raw : list string) : result (list string) :=
  match raw with
  | [] => Ok []
  | r :: raw =>
      match decode r with
      | Err e => Err ("CID " +:+ quote r +:+ " cannot be parsed: " +:+ e)
      | Ok c => match parse_cids decode raw with Err e => Err e | Ok cs => Ok (c :: cs) end
      end
  end.

Fixpoint parse_statuses (raw : list string) : result (list string) :=
  match raw with
  | [] => Ok []
  | r :: raw =>
      if valid_status r then match parse_statuses raw with Err e => Err e | Ok ss => Ok (r :: ss) end
      else Err ("status " +:+ quote r +:+ " is not valid")
  end.

Record filters := MkFilters { f_name : option string; f_cids : option (list string); f_status : option (list string) }.

(** [Ls] gives the matching pins and the error it ends with. *)
Definition lsRemote (decode : string -> result string) (name : option string) (cids statuses : option (list string))
    (Ls : filters -> list PinStatus * option error) : result (list PinStatus * option error) :=
  match (match cids with None => Ok None | Some raw => match parse_cids decode raw with Err e => Err e | Ok cs => Ok (Some cs) end end) with
  | Err e => Err e
  | Ok cids =>
      match (match statuses with None => Ok None | Some raw => match parse_statuses raw with Err e => Err e | Ok ss => Ok (Some ss) end end) with
      | Err e => Err e
      | Ok statuses => Ok (Ls (MkFilters name cids statuses))
      end
  end.

(** [listRemotePinCmd.Run] *)
Definition remote_ls (listed : result (list PinStatus * option error)) : list (string * string * string) * option error :=
  match listed with
  | Err e => ([], Some e)
  | Ok (pins, e) => ((fun ps => (Status ps, pin_Cid ps, pin_Name ps)) <$> pins, e)
  end.

(** The removals of [rmRemotePinCmd.Run]: the requests that were deleted. *)
Fixpoint delete_ids (DeleteByID : string -> option error) (ids : list string) (deleted : list string) : option error * list string :=
  match ids with
  | [] => (None, deleted)
  | rmID :: ids =>
      match DeleteByID rmID with
      | Some e => (Some ("removing pin identified by requestid=" +:+ quote rmID +:+ " failed: " +:+ e), deleted)
      | None => delete_ids DeleteByID ids (deleted ++ [rmID])
      end
  end.

Definition remote_rm (args : list string) (listed : result (list PinStatus * option error)) (force : bool) (DeleteByID : string -> option error)
  : option error * list string :=
  match args with
  | arg :: _ => (Some ("unexpected argument " +:+ quote arg), [])
  | [] =>
      match listed with
      | Err e => (Some e, [])
      | Ok (_, Some e) => (Some ("error while listing remote pins: " +:+ e), [])
      | Ok (pins, None) =>
          let rmIDs := RequestId <$> pins in
          if (1 <? Z.of_nat (length rmIDs)) && negb force
          then (Some "multiple remote pins are matching this query, add --force to confirm the bulk removal", [])
          else delete_ids DeleteByID rmIDs []
      end
  end.

(** ** The commands *)

Section Commands.
Context `{UrlText} (service : option string) (cfg : services).

(** What [addRemotePinCmd.Run] does before the service answers.  [resolve] resolves the
    path, [Has] looks in the blockstore, [own] are the node's own addresses, when it
    has a host, and [Add] is the request. *)
Definition add_request (args : list string) (resolve : string -> result string) (Has : string -> result bool) (own : option (result (list string)))
    (name : option string) (Add : string * string -> string -> option string -> list string -> result PinStatus) : result PinStatus :=
  match getRemotePinServiceFromRequest service cfg with
  | Err e => Err e
  | Ok c =>
      match args with
      | [arg] =>
          match resolve arg with
          | Err e => Err e
          | Ok rp =>
              match Has rp with
              | Err e => Err e
              | Ok isInBlockstore =>
                  match (if isInBlockstore then own else None) with
                  | Some (Err e) => Err e
                  | Some (Ok addrs) => Add c rp name addrs
                  | None => Add c rp name []
                  end
              end
          end
      | _ => Err "expecting one CID argument"
      end
  end.

Section Listing.
Context (decode : string -> result string) (name : option string) (cids statuses : option (list string)).
Context (Ls : string * string -> filters -> list PinStatus * option error).

Definition remote_ls_Run : list (string * string * string) * option error :=
  match getRemotePinServiceFromRequest service cfg with
  | Err e => ([], Some e)
  | Ok c => remote_ls (lsRemote decode name cids statuses (Ls c))
  end.

Definition remote_rm_Run (args : list string) (force : bool) (DeleteByID : string * string -> string -> option error) : option error * list string :=
  match getRemotePinServiceFromRequest service cfg with
  | Err e => (Some e, [])
  | Ok c => remote_rm args (lsRemote decode name cids statuses (Ls c)) force (DeleteByID c)
  end.
End Listing.
End Commands.

(** ** Lemmas *)

(** A poll after which the loop goes on. *)
Definition pending (requestID : string) (poll : result PinStatus * bool) : Prop :=
  exists ps, poll = (Ok ps, false) /\ RequestId ps = requestID /\ Status ps <> "pinned" /\ Status ps <> "failed".

Lemma wait_pending id pre polls : Forall (pending id) pre -> wait_pinned id (pre ++ polls) = wait_pinned id polls.
Proof.
  induction 1 as [|p pre (ps & -> & <- & Hn & Hf) _ IH]; [done|]. cbn [app wait_pinned]. rewrite String.eqb_refl. cbn [negb].
  apply String.eqb_neq in Hn, Hf. by rewrite Hn, Hf.
Qed.

Lemma wait_cases id polls :
  (Forall (pending id) polls /\ wait_pinned id polls = None) \/
  exists pre poll rest, polls = pre ++ poll :: rest /\ Forall (pending id) pre /\ ~ pending id poll.
Proof.
  induction polls as [|poll polls IH]; [left; split; [constructor|done]|].
  assert (Hd : pending id poll \/ ~ pending id poll).
  { destruct poll as [[ps|e] c]; [|right; by intros (ps & E & _)]. destruct (decide (c = false /\ RequestId ps = id /\ Status ps <> "pinned" /\ Status ps <> "failed"))
      as [(-> & Hi & Hn & Hf)|Hno]; [left; by exists ps|]. right. intros (ps' & [= <- ->] & Hi & Hn & Hf). by apply Hno. }
  destruct Hd as [Hp|Hn]; [|right; exists [], poll, polls; by split_and!].
  destruct IH as [[Hall E]|(pre & p & rest & -> & Hpre & Hn)].
  - left. split; [by constructor|]. rewrite <- E. apply (wait_pending id [poll] polls). by constructor.
  - right. exists (poll :: pre), p, rest. split_and!; [done|by constructor|done].
Qed.

Lemma delete_ids_spec D ids acc r l :
  delete_ids D ids acc = (r, l) ->
  exists done, done `prefix_of` ids /\ l = acc ++ done /\ Forall (fun i => D i = None) done /\ (r = None -> done = ids).
Proof.
  revert acc. induction ids as [|i ids IH]; intros acc; cbn [delete_ids].
  - intros [= <- <-]. exists []. split_and!; [done|by rewrite app_nil_r|constructor|done].
  - destruct (D i) eqn:E; [intros [= <- <-]; exists []; split_and!; [apply prefix_nil|by rewrite app_nil_r|constructor|done]|].
    intros Ed. destruct (IH _ Ed) as (dn & H1 & -> & H2 & H3). exists (i :: dn). split_and!; [by apply prefix_cons|by rewrite <- (assoc (++))|by constructor|].
    intros Hr. by rewrite H3.
Qed.

(** ** Theorems *)

(** waiting for a remote pin ends with success exactly when the service reports the
    request that was made as pinned, after reports of the same request that were
    neither final nor interrupted; any other report ends it with an error, and
    until one comes it waits. *)
Theorem remote_add_waits id polls :
  match wait_pinned id polls with
  | Some (Ok ps) => exists pre c rest, polls = pre ++ (Ok ps, c) :: rest /\ Forall (pending id) pre /\ RequestId ps = id /\ Status ps = "pinned"
  | Some (Err _) => exists pre poll rest, polls = pre ++ poll :: rest /\ Forall (pending id) pre /\ ~ pending id poll /\
      forall ps c, poll = (Ok ps, c) -> RequestId ps = id -> Status ps <> "pinned"
  | None => Forall (pending id) polls
  end.
Proof.
  destruct (wait_cases id polls) as [[Hall ->]|(pre & poll & rest & -> & Hpre & Hn)]; [done|]. rewrite wait_pending by done.
  destruct poll as [[ps|e] c]; cbn [wait_pinned].
  2:{ exists pre, (Err e, c), rest. by split_and!. }
  destruct (String.eqb_spec (RequestId ps) id) as [Hi|Hi]; cbn [negb].
  2:{ exists pre, (Ok ps, c), rest. split_and!; [done..|]. by intros ps' c' [= <- <-] Hi'. }
  destruct (String.eqb_spec (Status ps) "pinned") as [Hp|Hp].
  { by exists pre, c, rest. }
  destruct (String.eqb_spec (Status ps) "failed") as [Hf|Hf].
  { exists pre, (Ok ps, c), rest. split_and!; [done..|]. by intros ps' c' [= <- <-]. }
  destruct c.
  { exists pre, (Ok ps, true), rest. split_and!; [done..|]. by intros ps' c' [= <- <-]. }
  destruct Hn. by exists ps.
Qed.

(** removing remote pins removes only pins the named service lists for the filters
    given, in order, and never more than one without [--force]; when it succeeds it
    has removed all of them, and when the filters are wrong or listing fails, none. *)
Theorem remote_rm_exact `{UrlText} service cfg decode name cids statuses Ls args force D r deleted :
  remote_rm_Run service cfg decode name cids statuses Ls args force D = (r, deleted) ->
  (length deleted <= 1 \/ force = true)%nat /\
  (deleted <> [] \/ r = None ->
   exists c pins, args = [] /\ getRemotePinServiceFromRequest service cfg = Ok c /\
     lsRemote decode name cids statuses (Ls c) = Ok (pins, None) /\
     deleted `prefix_of` (RequestId <$> pins) /\ Forall (fun i => D c i = None) deleted /\
     (r = None -> deleted = RequestId <$> pins)).
Proof.
  unfold remote_rm_Run. destruct (getRemotePinServiceFromRequest service cfg) as [c|e]; [|intros [= <- <-]; split; [cbn; lia|by intros [?|?]]].
  unfold remote_rm. destruct args as [|arg args]; [|intros [= <- <-]; split; [cbn; lia|by intros [?|?]]].
  destruct (lsRemote decode name cids statuses (Ls c)) as [[pins [e|]]|e] eqn:El; [intros [= <- <-]; split; [cbn; lia|by intros [?|?]]| |intros [= <- <-]; split; [cbn; lia|by intros [?|?]]].
  destruct ((1 <? Z.of_nat (length (RequestId <$> pins))) && negb force) eqn:Eg; [intros [= <- <-]; split; [cbn; lia|by intros [?|?]]|].
  intros E. apply delete_ids_spec in E as (dn & H1 & -> & H2 & H3). cbn [app]. split.
  - destruct force; [by right|left]. rewrite andb_true_r in Eg. apply Z.ltb_ge in Eg. apply prefix_length in H1. lia.
  - intros _. exists c, pins. by split_and!.
Qed.

(** the list of services does not reveal keys: services with the same endpoints
    are listed the same, in the order of their names, whatever their keys are and in
    whatever order the maps are ranged over. *)
Theorem service_ls_conceals `{UrlText} count order1 order2 m1 m2 :
  (forall m, order1 m ≡ₚ map_to_list m) -> (forall m, order2 m ≡ₚ map_to_list m) -> Endpoint <$> m1 = Endpoint <$> m2 ->
  service_ls count order1 false (Some m1) = service_ls count order2 false (Some m2) /\
  StronglySorted by_service (service_ls count order1 false (Some m1)).
Proof.
  intros H1 H2 He. unfold service_ls. cbn iota.
  set (f := fun x : string * RemotePinningService => let '(svcName, svc) := x in MkDetails svcName (Endpoint svc) None).
  assert (Htr : Transitive by_service) by (intros a b c; apply string_leb_trans).
  assert (Htot : Total by_service) by (intros a b; unfold by_service, string_le; destruct (String.leb_total (Service a) (Service b)); auto).
  assert (Hperm : forall o (m : gmap string RemotePinningService), o m ≡ₚ map_to_list m -> f <$> o m ≡ₚ (fun x => MkDetails x.1 x.2 None) <$> map_to_list (Endpoint <$> m)).
  { intros o m ->. rewrite map_to_list_fmap, <- list_fmap_compose. erewrite list_fmap_ext; [done|]. by intros i [n s] _. }
  assert (Hp : merge_sort by_service (f <$> order1 m1) ≡ₚ merge_sort by_service (f <$> order2 m2)).
  { rewrite !merge_sort_Permutation, (Hperm order1 m1 (H1 m1)), (Hperm order2 m2 (H2 m2)). by rewrite He. }
  split; [|by apply StronglySorted_merge_sort; [apply _|]].
  eapply (StronglySorted_unique_strong by_service); [|by apply StronglySorted_merge_sort..|exact Hp].
  intros x y Hx Hy Hxy Hyx. assert (Es : Service x = Service y) by (by apply String.leb_antisym).
  rewrite merge_sort_Permutation, (Hperm order1 m1 (H1 m1)) in Hx. rewrite merge_sort_Permutation, (Hperm order2 m2 (H2 m2)), <- He in Hy.
  apply list_elem_of_fmap in Hx as ([n1 e1] & -> & Hx), Hy as ([n2 e2] & -> & Hy). cbn in Es. subst n2.
  apply elem_of_map_to_list in Hx, Hy. congruence.
Qed.

(** *** Endpoints that are stored and used *)

Lemma string_snoc s : s <> "" -> exists a c, s = a +:+ String c "".
Proof.
  induction s as [|c s IH]; [done|]. intros _. destruct s as [|d s]; [by exists "", c|]. destruct IH as (a & e & E); [done|].
  exists (String c a), e. rewrite string_app_cons. by rewrite <- E.
Qed.

Lemma HasSuffix_char a c d : HasSuffix (a +:+ String c "") (String d "") = Ascii.eqb c d.
Proof.
  unfold HasSuffix. rewrite string_app_length. cbn [String.length]. rewrite Nat.add_sub, substring_skip.
  replace (1 <=? String.length a + 1)%nat with true by (symmetry; apply Nat.leb_le; lia). cbn. by destruct (Ascii.eqb c d).
Qed.

Lemma TrimSuffix_other a c d : c <> d -> TrimSuffix (a +:+ String c "") (String d "") = a +:+ String c "".
Proof. intros Hne. unfold TrimSuffix. rewrite HasSuffix_char. by apply Ascii.eqb_neq in Hne as ->. Qed.

Lemma ends_in_slash_snoc a c : ends_in_slash (a +:+ String c "") = Ascii.eqb c slash.
Proof. by rewrite ends_in_slash_suffix. Qed.

(** A path that does not end in a dot is normalised once and for all. *)
Lemma normalize_path_stable p :
  p = "" \/ IsAbs p = true -> HasSuffix (Clean p) "." = false \/ p = "" ->
  let q := normalize_path p in (q = "" \/ IsAbs q = true) /\ normalize_path q = q.
Proof.
  intros [-> |Ha] Hdot; [cbn zeta; split; [by left|by vm_compute]|]. destruct Hdot as [Hdot| ->]; [|done]. cbn zeta.
  destruct (Clean_rooted p Ha) as (l & Hl & Ec). rewrite Ec in Hdot. destruct l as [|e l].
  { assert (Hq : normalize_path p = "") by (unfold normalize_path; rewrite Ec; by vm_compute). rewrite Hq. split; [by left|by vm_compute]. }
  assert (Hid : TrimSuffix (TrimSuffix (rooted (e :: l)) ".") "/" = rooted (e :: l)).
  { destruct (string_snoc (rooted (e :: l))) as (a & c & E); [done|]. pose proof (rooted_ends (e :: l) Hl) as Hs. rewrite E in *. rewrite ends_in_slash_snoc in Hs.
    rewrite HasSuffix_char in Hdot. apply Ascii.eqb_neq in Hdot. rewrite bool_decide_eq_false_2 in Hs by done. apply Ascii.eqb_neq in Hs.
    by rewrite !TrimSuffix_other. }
  assert (Hq : normalize_path p = rooted (e :: l)) by (unfold normalize_path; by rewrite Ec).
  rewrite Hq. split; [by right|]. unfold normalize_path. rewrite (proj1 (Clean_of_rooted _ Hl)). exact Hid.
Qed.

Section Endpoints.
Context `{UrlText}.
(** What a URL without a query prints as, with any absolute path, is parsed again. *)
Hypothesis url_law : forall s u p, ParseRequestURI s = Ok u -> RawQuery u = "" -> p = "" \/ IsAbs p = true ->
  ParseRequestURI (url_String (MkURL (Scheme u) (Host u) p "")) = Ok (MkURL (Scheme u) (Host u) p "").

(** a service that was added is used with the endpoint and the key it was added
    with, when the path of its URL does not end in a dot. *)
Theorem service_add_then_use SetConfig name arg key u cfg cfg' :
  (forall new old, SetConfig new old = (None, new)) ->
  ParseRequestURI arg = Ok u -> Path u = "" \/ IsAbs (Path u) = true -> HasSuffix (Clean (Path u)) "." = false \/ Path u = "" ->
  service_add SetConfig [name; arg; key] cfg = (None, cfg') ->
  exists endpoint, normalizeEndpoint arg = Ok endpoint /\ getRemotePinServiceInfo name cfg' = Ok (endpoint, key).
Proof.
  intros Hset Hu Hp Hd. unfold service_add. destruct (normalizeEndpoint arg) as [endpoint|] eqn:En; [|done].
  assert (Hagain : normalizeEndpoint endpoint = Ok endpoint).
  { unfold normalizeEndpoint in En. rewrite Hu in En. destruct (negb _) eqn:Es; [done|]. cbn [RawQuery Path Scheme Host] in En.
    destruct (String.eqb_spec (RawQuery u) "") as [Eq|]; [|done]. cbn [negb] in En. destruct (HasSuffix (normalize_path (Path u)) "/pins") eqn:Ep; [done|].
    injection En as <-. destruct (normalize_path_stable (Path u) Hp Hd) as [Habs Hid]. unfold normalizeEndpoint. rewrite Eq, (url_law arg u _ Hu Eq Habs).
    cbn [RawQuery Path Scheme Host]. rewrite Es, Hid, Ep. done. }
  intros E. exists endpoint. split; [done|].
  destruct cfg as [m|]; [destruct (m !! name); [done|]|]; rewrite Hset in E; injection E as <-; cbn [getRemotePinServiceInfo];
    rewrite ?lookup_insert_eq, ?lookup_singleton_eq; cbn [Endpoint Key]; by rewrite Hagain.
Qed.

(** a path that ends in dots loses one when the service is added and another
    whenever it is used: the endpoint that is used is not the one that is stored. *)
Theorem service_endpoint_loses_dots s u :
  ParseRequestURI s = Ok u -> RawQuery u = "" -> Scheme u = "https" ->
  let at_path p := url_String (MkURL (Scheme u) (Host u) p "") in
  normalizeEndpoint (at_path "/v1..") = Ok (at_path "/v1.") /\ normalizeEndpoint (at_path "/v1.") = Ok (at_path "/v1").
Proof.
  intros Hs Hq Hh. cbn zeta. unfold normalizeEndpoint. rewrite !(url_law s u _ Hs Hq) by (by right). cbn [Scheme Path RawQuery Host]. by rewrite Hh.
Qed.
End Endpoints.

(** ** Witnesses *)
Module DemoRemote.

(** URLs of one host. *)
#[local] Instance urls : UrlText := {|
  ParseRequestURI s := if HasPrefix s "https://x" then Ok (MkURL "https" "x" (TrimPrefix s "https://x") "") else Err "invalid URI";
  url_String u := Scheme u +:+ "://" +:+ Host u +:+ Path u;
|}.

Definition st (s : string) : PinStatus := MkPinStatus "r1" s "Qm" "n".

Definition one_service : services := Some {[ "s" := MkService "https://x" "k" ]}.
Abbreviation demo_rm := (remote_rm_Run (Some "s") one_service Ok None None (Some ["pinned"]) (fun _ _ => ([st "pinned"], None)) [] false (fun _ _ => None)).

Lemma remote_rm_exact_witness :
  (length demo_rm.2 <= 1 \/ false = true)%nat /\
  (demo_rm.2 <> [] \/ demo_rm.1 = None ->
   exists c pins, ([] : list string) = [] /\ getRemotePinServiceFromRequest (Some "s") one_service = Ok c /\
     lsRemote Ok None None (Some ["pinned"]) (fun _ => ([st "pinned"], None)) = Ok (pins, None) /\
     demo_rm.2 `prefix_of` (RequestId <$> pins) /\ Forall (fun _ => (None : option error) = None) demo_rm.2 /\
     (demo_rm.1 = None -> demo_rm.2 = RequestId <$> pins)).
Proof.
  apply (remote_rm_exact (Some "s") one_service Ok None None (Some ["pinned"]) (fun _ _ => ([st "pinned"], None)) [] false (fun _ _ => None)).
  apply surjective_pairing.
Defined.

Lemma demo_rm_deletes : demo_rm = (None, ["r1"]).
Proof. vm_compute. reflexivity. Qed.

Lemma demo_url_law s u p : ParseRequestURI s = Ok u -> RawQuery u = "" -> p = "" \/ IsAbs p = true ->
  ParseRequestURI (url_String (MkURL (Scheme u) (Host u) p "")) = Ok (MkURL (Scheme u) (Host u) p "").
Proof.
  cbn. destruct (HasPrefix s "https://x"); [|done]. intros [= <-] _ _. cbn [Scheme Host].
  change ((if HasPrefix ("https://x" +:+ p) "https://x" then Ok (MkURL "https" "x" (TrimPrefix ("https://x" +:+ p) "https://x") "") else Err "invalid URI")
    = Ok (MkURL "https" "x" p "")). unfold HasPrefix. by rewrite prefix_app, TrimPrefix_app.
Qed.

Lemma service_add_then_use_witness :
  exists endpoint, normalizeEndpoint "https://x//api/" = Ok endpoint /\
    getRemotePinServiceInfo "s" (service_add (fun new _ => (None, new)) ["s"; "https://x//api/"; "k"] None).2 = Ok (endpoint, "k").
Proof.
  apply (service_add_then_use demo_url_law (fun new _ => (None, new)) "s" "https://x//api/" "k" (MkURL "https" "x" "//api/" "") None);
    [done|reflexivity|by right|by left|vm_compute; reflexivity].
Defined.

Lemma service_endpoint_loses_dots_witness :
  normalizeEndpoint "https://x/v1.." = Ok "https://x/v1." /\ normalizeEndpoint "https://x/v1." = Ok "https://x/v1".
Proof. apply (service_endpoint_loses_dots demo_url_law "https://x" (MkURL "https" "x" "" "")); reflexivity. Defined.

Definition secret (k : string) : gmap string RemotePinningService := {[ "a" := MkService "https://x" k; "b" := MkService "https://x/y" (k +:+ k) ]}.

Lemma service_ls_conceals_witness :
  service_ls (fun _ _ => Err "offline") map_to_list false (Some (secret "k1")) = service_ls (fun _ _ => Err "offline") (fun m => reverse (map_to_list m)) false (Some (secret "k2")) /\
  StronglySorted by_service (service_ls (fun _ _ => Err "offline") map_to_list false (Some (secret "k1"))).
Proof.
  apply (service_ls_conceals (fun _ _ => Err "offline") map_to_list (fun m => reverse (map_to_list m)) (secret "k1") (secret "k2")).
  - done.
  - intros m. apply reverse_Permutation.
  - vm_compute. reflexivity.
Defined.
End DemoRemote.
