(* ===== verification/Swarm.v ===== *)
(** The swarm: [core/coreapi/swarm.go] and the swarm commands of
    [core/commands/swarm.go] on addresses, connections, filters and peering (over the
    service of [Peering.v]); those on limits are in [Rcmgr.v].

    The network is its connections and the peers it knows; [ma.Filters] is
    [AddrFilters].  Addresses are those of [BootstrapCmd.v]. *)
From Stdlib Require Import ZArith Lia Ascii String Sorted.
From stdpp Require Import base strings gmap list sorting.
From S2P Require Import Prelude GoStrings GoPath Gateway BootstrapCmd.
From S2P Require Peering.

Local Open Scope Z_scope.

Definition ErrOffline : error := "this action must be run in online mode, try running 'ipfs daemon' first".
Definition ErrNotConnected : error := "not connected".
Definition ErrConnNotFound : error := "conn not found".
Definition ErrInvalidAddr : error := "invalid p2p multiaddr".
Definition ErrNotOnline : error := "this command must be run in online mode. Try running 'ipfs daemon' first".

(** ** The API *)

Inductive direction := DirUnknown | DirInbound | DirOutbound.

Section Api.
Context `{P2pAddrs}.

Record conn := MkConn { remotePeer : string; remoteAddr : Maddr; dir : direction; latency : Z; protocols : list string; close_err : option error }.

(** The host: open connections, peers whose back-off was cleared, tags. *)
Record host := MkHost { conns : list conn; cleared : list string; tags : list (string * string * Z) }.

Definition connectionManagerTag : string := "user-connect".
Definition connectionManagerWeight : Z := 100.

(** [dial] is what connecting does. *)
Definition Connect (dial : string * list Maddr -> host -> option error * host) (pi : string * list Maddr) (h : option host) : option error * option host :=
  match h with
  | None => (Some ErrOffline, h)
  | Some h =>
      let h := MkHost (conns h) (cleared h ++ [pi.1]) (tags h) in
      match dial pi h with
      | (Some e, h) => (Some e, Some h)
      | (None, h) => (None, Some (MkHost (conns h) (cleared h) (tags h ++ [(pi.1, connectionManagerTag, connectionManagerWeight)])))
      end
  end.

(** Closing a connection removes it, unless it fails. *)
Fixpoint close_first (p : conn -> bool) (cs : list conn) : option (option error * list conn) :=
  match cs with
  | [] => None
  | c :: cs =>
      if p c then Some (match close_err c with Some e => (Some e, c :: cs) | None => (None, cs) end)
      else match close_first p cs with Some (e, cs') => Some (e, c :: cs') | None => None end
  end.

(** [close_peer] is what [ClosePeer] gives. *)
Definition Disconnect (close_peer : string -> list conn -> option error * list conn) (addr : Maddr) (h : option host) : option error * option host :=
  match h with
  | None => (Some ErrOffline, h)
  | Some h =>
      match SplitAddr addr with
      | (_, None) => (Some ErrInvalidAddr, Some h)
      | (None, Some id) =>
          if bool_decide (Exists (fun c => remotePeer c = id) (conns h)) then
            let '(e, cs) := close_peer id (conns h) in (e, Some (MkHost cs (cleared h) (tags h)))
          else (Some ErrNotConnected, Some h)
      | (Some taddr, Some id) =>
          match close_first (fun c => bool_decide (remotePeer c = id /\ remoteAddr c = taddr)) (conns h) with
          | Some (e, cs) => (e, Some (MkHost cs (cleared h) (tags h)))
          | None => (Some ErrConnNotFound, Some h)
          end
      end
  end.

Definition Peers (h : option host) : result (list conn) := match h with None => Err ErrOffline | Some h => Ok (conns h) end.

(** ** [ipfs swarm peers] *)

Record connInfo := MkConnInfo { ci_Addr : string; ci_Peer : string; ci_Latency : string; ci_Direction : direction; ci_Streams : list string }.

Definition by_addr (a b : connInfo) : Prop := string_le (ci_Addr a) (ci_Addr b).
#[global] Instance by_addr_dec a b : Decision (by_addr a b) := _.

(** [duration] prints a latency. *)
Definition conn_info (duration : Z -> string) (verbose latency_ streams direction_ : bool) (c : conn) : connInfo :=
  MkConnInfo (Text (remoteAddr c)) (remotePeer c)
    (if verbose || latency_ then (if latency c =? 0 then "n/a" else duration (latency c)) else "")
    (if verbose || direction_ then dir c else DirUnknown)
    (merge_sort string_le (if verbose || streams then protocols c else [])).

Definition swarm_peers (duration : Z -> string) (verbose latency_ streams direction_ : bool) (h : option host) : result (list connInfo) :=
  match Peers h with
  | Err e => Err e
  | Ok cs => Ok (merge_sort by_addr (conn_info duration verbose latency_ streams direction_ <$> cs))
  end.

Definition directionString (d : direction) : string :=
  match d with DirInbound => "inbound" | DirOutbound => "outbound" | DirUnknown => "" end.

(** The text of one connection. *)
Definition conn_text (info : connInfo) : string :=
  let newline := String "010" "" in
  ci_Addr info +:+ "/p2p/" +:+ ci_Peer info +:+
  (if String.eqb (ci_Latency info) "" then "" else " " +:+ ci_Latency info) +:+
  (match ci_Direction info with DirUnknown => "" | d => " " +:+ directionString d end) +:+ newline +:+
  String.concat "" ((fun s => "  " +:+ (if String.eqb s "" then "<no protocol name>" else s) +:+ newline) <$> ci_Streams info).

(** ** Addresses given to [connect] and [disconnect] *)

(** The first loop of [resolveAddresses]: the addresses that end in a peer, and those
    that are looked up. *)
Fixpoint split_addresses (addrs : list string) : result (list Maddr * list Maddr) :=
  match addrs with
  | [] => Ok ([], [])
  | addr :: addrs =>
      match Parse addr with
      | Err e => Err e
      | Ok maddr =>
          match split_addresses addrs with
          | Err e => Err e
          | Ok (done, pending) => match (SplitAddr maddr).2 with Some _ => Ok (maddr :: done, pending) | None => Ok (done, maddr :: pending) end
          end
      end
  end.

(** What a lookup sends: the addresses that end in a peer, or an error. *)
Definition lookup_addr (Resolve : Maddr -> result (list Maddr)) (maddr : Maddr) : result (list Maddr) :=
  match Resolve maddr with
  | Err e => Err e
  | Ok raddrs =>
      match filter (fun a => is_Some (SplitAddr a).2) raddrs with
      | [] => Err ("found no ipfs peers at " +:+ Text maddr)
      | l => Ok l
      end
  end.

(** [arrival] is the order in which the lookups' addresses arrive and [sent] that of
    their errors, the first of which is returned. *)
Definition resolveAddresses (Resolve : Maddr -> result (list Maddr)) (arrival : list Maddr -> list Maddr) (sent : list error -> list error) (addrs : list string) : result (list Maddr) :=
  match split_addresses addrs with
  | Err e => Err e
  | Ok (maddrs, pending) =>
      let results := lookup_addr Resolve <$> pending in
      match sent (omap (fun r => match r with Err e => Some e | Ok _ => None end) results) with
      | e :: _ => Err e
      | [] => Ok (maddrs ++ arrival (concat (omap (fun r => match r with Ok l => Some l | Err _ => None end) results)))
      end
  end.

Definition parseAddresses Resolve arrival sent (addrs : list string) : result (list (string * list Maddr)) :=
  match resolveAddresses Resolve arrival sent addrs with Err e => Err e | Ok maddrs => Infos maddrs end.

(** [swarmConnectCmd.Run] after parsing: it stops at the first failure. *)
Fixpoint connect_all dial (pis : list (string * list Maddr)) (output : list string) (h : option host) : result (list string) * option host :=
  match pis with
  | [] => (Ok output, h)
  | pi :: pis =>
      let out := "connect " +:+ pi.1 in
      match Connect dial pi h with
      | (Some e, h) => (Err (out +:+ " failure: " +:+ e), h)
      | (None, h) => connect_all dial pis (output ++ [out +:+ " success"]) h
      end
  end.

(** [swarmDisconnectCmd.Run] after parsing: every address is tried. *)
Fixpoint disconnect_all close_peer (addrs : list (string * Maddr)) (output : list string) (h : option host) : list string * option host :=
  match addrs with
  | [] => (output, h)
  | (id, addr) :: addrs =>
      let '(e, h) := Disconnect close_peer addr h in
      disconnect_all close_peer addrs
        (output ++ ["disconnect " +:+ id +:+ match e with Some e => " failure: " +:+ e | None => " success" end]) h
  end.

Definition swarm_disconnect close_peer (infos : list (string * list Maddr)) (h : option host) : list string * option host :=
  disconnect_all close_peer (ai ← infos; (fun a => (ai.1, a)) <$> AddrInfoToP2pAddrs ai) [] h.
End Api.

(** ** Filters *)

(** [ma.Filters]: the denied masks. *)
Class AddrFilters := {
  Filters : Type;
  NewMask : string -> result string;
  AddFilter : string -> Filters -> Filters;
  RemoveLiteral : string -> Filters -> Filters;
  denied : Filters -> gset string;
  AddFilter_denied m f : denied (AddFilter m f) = {[ m ]} ∪ denied f;
  RemoveLiteral_denied m f : denied (RemoveLiteral m f) = denied f ∖ {[ m ]};
}.

Section FilterCommands.
Context `{AddrFilters} (SetConfig : list string -> option error).

(** The two loops of [filtersAdd]. *)
Fixpoint add_new (filters : list string) (added : gset string) : list string * gset string :=
  match filters with
  | [] => ([], added)
  | f :: filters =>
      if decide (f ∈ added) then add_new filters added
      else let '(l, added) := add_new filters ({[ f ]} ∪ added) in (f :: l, added)
  end.

(** The configuration is edited in place before it is saved. *)
Definition filtersAdd (oldFilters filters : list string) : result (list string) * list string :=
  let '(addedList, addedMap) := add_new filters ∅ in
  let '(back, _) := add_new oldFilters addedMap in
  let cfg := addedList ++ back in
  (match SetConfig cfg with Some e => Err e | None => Ok addedList end, cfg).

Definition filtersRemoveAll (oldFilters : list string) : result (list string) * list string :=
  (match SetConfig [] with Some e => Err e | None => Ok oldFilters end, []).

Definition filtersRemove (oldFilters toRemove : list string) : result (list string) * list string :=
  let removed := filter (fun f => f ∈ toRemove) oldFilters in
  let keep := filter (fun f => f ∉ toRemove) oldFilters in
  (match SetConfig keep with Some e => Err e | None => Ok removed end, keep).

(** The loops over the masks of the arguments. *)
Fixpoint apply_masks (change : string -> Filters -> Filters) (args : list string) (f : Filters) : option error * Filters :=
  match args with
  | [] => (None, f)
  | arg :: args =>
      match NewMask arg with
      | Err e => (Some e, f)
      | Ok mask => apply_masks change args (change mask f)
      end
  end.

(** The commands on the configuration [cfg] of the repository they have opened: the
    result, the filters in force, and the configuration after. *)
Definition filters_add (online : bool) (args cfg : list string) (f : Filters) : result (list string) * Filters * list string :=
  if negb online then (Err ErrNotOnline, f, cfg)
  else match args with
  | [] => (Err "no filters to add", f, cfg)
  | _ =>
      match apply_masks AddFilter args f with
      | (Some e, f) => (Err e, f, cfg)
      | (None, f) => let '(r, cfg) := filtersAdd cfg args in (r, f, cfg)
      end
  end.

(** [literals] lists the denied masks. *)
Definition filters_rm (literals : Filters -> list string) (online : bool) (args cfg : list string) (f : Filters) : result (list string) * Filters * list string :=
  if negb online then (Err ErrNotOnline, f, cfg)
  else match args with
  | [] => (Err "index out of range", f, cfg)
  | arg :: _ =>
      if String.eqb arg "all" || String.eqb arg "*" then
        let f := foldl (fun f m => RemoveLiteral m f) f (literals f) in
        let '(r, cfg) := filtersRemoveAll cfg in (r, f, cfg)
      else
        match apply_masks RemoveLiteral args f with
        | (Some e, f) => (Err e, f, cfg)
        | (None, f) => let '(r, cfg) := filtersRemove cfg args in (r, f, cfg)
        end
  end.
End FilterCommands.

(** ** Lemmas *)

Lemma masks_new_spec l seen :
  let '(out, seen') := add_new l seen in
  NoDup out /\ (forall x, x ∈ out <-> x ∈ l /\ (x ∉ seen)) /\ seen' = list_to_set out ∪ seen.
Proof.
  revert seen. induction l as [|f l IH]; intros seen; cbn [add_new]; [split_and!; [constructor|set_solver|set_solver]|].
  destruct (decide (f ∈ seen)) as [Hf|Hf].
  - specialize (IH seen). destruct (add_new l seen) as [out seen']. destruct IH as (H1 & H2 & H3). split_and!; [done| |done]. intros x. rewrite H2. set_solver.
  - specialize (IH ({[ f ]} ∪ seen)). destruct (add_new l ({[ f ]} ∪ seen)) as [out seen']. destruct IH as (H1 & H2 & ->). split_and!.
    + constructor; [rewrite H2; set_solver|done].
    + intros x. rewrite elem_of_cons, H2. destruct (decide (x = f)); set_solver.
    + set_solver.
Qed.

Lemma filter_keeps_all (P : string -> Prop) `{!forall x, Decision (P x)} l : Forall P l -> filter P l = l.
Proof. induction 1 as [|x l Hx _ IH]; [done|]. by rewrite filter_cons, decide_True, IH. Qed.
Lemma filter_keeps_none (P : string -> Prop) `{!forall x, Decision (P x)} l : Forall (fun x => ~ P x) l -> filter P l = [].
Proof. induction 1 as [|x l Hx _ IH]; [done|]. by rewrite filter_cons, decide_False. Qed.

(** ** Theorems *)

Section FilterTheorems.
Context `{AddrFilters}.

Lemma apply_masks_add args f :
  (apply_masks AddFilter args f).1 = None ->
  exists masks, Forall2 (fun a m => NewMask a = Ok m) args masks /\ denied (apply_masks AddFilter args f).2 = list_to_set masks ∪ denied f.
Proof.
  revert f. induction args as [|a args IH]; intros f; cbn [apply_masks]; [intros _; exists []; split; [constructor|set_solver]|].
  destruct (NewMask a) as [m|] eqn:E; [|done]. intros Hn. destruct (IH _ Hn) as (ms & H1 & H2). exists (m :: ms). split; [by constructor|].
  rewrite H2, AddFilter_denied. set_solver.
Qed.

Lemma apply_masks_rm args f :
  (apply_masks RemoveLiteral args f).1 = None ->
  exists masks, Forall2 (fun a m => NewMask a = Ok m) args masks /\ denied (apply_masks RemoveLiteral args f).2 = denied f ∖ list_to_set masks.
Proof.
  revert f. induction args as [|a args IH]; intros f; cbn [apply_masks]; [intros _; exists []; split; [constructor|set_solver]|].
  destruct (NewMask a) as [m|] eqn:E; [|done]. intros Hn. destruct (IH _ Hn) as (ms & H1 & H2). exists (m :: ms). split; [by constructor|].
  rewrite H2, RemoveLiteral_denied. set_solver.
Qed.

(** a filter that was added is in force and in the configuration, and one that was
    removed is in neither: adding puts the distinct new filters before the old ones
    that are not among them and denies their masks besides those already denied;
    removing takes exactly the named ones out of both. *)
Theorem swarm_filters_exact SetConfig cfg args f r f' cfg' :
  filters_add SetConfig true args cfg f = (Ok r, f', cfg') ->
  exists masks old, Forall2 (fun a m => NewMask a = Ok m) args masks /\ denied f' = list_to_set masks ∪ denied f /\
    cfg' = r ++ old /\ NoDup cfg' /\ (forall x, x ∈ r <-> x ∈ args) /\ (forall x, x ∈ old <-> x ∈ cfg /\ (x ∉ args)) /\ SetConfig cfg' = None /\
    forall literals rm f2 cfg2, filters_rm SetConfig literals true args cfg' f' = (Ok rm, f2, cfg2) -> args <> [] -> head args <> Some "all" -> head args <> Some "*" ->
      denied f2 = denied f ∖ list_to_set masks /\ cfg2 = old.
Proof.
  unfold filters_add. cbn [negb]. destruct args as [|a0 args0]; [done|]. set (args := a0 :: args0).
  pose proof (apply_masks_add args f) as Hm. destruct (apply_masks AddFilter args f) as [[e|] f1]; [done|]. destruct (Hm eq_refl) as (masks & HM & Hd). cbn in Hd.
  unfold filtersAdd. pose proof (masks_new_spec args ∅) as Hn. destruct (add_new args ∅) as [new seen]. destruct Hn as (N1 & N2 & ->).
  pose proof (masks_new_spec cfg (list_to_set new ∪ ∅)) as Ho. destruct (add_new cfg (list_to_set new ∪ ∅)) as [old seen2]. destruct Ho as (O1 & O2 & _).
  destruct (SetConfig (new ++ old)) eqn:Es; [done|]. intros [= <- <- <-].
  assert (Hnew : forall x, x ∈ new <-> x ∈ args) by (intros x; rewrite N2; set_solver).
  assert (Hold : forall x, x ∈ old <-> x ∈ cfg /\ (x ∉ args)) by (intros x; rewrite O2; set_solver).
  exists masks, old. split_and!; try done.
  - apply NoDup_app. split_and!; [done| |done]. intros x Hx Hx'. apply Hnew in Hx. apply Hold in Hx' as [_ Hx']. done.
  - intros literals rm f2 cfg2. unfold filters_rm. cbn [negb]. intros Erm _ Ha Hs.
    assert (String.eqb a0 "all" || String.eqb a0 "*" = false) as Hall.
    { apply orb_false_iff. split; apply String.eqb_neq; intros ->; [by apply Ha|by apply Hs]. }
    unfold args in Erm at 1. rewrite Hall in Erm. change (a0 :: args0) with args in Erm.
    pose proof (apply_masks_rm args f1) as Hr. destruct (apply_masks RemoveLiteral args f1) as [[e|] f3]; [done|].
    destruct (Hr eq_refl) as (masks' & HM' & Hd'). cbn in Hd'. assert (masks' = masks) as ->.
    { clear -HM HM'. revert masks' HM'. induction HM as [|a m l ms E _ IH]; intros masks' HM'; inversion HM' as [|? m' ? ms' E' HM'' ]; subst; [done|].
      f_equal; [congruence|by apply IH]. }
    unfold filtersRemove in Erm. destruct (SetConfig _); [done|]. injection Erm as _ <- <-. split; [rewrite Hd', Hd; set_solver|].
    rewrite filter_app. rewrite (filter_keeps_none _ new), (filter_keeps_all _ old); [done|..].
    + apply Forall_forall. intros x Hx. by apply Hold in Hx as [_ Hx].
    + apply Forall_forall. intros x Hx Hn. by apply Hnew in Hx.
Qed.

(** the masks are denied one by one before anything is saved: an argument that is
    not a mask makes the command fail with the masks before it in force and the
    configuration as it was. *)
Theorem filters_add_partial SetConfig cfg a m bad rest e f :
  NewMask a = Ok m -> NewMask bad = Err e ->
  filters_add SetConfig true (a :: bad :: rest) cfg f = (Err e, AddFilter m f, cfg) /\ m ∈ denied (AddFilter m f).
Proof. intros Ha Hb. unfold filters_add. cbn [negb apply_masks]. rewrite Ha, Hb. split; [done|]. rewrite AddFilter_denied. set_solver. Qed.
End FilterTheorems.

Section NetworkTheorems.
Context `{P2pAddrs}.

(** the peers listed are the open connections, each once, in the order of their
    addresses, and the streams of each in the order of their protocols. *)
Theorem swarm_peers_exact duration v l s d h :
  exists out, swarm_peers duration v l s d (Some h) = Ok out /\
    out ≡ₚ (conn_info duration v l s d <$> conns h) /\ StronglySorted by_addr out /\
    Forall (fun ci => StronglySorted string_le (ci_Streams ci)) out.
Proof.
  assert (Htr : Transitive string_le) by (intros a b c; apply string_leb_trans).
  assert (Htot : Total string_le) by (intros a b; unfold string_le; destruct (String.leb_total a b); auto).
  assert (Htr' : Transitive by_addr) by (intros a b c; apply string_leb_trans).
  assert (Htot' : Total by_addr) by (intros a b; unfold by_addr; apply Htot).
  eexists. split; [done|]. split_and!.
  - apply merge_sort_Permutation.
  - by apply StronglySorted_merge_sort.
  - rewrite merge_sort_Permutation. apply Forall_fmap, Forall_forall. intros c _. cbn. by apply StronglySorted_merge_sort.
Qed.

(** the addresses found for the arguments all name a peer; each argument that does
    is among them, every other one has contributed at least one, and one that
    cannot be resolved makes the whole fail. *)
Theorem resolve_addresses_sound Resolve arrival sent addrs out :
  (forall l, arrival l ≡ₚ l) -> (forall l, sent l ≡ₚ l) -> resolveAddresses Resolve arrival sent addrs = Ok out ->
  Forall (fun a => is_Some (SplitAddr a).2) out /\
  Forall (fun s => exists m, Parse s = Ok m /\ (m ∈ out \/ exists l a, Resolve m = Ok l /\ a ∈ l /\ a ∈ out)) addrs.
Proof.
  intros Harr Hsent. unfold resolveAddresses.
  assert (Hsplit : forall l dn pd, split_addresses l = Ok (dn, pd) ->
    Forall (fun a => is_Some (SplitAddr a).2) dn /\ Forall (fun s => exists m, Parse s = Ok m /\ (m ∈ dn \/ m ∈ pd)) l).
  { induction l as [|s l IH]; intros dn pd; cbn [split_addresses]; [intros [= <- <-]; by split; constructor|].
    destruct (Parse s) as [m|] eqn:Ep; [|done]. destruct (split_addresses l) as [[dn0 pd0]|]; [|done]. destruct (IH _ _ eq_refl) as [H1 H2].
    destruct (SplitAddr m).2 as [id|] eqn:Es; intros [= <- <-].
    - split; [constructor; [by rewrite Es|done]|]. constructor; [exists m; split; [done|]; left; apply list_elem_of_here|].
      eapply Forall_impl; [exact H2|]. intros s' (m' & E' & [Hm|Hm]); exists m'; (split; [done|]); [left; by apply list_elem_of_further|by right].
    - split; [done|]. constructor; [exists m; split; [done|]; right; apply list_elem_of_here|].
      eapply Forall_impl; [exact H2|]. intros s' (m' & E' & [Hm|Hm]); exists m'; (split; [done|]); [by left|right; by apply list_elem_of_further]. }
  destruct (split_addresses addrs) as [[dn pd]|] eqn:Es; [|done]. destruct (Hsplit _ _ _ Es) as [H1 H2]. clear Hsplit.
  destruct (sent _) as [|e es] eqn:Eerr; [|done]. intros [= <-].
  assert (Hok : forall m, m ∈ pd -> exists l, lookup_addr Resolve m = Ok l).
  { intros m Hm. destruct (lookup_addr Resolve m) as [l|e] eqn:El; [by exists l|]. exfalso.
    apply (not_elem_of_nil (A := error) e). rewrite <- Eerr, Hsent. apply list_elem_of_omap. exists (Err e). split; [|done]. apply list_elem_of_fmap. by exists m. }
  assert (Hin : forall m l a, m ∈ pd -> lookup_addr Resolve m = Ok l -> a ∈ l ->
    a ∈ arrival (concat (omap (fun r => match r with Ok l => Some l | Err _ => None end) (lookup_addr Resolve <$> pd)))).
  { intros m l a Hm El Ha. rewrite Harr. apply list_elem_of_In, in_concat. exists l. split; apply list_elem_of_In; [|done].
    apply list_elem_of_omap. exists (Ok l). split; [|done]. apply list_elem_of_fmap. by exists m. }
  split.
  - apply Forall_app. split; [done|]. rewrite Harr. apply Forall_forall. intros a (l & Hl & Ha)%list_elem_of_In%in_concat.
    apply list_elem_of_In in Hl, Ha. apply list_elem_of_omap in Hl as ([l'|] & Hl & [= ->]). apply list_elem_of_fmap in Hl as (m & Em & _).
    unfold lookup_addr in Em. destruct (Resolve m) as [raddrs|]; [|done]. destruct (filter _ raddrs) as [|x y] eqn:Ef; [done|]. injection Em as ->.
    rewrite <- Ef in Ha. by apply list_elem_of_filter in Ha as [Ha _].
  - eapply Forall_impl; [exact H2|]. intros s (m & Em & [Hm|Hm]); exists m; (split; [done|]); [left; apply elem_of_app; by left|right].
    destruct (Hok m Hm) as [l El]. pose proof El as El'. unfold lookup_addr in El'. destruct (Resolve m) as [raddrs|] eqn:Er; [|done].
    destruct (filter _ raddrs) as [|x y] eqn:Ef; [done|]. injection El' as <-. exists raddrs, x. split; [done|]. split.
    + assert (Hx : x ∈ filter (fun a => is_Some (SplitAddr a).2) raddrs) by (rewrite Ef; apply list_elem_of_here). by apply list_elem_of_filter in Hx as [_ Hx].
    + apply elem_of_app. right. eapply Hin; [done|exact El|apply list_elem_of_here].
Qed.
End NetworkTheorems.

(** ** Witnesses *)
Module DemoSwarm.

#[local] Instance filters : AddrFilters.
Proof.
  refine {| Filters := gset string; NewMask s := if String.eqb s "" then Err "invalid ip" else Ok ("mask " +:+ s);
            AddFilter m f := {[ m ]} ∪ f; RemoveLiteral m f := f ∖ {[ m ]}; denied f := f |}; done.
Defined.

Lemma swarm_filters_exact_witness :
  exists masks old, Forall2 (fun a m => NewMask a = Ok m) ["x"; "y"; "x"] masks /\
    (filters_add (fun _ => None) true ["x"; "y"; "x"] ["y"; "z"] ∅).2 = ["x"; "y"] ++ old /\ (forall x, x ∈ old <-> x ∈ ["y"; "z"] /\ (x ∉ ["x"; "y"; "x"])).
Proof.
  destruct (swarm_filters_exact (fun _ => None) ["y"; "z"] ["x"; "y"; "x"] ∅ ["x"; "y"] (filters_add (fun _ => None) true ["x"; "y"; "x"] ["y"; "z"] ∅).1.2
    (filters_add (fun _ => None) true ["x"; "y"; "x"] ["y"; "z"] ∅).2) as (masks & old & H1 & _ & H3 & _ & _ & H6 & _); [reflexivity|].
  by exists masks, old.
Defined.

Lemma filters_add_partial_witness : filters_add (fun _ => None) true ["x"; ""; "y"] ["z"] ∅ = (Err "invalid ip", AddFilter "mask x" ∅, ["z"]).
Proof. exact (proj1 (filters_add_partial (fun _ => None) ["z"] "x" "mask x" "" ["y"] "invalid ip" ∅ eq_refl eq_refl)). Defined.

#[local] Existing Instance DemoAddrs.demo_addrs.
(** The name [Tb] resolves to two addresses, one of which names a peer. *)
Definition resolver (m : string) : result (list string) := if String.eqb m "Tb" then Ok ["Tc"; "Txc.J"] else Err "no such host".

Lemma resolve_addresses_sound_witness :
  Forall (fun a => is_Some (SplitAddr a).2) ["Txa.I"; "Txc.J"].
Proof.
  apply (resolve_addresses_sound (H := DemoAddrs.demo_addrs) resolver (fun l => l) (fun l => l) ["Txa.I"; "Tb"] ["Txa.I"; "Txc.J"]); [done..|]. vm_compute. reflexivity.
Defined.
End DemoSwarm.

(** ** The addresses of the node and of its peers *)

Section AddrCommands.
Context `{P2pAddrs}.

Definition text_le (a b : Maddr) : Prop := string_le (Text a) (Text b).
#[local] Instance text_le_dec : RelDecision text_le.
Proof. intros a b. unfold text_le. apply _. Defined.

(** [known] is the peer store: each of its peers with its addresses. *)
Definition KnownAddrs (online : bool) (known : list (string * list Maddr)) : result (gmap string (list Maddr)) :=
  if online then Ok (foldl (fun (m : gmap string (list Maddr)) p => <[p.1 := merge_sort text_le (default [] (m !! p.1) ++ p.2)]> m) ∅ known) else Err ErrOffline.
Definition LocalAddrs (online : bool) (addrs : list Maddr) : result (list Maddr) := if online then Ok addrs else Err ErrOffline.
Definition ListenAddrs (online : bool) (listening : result (list Maddr)) : result (list Maddr) := if online then listening else Err ErrOffline.

(** [swarmAddrsCmd.Run]: a peer without addresses leaves no entry. *)
Definition swarm_addrs (online : bool) (known : list (string * list Maddr)) : result (gmap string (list string)) :=
  match KnownAddrs online known with
  | Err e => Err e
  | Ok m => Ok (omap (fun l => match l with [] => None | l => Some (Text <$> l) end) m)
  end.

Definition addrs_local (online showid : bool) (self : result string) (addrs : list Maddr) : result (list string) :=
  match self with
  | Err e => Err e
  | Ok self =>
      match LocalAddrs online addrs with
      | Err e => Err e
      | Ok l => Ok (merge_sort string_le ((fun a => if showid then path_Join [Text a; "p2p"; self] else Text a) <$> l))
      end
  end.

Definition addrs_listen (online : bool) (listening : result (list Maddr)) : result (list string) :=
  match ListenAddrs online listening with
  | Err e => Err e
  | Ok l => Ok (merge_sort string_le (Text <$> l))
  end.

Lemma KnownAddrs_lookup known (m : gmap string (list Maddr)) p :
  NoDup known.*1 -> (forall q, q ∈ known.*1 -> m !! q = None) ->
  foldl (fun m p => <[p.1 := merge_sort text_le (default [] (m !! p.1) ++ p.2)]> m) m known !! p =
  match (list_to_map known : gmap string (list Maddr)) !! p with Some l => Some (merge_sort text_le l) | None => m !! p end.
Proof.
  revert m. induction known as [| [q l] known IH]; intros m Hnd Hm; cbn [foldl list_to_map foldr fst snd]; [by rewrite lookup_empty |].
  inversion Hnd as [| ? ? Hfresh Hrest]; subst. rewrite IH; [| done |].
  - rewrite (Hm q) by apply list_elem_of_here. cbn [default app]. destruct (decide (p = q)) as [-> | Hne].
    + rewrite (not_elem_of_list_to_map_1 known q) by done. cbn. by rewrite !lookup_insert_eq.
    + cbn. rewrite !lookup_insert_ne by done. done.
  - intros r Hr. rewrite lookup_insert_ne by (intros ->; done). apply Hm. by apply list_elem_of_further.
Qed.

(** [swarm addrs] puts out, for each peer of the store with an address, the texts of its
    addresses in order, and no other peer. *)
Theorem swarm_addrs_exact known p out :
  NoDup known.*1 ->
  (exists m, swarm_addrs true known = Ok m /\ m !! p = Some out) <->
  exists l, (p, l) ∈ known /\ l <> [] /\ out = Text <$> merge_sort text_le l.
Proof.
  intros Hnd. unfold swarm_addrs, KnownAddrs. split.
  - intros (m & [= <-] & Hp). rewrite lookup_omap, KnownAddrs_lookup in Hp; [| done | by intros; apply lookup_empty].
    destruct ((list_to_map known : gmap string (list Maddr)) !! p) as [l |] eqn:Hl; [| by rewrite lookup_empty in Hp].
    apply elem_of_list_to_map_2 in Hl. exists l. cbn in Hp. destruct (merge_sort text_le l) as [| a sorted] eqn:Hs; [done |].
    injection Hp as <-. split_and!; [done | by intros -> | done].
  - intros (l & Hin & Hne & ->). eexists. split; [done |]. rewrite lookup_omap, KnownAddrs_lookup; [| done | by intros; apply lookup_empty].
    rewrite (elem_of_list_to_map_1 known p l) by done. cbn. destruct (merge_sort text_le l) as [| a sorted] eqn:Hs; [| done].
    pose proof (merge_sort_Permutation text_le l) as Hp. rewrite Hs in Hp. by apply Permutation_nil in Hp.
Qed.
End AddrCommands.

(** [swarmFiltersCmd.Run]: the denied networks, as masks are written. *)
Definition filters_ls {Net} (ConvertIPNet : Net -> result string) (online : bool) (nets : list Net) : result (list string) :=
  if negb online then Err ErrNotOnline
  else foldr (fun n acc => match ConvertIPNet n with Err e => Err e | Ok s => match acc with Err e => Err e | Ok l => Ok (s :: l) end end) (Ok []) nets.

(** ** The peering commands *)

(** What the service knows of a peer. *)
Definition peered (p : string) (ps : Peering.PeeringService) : option (list string) :=
  i ← Peering.peers ps !! p; Peering.addrs <$> Peering.handlers ps !! i.

Lemma peered_AddPeer id a ps p :
  Peering.peering_inv ps -> peered p (Peering.AddPeer id a ps) = if decide (p = id) then Some a else peered p ps.
Proof.
  intros I. pose proof (Peering.inv_peers ps I) as Hpeers. unfold Peering.AddPeer, peered.
  destruct (Peering.peers ps !! id) as [i |] eqn:Ei; cbn [Peering.peers Peering.handlers Peering.with_handlers].
  - destruct (Hpeers id i Ei) as (h & Hh & Hhp). case_decide as Hp.
    + subst p. rewrite Ei. cbn [mbind option_bind]. by rewrite lookup_alter_eq, Hh.
    + destruct (Peering.peers ps !! p) as [j |] eqn:Ej; [| done]. cbn [mbind option_bind]. destruct (Hpeers p j Ej) as (h' & Hh' & Hhp').
      rewrite lookup_alter_ne; [done |]. intros ->. congruence.
  - case_decide as Hp.
    + subst p. rewrite lookup_insert_eq. cbn [mbind option_bind]. by rewrite lookup_insert_eq.
    + rewrite lookup_insert_ne by done. destruct (Peering.peers ps !! p) as [j |] eqn:Ej; [| done]. cbn [mbind option_bind].
      destruct (Hpeers p j Ej) as (h' & Hh' & _). rewrite lookup_insert_ne; [done |]. intros <-.
      apply elem_of_dom_2 in Hh'. by apply is_fresh in Hh'.
Qed.

Lemma peered_RemovePeer id ps p :
  Peering.peering_inv ps -> peered p (Peering.RemovePeer id ps) = if decide (p = id) then None else peered p ps.
Proof.
  intros I. pose proof (Peering.inv_peers ps I) as Hpeers. unfold Peering.RemovePeer, peered.
  destruct (Peering.peers ps !! id) as [i |] eqn:Ei; cbn [Peering.peers Peering.handlers].
  - destruct (Hpeers id i Ei) as (h & Hh & Hhp). case_decide as Hp.
    + subst p. by rewrite lookup_delete_eq.
    + rewrite lookup_delete_ne by done. destruct (Peering.peers ps !! p) as [j |] eqn:Ej; [| done]. cbn [mbind option_bind].
      destruct (Hpeers p j Ej) as (h' & Hh' & Hhp'). rewrite lookup_alter_ne; [done |]. intros ->. congruence.
  - case_decide as Hp; [subst p; by rewrite Ei | done].
Qed.

Lemma peered_ListPeers ps p a : Peering.peering_inv ps -> (p, a) ∈ Peering.ListPeers ps <-> peered p ps = Some a.
Proof.
  intros I. unfold Peering.ListPeers, peered. rewrite list_elem_of_fmap. split.
  - intros ([q i] & [= <- ->] & Hin%elem_of_map_to_list). rewrite Hin. destruct (Peering.inv_peers ps I p i Hin) as (h & Hh & _). cbn. by rewrite Hh.
  - intros Hp. destruct (Peering.peers ps !! p) as [i |] eqn:Hi; [| done]. cbn in Hp. exists (p, i). split; [| by apply elem_of_map_to_list].
    by destruct (Peering.handlers ps !! i) as [h |]; [injection Hp as -> |].
Qed.

Section PeeringCommands.
Context `{P2pAddrs} (peer_Decode : string -> result string).

(** The results are the identities put out with [success]. *)
Definition peering_add (online : bool) (args : list string) (ps : Peering.PeeringService) : result (list string) * Peering.PeeringService :=
  match parse_all args with
  | Err e => (Err e, ps)
  | Ok addrs =>
      match Infos addrs with
      | Err e => (Err e, ps)
      | Ok infos =>
          if negb online then (Err ErrNotOnline, ps)
          else (Ok infos.*1, foldl (fun ps info => Peering.AddPeer info.1 (Text <$> info.2) ps) ps infos)
      end
  end.

Definition peering_ls (online : bool) (ps : Peering.PeeringService) : result (list (string * list string)) :=
  if negb online then Err ErrNotOnline else Ok (Peering.ListPeers ps).

(** What was put out, and the error that ended the command. *)
Fixpoint peering_rm_all (args : list string) (ps : Peering.PeeringService) : list string * option error * Peering.PeeringService :=
  match args with
  | [] => ([], None, ps)
  | arg :: args =>
      match peer_Decode arg with
      | Err e => ([], Some e, ps)
      | Ok id => let '(out, err, ps) := peering_rm_all args (Peering.RemovePeer id ps) in (id :: out, err, ps)
      end
  end.
Definition peering_rm (online : bool) (args : list string) (ps : Peering.PeeringService) : list string * option error * Peering.PeeringService :=
  if negb online then ([], Some ErrNotOnline, ps) else peering_rm_all args ps.

Lemma peering_add_all infos ps :
  Peering.peering_inv ps -> NoDup infos.*1 ->
  Peering.peering_inv (foldl (fun ps info => Peering.AddPeer info.1 (Text <$> info.2) ps) ps infos) /\
    forall p a, peered p (foldl (fun ps info => Peering.AddPeer info.1 (Text <$> info.2) ps) ps infos) = Some a <->
    (exists ts, (p, ts) ∈ infos /\ a = Text <$> ts) \/ (~ (p ∈ infos.*1)) /\ peered p ps = Some a.
Proof.
  intros I Hnd. revert ps I. induction infos as [| [q ts] infos IH]; intros ps I; cbn [foldl].
  - split; [done |]. intros p a. split; [intros Hp; right; split; [by intros ?%not_elem_of_nil | done] | by intros [(ts & ?%not_elem_of_nil & _) | [_ Hp]]].
  - inversion Hnd as [| ? ? Hfresh Hrest]; subst. destruct (IH Hrest _ (Peering.AddPeer_inv q (Text <$> ts) ps I)) as [I' Hpeered].
    split; [done |]. intros p a. rewrite Hpeered, peered_AddPeer by done. cbn [fst snd] in *. split.
    + intros [(ts' & Hin & ->) | [Hnin Hp]]; [left; exists ts'; split; [by apply list_elem_of_further | done] |].
      case_decide as Hpq; [injection Hp as <-; subst p; left; exists ts; split; [apply list_elem_of_here | done] |].
      right. split; [| done]. intros [-> | Hin]%elem_of_cons; done.
    + intros [(ts' & [[= -> ->] | Hin]%elem_of_cons & ->) | [Hnin Hp]].
      * right. split; [done |]. by rewrite decide_True.
      * left. by exists ts'.
      * right. split; [intros Hin; apply Hnin; by apply list_elem_of_further |]. rewrite decide_False; [done |]. intros ->. apply Hnin, list_elem_of_here.
Qed.

(** [swarm peering add] changes nothing unless it succeeds; then [swarm peering ls] has the
    peers of the arguments with the addresses given for them, and every other peer as before. *)
Theorem peering_add_exact online args ps r ps' :
  Peering.peering_inv ps -> peering_add online args ps = (r, ps') ->
  Peering.peering_inv ps' /\
  match r with
  | Err _ => ps' = ps
  | Ok ids => online = true /\ NoDup ids /\ exists infos, ParseBootstrapPeers args = Ok infos /\ ids = infos.*1 /\
      forall p a, (p, a) ∈ Peering.ListPeers ps' <-> (exists ts, (p, ts) ∈ infos /\ a = Text <$> ts) \/ (~ (p ∈ ids)) /\ (p, a) ∈ Peering.ListPeers ps
  end.
Proof.
  intros I. unfold peering_add, ParseBootstrapPeers. destruct (parse_all args) as [addrs | e]; [| by intros [= <- <-]].
  destruct (Infos addrs) as [infos | e] eqn:Hinfos; [| by intros [= <- <-]]. destruct online; cbn [negb]; intros [= <- <-]; [| done].
  pose proof (Infos_NoDup _ _ Hinfos) as Hnd. clear Hinfos addrs.
  destruct (peering_add_all infos ps I Hnd) as [I' Hgo]. split_and!; try done. exists infos. split_and!; try done. intros p a. by rewrite !peered_ListPeers.
Qed.

Lemma peering_rm_all_exact args ps out err ps' :
  Peering.peering_inv ps -> peering_rm_all args ps = (out, err, ps') ->
    Peering.peering_inv ps' /\ (forall p a, peered p ps' = Some a <-> (~ (p ∈ out)) /\ peered p ps = Some a) /\
  exists rest, args = (take (length out) args) ++ rest /\ Forall2 (fun a id => peer_Decode a = Ok id) (take (length out) args) out /\
      match err with None => rest = [] | Some e => exists bad rest', rest = bad :: rest' /\ peer_Decode bad = Err e end.
Proof.
  revert ps out err ps'. induction args as [| arg args IH]; intros ps out err ps' I; cbn [peering_rm_all].
  - intros [= <- <- <-]. split_and!; [done | | by exists []; repeat constructor]. intros p a. split; [split; [by intros ?%not_elem_of_nil | done] | by intros []].
  - destruct (peer_Decode arg) as [id | e] eqn:Hdec.
    + destruct (peering_rm_all args (Peering.RemovePeer id ps)) as [[out1 err1] ps1] eqn:Hrec. intros [= <- <- <-].
      destruct (IH _ _ _ _ (Peering.RemovePeer_inv id ps I) Hrec) as (I1 & Hpeered & rest & Hargs & Hdecs & Herr).
      split_and!; [done | |].
      * intros p a. rewrite Hpeered, peered_RemovePeer, elem_of_cons by done. case_decide as Hp; [subst p; naive_solver |]. naive_solver.
      * exists rest. cbn [length take app]. split_and!; [by f_equal | by constructor | done].
    + intros [= <- <- <-]. split_and!; [done | intros p a; split; [split; [by intros ?%not_elem_of_nil | done] | by intros []] |].
      exists (arg :: args). split_and!; [done | constructor | by exists arg, args].
Qed.

(** [swarm peering rm] removes the peers whose identities it puts out, those before the first
    argument that is no identity, and it keeps every other. *)
Theorem peering_rm_exact args ps out err ps' :
  Peering.peering_inv ps -> peering_rm true args ps = (out, err, ps') ->
  Peering.peering_inv ps' /\ (forall p a, (p, a) ∈ Peering.ListPeers ps' <-> (~ (p ∈ out)) /\ (p, a) ∈ Peering.ListPeers ps) /\
  exists rest, args = (take (length out) args) ++ rest /\ Forall2 (fun a id => peer_Decode a = Ok id) (take (length out) args) out /\
      match err with None => rest = [] | Some e => exists bad rest', rest = bad :: rest' /\ peer_Decode bad = Err e end.
Proof.
  intros I. unfold peering_rm. cbn [negb].
  intros Hrun. destruct (peering_rm_all_exact _ _ _ _ _ I Hrun) as (I' & Hpeered & Hrest). split_and!; [done | | done]. intros p a. by rewrite !peered_ListPeers.
Qed.
End PeeringCommands.

Module DemoPeering.
#[local] Existing Instance DemoAddrs.demo_addrs.
Definition service : Peering.PeeringService := Peering.AddPeer "J" ["old"] (Peering.NewPeeringService ∅).
Lemma service_inv : Peering.peering_inv service.
Proof. apply (Peering.peering_inv_reachable ∅). eapply rtc_l; [apply Peering.step_add | apply rtc_refl]. Defined.

(** Two addresses of one peer are one entry of the service. *)
Lemma peering_add_exact_witness : exists ps', peering_add true ["Txa.I"; "Txc.I"] service = (Ok ["I"], ps') /\
  ("J", ["old"]) ∈ Peering.ListPeers ps'.
Proof.
  destruct (peering_add true ["Txa.I"; "Txc.I"] service) as [r ps'] eqn:E.
  assert (Er : r = Ok ["I"]) by (apply (f_equal fst) in E; vm_compute in E; exact (eq_sym E)). subst r.
  destruct (peering_add_exact true ["Txa.I"; "Txc.I"] service (Ok ["I"]) ps' service_inv E) as (_ & _ & _ & infos & _ & _ & Hls).
  exists ps'. split; [reflexivity |]. apply Hls. right. split; [set_solver |]. vm_compute. left.
Defined.

Lemma peering_rm_exact_witness : exists ps', peering_rm (fun s => if String.eqb s "" then Err "empty" else Ok s) true ["J"; ""; "K"] service = (["J"], Some "empty", ps') /\
  ~ (("J", ["old"]) ∈ Peering.ListPeers ps').
Proof.
  destruct (peering_rm (fun s => if String.eqb s "" then Err "empty" else Ok s) true ["J"; ""; "K"] service) as [[out err] ps'] eqn:E.
  assert (Er : (out, err) = (["J"], Some "empty")) by (apply (f_equal fst) in E; vm_compute in E; exact (eq_sym E)). injection Er as -> ->.
  destruct (peering_rm_exact _ _ _ _ _ _ service_inv E) as (_ & Hls & _).
  exists ps'. split; [reflexivity |]. rewrite Hls. intros [Hn _]. apply Hn. left.
Defined.

Lemma swarm_addrs_exact_witness : exists m, @swarm_addrs DemoAddrs.demo_addrs true [("I", ["Tb"; "Ta"]); ("K", [])] = Ok m /\ m !! "I" = Some ["Ta"; "Tb"].
Proof.
  apply (@swarm_addrs_exact DemoAddrs.demo_addrs [("I", ["Tb"; "Ta"]); ("K", [])] "I"); [repeat constructor; set_solver |].
  exists ["Tb"; "Ta"]. split; [left | split; [done | vm_compute; reflexivity]].
Defined.
End DemoPeering.
