(* ===== verification/P2PCmds.v ===== *)
(** The commands of the p2p service: [core/commands/p2p.go], over [P2P.v].

    Addresses are those of [BootstrapCmd.v]; the listeners of [P2P.v] hold their
    texts.  The peerstore is the list of the addresses added to it. *)
From Stdlib Require Import ZArith Lia Ascii String.
From stdpp Require Import base strings gmap list.
From S2P Require Import Prelude GoStrings GoPath BootstrapCmd Swarm P2P.

Local Open Scope Z_scope.

Definition P2PProtoPrefix : string := "/x/".

(** [cfg] is the configuration's [Experimental.Libp2pStreamMounting]. *)
Definition p2pGetNode (cfg : result bool) (IsOnline : bool) : option error :=
  match cfg with
  | Err e => Some e
  | Ok false => Some "libp2p stream mounting not enabled"
  | Ok true => if IsOnline then None else Some ErrNotOnline
  end.

Definition l_Protocol (l : Listener) : string :=
  match l with localListener proto _ _ _ => proto | remoteListener proto _ _ => proto end.
(** [identity] is the node's own peer.  These are the texts of the addresses: the
    methods parse them, and panic when that fails, which [TargetAddress] shows. *)
Definition l_ListenAddress (identity : string) (l : Listener) : string :=
  match l with localListener _ laddr _ _ => laddr | remoteListener _ _ _ => "/p2p/" +:+ identity end.
Definition l_TargetAddress (l : Listener) : string :=
  match l with localListener _ _ peer _ => "/p2p/" +:+ peer | remoteListener _ addr _ => addr end.

Section Commands.
Context `{P2pAddrs}.

(** ** Forwarding *)

(** The peer found so far, and its transports (nil for a bare peer address). *)
Abbreviation info := (option string * list (option Maddr))%type.

(** The loop of [parseIpfsAddr] over what an address resolves to. *)
Fixpoint collect_infos (multiaddr : Maddr) (addrs : list Maddr) (i : info) : result info :=
  match addrs with
  | [] => Ok i
  | addr :: addrs =>
      match SplitAddr addr with
      | (_, None) => collect_infos multiaddr addrs i
      | (taddr, Some id) =>
          match i.1 with
          | None => collect_infos multiaddr addrs (Some id, i.2 ++ [taddr])
          | Some id' =>
              if String.eqb id' id then collect_infos multiaddr addrs (Some id', i.2 ++ [taddr])
              else Err ("ambiguous multiaddr " +:+ Text multiaddr +:+ " could refer to " +:+ id' +:+ " or " +:+ id)
          end
      end
  end.

Definition parseIpfsAddr (Resolve : Maddr -> result (list Maddr)) (addr : string) : result info :=
  match Parse addr with
  | Err e => Err e
  | Ok multiaddr =>
      match SplitAddr multiaddr with
      | (Some t, Some id) => Ok (Some id, [Some t])
      | (None, Some id) => Ok (Some id, [])
      | (_, None) =>
          match Resolve multiaddr with
          | Err e => Err e
          | Ok [] => Err ("fail to resolve the multiaddr:" +:+ Text multiaddr)
          | Ok addrs => collect_infos multiaddr addrs (None, [])
          end
      end
  end.

(** [ValueForProtocol] of the address for tcp and udp: empty when it has none. *)
Definition checkPort (tcp udp : Maddr -> string) (target : Maddr) : option error :=
  let check sport :=
    match ParseInt sport with
    | None => Some ("strconv.Atoi: parsing " +:+ String "034" (sport +:+ String "034" ": invalid syntax"))
    | Some port => if port =? 0 then Some "port can not be 0" else None
    end in
  if negb (String.eqb (tcp target) "") then check (tcp target)
  else if negb (String.eqb (udp target) "") then check (udp target)
  else Some "address does not contain tcp or udp protocol".

Definition bad_namespace : error := "protocol name must be within '" +:+ P2PProtoPrefix +:+ "' namespace".

Definition namespace_ok (allowCustom : bool) (proto : string) : bool := allowCustom || HasPrefix proto P2PProtoPrefix.

Abbreviation peerstore := (list (string * list (option Maddr))).

(** [listen] is what listening on an address gives. *)
Definition forwardLocal (listen : Maddr -> result (nat * string)) (proto : string) (bindAddr : Maddr) (addr : info) (s : peerstore * P2P)
  : option error * (peerstore * P2P) :=
  let id := default "" addr.1 in
  match ForwardLocal (listen bindAddr) id proto s.2 with
  | (Err e, p) => (Some e, (s.1 ++ [(id, addr.2)], p))
  | (Ok _, p) => (None, (s.1 ++ [(id, addr.2)], p))
  end.

(** [p2pForwardCmd.Run] *)
Definition p2p_forward (cfg : result bool) (online : bool) (Resolve : Maddr -> result (list Maddr)) (listen : Maddr -> result (nat * string))
    (allowCustom : bool) (proto listenOpt targetOpt : string) (s : peerstore * P2P) : option error * (peerstore * P2P) :=
  match p2pGetNode cfg online with
  | Some e => (Some e, s)
  | None =>
      match Parse listenOpt with
      | Err e => (Some e, s)
      | Ok bindAddr =>
          match parseIpfsAddr Resolve targetOpt with
          | Err e => (Some e, s)
          | Ok targets => if negb (namespace_ok allowCustom proto) then (Some bad_namespace, s) else forwardLocal listen proto bindAddr targets s
          end
      end
  end.

(** [p2pListenCmd.Run] *)
Definition p2p_listen (cfg : result bool) (online : bool) (tcp udp : Maddr -> string) (allowCustom reportPeerID : bool) (proto targetOpt : string) (p : P2P)
  : option error * P2P :=
  match p2pGetNode cfg online with
  | Some e => (Some e, p)
  | None =>
      match Parse targetOpt with
      | Err e => (Some e, p)
      | Ok target =>
          match checkPort tcp udp target with
          | Some e => (Some e, p)
          | None =>
              if negb (namespace_ok allowCustom proto) then (Some bad_namespace, p)
              else match ForwardRemote proto (Text target) reportPeerID p with (Err e, p) => (Some e, p) | (Ok _, p) => (None, p) end
          end
      end
  end.

(** ** Listing and closing *)

Definition TargetAddress (l : Listener) : outcome string :=
  match l with
  | localListener _ _ _ _ => match Parse (l_TargetAddress l) with Ok a => Ret (Text a) | Err e => Panic e end
  | remoteListener _ addr _ => Ret addr
  end.

(** The rows of one table; a panic leaves its lock held. *)
Fixpoint listener_rows (identity : string) (ls : list Listener) (rows : list (string * string * string)) : outcome (list (string * string * string)) :=
  match ls with
  | [] => Ret rows
  | l :: ls =>
      match TargetAddress l with
      | Panic e => Panic e
      | Ret target => listener_rows identity ls (rows ++ [(l_Protocol l, l_ListenAddress identity l, target)])
      end
  end.

(** [p2pLsCmd.Run]; [order] is the order in which a map is ranged over. *)
Definition p2p_ls (order : Listeners -> list (string * Listener)) (identity : string) (p : P2P) : outcome (list (string * string * string)) :=
  match listener_rows identity (order (ListenersLocal p)).*2 [] with
  | Panic e => Panic e
  | Ret rows => listener_rows identity (order (ListenersP2P p)).*2 rows
  end.

(** The options of [p2p close]. *)
Record close_opts := MkCloseOpts { closeAll : bool; protoOpt : option string; listenOpt : option string; targetOpt : option string }.

(** Addresses are equal when their texts are; the peers of the listeners are taken to
    have addresses. *)
Definition close_match (identity : string) (o : close_opts) (listen target : option Maddr) (l : Listener) : bool :=
  if closeAll o then true
  else match protoOpt o with Some proto => String.eqb proto (l_Protocol l) | None => true end
    && match listen with Some a => String.eqb (Text a) (l_ListenAddress identity l) | None => true end
    && match target with Some a => String.eqb (Text a) (l_TargetAddress l) | None => true end.

Definition parse_opt (o : option string) : result (option Maddr) :=
  match o with None => Ok None | Some s => match Parse s with Err e => Err e | Ok a => Ok (Some a) end end.

(** [p2pCloseCmd.Run]: the number of listeners closed, the listeners, the service. *)
Definition p2p_close (cfg : result bool) (online : bool) (identity : string) (o : close_opts) (p : P2P) : result (nat * list Listener) * P2P :=
  match p2pGetNode cfg online with
  | Some e => (Err e, p)
  | None =>
      match parse_opt (listenOpt o) with
      | Err e => (Err e, p)
      | Ok listen =>
          match parse_opt (targetOpt o) with
          | Err e => (Err e, p)
          | Ok target =>
              let given := bool_decide (is_Some (protoOpt o)) || bool_decide (is_Some (listenOpt o)) || bool_decide (is_Some (targetOpt o)) in
              if negb (closeAll o || given) then (Err "no matching options given", p)
              else if closeAll o && given then (Err "can't combine --all with other matching options", p)
              else
                let '(local, todo1, n1) := Listeners_Close (close_match identity o listen target) (ListenersLocal p) in
                let '(remote, todo2, n2) := Listeners_Close (close_match identity o listen target) (ListenersP2P p) in
                (Ok ((n1 + n2)%nat, todo1 ++ todo2), MkP2P local remote (registry p) (os_listeners p))
          end
      end
  end.

(** [strconv.ParseUint(s, 10, 64)] *)
Definition ParseUint (s : string) : option Z :=
  match s with
  | EmptyString => None
  | _ => match parse_digits 0 s with Some n => if n <? 2 ^ 64 then Some n else None | None => None end
  end.

(** [p2pStreamCloseCmd.Run]; [entries] are the entries of the map as they are ranged
    over. *)
Definition stream_close (cfg : result bool) (online : bool) (entries : gmap Z Stream -> list (Z * Stream)) (all : bool) (args : list string)
    (r : StreamRegistry) : option error * StreamRegistry :=
  match p2pGetNode cfg online with
  | Some e => (Some e, r)
  | None =>
      let reset toClose := (None, foldl (fun r s => Registry_Reset s r) r toClose) in
      if all then reset (entries (Streams r)).*2
      else match args with
      | [] => (Some "no id specified", r)
      | arg :: _ =>
          match ParseUint arg with
          | None => (Some ("strconv.ParseUint: parsing " +:+ String "034" (arg +:+ String "034" ": invalid syntax")), r)
          | Some handlerID =>
              match filter (fun kv => kv.1 = handlerID) (entries (Streams r)) with
              | kv :: _ => reset [kv.2]
              | [] => reset []
              end
          end
      end
  end.
End Commands.

(** ** Lemmas *)

Lemma collect_infos_spec `{P2pAddrs} m addrs i i' : collect_infos m addrs i = Ok i' ->
  (forall id, i.1 = Some id -> i'.1 = Some id) /\
  (forall a id, a ∈ addrs -> (SplitAddr a).2 = Some id -> i'.1 = Some id) /\
  i'.2 = i.2 ++ omap (fun a => match SplitAddr a with (t, Some _) => Some t | _ => None end) addrs /\
  (i'.1 = None <-> i.1 = None /\ Forall (fun a => (SplitAddr a).2 = None) addrs).
Proof.
  revert i. induction addrs as [|a addrs IH]; intros i; cbn [collect_infos].
  { intros [= <-]. split_and!; [done|set_solver|by rewrite app_nil_r|]. split; [by split|by intros [? _]]. }
  destruct (SplitAddr a) as [t [id|]] eqn:Es.
  - assert (Hstep : forall j, j.1 = Some id -> j.2 = i.2 ++ [t] -> i.1 = None \/ i.1 = Some id -> collect_infos m addrs j = Ok i' ->
      (forall id0, i.1 = Some id0 -> i'.1 = Some id0) /\ (forall b id0, b ∈ a :: addrs -> (SplitAddr b).2 = Some id0 -> i'.1 = Some id0) /\
      i'.2 = i.2 ++ omap (fun a => match SplitAddr a with (t, Some _) => Some t | _ => None end) (a :: addrs) /\
      (i'.1 = None <-> i.1 = None /\ Forall (fun a => (SplitAddr a).2 = None) (a :: addrs))).
    { intros j J1 J2 Hi (H1 & H2 & H3 & H4)%IH. pose proof (H1 id J1) as Hid. split_and!.
      - intros id0 E. destruct Hi as [Hi|Hi]; congruence.
      - intros b id0 [-> |Hb]%elem_of_cons Eb; [rewrite Es in Eb; cbn in Eb; congruence|by eapply H2].
      - rewrite H3, J2. cbn. rewrite Es. cbn. by rewrite <- (assoc (++)).
      - split; [congruence|]. intros [_ Hf]. apply Forall_cons in Hf as [Hf _]. by rewrite Es in Hf. }
    destruct (i.1) as [id'|] eqn:E1; [destruct (String.eqb_spec id' id) as [-> |]; [|done]|]; intros E; eapply Hstep; try exact E; try done; auto.
  - intros (H1 & H2 & H3 & H4)%IH. split_and!; [done| | |].
    + intros b id [-> |Hb]%elem_of_cons Eb; [by rewrite Es in Eb|by eapply H2].
    + cbn. by rewrite Es.
    + rewrite H4, Forall_cons, Es. cbn. naive_solver.
Qed.

Lemma Deregister_empty r : registry_inv r -> Streams r = ∅ -> conns r = ∅ /\ tags r = ∅.
Proof.
  intros I E. assert (Hc : conns r = ∅).
  { apply map_eq. intros p. rewrite (inv_count _ I), lookup_empty. rewrite E. by rewrite decide_True. }
  split; [done|]. apply set_eq. intros p. rewrite (inv_tags _ I), Hc, lookup_empty. split; [by intros []|set_solver].
Qed.

Lemma reset_all_spec ss r : registry_inv r ->
  let r' := foldl (fun r s => Registry_Reset s r) r ss in
  registry_inv r' /\ (forall i, Streams r' !! i = if decide (i ∈ id <$> ss) then None else Streams r !! i) /\
  (forall e, e ∈ open_ends r' <-> e ∈ open_ends r /\ forall s, s ∈ ss -> e <> Local_ s /\ e <> Remote s).
Proof.
  revert r. induction ss as [|s ss IH]; intros r I; cbn [foldl]; cbn zeta.
  { split_and!; [done|by intros i; rewrite decide_False by set_solver|set_solver]. }
  assert (I' : registry_inv (Registry_Reset s r)) by (by apply Deregister_inv, close_ends_inv).
  destruct (IH _ I') as (H1 & H2 & H3). split_and!; [done| |].
  - intros i. rewrite H2. unfold Registry_Reset. rewrite Deregister_Streams. cbn [Streams close_ends fmap list_fmap].
    destruct (decide (i ∈ id <$> ss)) as [Hi|Hi]; [by rewrite decide_True by set_solver|].
    destruct (decide (i = id s)) as [-> |Hne]; [rewrite lookup_delete_eq; by rewrite decide_True by set_solver|].
    rewrite lookup_delete_ne by done. by rewrite decide_False by set_solver.
  - intros e. rewrite H3. unfold Registry_Reset. rewrite Deregister_ends. cbn [open_ends close_ends].
    rewrite elem_of_difference, elem_of_union, !elem_of_singleton. split.
    + intros [[He Hn] Hs]. split; [done|]. intros x [-> |Hx]%elem_of_cons; [split; intros ->; apply Hn; auto|by apply Hs].
    + intros [He Hs]. split; [split; [done|]|intros x Hx; by apply Hs, list_elem_of_further].
      destruct (Hs s) as [? ?]; [apply list_elem_of_here|]. by intros [?|?].
Qed.

(** ** Theorems *)

Section Theorems.
Context `{P2pAddrs}.

(** closing listeners closes exactly those that match every option given, or all
    of them with [--all], in both tables, counts them and keeps the others; a
    command it refuses changes nothing. *)
Theorem p2p_close_exact identity o p r p' :
  keys_ok (ListenersLocal p) -> keys_ok (ListenersP2P p) -> p2p_close (Ok true) true identity o p = (r, p') ->
  match r with
  | Err _ => p' = p
  | Ok (n, closed) =>
      exists listen target, parse_opt (listenOpt o) = Ok listen /\ parse_opt (targetOpt o) = Ok target /\
        let matches := close_match identity o listen target in
        n = length closed /\
        (forall l, l ∈ closed <-> matches l = true /\ ((exists k, ListenersLocal p !! k = Some l) \/ exists k, ListenersP2P p !! k = Some l)) /\
        ListenersLocal p' = filter (fun kv => matches kv.2 = false) (ListenersLocal p) /\
        ListenersP2P p' = filter (fun kv => matches kv.2 = false) (ListenersP2P p) /\ registry p' = registry p
  end.
Proof.
  intros Hl Hr. unfold p2p_close. cbn [p2pGetNode]. destruct (parse_opt (listenOpt o)) as [listen|] eqn:E1; [|by intros [= <- <-]].
  destruct (parse_opt (targetOpt o)) as [target|] eqn:E2; [|by intros [= <- <-]].
  destruct (negb _); [by intros [= <- <-]|]. destruct (closeAll o && _); [by intros [= <- <-]|].
  destruct (Listeners_Close _ (ListenersLocal p)) as [[l1 t1] n1] eqn:C1. destruct (Listeners_Close _ (ListenersP2P p)) as [[l2 t2] n2] eqn:C2.
  intros [= <- <-]. exists listen, target. split; [done|]. split; [done|]. cbn zeta.
  apply p2p_listeners_close in C1 as (-> & _ & -> & -> & _); [|done]. apply p2p_listeners_close in C2 as (-> & _ & -> & -> & _); [|done].
  split; [by rewrite length_app|]. split; [|done]. intros l. rewrite elem_of_app, !list_elem_of_filter, !list_elem_of_fmap.
  split.
  - intros [[Hm ([k l'] & -> & Hk%elem_of_map_to_list)]|[Hm ([k l'] & -> & Hk%elem_of_map_to_list)]]; (split; [done|]); [left|right]; by exists k.
  - intros [Hm [[k Hk]|[k Hk]]]; [left|right]; (split; [done|]); exists (k, l); (split; [done|]); by apply elem_of_map_to_list.
Qed.

(** closing streams.  With [--all] no stream, count or tag is left and both ends
    of every stream are closed; with an identifier exactly that stream is closed. *)
Theorem p2p_stream_close_exact entries all args r e r' :
  (forall m, entries m ≡ₚ map_to_list m) -> registry_inv r -> stream_close (Ok true) true entries all args r = (e, r') ->
  registry_inv r' /\
  (e <> None -> r' = r) /\
  (e = None -> forall i, Streams r' !! i = if all : bool then None else if decide (ParseUint (default "" (head args)) = Some i) then None else Streams r !! i) /\
  (all = true -> conns r' = ∅ /\ tags r' = ∅ /\ forall i s, Streams r !! i = Some s -> (Local_ s ∉ open_ends r') /\ (Remote s ∉ open_ends r')).
Proof.
  intros He I. unfold stream_close. cbn [p2pGetNode].
  assert (Hin : forall i s, (i, s) ∈ entries (Streams r) <-> Streams r !! i = Some s) by (intros i s; by rewrite He, elem_of_map_to_list).
  destruct all.
  - intros [= <- <-]. destruct (reset_all_spec (entries (Streams r)).*2 r I) as (H1 & H2 & H3).
    assert (Hnone : forall i, Streams (foldl (fun r s => Registry_Reset s r) r (entries (Streams r)).*2) !! i = None).
    { intros i. rewrite H2. case_decide as Hd; [done|]. destruct (Streams r !! i) as [s|] eqn:E; [|done]. exfalso. apply Hd.
      destruct (inv_ids _ I _ _ E) as [<- _]. apply list_elem_of_fmap. exists s. split; [done|]. apply list_elem_of_fmap. exists (id s, s). split; [done|]. by apply Hin. }
    split_and!; [done|done|done|]. intros _. destruct (Deregister_empty _ H1) as [Ec Et]; [apply map_eq; intros i; by rewrite Hnone|].
    split_and!; [done|done|]. intros i s E. split; intros [_ Hs]%H3; destruct (Hs s) as [? ?]; try done; apply list_elem_of_fmap; exists (i, s); (split; [done|]); by apply Hin.
  - destruct args as [|arg args]; [intros [= <- <-]; by split_and!|].
    change (ParseUint (default "" (head (arg :: args)))) with (ParseUint arg).
    destruct (ParseUint arg) as [h|] eqn:Ep; [|intros [= <- <-]; by split_and!].
    destruct (filter _ (entries (Streams r))) as [|[k s] rest] eqn:Ef; intros [= <- <-].
    + split_and!; [done|done| |done]. intros _ i. case_decide as Hd; [|done]. injection Hd as ->.
      destruct (Streams r !! i) as [s|] eqn:E; [|done]. exfalso. apply (not_elem_of_nil (i, s)). rewrite <- Ef. apply list_elem_of_filter. split; [done|by apply Hin].
    + assert (Hks : (k, s) ∈ filter (fun kv => kv.1 = h) (entries (Streams r))) by (rewrite Ef; apply list_elem_of_here).
      apply list_elem_of_filter in Hks as [Hk Hks]. cbn in Hk. subst k. apply Hin in Hks. destruct (inv_ids _ I _ _ Hks) as [Hid _].
      destruct (reset_all_spec [s] r I) as (H1 & H2 & _). split_and!; [done|done| |done]. intros _ i.
      destruct (decide (Some h = Some i)) as [[= <-]|Hne].
      { pose proof (H2 h) as H2i. cbn [foldl fmap list_fmap] in H2i. cbn [foldl snd]. rewrite H2i, Hid. rewrite decide_True by apply list_elem_of_here. done. }
      pose proof (H2 i) as H2i. cbn [foldl fmap list_fmap] in H2i. cbn [foldl snd]. rewrite H2i, Hid.
      rewrite decide_False; [done|]. intros ->%list_elem_of_singleton. by apply Hne.
Qed.

(** a forwarded target is one peer.  An address that names no peer is resolved;
    when this succeeds with a peer, every resolved address that names one names
    that one, and the transports are those of these addresses, in order. *)
Theorem parse_ipfs_addr_one_peer Resolve addr id ts :
  parseIpfsAddr Resolve addr = Ok (Some id, ts) ->
  exists m, Parse addr = Ok m /\
    ((SplitAddr m).2 = Some id \/
     exists addrs, Resolve m = Ok addrs /\ (exists a, a ∈ addrs /\ (SplitAddr a).2 = Some id) /\
       (forall a id', a ∈ addrs -> (SplitAddr a).2 = Some id' -> id' = id) /\
       ts = omap (fun a => match SplitAddr a with (t, Some _) => Some t | _ => None end) addrs).
Proof.
  unfold parseIpfsAddr. destruct (Parse addr) as [m|]; [|done]. destruct (SplitAddr m) as [t [id'|]] eqn:Es; [destruct t; intros [= <- <-]; exists m; (split; [done|]); left; by rewrite Es|].
  destruct (Resolve m) as [[|a addrs]|] eqn:Er; [by destruct t| |by destruct t].
  assert (Hif : (match t with Some _ => collect_infos m (a :: addrs) (None, []) | None => collect_infos m (a :: addrs) (None, []) end) = collect_infos m (a :: addrs) (None, [])) by (by destruct t).
  intros E. assert (E' : collect_infos m (a :: addrs) (None, []) = Ok (Some id, ts)) by (by destruct t). clear Hif.
  destruct (collect_infos_spec _ _ _ _ E') as (_ & H2 & H3 & H4). exists m. split; [done|]. right. exists (a :: addrs).
  split_and!; [by destruct t| |intros b id' Hb Eb; by apply (H2 b id' Hb) in Eb; injection Eb|done].
  destruct (decide (Forall (fun a => (SplitAddr a).2 = None) (a :: addrs))) as [Hf|Hf]; [pose proof (proj2 H4 (conj eq_refl Hf)); done|].
  apply not_Forall_Exists in Hf; [|intros x; destruct (SplitAddr x).2; [right|left]; done]. apply Exists_exists in Hf as (b & Hb & Hn).
  exists b. split; [done|]. destruct (SplitAddr b).2 as [id'|] eqn:Eb; [|by destruct Hn]. apply (H2 b id' Hb) in Eb. by injection Eb as <-.
Qed.

(** without [--allow-custom-protocol] a listener is only made for a protocol of
    the namespace, and a command that fails leaves the tables of listeners alone. *)
Theorem p2p_forward_within_namespace cfg online Resolve listen proto l t s e s' :
  p2p_forward cfg online Resolve listen false proto l t s = (e, s') ->
  (e <> None -> ListenersLocal s'.2 = ListenersLocal s.2) /\
  (e = None -> cfg = Ok true /\ online = true /\ HasPrefix proto P2PProtoPrefix = true /\
     exists b laddr peer n, Parse l = Ok b /\ listen b = Ok (n, laddr) /\ ListenersLocal s.2 !! laddr = None /\
       ListenersLocal s'.2 = <[laddr := localListener proto laddr peer n]> (ListenersLocal s.2)) /\
  ListenersP2P s'.2 = ListenersP2P s.2 /\ registry s'.2 = registry s.2.
Proof.
  unfold p2p_forward. destruct (p2pGetNode cfg online) eqn:Eg; [intros [= <- <-]; by split_and!|].
  assert (Hg : cfg = Ok true /\ online = true) by (destruct cfg as [[]|]; destruct online; done).
  destruct (Parse l) as [b|] eqn:Ep; [|intros [= <- <-]; by split_and!]. destruct (parseIpfsAddr Resolve t) as [i|]; [|intros [= <- <-]; by split_and!].
  unfold namespace_ok. cbn [orb]. destruct (HasPrefix proto P2PProtoPrefix) eqn:Eh; cbn [negb]; [|intros [= <- <-]; by split_and!].
  unfold forwardLocal, ForwardLocal. destruct (listen b) as [[n laddr]|] eqn:El; [|intros [= <- <-]; by split_and!].
  unfold Listeners_Register. cbn [key]. destruct (ListenersLocal s.2 !! laddr) eqn:Ek; intros [= <- <-]; cbn; [by split_and!|].
  split_and!; [done| |done|done]. intros _. destruct Hg as [-> ->]. split_and!; [done..|]. by exists b, laddr, (default "" i.1), n.
Qed.

(** a target that resolves to addresses none of which names a peer is not refused:
    the command succeeds and registers a listener for the empty peer, and then
    listing the listeners panics, with the lock of the table held. *)
Theorem forward_without_peer Resolve listen proto l t m a addrs b n laddr s order identity e :
  Parse t = Ok m -> (SplitAddr m).2 = None -> Resolve m = Ok (a :: addrs) -> Forall (fun a => (SplitAddr a).2 = None) (a :: addrs) ->
  Parse l = Ok b -> listen b = Ok (n, laddr) -> ListenersLocal s.2 = ∅ -> HasPrefix proto P2PProtoPrefix = true ->
  (forall m, order m ≡ₚ map_to_list m) -> Parse "/p2p/" = Err e ->
  let '(r, s') := p2p_forward (Ok true) true Resolve listen false proto l t s in
  r = None /\ ListenersLocal s'.2 = {[ laddr := localListener proto laddr "" n ]} /\ p2p_ls order identity s'.2 = Panic e.
Proof.
  intros Ht Hm Hr Hf Hl Hn Hs Hp Ho He. unfold p2p_forward. cbn [p2pGetNode]. rewrite Hl. unfold parseIpfsAddr. rewrite Ht.
  assert (Hc : collect_infos m (a :: addrs) (None, []) = Ok (None, [])).
  { clear Hr. induction Hf as [|c l' Hc Hf IH]; [done|]. cbn [collect_infos]. destruct (SplitAddr c) as [tc [id|]]; [done|]. exact IH. }
  assert (Hi : (let 'x := SplitAddr m in match x with (Some t, Some id) => Ok (Some id, [Some t]) | (None, Some id) => Ok (Some id, [])
    | (_, None) => match Resolve m with Err e => Err e | Ok [] => Err ("fail to resolve the multiaddr:" +:+ Text m) | Ok addrs => collect_infos m addrs (None, []) end end) = Ok (None, [])).
  { destruct (SplitAddr m) as [[tm|] [id|]]; cbn in Hm; try done; rewrite Hr; exact Hc. }
  cbn zeta in Hi. rewrite Hi. unfold namespace_ok. rewrite Hp. cbn [orb negb]. unfold forwardLocal, ForwardLocal. rewrite Hn. unfold Listeners_Register. cbn [key].
  rewrite Hs, lookup_empty. cbn [fst snd ListenersLocal default]. split; [done|]. split; [done|]. unfold p2p_ls. cbn [ListenersLocal].
  assert (Hone : order {[laddr := localListener proto laddr "" n]} = [(laddr, localListener proto laddr "" n)]).
  { apply Permutation_singleton_r. rewrite Ho. by rewrite map_to_list_singleton. }
  change (<[laddr := localListener proto laddr "" n]> ∅) with ({[laddr := localListener proto laddr "" n]} : Listeners). rewrite Hone.
  cbn [fmap list_fmap snd listener_rows TargetAddress l_TargetAddress]. change ("/p2p/" +:+ "") with "/p2p/". by rewrite He.
Qed.
End Theorems.

(** ** Witnesses *)
Module DemoP2PCmds.

(** The addresses of [BootstrapCmd.v], with a text of their own; the address of the
    empty peer does not parse. *)
Definition addrs : P2pAddrs.
Proof.
  refine {| Maddr := string; Text := fun a => String "@" a; SplitAddr := DemoAddrs.split; Infos := DemoAddrs.infos; P2pAddr := DemoAddrs.p2p;
            Parse := fun s => match s with String "@" a => Ok a | _ => if String.eqb s "/p2p/" then Err "empty peer" else Ok s end |}.
  - done.
  - exact (@Split_P2p DemoAddrs.demo_addrs).
  - exact (@Infos_ok DemoAddrs.demo_addrs).
  - exact (@Infos_NoDup DemoAddrs.demo_addrs).
  - exact (@Infos_peer DemoAddrs.demo_addrs).
  - exact (@Infos_addr DemoAddrs.demo_addrs).
Defined.
#[local] Existing Instance addrs.

Definition ssh : Listener := remoteListener "/x/ssh" "@Tssh" false.
Definition web : Listener := remoteListener "/x/web" "@Tweb" false.
Definition service : P2P := MkP2P ∅ {[ "/x/ssh" := ssh; "/x/web" := web ]} empty_registry ∅.
Definition only_ssh : close_opts := MkCloseOpts false (Some "/x/ssh") None None.
Abbreviation closing_ssh := (p2p_close (Ok true) true "Qm" only_ssh service).

Lemma service_keys : keys_ok (ListenersLocal service) /\ keys_ok (ListenersP2P service).
Proof.
  split; intros k l E; cbn in E; [done|]. apply lookup_insert_Some in E as [[<- <-]|[_ E]]; [done|].
  by apply lookup_singleton_Some in E as [<- <-].
Qed.

Lemma p2p_close_exact_witness :
  exists listen target, parse_opt None = Ok listen /\ parse_opt None = Ok target /\
    let matches := close_match "Qm" only_ssh listen target in
    1%nat = length [ssh] /\
    (forall l, l ∈ [ssh] <-> matches l = true /\ ((exists k, ListenersLocal service !! k = Some l) \/ exists k, ListenersP2P service !! k = Some l)) /\
    ListenersLocal closing_ssh.2 = filter (fun kv => matches kv.2 = false) (ListenersLocal service) /\
    ListenersP2P closing_ssh.2 = filter (fun kv => matches kv.2 = false) (ListenersP2P service) /\ registry closing_ssh.2 = registry service.
Proof.
  exact (p2p_close_exact "Qm" only_ssh service (Ok (1%nat, [ssh])) closing_ssh.2 (proj1 service_keys) (proj2 service_keys)
    (eq_trans (surjective_pairing closing_ssh) (f_equal (fun x => (x, closing_ssh.2)) (eq_refl (Ok (1%nat, [ssh])))))).
Defined.

Lemma p2p_stream_close_exact_witness :
  registry_inv (stream_close (Ok true) true map_to_list false ["0"] (reg run1)).2.
Proof.
  refine (proj1 (p2p_stream_close_exact map_to_list false ["0"] (reg run1) None _ (fun m => Permutation_refl _) _ (surjective_pairing _))).
  apply (run_reg run1). apply running_inv_reachable, run1_reachable.
Defined.

Lemma parse_ipfs_addr_one_peer_witness :
  exists m, Parse "Tdns" = Ok m /\
    ((SplitAddr m).2 = Some "J" \/
     exists addrs, Ok ["Txa.J"; "Tother"; "Txb.J"] = Ok addrs /\ (exists a, a ∈ addrs /\ (SplitAddr a).2 = Some "J") /\
       (forall a id', a ∈ addrs -> (SplitAddr a).2 = Some id' -> id' = "J") /\
       [Some "a"; Some "b"] = omap (fun a => match SplitAddr a with (t, Some _) => Some t | _ => None end) addrs).
Proof. apply (parse_ipfs_addr_one_peer (H := addrs) (fun _ => Ok ["Txa.J"; "Tother"; "Txb.J"]) "Tdns" "J" [Some "a"; Some "b"]). reflexivity. Defined.

Abbreviation start := (([] : list (string * list (option string))), New).

Lemma p2p_forward_within_namespace_witness :
  (Some bad_namespace <> None -> ListenersLocal New = ListenersLocal New).
Proof.
  apply (p2p_forward_within_namespace (H := addrs) (Ok true) true (fun _ => Err "") (fun b => Ok (1%nat, b)) "ssh" "Tl" "Txa.J" start (Some bad_namespace) start). reflexivity.
Defined.

Lemma forward_without_peer_witness :
  let '(r, s') := p2p_forward (H := addrs) (Ok true) true (fun _ => Ok ["Thost"]) (fun b => Ok (1%nat, b)) false "/x/ssh" "Tl" "Tdns" start in
  r = None /\ ListenersLocal s'.2 = {[ "Tl" := localListener "/x/ssh" "Tl" "" 1 ]} /\ p2p_ls map_to_list "Qm" s'.2 = Panic "empty peer".
Proof.
  apply (forward_without_peer (H := addrs) (fun _ => Ok ["Thost"]) (fun b => Ok (1%nat, b)) "/x/ssh" "Tl" "Tdns" "Tdns" "Thost" [] "Tl" 1 "Tl" start map_to_list "Qm" "empty peer");
    first [reflexivity | by repeat constructor | done].
Defined.
End DemoP2PCmds.
