(* ===== verification/HttpApi.v ===== *)
(** The HTTP API's server options: [core/corehttp/commands.go], with the version of
    [version.go].

    The CORS settings of [go-ipfs-cmds] are the class [Cors]: what is set is read
    back, and the settings do not interfere.  [API.HTTPHeaders] of the configuration
    is a map whose values may be nil; [order] is the order in which it is ranged
    over.

    Then [core/corehttp/corehttp.go]: the handler that the options of a server make,
    with the choice of a pattern of [net/http], the options that [cmd/ipfs/daemon.go]
    gives its two servers, and the life of a server as a step relation. *)
From Stdlib Require Import ZArith Lia Ascii String.
From stdpp Require Import base strings gmap relations sets list.
From S2P Require Import Prelude GoStrings GoPath Gateway.

Definition CurrentVersionNumber : string := "0.18.0.dev20221203".
Definition ApiVersion : string := "/kubo/" +:+ CurrentVersionNumber +:+ "/".
Definition APIPath : string := "/api/v0".

Definition ACAOrigin : string := "Access-Control-Allow-Origin".
Definition ACAMethods : string := "Access-Control-Allow-Methods".
Definition ACACredentials : string := "Access-Control-Allow-Credentials".

Definition defaultLocalhostOrigins : list string :=
  ["http://127.0.0.1:<port>"; "https://127.0.0.1:<port>"; "http://[::1]:<port>"; "https://[::1]:<port>"; "http://localhost:<port>"; "https://localhost:<port>"].

Definition companionBrowserExtensionOrigins : list string :=
  ["chrome-extension://nibjojkomfdiaoajekhjakgkdhaomnch"; "chrome-extension://hjoieblefckbooibpepigmacodalfndh"].

Class Cors := {
  cors : Type;
  NewCors : cors;
  AllowedOrigins : cors -> list string;
  AllowedMethods : cors -> list string;
  AllowCredentials : cors -> bool;
  SetAllowedOrigins : list string -> cors -> cors;
  AppendAllowedOrigins : list string -> cors -> cors;
  SetAllowedMethods : list string -> cors -> cors;
  SetAllowCredentials : bool -> cors -> cors;
  new_origins : AllowedOrigins NewCors = [];
  new_credentials : AllowCredentials NewCors = false;
  origins_set l c : AllowedOrigins (SetAllowedOrigins l c) = l;
  origins_append l c : AllowedOrigins (AppendAllowedOrigins l c) = AllowedOrigins c ++ l;
  origins_methods l c : AllowedOrigins (SetAllowedMethods l c) = AllowedOrigins c;
  origins_credentials b c : AllowedOrigins (SetAllowCredentials b c) = AllowedOrigins c;
  methods_set l c : AllowedMethods (SetAllowedMethods l c) = l;
  methods_origins l c : AllowedMethods (SetAllowedOrigins l c) = AllowedMethods c;
  methods_append l c : AllowedMethods (AppendAllowedOrigins l c) = AllowedMethods c;
  methods_credentials b c : AllowedMethods (SetAllowCredentials b c) = AllowedMethods c;
  credentials_set b c : AllowCredentials (SetAllowCredentials b c) = b;
  credentials_origins l c : AllowCredentials (SetAllowedOrigins l c) = AllowCredentials c;
  credentials_append l c : AllowCredentials (AppendAllowedOrigins l c) = AllowCredentials c;
  credentials_methods l c : AllowCredentials (SetAllowedMethods l c) = AllowCredentials c;
}.

Create Rewrite HintDb cors.
#[export] Hint Rewrite @origins_set @origins_append @origins_methods @origins_credentials @methods_set @methods_origins @methods_append
  @methods_credentials @credentials_set @credentials_origins @credentials_append @credentials_methods : cors.

(** [net.Addr] of the listener. *)
Inductive net_addr := TCPAddr (Port : Z) | UDPAddr (Port : Z) | OtherAddr.

Abbreviation http_headers := (gmap string (option (list string))).

Section Options.
Context `{Cors} (order : http_headers -> list (string * option (list string))).

Record ServerConfig := MkServerConfig { AllowGet : bool; api_path : string; Headers : http_headers; cors_opts : cors }.

Definition on_cors (f : cors -> cors) (c : ServerConfig) : ServerConfig := MkServerConfig (AllowGet c) (api_path c) (Headers c) (f (cors_opts c)).

(** [origin] is the value of the variable [API_ORIGIN]. *)
Definition addCORSFromEnv (origin : string) (c : ServerConfig) : ServerConfig :=
  if negb (String.eqb origin "") then on_cors (AppendAllowedOrigins [origin]) c else c.

(** [HTTPHeaders[key]]: nil when there is no such key. *)
Definition header (hs : http_headers) (key : string) : option (list string) := match hs !! key with Some v => v | None => None end.

Definition handled_by_cors (h : string) : bool := bool_decide (h ∈ [ACAOrigin; ACAMethods; ACACredentials]).

Definition addHeadersFromConfig (HTTPHeaders : http_headers) (c : ServerConfig) : ServerConfig :=
  let c := match header HTTPHeaders ACAOrigin with Some acao => on_cors (SetAllowedOrigins acao) c | None => c end in
  let c := match header HTTPHeaders ACAMethods with Some acam => on_cors (SetAllowedMethods acam) c | None => c end in
  let c := foldl (fun c v => on_cors (SetAllowCredentials (String.eqb (ToLower v) "true")) c) c (default [] (header HTTPHeaders ACACredentials)) in
  let hs := foldl (fun hs '(h, v) => let h := CanonicalHeaderKey h in if handled_by_cors h then hs else <[h := v]> hs) ∅ (order HTTPHeaders) in
  MkServerConfig (AllowGet c) (api_path c) (<["Server" := Some ["kubo/" +:+ CurrentVersionNumber]]> hs) (cors_opts c).

Definition addCORSDefaults (c : ServerConfig) : ServerConfig :=
  let c := on_cors (AppendAllowedOrigins defaultLocalhostOrigins) c in
  let c := on_cors (AppendAllowedOrigins companionBrowserExtensionOrigins) c in
  match AllowedMethods (cors_opts c) with
  | [] => on_cors (SetAllowedMethods ["GET"; "POST"; "PUT"]) c
  | _ => c
  end.

Definition port_of (addr : net_addr) : string :=
  match addr with TCPAddr p => FormatInt p | UDPAddr p => FormatInt p | OtherAddr => "" end.

Definition patch_origin (port o : string) : string := if negb (String.eqb port "") then ReplaceAll o "<port>" port else o.

Definition patchCORSVars (addr : net_addr) (c : ServerConfig) : ServerConfig :=
  on_cors (SetAllowedOrigins (patch_origin (port_of addr) <$> AllowedOrigins (cors_opts c))) c.

(** [commandsOption]: the configuration of the handler mounted at [APIPath]; [rcfg] are
    the headers of the repository's configuration. *)
Definition commandsOption (allowGet : bool) (rcfg : result http_headers) (origin : string) (addr : net_addr) : result ServerConfig :=
  let methods := if allowGet then ["POST"; "GET"] else ["POST"] in
  let cfg := MkServerConfig allowGet APIPath ∅ (SetAllowedMethods methods NewCors) in
  match rcfg with
  | Err e => Err e
  | Ok hs => Ok (patchCORSVars addr (addCORSDefaults (addCORSFromEnv origin (addHeadersFromConfig hs cfg))))
  end.

Definition CommandsOption := commandsOption false.
Definition CommandsROOption := commandsOption true.
End Options.

(** ** The version check *)

Definition errAPIVersionMismatch : error := "api version mismatch".

(** The answer of [CheckVersionOption]'s handler, or [None] when the request goes on. *)
Definition CheckVersion (daemonVersion path userAgent : string) : option string :=
  if HasPrefix path APIPath then
    let pth := split_on slash (TrimPrefix path APIPath) in
    match pth with
    | _ :: cmd :: _ =>
        if negb (String.eqb cmd "version")
           && (Contains userAgent "/go-ipfs/" || Contains userAgent "/kubo/") && negb (String.eqb daemonVersion userAgent)
        then Some (errAPIVersionMismatch +:+ " (" +:+ daemonVersion +:+ " != " +:+ userAgent +:+ ")")
        else None
    | _ => None
    end
  else None.

(** ** Lemmas *)

Section Lemmas.
Context `{Cors}.

Lemma credentials_loop vs (c : ServerConfig) :
  let c' := foldl (fun c v => on_cors (SetAllowCredentials (String.eqb (ToLower v) "true")) c) c vs in
  AllowGet c' = AllowGet c /\ api_path c' = api_path c /\ AllowedOrigins (cors_opts c') = AllowedOrigins (cors_opts c) /\
  AllowedMethods (cors_opts c') = AllowedMethods (cors_opts c) /\
  AllowCredentials (cors_opts c') = match last vs with Some v => String.eqb (ToLower v) "true" | None => AllowCredentials (cors_opts c) end.
Proof.
  induction vs as [|v vs IH] using rev_ind; cbn zeta; [done|]. rewrite foldl_app, last_snoc. cbn [foldl on_cors AllowGet api_path cors_opts].
  cbn zeta in IH. destruct IH as (H1 & H2 & H3 & H4 & _). autorewrite with cors. by rewrite H1, H2, H3, H4.
Qed.

Lemma handled_canonical h : handled_by_cors h = true -> CanonicalHeaderKey h = h.
Proof.
  unfold handled_by_cors. intros Hd%bool_decide_eq_true. rewrite !elem_of_cons in Hd. destruct Hd as [-> |[-> |[-> |Hd]]]; [vm_compute; reflexivity..|].
  by apply not_elem_of_nil in Hd.
Qed.

Lemma headers_fold (l : list (string * option (list string))) (acc : http_headers) h v :
  handled_by_cors h = true -> acc !! h = None ->
  foldl (fun hs '(h, v) => let h := CanonicalHeaderKey h in if handled_by_cors h then hs else <[h := v]> hs) acc l !! h <> Some v.
Proof.
  intros Hh. revert acc. induction l as [|[k w] l IH]; intros acc Ha; cbn [foldl]; [congruence|]. apply IH. cbn zeta.
  destruct (handled_by_cors (CanonicalHeaderKey k)) eqn:Ek; [done|]. rewrite lookup_insert_ne; [done|]. congruence.
Qed.
End Lemmas.

(** ** Theorems *)

Section Theorems.
Context `{Cors} (order : http_headers -> list (string * option (list string))).

Definition configured (hs : http_headers) (origin : string) : list string :=
  default [] (header hs ACAOrigin) ++ (if String.eqb origin "" then [] else [origin]).

(** the API's cross-origin settings.  The allowed origins are the configured ones,
    the one of the environment, the local host's and the browser extension's, each
    with the listener's port for its placeholder, and no others; the allowed methods
    are the configured ones, POST (and GET on the read-only API) when none are
    configured, and GET, POST and PUT when an empty list is; credentials are allowed
    exactly when the last configured value says true; GET requests are served on
    the read-only API only; and no header of the configuration overrides the
    settings of the CORS library. *)
Theorem cors_settings_exact allowGet hs origin addr :
  exists c, commandsOption order allowGet (Ok hs) origin addr = Ok c /\
    AllowedOrigins (cors_opts c) = patch_origin (port_of addr) <$> (configured hs origin ++ defaultLocalhostOrigins ++ companionBrowserExtensionOrigins) /\
    AllowedMethods (cors_opts c) =
      match header hs ACAMethods with
      | None => if allowGet : bool then ["POST"; "GET"] else ["POST"]
      | Some [] => ["GET"; "POST"; "PUT"]
      | Some ms => ms
      end /\
    (AllowCredentials (cors_opts c) = true <-> exists v, last (default [] (header hs ACACredentials)) = Some v /\ ToLower v = "true") /\
    AllowGet c = allowGet /\ api_path c = APIPath /\
    (forall h v, handled_by_cors h = true -> Headers c !! h <> Some v).
Proof.
  eexists. split; [reflexivity|]. unfold patchCORSVars, addCORSDefaults, addCORSFromEnv, addHeadersFromConfig.
  set (c1 := match header hs ACAMethods with Some acam => on_cors (SetAllowedMethods acam) _ | None => _ end).
  assert (Ho : AllowedOrigins (cors_opts c1) = default [] (header hs ACAOrigin)).
  { unfold c1. destruct (header hs ACAMethods), (header hs ACAOrigin); cbn; autorewrite with cors; by rewrite ?new_origins. }
  assert (Hm : AllowedMethods (cors_opts c1) = match header hs ACAMethods with Some ms => ms | None => if allowGet : bool then ["POST"; "GET"] else ["POST"] end).
  { unfold c1. destruct (header hs ACAMethods), (header hs ACAOrigin); cbn; by autorewrite with cors. }
  assert (Hc : AllowCredentials (cors_opts c1) = false).
  { unfold c1. destruct (header hs ACAMethods), (header hs ACAOrigin); cbn; autorewrite with cors; apply new_credentials. }
  assert (Hg : AllowGet c1 = allowGet /\ api_path c1 = APIPath) by (unfold c1; by destruct (header hs ACAMethods), (header hs ACAOrigin)).
  destruct (credentials_loop (default [] (header hs ACACredentials)) c1) as (L1 & L2 & L3 & L4 & L5). cbn zeta in *.
  set (c2 := foldl _ c1 _) in *. set (hs' := foldl _ ∅ (order hs)).
  set (c3 := MkServerConfig (AllowGet c2) (api_path c2) _ (cors_opts c2)).
  assert (Hh : forall h v, handled_by_cors h = true -> Headers c3 !! h <> Some v).
  { intros h v Hh. unfold c3. cbn [Headers]. rewrite lookup_insert_ne by (intros <-; vm_compute in Hh; discriminate). by apply headers_fold. }
  destruct (String.eqb origin "") eqn:Eo; cbn [negb on_cors cors_opts].
  all: autorewrite with cors; cbn [c3 cors_opts]; autorewrite with cors; rewrite L4, Hm.
  all: unfold configured; rewrite Eo.
  all: split; [|split; [|split; [|split; [|split]]]].
  all: try (destruct (header hs ACAMethods) as [[|m ms]|]; [|..|destruct allowGet]; cbn [on_cors cors_opts AllowGet api_path Headers]; autorewrite with cors; cbn [c3 cors_opts AllowGet api_path]; autorewrite with cors).
  all: rewrite ?L1, ?L2, ?L3, ?L5, ?Ho, ?Hc, ?app_nil_r, <- ?(assoc (++)); try done; try (by destruct Hg); try exact Hh.
  all: try (destruct (last _) as [v|]; [|split; [done|by intros (? & ? & ?)]]; split; [intros Ht; exists v; split; [done|by apply String.eqb_eq]|intros (v' & [= <-] & ->); reflexivity]).
  all: by rewrite L4, Hm.
Qed.

(** a CORS header of the configuration that is not written in its canonical case is
    dropped: it neither changes the allowed origins nor is sent as a header. *)
Theorem cors_header_case_lost allowGet h v origin addr c c0 :
  CanonicalHeaderKey h = ACAOrigin -> h <> ACAOrigin -> (forall m, order m ≡ₚ map_to_list m) ->
  commandsOption order allowGet (Ok {[ h := v ]}) origin addr = Ok c -> commandsOption order allowGet (Ok ∅) origin addr = Ok c0 -> c = c0.
Proof.
  intros Hk Hne Hord. unfold commandsOption. intros [= <-] [= <-]. do 3 f_equal. unfold addHeadersFromConfig.
  assert (Hnone : forall k, handled_by_cors k = true -> header {[ h := v ]} k = None).
  { intros k Hhk. unfold header. rewrite lookup_singleton_ne; [done|]. intros ->. apply Hne. by rewrite <- Hk, handled_canonical. }
  rewrite !Hnone by (vm_compute; reflexivity). unfold header. rewrite !lookup_empty. cbn [default from_option foldl].
  assert (E1 : order {[ h := v ]} = [(h, v)]) by (apply Permutation_singleton_r; by rewrite Hord, map_to_list_singleton).
  assert (E0 : order ∅ = []) by (apply Permutation_nil_r; by rewrite Hord, map_to_list_empty).
  rewrite E1, E0. cbn [foldl]. rewrite Hk. change (handled_by_cors ACAOrigin) with true. done.
Qed.
End Theorems.

(** with the port of a TCP or UDP listener the default origins are the local host's
    at that port, over HTTP and HTTPS, and the browser extension's. *)
Theorem default_origins_local p :
  (0 <= p < 65536)%Z ->
  patch_origin (FormatInt p) <$> (defaultLocalhostOrigins ++ companionBrowserExtensionOrigins) =
  (("http://127.0.0.1:" +:+ FormatInt p) :: ("https://127.0.0.1:" +:+ FormatInt p) :: ("http://[::1]:" +:+ FormatInt p) :: ("https://[::1]:" +:+ FormatInt p) ::
   ("http://localhost:" +:+ FormatInt p) :: ("https://localhost:" +:+ FormatInt p) :: companionBrowserExtensionOrigins).
Proof.
  intros Hp. assert (E : FormatInt p <> "") by (apply FormatInt_ne; [unfold inS; lia|done]). unfold patch_origin. apply String.eqb_neq in E. rewrite E. cbn [negb].
  generalize (FormatInt p). intros n. clear. unfold defaultLocalhostOrigins, companionBrowserExtensionOrigins. cbn [app fmap list_fmap].
  assert (Hr : forall pre, (forall s, ReplaceAll (pre +:+ s) "<port>" n = pre +:+ ReplaceAll s "<port>" n) -> ReplaceAll (pre +:+ "<port>") "<port>" n = pre +:+ n).
  { intros pre Hpre. rewrite Hpre. f_equal. transitivity (n +:+ ""); [reflexivity|apply string_app_nil]. }
  apply (f_equal2 cons); [exact (Hr "http://127.0.0.1:" (fun s => eq_refl))|]. apply (f_equal2 cons); [exact (Hr "https://127.0.0.1:" (fun s => eq_refl))|].
  apply (f_equal2 cons); [exact (Hr "http://[::1]:" (fun s => eq_refl))|]. apply (f_equal2 cons); [exact (Hr "https://[::1]:" (fun s => eq_refl))|].
  apply (f_equal2 cons); [exact (Hr "http://localhost:" (fun s => eq_refl))|]. apply (f_equal2 cons); [exact (Hr "https://localhost:" (fun s => eq_refl))|]. reflexivity.
Qed.

(** the version check refuses exactly the requests of other releases of the same
    program for a command other than [version]; clients that do not name the
    program in their user agent, and paths outside the API, always pass. *)
Theorem version_check_exact d path ua :
  CheckVersion d path ua <> None <->
  (exists pre cmd rest, HasPrefix path APIPath = true /\ split_on slash (TrimPrefix path APIPath) = pre :: cmd :: rest /\ cmd <> "version") /\
  (Contains ua "/go-ipfs/" = true \/ Contains ua "/kubo/" = true) /\ ua <> d.
Proof.
  unfold CheckVersion. destruct (HasPrefix path APIPath); [|split; [done|by intros [(? & ? & ? & ? & _) _]]].
  destruct (split_on slash (TrimPrefix path APIPath)) as [|pre [|cmd rest]]; [split; [done|by intros [(? & ? & ? & _ & ? & _) _]]..|].
  destruct (String.eqb_spec cmd "version") as [-> |Hc]; cbn [negb andb].
  { split; [done|]. intros [(? & ? & ? & _ & [= <- <- <-] & Hn) _]. done. }
  destruct (Contains ua "/go-ipfs/" || Contains ua "/kubo/") eqn:Eu; cbn [andb].
  - apply orb_true_iff in Eu. destruct (String.eqb_spec d ua) as [-> |Hd]; cbn [negb]; [split; [done|by intros (_ & _ & ?)]|].
    split; [|done]. intros _. split_and!; [by exists pre, cmd, rest|done|done].
  - apply orb_false_iff in Eu as [E1 E2]. split; [done|]. rewrite E1, E2. by intros (_ & [?|?] & _).
Qed.

(** ** Witnesses *)
Module DemoHttp.

#[local] Instance plain : Cors.
Proof.
  refine {| cors := list string * list string * bool; NewCors := ([], [], false); AllowedOrigins := fun c => c.1.1; AllowedMethods := fun c => c.1.2; AllowCredentials := fun c => c.2;
    SetAllowedOrigins := fun l c => (l, c.1.2, c.2); AppendAllowedOrigins := fun l c => (c.1.1 ++ l, c.1.2, c.2);
    SetAllowedMethods := fun l c => (c.1.1, l, c.2); SetAllowCredentials := fun b c => (c.1.1, c.1.2, b) |}; reflexivity.
Defined.

Definition wildcard : http_headers := {[ "access-control-allow-origin" := Some ["*"] ]}.
Lemma cors_header_case_lost_witness :
  exists c, commandsOption map_to_list false (Ok wildcard) "" (TCPAddr 5001) = Ok c /\ commandsOption map_to_list false (Ok ∅) "" (TCPAddr 5001) = Ok c.
Proof.
  eexists. split; [reflexivity|]. symmetry. unfold wildcard.
  rewrite (cors_header_case_lost map_to_list false "access-control-allow-origin" (Some ["*"]) "" (TCPAddr 5001) _ _
    ltac:(vm_compute; reflexivity) ltac:(done) (fun m => Permutation_refl _) eq_refl eq_refl). reflexivity.
Defined.

Lemma default_origins_local_witness :
  patch_origin "5001" <$> (defaultLocalhostOrigins ++ companionBrowserExtensionOrigins) =
  "http://127.0.0.1:5001" :: "https://127.0.0.1:5001" :: "http://[::1]:5001" :: "https://[::1]:5001" ::
  "http://localhost:5001" :: "https://localhost:5001" :: companionBrowserExtensionOrigins.
Proof. exact (default_origins_local 5001 ltac:(lia)). Defined.
End DemoHttp.

(** ** Serving: [core/corehttp/corehttp.go] *)

Section Serving.
(** What a request carries besides its method, path and user agent, and what handlers reply. *)
Context {Rest Reply : Type}.

Record request := MkReq { Method : string; Path : string; UserAgent : string; req_rest : Rest }.
Inductive reply := Handled (a : Reply) | MovedTo (path : string) | NoHandler | Connected | BadVersion (msg : string).
Abbreviation handler := (request -> reply).

(** *** [http.ServeMux], with patterns that name no host *)

(** The path of a request without its dots and doubled slashes; a final slash stays. *)
Definition cleanPath (p : string) : string :=
  if String.eqb p "" then "/"
  else
    let p := match p with String c _ => if Ascii.eqb c slash then p else "/" +:+ p | EmptyString => p end in
    let np := Clean p in
    if HasSuffix p "/" && negb (String.eqb np "/") then np +:+ "/" else np.

Definition registered (mux : list (string * handler)) (pattern : string) : option handler := snd <$> List.find (fun e => String.eqb e.1 pattern) mux.

Definition is_registered (mux : list (string * handler)) (pattern : string) : bool := match registered mux pattern with Some _ => true | None => false end.

(** The longest of the patterns that end in a slash and begin the path. *)
Fixpoint longest (mux : list (string * handler)) (p : string) (best : option (string * handler)) : option (string * handler) :=
  match mux with
  | [] => best
  | e :: mux =>
      let better := HasSuffix e.1 "/" && HasPrefix p e.1 && match best with Some b => (String.length b.1 <? String.length e.1)%nat | None => true end in
      longest mux p (if better then Some e else best)
  end.

Definition mux_match (mux : list (string * handler)) (p : string) : option handler :=
  match registered mux p with
  | Some h => Some h
  | None => snd <$> longest mux p None
  end.

Definition mux_ServeHTTP (mux : list (string * handler)) (r : request) : reply :=
  let p := cleanPath (Path r) in
  if negb (is_registered mux p) && is_registered mux (p +:+ "/") && negb (HasSuffix p "/") then MovedTo (p +:+ "/")
  else if negb (String.eqb p (Path r)) then MovedTo p
  else match mux_match mux p with Some h => h r | None => NoHandler end.

(** [Handle] panics on a pattern it has. *)
Fixpoint Handle_all (hs : list (string * handler)) (mux : list (string * handler)) : outcome (list (string * handler)) :=
  match hs with
  | [] => Ret mux
  | e :: hs =>
      match registered mux e.1 with
      | Some _ => Panic ("http: multiple registrations for " +:+ e.1)
      | None => Handle_all hs (mux ++ [e])
      end
  end.

(** *** [makeHandler] *)

(** What an option does with the mux it is given: it registers handlers and hands the mux on, or
    it registers one for all paths, which may reply or pass the request, perhaps changed, to a
    new mux, and hands that one on. *)
Inductive served := Registers (hs : list (string * handler)) | Wraps (gate : request -> reply + request).

Definition gated (gate : request -> reply + request) (child : list (string * handler)) : handler := fun r =>
  match gate r with inl a => a | inr r => mux_ServeHTTP child r end.

(** The mux [here] once the remaining options have run. *)
Fixpoint make_mux (here : list (string * handler)) (options : list (result served)) : outcome (result (list (string * handler))) :=
  match options with
  | [] => Ret (Ok here)
  | Err e :: _ => Ret (Err e)
  | Ok (Registers hs) :: options =>
      match Handle_all hs here with Panic e => Panic e | Ret here => make_mux here options end
  | Ok (Wraps gate) :: options =>
      match registered here "/" with
      | Some _ => Panic ("http: multiple registrations for " +:+ "/")
      | None =>
          match make_mux [] options with
          | Ret (Ok child) => Ret (Ok (here ++ [("/", gated gate child)]))
          | r => r
          end
      end
  end.

Definition makeHandler (options : list (result served)) : outcome (result handler) :=
  match make_mux [] options with
  | Panic e => Panic e
  | Ret (Err e) => Ret (Err e)
  | Ret (Ok topMux) => Ret (Ok (fun r => if String.eqb (Method r) "CONNECT" then Connected else mux_ServeHTTP topMux r))
  end.

(** *** The options of the two servers of the daemon *)

(** [CheckVersionOption]. *)
Definition CheckVersionOption : served :=
  Wraps (fun r => match CheckVersion ApiVersion (Path r) (UserAgent r) with Some msg => inl (BadVersion msg) | None => inr r end).

Definition RedirectOption (path : string) (h : handler) : served :=
  Registers [(if (0 <? String.length path)%nat then "/" +:+ path +:+ "/" else "/", h)].
Definition GatewayOption (h : handler) (paths : list string) : served := Registers ((fun p => (p +:+ "/", h)) <$> paths).

Definition WebUIPath : string := "/ipfs/bafybeibjbq3tmmy7wuihhhwvbladjsd3gx3kfjepxzkq6wylik6wc3whzy".
Definition WebUIPaths : list string :=
  [WebUIPath;
   "/ipfs/bafybeiavrvt53fks6u32n5p2morgblcmck4bh4ymf4rrwu7ah5zsykmqqa";
   "/ipfs/bafybeiageaoxg6d7npaof6eyzqbwvbubyler7bq44hayik2hvqcggg7d2y";
   "/ipfs/bafybeidb5eryh72zajiokdggzo7yct2d6hhcflncji5im2y5w26uuygdsm";
   "/ipfs/bafybeibozpulxtpv5nhfa2ue3dcjx23ndh3gwr5vwllk7ptoyfwnfjjr4q";
   "/ipfs/bafybeiednzu62vskme5wpoj4bjjikeg3xovfpp4t7vxk5ty2jxdi4mv4bu";
   "/ipfs/bafybeihcyruaeza7uyjd6ugicbcrqumejf6uf353e5etdkhotqffwtguva";
   "/ipfs/bafybeiflkjt66aetfgcrgvv75izymd5kc47g6luepqmfq6zsf5w6ueth6y";
   "/ipfs/bafybeid26vjplsejg7t3nrh7mxmiaaxriebbm4xxrxxdunlk7o337m5sqq";
   "/ipfs/bafybeif4zkmu7qdhkpf3pnhwxipylqleof7rl6ojbe7mq3fzogz6m4xk3i";
   "/ipfs/bafybeianwe4vy7sprht5sm3hshvxjeqhwcmvbzq73u55sdhqngmohkjgs4";
   "/ipfs/bafybeicitin4p7ggmyjaubqpi3xwnagrwarsy6hiihraafk5rcrxqxju6m";
   "/ipfs/bafybeihpetclqvwb4qnmumvcn7nh4pxrtugrlpw4jgjpqicdxsv7opdm6e";
   "/ipfs/bafybeibnnxd4etu4tq5fuhu3z5p4rfu3buabfkeyr3o3s4h6wtesvvw6mu";
   "/ipfs/bafybeid6luolenf4fcsuaw5rgdwpqbyerce4x3mi3hxfdtp5pwco7h7qyq";
   "/ipfs/bafybeigkbbjnltbd4ewfj7elajsbnjwinyk6tiilczkqsibf3o7dcr6nn4";
   "/ipfs/bafybeicp23nbcxtt2k2twyfivcbrc6kr3l5lnaiv3ozvwbemtrb7v52r6i";
   "/ipfs/bafybeidatpz2hli6fgu3zul5woi27ujesdf5o5a7bu622qj6ugharciwjq";
   "/ipfs/QmfQkD8pBSBCBxWEwFSu4XaDVSWK6bjnNuaWZjMyQbyDub";
   "/ipfs/QmXc9raDM1M5G5fpBnVyQ71vR4gbnskwnB9iMEzBuLgvoZ";
   "/ipfs/QmenEBWcAk3tN94fSKpKFtUMwty1qNwSYw3DMDFV6cPBXA";
   "/ipfs/QmUnXcWZC5Ve21gUseouJsH5mLAyz5JPp8aHsg8qVUUK8e";
   "/ipfs/QmSDgpiHco5yXdyVTfhKxr3aiJ82ynz8V14QcGKicM3rVh";
   "/ipfs/QmRuvWJz1Fc8B9cTsAYANHTXqGmKR9DVfY5nvMD1uA2WQ8";
   "/ipfs/QmQLXHs7K98JNQdWrBB2cQLJahPhmupbDjRuH1b9ibmwVa";
   "/ipfs/QmXX7YRpU7nNBKfw75VG7Y1c3GwpSAGHRev67XVPgZFv9R";
   "/ipfs/QmXdu7HWdV6CUaUabd9q2ZeA4iHZLVyDRj3Gi4dsJsWjbr";
   "/ipfs/QmaaqrHyAQm7gALkRW8DcfGX3u8q9rWKnxEMmf7m9z515w";
   "/ipfs/QmSHDxWsMPuJQKWmVA1rB5a3NX2Eme5fPqNb63qwaqiqSp";
   "/ipfs/QmctngrQAt9fjpQUZr7Bx3BsXUcif52eZGTizWhvcShsjz";
   "/ipfs/QmS2HL9v5YeKgQkkWMvs1EMnFtUowTEdFfSSeMT4pos1e6";
   "/ipfs/QmR9MzChjp1MdFWik7NjEjqKQMzVmBkdK3dz14A6B5Cupm";
   "/ipfs/QmRyWyKWmphamkMRnJVjUTzSFSAAZowYP4rnbgnfMXC9Mr";
   "/ipfs/QmU3o9bvfenhTKhxUakbYrLDnZU7HezAVxPM6Ehjw9Xjqy";
   "/ipfs/QmPhnvn747LqwPYMJmQVorMaGbMSgA7mRRoyyZYz3DoZRQ";
   "/ipfs/QmQNHd1suZTktPRhP7DD4nKWG46ZRSxkwHocycHVrK3dYW";
   "/ipfs/QmNyMYhwJUS1cVvaWoVBhrW8KPj1qmie7rZcWo8f1Bvkhz";
   "/ipfs/QmVTiRTQ72qiH4usAGT4c6qVxCMv4hFMUH9fvU6mktaXdP";
   "/ipfs/QmYcP4sp1nraBiCYi6i9kqdaKobrK32yyMpTrM5JDA8a2C";
   "/ipfs/QmUtMmxgHnDvQq4bpH6Y9MaLN1hpfjJz5LZcq941BEqEXs";
   "/ipfs/QmPURAjo3oneGH53ovt68UZEBvsc8nNmEhQZEpsVEQUMZE";
   "/ipfs/QmeSXt32frzhvewLKwA1dePTSjkTfGVwTh55ZcsJxrCSnk";
   "/ipfs/QmcjeTciMNgEBe4xXvEaA4TQtwTRkXucx7DmKWViXSmX7m";
   "/ipfs/QmfNbSskgvTXYhuqP8tb9AKbCkyRcCy3WeiXwD9y5LeoqK";
   "/ipfs/QmPkojhjJkJ5LEGBDrAvdftrjAYmi9GU5Cq27mWvZTDieW";
   "/ipfs/Qmexhq2sBHnXQbvyP2GfUdbnY7HCagH2Mw5vUNSBn2nxip"].

(** The API server; [h] has the handler of each pattern, [oc] what the exporter registers. *)
Definition api_behind_check (h : string -> handler) (unrestricted : bool) (RootRedirect : string) : list served :=
  [Registers [(APIPath +:+ "/", h "commands")]; RedirectOption "webui" (h "webui");
   GatewayOption (h "gateway") (if unrestricted then ["/ipfs"; "/ipns"] else WebUIPaths);
   Registers [("/version", h "version")];
   Registers [("/debug/vars", h "debug")]; Registers [("/debug/pprof/", h "debug")]; Registers [("/debug/stack", h "debug")];
   Registers [("/debug/pprof-mutex/", h "mutex")]; Registers [("/debug/pprof-block/", h "block")];
   Registers [("/debug/metrics/prometheus", h "metrics")]; Registers [("/logs", h "logs")]] ++
  (if (0 <? String.length RootRedirect)%nat then [RedirectOption "" (h "root")] else []).

Definition api_options (h : string -> handler) (oc : list string) (unrestricted : bool) (RootRedirect : string) : list served :=
  Wraps inr :: Registers ((fun p => (p, h p)) <$> (oc ++ ["/debug/metrics/oc"])) :: Registers [] :: CheckVersionOption ::
  api_behind_check h unrestricted RootRedirect.

(** The gateway; [hostname] is the handler of [Hostname.v]. *)
Definition gateway_options (h : string -> handler) (hostname : request -> reply + request) (P2pHttpProxy : bool) (RootRedirect : string) : list served :=
  [Wraps inr; Wraps hostname; GatewayOption (h "gateway") ["/ipfs"; "/ipns"]; Registers [("/version", h "version")]; CheckVersionOption;
   Registers [(APIPath +:+ "/", h "commands")]] ++
  (if P2pHttpProxy then [Registers [("/p2p/", h "p2p")]] else []) ++
  (if (0 <? String.length RootRedirect)%nat then [RedirectOption "" (h "root")] else []).

(** *** Lemmas *)

Lemma prefix_length p q : HasPrefix p q = true -> (String.length q <= String.length p)%nat.
Proof.
  unfold HasPrefix. revert p. induction q as [| c q IH]; intros p; [cbn; lia |]. destruct p as [| d p]; [done |]. cbn.
  destruct (ascii_dec c d); [| done]. intros ?%IH. lia.
Qed.

(** A pattern that cannot take part in the choice of the handler of a path. *)
Definition unrelated (p q : string) : bool :=
  negb (String.eqb q p) && negb (String.eqb q (p +:+ "/")) && negb (HasSuffix q "/" && HasPrefix p q).

Lemma registered_app_none mux mux' p : registered mux p = None -> registered (mux ++ mux') p = registered mux' p.
Proof.
  unfold registered. induction mux as [| e mux IH]; [done |]. cbn. destruct (String.eqb e.1 p); [done |]. exact IH.
Qed.

Lemma registered_Some mux p h : registered mux p = Some h -> (p, h) ∈ mux.
Proof.
  unfold registered. destruct (List.find _ mux) as [[q h'] |] eqn:Hfind; [| done]. intros [= <-].
  apply find_some in Hfind as [Hin Heq%String.eqb_eq]. cbn in Heq. subst q. by apply list_elem_of_In.
Qed.

Lemma registered_None mux p : registered mux p = None -> forall h, ~ ((p, h) ∈ mux).
Proof.
  unfold registered. destruct (List.find _ mux) as [e |] eqn:Hfind; [done |]. intros _ h Hin.
  apply list_elem_of_In in Hin. pose proof (find_none _ _ Hfind _ Hin) as Hn. cbn in Hn. by rewrite String.eqb_refl in Hn.
Qed.

Lemma registered_elem mux p h : (p, h) ∈ mux -> is_registered mux p = true.
Proof. intros Hin. unfold is_registered. destruct (registered mux p) eqn:Hr; [done |]. by apply registered_None with (h := h) in Hr. Qed.

(** The handler of a pattern that ends in a slash serves a clean path below it when every other
    pattern has nothing to do with the path, except that there may be one for all paths. *)
Section Subtree.
Context (mux : list (string * handler)) (q : string) (h : handler) (p : string).
Hypothesis (Hslash : HasSuffix q "/" = true) (Hprefix : HasPrefix p q = true) (Hroot : HasPrefix p "/" = true).
Hypothesis (Hin : (q, h) ∈ mux).
Hypothesis (Hothers : forall e, e ∈ mux -> e = (q, h) \/ (e.1 = "/" /\ (1 < String.length q)%nat) \/ unrelated p e.1 = true).

Lemma unrelated_spec e : unrelated p e = true -> e <> p /\ e <> p +:+ "/" /\ (HasSuffix e "/" && HasPrefix p e) = false.
Proof. unfold unrelated. rewrite !andb_true_iff, !negb_true_iff, !String.eqb_neq. tauto. Qed.

Lemma longest_kept l : (forall e, e ∈ l -> e ∈ mux) -> longest l p (Some (q, h)) = Some (q, h).
Proof.
  induction l as [| e l IH]; intros Hl; [done |]. cbn [longest].
  assert (Hworse : HasSuffix e.1 "/" && HasPrefix p e.1 && (String.length q <? String.length e.1)%nat = false).
  { destruct (Hothers e (Hl e (list_elem_of_here _ _))) as [-> | [[He Hq] | (_ & _ & He)%unrelated_spec]]; cbn [fst].
    - by rewrite Nat.ltb_irrefl, andb_false_r.
    - rewrite He, (proj2 (Nat.ltb_ge _ _)) by (cbn; lia). by rewrite andb_false_r.
    - by rewrite He. }
  cbn [fst]. rewrite Hworse. apply IH. intros; apply Hl; by apply list_elem_of_further.
Qed.

Lemma longest_found l best :
  (forall e, e ∈ l -> e ∈ mux) -> (q, h) ∈ l -> (best = None \/ exists h', best = Some ("/", h') /\ (1 < String.length q)%nat) ->
  longest l p best = Some (q, h).
Proof.
  revert best. induction l as [| e l IH]; intros best Hl Hq Hbest; [by apply not_elem_of_nil in Hq |]. cbn [longest].
  assert (Hl' : forall e, e ∈ l -> e ∈ mux) by (intros; apply Hl; by apply list_elem_of_further).
  destruct (Hothers e (Hl e (list_elem_of_here _ _))) as [-> | [[He Hlen] | (Hn1 & Hn2 & He)%unrelated_spec]].
  - cbn [fst]. rewrite Hslash, Hprefix. cbn [andb].
    destruct Hbest as [-> | (h' & -> & Hlen)]; [by apply longest_kept |]. cbn [fst String.length].
    rewrite (proj2 (Nat.ltb_lt _ _)) by done. by apply longest_kept.
  - apply elem_of_cons in Hq as [<- | Hq]; [cbn in He; rewrite He in Hlen; cbn in Hlen; lia |]. apply IH; [done | done |].
    destruct (_ && _ && _); [| destruct Hbest as [-> | Hbest]; [by left | by right]].
    right. exists e.2. split; [by rewrite <-He; destruct e | done].
  - rewrite He. apply IH; [done | | done]. apply elem_of_cons in Hq as [<- | Hq]; [| done]. cbn [fst] in He. by rewrite Hslash, Hprefix in He.
Qed.

Lemma slash_longer : (1 < String.length q)%nat -> p <> "/".
Proof.
  intros Hlen ->. apply prefix_length in Hprefix. cbn in Hprefix. lia.
Qed.

Lemma mux_match_subtree : mux_match mux p = Some h.
Proof.
  unfold mux_match. destruct (registered mux p) as [h' |] eqn:Hr.
  - apply registered_Some in Hr. f_equal. destruct (Hothers _ Hr) as [[= _ ->] | [[He Hlen] | (Hn & _ & _)%unrelated_spec]]; [done | | done].
    cbn in He. by apply slash_longer in Hlen.
  - rewrite longest_found; [done | done | done | by left].
Qed.

Lemma ServeHTTP_subtree r : Path r = p -> cleanPath p = p -> mux_ServeHTTP mux r = h r.
Proof.
  intros Hpath Hclean. unfold mux_ServeHTTP. rewrite Hpath, Hclean, String.eqb_refl. cbn [negb].
  rewrite mux_match_subtree.
  destruct (negb (is_registered mux p) && is_registered mux (p +:+ "/") && negb (HasSuffix p "/")) eqn:Hmoved; [exfalso | done].
  rewrite !andb_true_iff, !negb_true_iff in Hmoved. destruct Hmoved as [[_ Hreg] _]. unfold is_registered in Hreg.
  destruct (registered mux (p +:+ "/")) as [h2 |] eqn:Hr; [| done]. apply registered_Some in Hr.
  pose proof (prefix_length _ _ Hprefix) as Hle. pose proof (prefix_length _ _ Hroot) as Hpos. cbn in Hpos.
  destruct (Hothers _ Hr) as [[= Heq _] | [[He Hlen] | (_ & Hn & _)%unrelated_spec]]; cbn [fst] in *.
  - rewrite <-Heq, string_app_length in Hle. cbn in Hle. lia.
  - apply (f_equal String.length) in He. rewrite string_app_length in He. cbn in He. lia.
  - done.
Qed.
End Subtree.

Lemma Handle_all_ok hs mux : NoDup (mux ++ hs).*1 -> Handle_all hs mux = Ret (mux ++ hs).
Proof.
  revert mux. induction hs as [| e hs IH]; intros mux Hnd; cbn [Handle_all]; [by rewrite app_nil_r |].
  destruct (registered mux e.1) as [h |] eqn:Hr.
  - exfalso. apply registered_Some, (list_elem_of_fmap_2 fst) in Hr. rewrite fmap_app in Hnd. apply NoDup_app in Hnd as (_ & Hdis & _).
    apply (Hdis _ Hr). apply list_elem_of_here.
  - rewrite IH; [by rewrite <-app_assoc |]. by rewrite <-app_assoc.
Qed.

Lemma Handle_all_app hs mux mux' : Handle_all hs mux = Ret mux' -> mux' = mux ++ hs.
Proof.
  revert mux. induction hs as [| e hs IH]; intros mux; cbn [Handle_all]; [intros [= <-]; by rewrite app_nil_r |].
  destruct (registered mux e.1); [done |]. intros ->%IH. by rewrite <-app_assoc.
Qed.

Lemma make_mux_registers hs here options m :
  make_mux here (Ok (Registers hs) :: options) = Ret (Ok m) -> make_mux (here ++ hs) options = Ret (Ok m).
Proof. cbn [make_mux]. destruct (Handle_all hs here) as [mux' |] eqn:Hh; [| done]. by apply Handle_all_app in Hh as ->. Qed.

Lemma make_mux_wraps gate here options m :
  make_mux here (Ok (Wraps gate) :: options) = Ret (Ok m) ->
  exists child, make_mux [] options = Ret (Ok child) /\ m = here ++ [("/", gated gate child)].
Proof.
  cbn [make_mux]. destruct (registered here "/"); [done |]. destruct (make_mux [] options) as [[child |] |]; [| done | done].
  intros [= <-]. by exists child.
Qed.

Lemma make_mux_all_register (hss : list (list (string * handler))) here m :
  make_mux here ((fun hs => Ok (Registers hs)) <$> hss) = Ret (Ok m) -> m = here ++ concat hss.
Proof.
  revert here. induction hss as [| hs hss IH]; intros here; [intros [= <-]; by rewrite app_nil_r |].
  intros Hm%make_mux_registers%IH. by rewrite Hm, <-app_assoc.
Qed.

(** A request whose path is clean and no pattern but that of a wrapping option fits goes to its
    gate, and to the later options only as the gate passes it on. *)
Lemma ServeHTTP_gate before gate child r :
  cleanPath (Path r) = Path r -> HasPrefix (Path r) "/" = true -> (forall e, e ∈ before -> unrelated (Path r) e.1 = true) ->
  mux_ServeHTTP (before ++ [("/", gated gate child)]) r = gated gate child r.
Proof.
  intros Hclean Hroot Hbefore. apply (ServeHTTP_subtree _ "/" (gated gate child) (Path r)); [done | done | done | | | done | done].
  - apply elem_of_app. right. left.
  - intros e [He | ->%list_elem_of_singleton]%elem_of_app; [right; right; by apply Hbefore | by left].
Qed.

Lemma below_prefix p q : HasPrefix p q = true -> exists t, p = q +:+ t.
Proof. intros Hp. by apply prefix_iff. Qed.

(** *** Theorems *)

Definition api_root : string := APIPath +:+ "/".

(** What the commands are behind, on both servers: a version that does not match is refused. *)
Definition checked (commands : handler) : handler := fun r =>
  match CheckVersion ApiVersion (Path r) (UserAgent r) with Some msg => BadVersion msg | None => commands r end.

Lemma api_child_checked child commands r :
  cleanPath (Path r) = Path r -> HasPrefix (Path r) api_root = true ->
  (api_root, commands) ∈ child -> (forall e, e ∈ child -> e = (api_root, commands) \/ e.1 = "/" \/ unrelated (Path r) e.1 = true) ->
  gated (fun r => match CheckVersion ApiVersion (Path r) (UserAgent r) with Some msg => inl (BadVersion msg) | None => inr r end) child r = checked commands r.
Proof.
  intros Hclean Hprefix Hin Hothers. unfold gated, checked. destruct (CheckVersion _ _ _); [done |].
  apply (ServeHTTP_subtree child api_root commands (Path r)); [done | done | | done | | done | done].
  - by apply below_prefix in Hprefix as (t & ->).
  - intros e He. destruct (Hothers e He) as [? | [? | ?]]; [by left | right; left; split; [done | vm_compute; lia] | by right; right].
Qed.

(** The other patterns of a mux that starts with the commands are for all paths or have nothing
    to do with [p]. *)
Definition beside_api (p : string) (rest : list (string * handler)) : bool :=
  forallb (fun q => String.eqb q "/" || unrelated p q) rest.*1.

Lemma beside_api_spec p commands rest e :
  beside_api p rest = true -> e ∈ (api_root, commands) :: rest ->
  e = (api_root, commands) \/ e.1 = "/" \/ unrelated p e.1 = true.
Proof.
  unfold beside_api. rewrite forallb_forall. intros Hall [-> | He]%elem_of_cons; [by left | right].
  apply (list_elem_of_fmap_2 fst), list_elem_of_In, Hall, orb_true_iff in He as [?%String.eqb_eq | ?]; auto.
Qed.

Lemma debug_unrelated t q : HasPrefix q "/debug/" = true -> unrelated (api_root +:+ t) q = true.
Proof. intros (u & ->)%below_prefix. unfold unrelated. cbn. by rewrite andb_false_r. Qed.

(** Every request of the API server below the API's path, but those that are redirected, gets the
    reply of the commands behind the version check, whatever other options the server has. *)
Theorem api_requests_checked h oc unrestricted root f r :
  Forall (fun p => HasPrefix p "/debug/" = true) oc ->
  makeHandler (Ok <$> api_options h oc unrestricted root) = Ret (Ok f) ->
  Method r <> "CONNECT" -> cleanPath (Path r) = Path r -> HasPrefix (Path r) api_root = true ->
  f r = checked (h "commands") r.
Proof.
  intros Hoc Hf Hmethod Hclean Hprefix. unfold makeHandler in Hf. destruct (make_mux [] _) as [[m |] |] eqn:Hm; [| done | done].
  injection Hf as <-. rewrite (proj2 (String.eqb_neq _ _) Hmethod). unfold api_options, api_behind_check in Hm. cbn [fmap list_fmap] in Hm.
  apply make_mux_wraps in Hm as (child & Hm & ->). apply make_mux_registers, make_mux_registers, make_mux_wraps in Hm as (child' & Hm & ->).
  destruct (below_prefix _ _ Hprefix) as (t & Ht).
  assert (Hroot : HasPrefix (Path r) "/" = true) by (by rewrite Ht).
  rewrite (ServeHTTP_gate []); [| done | done | by intros e ?%not_elem_of_nil]. unfold gated at 1. rewrite app_nil_r, app_nil_l.
  rewrite ServeHTTP_gate; [| done | done |].
  - assert (Hrest : exists rest, child' = (api_root, h "commands") :: rest /\ beside_api (Path r) rest = true).
    { rewrite Ht. destruct unrestricted, (0 <? String.length root)%nat eqn:Hlen; cbn [app fmap list_fmap] in Hm;
      repeat apply make_mux_registers in Hm; injection Hm as <-; eexists; (split; [reflexivity | vm_compute; reflexivity]). }
    destruct Hrest as (rest & -> & Hrest). apply api_child_checked; [done | done | left |]. intros e. by apply beside_api_spec.
  - intros e (q & -> & [Hq | ->%list_elem_of_singleton]%elem_of_app)%list_elem_of_fmap; cbn [fst]; rewrite Ht; apply debug_unrelated; [| done].
    by apply (proj1 (Forall_forall _ _) Hoc).
Qed.

(** The same on the gateway, for what the handler of host names passes on. *)
Theorem gateway_requests_checked h hostname proxy root f r r' :
  makeHandler (Ok <$> gateway_options h hostname proxy root) = Ret (Ok f) ->
  Method r <> "CONNECT" -> cleanPath (Path r) = Path r -> HasPrefix (Path r) "/" = true -> hostname r = inr r' ->
  cleanPath (Path r') = Path r' -> HasPrefix (Path r') api_root = true ->
  f r = checked (h "commands") r'.
Proof.
  intros Hf Hmethod Hclean Hroot Hhost Hclean' Hprefix. unfold makeHandler in Hf. destruct (make_mux [] _) as [[m |] |] eqn:Hm; [| done | done].
  injection Hf as <-. rewrite (proj2 (String.eqb_neq _ _) Hmethod). unfold gateway_options in Hm. rewrite fmap_app in Hm. cbn [fmap list_fmap] in Hm.
  apply make_mux_wraps in Hm as (child & Hm & ->). apply make_mux_wraps in Hm as (child' & Hm & ->).
  apply make_mux_registers, make_mux_registers, make_mux_wraps in Hm as (child & Hm & ->).
  destruct (below_prefix _ _ Hprefix) as (t & Ht).
  rewrite (ServeHTTP_gate []); [| done | done | by intros e ?%not_elem_of_nil]. unfold gated at 1.
  rewrite (ServeHTTP_gate []); [| done | done | by intros e ?%not_elem_of_nil]. unfold gated at 1. rewrite Hhost.
  rewrite ServeHTTP_gate; [| done | by rewrite Ht |].
  - assert (Hrest : exists rest, child = (api_root, h "commands") :: rest /\ beside_api (Path r') rest = true).
    { rewrite Ht. destruct proxy, (0 <? String.length root)%nat eqn:Hlen; cbn [app] in Hm;
      repeat apply make_mux_registers in Hm; injection Hm as <-; eexists; (split; [reflexivity | vm_compute; reflexivity]). }
    destruct Hrest as (rest & -> & Hrest). apply api_child_checked; [done | done | left |]. intros e. by apply beside_api_spec.
  - intros e He. rewrite Ht. cbn in He. repeat (apply elem_of_cons in He as [-> | He]; [vm_compute; reflexivity |]). by apply not_elem_of_nil in He.
Qed.

(** No two options of the API server register the same pattern on a mux, so that it starts. *)
Theorem api_options_start h oc unrestricted root :
  NoDup (oc ++ ["/debug/metrics/oc"]) -> ~ ("/" ∈ oc) -> exists f, makeHandler (Ok <$> api_options h oc unrestricted root) = Ret (Ok f).
Proof.
  intros Hnd Hslash. unfold makeHandler, api_options.
  assert (Hrest : exists m, make_mux [] (Ok <$> api_behind_check h unrestricted root) = Ret (Ok m)).
  { unfold api_behind_check. destruct unrestricted, (0 <? String.length root)%nat; vm_compute; eauto. }
  destruct Hrest as [child Hrest]. cbn [fmap list_fmap make_mux registered List.find]. rewrite Handle_all_ok, app_nil_l.
  - cbn [Handle_all make_mux CheckVersionOption]. fold (list_fmap served (result served) Ok). rewrite Hrest.
    destruct (registered _ "/") as [h' |] eqn:Hr; [| cbn; eauto].
    apply registered_Some, (list_elem_of_fmap_2 fst) in Hr. rewrite <-list_fmap_compose, list_fmap_id in Hr.
    by apply elem_of_app in Hr as [? | ?%list_elem_of_singleton].
  - by rewrite app_nil_l, <-list_fmap_compose, list_fmap_id.
Qed.

Theorem gateway_options_start h hostname proxy root : exists f, makeHandler (Ok <$> gateway_options h hostname proxy root) = Ret (Ok f).
Proof. unfold gateway_options. destruct proxy, (0 <? String.length root)%nat; eexists; reflexivity. Qed.

(** *** [Serve] *)

Inductive server_state := Serving | Exited (e : option error).
Inductive serve_phase := Selecting | Terminating (shutdown : option error) | Returned (e : option error).
(** [closing]: whether the node's process is closing; [lis_open]: whether the listener is open. *)
Record serve_state := MkServe { closing : bool; lis_open : bool; server : server_state; phase : serve_phase }.

(** Up to the goroutine of the server; every return closes the listener. *)
Definition Serve_start (options : list (result served)) (addr : result string) (node_closing : bool) : outcome (result handler * serve_state) :=
  let returns e := Ret (Err e, MkServe node_closing false (Exited None) (Returned (Some e))) in
  match makeHandler options with
  | Panic e => Panic e
  | Ret (Err e) => returns e
  | Ret (Ok handler) =>
      match addr with
      | Err e => returns e
      | Ok _ =>
          if node_closing then returns "failed to start server, process closing"
          else Ret (Ok handler, MkServe node_closing true Serving Selecting)
      end
  end.

(** The server may end by itself, and does when it is shut down; the node may start to close at
    any time. *)
Inductive serve_step : serve_state -> serve_state -> Prop :=
| serve_closing o sv ph : serve_step (MkServe false o sv ph) (MkServe true o sv ph)
| serve_exit c o ph e : serve_step (MkServe c o Serving ph) (MkServe c false (Exited e) ph)
| serve_ended c o e : serve_step (MkServe c o (Exited e) Selecting) (MkServe c false (Exited e) (Returned e))
| serve_shutdown o sv e : serve_step (MkServe true o sv Selecting) (MkServe true false sv (Terminating e))
| serve_terminated c o e' e : serve_step (MkServe c o (Exited e') (Terminating e)) (MkServe c false (Exited e') (Returned e)).

(** When [Serve] has returned, its listener is closed and its server has ended; and once the node
    is closing it can always come to that. *)
Theorem serve_returns options addr node_closing hd s s' :
  Serve_start options addr node_closing = Ret (hd, s) -> rtc serve_step s s' ->
  (forall e, phase s' = Returned e -> lis_open s' = false /\ server s' <> Serving) /\
  (closing s' = true -> exists s'', rtc serve_step s' s'' /\ exists e, phase s'' = Returned e).
Proof.
  intros Hstart Hsteps. assert (Hinv : forall e, phase s' = Returned e -> lis_open s' = false /\ server s' <> Serving).
  { assert (Hs : forall e, phase s = Returned e -> lis_open s = false /\ server s <> Serving).
    { unfold Serve_start in Hstart. destruct (makeHandler options) as [[f |] |]; [| by injection Hstart as <- <- | done].
      destruct addr; [| by injection Hstart as <- <-]. destruct node_closing; by injection Hstart as <- <-. }
    clear Hstart. induction Hsteps as [s | s s1 s' Hstep _ IH]; [done |]. apply IH. clear IH.
    destruct Hstep; cbn in *; intros e2 He; naive_solver. }
  split; [done |]. intros Hclosing. destruct s' as [c o sv ph]. cbn in Hclosing. subst c.
  assert (Hterm : forall o sv e, exists s'', rtc serve_step (MkServe true o sv (Terminating e)) s'' /\ exists e, phase s'' = Returned e).
  { intros o' [| e'] e; [exists (MkServe true false (Exited None) (Returned e)) | exists (MkServe true false (Exited e') (Returned e))];
      (split; [| by exists e]); [| apply rtc_once, serve_terminated].
    eapply rtc_l; [apply (serve_exit _ _ _ None) | apply rtc_once, serve_terminated]. }
  destruct ph as [| e | e]; [| apply Hterm | exists (MkServe true o sv (Returned e)); split; [apply rtc_refl | by exists e]].
  destruct (Hterm false sv None) as (s'' & Hrun & Hret). exists s''. split; [| done]. eapply rtc_l; [apply (serve_shutdown _ _ None) | done].
Qed.
End Serving.

Module DemoServing.
Definition h (s : string) : request (Rest := unit) -> reply (Reply := string) := fun _ => Handled s.
Definition ask (p ua : string) : request := MkReq "POST" p ua tt.

Lemma api_options_start_witness : exists f, makeHandler (Ok <$> api_options h ["/debug/metrics/oc/debugz/rpcz"] false "") = Ret (Ok f).
Proof. apply (api_options_start h ["/debug/metrics/oc/debugz/rpcz"] false ""); [repeat constructor; set_solver | set_solver]. Defined.

Definition reply_of (options : list (served (Rest := unit) (Reply := string))) (r : request) : option reply :=
  match makeHandler (Ok <$> options) with Ret (Ok f) => Some (f r) | _ => None end.
Example routes : reply_of (api_options h [] false "/x") <$> [ask "/api/v0/id" "curl"; ask "/api/v0/id" "/kubo/0.1/"; ask "/webui" ""; ask "/ipfs/x" ""; ask "/logs/../version" ""] =
  [Some (Handled "commands"); Some (BadVersion "api version mismatch (/kubo/0.18.0.dev20221203/ != /kubo/0.1/)"); Some (MovedTo "/webui/"); Some (Handled "root"); Some (MovedTo "/version")].
Proof. vm_compute. reflexivity. Qed.

Lemma api_requests_checked_witness : exists f, makeHandler (Ok <$> api_options h [] false "") = Ret (Ok f) /\ f (ask "/api/v0/id" "curl") = Handled "commands".
Proof.
  assert (Hstart : exists f, makeHandler (Ok <$> api_options h [] false "") = Ret (Ok f)) by (eexists; reflexivity).
  destruct Hstart as [f Hf]. exists f. split; [exact Hf |].
  rewrite (api_requests_checked h [] false "" f (ask "/api/v0/id" "curl")); [reflexivity | constructor | exact Hf | done | reflexivity | reflexivity].
Defined.

Lemma gateway_requests_checked_witness : exists f, makeHandler (Ok <$> gateway_options h inr false "") = Ret (Ok f) /\ f (ask "/api/v0/id" "curl") = Handled "commands".
Proof.
  assert (Hstart : exists f, makeHandler (Ok <$> gateway_options h inr false "") = Ret (Ok f)) by (eexists; reflexivity).
  destruct Hstart as [f Hf]. exists f. split; [exact Hf |].
  rewrite (gateway_requests_checked h inr false "" f (ask "/api/v0/id" "curl") (ask "/api/v0/id" "curl"));
    [reflexivity | exact Hf | done | reflexivity | reflexivity | reflexivity | reflexivity | reflexivity].
Defined.

Lemma serve_returns_witness : exists s'' : serve_state, rtc serve_step (MkServe true true Serving Selecting) s'' /\ exists e, phase s'' = Returned e.
Proof.
  destruct (Serve_start (Rest := unit) (Reply := string) [] (Ok "/ip4/127.0.0.1/tcp/5001") false) as [[hd s] |] eqn:Hs; [| vm_compute in Hs; discriminate Hs].
  apply (serve_returns (Rest := unit) (Reply := string) [] (Ok "/ip4/127.0.0.1/tcp/5001") false hd s (MkServe true true Serving Selecting) Hs); [| reflexivity].
  injection Hs as <- <-. apply rtc_once, serve_closing.
Defined.
End DemoServing.
