(* ===== verification/NodeLibp2p.v ===== *)
(** Parts of the libp2p node: the addresses it announces and the address filters
    ([core/node/libp2p/addrs.go]), the counting of exceeded resource limits
    ([rcmgr_logging.go]), and the limit on file descriptors the daemon raises
    ([cmd/ipfs/util/ulimit.go]). *)
From Stdlib Require Import ZArith Lia Ascii String.
From stdpp Require Import base strings gmap list.
From S2P Require Import Prelude GoStrings BootstrapCmd Swarm.

Local Open Scope Z_scope.

(** ** Announced addresses *)

(** The masks of [Swarm.v]; [AddrBlocked] says whether an address is under one of the
    denied ones. *)
Section Addrs.
Context `{P2pAddrs} `{AddrFilters} (NewFilters : Filters) (AddrBlocked : Filters -> Maddr -> bool).

(** The masks of [Swarm.AddrFilters] in the configuration. *)
Fixpoint addr_filters (filters : list string) (f : Filters) : Filters * option error :=
  match filters with
  | [] => (f, None)
  | s :: filters =>
      match NewMask s with
      | Err _ => (f, Some ("incorrectly formatted address filter in config: " +:+ s))
      | Ok m => addr_filters filters (AddFilter m f)
      end
  end.

(** [AppendAnnounce] without what is on the list of announced addresses. *)
Fixpoint append_announce (existing : gset string) (appendAnnounce : list string) : result (list Maddr) :=
  match appendAnnounce with
  | [] => Ok []
  | addr :: rest =>
      if decide (addr ∈ existing) then append_announce existing rest
      else match Parse addr with
      | Err e => Err e
      | Ok a => match append_announce existing rest with Err e => Err e | Ok l => Ok (a :: l) end
      end
  end.

(** [NoAnnounce]: masks and single addresses. *)
Fixpoint no_announce (l : list string) (filters : Filters) (noAnnAddrs : list Maddr) : result (Filters * list Maddr) :=
  match l with
  | [] => Ok (filters, noAnnAddrs)
  | addr :: l =>
      match NewMask addr with
      | Ok f => no_announce l (AddFilter f filters) noAnnAddrs
      | Err _ =>
          match Parse addr with
          | Err e => Err e
          | Ok maddr => no_announce l filters (maddr :: noAnnAddrs)
          end
      end
  end.

Definition makeAddrsFactory (announce appendAnnounce noAnnounce : list string) : result (list Maddr -> list Maddr) :=
  match parse_all announce with
  | Err e => Err e
  | Ok annAddrs =>
      match append_announce (list_to_set announce) appendAnnounce with
      | Err e => Err e
      | Ok appendAnnAddrs =>
          match no_announce noAnnounce NewFilters [] with
          | Err e => Err e
          | Ok (filters, noAnnAddrs) =>
              Ok (fun allAddrs =>
                let addrs := (match annAddrs with [] => allAddrs | _ => annAddrs end) ++ appendAnnAddrs in
                filter (fun maddr => negb (bool_decide (maddr ∈ noAnnAddrs)) && negb (AddrBlocked filters maddr) = true) addrs)
          end
      end
  end.

Definition listenAddresses (addresses : list string) : result (list Maddr) :=
  match parse_all addresses with
  | Err _ => Err ("failure to parse config.Addresses.Swarm: [" +:+ String.concat " " addresses +:+ "]")
  | Ok l => Ok l
  end.

(** [Listen] and [ifaces] are the host's network. *)
Definition StartListening {N} (Listen : list Maddr -> N -> option error * N) (ifaces : N -> option error) (addresses : list string) (n : N) : option error * N :=
  match listenAddresses addresses with
  | Err e => (Some e, n)
  | Ok listenAddrs =>
      match Listen listenAddrs n with
      | (Some e, n) => (Some e, n)
      | (None, n) => (ifaces n, n)
      end
  end.
End Addrs.

(** ** Exceeded resource limits *)

(** An error of the resource manager: whether it is one of an exceeded limit, and the
    text of the error it wraps. *)
Record rc_error := MkRcError { limit_exceeded : bool; unwrapped : option string }.

(** The counts, nil at first, and what was logged: a count and a text each. *)
Record loggingResourceManager := MkLogging { limitExceededErrs : option (gmap string Z); logged : list (Z * string) }.

Definition countErrs (err : option rc_error) (n : loggingResourceManager) : loggingResourceManager :=
  match err with
  | Some e =>
      if limit_exceeded e then
        let m := default ∅ (limitExceededErrs n) in
        MkLogging (Some (match unwrapped e with Some t => <[t := default 0 (m !! t) + 1]> m | None => m end)) (logged n)
      else n
  | None => n
  end.

(** A tick of the goroutine [start] runs. *)
Definition log_tick (order : gmap string Z -> list (string * Z)) (n : loggingResourceManager) : loggingResourceManager :=
  MkLogging (Some ∅) (logged n ++ ((fun kv => (kv.2, kv.1)) <$> order (default ∅ (limitExceededErrs n)))).

Inductive log_op := OpCount (err : option rc_error) | OpTick.
Definition log_apply (order : gmap string Z -> list (string * Z)) (o : log_op) : loggingResourceManager -> loggingResourceManager :=
  match o with OpCount err => countErrs err | OpTick => log_tick order end.

(** ** File descriptors *)

Definition minFds : Z := 2048.
Definition maxFds : Z := 8192.

(** [strconv.ParseUint(val, 10, 64)] of the variable [IPFS_FD_MAX]. *)
Definition userMaxFDs (val : string) : Z :=
  if String.eqb val "" then 0
  else match parse_digits 0 val with Some n => if n <? 2 ^ 64 then n else 0 | None => 0 end.

Inductive set_outcome := SetOk | EPERM | SetFailed (e : error).

(** [getLimit] and [setLimit] over the limits of the process. *)
Section Ulimit.
Context {K : Type} (getLimit : K -> result (Z * Z)) (setLimit : Z -> Z -> K -> set_outcome * K).

Definition ManageFdLimit (supported : bool) (env : string) (k : K) : bool * Z * option error * K :=
  if negb supported then (false, 0, None, k)
  else
    let userLimit := userMaxFDs env in
    let targetLimit := if 0 <? userLimit then userLimit else maxFds in
    match getLimit k with
    | Err e => (false, 0, Some e, k)
    | Ok (soft, hard) =>
        if targetLimit <=? soft then (false, 0, None, k)
        else
          match setLimit targetLimit targetLimit k with
          | (SetOk, k) => (0 <? targetLimit, targetLimit, None, k)
          | (SetFailed e, k) => (false, 0, Some ("error setting: ulimit: " +:+ e), k)
          | (EPERM, k) =>
              let targetLimit := if hard <? targetLimit then hard else targetLimit in
              match setLimit targetLimit hard k with
              | (SetOk, k) =>
                  (0 <? targetLimit, targetLimit,
                   if targetLimit <? userLimit
                   then Some ("failed to raise ulimit to IPFS_FD_MAX (" +:+ FormatInt userLimit +:+ "): set to " +:+ FormatInt targetLimit)
                   else if (userLimit =? 0) && (targetLimit <? minFds)
                   then Some ("failed to raise ulimit to minimum " +:+ FormatInt minFds +:+ ": set to " +:+ FormatInt targetLimit)
                   else None, k)
              | (EPERM, k) => (false, 0, Some "error setting ulimit without hard limit: operation not permitted", k)
              | (SetFailed e, k) => (false, 0, Some ("error setting ulimit without hard limit: " +:+ e), k)
              end
          end
    end.
End Ulimit.

(** ** Lemmas *)

Section AddrLemmas.
Context `{P2pAddrs} `{AddrFilters}.

Lemma append_announce_spec existing l out : append_announce existing l = Ok out ->
  Forall2 (fun s a => Parse s = Ok a) (filter (fun s => s ∉ existing) l) out.
Proof.
  revert out. induction l as [|s l IH]; intros out; cbn [append_announce]; [intros [= <-]; constructor|].
  case_decide as Hs; [rewrite filter_cons_False by tauto; apply IH|]. rewrite filter_cons_True by done.
  destruct (Parse s) as [a|] eqn:E; [|done]. destruct (append_announce existing l) as [out'|]; [|done]. intros [= <-]. constructor; auto.
Qed.

Definition masks_of (l : list string) : list string := omap (fun s => match NewMask s with Ok m => Some m | Err _ => None end) l.
Definition singles_of (l : list string) : list Maddr :=
  omap (fun s => match NewMask s, Parse s with Err _, Ok a => Some a | _, _ => None end) l.

Lemma no_announce_spec l f acc f' acc' : no_announce l f acc = Ok (f', acc') ->
  denied f' = list_to_set (masks_of l) ∪ denied f /\ (forall a, a ∈ acc' <-> a ∈ acc \/ a ∈ singles_of l) /\
  Forall (fun s => (exists m, NewMask s = Ok m) \/ exists a, Parse s = Ok a) l.
Proof.
  revert f acc. induction l as [|s l IH]; intros f acc; cbn [no_announce].
  { intros [= <- <-]. cbn. split_and!; [set_solver|set_solver|constructor]. }
  unfold masks_of, singles_of. cbn [omap list_omap]. destruct (NewMask s) as [m|e] eqn:Em.
  - intros (H1 & H2 & H3)%IH. rewrite H1, AddFilter_denied. fold (masks_of l) (singles_of l). split_and!; [cbn; set_solver|done|constructor; eauto].
  - destruct (Parse s) as [a|] eqn:Ea; [|done]. intros (H1 & H2 & H3)%IH. fold (masks_of l) (singles_of l). split_and!; [done| |constructor; eauto].
    intros b. rewrite H2, !elem_of_cons. tauto.
Qed.
End AddrLemmas.

(** The times a text was counted, in the operations, the logs and the pending counts. *)
Definition counts_of (t : string) (o : log_op) : Z :=
  match o with OpCount (Some (MkRcError true (Some u))) => if decide (u = t) then 1 else 0 | _ => 0 end.
Definition sumZ (l : list Z) : Z := foldr Z.add 0 l.
Definition logged_of (t : string) (l : list (Z * string)) : Z := sumZ ((fun x => if decide (x.2 = t) then x.1 else 0) <$> l).
Definition pending_of (t : string) (n : loggingResourceManager) : Z := default 0 (default ∅ (limitExceededErrs n) !! t).

Lemma sumZ_app a b : sumZ (a ++ b) = sumZ a + sumZ b.
Proof. unfold sumZ. induction a as [|x a IH]; cbn; [done|]. rewrite IH. lia. Qed.

Lemma logged_of_app t a b : logged_of t (a ++ b) = logged_of t a + logged_of t b.
Proof. unfold logged_of. by rewrite fmap_app, sumZ_app. Qed.

Lemma logged_of_map t (l : list (string * Z)) : NoDup l.*1 ->
  logged_of t ((fun kv => (kv.2, kv.1)) <$> l) = default 0 ((list_to_map l : gmap string Z) !! t).
Proof.
  unfold logged_of. induction l as [|[k v] l IH]; intros Hd; [done|]. cbn [fmap list_fmap fst snd] in *. apply NoDup_cons in Hd as [Hk Hd].
  cbn [sumZ foldr list_to_map]. fold (sumZ ((fun x : Z * string => if decide (x.2 = t) then x.1 else 0) <$> ((fun kv => (kv.2, kv.1)) <$> l))).
  rewrite IH by done. case_decide as Ht.
  - subst k. rewrite lookup_insert_eq. cbn. rewrite (not_elem_of_list_to_map_1 l t Hk). cbn. lia.
  - rewrite lookup_insert_ne by done. lia.
Qed.

Lemma parse_digits_nonneg acc s n : 0 <= acc -> parse_digits acc s = Some n -> 0 <= n.
Proof.
  revert acc. induction s as [|c s IH]; intros acc Ha; cbn [parse_digits]; [by intros [= <-]|].
  destruct (digit_val c) as [d|] eqn:E; [|done]. apply IH. assert (0 <= d); [|lia]. unfold digit_val in E. repeat case_match; simplify_eq; lia.
Qed.

(** ** Theorems *)

(** the announced addresses.  When the lists of the configuration can be read, the
    host announces the configured addresses, or all its own when there are none,
    and the appended ones that are not announced already, less exactly those that
    are on the list of addresses not to announce or under a mask on it. *)
Theorem addrs_factory_exact `{P2pAddrs} `{AddrFilters} NewFilters AddrBlocked announce append noAnnounce factory :
  makeAddrsFactory NewFilters AddrBlocked announce append noAnnounce = Ok factory ->
  exists base extra filters, parse_all announce = Ok base /\ Forall2 (fun s a => Parse s = Ok a) (filter (fun s => s ∉ announce) append) extra /\
    denied filters = list_to_set (masks_of noAnnounce) ∪ denied NewFilters /\
    forall all a, a ∈ factory all <->
      (a ∈ (if decide (announce = []) then all else base) \/ a ∈ extra) /\ (a ∉ singles_of noAnnounce) /\ AddrBlocked filters a = false.
Proof.
  unfold makeAddrsFactory. destruct (parse_all announce) as [base|] eqn:Eb; [|done].
  destruct (append_announce _ append) as [extra|] eqn:Ee; [|done]. destruct (no_announce noAnnounce NewFilters []) as [[filters exact]|] eqn:En; [|done].
  intros [= <-]. apply append_announce_spec in Ee. apply no_announce_spec in En as (Hd & Hs & _). exists base, extra, filters. split_and!; [done| |done|].
  { replace (filter (fun s => s ∉ announce) append) with (filter (fun s => s ∉ (list_to_set announce : gset string)) append); [done|].
    apply list_filter_iff. intros x. by rewrite elem_of_list_to_set. }
  intros all a. rewrite list_elem_of_filter, elem_of_app, andb_true_iff, !negb_true_iff, bool_decide_eq_false, Hs.
  assert (Hbase : (match base with [] => all | _ => base end) = if decide (announce = []) then all else base).
  { destruct announce as [|s announce]; cbn in Eb; [by injection Eb as <-|]. rewrite decide_False by done.
    destruct (Parse s); [|done]. destruct (parse_all announce); [|done]. by injection Eb as <-. }
  rewrite Hbase. assert (a ∉ @nil Maddr) by apply not_elem_of_nil. naive_solver.
Qed.

(** no exceeded limit is lost.  Through any sequence of errors and ticks of the log,
    the counts that were logged for a text and the one that is pending add up to the
    number of exceeded limits with that text. *)
Theorem limit_errors_counted order ops t :
  (forall m, order m ≡ₚ map_to_list m) ->
  let n := foldl (fun n o => log_apply order o n) (MkLogging None []) ops in
  logged_of t (logged n) + pending_of t n = sumZ (counts_of t <$> ops).
Proof.
  intros Ho. cbn zeta. induction ops as [|o ops IH] using rev_ind; [done|]. rewrite foldl_app, fmap_app, sumZ_app. cbn [foldl fmap list_fmap sumZ foldr].
  set (n := foldl _ _ ops) in *. rewrite <- IH. destruct o as [[[b u]|]|]; cbn [log_apply countErrs counts_of limit_exceeded unwrapped]; [| |].
  - destruct b; [|lia]. destruct u as [u|]; unfold pending_of; cbn [logged limitExceededErrs default from_option]; [|destruct (limitExceededErrs n); cbn; lia].
    unfold id. case_decide as Hu; [subst u; rewrite lookup_insert_eq; cbn; lia|rewrite lookup_insert_ne by done; lia].
  - lia.
  - unfold log_tick, pending_of. cbn [logged limitExceededErrs]. rewrite logged_of_app, logged_of_map.
    + rewrite <- (list_to_map_proper (map_to_list (default ∅ (limitExceededErrs n))) (order (default ∅ (limitExceededErrs n)))).
      * rewrite list_to_map_to_list. change (default ∅ (Some (∅ : gmap string Z))) with (∅ : gmap string Z). rewrite lookup_empty. cbn. lia.
      * apply NoDup_fst_map_to_list.
      * by rewrite Ho.
    + rewrite Ho. apply NoDup_fst_map_to_list.
Qed.

(** the limit on file descriptors is never lowered, and is at most the one asked
    for; a call without an error that changed it has reached what the user asked
    for, and the minimum when nothing was asked for. *)
Theorem fd_limit_raised {K} (getLimit : K -> result (Z * Z)) setLimit env k soft hard changed new err k' :
  getLimit k = Ok (soft, hard) -> 0 <= soft <= hard ->
  ManageFdLimit getLimit setLimit true env k = (changed, new, err, k') ->
  (changed = true -> soft <= new /\ new <= (if 0 <? userMaxFDs env then userMaxFDs env else maxFds)) /\
  (changed = true -> err = None -> userMaxFDs env <= new /\ (userMaxFDs env = 0 -> minFds <= new)) /\
  (changed = false -> new = 0).
Proof.
  intros Hg Hs. unfold ManageFdLimit. cbn [negb]. rewrite Hg.
  assert (Hu : 0 <= userMaxFDs env).
  { unfold userMaxFDs. destruct (String.eqb env ""); [lia|]. destruct (parse_digits 0 env) as [n|] eqn:E; [|lia]. destruct (n <? 2 ^ 64) eqn:El; [|lia].
    apply parse_digits_nonneg in E; lia. }
  set (user := userMaxFDs env) in *. set (target := if 0 <? user then user else maxFds).
  assert (Ht : user <= target /\ (user = 0 -> minFds <= target)) by (unfold target, maxFds, minFds; destruct (Z.ltb_spec 0 user); lia).
  destruct (Z.leb_spec target soft) as [Hle|Hlt]; [intros [= <- <- <- <-]; by split_and!|].
  destruct (setLimit target target k) as [[| |e] k1].
  - intros [= <- <- <- <-]. split_and!; [lia|tauto|]. destruct (Z.ltb_spec 0 target); [done|lia].
  - set (t2 := if hard <? target then hard else target). assert (Ht2 : soft <= t2 <= target) by (unfold t2; destruct (Z.ltb_spec hard target); lia).
    destruct (setLimit t2 hard k1) as [[| |e] k2]; [|intros [= <- <- <- <-]; by split_and!..].
    intros [= <- <- <- <-]. split_and!; [lia| |destruct (Z.ltb_spec 0 t2); [done|lia]].
    intros _. destruct (Z.ltb_spec t2 user); [done|]. destruct (Z.eqb_spec user 0); [|intros _; lia]. cbn [andb].
    destruct (Z.ltb_spec t2 minFds); [done|lia].
  - intros [= <- <- <- <-]. by split_and!.
Qed.

(** a process that may not raise its hard limit and is already at it is told that
    the limit was changed, although it is what it was. *)
Theorem fd_limit_changed_to_itself {K} (getLimit : K -> result (Z * Z)) setLimit env k k1 k2 lim :
  getLimit k = Ok (lim, lim) -> 0 < lim ->
  let target := if 0 <? userMaxFDs env then userMaxFDs env else maxFds in
  lim < target -> setLimit target target k = (EPERM, k1) -> setLimit lim lim k1 = (SetOk, k2) ->
  (ManageFdLimit getLimit setLimit true env k).1.1 = (true, lim).
Proof.
  intros Hg Hp target Ht H1 H2. unfold ManageFdLimit. cbn [negb]. rewrite Hg. fold target. rewrite (proj2 (Z.leb_gt _ _) Ht), H1, (proj2 (Z.ltb_lt _ _) Ht), H2.
  by rewrite (proj2 (Z.ltb_lt _ _) Hp).
Qed.

(** ** Witnesses *)
Module DemoNode.

(** Masks are the texts that begin with [m]. *)
#[local] Instance masks : AddrFilters.
Proof.
  refine {| Filters := gset string; NewMask := fun s => if HasPrefix s "m" then Ok s else Err "not a mask";
            AddFilter := fun m f => {[ m ]} ∪ f; RemoveLiteral := fun m f => f ∖ {[ m ]}; denied := fun f => f |}; reflexivity.
Defined.
#[local] Existing Instance DemoAddrs.demo_addrs.

Definition blocked (f : gset string) (a : string) : bool := bool_decide ("m" +:+ a ∈ f).
Abbreviation demo_factory := (makeAddrsFactory (H := DemoAddrs.demo_addrs) (H0 := masks) ∅ blocked [] ["b"; "c"] ["ma"; "b"]).

Abbreviation the_factory := (match demo_factory with Ok f => f | Err _ => fun l => l end).

Lemma addrs_factory_exact_witness :
  exists base extra filters, parse_all [] = Ok base /\ Forall2 (fun s a => Parse s = Ok a) (filter (fun s => s ∉ []) ["b"; "c"]) extra /\
    denied filters = list_to_set (masks_of ["ma"; "b"]) ∪ denied ∅ /\
    forall all a, a ∈ the_factory all <->
      (a ∈ (if decide (([] : list string) = []) then all else base) \/ a ∈ extra) /\ (a ∉ singles_of ["ma"; "b"]) /\ blocked filters a = false.
Proof. exact (addrs_factory_exact (H := DemoAddrs.demo_addrs) (H0 := masks) ∅ blocked [] ["b"; "c"] ["ma"; "b"] the_factory eq_refl). Defined.

Lemma the_factory_run : the_factory ["a"; "d"] = ["d"; "c"].
Proof. vm_compute. reflexivity. Qed.

Definition exceeded (t : string) : log_op := OpCount (Some (MkRcError true (Some t))).

Lemma limit_errors_counted_witness :
  let n := foldl (fun n o => log_apply map_to_list o n) (MkLogging None []) [exceeded "conns"; OpTick; exceeded "conns"; exceeded "streams"] in
  logged_of "conns" (logged n) + pending_of "conns" n = 2.
Proof. exact (limit_errors_counted map_to_list [exceeded "conns"; OpTick; exceeded "conns"; exceeded "streams"] "conns" (fun m => Permutation_refl _)). Defined.

(** A process that may raise its soft limit only. *)
Definition set_soft (soft hard : Z) (k : Z * Z) : set_outcome * (Z * Z) :=
  if hard <=? k.2 then if soft <=? hard then (SetOk, (soft, hard)) else (SetFailed "invalid argument", k) else (EPERM, k).

Lemma fd_limit_raised_witness :
  (true = true -> 1024 <= 4096 /\ 4096 <= (if 0 <? userMaxFDs "" then userMaxFDs "" else maxFds)) /\
  (true = true -> (None : option error) = None -> userMaxFDs "" <= 4096 /\ (userMaxFDs "" = 0 -> minFds <= 4096)) /\
  (true = false -> 4096 = 0).
Proof. apply (fd_limit_raised (fun k => Ok k) set_soft "" (1024, 4096) 1024 4096 true 4096 None (4096, 4096)); [reflexivity|lia|reflexivity]. Defined.

Lemma fd_limit_changed_to_itself_witness : (ManageFdLimit (fun k => Ok k) set_soft true "" (4096, 4096)).1.1 = (true, 4096).
Proof. apply (fd_limit_changed_to_itself (fun k => Ok k) set_soft "" (4096, 4096) (4096, 4096) (4096, 4096)); [reflexivity|lia|reflexivity..]. Defined.
End DemoNode.
