(* ===== verification/InitCmd.v ===== *)
(** Initializing a repository from the command line: [cmd/ipfs/init.go], over the
    repository of [FsRepo.v].

    Adding the documentation and publishing the empty directory, which open the
    repository and start a node, are computations given as parameters. *)
From Stdlib Require Import ZArith Lia Ascii String.
From stdpp Require Import base strings gmap list.
From S2P Require Import Prelude GoStrings GoPath ConfigTypes ConfigMap Datastores FsRepo.

Local Open Scope io_scope.

Definition errRepoExists : error :=
  "ipfs configuration file already exists!" +:+ newline +:+ "Reinitializing would overwrite your keys" +:+ newline.

(** What [os.Stat] of the directory says. *)
Inductive dir_stat := DirExists | DirMissing | DirForbidden (e : error) | DirError (e : error).

(** [os.IsPermission] of an error. *)
Definition checkWritable (IsPermission : error -> bool) (stat : dir_stat) (dir : string) : io unit :=
  match stat with
  | DirExists =>
      let testfile := Join dir "test" in
      do r <- try (os_Create testfile);
      match r with
      | Err e =>
          if IsPermission e then throw (dir +:+ " is not writeable by the current user")
          else throw ("unexpected error while checking writeablility of repo root: " +:+ e)
      | Ok _ => os_Remove testfile
      end
  | DirMissing => may_fail
  | DirForbidden e => throw ("cannot write to " +:+ e +:+ ", incorrect permissions")
  | DirError e => throw e
  end.

Section Init.
Context `{RepoEnv', DatastoreEnv} (Profiles : string -> option (Config -> result Config)).

Fixpoint apply_all (profiles : list string) (conf : Config) : result Config :=
  match profiles with
  | [] => Ok conf
  | profile :: profiles =>
      match Profiles profile with
      | None => Err ("invalid configuration profile: " +:+ profile)
      | Some transformer => match transformer conf with Err e => Err e | Ok conf => apply_all profiles conf end
      end
  end.

Definition applyProfiles (conf : Config) (profiles : string) : result Config :=
  if String.eqb profiles "" then Ok conf else apply_all (split_on "," profiles) conf.

Definition doInit (IsPermission : error -> bool) (stat : dir_stat) (addDefaultAssets initializeIpnsKeyspace : io unit)
    (repoRoot : string) (empty : bool) (confProfiles : string) (conf : Config) : io unit :=
  checkWritable IsPermission stat repoRoot ;;
  do b <- IsInitialized repoRoot;
  if (b : bool) then throw errRepoExists else
  do conf <- of_result (applyProfiles conf confProfiles);
  Init repoRoot conf ;;
  (if empty then ret tt else addDefaultAssets) ;;
  initializeIpnsKeyspace.

(** The argument with a configuration: none, no entry in it (with the error of the
    iterator, if any), a directory, or a file and what its JSON decodes to. *)
Inductive config_arg := NoArgument | NoEntry (err : option error) | NotRegular | ConfigFile (decoded : result Config).

Definition config_given (f : config_arg) : result (option Config) :=
  match f with
  | NoArgument => Ok None
  | NoEntry (Some err) => Err err
  | NoEntry None => Err "file argument was nil"
  | NotRegular => Err "expected a regular file"
  | ConfigFile (Err err) => Err err
  | ConfigFile (Ok conf) => Ok (Some conf)
  end.

(** [initCmd.Run]; the size of the key is given or not. *)
Definition init_Run {Identity} (CreateIdentity : option Z -> string -> result Identity) (InitWithIdentity : Identity -> result Config)
    IsPermission stat addDefaultAssets initializeIpnsKeyspace
    (f : config_arg) (nBitsForKeypair : option Z) (algorithm repoRoot : string) (empty : bool) (profiles : string) : io unit :=
  do given <- of_result (config_given f);
  do conf <- of_result (match given with
    | Some conf => Ok conf
    | None => match CreateIdentity nBitsForKeypair algorithm with Err err => Err err | Ok ident => InitWithIdentity ident end
    end);
  doInit IsPermission stat addDefaultAssets initializeIpnsKeyspace repoRoot empty profiles conf.

(** ** Lemmas *)

(** Only the file with the given name may be different. *)
Definition only_file (f : string) (s s' : disk) : Prop := forall g, g <> f -> files s' !! g = files s !! g.

Lemma next_fault_files s f s1 : next_fault s = (f, s1) -> files s1 = files s.
Proof. unfold next_fault. destruct (faults s); by intros [= <- <-]. Qed.

Lemma may_fail_keeps s r s1 : may_fail s = (r, s1) -> files s1 = files s.
Proof. unfold may_fail. destruct (next_fault s) as [[[e n]|] s2] eqn:E; intros [= <- <-]; by apply next_fault_files in E. Qed.

Lemma os_Create_only f s r s1 : os_Create f s = (r, s1) -> only_file f s s1 /\ (r = Ok tt -> files s1 !! f = Some "").
Proof.
  unfold os_Create, bind. destruct (may_fail s) as [[[]|e] s2] eqn:E; apply may_fail_keeps in E; intros [= <- <-].
  - split; [|intros _; apply lookup_insert_eq]. intros g Hg. cbn. by rewrite lookup_insert_ne, E.
  - split; [|done]. intros g _. by rewrite E.
Qed.

Lemma os_Remove_only f s r s1 : os_Remove f s = (r, s1) -> only_file f s s1 /\ (r = Ok tt -> files s1 !! f = None).
Proof.
  unfold os_Remove, bind. destruct (may_fail s) as [[[]|e] s2] eqn:E; apply may_fail_keeps in E.
  - destruct (files s2 !! f); intros [= <- <-].
    + split; [|intros _; apply lookup_delete_eq]. intros g Hg. cbn. by rewrite lookup_delete_ne, E.
    + split; [|done]. intros g _. by rewrite E.
  - intros [= <- <-]. split; [|done]. intros g _. by rewrite E.
Qed.

Lemma checkWritable_only P stat dir s r s1 : checkWritable P stat dir s = (r, s1) ->
  only_file (Join dir "test") s s1 /\ (r = Ok tt -> stat = DirExists -> files s1 !! Join dir "test" = None).
Proof.
  destruct stat; cbn [checkWritable].
  - unfold bind, try. destruct (os_Create (Join dir "test") s) as [r1 s2] eqn:E. apply os_Create_only in E as [E1 _].
    destruct r1 as [[]|e]; [|destruct (P e); intros [= <- <-]; by split]. intros [R1 R2]%os_Remove_only. split; [|auto].
    intros g Hg. by rewrite R1, E1.
  - intros E. apply may_fail_keeps in E. split; [|done]. intros g _. by rewrite E.
  - intros [= <- <-]. by split.
  - intros [= <- <-]. by split.
Qed.

(** ** Theorems *)

(** an existing repository is not overwritten.  Where there is a configuration
    file, init fails, whatever system calls fail, and leaves every file alone but
    the one named [test]; adding documentation and publishing do not happen. *)
Theorem init_keeps_repository P stat assets ipns root f empty profiles conf s r s' :
  Filename root "" = Ok f -> f <> Join root "test" -> is_Some (files s !! f) ->
  doInit P stat assets ipns root empty profiles conf s = (r, s') ->
  (exists e, r = Err e) /\ only_file (Join root "test") s s'.
Proof.
  intros Hf Hne Hs. unfold doInit. unfold bind at 1. destruct (checkWritable P stat root s) as [[[]|e] s1] eqn:E; apply checkWritable_only in E as [E _].
  - unfold bind at 1, IsInitialized, isInitializedUnsynced, configIsInitialized. rewrite Hf. unfold FileExists. rewrite (E f Hne), bool_decide_eq_true_2 by done.
    intros [= <- <-]. split; [by eexists|done].
  - intros [= <- <-]. split; [by eexists|done].
Qed.

(** profiles are applied in the order given and all or nothing: an initialization
    that succeeds has run [Init] on the configuration they give, one after the
    other, and with an unknown profile, or one that fails, no file of the repository
    is written. *)
Theorem init_applies_profiles P stat assets ipns root f empty profiles conf s r s' :
  Filename root "" = Ok f -> f <> Join root "test" -> files s !! f = None ->
  doInit P stat assets ipns root empty profiles conf s = (r, s') ->
  match (if String.eqb profiles "" then Ok conf else apply_all (split_on "," profiles) conf) with
  | Err e => (exists e', r = Err e') /\ only_file (Join root "test") s s'
  | Ok conf' => r = Ok tt -> exists s1 s2, only_file (Join root "test") s s1 /\ Init root conf' s1 = (Ok tt, s2)
  end.
Proof.
  intros Hf Hne Hs. unfold doInit. unfold bind at 1. destruct (checkWritable P stat root s) as [[[]|e] s1] eqn:E; apply checkWritable_only in E as [E _].
  2:{ intros [= <- <-]. destruct (if String.eqb profiles "" then _ else _); [done|]. split; [by eexists|done]. }
  unfold bind at 1, IsInitialized, isInitializedUnsynced, configIsInitialized. rewrite Hf. unfold FileExists. rewrite (E f Hne), Hs.
  cbn [bool_decide]. rewrite bool_decide_eq_false_2 by (by intros [? ?]). unfold bind at 1, of_result, applyProfiles.
  destruct (if String.eqb profiles "" then Ok conf else apply_all (split_on "," profiles) conf) as [conf'|e].
  - unfold bind at 1. destruct (Init root conf' s1) as [[[]|e] s2] eqn:Ei; [|by intros [= <- <-]]. intros _ _. by exists s1, s2.
  - intros [= <- <-]. split; [by eexists|done].
Qed.

(** the check that the directory is writable deletes a file named [test] in it:
    after an init that gets past the check, even one that is refused because the
    repository exists, the file is gone. *)
Theorem init_deletes_test_file P root f conf assets ipns empty profiles s c :
  Filename root "" = Ok f -> f <> Join root "test" -> is_Some (files s !! f) -> faults s = [] -> files s !! Join root "test" = Some c ->
  let '(r, s') := doInit P DirExists assets ipns root empty profiles conf s in
  r = Err errRepoExists /\ files s' !! Join root "test" = None.
Proof.
  intros Hf Hne Hs Hq Ht. unfold doInit. cbn [checkWritable]. unfold bind, try, os_Create, os_Remove, bind, may_fail, next_fault, put_file, drop_file. rewrite Hq. cbn [faults files].
  rewrite Hq. cbn [faults files]. rewrite lookup_insert_eq. cbn [files]. unfold IsInitialized, isInitializedUnsynced, configIsInitialized. rewrite Hf. unfold FileExists. cbn [files].
  rewrite lookup_delete_ne, lookup_insert_ne by done. rewrite bool_decide_eq_true_2 by done. split; [done|apply lookup_delete_eq].
Qed.
End Init.

(** ** Witnesses *)
Module DemoInit.
Import DemoRepo.
#[local] Existing Instance demo_env.
#[local] Existing Instance demo_ds.

Definition existing : disk := Disk {[ "/repo/config" := "conf0"; "/repo/test" := "mine" ]} ∅ [] [].
Definition no_profiles (name : string) : option (@Config demo_env -> result (@Config demo_env)) := None.
Abbreviation again := (doInit (H := demo_env) (H0 := demo_ds) no_profiles (fun _ => false) DirExists (ret tt) (ret tt) "/repo" false "" (conf0 : @Config demo_env) existing).
Abbreviation unknown := (doInit (H := demo_env) (H0 := demo_ds) no_profiles (fun _ => false) DirMissing (ret tt) (ret tt) "/repo" false "x" (conf0 : @Config demo_env) empty_disk).

Lemma init_keeps_repository_witness :
  (exists e, again.1 = Err e) /\ only_file (Join "/repo" "test") existing again.2.
Proof.
  apply (init_keeps_repository (H := demo_env) (H0 := demo_ds) no_profiles (fun _ => false) DirExists (ret tt) (ret tt) "/repo" "/repo/config" false "" (conf0 : @Config demo_env) existing);
    [vm_compute; reflexivity|vm_compute; discriminate|by eexists|apply surjective_pairing].
Defined.

Lemma init_applies_profiles_witness :
  (exists e', unknown.1 = Err e') /\ only_file (Join "/repo" "test") empty_disk unknown.2.
Proof.
  apply (init_applies_profiles (H := demo_env) (H0 := demo_ds) no_profiles (fun _ => false) DirMissing (ret tt) (ret tt) "/repo" "/repo/config" false "x" (conf0 : @Config demo_env) empty_disk);
    [vm_compute; reflexivity|vm_compute; discriminate|done|apply surjective_pairing].
Defined.

Lemma init_deletes_test_file_witness : let '(r, s') := again in r = Err errRepoExists /\ files s' !! Join "/repo" "test" = None.
Proof.
  apply (init_deletes_test_file (H := demo_env) (H0 := demo_ds) no_profiles (fun _ => false) "/repo" "/repo/config" (conf0 : @Config demo_env) (ret tt) (ret tt) false "" existing "mine");
    [vm_compute; reflexivity|vm_compute; discriminate|by eexists|done|vm_compute; reflexivity].
Defined.
End DemoInit.
