(* ===== verification/Daemon.v ===== *)
(** The daemon: [cmd/ipfs/daemon.go].

    [daemonFunc] is a computation that logs what it acquires, starts and releases.
    It may fail, and it may panic; deferred calls run in either case, but not when the
    process ends in the middle.  What the
    calls of other packages give (opening the repository, migrating, making the
    node, starting plugins, listening) is in the record [env]; the repository is
    [FsRepo.v], the migrations are [Migrations.v], the gateway [Gateway.v].  [merge],
    which collects the errors of the servers, is a step relation on its
    goroutines. *)
From Stdlib Require Import ZArith Lia Ascii String.
From stdpp Require Import base strings gmap list list_numbers relations.
From S2P Require Import Prelude GoStrings ConfigTypes BootstrapCmd.

Local Open Scope Z_scope.

(** ** Questions *)

(** The answers typed: [None] when reading fails, which keeps the previous one. *)
Fixpoint prompt (tries : nat) (answers : list (option string)) (s : string) : bool :=
  match tries with
  | O => false
  | S tries =>
      let s := default s (mjoin (head answers)) in
      if bool_decide (s ∈ ["y"; "Y"]) then true
      else if bool_decide (s ∈ ["n"; "N"; ""]) then false
      else prompt tries (tail answers) s
  end.
Definition YesNoPrompt (answers : list (option string)) : bool := prompt 3 answers "".

(** ** Routing *)

Inductive routing_option := DHTClientOption | DHTOption | DHTServerOption | NilRouterOption | DelegatedRouting.

(** The option on the command line, and the type in the configuration. *)
Definition routing_choice (opt cfgType : string) : result routing_option :=
  let r := if String.eqb opt "default" then (if String.eqb cfgType "" then "dht" else cfgType) else opt in
  if String.eqb r "supernode" then Err "supernode routing was never fully implemented and has been removed"
  else if String.eqb r "dhtclient" then Ok DHTClientOption
  else if String.eqb r "dht" then Ok DHTOption
  else if String.eqb r "dhtserver" then Ok DHTServerOption
  else if String.eqb r "none" then Ok NilRouterOption
  else if String.eqb r "custom" then Ok DelegatedRouting
  else Err ("unrecognized routing option: " +:+ r).

(** ** What happens *)

(** A computation returns, panics, or ends the process ([log.Fatal]), which runs no
    deferred call. *)
Inductive ending (A : Type) := Done (r : result A) | Panicked (msg : string) | Exited (msg : string).
Arguments Done {A} r.
Arguments Panicked {A} msg.
Arguments Exited {A} msg.

Section Daemon.
Context {H : P2pAddrs}.

Inductive event :=
| Initialized | RepoOpened | RepoClosed
| FetcherOpened | FetcherClosed | DirMade | DirRemoved | Migrated | MigrationsAdded
| NodeMade (r : routing_option) (online pubsub ipnsps : bool) | NodeClosed | PluginsStarted
| ApiListening (a : Maddr) | ApiAddrSet (a : Maddr) | ApiServing (ls : list Maddr)
| Mounted | GCStarted
| GatewayListening (a : Maddr) | GatewayAddrSet (a : Maddr) | GatewayServing (writable : bool) (ls : list Maddr)
| PinMFSStarted | Ready.

Definition D (A : Type) : Type := list event -> ending A * list event.
Definition ret {A} (a : A) : D A := fun t => (Done (Ok a), t).
Definition fail {A} (e : error) : D A := fun t => (Done (Err e), t).
Definition panic {A} (e : string) : D A := fun t => (Panicked e, t).
Definition exit {A} (e : string) : D A := fun t => (Exited e, t).
Definition bind {A B} (m : D A) (k : A -> D B) : D B := fun t =>
  match m t with
  | (Done (Ok a), t) => k a t
  | (Done (Err e), t) => (Done (Err e), t)
  | (Panicked e, t) => (Panicked e, t)
  | (Exited e, t) => (Exited e, t)
  end.
Definition log (e : event) : D unit := fun t => (Done (Ok tt), t ++ [e]).
Definition call {A} (f : error -> error) (r : result A) : D A := match r with Ok a => ret a | Err e => fail (f e) end.
Definition check (f : error -> error) (r : option error) : D unit := match r with None => ret tt | Some e => fail (f e) end.
Definition when (b : bool) (m : D unit) : D unit := if b then m else ret tt.

(** A deferred function, which may look at what has happened. *)
Definition finally {A} (after : list event -> list event) (m : D A) : D A := fun t =>
  match m t with
  | (Exited e, t) => (Exited e, t)
  | (r, t) => (r, t ++ after t)
  end.

Notation "x <- m ;; k" := (bind m (fun x => k)) (at level 100, m at next level, right associativity).
Notation "m ;; k" := (bind m (fun _ => k)) (at level 100, right associativity).

(** [migrations.DownloadDirectory] is set. *)
Definition dir_set (t : list event) : bool := foldl (fun b e => match e with DirMade => true | DirRemoved => false | _ => b end) false t.

Record options := MkOptions {
  o_init : bool; o_initConfig : bool; o_migrate : option bool; o_offline : bool; o_routing : string;
  o_pubsub : option bool; o_ipnsps : option bool; o_mount : bool; o_enableGC : bool; o_api : string; o_writable : option bool;
}.

Record daemon_config := MkDaemonConfig {
  c_pubsub : bool; c_ipnsps : bool; c_routing : string; c_api : list string; c_gateway : list string; c_writable : bool;
  c_pathPrefixes : list string;
}.

Record env := MkEnv {
  IsInitialized : bool;
  cserial_Load : result unit; CreateIdentity : result unit; InitWithIdentity : result unit; doInit : option error;
  fsrepo_Open : result unit; ErrNeedMigration : error; answers : list (option string);
  ReadMigrationConfig : result string;     (** [Keep] *)
  GetMigrationFetcher : option error; MkdirTemp : option error; RunMigration : option error; reopen : result unit;
  repo_Config : result daemon_config; GetConfig : result daemon_config;   (** by the repository, and by the node made *)
  NewNode : option error; Plugins_Start : option error;
  api_taken : result (list Maddr); gw_taken : result (list Maddr);   (** sockets passed by the system *)
  Listen : Maddr -> result Maddr;
  SetAPIAddr : option error; ToNetAddr : option error; SetGatewayAddr : option error;
  nodeMount : option error;
  SplitFirst : Maddr -> Maddr * Maddr; Encapsulate : Maddr -> Maddr -> Maddr;
  IP4Unspecified : Maddr; IP6Unspecified : Maddr; IP4Loopback : Maddr; IP6Loopback : Maddr;
  strconv_Quote : string -> string;
  reuseport : bool;        (** [IPFS_REUSEPORT] is in the environment *)
  (** the errors of the servers, as [merge] delivers them *)
  served : list (option error); multierror : list error -> error;
}.

Section Run.
Context (e : env) (o : options).

Definition rewriteMaddrToUseLocalhostIfItsAny (maddr : Maddr) : Maddr :=
  let '(first, rest) := SplitFirst e maddr in
  if decide (first = IP4Unspecified e) then Encapsulate e (IP4Loopback e) rest
  else if decide (first = IP6Unspecified e) then Encapsulate e (IP6Loopback e) rest
  else maddr.

(** The listeners for the configured addresses, none twice and none that was passed. *)
Fixpoint listen_all (name kind : string) (listening : Maddr -> event) (addrs : list string) (listenerAddrs listeners : list Maddr) : D (list Maddr) :=
  match addrs with
  | [] => ret listeners
  | addr :: addrs =>
      maddr <- call (fun err => name +:+ ": invalid " +:+ kind +:+ " address: " +:+ strconv_Quote e addr +:+ " (err: " +:+ err +:+ ")") (Parse addr) ;;
      if decide (maddr ∈ listenerAddrs) then listen_all name kind listening addrs listenerAddrs listeners
      else
        lis <- call (fun err => name +:+ ": manet.Listen(" +:+ Text maddr +:+ ") failed: " +:+ err) (Listen e maddr) ;;
        log (listening lis) ;;
        listen_all name kind listening addrs (maddr :: listenerAddrs) (listeners ++ [lis])
  end.

Definition serveHTTPApi : D unit :=
  cfg <- call (fun err => "serveHTTPApi: GetConfig() failed: " +:+ err) (GetConfig e) ;;
  taken <- call (fun err => "serveHTTPApi: socket activation failed: " +:+ err) (api_taken e) ;;
  let apiAddrs := if String.eqb (o_api o) "" then c_api cfg else [o_api o] in
  listeners <- listen_all "serveHTTPApi" "API" ApiListening apiAddrs taken taken ;;
  match listeners with
  | [] => panic "runtime error: index out of range [0] with length 0"
  | l0 :: _ =>
      check (fun err => "serveHTTPApi: SetAPIAddr() failed: " +:+ err) (SetAPIAddr e) ;;
      log (ApiAddrSet (rewriteMaddrToUseLocalhostIfItsAny l0)) ;;
      log (ApiServing listeners)
  end.

Definition serveHTTPGateway : D unit :=
  cfg <- call (fun err => "serveHTTPGateway: GetConfig() failed: " +:+ err) (GetConfig e) ;;
  let writable := default (c_writable cfg) (o_writable o) in
  taken <- call (fun err => "serveHTTPGateway: socket activation failed: " +:+ err) (gw_taken e) ;;
  listeners <- listen_all "serveHTTPGateway" "gateway" GatewayListening (c_gateway cfg) taken taken ;;
  when (negb (bool_decide (c_pathPrefixes cfg = []))) (exit "Support for custom Gateway.PathPrefixes was removed: https://github.com/ipfs/go-ipfs/issues/7702") ;;
  match listeners with
  | [] => ret tt
  | l0 :: _ =>
      check (fun err => "serveHTTPGateway: manet.ToIP() failed: " +:+ err) (ToNetAddr e) ;;
      check (fun err => "serveHTTPGateway: SetGatewayAddr() failed: " +:+ err) (SetGatewayAddr e) ;;
      log (GatewayAddrSet (rewriteMaddrToUseLocalhostIfItsAny l0))
  end ;;
  log (GatewayServing writable listeners).

Definition mountFuse : D unit :=
  call (fun err => "mountFuse: GetConfig() failed: " +:+ err) (GetConfig e) ;;
  check (fun err => err) (nodeMount e) ;;
  log Mounted.

Definition maybeRunGC : D unit := when (o_enableGC o) (log GCStarted).

(** From the opened repository on: the repository and the node are closed when it
    returns. *)
Definition run_node (cacheMigrations pinMigrations fetcher : bool) : D unit :=
  finally (fun _ => [RepoClosed]) (
    cfg <- call (fun err => err) (repo_Config e) ;;
    let pubsub := default (c_pubsub cfg) (o_pubsub o) in
    let ipnsps := default (c_ipnsps cfg) (o_ipnsps o) in
    routing <- call (fun err => err) (routing_choice (o_routing o) (c_routing cfg)) ;;
    check (fun err => err) (NewNode e) ;;
    log (NodeMade routing (negb (o_offline o)) pubsub ipnsps) ;;
    finally (fun _ => [NodeClosed]) (
      check (fun err => err) (Plugins_Start e) ;;
      log PluginsStarted ;;
      serveHTTPApi ;;
      when (o_mount o && o_offline o) (fail "mount is not currently supported in offline mode") ;;
      when (o_mount o) mountFuse ;;
      maybeRunGC ;;
      when (cacheMigrations || pinMigrations) (log MigrationsAdded ;; log DirRemoved) ;;
      when fetcher (log FetcherClosed) ;;
      serveHTTPGateway ;;
      log PinMFSStarted ;;
      log Ready ;;
      when (reuseport e) (exit "Support for IPFS_REUSEPORT was removed. Use LIBP2P_TCP_REUSEPORT instead.") ;;
      match omap (fun x => x) (served e) with
      | [] => ret tt
      | errs => fail (multierror e errs)
      end)).

(** Migrating an outdated repository: the fetcher and the directory for downloads are
    given up when the daemon returns. *)
Definition migrate_and_run : D unit :=
  if negb (default (YesNoPrompt (answers e)) (o_migrate o)) then fail "fs-repo requires migration"
  else
    keep <- call (fun err => err) (ReadMigrationConfig e) ;;
    check (fun err => err) (GetMigrationFetcher e) ;;
    log FetcherOpened ;;
    finally (fun _ => [FetcherClosed]) (
      let cacheMigrations := String.eqb keep "cache" in
      let pinMigrations := negb cacheMigrations && String.eqb keep "pin" in
      let run :=
        check (fun err => err) (RunMigration e) ;;
        log Migrated ;;
        call (fun err => err) (reopen e) ;;
        log RepoOpened ;;
        run_node cacheMigrations pinMigrations true in
      if cacheMigrations || pinMigrations then
        check (fun err => err) (MkdirTemp e) ;;
        log DirMade ;;
        finally (fun t => if dir_set t then [DirRemoved] else []) run
      else run).

Definition daemon_init : D unit :=
  when (o_init o && negb (IsInitialized e)) (
    when (o_initConfig o) (call (fun err => err) (cserial_Load e)) ;;
    when (negb (o_initConfig o)) (call (fun err => err) (CreateIdentity e) ;; call (fun err => err) (InitWithIdentity e)) ;;
    check (fun err => err) (doInit e) ;;
    log Initialized).

Definition daemonFunc : D unit :=
  daemon_init ;;
  match fsrepo_Open e with
  | Ok _ => log RepoOpened ;; run_node false false false
  | Err err => if decide (err = ErrNeedMigration e) then migrate_and_run else fail err
  end.
End Run.

(** ** What is held *)

Inductive resource := ARepo | ANode | AFetcher | ADir.
#[global] Instance resource_eq_dec : EqDecision resource.
Proof. solve_decision. Defined.

(** What an event does to a resource. *)
Definition effect (k : resource) (ev : event) : option bool :=
  match k, ev with
  | ARepo, RepoOpened | ANode, NodeMade _ _ _ _ | AFetcher, FetcherOpened | ADir, DirMade => Some true
  | ARepo, RepoClosed | ANode, NodeClosed | AFetcher, FetcherClosed | ADir, DirRemoved => Some false
  | _, _ => None
  end.
Definition held (k : resource) (t : list event) : bool := foldl (fun b ev => default b (effect k ev)) false t.

Lemma held_app k t ev : held k (t ++ [ev]) = default (held k t) (effect k ev).
Proof. unfold held. by rewrite foldl_app. Qed.

Lemma dir_set_held t : dir_set t = held ADir t.
Proof.
  enough (E : forall b, foldl (fun b e => match e with DirMade => true | DirRemoved => false | _ => b end) b t = foldl (fun b ev => default b (effect ADir ev)) b t) by apply E.
  induction t as [|ev t IH]; intros b; [done|]. cbn. rewrite IH. by destruct ev.
Qed.

Definition exited {A} (r : ending A) : Prop := exists msg, r = Exited msg.

(** A run that starts without a resource and does not end the process ends without it. *)
Definition gives_back (k : resource) {A} (m : D A) : Prop :=
  forall t, held k t = false -> exited (m t).1 \/ held k (m t).2 = false.

Lemma gives_back_ret k A (a : A) : gives_back k (ret a).
Proof. intros t Ht. by right. Qed.
Lemma gives_back_fail k A err : gives_back k (fail (A := A) err).
Proof. intros t Ht. by right. Qed.
Lemma gives_back_panic k A msg : gives_back k (panic (A := A) msg).
Proof. intros t Ht. by right. Qed.
Lemma gives_back_exit k A msg : gives_back k (exit (A := A) msg).
Proof. intros t Ht. left. by exists msg. Qed.
Lemma gives_back_log k ev : effect k ev <> Some true -> gives_back k (log ev).
Proof. intros He t Ht. right. unfold log. cbn [snd]. rewrite held_app. by destruct (effect k ev) as [[]|]. Qed.
Lemma gives_back_call k A f (r : result A) : gives_back k (call f r).
Proof. destruct r; [apply gives_back_ret|apply gives_back_fail]. Qed.
Lemma gives_back_check k f r : gives_back k (check f r).
Proof. destruct r; [apply gives_back_fail|apply gives_back_ret]. Qed.
Lemma gives_back_when k b m : gives_back k m -> gives_back k (when b m).
Proof. destruct b; [done|]. intros _. apply gives_back_ret. Qed.

Lemma gives_back_bind k A B (m : D A) (f : A -> D B) : gives_back k m -> (forall a, gives_back k (f a)) -> gives_back k (bind m f).
Proof.
  intros Hm Hf t Ht. unfold bind. destruct (Hm t Ht) as [[msg Hx]|Hk]; destruct (m t) as [[[a|err]|msg'|msg'] t1]; cbn [fst snd] in *; try done.
  - left. by exists msg'.
  - by apply Hf.
  - by right.
  - by right.
  - by right.
Qed.

(** A deferred call that acquires nothing, and one that releases the resource. *)
Lemma gives_back_finally k A ev (m : D A) : effect k ev <> Some true -> gives_back k m -> gives_back k (finally (fun _ => [ev]) m).
Proof.
  intros He Hm t Ht. unfold finally. destruct (Hm t Ht) as [[msg Hx]|Hk]; destruct (m t) as [[r|msg'|msg'] t1]; cbn [fst snd] in *; try done;
    try (left; by exists msg'); right; try rewrite held_app; try done; by destruct (effect k ev) as [[]|].
Qed.

Lemma gives_back_released k A ev (m : D A) : effect k ev = Some false -> forall t, exited (finally (fun _ => [ev]) m t).1 \/ held k (finally (fun _ => [ev]) m t).2 = false.
Proof.
  intros He t. unfold finally. destruct (m t) as [[r|msg|msg] t1]; cbn [fst snd]; [right|right|left; by exists msg]; by rewrite held_app, He.
Qed.

Lemma gives_back_acquire k A ev ev' (m : D A) : effect k ev' = Some false -> gives_back k (bind (log ev) (fun _ => finally (fun _ => [ev']) m)).
Proof. intros He t _. by apply (gives_back_released k A ev' m). Qed.

Lemma gives_back_dir A (m : D A) : gives_back ADir (bind (log DirMade) (fun _ => finally (fun t => if dir_set t then [DirRemoved] else []) m)).
Proof.
  intros t _. unfold bind, log, finally. destruct (m _) as [[r|msg|msg] t1]; cbn [fst snd]; try (left; by exists msg); right;
    rewrite dir_set_held; destruct (held ADir t1) eqn:E; rewrite ?app_nil_r, ?held_app; done.
Qed.
Lemma gives_back_dir_other k A (m : D A) : k <> ADir -> gives_back k m -> gives_back k (finally (fun t => if dir_set t then [DirRemoved] else []) m).
Proof.
  intros Hne Hm t Ht. unfold finally. destruct (Hm t Ht) as [[msg Hx]|Hk]; destruct (m t) as [[r|msg'|msg'] t1]; cbn [fst snd] in *; try done;
    try (left; by exists msg'); right; try done; destruct (dir_set t1); rewrite ?app_nil_r, ?held_app; try done; by destruct k.
Qed.

Create HintDb daemon.
#[local] Hint Resolve gives_back_ret gives_back_fail gives_back_panic gives_back_exit gives_back_call gives_back_check gives_back_when : daemon.

(** Walks through a computation, up to the acquisitions. *)
Ltac give_back :=
  repeat match goal with
  | |- gives_back _ (bind _ _) => first [by apply gives_back_acquire | apply gives_back_dir | apply gives_back_bind; [|intros ?]]
  | |- gives_back _ (when _ _) => apply gives_back_when
  | |- gives_back _ (log _) => apply gives_back_log; done
  | |- gives_back _ (finally (fun _ => [_]) _) => apply gives_back_finally; [done|]
  | |- gives_back _ (finally _ _) => apply gives_back_dir_other; [done|]
  | |- gives_back _ (match ?x with _ => _ end) => destruct x
  | |- _ => by eauto with daemon
  end.

Section Holds.
Context (e : env) (o : options).

Lemma gives_back_listen k name kind listening addrs : (forall a, effect k (listening a) <> Some true) ->
  forall la ls, gives_back k (listen_all e name kind listening addrs la ls).
Proof.
  intros He. induction addrs as [|addr addrs IH]; intros la ls; cbn [listen_all]; give_back; try apply IH; by apply gives_back_log.
Qed.

Lemma gives_back_api k : gives_back k (serveHTTPApi e o).
Proof. unfold serveHTTPApi. destruct k; give_back; by apply gives_back_listen. Qed.

Lemma gives_back_gateway k : gives_back k (serveHTTPGateway e o).
Proof. unfold serveHTTPGateway. destruct k; give_back; by apply gives_back_listen. Qed.

Lemma gives_back_mount k : gives_back k (mountFuse e).
Proof. unfold mountFuse. destruct k; give_back. Qed.
#[local] Hint Resolve gives_back_api gives_back_gateway gives_back_mount : daemon.

Lemma gives_back_node k a b c : k <> ARepo -> gives_back k (run_node e o a b c).
Proof. intros Hk. unfold run_node, maybeRunGC. destruct k; [done| | |]; give_back. Qed.

Lemma gives_back_opened k a b c : gives_back k (bind (log RepoOpened) (fun _ => run_node e o a b c)).
Proof.
  destruct (decide (k = ARepo)) as [->|Hk]; [by apply gives_back_acquire|]. 
  apply gives_back_bind; [apply gives_back_log; by destruct k|]. intros _. by apply gives_back_node.
Qed.

Lemma gives_back_migrate k : gives_back k (migrate_and_run e o).
Proof.
  assert (Hrun : forall a b, gives_back k (bind (check (fun err => err) (RunMigration e)) (fun _ => bind (log Migrated) (fun _ =>
    bind (call (fun err => err) (reopen e)) (fun _ => bind (log RepoOpened) (fun _ => run_node e o a b true)))))).
  { intros a b. do 3 (apply gives_back_bind; [destruct k; give_back|intros ?]). apply gives_back_opened. }
  unfold migrate_and_run. destruct (negb _); [apply gives_back_fail|]. do 2 (apply gives_back_bind; [give_back|intros ?]).
  destruct k; [| |by apply gives_back_acquire|]; (apply gives_back_bind; [by apply gives_back_log|intros _]; apply gives_back_finally; [done|]);
    cbv zeta; destruct (_ || _); try apply Hrun; (apply gives_back_bind; [apply gives_back_check|intros _]).
  - apply gives_back_bind; [by apply gives_back_log|intros _]. by apply gives_back_dir_other.
  - apply gives_back_bind; [by apply gives_back_log|intros _]. by apply gives_back_dir_other.
  - apply gives_back_dir.
Qed.

Lemma gives_back_daemon k : gives_back k (daemonFunc e o).
Proof.
  unfold daemonFunc, daemon_init. apply gives_back_bind; [destruct k; give_back|]. intros _. destruct (fsrepo_Open e) as [|err].
  - apply gives_back_opened.
  - destruct (decide _); [apply gives_back_migrate|apply gives_back_fail].
Qed.

(** *** What ends the process *)

Definition may_exit : Prop := reuseport e = true \/ exists cfg, GetConfig e = Ok cfg /\ c_pathPrefixes cfg <> [].

Definition stays {A} (m : D A) : Prop := forall t, exited (m t).1 -> may_exit.
Lemma stays_ret A (a : A) : stays (ret a).
Proof. by intros t [msg ?]. Qed.
Lemma stays_fail A err : stays (fail (A := A) err).
Proof. by intros t [msg ?]. Qed.
Lemma stays_panic A msg : stays (panic (A := A) msg).
Proof. by intros t [msg' ?]. Qed.
Lemma stays_log ev : stays (log ev).
Proof. by intros t [msg ?]. Qed.
Lemma stays_call A f (r : result A) : stays (call f r).
Proof. destruct r; [apply stays_ret|apply stays_fail]. Qed.
Lemma stays_check f r : stays (check f r).
Proof. destruct r; [apply stays_fail|apply stays_ret]. Qed.
Lemma stays_when b m : (b = true -> stays m) -> stays (when b m).
Proof. destruct b; [by intros Hm; apply Hm|]. intros _. apply stays_ret. Qed.
Lemma stays_bind A B (m : D A) (f : A -> D B) : stays m -> (forall a, stays (f a)) -> stays (bind m f).
Proof.
  intros Hm Hf t. unfold bind. specialize (Hm t). destruct (m t) as [[[a|err]|msg|msg] t1]; cbn [fst snd] in *; [apply Hf|by intros [? ?]|by intros [? ?]|].
  intros _. apply Hm. by exists msg.
Qed.
Lemma stays_finally A after (m : D A) : stays m -> stays (finally after m).
Proof. intros Hm t. unfold finally. specialize (Hm t). by destruct (m t) as [[r|msg|msg] t1]; cbn [fst snd] in *; [intros [? ?]|intros [? ?]|]. Qed.
#[local] Hint Resolve stays_ret stays_fail stays_panic stays_log stays_call stays_check : daemon.

Ltac stay :=
  repeat match goal with
  | |- stays (bind _ _) => apply stays_bind; [|intros ?]
  | |- stays (when _ _) => apply stays_when; intros ?
  | |- stays (finally _ _) => apply stays_finally
  | |- stays (match ?x with _ => _ end) => destruct x eqn:?
  | |- _ => by eauto with daemon
  end.

Lemma stays_listen name kind listening addrs la ls : stays (listen_all e name kind listening addrs la ls).
Proof. revert la ls. induction addrs as [|addr addrs IH]; intros la ls; cbn [listen_all]; stay; apply IH. Qed.
Lemma stays_api : stays (serveHTTPApi e o).
Proof. unfold serveHTTPApi. stay. apply stays_listen. Qed.
Lemma stays_call_bind A B f (r : result A) (g : A -> D B) : (forall a, r = Ok a -> stays (g a)) -> stays (bind (call f r) g).
Proof. destruct r as [a|err]; intros Hg t; [by apply (Hg a)|]. by intros [msg ?]. Qed.
Lemma stays_gateway : stays (serveHTTPGateway e o).
Proof.
  unfold serveHTTPGateway. apply stays_call_bind. intros cfg Hcfg. cbv zeta. stay; [apply stays_listen|].
  intros t _. right. exists cfg. split; [done|]. by case_bool_decide.
Qed.
Lemma stays_mount : stays (mountFuse e).
Proof. unfold mountFuse. stay. Qed.
#[local] Hint Resolve stays_api stays_gateway stays_mount : daemon.
Lemma stays_node a b c : stays (run_node e o a b c).
Proof. unfold run_node, maybeRunGC. stay. intros t _. by left. Qed.
#[local] Hint Resolve stays_node : daemon.
Lemma stays_daemon : stays (daemonFunc e o).
Proof. unfold daemonFunc, daemon_init, migrate_and_run. cbv zeta. stay. Qed.

(** C33: However the daemon ends (success, an error at any step, a panic), the
    repository, the node, the migration fetcher and the download directory it acquired
    are released; only the two settings that were removed (path prefixes of the gateway
    and the port reuse variable) end the process before. *)
Theorem daemon_releases : forall r t, daemonFunc e o [] = (r, t) -> exited r /\ may_exit \/ forall k, held k t = false.
Proof.
  intros r t Hr. destruct r as [r|msg|msg].
  1, 2: right; intros k; destruct (gives_back_daemon k [] eq_refl) as [[msg' Hx]|Hk]; rewrite Hr in *; done.
  left. assert (Hx : exited (daemonFunc e o []).1) by (rewrite Hr; by exists msg). split; [by rewrite Hr in Hx|by apply (stays_daemon [])].
Qed.
End Holds.

(** ** Being ready *)

(** The milestones of a start. *)
Definition is_mark (ev : event) : bool :=
  match ev with
  | RepoOpened | FetcherOpened | FetcherClosed | DirMade | DirRemoved | NodeMade _ _ _ _ | PluginsStarted | ApiServing _ | GatewayServing _ _ => true
  | _ => false
  end.
Definition marks (t : list event) : list event := filter (fun ev => is_mark ev = true) t.

Lemma marks_app t ev : marks (t ++ [ev]) = marks t ++ (if is_mark ev then [ev] else []).
Proof. unfold marks. rewrite filter_app. f_equal. by destruct ev. Qed.

(** A part of the start that does not announce readiness. *)
Definition quiet {A} (m : D A) : Prop := forall t, Ready ∉ t -> Ready ∉ (m t).2.
(** What it has added to the milestones when it succeeds. *)
Definition does {A} (m : D A) (Q : list event -> Prop) : Prop :=
  forall t a t', m t = (Done (Ok a), t') -> exists evs, Q evs /\ marks t' = marks t ++ evs.
(** If readiness is announced, [Q] holds of what happened before. *)
Definition ready_at {A} (m : D A) (t : list event) (Q : list event -> Prop) : Prop :=
  Ready ∈ (m t).2 -> exists pre post, (m t).2 = pre ++ Ready :: post /\ Q pre.

Lemma quiet_ret A (a : A) : quiet (ret a).
Proof. by intros t. Qed.
Lemma quiet_fail A err : quiet (fail (A := A) err).
Proof. by intros t. Qed.
Lemma quiet_panic A err : quiet (panic (A := A) err).
Proof. by intros t. Qed.
Lemma quiet_exit A err : quiet (exit (A := A) err).
Proof. by intros t. Qed.
Lemma quiet_log ev : ev <> Ready -> quiet (log ev).
Proof. intros Hne t Ht. unfold log. cbn [snd]. rewrite elem_of_app, list_elem_of_singleton. intros [?|E]; [done|congruence]. Qed.
Lemma quiet_call A f (r : result A) : quiet (call f r).
Proof. destruct r; [apply quiet_ret|apply quiet_fail]. Qed.
Lemma quiet_check f r : quiet (check f r).
Proof. destruct r; [apply quiet_fail|apply quiet_ret]. Qed.
Lemma quiet_when b m : quiet m -> quiet (when b m).
Proof. intros Hm. destruct b; [done|apply quiet_ret]. Qed.
Lemma quiet_bind A B (m : D A) (f : A -> D B) : quiet m -> (forall a, quiet (f a)) -> quiet (bind m f).
Proof. intros Hm Hf t Ht. unfold bind. specialize (Hm t Ht). destruct (m t) as [[[a|err]|msg|msg] t1]; cbn [snd] in *; try done. by apply Hf. Qed.

Lemma does_call A f (r : result A) : does (call f r) (fun evs => evs = []).
Proof. intros t a t'. destruct r; intros [= <- <-]. exists []. by rewrite app_nil_r. Qed.
Lemma does_check f r : does (check f r) (fun evs => evs = []).
Proof. intros t a t'. destruct r; intros [= <- <-]. exists []. by rewrite app_nil_r. Qed.
Lemma does_log ev : does (log ev) (fun evs => evs = if is_mark ev then [ev] else []).
Proof. intros t a t' [= <- <-]. eexists. split; [done|]. apply marks_app. Qed.
Lemma does_ret A (a : A) : does (ret a) (fun evs => evs = []).
Proof. intros t ? ? [= <- <-]. exists []. by rewrite app_nil_r. Qed.
Lemma does_fail A err Q : does (fail (A := A) err) Q.
Proof. by intros t a t' ?. Qed.
Lemma does_exit A err Q : does (exit (A := A) err) Q.
Proof. by intros t a t' ?. Qed.
Lemma does_when b m : does m (fun evs => evs = []) -> does (when b m) (fun evs => evs = []).
Proof. destruct b; [done|]. intros _. apply does_ret. Qed.
Lemma does_bind A B (m : D A) (f : A -> D B) Q Q' R : does m Q -> (forall a, does (f a) Q') -> (forall x y, Q x -> Q' y -> R (x ++ y)) -> does (bind m f) R.
Proof.
  intros Hm Hf HR t b t'. unfold bind. destruct (m t) as [[[a|err]|msg|msg] t1] eqn:E; try done. intros E'.
  destruct (Hm _ _ _ E) as (x & Hx & Ex). destruct (Hf _ _ _ _ E') as (y & Hy & Ey). exists (x ++ y). split; [by apply HR|]. by rewrite Ey, Ex, app_assoc.
Qed.
Lemma does_skip A B (m : D A) (f : A -> D B) Q : does m (fun evs => evs = []) -> (forall a, does (f a) Q) -> does (bind m f) Q.
Proof. intros Hm Hf. eapply does_bind; [apply Hm|apply Hf|]. by intros x y ->. Qed.

Lemma ready_at_bind A B (m : D A) (f : A -> D B) t Q P : quiet m -> does m P -> Ready ∉ t ->
  (forall a t1 evs, Ready ∉ t1 -> P evs -> marks t1 = marks t ++ evs -> ready_at (f a) t1 Q) -> ready_at (bind m f) t Q.
Proof.
  intros Hm Hd Ht Hf. unfold ready_at, bind. specialize (Hm t Ht). destruct (m t) as [[[a|err]|msg|msg] t1] eqn:E; cbn [snd] in *; try done.
  destruct (Hd _ _ _ E) as (evs & HP & Ee). by apply (Hf a t1 evs).
Qed.
Lemma ready_at_finally A after (m : D A) t Q : (forall t, Ready ∉ after t) -> ready_at m t Q -> ready_at (finally after m) t Q.
Proof.
  intros Ha Hm. unfold ready_at, finally in *.
  destruct (m t) as [[r|msg|msg] t1]; cbn [snd] in *; [| |done]; (rewrite elem_of_app; intros [Hr|Hr]; [|by apply Ha in Hr]);
    destruct (Hm Hr) as (pre & post & -> & HQ); exists pre, (post ++ after (pre ++ Ready :: post)); split; [by rewrite <- app_assoc|done| by rewrite <- app_assoc|done].
Qed.
Lemma ready_at_quiet A (m : D A) t Q : quiet m -> Ready ∉ t -> ready_at m t Q.
Proof. intros Hm Ht Hr. by apply Hm in Ht. Qed.

#[local] Hint Resolve quiet_ret quiet_fail quiet_panic quiet_exit quiet_call quiet_check does_call does_check does_ret does_fail does_exit : daemon.
Ltac hush :=
  repeat match goal with
  | |- quiet (bind _ _) => apply quiet_bind; [|intros ?]
  | |- quiet (when _ _) => apply quiet_when
  | |- quiet (log _) => by apply quiet_log
  | |- quiet (match ?x with _ => _ end) => destruct x
  | |- _ => by eauto with daemon
  end.
(** Passes the parts that reach no milestone. *)
Ltac skip :=
  repeat match goal with
  | |- does (bind (call _ _) _) _ => apply does_skip; [apply does_call|intros ?]
  | |- does (bind (check _ _) _) _ => apply does_skip; [apply does_check|intros ?]
  | |- does (bind (log _) _) _ => apply does_skip; [by apply does_log|intros ?]
  end.

Section ReadyOrder.
Context (e : env) (o : options).

Lemma quiet_listen name kind listening addrs la ls : (forall a, listening a <> Ready) -> quiet (listen_all e name kind listening addrs la ls).
Proof. intros Hl. revert la ls. induction addrs as [|addr addrs IH]; intros la ls; cbn [listen_all]; hush; try apply IH; by apply quiet_log. Qed.
Lemma does_listen name kind listening addrs la ls : (forall a, is_mark (listening a) = false) -> does (listen_all e name kind listening addrs la ls) (fun evs => evs = []).
Proof.
  intros Hl. revert la ls. induction addrs as [|addr addrs IH]; intros la ls; cbn [listen_all]; [apply does_ret|]. skip. destruct (decide _); [apply IH|]. skip.
  apply does_skip; [|intros _; apply IH]. intros t b t' Hr. destruct (does_log _ _ _ _ Hr) as (evs & -> & Ee). rewrite Hl in Ee. by exists [].
Qed.

Lemma quiet_api : quiet (serveHTTPApi e o).
Proof. unfold serveHTTPApi. hush. by apply quiet_listen. Qed.
Lemma quiet_gateway : quiet (serveHTTPGateway e o).
Proof. unfold serveHTTPGateway. hush. by apply quiet_listen. Qed.
Lemma quiet_mount : quiet (mountFuse e).
Proof. unfold mountFuse. hush. Qed.

Lemma does_api : does (serveHTTPApi e o) (fun evs => exists ls, evs = [ApiServing ls]).
Proof.
  unfold serveHTTPApi. skip. apply does_skip; [by apply does_listen|]. intros [|l0 ls]; [by intros t b t' ?|]. skip.
  intros t b t' [= <- <-]. eexists. split; [|apply marks_app]. by exists (l0 :: ls).
Qed.
Lemma does_gateway : does (serveHTTPGateway e o) (fun evs => exists w ls, evs = [GatewayServing w ls]).
Proof.
  unfold serveHTTPGateway. skip. cbv zeta. skip. apply does_skip; [by apply does_listen|]. intros ls.
  apply does_skip; [by apply does_when, does_exit|]. intros _. apply does_skip; [destruct ls; [apply does_ret|skip; by apply does_log]|].
  intros _ t b t' [= <- <-]. eexists. split; [|apply marks_app]. by eexists _, ls.
Qed.
Lemma does_mount : does (mountFuse e) (fun evs => evs = []).
Proof. unfold mountFuse. skip. by apply does_log. Qed.

(** The milestones of a node that is run, in order. *)
Definition node_marks (removed closed : bool) (evs : list event) : Prop :=
  exists r ps ipns ls w ls', evs = [NodeMade r (negb (o_offline o)) ps ipns; PluginsStarted; ApiServing ls]
    ++ (if removed then [DirRemoved] else []) ++ (if closed then [FetcherClosed] else []) ++ [GatewayServing w ls'].

Lemma does_removed b : does (when b (bind (log MigrationsAdded) (fun _ => log DirRemoved))) (fun evs => evs = if b then [DirRemoved] else []).
Proof. destruct b; [|apply does_ret]. cbn [when]. skip. apply does_log. Qed.
Lemma does_closed b : does (when b (log FetcherClosed)) (fun evs => evs = if b then [FetcherClosed] else []).
Proof. destruct b; [|apply does_ret]. apply does_log. Qed.

(** The next part: quiet, with known milestones. *)
#[local] Hint Resolve quiet_api quiet_gateway quiet_mount : daemon.
Ltac pass d := eapply ready_at_bind; [hush|apply d|assumption|cbv beta; intros].

Ltac gather :=
  repeat match goal with E : exists _, _ |- _ => destruct E end; subst;
  repeat match goal with E : marks ?t = _ |- context [marks ?t] => rewrite E; clear E end.

Lemma ready_at_now (m : D unit) t (Q : list event -> Prop) : (forall t, (m t).2 = t) -> Q t -> ready_at (bind (log Ready) (fun _ => m)) t Q.
Proof. intros Hm HQ _. exists t, []. split; [|done]. unfold bind, log. by rewrite Hm. Qed.

Lemma ready_at_node a b c t : Ready ∉ t -> ready_at (run_node e o a b c) t (fun pre => exists evs, node_marks (a || b) c evs /\ marks pre = marks t ++ evs).
Proof.
  intros Ht. unfold run_node, maybeRunGC. apply ready_at_finally; [by intros ? ?%list_elem_of_singleton|]. cbv zeta beta.
  pass does_call. pass does_call. pass does_check. pass does_log. apply ready_at_finally; [by intros ? ?%list_elem_of_singleton|].
  pass does_check. pass does_log. pass does_api. pass does_when; [apply does_fail|]. pass does_when; [apply does_mount|]. pass does_when; [by apply does_log|].
  pass does_removed. pass does_closed. pass does_gateway. pass does_log.
  apply ready_at_now.
  { intros u. unfold bind. destruct (reuseport e); [done|]. cbn. by destruct (omap _ _). }
  gather. eexists. split; [unfold node_marks; by repeat eexists|]. by rewrite <- !app_assoc, !app_nil_r.
Qed.

(** What a migration puts before the node is made and takes back before the daemon is
    ready. *)
Inductive migration_marks : list event -> list event -> Prop :=
| no_migration : migration_marks [] []
| migration_dropped : migration_marks [FetcherOpened] [FetcherClosed]
| migration_kept : migration_marks [FetcherOpened; DirMade] [DirRemoved; FetcherClosed].

Definition start_marks (evs : list event) : Prop :=
  exists before after r ps ipns ls w ls', migration_marks before after /\
    evs = before ++ [RepoOpened; NodeMade r (negb (o_offline o)) ps ipns; PluginsStarted; ApiServing ls] ++ after ++ [GatewayServing w ls'].

Lemma ready_at_opened (a b c : bool) t : Ready ∉ t -> migration_marks (marks t) ((if a || b then [DirRemoved] else []) ++ (if c then [FetcherClosed] else [])) ->
  ready_at (bind (log RepoOpened) (fun _ => run_node e o a b c)) t (fun pre => start_marks (marks pre)).
Proof.
  intros Ht Hmig. pass does_log. intros Hr. destruct (ready_at_node a b c t1 ltac:(assumption) Hr) as (pre & post & E & evs' & Hn & Em).
  exists pre, post. split; [done|]. destruct Hn as (r & ps & ipns & ls & w & ls' & ->). do 8 eexists. split; [exact Hmig|].
  rewrite Em. gather. cbn [is_mark]. by rewrite <- !app_assoc.
Qed.

Lemma ready_at_migrate t : Ready ∉ t -> marks t = [] -> ready_at (migrate_and_run e o) t (fun pre => start_marks (marks pre)).
Proof.
  intros Ht Hm. unfold migrate_and_run. destruct (negb _); [apply ready_at_quiet; [hush|done]|].
  pass does_call. pass does_check. pass does_log. apply ready_at_finally; [by intros ? ?%list_elem_of_singleton|]. cbv zeta beta.
  set (cache := String.eqb a "cache"). set (pin := negb cache && String.eqb a "pin"). destruct (cache || pin) eqn:E.
  - pass does_check. pass does_log. apply ready_at_finally; [intros u Hu; destruct (dir_set u); [by apply list_elem_of_singleton in Hu|by apply elem_of_nil in Hu]|].
    pass does_check. pass does_log. pass does_call. apply ready_at_opened; [done|]. rewrite E. gather. constructor.
  - pass does_check. pass does_log. pass does_call. apply ready_at_opened; [done|]. rewrite E. gather. constructor.
Qed.

(** The daemon says it is ready only after, in this order and each once: the
    repository was opened, the node made, the plugins started, the API and then the
    gateway served; when it had to migrate, the fetcher and the download directory came
    before and are given up before the gateway is served. *)
Theorem daemon_ready_order : ready_at (daemonFunc e o) [] (fun pre => start_marks (marks pre)).
Proof.
  unfold daemonFunc. eapply ready_at_bind with (P := fun evs => evs = []).
  - unfold daemon_init. hush.
  - unfold daemon_init. apply does_when. apply does_skip; [apply does_when, does_call|]. intros _.
    apply does_skip; [apply does_when; skip; apply does_call|]. intros _. skip. by apply does_log.
  - intros Hn. by apply elem_of_nil in Hn.
  - intros [] t evs Ht -> Hm. destruct (fsrepo_Open e) as [|err].
    + apply ready_at_opened; [done|]. rewrite Hm. constructor.
    + destruct (decide _); [by apply ready_at_migrate|apply ready_at_quiet; [hush|done]].
Qed.
End ReadyOrder.

(** A configuration without API addresses (and no address on the command line nor
    sockets passed) makes the daemon panic once its node runs; without gateway
    addresses it serves no gateway and goes on. *)
Theorem api_without_address_panics (e : env) (o : options) (cfg : daemon_config) t :
  GetConfig e = Ok cfg -> api_taken e = Ok [] -> gw_taken e = Ok [] -> o_api o = "" -> c_api cfg = [] -> c_gateway cfg = [] -> c_pathPrefixes cfg = [] ->
  serveHTTPApi e o t = (Panicked "runtime error: index out of range [0] with length 0", t) /\
  serveHTTPGateway e o t = (Done (Ok tt), t ++ [GatewayServing (default (c_writable cfg) (o_writable o)) []]).
Proof.
  intros Hc Ha Hg Ho Hca Hcg Hp. unfold serveHTTPApi, serveHTTPGateway, bind. rewrite Hc. cbn [call ret]. rewrite Ha, Hg, Ho. cbn [call ret String.eqb].
  by rewrite Hca, Hcg, Hp.
Qed.
End Daemon.

(** ** Questions and errors *)

(** The answer in each round: what was read, or the previous one when reading failed. *)
Fixpoint said (s : string) (answers : list (option string)) : list string :=
  match answers with [] => [] | a :: answers => default s a :: said (default s a) answers end.
Definition decisive (s : string) : bool := bool_decide (s ∈ ["y"; "Y"; "n"; "N"; ""]).

Lemma decisive_spec s : decisive s = bool_decide (s ∈ ["y"; "Y"]) || bool_decide (s ∈ ["n"; "N"; ""]).
Proof. rewrite <- bool_decide_or. apply bool_decide_ext. rewrite !elem_of_cons, elem_of_nil. tauto. Qed.

Lemma prompt_stuck tries s : s = "" \/ decisive s = false -> prompt tries [] s = false.
Proof.
  intros Hs. induction tries as [|tries IH]; [done|]. cbn. destruct Hs as [->|Hs]; [done|]. rewrite decisive_spec in Hs. by apply orb_false_iff in Hs as [-> ->].
Qed.
Lemma prompt_said tries answers s : s = "" \/ decisive s = false ->
  prompt tries answers s = bool_decide (head (filter (fun s => decisive s = true) (take tries (said s answers))) ∈ [Some "y"; Some "Y"]).
Proof.
  revert answers s. induction tries as [|tries IH]; intros answers s Hs; [done|]. destruct answers as [|a answers]; [by apply prompt_stuck|].
  cbn [prompt head tail said take]. replace (mjoin (Some a)) with a by (by destruct a). set (s' := default s a). rewrite filter_cons.
  pose proof (decisive_spec s') as Hd. destruct (bool_decide (s' ∈ ["y"; "Y"])) eqn:Hy; [|destruct (bool_decide (s' ∈ ["n"; "N"; ""])) eqn:Hn]; cbn [orb] in Hd.
  - rewrite decide_True by done. symmetry. apply bool_decide_eq_true in Hy. apply bool_decide_eq_true. cbn [head].
    apply (list_elem_of_fmap_2 Some) in Hy. exact Hy.
  - rewrite decide_True by done. symmetry. apply bool_decide_eq_false in Hy. apply bool_decide_eq_false. cbn [head]. intros Hs'. apply Hy.
    change [Some "y"; Some "Y"] with (Some <$> ["y"; "Y"]) in Hs'. apply list_elem_of_fmap in Hs' as (x & [= ->] & Hx). exact Hx.
  - rewrite decide_False by congruence. apply IH. by right.
Qed.

(** The question is answered yes exactly when the first decisive of at most three
    answers is a y: an empty, missing or negative answer before it, or three unusable
    ones, mean no. *)
Theorem prompt_exact answers :
  YesNoPrompt answers = bool_decide (head (filter (fun s => decisive s = true) (take 3 (said "" answers))) ∈ [Some "y"; Some "Y"]).
Proof. apply prompt_said. by left. Qed.

(** *** [merge] *)

Inductive goroutine :=
| Ranging (c : list (option error))       (** what its channel still delivers before it is closed *)
| Sending (n : option error) (c : list (option error))
| Finished.

Record merge_state := MkMerge { gs : list goroutine; wg : nat; out : list (option error); out_closed : bool }.

(** The channels given, some of them nil. *)
Definition merge_start (cs : list (option (list (option error)))) : merge_state :=
  let gs := Ranging <$> omap (fun c => c) cs in MkMerge gs (length gs) [] false.

Inductive merge_step : merge_state -> merge_state -> Prop :=
| merge_receive l n c r w o b : merge_step (MkMerge (l ++ Ranging (n :: c) :: r) w o b) (MkMerge (l ++ Sending n c :: r) w o b)
| merge_send l n c r w o : merge_step (MkMerge (l ++ Sending n c :: r) w o false) (MkMerge (l ++ Ranging c :: r) w (o ++ [n]) false)
| merge_done l r w o b : merge_step (MkMerge (l ++ Ranging [] :: r) (S w) o b) (MkMerge (l ++ Finished :: r) w o b)
| merge_close l o : merge_step (MkMerge l 0 o false) (MkMerge l 0 o true).

Definition pending (g : goroutine) : list (option error) := match g with Ranging c => c | Sending n c => n :: c | Finished => [] end.
Definition working (g : goroutine) : nat := match g with Finished => 0 | _ => 1 end.
Definition work (g : goroutine) : nat := match g with Ranging c => 1 + 2 * length c | Sending _ c => 2 + 2 * length c | Finished => 0 end.
Definition total (f : goroutine -> nat) (gs : list goroutine) : nat := sum_list_with f gs.

Lemma total_mid f l g r : total f (l ++ g :: r) = (f g + total f (l ++ r))%nat.
Proof. unfold total. rewrite !sum_list_with_app. cbn. lia. Qed.

(** Nothing is lost or invented, and the channel is closed when nobody sends. *)
Record merge_inv (all : list (option error)) (s : merge_state) : Prop := {
  inv_all : out s ++ mjoin (pending <$> gs s) ≡ₚ all;
  inv_wg : wg s = total working (gs s);
  inv_closed : out_closed s = true -> wg s = 0%nat;
}.

Lemma pending_mid l g r : mjoin (pending <$> (l ++ g :: r)) ≡ₚ pending g ++ mjoin (pending <$> (l ++ r)).
Proof. rewrite !fmap_app, fmap_cons, !join_app. cbn. solve_Permutation. Qed.

Lemma merge_inv_step all s s' : merge_inv all s -> merge_step s s' -> merge_inv all s'.
Proof.
  intros [Ha Hw Hc] Hs. destruct Hs as [l n c r w o b|l n c r w o|l r w o b|l o]; cbn [gs wg out out_closed] in *.
  - split; cbn [gs wg out out_closed]; [|by rewrite Hw, !total_mid|done]. by rewrite <- Ha, !pending_mid.
  - split; cbn [gs wg out out_closed]; [|by rewrite Hw, !total_mid|done]. rewrite <- Ha, !pending_mid. cbn [pending]. solve_Permutation.
  - split; cbn [gs wg out out_closed]; [by rewrite <- Ha, !pending_mid| |intros Hb; by apply Hc in Hb]. rewrite total_mid in *. cbn [working] in *. lia.
  - by split.
Qed.

Lemma merge_measure s s' : merge_step s s' ->
  (total work (gs s') + (if out_closed s' then 0 else 1) < total work (gs s) + (if out_closed s then 0 else 1))%nat.
Proof. intros [l n c r w o b|l n c r w o|l r w o b|l o]; cbn [gs out_closed]; rewrite ?total_mid; cbn [work length]; lia. Qed.

Lemma merge_terminates s : sn merge_step s.
Proof.
  remember (total work (gs s) + (if out_closed s then 0 else 1))%nat as m eqn:E. revert s E. induction (lt_wf m) as [m _ IH]; intros s ->.
  constructor. intros s' Hs. apply (IH _ (merge_measure s s' Hs) s' eq_refl).
Qed.

(** A goroutine that has not finished can go on until the channel is closed. *)
Lemma merge_progress all s : merge_inv all s -> out_closed s = false -> exists s', merge_step s s'.
Proof.
  intros [_ Hw _] Hc. destruct s as [l w o b]. cbn in *. subst b.
  destruct (decide (Exists (fun g => working g = 1%nat) l)) as [(g & (l1 & l2 & ->)%list_elem_of_split & Hg)%Exists_exists|Hn].
  - rewrite total_mid, Hg in Hw. destruct g as [[|n c]|n c|]; try done; [|by eexists; constructor|by eexists; constructor].
    destruct w as [|w]; [lia|]. eexists. constructor.
  - assert (Hz : total working l = 0%nat).
    { clear Hw. induction l as [|g l IH]; [done|]. unfold total in *. cbn. rewrite IH by (intros ?; apply Hn; by right). destruct g; cbn; [| |done]; exfalso; apply Hn; by left. }
    assert (w = 0%nat) as -> by (rewrite Hw; exact Hz). eexists. constructor.
Qed.

Lemma merge_inv_start cs : merge_inv (mjoin (omap (fun c => c) cs)) (merge_start cs).
Proof.
  unfold merge_start. split; cbn [gs wg out out_closed]; [| |done]; induction (omap (fun c => c) cs) as [|c l IH]; try done.
  - cbn in *. by rewrite IH.
  - cbn in *. by rewrite IH.
Qed.

Lemma working_none l : total working l = 0%nat -> Forall (fun g => g = Finished) l.
Proof. unfold total. induction l as [|g l IH]; [by constructor|]. cbn. intros Hz. constructor; [by destruct g|]. apply IH. destruct g; cbn in Hz; lia. Qed.
Lemma pending_none l : Forall (fun g => g = Finished) l -> mjoin (pending <$> l) = [].
Proof. by induction 1 as [|g l -> _ IH]. Qed.
Lemma working_no_step s s' : out_closed s = true -> total working (gs s) = 0%nat -> ~ merge_step s s'.
Proof. intros Hc Hz Hs. destruct Hs as [l n c r w o b|l n c r w o|l r w o b|l o]; cbn [gs out_closed] in *; try done; rewrite total_mid in Hz; done. Qed.

(** C36: Collecting the errors of the servers always ends, whatever the interleaving of
    its goroutines; when it has, the channel is closed and has carried exactly the errors
    of all channels, and until it is closed some goroutine can go on; after the close
    none sends. *)
Theorem merge_exact cs :
  sn merge_step (merge_start cs) /\
  forall s, rtc merge_step (merge_start cs) s ->
    (out_closed s = true -> Forall (fun g => g = Finished) (gs s) /\ out s ≡ₚ mjoin (omap (fun c => c) cs)) /\
    (out_closed s = false <-> exists s', merge_step s s').
Proof.
  split; [apply merge_terminates|]. intros s Hr. assert (Hi := merge_inv_start cs). revert Hi. generalize (mjoin (omap (fun c => c) cs)) as all. intros all Hi.
  assert (Hi' : merge_inv all s) by (induction Hr; eauto using merge_inv_step). clear Hi Hr. split.
  - intros Hc. pose proof (inv_closed _ _ Hi' Hc) as Hz. rewrite (inv_wg _ _ Hi') in Hz. pose proof (working_none _ Hz) as Hf. split; [done|].
    pose proof (inv_all _ _ Hi') as Ha. rewrite (pending_none _ Hf), app_nil_r in Ha. done.
  - split; [by apply (merge_progress all)|]. intros [s' Hs]. destruct (out_closed s) eqn:Hc; [|done].
    pose proof (inv_closed _ _ Hi' Hc) as Hz. rewrite (inv_wg _ _ Hi') in Hz. by destruct (working_no_step s s' Hc Hz).
Qed.

(** ** Witnesses *)

Module DemoDaemon.
Abbreviation A := DemoAddrs.demo_addrs.
#[local] Existing Instance DemoAddrs.demo_addrs.

Definition cfg (api gateway : list string) : daemon_config := MkDaemonConfig false false "" api gateway false [].

(** A repository that needs a migration whose downloads are kept; everything else works
    but what is given. *)
Definition system (api : list string) (plugins : option error) : env (H := A) := {|
  IsInitialized := true; cserial_Load := Ok tt; CreateIdentity := Ok tt; InitWithIdentity := Ok tt; doInit := None;
  fsrepo_Open := Err "ipfs repo needs migration"; ErrNeedMigration := "ipfs repo needs migration"; answers := [Some "what"; Some "y"];
  ReadMigrationConfig := Ok "cache"; GetMigrationFetcher := None; MkdirTemp := None; RunMigration := None; reopen := Ok tt;
  repo_Config := Ok (cfg api ["T/gw"]); GetConfig := Ok (cfg api []); NewNode := None; Plugins_Start := plugins;
  api_taken := Ok []; gw_taken := Ok []; Listen := Ok; SetAPIAddr := None; ToNetAddr := None; SetGatewayAddr := None; nodeMount := None;
  SplitFirst := fun a => (a, a); Encapsulate := fun a _ => a; IP4Unspecified := "0" : @Maddr A; IP6Unspecified := "::" : @Maddr A; IP4Loopback := "127" : @Maddr A; IP6Loopback := "::1" : @Maddr A;
  strconv_Quote := quoted; reuseport := false; served := [None; Some "address in use"]; multierror := fun l => default "" (head l) |}.
Definition opts : options := MkOptions false false None false "default" None None false true "" None.

Abbreviation run api plugins := (daemonFunc (H := A) (system api plugins) opts []).

(** The plugins fail after a migration: all is released, though the daemon was never
    ready. *)
Lemma daemon_releases_witness :
  (run ["Tapi"] (Some "no plugin")).1 = Done (Err "no plugin") /\ forall k, held (H := A) k (run ["Tapi"] (Some "no plugin")).2 = false.
Proof.
  split; [reflexivity|].
  destruct (daemon_releases (system ["Tapi"] (Some "no plugin")) opts _ _ (surjective_pairing (run ["Tapi"] (Some "no plugin")))) as [[[msg Hx] _]|Hk]; [discriminate|exact Hk].
Defined.

Lemma ready_in (t : list (event (H := A))) : existsb (fun ev => match ev with Ready => true | _ => false end) t = true -> Ready ∈ t.
Proof. intros (ev & Hev & Hr)%existsb_exists. apply list_elem_of_In. by destruct ev. Qed.

Lemma daemon_ready_order_witness : exists pre post,
  (run ["Tapi"] None).2 = pre ++ Ready :: post /\ start_marks (H := A) opts (marks pre).
Proof. apply (daemon_ready_order (system ["Tapi"] None) opts). apply ready_in. vm_compute. reflexivity. Defined.

Lemma api_without_address_panics_witness :
  serveHTTPApi (H := A) (system [] None) opts [] = (Panicked "runtime error: index out of range [0] with length 0", []) /\
  serveHTTPGateway (H := A) (system [] None) opts [] = (Done (Ok tt), [GatewayServing false []]).
Proof. apply (api_without_address_panics (system [] None) opts (cfg [] []) []); reflexivity. Defined.
End DemoDaemon.
