(* ===== verification/MainCmd.v ===== *)
(** Where a command runs: [cmd/ipfs/main.go] over the repository of [FsRepo.v], with
    [repo/fsrepo/misc.go].

    [makeExecutor] decides between this process, the daemon, and the daemon with this
    process to fall back on; the daemon publishes its address with
    [FsRepo.SetAPIAddr].  Name resolution and [manet.DialArgs] are parameters;
    profiling and tracing are left out.

    Then the tree of commands as [core/commands/commands.go] lists it and
    [completion.go] completes it, and the directory watcher [cmd/ipfswatch/main.go]
    over trees of files, directories and links. *)
From Stdlib Require Import ZArith Lia Ascii String.
From stdpp Require Import base strings gmap sorting list.
From S2P Require Import Prelude GoStrings GoPath ConfigTypes ConfigMap Datastores FsRepo.

Local Open Scope io_scope.

(** ** Arguments *)

(** The arguments after the name of the program, as they are run. *)
Definition main_args (insideGUI : bool) (args : list string) : list string :=
  match args with
  | [] => if insideGUI then ["daemon"; "--init"] else []
  | a :: rest =>
      let a := if String.eqb a "--version" then "version" else a in
      if String.eqb a "help" then
        match rest with
        | [] => ["--help"]
        | b :: _ => if String.eqb b "--help" then rest else rest ++ ["--help"]
        end
      else a :: rest
  end.

(** ** Executors *)

(** What the command says about itself; the pointer comparison with [daemonCmd] is a
    flag. *)
Record command := MkCommand { NoLocal : bool; NoRemote : bool; DoesNotUseRepo : option bool; is_daemonCmd : bool }.

(** This process, or a client of the daemon at a host (for a socket, its path), which
    may fall back on this process. *)
Inductive executor := LocalExecutor | Client (host : string) (socket : option string) (fallback : bool).

(** [%v] of the path of a request. *)
Definition path_text (path : list string) : string := "[" +:+ String.concat " " path +:+ "]".

Section Main.
Context `{RepoEnv', DatastoreEnv}.
Context (Resolve : Multiaddr -> result (list Multiaddr)) (DialArgs : Multiaddr -> result (string * string)).

Definition BestKnownPath : result string :=
  Expand (if String.eqb env_IPFS_PATH "" then DefaultPathRoot else env_IPFS_PATH).

Definition getRepoPath (repoOpt : option string) : result string :=
  match repoOpt with
  | Some p => if String.eqb p "" then BestKnownPath else Ok p
  | None => BestKnownPath
  end.

Definition apiAddrOption (opt : option string) : result (option Multiaddr) :=
  match opt with
  | None => Ok None
  | Some s => match NewMultiaddr s with Err e => Err e | Ok a => Ok (Some a) end
  end.

Definition resolveAddr (addr : Multiaddr) : result Multiaddr :=
  match Resolve addr with
  | Err e => Err e
  | Ok [] => Err "non-resolvable API endpoint"
  | Ok (a :: _) => Ok a
  end.

(** The address in the repository, if the daemon runs. *)
Definition published (ConfigRoot : string) : io (option Multiaddr) :=
  do r <- try (APIAddr ConfigRoot);
  match r with
  | Ok a => ret (Some a)
  | Err e => if decide (e = ErrApiNotRunning) then ret None else throw e
  end.

(** From a known address on. *)
Definition client_of (daemonRequested : bool) (ConfigRoot : string) (apiAddr : Multiaddr) : io executor :=
  do apiAddr <- of_result (resolveAddr apiAddr);
  do nh <- of_result (DialArgs apiAddr);
  let '(network, host) := (nh : string * string) in
  do fallback <- (if daemonRequested then ret false else IsInitialized ConfigRoot);
  if bool_decide (network ∈ ["tcp"; "tcp4"; "tcp6"]) then ret (Client host None fallback)
  else if String.eqb network "unix" then ret (Client "unix" (Some host) fallback)
  else throw ("unsupported API address: " +:+ ma_String apiAddr).

Definition makeExecutor (c : command) (path : list string) (apiOption : option string) (ConfigRoot : string) : io executor :=
  if NoLocal c && NoRemote c then throw ("command disabled: " +:+ path_text path)
  else if negb (NoLocal c) && default false (DoesNotUseRepo c) then ret LocalExecutor
  else
    do apiAddr <- of_result (apiAddrOption apiOption);
    let daemonRequested := bool_decide (is_Some apiAddr) && negb (is_daemonCmd c) in
    if NoRemote c then
      if daemonRequested then throw "api flag specified but command cannot be run on the daemon" else ret LocalExecutor
    else
      do apiAddr <- (match apiAddr with Some a => ret (Some a) | None => published ConfigRoot end);
      match apiAddr with
      | None => if NoLocal c then throw ("command must be run on the daemon: " +:+ path_text path) else ret LocalExecutor
      | Some apiAddr => client_of daemonRequested ConfigRoot apiAddr
      end.
End Main.

(** ** Theorems *)

(** Asking for help in front of a command and with its option are the same command
    line, whatever the command is, unless it is one of the words [ipfs] rewrites. *)
Theorem help_alias gui b rest : b <> "help" -> b <> "--help" -> b <> "--version" ->
  main_args gui ("help" :: b :: rest) = main_args gui (b :: rest ++ ["--help"]).
Proof. intros H1%String.eqb_neq H2%String.eqb_neq H3%String.eqb_neq. unfold main_args. cbn [String.eqb]. rewrite H2, H3, H1. done. Qed.

Section MainTheorems.
Context `{RepoEnv', DatastoreEnv}.
Context (Resolve : Multiaddr -> result (list Multiaddr)) (DialArgs : Multiaddr -> result (string * string)).
Abbreviation makeExecutor := (makeExecutor Resolve DialArgs).
Abbreviation client_of := (client_of Resolve DialArgs).

Lemma IsInitialized_pure root s : exists b, IsInitialized root s = (Ok b, s).
Proof. unfold IsInitialized, isInitializedUnsynced, configIsInitialized, FileExists. destruct (Filename root ""); by eexists. Qed.

Lemma client_of_client req root a s e s' : client_of req root a s = (Ok e, s') -> exists h sk fb, e = Client h sk fb /\ (req = true -> fb = false).
Proof.
  unfold client_of. intros (a1 & s1 & Ha & E)%bind_ok. apply bind_ok in E as ([network host] & s2 & Hd & E). apply bind_ok in E as (fb & s3 & Hf & E).
  assert (Hfb : req = true -> fb = false) by (intros ->; by injection Hf as <- <-).
  destruct (bool_decide _); [injection E as <- <-; eauto|]. destruct (String.eqb network "unix"); [injection E as <- <-; eauto|done].
Qed.

(** A command that says it cannot run on the daemon always runs in this process,
    one that says it cannot run here is always sent to a daemon, and when an address is
    given on the command line the command goes to that daemon alone, never silently to
    this process; the exceptions are the daemon itself and commands that need no
    repository. *)
Theorem executor_respects_command c p opt root s e s' : makeExecutor c p opt root s = (Ok e, s') ->
  (NoRemote c = true -> e = LocalExecutor) /\ (NoLocal c = true -> e <> LocalExecutor) /\
  (is_Some opt -> is_daemonCmd c = false -> NoLocal c = true \/ default false (DoesNotUseRepo c) = false -> exists h sk, e = Client h sk false).
Proof.
  unfold makeExecutor. destruct (NoLocal c && NoRemote c) eqn:Hdis; [done|].
  destruct (negb (NoLocal c) && default false (DoesNotUseRepo c)) eqn:Hnr.
  { intros [= <- <-]. apply andb_true_iff in Hnr as [->%negb_true_iff ->]. split_and!; [done|done|]. by intros _ _ [?|?]. }
  intros (oa & s1 & Ho & E)%bind_ok. assert (Hopt : is_Some opt -> is_Some oa).
  { destruct opt as [a|]; [|by intros [? ?]]. unfold apiAddrOption, of_result in Ho. destruct (NewMultiaddr a); by simplify_eq. }
  destruct (NoRemote c) eqn:Hr.
  - rewrite andb_true_r in Hdis. rewrite Hdis. destruct (bool_decide (is_Some oa) && negb (is_daemonCmd c)) eqn:Hq; [done|]. injection E as <- <-.
    split_and!; [done|done|]. intros Hs Hd _. rewrite Hd, bool_decide_eq_true_2 in Hq by auto. done.
  - apply bind_ok in E as ([a|] & s2 & Ha & E).
    + apply client_of_client in E as (h & sk & fb & -> & Hfb). split_and!; [done|done|]. intros Hs Hd _. exists h, sk.
      rewrite Hfb; [done|]. by rewrite Hd, bool_decide_eq_true_2 by auto.
    + destruct (NoLocal c); [done|]. injection E as <- <-. split_and!; [done|done|]. intros Hs%Hopt Hd _. destruct oa as [a|]; [done|by destruct Hs].
Qed.

(** The daemon has published its address in the repository. *)
Definition daemon_published (r : FSRepo) (addr : Multiaddr) (s s' : disk) : Prop :=
  path r <> "" /\ SetAPIAddr r addr s = (Ok tt, s') /\ Clean (path r) = path r /\ quiet s' /\
  (String.length (ma_String addr) < 2048)%nat /\ TrimSpace (ma_String addr) = ma_String addr.

Lemma published_found r addr s s' : daemon_published r addr s s' -> published (path r) s' = (Ok (Some addr), s').
Proof.
  intros (Hp & Hs & Hc & Hq & Hl & Ht). destruct (api_addr_atomic r addr s _ s' Hp Hs) as (_ & _ & Ha).
  unfold published, bind, try. by rewrite (Ha eq_refl Hc Hq Hl Ht).
Qed.

(** The daemon and its clients meet in the repository: after [SetAPIAddr] has
    published an address, a command that may run remotely is sent to what that address
    resolves to, and may fall back on this process exactly when the repository is
    initialized. *)
Theorem executor_finds_daemon c p r addr s s' a l host b :
  daemon_published r addr s s' -> NoRemote c = false -> NoLocal c = true \/ default false (DoesNotUseRepo c) = false ->
  Resolve addr = Ok (a :: l) -> DialArgs a = Ok ("tcp", host) -> IsInitialized (path r) s' = (Ok b, s') ->
  makeExecutor c p None (path r) s' = (Ok (Client host None b), s').
Proof.
  intros Hpub Hr Hl Hres Hd Hb. unfold makeExecutor. rewrite Hr, andb_false_r.
  assert (E : negb (NoLocal c) && default false (DoesNotUseRepo c) = false) by (destruct Hl as [->| ->]; [done|apply andb_false_r]). rewrite E.
  unfold bind at 1. cbn [apiAddrOption of_result]. unfold bind at 1. rewrite (published_found _ _ _ _ Hpub).
  unfold client_of, resolveAddr, bind, of_result. rewrite Hres, Hd. cbn. by rewrite Hb.
Qed.

(** When no daemon has published an address, a command runs in this process, and one
    that must not is refused. *)
Theorem executor_without_daemon c p root s : quiet s -> files s !! Join (Clean root) apiFile = None ->
  NoLocal c && NoRemote c = false ->
  makeExecutor c p None root s =
    (if NoLocal c then Err ("command must be run on the daemon: " +:+ path_text p) else Ok LocalExecutor, s).
Proof.
  intros Hq Hf Hdis. assert (Hpub : published root s = (Ok None, s)).
  { unfold published, APIAddr, bind, try. rewrite os_ReadFile_quiet by done. by rewrite Hf. }
  unfold makeExecutor. rewrite Hdis. destruct (negb (NoLocal c) && default false (DoesNotUseRepo c)) eqn:Hnr.
  { by apply andb_true_iff in Hnr as [->%negb_true_iff _]. }
  unfold bind at 1. cbn [apiAddrOption of_result]. destruct (NoRemote c); [rewrite andb_true_r in Hdis; by rewrite Hdis|].
  unfold bind at 1. rewrite Hpub. by destruct (NoLocal c).
Qed.

(** A command that must not run in this process is given this process to fall back
    on when the repository is initialized: with a daemon that is gone but left its
    address, it runs here after all. *)
Theorem no_local_falls_back c p r addr s s' a l host :
  daemon_published r addr s s' -> NoRemote c = false -> NoLocal c = true ->
  Resolve addr = Ok (a :: l) -> DialArgs a = Ok ("tcp", host) -> IsInitialized (path r) s' = (Ok true, s') ->
  exists h sk, (makeExecutor c p None (path r) s').1 = Ok (Client h sk true).
Proof.
  intros Hpub Hr Hl Hres Hd Hb. exists host, None. unfold makeExecutor. rewrite Hr, andb_false_r, Hl. cbn [negb andb].
  unfold bind at 1. cbn [apiAddrOption of_result]. unfold bind at 1. rewrite (published_found _ _ _ _ Hpub).
  unfold client_of, resolveAddr, bind, of_result. rewrite Hres, Hd. cbn. by rewrite Hb.
Qed.
End MainTheorems.

(** ** Witnesses *)

Module DemoMain.
Import DemoRepo.
#[local] Existing Instance demo_env.
#[local] Existing Instance demo_ds.

Definition api : @Multiaddr demo_env := "/ip4/127.0.0.1/tcp/5001".
Definition resolve (a : @Multiaddr demo_env) : result (list (@Multiaddr demo_env)) := Ok [a].
Definition dial (a : @Multiaddr demo_env) : result (string * string) := Ok ("tcp", "127.0.0.1:5001").
Definition running : disk := (SetAPIAddr demo_repo0 api (demo_disk [])).2.
Definition plain : command := MkCommand false false None false.
Definition only_daemon : command := MkCommand true false None false.

Lemma help_alias_witness : main_args false ["help"; "cat"] = main_args false ["cat"; "--help"].
Proof. apply (help_alias false "cat" []); discriminate. Defined.

Lemma published_demo : daemon_published demo_repo0 api (demo_disk []) running.
Proof. split_and!; try reflexivity; [discriminate|]. apply Nat.ltb_lt. reflexivity. Qed.

Lemma executor_respects_command_witness :
  exists h sk, (makeExecutor resolve dial plain ["cat"] (Some "/ip4/1.2.3.4/tcp/5001") "/repo" running).1 = Ok (Client h sk false).
Proof.
  destruct (makeExecutor resolve dial plain ["cat"] (Some "/ip4/1.2.3.4/tcp/5001") "/repo" running) as [r s'] eqn:E.
  assert (Er : r = Ok (Client "127.0.0.1:5001" None false)) by (apply (f_equal fst) in E; vm_compute in E; exact (eq_sym E)). subst r.
  destruct (executor_respects_command resolve dial plain ["cat"] (Some "/ip4/1.2.3.4/tcp/5001") "/repo" running _ s' E) as (_ & _ & Hc).
  destruct Hc as (h & sk & ->); [by eexists|reflexivity|by right|]. exists h, sk. reflexivity.
Defined.

Lemma executor_finds_daemon_witness : makeExecutor resolve dial plain ["cat"] None "/repo" running = (Ok (Client "127.0.0.1:5001" None true), running).
Proof.
  apply (executor_finds_daemon resolve dial plain ["cat"] demo_repo0 api (demo_disk []) running api [] "127.0.0.1:5001" true published_demo); try reflexivity. by right.
Defined.

Lemma executor_without_daemon_witness :
  makeExecutor resolve dial only_daemon ["diag"; "cmds"] None "/repo" (demo_disk []) = (Err "command must be run on the daemon: [diag cmds]", demo_disk []).
Proof. apply (executor_without_daemon resolve dial only_daemon ["diag"; "cmds"] "/repo" (demo_disk [])); reflexivity. Defined.

Lemma no_local_falls_back_witness :
  exists h sk, (makeExecutor resolve dial only_daemon ["diag"; "cmds"] None "/repo" running).1 = Ok (Client h sk true).
Proof. apply (no_local_falls_back resolve dial only_daemon ["diag"; "cmds"] demo_repo0 api (demo_disk []) running api [] "127.0.0.1:5001" published_demo); reflexivity. Defined.
End DemoMain.

(** ** The tree of commands *)

(** An option: its names, the first of which is its name; whether it is a flag. *)
Record copt := MkCopt { co_name : string; co_names : list string; co_flag : bool; co_desc : string }.
(** [cmds.Command]: its tagline, its options and its subcommands, in the order in which Go
    goes through their map. *)
Inductive cmd_tree := Cmd (tagline : string) (options : list copt) (subs : list (string * cmd_tree)).
Definition subs_of (c : cmd_tree) : list (string * cmd_tree) := match c with Cmd _ _ subs => subs end.
Definition opts_of (c : cmd_tree) : list copt := match c with Cmd _ opts _ => opts end.

(** *** [ipfs commands] *)

Inductive Command := MkOutput (Name : string) (Subcommands : list Command) (Options : list (list string)).
Fixpoint cmd2outputCmd (name : string) (cmd : cmd_tree) : Command :=
  match cmd with Cmd _ opts subs => MkOutput name (map (fun p => match p with (n, sub) => cmd2outputCmd n sub end) subs) (co_names <$> opts) end.

Definition flag_text (flag : string) : string := if (String.length flag =? 1)%nat then "-" +:+ flag else "--" +:+ flag.
Fixpoint path_strings (showOptions : bool) (prefix : string) (cmd : Command) : list string :=
  match cmd with
  | MkOutput name subs opts =>
      let newPrefix := prefix +:+ name in
      newPrefix :: (if negb (String.eqb prefix "") && showOptions then (fun names => String.concat " / " ((fun f => newPrefix +:+ " " +:+ flag_text f) <$> names)) <$> opts else []) ++
      concat (map (fun sub => path_strings showOptions (newPrefix +:+ " ") sub) subs)
  end.
Definition cmdPathStrings (cmd : Command) (showOptions : bool) : list string := merge_sort String.le (path_strings showOptions "" cmd).

(** *** Completions *)

Record singleOption := MkSingle { LongNames : list string; ShortNames : list string; so_Description : string }.
Record comp_options := MkCompOptions { Flags : list singleOption; Options_ : list singleOption; ShortFlags : list string; ShortOptions : list string; LongFlags : list string; LongOptions : list string }.
Inductive completionCommand := MkComp (Name FullName Description : string) (Subcommands : list completionCommand) (o : comp_options) (IsFinal : bool).
Definition c_Name (c : completionCommand) : string := match c with MkComp n _ _ _ _ _ => n end.
Definition c_Subcommands (c : completionCommand) : list completionCommand := match c with MkComp _ _ _ s _ _ => s end.

(** The first name of one byte. *)
Definition short_of (o : copt) : list string := match List.find (fun n => (String.length n =? 1)%nat) (co_names o) with Some n => [n] | None => [] end.
Definition single (o : copt) : singleOption := MkSingle [co_name o] (short_of o) (co_desc o).
Definition completion_options (opts : list copt) : comp_options :=
  let flags := filter (fun o => co_flag o = true) opts in
  let others := filter (fun o => co_flag o = false) opts in
  let sorted l := merge_sort String.le l in
  MkCompOptions (single <$> flags) (single <$> others) (sorted (flags ≫= short_of)) (sorted (others ≫= short_of)) (sorted (co_name <$> flags)) (sorted (co_name <$> others)).

Definition name_le (x y : completionCommand) : Prop := String.le (c_Name x) (c_Name y).
#[export] Instance name_le_dec : RelDecision name_le.
Proof. intros x y. unfold name_le. apply _. Defined.

Fixpoint commandToCompletions (name fullName : string) (cmd : cmd_tree) : completionCommand :=
  match cmd with
  | Cmd tagline opts subs =>
      MkComp name fullName tagline (merge_sort name_le (map (fun p => match p with (n, sub) => commandToCompletions n (fullName +:+ " " +:+ n) sub end) subs))
        (completion_options opts) (match subs with [] => true | _ => false end)
  end.

(** *** Theorems *)

(** Each level's subcommands have distinct names, as in a map. *)
Fixpoint tree_ok (c : cmd_tree) : Prop := match c with Cmd _ _ subs => NoDup subs.*1 /\ List.fold_right (fun p acc => tree_ok p.2 /\ acc) True subs end.

Fixpoint find_command (c : cmd_tree) (path : list string) : option cmd_tree :=
  match path with
  | [] => Some c
  | n :: path => match List.find (fun p => String.eqb p.1 n) (subs_of c) with Some p => find_command p.2 path | None => None end
  end.
Fixpoint find_completion (c : completionCommand) (path : list string) : option completionCommand :=
  match path with
  | [] => Some c
  | n :: path => match List.find (fun s => String.eqb (c_Name s) n) (c_Subcommands c) with Some s => find_completion s path | None => None end
  end.
Definition spaced (fullName : string) (path : list string) : string := fold_left (fun s n => s +:+ " " +:+ n) path fullName.

Lemma find_key_spec {A} (key : A -> string) n (l : list A) x :
  NoDup (key <$> l) -> List.find (fun a => String.eqb (key a) n) l = Some x <-> x ∈ l /\ key x = n.
Proof.
  intros Hnd. split.
  - intros [Hin Heq%String.eqb_eq]%find_some. by rewrite <-list_elem_of_In in Hin.
  - intros [Hin Hkey]. induction l as [| a l IH]; [by apply not_elem_of_nil in Hin |]. cbn.
    inversion Hnd as [| ? ? Hfresh Hrest]; subst. destruct (String.eqb_spec (key a) (key x)) as [Heq | Hne].
    + apply elem_of_cons in Hin as [-> | Hin]; [done |]. destruct Hfresh. rewrite Heq. by apply list_elem_of_fmap_2.
    + apply elem_of_cons in Hin as [-> | Hin]; [done | by apply IH].
Qed.

Lemma find_key_Permutation {A} (key : A -> string) n (l l' : list A) :
  NoDup (key <$> l) -> l ≡ₚ l' -> List.find (fun a => String.eqb (key a) n) l = List.find (fun a => String.eqb (key a) n) l'.
Proof.
  intros Hnd Hperm. apply option_eq. intros x. rewrite !find_key_spec; [by rewrite Hperm | by rewrite <-Hperm | done].
Qed.

Lemma completion_name name fullName cmd : c_Name (commandToCompletions name fullName cmd) = name.
Proof. by destruct cmd. Qed.

Lemma completion_subs name fullName cmd :
  c_Subcommands (commandToCompletions name fullName cmd) =
  merge_sort name_le ((fun p => commandToCompletions p.1 (fullName +:+ " " +:+ p.1) p.2) <$> subs_of cmd).
Proof. destruct cmd as [t o subs]. cbn. f_equal. apply map_ext. by intros []. Qed.

Lemma completion_keys fullName (subs : list (string * cmd_tree)) :
  c_Name <$> ((fun p => commandToCompletions p.1 (fullName +:+ " " +:+ p.1) p.2) <$> subs) = subs.*1.
Proof. rewrite <-list_fmap_compose. apply list_fmap_ext. intros i p _. apply completion_name. Qed.

Lemma tree_ok_sub c n sub : tree_ok c -> (n, sub) ∈ subs_of c -> tree_ok sub.
Proof.
  destruct c as [t o subs]. cbn [tree_ok subs_of]. intros [_ Hall]. induction subs as [| p subs IH]; [by intros ?%not_elem_of_nil |].
  destruct Hall as [Hp Hrest]. intros [<- | Hin]%elem_of_cons; [done | by apply IH].
Qed.

Lemma tree_ok_names c : tree_ok c -> NoDup (subs_of c).*1.
Proof. destruct c. by intros [? _]. Qed.

Lemma find_completion_map fullName n (subs : list (string * cmd_tree)) :
  List.find (fun s => String.eqb (c_Name s) n) ((fun p => commandToCompletions p.1 (fullName +:+ " " +:+ p.1) p.2) <$> subs) =
  (fun p => commandToCompletions p.1 (fullName +:+ " " +:+ p.1) p.2) <$> List.find (fun p => String.eqb p.1 n) subs.
Proof. induction subs as [| p subs IH]; [done |]. cbn. rewrite completion_name. by destruct (String.eqb p.1 n). Qed.

Lemma find_sorted n (l : list completionCommand) :
  NoDup (c_Name <$> l) -> List.find (fun s => String.eqb (c_Name s) n) (merge_sort name_le l) = List.find (fun s => String.eqb (c_Name s) n) l.
Proof. intros Hnd. symmetry. apply find_key_Permutation; [done |]. symmetry. apply merge_sort_Permutation. Qed.

Lemma last_cons_default {A} (x d : A) l : List.last (x :: l) d = List.last l x.
Proof.
  revert x d. induction l as [| y l IH]; [done |]. intros x d.
  change (List.last (y :: l) d = List.last (y :: l) x). by rewrite !(IH y).
Qed.

(** The completions have the commands of the tree and no others: below each path is what the
    command at that path gives, under its last name and with the path as its full name. *)
Theorem completions_exact name fullName cmd path :
  tree_ok cmd ->
  find_completion (commandToCompletions name fullName cmd) path =
  (fun c => commandToCompletions (List.last path name) (spaced fullName path) c) <$> find_command cmd path.
Proof.
  revert name fullName cmd. induction path as [| n path IH]; intros name fullName cmd Hok; [done |].
  cbn [find_completion find_command]. rewrite completion_subs.
  rewrite find_sorted by (rewrite completion_keys; by apply tree_ok_names).
  rewrite find_completion_map. destruct (List.find _ (subs_of cmd)) as [[m sub] |] eqn:Hfind; [| done].
  apply (find_key_spec fst) in Hfind as [Hin <-]; [| by apply tree_ok_names]. cbn [fst snd fmap option_fmap option_map].
  rewrite IH by by eapply tree_ok_sub. unfold spaced. cbn [fold_left]. by rewrite last_cons_default.
Qed.

Lemma cmd_tree_strong_ind (P : cmd_tree -> Prop) :
  (forall t o subs, (forall n sub, (n, sub) ∈ subs -> P sub) -> P (Cmd t o subs)) -> forall c, P c.
Proof.
  intros Hstep. fix IH 1. intros [t o subs]. apply Hstep. induction subs as [| [m s] subs IHsubs].
  - intros n sub Hin. destruct (not_elem_of_nil _ Hin).
  - intros n sub [[= -> ->] | Hin]%elem_of_cons; [apply IH | exact (IHsubs n sub Hin)].
Qed.

Lemma path_strings_sub prefix name cmd x :
  x ∈ path_strings false prefix (cmd2outputCmd name cmd) <->
  x = prefix +:+ name \/ exists n sub, (n, sub) ∈ subs_of cmd /\ x ∈ path_strings false ((prefix +:+ name) +:+ " ") (cmd2outputCmd n sub).
Proof.
  destruct cmd as [t o subs]. cbn [cmd2outputCmd path_strings subs_of]. rewrite andb_false_r. cbn [app]. rewrite elem_of_cons.
  f_equiv. rewrite map_map. induction subs as [| [m s] subs IH]; cbn [map concat].
  - split; [by intros ?%not_elem_of_nil | by intros (? & ? & ?%not_elem_of_nil & _)].
  - rewrite elem_of_app, IH. split.
    + intros [Hx | (n & sub & Hin & Hx)]; [exists m, s | exists n, sub]; (split; [| done]); [apply list_elem_of_here | by apply list_elem_of_further].
    + intros (n & sub & [[= -> ->] | Hin]%elem_of_cons & Hx); [by left | right; eauto].
Qed.

Lemma path_strings_exact prefix name cmd x :
  tree_ok cmd ->
  x ∈ path_strings false prefix (cmd2outputCmd name cmd) <-> exists path c, find_command cmd path = Some c /\ x = spaced (prefix +:+ name) path.
Proof.
  revert prefix name x. induction cmd as [t o subs IH] using cmd_tree_strong_ind. intros prefix name x Hok. rewrite path_strings_sub. split.
  - intros [-> | (n & sub & Hin & Hx)]; [by exists [], (Cmd t o subs) |].
    apply (IH n sub Hin) in Hx as (path & c & Hfind & ->); [| by eapply tree_ok_sub].
    exists (n :: path), c. split; [| cbn [spaced fold_left]; unfold spaced; cbn [fold_left]; by rewrite <-!string_app_assoc].
    cbn [find_command]. by rewrite (proj2 (find_key_spec fst n _ (n, sub) (tree_ok_names _ Hok))).
  - intros ([| n path] & c & Hfind & ->); [by left |]. right. cbn [find_command] in Hfind.
    destruct (List.find _ _) as [[m sub] |] eqn:Hsub; [| done]. apply (find_key_spec fst) in Hsub as [Hin <-]; [| by apply tree_ok_names].
    exists m, sub. split; [done |]. apply (IH m sub Hin); [by eapply tree_ok_sub |]. exists path, c. split; [done |].
    unfold spaced. cbn [fold_left fst]. by rewrite <-!string_app_assoc.
Qed.

(** [ipfs commands] lists, in order, the path of every command of the tree and nothing else. *)
Theorem commands_listed_exact name cmd :
  tree_ok cmd ->
  Sorted String.le (cmdPathStrings (cmd2outputCmd name cmd) false) /\
  forall x, x ∈ cmdPathStrings (cmd2outputCmd name cmd) false <-> exists path c, find_command cmd path = Some c /\ x = spaced name path.
Proof.
  intros Hok. unfold cmdPathStrings. split; [apply Sorted_merge_sort, _ |]. intros x. rewrite merge_sort_Permutation. by apply path_strings_exact.
Qed.

Module DemoTree.
Definition leaf t := Cmd t [] [].
Definition flags := [MkCopt "recursive" ["recursive"; "r"] true "Recursively."; MkCopt "timeout" ["timeout"] false "Limit."].
Definition pin := Cmd "Pin" [] [("rm", leaf "Remove"); ("add", Cmd "Add" flags [])].
Definition root := Cmd "Root" flags [("pin", pin); ("id", leaf "Show")].

Example listed : cmdPathStrings (cmd2outputCmd "ipfs" root) false = ["ipfs"; "ipfs id"; "ipfs pin"; "ipfs pin add"; "ipfs pin rm"].
Proof. vm_compute. reflexivity. Qed.

Example listed_flags :
  cmdPathStrings (cmd2outputCmd "ipfs" root) true =
  ["ipfs"; "ipfs id"; "ipfs pin"; "ipfs pin add"; "ipfs pin add --recursive / ipfs pin add -r"; "ipfs pin add --timeout"; "ipfs pin rm"].
Proof. vm_compute. reflexivity. Qed.

Lemma root_ok : tree_ok root.
Proof. cbn. split_and!; try done; repeat constructor; set_solver. Defined.

Lemma commands_listed_exact_witness : "ipfs pin add" ∈ cmdPathStrings (cmd2outputCmd "ipfs" root) false.
Proof. apply (proj2 (commands_listed_exact "ipfs" root root_ok)). exists ["pin"; "add"], (Cmd "Add" flags []). split; reflexivity. Defined.

Lemma completions_exact_witness :
  find_completion (commandToCompletions "ipfs" "" root) ["pin"; "add"] = Some (commandToCompletions "add" " pin add" (Cmd "Add" flags [])).
Proof. rewrite (completions_exact "ipfs" "" root ["pin"; "add"] root_ok). reflexivity. Defined.
End DemoTree.

(** ** The directory watcher: [cmd/ipfswatch] *)

(** What the file system has under a path: a file, a directory with what reading its names
    gives, or a link with what [os.Stat] says of its target: nothing when there is none,
    else whether it is a directory. *)
Inductive wnode := WFile | WDir (unreadable : option error) (children : list (string * wnode)) | WLink (target : option bool).
Definition stat_of (n : wnode) : option bool := match n with WFile => Some false | WDir _ _ => Some true | WLink t => t end.

(** The information that comes with a failure of [os.Stat] is nil. *)
Definition IsDirectory (stat : option bool) : outcome bool :=
  match stat with Some isDir => Ret isDir | None => Panic "invalid memory address or nil pointer dereference" end.

Definition IsHidden (p : string) : bool :=
  let p := path_Base p in
  if String.eqb p "." || String.eqb p "" then false else match p with String c _ => Ascii.eqb c "."%char | EmptyString => false end.

Inductive walked := Continue | SkipDir | Stopped (e : error).

Section Watch.
(** [fsnotify]: adding a watch may fail. *)
Context (watch_error : string -> option error).

(** The function that [addTree] walks with; [failed] is the error that the walk reports. *)
Definition visit (path : string) (stat : option bool) (failed : bool) (w : list string) : outcome (walked * list string) :=
  if failed then Ret (Continue, w)
  else match IsDirectory stat with
  | Panic e => Panic e
  | Ret isDir =>
      if isDir && IsHidden path then Ret (SkipDir, w)
      else if isDir then
        match watch_error path with Some e => Ret (Stopped e, w) | None => Ret (Continue, w ++ [path]) end
      else Ret (Continue, w)
  end.

(** The loop of [filepath.Walk] over the names of a directory: what is no directory ends it when
    it asks to skip. *)
Definition walk_names (rec : string -> wnode -> list string -> outcome (walked * list string)) (path : string) :=
  fix names (l : list (string * wnode)) (w : list string) : outcome (walked * list string) :=
    match l with
    | [] => Ret (Continue, w)
    | (name, c) :: l =>
        match rec (Join path name) c w with
        | Panic e => Panic e
        | Ret (Continue, w) => names l w
        | Ret (SkipDir, w) => match c with WDir _ _ => names l w | _ => Ret (SkipDir, w) end
        | Ret (Stopped e, w) => Ret (Stopped e, w)
        end
    end.

Fixpoint walk (path : string) (n : wnode) (w : list string) : outcome (walked * list string) :=
  match n with
  | WFile | WLink _ => visit path (stat_of n) false w
  | WDir unreadable children =>
      match visit path (Some true) (match unreadable with Some _ => true | None => false end) w with
      | Panic e => Panic e
      | Ret (Continue, w) => match unreadable with Some _ => Ret (Continue, w) | None => walk_names walk path children w end
      | Ret (r, w) => Ret (r, w)
      end
  end.

(** [root] is what is at the path, if anything. *)
Definition addTree (path : string) (root : option wnode) (w : list string) : outcome (option error * list string) :=
  match root with
  | None => Ret (None, w)
  | Some n =>
      match walk path n w with
      | Panic e => Panic e
      | Ret (Stopped e, w) => Ret (Some e, w)
      | Ret (_, w) => Ret (None, w)
      end
  end.

(** *** Events *)

Definition fs_Create : Z := 1.
Definition fs_Remove : Z := 4.

Record watcher := MkWatcher { watched : list string; added : list string }.

(** One event of the loop of [run]: a name and its operations, with what the name stands for
    when the event is read.  [added] are the names handed to a goroutine that adds them.
    [Remove_error] is the failure to remove a watch. *)
Definition watch_event (Remove_error : string -> option error) (name : string) (op : Z) (at_name : option wnode) (s : watcher) : outcome (option error * watcher) :=
  match IsDirectory (at_name ≫= stat_of) with
  | Panic e => Panic e
  | Ret isDir =>
      if (op =? fs_Remove)%Z then
        if isDir then
          match Remove_error name with
          | Some e => Ret (Some e, s)
          | None => Ret (None, MkWatcher (filter (fun p => p <> name) (watched s)) (added s))
          end
        else Ret (None, s)
      else if (op =? fs_Create)%Z && isDir then
        match addTree name at_name (watched s) with
        | Panic e => Panic e
        | Ret (Some e, w) => Ret (Some e, MkWatcher w (added s))
        | Ret (None, w) => Ret (None, MkWatcher w (added s ++ [name]))
        end
      else Ret (None, MkWatcher (watched s) (added s ++ [name]))
  end.

(** *** Theorems *)

(** The directories that are to be watched: those reached without going through a hidden one,
    and links to directories. *)
Inductive to_watch : string -> wnode -> string -> Prop :=
| watch_here path n : stat_of n = Some true -> (forall e l, n <> WDir (Some e) l) -> IsHidden path = false -> to_watch path n path
| watch_below path l name c p : IsHidden path = false -> (name, c) ∈ l -> to_watch (Join path name) c p -> to_watch path (WDir None l) p.

(** No link is dangling, and none to a directory is hidden. *)
Inductive links_ok : string -> wnode -> Prop :=
| ok_file path : links_ok path WFile
| ok_link path d : (d = true -> IsHidden path = false) -> links_ok path (WLink (Some d))
| ok_dir path u l : (forall name c, (name, c) ∈ l -> links_ok (Join path name) c) -> links_ok path (WDir u l).

Lemma wnode_strong_ind (P : wnode -> Prop) :
  P WFile -> (forall t, P (WLink t)) -> (forall u l, (forall name c, (name, c) ∈ l -> P c) -> P (WDir u l)) -> forall n, P n.
Proof.
  intros Hf Hl Hd. fix IH 1. intros [| u l | t]; [exact Hf | apply Hd | exact (Hl t)]. induction l as [| [m c'] l IHl].
  - intros name c Hin. destruct (not_elem_of_nil _ Hin).
  - intros name c [[= -> ->] | Hin]%elem_of_cons; [apply IH | exact (IHl name c Hin)].
Qed.

Lemma links_ok_sub path u l name c : links_ok path (WDir u l) -> (name, c) ∈ l -> links_ok (Join path name) c.
Proof. inversion 1; subst; eauto. Qed.

Lemma walk_names_ok path l w :
  (forall name c w, (name, c) ∈ l -> exists r out, walk (Join path name) c w = Ret (r, w ++ out) /\
    (r = Continue \/ (r = SkipDir /\ exists u l, c = WDir u l)) /\ forall p, p ∈ out <-> to_watch (Join path name) c p) ->
  exists out, walk_names walk path l w = Ret (Continue, w ++ out) /\ forall p, p ∈ out <-> exists name c, (name, c) ∈ l /\ to_watch (Join path name) c p.
Proof.
  revert w. induction l as [| [name c] l IH]; intros w Hsub; cbn [walk_names].
  { exists []. rewrite app_nil_r. split; [done |]. intros p. split; [by intros ?%not_elem_of_nil | by intros (? & ? & ?%not_elem_of_nil & _)]. }
  destruct (Hsub name c w) as (r & out & Hwalk & Hr & Hout); [apply list_elem_of_here |]. rewrite Hwalk.
  destruct (IH (w ++ out)) as (out' & Hrest & Hout'); [intros; apply Hsub; by apply list_elem_of_further |].
  exists (out ++ out'). rewrite app_assoc. split.
  - destruct Hr as [-> | [-> (u & l' & ->)]]; exact Hrest.
  - intros p. rewrite elem_of_app, Hout, Hout'. split.
    + intros [Hp | (n & c' & Hin & Hp)]; [exists name, c; split; [apply list_elem_of_here | done] | exists n, c'; split; [by apply list_elem_of_further | done]].
    + intros (n & c' & [[= -> ->] | Hin]%elem_of_cons & Hp); [by left | right; eauto].
Qed.

Lemma walk_ok path n w :
  (forall p, watch_error p = None) -> links_ok path n -> exists r out, walk path n w = Ret (r, w ++ out) /\
    (r = Continue \/ (r = SkipDir /\ exists u l, n = WDir u l)) /\ forall p, p ∈ out <-> to_watch path n p.
Proof.
  intros Hadd. revert path w. induction n as [| t | u l IH] using wnode_strong_ind; intros path w Hok.
  - exists Continue, []. rewrite app_nil_r. split_and!; [done | by left |]. intros p. split; [by intros ?%not_elem_of_nil | by inversion 1].
  - inversion Hok as [| ? d Hhid |]; subst. cbn [walk stat_of]. unfold visit. cbn [IsDirectory]. destruct d; cbn [andb].
    + rewrite Hhid by done. rewrite Hadd. exists Continue, [path]. split_and!; [done | by left |]. intros p. rewrite list_elem_of_singleton.
      split; [intros ->; constructor; [done | done | by apply Hhid] | by inversion 1].
    + exists Continue, []. rewrite app_nil_r. split_and!; [done | by left |]. intros p. split; [by intros ?%not_elem_of_nil | by inversion 1].
  - cbn [walk]. unfold visit. destruct u as [e |]; cbn [IsDirectory andb].
    { exists Continue, []. rewrite app_nil_r. split_and!; [done | by left |]. intros p. split; [by intros ?%not_elem_of_nil |].
      inversion 1 as [? ? _ Hread |]; subst. by destruct (Hread e l). }
    destruct (IsHidden path) eqn:Hhid.
    { exists SkipDir, []. rewrite app_nil_r. split_and!; [done | right; eauto |]. intros p. split; [by intros ?%not_elem_of_nil |].
      inversion 1; congruence. }
    rewrite Hadd. destruct (walk_names_ok path l (w ++ [path])) as (out & Hnames & Hout).
    { intros name c w' Hin. eapply IH; [done |]. by eapply links_ok_sub. }
    exists Continue, (path :: out). rewrite Hnames, <-app_assoc. split_and!; [done | by left |]. intros p. rewrite elem_of_cons, Hout. split.
    + intros [-> | (name & c & Hin & Hp)]; [by constructor | by eapply watch_below].
    + inversion 1; subst; [by left | right; eauto].
Qed.

(** Where links lead somewhere and those to directories are not hidden, the watcher watches every
    directory that is not hidden nor in a hidden one, and nothing else. *)
Theorem watcher_watches path n w :
  (forall p, watch_error p = None) -> links_ok path n ->
  exists out, addTree path (Some n) w = Ret (None, w ++ out) /\ forall p, p ∈ out <-> to_watch path n p.
Proof.
  intros Hadd Hok. destruct (walk_ok path n w Hadd Hok) as (r & out & Hwalk & Hr & Hout). exists out. split; [| done].
  unfold addTree. rewrite Hwalk. by destruct Hr as [-> | [-> _]].
Qed.

(** A dangling link crashes the watcher, whatever comes before it in its directory. *)
Theorem dangling_link_panics path name before after w :
  (forall p, watch_error p = None) -> IsHidden path = false -> links_ok path (WDir None before) ->
  exists e, addTree path (Some (WDir None (before ++ (name, WLink None) :: after))) w = Panic e.
Proof.
  intros Hadd Hhid Hok. unfold addTree. cbn [walk]. unfold visit. cbn [IsDirectory andb]. rewrite Hhid, Hadd.
  assert (Hgo : forall w, walk_names walk path (before ++ (name, WLink None) :: after) w = Panic "invalid memory address or nil pointer dereference").
  { clear w. induction before as [| [m c] before IH]; intros w; [done |]. cbn [app walk_names].
    destruct (walk_ok (Join path m) c w Hadd) as (r & out & Hwalk & Hr & _); [eapply links_ok_sub; [done | apply list_elem_of_here] |].
    rewrite Hwalk. assert (Hrest : links_ok path (WDir None before)).
    { constructor. intros n' c' Hin. eapply links_ok_sub; [done | by apply list_elem_of_further]. }
    destruct Hr as [-> | [-> (u & l & ->)]]; by apply IH. }
  rewrite Hgo. eauto.
Qed.

(** An event for a name that is gone, as after every removal, crashes the watcher. *)
Theorem gone_name_panics Remove_error name op s : exists e, watch_event Remove_error name op None s = Panic e.
Proof. eexists. reflexivity. Qed.

(** A hidden root is not watched at all, and the parent directory counts as hidden. *)
Theorem hidden_root_unwatched path u l w : IsHidden path = true -> addTree path (Some (WDir u l)) w = Ret (None, w).
Proof. intros Hhid. unfold addTree. cbn [walk]. unfold visit. destruct u; [done |]. cbn [IsDirectory andb]. by rewrite Hhid. Qed.
End Watch.

Module DemoWatch.
Definition tree : wnode := WDir None [(".git", WDir None [("objects", WDir None [])]); ("a", WDir None [("f", WFile)]); ("l", WLink (Some true))].
Example watched_dirs : addTree (fun _ => None) "/w" (Some tree) [] = Ret (None, ["/w"; "/w/a"; "/w/l"]).
Proof. vm_compute. reflexivity. Qed.

Lemma tree_links : links_ok "/w" tree.
Proof.
  repeat (constructor; intros ? ? Hin; repeat (apply elem_of_cons in Hin as [[= -> ->] | Hin]); try (destruct (not_elem_of_nil _ Hin));
    try (constructor; done); try (constructor; vm_compute; done)).
Defined.

Lemma watcher_watches_witness : exists out, addTree (fun _ => None) "/w" (Some tree) ["/x"] = Ret (None, ["/x"] ++ out).
Proof. destruct (watcher_watches (fun _ => None) "/w" tree ["/x"] (fun _ => eq_refl) tree_links) as (out & Hw & _). by exists out. Defined.

Lemma dangling_link_panics_witness : exists e, addTree (fun _ => None) "/w" (Some (WDir None ([("f", WFile)] ++ ("l", WLink None) :: [("z", WDir None [])]))) [] = Panic e.
Proof.
  apply (dangling_link_panics (fun _ => None) "/w" "l" [("f", WFile)] [("z", WDir None [])] []); [done | by vm_compute |].
  constructor. intros ? ? Hin. apply elem_of_cons in Hin as [[= -> ->] | Hin]; [constructor | destruct (not_elem_of_nil _ Hin)].
Defined.

(** A hidden link to a directory hides what comes after it. *)
Example hidden_link_hides : addTree (fun _ => None) "/w" (Some (WDir None [(".l", WLink (Some true)); ("z", WDir None [])])) [] = Ret (None, ["/w"]).
Proof. vm_compute. reflexivity. Qed.

Lemma hidden_root_unwatched_witness : addTree (fun _ => None) ".." (Some tree) [] = Ret (None, []).
Proof. apply (hidden_root_unwatched (fun _ => None) ".."). by vm_compute. Defined.
End DemoWatch.
