(* ===== verification/DagCmds.v ===== *)
(** The commands [ipfs dag]: [core/commands/dag/import.go], [put.go], [export.go],
    [get.go], [resolve.go], [stat.go], and the size checks of
    [core/commands/cmdutils/utils.go].

    The block store, the pinner and the batch of the DAG service are fields of
    [DagNode] over a state [W]; codecs, CAR files and traversals are what their
    libraries deliver.  Importing threads the state with a trace of the lock and of
    what is done under it; what a command puts out is part of the state. *)
From Stdlib Require Import ZArith Lia Ascii String.
From stdpp Require Import base strings gmap list.
From S2P Require Import Prelude GoStrings.

Local Open Scope Z_scope.

Abbreviation cid := string.

(** A block and a decoded node: the CID and the number of bytes. *)
Record node := MkNode { n_cid : cid; n_size : Z }.

(** A CAR file as its reader delivers it: the error of the header, or the roots, the
    blocks and the error that ends them ([None] for the end of the file). *)
Record car_file := MkCar { car_open : option error; car_roots : list cid; car_blocks : list node; car_end : option error }.

(** ** [cmdutils/utils.go] *)

Definition SoftBlockLimit : Z := 1024 * 1024.

Definition CheckBlockSize (allowAnyBlockSize : bool) (size : Z) : option error :=
  if allowAnyBlockSize then None
  else if SoftBlockLimit <? size
  then Some "produced block is over 1MiB: big blocks can't be exchanged with other peers. consider using UnixFS for automatic chunking of bigger files, or pass --allow-big-block to override"
  else None.

(** [got] is the node the DAG service gives, with its size. *)
Definition CheckCIDSize (allowAnyBlockSize : bool) (got : result (result Z)) : option error :=
  match got with
  | Err e => Some ("CheckCIDSize: getting dag: " +:+ e)
  | Ok (Err e) => Some ("CheckCIDSize: getting node size: " +:+ e)
  | Ok (Ok nodeSize) => CheckBlockSize allowAnyBlockSize nodeSize
  end.

(** ** The node *)

Class DagNode := {
  W : Type;
  Stored : W -> cid -> Prop;            (** in the block store *)
  Buffered : W -> cid -> Prop;          (** in the batch *)
  PinnedRec : W -> cid -> Prop;
  Batch_Add : node -> W -> option error * W;
  Batch_Commit : W -> option error * W;
  Blockstore_Get : cid -> W -> result node;
  DecodeNode : node -> option error;
  Pin : node -> W -> option error * W;
  Pinning_Flush : W -> option error * W;
  (** a batch loses nothing, and has stored everything when it is committed *)
  Batch_Add_keeps nd w r w' c : Batch_Add nd w = (r, w') -> Stored w c \/ Buffered w c -> Stored w' c \/ Buffered w' c;
  Batch_Add_adds nd w w' : Batch_Add nd w = (None, w') -> Stored w' (n_cid nd) \/ Buffered w' (n_cid nd);
  Batch_Commit_stores w w' c : Batch_Commit w = (None, w') -> Stored w c \/ Buffered w c -> Stored w' c;
  (** pinning removes neither blocks nor pins *)
  Pin_keeps nd w r w' c : Pin nd w = (r, w') -> (Stored w c -> Stored w' c) /\ (PinnedRec w c -> PinnedRec w' c);
  Pin_pins nd w w' : Pin nd w = (None, w') -> PinnedRec w' (n_cid nd);
  Flush_keeps w r w' c : Pinning_Flush w = (r, w') -> (Stored w c -> Stored w' c) /\ (PinnedRec w c -> PinnedRec w' c);
  Get_cid c w nd : Blockstore_Get c w = Ok nd -> n_cid nd = c;
  (** errors have a text *)
  Get_text c w e : Blockstore_Get c w = Err e -> e <> "";
  Decode_text nd e : DecodeNode nd = Some e -> e <> "";
  Pin_text nd w e w' : Pin nd w = (Some e, w') -> e <> "";
  Flush_text w e w' : Pinning_Flush w = (Some e, w') -> e <> "";
}.

(** What a command puts out. *)
Inductive output := OutRoot (c : cid) (PinErrorMsg : string) | OutStats (BlockCount BlockBytesCount : Z) | OutCid (c : cid).

Inductive event := PinLock | Unlock | Batched (c : cid) | Committed | TriedPin (c : cid) | Emitted (o : output).

Section DagCmds.
Context `{DagNode}.

Record st := MkSt { world : W; trace : list event }.
Definition log (e : event) (s : st) : st := MkSt (world s) (trace s ++ [e]).
Definition call (es : list event) (f : W -> option error * W) (s : st) : option error * st :=
  let '(r, w) := f (world s) in (r, MkSt w (trace s ++ es)).

(** [unlocker := PinLock(ctx); defer unlocker.Unlock(ctx)] *)
Definition locked (body : st -> option error * st) (s : st) : option error * st :=
  let '(r, s) := body (log PinLock s) in (r, log Unlock s).

(** The client may be gone: whether an output can be sent. *)
Definition Emit (alive : output -> option error) (o : output) (s : st) : option error * st :=
  match alive o with Some e => (Some e, s) | None => (None, log (Emitted o) s) end.

(** *** [importWorker] *)

Record progress := MkProgress { roots : gset cid; blockCount : Z; blockBytesCount : Z }.

(** The inner loop, over the blocks of a file. *)
Fixpoint import_blocks (allowBig : bool) (blocks : list node) (ends : option error) (p : progress) (s : st) : result progress * st :=
  match blocks with
  | [] => match ends with Some e => (Err e, s) | None => (Ok p, s) end
  | b :: blocks =>
      match CheckBlockSize allowBig (n_size b) with
      | Some e => (Err e, s)
      | None =>
          match DecodeNode b with
          | Some e => (Err e, s)
          | None =>
              match call [Batched (n_cid b)] (Batch_Add b) s with
              | (Some e, s) => (Err e, s)
              | (None, s) => import_blocks allowBig blocks ends (MkProgress (roots p) (u64 (blockCount p + 1)) (u64 (blockBytesCount p + n_size b))) s
              end
          end
      end
  end.

(** The loop over the files; an entry may not be a file. *)
Fixpoint import_files (allowBig : bool) (files : list (option car_file)) (p : progress) (s : st) : result progress * st :=
  match files with
  | [] => (Ok p, s)
  | None :: _ => (Err "expected a file handle", s)
  | Some f :: files =>
      match car_open f with
      | Some e => (Err e, s)
      | None =>
          match import_blocks allowBig (car_blocks f) (car_end f) (MkProgress (list_to_set (car_roots f) ∪ roots p) (blockCount p) (blockBytesCount p)) s with
          | (Err e, s) => (Err e, s)
          | (Ok p, s) => import_files allowBig files p s
          end
      end
  end.

Definition importWorker (allowBig : bool) (files : list (option car_file)) (it_Err : option error) (s : st) : result progress * st :=
  match import_files allowBig files (MkProgress ∅ 0 0) s with
  | (Err e, s) => (Err e, s)
  | (Ok p, s) =>
      match it_Err with
      | Some e => (Err e, s)
      | None => match call [Committed] Batch_Commit s with (Some e, s) => (Err e, s) | (None, s) => (Ok p, s) end
      end
  end.

(** *** [dagImport] *)

(** Pinning a root: the message of the first failure, empty when there is none. *)
Definition pin_root (c : cid) (s : st) : string * st :=
  let s := log (TriedPin c) s in
  match Blockstore_Get c (world s) with
  | Err e => (e, s)
  | Ok b =>
      match DecodeNode b with
      | Some e => (e, s)
      | None =>
          match call [] (Pin b) s with
          | (Some e, s) => (e, s)
          | (None, s) => match call [] Pinning_Flush s with (Some e, s) => (e, s) | (None, s) => ("", s) end
          end
      end
  end.

Fixpoint pin_roots (alive : output -> option error) (cs : list cid) (failedPins : Z) (s : st) : result Z * st :=
  match cs with
  | [] => (Ok failedPins, s)
  | c :: cs =>
      let '(msg, s) := pin_root c s in
      match Emit alive (OutRoot c msg) s with
      | (Some e, s) => (Err e, s)
      | (None, s) => pin_roots alive cs (failedPins + if String.eqb msg "" then 0 else 1) s
      end
  end.

Definition failed_text (failed total : Z) : error :=
  "unable to pin all roots: " +:+ FormatInt failed +:+ " out of " +:+ FormatInt total +:+ " failed".

(** [order] is the order in which the map of roots is ranged over. *)
Definition dagImport (order : gset cid -> list cid) (alive : output -> option error) (allowBig doPinRoots stats : bool)
    (files : list (option car_file)) (it_Err : option error) : st -> option error * st :=
  locked (fun s =>
    match importWorker allowBig files it_Err s with
    | (Err e, s) => (Some e, s)
    | (Ok p, s) =>
        let rs := order (roots p) in
        match (if doPinRoots then pin_roots alive rs 0 s else (Ok 0, s)) with
        | (Err e, s) => (Some e, s)
        | (Ok failedPins, s) =>
            if 0 <? failedPins then (Some (failed_text failedPins (Z.of_nat (length rs))), s)
            else if stats then Emit alive (OutStats (blockCount p) (blockBytesCount p)) s
            else (None, s)
        end
    end).

(** *** [dagPut] *)

(** A file, encoded: what the decoder, the encoder, [Prefix.Sum] and
    [NewBlockWithCid] make of it; an entry may not be a file. *)
Fixpoint put_files (alive : output -> option error) (allowBig : bool) (files : list (option (result node))) (s : st) : option error * st :=
  match files with
  | [] => (None, s)
  | None :: _ => (Some "expected a regular file", s)
  | Some (Err e) :: _ => (Some e, s)
  | Some (Ok nd) :: files =>
      match CheckBlockSize allowBig (n_size nd) with
      | Some e => (Some e, s)
      | None =>
          match call [Batched (n_cid nd)] (Batch_Add nd) s with
          | (Some e, s) => (Some e, s)
          | (None, s) =>
              match Emit alive (OutCid (n_cid nd)) s with
              | (Some e, s) => (Some e, s)
              | (None, s) => put_files alive allowBig files s
              end
          end
      end
  end.

(** [codecs] is the first error of the names and the look-up of the codecs; with
    [--pin] the batch is over the adder that pins. *)
Definition dagPut (codecs : option error) (alive : output -> option error) (allowBig : bool) (files : list (option (result node))) (it_Err : option error) (s : st) : option error * st :=
  match codecs with
  | Some e => (Some e, s)
  | None =>
      match put_files alive allowBig files s with
      | (Some e, s) => (Some e, s)
      | (None, s) => match it_Err with Some e => (Some e, s) | None => call [Committed] Batch_Commit s end
      end
  end.
End DagCmds.

(** *** [dagExport] *)

(** The writer's error, if any, comes before that of closing the pipe; the command
    reports the first. *)
Definition first_error (written closed : option error) : option error :=
  match written with
  | Some e => Some e
  | None => match closed with Some e => Some ("stream flush failed: " +:+ e) | None => None end
  end.

(** [node] is whether the node runs online, if there is one. *)
Definition dagExport {C} (root : result C) (emitted : option error) (written closed : C -> option error) (IsNotFound : error -> bool)
    (explicitOffline : bool) (node : result bool) : option error :=
  match root with
  | Err e => Some ("unable to parse root specification (currently only bare CIDs are supported): " +:+ e)
  | Ok c =>
      match emitted with
      | Some e => Some e
      | None =>
          match first_error (written c) (closed c) with
          | None => None
          | Some e =>
              if negb (IsNotFound e) then Some e
              else if explicitOffline then Some (e +:+ " (currently offline, perhaps retry without the offline flag)")
              else match node with
              | Ok false => Some (e +:+ " (currently offline, perhaps retry after attaching to the network)")
              | _ => Some e
              end
          end
      end
  end.

(** *** [dagStat] *)

Record DagStat := MkDagStat { Size : Z; NumBlocks : Z }.
Definition count_block (size : Z) (d : DagStat) : DagStat := MkDagStat (u64 (Size d + size)) (NumBlocks d + 1).

(** The traversal calls the function for the blocks [sizes] and then ends with
    [ends].  The statistics are one record that is put out by reference: [seen] are the
    values at the moments of the calls. *)
Fixpoint stat_walk (progressive : bool) (alive : DagStat -> option error) (sizes : list Z) (ends : option error) (d : DagStat) (seen : list DagStat)
    : option error * DagStat * list DagStat :=
  match sizes with
  | [] => (ends, d, seen)
  | n :: sizes =>
      let d := count_block n d in
      if progressive then
        match alive d with
        | Some e => (Some e, d, seen)
        | None => stat_walk progressive alive sizes ends d (seen ++ [d])
        end
      else stat_walk progressive alive sizes ends d seen
  end.

Definition dagStat (progressive : bool) (alive : DagStat -> option error) (resolved : result (cid * string)) (got : cid -> option error)
    (Traverse : cid -> list Z * option error) : option error * list DagStat :=
  match resolved with
  | Err e => (Some e, [])
  | Ok (c, remainder) =>
      if negb (String.eqb remainder "") then (Some "cannot return size for anything other than a DAG with a root CID", [])
      else match got c with
      | Some e => (Some e, [])
      | None =>
          let '(sizes, ends) := Traverse c in
          match stat_walk progressive alive sizes ends (MkDagStat 0 0) [] with
          | (Some e, _, seen) => (Some ("error traversing DAG: " +:+ e), seen)
          | (None, d, seen) =>
              if progressive then (None, seen)
              else match alive d with Some e => (Some e, seen) | None => (None, seen ++ [d]) end
          end
      end
  end.

(** *** [dagResolve], [dagGet] *)

Definition dagResolve (resolved : result (cid * string)) : result (cid * string) := resolved.

(** A node of the DAG service may not be an IPLD node. *)
Definition dagGet {N} (codec : result Z) (resolved : result (cid * string)) (Get : cid -> result (N + string))
    (traversal_Get : N -> string -> result N) (LookupEncoder : Z -> result (N -> result string)) (codec_String : Z -> string) : result (result string) :=
  match codec with
  | Err e => Err e
  | Ok codec =>
      match resolved with
      | Err e => Err e
      | Ok (c, remainder) =>
          match Get c with
          | Err e => Err e
          | Ok (inr type) => Err (type +:+ " is not a valid IPLD node")
          | Ok (inl n) =>
              match (if String.eqb remainder "" then Ok n else traversal_Get n remainder) with
              | Err e => Err e
              | Ok final =>
                  match LookupEncoder codec with
                  | Err e => Err ("invalid encoding: " +:+ codec_String codec +:+ " - " +:+ e)
                  | Ok encoder => Ok (encoder final)
                  end
              end
          end
      end
  end.

(** ** Lemmas *)

Section Importing.
Context `{DagNode}.

Definition quiet_event (e : event) : Prop := e <> PinLock /\ e <> Unlock.
(** A part of a command that leaves the lock alone: it adds to the trace only. *)
Definition extends (s s' : st) : Prop := exists es, trace s' = trace s ++ es /\ Forall quiet_event es.
(** It loses nothing of what was stored or buffered, and no pin. *)
Definition keeps (s s' : st) : Prop := forall c,
  (Stored (world s) c \/ Buffered (world s) c -> Stored (world s') c \/ Buffered (world s') c).
Definition safe (s s' : st) : Prop := forall c, (Stored (world s) c -> Stored (world s') c) /\ (PinnedRec (world s) c -> PinnedRec (world s') c).

Lemma locked_inv body s r s' : locked body s = (r, s') -> exists s1, body (log PinLock s) = (r, s1) /\ s' = log Unlock s1.
Proof. unfold locked. destruct (body _) as [r1 s1]. intros [= <- <-]. by exists s1. Qed.

Lemma extends_refl s : extends s s.
Proof. exists []. by rewrite app_nil_r. Qed.
Lemma extends_trans s1 s2 s3 : extends s1 s2 -> extends s2 s3 -> extends s1 s3.
Proof. intros (a & Ha & Fa) (b & Hb & Fb). exists (a ++ b). split; [by rewrite Hb, Ha, app_assoc|by apply Forall_app]. Qed.
Lemma extends_log e s : quiet_event e -> extends s (log e s).
Proof. intros He. exists [e]. split; [done|by constructor]. Qed.
Lemma extends_call es f s r s' : call es f s = (r, s') -> Forall quiet_event es -> extends s s'.
Proof. unfold call. destruct (f (world s)) as [r' w']. intros [= <- <-] He. by exists es. Qed.
Lemma extends_Emit alive o s r s' : Emit alive o s = (r, s') -> extends s s'.
Proof. unfold Emit. destruct (alive o); intros [= <- <-]; [apply extends_refl|]. by apply extends_log. Qed.
Lemma Emit_world alive o s r s' : Emit alive o s = (r, s') -> world s' = world s.
Proof. unfold Emit. by destruct (alive o); intros [= <- <-]. Qed.
Lemma call_world es f s r s' : call es f s = (r, s') -> f (world s) = (r, world s').
Proof. unfold call. destruct (f (world s)) as [r' w']. by intros [= <- <-]. Qed.
Lemma safe_refl s : safe s s.
Proof. done. Qed.
Lemma safe_trans s1 s2 s3 : safe s1 s2 -> safe s2 s3 -> safe s1 s3.
Proof. intros Ha Hb c. destruct (Ha c), (Hb c). split; auto. Qed.

Create HintDb dag.
#[local] Hint Resolve extends_refl safe_refl : dag.
#[local] Hint Extern 1 (Forall quiet_event _) => (repeat constructor; done) : dag.
#[local] Hint Extern 2 (extends _ _) => (eapply extends_call; [eassumption|repeat constructor; done]) : dag.
#[local] Hint Extern 2 (extends _ _) => (eapply extends_Emit; eassumption) : dag.

Lemma import_blocks_extends big bs ends p s r s' : import_blocks big bs ends p s = (r, s') -> extends s s'.
Proof.
  revert p s. induction bs as [|b bs IH]; intros p s; cbn [import_blocks]; [destruct ends; intros [= <- <-]; auto with dag|].
  destruct (CheckBlockSize _ _); [intros [= <- <-]; auto with dag|]. destruct (DecodeNode b); [intros [= <- <-]; auto with dag|].
  destruct (call _ _ s) as [[e|] s1] eqn:E; [intros [= <- <-]; auto with dag|]. intros ?%IH. eapply extends_trans; [|eassumption]. auto with dag.
Qed.

Lemma import_files_extends big fs p s r s' : import_files big fs p s = (r, s') -> extends s s'.
Proof.
  revert p s. induction fs as [|[f|] fs IH]; intros p s; cbn [import_files]; [by intros [= <- <-]; auto with dag| |by intros [= <- <-]; auto with dag].
  destruct (car_open f); [by intros [= <- <-]; auto with dag|]. destruct (import_blocks _ _ _ _ _) as [[p'|e] s1] eqn:E; apply import_blocks_extends in E.
  - intros ?%IH. by eapply extends_trans.
  - by intros [= <- <-].
Qed.

Lemma importWorker_extends big fs it s r s' : importWorker big fs it s = (r, s') -> extends s s'.
Proof.
  unfold importWorker. destruct (import_files _ _ _ _) as [[p|e] s1] eqn:E; apply import_files_extends in E; [|by intros [= <- <-]].
  destruct it; [by intros [= <- <-]|]. destruct (call _ _ s1) as [[e|] s2] eqn:E'; intros [= <- <-]; (eapply extends_trans; [exact E|]); auto with dag.
Qed.

Lemma pin_root_extends c s r s' : pin_root c s = (r, s') -> extends s s'.
Proof.
  unfold pin_root. intros Hr. eapply extends_trans; [by apply (extends_log (TriedPin c))|]. revert Hr.
  destruct (Blockstore_Get _ _) as [b|e]; [|by intros [= <- <-]; auto with dag]. destruct (DecodeNode b); [by intros [= <- <-]; auto with dag|].
  destruct (call _ (Pin b) _) as [[e|] s1] eqn:E; [intros [= <- <-]; auto with dag|]. destruct (call _ Pinning_Flush _) as [[e|] s2] eqn:E'; intros [= <- <-];
    (eapply extends_trans; [|eapply extends_call; [exact E'|]]; auto with dag).
Qed.

Lemma pin_roots_extends alive cs n s r s' : pin_roots alive cs n s = (r, s') -> extends s s'.
Proof.
  revert n s. induction cs as [|c cs IH]; intros n s; cbn [pin_roots]; [by intros [= <- <-]; auto with dag|].
  destruct (pin_root c s) as [msg s1] eqn:E. apply pin_root_extends in E. destruct (Emit _ _ s1) as [[e|] s2] eqn:E'.
  - intros [= <- <-]. eapply extends_trans; [exact E|]. auto with dag.
  - intros Hr%IH. eapply extends_trans; [exact E|]. eapply extends_trans; [eapply extends_Emit; exact E'|exact Hr].
Qed.

(** *** What is stored *)

Lemma keeps_refl s : keeps s s.
Proof. intros c Hc. exact Hc. Qed.
Lemma keeps_trans s1 s2 s3 : keeps s1 s2 -> keeps s2 s3 -> keeps s1 s3.
Proof. intros Ha Hb c Hc. auto. Qed.

(** What was put out. *)
Definition emitted (t : list event) : list output := omap (fun e => match e with Emitted o => Some o | _ => None end) t.
Lemma emitted_app a b : emitted (a ++ b) = emitted a ++ emitted b.
Proof. unfold emitted. by rewrite omap_app. Qed.

Definition known (s : st) (c : cid) : Prop := Stored (world s) c \/ Buffered (world s) c.

Lemma wrapU_add a b : wrapU 64 (wrapU 64 a + b) = wrapU 64 (a + b).
Proof. unfold wrapU. apply Zplus_mod_idemp_l. Qed.

Lemma wrapU_wrapU a : wrapU 64 (wrapU 64 a) = wrapU 64 a.
Proof. unfold wrapU. apply Zmod_mod. Qed.

(** The total size of blocks. *)
Definition sizes (bs : list node) : Z := foldr (fun b n => n_size b + n) 0 bs.
Lemma sizes_app a b : sizes (a ++ b) = sizes a + sizes b.
Proof. unfold sizes. induction a as [|x a IH]; cbn in *; lia. Qed.

Definition ranged (p : progress) : Prop := u64 (blockCount p) = blockCount p /\ u64 (blockBytesCount p) = blockBytesCount p.

(** The blocks [bs] were imported, from [p] to [p']. *)
Record imported (bs : list node) (p p' : progress) (s s' : st) : Prop := {
  imp_keeps : keeps s s';
  imp_known : Forall (fun b => known s' (n_cid b)) bs;
  imp_count : u64 (blockCount p') = u64 (blockCount p + Z.of_nat (length bs));
  imp_bytes : u64 (blockBytesCount p') = u64 (blockBytesCount p + sizes bs);
  imp_ranged : ranged p -> ranged p';
  imp_silent : emitted (trace s') = emitted (trace s);
}.

Lemma imported_nil p s : imported [] p p s s.
Proof. split; [apply keeps_refl|constructor| | |done|done]; cbn; by rewrite Z.add_0_r. Qed.

Lemma imported_app bs1 bs2 p p1 p2 s s1 s2 : imported bs1 p p1 s s1 -> imported bs2 p1 p2 s1 s2 -> imported (bs1 ++ bs2) p p2 s s2.
Proof.
  intros [K1 F1 C1 Y1 R1 Q1] [K2 F2 C2 Y2 R2 Q2]. split.
  - by eapply keeps_trans.
  - apply Forall_app. split; [|done]. eapply Forall_impl; [exact F1|]. intros b. apply K2.
  - rewrite C2, <- wrapU_add, C1, wrapU_add, length_app. f_equal. lia.
  - rewrite Y2, <- wrapU_add, Y1, wrapU_add, sizes_app. f_equal. lia.
  - auto.
  - by rewrite Q2.
Qed.

Lemma import_blocks_known big bs ends p s p' s' : import_blocks big bs ends p s = (Ok p', s') -> imported bs p p' s s' /\ roots p' = roots p.
Proof.
  revert p s. induction bs as [|b bs IH]; intros p s; cbn [import_blocks].
  - destruct ends; [done|]. intros [= <- <-]. split; [apply imported_nil|done].
  - destruct (CheckBlockSize _ _); [done|]. destruct (DecodeNode b); [done|]. destruct (call _ _ s) as [[e|] s1] eqn:E; [done|]. intros Hr.
    assert (Ht : trace s1 = trace s ++ [Batched (n_cid b)]) by (unfold call in E; destruct (Batch_Add _ _); by simplify_eq).
    apply call_world in E. destruct (IH _ _ Hr) as [Hi Hro]. split; [|exact Hro]. apply (imported_app [b] bs _ _ _ _ _ _) with (2 := Hi). split.
    + intros c. by apply (Batch_Add_keeps _ _ _ _ _ E).
    + constructor; [by apply (Batch_Add_adds _ _ _ E)|done].
    + apply wrapU_wrapU.
    + cbn. rewrite Z.add_0_r. apply wrapU_wrapU.
    + intros _. split; apply wrapU_wrapU.
    + rewrite Ht, emitted_app. apply app_nil_r.
Qed.

(** The files that were imported, and what is known of them. *)
Definition cars (files : list (option car_file)) : list car_file := omap (fun f => f) files.
Definition all_blocks (files : list (option car_file)) : list node := mjoin (car_blocks <$> cars files).
Definition all_roots (files : list (option car_file)) : gset cid := list_to_set (mjoin (car_roots <$> cars files)).

Lemma import_files_known big fs p s p' s' : import_files big fs p s = (Ok p', s') ->
  imported (all_blocks fs) p p' s s' /\ Forall (fun f => f <> None) fs /\ roots p' = all_roots fs ∪ roots p.
Proof.
  revert p s. induction fs as [|[f|] fs IH]; intros p s; cbn [import_files]; [| |done].
  - intros [= <- <-]. split_and!; [apply imported_nil|constructor|]. unfold all_roots. cbn. set_solver.
  - destruct (car_open f); [done|]. destruct (import_blocks _ _ _ _ _) as [[p1|e] s1] eqn:E; [|done]. intros Hr.
    apply import_blocks_known in E as [Hi1 Hro1]. destruct (IH _ _ Hr) as (Hi2 & Hf & Hro). split_and!.
    + assert (Hi : imported (car_blocks f) p p1 s s1) by (destruct Hi1; by split). exact (imported_app _ _ _ _ _ _ _ _ Hi Hi2).
    + by constructor.
    + rewrite Hro, Hro1. cbn [roots]. unfold all_roots. change (cars (Some f :: fs)) with (f :: cars fs). rewrite fmap_cons. cbn [mjoin list_join].
      rewrite list_to_set_app_L. set_solver.
Qed.

Lemma importWorker_stores big fs it s p s' : importWorker big fs it s = (Ok p, s') ->
  Forall (fun b => Stored (world s') (n_cid b)) (all_blocks fs) /\ Forall (fun f => f <> None) fs /\ roots p = all_roots fs /\
  blockCount p = u64 (Z.of_nat (length (all_blocks fs))) /\ blockBytesCount p = u64 (sizes (all_blocks fs)) /\ emitted (trace s') = emitted (trace s).
Proof.
  unfold importWorker. destruct (import_files _ _ _ _) as [[p1|e] s1] eqn:E; [|done]. apply import_files_known in E as ([_ Hk Hc Hy Hg Hq] & Hf & Hr).
  destruct it; [done|]. destruct (call _ _ s1) as [[e|] s2] eqn:E'; intros [= <- <-].
  assert (Ht : trace s2 = trace s1 ++ [Committed]) by (unfold call in E'; destruct (Batch_Commit _); by simplify_eq).
  apply call_world in E'. destruct Hg as [Rc Ry]; [done|]. split_and!; [|done| |by rewrite <- Rc|by rewrite <- Ry|rewrite Ht, emitted_app, Hq; apply app_nil_r].
  - eapply Forall_impl; [exact Hk|]. intros b Hb. by apply (Batch_Commit_stores _ _ _ E').
  - rewrite Hr. cbn. set_solver.
Qed.

(** *** Pinning *)

Lemma pin_root_safe c s msg s' : pin_root c s = (msg, s') -> safe s s' /\ (msg = "" -> PinnedRec (world s') c).
Proof.
  unfold pin_root. cbn zeta. change (world (log (TriedPin c) s)) with (world s). destruct (Blockstore_Get c (world s)) as [b|e] eqn:Eg.
  2: { intros [= <- <-]. split; [done|]. intros ->. by destruct (Get_text _ _ _ Eg). }
  destruct (DecodeNode b) eqn:Ed. { intros [= <- <-]. split; [done|]. intros ->. by destruct (Decode_text _ _ Ed). }
  destruct (call [] (Pin b) _) as [rp s1] eqn:E1. apply call_world in E1. change (world (log (TriedPin c) s)) with (world s) in E1.
  assert (S1 : safe s s1) by (intros d; by apply (Pin_keeps _ _ _ _ d E1)). destruct rp as [e|].
  { intros [= <- <-]. split; [exact S1|]. intros ->. by destruct (Pin_text _ _ _ _ E1). }
  destruct (call [] Pinning_Flush _) as [rf s2] eqn:E2. apply call_world in E2.
  assert (S2 : safe s1 s2) by (intros d; by apply (Flush_keeps _ _ _ d E2)). destruct rf as [e|]; intros [= <- <-]; (split; [by eapply safe_trans|]).
  - intros ->. by destruct (Flush_text _ _ _ E2).
  - intros _. apply S2. rewrite <- (Get_cid _ _ _ Eg). by apply (Pin_pins _ _ _ E1).
Qed.

(** Each root is tried once, in order, and answered once; the failures are counted. *)
Definition failures (outs : list output) : Z := foldr (fun o n => (match o with OutRoot _ msg => if String.eqb msg "" then 0 else 1 | _ => 0 end) + n) 0 outs.

Lemma failures_cons c cs m msgs : failures (zip_with OutRoot (c :: cs) (m :: msgs)) = (if String.eqb m "" then 0 else 1) + failures (zip_with OutRoot cs msgs).
Proof. done. Qed.

Lemma pin_root_quiet c s msg s' : pin_root c s = (msg, s') -> emitted (trace s') = emitted (trace s).
Proof.
  unfold pin_root, call. cbn zeta. intros Hr. repeat first [case_match | progress simplify_eq/=]; rewrite ?app_nil_r, ?emitted_app; cbn; by rewrite ?app_nil_r.
Qed.

Lemma pin_roots_spec alive cs n s k s' : pin_roots alive cs n s = (Ok k, s') -> exists msgs,
  length msgs = length cs /\ emitted (trace s') = emitted (trace s) ++ zip_with OutRoot cs msgs /\
  k = n + failures (zip_with OutRoot cs msgs) /\ safe s s' /\ Forall2 (fun c msg => msg = "" -> PinnedRec (world s') c) cs msgs.
Proof.
  revert n s. induction cs as [|c cs IH]; intros n s; cbn [pin_roots].
  - intros [= <- <-]. exists []. cbn. rewrite app_nil_r. split_and!; [done|done|lia|apply safe_refl|constructor].
  - destruct (pin_root c s) as [msg s1] eqn:E1. destruct (Emit _ _ s1) as [[e|] s2] eqn:E2; [done|]. intros Hr.
    pose proof (pin_root_quiet _ _ _ _ E1) as Hq. apply pin_root_safe in E1 as [S1 P1]. pose proof (Emit_world _ _ _ _ _ E2) as Hw.
    assert (Ht : trace s2 = trace s1 ++ [Emitted (OutRoot c msg)]) by (unfold Emit in E2; destruct (alive _); by simplify_eq).
    destruct (IH _ _ Hr) as (msgs & Hl & He & Hk & S2 & F). exists (msg :: msgs). split_and!.
    + cbn. by rewrite Hl.
    + rewrite He, Ht, emitted_app, Hq. cbn. by rewrite <- app_assoc.
    + rewrite Hk, failures_cons. lia.
    + intros d. specialize (S2 d). rewrite Hw in S2. destruct (S1 d), S2. split; auto.
    + constructor; [|done]. intros Hm. apply S2. rewrite Hw. by apply P1.
Qed.

Lemma pin_roots_alive alive cs n s e s' : (forall o, alive o = None) -> pin_roots alive cs n s <> (Err e, s').
Proof.
  intros Ha. revert n s. induction cs as [|c cs IH]; intros n s; cbn [pin_roots]; [done|]. destruct (pin_root c s) as [msg s1]. unfold Emit. rewrite Ha. apply IH.
Qed.

Lemma put_files_spec alive big fs s s' : put_files alive big fs s = (None, s') -> exists nds,
  fs = (fun nd => Some (Ok nd)) <$> nds /\ emitted (trace s') = emitted (trace s) ++ (OutCid <$> (n_cid <$> nds)) /\
  Forall (fun nd => known s' (n_cid nd)) nds /\ keeps s s'.
Proof.
  revert s. induction fs as [|[[nd|e]|] fs IH]; intros s; cbn [put_files]; [|  |done|done].
  - intros [= <-]. exists []. cbn. rewrite app_nil_r. split_and!; [done|done|constructor|apply keeps_refl].
  - destruct (CheckBlockSize _ _); [done|]. destruct (call _ _ s) as [[e|] s1] eqn:E1; [done|]. destruct (Emit _ _ s1) as [[e|] s2] eqn:E2; [done|]. intros Hr.
    destruct (IH _ Hr) as (nds & -> & He & Hk & K2). exists (nd :: nds).
    assert (Ht : trace s2 = trace s ++ [Batched (n_cid nd); Emitted (OutCid (n_cid nd))]).
    { unfold Emit in E2. destruct (alive _); simplify_eq. unfold call in E1. destruct (Batch_Add _ _). simplify_eq/=. by rewrite <- app_assoc. }
    apply Emit_world in E2. apply call_world in E1. assert (K1 : keeps s s2) by (intros c; rewrite E2; by apply (Batch_Add_keeps _ _ _ _ _ E1)). split_and!.
    + done.
    + rewrite He, Ht, emitted_app. cbn. by rewrite <- app_assoc.
    + constructor; [|done]. apply K2. unfold known. rewrite E2. by apply (Batch_Add_adds _ _ _ E1).
    + by eapply keeps_trans.
Qed.

Lemma failures_nonneg l : 0 <= failures l.
Proof. unfold failures. induction l as [|[] l IH]; cbn; try case_match; lia. Qed.

Lemma failures_none cs msgs : length msgs = length cs -> failures (zip_with OutRoot cs msgs) = 0 -> Forall (fun m => m = "") msgs.
Proof.
  revert msgs. induction cs as [|c cs IH]; intros [|m msgs] Hl Hz; try done. rewrite failures_cons in Hz. injection Hl as Hl.
  pose proof (failures_nonneg (zip_with OutRoot cs msgs)) as Hn. destruct (String.eqb_spec m ""); [|lia]. constructor; [done|]. apply IH; [done|lia].
Qed.

(** ** Theorems *)

Section Theorems.
Context (order : gset cid -> list cid) (order_ok : forall X, order X ≡ₚ elements X).
Context (alive : output -> option error).

(** A successful import has stored every block of every file and, when roots are
    pinned, pinned every root that a header names; each root is answered once without an
    error, and the statistics are the number and the size of the blocks, in 64 bits. *)
Theorem import_stores_all big doPin stats fs it w s' : dagImport order alive big doPin stats fs it (MkSt w []) = (None, s') ->
  Forall (fun b => Stored (world s') (n_cid b)) (all_blocks fs) /\
  (doPin = true -> set_Forall (PinnedRec (world s')) (all_roots fs)) /\
  emitted (trace s') = (if doPin then (fun c => OutRoot c "") <$> order (all_roots fs) else [])
    ++ (if stats then [OutStats (u64 (Z.of_nat (length (all_blocks fs)))) (u64 (sizes (all_blocks fs)))] else []).
Proof.
  unfold dagImport. intros (s1 & E & ->)%locked_inv. cbv beta in E. cbn [world log trace]. rewrite emitted_app. cbn [emitted omap list_omap]. rewrite app_nil_r.
  destruct (importWorker big fs it _) as [[p|e] s2] eqn:E1; [|done]. apply importWorker_stores in E1 as (Hs & _ & Hr & Hc & Hy & Hq). rewrite Hr in E.
  destruct (if doPin then _ else _) as [[k|e] s3] eqn:E2; [|done]. destruct (0 <? k) eqn:Hk; [done|].
  assert (Hpins : safe s2 s3 /\ (doPin = true -> set_Forall (PinnedRec (world s3)) (all_roots fs)) /\
    emitted (trace s3) = emitted (trace s2) ++ (if doPin then (fun c => OutRoot c "") <$> order (all_roots fs) else [])).
  { destruct doPin; [|injection E2 as <- <-; split_and!; [apply safe_refl|done|by rewrite app_nil_r]].
    apply pin_roots_spec in E2 as (msgs & Hl & He & -> & S & F). pose proof (failures_none (order (all_roots fs)) msgs Hl) as Hn.
    assert (Hm : Forall (fun m => m = "") msgs) by (apply Hn; pose proof (failures_nonneg (zip_with OutRoot (order (all_roots fs)) msgs)); lia).
    split_and!; [done| |].
    - intros _ c Hin. assert (Hc' : c ∈ order (all_roots fs)) by (rewrite order_ok; by apply elem_of_elements).
      apply list_elem_of_lookup in Hc' as [i Hi]. destruct (Forall2_lookup_l _ _ _ _ _ F Hi) as (m & Hmi & Hp). apply Hp. by apply (Forall_lookup_1 _ _ _ _ Hm Hmi).
    - rewrite He. f_equal. clear - Hl Hm. revert msgs Hl Hm. induction (order (all_roots fs)) as [|c l IH]; intros [|m msgs] Hl Hm; try done.
      apply Forall_cons in Hm as [-> Hm]. cbn. f_equal. apply IH; [by injection Hl|done]. }
  destruct Hpins as (S & Hp & He). assert (Hw : world s1 = world s3 /\ emitted (trace s1) = emitted (trace s3) ++ if stats then [OutStats (blockCount p) (blockBytesCount p)] else []).
  { destruct stats; [|injection E as <-; by rewrite app_nil_r]. split; [by eapply Emit_world|]. unfold Emit in E. destruct (alive _); [done|]. injection E as <-. cbn. by rewrite emitted_app. }
  destruct Hw as [Hw Ht]. rewrite Hw. split_and!; [|done|].
  - eapply Forall_impl; [exact Hs|]. intros b. apply S.
  - by rewrite Ht, He, Hq, Hc, Hy.
Qed.

(** Whatever happens, an import takes the pin lock first, does everything under it
    and lets it go last, once. *)
Theorem import_under_lock big doPin stats fs it s r s' : dagImport order alive big doPin stats fs it s = (r, s') ->
  exists es, trace s' = trace s ++ PinLock :: es ++ [Unlock] /\ Forall quiet_event es.
Proof.
  unfold dagImport. intros (s1 & E & ->)%locked_inv. cbv beta in E. enough (He : extends (log PinLock s) s1).
  { destruct He as (es & Ht & F). exists es. split; [|done]. cbn [trace log]. rewrite Ht. cbn [trace log]. by rewrite <- !app_assoc. }
  destruct (importWorker big fs it (log PinLock s)) as [[p|e] s2] eqn:E1; apply importWorker_extends in E1; [|by injection E as <- <-].
  destruct (if doPin then _ else _) as [[k|e] s3] eqn:E2; (assert (X2 : extends s2 s3) by (destruct doPin; [by eapply pin_roots_extends|simplify_eq; apply extends_refl]));
    (eapply extends_trans; [exact E1|]; eapply extends_trans; [exact X2|]); [|injection E as <- <-; apply extends_refl].
  destruct (0 <? k); [injection E as <- <-; apply extends_refl|]. destruct stats; [by eapply extends_Emit|injection E as <- <-; apply extends_refl].
Qed.

(** When everything could be read but some roots could not be pinned, every root has
    been tried and answered, those answered without an error are pinned, all blocks are
    stored, and the error of the command has the number of failures. *)
Theorem import_answers_every_root big stats fs it w p s1 s' r :
  importWorker big fs it (log PinLock (MkSt w [])) = (Ok p, s1) -> (forall o, alive o = None) ->
  dagImport order alive big true stats fs it (MkSt w []) = (r, s') ->
  exists msgs, length msgs = length (order (all_roots fs)) /\
    take (length msgs) (emitted (trace s')) = zip_with OutRoot (order (all_roots fs)) msgs /\
    Forall2 (fun c msg => msg = "" -> PinnedRec (world s') c) (order (all_roots fs)) msgs /\
    Forall (fun b => Stored (world s') (n_cid b)) (all_blocks fs) /\
    (r = None \/ exists k, 0 < k /\ k = failures (zip_with OutRoot (order (all_roots fs)) msgs) /\ r = Some (failed_text k (Z.of_nat (length (order (all_roots fs)))))).
Proof.
  intros Ew Ha. unfold dagImport. intros (s4 & E & ->)%locked_inv. cbv beta in E. rewrite Ew in E. apply importWorker_stores in Ew as (Hs & _ & Hr & _ & _ & Hq). rewrite Hr in E.
  destruct (pin_roots alive _ 0 s1) as [[k|e] s3] eqn:E2; [|by apply pin_roots_alive in E2].
  apply pin_roots_spec in E2 as (msgs & Hl & He & -> & S & F). rewrite Z.add_0_l in E. exists msgs. split; [done|].
  assert (Hw : world s4 = world s3 /\ exists l, emitted (trace s4) = emitted (trace s3) ++ l).
  { destruct (0 <? _); [injection E as <- <-; split; [done|]; exists []; by rewrite app_nil_r|].
    destruct stats; [|injection E as <- <-; split; [done|]; exists []; by rewrite app_nil_r].
    split; [by eapply Emit_world|]. unfold Emit in E. rewrite Ha in E. injection E as <- <-. cbn. rewrite emitted_app. by eexists. }
  destruct Hw as (Hw & l & Hl'). cbn [world log trace]. rewrite Hw. split_and!; [|done| |].
  - rewrite emitted_app, Hl', He, Hq. cbn. rewrite app_nil_r. rewrite take_app_le by (rewrite length_zip_with; lia). apply take_ge. rewrite length_zip_with. lia.
  - eapply Forall_impl; [exact Hs|]. intros b. apply S.
  - destruct (0 <? failures _) eqn:Hk; [|destruct stats; [unfold Emit in E; rewrite Ha in E|]; injection E as <- <-; by left].
    injection E as <- <-. right. eexists. split_and!; [|reflexivity|done]. lia.
Qed.

(** [dag put] stores what it names: after a success every CID put out is stored, in
    the order of the files. *)
Theorem put_stores_all big fs it w s' : dagPut None alive big fs it (MkSt w []) = (None, s') ->
  exists nds, fs = (fun nd => Some (Ok nd)) <$> nds /\ emitted (trace s') = OutCid <$> (n_cid <$> nds) /\
    Forall (fun nd => Stored (world s') (n_cid nd)) nds.
Proof.
  unfold dagPut. destruct (put_files _ _ _ _) as [[e|] s1] eqn:E; [done|]. destruct it; [done|]. intros Hc.
  apply put_files_spec in E as (nds & -> & He & Hk & _). exists nds. split; [done|].
  assert (Ht : trace s' = trace s1 ++ [Committed]) by (unfold call in Hc; destruct (Batch_Commit _); by simplify_eq). apply call_world in Hc. split.
  - rewrite Ht, emitted_app, He. cbn. by rewrite app_nil_r.
  - eapply Forall_impl; [exact Hk|]. intros nd. by apply (Batch_Commit_stores _ _ _ Hc).
Qed.
End Theorems.
End Importing.

(** [dag put] names what it has not stored: when the commit of the batch fails, the
    command fails after the CIDs of all files were put out. *)
Theorem put_names_before_commit `{DagNode} alive big fs (nds : list node) w s1 e w' :
  fs = (fun nd => Some (Ok nd)) <$> nds -> put_files alive big fs (MkSt w []) = (None, s1) -> Batch_Commit (world s1) = (Some e, w') ->
  exists s', dagPut None alive big fs None (MkSt w []) = (Some e, s') /\ emitted (trace s') = OutCid <$> (n_cid <$> nds).
Proof.
  intros Hfs E Hc. unfold dagPut. rewrite E. unfold call. rewrite Hc. eexists. split; [reflexivity|]. apply put_files_spec in E as (nds' & Hn & He & _).
  rewrite Hfs in Hn. apply list_fmap_eq_inj in Hn; [|by intros ?? [= ->]]. subst nds'. cbn. rewrite emitted_app, He. cbn. by rewrite app_nil_r.
Qed.

(** *** Statistics *)

Definition total_size (l : list Z) : Z := foldr Z.add 0 l.

Lemma stat_walk_spec progressive alive szs ends d seen r d' seen' : stat_walk progressive alive szs ends d seen = (r, d', seen') -> r = None -> u64 (Size d) = Size d ->
  ends = None /\ d' = MkDagStat (u64 (Size d + total_size szs)) (NumBlocks d + Z.of_nat (length szs)) /\
  (if progressive then seen' = seen ++ ((fun k => MkDagStat (u64 (Size d + total_size (take (S k) szs))) (NumBlocks d + Z.of_nat (S k))) <$> seq 0 (length szs)) else seen' = seen).
Proof.
  revert d seen. induction szs as [|n szs IH]; intros d seen; cbn [stat_walk].
  - intros [= -> <- <-] Hr Hd. split; [done|]. cbn. rewrite !Z.add_0_r, Hd. split; [by destruct d|]. destruct progressive; [by rewrite app_nil_r|done].
  - set (d1 := count_block n d). intros Hw Hr Hd. assert (Hd1 : u64 (Size d1) = Size d1) by apply wrapU_wrapU.
    assert (Hsum : forall x, u64 (Size d1 + x) = u64 (Size d + (n + x))) by (intros x; unfold d1; cbn; rewrite wrapU_add; f_equal; lia).
    assert (Hgo : stat_walk progressive alive szs ends d1 (if progressive then seen ++ [d1] else seen) = (r, d', seen')).
    { destruct progressive; [|done]. destruct (alive d1); [by simplify_eq|done]. }
    destruct (IH _ _ Hgo Hr Hd1) as (He & -> & Hs). split; [done|]. split; [rewrite Hsum; f_equal; cbn; lia|]. destruct progressive; [|done].
    rewrite Hs, <- app_assoc. f_equal. cbn [length seq fmap list_fmap app]. f_equal; [unfold d1, count_block; cbn; by rewrite Z.add_0_r|].
    rewrite <- fmap_S_seq, <- list_fmap_compose. apply list_fmap_ext. intros i k Hk. cbn. rewrite Hsum. f_equal. lia.
Qed.

(** The statistics of a DAG are the number of its blocks and the sum of their sizes
    in 64 bits; with progress the command puts out the running totals, one for each
    block, and otherwise the total alone. *)
Theorem dag_stat_exact progressive alive c got Traverse szs outs : Traverse c = (szs, None) -> dagStat progressive alive (Ok (c, "")) got Traverse = (None, outs) ->
  outs = (fun k => MkDagStat (u64 (total_size (take k szs))) (Z.of_nat k)) <$> (if progressive then seq 1 (length szs) else [length szs]).
Proof.
  intros HT. unfold dagStat. cbn [String.eqb negb]. destruct (got c); [done|]. rewrite HT. destruct (stat_walk _ _ _ _ _ _) as [[[e|] d] seen] eqn:E; [done|].
  apply stat_walk_spec in E as (_ & -> & Hs); [|done|done]. destruct progressive.
  - intros [= <-]. rewrite Hs. cbn [app Size NumBlocks]. rewrite <- fmap_S_seq, <- list_fmap_compose. apply list_fmap_ext. intros i k Hk. done.
  - destruct (alive _); [done|]. intros [= <-]. rewrite Hs. cbn [app Size NumBlocks fmap list_fmap]. by rewrite take_ge by lia.
Qed.

(** ** Witnesses *)

Module DemoDag.

(** Stored blocks, buffered ones and pins; ["big"] cannot be pinned, and nothing is
    committed once ["poison"] is in the batch. *)
Record world := MkWorld { stored : list cid; buffer : list cid; pins : list cid }.

Definition demo : DagNode.
Proof.
  refine {|
    W := world; Stored := fun w c => c ∈ stored w; Buffered := fun w c => c ∈ buffer w; PinnedRec := fun w c => c ∈ pins w;
    Batch_Add := fun nd w => (None, MkWorld (stored w) (n_cid nd :: buffer w) (pins w));
    Batch_Commit := fun w => if decide ("poison" ∈ buffer w) then (Some "no space", w) else (None, MkWorld (buffer w ++ stored w) [] (pins w));
    Blockstore_Get := fun c w => if decide (c ∈ stored w) then Ok (MkNode c 1) else Err "not found";
    DecodeNode := fun _ => None;
    Pin := fun nd w => if decide (n_cid nd = "big") then (Some "no pin", w) else (None, MkWorld (stored w) (buffer w) (n_cid nd :: pins w));
    Pinning_Flush := fun w => (None, w);
  |}.
  - intros nd w r w' c [= <- <-] [Hc|Hc]; cbn; [by left|right; by right].
  - intros nd w w' [= <-]. right. cbn. by left.
  - intros w w' c. case_decide; [done|]. intros [= <-] [Hc|Hc]; cbn; apply elem_of_app; [by right|by left].
  - intros nd w r w' c. case_decide; intros [= <- <-]; [done|]. cbn. split; [done|]. by right.
  - intros nd w w'. case_decide; [done|]. intros [= <-]. by left.
  - by intros w r w' c [= <- <-].
  - intros c w nd. by case_decide; intros [= <-].
  - intros c w e. by case_decide; intros [= <-].
  - done.
  - intros nd w e w'. by case_decide; intros [= <- <-].
  - done.
Defined.
#[local] Existing Instance demo.

Definition order : gset cid -> list cid := elements.
Definition anyone (o : output) : option error := None.
Definition empty : @W demo := MkWorld [] [] [].
(** Two roots, one of which the file does not have. *)
Definition files : list (option car_file) := [Some (MkCar None ["a"; "z"] [MkNode "a" 3; MkNode "b" 4] None)].
Definition whole : list (option car_file) := [Some (MkCar None ["a"] [MkNode "a" 3; MkNode "b" 4] None)].

Lemma import_stores_all_witness :
  let s' := (dagImport order anyone false true true whole None (MkSt empty [])).2 in
  Forall (fun b => Stored (DagCmds.world s') (n_cid b)) [MkNode "a" 3; MkNode "b" 4] /\ set_Forall (PinnedRec (DagCmds.world s')) (all_roots whole) /\
  emitted (trace s') = ((fun c => OutRoot c "") <$> order (all_roots whole)) ++ [OutStats 2 7].
Proof.
  destruct (import_stores_all order (fun X => reflexivity _) anyone false true true whole None empty
    (dagImport order anyone false true true whole None (MkSt empty [])).2) as (Hs & Hp & He); [vm_compute; reflexivity|].
  split; [exact Hs|]. split; [exact (Hp eq_refl)|exact He].
Defined.

Lemma import_under_lock_witness : exists es,
  trace (dagImport order anyone false true true files (Some "read error") (MkSt empty [])).2 = [] ++ PinLock :: es ++ [Unlock] /\ Forall quiet_event es.
Proof. exact (import_under_lock order anyone false true true files (Some "read error") (MkSt empty []) _ _ (surjective_pairing _)). Defined.

Lemma import_answers_every_root_witness : exists msgs k,
  (dagImport order anyone false true false files None (MkSt empty [])).1 = Some (failed_text k 2) /\
  k = failures (zip_with OutRoot (order (all_roots files)) msgs).
Proof.
  destruct (importWorker false files None (log PinLock (MkSt empty []))) as [[p|e] s1] eqn:E; [|vm_compute in E; discriminate].
  destruct (import_answers_every_root order anyone false false files None empty p s1
    (dagImport order anyone false true false files None (MkSt empty [])).2 (dagImport order anyone false true false files None (MkSt empty [])).1 E
    (fun _ => eq_refl) (surjective_pairing _)) as (msgs & _ & _ & _ & _ & [Hr|(k & _ & Hk & Hr)]); [vm_compute in Hr; discriminate|].
  exists msgs, k. split; [exact Hr|exact Hk].
Defined.

Definition two : list node := [MkNode "x" 3; MkNode "y" 4].

Lemma put_stores_all_witness :
  let s' := (dagPut None anyone false ((fun nd => Some (Ok nd)) <$> two) None (MkSt empty [])).2 in
  exists nds, Forall (fun nd => Stored (DagCmds.world s') (n_cid nd)) nds /\ emitted (trace s') = OutCid <$> (n_cid <$> nds).
Proof.
  destruct (put_stores_all anyone false ((fun nd => Some (Ok nd)) <$> two) None empty
    (dagPut None anyone false ((fun nd => Some (Ok nd)) <$> two) None (MkSt empty [])).2) as (nds & _ & He & Hs); [vm_compute; reflexivity|].
  exists nds. split; [exact Hs|exact He].
Defined.

Lemma put_names_before_commit_witness :
  exists s', dagPut None anyone false [Some (Ok (MkNode "poison" 3))] None (MkSt empty []) = (Some "no space", s') /\ emitted (trace s') = [OutCid "poison"].
Proof. exact (put_names_before_commit anyone false [Some (Ok (MkNode "poison" 3))] [MkNode "poison" 3] empty _ "no space" _ eq_refl eq_refl eq_refl). Defined.

Lemma dag_stat_exact_witness :
  (dagStat true (fun _ => None) (Ok ("c", "")) (fun _ => None) (fun _ => ([5; 7], None))).2 = [MkDagStat 5 1; MkDagStat 12 2].
Proof. exact (dag_stat_exact true (fun _ => None) "c" (fun _ => None) (fun _ => ([5; 7], None)) [5; 7] _ eq_refl eq_refl). Defined.
End DemoDag.
