(* ===== verification/RepoCmd.v ===== *)
(** The commands [ipfs repo]: [core/commands/repo.go] with the statistics of
    [core/corerepo/stat.go].

    [gc] is over the collector of [RepoGC.v]; [migrate] over the repository of
    [FsRepo.v] and the migrations of [Migrations.v]; [verify] is a step relation on
    its workers, which take keys from one channel and send results on another, and a
    function for the loop that receives them. *)
From Stdlib Require Import ZArith Lia Ascii String.
From stdpp Require Import base strings gmap list list_numbers relations.
From S2P Require GC RepoGC.
From S2P Require Import Prelude GoStrings GoPath ConfigTypes Datastores FsRepo Fetchers Migrations.

Local Open Scope Z_scope.

(** ** [ipfs repo verify] *)

(** What the store answers when it checks the hash: an error, or nothing. *)
Section Verify.
Context (Get : string -> option error).

Definition verify_msg (k : string) : string :=
  match Get k with Some err => "block " +:+ k +:+ " was corrupt (" +:+ err +:+ ")" | None => "" end.

(** A goroutine of [verifyWorkerRun]: before a receive, before a send, or gone. *)
Inductive worker := Receiving | Replying (msg : string) | Gone.
#[global] Instance worker_eq_dec : EqDecision worker.
Proof. solve_decision. Defined.

Record verify_state := MkVerify {
  vkeys : list string; workers : list worker; results : list string; vclosed : bool; cancelled : bool;
}.

(** [verifyResultChan], with [n] workers. *)
Definition verifyResultChan (n : nat) (keys : list string) : verify_state := MkVerify keys (replicate n Receiving) [] false false.

Inductive verify_step : verify_state -> verify_state -> Prop :=
| verify_take l r k ks out x : verify_step (MkVerify (k :: ks) (l ++ Receiving :: r) out false x) (MkVerify ks (l ++ Replying (verify_msg k) :: r) out false x)
| verify_exhausted l r out x : verify_step (MkVerify [] (l ++ Receiving :: r) out false x) (MkVerify [] (l ++ Gone :: r) out false x)
| verify_send l r m ks out x : verify_step (MkVerify ks (l ++ Replying m :: r) out false x) (MkVerify ks (l ++ Receiving :: r) (out ++ [m]) false x)
| verify_abandon l r m ks out : verify_step (MkVerify ks (l ++ Replying m :: r) out false true) (MkVerify ks (l ++ Gone :: r) out false true)
| verify_wait n ks out x : verify_step (MkVerify ks (replicate n Gone) out false x) (MkVerify ks (replicate n Gone) out true x)
| verify_cancel ks ws out b : verify_step (MkVerify ks ws out b false) (MkVerify ks ws out b true)
| verify_cut k ks ws out b : verify_step (MkVerify (k :: ks) ws out b true) (MkVerify [] ws out b true).
End Verify.

(** What the command puts out: a message or a count. *)
Inductive verify_output := Msg (m : string) | Progress (n : Z).

(** The loop over the results, from the [i]-th on. *)
Fixpoint verify_loop (alive : verify_output -> option error) (msgs : list string) (fails i : Z) (out : list verify_output) : result Z * list verify_output :=
  match msgs with
  | [] => (Ok fails, out)
  | msg :: msgs =>
      let report := if String.eqb msg "" then Ok (fails, out) else match alive (Msg msg) with Some e => Err e | None => Ok (fails + 1, out ++ [Msg msg]) end in
      match report with
      | Err e => (Err e, out)
      | Ok (fails, out) =>
          match alive (Progress (i + 1)) with
          | Some e => (Err e, out)
          | None => verify_loop alive msgs fails (i + 1) (out ++ [Progress (i + 1)])
          end
      end
  end.

Definition verified : verify_output := Msg "verify complete, all blocks validated.".

(** [msgs] is what the channel of results delivered before it was closed. *)
Definition repo_verify (alive : verify_output -> option error) (AllKeysChan : option error) (msgs : list string) (ctx_Err : option error) : option error * list verify_output :=
  match AllKeysChan with
  | Some e => (Some e, [])
  | None =>
      match verify_loop alive msgs 0 0 [] with
      | (Err e, out) => (Some e, out)
      | (Ok fails, out) =>
          match ctx_Err with
          | Some e => (Some e, out)
          | None =>
              if negb (fails =? 0) then (Some "verify complete, some blocks were corrupt", out)
              else match alive verified with Some e => (Some e, out) | None => (None, out ++ [verified]) end
          end
      end
  end.

(** ** [ipfs repo gc] *)

Section Collect.
Context `{GC.DagWalk, GC.GCBlockstore, RepoGC.RepoEnv} (show : GC.cid -> string).

Inductive gc_output := GcKey (k : GC.cid) | GcError (text : string).

(** The loop with [--stream-errors]. *)
Fixpoint gc_stream (alive : gc_output -> option error) (gcOut : list GC.Result) (errs : bool) (out : list gc_output) : option error * list gc_output :=
  match gcOut with
  | [] => (if errs then Some "encountered errors during gc run" else None, out)
  | res :: gcOut =>
      let o := match res with GC.ResError e => GcError (GC.gc_error_Error show e) | GC.KeyRemoved k => GcKey k end in
      match alive o with
      | Some e => (Some e, out)
      | None => gc_stream alive gcOut (errs || GC.is_error res) (out ++ [o])
      end
  end.

(** [None] is a command that never returns; [ts], [ts'] are the cancellation of the
    request as the collector and [CollectResult] see it. *)
Definition repo_gc (env : GC.GCEnv) (ts ts' : list bool) (alive : gc_output -> option error) (silent streamErrors : bool) (n : RepoGC.node)
    : option (outcome (option error) * list gc_output) :=
  match RepoGC.GarbageCollectAsync env ts n with
  | RepoGC.BlocksForever => None
  | RepoGC.Returns gcOutChan _ =>
      if streamErrors then let '(r, out) := gc_stream alive gcOutChan false [] in Some (Ret r, out)
      else
        let '(r, removed) := RepoGC.CollectResult ts' gcOutChan in
        Some (match r with Ret r => Ret (RepoGC.rerror_Error show <$> r) | Panic s => Panic s end,
              if silent then [] else filter (fun o => alive o = None) (GcKey <$> removed))
  end.
End Collect.

(** ** Statistics *)

Record SizeStat := MkSizeStat { RepoSize : Z; StorageMax : Z }.
Record Stat := MkStat { size_stat : SizeStat; NumObjects : Z; RepoPath : string; Version : string }.

Definition NoLimit : Z := 2 ^ 64 - 1.

(** [max] is the setting [Datastore.StorageMax]. *)
Definition RepoSizeOf (cfg : result string) (usage : result Z) (ParseBytes : string -> result Z) : result SizeStat :=
  match cfg with
  | Err e => Err e
  | Ok max =>
      match usage with
      | Err e => Err e
      | Ok usage =>
          if String.eqb max "" then Ok (MkSizeStat usage NoLimit)
          else match ParseBytes max with Err e => Err e | Ok m => Ok (MkSizeStat usage m) end
      end
  end.

Definition RepoStat (cfg : result string) (usage : result Z) (ParseBytes : string -> result Z) (AllKeysChan : result (list string)) (BestKnownPath : result string) : result Stat :=
  match RepoSizeOf cfg usage ParseBytes with
  | Err e => Err e
  | Ok sizeStat =>
      match AllKeysChan with
      | Err e => Err e
      | Ok allKeys =>
          match BestKnownPath with
          | Err e => Err e
          | Ok path => Ok (MkStat sizeStat (u64 (Z.of_nat (length allKeys))) path ("fs-repo@" +:+ FormatInt RepoVersionNumber))
          end
      end
  end.

(** ** [ipfs repo migrate] *)

Section Migrate.
Context `{RepoEnv', DatastoreEnv, FetchEnv, MigEnv}.
Local Open Scope io_scope.

Definition CurrentIpfsDist : string := "/ipfs/QmdaCHYBDHEhXCMoynH5UcohEay6m1XayZCcxWZzKAHNVN".

Definition repo_migrate (newIpfsFetcher : string -> Fetcher) (ConfigRoot configFileOpt : string) (allowDowngrade : bool) : mio string :=
  do r <- try (lift (open ConfigRoot ""));
  match r with
  | Ok _ => ret "Repo does not require migration."
  | Err err =>
      if decide (err = ErrNeedMigration) then
        do migrationCfg <- lift (ReadMigrationConfig ConfigRoot configFileOpt);
        do fetcher <- of_result (GetMigrationFetcher (DownloadSources migrationCfg) (GetDistPathEnv CurrentIpfsDist) (Some newIpfsFetcher));
        deferred (Fetcher_Close fetcher)
          (RunMigration fetcher RepoVersionNumber "" allowDowngrade ;;
           ret ("Success: fs-repo has been migrated to version " +:+ FormatInt RepoVersionNumber +:+ "."))
      else throw err
  end.
End Migrate.

(** ** Lemmas *)

Section VerifyLemmas.
Context (Get : string -> option error).
Abbreviation verify_step := (verify_step Get).
Abbreviation verify_msg := (verify_msg Get).

Definition in_hand (w : worker) : list string := match w with Replying m => [m] | _ => [] end.
Definition hand (ws : list worker) : list string := mjoin (in_hand <$> ws).
Definition effort (w : worker) : nat := match w with Receiving => 1 | Replying _ => 3 | Gone => 0 end.

Lemma hand_mid l w r : hand (l ++ w :: r) ≡ₚ in_hand w ++ hand (l ++ r).
Proof. unfold hand. rewrite !fmap_app, fmap_cons, !join_app. cbn. solve_Permutation. Qed.

Lemma hand_gone l : Forall (fun w => w = Gone) l -> hand l = [].
Proof. unfold hand. by induction 1 as [|w ws -> _ IH]. Qed.

Lemma effort_mid l w r : sum_list_with effort (l ++ w :: r) = (effort w + sum_list_with effort (l ++ r))%nat.
Proof. rewrite !sum_list_with_app. cbn. lia. Qed.

(** Every key is waiting, in a worker's hand, answered, or lost to a cancellation. *)
Record verify_inv (keys : list string) (s : verify_state) : Prop := {
  vi_all : exists lost, results s ++ hand (workers s) ++ (verify_msg <$> vkeys s) ++ lost ≡ₚ verify_msg <$> keys /\ (cancelled s = false -> lost = []);
  vi_gone : cancelled s = false -> Gone ∈ workers s -> vkeys s = [];
  vi_closed : vclosed s = true -> Forall (fun w => w = Gone) (workers s);
  vi_some : workers s <> [];
}.

Lemma gone_mid (l r : list worker) w w' : w' <> Gone -> Gone ∈ l ++ w' :: r -> Gone ∈ l ++ w :: r.
Proof. intros Hw. rewrite !elem_of_app, !elem_of_cons. naive_solver. Qed.

Lemma verify_inv_step keys s s' : verify_inv keys s -> verify_step s s' -> verify_inv keys s'.
Proof.
  intros [(lost & Ha & Hl) Hg Hc Hs] Hst. destruct Hst as [l r k ks out x|l r out x|l r m ks out x|l r m ks out|n ks out x|ks ws out b|k ks ws out b]; cbn [vkeys workers results vclosed cancelled] in *;
    (split; cbn [vkeys workers results vclosed cancelled]; [| | |try done; by destruct l]).
  - exists lost. split; [|done]. rewrite <- Ha, !hand_mid. cbn. solve_Permutation.
  - intros Hx Hin. apply (gone_mid _ _ Receiving) in Hin; [|done]. by specialize (Hg Hx Hin).
  - done.
  - exists lost. split; [|done]. by rewrite <- Ha, !hand_mid.
  - done.
  - done.
  - exists lost. split; [|done]. rewrite <- Ha, !hand_mid. cbn. solve_Permutation.
  - intros Hx Hin. apply (gone_mid _ _ (Replying m)) in Hin; [|done]. by apply Hg.
  - done.
  - exists (m :: lost). split; [|done]. rewrite <- Ha, !hand_mid. cbn. solve_Permutation.
  - done.
  - done.
  - by exists lost.
  - done.
  - intros _. by apply Forall_replicate.
  - exists lost. split; [done|done].
  - done.
  - done.
  - exists ((verify_msg <$> k :: ks) ++ lost). split; [|done]. rewrite <- Ha. cbn. solve_Permutation.
  - done.
  - done.
Qed.

Definition verify_measure (s : verify_state) : nat :=
  3 * length (vkeys s) + sum_list_with effort (workers s) + (if vclosed s then 0 else 1) + (if cancelled s then 0 else 1).

Lemma verify_decreases s s' : verify_step s s' -> (verify_measure s' < verify_measure s)%nat.
Proof. unfold verify_measure. intros []; cbn [vkeys workers results vclosed cancelled length]; rewrite ?effort_mid; cbn [effort]; lia. Qed.

Lemma verify_terminates s : sn verify_step s.
Proof.
  remember (verify_measure s) as m eqn:E. revert s E. induction (lt_wf m) as [m _ IH]; intros s ->.
  constructor. intros s' Hs. apply (IH _ (verify_decreases s s' Hs) s' eq_refl).
Qed.

Lemma verify_inv_start n keys : (0 < n)%nat -> verify_inv keys (verifyResultChan n keys).
Proof.
  intros Hn. assert (Hh : hand (replicate n Receiving) = []) by (clear; unfold hand; induction n; [done|exact IHn]).
  unfold verifyResultChan. split; cbn [vkeys workers results vclosed cancelled].
  - exists []. rewrite Hh. cbn. by rewrite app_nil_r.
  - intros _ Hg%elem_of_replicate_inv. done.
  - done.
  - destruct n; [lia|done].
Qed.

Lemma verify_progress s : vclosed s = false -> exists s', verify_step s s'.
Proof.
  destruct s as [ks ws out c x]. cbn. intros ->. destruct (decide (Forall (fun w => w = Gone) ws)) as [Hf|Hn].
  - replace ws with (replicate (length ws) Gone); [eexists; apply verify_wait|]. clear - Hf. induction Hf as [|w ws -> _ IH]; [done|]. cbn. by rewrite IH.
  - apply not_Forall_Exists in Hn; [|apply _]. apply Exists_exists in Hn as (w & (l & r & ->)%list_elem_of_split & Hw).
    destruct w; [destruct ks; eexists; [apply verify_exhausted|apply verify_take]|eexists; apply verify_send|by destruct (Hw eq_refl)].
Qed.
End VerifyLemmas.

(** *** The loop *)

Definition messages (out : list verify_output) : list string := omap (fun o => match o with Msg m => Some m | Progress _ => None end) out.
Definition counts (out : list verify_output) : list Z := omap (fun o => match o with Progress n => Some n | Msg _ => None end) out.

Lemma verify_loop_spec alive msgs fails i out : (forall o, alive o = None) -> exists out',
  verify_loop alive msgs fails i out = (Ok (fails + Z.of_nat (length (filter (fun m => m <> "") msgs))), out') /\
  messages out' = messages out ++ filter (fun m => m <> "") msgs /\
  counts out' = counts out ++ ((fun k => i + Z.of_nat k) <$> seq 1 (length msgs)).
Proof.
  intros Ha. revert fails i out. induction msgs as [|msg msgs IH]; intros fails i out; cbn [verify_loop].
  - exists out. cbn. rewrite !app_nil_r, Z.add_0_r. done.
  - rewrite !Ha. rewrite filter_cons. destruct (String.eqb_spec msg "") as [->|Hne].
    + rewrite decide_False by tauto. destruct (IH fails (i + 1) (out ++ [Progress (i + 1)])) as (out' & -> & Hm & Hc). exists out'. split; [done|]. split.
      * rewrite Hm. unfold messages at 1. rewrite omap_app. cbn. by rewrite app_nil_r.
      * rewrite Hc. unfold counts at 1. rewrite omap_app. cbn [omap list_omap]. rewrite <- app_assoc. cbn [length seq fmap list_fmap app]. do 2 f_equal.
        rewrite <- (fmap_S_seq 1), <- list_fmap_compose. apply list_fmap_ext. intros j k _. cbn. lia.
    + rewrite decide_True by done. destruct (IH (fails + 1) (i + 1) ((out ++ [Msg msg]) ++ [Progress (i + 1)])) as (out' & -> & Hm & Hc). exists out'. split; [|split].
      * do 2 f_equal. cbn [length]. lia.
      * rewrite Hm. unfold messages at 1. rewrite !omap_app. cbn. by rewrite app_nil_r, <- app_assoc.
      * rewrite Hc. unfold counts at 1. rewrite !omap_app. cbn [omap list_omap]. rewrite app_nil_r, <- app_assoc. cbn [length seq fmap list_fmap app]. do 2 f_equal.
        rewrite <- (fmap_S_seq 1), <- list_fmap_compose. apply list_fmap_ext. intros j k _. cbn. lia.
Qed.

(** ** Theorems *)

(** Verifying ends under every interleaving of its workers, however many there are;
    until the results are closed some step is possible, and when they are and the
    request was not cancelled, they are the answers for all keys, each once. *)
Theorem verify_complete Get n keys : (0 < n)%nat -> sn (verify_step Get) (verifyResultChan n keys) /\
  forall s, rtc (verify_step Get) (verifyResultChan n keys) s ->
    (vclosed s = false -> exists s', verify_step Get s s') /\
    (vclosed s = true -> exists lost, results s ++ lost ≡ₚ verify_msg Get <$> keys /\ (cancelled s = false -> lost = [])).
Proof.
  intros Hn. split; [apply verify_terminates|]. intros s Hr. split; [apply verify_progress|]. intros Hc.
  assert (Hi : verify_inv Get keys s).
  { pose proof (verify_inv_start Get n keys Hn) as Hi. induction Hr; eauto using verify_inv_step. }
  destruct (vi_all _ _ _ Hi) as (lost & Ha & Hl). pose proof (vi_closed _ _ _ Hi Hc) as Hg.
  rewrite (hand_gone _ Hg) in Ha. cbn in Ha.
  exists ((verify_msg Get <$> vkeys s) ++ lost). split; [done|]. intros Hx. rewrite (Hl Hx), app_nil_r.
  assert (Hin : Gone ∈ workers s) by (destruct (workers s) as [|w ws] eqn:E; [by destruct (vi_some _ _ _ Hi)|apply Forall_cons in Hg as [-> _]; by left]).
  by rewrite (vi_gone _ _ _ Hi Hx Hin).
Qed.

(** [repo verify] says that all blocks are valid exactly when every block is, and
    otherwise names exactly the corrupt ones; it counts every block. A cancelled request
    ends in an error. *)
Theorem repo_verify_exact Get alive keys msgs ctx_Err r out : (forall o, alive o = None) -> msgs ≡ₚ verify_msg Get <$> keys ->
  repo_verify alive None msgs ctx_Err = (r, out) ->
  (r = None <-> ctx_Err = None /\ forall k, k ∈ keys -> Get k = None) /\
  (r = None -> last out = Some verified) /\
  (r <> None -> messages out ≡ₚ filter (fun m => m <> "") (verify_msg Get <$> keys)) /\
  counts out = Z.of_nat <$> seq 1 (length keys).
Proof.
  intros Ha Hp. unfold repo_verify. destruct (verify_loop_spec alive msgs 0 0 [] Ha) as (out' & -> & Hm & Hc). rewrite Z.add_0_l.
  assert (Hbad : filter (fun m => m <> "") msgs ≡ₚ filter (fun m => m <> "") (verify_msg Get <$> keys)) by (by rewrite Hp).
  assert (Hlen : length msgs = length keys) by (by rewrite (Permutation_length Hp), length_fmap).
  assert (Hok : filter (fun m => m <> "") msgs = [] <-> forall k, k ∈ keys -> Get k = None).
  { assert (Hnil : filter (fun m => m <> "") msgs = [] <-> filter (fun m => m <> "") (verify_msg Get <$> keys) = []).
    { split; intros E; rewrite E in Hbad; [by apply Permutation_nil_l in Hbad|by apply Permutation_nil_r in Hbad]. }
    rewrite Hnil. clear. unfold verify_msg. induction keys as [|k keys IH]; [split; [by intros _ k ?%elem_of_nil|done]|]. rewrite fmap_cons, filter_cons. destruct (Get k) eqn:E.
    - rewrite decide_True by done. split; [done|]. intros Hk. rewrite (Hk k) in E by (by left). done.
    - rewrite decide_False by tauto. rewrite IH. split; [|intros Hk k' Hin; apply Hk; by right]. intros Hk k' [->|Hin]%elem_of_cons; [done|by apply Hk]. }
  cbn in Hc, Hm. rewrite Hlen in Hc. destruct ctx_Err as [e|].
  { intros [= <- <-]. split_and!; [by split; [done|intros [? _]]|done| |by rewrite Hc]. intros _. by rewrite Hm. }
  destruct (Z.eqb_spec (Z.of_nat (length (filter (fun m => m <> "") msgs))) 0) as [Hz|Hz]; cbn [negb].
  - assert (Hn : filter (fun m => m <> "") msgs = []) by (apply length_zero_iff_nil; lia). rewrite Ha. intros [= <- <-]. split_and!.
    + split; [|done]. intros _. split; [done|by apply Hok].
    + intros _. apply last_snoc.
    + done.
    + unfold counts. rewrite omap_app. cbn. rewrite app_nil_r. exact Hc.
  - intros [= <- <-]. split_and!; [| done| |exact Hc].
    + split; [done|]. intros [_ Hk%Hok]. by rewrite Hk in Hz.
    + intros _. by rewrite Hm.
Qed.

(** *** Collecting *)

Section CollectTheorems.
Context `{GC.DagWalk, GC.GCBlockstore, RepoGC.RepoEnv} (show : GC.cid -> string).

Definition gc_out (res : GC.Result) : gc_output := match res with GC.ResError e => GcError (GC.gc_error_Error show e) | GC.KeyRemoved k => GcKey k end.

Lemma gc_stream_spec alive gcOut errs out : (forall o, alive o = None) ->
  gc_stream show alive gcOut errs out = (if errs || existsb GC.is_error gcOut then Some "encountered errors during gc run" else None, out ++ (gc_out <$> gcOut)).
Proof.
  intros Ha. revert errs out. induction gcOut as [|res gcOut IH]; intros errs out; cbn [gc_stream existsb].
  - by rewrite orb_false_r, app_nil_r.
  - rewrite Ha, IH. rewrite orb_assoc, <- app_assoc. done.
Qed.

(** [repo gc] puts out every result of the collection in order with
    [--stream-errors], and without it every key that was removed, unless it is silent;
    it fails exactly when the collection reported an error.  When the root of the files
    cannot be read the command does not return. *)
Theorem repo_gc_exact env ts alive silent stream n : (forall o, alive o = None) ->
  match RepoGC.BestEffortRoots (RepoGC.FilesRoot n) with
  | Err _ => repo_gc show env ts [] alive silent stream n = None
  | Ok roots => exists r out,
      repo_gc show env ts [] alive silent stream n = Some (r, out) /\
      let gcOut := (GC.GC (RepoGC.store n) (RepoGC.datastore n) roots ts).1 in
      (r = Ret None <-> Forall (fun res => GC.is_error res = false) gcOut) /\
      out = (if stream then gc_out <$> gcOut else if silent then [] else GcKey <$> RepoGC.removed_of gcOut)
  end.
Proof.
  intros Ha. unfold repo_gc, RepoGC.GarbageCollectAsync. destruct (RepoGC.BestEffortRoots _) as [roots|e]; [|done].
  destruct (GC.GC _ _ roots ts) as [gcOut bs]. cbn [fst].
  assert (Hno : Forall (fun res => GC.is_error res = false) gcOut <-> existsb GC.is_error gcOut = false).
  { clear. induction gcOut as [|x gcOut IH]; [by split|]. rewrite Forall_cons, IH. cbn. by rewrite orb_false_iff. }
  destruct stream.
  - rewrite gc_stream_spec by done. cbn. eexists _, _. split; [reflexivity|]. split; [|done]. rewrite Hno. by destruct (existsb _ _).
  - destruct (RepoGC.collect_loop_spec [] gcOut [] []) as (seen & rest & Hg & Hk & Hr). unfold RepoGC.CollectResult.
    destruct (RepoGC.collect_loop [] gcOut [] []) as [errors removed]. cbn [fst snd] in *. destruct Hr as [[He ->]|[_ Hin]]; [|by apply elem_of_nil in Hin].
    rewrite app_nil_r in Hg. subst seen. cbn in He, Hk. subst errors removed. eexists _, _. split; [reflexivity|]. split.
    + assert (Hz : RepoGC.errors_of gcOut = [] <-> existsb GC.is_error gcOut = false).
      { unfold RepoGC.errors_of. clear. induction gcOut as [|[] gcOut IH]; cbn; [done|exact IH|done]. }
      rewrite Hno, <- Hz. destruct (RepoGC.errors_of gcOut) as [|e1 [|e2 l]]; [done|done|].
      unfold RepoGC.NewMultiError. destruct (_ !! _) as [x|]; cbn; (split; [intros E; simplify_eq|done]).
    + destruct silent; [done|]. clear - Ha. induction (RepoGC.removed_of gcOut) as [|k l IH]; [done|]. rewrite fmap_cons, filter_cons, decide_True by done. by rewrite IH.
Qed.
End CollectTheorems.

(** *** Migrating *)

Section MigrateTheorems.
Context `{RepoEnv', DatastoreEnv, FetchEnv, MigEnv}.

Lemma open_holds_lock root user s r s' : open root user s = (Ok r, s') -> Join (path r) LockFile ∈ locks s' /\ (forall d, d ∈ repo_ds r -> d ∈ open_ds s').
Proof.
  unfold open. intros (r0 & s1 & _ & E)%bind_ok. apply bind_ok in E as ([] & s2 & _ & E). apply bind_ok in E as ([] & s3 & El & E).
  unfold lockfile_Lock in El. apply bind_ok in El as ([] & s4 & _ & El). case_decide; [done|]. injection El as El.
  destruct (open_locked r0 s3) as [[r1|e] s5] eqn:O; [|done]. injection E as <- <-.
  pose proof (frame_open_locked _ _ _ _ O) as [L _]. apply open_locked_ok in O as (P & _ & _ & _ & D & _).
  rewrite P, L, D, <- El. split; [cbn; set_solver|]. intros d Hd. apply elem_of_app. by right.
Qed.

(** [repo migrate] runs no migration on a repository that is not outdated; one that
    opens is left open: its lock is held and its datastores are open when the command
    returns. *)
Theorem repo_migrate_leaves_open new root cfg down s r d : open root "" (m_disk s) = (Ok r, d) ->
  exists s', repo_migrate new root cfg down s = (Ok "Repo does not require migration.", s') /\ m_ran s' = m_ran s /\
    Join (path r) LockFile ∈ locks (m_disk s') /\ (forall x, x ∈ repo_ds r -> x ∈ open_ds (m_disk s')).
Proof.
  intros Ho. unfold repo_migrate, bind, try, lift. rewrite Ho. eexists. split; [reflexivity|]. split; [done|]. by apply (open_holds_lock root "" (m_disk s)).
Qed.

(** An error of the repository other than being outdated is the command's error, and
    nothing was run. *)
Theorem repo_migrate_refuses new root cfg down s err d : open root "" (m_disk s) = (Err err, d) -> err <> ErrNeedMigration ->
  exists s', repo_migrate new root cfg down s = (Err err, s') /\ m_ran s' = m_ran s.
Proof. intros Ho Hne. unfold repo_migrate, bind, try, lift. rewrite Ho, decide_False by done. eexists. split; reflexivity. Qed.
End MigrateTheorems.

(** ** Witnesses *)

Module DemoRepoCmd.

Definition check (k : string) : option error := if String.eqb k "bad" then Some "hash mismatch" else None.
Definition anyone {O} (o : O) : option error := None.

(** One worker, run to the end. *)
Definition one_run : verify_state := MkVerify [] [Gone] [""; "block bad was corrupt (hash mismatch)"] true false.

Lemma one_run_reached : rtc (verify_step check) (verifyResultChan 1 ["ok"; "bad"]) one_run.
Proof.
  eapply rtc_l; [apply (verify_take check [] [])|]. eapply rtc_l; [apply (verify_send check [] [])|].
  eapply rtc_l; [apply (verify_take check [] [])|]. eapply rtc_l; [apply (verify_send check [] [])|].
  eapply rtc_l; [apply (verify_exhausted check [] [])|]. eapply rtc_l; [apply (verify_wait check 1)|]. apply rtc_refl.
Qed.

Lemma verify_complete_witness : exists lost, results one_run ++ lost ≡ₚ verify_msg check <$> ["ok"; "bad"] /\ lost = [].
Proof.
  destruct (verify_complete check 1 ["ok"; "bad"] (Nat.lt_0_succ 0)) as [_ Hr]. destruct (Hr one_run one_run_reached) as [_ Hc].
  destruct (Hc eq_refl) as (lost & Hp & Hl). exists lost. split; [exact Hp|exact (Hl eq_refl)].
Defined.

Lemma repo_verify_exact_witness :
  (repo_verify anyone None [""; "block bad was corrupt (hash mismatch)"] None).1 <> None /\
  counts (repo_verify anyone None [""; "block bad was corrupt (hash mismatch)"] None).2 = [1; 2].
Proof.
  destruct (repo_verify_exact check anyone ["ok"; "bad"] [""; "block bad was corrupt (hash mismatch)"] None _ _ (fun _ => eq_refl) (Permutation_refl _) (surjective_pairing _)) as (_ & _ & _ & Hc).
  split; [discriminate|exact Hc].
Defined.

Lemma repo_gc_exact_witness : exists r out,
  @repo_gc (GC.sequential_walk 10) GC.Demo.demo_store (fun c => GC.Hash c) (GC.Demo.demo_env []) [] [] anyone false true RepoGC.demo_node = Some (r, out).
Proof.
  pose proof (@repo_gc_exact (GC.sequential_walk 10) GC.Demo.demo_store (fun c => GC.Hash c) (GC.Demo.demo_env []) [] anyone false true RepoGC.demo_node (fun _ => eq_refl)) as Hx.
  destruct Hx as (r & out & E & _). exists r, out. exact E.
Defined.

Section Repositories.
Import DemoRepo.
Local Existing Instances demo_env demo_ds demo_fetch demo_mig.

Definition healthy : mfs := Mfs (demo_disk []) {[ "/tmp"; "/repo" ]} 0 [].
Definition no_fetcher (dist : string) : Fetcher := demo_fetcher.

Lemma repo_migrate_leaves_open_witness : exists s', repo_migrate no_fetcher "/repo" "" false healthy = (Ok "Repo does not require migration.", s') /\
  "/repo/repo.lock" ∈ locks (m_disk s').
Proof.
  destruct (open "/repo" "" (m_disk healthy)) as [[r|e] d] eqn:E; [|vm_compute in E; discriminate].
  destruct (repo_migrate_leaves_open no_fetcher "/repo" "" false healthy r d E) as (s' & Es & _ & Hl & _). exists s'. split; [exact Es|].
  assert (Hp : path r = "/repo") by (apply (f_equal fst) in E; vm_compute in E; injection E as <-; reflexivity).
  rewrite Hp in Hl. exact Hl.
Defined.

Lemma repo_migrate_refuses_witness : exists s', repo_migrate no_fetcher "/nowhere" "" false healthy = (Err "no IPFS repo found in /nowhere. please run: 'ipfs init'", s') /\ m_ran s' = [].
Proof.
  destruct (open "/nowhere" "" (m_disk healthy)) as [r d] eqn:E. assert (Er : r = Err "no IPFS repo found in /nowhere. please run: 'ipfs init'").
  { apply (f_equal fst) in E. vm_compute in E. exact (eq_sym E). }
  subst r. destruct (repo_migrate_refuses no_fetcher "/nowhere" "" false healthy _ d E) as (s' & Es & Hr); [discriminate|]. exists s'. split; [exact Es|exact Hr].
Defined.
End Repositories.
End DemoRepoCmd.
