(* ===== verification/AddCmd.v ===== *)
(** The command [ipfs add]: [core/commands/add.go].

    Adding itself is [UnixfsAPI.v]; here it is what it sends and returns for each
    entry.  Copying to the mutable file system is over the class of [Files.v].  The
    goroutine of an entry sends its events before it ends, so an entry is its events,
    then its outcome. *)
From Stdlib Require Import ZArith Lia Ascii String Sorted.
From stdpp Require Import base strings list.
From S2P Require Import Prelude GoStrings GoPath Files.

Local Open Scope Z_scope.
Local Open Scope go_scope.

(** ** Options *)

(** [PreRun]: the option [progress] as the command is run with it. *)
Definition add_preRun (quiet quieter silent : bool) (progress : option bool) : option bool :=
  if quiet || quieter || silent then progress
  else match progress with None => Some true | Some p => Some p end.

(** ** Running *)

(** An event of the adder: its name, the CID for an added node, bytes and size. *)
Record event := MkEvent { ev_Name : string; ev_Path : option string; ev_Bytes : Z; ev_Size : string }.
Record AddEvent := MkAddEvent { a_Name : string; a_Hash : string; a_Bytes : Z; a_Size : string }.

(** An entry: its name, whether it is a directory, what adding it sends ([None] is not
    an event), and what it returns. *)
Record entry := MkEntry { en_Name : string; en_dir : bool; en_events : list (option event); en_added : result string }.

Section AddCmd.
Context `{MFS} (dag_Get : string -> result dnode) (enc Quote : string -> string).

(** What the names of the events of an entry become. *)
Definition event_name (e : entry) (name : string) : string :=
  if negb (en_dir e) && negb (String.eqb (en_Name e) "") then en_Name e else Join (en_Name e) name.

Definition add_output (e : entry) (ev : event) : AddEvent :=
  MkAddEvent (event_name e (ev_Name ev)) (match ev_Path ev with Some c => enc c | None => "" end) (ev_Bytes ev) (ev_Size ev).

(** The receive loop over the events of an entry. *)
Fixpoint add_events (alive : AddEvent -> option error) (e : entry) (evs : list (option event)) (out : list AddEvent) : option error * list AddEvent :=
  match evs with
  | [] => (None, out)
  | None :: _ => (Some "unknown event type", out)
  | Some ev :: evs =>
      match alive (add_output e ev) with
      | Some err => (Some err, out)
      | None => add_events alive e evs (out ++ [add_output e ev])
      end
  end.

(** The reference in the mutable file system, when [--to-files] is set: whether it was
    made. *)
Definition to_files (toFilesStr name cid : string) (fileAddedToMFS : bool) (m : M) : option error * M :=
  let toFilesStr := if String.eqb toFilesStr "" then "/" else toFilesStr in
  match checkPath toFilesStr with
  | Err e => (Some ("to-files: " +:+ e), m)
  | Ok toFilesDst =>
      let dstAsDir := ends_in_slash toFilesDst in
      let dst :=
        if dstAsDir then
          match Lookup toFilesDst m with
          | Err e => Err ("to-files: MFS destination directory " +:+ Quote toFilesDst +:+ " does not exist: " +:+ e)
          | Ok (inr _) => Err ("to-files: MFS destination " +:+ Quote toFilesDst +:+ " is not a directory")
          | Ok (inl _) => Ok (toFilesDst +:+ path_Base name)
          end
        else Ok toFilesDst in
      match dst with
      | Err e => (Some e, m)
      | Ok dst =>
          if fileAddedToMFS && negb dstAsDir
          then (Some ("to-files: MFS destination is a file: only one entry can be copied to " +:+ Quote dst), m)
          else match Lookup (Dir dst) m with
          | Err e => (Some ("to-files: MFS destination parent " +:+ Quote dst +:+ " " +:+ Quote (Dir dst) +:+ " does not exist: " +:+ e), m)
          | Ok _ =>
              match dag_Get cid with
              | Err e => (Some e, m)
              | Ok nodeAdded =>
                  match PutNode dst nodeAdded m with
                  | (Some e, m) => (Some ("to-files: cannot put node in path " +:+ Quote dst +:+ ": " +:+ e), m)
                  | (None, m) => (None, m)
                  end
              end
          end
      end
  end.

(** What the goroutine of an entry ends with, and [fileAddedToMFS] after it. *)
Definition add_goroutine (toFiles : option string) (e : entry) (fileAddedToMFS : bool) (m : M) : option error * bool * M :=
  match en_added e with
  | Err err => (Some err, fileAddedToMFS, m)
  | Ok cid =>
      match toFiles with
      | None => (None, fileAddedToMFS, m)
      | Some dst =>
          match to_files dst (en_Name e) cid fileAddedToMFS m with
          | (Some err, m) => (Some err, fileAddedToMFS, m)
          | (None, m) => (None, true, m)
          end
      end
  end.

Fixpoint add_entries (alive : AddEvent -> option error) (toFiles : option string) (es : list entry) (added : Z) (fileAddedToMFS : bool)
    (out : list AddEvent) (m : M) : result Z * list AddEvent * M :=
  match es with
  | [] => (Ok added, out, m)
  | e :: es =>
      match add_events alive e (en_events e) out with
      | (Some err, out) => (Err err, out, m)
      | (None, out) =>
          match add_goroutine toFiles e fileAddedToMFS m with
          | (Some err, _, m) => (Err err, out, m)
          | (None, f, m) => add_entries alive toFiles es (added + 1) f out m
          end
      end
  end.

(** [hashNames]: the names of hash functions; [encoder], [node]: the first error of
    getting the encoder and the node; [entries] and [it_Err]: the files, wrapped in a
    directory with [-w]. *)
Definition add_Run (hashNames : list string) (encoder node : option error) (alive : AddEvent -> option error)
    (hashFunStr : string) (toFiles : option string) (entries : list entry) (it_Err : option error) (m : M) : option error * list AddEvent * M :=
  if negb (bool_decide (ToLower hashFunStr ∈ hashNames)) then (Some ("unrecognized hash function: " +:+ Quote (ToLower hashFunStr)), [], m)
  else match encoder with
  | Some e => (Some e, [], m)
  | None =>
      match node with
      | Some e => (Some e, [], m)
      | None =>
          match add_entries alive toFiles entries 0 false [] m with
          | (Err e, out, m) => (Some e, out, m)
          | (Ok added, out, m) =>
              match it_Err with
              | Some e => (Some e, out, m)
              | None => (if added =? 0 then Some "expected a file argument" else None, out, m)
              end
          end
      end
  end.
End AddCmd.

(** ** The progress bar *)

Record bar := MkBar { lastFile : string; lastHash : string; totalProgress : Z; prevFiles : Z; lastBytes : Z; printed : list string }.

Definition bar_start : bar := MkBar "" "" 0 0 0 [].

(** An output received: a line for a node, progress for the rest; [Add64] gives the new
    value of the bar.  [EscNonPrint] escapes what cannot be printed. *)
Definition bar_event (EscNonPrint : string -> string) (progress quiet quieter : bool) (o : AddEvent) (b : bar) : bar :=
  if negb (String.eqb (a_Hash o) "") then
    if quieter then MkBar (lastFile b) (a_Hash o) (totalProgress b) (prevFiles b) (lastBytes b) (printed b)
    else MkBar (lastFile b) (a_Hash o) (totalProgress b) (prevFiles b) (lastBytes b)
           (printed b ++ [if quiet then a_Hash o else "added " +:+ a_Hash o +:+ " " +:+ EscNonPrint (a_Name o)])
  else if negb progress then b
  else
    let last := if String.eqb (lastFile b) "" then a_Name o else lastFile b in
    let '(prev, last) := if negb (String.eqb (a_Name o) last) || (a_Bytes o <? lastBytes b) then (i64 (prevFiles b + lastBytes b), a_Name o) else (prevFiles b, last) in
    let delta := i64 (prev + a_Bytes o - totalProgress b) in
    MkBar last (lastHash b) (i64 (totalProgress b + delta)) prev (a_Bytes o) (printed b).

(** The line printed when the outputs end. *)
Definition bar_end (quieter : bool) (b : bar) : list string := printed b ++ (if quieter then [lastHash b] else []).

(** ** Theorems *)

Section AddTheorems.
Context `{MFS} (dag_Get : string -> result dnode) (enc Quote : string -> string).
Abbreviation to_files := (to_files dag_Get Quote).
Abbreviation add_Run := (add_Run dag_Get enc Quote).

(** [--to-files] puts the node that was added, and only it, at the destination: in
    the destination directory under the base name of the entry when the path ends in a
    slash, which must be an existing directory, and at the path itself otherwise, whose
    parent must exist; every failure before leaves the file system as it was. *)
Theorem to_files_lands dst name cid f m r m' : to_files dst name cid f m = (r, m') ->
  (r = None /\ exists d nd, checkPath (if String.eqb dst "" then "/" else dst) = Ok d /\ dag_Get cid = Ok nd /\
     let target := if ends_in_slash d then d +:+ path_Base name else d in
     PutNode target nd m = (None, m') /\ (exists p, Lookup (Dir target) m = Ok p) /\ (ends_in_slash d = true -> exists h, Lookup d m = Ok (inl h)) /\ (f = true -> ends_in_slash d = true))
  \/ (r <> None /\ (m' = m \/ exists target nd e, dag_Get cid = Ok nd /\ PutNode target nd m = (Some e, m'))).
Proof.
  unfold AddCmd.to_files. destruct (checkPath _) as [d|e] eqn:Ec; [|by intros [= <- <-]; right; split; [|left]].
  destruct (ends_in_slash d) eqn:Es.
  - destruct (Lookup d m) as [[h|h]|e] eqn:El; [|by intros [= <- <-]; right; split; [|left]..].
    rewrite andb_false_r. destruct (Lookup (Dir _) m) as [p|e] eqn:Ep; [|by intros [= <- <-]; right; split; [|left]].
    destruct (dag_Get cid) as [nd|e] eqn:Eg; [|by intros [= <- <-]; right; split; [|left]].
    destruct (PutNode _ nd m) as [[e|] m1] eqn:Eput; intros [= <- <-]; [right; split; [done|]; right; by eexists _, nd, e|].
    left. split; [done|]. exists d, nd. rewrite Es. split_and!; eauto.
  - rewrite andb_true_r. destruct f; [by intros [= <- <-]; right; split; [|left]|].
    destruct (Lookup (Dir d) m) as [p|e] eqn:Ep; [|by intros [= <- <-]; right; split; [|left]].
    destruct (dag_Get cid) as [nd|e] eqn:Eg; [|by intros [= <- <-]; right; split; [|left]].
    destruct (PutNode d nd m) as [[e|] m1] eqn:Eput; intros [= <- <-]; [right; split; [done|]; right; by eexists _, nd, e|].
    left. split; [done|]. exists d, nd. rewrite Es. split_and!; eauto; done.
Qed.

(** An entry without a name (standard input, or anything wrapped with [-w]) is put
    into the destination directory under the name of a dot. *)
Theorem to_files_unnamed_entry dst cid nd h p m : checkPath (if String.eqb dst "" then "/" else dst) = Ok dst -> ends_in_slash dst = true ->
  Lookup dst m = Ok (inl h) -> Lookup (Dir (dst +:+ ".")) m = Ok p -> dag_Get cid = Ok nd ->
  forall m', PutNode (dst +:+ ".") nd m = (None, m') -> to_files dst "" cid false m = (None, m').
Proof.
  intros Hc Hs Hl Hp Hg m' Hput. unfold AddCmd.to_files. rewrite Hc, Hs, Hl. change (path_Base "") with ".". cbn [negb andb]. by rewrite Hp, Hg, Hput.
Qed.

(** *** Outputs *)

Lemma add_events_ok alive e evs out out' : add_events enc alive e evs out = (None, out') ->
  exists l, evs = Some <$> l /\ out' = out ++ (add_output enc e <$> l).
Proof.
  revert out. induction evs as [|[ev|] evs IH]; intros out; cbn [add_events]; [|  |done].
  - intros [= <-]. exists []. by rewrite app_nil_r.
  - destruct (alive _); [done|]. intros (l & -> & ->)%IH. exists (ev :: l). split; [done|]. cbn. by rewrite <- app_assoc.
Qed.

(** The outputs for the entries, in order. *)
Definition outputs_of (es : list entry) : list AddEvent := mjoin ((fun e => add_output enc e <$> omap (fun ev => ev) (en_events e)) <$> es).

Lemma omap_Some {A} (l : list A) : omap (fun x => x) (Some <$> l) = l.
Proof. induction l as [|x l IH]; [done|]. cbn. by rewrite IH. Qed.

Lemma add_entries_ok alive toFiles es added f out m k out' m' : add_entries dag_Get enc Quote alive toFiles es added f out m = (Ok k, out', m') ->
  k = added + Z.of_nat (length es) /\ out' = out ++ outputs_of es /\ Forall (fun e => exists c, en_added e = Ok c) es /\
  (forall dst, toFiles = Some dst -> f = true \/ (2 <= length es)%nat -> es <> [] ->
     exists d, checkPath (if String.eqb dst "" then "/" else dst) = Ok d /\ ends_in_slash d = true).
Proof.
  revert added f out m. induction es as [|e es IH]; intros added f out m; cbn [add_entries].
  - intros [= <- <- <-]. cbn. rewrite app_nil_r, Z.add_0_r. split_and!; try done.
  - destruct (add_events _ _ _ _ _) as [[err|] out1] eqn:Ee; [done|]. destruct (add_goroutine _ _ _ _ _ _) as [[[err|] f1] m1] eqn:Eg; [done|].
    intros (Hk & Ho & Hf & Hd)%IH. apply add_events_ok in Ee as (l & Hl & ->). unfold add_goroutine in Eg. destruct (en_added e) as [c|err] eqn:Ea; [|done]. split_and!.
    + rewrite Hk. cbn [length]. lia.
    + rewrite Ho. unfold outputs_of. rewrite fmap_cons. cbn [mjoin list_join]. rewrite Hl, omap_Some. by rewrite <- app_assoc.
    + constructor; [by exists c|done].
    + intros dst -> Hcase _. destruct (AddCmd.to_files dag_Get Quote dst (en_Name e) c f m) as [[err|] m2] eqn:Et; [done|]. injection Eg as <- <-.
      apply to_files_lands in Et as [(_ & d & nd & Hc & _ & Ht)|[Hne _]]; [|done]. cbv zeta in Ht. destruct Ht as (_ & _ & _ & Hfd). destruct Hcase as [->|Hlen]; [by exists d; auto|].
      destruct (Hd dst eq_refl (or_introl eq_refl)) as (d' & Hc' & Hs); [destruct es; [cbn in Hlen; lia|done]|]. by exists d'.
Qed.

(** A successful [ipfs add] has added every entry, at least one, and has put out the
    events of all of them in order, those of a named file under its name and those of a
    directory below its name; with a destination that is a file it has added only one. *)
Theorem add_command_exact names enc_err node alive h toFiles es it m out m' : add_Run names enc_err node alive h toFiles es it m = (None, out, m') ->
  es <> [] /\ Forall (fun e => exists c, en_added e = Ok c) es /\ out = outputs_of es /\
  (forall dst, toFiles = Some dst -> (2 <= length es)%nat -> exists d, checkPath (if String.eqb dst "" then "/" else dst) = Ok d /\ ends_in_slash d = true).
Proof.
  unfold AddCmd.add_Run. destruct (negb _); [done|]. destruct enc_err; [done|]. destruct node; [done|].
  destruct (add_entries _ _ _ _ _ _ _ _ _ _) as [[[k|e] out1] m1] eqn:E; [|done]. destruct it; [done|]. destruct (Z.eqb_spec k 0) as [Hk|Hk]; [done|]. intros [= <- <-].
  apply add_entries_ok in E as (-> & -> & Hf & Hd). split_and!; [by intros ->|done|done|]. intros dst Hs Hl. apply (Hd dst Hs); [by right|]. by intros ->.
Qed.
End AddTheorems.

(** *** The bar *)

Section Bar.
Context (esc : string -> string) (quiet quieter : bool).
Abbreviation run := (foldl (fun b o => bar_event esc true quiet quieter o b)).

(** A file added: its name, the bytes reported on the way, in order, and its CID. *)
Record added_file := MkAdded { af_name : string; af_marks : list Z; af_hash : string }.
Definition file_events (f : added_file) : list AddEvent :=
  ((fun n => MkAddEvent (af_name f) "" n "") <$> af_marks f) ++ [MkAddEvent (af_name f) (af_hash f) 0 ""].
Definition file_bytes (f : added_file) : Z := List.last (af_marks f) 0.
Definition well_reported (f : added_file) : Prop := af_name f <> "" /\ af_hash f <> "" /\ af_marks f <> [] /\ StronglySorted Z.le (0 :: af_marks f).

(** The bar shows [n]; the last progress was [last]'s. *)
Record shows (n : Z) (last : string) (b : bar) : Prop := {
  sh_total : totalProgress b = n; sh_sum : prevFiles b + lastBytes b = n; sh_prev : 0 <= prevFiles b; sh_last : 0 <= lastBytes b;
  sh_file : lastFile b = last; sh_none : last = "" -> lastBytes b = 0;
}.

Lemma i64_id z : inS 64 z -> i64 z = z.
Proof. by apply wrapS_small. Qed.

Lemma shows_hash n last o b : a_Hash o <> "" -> shows n last b -> shows n last (bar_event esc true quiet quieter o b).
Proof.
  intros Hh%String.eqb_neq [T S P L F N]. unfold bar_event. rewrite Hh. cbn [negb]. by destruct quieter; split.
Qed.

(** Progress of the same file, and of the next one. *)
Lemma shows_same name x k b : name <> "" -> prevFiles b = k -> lastFile b = name -> 0 <= lastBytes b -> 0 <= k -> totalProgress b = k + lastBytes b ->
  lastBytes b <= x -> k + x < 2 ^ 63 ->
  let b' := bar_event esc true quiet quieter (MkAddEvent name "" x "") b in
  shows (k + x) name b' /\ prevFiles b' = k.
Proof.
  intros Hn Hk Hf Hl H0 Ht Hx Hb. unfold bar_event. cbn [a_Hash a_Name a_Bytes String.eqb negb]. rewrite Hf, (proj2 (String.eqb_neq name "") Hn), String.eqb_refl. cbn [negb orb].
  destruct (Z.ltb_spec x (lastBytes b)); [lia|]. cbn zeta beta. rewrite Hk, Ht. rewrite (i64_id (k + x - (k + lastBytes b))) by (unfold inS; lia).
  rewrite i64_id by (unfold inS; lia). split; [|done]. split; cbn [totalProgress prevFiles lastBytes lastFile]; try lia; done.
Qed.

Lemma shows_next name x n last b : name <> "" -> shows n last b -> last <> name -> 0 <= x -> n + x < 2 ^ 63 ->
  let b' := bar_event esc true quiet quieter (MkAddEvent name "" x "") b in
  shows (n + x) name b' /\ prevFiles b' = n.
Proof.
  intros Hn [T S P L F N] Hne Hx Hb. unfold bar_event. cbn [a_Hash a_Name a_Bytes String.eqb negb]. rewrite F.
  destruct (String.eqb_spec last "") as [->|Hl].
  - rewrite String.eqb_refl. cbn [negb orb]. rewrite N in * by done. destruct (Z.ltb_spec x 0); [lia|]. cbn zeta beta.
    rewrite (i64_id (prevFiles b + x - totalProgress b)) by (unfold inS; lia). rewrite i64_id by (unfold inS; lia). split; [|cbn; lia].
    split; cbn [totalProgress prevFiles lastBytes lastFile]; try lia; done.
  - rewrite (proj2 (String.eqb_neq name last)) by congruence. cbn [negb orb]. cbn zeta beta. rewrite (i64_id (prevFiles b + lastBytes b)) by (unfold inS; lia).
    rewrite (i64_id (prevFiles b + lastBytes b + x - totalProgress b)) by (unfold inS; lia). rewrite i64_id by (unfold inS; lia). split; [|cbn; lia].
    split; cbn [totalProgress prevFiles lastBytes lastFile]; try lia; done.
Qed.

Lemma last_cons_def (x y : Z) xs : List.last (y :: xs) x = List.last xs y.
Proof.
  revert x y. induction xs as [|z xs IH]; intros x y; [done|]. change (List.last (y :: z :: xs) x) with (List.last (z :: xs) x). by rewrite !IH.
Qed.

Lemma last_ge x xs : StronglySorted Z.le (x :: xs) -> x <= List.last xs x.
Proof.
  revert x. induction xs as [|z xs IH]; intros x Hs; [cbn; lia|]. apply StronglySorted_inv in Hs as [Hs Hall]. pose proof (Forall_inv Hall). rewrite last_cons_def. specialize (IH z Hs). lia.
Qed.

Lemma shows_marks name k xs x b : name <> "" -> prevFiles b = k -> shows (k + x) name b -> StronglySorted Z.le (x :: xs) -> k + List.last xs x < 2 ^ 63 ->
  shows (k + List.last xs x) name (run b ((fun n => MkAddEvent name "" n "") <$> xs)).
Proof.
  intros Hn. revert x b. induction xs as [|y xs IH]; intros x b Hk Hs Hsort Hb; [done|].
  apply StronglySorted_inv in Hsort as [Hsort Hall]. pose proof (Forall_inv Hall) as Hxy. pose proof (last_ge _ _ Hsort) as Hy. rewrite fmap_cons. cbn [foldl].
  rewrite last_cons_def in *. destruct Hs as [T S P L F N]. destruct (shows_same name y k b) as [Hs' Hk']; try done; try lia. by apply IH.
Qed.

Lemma shows_file f n last b : well_reported f -> shows n last b -> last <> af_name f -> n + file_bytes f < 2 ^ 63 ->
  shows (n + file_bytes f) (af_name f) (run b (file_events f)).
Proof.
  intros (Hn & Hh & Hm & Hs) Hb Hne Hlt. unfold file_events, file_bytes in *. rewrite foldl_app. cbn [foldl]. apply shows_hash; [done|].
  destruct (af_marks f) as [|x xs]; [done|]. rewrite last_cons_def in *. apply StronglySorted_inv in Hs as [Hs Hall]. pose proof (Forall_inv Hall). pose proof (last_ge _ _ Hs).
  rewrite fmap_cons. cbn [foldl]. destruct (shows_next (af_name f) x n last b) as [Hs' Hk']; try done; try lia. by apply shows_marks.
Qed.

Fixpoint distinct_next (last : string) (fs : list added_file) : Prop :=
  match fs with [] => True | f :: fs => last <> af_name f /\ distinct_next (af_name f) fs end.

Definition bytes_of (fs : list added_file) : Z := foldr Z.add 0 (file_bytes <$> fs).

Lemma well_reported_bytes f : well_reported f -> 0 <= file_bytes f.
Proof. intros (_ & _ & _ & Hs). apply last_ge in Hs. done. Qed.

Lemma bytes_of_nonneg fs : Forall well_reported fs -> 0 <= bytes_of fs.
Proof. induction 1 as [|f fs Hf _ IH]; [done|]. apply well_reported_bytes in Hf. unfold bytes_of in *. rewrite fmap_cons. cbn [foldr]. lia. Qed.

Lemma shows_files fs n last b : Forall well_reported fs -> shows n last b -> distinct_next last fs -> n + bytes_of fs < 2 ^ 63 ->
  exists last', shows (n + bytes_of fs) last' (run b (mjoin (file_events <$> fs))).
Proof.
  intros Hfs. revert n last b. induction Hfs as [|f fs Hf Hfs IH]; intros n last b Hb Hd Hlt.
  - exists last. unfold bytes_of. cbn. by rewrite Z.add_0_r.
  - destruct Hd as [Hne Hd]. pose proof (bytes_of_nonneg fs Hfs). unfold bytes_of in *. rewrite !fmap_cons in *. cbn [mjoin list_join foldr] in *. rewrite foldl_app.
    destruct (IH (n + file_bytes f) (af_name f) (run b (file_events f))) as (l' & Hl'); [apply (shows_file f n last); [done..|lia]|done|lia|].
    exists l'. by rewrite Z.add_assoc.
Qed.

(** Adding files one after the other, consecutive ones of different names, each with
    its bytes reported in increasing order, the progress bar ends at the sum of what the
    files last reported, whatever is printed on the way. *)
Theorem progress_bar_total fs : Forall well_reported fs -> distinct_next "" fs -> bytes_of fs < 2 ^ 63 ->
  totalProgress (run bar_start (mjoin (file_events <$> fs))) = bytes_of fs.
Proof.
  intros Hf Hd Hlt. destruct (shows_files fs 0 "" bar_start Hf) as (l & Hs); [by split|done|lia|]. by rewrite (sh_total _ _ _ Hs).
Qed.
End Bar.

(** ** The hypotheses are met *)
Module DemoAddCmd.
Import DemoFiles.

Definition dag (c : string) : result dnode := if String.eqb c "Qa" then Ok (MkNode "Qa" (Ok 3) 0 RawNode) else Err "not found".
Definition quote (s : string) : string := s.
Definition addition := MkEntry "f" false [Some (MkEvent "" None 3 ""); Some (MkEvent "" (Some "Qa") 0 "11")] (Ok "Qa").
Definition alive (o : AddEvent) : option error := None.

Lemma to_files_lands_witness :
  exists d nd, checkPath "/d/" = Ok d /\ dag "Qa" = Ok nd /\ ends_in_slash d = true.
Proof.
  assert (Hrun : to_files dag quote (H := DemoFiles.mfs) "/" "f" "Qa" false start = (None, start)) by reflexivity.
  destruct (to_files_lands dag quote (H := DemoFiles.mfs) "/" "f" "Qa" false start None start Hrun) as [(_ & d & nd & Hc & Hg & _)|[Hne _]]; [|done].
  exists "/d/", nd. split; [reflexivity|]. by split.
Defined.

Lemma to_files_unnamed_entry_witness : to_files dag quote (H := DemoFiles.mfs) "/" "" "Qa" false start = (None, start).
Proof.
  refine (to_files_unnamed_entry dag quote (H := DemoFiles.mfs) "/" "Qa" (MkNode "Qa" (Ok 3) 0 RawNode) "/" (inl "/") start _ _ _ _ _ start _); reflexivity.
Defined.

Lemma add_command_exact_witness : exists out, add_Run dag (fun c => c) quote (H := DemoFiles.mfs) ["sha2-256"] None None alive "sha2-256" (Some "/f") [addition] None start = (None, out, start) /\
  out = [MkAddEvent "f" "" 3 ""; MkAddEvent "f" "Qa" 0 "11"].
Proof.
  assert (Hrun : exists out, add_Run dag (fun c => c) quote (H := DemoFiles.mfs) ["sha2-256"] None None alive "sha2-256" (Some "/f") [addition] None start = (None, out, start)) by (eexists; reflexivity).
  destruct Hrun as (out & Hrun). exists out. split; [done|].
  destruct (add_command_exact dag (fun c => c) quote (H := DemoFiles.mfs) _ _ _ _ _ _ _ _ _ _ _ Hrun) as (_ & _ & -> & _). reflexivity.
Defined.

Definition two : list added_file := [MkAdded "a" [1; 3] "Qa"; MkAdded "b" [0; 5] "Qb"].

Lemma progress_bar_total_witness : totalProgress (foldl (fun b o => bar_event quote true false false o b) bar_start (mjoin (file_events <$> two))) = 8.
Proof.
  refine (progress_bar_total quote false false two _ _ _); [|by repeat split|reflexivity].
  repeat constructor; cbn; lia || discriminate.
Defined.
End DemoAddCmd.
