(* ===== verification/CidCmd.v ===== *)
(** The commands [ipfs cid] and the encoders of CIDs: [core/commands/cid.go] and
    [core/commands/cmdenv/cidbase.go].

    CIDs, multihashes and multibases are the libraries', with what they document as laws
    of the class [CidLib]; here is what the commands make of them, the iteration over
    arguments included. *)
From Stdlib Require Import ZArith Lia Ascii String Sorted.
From stdpp Require Import base strings sorting list.
From S2P Require Import Prelude GoStrings GoPath.

Local Open Scope Z_scope.
Local Open Scope go_scope.

(** ** The libraries *)

(** How formatting fails: for the format string, or for the CID. *)
Inductive formatted := Formatted (s : string) | FormatStringError (e : error) | OtherError (e : error).

Definition DagProtobuf : Z := 112.

Class CidLib := {
  Cid : Type; Mh : Type;
  Decode : string -> result Cid;
  Version : Cid -> Z; Type_ : Cid -> Z; Hash : Cid -> Mh;
  NewCidV1 : Z -> Mh -> Cid;
  NewCidV0 : Mh -> outcome Cid;
  Format : string -> Z -> Cid -> formatted;
  ExtractEncoding : string -> Z;
  mbase_Decode : string -> result Z;
  EncoderByName : string -> result Z;
  (** the numbers of codecs *)
  codec_Set : string -> result Z;
  StringOfBase : Z -> Cid -> string;
  Base32 : Z; Base58BTC : Z;
  Version_cases c : Version c = 0 \/ Version c = 1;
  V1_fields t h : Version (NewCidV1 t h) = 1 /\ Type_ (NewCidV1 t h) = t /\ Hash (NewCidV1 t h) = h;
  V1_unique c : Version c = 1 -> c = NewCidV1 (Type_ c) (Hash c);
  V0_fields h c : NewCidV0 h = Ret c -> Version c = 0 /\ Type_ c = DagProtobuf /\ Hash c = h;
  V0_unique c : Version c = 0 -> NewCidV0 (Hash c) = Ret c;
  Format_s b c : Version c = 1 -> Format "%s" b c = Formatted (StringOfBase b c);
  Decode_String b c : Version c = 1 -> Decode (StringOfBase b c) = Ok c /\ mbase_Decode (StringOfBase b c) = Ok b;
  Decode_V1 s c : Decode s = Ok c -> Version c = 1 -> exists b, mbase_Decode s = Ok b;
}.

(** ** Conversion *)

Section CidCmd.
Context `{CidLib} (Quote : string -> string).

Definition toCidV0 (c : Cid) : outcome (result Cid) :=
  if negb (Type_ c =? DagProtobuf) then Ret (Err "can't convert non-dag-pb nodes to cidv0")
  else let! c := NewCidV0 (Hash c) in Ret (Ok c).

Definition toCidV1 (c : Cid) : outcome (result Cid) := Ret (Ok (NewCidV1 (Type_ c) (Hash c))).

(** No base is -1, no codec 0. *)
Record cidFormatOpts := MkOpts { fmtStr : string; newBase : Z; verConv : option (Cid -> outcome (result Cid)); newCodec : Z }.
Record CidFormatRes := MkRes { CidStr : string; Formatted_ : string; ErrorMsg : string }.

(** *** Arguments *)

(** Standard input: the arguments it still delivers, and the error that ends it. *)
Record argumentIterator := MkArgs { args : list string; body : option (list string * option error) }.

Definition arg_next (i : argumentIterator) : option string * argumentIterator :=
  match args i with
  | a :: rest => (Some a, MkArgs rest (body i))
  | [] =>
      match body i with
      | Some (a :: rest, e) => (Some (TrimSpace a), MkArgs [] (Some (rest, e)))
      | _ => (None, i)
      end
  end.

Definition arg_err (i : argumentIterator) : option error := match body i with None => None | Some (_, e) => e end.

(** *** [emitCids] *)

(** The base a CID is shown in. *)
Definition base_of (opts : cidFormatOpts) (cidStr : string) (c : Cid) : Z :=
  if newBase opts =? -1 then if Version c =? 0 then Base58BTC else ExtractEncoding cidStr else newBase opts.

(** What is put out for an argument; a problem with the format string ends the
    command. *)
Definition format_one (opts : cidFormatOpts) (cidStr : string) : outcome (result CidFormatRes) :=
  match Decode cidStr with
  | Err e => Ret (Ok (MkRes cidStr "" e))
  | Ok c =>
      let c := if negb (newCodec opts =? 0) && negb (newCodec opts =? Type_ c) then NewCidV1 (newCodec opts) (Hash c) else c in
      let! conv := (match verConv opts with None => Ret (Ok c) | Some f => f c end) in
      match conv with
      | Err e => Ret (Ok (MkRes cidStr "" e))
      | Ok c =>
          match Format (fmtStr opts) (base_of opts cidStr c) c with
          | FormatStringError e => Ret (Err e)
          | OtherError e => Ret (Ok (MkRes cidStr "" e))
          | Formatted s => Ret (Ok (MkRes cidStr s ""))
          end
      end
  end.

Fixpoint emit_loop (fuel : nat) (alive : CidFormatRes -> option error) (opts : cidFormatOpts) (itr : argumentIterator) (out : list CidFormatRes)
    : outcome (option error * list CidFormatRes) :=
  match fuel with
  | O => Panic "out of fuel"
  | S fuel =>
      match arg_next itr with
      | (None, itr) => Ret (arg_err itr, out)
      | (Some cidStr, itr) =>
          let! res := format_one opts cidStr in
          match res with
          | Err e => Ret (Some e, out)
          | Ok res =>
              match alive res with
              | Some e => Ret (Some e, out)
              | None => emit_loop fuel alive opts itr (out ++ [res])
              end
          end
      end
  end.

(** One turn for each argument, and the last one. *)
Definition emit_fuel (itr : argumentIterator) : nat := S (length (args itr) + match body itr with Some (l, _) => length l | None => 0 end).
Definition emitCids (alive : CidFormatRes -> option error) (itr : argumentIterator) (opts : cidFormatOpts) : outcome (option error * list CidFormatRes) :=
  emit_loop (emit_fuel itr) alive opts itr [].

Definition cid_format (alive : CidFormatRes -> option error) (itr : argumentIterator) (fmt verStr codecStr baseStr : string) : outcome (option error * list CidFormatRes) :=
  if negb (has_char "%" fmt) then Ret (Some ("invalid format string: " +:+ Quote fmt), [])
  else match (if String.eqb codecStr "" then Ok 0 else codec_Set codecStr) with
  | Err e => Ret (Some e, [])
  | Ok codec =>
      let conv :=
        if String.eqb verStr "" then Ok None
        else if String.eqb verStr "0" then
          if negb (codec =? 0) && negb (codec =? DagProtobuf) then Err "cannot convert to CIDv0 with any codec other than dag-pb" else Ok (Some toCidV0)
        else if String.eqb verStr "1" then Ok (Some toCidV1)
        else Err ("invalid cid version: " +:+ Quote verStr) in
      match conv with
      | Err e => Ret (Some e, [])
      | Ok conv =>
          match (if String.eqb baseStr "" then Ok (-1) else EncoderByName baseStr) with
          | Err e => Ret (Some e, [])
          | Ok base => emitCids alive itr (MkOpts fmt base conv codec)
          end
      end
  end.

Definition base32_opts : cidFormatOpts := MkOpts "%s" Base32 (Some toCidV1) 0.
Definition cid_base32 (alive : CidFormatRes -> option error) (itr : argumentIterator) : outcome (option error * list CidFormatRes) :=
  emitCids alive itr base32_opts.

(** ** [cmdenv/cidbase.go] *)

Record Encoder := MkEncoder { Base : Z; Upgrade : bool }.
Definition Default : Encoder := MkEncoder Base58BTC false.

(** [cidenc.Encoder.Encode]: version 0 is written in base58 unless it is upgraded. *)
Definition getCidBase (autoUpgrade : bool) (base : string) (upgrade : option bool) : result Encoder :=
  match (if String.eqb base "" then Ok Default
         else match EncoderByName base with Err e => Err e | Ok b => Ok (MkEncoder b (autoUpgrade || Upgrade Default)) end) with
  | Err e => Err e
  | Ok e => Ok (match upgrade with Some u => MkEncoder (Base e) u | None => e end)
  end.
Definition GetCidEncoder := getCidBase true.
Definition GetLowLevelCidEncoder := getCidBase false.

Definition CidBaseDefined (base : string) : bool := negb (String.eqb base "").

(** The component of a path that may be a CID. *)
Definition cid_component (p : string) : option string :=
  match SplitN "/" p 4 with
  | "" :: _ :: c :: _ => Some c
  | "" :: _ => None
  | c :: _ => Some c
  | [] => None
  end.

Definition CidEncoderFromPath (p : string) : outcome (result Encoder) :=
  match cid_component p with
  | None => Ret (Err ("no cid in path: " +:+ p))
  | Some maybeCid =>
      match Decode maybeCid with
      | Err _ => Ret (Err ("no cid in path: " +:+ p))
      | Ok c =>
          if Version c =? 0 then Ret (Ok Default)
          else match mbase_Decode maybeCid with
          | Err _ => Panic ("BUG: failed to get multibase decoder for CID " +:+ maybeCid)
          | Ok encoding => Ret (Ok (MkEncoder encoding true))
          end
      end
  end.
End CidCmd.

(** ** The lists *)

Record CodeAndName := MkCode { Code : Z; Name : string }.

Definition multibase_Less (rune_ToLower : Z -> Z) (a b : CodeAndName) : bool :=
  if negb (rune_ToLower (Code a) =? rune_ToLower (Code b)) then rune_ToLower (Code a) <? rune_ToLower (Code b) else Code b <? Code a.

Definition codeAndName_Less (a b : CodeAndName) : bool := Code a <? Code b.

(** [KnownCodes], with tags and names. *)
Definition codecs_Run (listSupported : bool) (encoders decoders : list Z) (Libp2pKey : Z) (KnownCodes : list (Z * string * string)) : list CodeAndName :=
  let supported := encoders ++ decoders ++ [Libp2pKey] in
  omap (fun '(code, tag, name) => if String.eqb tag "ipld" && (negb listSupported || bool_decide (code ∈ supported)) then Some (MkCode code name) else None) KnownCodes.

Definition hashes_Run (IsGoodHash : Z -> bool) (Codes : list (Z * string)) : list CodeAndName :=
  omap (fun '(code, name) => if IsGoodHash code then Some (MkCode code name) else None) Codes.

(** ** Theorems *)

Section CidTheorems.
Context `{CidLib} (Quote : string -> string).

(** The arguments an iterator delivers. *)
Definition arguments (i : argumentIterator) : list string := args i ++ match body i with Some (l, _) => TrimSpace <$> l | None => [] end.

Lemma arg_next_arguments i : match arg_next i with
  | (Some a, i') => arguments i = a :: arguments i' /\ arg_err i' = arg_err i /\ emit_fuel i = S (emit_fuel i')
  | (None, i') => arguments i = [] /\ arg_err i' = arg_err i
  end.
Proof. destruct i as [[|a l] [[[|b l'] e]|]]; cbn; split_and!; try done; cbn; f_equal; lia. Qed.

(** What is put out for the arguments [l] one after the other. *)
Fixpoint emit_list (alive : CidFormatRes -> option error) (opts : cidFormatOpts) (l : list string) (ends : option error) (out : list CidFormatRes)
    : outcome (option error * list CidFormatRes) :=
  match l with
  | [] => Ret (ends, out)
  | a :: l =>
      match format_one opts a with
      | Panic m => Panic m
      | Ret (Err e) => Ret (Some e, out)
      | Ret (Ok r) => match alive r with Some e => Ret (Some e, out) | None => emit_list alive opts l ends (out ++ [r]) end
      end
  end.

Lemma emit_loop_list alive opts fuel i out : (emit_fuel i <= fuel)%nat -> emit_loop fuel alive opts i out = emit_list alive opts (arguments i) (arg_err i) out.
Proof.
  revert i out. induction fuel as [|fuel IH]; intros i out Hf; [unfold emit_fuel in Hf; lia|]. cbn [emit_loop]. pose proof (arg_next_arguments i) as Hn.
  destruct (arg_next i) as [[a|] i'].
  - destruct Hn as (Ha & He & Hfi). rewrite Ha, <- He. cbn [emit_list]. destruct (format_one opts a) as [[r|e]|m]; cbn [obind]; [|done|done].
    destruct (alive r); [done|]. apply IH. lia.
  - destruct Hn as [Ha He]. by rewrite Ha, He.
Qed.

Lemma emitCids_list alive i opts : emitCids alive i opts = emit_list alive opts (arguments i) (arg_err i) [].
Proof. by apply emit_loop_list. Qed.

(** Converting CIDs puts out, for a client that stays and standard input that ends
    well, one result for each argument in order, an error of one argument being its
    result and no reason to stop; the loop always ends. *)
Theorem cids_answered alive i opts : (forall r, alive r = None) -> arg_err i = None ->
  (forall a, a ∈ arguments i -> exists r, format_one opts a = Ret (Ok r)) ->
  exists out, emitCids alive i opts = Ret (None, out) /\ Forall2 (fun a r => format_one opts a = Ret (Ok r) /\ CidStr r = a) (arguments i) out.
Proof.
  intros Ha He Hf. rewrite emitCids_list, He. revert Hf.
  enough (Hg : forall l out, (forall a, a ∈ l -> exists r, format_one opts a = Ret (Ok r)) ->
    exists rs, emit_list alive opts l None out = Ret (None, out ++ rs) /\ Forall2 (fun a r => format_one opts a = Ret (Ok r) /\ CidStr r = a) l rs) by (intros Hf; apply (Hg _ []), Hf).
  induction l as [|a l IH]; intros out Hf; [exists []; by rewrite app_nil_r|].
  destruct (Hf a (list_elem_of_here _ _)) as (r & Hr). destruct (IH (out ++ [r])) as (rs & Hrs & F); [intros b Hb; apply Hf; by apply list_elem_of_further|].
  exists (r :: rs). cbn [emit_list]. rewrite Hr, Ha, Hrs, <- app_assoc. split; [done|]. constructor; [|done]. split; [done|].
  clear -Hr. unfold format_one in Hr. destruct (Decode a) as [c|]; [|by simplify_eq]. destruct (match verConv opts with Some f => _ | None => _ end) as [[c'|e]|m]; cbn [obind] in Hr; [|by simplify_eq|done].
  destruct (Format _ _ _); by simplify_eq.
Qed.

Lemma format_base32 a c : Decode a = Ok c -> format_one base32_opts a = Ret (Ok (MkRes a (StringOfBase (if Base32 =? -1 then ExtractEncoding a else Base32) (NewCidV1 (Type_ c) (Hash c))) "")).
Proof.
  intros Hd. destruct (V1_fields (Type_ c) (Hash c)) as (Hv & _ & _). unfold format_one, base_of. rewrite Hd. cbn [base32_opts newCodec Z.eqb negb andb verConv toCidV1 obind fmtStr newBase].
  rewrite Hv. cbn [Z.eqb]. by rewrite Format_s.
Qed.

(** [ipfs cid base32] is a normal form: what it writes is a CID of the same codec
    and hash, CIDs that agree in these are written alike whatever their version and
    base, and it leaves what it has written as it is. *)
Theorem base32_normal_form a c : Base32 <> -1 -> Decode a = Ok c ->
  exists s, format_one base32_opts a = Ret (Ok (MkRes a s "")) /\
    (exists c', Decode s = Ok c' /\ Version c' = 1 /\ Type_ c' = Type_ c /\ Hash c' = Hash c) /\
    (forall b d, Decode b = Ok d -> Type_ d = Type_ c -> Hash d = Hash c -> format_one base32_opts b = Ret (Ok (MkRes b s ""))) /\
    format_one base32_opts s = Ret (Ok (MkRes s s "")).
Proof.
  intros Hb%Z.eqb_neq Hd. pose proof (V1_fields (Type_ c) (Hash c)) as (Hv & Ht & Hh). rewrite (format_base32 a c Hd), Hb.
  assert (Hs : Decode (StringOfBase Base32 (NewCidV1 (Type_ c) (Hash c))) = Ok (NewCidV1 (Type_ c) (Hash c))) by by apply Decode_String.
  eexists. split; [done|]. split_and!; [by eexists| |].
  - intros b d Hd' Hty Hha. by rewrite (format_base32 b d Hd'), Hb, Hty, Hha.
  - by rewrite (format_base32 _ _ Hs), Hb, Ht, Hh.
Qed.

(** Converting to version 0 a CID of codec dag-pb whose hash is none of version 0
    takes the whole command down. *)
Theorem cid_v0_panics alive i a l base c m : (forall r, alive r = None) -> arguments i = a :: l -> Decode a = Ok c -> Type_ c = DagProtobuf -> NewCidV0 (Hash c) = Panic m ->
  emitCids alive i (MkOpts "%s" base (Some toCidV0) 0) = Panic m.
Proof.
  intros Ha Hl Hd Ht Hp. rewrite emitCids_list, Hl. cbn [emit_list]. unfold format_one. rewrite Hd. cbn [newCodec Z.eqb negb andb verConv]. unfold toCidV0. rewrite Ht. cbn [Z.eqb DagProtobuf Pos.eqb negb]. by rewrite Hp.
Qed.

(** *** Encoders *)

Lemma split_on_cons s r : has_char "/" s = false -> split_on "/" (s +:+ String "/" r) = s :: split_on "/" r.
Proof. intros Hs. by rewrite split_on_app_sep, (split_on_no_sep _ _ Hs). Qed.

Lemma cid_component_forms s ns r : s <> "" -> has_char "/" s = false -> has_char "/" ns = false ->
  cid_component s = Some s /\ cid_component (s +:+ String "/" r) = Some s /\
  cid_component (String "/" (ns +:+ String "/" s)) = Some s /\ cid_component (String "/" (ns +:+ String "/" (s +:+ String "/" r))) = Some s.
Proof.
  intros Hne Hs Hn. assert (Hslash : forall t, split_on "/" (String "/" t) = "" :: split_on "/" t) by done.
  assert (Hshort : split_on "/" s = [s]) by by apply split_on_no_sep.
  unfold cid_component, SplitN. rewrite !Hslash, !split_on_cons, Hshort by done. destruct s as [|x s]; [done|].
  destruct (split_on "/" r) as [|r1 [|r2 [|r3 [|r4 l]]]]; by split_and!.
Qed.

(** An encoder is taken from a path in the same way in all its forms, and a path of
    a version 1 CID gives the encoder that writes it as it is written there; a version 0
    CID gives the default one, and the panic for an undecodable CID is never reached. *)
Theorem encoder_from_path_forms s ns r c : s <> "" -> has_char "/" s = false -> has_char "/" ns = false -> Decode s = Ok c ->
  exists e, CidEncoderFromPath s = Ret (Ok e) /\ CidEncoderFromPath (s +:+ String "/" r) = Ret (Ok e) /\
    CidEncoderFromPath (String "/" (ns +:+ String "/" s)) = Ret (Ok e) /\ CidEncoderFromPath (String "/" (ns +:+ String "/" (s +:+ String "/" r))) = Ret (Ok e) /\
    (Version c = 0 -> e = Default) /\ (forall b, Version c = 1 -> s = StringOfBase b c -> Base e = b /\ Upgrade e = true).
Proof.
  intros Hne Hs Hn Hd. destruct (cid_component_forms s ns r Hne Hs Hn) as (E1 & E2 & E3 & E4). unfold CidEncoderFromPath. rewrite E1, E2, E3, E4, Hd.
  destruct (Version_cases c) as [Hv|Hv]; rewrite Hv; cbn [Z.eqb].
  - exists Default. by split_and!.
  - destruct (Decode_V1 s c Hd Hv) as (b & Hb). rewrite Hb. eexists. split_and!; try done. intros b' _ ->. split; [|done]. cbn.
    destruct (Decode_String b' c Hv) as [_ E]. congruence.
Qed.
End CidTheorems.

Lemma multibase_Less_spec lower a b : multibase_Less lower a b = true <-> lower (Code a) < lower (Code b) \/ lower (Code a) = lower (Code b) /\ Code b < Code a.
Proof. unfold multibase_Less. destruct (Z.eqb_spec (lower (Code a)) (lower (Code b))); cbn [negb]; rewrite Z.ltb_lt; lia. Qed.

(** The order of the list of multibases is a strict total order on codes, whatever
    lower case is. *)
Theorem multibase_order_total lower :
  (forall a, multibase_Less lower a a = false) /\
  (forall a b c, multibase_Less lower a b = true -> multibase_Less lower b c = true -> multibase_Less lower a c = true) /\
  (forall a b, Code a <> Code b -> multibase_Less lower a b = true \/ multibase_Less lower b a = true).
Proof.
  split_and!.
  - intros a. apply not_true_is_false. rewrite multibase_Less_spec. lia.
  - intros a b c. rewrite !multibase_Less_spec. lia.
  - intros a b Hab. rewrite !multibase_Less_spec. lia.
Qed.

(** ** The hypotheses are met *)
Module DemoCid.

(** The one CID of version 0, and those of version 1 with a codec and a hash, which
    version 0 takes or does not.  One of version 1 is written as its base, its codec and
    its hash. *)
Inductive cid := V0 | V1 (codec : Z) (good : bool).

Fixpoint pos_text (p : positive) (rest : string) : string :=
  match p with xI p => String "1" (pos_text p rest) | xO p => String "0" (pos_text p rest) | xH => String "." rest end.
Definition Z_text (z : Z) (rest : string) : string :=
  match z with Z0 => String "z" rest | Zpos p => String "p" (pos_text p rest) | Zneg p => String "n" (pos_text p rest) end.
Fixpoint parse_pos (s : string) : option (positive * string) :=
  match s with
  | String "1" s => match parse_pos s with Some (p, r) => Some (xI p, r) | None => None end
  | String "0" s => match parse_pos s with Some (p, r) => Some (xO p, r) | None => None end
  | String "." s => Some (xH, s)
  | _ => None
  end.
Definition parse_Z (s : string) : option (Z * string) :=
  match s with
  | String "z" s => Some (0, s)
  | String "p" s => match parse_pos s with Some (p, r) => Some (Zpos p, r) | None => None end
  | String "n" s => match parse_pos s with Some (p, r) => Some (Zneg p, r) | None => None end
  | _ => None
  end.

Lemma parse_pos_text p rest : parse_pos (pos_text p rest) = Some (p, rest).
Proof. induction p as [p IH|p IH|]; cbn; [by rewrite IH..|done]. Qed.
Lemma parse_Z_text z rest : parse_Z (Z_text z rest) = Some (z, rest).
Proof. destruct z; cbn; rewrite ?parse_pos_text; done. Qed.

Definition text (b : Z) (c : cid) : string :=
  match c with V0 => "Qm" | V1 t h => Z_text b (Z_text t (if h then "g" else "b")) end.
Definition base (s : string) : result Z := match parse_Z s with Some (b, _) => Ok b | None => Err "no encoding" end.
Definition decode (s : string) : result cid :=
  if String.eqb s "Qm" then Ok V0
  else match parse_Z s with
  | Some (_, s) => match parse_Z s with
      | Some (t, h) => if String.eqb h "g" then Ok (V1 t true) else if String.eqb h "b" then Ok (V1 t false) else Err "bad hash"
      | None => Err "no codec" end
  | None => Err "no encoding"
  end.
Definition version (c : cid) : Z := match c with V0 => 0 | V1 _ _ => 1 end.

Lemma decode_text b t h : decode (text b (V1 t h)) = Ok (V1 t h).
Proof.
  unfold decode. assert (E : String.eqb (text b (V1 t h)) "Qm" = false) by (apply String.eqb_neq; by destruct b). rewrite E.
  cbn [text]. rewrite !parse_Z_text. by destruct h.
Qed.

#[local] Instance lib : CidLib.
Proof.
  refine {| Cid := cid; Mh := bool; Decode := decode; Version := version;
    Type_ c := match c with V0 => DagProtobuf | V1 t _ => t end; Hash c := match c with V0 => true | V1 _ h => h end;
    NewCidV1 := V1; NewCidV0 h := if h then Ret V0 else Panic "invalid hash for cidv0";
    Format f b c := if String.eqb f "%s" then Formatted (text b c) else FormatStringError "unrecognized specifier in format string";
    ExtractEncoding s := 58; mbase_Decode := base; EncoderByName n := if String.eqb n "base32" then Ok 98 else Err "unsupported";
    codec_Set n := Err "unknown"; StringOfBase := text; Base32 := 98; Base58BTC := 122 |}.
  - intros []; auto.
  - done.
  - by intros [].
  - by intros [] c [= <-].
  - by intros [].
  - done.
  - intros b [|t h] Hv; [done|]. split; [apply decode_text|]. unfold base. cbn [text]. by rewrite parse_Z_text.
  - intros s c Hd Hv. unfold decode, base in *. destruct (String.eqb s "Qm"); [by injection Hd as <-|]. destruct (parse_Z s) as [[b r]|]; [by exists b|done].
Defined.

Definition alive (r : CidFormatRes) : option error := None.
Definition v1 : string := text 98 (V1 112 true).
Definition typed : argumentIterator := MkArgs ["Qm"; "x"] (Some ([" Qm "], None)).

Lemma cids_answered_witness : exists out, emitCids (H := lib) alive typed base32_opts = Ret (None, out) /\ length out = 3%nat.
Proof.
  destruct (cids_answered (H := lib) alive typed base32_opts) as (out & Hout & F); [done|done| |].
  - change (arguments typed) with ["Qm"; "x"; "Qm"]. intros a Ha. rewrite !elem_of_cons in Ha. destruct Ha as [-> | [-> | [-> | Ha]]]; [by eexists..|by apply elem_of_nil in Ha].
  - exists out. split; [done|]. by apply Forall2_length in F.
Defined.

Lemma base32_normal_form_witness : exists s, format_one (H := lib) base32_opts "Qm" = Ret (Ok (MkRes "Qm" s "")) /\ format_one (H := lib) base32_opts s = Ret (Ok (MkRes s s "")).
Proof. destruct (base32_normal_form (H := lib) "Qm" V0) as (s & H1 & _ & _ & H2); [done|done|]. by exists s. Defined.

Lemma cid_v0_panics_witness : emitCids (H := lib) alive (MkArgs [text 98 (V1 112 false)] None) (MkOpts "%s" (-1) (Some toCidV0) 0) = Panic "invalid hash for cidv0".
Proof. by apply (cid_v0_panics (H := lib) alive (MkArgs [text 98 (V1 112 false)] None) (text 98 (V1 112 false)) [] (-1) (V1 112 false) "invalid hash for cidv0"). Defined.

Lemma encoder_from_path_forms_witness : exists e, CidEncoderFromPath (H := lib) (String "/" ("ipfs" +:+ String "/" v1)) = Ret (Ok e) /\ Base e = 98.
Proof.
  destruct (encoder_from_path_forms (H := lib) v1 "ipfs" "a" (V1 112 true)) as (e & _ & _ & H3 & _ & _ & Hb); [done..|].
  exists e. split; [done|]. by apply (Hb 98).
Defined.
End DemoCid.
