(* ===== verification/GetCmd.v ===== *)
(** The command [ipfs get]: [core/commands/get.go].

    The run makes a stream of the node, a tar archive or the bytes of a file, compressed
    or not; the client stores or unpacks it.  Archiving, compression and unpacking are
    the libraries'.  A stream is the bytes read and how reading ends. *)
From Stdlib Require Import ZArith Lia Ascii String.
From stdpp Require Import base strings gmap list.
From S2P Require Import Prelude GoStrings GoPath.

Local Open Scope Z_scope.

Abbreviation bytes := (list byte).
Definition stream : Type := bytes * option error.

(** ** Options *)

Definition NoCompression : Z := 0.
Definition DefaultCompression : Z := -1.
Definition ErrInvalidCompressionLevel : error := "compression level must be between 1 and 9".

Definition getCompressOptions (cmprs : bool) (cmplvl : option Z) : result Z :=
  if negb cmprs then Ok NoCompression
  else match cmplvl with
  | None => Ok DefaultCompression
  | Some l => if (l <? 1) || (9 <? l) then Err ErrInvalidCompressionLevel else Ok l
  end.

Definition getOutPath (output arg : string) : string :=
  if String.eqb output "" then Clean (path_Split (trim_right (Ascii.eqb slash) arg)).2 else output.

(** ** The stream *)

(** [level_error]: the levels [gzip.NewWriterLevel] refuses; [gzip]: what a compressor
    writes, and closing it; [tar_WriteFile]: what the tar writer writes for a node under
    a name, its error, and the end of the archive it adds when it is closed. *)
Class Archives := {
  fnode : Type;
  node_Size : fnode -> result Z;
  ToFile : fnode -> option stream;
  level_error : Z -> option error;
  gzip : Z -> bytes -> bytes;
  tar_WriteFile : fnode -> string -> stream;
  tar_end : bytes;
  (** what of the bytes written so far has left the buffers when a writer fails *)
  flushed : bytes -> bytes;
  Extract : string -> stream -> gmap string bytes -> option error * gmap string bytes;
}.

Section GetCmd.
Context `{Archives}.

(** [newMaybeGzWriter], written to and closed. *)
Definition maybe_gzip (compression : Z) (b : bytes) : bytes := if compression =? NoCompression then b else gzip compression b.

Definition piped (compression : Z) (written : stream) (closing : bytes) : stream :=
  match written with
  | (b, Some e) => (flushed (maybe_gzip compression b), Some e)
  | (b, None) => (maybe_gzip compression (b ++ closing), None)
  end.

Definition fileArchive (f : fnode) (name : string) (archive : bool) (compression : Z) : result stream :=
  let filename := (path_Split (Clean name)).2 in
  match (if compression =? NoCompression then None else level_error compression) with
  | Some e => Err e
  | None =>
      if negb archive && negb (compression =? NoCompression) then
        match ToFile f with
        | None => Err "file is not regular"
        | Some r => Ok (piped compression r [])
        end
      else Ok (piped compression (tar_WriteFile f filename) tar_end)
  end.

(** The length announced and the stream. *)
Definition get_Run (cmprs : bool) (cmplvl : option Z) (archive : bool) (path_String : string) (Get : result fnode) : result (Z * stream) :=
  match getCompressOptions cmprs cmplvl with
  | Err e => Err e
  | Ok lvl =>
      match Get with
      | Err e => Err e
      | Ok file =>
          match node_Size file with
          | Err e => Err e
          | Ok size =>
              match fileArchive file path_String archive lvl with
              | Err e => Err e
              | Ok r => Ok (u64 size, r)
              end
          end
      end
  end.

(** ** The client *)

Record getWriter := MkWriter { Archive : bool; Compression : Z }.

(** The name of the file an archive is saved in. *)
Definition archive_path (gw : getWriter) (fpath : string) : string :=
  let fpath := if Archive gw && (negb (HasSuffix fpath ".tar") && negb (HasSuffix fpath ".tar.gz")) then fpath +:+ ".tar" else fpath in
  if negb (Compression gw =? NoCompression) && negb (HasSuffix fpath ".gz") then fpath +:+ ".gz" else fpath.

(** [create]: whether a file can be created. *)
Definition writeArchive (create : string -> option error) (gw : getWriter) (r : stream) (fpath : string) (fs : gmap string bytes) : option error * gmap string bytes :=
  let fpath := archive_path gw fpath in
  match create fpath with
  | Some e => (Some e, fs)
  | None => (r.2, <[fpath := r.1]> fs)
  end.

Definition gw_Write (create : string -> option error) (gw : getWriter) (r : stream) (fpath : string) (fs : gmap string bytes) : option error * gmap string bytes :=
  if Archive gw || negb (Compression gw =? NoCompression) then writeArchive create gw r fpath fs else Extract fpath r fs.

Definition get_PostRun (create : string -> option error) (output arg : string) (cmprs : bool) (cmplvl : option Z) (archive : bool) (out : result (Z * stream))
    (fs : gmap string bytes) : option error * gmap string bytes :=
  match out with
  | Err e => (Some e, fs)
  | Ok (_, r) =>
      match getCompressOptions cmprs cmplvl with
      | Err e => (Some e, fs)
      | Ok lvl => gw_Write create (MkWriter archive lvl) r (getOutPath output arg) fs
      end
  end.
End GetCmd.

(** ** Theorems *)

(** A level of compression is accepted exactly when it is from 1 to 9 or left out,
    it is the one for no compression exactly when none was asked for, and it is always
    one that gzip takes. *)
Theorem compress_options_valid cmprs lvl :
  match getCompressOptions cmprs lvl with
  | Ok l => (l = NoCompression <-> cmprs = false) /\ -2 <= l <= 9
  | Err e => e = ErrInvalidCompressionLevel /\ cmprs = true /\ exists l, lvl = Some l /\ ~ (1 <= l <= 9)
  end.
Proof.
  unfold getCompressOptions, NoCompression, DefaultCompression. destruct cmprs; cbn [negb]; [|split; [done|lia]]. destruct lvl as [l|]; [|split; [done|lia]].
  destruct (Z.ltb_spec l 1), (Z.ltb_spec 9 l); cbn [orb]; try (split_and!; [done..|exists l; split; [done|lia]]). split; [split; [lia|done]|lia].
Qed.

Lemma trim_right_suffix_free c s : match reverse (split_on c (trim_right (Ascii.eqb c) s)) with f :: _ => has_char c f = false | [] => True end.
Proof.
  destruct (reverse _) as [|f l] eqn:E; [done|]. assert (Hin : f ∈ split_on c (trim_right (Ascii.eqb c) s)) by (apply elem_of_reverse; rewrite E; by apply list_elem_of_here).
  revert Hin. clear. generalize (trim_right (Ascii.eqb c) s). intros t. revert f. induction t as [|x t IH]; intros f; cbn [split_on]; [intros ->%list_elem_of_singleton; done|].
  destruct (Ascii.eqb x c) eqn:Hx; [intros [->|Hf]%elem_of_cons; [done|by apply IH]|].
  destruct (split_on c t) as [|p ps]; [intros ->%list_elem_of_singleton; cbn; by rewrite Hx|]. intros [->|Hf]%elem_of_cons.
  - cbn [has_char]. rewrite Hx. apply IH, list_elem_of_here.
  - apply IH. by apply list_elem_of_further.
Qed.

Lemma Clean_no_slash s : has_char slash s = false -> has_char slash (Clean s) = false.
Proof.
  intros Hs. unfold Clean, elements_of. rewrite (split_on_no_sep _ _ Hs). assert (Ha : IsAbs s = false).
  { destruct s as [|x s]; [done|]. cbn [has_char] in Hs. apply orb_false_iff in Hs as [Hx _]. exact Hx. }
  rewrite Ha, filter_cons, filter_nil. case_decide; [|done]. cbn [resolve]. by case_decide; subst.
Qed.

(** Without an output option what [get] stores goes under one name in the current
    directory: there is no slash in it, whatever the path asked for is. *)
Theorem out_path_is_local arg : has_char slash (getOutPath "" arg) = false.
Proof.
  unfold getOutPath. rewrite String.eqb_refl. apply Clean_no_slash. unfold path_Split. pose proof (trim_right_suffix_free slash arg) as Hf.
  remember (trim_right (Ascii.eqb slash) arg) as t eqn:Et. destruct (reverse (split_on slash t)) as [|f [|g d]] eqn:E; cbn [snd]; [..|done].
  - by apply (f_equal length) in E; rewrite length_reverse in E; destruct (split_on slash t) eqn:Hn; [apply split_on_nonempty in Hn|].
  - apply (f_equal reverse) in E. rewrite reverse_involutive in E. change (reverse [f]) with [f] in E. pose proof (join_split slash t) as Hj. rewrite E in Hj. cbn in Hj. by rewrite <- Hj.
Qed.

(** *** Names *)

Lemma substring_split s k : (k <= String.length s)%nat -> s = substring 0 k s +:+ substring k (String.length s - k) s.
Proof.
  revert k. induction s as [|x s IH]; intros k Hk; [by replace k with 0%nat by (cbn in Hk; lia)|]. destruct k as [|k].
  - cbn [String.length Nat.sub substring]. by rewrite substring_whole.
  - cbn [String.length Nat.sub substring]. rewrite string_app_cons. f_equal. apply IH. cbn in Hk. lia.
Qed.

Lemma HasSuffix_iff s p : HasSuffix s p = true <-> exists a, s = a +:+ p.
Proof.
  unfold HasSuffix. split.
  - intros [Hl%Nat.leb_le Hs%String.eqb_eq]%andb_true_iff. exists (substring 0 (String.length s - String.length p) s).
    pose proof (substring_split s (String.length s - String.length p) ltac:(lia)) as E.
    replace (String.length s - (String.length s - String.length p))%nat with (String.length p) in E by lia. by rewrite Hs in E.
  - intros (a & ->). rewrite string_app_length. apply andb_true_iff. split; [apply Nat.leb_le; lia|].
    replace (String.length a + String.length p - String.length p)%nat with (String.length a) by lia. rewrite substring_skip. apply String.eqb_eq. by apply substring_whole.
Qed.

Lemma HasSuffix_app a p : HasSuffix (a +:+ p) p = true.
Proof. apply HasSuffix_iff. by exists a. Qed.

(** The two adjustments of the name. *)
Definition tarred (p : string) : string := if HasSuffix p ".tar" || HasSuffix p ".tar.gz" then p else p +:+ ".tar".
Definition gzipped (p : string) : string := if HasSuffix p ".gz" then p else p +:+ ".gz".

Lemma archive_path_parts gw p : archive_path gw p =
  let q := if Archive gw then tarred p else p in if Compression gw =? NoCompression then q else gzipped q.
Proof.
  unfold archive_path, tarred, gzipped. destruct (Archive gw), (Compression gw =? NoCompression), (HasSuffix p ".tar"), (HasSuffix p ".tar.gz");
    cbn [andb orb negb]; cbv zeta; try done; by destruct (HasSuffix _ ".gz").
Qed.

Lemma gzipped_suffix p : HasSuffix (gzipped p) ".gz" = true.
Proof. unfold gzipped. destruct (HasSuffix p ".gz") eqn:E; [done|apply HasSuffix_app]. Qed.
Lemma tarred_suffix p : HasSuffix (tarred p) ".tar" || HasSuffix (tarred p) ".tar.gz" = true.
Proof. unfold tarred. destruct (HasSuffix p ".tar" || HasSuffix p ".tar.gz") eqn:E; [done|]. by rewrite HasSuffix_app. Qed.
Lemma tar_gz_suffix p : HasSuffix p ".tar" || HasSuffix p ".tar.gz" = true -> HasSuffix (gzipped p) ".tar.gz" = true.
Proof.
  intros Hp. unfold gzipped. destruct (HasSuffix p ".gz") eqn:E.
  - apply orb_true_iff in Hp as [Hp|Hp]; [|done]. apply HasSuffix_iff in Hp as (a & ->), E as (b & E).
    apply (f_equal (fun s => substring (String.length s - 1) 1 s)) in E.
    change ".tar" with (".ta" +:+ "r") in E. change ".gz" with (".g" +:+ "z") in E.
    rewrite <- !string_app_assoc, !(string_app_length _ "r"), !(string_app_length _ "z") in E. cbn [String.length] in E. rewrite !Nat.add_sub, !substring_skip in E. discriminate E.
  - apply orb_true_iff in Hp as [Hp|Hp]; apply HasSuffix_iff in Hp as (a & ->).
    + apply HasSuffix_iff. exists a. by rewrite string_app_assoc.
    + change ".tar.gz" with (".tar" +:+ ".gz") in E. by rewrite <- string_app_assoc, HasSuffix_app in E.
Qed.
Lemma tarred_id p : HasSuffix p ".tar" || HasSuffix p ".tar.gz" = true -> tarred p = p.
Proof. intros Hp. unfold tarred. by rewrite Hp. Qed.
Lemma gzipped_id p : HasSuffix p ".gz" = true -> gzipped p = p.
Proof. intros Hp. unfold gzipped. by rewrite Hp. Qed.
Lemma tarred_extends p : exists t, tarred p = p +:+ t.
Proof. unfold tarred. destruct (_ || _); [exists ""; by rewrite string_app_nil|by eexists]. Qed.
Lemma gzipped_extends p : exists t, gzipped p = p +:+ t.
Proof. unfold gzipped. destruct (HasSuffix p _); [exists ""; by rewrite string_app_nil|by eexists]. Qed.

(** The name an archive is saved under extends the one asked for; compressed it ends
    in .gz, a compressed archive in .tar.gz, and a name that already says so is kept. *)
Theorem archive_path_exact gw p : let q := archive_path gw p in
  (exists t, q = p +:+ t) /\ archive_path gw q = q /\
  (Archive gw = true -> HasSuffix q ".tar" || HasSuffix q ".tar.gz" = true) /\
  (Compression gw <> NoCompression -> HasSuffix q ".gz" = true) /\
  (Archive gw = true -> Compression gw <> NoCompression -> HasSuffix q ".tar.gz" = true).
Proof.
  cbv zeta. rewrite !archive_path_parts. cbv zeta. destruct (Z.eqb_spec (Compression gw) NoCompression) as [Hz|Hz]; destruct (Archive gw).
  - split_and!; try done; [apply tarred_extends|apply tarred_id, tarred_suffix|intros _; apply tarred_suffix].
  - split_and!; try done. exists "". by rewrite string_app_nil.
  - pose proof (tar_gz_suffix _ (tarred_suffix p)) as Hs. rewrite (tarred_id (gzipped _)) by (rewrite Hs; apply orb_true_r). split_and!.
    + destruct (gzipped_extends (tarred p)) as (t & ->), (tarred_extends p) as (u & ->). eexists. apply string_app_assoc.
    + apply gzipped_id, gzipped_suffix.
    + intros _. rewrite Hs. apply orb_true_r.
    + intros _. apply gzipped_suffix.
    + done.
  - split_and!; try done; [apply gzipped_extends|apply gzipped_id, gzipped_suffix|intros _; apply gzipped_suffix].
Qed.

(** *** What is saved *)

Section GetTheorems.
Context `{Archives}.
Variable gunzip : bytes -> bytes.
Hypothesis gunzip_gzip : forall l b, gunzip (gzip l b) = b.

(** When the client ends without an error, the one file it wrote holds, after
    decompression if any was asked for, the whole archive of the node with its end, or
    without [--archive] the whole file. *)
Theorem get_saves create cmprs lvl archive name f n r output arg fs fs' :
  get_Run cmprs lvl archive name (Ok f) = Ok (n, r) ->
  get_PostRun create output arg cmprs lvl archive (Ok (n, r)) fs = (None, fs') -> archive || cmprs = true ->
  exists data l, getCompressOptions cmprs lvl = Ok l /\
    fs' = <[archive_path (MkWriter archive l) (getOutPath output arg) := data]> fs /\
    let plain := if cmprs then gunzip data else data in
    if archive then exists b, tar_WriteFile f (path_Split (Clean name)).2 = (b, None) /\ plain = b ++ tar_end
    else ToFile f = Some (plain, None).
Proof.
  unfold get_Run, get_PostRun. pose proof (compress_options_valid cmprs lvl) as Hc. destruct (getCompressOptions cmprs lvl) as [l|e]; [|done]. destruct Hc as [Hl _].
  destruct (node_Size f) as [size|e]; [|done]. destruct (fileArchive f name archive l) as [r'|e] eqn:E; [|done]. intros [= _ ->] Hw Hac.
  assert (Hz : (l =? NoCompression) = negb cmprs) by (destruct (Z.eqb_spec l NoCompression) as [->|Hne], cmprs; [discriminate (proj1 Hl eq_refl)|done|done|by destruct (Hne (proj2 Hl eq_refl))]).
  unfold gw_Write in Hw. cbn [Archive Compression] in Hw. rewrite Hz, negb_involutive, Hac in Hw. unfold writeArchive in Hw. destruct (create _); [done|]. injection Hw as Hr <-.
  exists r.1, l. split_and!; [done|done|]. unfold fileArchive in E. rewrite Hz, negb_involutive in E. destruct (if negb cmprs then _ else _); [done|].
  assert (Hp : forall w closing, Ok (piped l w closing) = Ok r -> exists b, w = (b, None) /\ (if cmprs then gunzip r.1 else r.1) = b ++ closing).
  { intros [b [e|]] closing [= <-]; [done|]. exists b. split; [done|]. cbn. unfold maybe_gzip. rewrite Hz. by destruct cmprs; cbn [negb]; rewrite ?gunzip_gzip. }
  destruct archive; cbn [negb andb orb] in *; [by apply Hp|]. subst cmprs. destruct (ToFile f) as [w|]; [|done]. apply Hp in E as (b & -> & ->). by rewrite app_nil_r.
Qed.

(** An archive asked for without compression under a name that ends in .tar.gz is
    saved there as it is. *)
Theorem tar_saved_as_gz create lvl name f n r output arg fs : output <> "" -> HasSuffix output ".tar.gz" = true -> create output = None ->
  get_Run false lvl true name (Ok f) = Ok (n, r) -> r.2 = None ->
  exists b, tar_WriteFile f (path_Split (Clean name)).2 = (b, None) /\
    get_PostRun create output arg false lvl true (Ok (n, r)) fs = (None, <[output := b ++ tar_end]> fs).
Proof.
  intros Ho%String.eqb_neq Hs Hc Hr Hnone. unfold get_Run in Hr. cbn in Hr. destruct (node_Size f); [|done]. injection Hr as _ <-.
  unfold piped in *. destruct (tar_WriteFile _ _) as [b [e|]] eqn:E; [done|]. exists b. split; [done|].
  unfold get_PostRun, gw_Write, writeArchive, archive_path, getOutPath. rewrite Ho. cbn [negb getCompressOptions Archive Compression orb andb]. rewrite Hs, andb_false_r. cbn. by rewrite Hc.
Qed.
End GetTheorems.

(** ** The hypotheses are met *)
Module DemoGet.
#[local] Instance archives : Archives := {|
  fnode := bytes; node_Size f := Ok (Z.of_nat (length f)); ToFile f := Some (f, None); level_error l := if 9 <? l then Some "gzip: invalid compression level" else None;
  gzip l b := Byte.x1f :: b; tar_WriteFile f name := (Byte.x74 :: f, None); tar_end := [Byte.x00]; flushed b := [];
  Extract p s fs := (s.2, <[p := s.1]> fs) |}.
Definition gunzip (b : bytes) : bytes := tail b.
Definition create (p : string) : option error := None.

Lemma gunzip_law (l : Z) (b : bytes) : gunzip (gzip (Archives := archives) l b) = b.
Proof. done. Qed.

Lemma get_saves_witness : exists data, (get_PostRun create "" "/ipfs/Qm/a/" true None true (get_Run true None true "/ipfs/Qm/a" (Ok [Byte.x61])) ∅).2 = {["a.tar.gz" := data]} /\
  gunzip data = [Byte.x74; Byte.x61; Byte.x00].
Proof.
  destruct (get_saves (H := archives) gunzip gunzip_law create true None true "/ipfs/Qm/a" [Byte.x61] _ _ "" "/ipfs/Qm/a/" ∅ _ eq_refl eq_refl eq_refl) as (data & l & Hl & Hfs & b & Hb & Hp).
  injection Hl as <-. injection Hb as <-. exists data. split; [exact Hfs|exact Hp].
Defined.

Lemma tar_saved_as_gz_witness : (get_PostRun create "a.tar.gz" "Qm" false None true (get_Run false None true "Qm" (Ok [Byte.x61])) ∅).2 = {["a.tar.gz" := [Byte.x74; Byte.x61; Byte.x00]]}.
Proof.
  destruct (tar_saved_as_gz (H := archives) create None "Qm" [Byte.x61] _ _ "a.tar.gz" "Qm" ∅ ltac:(discriminate) eq_refl eq_refl eq_refl eq_refl) as (b & Hb & E).
  injection Hb as <-. exact (f_equal snd E).
Defined.
End DemoGet.
