(* ===== verification/RoutingCmd.v ===== *)
(** The commands [ipfs routing]: [core/commands/routing.go].

    A query runs in a goroutine that publishes events and ends by cancelling its
    context; the command puts the events out until their channel is closed and then
    returns the variable the goroutine has set.  [query_step] are the interleavings of
    the two with the goroutine of the library that closes the channel and with the end
    of the request.  Routing, CIDs, peers and base64 are parameters. *)
From Stdlib Require Import ZArith Lia Ascii String.
From stdpp Require Import base strings gmap list relations.
From S2P Require Import Prelude GoStrings GoPath.

Local Open Scope Z_scope.
Local Open Scope go_scope.

Abbreviation peer := string.
Abbreviation cid := string.

(** ** Events *)

Definition SendingQuery : Z := 0.
Definition PeerResponse : Z := 1.
Definition FinalPeer : Z := 2.
Definition QueryError : Z := 3.
Definition Provider : Z := 4.
Definition Value : Z := 5.
Definition AddingPeer : Z := 6.
Definition DialingPeer : Z := 7.

Record AddrInfo := MkInfo { ai_ID : peer; ai_Addrs : list string }.
Record QueryEvent := MkEv { ev_ID : peer; ev_Type : Z; Responses : list AddrInfo; Extra : string }.

Definition error_event (e : error) : QueryEvent := MkEv "" QueryError [] e.
Definition response (type : Z) (p : AddrInfo) : QueryEvent := MkEv "" type [p] "".

(** ** A query *)

(** What the goroutine of a query does before it cancels its context. *)
Inductive gop := Publish (e : QueryEvent) | SetErr (r : option error).

(** [QueryEventBufferSize] *)
Definition buffer_size : nat := 16.

Record query := MkQuery {
  prog : list gop;           (** what the goroutine still does *)
  finished : bool;           (** it has cancelled the context *)
  ctx_done : bool;
  events : list QueryEvent;  (** in the channel *)
  closed : bool;
  err_var : option error;    (** [findPeerErr] and the like *)
  emitted : list QueryEvent;
  returned : option (option error);
}.

Definition query_start (p : list gop) : query := MkQuery p false false [] false None [] None.

(** The steps while the request goes on. *)
Inductive query_step (alive : QueryEvent -> option error) : query -> query -> Prop :=
| StPublish e p f c evs v out r : (length evs < buffer_size)%nat ->
    query_step alive (MkQuery (Publish e :: p) f c evs false v out r) (MkQuery p f c (evs ++ [e]) false v out r)
| StDrop e p f evs cl v out r : (* the context is over: the event is lost *)
    query_step alive (MkQuery (Publish e :: p) f true evs cl v out r) (MkQuery p f true evs cl v out r)
| StSetErr o p f c evs cl v out r : query_step alive (MkQuery (SetErr o :: p) f c evs cl v out r) (MkQuery p f c evs cl o out r)
| StCancel c evs cl v out r : query_step alive (MkQuery [] false c evs cl v out r) (MkQuery [] true true evs cl v out r)
| StClose p f evs v out r : query_step alive (MkQuery p f true evs false v out r) (MkQuery p f true evs true v out r)
| StEmit e p f c evs cl v out : alive e = None -> query_step alive (MkQuery p f c (e :: evs) cl v out None) (MkQuery p f c evs cl v (out ++ [e]) None)
| StEmitErr e err p f c evs cl v out : alive e = Some err -> query_step alive (MkQuery p f c (e :: evs) cl v out None) (MkQuery p f c evs cl v out (Some (Some err)))
| StReturn p f c v out : query_step alive (MkQuery p f c [] true v out None) (MkQuery p f c [] true v out (Some v)).

(** The request may be over at any time. *)
Inductive request_step (alive : QueryEvent -> option error) : query -> query -> Prop :=
| RStep s s' : query_step alive s s' -> request_step alive s s'
| RCancel p f c evs cl v out r : request_step alive (MkQuery p f c evs cl v out r) (MkQuery p f true evs cl v out r).

(** What a program publishes, and the error it ends with. *)
Fixpoint published_by (p : list gop) : list QueryEvent :=
  match p with [] => [] | Publish e :: p => e :: published_by p | SetErr _ :: p => published_by p end.
Fixpoint error_of (p : list gop) (v : option error) : option error :=
  match p with [] => v | Publish _ :: p => error_of p v | SetErr o :: p => error_of p o end.

(** ** The commands *)

Definition ErrNotOnline : error := "this command must be run in online mode. Try running 'ipfs daemon' first".

(** A call of the routing system: the events it publishes and its answer. *)
Definition call (A : Type) : Type := list QueryEvent * result A.
Definition publish (l : list QueryEvent) : list gop := Publish <$> l.

Class Routing := {
  cid_Decode : string -> result cid;
  peer_Decode : string -> result peer;
  Pretty : peer -> string;
  (** its own events and the providers found, in the order in which they come *)
  FindProvidersAsync : cid -> Z -> list (QueryEvent + AddrInfo);
  FindPeer : peer -> call AddrInfo;
  GetValue : string -> call string;
  PutValue : string -> string -> call ();
  Provide : cid -> call ();
  Has : cid -> result bool;
  (** [dag.Walk] from a CID: the set it visited, as [Keys] lists it, and its error *)
  Walk : cid -> list cid * option error;
  base64 : string -> string;
  unbase64 : string -> result string;
}.

Section RoutingCmd.
Context `{Routing}.

Definition findprovs (IsOnline : bool) (numProviders : Z) (arg : string) : result (list gop) :=
  if negb IsOnline then Err ErrNotOnline
  else if numProviders <? 1 then Err "number of providers must be greater than 0"
  else match cid_Decode arg with
  | Err e => Err e
  | Ok c => Ok (publish ((fun x => match x with inl e => e | inr p => response Provider p end) <$> FindProvidersAsync c numProviders))
  end.

(** *** [provide] *)

(** The events of providing the CIDs, the CIDs for which it was tried, and the error
    that ended it. *)
Fixpoint provideKeys (cids : list cid) : list QueryEvent * list cid * option error :=
  match cids with
  | [] => ([], [], None)
  | c :: cids =>
      match Provide c with
      | (evs, Err e) => (evs, [c], Some e)
      | (evs, Ok _) => let '(evs', done, r) := provideKeys cids in (evs ++ evs', c :: done, r)
      end
  end.

(** The inner loop, over the keys below one CID: [provided] afterwards. *)
Fixpoint provide_new (ks : list cid) (provided : gset cid) : list QueryEvent * list cid * result (gset cid) :=
  match ks with
  | [] => ([], [], Ok provided)
  | k :: ks =>
      if bool_decide (k ∈ provided) then provide_new ks provided
      else match Provide k with
      | (evs, Err e) => (evs, [k], Err e)
      | (evs, Ok _) => let '(evs', done, r) := provide_new ks ({[k]} ∪ provided) in (evs ++ evs', k :: done, r)
      end
  end.

Fixpoint provide_all (cids : list cid) (provided : gset cid) : list QueryEvent * list cid * option error :=
  match cids with
  | [] => ([], [], None)
  | c :: cids =>
      match Walk c with
      | (_, Some e) => ([], [], Some e)
      | (ks, None) =>
          match provide_new ks provided with
          | (evs, done, Err e) => (evs, done, Some e)
          | (evs, done, Ok provided) => let '(evs', done', r) := provide_all cids provided in (evs ++ evs', done ++ done', r)
          end
      end
  end.
Definition provideKeysRec (cids : list cid) := provide_all cids ∅.

(** Parsing the arguments: the CIDs must all be here. *)
Fixpoint provide_args (cid_String : cid -> string) (args : list string) : result (list cid) :=
  match args with
  | [] => Ok []
  | a :: args =>
      match cid_Decode a with
      | Err e => Err e
      | Ok c =>
          match Has c with
          | Err e => Err e
          | Ok false => Err ("block " +:+ cid_String c +:+ " not found locally, cannot provide")
          | Ok true => match provide_args cid_String args with Err e => Err e | Ok cs => Ok (c :: cs) end
          end
      end
  end.

(** What a goroutine does with the answer of a call: the variable, and the event. *)
Definition answer {A} (c : call A) (ok : A -> list QueryEvent) : list gop :=
  publish c.1 ++ match c.2 with
  | Err e => [SetErr (Some e); Publish (error_event e)]
  | Ok a => SetErr None :: publish (ok a)
  end.

Definition provide (IsOnline : bool) (conns : nat) (body : option error) (rec : bool) (cid_String : cid -> string) (args : list string) : result (list gop) :=
  if negb IsOnline then Err ErrNotOnline
  else if (conns =? 0)%nat then Err "cannot provide, no connected peers"
  else match body with
  | Some e => Err e
  | None =>
      match provide_args cid_String args with
      | Err e => Err e
      | Ok cids =>
          let '(evs, _, r) := if rec then provideKeysRec cids else provideKeys cids in
          Ok (answer (evs, match r with Some e => Err e | None => Ok tt end) (fun _ => []))
      end
  end.

Definition findpeer (IsOnline : bool) (arg : string) : result (list gop) :=
  if negb IsOnline then Err ErrNotOnline
  else match peer_Decode arg with
  | Err e => Err e
  | Ok pid => Ok (answer (FindPeer pid) (fun pi => [response FinalPeer pi]))
  end.

(** [path.Join] of the go-path library puts a slash between the parts. *)
Definition escapeDhtKey (s : string) : result string :=
  match split_on "/" s with
  | [a; b; c] =>
      if negb (String.eqb a "") || negb (String.eqb b "ipns" || String.eqb b "pk") then Err "invalid key"
      else match peer_Decode c with Err e => Err e | Ok k => Ok (join_with "/" [a; b; k]) end
  | _ => Err "invalid key"
  end.

Definition get_value (IsOnline : bool) (arg : string) : result (list gop) :=
  if negb IsOnline then Err ErrNotOnline
  else match escapeDhtKey arg with
  | Err e => Err e
  | Ok dhtkey => Ok (answer (GetValue dhtkey) (fun val => [MkEv "" Value [] (base64 val)]))
  end.

Definition put_value (IsOnline : bool) (arg : string) (file : result string) : result (list gop) :=
  if negb IsOnline then Err ErrNotOnline
  else match escapeDhtKey arg with
  | Err e => Err e
  | Ok key => match file with Err e => Err e | Ok data => Ok (answer (PutValue key data) (fun _ => [])) end
  end.

(** ** Text *)

Definition printFunc : Type := QueryEvent -> bool -> outcome (string * option error).
Definition nl : string := String (ascii_of_nat 10) "".
Definition tab : string := String (ascii_of_nat 9) "".
Definition printed (s : string) : outcome (string * option error) := Ret (s, None).
(** Printed only when verbose. *)
Definition when_verbose (f : QueryEvent -> string) : printFunc := fun obj verbose => printed (if verbose then f obj else "").

Definition default_print : printFunc := fun obj verbose =>
  let t := ev_Type obj in
  if t =? SendingQuery then when_verbose (fun o => "* querying " +:+ ev_ID o +:+ nl) obj verbose
  else if t =? Value then printed (if verbose then "got value: '" +:+ Extra obj +:+ "'" +:+ nl else Extra obj)
  else if t =? PeerResponse then when_verbose (fun o => "* " +:+ ev_ID o +:+ " says use " +:+ String.concat "" ((fun p => ai_ID p +:+ " ") <$> Responses o) +:+ nl) obj verbose
  else if t =? QueryError then when_verbose (fun o => "error: " +:+ Extra o +:+ nl) obj verbose
  else if t =? DialingPeer then when_verbose (fun o => "dialing peer: " +:+ ev_ID o +:+ nl) obj verbose
  else if t =? AddingPeer then when_verbose (fun o => "adding peer to query: " +:+ ev_ID o +:+ nl) obj verbose
  else if t =? FinalPeer then printed ""
  else when_verbose (fun o => "unrecognized event type: " +:+ FormatInt (ev_Type o) +:+ nl) obj verbose.

(** [now] is the time, formatted. *)
Definition printEvent (now : string) (verbose : bool) (override : list (Z * printFunc)) (obj : QueryEvent) : outcome (string * option error) :=
  let prefix := if verbose then now +:+ ": " else "" in
  let! r := (match list_find (fun kf => kf.1 = ev_Type obj) override with
             | Some (_, (_, pf)) => pf obj verbose
             | None => default_print obj verbose
             end) in
  Ret (prefix +:+ r.1, r.2).

Definition first_response (obj : QueryEvent) : outcome AddrInfo :=
  match Responses obj with p :: _ => Ret p | [] => Panic "index out of range" end.

Definition print_closest : printFunc := when_verbose (fun o => "* closest peer " +:+ ev_ID o +:+ nl).
Definition print_provider : printFunc := fun obj verbose =>
  let! prov := first_response obj in
  printed ((if verbose then "provider: " else "") +:+ Pretty (ai_ID prov) +:+ nl +:+
           (if verbose then String.concat "" ((fun a => tab +:+ a +:+ nl) <$> ai_Addrs prov) else "")).
Definition findprovs_print : list (Z * printFunc) := [(FinalPeer, print_closest); (Provider, print_provider)].
Definition provide_print : list (Z * printFunc) := [(FinalPeer, when_verbose (fun o => "sending provider record to peer " +:+ ev_ID o +:+ nl))].
Definition print_addrs : printFunc := fun obj _ => let! pi := first_response obj in printed (String.concat "" ((fun a => a +:+ nl) <$> ai_Addrs pi)).
Definition findpeer_print : list (Z * printFunc) := [(FinalPeer, print_addrs)].
Definition print_value : printFunc := fun obj verbose =>
  if verbose then printed ("got value: '" +:+ Extra obj +:+ "'" +:+ nl)
  else match unbase64 (Extra obj) with Err e => Ret ("", Some e) | Ok res => printed res end.
Definition getvalue_print : list (Z * printFunc) := [(Value, print_value)].
Definition print_put : printFunc := fun obj _ => printed (Pretty (ev_ID obj) +:+ nl).
Definition putvalue_print : list (Z * printFunc) := [(FinalPeer, print_closest); (Value, print_put)].
End RoutingCmd.

(** ** A query ends with its answer *)

Section Query.
Context (alive : QueryEvent -> option error).
Abbreviation steps := (rtc (query_step alive)).

(** What holds of a query of the program [p0] while the request goes on. *)
Record query_inv (p0 : list gop) (s : query) : Prop := {
  qi_error : error_of (prog s) (err_var s) = error_of p0 None;
  qi_closed : closed s = true -> ctx_done s = true;
  qi_finished : finished s = ctx_done s;
  qi_prog : finished s = true -> prog s = [];
  qi_events : (forall e, alive e = None) -> emitted s ++ events s ++ published_by (prog s) = published_by p0;
  qi_returned r : (forall e, alive e = None) -> returned s = Some r -> closed s = true /\ events s = [] /\ r = err_var s;
}.

Lemma query_inv_start p : query_inv p (query_start p).
Proof. by split. Qed.

Lemma query_inv_step p s s' : query_inv p s -> query_step alive s s' -> query_inv p s'.
Proof.
  intros [He Hc Hf Hp Hv Hr] Hstep. destruct Hstep; cbn in *; subst; try (specialize (Hp eq_refl); discriminate Hp).
  - split; cbn; try done; [by intros Hf%Hp| |].
    + intros Ha. rewrite <- (Hv Ha). cbn. by rewrite <- !app_assoc.
    + intros r' Ha Hret. by destruct (Hr r' Ha Hret).
  - split; cbn; try done; [by intros Hf%Hp|]. intros r' Ha Hret. destruct (Hr r' Ha Hret) as (Hcl & _ & _). by specialize (Hp (Hc Hcl)).
  - by split.
  - split; cbn; try done. intros r' Ha Hret. by destruct (Hr r' Ha Hret).
  - split; cbn; try done. intros Ha. rewrite <- (Hv Ha). by rewrite <- !app_assoc.
  - split; cbn; try done; intros; by match goal with E : alive _ = Some _, Ha : forall e, alive e = None |- _ => rewrite Ha in E end.
  - split; cbn; try done. by intros r' _ [= <-].
Qed.

Lemma query_inv_steps p s : steps (query_start p) s -> query_inv p s.
Proof. intros Hs. revert s Hs. apply rtc_ind_r; [apply query_inv_start|]. intros s s' _ Hs Hi. by eapply query_inv_step. Qed.

Definition query_measure (s : query) : nat :=
  3 * length (prog s) + 2 * length (events s) + (if finished s then 0 else 3) + (if closed s then 0 else 1) + (match returned s with Some _ => 0 | None => 1 end).

Lemma query_measure_step s s' : query_step alive s s' -> (query_measure s' < query_measure s)%nat.
Proof. destruct 1; unfold query_measure; cbn [prog events finished closed returned length]; rewrite ?length_app; cbn [length]; lia. Qed.

(** A query ends: whatever the interleaving with the goroutine and with the closing
    of the channel, it makes finitely many steps, there is always one until the command
    has returned, and it returns the error of the lookup after putting out exactly the
    events published, in their order, if the client stays. *)
Theorem query_answers p s : steps (query_start p) s ->
  (returned s = None -> exists s', query_step alive s s') /\
  (forall s', query_step alive s s' -> (query_measure s' < query_measure s)%nat) /\
  (forall r, (forall e, alive e = None) -> returned s = Some r -> r = error_of p None /\ emitted s = published_by p).
Proof.
  intros Hs. destruct (query_inv_steps p s Hs) as [He Hc Hf Hp Hv Hr]. split_and!.
  - intros Hn. destruct s as [pr f c evs cl v out r]. cbn in *. subst r f. destruct evs as [|e evs].
    + destruct cl; [eexists; apply StReturn|]. destruct c; [eexists; apply StClose|].
      destruct pr as [|[e|o] pr]; [eexists; apply StCancel|eexists; apply StPublish; unfold buffer_size; cbn; lia|eexists; apply StSetErr].
    + destruct (alive e) eqn:Ea; eexists; [by eapply StEmitErr|by apply StEmit].
  - apply query_measure_step.
  - intros r Ha Hret. destruct (Hr r Ha Hret) as (Hcl & Hev & ->). specialize (Hp (eq_trans Hf (Hc Hcl))). specialize (Hv Ha). rewrite Hp, Hev in *. cbn in *.
    by rewrite app_nil_r in Hv.
Qed.
End Query.

(** When the request ends (a timeout) before the goroutine has set its variable, the
    channel is closed and the command can return without an error although the lookup
    fails. *)
Theorem ended_request_succeeds alive p e : error_of p None = Some e ->
  exists s, rtc (request_step alive) (query_start p) s /\ returned s = Some None /\ emitted s = [].
Proof.
  intros _. eexists. split; [|split].
  - eapply rtc_l; [apply RCancel|]. eapply rtc_l; [apply RStep, StClose|]. eapply rtc_l; [apply RStep, StReturn|]. apply rtc_refl.
  - done.
  - done.
Qed.

(** ** What the commands query *)

Section RoutingTheorems.
Context `{Routing}.

Lemma published_by_app p q : published_by (p ++ q) = published_by p ++ published_by q.
Proof. induction p as [|[e|o] p IH]; cbn; [done|by rewrite IH|done]. Qed.
Lemma published_by_publish l : published_by (publish l) = l.
Proof. induction l as [|e l IH]; [done|]. exact (f_equal (cons e) IH). Qed.
Lemma error_of_app p q v : error_of (p ++ q) v = error_of q (error_of p v).
Proof. revert v. induction p as [|[e|o] p IH]; intros v; cbn; [done|apply IH..]. Qed.
Lemma error_of_publish l v : error_of (publish l) v = v.
Proof. induction l as [|e l IH]; [done|]. exact IH. Qed.

Lemma answer_published {A} (c : call A) ok : published_by (answer c ok) = c.1 ++ match c.2 with Err e => [error_event e] | Ok a => ok a end.
Proof. unfold answer. rewrite published_by_app, published_by_publish. destruct c.2 as [a|e]; [by rewrite <- (published_by_publish (ok a)) at 2|done]. Qed.
Lemma answer_error {A} (c : call A) ok : error_of (answer c ok) None = match c.2 with Err e => Some e | Ok _ => None end.
Proof. unfold answer. rewrite error_of_app, error_of_publish. destruct c.2 as [a|e]; [exact (error_of_publish _ _)|done]. Qed.

(** Looking a peer up reports the failure of the lookup, both as the error of the
    command and as its last event, and otherwise ends with the peer found. *)
Theorem findpeer_exact alive arg p s r : findpeer true arg = Ok p -> rtc (query_step alive) (query_start p) s -> (forall e, alive e = None) -> returned s = Some r ->
  exists pid, peer_Decode arg = Ok pid /\
    match (FindPeer pid).2 with
    | Ok pi => r = None /\ emitted s = (FindPeer pid).1 ++ [response FinalPeer pi]
    | Err e => r = Some e /\ emitted s = (FindPeer pid).1 ++ [error_event e]
    end.
Proof.
  unfold findpeer. cbn [negb]. destruct (peer_Decode arg) as [pid|e]; [|done]. intros [= <-] Hs Ha Hr. exists pid. split; [done|].
  destruct (query_answers alive _ s Hs) as (_ & _ & Hq). destruct (Hq r Ha Hr) as [-> ->]. rewrite answer_error, answer_published. by destruct (FindPeer pid).2.
Qed.

(** *** Providing *)

Lemma provide_new_ok ks provided evs done provided' : provide_new ks provided = (evs, done, Ok provided') ->
  NoDup done /\ (forall k, k ∈ done <-> k ∈ ks /\ k ∉ provided) /\ provided' = (provided ∪ list_to_set ks).
Proof.
  revert provided evs done. induction ks as [|k ks IH]; intros provided evs done; cbn [provide_new].
  - intros [= <- <- <-]. split_and!; [constructor|set_solver|set_solver].
  - case_bool_decide as Hk.
    + intros (Hn & Hd & ->)%IH. split_and!; [done|set_solver|set_solver].
    + destruct (Provide k) as [ev [[]|e]]; [|done]. destruct (provide_new ks _) as [[evs' d] r'] eqn:E. intros [= <- <- ->].
      apply IH in E as (Hn & Hd & ->). split_and!; [constructor; [rewrite Hd; set_solver|done]| |set_solver].
      intros k'. rewrite elem_of_cons, Hd. destruct (decide (k' = k)) as [->|]; set_solver.
Qed.

Lemma provide_all_ok cids provided evs done : provide_all cids provided = (evs, done, None) ->
  NoDup done /\ (forall k, k ∈ done <-> (k ∉ provided) /\ exists c ks, c ∈ cids /\ Walk c = (ks, None) /\ k ∈ ks).
Proof.
  revert provided evs done. induction cids as [|c cids IH]; intros provided evs done; cbn [provide_all].
  - intros [= <- <-]. split; [constructor|]. intros k. split; [by intros ?%elem_of_nil|]. by intros (_ & ? & ? & ?%elem_of_nil & _).
  - destruct (Walk c) as [ks [e|]] eqn:Ew; [done|]. destruct (provide_new ks provided) as [[evs1 d1] [prov|e]] eqn:En; [|done].
    destruct (provide_all cids prov) as [[evs2 d2] r2] eqn:Ea. intros [= <- <- ->]. apply provide_new_ok in En as (Hn1 & Hd1 & ->). apply IH in Ea as (Hn2 & Hd2). split.
    + apply NoDup_app. split_and!; [done| |done]. intros k Hk Hk2. apply Hd1 in Hk as [Hk _]. apply Hd2 in Hk2 as [Hk2 _]. apply Hk2, elem_of_union_r. by apply elem_of_list_to_set.
    + intros k. rewrite elem_of_app, Hd1, Hd2, elem_of_union, elem_of_list_to_set. split.
      * intros [[Hk Hp]|(Hp & c' & ks' & Hc' & Hw & Hk)]; (split; [tauto|]); [exists c, ks|exists c', ks']; rewrite elem_of_cons; auto.
      * intros (Hp & c' & ks' & Hc' & Hw & Hk). destruct (decide (k ∈ ks)) as [Hks|Hks]; [by left|]. right. split; [tauto|].
        apply elem_of_cons in Hc' as [->|Hc']; [by replace ks' with ks in Hk by congruence|]. by exists c', ks'.
Qed.

Lemma provide_args_ok str args cs : provide_args str args = Ok cs -> Forall2 (fun a c => cid_Decode a = Ok c /\ Has c = Ok true) args cs.
Proof.
  revert cs. induction args as [|a args IH]; intros cs; cbn [provide_args]; [intros [= <-]; constructor|].
  destruct (cid_Decode a) as [c|e] eqn:Ec; [|done]. destruct (Has c) as [[]|e] eqn:Eh; [|done..]. destruct (provide_args str args) as [cs'|e]; [|done].
  intros [= <-]. constructor; [done|by apply IH].
Qed.

(** A recursive provide that succeeds has provided every CID at or below one of the
    arguments exactly once, and nothing else; the arguments were all in the node's
    store. *)
Theorem provide_rec_exact alive conns str args p s : provide true conns None true str args = Ok p ->
  rtc (query_step alive) (query_start p) s -> (forall e, alive e = None) -> returned s = Some None ->
  exists cids evs done, Forall2 (fun a c => cid_Decode a = Ok c /\ Has c = Ok true) args cids /\
    provideKeysRec cids = (evs, done, None) /\ emitted s = evs /\ NoDup done /\
    (forall k, k ∈ done <-> exists c ks, c ∈ cids /\ Walk c = (ks, None) /\ k ∈ ks).
Proof.
  unfold provide. cbn [negb]. destruct (conns =? 0)%nat; [done|]. destruct (provide_args str args) as [cids|e] eqn:Ea; [|done].
  destruct (provideKeysRec cids) as [[evs done] r] eqn:Ep. intros [= <-] Hs Ha Hr. destruct (query_answers alive _ s Hs) as (_ & _ & Hq).
  destruct (Hq None Ha Hr) as [He Hem]. rewrite answer_error in He. rewrite answer_published in Hem. destruct r as [e|]; [done|]. cbn in Hem. rewrite app_nil_r in Hem.
  exists cids, evs, done. destruct (provide_all_ok _ _ _ _ Ep) as [Hn Hd]. split_and!; try done; [by eapply provide_args_ok|].
  intros k. rewrite Hd. split; [by intros [_ ?]|]. intros Hk. split; [set_solver|done].
Qed.

(** *** Keys *)

(** A key of the routing system is one of the two namespaces with a peer; exactly
    these are accepted, and the peer is put in as its bytes. *)
Theorem escape_key_exact s k : escapeDhtKey s = Ok k <->
  exists ns id pid, (ns = "ipns" \/ ns = "pk") /\ split_on "/" id = [id] /\ s = join_with "/" [""; ns; id] /\ peer_Decode id = Ok pid /\ k = join_with "/" [""; ns; pid].
Proof.
  unfold escapeDhtKey. pose proof (join_split "/" s) as Hj. split.
  - destruct (split_on "/" s) as [|a [|b [|c [|? ?]]]] eqn:E; try done. destruct (String.eqb_spec a "") as [->|]; [|done]. cbn [negb orb].
    destruct (String.eqb b "ipns" || String.eqb b "pk") eqn:Eb; [|done]. cbn [negb]. destruct (peer_Decode c) as [pid|e] eqn:Ep; [|done]. intros [= <-].
    exists b, c, pid. split_and!; try done.
    + apply orb_true_iff in Eb as [?%String.eqb_eq|?%String.eqb_eq]; auto.
    + pose proof (split_on_pieces "/" s) as F. rewrite E in F. by apply (Forall_forall _ _) with (x := c) in F; [|set_solver].
  - intros (ns & id & pid & Hns & Hid & -> & Hp & ->). assert (E : split_on "/" (join_with "/" [""; ns; id]) = [""; ns; id]).
    { destruct Hns as [-> | ->].
      - change (join_with "/" [""; "ipns"; id]) with ("/ipns" +:+ String "/" id). by rewrite split_on_app_sep, Hid.
      - change (join_with "/" [""; "pk"; id]) with ("/pk" +:+ String "/" id). by rewrite split_on_app_sep, Hid. }
    rewrite E, String.eqb_refl, Hp. by destruct Hns as [-> | ->].
Qed.

(** *** Text *)

(** What is printed for events, one after the other, by a printer that does not fail. *)
Fixpoint printed_all (f : QueryEvent -> outcome (string * option error)) (l : list QueryEvent) : option string :=
  match l with
  | [] => Some ""
  | e :: l => match f e with Ret (s, None) => match printed_all f l with Some t => Some (s +:+ t) | None => None end | _ => None end
  end.

(** Without -v the text of the providers found is one line for each, whatever events
    the routing system publishes in between that are not values or providers. *)
Theorem findprovs_text now c n : (forall e, inl e ∈ FindProvidersAsync c n -> ev_Type e <> Value /\ ev_Type e <> Provider) ->
  printed_all (printEvent now false findprovs_print) ((fun x => match x with inl e => e | inr p => response Provider p end) <$> FindProvidersAsync c n)
  = Some (foldr String.append "" (omap (fun x => match x with inr p => Some (Pretty (ai_ID p) +:+ nl) | inl _ => None end) (FindProvidersAsync c n))).
Proof.
  generalize (FindProvidersAsync c n). induction l as [|[e|p] l IH]; intros Hl; [done|..]; rewrite fmap_cons; cbn [printed_all].
  - destruct (Hl e (list_elem_of_here _ _)) as [Hv Hp]. rewrite IH by (intros e' He'; apply Hl; by apply list_elem_of_further).
    assert (E : printEvent now false findprovs_print e = Ret ("", None)).
    { unfold printEvent, findprovs_print. cbn [list_find fst fmap option_fmap option_map]. repeat case_decide; try done. cbn. unfold default_print, when_verbose, printed. apply Z.eqb_neq in Hv. rewrite Hv. by repeat case_match. }
    rewrite E. cbn. done.
  - rewrite IH by (intros e' He'; apply Hl; by apply list_elem_of_further).
    assert (E : printEvent now false findprovs_print (response Provider p) = Ret ("" +:+ (Pretty (ai_ID p) +:+ nl +:+ ""), None)) by reflexivity.
    rewrite E. by rewrite string_app_nil.
Qed.
End RoutingTheorems.

(** ** The hypotheses are met *)
Module DemoRouting.
#[local] Instance demo : Routing := {|
  cid_Decode s := Ok s; peer_Decode s := Ok s; Pretty p := p;
  FindProvidersAsync c n := [inl (MkEv "x" PeerResponse [] ""); inr (MkInfo "p" ["/ip4/1.2.3.4"])];
  FindPeer p := ([], Err "routing: not found"); GetValue k := ([], Ok "v"); PutValue k v := ([], Ok tt); Provide c := ([], Ok tt);
  Has c := Ok true; Walk c := (["a"; "b"], None); base64 s := s; unbase64 s := Ok s |}.
Definition alive (e : QueryEvent) : option error := None.

Definition lost : list gop := [SetErr (Some "routing: not found"); Publish (error_event "routing: not found")].
Definition lost_end : query := MkQuery [] true true [] true (Some "routing: not found") [error_event "routing: not found"] (Some (Some "routing: not found")).

Lemma lost_run : rtc (query_step alive) (query_start lost) lost_end.
Proof.
  eapply rtc_l; [apply StSetErr|]. eapply rtc_l; [apply StPublish; unfold buffer_size; cbn; lia|]. eapply rtc_l; [apply StCancel|]. eapply rtc_l; [apply StClose|].
  eapply rtc_l; [by apply StEmit|]. eapply rtc_l; [apply StReturn|]. apply rtc_refl.
Qed.

Lemma query_answers_witness : error_of lost None = Some "routing: not found" /\ published_by lost = [error_event "routing: not found"].
Proof.
  destruct (query_answers alive lost lost_end lost_run) as (_ & _ & Hq). destruct (Hq (Some "routing: not found")) as [E P]; [done|done|]. by split.
Defined.

Lemma ended_request_succeeds_witness : exists s, rtc (request_step alive) (query_start lost) s /\ returned s = Some None.
Proof. destruct (ended_request_succeeds alive lost "routing: not found" eq_refl) as (s & Hs & Hr & _). by exists s. Defined.

Lemma findpeer_exact_witness : exists pid, peer_Decode (Routing := demo) "p" = Ok pid /\ returned lost_end = Some (Some "routing: not found").
Proof.
  destruct (findpeer_exact (H := demo) alive "p" lost lost_end (Some "routing: not found") eq_refl lost_run (fun e => eq_refl) eq_refl) as (pid & Hp & Hf).
  exists pid. split; [done|]. reflexivity.
Defined.

Definition given_end : query := MkQuery [] true true [] true None [] (Some None).
Lemma given_run : rtc (query_step alive) (query_start [SetErr None]) given_end.
Proof.
  eapply rtc_l; [apply StSetErr|]. eapply rtc_l; [apply StCancel|]. eapply rtc_l; [apply StClose|]. eapply rtc_l; [apply StReturn|]. apply rtc_refl.
Qed.

Lemma provide_rec_exact_witness : exists done, provideKeysRec (H := demo) ["a"] = ([], done, None) /\ NoDup done.
Proof.
  destruct (provide_rec_exact (H := demo) alive 1 (fun c => c) ["a"] [SetErr None] given_end eq_refl given_run (fun e => eq_refl) eq_refl)
    as (cids & evs & done & F & Hp & He & Hn & _).
  assert (Hc : cids = ["a"]) by (inversion F as [|a c l l' [Hc _] F']; subst; inversion F'; by injection Hc as <-). subst cids.
  exists done. split; [|done]. by rewrite Hp, <- He.
Defined.

Lemma findprovs_text_witness : printed_all (printEvent "now" false (findprovs_print (H := demo))) [MkEv "x" PeerResponse [] ""; response Provider (MkInfo "p" ["/ip4/1.2.3.4"])] = Some ("p" +:+ nl).
Proof.
  apply (findprovs_text (H := demo) "now" "c" 20). intros e He. apply elem_of_cons in He as [He|He]; [by injection He as ->|].
  apply list_elem_of_singleton in He. discriminate He.
Defined.
End DemoRouting.
