(* ===== verification/NodeLife.v ===== *)
(** The life of a node: [core/builder.go] and [IpfsNode.Close], [Context] of
    [core/core.go].

    [NewNode] is a function of what the options, the application of the fx library and
    the bootstrapper answer.  Stopping is a step relation: any number of callers of
    [Close] and the goroutine that watches the lifetime context go through the
    [sync.Once] of [n.stop], whose later callers wait for the first. *)
From Stdlib Require Import ZArith Lia Ascii String.
From stdpp Require Import base strings list relations.
From S2P Require Import Prelude GoStrings.

(** ** [NewNode] *)

(** What a call leaves behind: the node, if it is returned; whether the application
    runs; whether the goroutine that watches the lifetime context runs; whether the
    node's own context is cancelled. *)
Record built := MkBuilt { b_node : bool; b_err : option error; b_running : bool; b_watched : bool; b_ctx_done : bool; b_online : bool }.

Section NewNode.
Context {Opt : Type}.

(** [optFunc]s in the order in which they were registered. *)
Fixpoint fx_options (fns : list (list Opt -> result (list Opt))) (opts : list Opt) : result (list Opt) :=
  match fns with
  | [] => Ok opts
  | f :: fns => match f opts with Err e => Err ("building fx opts: " +:+ e) | Ok opts => fx_options fns opts end
  end.

(** [logAndUnwrapFxError] over what [dig.RootCause] gives, one after the other, until it
    gives what it was given: the errors, and whether their type is comparable. *)
Fixpoint root_cause (err : error) (chain : list (error * bool)) : error :=
  match chain with
  | [] => err
  | (e, comparable) :: chain => if negb comparable then err else root_cause e chain
  end.
Definition logAndUnwrapFxError (fxAppErr : error) (chain : list (error * bool)) : error :=
  "constructing the node (see log for full detail): " +:+ root_cause fxAppErr chain.

(** [app_Err], [app_Start]: the application's errors, with their causes; a start that
    fails has undone what it started. *)
Definition NewNode (Online : bool) (fns : list (list Opt -> result (list Opt))) (base extract : list Opt)
    (app_Err app_Start : list Opt -> option (error * list (error * bool))) (bootstrap : option error) : built :=
  match fx_options fns base with
  | Err e => MkBuilt false (Some e) false false true false
  | Ok opts =>
      let opts := opts ++ extract in
      match app_Err opts with
      | Some (e, chain) => MkBuilt false (Some (logAndUnwrapFxError e chain)) false true false Online
      | None =>
          match app_Start opts with
          | Some (e, chain) => MkBuilt false (Some (logAndUnwrapFxError e chain)) false true false Online
          | None => MkBuilt true (if Online then bootstrap else None) true true false Online
          end
      end
  end.
End NewNode.

(** ** Stopping *)

(** Where a caller of [n.stop] is: before [once.Do], in [app.Stop], after it, or
    returned; a goroutine that has not called waits. *)
Inductive stop_pc := Waiting | Calling | Stopping | AppStopped | Returned (err : option error) | Ended.

Inductive once := NotYet | Running | Done.

Record life := MkLife {
  l_callers : list stop_pc;      (** the callers of [Close] *)
  l_watcher : stop_pc;
  l_once : once;
  l_stopErr : option error;
  l_stops : nat;                 (** how often the application was stopped *)
  l_app : bool;                  (** it runs *)
  l_lctx : bool;                 (** the lifetime context is cancelled *)
  l_ctx : bool;                  (** the node's context is cancelled *)
}.

Definition life_start (n : nat) : life := MkLife (replicate n Waiting) Waiting NotYet None 0 true false false.

(** A step inside [n.stop], of whoever is there; [app_Stop] is the answer of the
    application. *)
Inductive stop_step (app_Stop : option error) : stop_pc * life -> stop_pc * life -> Prop :=
| SEnter cs w e n a lc c : stop_step app_Stop (Calling, MkLife cs w NotYet e n a lc c) (Stopping, MkLife cs w Running e n a lc c)
| SStop cs w o e n a lc c : stop_step app_Stop (Stopping, MkLife cs w o e n a lc c) (AppStopped, MkLife cs w o app_Stop (S n) false lc c)
| SCancel cs w o e n a lc c : stop_step app_Stop (AppStopped, MkLife cs w o e n a lc c) (Returned e, MkLife cs w Done e n a lc true)
| SWaited cs w e n a lc c : stop_step app_Stop (Calling, MkLife cs w Done e n a lc c) (Returned e, MkLife cs w Done e n a lc c).

(** The goroutine [Some i] is the caller [i], [None] the one that watches. *)
Definition pc_of (s : life) (g : option nat) : option stop_pc := match g with Some i => l_callers s !! i | None => Some (l_watcher s) end.
Definition set_pc (g : option nat) (p : stop_pc) (s : life) : life :=
  MkLife (match g with Some i => <[i := p]> (l_callers s) | None => l_callers s end) (match g with Some _ => l_watcher s | None => p end)
    (l_once s) (l_stopErr s) (l_stops s) (l_app s) (l_lctx s) (l_ctx s).

(** What goes on by itself, and what is done to the node. *)
Inductive inner_step (app_Stop : option error) : life -> life -> Prop :=
| LStop s s' g p p' : pc_of s g = Some p -> stop_step app_Stop (p, s) (p', s') -> inner_step app_Stop s (set_pc g p' s')
| LWatch s : l_watcher s = Waiting -> l_lctx s = true -> inner_step app_Stop s (set_pc None Calling s)
| LWatchEnd s : l_watcher s = Waiting -> l_ctx s = true -> inner_step app_Stop s (set_pc None Ended s).
Inductive outer_step : life -> life -> Prop :=
| LCancel s : l_lctx s = false -> outer_step s (MkLife (l_callers s) (l_watcher s) (l_once s) (l_stopErr s) (l_stops s) (l_app s) true (l_ctx s))
| LClose s i : l_callers s !! i = Some Waiting -> outer_step s (set_pc (Some i) Calling s).
Definition life_step (app_Stop : option error) (s s' : life) : Prop := inner_step app_Stop s s' \/ outer_step s s'.

(** ** Theorems *)

(** [NewNode] that fails returns no node and leaves no application running, unless
    what failed is the bootstrap of an online node: then the node runs and is returned
    with the error; a lifetime context that is cancelled stops whatever was built. *)
Theorem new_node_failure {Opt} online (fns : list (list Opt -> result (list Opt))) base extract app_Err app_Start bootstrap :
  let b := NewNode online fns base extract app_Err app_Start bootstrap in
  (b_node b = b_running b) /\ (b_running b = true -> b_watched b = true) /\
  (b_running b = false -> b_err b <> None) /\
  (b_running b = true -> b_err b = if online then bootstrap else None) /\
  (b_watched b = false -> b_ctx_done b = true).
Proof.
  unfold NewNode. destruct (fx_options fns base) as [opts|e]; [|done]. cbv zeta. destruct (app_Err _) as [[e chain]|]; [done|]. by destruct (app_Start _) as [[e chain]|].
Qed.

Section Life.
Context (app_Stop : option error).
Abbreviation reaches := (rtc (life_step app_Stop)).

Lemma pc_of_set s g g' p : is_Some (pc_of s g) -> pc_of (set_pc g p s) g' = if decide (g' = g) then Some p else pc_of s g'.
Proof.
  destruct g as [i|], g' as [j|]; cbn; intros Hs; case_decide as Hd; try done; try congruence.
  - injection Hd as ->. apply list_lookup_insert_eq. by apply lookup_lt_is_Some.
  - apply list_lookup_insert_ne. congruence.
Qed.

(** A goroutine is inside the once, or has come out of it. *)
Definition inside (p : stop_pc) : bool := match p with Stopping | AppStopped => true | _ => false end.
Definition out (p : stop_pc) : bool := match p with Returned _ => true | _ => false end.

(** What the once says of the goroutines and of the application. *)
Definition life_inv (s : life) : Prop :=
  (pc_of s None = Some Ended -> l_ctx s = true) /\
  match l_once s with
  | NotYet => (forall g p, pc_of s g = Some p -> inside p = false /\ out p = false) /\ l_stops s = 0 /\ l_app s = true /\ l_ctx s = false
  | Running => l_ctx s = false /\ exists g p, pc_of s g = Some p /\
      (forall g' p', g' <> g -> pc_of s g' = Some p' -> inside p' = false /\ out p' = false) /\
      (p = Stopping /\ l_stops s = 0 /\ l_app s = true \/ p = AppStopped /\ l_stops s = 1 /\ l_app s = false /\ l_stopErr s = app_Stop)
  | Done => (forall g p, pc_of s g = Some p -> inside p = false /\ forall e, p = Returned e -> e = app_Stop) /\
      l_stops s = 1 /\ l_app s = false /\ l_ctx s = true /\ l_stopErr s = app_Stop
  end.

Lemma life_inv_start n : life_inv (life_start n).
Proof.
  split; [done|]. cbn. split_and!; try done. intros [i|] p Hp; cbn in Hp; [|by injection Hp as <-].
  apply lookup_replicate in Hp as [-> _]. done.
Qed.

(** A goroutine moves without the once noticing. *)
Lemma life_inv_move s g p p' : life_inv s -> pc_of s g = Some p -> inside p = false -> out p = false -> inside p' = false -> out p' = false ->
  (p' = Ended -> g = None -> l_ctx s = true) -> life_inv (set_pc g p' s).
Proof.
  intros [Hend Hi] Hp Hin Ho Hin' Ho' Hc. assert (Hs : forall g', pc_of (set_pc g p' s) g' = if decide (g' = g) then Some p' else pc_of s g') by (intros g'; apply pc_of_set; by exists p).
  split; [rewrite Hs; case_decide as Hd; [intros [= ->]; by apply Hc|exact Hend]|]. change (l_once (set_pc g p' s)) with (l_once s). change (l_ctx (set_pc g p' s)) with (l_ctx s).
  destruct (l_once s).
  - destruct Hi as (Hall & Hrest). split; [|done]. intros g' q. rewrite Hs. case_decide; [by intros [= <-]|apply Hall].
  - destruct Hi as (Hctx & g0 & p0 & Hp0 & Hothers & Hcase). split; [done|]. exists g0, p0. assert (Hne : g0 <> g).
    { intros ->. rewrite Hp in Hp0. injection Hp0 as <-. by destruct Hcase as [[-> _]|[-> _]]. }
    split_and!; [by rewrite Hs, decide_False by done| |done]. intros g' q Hg'. rewrite Hs. case_decide; [by intros [= <-]|by apply Hothers].
  - destruct Hi as (Hall & Hrest). split; [|done]. intros g' q. rewrite Hs. case_decide; [|apply Hall]. intros [= <-]. split; [done|]. by intros e ->.
Qed.

(** Who is inside the once is alone there. *)
Lemma inside_alone s g p : life_inv s -> pc_of s g = Some p -> inside p = true ->
  l_once s = Running /\ l_ctx s = false /\ (forall g' p', g' <> g -> pc_of s g' = Some p' -> inside p' = false /\ out p' = false) /\
  (p = Stopping /\ l_stops s = 0 /\ l_app s = true \/ p = AppStopped /\ l_stops s = 1 /\ l_app s = false /\ l_stopErr s = app_Stop).
Proof.
  intros [_ Hi] Hp Hin. destruct (l_once s).
  - destruct Hi as (Hall & _). destruct (Hall g p Hp). congruence.
  - destruct Hi as (Hctx & g0 & p0 & Hp0 & Hothers & Hcase). destruct (decide (g = g0)) as [->|Hne]; [|by destruct (Hothers g p Hne Hp); congruence].
    rewrite Hp in Hp0. injection Hp0 as <-. done.
  - destruct Hi as (Hall & _). destruct (Hall g p Hp). congruence.
Qed.

(** After a goroutine has moved: who is where. *)
Lemma pc_of_moved s s' g p p' g' q : pc_of s g = Some p -> (forall g', pc_of s' g' = pc_of s g') -> pc_of (set_pc g p' s') g' = Some q ->
  g' = g /\ q = p' \/ g' <> g /\ pc_of s g' = Some q.
Proof.
  intros Hp He. rewrite pc_of_set by (rewrite He; by exists p). case_decide as Hd; [intros [= <-]; by left|]. rewrite He. by right.
Qed.

Lemma life_inv_stop s s' g p p' : life_inv s -> pc_of s g = Some p -> stop_step app_Stop (p, s) (p', s') -> life_inv (set_pc g p' s').
Proof.
  intros Hi Hp Hst. assert (He : forall g', pc_of s' g' = pc_of s g') by (intros [j|]; by inversion Hst).
  assert (Hg : pc_of (set_pc g p' s') g = Some p') by (rewrite pc_of_set by (rewrite He; by exists p); by rewrite decide_True).
  pose proof (fun g' q => pc_of_moved s s' g p p' g' q Hp He) as Hm. destruct Hi as [Hend Hi0].
  split; [intros [[_ Hq]|[_ Hq]]%Hm; [by inversion Hst; subst|apply Hend in Hq; by inversion Hst; subst; cbn in *]|]. assert (Hi : life_inv s) by by split.
  inversion Hst; subst; clear Hst; cbn in Hi0 |- *; 
    try (destruct (inside_alone _ _ _ Hi Hp eq_refl) as (Ho & Hctx & Hothers & Hcase); cbn in Ho, Hctx, Hcase; subst).
  - destruct Hi0 as (Hall & Hrest). split; [apply Hrest|]. exists g, Stopping. split_and!; [done| |left; naive_solver]. intros g' q Hg' [[? _]|[_ Hq]]%Hm; [done|by apply (Hall g')].
  - destruct Hcase as [(_ & -> & ->)|[? _]]; [|done]. split; [done|]. exists g, AppStopped. split_and!; [done| |by right]. intros g' q Hg' [[? _]|[_ Hq]]%Hm; [done|by apply (Hothers g')].
  - destruct Hcase as [[? _]|(_ & -> & -> & ->)]; [done|]. split_and!; try done. intros g' q [[_ ->]|[Hne Hq]]%Hm; [split; [done|by intros e [= <-]]|].
    destruct (Hothers g' q Hne Hq) as [Hin Ho]. split; [done|]. by intros e ->.
  - destruct Hi0 as (Hall & -> & -> & -> & ->). split_and!; try done. intros g' q [[_ ->]|[_ Hq]]%Hm; [split; [done|by intros e [= <-]]|by apply (Hall g')].
Qed.

Lemma life_inv_step s s' : life_inv s -> life_step app_Stop s s' -> life_inv s'.
Proof.
  intros Hi [Hstep|Hstep].
  - destruct Hstep as [s s1 g p p' Hp Hst|s Hw Hl|s Hw Hc]; [by eapply life_inv_stop| |]; apply (life_inv_move s None Waiting); try done; cbn; by rewrite Hw.
  - destruct Hstep as [s Hl|s i Hw]; [exact Hi|]. by apply (life_inv_move s (Some i) Waiting).
Qed.

Lemma life_inv_reached n s : reaches (life_start n) s -> life_inv s.
Proof. revert s. apply rtc_ind_r; [apply life_inv_start|]. intros s s' _ Hs Hi. by eapply life_inv_step. Qed.

(** *** Progress *)

Definition pc_measure (p : stop_pc) : nat := match p with Waiting => 4 | Calling => 3 | Stopping => 2 | AppStopped => 1 | Returned _ | Ended => 0 end.
Definition life_measure (s : life) : nat := sum_list_with pc_measure (l_callers s) + pc_measure (l_watcher s) + if l_lctx s then 0 else 1.

Lemma sum_insert (l : list stop_pc) i p p' : l !! i = Some p -> sum_list_with pc_measure (<[i := p']> l) + pc_measure p = sum_list_with pc_measure l + pc_measure p'.
Proof.
  intros Hl. rewrite <- (take_drop_middle l i p Hl) at 2. rewrite insert_take_drop by (by eapply lookup_lt_Some).
  rewrite !sum_list_with_app. cbn [sum_list_with]. lia.
Qed.

Lemma life_measure_set s g p p' : pc_of s g = Some p -> life_measure (set_pc g p' s) + pc_measure p = life_measure s + pc_measure p'.
Proof.
  destruct g as [i|]; cbn; unfold life_measure; cbn [set_pc l_callers l_watcher l_lctx].
  - intros Hl. pose proof (sum_insert _ _ _ p' Hl). lia.
  - intros [= ->]. lia.
Qed.

Lemma life_measure_step s s' : life_step app_Stop s s' -> life_measure s' < life_measure s.
Proof.
  intros [[s1 s2 g p p' Hp Hst|s1 Hw Hl|s1 Hw Hc]|[s1 Hl|s1 i Hw]].
  - assert (He : life_measure s2 = life_measure s1 /\ pc_of s2 g = pc_of s1 g) by (split; [|destruct g]; by inversion Hst). destruct He as [He Hg].
    rewrite <- Hg in Hp. pose proof (life_measure_set _ _ _ p' Hp) as Hm. rewrite He in Hm.
    assert (Hlt : pc_measure p' < pc_measure p) by (inversion Hst; cbn; lia). lia.
  - pose proof (life_measure_set s1 None Waiting Calling) as Hm. cbn [pc_of pc_measure] in Hm. rewrite Hw in Hm. specialize (Hm eq_refl). lia.
  - pose proof (life_measure_set s1 None Waiting Ended) as Hm. cbn [pc_of pc_measure] in Hm. rewrite Hw in Hm. specialize (Hm eq_refl). lia.
  - unfold life_measure. cbn. rewrite Hl. lia.
  - pose proof (life_measure_set s1 (Some i) Waiting Calling Hw) as Hm. cbn [pc_measure] in Hm. lia.
Qed.

(** Somebody who has called can go on, unless another is inside, who can. *)
Lemma calling_steps s g : life_inv s -> pc_of s g = Some Calling -> exists s', inner_step app_Stop s s'.
Proof.
  intros Hi Hp. destruct s as [cs w o e n a lc c]. destruct o.
  - eexists. eapply LStop; [exact Hp|apply SEnter].
  - destruct Hi as [_ (_ & g0 & p0 & Hp0 & _ & [[-> _]|[-> _]])]; eexists; (eapply LStop; [exact Hp0|]); [apply SStop|apply SCancel].
  - eexists. eapply LStop; [exact Hp|apply SWaited].
Qed.

(** The application of a node is stopped at most once, whoever closes the node and
    however their calls interleave with a cancelled lifetime context; the node's context
    ends after the application has stopped, never before; and every call of [Close]
    returns after that with the application's answer.  There are no endless runs, and
    once the lifetime context is cancelled, or somebody has called [Close], some
    goroutine goes on until the node's context has ended. *)
Theorem node_stops_once n s : reaches (life_start n) s ->
  l_stops s <= 1 /\ (l_ctx s = true -> l_app s = false /\ l_stops s = 1) /\
  (forall g e, pc_of s g = Some (Returned e) -> e = app_Stop /\ l_ctx s = true) /\
  (forall s', life_step app_Stop s s' -> life_measure s' < life_measure s) /\
  (l_ctx s = false -> l_lctx s = true \/ (exists g, pc_of s g = Some Calling) -> exists s', inner_step app_Stop s s').
Proof.
  intros Hs%life_inv_reached. pose proof Hs as [Hend Hi]. split_and!.
  - destruct (l_once s); [lia| |lia]. destruct Hi as (_ & g & p & _ & _ & [(_ & -> & _)|(_ & -> & _)]); lia.
  - intros Hc. destruct (l_once s); [destruct Hi as (_ & _ & _ & Hf); congruence|destruct Hi as [Hf _]; congruence|tauto].
  - intros g e Hg. destruct (l_once s); [destruct Hi as (Hall & _); by destruct (Hall g _ Hg)| |destruct Hi as (Hall & _ & _ & Hc & _); destruct (Hall g _ Hg) as [_ He]; auto].
    destruct Hi as (_ & g0 & p0 & Hp0 & Hothers & Hcase). destruct (decide (g = g0)) as [->|Hne]; [|by destruct (Hothers g _ Hne Hg)].
    rewrite Hg in Hp0. injection Hp0 as <-. by destruct Hcase as [[? _]|[? _]].
  - apply life_measure_step.
  - intros Hc [Hl|[g Hg]]; [|by eapply calling_steps]. destruct (l_watcher s) as [| | | |e|] eqn:Hw.
    + eexists. by apply LWatch.
    + apply (calling_steps s None Hs). cbn. by rewrite Hw.
    + destruct s as [cs w o e n' a lc c]. cbn in Hw. subst w. eexists. eapply (LStop _ _ _ None); [done|apply SStop].
    + destruct s as [cs w o e n' a lc c]. cbn in Hw. subst w. eexists. eapply (LStop _ _ _ None); [done|apply SCancel].
    + destruct (l_once s); [destruct Hi as (Hall & _); destruct (Hall None (Returned e)); [cbn; by rewrite Hw|done]| |destruct Hi as (_ & _ & _ & Hf & _); congruence].
      destruct Hi as (_ & [i|] & p0 & Hp0 & Hothers & Hcase); [destruct (Hothers None (Returned e)); [done|cbn; by rewrite Hw|done]|].
      cbn in Hp0. rewrite Hw in Hp0. injection Hp0 as <-. by destruct Hcase as [[? _]|[? _]].
    + rewrite Hend in Hc; [done|]. cbn. by rewrite Hw.
Qed.
End Life.

(** ** The hypotheses are met *)
Module DemoLife.
(** The lifetime context is cancelled while a caller closes the node. *)
Definition late : life := MkLife [Returned None] Calling Done None 1 false true true.

Lemma late_run : rtc (life_step None) (life_start 1) late.
Proof.
  eapply rtc_l; [right; apply (LClose _ 0); done|]. eapply rtc_l; [left; eapply (LStop _ _ _ (Some 0)); [done|apply SEnter]|].
  eapply rtc_l; [right; apply LCancel; done|]. eapply rtc_l; [left; apply LWatch; done|].
  eapply rtc_l; [left; eapply (LStop _ _ _ (Some 0)); [done|apply SStop]|]. eapply rtc_l; [left; eapply (LStop _ _ _ (Some 0)); [done|apply SCancel]|]. apply rtc_refl.
Qed.

Lemma node_stops_once_witness : l_stops late <= 1 /\ l_app late = false.
Proof. destruct (node_stops_once None 1 late late_run) as (H1 & H2 & _). split; [done|]. by apply H2. Defined.
End DemoLife.
