(* ===== verification/IpfsFetcher.v ===== *)
(** Fetching migrations with a temporary node, and keeping them:
    [repo/fsrepo/migrations/ipfsfetcher/ipfsfetcher.go] and [cmd/ipfs/add_migrations.go].

    A fetcher is its fields; the world is the temporary directories and the nodes that
    run in them.  Node construction, repositories, the core API, URLs and JSON answer as
    the class [TempNode] says.  [openOnce] and [closeOnce] are flags: concurrent calls of
    [sync.Once] wait for the first. *)
From Stdlib Require Import ZArith Lia Ascii String.
From stdpp Require Import base strings gmap list.
From S2P Require Import Prelude GoStrings GoPath.

Local Open Scope Z_scope.
Local Open Scope go_scope.

Definition defaultFetchLimit : Z := 1024 * 1024 * 512.
Definition LatestIpfsDist : string := "/ipns/dist.ipfs.tech".
Definition tempNodeTCPAddr : string := "/ip4/127.0.0.1/tcp/0".

Record peer_info := MkPeerInfo { pi_ID : string; pi_Addrs : list string }.

(** The settings [initTempNode] changes. *)
Record temp_config := MkTempConfig {
  Routing_Type : string; Gateway : list string; API : list string; Swarm : list string;
  Bootstrap : list string; Peers : list peer_info;
}.

(** What the node finds at a path: a file with what reading it gives, or no file. *)
Inductive unixfs_node := UFile (body : string) (ends : option error) | UNotFile.

Class TempNode := {
  CreateIdentity : option error;
  InitWithIdentity : result temp_config;
  MkdirTemp : gset string -> result string;
  fsrepo_Init : string -> temp_config -> option error;
  fsrepo_Open : option error;
  core_NewNode : option error;
  NewCoreAPI : option error;
  node_Identity : string;
  LocalAddrs : result (list string);
  RemoveAll : string -> option error;
  Unixfs_Get : string -> result unixfs_node;
  (** paths: their validity, and URLs as scheme, host and path *)
  IsValid : string -> option error;
  url_Parse : string -> result (string * string * string);
  (** the configuration file *)
  Filename : string -> string -> result string;
  read_file : string -> result string;
  json_Bootstrap : string -> result (list string);
  json_Peering : string -> result (list peer_info);
  Quote : string -> string;
  (** a new directory *)
  MkdirTemp_fresh dirs d : MkdirTemp dirs = Ok d -> d <> "" /\ d ∉ dirs;
}.

Record IpfsFetcher := MkFetcher {
  distPath : string; limit : Z; repoRoot : option string; userConfigFile : string;
  opened : bool; openErr : option error;
  is_closed : bool; closeErr : option error;
  ipfsTmpDir : string; has_stopFunc : bool;
  fetched : list string;
  addrInfo : peer_info;
}.

(** Temporary directories, and those of them in which a node runs. *)
Record world := MkWorld { dirs : gset string; nodes : gset string }.

Definition NewIpfsFetcher (dist : string) (fetchLimit : Z) (repoRoot : option string) (userConfigFile : string) : IpfsFetcher :=
  MkFetcher
    (if String.eqb dist "" then LatestIpfsDist else if HasPrefix dist "/" then dist else "/" +:+ dist)
    (if fetchLimit =? 0 then defaultFetchLimit else if fetchLimit <? 0 then 0 else fetchLimit)
    repoRoot userConfigFile false None false None "" false [] (MkPeerInfo "" []).

Section IpfsFetcher.
Context `{TempNode}.

Definition readIpfsConfig (repoRoot : option string) (userConfigFile : string) : list string * list peer_info :=
  match repoRoot with
  | None => ([], [])
  | Some root =>
      match Filename root userConfigFile with
      | Err _ => ([], [])
      | Ok cfgPath =>
          match read_file cfgPath with
          | Err _ => ([], [])
          | Ok text => (match json_Bootstrap text with Ok l => l | Err _ => [] end, match json_Peering text with Ok l => l | Err _ => [] end)
          end
      end
  end.

(** The configuration of the temporary node. *)
Definition temp_node_config (cfg : temp_config) (bootstrap : list string) (peers : list peer_info) : temp_config :=
  MkTempConfig "dhtclient" [] [] [tempNodeTCPAddr] (if bool_decide (bootstrap = []) then Bootstrap cfg else bootstrap) (match peers with [] => Peers cfg | _ => peers end).

Definition initTempNode (bootstrap : list string) (peers : list peer_info) (w : world) : string * option error * world :=
  match CreateIdentity with
  | Some e => ("", Some e, w)
  | None =>
      match InitWithIdentity with
      | Err e => ("", Some e, w)
      | Ok cfg =>
          match MkdirTemp (dirs w) with
          | Err e => ("", Some ("failed to get temp dir: " +:+ e), w)
          | Ok dir =>
              match fsrepo_Init dir (temp_node_config cfg bootstrap peers) with
              | Some e => ("", Some ("failed to initialize ephemeral node: " +:+ e),
                           MkWorld (match RemoveAll dir with None => dirs w | Some _ => {[dir]} ∪ dirs w end) (nodes w))
              | None => (dir, None, MkWorld ({[dir]} ∪ dirs w) (nodes w))
              end
          end
      end
  end.

(** [cancel] stops a node, and with it its repository; without an address the node
    cannot be reached, which is no error. *)
Definition startTempNode (f : IpfsFetcher) (w : world) : option error * IpfsFetcher * world :=
  match fsrepo_Open with
  | Some e => (Some e, f, w)
  | None =>
      match core_NewNode with
      | Some e => (Some e, f, w)
      | None =>
          match NewCoreAPI with
          | Some e => (Some e, f, w)
          | None =>
              (None,
               MkFetcher (distPath f) (limit f) (repoRoot f) (userConfigFile f) (opened f) (openErr f) (is_closed f) (closeErr f) (ipfsTmpDir f) true (fetched f)
                 (MkPeerInfo node_Identity (match LocalAddrs with Ok l => l | Err _ => [] end)),
               MkWorld (dirs w) ({[ipfsTmpDir f]} ∪ nodes w))
          end
      end
  end.

(** The function of [openOnce]. *)
Definition open_once (f : IpfsFetcher) (w : world) : IpfsFetcher * world :=
  let '(bootstrap, peers) := readIpfsConfig (repoRoot f) (userConfigFile f) in
  let '(dir, err, w) := initTempNode bootstrap peers w in
  let f := MkFetcher (distPath f) (limit f) (repoRoot f) (userConfigFile f) true err (is_closed f) (closeErr f) dir (has_stopFunc f) (fetched f) (addrInfo f) in
  match err with
  | Some _ => (f, w)
  | None =>
      let '(err, f, w) := startTempNode f w in
      (MkFetcher (distPath f) (limit f) (repoRoot f) (userConfigFile f) true err (is_closed f) (closeErr f) (ipfsTmpDir f) (has_stopFunc f) (fetched f) (addrInfo f), w)
  end.

Definition parsePath (fetchPath : string) : result string :=
  match IsValid fetchPath with
  | None => Ok fetchPath
  | Some _ =>
      match url_Parse fetchPath with
      | Err e => Err (Quote fetchPath +:+ " could not be parsed: " +:+ e)
      | Ok (proto, host, path) =>
          if bool_decide (proto ∈ ["ipfs"; "ipld"; "ipns"]) then
            let p := Join (Join (Join "/" proto) host) path in
            match IsValid p with Some e => Err e | None => Ok p end
          else Err (Quote fetchPath +:+ " is not an IPFS path")
      end
  end.

Definition recordFetched (p : string) (f : IpfsFetcher) : IpfsFetcher :=
  MkFetcher (distPath f) (limit f) (repoRoot f) (userConfigFile f) (opened f) (openErr f) (is_closed f) (closeErr f) (ipfsTmpDir f) (has_stopFunc f) (fetched f ++ [p]) (addrInfo f).

(** [io.ReadAll], of a body that [io.LimitReader] cuts silently. *)
Definition read_body (limit : Z) (body : string) (ends : option error) : result string :=
  if negb (limit =? 0) && (limit <=? Z.of_nat (String.length body)) then Ok (substring 0 (Z.to_nat limit) body)
  else match ends with Some e => Err e | None => Ok body end.

Definition Fetch (filePath : string) (f : IpfsFetcher) (w : world) : result string * IpfsFetcher * world :=
  let '(f, w) := if opened f then (f, w) else open_once f w in
  match openErr f with
  | Some e => (Err e, f, w)
  | None =>
      match parsePath (Join (distPath f) filePath) with
      | Err e => (Err e, f, w)
      | Ok iPath =>
          match Unixfs_Get iPath with
          | Err e => (Err e, f, w)
          | Ok nd =>
              let f := recordFetched iPath f in
              match nd with
              | UNotFile => (Err (Quote filePath +:+ " is not a file"), f, w)
              | UFile body ends => (read_body (limit f) body ends, f, w)
              end
          end
      end
  end.

Definition Fetcher_Close (f : IpfsFetcher) (w : world) : option error * IpfsFetcher * world :=
  if is_closed f then (closeErr f, f, w)
  else
    let w := if has_stopFunc f then MkWorld (dirs w) (nodes w ∖ {[ipfsTmpDir f]}) else w in
    let '(err, w) := (if String.eqb (ipfsTmpDir f) "" then (closeErr f, w)
      else match RemoveAll (ipfsTmpDir f) with Some e => (Some e, w) | None => (None, MkWorld (dirs w ∖ {[ipfsTmpDir f]}) (nodes w)) end) in
    (err, MkFetcher (distPath f) (limit f) (repoRoot f) (userConfigFile f) (opened f) (openErr f) true err (ipfsTmpDir f) (has_stopFunc f) (fetched f) (addrInfo f), w).

Definition AddrInfo (f : IpfsFetcher) : peer_info := addrInfo f.
Definition FetchedPaths (f : IpfsFetcher) : list string := fetched f.
End IpfsFetcher.

(** ** [add_migrations.go] *)

(** The fetchers [addMigrations] tells apart. *)
Inductive fetcher_kind := KIpfs (f : IpfsFetcher) | KHttp | KRetry | KMulti (fs : list fetcher_kind) | KOther.

(** What is done to the node. *)
Inductive node_call := AddFile (path : string) (pin : bool) | Connect (p : peer_info) | PinAdd (path : string) | Got (path : string).

(** What walking a directory calls its function with: a path, whether it is a directory
    if it could be looked at, and the error. *)
Record walk_entry := MkWalk { w_path : string; w_info : option bool; w_err : option error }.

Class MainNode := {
  main_CoreAPI : option error;
  open_file : string -> option error;
  ufs_Add : string -> bool -> option error;
  swarm_Connect : peer_info -> option error;
  pin_Add : string -> option error;
  ufs_Get : string -> result unixfs_node;
  q : string -> string;
}.

Section AddMigrations.
Context `{MainNode}.

Fixpoint add_files (paths : list string) (pin : bool) : option error * list node_call :=
  match paths with
  | [] => (None, [])
  | p :: paths =>
      match open_file p with
      | Some e => (Some e, [])
      | None =>
          match ufs_Add p pin with
          | Some e => (Some e, [AddFile p pin])
          | None => let '(r, t) := add_files paths pin in (r, AddFile p pin :: t)
          end
      end
  end.
Definition addMigrationFiles (paths : list string) (pin : bool) : option error * list node_call :=
  match paths with
  | [] => (None, [])
  | _ => match main_CoreAPI with Some e => (Some e, []) | None => add_files paths pin end
  end.

Definition ipfsGet (ipfsPath : string) : option error :=
  match ufs_Get ipfsPath with
  | Err e => Some e
  | Ok UNotFile => Some ("not a file node: " +:+ q ipfsPath)
  | Ok (UFile _ (Some e)) => Some ("cannot read migration: " +:+ e)
  | Ok (UFile _ None) => None
  end.

(** One call for each path, up to the first that fails. *)
Fixpoint each_path (f : string -> option error) (call : string -> node_call) (paths : list string) : option error * list node_call :=
  match paths with
  | [] => (None, [])
  | p :: paths => match f p with Some e => (Some e, [call p]) | None => let '(r, t) := each_path f call paths in (r, call p :: t) end
  end.

Definition addMigrationPaths (peerInfo : peer_info) (paths : list string) (pin : bool) : option error * list node_call :=
  match paths with
  | [] => (Some "nothing downloaded by ipfs fetcher", [])
  | _ =>
      match pi_Addrs peerInfo with
      | [] => (Some "no local swarm address for migration node", [])
      | _ =>
          match main_CoreAPI with
          | Some e => (Some e, [])
          | None =>
              match swarm_Connect peerInfo with
              | Some e => (Some ("could not connect to migration peer " +:+ q (pi_ID peerInfo) +:+ ": " +:+ e), [Connect peerInfo])
              | None =>
                  let '(r, t) := if pin then each_path pin_Add PinAdd paths else each_path ipfsGet Got paths in (r, Connect peerInfo :: t)
              end
          end
      end
  end.

(** The function of the walk: the error is not looked at, and the information of what
    could not be looked at is nil. *)
Fixpoint walk_paths (walk : list walk_entry) : outcome (list string) :=
  match walk with
  | [] => Ret []
  | e :: walk =>
      match w_info e with
      | None => Panic "invalid memory address or nil pointer dereference"
      | Some isDir => let! ps := walk_paths walk in Ret (if (isDir : bool) then ps else w_path e :: ps)
      end
  end.

Definition add_downloaded (DownloadDirectory : string) (Walk : string -> list walk_entry) (pin : bool) : outcome (option error * list node_call) :=
  if String.eqb DownloadDirectory "" then Ret (None, [])
  else let! paths := walk_paths (Walk DownloadDirectory) in Ret (addMigrationFiles paths pin).

Fixpoint add_fetchers (DownloadDirectory : string) (Walk : string -> list walk_entry) (pin : bool) (fs : list fetcher_kind) : outcome (option error * list node_call) :=
  match fs with
  | [] => Ret (None, [])
  | f :: fs =>
      let! r := (match f with
                 | KIpfs f => Ret (addMigrationPaths (AddrInfo f) (FetchedPaths f) pin)
                 | KHttp | KRetry => add_downloaded DownloadDirectory Walk pin
                 | KMulti _ | KOther => Ret (Some "cannot get migrations from unknown fetcher type", [])
                 end) in
      match r with
      | (Some e, t) => Ret (Some e, t)
      | (None, t) => let! r := add_fetchers DownloadDirectory Walk pin fs in Ret (r.1, t ++ r.2)
      end
  end.

Definition addMigrations (DownloadDirectory : string) (Walk : string -> list walk_entry) (pin : bool) (fetcher : fetcher_kind) : outcome (option error * list node_call) :=
  add_fetchers DownloadDirectory Walk pin (match fetcher with KMulti fs => fs | f => [f] end).
End AddMigrations.

(** ** Theorems: the fetcher *)

Section FetcherTheorems.
Context `{TempNode}.

Inductive op := OFetch (path : string) | OClose.
Definition run_op (fw : IpfsFetcher * world) (o : op) : IpfsFetcher * world :=
  match o with
  | OFetch p => let '(_, f, w) := Fetch p fw.1 fw.2 in (f, w)
  | OClose => let '(_, f, w) := Fetcher_Close fw.1 fw.2 in (f, w)
  end.
Abbreviation run := (foldl run_op).

(** What a fetcher has of the world [w0] it started in. *)
Definition holds (w0 : world) (f : IpfsFetcher) (w : world) : Prop :=
  if opened f then
    if is_closed f then w = w0
    else if String.eqb (ipfsTmpDir f) "" then has_stopFunc f = false /\ w = w0 /\ openErr f <> None
    else (ipfsTmpDir f ∉ dirs w0) /\ (dirs w = {[ipfsTmpDir f]} ∪ dirs w0) /\ nodes w = (if has_stopFunc f then {[ipfsTmpDir f]} ∪ nodes w0 else nodes w0)
  else ipfsTmpDir f = "" /\ has_stopFunc f = false /\ is_closed f = false /\ w = w0.

Hypothesis RemoveAll_works : forall d, RemoveAll d = None.

Lemma world_eq (w w' : world) : dirs w = dirs w' -> nodes w = nodes w' -> w = w'.
Proof. destruct w, w'; cbn. congruence. Qed.

Lemma holds_open f w : opened f = false -> holds w f w -> let '(f', w') := open_once f w in opened f' = true /\ holds w f' w'.
Proof.
  intros Ho. unfold holds. rewrite Ho. intros (Ht & Hs & Hc & _). unfold open_once. destruct (readIpfsConfig _ _) as [bootstrap peers].
  unfold initTempNode. destruct CreateIdentity; [by cbn; rewrite Hc|]. destruct InitWithIdentity as [cfg|e]; [|by cbn; rewrite Hc].
  destruct (MkdirTemp (dirs w)) as [d|e] eqn:Ed; [|by cbn; rewrite Hc]. apply MkdirTemp_fresh in Ed as [Hd Hfresh].
  destruct (fsrepo_Init d _); [cbn; rewrite Hc, RemoveAll_works; split_and!; try done; by destruct w|].
  apply String.eqb_neq in Hd. unfold startTempNode.
  destruct fsrepo_Open; [cbn; by rewrite Hc, Hd, Hs|]. destruct core_NewNode; [cbn; by rewrite Hc, Hd, Hs|]. destruct NewCoreAPI; cbn; by rewrite Hc, Hd, ?Hs.
Qed.

(** A fetch keeps what an opened fetcher holds. *)
Lemma fetch_opened p f w : opened f = true -> exists f', (Fetch p f w).1.2 = f' /\ (Fetch p f w).2 = w /\ opened f' = true /\
  is_closed f' = is_closed f /\ ipfsTmpDir f' = ipfsTmpDir f /\ has_stopFunc f' = has_stopFunc f /\ openErr f' = openErr f /\ distPath f' = distPath f.
Proof.
  intros Ho. unfold Fetch. rewrite Ho. eexists. split; [done|]. destruct (openErr f) eqn:E; [by split_and!|]. destruct (parsePath _); [|by split_and!].
  destruct (Unixfs_Get _) as [[b r|]|e]; by split_and!.
Qed.

Lemma fetch_opens p f w : opened f = false -> Fetch p f w = Fetch p (open_once f w).1 (open_once f w).2.
Proof.
  intros Ho. assert (E : opened (open_once f w).1 = true).
  { unfold open_once. destruct (readIpfsConfig _ _). destruct (initTempNode _ _ _) as [[d [e|]] w1]; [done|]. by destruct (startTempNode _ _) as [[e f1] w2]. }
  unfold Fetch. rewrite Ho, E. by destruct (open_once f w).
Qed.

Lemma holds_fetch w0 p f w : holds w0 f w -> opened f || negb (is_closed f) = true -> let '(f', w') := run_op (f, w) (OFetch p) in opened f' = true /\ holds w0 f' w'.
Proof.
  intros Hh Hu. cbn. assert (Hop : forall f w, opened f = true -> holds w0 f w -> let '(f', w') := let '(_, f1, w1) := Fetch p f w in (f1, w1) in opened f' = true /\ holds w0 f' w').
  { intros f1 w1 Ho Hh1. destruct (fetch_opened p f1 w1 Ho) as (f' & Hf & Hw & Ho' & Hc & Ht & Hs & He & _). destruct (Fetch p f1 w1) as [[r f2] w2]. cbn in Hf, Hw. subst.
    split; [done|]. unfold holds in *. by rewrite Ho', Hc, Ht, Hs, He; rewrite Ho in Hh1. }
  destruct (opened f) eqn:Ho; [by apply Hop|]. assert (w = w0) as -> by (unfold holds in Hh; rewrite Ho in Hh; tauto).
  pose proof (holds_open f w0 Ho Hh) as Hop'. rewrite fetch_opens by done. destruct (open_once f w0) as [f1 w1]. destruct Hop'. by apply Hop.
Qed.

Lemma holds_close w0 f w : nodes w0 ⊆ dirs w0 -> opened f = true -> holds w0 f w -> let '(f', w') := run_op (f, w) OClose in opened f' = true /\ is_closed f' = true /\ w' = w0.
Proof.
  intros Hn Ho. unfold holds. rewrite Ho. cbn. unfold Fetcher_Close. destruct (is_closed f) eqn:Hc; [done|]. destruct (String.eqb (ipfsTmpDir f) "") eqn:Ht.
  - intros (-> & -> & _). done.
  - intros (Hd & Hdirs & Hnodes). rewrite RemoveAll_works. split_and!; try done. apply world_eq; cbn.
    + destruct (has_stopFunc f); cbn; rewrite Hdirs; set_solver.
    + destruct (has_stopFunc f); cbn; rewrite Hnodes; set_solver.
Qed.

(** A fetcher that has been used and then closed leaves nothing behind: the
    temporary node is stopped and its directory removed, whatever failed on the way
    (making the identity, the repository, the node) and whatever is asked of the fetcher
    afterwards; until then at most that one node runs. *)
Theorem ipfs_fetcher_releases dist fetchLimit root cfg w0 p ps ops : nodes w0 ⊆ dirs w0 ->
  let '(f, w) := run (NewIpfsFetcher dist fetchLimit root cfg, w0) (OFetch p :: (OFetch <$> ps)) in
  (exists d, nodes w = nodes w0 ∪ d /\ (size d <= 1)%nat) /\
  (run (f, w) (OClose :: ops)).2 = w0.
Proof.
  intros Hn. cbn [foldl]. assert (H0 : holds w0 (NewIpfsFetcher dist fetchLimit root cfg) w0) by done.
  pose proof (holds_fetch w0 p _ w0 H0 eq_refl) as Hh. destruct (run_op _ (OFetch p)) as [f1 w1]. destruct Hh as [Ho1 Hh1].
  assert (Hrun : let '(f, w) := run (f1, w1) (OFetch <$> ps) in opened f = true /\ holds w0 f w).
  { clear -RemoveAll_works Ho1 Hh1. revert f1 w1 Ho1 Hh1. induction ps as [|q ps IH]; intros f1 w1 Ho1 Hh1; [done|]. rewrite fmap_cons. cbn [foldl].
    pose proof (holds_fetch w0 q f1 w1 Hh1 ltac:(by rewrite Ho1)) as Hq. destruct (run_op _ (OFetch q)) as [f2 w2]. destruct Hq. by apply IH. }
  destruct (run (f1, w1) _) as [f w]. destruct Hrun as [Ho Hh]. split.
  - unfold holds in Hh. rewrite Ho in Hh. destruct (is_closed f); [subst; exists ∅; split; [set_solver|rewrite size_empty; lia]|]. destruct (String.eqb _ _).
    + destruct Hh as (_ & -> & _). exists ∅. split; [set_solver|rewrite size_empty; lia].
    + destruct Hh as (_ & _ & ->). destruct (has_stopFunc f); [|exists ∅; split; [set_solver|rewrite size_empty; lia]]. exists {[ipfsTmpDir f]}. split; [set_solver|by rewrite size_singleton].
  - pose proof (holds_close w0 f w Hn Ho Hh) as Hc. destruct (run_op (f, w) OClose) as [f2 w2]. destruct Hc as (Ho2 & Hc2 & ->).
    clear -Ho2 Hc2. revert f2 Ho2 Hc2. induction ops as [|[q|] ops IH]; intros f2 Ho2 Hc2; cbn [foldl]; [done| |].
    + unfold run_op at 2. cbn [fst snd]. destruct (fetch_opened q f2 w0 Ho2) as (f' & Hf & Hw & Ho' & Hc & _). destruct (Fetch q f2 w0) as [[r f3] w3]. cbn in Hf, Hw. subst. apply IH; [done|]. by rewrite Hc.
    + unfold run_op at 2. cbn [fst snd]. unfold Fetcher_Close. rewrite Hc2. by apply IH.
Qed.

(** What a fetcher that could start its node says it has fetched are the paths at
    which the node found something, in order, files or not. *)
Theorem fetched_paths_exact ps f w : opened f = true -> openErr f = None ->
  FetchedPaths (run (f, w) (OFetch <$> ps)).1 =
  FetchedPaths f ++ omap (fun p => match parsePath (Join (distPath f) p) with Ok i => match Unixfs_Get i with Ok _ => Some i | Err _ => None end | Err _ => None end) ps.
Proof.
  revert f w. induction ps as [|p ps IH]; intros f w Ho He; [cbn; by rewrite app_nil_r|]. rewrite fmap_cons. cbn [foldl omap list_omap]. unfold run_op at 2. cbn [fst snd].
  unfold Fetch. rewrite Ho, He. destruct (parsePath _) as [i|e] eqn:Ep; [|by rewrite IH].
  destruct (Unixfs_Get i) as [nd|e] eqn:Eu; [|by rewrite IH]. destruct nd as [b r|]; rewrite IH by done; cbn; by rewrite <- app_assoc.
Qed.

(** A file longer than the limit is not refused: its beginning is returned as if it
    were the whole file. *)
Theorem ipfs_fetch_truncates p f w i body : opened f = true -> openErr f = None -> parsePath (Join (distPath f) p) = Ok i -> Unixfs_Get i = Ok (UFile body None) ->
  0 < limit f < Z.of_nat (String.length body) -> exists s, (Fetch p f w).1.1 = Ok s /\ s <> body /\ HasPrefix body s = true.
Proof.
  intros Ho He Hp Hg Hl. unfold Fetch, read_body. rewrite Ho, He, Hp, Hg. cbn. rewrite (proj2 (Z.eqb_neq (limit f) 0)) by lia. rewrite (proj2 (Z.leb_le _ _)) by lia. cbn.
  eexists. split; [done|]. set (n := Z.to_nat (limit f)). assert (Hn : (n < String.length body)%nat) by lia. clearbody n. clear -Hn. unfold HasPrefix.
  assert (Hlen : String.length (substring 0 n body) = n /\ String.prefix (substring 0 n body) body = true).
  { revert n Hn. induction body as [|x s IH]; intros [|n] Hn; cbn in *; [lia|lia|done|]. destruct (IH n) as [-> ->]; [lia|]. split; [done|]. by destruct (ascii_dec x x). }
  destruct Hlen as [Hlen Hpre]. split; [|done]. intros E. rewrite E in Hlen. lia.
Qed.
End FetcherTheorems.

(** ** Theorems: keeping migrations *)

Section AddTheorems.
Context `{MainNode} (DownloadDirectory : string) (Walk : string -> list walk_entry) (pin : bool).

Lemma add_files_all paths t : add_files paths pin = (None, t) -> t = (fun p => AddFile p pin) <$> paths.
Proof.
  revert t. induction paths as [|p paths IH]; intros t; cbn [add_files]; [by intros [= <-]|]. destruct (open_file p); [done|]. destruct (ufs_Add p pin); [done|].
  destruct (add_files paths pin) as [r t']. intros [= -> <-]. by rewrite (IH t').
Qed.

Lemma each_path_all f call paths t : each_path f call paths = (None, t) -> t = call <$> paths.
Proof.
  revert t. induction paths as [|p paths IH]; intros t; cbn [each_path]; [by intros [= <-]|]. destruct (f p); [done|]. destruct (each_path f call paths) as [r t'].
  intros [= -> <-]. by rewrite (IH t').
Qed.

Lemma walk_paths_files walk ps e : walk_paths walk = Ret ps -> e ∈ walk -> w_info e = Some false -> w_path e ∈ ps.
Proof.
  revert ps. induction walk as [|x walk IH]; intros ps; [by intros _ ?%elem_of_nil|]. cbn [walk_paths]. destruct (w_info x) as [d|] eqn:Ex; [|done].
  destruct (walk_paths walk) as [qs|m]; [|done]. cbn [obind]. intros [= <-] [->|Hin]%elem_of_cons Hi; [rewrite Ex in Hi; injection Hi as ->; by left|].
  specialize (IH qs eq_refl Hin Hi). destruct d; [done|by right].
Qed.

(** What is kept of what a fetcher downloaded. *)
Definition kept (f : fetcher_kind) (t : list node_call) : Prop :=
  match f with
  | KIpfs f => FetchedPaths f <> [] /\ forall p, p ∈ FetchedPaths f -> (if pin then PinAdd p else Got p) ∈ t
  | KHttp | KRetry => DownloadDirectory <> "" -> forall e, e ∈ Walk DownloadDirectory -> w_info e = Some false -> AddFile (w_path e) pin ∈ t
  | KMulti _ | KOther => False
  end.

Lemma add_downloaded_kept t : add_downloaded DownloadDirectory Walk pin = Ret (None, t) ->
  DownloadDirectory <> "" -> forall e, e ∈ Walk DownloadDirectory -> w_info e = Some false -> AddFile (w_path e) pin ∈ t.
Proof.
  unfold add_downloaded. destruct (String.eqb_spec DownloadDirectory "") as [->|Hd]; [done|]. destruct (walk_paths _) as [ps|m] eqn:Ew; [|done]. cbn [obind]. intros [= E] _ e He Hi.
  pose proof (walk_paths_files _ _ _ Ew He Hi) as Hp. unfold addMigrationFiles in E. destruct ps as [|x ps]; [by apply elem_of_nil in Hp|]. destruct main_CoreAPI; [done|]. apply add_files_all in E as ->.
  exact (list_elem_of_fmap_2 (fun p => AddFile p pin) _ _ Hp).
Qed.

Lemma kept_one f t : match f with
    | KIpfs f => Ret (addMigrationPaths (AddrInfo f) (FetchedPaths f) pin)
    | KHttp | KRetry => add_downloaded DownloadDirectory Walk pin
    | KMulti _ | KOther => Ret (Some "cannot get migrations from unknown fetcher type", [])
    end = Ret (None, t) -> kept f t.
Proof.
  destruct f as [f| | |fs|]; try done.
  - intros [= E]. unfold addMigrationPaths in E. cbn. destruct (FetchedPaths f) as [|p ps]; [done|]. split; [done|]. destruct (pi_Addrs _); [done|]. destruct main_CoreAPI; [done|]. destruct (swarm_Connect _); [done|].
    intros x Hx. destruct pin.
    + destruct (each_path pin_Add PinAdd _) as [r t'] eqn:Ee. injection E as -> <-. apply each_path_all in Ee as ->. apply elem_of_cons. right. by apply list_elem_of_fmap_2.
    + destruct (each_path ipfsGet Got _) as [r t'] eqn:Ee. injection E as -> <-. apply each_path_all in Ee as ->. apply elem_of_cons. right. by apply list_elem_of_fmap_2.
  - exact (add_downloaded_kept t).
  - exact (add_downloaded_kept t).
Qed.

Lemma kept_mono f t t' : t ⊆ t' -> kept f t -> kept f t'.
Proof. intros Ht. destruct f as [f| | |fs|]; cbn; try done; [intros [Hne Hall]; split; [done|]; intros p Hp; by apply Ht, Hall|intros Hall Hd e He Hi; by apply Ht, Hall..]. Qed.

(** When adding the migrations succeeds, everything every fetcher has downloaded is
    in the node: each path of a fetcher over IPFS pinned, or read through the node, and
    each file in the download directory added with the pin asked for. *)
Theorem add_migrations_exact fetcher t : addMigrations DownloadDirectory Walk pin fetcher = Ret (None, t) ->
  Forall (fun f => kept f t) (match fetcher with KMulti fs => fs | f => [f] end).
Proof.
  unfold addMigrations. generalize (match fetcher with KMulti fs => fs | f => [f] end). intros fs. revert t. induction fs as [|f fs IH]; intros t; cbn [add_fetchers]; [constructor|].
  destruct (match f with KIpfs _ => _ | _ => _ end) as [[[e|] t1]|m] eqn:E; [done| |done]. cbn [obind]. destruct (add_fetchers _ _ _ fs) as [[r t2]|m]; [|done]. cbn [obind fst snd].
  intros [= -> <-]. constructor.
  - apply (kept_mono f t1); [set_solver|]. by apply kept_one.
  - eapply Forall_impl; [by apply IH|]. intros g Hg. eapply kept_mono; [|exact Hg]. set_solver.
Qed.

(** A fetcher over IPFS that was not needed makes the whole addition fail, and what
    the fetchers after it have downloaded is not added. *)
Theorem add_migrations_unused_ipfs fs1 f fs2 t : FetchedPaths f = [] -> add_fetchers DownloadDirectory Walk pin fs1 = Ret (None, t) ->
  addMigrations DownloadDirectory Walk pin (KMulti (fs1 ++ KIpfs f :: fs2)) = Ret (Some "nothing downloaded by ipfs fetcher", t).
Proof.
  intros Hf. unfold addMigrations. revert t. induction fs1 as [|g fs1 IH]; intros t; cbn [add_fetchers app].
  - intros [= <-]. cbn. by rewrite Hf.
  - destruct (match g with KIpfs _ => _ | _ => _ end) as [[[e|] t1]|m]; [done| |done]. cbn [obind]. destruct (add_fetchers _ _ _ fs1) as [[r t2]|m]; [|done]. cbn [obind fst snd].
    intros [= -> <-]. by rewrite (IH t2 eq_refl).
Qed.

(** When the download directory cannot be looked at, the walk calls its function
    with a nil information and adding the migrations panics. *)
Theorem add_migrations_walk_panics e err : DownloadDirectory <> "" -> Walk DownloadDirectory = [MkWalk e None (Some err)] ->
  addMigrations DownloadDirectory Walk pin KRetry = Panic "invalid memory address or nil pointer dereference".
Proof. intros Hd%String.eqb_neq Hw. unfold addMigrations. cbn. unfold add_downloaded. by rewrite Hd, Hw. Qed.
End AddTheorems.

(** ** The hypotheses are met *)
Module DemoFetcher.
Definition fresh (dirs : gset string) : result string := if decide ("/tmp/ipfs-temp1" ∈ dirs) then Err "file exists" else Ok "/tmp/ipfs-temp1".

#[local] Instance demo : TempNode.
Proof.
  refine {| CreateIdentity := None; InitWithIdentity := Ok (MkTempConfig "" [] [] [] ["b"] []); MkdirTemp := fresh; fsrepo_Init d c := None; fsrepo_Open := None;
    core_NewNode := None; NewCoreAPI := None; node_Identity := "p"; LocalAddrs := Ok ["/ip4/127.0.0.1/tcp/1"]; RemoveAll d := None;
    Unixfs_Get p := Ok (UFile "abcdef" None); IsValid p := None; url_Parse s := Err "no"; Filename r c := Ok c; read_file p := Err "none"; json_Bootstrap s := Err "no"; json_Peering s := Err "no"; Quote s := s |}.
  intros d x. unfold fresh. case_decide as Hd; [done|]. intros [= <-]. done.
Defined.

Definition start : world := MkWorld {["/tmp/x"]} ∅.
Definition f0 : IpfsFetcher := NewIpfsFetcher "" 3 None "".

Lemma ipfs_fetcher_releases_witness :
  let '(f, w) := run_op (f0, start) (OFetch "versions") in w <> start /\ (run_op (f, w) OClose).2 = start.
Proof.
  pose proof (ipfs_fetcher_releases (H := demo) (fun d => eq_refl) "" 3 None "" start "versions" [] [] ltac:(intros x Hx; set_solver)) as Hr.
  unfold f0. cbn [foldl fmap list_fmap] in Hr. destruct (run_op (NewIpfsFetcher "" 3 None "", start) (OFetch "versions")) as [f w] eqn:E.
  destruct Hr as [_ Hr]. split; [|exact Hr]. vm_compute in E. injection E as _ <-. discriminate.
Defined.

Definition f1 : IpfsFetcher := (open_once f0 start).1.
Lemma fetched_paths_exact_witness : FetchedPaths (foldl run_op (f1, start) (OFetch <$> ["versions"; "a"])).1 = ["/ipns/dist.ipfs.tech/versions"; "/ipns/dist.ipfs.tech/a"].
Proof. rewrite (fetched_paths_exact (H := demo) ["versions"; "a"] f1 start eq_refl eq_refl). reflexivity. Defined.

Lemma ipfs_fetch_truncates_witness : exists s, (Fetch "a" f1 start).1.1 = Ok s /\ s <> "abcdef".
Proof.
  destruct (ipfs_fetch_truncates (H := demo) "a" f1 start "/ipns/dist.ipfs.tech/a" "abcdef" eq_refl eq_refl eq_refl eq_refl ltac:(vm_compute; split; reflexivity)) as (s & Hs & Hne & _).
  by exists s.
Defined.

#[local] Instance main : MainNode := {| main_CoreAPI := None; open_file p := None; ufs_Add p b := None; swarm_Connect p := None; pin_Add p := None; ufs_Get p := Ok (UFile "" None); q s := s |}.
Definition walk (d : string) : list walk_entry := [MkWalk d (Some true) None; MkWalk (d +:+ "/a") (Some false) None].

Lemma add_migrations_exact_witness : AddFile "/dl/a" true ∈ [AddFile "/dl/a" true].
Proof.
  pose proof (add_migrations_exact (H := main) "/dl" walk true KRetry [AddFile "/dl/a" true] eq_refl) as Hk. apply Forall_inv in Hk.
  apply (Hk ltac:(discriminate) (MkWalk "/dl/a" (Some false) None)); [by right; left|reflexivity].
Defined.

Lemma add_migrations_unused_ipfs_witness : addMigrations (H := main) "/dl" walk true (KMulti [KRetry; KIpfs f0; KHttp]) = Ret (Some "nothing downloaded by ipfs fetcher", [AddFile "/dl/a" true]).
Proof. exact (add_migrations_unused_ipfs (H := main) "/dl" walk true [KRetry] f0 [KHttp] [AddFile "/dl/a" true] eq_refl eq_refl). Defined.

Lemma add_migrations_walk_panics_witness : addMigrations (H := main) "/dl" (fun d => [MkWalk d None (Some "no such file")]) true KRetry = Panic "invalid memory address or nil pointer dereference".
Proof. exact (add_migrations_walk_panics (H := main) "/dl" _ true "/dl" "no such file" ltac:(discriminate) eq_refl). Defined.
End DemoFetcher.
