(* ===== verification/LsCmd.v ===== *)
(** Listing directories: [core/commands/ls.go] and [core/commands/unixfs/ls.go].

    The entries of a directory are what [UnixfsAPI.Ls] (UnixfsAPI.v) sends; here is what
    the commands make of them and print.  Text is what is handed to the tab writer. *)
From Stdlib Require Import ZArith Lia Ascii String Sorted.
From stdpp Require Import base strings gmap sorting list.
From S2P Require Import Prelude GoStrings.

Local Open Scope Z_scope.

Definition nl : string := String (ascii_of_nat 10) "".
Definition tab : string := String (ascii_of_nat 9) "".

(** ** [ls] *)

(** Types of UnixFS nodes, and of entries in the interface. *)
Definition TRaw : Z := 0.
Definition TDirectory : Z := 1.
Definition TFile : Z := 2.
Definition TMetadata : Z := 3.
Definition TSymlink : Z := 4.
Definition THAMTShard : Z := 5.
Inductive iface_type := IUnknown | IFile | IDirectory | ISymlink.

Record dir_entry := MkEntry { de_Name : string; de_Cid : string; de_Size : Z; de_Type : iface_type; de_Target : string; de_Err : option error }.
Record LsLink := MkLink { Name : string; Hash : string; Size : Z; Type_ : Z; Target : string }.
Record LsObject := MkObject { o_Hash : string; Links : list LsLink }.
Definition LsOutput : Type := list LsObject.

(** [Type_] is left at its zero value for an unknown entry. *)
Definition link_of (enc : string -> string) (e : dir_entry) : LsLink :=
  MkLink (de_Name e) (enc (de_Cid e)) (de_Size e)
    (match de_Type e with IFile => TFile | IDirectory => TDirectory | ISymlink => TSymlink | IUnknown => TRaw end) (de_Target e).

Section Ls.
Context (enc : string -> string) (Ls : string -> result (list dir_entry)).

(** Without [--stream]: the links of a directory. *)
Fixpoint collect_links (results : list dir_entry) (outputLinks : list LsLink) : result (list LsLink) :=
  match results with
  | [] => Ok outputLinks
  | e :: results => match de_Err e with Some err => Err err | None => collect_links results (outputLinks ++ [link_of enc e]) end
  end.

(** [sort.Slice] by names. *)
Fixpoint ls_all (sort_Slice : list LsLink -> list LsLink) (paths : list string) (output : list LsObject) : result (list LsObject) :=
  match paths with
  | [] => Ok output
  | p :: paths =>
      match Ls p with
      | Err e => Err e
      | Ok results => match collect_links results [] with Err e => Err e | Ok links => ls_all sort_Slice paths (output ++ [MkObject p (sort_Slice links)]) end
      end
  end.

(** With [--stream]: an output for each link. *)
Fixpoint emit_links (alive : LsOutput -> option error) (path : string) (results : list dir_entry) (out : list LsOutput) : option error * list LsOutput :=
  match results with
  | [] => (None, out)
  | e :: results =>
      match de_Err e with
      | Some err => (Some err, out)
      | None =>
          let o := [MkObject path [link_of enc e]] in
          match alive o with Some err => (Some err, out) | None => emit_links alive path results (out ++ [o]) end
      end
  end.
Fixpoint emit_all (alive : LsOutput -> option error) (paths : list string) (out : list LsOutput) : option error * list LsOutput :=
  match paths with
  | [] => (None, out)
  | p :: paths =>
      match Ls p with
      | Err e => (Some e, out)
      | Ok results => match emit_links alive p results out with (Some e, out) => (Some e, out) | (None, out) => emit_all alive paths out end
      end
  end.

Definition ls_Run (sort_Slice : list LsLink -> list LsLink) (alive : LsOutput -> option error) (stream : bool) (paths : list string) : option error * list LsOutput :=
  if stream then emit_all alive paths []
  else match ls_all sort_Slice paths [] with
  | Err e => (Some e, [])
  | Ok output => match alive output with Some e => (Some e, []) | None => (None, [output]) end
  end.
End Ls.

(** *** [tabularOutput] *)

Section Tabular.
Context (EscNonPrint : string -> string) (headers size multipleFolders ignoreBreaks : bool).

Definition link_text (link : LsLink) : string :=
  let dir := bool_decide (Type_ link ∈ [TDirectory; THAMTShard; TMetadata]) in
  Hash link +:+ tab +:+
  (if size then (if dir then "-" else FormatInt (Size link)) +:+ tab else "") +:+
  EscNonPrint (Name link) +:+ (if dir then "/" else "") +:+ nl.

(** What comes before an object, and the hash afterwards. *)
Definition break_text (o : LsObject) (last : string) : string * string :=
  if negb ignoreBreaks && negb (String.eqb (o_Hash o) last) then
    ((if multipleFolders then (if String.eqb last "" then "" else nl) +:+ o_Hash o +:+ ":" +:+ nl else "") +:+
     (if headers then (if size then "Hash" +:+ tab +:+ "Size" +:+ tab +:+ "Name" else "Hash" +:+ tab +:+ "Name") +:+ nl else ""), o_Hash o)
  else ("", last).

Definition lines_text (l : list LsLink) : string := foldr (fun x s => link_text x +:+ s) "" l.

Fixpoint tabularOutput (out : LsOutput) (lastObjectHash : string) : string * string :=
  match out with
  | [] => ("", lastObjectHash)
  | o :: out =>
      let '(b, last) := break_text o lastObjectHash in
      let '(t, last) := tabularOutput out last in
      (b +:+ lines_text (Links o) +:+ t, last)
  end.

(** The client prints the outputs as they come. *)
Fixpoint ls_PostRun (outs : list LsOutput) (lastObjectHash : string) : string :=
  match outs with
  | [] => ""
  | o :: outs => let '(t, last) := tabularOutput o lastObjectHash in t +:+ ls_PostRun outs last
  end.
End Tabular.

(** ** [file ls] *)

Definition ErrNotProtobuf : error := "expected protobuf dag node".

(** A node: its CID, whether it is one of the codec dag-pb with the UnixFS node in it,
    and its links (name, CID, size). *)
Record fs_node := MkFs { fs_Type : Z; FileSize : Z }.
Record ipld_node := MkIpld { n_Cid : string; n_pb : bool; n_fs : result fs_node; n_Links : list (string * string * Z) }.

Record FLink := MkFLink { f_Name : string; f_Hash : string; f_Size : Z; f_Type : string }.
Record FObject := MkFObject { fo_Hash : string; fo_Size : Z; fo_Type : string; fo_Links : list FLink }.
Record FOutput := MkFOutput { Arguments : gmap string string; Objects : gmap string FObject }.

Section FileLs.
Context (ResolveNode : string -> result ipld_node) (GetNode : string -> result ipld_node) (type_String : Z -> string).

Fixpoint file_links (links : list (string * string * Z)) : result (list FLink) :=
  match links with
  | [] => Ok []
  | (name, c, size) :: links =>
      match GetNode c with
      | Err e => Err e
      | Ok n =>
          if negb (n_pb n) then Err ErrNotProtobuf
          else match n_fs n with
          | Err e => Err e
          | Ok d =>
              match file_links links with
              | Err e => Err e
              | Ok ls => Ok (MkFLink name c (if fs_Type d =? TFile then FileSize d else size) (type_String (fs_Type d)) :: ls)
              end
          end
      end
  end.

Definition list_node (c : string) (n : ipld_node) : result FObject :=
  if negb (n_pb n) then Err ErrNotProtobuf
  else match n_fs n with
  | Err e => Err e
  | Ok d =>
      let object links := MkFObject c (FileSize d) (type_String (fs_Type d)) links in
      if fs_Type d =? TFile then Ok (object [])
      else if fs_Type d =? THAMTShard then Err "cannot list large directories yet"
      else if fs_Type d =? TDirectory then match file_links (n_Links n) with Err e => Err e | Ok ls => Ok (object ls) end
      else if fs_Type d =? TSymlink then Err "cannot list symlinks yet"
      else Err ("unrecognized type: " +:+ type_String (fs_Type d))
  end.

Fixpoint file_ls (paths : list string) (output : FOutput) : result FOutput :=
  match paths with
  | [] => Ok output
  | p :: paths =>
      match ResolveNode p with
      | Err e => Err e
      | Ok n =>
          let hash := n_Cid n in
          let output := MkFOutput (<[p := hash]> (Arguments output)) (Objects output) in
          match Objects output !! hash with
          | Some _ => file_ls paths output
          | None => match list_node hash n with Err e => Err e | Ok o => file_ls paths (MkFOutput (Arguments output) (<[hash := o]> (Objects output))) end
          end
      end
  end.
Definition file_ls_Run (paths : list string) : result FOutput := file_ls paths (MkFOutput ∅ ∅).

(** *** Text *)

(** The arguments of files and of directories; the map is ranged over in any order. *)
Fixpoint partition_args (args : list (string * string)) (objects : gmap string FObject) : result (list string * list string) :=
  match args with
  | [] => Ok ([], [])
  | (argument, hash) :: args =>
      match objects !! hash with
      | None => Err ("unresolved hash: " +:+ hash)
      | Some o =>
          match partition_args args objects with
          | Err e => Err e
          | Ok (files, dirs) => if String.eqb (fo_Type o) "Directory" then Ok (files, argument :: dirs) else Ok (argument :: files, dirs)
          end
      end
  end.

(** The directories from the argument on: each object once, under all the arguments that
    name it; [first]: nothing was printed before. *)
Fixpoint dirs_text (Esc : string -> string) (out : FOutput) (directories : list string) (seen : gset string) (first : bool) : string :=
  match directories with
  | [] => ""
  | argument :: rest =>
      match Arguments out !! argument with
      | None => ""
      | Some hash =>
          if bool_decide (hash ∈ seen) then dirs_text Esc out rest seen false
          else
            (if first then "" else nl) +:+
            (if 1 <? Z.of_nat (size (Arguments out))
             then foldr (fun arg s => (if bool_decide (Arguments out !! arg = Some hash) then Esc arg +:+ ":" +:+ nl else "") +:+ s) "" directories else "") +:+
            foldr (fun l s => Esc (f_Name l) +:+ nl +:+ s) "" (match Objects out !! hash with Some o => fo_Links o | None => [] end) +:+
            dirs_text Esc out rest ({[hash]} ∪ seen) false
      end
  end.

Definition file_ls_text (Esc : string -> string) (order : list (string * string)) (sort_Strings : list string -> list string) (out : FOutput) : result string :=
  match partition_args order (Objects out) with
  | Err e => Err e
  | Ok (files, dirs) =>
      let files := sort_Strings files in
      Ok (foldr (fun a s => a +:+ nl +:+ s) "" files +:+ dirs_text Esc out (sort_Strings dirs) ∅ (bool_decide (files = [])))
  end.
End FileLs.

(** ** Theorems *)

Section LsTheorems.
Context (enc : string -> string) (Ls : string -> result (list dir_entry)).
Context (sort_Slice : list LsLink -> list LsLink).
Hypothesis sort_Permutation : forall l, sort_Slice l ≡ₚ l.

Lemma collect_links_ok results acc links : collect_links enc results acc = Ok links ->
  Forall (fun e => de_Err e = None) results /\ links = acc ++ (link_of enc <$> results).
Proof.
  revert acc. induction results as [|e results IH]; intros acc; cbn [collect_links]; [intros [= <-]; by rewrite app_nil_r|].
  destruct (de_Err e) eqn:E; [done|]. intros [F ->]%IH. split; [by constructor|]. by rewrite <- app_assoc.
Qed.

Lemma ls_all_ok paths acc objs : ls_all enc Ls sort_Slice paths acc = Ok objs ->
  exists rs, Forall2 (fun p r => Ls p = Ok r /\ Forall (fun e => de_Err e = None) r) paths rs /\
    objs = acc ++ zip_with (fun p r => MkObject p (sort_Slice (link_of enc <$> r))) paths rs.
Proof.
  revert acc. induction paths as [|p paths IH]; intros acc; cbn [ls_all]; [intros [= <-]; exists []; split; [constructor|by rewrite app_nil_r]|].
  destruct (Ls p) as [r|e] eqn:El; [|done]. destruct (collect_links enc r []) as [links|e] eqn:Ec; [|done]. apply collect_links_ok in Ec as [F ->].
  intros (rs & F2 & ->)%IH. exists (r :: rs). split; [by constructor|]. by rewrite <- app_assoc.
Qed.

(** The outputs for the links of a directory. *)
Definition singles (p : string) (l : list LsLink) : list LsOutput := (fun k => [MkObject p [k]]) <$> l.

Lemma emit_links_ok alive p r out : (forall o, alive o = None) -> Forall (fun e => de_Err e = None) r ->
  emit_links enc alive p r out = (None, out ++ singles p (link_of enc <$> r)).
Proof.
  intros Ha F. revert out. induction F as [|e r He F IH]; intros out; cbn [emit_links]; [by rewrite app_nil_r|]. rewrite He, Ha, IH. by rewrite <- app_assoc.
Qed.

(** A listing and a streamed listing of the same directories have the same links:
    the first gives each directory its links sorted, the second sends the same links one
    by one in the order of the directories. *)
Theorem ls_listings_agree alive paths objs : (forall o, alive o = None) -> ls_Run enc Ls sort_Slice alive false paths = (None, [objs]) ->
  exists rs, Forall2 (fun p r => Ls p = Ok r) paths rs /\
    Forall2 (fun o pr => o_Hash o = pr.1 /\ Links o ≡ₚ link_of enc <$> pr.2) objs (zip paths rs) /\
    ls_Run enc Ls sort_Slice alive true paths = (None, mjoin (zip_with (fun p r => singles p (link_of enc <$> r)) paths rs)).
Proof.
  intros Ha. unfold ls_Run. destruct (ls_all enc Ls sort_Slice paths []) as [o|e] eqn:E; [|done]. rewrite Ha. intros [= ->]. apply ls_all_ok in E as (rs & F & ->). exists rs. split_and!.
  - eapply Forall2_impl; [exact F|]. by intros p r [? _].
  - clear -F sort_Permutation. induction F as [|p r paths rs [Hp Hr] F IH]; cbn; constructor; [|done]. split; [done|]. cbn. apply sort_Permutation.
  - assert (Hg : forall out, emit_all enc Ls alive paths out = (None, out ++ mjoin (zip_with (fun p r => singles p (link_of enc <$> r)) paths rs))); [|apply (Hg [])].
    induction F as [|p r paths rs [Hp Hr] F IH]; intros out; cbn [emit_all zip_with]; [by rewrite app_nil_r|]. rewrite Hp, emit_links_ok by done. rewrite IH. cbn [mjoin list_join]. by rewrite <- app_assoc.
Qed.
End LsTheorems.

Section TextTheorems.
Context (EscNonPrint : string -> string) (headers size multipleFolders ignoreBreaks : bool).
Abbreviation tabular := (tabularOutput EscNonPrint headers size multipleFolders ignoreBreaks).
Abbreviation post := (ls_PostRun EscNonPrint headers size multipleFolders ignoreBreaks).
Abbreviation breaks := (break_text headers size multipleFolders ignoreBreaks).

(** A second part of the same object is not announced again. *)
Lemma break_again p l l' last : breaks (MkObject p l') (breaks (MkObject p l) last).2 = ("", (breaks (MkObject p l) last).2).
Proof.
  unfold break_text. cbn [o_Hash]. destruct ignoreBreaks; cbn [negb andb]; [done|]. destruct (String.eqb p last) eqn:E; cbn [negb snd]; [by rewrite E|by rewrite String.eqb_refl].
Qed.

Lemma post_singles p l outs last : breaks (MkObject p l) last = ("", last) ->
  post (singles p l ++ outs) last = lines_text EscNonPrint size l +:+ post outs last.
Proof.
  assert (Hany : forall l', breaks (MkObject p l') last = breaks (MkObject p l) last) by done. intros Hb. rewrite Hb in Hany. clear Hb.
  induction l as [|k l IH]; [done|]. unfold singles in *. rewrite fmap_cons. cbn [app ls_PostRun tabularOutput]. rewrite Hany. cbn [fst snd Links lines_text foldr].
  rewrite IH by done. rewrite !string_app_nil, !string_app_assoc. reflexivity.
Qed.

Lemma post_app_last objs outs last : post (objs :: outs) last = (tabular objs last).1 +:+ post outs (tabular objs last).2.
Proof. cbn [ls_PostRun]. by destruct (tabular objs last). Qed.

(** Streamed or not, the client prints the same for the same links in the same
    order, if no directory is empty: the pieces of a directory come out as one listing,
    announced once. *)
Theorem ls_stream_text objs last : Forall (fun o => Links o <> []) objs ->
  post (mjoin ((fun o => singles (o_Hash o) (Links o)) <$> objs)) last = post [objs] last.
Proof.
  intros F. rewrite post_app_last. revert last. induction F as [|[p l] objs Hne F IH]; intros last; [done|]. rewrite fmap_cons. cbn [mjoin list_join o_Hash Links].
  destruct l as [|k l]; [done|]. unfold singles at 1. rewrite fmap_cons. cbn [app]. rewrite post_app_last. cbn [tabularOutput Links fst snd].
  destruct (breaks (MkObject p [k]) last) as [b last'] eqn:E. cbn [fst snd]. assert (Hb : breaks (MkObject p (k :: l)) last = (b, last')) by done. rewrite Hb.
  pose proof (break_again p [k] l last) as Ha. rewrite E in Ha. cbn [snd] in Ha. rewrite (post_singles p l _ last' Ha). rewrite IH.
  destruct (tabular objs last') as [t last'']. cbn [fst snd ls_PostRun lines_text foldr]. by rewrite !string_app_nil, !string_app_assoc.
Qed.
End TextTheorems.

Section FileLsTheorems.
Context (ResolveNode GetNode : string -> result ipld_node) (type_String : Z -> string).

(** An argument is listed: its CID, and what is said of the node. *)
Definition listed (out : FOutput) (p : string) : Prop :=
  exists n o, ResolveNode p = Ok n /\ Arguments out !! p = Some (n_Cid n) /\ Objects out !! n_Cid n = Some o /\ fo_Hash o = n_Cid n.

Lemma list_node_hash c n o : list_node GetNode type_String c n = Ok o -> fo_Hash o = c.
Proof.
  unfold list_node. destruct (negb _); [done|]. destruct (n_fs n) as [d|]; [|done]. destruct (_ =? TFile); [by intros [= <-]|]. destruct (_ =? THAMTShard); [done|].
  destruct (_ =? TDirectory); [destruct (file_links _ _ _); [by intros [= <-]|done]|]. by destruct (_ =? TSymlink).
Qed.

Lemma file_ls_listed paths out0 out seen : file_ls ResolveNode GetNode type_String paths out0 = Ok out ->
  (forall p, p ∈ seen -> listed out0 p) -> (forall p, is_Some (Arguments out0 !! p) -> p ∈ seen) -> (forall h o, Objects out0 !! h = Some o -> fo_Hash o = h) ->
  (forall p, p ∈ seen ++ paths -> listed out p) /\ (forall p, is_Some (Arguments out !! p) -> p ∈ seen ++ paths).
Proof.
  revert out0 seen. induction paths as [|p paths IH]; intros out0 seen; cbn [file_ls]; [intros [= <-] H1 H2 _; by rewrite app_nil_r|].
  destruct (ResolveNode p) as [n|e] eqn:Er; [|done]. cbn [Objects Arguments]. intros Hrun Hseen Hdom Hobj.
  assert (Hstep : forall objs o, objs !! n_Cid n = Some o -> (forall h o', objs !! h = Some o' -> fo_Hash o' = h) -> (forall h, is_Some (Objects out0 !! h) -> is_Some (objs !! h)) ->
    file_ls ResolveNode GetNode type_String paths (MkFOutput (<[p := n_Cid n]> (Arguments out0)) objs) = Ok out ->
    (forall q, q ∈ seen ++ p :: paths -> listed out q) /\ (forall q, is_Some (Arguments out !! q) -> q ∈ seen ++ p :: paths)).
  { intros objs o Ho Hhash Hmono Hr. replace (seen ++ p :: paths) with ((seen ++ [p]) ++ paths) by by rewrite <- app_assoc. eapply (IH _ _ Hr).
    - intros q [Hq|Hq]%elem_of_app; cbn [Arguments Objects].
      + destruct (Hseen q Hq) as (nq & oq & Hrq & Haq & Hoq & _). destruct (Hmono (n_Cid nq)) as [o' Ho']; [by exists oq|]. exists nq, o'. cbn. split_and!; [done| |done|by apply Hhash].
        destruct (decide (q = p)) as [->|Hne]; [rewrite lookup_insert_eq; congruence|]. by rewrite lookup_insert_ne.
      + apply list_elem_of_singleton in Hq as ->. exists n, o. cbn. split_and!; [done|by rewrite lookup_insert_eq|done|by apply Hhash].
    - intros q. cbn. destruct (decide (q = p)) as [->|Hne]; [intros _; set_solver|]. rewrite lookup_insert_ne by done. intros Hq%Hdom. set_solver.
    - exact Hhash. }
  destruct (Objects out0 !! n_Cid n) as [o|] eqn:Eo; [by eapply (Hstep (Objects out0) o)|].
  destruct (list_node GetNode type_String (n_Cid n) n) as [o|e] eqn:El; [|done]. eapply (Hstep _ o); [by rewrite lookup_insert_eq| | |exact Hrun].
  - intros h o'. destruct (decide (h = n_Cid n)) as [->|Hne]; [rewrite lookup_insert_eq; intros [= <-]; by eapply list_node_hash|]. rewrite lookup_insert_ne by done. apply Hobj.
  - intros h Hh. destruct (decide (h = n_Cid n)) as [->|Hne]; [rewrite lookup_insert_eq; by eexists|]. by rewrite lookup_insert_ne.
Qed.

(** A successful [file ls] lists exactly its arguments, each under the CID it
    resolves to with the object of that CID, however often a node is named; so its text
    never fails on an argument without an object. *)
Theorem file_ls_exact paths out : file_ls_Run ResolveNode GetNode type_String paths = Ok out ->
  (forall p, p ∈ paths <-> is_Some (Arguments out !! p)) /\ (forall p, p ∈ paths -> listed out p) /\
  (forall esc order sorted, (forall a h, (a, h) ∈ order -> Arguments out !! a = Some h) -> exists t, file_ls_text esc order sorted out = Ok t).
Proof.
  intros Hr. destruct (file_ls_listed paths _ out [] Hr) as [Hl Hd]; [by intros p ?%elem_of_nil|by intros p [? ?]|done|]. cbn in Hl, Hd. split_and!; [|done|].
  - intros p. split; [intros (n & o & _ & Ha & _)%Hl; by eexists|apply Hd].
  - intros esc order sorted Ho. unfold file_ls_text.
    assert (Hp : exists fd, partition_args order (Objects out) = Ok fd).
    { induction order as [|[a h] order IH]; [by eexists|]. cbn [partition_args]. destruct (Ho a h) as []; [by left|].
      assert (Hobj : is_Some (Objects out !! h)). { pose proof (Ho a h ltac:(by left)) as Ha. destruct (Hl a) as (n & o & _ & Ha' & Hobj & _); [apply Hd; by exists h|]. rewrite Ha in Ha'. injection Ha' as ->. by exists o. }
      destruct Hobj as [o ->]. destruct IH as [[fs ds] ->]; [intros a' h' Hin; apply Ho; by right|]. destruct (String.eqb _ _); by eexists. }
    destruct Hp as [[fs ds] ->]. by eexists.
Qed.
End FileLsTheorems.

(** ** The hypotheses are met *)
Module DemoLs.
Definition entry (n : string) : dir_entry := MkEntry n ("Q" +:+ n) 3 IFile "" None.
Definition ls (p : string) : result (list dir_entry) := if String.eqb p "d" then Ok [entry "b"; entry "a"] else Err "not found".
Definition enc (c : string) : string := c.
Definition alive (o : LsOutput) : option error := None.
Definition sort (l : list LsLink) : list LsLink := reverse l.
Lemma sort_perm l : sort l ≡ₚ l.
Proof. apply reverse_Permutation. Qed.
Definition link (n : string) : LsLink := link_of enc (entry n).

Lemma ls_listings_agree_witness : ls_Run enc ls sort alive true ["d"] = (None, [[MkObject "d" [link "b"]]; [MkObject "d" [link "a"]]]).
Proof.
  destruct (ls_listings_agree enc ls sort sort_perm alive ["d"] [MkObject "d" [link "a"; link "b"]] (fun o => eq_refl) eq_refl) as (rs & F & _ & E).
  inversion F as [|p r ps rs' Hr F']; subst. inversion F'; subst. injection Hr as <-. exact E.
Defined.

Lemma ls_stream_text_witness : ls_PostRun enc true true true false [[MkObject "d" [link "b"]]; [MkObject "d" [link "a"]]] "" = ls_PostRun enc true true true false [[MkObject "d" [link "b"; link "a"]]] "".
Proof. apply (ls_stream_text enc true true true false [MkObject "d" [link "b"; link "a"]] ""). by repeat constructor. Defined.

Definition file : ipld_node := MkIpld "Qf" true (Ok (MkFs TFile 3)) [].
Definition dir : ipld_node := MkIpld "Qd" true (Ok (MkFs TDirectory 0)) [("f", "Qf", 11)].
Definition resolve (p : string) : result ipld_node := if String.eqb p "Qd" then Ok dir else Ok file.
Definition type_name (t : Z) : string := if t =? TDirectory then "Directory" else "File".
Definition listing : FOutput := match file_ls_Run resolve resolve type_name ["Qd"; "x"; "Qf"] with Ok o => o | Err _ => MkFOutput ∅ ∅ end.

Lemma file_ls_exact_witness : is_Some (Arguments listing !! "x") /\ exists t, file_ls_text (fun s => s) [("Qd", "Qd"); ("x", "Qf"); ("Qf", "Qf")] (fun l => l) listing = Ok t.
Proof.
  destruct (file_ls_exact resolve resolve type_name ["Qd"; "x"; "Qf"] listing eq_refl) as (Hd & _ & Ht). split; [apply Hd; set_solver|].
  apply Ht. intros a h Hin. rewrite !elem_of_cons in Hin. destruct Hin as [E | [E | [E | Hin]]]; [injection E as -> ->; reflexivity..|by apply elem_of_nil in Hin].
Defined.
End DemoLs.
