(* ===== verification/FuseIpns.v ===== *)
(** The writable FUSE file system under /ipns: [fuse/ipns/ipns_unix.go].

    The mutable file system below is the class [MfsTree], with what the library's
    documentation says of it as laws of a view: the entries of directories, and the
    content and position of open descriptors.  The kernel's requests are arguments. *)
From Stdlib Require Import ZArith Lia Ascii String.
From stdpp Require Import base strings gmap list.
From S2P Require Import Prelude GoStrings.

Local Open Scope Z_scope.

Abbreviation bytes := (list byte).

Definition ENOENT : error := "no such file or directory".
Definition EIO : error := "input/output error".
Definition EPERM : error := "operation not permitted".
Definition ENOTSUP : error := "operation not supported".

Inductive access := ReadOnly | WriteOnly | ReadWrite.
Record open_flags := MkFlags { acc : access; OpenTruncate : bool; OpenAppend : bool }.
Definition reads (f : open_flags) : bool := match acc f with WriteOnly => false | _ => true end.
Definition writes (f : open_flags) : bool := match acc f with ReadOnly => false | _ => true end.

Inductive entry_type := EDir | EFile | ELink | EOther.

(** ** The mutable file system *)

Class MfsTree := {
  M : Type; dirh : Type; fileh : Type; fd : Type; dnode : Type;
  Child : dirh -> string -> M -> result (dirh + fileh);
  List : dirh -> M -> result (list (string * entry_type));
  Mkdir : dirh -> string -> M -> result dirh * M;
  AddChild : dirh -> string -> dnode -> M -> option error * M;
  Unlink : dirh -> string -> M -> option error * M;
  GetNode : dirh + fileh -> M -> result dnode;
  empty_file : dnode;
  file_Size : fileh -> M -> result Z;
  file_Flush : fileh -> M -> option error * M;
  Open : fileh -> bool -> bool -> M -> result fd * M;
  fd_Seek_start : fd -> Z -> M -> option error * M;
  fd_Seek_end : fd -> M -> option error * M;
  fd_Size : fd -> M -> result Z;
  fd_ReadFull : fd -> nat -> M -> bytes * option error * M;
  fd_WriteAt : fd -> bytes -> Z -> M -> result Z * M;
  fd_Flush : fd -> M -> option error * M;
  fd_Truncate : fd -> Z -> M -> option error * M;
  fd_Close : fd -> M -> option error * M;
}.

Section Fuse.
Context `{MfsTree}.

(** ** Directories *)

Inductive fs_node := NDirectory (d : dirh) | NFile (f : fileh) | NLink (target : string) | NUnknown.

Definition dir_Lookup (d : dirh) (name : string) (m : M) : result fs_node :=
  match Child d name m with
  | Err _ => Err ENOENT
  | Ok (inl c) => Ok (NDirectory c)
  | Ok (inr f) => Ok (NFile f)
  end.

(** An entry that is neither has the type zero. *)
Definition dir_ReadDirAll (d : dirh) (m : M) : result (list (string * entry_type)) :=
  match List d m with
  | Err e => Err e
  | Ok [] => Err ENOENT
  | Ok l => Ok l
  end.

Definition dir_Mkdir (d : dirh) (name : string) (m : M) : result fs_node * M :=
  match Mkdir d name m with (Err e, m) => (Err e, m) | (Ok c, m) => (Ok (NDirectory c), m) end.

Definition dir_Create (d : dirh) (name : string) (flags : open_flags) (m : M) : result (fs_node * fd) * M :=
  match AddChild d name empty_file m with
  | (Some e, m) => (Err e, m)
  | (None, m) =>
      match Child d name m with
      | Err e => (Err e, m)
      | Ok (inl _) => (Err "child creation failed", m)
      | Ok (inr fi) => match Open fi (reads flags) (writes flags) m with (Err e, m) => (Err e, m) | (Ok h, m) => (Ok (NFile fi, h), m) end
      end
  end.

Definition dir_Remove (d : dirh) (name : string) (m : M) : option error * M :=
  match Unlink d name m with (Some _, m) => (Some ENOENT, m) | (None, m) => (None, m) end.

Definition dir_Rename (d : dirh) (OldName : string) (newDir : fs_node) (NewName : string) (m : M) : option error * M :=
  match Child d OldName m with
  | Err e => (Some e, m)
  | Ok cur =>
      match Unlink d OldName m with
      | (Some e, m) => (Some e, m)
      | (None, m) =>
          match newDir with
          | NDirectory d' =>
              match GetNode cur m with
              | Err e => (Some e, m)
              | Ok nd => AddChild d' NewName nd m
              end
          | NFile _ => (Some EPERM, m)
          | _ => (Some "unknown fs node type", m)
          end
      end
  end.

(** ** Files *)

(** [FileNode.Attr]: the size; [File.Fsync], [File.Flush] end with the context. *)
Definition file_Attr (f : fileh) (m : M) : result Z :=
  match file_Size f m with Err e => Err ("fuse/ipns: failed to get file.Size(): " +:+ e) | Ok n => Ok (u64 n) end.

Definition file_Open (f : fileh) (flags : open_flags) (m : M) : result fd * M :=
  match Open f (reads flags) (writes flags) m with
  | (Err e, m) => (Err e, m)
  | (Ok h, m) =>
      if OpenTruncate flags then
        match acc flags with
        | ReadOnly => (Err ENOTSUP, m)
        | _ => match fd_Truncate h 0 m with (Some e, m) => (Err e, m) | (None, m) => (Ok h, m) end
        end
      else if OpenAppend flags then
        match acc flags with
        | ReadOnly => (Err ENOTSUP, m)
        | _ => match fd_Seek_end h m with (Some e, m) => (Err e, m) | (None, m) => (Ok h, m) end
        end
      else (Ok h, m)
  end.

(** The data answered, and the error; [ctx]: the error of the context if it is over. *)
Definition fd_Read (h : fd) (Size Offset : Z) (ctx : option error) (m : M) : outcome (bytes * option error) * M :=
  match fd_Seek_start h Offset m with
  | (Some e, m) => (Ret ([], Some e), m)
  | (None, m) =>
      match fd_Size h m with
      | Err e => (Ret ([], Some e), m)
      | Ok fisize =>
          match ctx with
          | Some e => (Ret ([], Some e), m)
          | None =>
              let readsize := Z.min Size (i64 (fisize - Offset)) in
              if readsize <? 0 then (Panic "slice bounds out of range", m)
              else let '(data, err, m) := fd_ReadFull h (Z.to_nat readsize) m in (Ret (data, err), m)
          end
      end
  end.

Definition fd_Write (h : fd) (data : bytes) (Offset : Z) (m : M) : result Z * M := fd_WriteAt h data Offset m.

Definition fd_Setattr (h : fd) (Size : option Z) (m : M) : option error * M :=
  match Size with
  | None => (None, m)
  | Some n =>
      match fd_Size h m with
      | Err e => (Some e, m)
      | Ok cursize => if negb (cursize =? i64 n) then fd_Truncate h (i64 n) m else (None, m)
      end
  end.

Definition fd_Release (h : fd) (m : M) : option error * M := fd_Close h m.
End Fuse.

(** ** The root *)

Record key := MkKey { k_Name : string; k_Path : string; k_ID : string; k_Pretty : string }.

Section Root.
Context {R D : Type}.

(** [local]: the directories of the keys by the names of their peers; [links]: the
    aliases; [roots]: what is to be closed. *)
Record root := MkRoot { Keys : list (string * key); IpfsRoot : string; LocalDirs : gmap string D; LocalLinks : gmap string string; Roots : gmap string R }.

(** [ErrResolveFailed] stands for a key that was never published: an empty directory. *)
Definition ErrResolveFailed : error := "could not resolve name".
Definition loadRoot {N} (ResolveNode : string -> result (N + ())) (empty : N) (NewRoot : N -> key -> result (R * D)) (k : key) : result (R * D) :=
  match ResolveNode (k_Path k) with
  | Ok (inl pbnode) => NewRoot pbnode k
  | Ok (inr _) => Err "expected protobuf dag node"
  | Err e => if String.eqb e ErrResolveFailed then NewRoot empty k else Err e
  end.

(** [keys] in the order in which the map is ranged over. *)
Fixpoint load_keys (load : key -> result (R * D)) (keys : list (string * key)) (r : root) : result root :=
  match keys with
  | [] => Ok r
  | (alias, k) :: keys =>
      match load k with
      | Err e => Err e
      | Ok (mr, d) => load_keys load keys (MkRoot (Keys r) (IpfsRoot r) (<[k_ID k := d]> (LocalDirs r)) (<[alias := k_ID k]> (LocalLinks r)) (<[k_ID k := mr]> (Roots r)))
      end
  end.
Definition CreateRoot (load : key -> result (R * D)) (keys : list (string * key)) (ipfspath : string) : result root :=
  load_keys load keys (MkRoot keys ipfspath ∅ ∅ ∅).

(** What a name in the root is. *)
Inductive root_entry := RLink (target : string) | RDir (d : D).

(** [Resolve]: the namespace and the text of the path a name resolves to. *)
Definition root_Lookup (Resolve : string -> result (string * string)) (r : root) (name : string) : result root_entry :=
  if bool_decide (name ∈ ["mach_kernel"; ".hidden"; "._."]) then Err ENOENT
  else match LocalLinks r !! name with
  | Some t => Ok (RLink t)
  | None =>
      match LocalDirs r !! name with
      | Some d => Ok (RDir d)
      | None =>
          match Resolve ("/ipns/" +:+ name) with
          | Err _ => Err ENOENT
          | Ok (ns, text) =>
              if negb (String.eqb ns "ipfs") then Err "invalid path from ipns record"
              else Ok (RLink (IpfsRoot r +:+ "/" +:+ TrimPrefix text "/ipfs/"))
          end
      end
  end.

Definition root_ReadDirAll (r : root) : list (string * entry_type) := mjoin ((fun ak => [((ak : string * key).2.(k_Pretty), EDir); (ak.1, ELink)]) <$> Keys r).

(** The roots that were closed, in the order in which the map is ranged over, and the
    error. *)
Fixpoint root_Close (close : R -> option error) (roots : list R) : list R * option error :=
  match roots with
  | [] => ([], None)
  | mr :: roots => match close mr with Some e => ([mr], Some e) | None => let '(l, e) := root_Close close roots in (mr :: l, e) end
  end.
End Root.

(** ** What the library documents *)

(** Names of directories; descriptors that are open, their content and position.
    Seeking past the end extends a file. *)
Class TreeLaws `{MfsTree} := {
  dirh_eq :: EqDecision dirh;
  names : dirh -> M -> gset string;
  opened : M -> nat;
  content : fd -> M -> bytes;
  pos : fd -> M -> nat;
  Child_names d n m c : Child d n m = Ok c -> n ∈ names d m;
  Unlink_names d n m m' : Unlink d n m = (None, m') ->
    names d m' = names d m ∖ {[n]} /\ (forall d', d' <> d -> names d' m' = names d' m) /\ (forall c, GetNode c m' = GetNode c m);
  AddChild_ok d n nd m m' : AddChild d n nd m = (None, m') ->
    (n ∉ names d m) /\ names d m' = {[n]} ∪ names d m /\ (forall d', d' <> d -> names d' m' = names d' m) /\ opened m' = opened m /\
    exists c, Child d n m' = Ok c /\ GetNode c m' = Ok nd;
  AddChild_err d n nd m e m' : AddChild d n nd m = (Some e, m') -> forall d', names d' m' = names d' m;
  AddChild_dup d n nd m : n ∈ names d m -> exists e m', AddChild d n nd m = (Some e, m');
  Open_opened f r w m h m' : Open f r w m = (Ok h, m') -> opened m' = S (opened m) /\ forall d, names d m' = names d m;
  Open_err f r w m e m' : Open f r w m = (Err e, m') -> opened m' = opened m;
  Truncate_opened h n m r m' : fd_Truncate h n m = (r, m') -> opened m' = opened m;
  Seek_end_opened h m r m' : fd_Seek_end h m = (r, m') -> opened m' = opened m;
  Seek_start_content h o m : 0 <= o -> exists m', fd_Seek_start h o m = (None, m') /\
    content h m' = resize (length (content h m) `max` Z.to_nat o) Byte.x00 (content h m) /\ pos h m' = Z.to_nat o;
  Size_content h m : fd_Size h m = Ok (Z.of_nat (length (content h m)));
  ReadFull_content h n m : (n <= length (drop (pos h m) (content h m)))%nat ->
    exists m', fd_ReadFull h n m = (take n (drop (pos h m) (content h m)), None, m') /\ content h m' = content h m;
  WriteAt_content h data o m n m' : 0 <= o -> fd_WriteAt h data o m = (Ok n, m') ->
    n = Z.of_nat (length data) /\ take (length data) (drop (Z.to_nat o) (content h m')) = data;
}.

(** ** Theorems *)

Section FuseTheorems.
Context `{TreeLaws}.

(** A rename that succeeds moves the node: it is in the new directory under the new
    name and gone under the old one, and no other name of the two directories changes. *)
Theorem rename_moves d old d' new m m' : dir_Rename d old (NDirectory d') new m = (None, m') ->
  exists c nd, Child d old m = Ok c /\ GetNode c m = Ok nd /\ (exists c', Child d' new m' = Ok c' /\ GetNode c' m' = Ok nd) /\
    (d = d' -> names d m' = {[new]} ∪ names d m ∖ {[old]}) /\
    (d <> d' -> names d m' = names d m ∖ {[old]} /\ names d' m' = {[new]} ∪ names d' m).
Proof.
  unfold dir_Rename. destruct (Child d old m) as [c|e] eqn:Ec; [|done]. destruct (Unlink d old m) as [[e|] m1] eqn:Eu; [done|].
  destruct (Unlink_names _ _ _ _ Eu) as (Hd & Ho & Hg). destruct (GetNode c m1) as [nd|e] eqn:En; [|done]. intros Ha.
  destruct (AddChild_ok _ _ _ _ _ Ha) as (_ & Hn & Hother & _ & Hc). exists c, nd. split_and!; [done|by rewrite <- Hg|done| |].
  - intros <-. by rewrite Hn, Hd.
  - intros Hne. split; [by rewrite Hother, Hd|]. by rewrite Hn, Ho.
Qed.

(** A rename onto a name that is taken removes the old name and then fails to add
    the new one: it answers an error, and the node is in no directory any more. *)
Theorem rename_loses_node d old d' new m c m1 : Child d old m = Ok c -> Unlink d old m = (None, m1) -> new ∈ names d' m -> (d' <> d \/ new <> old) ->
  exists e m', dir_Rename d old (NDirectory d') new m = (Some e, m') /\ (old ∉ names d m') /\ forall d2, names d2 m' ⊆ names d2 m.
Proof.
  intros Hc Hu Hn Hne. destruct (Unlink_names _ _ _ _ Hu) as (Hd & Ho & Hg). unfold dir_Rename. rewrite Hc, Hu.
  assert (Hsub : forall d2, names d2 m1 ⊆ names d2 m) by (intros d2; destruct (decide (d2 = d)) as [->|Hd2]; [rewrite Hd; set_solver|by rewrite Ho]).
  destruct (GetNode c m1) as [nd|e]; [|exists e, m1; split_and!; [done|rewrite Hd; set_solver|done]].
  assert (Hin : new ∈ names d' m1) by (destruct (decide (d' = d)) as [->|Hd2]; [rewrite Hd; set_solver|by rewrite Ho]).
  destruct (AddChild_dup d' new nd m1 Hin) as (e & m2 & Ha). rewrite Ha. pose proof (AddChild_err _ _ _ _ _ _ Ha) as Hs. exists e, m2. split_and!; [done|rewrite Hs, Hd; set_solver|].
  intros d2. rewrite Hs. apply Hsub.
Qed.

(** Creating a file answers a descriptor of a new file: the name was free, it is the
    only name added, and one descriptor more is open. *)
Theorem create_exact d name flags m n h m' : dir_Create d name flags m = (Ok (n, h), m') ->
  (name ∉ names d m) /\ names d m' = {[name]} ∪ names d m /\ (exists f, n = NFile f) /\ opened m' = S (opened m).
Proof.
  unfold dir_Create. destruct (AddChild d name empty_file m) as [[e|] m1] eqn:Ea; [done|]. destruct (AddChild_ok _ _ _ _ _ Ea) as (Hn & Hd & _ & Ho & _).
  destruct (Child d name m1) as [[c|f]|e]; [done| |done]. destruct (Open f _ _ m1) as [[h1|e] m2] eqn:Eo; [|done]. intros [= <- <- <-].
  destruct (Open_opened _ _ _ _ _ _ Eo) as [Hc Hnames]. split_and!; [done|by rewrite Hnames|by exists f|by rewrite Hc, Ho].
Qed.

(** Opening a file for reading with the flag to truncate or to append is refused
    with the descriptor already open, and nobody has it to close it. *)
Theorem open_refused_leaks f flags m h m1 : acc flags = ReadOnly -> OpenTruncate flags || OpenAppend flags = true -> Open f true false m = (Ok h, m1) ->
  file_Open f flags m = (Err ENOTSUP, m1) /\ opened m1 = S (opened m).
Proof.
  intros Ha Hf Ho. unfold file_Open, reads, writes. rewrite Ha, Ho. split; [|by apply Open_opened in Ho as [? _]].
  destruct (OpenTruncate flags); [done|]. by destruct (OpenAppend flags).
Qed.

(** Reading never panics, and gives the bytes from the offset on, as many as asked
    for and there are. *)
Theorem fuse_read_exact h Size Offset m : 0 <= Size -> 0 <= Offset < 2 ^ 63 -> Z.of_nat (length (content h m)) < 2 ^ 63 ->
  exists m', fd_Read h Size Offset None m = (Ret (take (Z.to_nat Size) (drop (Z.to_nat Offset) (content h m)), None), m') /\
    (Offset <= Z.of_nat (length (content h m)) -> content h m' = content h m).
Proof.
  intros Hs Ho Hb. unfold fd_Read. destruct (Seek_start_content h Offset m) as (m1 & Hk & Hc & Hp); [lia|]. rewrite Hk, Size_content.
  assert (Hlen : length (content h m1) = Nat.max (length (content h m)) (Z.to_nat Offset)) by (rewrite Hc; apply length_resize).
  rewrite i64_small by lia.
  destruct (Z.ltb_spec (Z.min Size (Z.of_nat (length (content h m1)) - Offset)) 0) as [Hneg|Hpos]; [lia|].
  destruct (ReadFull_content h (Z.to_nat (Z.min Size (Z.of_nat (length (content h m1)) - Offset))) m1) as (m2 & Hr & Hc2); [rewrite length_drop, Hp; lia|].
  rewrite Hr. exists m2. rewrite Hp, Hc2. split.
  - apply (f_equal (fun l => (Ret (l, None), m2))). rewrite Hc. destruct (decide (Z.to_nat Offset <= length (content h m))%nat) as [Hle|Hgt].
    + rewrite (Nat.max_l _ _ Hle), resize_all.
      destruct (decide (Z.to_nat Size <= length (content h m) - Z.to_nat Offset)%nat); [f_equal; lia|]. rewrite !take_ge; [done|rewrite length_drop; lia..].
    + rewrite (drop_ge (content h m)) by lia. rewrite (drop_ge (resize _ _ _)) by (rewrite length_resize; lia). by rewrite !take_nil.
  - intros Hle. rewrite Hc, (Nat.max_l _ (Z.to_nat Offset)) by lia. apply resize_all.
Qed.

(** What is written at an offset is what reading there gives. *)
Theorem fuse_write_read h data Offset m n m1 : 0 <= Offset < 2 ^ 63 -> fd_Write h data Offset m = (Ok n, m1) -> Z.of_nat (length (content h m1)) < 2 ^ 63 ->
  n = Z.of_nat (length data) /\ exists m2, fd_Read h n Offset None m1 = (Ret (data, None), m2).
Proof.
  intros Ho Hw Hb. apply WriteAt_content in Hw as [-> Hc]; [|lia]. split; [done|].
  destruct (Seek_start_content h Offset m1) as (m' & Hk & Hc1 & Hp); [lia|]. unfold fd_Read. rewrite Hk, Size_content.
  assert (Hlen : (length data <= length (content h m1) - Z.to_nat Offset)%nat).
  { rewrite <- Hc at 1. rewrite length_take, length_drop. lia. }
  assert (Hc' : length data = 0%nat \/ content h m' = content h m1) by (destruct data as [|x data]; [by left|right; rewrite Hc1, Nat.max_l by (cbn in Hlen; lia); apply resize_all]).
  assert (Hl : length (content h m') = Nat.max (length (content h m1)) (Z.to_nat Offset)) by (rewrite Hc1; apply length_resize).
  rewrite i64_small by lia. rewrite Z.min_l by lia. destruct (Z.ltb_spec (Z.of_nat (length data)) 0); [lia|].
  destruct (ReadFull_content h (Z.to_nat (Z.of_nat (length data))) m') as (m2 & Hr & _); [rewrite length_drop, Hp; lia|]. rewrite Hr. exists m2. apply (f_equal (fun l => (Ret (l, None), m2))).
  rewrite Nat2Z.id, Hp. destruct Hc' as [Hz| ->]; [|done]. rewrite Hz. by destruct data.
Qed.
End FuseTheorems.

Section RootTheorems.
Context {R D : Type} (load : key -> result (R * D)).

Lemma load_keys_exact keys r r' : load_keys load keys r = Ok r' -> NoDup keys.*1 ->
  IpfsRoot r' = IpfsRoot r /\ Keys r' = Keys r /\
  (forall alias, LocalLinks r' !! alias = match list_find (fun ak => ak.1 = alias) keys with Some (_, (_, k)) => Some (k_ID k) | None => LocalLinks r !! alias end) /\
  (forall alias k, (alias, k) ∈ keys -> is_Some (LocalDirs r' !! k_ID k)) /\ (forall name, is_Some (LocalDirs r !! name) -> is_Some (LocalDirs r' !! name)).
Proof.
  revert r. induction keys as [|[alias k] keys IH]; intros r; cbn [load_keys]; [intros [= <-] _; split_and!; try done; by intros ? ? ?%elem_of_nil|].
  destruct (load k) as [[mr d]|e]; [|done]. intros Hl [Hni Hnd]%NoDup_cons. destruct (IH _ Hl Hnd) as (Hr & Hk & Hlinks & Hdirs & Hmono). cbn [IpfsRoot Keys LocalLinks LocalDirs] in *.
  split_and!; [done|done| | |].
  - intros a. rewrite Hlinks. cbn [list_find]. destruct (decide (alias = a)) as [->|Hne].
    + rewrite decide_True by done. destruct (list_find _ keys) as [[i [a' k']]|] eqn:Ef; [|by rewrite lookup_insert_eq].
      apply list_find_Some in Ef as (Hi & Ha & _). cbn in Ha. subst a'. destruct Hni. apply list_elem_of_fmap. exists (a, k'). split; [done|]. by eapply list_elem_of_lookup_2.
    + rewrite decide_False by done. destruct (list_find _ keys) as [[i [a' k']]|]; [done|]. cbn. by rewrite lookup_insert_ne.
  - intros a k0 [[= -> ->]|Hin]%elem_of_cons; [apply Hmono; rewrite lookup_insert_eq; by eexists|by eapply Hdirs].
  - intros name Hn. apply Hmono. destruct (decide (name = k_ID k)) as [->|Hne]; [rewrite lookup_insert_eq; by eexists|by rewrite lookup_insert_ne].
Qed.

Lemma assoc_unique {B} (l : list (string * B)) a (x y : B) : NoDup l.*1 -> (a, x) ∈ l -> (a, y) ∈ l -> x = y.
Proof.
  intros Hnd [i Hi]%list_elem_of_lookup_1 [j Hj]%list_elem_of_lookup_1.
  assert (i = j) as ->. { eapply (NoDup_lookup l.*1 i j a Hnd); rewrite list_lookup_fmap; [by rewrite Hi|by rewrite Hj]. }
  rewrite Hi in Hj. by injection Hj.
Qed.

Definition quiet_name (name : string) : Prop := name ∉ ["mach_kernel"; ".hidden"; "._."].

(** In the root of the file system each alias is a link to the name of its key, and
    following it finds that key's directory, which was loaded; any other name is
    resolved and becomes a link into the mount point of /ipfs, never anywhere else. *)
Theorem root_lookup_exact Resolve keys ipfspath r : CreateRoot load keys ipfspath = Ok r -> NoDup keys.*1 ->
  (forall alias k, (alias, k) ∈ keys -> quiet_name alias -> root_Lookup Resolve r alias = Ok (RLink (k_ID k))) /\
  (forall alias k, (alias, k) ∈ keys -> quiet_name (k_ID k) -> k_ID k ∉ keys.*1 -> exists d, root_Lookup Resolve r (k_ID k) = Ok (RDir d)) /\
  (forall name t, name ∉ keys.*1 -> root_Lookup Resolve r name = Ok (RLink t) -> exists text, Resolve ("/ipns/" +:+ name) = Ok ("ipfs", text) /\ t = ipfspath +:+ "/" +:+ TrimPrefix text "/ipfs/").
Proof.
  intros Hc Hnd. destruct (load_keys_exact _ _ _ Hc Hnd) as (Hr & _ & Hlinks & Hdirs & _). cbn [IpfsRoot LocalLinks] in *.
  assert (Hnone : forall name, name ∉ keys.*1 -> LocalLinks r !! name = None).
  { intros name Hn. rewrite Hlinks. destruct (list_find _ keys) as [[i [a k]]|] eqn:Ef; [|done]. apply list_find_Some in Ef as (Hi & Ha & _). cbn in Ha. subst a. destruct Hn. apply list_elem_of_fmap.
    exists (name, k). split; [done|]. by eapply list_elem_of_lookup_2. }
  assert (Hsome : forall alias k, (alias, k) ∈ keys -> LocalLinks r !! alias = Some (k_ID k)).
  { intros alias k Hin. rewrite Hlinks. destruct (list_find _ keys) as [[i [a k']]|] eqn:Ef.
    - apply list_find_Some in Ef as (Hi & Ha & _). cbn in Ha. subst a. apply list_elem_of_lookup_2 in Hi. by rewrite (assoc_unique keys alias k k' Hnd Hin Hi).
    - apply list_find_None in Ef. rewrite Forall_forall in Ef. by destruct (Ef _ Hin). }
  split_and!.
  - intros alias k Hin Hq. unfold root_Lookup. rewrite bool_decide_eq_false_2 by done. by rewrite (Hsome alias k Hin).
  - intros alias k Hin Hq Hn. unfold root_Lookup. rewrite bool_decide_eq_false_2 by done. rewrite Hnone by done. destruct (Hdirs alias k Hin) as [d Hd]. exists d. by rewrite Hd.
  - intros name t Hn. unfold root_Lookup. case_bool_decide; [done|]. rewrite Hnone by done. destruct (LocalDirs r !! name); [done|]. destruct (Resolve _) as [[ns text]|e]; [|done].
    destruct (String.eqb_spec ns "ipfs") as [->|]; [|done]. cbn [negb]. intros [= <-]. exists text. by rewrite Hr.
Qed.

(** Closing the file system stops at the first root that fails to close; the roots
    after it are not closed. *)
Theorem root_close_stops (close : R -> option error) l1 mr l2 e : Forall (fun r => close r = None) l1 -> close mr = Some e ->
  root_Close close (l1 ++ mr :: l2) = (l1 ++ [mr], Some e).
Proof. intros F He. induction F as [|r l1 Hr F IH]; cbn; [by rewrite He|]. by rewrite Hr, IH. Qed.
End RootTheorems.

(** An empty directory cannot be listed: reading it answers that it does not exist. *)
Theorem empty_dir_missing `{MfsTree} d m : List d m = Ok [] -> dir_ReadDirAll d m = Err ENOENT.
Proof. intros Hl. unfold dir_ReadDirAll. by rewrite Hl. Qed.

(** ** The hypotheses are met *)
Module DemoFuse.

(** Numbered directories of files, and one file with a descriptor. *)
Record fsys := MkFs { tree : nat -> gmap string bytes; count : nat; cont : bytes; at_ : nat }.
Definition set_dir (d : nat) (g : gmap string bytes) (m : fsys) : fsys := MkFs (fun d' => if decide (d' = d) then g else tree m d') (count m) (cont m) (at_ m).
Definition bump (m : fsys) : fsys := MkFs (tree m) (S (count m)) (cont m) (at_ m).
Definition write_at (o : nat) (data c : bytes) : bytes := take o (resize (length c `max` o) Byte.x00 c) ++ data ++ drop (o + length data) c.

#[local] Instance demo : MfsTree := {|
  M := fsys; dirh := nat; fileh := bytes; fd := unit; dnode := bytes;
  Child d n m := match tree m d !! n with Some b => Ok (inr b) | None => Err "file does not exist" end;
  List d m := Ok ((fun nb => (nb.1, EFile)) <$> map_to_list (tree m d));
  Mkdir d n m := (Err "not supported", m);
  AddChild d n nd m := match tree m d !! n with Some _ => (Some "directory already has entry by that name", m) | None => (None, set_dir d (<[n := nd]> (tree m d)) m) end;
  Unlink d n m := match tree m d !! n with Some _ => (None, set_dir d (delete n (tree m d)) m) | None => (Some "file does not exist", m) end;
  GetNode c m := match c with inr b => Ok b | inl _ => Err "a directory" end;
  empty_file := []; file_Size f m := Ok (Z.of_nat (length f)); file_Flush f m := (None, m);
  Open f r w m := (Ok tt, bump m);
  fd_Seek_start h o m := (None, MkFs (tree m) (count m) (resize (length (cont m) `max` Z.to_nat o) Byte.x00 (cont m)) (Z.to_nat o));
  fd_Seek_end h m := (None, m); fd_Size h m := Ok (Z.of_nat (length (cont m)));
  fd_ReadFull h n m := (take n (drop (at_ m) (cont m)), None, m);
  fd_WriteAt h data o m := (Ok (Z.of_nat (length data)), MkFs (tree m) (count m) (write_at (Z.to_nat o) data (cont m)) (at_ m));
  fd_Flush h m := (None, m); fd_Truncate h n m := (None, m); fd_Close h m := (None, m) |}.

Lemma dom_set d d' g m : dom (tree (set_dir d g m) d') = if decide (d' = d) then dom g else dom (tree m d').
Proof. cbn. by case_decide. Qed.

#[local] Instance laws : TreeLaws.
Proof.
  refine {| names d m := dom (tree m d) : gset string; opened m := count m; content h m := cont m; pos h m := at_ m |}.
  - intros d n m c. cbn. destruct (tree m d !! n) eqn:E; [|done]. intros _. apply elem_of_dom. by eexists.
  - intros d n m m'. cbn. destruct (tree m d !! n) eqn:E; [|done]. intros [= <-]. split_and!; [|intros d' Hd|done]; rewrite dom_set.
    + rewrite decide_True by done. apply leibniz_equiv, dom_delete.
    + by rewrite decide_False.
  - intros d n nd m m'. cbn. destruct (tree m d !! n) eqn:E; [done|]. intros [= <-]. split_and!.
    + by apply not_elem_of_dom.
    + rewrite dom_set, decide_True by done. apply leibniz_equiv, dom_insert.
    + intros d' Hd. by rewrite dom_set, decide_False.
    + done.
    + exists (inr nd). cbn. rewrite decide_True by done. by rewrite lookup_insert_eq.
  - intros d n nd m e m'. cbn. by destruct (tree m d !! n); [intros [= <- <-]|].
  - intros d n nd m [b Hb]%elem_of_dom. cbn. rewrite Hb. by eexists _, _.
  - by intros f r w m h m' [= <- <-].
  - done.
  - by intros h n m r m' [= <- <-].
  - by intros h m r m' [= <- <-].
  - intros h o m _. by eexists.
  - done.
  - intros h n m _. by eexists.
  - intros h data o m n m' Ho [= <- <-]. split; [done|]. cbn. unfold write_at.
    assert (Hl : length (take (Z.to_nat o) (resize (length (cont m) `max` Z.to_nat o) Byte.x00 (cont m))) = Z.to_nat o) by (rewrite length_take, length_resize; lia).
    rewrite drop_app_length' by done. by rewrite take_app_length.
Defined.

Definition start : fsys := MkFs (fun d => if decide (d = 0%nat) then {["a" := [Byte.x61]]} else {["b" := [Byte.x62]]}) 0 [Byte.x61; Byte.x62] 0.

Lemma rename_moves_witness : names (H := demo) 0%nat (dir_Rename (H := demo) 0%nat "a" (NDirectory (H := demo) 1%nat) "c" start).2 = ∅.
Proof.
  destruct (rename_moves (H := demo) 0%nat "a" 1%nat "c" start (dir_Rename (H := demo) 0%nat "a" (NDirectory (H := demo) 1%nat) "c" start).2 eq_refl) as (c & nd & _ & _ & _ & _ & Hne).
  destruct (Hne ltac:(done)) as [-> _]. reflexivity.
Defined.

Lemma rename_loses_node_witness : exists e m', dir_Rename (H := demo) 0%nat "a" (NDirectory (H := demo) 1%nat) "b" start = (Some e, m') /\ "a" ∉ names (H := demo) 0%nat m'.
Proof.
  destruct (rename_loses_node (H := demo) 0%nat "a" 1%nat "b" start (inr ([Byte.x61] : @fileh demo)) _ eq_refl eq_refl) as (e & m' & Hr & Hn & _); [reflexivity|by left|].
  by exists e, m'.
Defined.

Lemma create_exact_witness : ("c" ∉ names (H := demo) 0%nat start) /\ opened (H := demo) (dir_Create (H := demo) 0%nat "c" (MkFlags ReadWrite false false) start).2 = 1%nat.
Proof.
  destruct (create_exact (H := demo) 0%nat "c" (MkFlags ReadWrite false false) start (NFile (H := demo) []) tt _ eq_refl) as (Hn & _ & _ & Ho). split; [exact Hn|]. exact Ho.
Defined.

Lemma open_refused_leaks_witness : file_Open (H := demo) [Byte.x61] (MkFlags ReadOnly true false) start = (Err ENOTSUP, bump start).
Proof. destruct (open_refused_leaks (H := demo) [Byte.x61] (MkFlags ReadOnly true false) start tt (bump start) eq_refl eq_refl eq_refl) as [E _]. exact E. Defined.

Lemma fuse_read_exact_witness : exists m', fd_Read (H := demo) tt 5 1 None start = (Ret ([Byte.x62], None), m').
Proof. destruct (fuse_read_exact (H := demo) (H0 := laws) tt 5 1 start ltac:(lia) ltac:(lia) (eq_refl Lt)) as (m' & E & _). exists m'. exact E. Defined.

Lemma fuse_write_read_witness : exists m2, fd_Read (H := demo) tt 2 3 None (fd_Write (H := demo) tt [Byte.x78; Byte.x79] 3 start).2 = (Ret ([Byte.x78; Byte.x79], None), m2).
Proof. destruct (fuse_write_read (H := demo) (H0 := laws) tt [Byte.x78; Byte.x79] 3 start 2 _ ltac:(lia) eq_refl (eq_refl Lt)) as [_ E]. exact E. Defined.

Definition self : key := MkKey "self" "/ipns/k51" "k51" "12D3".
Definition load (k : key) : result (unit * unit) := Ok (tt, tt).
Definition the_root : @root unit unit := match CreateRoot load [("local", self)] "/ipfs" with Ok r => r | Err _ => MkRoot [] "" ∅ ∅ ∅ end.

Lemma root_lookup_exact_witness : root_Lookup (fun s => Ok ("ipfs", "/ipfs/Qm")) the_root "local" = Ok (RLink "k51").
Proof.
  destruct (root_lookup_exact load (fun s => Ok ("ipfs", "/ipfs/Qm")) [("local", self)] "/ipfs" the_root eq_refl) as (Ha & _).
  - apply NoDup_singleton.
  - apply (Ha "local" self); [by left|]. unfold quiet_name. rewrite !elem_of_cons. intros [? | [? | [? | ?]]]; try discriminate. by apply (not_elem_of_nil "local").
Defined.

Lemma root_close_stops_witness : root_Close (fun r : nat => if decide (r = 1%nat) then Some "publish failed" else None) ([0%nat] ++ 1%nat :: [2%nat]) = ([0%nat] ++ [1%nat], Some "publish failed").
Proof. apply root_close_stops; [by repeat constructor|reflexivity]. Defined.

Lemma empty_dir_missing_witness : dir_ReadDirAll (H := demo) 0%nat (MkFs (fun _ => ∅) 0 [] 0) = Err ENOENT.
Proof. apply (empty_dir_missing (H := demo)). reflexivity. Defined.
End DemoFuse.
