(* ===== verification/PeerLog.v ===== *)
(** The plugin that logs peers: [plugin/plugins/peerlog/peerlog.go].

    The host's notifications and the goroutine that reads the event bus call [emit],
    which never blocks; one goroutine, [collectEvents], reads the queue, logs, and
    reports how many events were dropped.  Every atomic operation on the counter and
    every operation on the channel is a step: an [emit] that finds the queue full
    raises the counter later, and anything may happen in between.

    Then the dispatcher of notifications, [thirdparty/notifier/notifier.go]: the set of
    notifiees is guarded by a mutex.  [NotifyAll] starts a goroutine for each of them;
    with a rate limit it starts one goroutine, which goes through the set when the mutex
    has been released.  Calls, goroutines and the places where the process can be ended
    by a race on the map are a step relation. *)
From Stdlib Require Import ZArith Lia Ascii String.
From stdpp Require Import base strings gmap relations list.
From S2P Require Import Prelude GoStrings ConfigMap.

(** ** Starting *)

(** [config] is what the plugin finds in the configuration file, if anything. *)
Definition extractEnabled (config : option json) : bool :=
  match config with
  | Some (JObj kvs) => match mlookup "Enabled" kvs with Some (JBool enabled) => enabled | _ => false end
  | _ => false
  end.

(** What [Start] leaves behind besides its error. *)
Record started := MkStarted { st_notified : bool; st_forwarding : bool; st_collecting : bool }.

(** [SetLogLevel], [Subscribe]: the answers of the logger and of the event bus. *)
Definition Start (enabled : bool) (SetLogLevel Subscribe : option error) : started * option error :=
  if negb enabled then (MkStarted false false false, None) else
  match SetLogLevel with
  | Some e => (MkStarted false false false, Some ("failed to set log level: " +:+ e))
  | None =>
      match Subscribe with
      | Some _ => (MkStarted false false false, Some "failed to subscribe to identify notifications")
      | None => (MkStarted true true true, None)
      end
  end.

Lemma start_exact enabled l s : let '(st, e) := Start enabled l s in
  (st_collecting st = true <-> enabled = true /\ l = None /\ s = None) /\ st_notified st = st_collecting st /\ st_forwarding st = st_collecting st /\
  (e = None <-> enabled = false \/ st_collecting st = true).
Proof. unfold Start. destruct enabled, l, s; cbn; naive_solver. Qed.

(** ** The queue *)

Inductive eventType := eventConnect | eventIdentify.
Record plEvent := MkEv { kind : eventType; peer : string }.

(** What [Peerstore.Get] says of a peer's agent. *)
Inductive agent := AgentIs (s : string) | AgentOther | AgentNotFound | AgentErr (e : error).

Inductive line := Connected (p : string) | Identified (p a : string) | AgentFailed (e : error) | Dropped (count : Z).

(** Where [collectEvents] is in its loop. *)
Inductive collector :=
| Top                                       (** before the first [Swap] *)
| Sleeping (dropped : Z)
| Draining (dropped : Z) (i : Z)
| Adding (dropped : Z)                      (** before the second [Swap] *)
| Reporting (dropped : Z)
| Receiving
| Handling (e : plEvent)
| Stopped (unreported : Z).                 (** what it had counted and not reported when the context ended *)

(** [pl_late]: the calls of [emit] that found the queue full and have not raised the
    counter yet.  [pl_emitted] are the events that were emitted, [pl_handled] those that
    were logged, with what the peer store answered then; the code keeps neither. *)
Record plog := MkPlog {
  pl_events : list plEvent; pl_late : nat; droppedCount : Z; busyCounter : nat; pl_pc : collector; pl_lines : list line;
  pl_done : bool; pl_emitted : list plEvent; pl_handled : list (plEvent * agent) }.

Definition plog_start : plog := MkPlog [] 0 0 0 Top [] false [] [].

(** What is logged about an event; [found] is what [Peerstore.Get] answers. *)
Definition event_lines (ef : plEvent * agent) : list line :=
  let '(e, found) := ef in
  match kind e with
  | eventConnect => [Connected (peer e)]
  | eventIdentify =>
      match found with
      | AgentIs a => [Identified (peer e) a]
      | AgentOther | AgentNotFound => []
      | AgentErr err => [AgentFailed err]
      end
  end.

Section Queue.
(** The capacity of the queue. *)
Context (eventQueueSize : Z).

Definition busyDropAmount : Z := eventQueueSize / 8.

(** [emit]: the [select]. *)
Definition emit (e : plEvent) (s : plog) : plog :=
  if (Z.of_nat (length (pl_events s)) <? eventQueueSize)%Z
  then MkPlog (pl_events s ++ [e]) (pl_late s) (droppedCount s) (busyCounter s) (pl_pc s) (pl_lines s) (pl_done s) (pl_emitted s ++ [e]) (pl_handled s)
  else MkPlog (pl_events s) (S (pl_late s)) (droppedCount s) (busyCounter s) (pl_pc s) (pl_lines s) (pl_done s) (pl_emitted s ++ [e]) (pl_handled s).

(** [emit]: the branch taken when the queue was full. *)
Inductive emit_default : plog -> plog -> Prop :=
| EDrop q n d b p l c em h : emit_default (MkPlog q (S n) d b p l c em h) (MkPlog q n (u64 (d + 1)) b p l c em h).

(** One step of [collectEvents]. *)
Inductive collect : plog -> plog -> Prop :=
| CSwapBusy q n d b l c em h : (d > 0)%Z -> collect (MkPlog q n d b Top l c em h) (MkPlog q n 0 (S b) (Sleeping d) l c em h)
| CSwapIdle q n b l c em h : collect (MkPlog q n 0 b Top l c em h) (MkPlog q n 0 0 Receiving l c em h)
| CSlept q n d b x l c em h : collect (MkPlog q n d b (Sleeping x) l c em h) (MkPlog q n d b (Draining x 0) l c em h)
| CSleepDone q n d b x l em h : collect (MkPlog q n d b (Sleeping x) l true em h) (MkPlog q n d b (Stopped x) l true em h)
| CDrain e q n d b x i l c em h : (i < busyDropAmount)%Z ->
    collect (MkPlog (e :: q) n d b (Draining x i) l c em h) (MkPlog q n d b (Draining (u64 (x + 1)) (i + 1)) l c em h)
| CDrainEmpty n d b x i l c em h : (i < busyDropAmount)%Z -> collect (MkPlog [] n d b (Draining x i) l c em h) (MkPlog [] n d b (Adding x) l c em h)
| CDrainEnd q n d b x i l c em h : (i >= busyDropAmount)%Z -> collect (MkPlog q n d b (Draining x i) l c em h) (MkPlog q n d b (Adding x) l c em h)
| CAdd q n d b x l c em h : collect (MkPlog q n d b (Adding x) l c em h) (MkPlog q n 0 b (Reporting (u64 (x + d))) l c em h)
| CReport q n d b x l c em h : collect (MkPlog q n d b (Reporting x) l c em h) (MkPlog q n d b Receiving (l ++ [Dropped x]) c em h)
| CReceive e q n d b l c em h : collect (MkPlog (e :: q) n d b Receiving l c em h) (MkPlog q n d b (Handling e) l c em h)
| CReceiveDone q n d b l em h : collect (MkPlog q n d b Receiving l true em h) (MkPlog q n d b (Stopped 0) l true em h)
| CHandle q n d b e found l c em h :
    collect (MkPlog q n d b (Handling e) l c em h) (MkPlog q n d b Top (l ++ event_lines (e, found)) c em (h ++ [(e, found)])).

(** What the node does: peers connect and are identified, and its context ends. *)
Inductive plog_step : plog -> plog -> Prop :=
| PEmit s e : plog_step s (emit e s)
| PDefault s s' : emit_default s s' -> plog_step s s'
| PDone s : plog_step s (MkPlog (pl_events s) (pl_late s) (droppedCount s) (busyCounter s) (pl_pc s) (pl_lines s) true (pl_emitted s) (pl_handled s))
| PCollect s s' : collect s s' -> plog_step s s'.
End Queue.

(** The constants of the source. *)
Definition eventQueueSize : Z := 64 * 1024.

(** ** Theorems *)
Section Theorems.
Context (size : Z).
Local Open Scope Z_scope.

(** What the collector holds in its local counter, and what it has reported. *)
Definition local_count (p : collector) : Z := match p with Sleeping d | Draining d _ | Adding d | Reporting d | Stopped d => d | _ => 0 end.
Definition in_hand (p : collector) : list plEvent := match p with Handling e => [e] | _ => [] end.
Fixpoint reported (l : list line) : Z := match l with [] => 0 | Dropped n :: l => n + reported l | _ :: l => reported l end.
Definition is_report (l : line) : bool := match l with Dropped _ => true | _ => false end.
(** Everything but the reports. *)
Definition log_lines (l : list line) : list line := filter (fun x => is_report x = false) l.

Lemma reported_app l k : reported (l ++ k) = reported l + reported k.
Proof. induction l as [|[] l IH]; cbn; rewrite ?IH; lia. Qed.
Lemma reported_event e : reported (event_lines e) = 0.
Proof. unfold event_lines. destruct e as [e f]. destruct (kind e); [done|]. by destruct f. Qed.
Lemma log_lines_event e : log_lines (event_lines e) = event_lines e.
Proof. unfold event_lines. destruct e as [e f]. destruct (kind e); [done|]. by destruct f. Qed.

(** The events taken from the queue to be logged, and those that are logged, in the
    collector's hand or in the queue. *)
Definition taken (s : plog) : list plEvent := (fst <$> pl_handled s) ++ in_hand (pl_pc s).

(** The events accounted for: logged or being logged, in the queue, counted as dropped
    and reported or not, and about to be counted. *)
Definition books (s : plog) : Z :=
  Z.of_nat (length (taken s)) + Z.of_nat (length (pl_events s)) + Z.of_nat (pl_late s) + droppedCount s + local_count (pl_pc s) + reported (pl_lines s).

Definition plog_inv (s : plog) : Prop :=
  (Z.of_nat (length (pl_emitted s)) < 2 ^ 64 -> Z.of_nat (length (pl_emitted s)) = books s) /\
  taken s ++ pl_events s `sublist_of` pl_emitted s /\
  log_lines (pl_lines s) = flat_map event_lines (pl_handled s) /\
  Z.of_nat (length (pl_events s)) <= size /\ 0 <= droppedCount s /\ 0 <= local_count (pl_pc s) /\ 0 <= reported (pl_lines s) /\
  (pl_done s = false -> forall d, pl_pc s <> Stopped d).

Lemma plog_inv_start : 0 < size -> plog_inv plog_start.
Proof. intros Hs. unfold plog_inv. cbn. split_and!; try done; lia. Qed.

Lemma u64_nonneg z : 0 <= u64 z.
Proof. apply Z.mod_pos_bound. lia. Qed.

Lemma plog_inv_emit s e : 0 < size -> plog_inv s -> plog_inv (emit size e s).
Proof.
  intros Hs (Hb & Hsub & Hl & Hq & Hd & Hc & Hr & Hn). unfold emit, plog_inv, books, taken in *.
  destruct (Z.ltb_spec (Z.of_nat (length (pl_events s))) size) as [Hlt|Hge]; cbn -[Z.of_nat]; rewrite ?length_app in *; cbn [length]; split_and!; try done; try lia.
  - rewrite (app_assoc _ (pl_events s)). by apply sublist_app.
  - etrans; [exact Hsub|]. by apply sublist_inserts_r.
Qed.

Lemma plog_inv_default s s' : plog_inv s -> emit_default s s' -> plog_inv s'.
Proof.
  intros (Hb & Hsub & Hl & Hq & Hd & Hc & Hr & Hn) Hst. unfold plog_inv, books, taken in *.
  inversion Hst; subst; cbn -[Z.of_nat] in *; split_and!; try done.
  - intros Hlt. rewrite wrapU_small by (unfold inU; lia). lia.
  - apply u64_nonneg.
Qed.

Lemma plog_inv_collect s s' : plog_inv s -> collect size s s' -> plog_inv s'.
Proof.
  intros (Hb & Hsub & Hl & Hq & Hd & Hc & Hr & Hn) Hst. unfold plog_inv, books, taken in *.
  inversion Hst; subst; cbn -[Z.of_nat event_lines] in *; rewrite ?app_nil_r in *; split_and!; try done; try lia;
    rewrite ?length_app, ?fmap_app, ?reported_app, ?reported_event in *; cbn [length reported] in *; try lia; try apply u64_nonneg.
  - intros Hlt. rewrite wrapU_small by (unfold inU; lia). lia.
  - etrans; [|exact Hsub]. apply sublist_app; [done|]. by constructor.
  - intros Hlt. rewrite wrapU_small by (unfold inU; lia). lia.
  - unfold log_lines in *. rewrite filter_app. cbn. by rewrite app_nil_r.
  - by rewrite <- app_assoc.
  - intros Hlt. specialize (Hb Hlt). rewrite ?length_app, ?length_fmap in *. cbn -[Z.of_nat event_lines] in *. lia.
  - exact Hsub.
  - assert (E : log_lines (l ++ event_lines (e, found)) = log_lines l ++ log_lines (event_lines (e, found))) by apply filter_app.
    fold (log_lines (l ++ event_lines (e, found))). fold (log_lines l) in Hl. rewrite flat_map_app, <- Hl, E. f_equal. cbn [flat_map]. rewrite app_nil_r. apply log_lines_event.
Qed.

Lemma plog_inv_step s s' : 0 < size -> plog_inv s -> plog_step size s s' -> plog_inv s'.
Proof.
  intros Hs Hi Hst. revert Hi. destruct Hst as [s1 e|s1 s2 Hst|s1|s1 s2 Hst]; intros Hi; [by apply plog_inv_emit|by eapply plog_inv_default| |by eapply plog_inv_collect].
  destruct Hi as (Hb & Hsub & Hl & Hq & Hd & Hc & Hr & Hn). by split_and!.
Qed.

Lemma plog_inv_reached s : 0 < size -> rtc (plog_step size) plog_start s -> plog_inv s.
Proof.
  intros Hs. revert s. apply rtc_ind_r; [by apply plog_inv_start|]. intros s s' _ Hst Hi. by eapply plog_inv_step.
Qed.

(** How far the collector is from rest. *)
Definition pc_weight (p : collector) : nat :=
  match p with Handling _ => 7 | Top => 6 | Sleeping _ => 5 | Draining _ _ => 4 | Adding _ => 3 | Reporting _ => 2 | Receiving => 1 | Stopped _ => 0 end.
Definition plog_measure (s : plog) : nat := 8 * length (pl_events s) + pc_weight (pl_pc s).

Lemma collect_measure s s' : collect size s s' -> (plog_measure s' < plog_measure s)%nat.
Proof. intros Hst. inversion Hst; subst; unfold plog_measure; cbn; lia. Qed.

(** The collector goes on unless it has ended or waits for an event. *)
Lemma collect_steps s : 0 <= droppedCount s ->
  (exists s', collect size s s') \/ (exists d, pl_pc s = Stopped d) \/ pl_pc s = Receiving /\ pl_events s = [] /\ pl_done s = false.
Proof.
  intros Hd. destruct s as [q n d b pc l c em h]. cbn in *.
  destruct pc as [|x|x i|x|x| |e|x]; try (left; eexists; by first [apply (CHandle _ _ _ _ _ _ AgentNotFound)|constructor]).
  - left. destruct (decide (d = 0)) as [->|]; eexists; [by apply CSwapIdle|apply CSwapBusy; lia].
  - left. destruct (Z.lt_ge_cases i (busyDropAmount size)); [destruct q; eexists; [by apply CDrainEmpty|by apply CDrain]|eexists; apply CDrainEnd; lia].
  - destruct q as [|e q]; [|left; eexists; apply CReceive]. destruct c; [left; eexists; apply CReceiveDone|by right; right].
  - right. left. by exists x.
Qed.

(** The collector has yet to look at the counter, unless that is zero. *)
Definition will_look (s : plog) : Prop :=
  match pl_pc s with Reporting _ | Receiving => droppedCount s <> 0 -> pl_events s <> [] | _ => True end.

(** What a run of the collector alone leaves as it is. *)
Lemma collect_alone s s' : rtc (collect size) s s' -> plog_inv s ->
  plog_inv s' /\ pl_done s' = pl_done s /\ pl_emitted s' = pl_emitted s /\ pl_late s' = pl_late s /\ (will_look s -> will_look s').
Proof.
  induction 1 as [s|s1 s2 s3 Hst _ IH]; [done|]. intros Hi. destruct IH as (Hi' & E1 & E2 & E3 & Hw); [by eapply plog_inv_collect|].
  split; [done|]. inversion Hst; subst; cbn in *; rewrite E1, E2, E3; split_and!; try done; intros Hs; apply Hw; cbn in *; done.
Qed.

End Theorems.

(** A drop may stay unreported while the plugin rests: an [emit] finds the queue full,
    the collector empties the queue, and then the counter is raised. *)
Theorem drop_left_unreported : exists s, rtc (plog_step 1) plog_start s /\ (forall s', ~ collect 1 s s') /\ pl_done s = false /\
  pl_late s = 0 /\ pl_events s = [] /\ droppedCount s = 1%Z /\ reported (pl_lines s) = 0%Z.
Proof.
  pose (e := MkEv eventConnect "a"). exists (MkPlog [] 0 1 0 Receiving [Connected "a"] false [e; e] [(e, AgentNotFound)]).
  split; [|split; [intros s' Hst; inversion Hst|done]].
  eapply rtc_l; [apply (PEmit _ _ e)|]. eapply rtc_l; [apply (PEmit _ _ e)|]. vm_compute emit.
  eapply rtc_l; [apply PCollect, CSwapIdle|]. eapply rtc_l; [apply PCollect, CReceive|].
  eapply rtc_l; [apply PCollect, (CHandle _ _ _ _ _ _ AgentNotFound)|]. eapply rtc_l; [apply PCollect, CSwapIdle|].
  eapply rtc_l; [apply PDefault, EDrop|]. apply rtc_refl.
Qed.

(** ** The hypotheses are met *)
Module DemoPeerLog.
Definition ev (p : string) : plEvent := MkEv eventConnect p.

(** A queue of one event: the second one finds it full. *)
Definition busy : plog := emit 1 (ev "b") (emit 1 (ev "a") plog_start).

Lemma busy_run : rtc (plog_step 1) plog_start busy.
Proof. eapply rtc_l; [apply (PEmit _ _ (ev "a"))|]. eapply rtc_l; [apply (PEmit _ _ (ev "b"))|]. apply rtc_refl. Qed.

End DemoPeerLog.

(** ** The dispatcher of notifications *)

Section Notifier.
(** Notifiees, and what they are notified of. *)
Context {E : Type} `{Countable E} {K : Type}.

(** [nots]: [None] is the nil map; [lim]: whether there is a rate limiter. *)
Record notifier := MkNotifier { nots : option (gset E); lim : bool }.

Definition RateLimited (limit : Z) : notifier := MkNotifier None (0 <? limit)%Z.
Definition Notify (e : E) (n : notifier) : notifier := MkNotifier (Some ({[e]} ∪ default ∅ (nots n))) (lim n).
Definition StopNotify (e : E) (n : notifier) : notifier :=
  MkNotifier (match nots n with Some s => Some (s ∖ {[e]}) | None => None end) (lim n).

(** Goroutines that were started: one call; one that will go through the set; one that
    does, with what it has left. *)
Inductive goroutine := Call (k : K) (e : E) | WillRange (k : K) | Ranging (k : K) (todo : list E).

(** The goroutines [NotifyAll] starts; [order] is the order of the map. *)
Definition NotifyAll (k : K) (order : list E) (n : notifier) : list goroutine :=
  match nots n with
  | None => []
  | Some _ => if lim n then [WillRange k] else Call k <$> order
  end.

(** The registered notifiees. *)
Definition registered (n : notifier) : gset E := default ∅ (nots n).

(** The notifier, its goroutines, the calls that were made, and whether the map was
    written while a goroutine went through it. *)
Record dispatch := MkDispatch { d_n : notifier; d_go : list goroutine; d_calls : list (K * E); d_raced : bool }.

Definition is_ranging (g : goroutine) : bool := match g with Ranging _ (_ :: _) => true | _ => false end.
Definition written (n' : notifier) (d : dispatch) : dispatch :=
  MkDispatch n' (d_go d) (d_calls d) (existsb is_ranging (d_go d)).

Inductive dispatch_step : dispatch -> dispatch -> Prop :=
| DNotify d e : d_raced d = false -> dispatch_step d (written (Notify e (d_n d)) d)
| DStop d e : d_raced d = false -> dispatch_step d (written (StopNotify e (d_n d)) d)
| DNotifyAll d k order : d_raced d = false -> order ≡ₚ elements (registered (d_n d)) ->
    dispatch_step d (MkDispatch (d_n d) (d_go d ++ NotifyAll k order (d_n d)) (d_calls d) false)
| DCall gs gs' k e n c : dispatch_step (MkDispatch n (gs ++ Call k e :: gs') c false) (MkDispatch n (gs ++ gs') (c ++ [(k, e)]) false)
| DRange gs gs' k order n c : order ≡ₚ elements (registered n) ->
    dispatch_step (MkDispatch n (gs ++ WillRange k :: gs') c false) (MkDispatch n (gs ++ Ranging k order :: gs') c false)
| DNext gs gs' k e todo n c :
    dispatch_step (MkDispatch n (gs ++ Ranging k (e :: todo) :: gs') c false) (MkDispatch n (gs ++ Ranging k todo :: gs' ++ [Call k e]) c false)
| DEnd gs gs' k n c : dispatch_step (MkDispatch n (gs ++ Ranging k [] :: gs') c false) (MkDispatch n (gs ++ gs') c false).

(** ** Theorems *)

Lemma registered_notify e n x : x ∈ registered (Notify e n) <-> x = e \/ x ∈ registered n.
Proof. unfold registered, Notify. cbn. set_solver. Qed.

Lemma registered_stop e n x : x ∈ registered (StopNotify e n) <-> x <> e /\ x ∈ registered n.
Proof. unfold registered, StopNotify. destruct n as [[s|] l]; cbn; set_solver. Qed.

(** The calls that a goroutine will still make. *)
Definition owed (g : goroutine) : list (K * E) :=
  match g with Call k e => [(k, e)] | WillRange _ => [] | Ranging k todo => pair k <$> todo end.
Definition outstanding (d : dispatch) : list (K * E) := d_calls d ++ flat_map owed (d_go d).

(** What a notification of everybody adds. *)
Inductive notified : list (K * E) -> dispatch -> dispatch -> Prop :=
| NStep d d' : dispatch_step d d' -> outstanding d' ≡ₚ outstanding d -> notified [] d d'
| NAll d d' k order : dispatch_step d d' -> order ≡ₚ elements (registered (d_n d)) -> outstanding d' ≡ₚ outstanding d ++ (pair k <$> order) ->
    notified (pair k <$> order) d d'.

Lemma owed_calls k (order : list E) : flat_map owed (Call k <$> order) = pair k <$> order.
Proof. induction order as [|e order IH]; cbn; [done|by rewrite IH]. Qed.

(** Every step either leaves the calls made and due as they are, or is a notification
    of everybody, and then adds exactly one call for each registered notifiee: without a
    rate limit when [NotifyAll] is called, with one when its goroutine looks at the set. *)
Theorem notifies_everybody d d' : dispatch_step d d' ->
  (exists new, notified new d d') /\
  (forall k order, lim (d_n d) = false -> order ≡ₚ elements (registered (d_n d)) ->
    flat_map owed (NotifyAll k order (d_n d)) ≡ₚ pair k <$> elements (registered (d_n d))).
Proof.
  intros Hst. split; [|intros k order Hl Ho; unfold NotifyAll, registered in *; destruct (nots (d_n d)) as [s|]; cbn in *; [by rewrite Hl, owed_calls, Ho|by rewrite elements_empty]].
  inversion Hst; subst; unfold outstanding; cbn.
  - exists []. by constructor.
  - exists []. by constructor.
  - unfold NotifyAll, registered in *. destruct (nots (d_n d)) as [s|] eqn:Hn; [destruct (lim (d_n d)) eqn:Hl|].
    + exists []. constructor; [done|]. unfold outstanding. cbn. rewrite flat_map_app. cbn. by rewrite app_nil_r.
    + exists (pair k <$> order). econstructor; [done|unfold registered; by rewrite Hn|]. unfold outstanding. cbn. by rewrite flat_map_app, owed_calls, app_assoc.
    + exists []. constructor; [done|]. unfold outstanding. cbn. by rewrite app_nil_r.
  - exists []. constructor; [done|]. unfold outstanding. cbn. rewrite !flat_map_app. cbn. rewrite <- app_assoc. f_equiv. cbn. apply Permutation_middle.
  - exists (pair k <$> order). econstructor; [done|done|]. unfold outstanding. cbn. rewrite !flat_map_app. cbn. rewrite <- !app_assoc. do 2 f_equiv. by rewrite Permutation_app_comm.
  - exists []. constructor; [done|]. unfold outstanding. cbn. rewrite !flat_map_app. cbn. rewrite flat_map_app. cbn. do 2 f_equiv. rewrite <- Permutation_cons_append. by rewrite Permutation_middle.
  - exists []. constructor; [done|]. unfold outstanding. cbn. by rewrite !flat_map_app.
Qed.

(** Without a rate limit no goroutine goes through the set outside the mutex, and
    nothing races. *)
Theorem unlimited_never_races d : rtc dispatch_step (MkDispatch (RateLimited 0) [] [] false) d ->
  lim (d_n d) = false /\ d_raced d = false /\ Forall (fun g => exists k e, g = Call k e) (d_go d).
Proof.
  revert d. apply rtc_ind_r; [done|]. intros d d' _ Hst (Hl & Hr & Hg).
  assert (Hex : existsb is_ranging (d_go d) = false).
  { apply Bool.not_true_iff_false. intros (g & Hin & Hran)%existsb_exists. rewrite Forall_forall in Hg. destruct (Hg g) as (k & e & ->); [by apply list_elem_of_In|done]. }
  inversion Hst; subst; cbn in *; rewrite ?Hex; split_and!; try done.
  - apply Forall_app_2; [done|]. unfold NotifyAll. rewrite Hl. destruct (nots (d_n d)); [|done]. apply Forall_fmap, Forall_true. intros e. by exists k, e.
  - apply Forall_app in Hg as [H1 H2]. apply Forall_cons in H2 as [_ H2]. by apply Forall_app_2.
  - apply Forall_app in Hg as [_ H2]. apply Forall_cons in H2 as [(k' & e & [=]) _].
  - apply Forall_app in Hg as [_ H2]. apply Forall_cons in H2 as [(k' & e' & [=]) _].
  - apply Forall_app in Hg as [_ H2]. apply Forall_cons in H2 as [(k' & e & [=]) _].
Qed.

(** With a rate limit, signing up while a notification is going out races with the
    goroutine that goes through the set. *)
Theorem limited_races (e : E) (k : K) limit : (0 < limit)%Z ->
  exists d, rtc dispatch_step (MkDispatch (RateLimited limit) [] [] false) d /\ d_raced d = true.
Proof.
  intros Hl. unfold RateLimited. replace (0 <? limit)%Z with true by (symmetry; by apply Z.ltb_lt).
  exists (written (Notify e (Notify e (MkNotifier None true))) (MkDispatch (Notify e (MkNotifier None true)) [Ranging k [e]] [] false)). split; [|done].
  eapply rtc_l; [by apply (DNotify _ e)|]. eapply rtc_l; [by apply (DNotifyAll _ k [e]); cbn; [|rewrite union_empty_r_L, elements_singleton]|].
  eapply rtc_l; [apply (DRange [] [] k [e]); cbn; by rewrite union_empty_r_L, elements_singleton|].
  apply rtc_once. by apply (DNotify (MkDispatch _ [Ranging k [e]] [] false) e).
Qed.
End Notifier.

(** ** The hypotheses are met *)
Module DemoNotifier.
Definition one : notifier (E := string) := Notify "a"%string (RateLimited 0).

Lemma notifies_everybody_witness : outstanding (K := unit) (MkDispatch one (NotifyAll tt ["a"%string] one) [] false) = [(tt, "a"%string)] /\
  exists new, notified new (MkDispatch one [] [] false) (MkDispatch one (NotifyAll tt ["a"%string] one) [] false).
Proof. split; [reflexivity|]. apply (notifies_everybody _ _ (DNotifyAll (MkDispatch one [] [] false) tt ["a"%string] eq_refl (Permutation_refl _))). Defined.

Lemma limited_races_witness : exists d, rtc (dispatch_step (E := string) (K := unit)) (MkDispatch (RateLimited 2) [] [] false) d /\ d_raced d = true.
Proof. apply (limited_races "a"%string tt 2 eq_refl). Defined.

Lemma unlimited_never_races_witness : lim one = false.
Proof.
  apply (unlimited_never_races (K := unit) (MkDispatch one [] [] false)). apply rtc_once. apply (DNotify (MkDispatch (RateLimited 0) [] [] false) "a"%string eq_refl).
Defined.
End DemoNotifier.
