(* ===== verification/ObjectCmds.v ===== *)
(** The commands [ipfs object]: [core/commands/object/object.go], [patch.go] and [diff.go],
    over the object API of [CoreAPI].

    [enc] is the encoder of CIDs the request asks for, or the error of finding it; the
    arguments are paths to be resolved; a command is a function of the state that gives
    what is put out or its error. *)
From Stdlib Require Import ZArith Lia String.
From stdpp Require Import base strings list.
From S2P Require Import Prelude GoStrings Keys DagCmds CoreAPI.

Local Open Scope Z_scope.

(** [Object]: its hash and its links. *)
Record object := MkObj { o_Hash : string; o_Links : list (string * string * Z) }.

(** [ipld.NodeStat]. *)
Record NodeStat := MkStat { s_Hash : string; NumLinks : Z; BlockSize : Z; LinksSize : Z; DataSize : Z; CumulativeSize : Z }.

Definition ErrDataEncoding : error := "unknown data field encoding".

Section ObjectCmds.
Context `{ApiEnv}.
(** [base64.StdEncoding.EncodeToString]; [Stat] and [Size] of nodes; the protobuf form of
    a node; whether the request allows big blocks. *)
Context (base64_Encode : bytes -> string) (nd_Stat : inode -> result NodeStat) (nd_Size : inode -> result Z) (Marshal : inode -> result bytes).

(** ** [object.go] *)

Definition object_data (arg : string) (s : st) : result bytes := Object_Data (Unresolved arg) s.

Definition link_out (enc : cid -> string) (l : ilink) : string * string * Z := (l_name l, enc (l_cid l), l_size l).

Definition object_links (enc : result (cid -> string)) (arg : string) (s : st) : result object :=
  match enc with
  | Err e => Err e
  | Ok enc =>
      match ResolvePath (Unresolved arg) s with
      | Err e => Err e
      | Ok rp => match Object_Links (Resolved rp) s with Err e => Err e | Ok links => Ok (MkObj (enc rp) (link_out enc <$> links)) end
      end
  end.

(** The rows that are lined up by the [tabwriter], their cells separated by tabs. *)
Definition tab : string := String (Ascii.ascii_of_nat 9) EmptyString.
Definition links_text (EscNonPrint : string -> string) (headers : bool) (out : object) : list string :=
  (if headers then ["Hash" +:+ tab +:+ "Size" +:+ tab +:+ "Name"] else []) ++
  ((fun '(name, hash, size) => hash +:+ tab +:+ FormatInt size +:+ tab +:+ EscNonPrint name) <$> o_Links out).

Definition encodeData (data : bytes) (encoding : string) : result string :=
  if String.eqb encoding "text" then Ok (string_of_list_byte data)
  else if String.eqb encoding "base64" then Ok (base64_Encode data)
  else Err ErrDataEncoding.

(** The path is resolved for the node and again for its data: [s] and [s'] are the
    states at the two calls. *)
Definition object_get (enc : result (cid -> string)) (arg datafieldenc : string) (s s' : st) : result Node :=
  match enc with
  | Err e => Err e
  | Ok enc =>
      match Object_Get (Unresolved arg) s with
      | Err e => Err e
      | Ok nd =>
          match Object_Data (Unresolved arg) s' with
          | Err e => Err e
          | Ok data =>
              match encodeData data datafieldenc with
              | Err e => Err e
              | Ok out => Ok (MkObject (link_out enc <$> nd_links nd) out)
              end
          end
      end
  end.

(** The encoder for protobuf: what is written, and its error. *)
Definition get_protobuf (out : Node) : bytes * option error :=
  match deserializeNode out "text" with
  | Err _ => ([], None)
  | Ok object => match Marshal object with Err e => ([], Some e) | Ok marshaled => (marshaled, None) end
  end.

(** [Stat] of the object API. *)
Definition Object_Stat (p : ipath) (s : st) : result NodeStat :=
  match ResolveNode p s with
  | Err e => Err e
  | Ok nd =>
      match nd_Stat nd with
      | Err e => Err e
      | Ok stat => Ok (MkStat (nd_cid nd) (NumLinks stat) (BlockSize stat) (LinksSize stat) (DataSize stat) (CumulativeSize stat))
      end
  end.

Definition object_stat (enc : result (cid -> string)) (arg : string) (s : st) : result NodeStat :=
  match enc with
  | Err e => Err e
  | Ok enc =>
      match Object_Stat (Unresolved arg) s with
      | Err e => Err e
      | Ok ns => Ok (MkStat (enc (s_Hash ns)) (NumLinks ns) (BlockSize ns) (LinksSize ns) (DataSize ns) (CumulativeSize ns))
      end
  end.

Definition stat_text (humanize_Bytes : Z -> string) (human : bool) (out : NodeStat) : list string :=
  let fw s n := s +:+ ":" +:+ tab +:+ FormatInt n in
  [fw "NumLinks" (NumLinks out); fw "BlockSize" (BlockSize out); fw "LinksSize" (LinksSize out); fw "DataSize" (DataSize out);
   if human then "CumulativeSize:" +:+ tab +:+ humanize_Bytes (u64 (CumulativeSize out)) else fw "CumulativeSize" (CumulativeSize out)].

Section Put.
Context (decode_json decode_xml : bytes -> result Node) (decode_pb : bytes -> result inode).

Definition object_put (enc : result (cid -> string)) (file : result (result bytes)) (inputenc datafieldenc : string) (dopin : bool) (s : st)
    : result object * st :=
  match enc with
  | Err e => (Err e, s)
  | Ok enc =>
      match file with
      | Err e => (Err e, s)
      | Ok src =>
          match Object_Put decode_json decode_xml decode_pb src dopin datafieldenc inputenc s with
          | (Err e, s) => (Err e, s)
          | (Ok p, s) => (Ok (MkObj (enc p) []), s)
          end
      end
  end.
End Put.

Definition put_text (quiet : bool) (out : object) : string := if quiet then o_Hash out else "added " +:+ o_Hash out.

Definition object_new (enc : result (cid -> string)) (args : list string) (s : st) : outcome (result object) * st :=
  match enc with
  | Err e => (Ret (Err e), s)
  | Ok enc =>
      let template := match args with [t] => t | _ => "empty" end in
      match Object_New template s with
      | (Err e, s) => (if String.eqb e "EOF" then Panic "invalid memory address or nil pointer dereference" else Ret (Err e), s)
      | (Ok nd, s) => (Ret (Ok (MkObj (enc (nd_cid nd)) [])), s)
      end
  end.

(** ** [patch.go] *)

(** What all the commands end with. *)
Definition checked (allow : bool) (r : result cid * st) : result object * st :=
  match r with
  | (Err e, s) => (Err e, s)
  | (Ok p, s) =>
      match CheckCIDSize allow (match dag_Get p (world s) with Err e => Err e | Ok n => Ok (nd_Size n) end) with
      | Some e => (Err e, s)
      | None => (Ok (MkObj p []), s)
      end
  end.

Definition patch_append_data (allow : bool) (root : string) (file : result (result bytes)) (s : st) : result object * st :=
  match file with Err e => (Err e, s) | Ok file => checked allow (AppendData (Unresolved root) file s) end.
Definition patch_set_data (allow : bool) (root : string) (file : result (result bytes)) (s : st) : result object * st :=
  match file with Err e => (Err e, s) | Ok file => checked allow (SetData (Unresolved root) file s) end.
Definition patch_rm_link (allow : bool) (root name : string) (s : st) : result object * st :=
  checked allow (RmLink (Unresolved root) name s).
Definition patch_add_link (allow : bool) (root name ref : string) (create : bool) (s : st) : result object * st :=
  checked allow (AddLink (Unresolved root) name (Unresolved ref) create s).

(** ** [diff.go] *)

(** A change; no CID is the undefined one. *)
Record Change := MkCh { c_Type : Z; c_Path : string; c_Before : option cid; c_After : option cid }.

Definition resolved_cid (p : string) : cid := TrimPrefix p "/ipfs/".
Definition object_diff (a b : string) (s : st) : result (list Change) :=
  match Diff (Unresolved a) (Unresolved b) s with
  | Err e => Err e
  | Ok changes => Ok ((fun c => MkCh (ch_Type c) (ch_Path c) (resolved_cid <$> ch_Before c) (resolved_cid <$> ch_After c)) <$> changes)
  end.

(** [dagutils.Add], [Remove] and [Mod]. *)
Definition ch_add : Z := 0.
Definition ch_remove : Z := 1.
Definition ch_mod : Z := 2.

(** [cid_text]: [String] of a CID that may be undefined. *)
Definition change_text (quote : string -> string) (verbose : bool) (c : Change) : option string :=
  let cid_text o := default "b" o in
  let before := cid_text (c_Before c) in
  let after := cid_text (c_After c) in
  let path := quote (c_Path c) in
  if verbose then
    if c_Type c =? ch_add then Some ("Added new link " +:+ path +:+ " pointing to " +:+ after +:+ ".")
    else if c_Type c =? ch_mod then Some ("Changed " +:+ path +:+ " from " +:+ before +:+ " to " +:+ after +:+ ".")
    else if c_Type c =? ch_remove then Some ("Removed link " +:+ path +:+ " (was " +:+ before +:+ ").")
    else None
  else
    if c_Type c =? ch_add then Some ("+ " +:+ after +:+ " " +:+ path)
    else if c_Type c =? ch_mod then Some ("~ " +:+ before +:+ " " +:+ after +:+ " " +:+ path)
    else if c_Type c =? ch_remove then Some ("- " +:+ before +:+ " " +:+ path)
    else None.
Definition diff_text (quote : string -> string) (verbose : bool) (out : list Change) : list string := omap (change_text quote verbose) out.
End ObjectCmds.

(** ** Theorems *)
Section Theorems.
Context `{ApiEnv}.
Context (base64_Encode : bytes -> string) (nd_Size : inode -> result Z) (Marshal : inode -> result bytes).
Abbreviation get := (object_get base64_Encode).

Lemma decode_link_out enc (links : list ilink) : (forall l, l ∈ links -> cid_Decode (enc (l_cid l)) = Ok (l_cid l)) ->
  decode_links (link_out enc <$> links) = Ok links.
Proof.
  induction links as [|l links IH]; intros Henc; [done|]. cbn [fmap list_fmap link_out decode_links].
  rewrite (Henc l) by apply list_elem_of_here. rewrite IH by (intros l' Hl'; apply Henc; by apply list_elem_of_further). by destruct l.
Qed.

(** What [object get] puts out. *)
Lemma object_get_exact enc arg how s s' nd nd' d out :
  ResolveNode (Unresolved arg) s = Ok nd -> ResolveNode (Unresolved arg) s' = Ok nd' -> nd_proto nd' = Some d ->
  encodeData base64_Encode d how = Ok out -> get (Ok enc) arg how s s' = Ok (MkObject (link_out enc <$> nd_links nd) out).
Proof. intros Hr Hr' Hd Ho. unfold object_get, Object_Get, Object_Data. by rewrite Hr, Hr', Hd, Ho. Qed.

(** A node that [object get] has put out with its data in base64, given to [object put]
    as JSON, is the same node: the hash that is answered is its own, whether it is
    pinned or not. *)
Theorem object_get_put enc decode_json decode_xml decode_pb arg s nd d node doc dopin :
  ResolveNode (Unresolved arg) s = Ok nd -> nd_proto nd = Some d -> nd = node_of (nd_links nd) d -> SetLinks (nd_links nd) = None ->
  (forall l, l ∈ nd_links nd -> cid_Decode (enc (l_cid l)) = Ok (l_cid l)) -> base64_Decode (base64_Encode d) = Ok d ->
  get (Ok enc) arg "base64" s s = Ok node -> decode_json doc = Ok node -> Z.of_nat (length doc) <= inputLimit + 10 ->
  (forall n w, (dag_Add n w).1 = None) -> (forall w, (pin_Flush w).1 = None) ->
  (object_put decode_json decode_xml decode_pb (Ok enc) (Ok (Ok doc)) "json" "base64" dopin s).1 = Ok (MkObj (enc (nd_cid nd)) []).
Proof.
  intros Hr Hd Hnd Hset Henc Hb64 Hget Hjson Hlen Hadd Hflush.
  rewrite (object_get_exact enc arg "base64" s s nd nd d (base64_Encode d) Hr Hr Hd eq_refl) in Hget. injection Hget as <-.
  unfold object_put, Object_Put. cbn [String.eqb Ascii.eqb Bool.eqb].
  rewrite take_ge by (unfold inputLimit in *; lia). rewrite Hjson. unfold deserializeNode. cbn [Data Links]. cbn [String.eqb Ascii.eqb Bool.eqb].
  rewrite Hb64, decode_link_out, Hset, <- Hnd by done.
  assert (He : forall s, exists s', effect [Added (nd_cid nd)] (dag_Add nd) s = (None, s')).
  { intros s1. unfold effect. specialize (Hadd nd (world s1)). destruct (dag_Add nd (world s1)) as [r w]. cbn in Hadd. subst r. by eexists. }
  destruct dopin; unfold locked; [|destruct (He s) as [s1 ->]; done].
  destruct (He (log PinLock s)) as [s1 ->]. unfold effect. specialize (Hflush (world (pin_one (nd_cid nd) s1))).
  destruct (pin_Flush _) as [r w]. cbn in Hflush. by subst r.
Qed.

(** The protobuf form of what [object get] puts out is the node's own when its data is
    put out as text; with base64 it is that of another node, whose data is the base64. *)
Theorem get_protobuf_needs_text enc arg s nd d :
  ResolveNode (Unresolved arg) s = Ok nd -> nd_proto nd = Some d -> nd = node_of (nd_links nd) d -> SetLinks (nd_links nd) = None ->
  (forall l, l ∈ nd_links nd -> cid_Decode (enc (l_cid l)) = Ok (l_cid l)) ->
  exists as_text as_base64, get (Ok enc) arg "text" s s = Ok as_text /\ get (Ok enc) arg "base64" s s = Ok as_base64 /\
    get_protobuf Marshal as_text = match Marshal nd with Err e => ([], Some e) | Ok m => (m, None) end /\
    get_protobuf Marshal as_base64 =
      match Marshal (node_of (nd_links nd) (list_byte_of_string (base64_Encode d))) with Err e => ([], Some e) | Ok m => (m, None) end.
Proof.
  intros Hr Hd Hnd Hset Henc. do 2 eexists. split; [by apply (object_get_exact enc arg "text" s s nd nd d)|]. split; [by apply (object_get_exact enc arg "base64" s s nd nd d)|].
  unfold get_protobuf, deserializeNode. cbn [Data Links String.eqb Ascii.eqb Bool.eqb].
  rewrite decode_link_out, Hset by done. split; [|done]. by rewrite list_byte_of_string_of_list_byte, <- Hnd.
Qed.

(** When the name behind the path is published anew between the two resolutions of
    [object get], it puts out the links of one node with the data of another. *)
Theorem object_get_mixes enc arg s s' nd nd' d :
  ResolveNode (Unresolved arg) s = Ok nd -> ResolveNode (Unresolved arg) s' = Ok nd' -> nd_proto nd' = Some d ->
  get (Ok enc) arg "text" s s' = Ok (MkObject (link_out enc <$> nd_links nd) (string_of_list_byte d)).
Proof. intros Hr Hr' Hd. by apply (object_get_exact enc arg "text" s s' nd nd' d). Qed.

(** *** Patches *)

Lemma patchData_stores p r b s c s' nd old data :
  (forall n w w', dag_Add n w = (None, w') -> dag_Get (nd_cid n) w' = Ok n) ->
  ResolveNode p s = Ok nd -> nd_proto nd = Some old -> r = Ok data -> patchData p r b s = (Ok c, s') ->
  c = nd_cid (node_of (nd_links nd) (if b then old ++ data else data)) /\
  dag_Get c (world s') = Ok (node_of (nd_links nd) (if b then old ++ data else data)).
Proof.
  intros Hadd Hr Ho -> Hp. unfold patchData in Hp. rewrite Hr, Ho in Hp. unfold effect in Hp.
  destruct (dag_Add _ (world s)) as [[e|] w] eqn:Ea; [done|]. injection Hp as <- <-. split; [done|]. cbn [world]. by apply (Hadd _ _ _ Ea).
Qed.

(** A patch of the data keeps the links and stores exactly the new data, under the hash
    that is put out; a result over the limit is refused after it was stored. *)
Theorem patch_data_exact allow root data (app : bool) s r s' nd old :
  (forall n w w', dag_Add n w = (None, w') -> dag_Get (nd_cid n) w' = Ok n) -> (forall n w, (dag_Add n w).1 = None) ->
  (forall ls d, nd_proto (node_of ls d) = Some d /\ nd_links (node_of ls d) = ls) ->
  ResolveNode (Unresolved root) s = Ok nd -> nd_proto nd = Some old ->
  (if app then patch_append_data nd_Size allow root (Ok (Ok data)) s else patch_set_data nd_Size allow root (Ok (Ok data)) s) = (r, s') ->
  exists n, dag_Get (nd_cid n) (world s') = Ok n /\ nd_links n = nd_links nd /\ nd_proto n = Some (if app then old ++ data else data) /\
    r = match CheckCIDSize allow (Ok (nd_Size n)) with Some e => Err e | None => Ok (MkObj (nd_cid n) []) end.
Proof.
  intros Hadd Hok Hparts Hr Ho Hp. set (n := node_of (nd_links nd) (if app then old ++ data else data)).
  assert (Hc : exists s1, patchData (Unresolved root) (Ok data) app s = (Ok (nd_cid n), s1)).
  { unfold patchData. rewrite Hr, Ho. unfold effect. fold n. specialize (Hok n (world s)). destruct (dag_Add n (world s)) as [x w]. cbn in Hok. subst x. by eexists. }
  destruct Hc as [s1 Hc]. destruct (patchData_stores _ _ _ _ _ _ _ _ data Hadd Hr Ho eq_refl Hc) as [_ Hget]. fold n in Hget.
  assert (Hs : checked nd_Size allow (Ok (nd_cid n), s1) = (r, s')) by (rewrite <- Hc; by destruct app).
  unfold checked in Hs. rewrite Hget in Hs. destruct (Hparts (nd_links nd) (if app then old ++ data else data)) as [H1 H2].
  exists n. destruct (CheckCIDSize allow (Ok (nd_Size n))) as [e|]; injection Hs as <- <-; done.
Qed.

Lemma sum_bounds (zs : list Z) : Forall (fun z => 0 <= z) zs -> 0 <= foldr Z.add 0 zs /\ forall z, z ∈ zs -> z <= foldr Z.add 0 zs.
Proof.
  induction 1 as [|z zs Hz _ [IH1 IH2]]; [split; [done|by intros z ?%elem_of_nil]|]. cbn. split; [lia|].
  intros x [->|Hx]%elem_of_cons; [lia|]. specialize (IH2 x Hx). lia.
Qed.

(** Where the size of a node counts what it links to, the check of the size refuses a
    small block that links to something large. *)
Theorem patch_counts_links (block_len : inode -> Z) p s n l :
  (forall n, nd_Size n = Ok (u64 (block_len n + foldr Z.add 0 (l_size <$> nd_links n)))) ->
  dag_Get p (world s) = Ok n -> l ∈ nd_links n -> (forall l, l ∈ nd_links n -> 0 <= l_size l) -> SoftBlockLimit < l_size l ->
  0 <= block_len n -> block_len n + foldr Z.add 0 (l_size <$> nd_links n) < 2 ^ 64 ->
  exists e, checked nd_Size false (Ok p, s) = (Err e, s).
Proof.
  intros Hsz Hg Hl Hpos Hbig Hb Hlt. unfold checked. rewrite Hg. unfold CheckCIDSize. rewrite Hsz.
  destruct (sum_bounds (l_size <$> nd_links n)) as [Hs Hle]; [apply Forall_fmap, Forall_forall; exact Hpos|].
  specialize (Hle (l_size l) (list_elem_of_fmap_2 _ _ _ Hl)).
  rewrite wrapU_small by (unfold inU; lia). unfold CheckBlockSize. destruct (Z.ltb_spec SoftBlockLimit (block_len n + foldr Z.add 0 (l_size <$> nd_links n))); [by eexists|lia].
Qed.

(** *** Diff *)

(** [object diff] puts out exactly the changes found, each with its CIDs, and its text
    has one line for each change of a type that exists. *)
Theorem object_diff_exact a b s nda ndb changes :
  ResolveNode (Unresolved a) s = Ok nda -> ResolveNode (Unresolved b) s = Ok ndb -> dagutils_Diff nda ndb (world s) = Ok changes ->
  object_diff a b s = Ok ((fun '(t, p, x, y) => MkCh t p x y) <$> changes) /\
  (Forall (fun c => c.1.1.1 = ch_add \/ c.1.1.1 = ch_remove \/ c.1.1.1 = ch_mod) changes -> forall quote verbose,
     length (diff_text quote verbose ((fun '(t, p, x, y) => MkCh t p x y) <$> changes)) = length changes).
Proof.
  intros Ha Hb Hc. split.
  - unfold object_diff, Diff. rewrite Ha, Hb, Hc. f_equal. rewrite <- list_fmap_compose. apply list_fmap_ext. intros i [[[t p] x] y] _.
    unfold compose. cbn [ch_Type ch_Path ch_Before ch_After]. f_equal; [destruct x as [x|]|destruct y as [y|]]; try done; cbn; unfold resolved_cid; by rewrite TrimPrefix_app.
  - intros Hall quote verbose. unfold diff_text. clear Hc. induction Hall as [|[[[t p] x] y] changes Ht _ IH]; [done|].
    assert (Hs : is_Some (change_text quote verbose (MkCh t p x y))) by (cbn in Ht; destruct Ht as [-> | [-> | ->]]; destruct verbose; by eexists).
    destruct Hs as [line Hline]. cbn [fmap list_fmap omap list_omap]. rewrite Hline. cbn [length]. f_equal. exact IH.
Qed.
End Theorems.

(** ** The hypotheses are met *)
Module DemoObject.
Definition node_cid (ls : list ilink) (d : bytes) : cid := String.concat "," (l_cid <$> ls) +:+ ":" +:+ string_of_list_byte d.
Definition make (ls : list ilink) (d : bytes) : inode := MkINode (node_cid ls d) ls (Some d).

(** A node as in [CoreAPI], with an encoding of data that can be told from the data. *)
#[local] Instance env : ApiEnv := {|
  W := list (cid * inode);
  dag_Add n w := (None, (nd_cid n, n) :: w);
  dag_AddMany ns w := (None, ((fun n => (nd_cid n, n)) <$> ns) ++ w);
  dag_Get c w := match list_find (fun p => p.1 = c) w with Some (_, (_, n)) => Ok n | None => Err "not found" end;
  blocks_AddBlock _ _ w := (None, w); blocks_GetBlock c _ := Ok (c, []); blockstore_Has _ _ := Ok true;
  PinWithMode _ w := w; pin_Flush w := (None, w); util_RmBlocks _ _ w := (Ok None, w);
  prefix_Sum d := Ok (string_of_list_byte d); NewBlockWithCid _ _ := None;
  node_of := make; empty_dir := make [] [Byte.x08];
  cid_Decode c := Ok c; SetLinks _ := None; base64_Decode t := Ok (list_byte_of_string (TrimPrefix t "b64:"));
  InsertNodeAtPath n _ _ _ w := (Ok n, w); editor_RmLink n _ w := (Ok n, w); editor_Finalize n w := (Ok n, w);
  dagutils_Diff _ _ _ := Ok [(ch_add, "x", None, Some "c")];
  checkOnline _ := None; checkPublishAllowed := None; routing_Provide _ w := (None, w); FindProvidersAsync _ _ _ := [];
  IsValid _ := None; ResolveIPNS p _ := Ok p; path_Segments p := ["ipfs"; p]; ResolveToLastNode _ p _ := Ok (p, []);
|}.

Definition encode64 (d : bytes) : string := "b64:" +:+ string_of_list_byte d.
Definition a_node : inode := make [MkLink "x" 3 "c"] [Byte.x61].
Definition a_name : string := nd_cid a_node.
Definition start : st := MkSt [(nd_cid a_node, a_node)] [].
Definition shown : Node := MkObject [("x", "c", 3)] "b64:a".

Lemma object_get_put_witness :
  (object_put (fun _ => Ok shown) (fun _ => Err "") (fun _ => Err "") (Ok (fun c => c)) (Ok (Ok [])) "json" "base64" true start).1 = Ok (MkObj a_name []).
Proof.
  apply (object_get_put encode64 (fun c => c) _ _ _ a_name start a_node [Byte.x61] shown []); try done.
Defined.

Lemma get_protobuf_needs_text_witness : exists t b, object_get encode64 (Ok (fun c => c)) a_name "text" start start = Ok t /\
  object_get encode64 (Ok (fun c => c)) a_name "base64" start start = Ok b /\ get_protobuf (fun n => Ok (default [] (nd_proto n))) t = ([Byte.x61], None).
Proof.
  destruct (get_protobuf_needs_text encode64 (fun n => Ok (default [] (nd_proto n))) (fun c => c) a_name start a_node [Byte.x61]) as (t & b & H1 & H2 & H3 & _); try done.
  exists t, b. split; [exact H1|]. split; [exact H2|exact H3].
Defined.

Lemma object_get_mixes_witness : object_get encode64 (Ok (fun c => c)) a_name "text" start start = Ok (MkObject [("x", "c", 3)] "a").
Proof. apply (object_get_mixes encode64 (fun c => c) a_name start start a_node a_node [Byte.x61]); reflexivity. Defined.

Lemma patch_data_exact_witness : exists s', patch_set_data (fun _ => Ok 1) false a_name (Ok (Ok [Byte.x62])) start = (Ok (MkObj (node_cid [MkLink "x" 3 "c"] [Byte.x62]) []), s').
Proof.
  destruct (patch_data_exact (fun _ => Ok 1) false a_name [Byte.x62] false start
    (patch_set_data (fun _ => Ok 1) false a_name (Ok (Ok [Byte.x62])) start).1 (patch_set_data (fun _ => Ok 1) false a_name (Ok (Ok [Byte.x62])) start).2
    a_node [Byte.x61]) as (n & _ & Hl & Hd & Hr); try done.
  - intros n w w' [= <-]. cbn. by rewrite decide_True.
  - eexists. reflexivity.
Defined.

Definition heavy : inode := make [MkLink "film" 2000000 "f"] [].
Lemma patch_counts_links_witness : exists e, checked (fun n => Ok (u64 (100 + foldr Z.add 0 (l_size <$> nd_links n)))) false
  (Ok (nd_cid heavy), MkSt [(nd_cid heavy, heavy)] []) = (Err e, MkSt [(nd_cid heavy, heavy)] []).
Proof.
  apply (patch_counts_links _ (fun _ => 100) (nd_cid heavy) _ heavy (MkLink "film" 2000000 "f")); try done.
  - apply list_elem_of_here.
  - intros l [->|Hl]%elem_of_cons; [done|by apply elem_of_nil in Hl].
Defined.

Lemma object_diff_exact_witness : object_diff a_name a_name start = Ok [MkCh ch_add "x" None (Some "c")].
Proof. apply (object_diff_exact a_name a_name start a_node a_node [(ch_add, "x", None, Some "c")]); reflexivity. Defined.
End DemoObject.
