(* ===== verification/PubSub.v ===== *)
(** Publishing and subscribing, and multibase: [core/coreapi/pubsub.go],
    [core/commands/pubsub.go] and [core/commands/multibase.go].

    The class [Multibase] is the library of encodings; the pubsub system of the node is
    given by its topics and peers, and a subscription by the messages it delivers and the
    error it ends with.  A client encodes its arguments ([PreRun]), the server decodes
    them, and what the server puts out is written by the client. *)
From Stdlib Require Import ZArith Lia Ascii String Sorted Permutation.
From stdpp Require Import base strings sorting list.
From S2P Require Import Prelude GoStrings.

(** ** Multibase *)

Class Multibase := {
  base : Type;
  base_eq :: EqDecision base;
  Base64url : base;
  EncoderByName : string -> result base;
  Encode : base -> string -> string;
  Decode : string -> result (base * string);
  EncoderByName_64url : EncoderByName "base64url" = Ok Base64url;
  Decode_Encode b s : Decode (Encode b s) = Ok (b, s);
}.

Section MbaseCmd.
Context `{Multibase}.

(** The file of a request: finding it may fail, and reading it. *)
Definition read_file (file : result (result string)) : result string :=
  match file with
  | Err e => Err ("failed to access file: " +:+ e)
  | Ok (Err e) => Err ("failed to read file contents: " +:+ e)
  | Ok (Ok s) => Ok s
  end.

(** [body]: the error of [ParseBodyArgs]. *)
Definition mbase_encode (body : option error) (encoderName : string) (file : result (result string)) : result string :=
  match body with
  | Some e => Err e
  | None =>
      match EncoderByName encoderName with
      | Err e => Err e
      | Ok encoder => match read_file file with Err e => Err e | Ok buf => Ok (Encode encoder buf) end
      end
  end.

Definition mbase_decoded (encodedData : string) : result string :=
  match Decode encodedData with Err e => Err ("failed to decode multibase: " +:+ e) | Ok (_, data) => Ok data end.

Definition mbase_decode (body : option error) (file : result (result string)) : result string :=
  match body with
  | Some e => Err e
  | None => match read_file file with Err e => Err e | Ok encodedData => mbase_decoded encodedData end
  end.

Definition mbase_transcode (body : option error) (encoderName : string) (file : result (result string)) : result string :=
  match body with
  | Some e => Err e
  | None =>
      match EncoderByName encoderName with
      | Err e => Err e
      | Ok encoder =>
          match read_file file with
          | Err e => Err e
          | Ok encodedData => match mbase_decoded encodedData with Err e => Err e | Ok data => Ok (Encode encoder data) end
          end
      end
  end.

(** What was encoded in any base, and transcoded to any other, is decoded to what it was. *)
Theorem mbase_roundtrip b1 b2 data e t :
  mbase_encode None b1 (Ok (Ok data)) = Ok e -> mbase_transcode None b2 (Ok (Ok e)) = Ok t ->
  mbase_decode None (Ok (Ok e)) = Ok data /\ mbase_decode None (Ok (Ok t)) = Ok data /\ mbase_encode None b2 (Ok (Ok data)) = Ok t.
Proof.
  unfold mbase_encode, mbase_transcode, mbase_decode, mbase_decoded. cbn [read_file]. destruct (EncoderByName b1) as [x1|]; [|done]. destruct (EncoderByName b2) as [x2|]; [|done].
  intros [= <-]. rewrite Decode_Encode. intros [= <-]. by rewrite Decode_Encode.
Qed.

(** ** Arguments in URLs *)

Definition urlArgsEncoder (args : list string) : list string := Encode Base64url <$> args.

Fixpoint urlArgsDecoder (args : list string) : result (list string) :=
  match args with
  | [] => Ok []
  | arg :: args =>
      match Decode arg with
      | Err e => Err ("URL arg must be multibase encoded: " +:+ e)
      | Ok (encoding, data) =>
          if decide (encoding = Base64url) then match urlArgsDecoder args with Err e => Err e | Ok args => Ok (data :: args) end
          else Err "URL arg must be base64url encoded"
      end
  end.

Lemma url_args_roundtrip args : urlArgsDecoder (urlArgsEncoder args) = Ok args.
Proof.
  induction args as [|arg args IH]; [done|]. cbn [urlArgsEncoder fmap list_fmap urlArgsDecoder]. rewrite Decode_Encode, decide_True by done.
  change (Encode Base64url <$> args) with (urlArgsEncoder args). by rewrite IH.
Qed.

(** Only arguments in that encoding are taken. *)
Lemma url_args_strict args raw : urlArgsDecoder args = Ok raw -> Forall2 (fun a r => Decode a = Ok (Base64url, r)) args raw.
Proof.
  revert raw. induction args as [|arg args IH]; intros raw; [by intros [= <-]|]. cbn. destruct (Decode arg) as [[b d]|] eqn:Hd; [|done].
  case_decide as Hb; [|done]. subst b. destruct (urlArgsDecoder args) as [raw'|]; [|done]. intros [= <-]. constructor; [done|by apply IH].
Qed.

(** ** The API *)

Record message := MkMsg { m_From : string; m_Data : string; m_Seq : string; m_Topic : option string }.

(** The node: whether pubsub is enabled and the node online, its topics, the peers of a
    topic (of all of them for the empty name), what a subscription answers, and what
    publishing answers. *)
Record pubsub := MkPubSub {
  enabled : bool; checkOnline : option error;
  GetTopics : list string; ListPeers : string -> list string;
  ps_Subscribe : string -> result (list message * error);
  ps_Publish : string -> string -> option error }.

Definition checkNode (n : pubsub) : option error :=
  if negb (enabled n) then Some "experimental pubsub feature not enabled, run daemon with --enable-pubsub-experiment to use" else checkOnline n.

Definition Ls (n : pubsub) : result (list string) := match checkNode n with Some e => Err e | None => Ok (GetTopics n) end.
(** [opts]: the error of the options. *)
Definition Peers (n : pubsub) (opts : option error) (topic : string) : result (list string) :=
  match checkNode n with Some e => Err e | None => match opts with Some e => Err e | None => Ok (ListPeers n topic) end end.
(** The messages that were sent besides the error. *)
Definition Publish (n : pubsub) (topic data : string) : list (string * string) * option error :=
  match checkNode n with
  | Some e => ([], Some e)
  | None => match ps_Publish n topic data with Some e => ([], Some e) | None => ([(topic, data)], None) end
  end.
Definition Subscribe (n : pubsub) (opts : option error) (topic : string) : result (list message * error) :=
  match opts with Some e => Err e | None => match checkNode n with Some e => Err e | None => ps_Subscribe n topic end end.
(** [Topics] of a message. *)
Definition Topics (m : message) : list string := match m_Topic m with None => [] | Some t => [t] end.

(** ** The commands *)

Record pubsubMessage := MkPsm { From : string; Data : string; Seqno : string; TopicIDs : list string }.

(** [encoder, _ := mbase.EncoderByName("base64url")]. *)
Definition shown (m : message) : pubsubMessage :=
  MkPsm (m_From m) (Encode Base64url (m_Data m)) (Encode Base64url (m_Seq m)) (Encode Base64url <$> Topics m).

(** [alive]: what emitting a message answers.  The messages put out, and the error. *)
Fixpoint sub_loop (alive : pubsubMessage -> option error) (msgs : list message) (last : error) (out : list pubsubMessage)
    : list pubsubMessage * option error :=
  match msgs with
  | [] => (out, if String.eqb last "EOF" || String.eqb last "context canceled" then None else Some last)
  | m :: msgs =>
      match alive (shown m) with
      | Some e => (out, Some e)
      | None => sub_loop alive msgs last (out ++ [shown m])
      end
  end.

(** What was put out, whether a subscription was opened and whether it was closed, and
    the error. *)
Record subscribed := MkSub { s_out : list pubsubMessage; s_opened : bool; s_closed : bool; s_err : option error }.

Definition sub_Run (n : pubsub) (alive : pubsubMessage -> option error) (arguments : list string) : outcome subscribed :=
  match urlArgsDecoder arguments with
  | Err e => Ret (MkSub [] false false (Some e))
  | Ok [] => Panic "index out of range [0] with length 0"
  | Ok (topic :: _) =>
      match Subscribe n None topic with
      | Err e => Ret (MkSub [] false false (Some e))
      | Ok (msgs, last) => let '(out, e) := sub_loop alive msgs last [] in Ret (MkSub out true true e)
      end
  end.

(** The text of a message. *)
Definition sub_text (psm : pubsubMessage) : result string := match Decode (Data psm) with Err e => Err e | Ok (_, dec) => Ok dec end.

(** What was published, and the error. *)
Definition pub_Run (n : pubsub) (arguments : list string) (file : result (result string)) : outcome (list (string * string) * option error) :=
  match urlArgsDecoder arguments with
  | Err e => Ret ([], Some e)
  | Ok [] => Panic "index out of range [0] with length 0"
  | Ok (topic :: _) =>
      match file with
      | Err e => Ret ([], Some e)
      | Ok (Err e) => Ret ([], Some e)
      | Ok (Ok data) => Ret (Publish n topic data)
      end
  end.

Definition ls_Run (n : pubsub) : result (list string) := match Ls n with Err e => Err e | Ok l => Ok (Encode Base64url <$> l) end.

(** Lines, written until one cannot be. *)
Definition safeTextListEncoder (EscNonPrint : string -> string) (list : list string) : string :=
  String.concat "" ((fun str => EscNonPrint str +:+ String (ascii_of_nat 10) "") <$> list).

Fixpoint decode_all (l : list string) : result (list string) :=
  match l with
  | [] => Ok []
  | mb :: l => match Decode mb with Err e => Err e | Ok (_, data) => match decode_all l with Err e => Err e | Ok ds => Ok (data :: ds) end end
  end.
Definition multibaseDecodedStringListEncoder (EscNonPrint : string -> string) (l : list string) : result string :=
  match decode_all l with Err e => Err e | Ok ds => Ok (safeTextListEncoder EscNonPrint ds) end.

Definition peers_Run (n : pubsub) (arguments : list string) : result (list string) :=
  match urlArgsDecoder arguments with
  | Err e => Err e
  | Ok args =>
      let topic := match args with [t] => t | _ => "" end in
      match Peers n None topic with Err e => Err e | Ok peers => Ok (merge_sort String.le peers) end
  end.

(** ** Theorems *)

Lemma sub_loop_all alive msgs last out : (forall m, alive (shown m) = None) ->
  sub_loop alive msgs last out = (out ++ (shown <$> msgs), if String.eqb last "EOF" || String.eqb last "context canceled" then None else Some last).
Proof.
  intros Ha. revert out. induction msgs as [|m msgs IH]; intros out; cbn; [by rewrite app_nil_r|]. rewrite Ha, IH. by rewrite <- app_assoc.
Qed.

Lemma sub_loop_prefix alive msgs last out : exists k, (sub_loop alive msgs last out).1 = out ++ (shown <$> take k msgs).
Proof.
  revert out. induction msgs as [|m msgs IH]; intros out; cbn; [exists 0; by rewrite app_nil_r|]. destruct (alive (shown m)); [exists 0; by rewrite app_nil_r|].
  destruct (IH (out ++ [shown m])) as [k ->]. exists (S k). cbn. by rewrite <- app_assoc.
Qed.

(** The data of messages as the client writes it, unless some cannot be decoded. *)
Definition written (out : list pubsubMessage) : option (list string) :=
  mapM (M := option) (fun p => match sub_text p with Ok s => Some s | Err _ => None end) out.

Lemma mapM_shown msgs : written (shown <$> msgs) = Some (m_Data <$> msgs).
Proof.
  unfold written. apply mapM_Some. induction msgs as [|m msgs IH]; constructor; [|exact IH]. unfold sub_text. cbn [shown Data]. by rewrite Decode_Encode.
Qed.

(** Whatever bytes the topic and the messages have: the server subscribes to the topic
    the client was given, and the client writes the data of the messages as they were
    published, in their order; a client that goes away has got the first of them.  A
    subscription is closed exactly if it was opened, and an ended or cancelled one is
    no error. *)
Theorem pubsub_delivers n topic alive r :
  sub_Run n alive (urlArgsEncoder [topic]) = r ->
  exists sub, r = Ret sub /\ s_opened sub = s_closed sub /\
    match Subscribe n None topic with
    | Err e => sub = MkSub [] false false (Some e)
    | Ok (msgs, last) =>
        (exists k, written (s_out sub) = Some (m_Data <$> take k msgs)) /\
        ((forall m, alive m = None) -> s_out sub = (shown <$> msgs) /\ (s_err sub = None <-> last = "EOF" \/ last = "context canceled"))
    end.
Proof.
  intros <-. unfold sub_Run. rewrite url_args_roundtrip. destruct (Subscribe n None topic) as [[msgs last]|e]; [|by eexists].
  destruct (sub_loop alive msgs last []) as [out e] eqn:Hs. eexists. split; [done|]. split; [done|]. cbn [s_out s_err]. split.
  - destruct (sub_loop_prefix alive msgs last []) as [k Hk]. rewrite Hs in Hk. cbn in Hk. subst out. exists k. clear.
    apply mapM_shown.
  - intros Ha. rewrite sub_loop_all in Hs by done. injection Hs as <- <-. split; [done|].
    destruct (String.eqb_spec last "EOF") as [->|H1]; cbn; [naive_solver|]. destruct (String.eqb_spec last "context canceled") as [->|H2]; naive_solver.
Qed.

(** What a client publishes is what the node sends, under the topic given. *)
Theorem pubsub_publishes n topic data : checkNode n = None -> ps_Publish n topic data = None ->
  pub_Run n (urlArgsEncoder [topic]) (Ok (Ok data)) = Ret ([(topic, data)], None).
Proof. intros Hc Hp. unfold pub_Run. rewrite url_args_roundtrip. unfold Publish. by rewrite Hc, Hp. Qed.

(** The topics a client lists are those of the node, and the peers are listed in order. *)
Theorem pubsub_lists n Esc topics l : Ls n = Ok topics -> ls_Run n = Ok l ->
  multibaseDecodedStringListEncoder Esc l = Ok (safeTextListEncoder Esc topics) /\
  (forall topic peers, peers_Run n (urlArgsEncoder [topic]) = Ok peers -> peers ≡ₚ ListPeers n topic /\ Sorted String.le peers).
Proof.
  intros Hl Hr. split.
  - unfold ls_Run in Hr. rewrite Hl in Hr. injection Hr as <-. unfold multibaseDecodedStringListEncoder.
    assert (Hd : decode_all (Encode Base64url <$> topics) = Ok topics) by (clear; induction topics as [|t l IH]; [done|]; rewrite fmap_cons; cbn [decode_all]; by rewrite Decode_Encode, IH).
    by rewrite Hd.
  - intros topic peers. unfold peers_Run. rewrite url_args_roundtrip. unfold Peers. destruct (checkNode n); [done|]. intros [= <-].
    split; [by rewrite merge_sort_Permutation|]. apply Sorted_merge_sort. apply _.
Qed.
End MbaseCmd.

(** ** The hypotheses are met *)
Module DemoPubSub.
#[local] Instance mbase : Multibase := {|
  base := unit; Base64url := tt; EncoderByName n := if String.eqb n "base64url" then Ok tt else Err "unsupported";
  Encode _ s := "u" +:+ s; Decode s := match s with String "u" s => Ok (tt, s) | _ => Err "selected encoding not supported" end;
  EncoderByName_64url := eq_refl; Decode_Encode b s := match b with tt => eq_refl end;
|}.

Definition msgs : list message := [MkMsg "p" "hello" "1" (Some "t")].
Definition node : pubsub := MkPubSub true None ["t"] (fun _ => ["q"; "p"]) (fun _ => Ok (msgs, "EOF")) (fun _ _ => None).

Lemma mbase_roundtrip_witness : mbase_decode None (Ok (Ok "uhi")) = Ok "hi".
Proof. apply (mbase_roundtrip "base64url" "base64url" "hi" "uhi" "uhi"); reflexivity. Defined.

Lemma pubsub_delivers_witness : exists sub, sub_Run node (fun _ => None) (urlArgsEncoder ["t"]) = Ret sub /\ s_out sub = shown <$> msgs.
Proof.
  destruct (pubsub_delivers node "t" (fun _ => None) _ eq_refl) as (sub & Hr & _ & _ & Hall). exists sub. split; [exact Hr|]. by apply Hall.
Defined.

Lemma pubsub_publishes_witness : pub_Run node (urlArgsEncoder ["t"]) (Ok (Ok "hi")) = Ret ([("t", "hi")], None).
Proof. apply (pubsub_publishes node "t" "hi"); reflexivity. Defined.

Lemma pubsub_lists_witness : multibaseDecodedStringListEncoder id ["ut"] = Ok (safeTextListEncoder id ["t"]).
Proof. apply (pubsub_lists node id ["t"] ["ut"]); reflexivity. Defined.
End DemoPubSub.
