(* ===== verification/FilestoreCmd.v ===== *)
(** The commands [ipfs filestore]: [core/commands/filestore.go], with [streamResult] of
    [core/commands/commands.go].

    The filestore is given by what its library answers: [List] and [Verify] for a CID, and
    the entries of a listing or a verification of everything in either order.  [alive] is
    what emitting answers. *)
From Stdlib Require Import ZArith Lia String.
From stdpp Require Import base strings list.
From S2P Require Import Prelude GoStrings.

(** ** [commands.go] *)

(** A response as the client reads it: its values, and the error that ends it ([None] is
    the end of the stream). *)
Record response (V : Type) := MkResponse { r_vals : list V; r_err : option error }.
Arguments MkResponse {V}.
Arguments r_vals {V}.
Arguments r_err {V}.

Record printed := MkPrinted { stdout : list string; stderr : list string; p_closed : bool; p_err : option error }.

Section Streams.
Context {V : Type}.

(** The loop: what a value is printed as, and its error message, which may be a panic. *)
Fixpoint stream_loop (procVal : V -> outcome (list string * string)) (vals : list V) (err : option error) (out errs : list string) : printed :=
  match vals with
  | [] =>
      MkPrinted out errs true
        (match err with
         | Some e => Some e
         | None => match errs with [] => None | _ => Some "errors while displaying some entries" end
         end)
  | v :: vals =>
      match procVal v with
      | Panic r => MkPrinted out errs true (Some ("internal error: " +:+ r))
      | Ret (lines, errorMsg) => stream_loop procVal vals err (out ++ lines) (errs ++ if String.eqb errorMsg "" then [] else [errorMsg])
      end
  end.
Definition streamResult (procVal : V -> outcome (list string * string)) (res : response V) : printed := stream_loop procVal (r_vals res) (r_err res) [] [].

(** Emitting one value after the other. *)
Fixpoint emit_all (alive : V -> option error) (vals out : list V) : list V * option error :=
  match vals with
  | [] => (out, None)
  | v :: vals => match alive v with Some e => (out, Some e) | None => emit_all alive vals (out ++ [v]) end
  end.
End Streams.

(** ** The filestore *)

Inductive status := StatusOk | StatusFileError | StatusFileNotFound | StatusFileChanged | StatusOtherError | StatusKeyNotFound.
#[export] Instance status_eq : EqDecision status.
Proof. solve_decision. Defined.

Section Filestore.
Context {Cid Info : Type}.

(** [ListRes]; [r_info] is the rest of its fields. *)
Record ListRes := MkListRes { Status : status; ErrorMsg : string; r_info : option Info }.

Record filestore := MkFilestore {
  Verify : Cid -> ListRes;
  ListAll : bool -> result (list ListRes);
  VerifyAll : bool -> result (list ListRes);
  FileKeys : result (list Cid);             (** [FileManager().AllKeysChan] *)
  MainHas : Cid -> result bool }.

Context (cid_Decode : string -> result Cid) (FormatLong : ListRes -> string) (status_Format : status -> string).

(** [n.Filestore]; [nd] is the error of finding the node. *)
Definition getFilestore (nd : option error) (fs : option filestore) : result filestore :=
  match nd with
  | Some e => Err e
  | None => match fs with None => Err "filestore is not enabled, see https://git.io/vNItf" | Some fs => Ok fs end
  end.

(** What is emitted for an argument. *)
Definition arg_result (fs : filestore) (arg : string) : ListRes :=
  match cid_Decode arg with
  | Err err => MkListRes StatusOtherError (arg +:+ ": " +:+ err) None
  | Ok c => Verify fs c
  end.
Fixpoint listByArgs (alive : ListRes -> option error) (fs : filestore) (args : list string) (out : list ListRes) : list ListRes * option error :=
  match args with
  | [] => (out, None)
  | arg :: args =>
      match alive (arg_result fs arg) with
      | Some e => (out, Some e)
      | None => listByArgs alive fs args (out ++ [arg_result fs arg])
      end
  end.

(** Both commands: [all] is what they do without arguments. *)
Definition ls_Run (alive : ListRes -> option error) (nd : option error) (fs : option filestore) (args : list string) (fileOrder : bool)
    : list ListRes * option error :=
  match getFilestore nd fs with
  | Err e => ([], Some e)
  | Ok fs =>
      match args with
      | _ :: _ => listByArgs alive fs args []
      | [] => match ListAll fs fileOrder with Err e => ([], Some e) | Ok rs => emit_all alive rs [] end
      end
  end.
Definition verify_Run (alive : ListRes -> option error) (nd : option error) (fs : option filestore) (args : list string) (fileOrder : bool)
    : list ListRes * option error :=
  match getFilestore nd fs with
  | Err e => ([], Some e)
  | Ok fs =>
      match args with
      | _ :: _ => listByArgs alive fs args []
      | [] => match VerifyAll fs fileOrder with Err e => ([], Some e) | Ok rs => emit_all alive rs [] end
      end
  end.

(** The line of a result, or the message instead. *)
Definition ls_line (r : ListRes) : list string * string := if String.eqb (ErrorMsg r) "" then ([FormatLong r], "") else ([], ErrorMsg r).
(** The client's side of [filestore ls]; [enc] is the error of the encoder of CIDs. *)
Definition ls_PostRun (enc : option error) (res : response ListRes) : printed :=
  match enc with
  | Some e => MkPrinted [] [] false (Some e)
  | None => streamResult (fun r => Ret (ls_line r)) res
  end.

Fixpoint verify_lines (vals : list ListRes) (err : option error) (out errs : list string) : printed :=
  match vals with
  | [] => MkPrinted out errs false err
  | r :: vals =>
      verify_lines vals err (out ++ [status_Format (Status r) +:+ " " +:+ FormatLong r])
        (errs ++ if decide (Status r = StatusOtherError) then [ErrorMsg r] else [])
  end.
Definition verify_PostRun (enc : option error) (res : response ListRes) : printed :=
  match enc with Some e => MkPrinted [] [] false (Some e) | None => verify_lines (r_vals res) (r_err res) [] [] end.

(** *** Duplicates *)

Inductive ref := Ref (s : string) | RefErr (e : error).

Fixpoint dups_loop (alive : ref -> option error) (Encode : Cid -> string) (fs : filestore) (keys : list Cid) (out : list ref) : list ref * option error :=
  match keys with
  | [] => (out, None)
  | c :: keys =>
      match MainHas fs c with
      | Err e => match alive (RefErr e) with Some e' => (out, Some e') | None => (out ++ [RefErr e], None) end
      | Ok false => dups_loop alive Encode fs keys out
      | Ok true =>
          match alive (Ref (Encode c)) with
          | Some e => (out, Some e)
          | None => dups_loop alive Encode fs keys (out ++ [Ref (Encode c)])
          end
      end
  end.

Definition dups_Run (alive : ref -> option error) (nd : option error) (fs : option filestore) (enc : result (Cid -> string)) : list ref * option error :=
  match getFilestore nd fs with
  | Err e => ([], Some e)
  | Ok fs =>
      match enc with
      | Err e => ([], Some e)
      | Ok Encode => match FileKeys fs with Err e => ([], Some e) | Ok keys => dups_loop alive Encode fs keys [] end
      end
  end.

(** ** Theorems *)

Lemma emit_all_alive {V} (alive : V -> option error) vals out : (forall v, alive v = None) -> emit_all alive vals out = (out ++ vals, None).
Proof. intros Ha. revert out. induction vals as [|v vals IH]; intros out; cbn; [by rewrite app_nil_r|]. rewrite Ha, IH. by rewrite <- app_assoc. Qed.

Lemma listByArgs_alive alive fs args out : (forall v, alive v = None) -> listByArgs alive fs args out = (out ++ (arg_result fs <$> args), None).
Proof. intros Ha. revert out. induction args as [|v args IH]; intros out; cbn; [by rewrite app_nil_r|]. rewrite Ha, IH. by rewrite <- app_assoc. Qed.

(** The client's loop prints, in order, the lines and the messages of all values, and
    fails at the end when there was a message. *)
Lemma stream_exact {V} (f : V -> list string * string) (res : response V) :
  streamResult (fun v => Ret (f v)) res =
    let errs := filter (fun m => m <> "") (snd <$> (f <$> r_vals res)) in
    MkPrinted ((r_vals res) ≫= (fun v => (f v).1)) errs true
      (match r_err res with Some e => Some e | None => match errs with [] => None | _ => Some "errors while displaying some entries" end end).
Proof.
  unfold streamResult. assert (Hg : forall vals out errs, stream_loop (fun v => Ret (f v)) vals (r_err res) out errs =
    let errs' := errs ++ filter (fun m => m <> "") (snd <$> (f <$> vals)) in
    MkPrinted (out ++ (vals ≫= (fun v => (f v).1))) errs' true
      (match r_err res with Some e => Some e | None => match errs' with [] => None | _ => Some "errors while displaying some entries" end end)).
  { induction vals as [|v vals IH]; intros out errs; [cbn; by rewrite !app_nil_r|]. rewrite !fmap_cons, bind_cons. cbn [stream_loop]. destruct (f v) as [lines m] eqn:Hf. cbn [fst snd]. rewrite IH. cbv zeta.
    destruct (String.eqb_spec m "") as [->|Hm].
    - rewrite filter_cons_False by naive_solver. by rewrite app_nil_r, <- app_assoc.
    - rewrite filter_cons_True by done. by rewrite <- !app_assoc. }
  rewrite Hg. done.
Qed.

(** Objects that are asked for by name are verified, by [filestore ls] as by [filestore
    verify]: one answer for every argument, in order, an argument that is no CID included.
    So [ls] fails for an object whose file has changed, which it lists when it lists all. *)
Theorem filestore_args_exact alive fs a args fileOrder :
  (forall v, alive v = None) ->
  ls_Run alive None (Some fs) (a :: args) fileOrder = verify_Run alive None (Some fs) (a :: args) fileOrder /\
  ls_Run alive None (Some fs) (a :: args) fileOrder = (arg_result fs <$> (a :: args), None) /\
  (forall r rest, arg_result fs <$> (a :: args) = r :: rest -> ErrorMsg r <> "" ->
     p_err (ls_PostRun None (MkResponse (r :: rest) None)) = Some "errors while displaying some entries") /\
  (forall rs, ListAll fs fileOrder = Ok rs -> Forall (fun r => ErrorMsg r = "") rs ->
     ls_PostRun None (MkResponse (ls_Run alive None (Some fs) [] fileOrder).1 None) = MkPrinted (FormatLong <$> rs) [] true None).
Proof.
  intros Ha. split; [done|]. split; [|split].
  - unfold ls_Run. cbn [getFilestore]. by rewrite listByArgs_alive.
  - intros r rest _ Hm. unfold ls_PostRun. rewrite stream_exact. cbn [r_vals r_err p_err]. rewrite !fmap_cons. unfold ls_line at 1.
    rewrite (proj2 (String.eqb_neq _ _) Hm). cbn [snd]. by rewrite filter_cons_True.
  - intros rs Hl Hall. unfold ls_Run. cbn [getFilestore]. rewrite Hl, emit_all_alive by done. cbn [fst app]. unfold ls_PostRun. rewrite stream_exact. cbn [r_vals r_err].
    assert (He : filter (fun m => m <> "") (snd <$> (ls_line <$> rs)) = [] /\ (rs ≫= (fun v => (ls_line v).1)) = FormatLong <$> rs).
    { clear Hl. induction Hall as [|r rs Hr _ [IH1 IH2]]; [done|]. rewrite !fmap_cons, bind_cons. unfold ls_line at 1 3. rewrite Hr. cbn [String.eqb fst snd].
      rewrite filter_cons_False by naive_solver. split; [exact IH1|]. by rewrite IH2. }
    cbv zeta. by destruct He as [-> ->].
Qed.

Definition in_main (fs : filestore) (c : Cid) : bool := match MainHas fs c with Ok b => b | Err _ => false end.

(** [filestore dups] puts out exactly the keys of the filestore that the main block store
    has too, in order; when one cannot be looked up it stops there, with the problem as
    its last answer and without an error of its own. *)
Theorem dups_exact alive Encode fs keys :
  (forall v, alive v = None) -> FileKeys fs = Ok keys ->
  exists before, before `prefix_of` keys /\ Forall (fun c => exists b, MainHas fs c = Ok b) before /\
    let found := (fun c => Ref (Encode c)) <$> filter (fun c => in_main fs c = true) before in
    (before = keys /\ dups_Run alive None (Some fs) (Ok Encode) = (found, None) \/
     exists c rest e, keys = before ++ c :: rest /\ MainHas fs c = Err e /\ dups_Run alive None (Some fs) (Ok Encode) = (found ++ [RefErr e], None)).
Proof.
  intros Ha Hk. unfold dups_Run. cbn [getFilestore]. rewrite Hk. clear Hk.
  assert (Hg : forall out, exists before, before `prefix_of` keys /\ Forall (fun c => exists b, MainHas fs c = Ok b) before /\
    let found := (fun c => Ref (Encode c)) <$> filter (fun c => in_main fs c = true) before in
    (before = keys /\ dups_loop alive Encode fs keys out = (out ++ found, None) \/
     exists c rest e, keys = before ++ c :: rest /\ MainHas fs c = Err e /\ dups_loop alive Encode fs keys out = (out ++ found ++ [RefErr e], None))).
  { induction keys as [|c keys IH]; intros out; [exists []; split_and!; [done|done|left; cbn; by rewrite app_nil_r]|]. cbn [dups_loop].
    destruct (MainHas fs c) as [[|]|e] eqn:Hc.
    - rewrite Ha. destruct (IH (out ++ [Ref (Encode c)])) as (before & Hp & Hf & Hcase). exists (c :: before).
      split_and!; [by apply prefix_cons|constructor; [by eexists|done]|]. cbv zeta in *. rewrite filter_cons_True, fmap_cons by (unfold in_main; by rewrite Hc).
      destruct Hcase as [[-> ->]|(c' & rest & e & -> & He & ->)]; [left|right; exists c', rest, e]; by rewrite <- !app_assoc.
    - destruct (IH out) as (before & Hp & Hf & Hcase). exists (c :: before).
      split_and!; [by apply prefix_cons|constructor; [by eexists|done]|]. cbv zeta in *. rewrite filter_cons_False by (unfold in_main; by rewrite Hc).
      destruct Hcase as [[-> ->]|(c' & rest & e & -> & He & ->)]; [by left|right; by exists c', rest, e].
    - rewrite Ha. exists []. split_and!; [apply prefix_nil|done|]. right. by exists c, keys, e. }
  apply (Hg []).
Qed.
End Filestore.

(** ** The hypotheses are met *)
Module DemoFilestore.
Definition changed : ListRes (Info := unit) := MkListRes StatusFileChanged "file changed" None.
Definition listed : ListRes (Info := unit) := MkListRes StatusOk "" (Some tt).
Definition fs : filestore (Cid := nat) := MkFilestore (fun _ => changed) (fun _ => Ok [listed]) (fun _ => Ok [changed]) (Ok [1; 2])
  (fun c => if decide (c = 1) then Ok true else Err "io").

Lemma filestore_args_exact_witness :
  p_err (ls_PostRun (fun _ => "line") None (MkResponse [changed] None)) = Some "errors while displaying some entries" /\
  ls_PostRun (fun _ => "line") None (MkResponse [listed] None) = MkPrinted ["line"] [] true None.
Proof.
  destruct (filestore_args_exact (fun _ => Ok 1) (fun _ : ListRes (Info := unit) => "line") (fun _ => None) fs "a" [] false) as (_ & _ & H1 & H2); [done|].
  split; [by apply H1|]. apply (H2 [listed]); [done|by repeat constructor].
Defined.

Lemma dups_exact_witness : exists before, before `prefix_of` [1; 2] /\ Forall (fun c => exists b, MainHas fs c = Ok b) before.
Proof. destruct (dups_exact (fun _ => None) (fun _ => "c") fs [1; 2]) as (before & H1 & H2 & _); [done|done|]. by exists before. Defined.
End DemoFilestore.
