(* ===== verification/NameCmds.v ===== *)
(** The commands about names: [core/commands/name/ipns.go], [publish.go] and [ipnsps.go],
    and [core/commands/resolve.go].

    The options of a request are values with the type their declaration gives them; an
    option is read with a type assertion, which does not hold for another type.  The name
    API, the resolver and the pubsub router of names answer as given. *)
From Stdlib Require Import ZArith Lia String.
From stdpp Require Import base strings list.
From S2P Require Import Prelude GoStrings GoPath.

Local Open Scope Z_scope.

(** ** Options *)

Inductive optval := OBool (b : bool) | OInt (z : Z) | OUint (z : Z) | OString (s : string).

(** [req.Options[name].(T)] with its [ok]; without it a missing value is false or empty. *)
Definition as_uint (o : option optval) : option Z := match o with Some (OUint z) => Some z | _ => None end.
Definition as_string (o : option optval) : option string := match o with Some (OString s) => Some s | _ => None end.
Definition as_bool (o : option optval) : bool := match o with Some (OBool b) => b | _ => false end.
Definition as_text (o : option optval) : string := default "" (as_string o).

(** The options of a resolution: the cache, the depth, the records asked for and the time
    they may take. *)
Record ropts := MkRopts { ro_cache : option bool; ro_depth : option Z; ro_count : option Z; ro_timeout : option Z }.

Definition ErrResolveRecursion : error := "could not resolve name (recursion limit exceeded)".
Definition ErrOffline : error := "this action must be run in online mode, try running 'ipfs daemon' first".
Definition errAllowOffline : error := "can't publish while offline: pass `--allow-offline` to override".
Definition not_enabled : error := "IPNS pubsub subsystem is not enabled".

Section NameCmds.
(** [time.ParseDuration], [peer.Decode] and the text of a peer's identifier. *)
Context (ParseDuration : string -> result Z) (peer_Decode : string -> result string) (FormatID : string -> string).

(** The time allowed to the resolution, when the option is given. *)
Definition dht_timeout (o : option optval) : result (option Z) :=
  match as_string o with
  | None => Ok None
  | Some dhtt =>
      match ParseDuration dhtt with
      | Err e => Err e
      | Ok d => if d <? 0 then Err "DHT timeout value must be >= 0" else Ok (Some d)
      end
  end.

(** ** [ipns.go] *)

Section Resolve.
(** [Self] of the key API; what the name API answers: a path and an error, or a stream of
    them; what emitting answers. *)
Context (Self : result string) (Resolve : string -> ropts -> string * option error)
  (Search : string -> ropts -> result (list (string * option error))) (alive : string -> option error).

Definition tolerable (recursive : bool) (err : option error) : bool :=
  match err with None => true | Some e => negb recursive && String.eqb e ErrResolveRecursion end.

Fixpoint search_loop (recursive : bool) (vs : list (string * option error)) (out : list string) : list string * option error :=
  match vs with
  | [] => (out, None)
  | (p, err) :: vs =>
      if tolerable recursive err then
        match alive p with Some e => (out, Some e) | None => search_loop recursive vs (out ++ [p]) end
      else (out, err)
  end.

Definition with_prefix (name : string) : string := if HasPrefix name "/ipns/" then name else "/ipns/" +:+ name.

Definition name_Run (args : list string) (o_recursive o_nocache o_count o_timeout o_stream : option optval) : list string * option error :=
  match (match args with [] => Self | name :: _ => Ok name end) with
  | Err e => ([], Some e)
  | Ok name =>
      let recursive := as_bool o_recursive in
      match dht_timeout o_timeout with
      | Err e => ([], Some e)
      | Ok timeout =>
          let opts := MkRopts (Some (negb (as_bool o_nocache))) (if recursive then None else Some 1) (as_uint o_count) timeout in
          let name := with_prefix name in
          if negb (as_bool o_stream) then
            let '(output, err) := Resolve name opts in
            if tolerable recursive err then match alive output with Some e => ([], Some e) | None => ([output], None) end else ([], err)
          else
            match Search name opts with
            | Err e => ([], Some e)
            | Ok output => search_loop recursive output []
            end
      end
  end.
End Resolve.

(** ** [resolve.go] *)

(** A resolved path: its namespace, CID and remainder. *)
Record resolved (Cid : Type) := MkResolved { rp_ns : string; rp_cid : Cid; rp_rest : string }.
Arguments MkResolved {Cid}.
Arguments rp_ns {Cid}.
Arguments rp_cid {Cid}.
Arguments rp_rest {Cid}.

Section ResolveCmd.
Context {Cid : Type} (Resolve : string -> ropts -> string * option error) (ResolvePath : string -> result (resolved Cid))
  (CidBaseDefined : bool) (CidEncoderFromPath : string -> result (Cid -> string)) (GetCidEncoder : result (Cid -> string)).

(** The encoder: that of the path, unless one is asked for or there is none in the path. *)
Definition resolve_encoder (name : string) : result (Cid -> string) :=
  if negb CidBaseDefined && negb (HasPrefix name "/ipns/")
  then match CidEncoderFromPath name with Ok enc => Ok enc | Err _ => GetCidEncoder end
  else GetCidEncoder.

Definition resolve_Run (name : string) (o_recursive o_count o_timeout : option optval) : result string :=
  if HasPrefix name "/ipns/" && negb (as_bool o_recursive) then
    match dht_timeout o_timeout with
    | Err e => Err e
    | Ok timeout =>
        let '(p, err) := Resolve name (MkRopts None (Some 1) (as_uint o_count) timeout) in
        if tolerable false err then Ok p else Err (default "" err)
    end
  else
    match resolve_encoder name with
    | Err e => Err e
    | Ok enc =>
        match ResolvePath name with
        | Err e => Err e
        | Ok rp => Ok ("/" +:+ rp_ns rp +:+ "/" +:+ enc (rp_cid rp) +:+ (if String.eqb (rp_rest rp) "" then "" else "/" +:+ rp_rest rp))
        end
    end.
End ResolveCmd.

(** ** [publish.go] *)

Record popts := MkPopts { po_allowOffline : bool; po_key : string; po_validTime : Z; po_ttl : option Z }.
Record ipnsEntry := MkEntry { e_Name : string; e_Value : string }.

(** [ResolveNode]: its error; [Publish]: the name and the value.  What was published,
    and what is put out. *)
Definition publish_Run (ResolveNode : string -> option error) (Publish : string -> popts -> result (string * string))
    (keyEnc : option error) (arg : string) (o_allowOffline o_key o_lifetime o_ttl o_resolve : option optval) : list (string * popts) * result ipnsEntry :=
  match keyEnc with
  | Some e => ([], Err e)
  | None =>
      match ParseDuration (as_text o_lifetime) with
      | Err e => ([], Err ("error parsing lifetime option: " +:+ e))
      | Ok validTime =>
          match (match as_string o_ttl with None => Ok None | Some t => match ParseDuration t with Err e => Err e | Ok d => Ok (Some d) end end) with
          | Err e => ([], Err e)
          | Ok ttl =>
              match (if as_bool o_resolve then ResolveNode arg else None) with
              | Some e => ([], Err e)
              | None =>
                  let opts := MkPopts (as_bool o_allowOffline) (as_text o_key) validTime ttl in
                  match Publish arg opts with
                  | Err e => ([], Err (if String.eqb e ErrOffline then errAllowOffline else e))
                  | Ok (name, value) =>
                      ([(arg, opts)], match peer_Decode name with Err e => Err e | Ok pid => Ok (MkEntry (FormatID pid) value) end)
                  end
              end
          end
      end
  end.

Definition publish_text (EscNonPrint : string -> string) (quieter : bool) (ie : ipnsEntry) : string :=
  if quieter then EscNonPrint (e_Name ie) else "Published to " +:+ EscNonPrint (e_Name ie) +:+ ": " +:+ EscNonPrint (e_Value ie).

(** ** [ipnsps.go] *)

(** The pubsub router of names: the keys subscribed to. *)
Definition router := list string.
Section IpnsPubsub.
(** [record.SplitKey], [peer.IDFromBytes] and the router's [Cancel], which says whether
    there was a subscription. *)
Context (SplitKey : string -> result (string * string)) (IDFromBytes : string -> result string) (Cancel : string -> router -> result bool * router).

Definition state_Run (psRouter : option router) : bool := match psRouter with Some _ => true | None => false end.
Definition state_text (enabled : bool) : string := if enabled then "enabled" else "disabled".

Definition sub_path (key : string) : option string :=
  match SplitKey key with
  | Err _ => None
  | Ok (ns, k) =>
      if negb (String.eqb ns "ipns") then None
      else match IDFromBytes k with Err _ => None | Ok pid => Some ("/ipns/" +:+ FormatID pid) end
  end.
Definition subs_Run (keyEnc : option error) (psRouter : option router) : result (list string) :=
  match keyEnc with
  | Some e => Err e
  | None => match psRouter with None => Err not_enabled | Some keys => Ok (omap sub_path keys) end
  end.

Definition cancel_Run (psRouter : option router) (name : string) : result bool * option router :=
  match psRouter with
  | None => (Err not_enabled, None)
  | Some keys =>
      match peer_Decode (TrimPrefix name "/ipns/") with
      | Err e => (Err e, Some keys)
      | Ok pid => let '(r, keys) := Cancel ("/ipns/" +:+ pid) keys in (r, Some keys)
      end
  end.
Definition cancel_text (canceled : bool) : string := if canceled then "canceled" else "no subscription".
End IpnsPubsub.
End NameCmds.
Arguments MkResolved {Cid}.
Arguments rp_ns {Cid}.
Arguments rp_cid {Cid}.
Arguments rp_rest {Cid}.

(** ** Theorems *)
Section Theorems.
Context (ParseDuration : string -> result Z) (peer_Decode : string -> result string) (FormatID : string -> string).

(** The option of [ipfs resolve] for the number of records is declared as an integer and
    read as an unsigned one: whatever number is given, the command does what it does
    without it.  [ipfs name resolve] declares it as it reads it and asks for the number. *)
Theorem resolve_ignores_count {Cid} Resolve (ResolvePath : string -> result (resolved Cid)) base from_path enc name o_rec n o_t :
  resolve_Run ParseDuration Resolve ResolvePath base from_path enc name o_rec (Some (OInt n)) o_t =
  resolve_Run ParseDuration Resolve ResolvePath base from_path enc name o_rec None o_t /\
  (forall Self Search alive o_nocache, o_t = None ->
    name_Run ParseDuration Self Resolve Search alive [name] o_rec o_nocache (Some (OUint n)) o_t None =
    let '(output, err) := Resolve (with_prefix name) (MkRopts (Some (negb (as_bool o_nocache))) (if as_bool o_rec then None else Some 1) (Some n) None) in
    if tolerable (as_bool o_rec) err then match alive output with Some e => ([], Some e) | None => ([output], None) end else ([], err)).
Proof. split; [done|]. intros Self Search alive o_nocache ->. done. Qed.

(** The entries of a stream that are put out: those before the first that is an error,
    where reaching the limit of the recursion is none unless it was asked for. *)
Lemma search_loop_exact alive recursive vs out : (forall p, alive p = None) ->
  exists before, search_loop alive recursive vs out = (out ++ before.*1, match drop (length before) vs with [] => None | v :: _ => v.2 end) /\
    before `prefix_of` vs /\ Forall (fun v => tolerable recursive v.2 = true) before /\
    match drop (length before) vs with [] => True | v :: _ => tolerable recursive v.2 = false end.
Proof.
  intros Ha. revert out. induction vs as [|[p err] vs IH]; intros out; [exists []; cbn; by rewrite app_nil_r|]. cbn [search_loop].
  destruct (tolerable recursive err) eqn:Ht.
  - rewrite Ha. destruct (IH (out ++ [p])) as (before & -> & Hp & Hf & Hd). exists ((p, err) :: before). cbn. split_and!; [by rewrite <- app_assoc|by apply prefix_cons|by constructor|done].
  - exists []. cbn. split_and!; [by rewrite app_nil_r|apply prefix_nil|done|done].
Qed.

Theorem name_search_exact Self Resolve Search alive name o_rec o_nocache o_count opts vs :
  (forall p, alive p = None) -> opts = MkRopts (Some (negb (as_bool o_nocache))) (if as_bool o_rec then None else Some 1) (as_uint o_count) None ->
  Search (with_prefix name) opts = Ok vs ->
  exists before, before `prefix_of` vs /\ Forall (fun v => tolerable (as_bool o_rec) v.2 = true) before /\
    name_Run ParseDuration Self Resolve Search alive [name] o_rec o_nocache o_count None (Some (OBool true)) =
      (before.*1, match drop (length before) vs with [] => None | v :: _ => v.2 end).
Proof.
  intros Ha -> Hs. destruct (search_loop_exact alive (as_bool o_rec) vs [] Ha) as (before & He & Hp & Hf & _). exists before. split_and!; [done|done|].
  unfold name_Run. cbn [dht_timeout as_string as_bool negb]. rewrite Hs. exact He.
Qed.

(** Publishing happens at most once: with the key and the lifetime given, when they and
    the time to live can be read, and, where it was asked for, after the path was
    resolved; what is answered is then the name published to.  Nothing is published
    otherwise. *)
Theorem publish_checked ResolveNode Publish keyEnc arg o_off o_key o_life o_ttl o_resolve :
  let '(pubs, r) := publish_Run ParseDuration peer_Decode FormatID ResolveNode Publish keyEnc arg o_off o_key o_life o_ttl o_resolve in
  match pubs with
  | [] => exists e, r = Err e
  | [(a, opts)] => a = arg /\ keyEnc = None /\ po_key opts = as_text o_key /\ po_allowOffline opts = as_bool o_off /\
      ParseDuration (as_text o_life) = Ok (po_validTime opts) /\ (as_bool o_resolve = true -> ResolveNode arg = None) /\
      exists name value, Publish arg opts = Ok (name, value) /\ r = match peer_Decode name with Err e => Err e | Ok pid => Ok (MkEntry (FormatID pid) value) end
  | _ => False
  end.
Proof.
  unfold publish_Run. destruct keyEnc as [e|]; [by eexists|]. destruct (ParseDuration (as_text o_life)) as [validTime|e] eqn:Hl; [|by eexists].
  destruct (match as_string o_ttl with None => Ok None | Some t => _ end) as [ttl|e]; [|by eexists].
  destruct (as_bool o_resolve); [destruct (ResolveNode arg) as [e|]; [by eexists|]|];
    (destruct (Publish arg _) as [[name value]|e] eqn:Hp; [split_and!; try done; by exists name, value|by eexists]).
Qed.

(** Being offline is answered with what to do about it. *)
Theorem publish_offline Publish arg o_off o_key o_life validTime :
  ParseDuration (as_text o_life) = Ok validTime -> (forall opts, Publish arg opts = Err ErrOffline) ->
  publish_Run ParseDuration peer_Decode FormatID (fun _ => None) Publish None arg o_off o_key o_life None None = ([], Err errAllowOffline).
Proof. intros Hl Hp. unfold publish_Run. rewrite Hl. cbn. by rewrite Hp. Qed.

(** What is listed as a subscription can be given to [cancel] as it is listed, and the
    router is asked to cancel just that subscription. *)
Theorem listed_names_cancel SplitKey IDFromBytes Cancel keys paths path :
  (forall key k, SplitKey key = Ok ("ipns", k) -> key = "/ipns/" +:+ k) -> (forall k pid, IDFromBytes k = Ok pid -> pid = k) ->
  (forall pid, peer_Decode (FormatID pid) = Ok pid) ->
  subs_Run FormatID SplitKey IDFromBytes None (Some keys) = Ok paths -> path ∈ paths ->
  exists key, key ∈ keys /\ sub_path FormatID SplitKey IDFromBytes key = Some path /\
    cancel_Run peer_Decode Cancel (Some keys) path = let '(r, keys') := Cancel key keys in (r, Some keys').
Proof.
  intros Hsplit Hid Hdec [= <-] Hp. apply list_elem_of_omap in Hp as (key & Hin & Hkey). exists key. split_and!; [done|done|].
  unfold sub_path in Hkey. destruct (SplitKey key) as [[ns k]|] eqn:Hs; [|done]. destruct (String.eqb_spec ns "ipns") as [->|]; [|done].
  cbn [negb] in Hkey. destruct (IDFromBytes k) as [pid|] eqn:Hk; [|done]. injection Hkey as <-. apply Hid in Hk as ->. rewrite (Hsplit _ _ Hs).
  unfold cancel_Run. by rewrite TrimPrefix_app, Hdec.
Qed.
End Theorems.

(** ** The hypotheses are met *)
Module DemoNames.
Definition answers : list (string * option error) := [("/ipfs/a", None); ("", Some "gone"); ("/ipfs/b", None)].

Lemma name_search_exact_witness : exists before, before `prefix_of` answers /\
  name_Run (fun _ => Err "") (Ok "me") (fun _ _ => ("", None)) (fun _ _ => Ok answers) (fun _ => None) ["n"] None None None None (Some (OBool true)) =
    (before.*1, match drop (length before) answers with [] => None | v :: _ => v.2 end).
Proof.
  destruct (name_search_exact (fun _ => Err "") (Ok "me") (fun _ _ => ("", None)) (fun _ _ => Ok answers) (fun _ => None) "n" None None None (MkRopts (Some true) (Some 1) None None) answers) as (before & H1 & _ & H2);
    [done|done|done|]. exists before. split; [exact H1|exact H2].
Defined.

(** A router that knows one name. *)
Definition split (key : string) : result (string * string) := if String.eqb key "/ipns/p" then Ok ("ipns", "p") else Err "bad key".

Lemma split_ipns key k : split key = Ok ("ipns", k) -> key = "/ipns/" +:+ k.
Proof. unfold split. destruct (String.eqb_spec key "/ipns/p") as [->|]; [|done]. by intros [= <-]. Qed.

Lemma listed_names_cancel_witness : exists key, key ∈ ["/pk/x"; "/ipns/p"] /\ sub_path id split (fun k => Ok k) key = Some "/ipns/p".
Proof.
  destruct (listed_names_cancel (fun p => Ok p) id split (fun k => Ok k) (fun k ks => (Ok true, filter (fun k' => k' <> k) ks)) ["/pk/x"; "/ipns/p"] ["/ipns/p"] "/ipns/p")
    as (key & H1 & H2 & _); [exact split_ipns|by intros k pid [= ->]|done|reflexivity|apply list_elem_of_here|]. by exists key.
Defined.

Lemma publish_offline_witness : publish_Run (fun _ => Ok 24) (fun p => Ok p) id (fun _ => None) (fun _ _ => Err ErrOffline) None "/ipfs/a" None None (Some (OString "24h")) None None = ([], Err errAllowOffline).
Proof. apply (publish_offline (fun _ => Ok 24) _ _ _ _ _ _ _ 24); reflexivity. Defined.

Lemma resolve_ignores_count_witness :
  name_Run (fun _ => Err "") (Ok "me") (fun _ _ => ("/ipfs/a", None)) (fun _ _ => Ok []) (fun _ => None) ["n"] None None (Some (OUint 3)) None None = (["/ipfs/a"], None).
Proof.
  rewrite (proj2 (resolve_ignores_count (fun _ => Err "") (Cid := unit) (fun _ _ => ("/ipfs/a", None)) (fun _ => Err "") false (fun _ => Err "") (Err "") "n" None 3 None));
    reflexivity.
Defined.
End DemoNames.
