(* ===== verification/BlockCmds.v ===== *)
(** The commands [ipfs block]: [core/commands/block.go], over the block API of [CoreAPI].

    The CID prefix, which the options of [block put] determine, is a field of [ApiEnv];
    [put_options] is what the command makes of its options.  [alive] is what emitting
    answers. *)
From Stdlib Require Import ZArith Lia Ascii String.
From stdpp Require Import base strings sets list.
From S2P Require Import Prelude GoStrings Keys DagCmds CoreAPI.

Local Open Scope Z_scope.

Record stat := MkStat { Key : string; Size : Z }.
(** [String]: two lines. *)
Definition stat_text (bs : stat) : list string := ["Key: " +:+ Key bs; "Size: " +:+ FormatInt (Size bs)].

(** The options given to the API: the hash function, its length, the codec and the
    deprecated format. *)
Record put_opts := MkPutOpts { mhtval : Z; mhlen : Z; cidCodec : string; format : string }.

Definition quoted (s : string) : string := String (ascii_of_nat 34) (s +:+ String (ascii_of_nat 34) EmptyString).

(** [Names]: the hash functions; no value is an option that is not an integer. *)
Definition put_options (Names : string -> option Z) (mhtype : string) (o_mhlen : option Z) (codec fmt : string) : result put_opts :=
  match Names mhtype with
  | None => Err ("unrecognized multihash function: " +:+ mhtype)
  | Some mhtval =>
      match o_mhlen with
      | None => Err ("missing option " +:+ quoted "mhlen")
      | Some mhlen =>
          if negb (String.eqb fmt "") then
            if negb (String.eqb codec "") && negb (String.eqb codec "raw")
            then Err ("unable to use " +:+ quoted "format" +:+ " (deprecated) and a custom " +:+ quoted "cid-codec" +:+ " at the same time")
            else Ok (MkPutOpts mhtval mhlen "" fmt)
          else Ok (MkPutOpts mhtval mhlen codec fmt)
      end
  end.

Section BlockCmds.
Context `{ApiEnv}.

Definition block_stat (arg : string) (s : st) : result stat :=
  match Block_Stat (Unresolved arg) s with Err e => Err e | Ok b => Ok (MkStat (bs_path b) (bs_size b)) end.

Definition block_get (arg : string) (s : st) : result bytes := Block_Get (Unresolved arg) s.

(** The files of a request: an entry that is no file has no content. *)
Fixpoint put_loop (alive : stat -> option error) (allow pin : bool) (entries : list (option (result bytes))) (it_Err : option error)
    (out : list stat) (s : st) : (list stat * option error) * st :=
  match entries with
  | [] => ((out, it_Err), s)
  | None :: _ => ((out, Some "expected a file"), s)
  | Some file :: entries =>
      match Block_Put file pin s with
      | (Err e, s) => ((out, Some e), s)
      | (Ok p, s) =>
          match CheckBlockSize allow (bs_size p) with
          | Some e => ((out, Some e), s)
          | None =>
              let res := MkStat (bs_path p) (bs_size p) in
              match alive res with Some e => ((out, Some e), s) | None => put_loop alive allow pin entries it_Err (out ++ [res]) s end
          end
      end
  end.
Definition block_put (alive : stat -> option error) (options : result put_opts) (allow pin : bool) (entries : list (option (result bytes)))
    (it_Err : option error) (s : st) : (list stat * option error) * st :=
  match options with Err e => (([], Some e), s) | Ok _ => put_loop alive allow pin entries it_Err [] s end.

Record removedBlock := MkRemoved { r_Hash : string; r_Error : string }.

Fixpoint block_rm (alive : removedBlock -> option error) (force quiet : bool) (args : list string) (out : list removedBlock) (s : st)
    : (list removedBlock * option error) * st :=
  match args with
  | [] => ((out, None), s)
  | b :: args =>
      match ResolvePath (Unresolved b) s with
      | Err e => ((out, Some e), s)
      | Ok rp =>
          match Block_Rm (Resolved rp) (Ok force) s with
          | (Some e, s) =>
              match alive (MkRemoved rp e) with Some e' => ((out, Some e'), s) | None => block_rm alive force quiet args (out ++ [MkRemoved rp e]) s end
          | (None, s) =>
              if quiet then block_rm alive force quiet args out s
              else match alive (MkRemoved rp "") with Some e' => ((out, Some e'), s) | None => block_rm alive force quiet args (out ++ [MkRemoved rp ""]) s end
          end
      end
  end.

(** The client: the lines on the two streams, and the error. *)
Fixpoint rm_PostRun (rs : list removedBlock) (last : option error) (someFailed : bool) (out errs : list string) : (list string * list string) * option error :=
  match rs with
  | [] => ((out, errs), match last with Some e => Some e | None => if someFailed then Some "some blocks not removed" else None end)
  | r :: rs =>
      if String.eqb (r_Hash r) "" && negb (String.eqb (r_Error r) "") then ((out, errs), Some ("aborted: " +:+ r_Error r))
      else if negb (String.eqb (r_Error r) "") then rm_PostRun rs last true out (errs ++ ["cannot remove " +:+ r_Hash r +:+ ": " +:+ r_Error r])
      else rm_PostRun rs last someFailed (out ++ ["removed " +:+ r_Hash r]) errs
  end.

(** ** Theorems *)

(** [block put] refuses a block over the limit only when it is in the store already. *)
Theorem put_refuses_too_late alive pin data entries it_Err s c :
  prefix_Sum data = Ok c -> NewBlockWithCid data c = None -> (forall w, (blocks_AddBlock c data w).1 = None) -> (forall w, (pin_Flush w).1 = None) ->
  SoftBlockLimit < Z.of_nat (length data) ->
  exists e s', put_loop alive false pin (Some (Ok data) :: entries) it_Err [] s = (([], Some e), s') /\ Added c ∈ trace s'.
Proof.
  intros Hc Hn Hadd Hflush Hlen. cbn [put_loop]. unfold Block_Put. rewrite Hc, Hn.
  assert (Hchk : exists e, CheckBlockSize false (Z.of_nat (length data)) = Some e).
  { unfold CheckBlockSize. destruct (Z.ltb_spec SoftBlockLimit (Z.of_nat (length data))); [by eexists|lia]. }
  destruct Hchk as [e He]. unfold locked, effect. destruct pin; cbn [log world].
  - specialize (Hadd (world s)). destruct (blocks_AddBlock c data (world s)) as [r w]. cbn in Hadd. subst r.
    match goal with |- context[pin_Flush ?w] => specialize (Hflush w); destruct (pin_Flush w) as [r w'] end. cbn in Hflush. subst r.
    cbn [bs_size]. rewrite He. do 2 eexists. split; [done|]. cbn. set_solver.
  - specialize (Hadd (world s)). destruct (blocks_AddBlock c data (world s)) as [r w]. cbn in Hadd. subst r. cbn [bs_size]. rewrite He.
    do 2 eexists. split; [done|]. cbn. set_solver.
Qed.

(** The blocks that [block put] answers are those of the files, in order; without errors
    all of them, with the lengths of their data. *)
Theorem put_exact alive allow pin (files : list (bytes * cid)) it_Err s :
  (forall r, alive r = None) -> (forall w, (pin_Flush w).1 = None) ->
  Forall (fun f => prefix_Sum f.1 = Ok f.2 /\ NewBlockWithCid f.1 f.2 = None /\ (forall w, (blocks_AddBlock f.2 f.1 w).1 = None) /\
    CheckBlockSize allow (Z.of_nat (length f.1)) = None) files ->
  exists s', put_loop alive allow pin ((fun f => Some (Ok f.1)) <$> files) it_Err [] s =
    (((fun f => MkStat f.2 (Z.of_nat (length f.1))) <$> files, it_Err), s').
Proof.
  intros Ha Hflush Hf. change ((fun f => MkStat f.2 (Z.of_nat (length f.1))) <$> files) with ([] ++ ((fun f : bytes * cid => MkStat f.2 (Z.of_nat (length f.1))) <$> files)).
  generalize (@nil stat). revert s. induction Hf as [|[data c] files (Hc & Hn & Hadd & Hchk) _ IH]; intros s out; [eexists; by rewrite app_nil_r|].
  rewrite !fmap_cons. cbn [put_loop fst snd] in *. assert (Hput : exists s1, Block_Put (Ok data) pin s = (Ok (MkBlockStat c (Z.of_nat (length data))), s1)).
  { unfold Block_Put. rewrite Hc, Hn. unfold locked, effect. destruct pin; cbn [log world];
      specialize (Hadd (world s)); destruct (blocks_AddBlock c data (world s)) as [r w]; cbn in Hadd; subst r; [|by eexists].
    match goal with |- context[pin_Flush ?w] => specialize (Hflush w); destruct (pin_Flush w) as [r w'] end. cbn in Hflush. subst r. by eexists. }
  destruct Hput as [s1 ->]. cbn [bs_size bs_path]. rewrite Hchk, Ha. destruct (IH s1 (out ++ [MkStat c (Z.of_nat (length data))])) as [s' ->]. exists s'. by rewrite <- app_assoc.
Qed.

(** [block rm] tries every block whose path can be resolved, in order: one that cannot be
    removed does not keep the others.  It answers for each of them, unless it is to be
    quiet, and the client fails exactly if one was not removed. *)
Theorem rm_tries_all alive force args s out :
  (forall r, alive r = None) -> (forall b s, b ∈ args -> exists c, ResolvePath (Unresolved b) s = Ok c) ->
  exists rs s', block_rm alive force false args out s = ((out ++ rs, None), s') /\ length rs = length args /\
    (Forall (fun r => r_Hash r <> "") rs ->
       (rm_PostRun rs None false [] []).2 = if forallb (fun r => String.eqb (r_Error r) "") rs then None else Some "some blocks not removed").
Proof.
  intros Ha. revert s out. induction args as [|b args IH]; intros s out Hr; [exists [], s; cbn; by rewrite app_nil_r|].
  destruct (Hr b s (list_elem_of_here _ _)) as [c Hc]. cbn [block_rm]. rewrite Hc.
  assert (Hnext : forall r s1, exists rs s', block_rm alive force false args (out ++ [r]) s1 = ((out ++ r :: rs, None), s') /\ length (r :: rs) = length (b :: args)).
  { intros r s1. destruct (IH s1 (out ++ [r])) as (rs & s' & He & Hl & _); [intros b' s2 Hb'; apply Hr; by apply list_elem_of_further|].
    exists rs, s'. rewrite He, <- app_assoc. cbn. by rewrite Hl. }
  assert (Hclient : forall rs failed o e, Forall (fun r => r_Hash r <> "") rs ->
    (rm_PostRun rs None failed o e).2 = if negb failed && forallb (fun r => String.eqb (r_Error r) "") rs then None else Some "some blocks not removed").
  { clear. induction rs as [|r rs IH]; intros failed o e Hf; cbn; [by destruct failed|]. apply Forall_cons in Hf as [Hh Hf].
    apply String.eqb_neq in Hh. rewrite Hh. cbn. destruct (String.eqb (r_Error r) ""); cbn; rewrite IH by done; [done|]. by rewrite Bool.andb_false_r. }
  destruct (Block_Rm (Resolved c) (Ok force) s) as [[e|] s1]; rewrite Ha.
  - destruct (Hnext (MkRemoved c e) s1) as (rs & s' & He & Hl). exists (MkRemoved c e :: rs), s'. split_and!; [done|done|]. intros Hh. by rewrite Hclient.
  - destruct (Hnext (MkRemoved c "") s1) as (rs & s' & He & Hl). exists (MkRemoved c "" :: rs), s'. split_and!; [done|done|]. intros Hh. by rewrite Hclient.
Qed.
End BlockCmds.

(** ** The hypotheses are met *)
Module DemoBlock.
#[local] Existing Instance DemoApi.env.
Definition start : st (H := DemoApi.env) := MkSt (H := DemoApi.env) [] [].

Lemma put_exact_witness : exists s', put_loop (fun _ => None) false true [Some (Ok [Byte.x61])] None [] start = (([MkStat "a" 1], None), s').
Proof. apply (put_exact (fun _ => None) false true [([Byte.x61], "a")] None start); [done|done|]. by repeat constructor. Defined.

(** A block of two megabytes. *)
Definition big : bytes := replicate (Z.to_nat 2000000) Byte.x61.
Lemma big_long : SoftBlockLimit < Z.of_nat (length big).
Proof. unfold big. rewrite length_replicate, Z2Nat.id; done. Qed.

Lemma put_refuses_too_late_witness : exists e s', put_loop (fun _ => None) false false [Some (Ok big)] None [] start = (([], Some e), s') /\
  Added (string_of_list_byte big) ∈ trace s'.
Proof.
  exact (put_refuses_too_late (fun _ => None) false big [] None start (string_of_list_byte big) eq_refl eq_refl (fun _ => eq_refl) (fun _ => eq_refl) big_long).
Defined.

Lemma rm_tries_all_witness : exists rs s', block_rm (fun _ => None) false false ["ipfs/a"; "ipfs/b"] [] start = (([] ++ rs, None), s') /\ length rs = 2%nat.
Proof.
  destruct (rm_tries_all (fun _ => None) false ["ipfs/a"; "ipfs/b"] start []) as (rs & s' & H1 & H2 & _).
  - done.
  - intros b s [->|[->|Hb]%elem_of_cons]%elem_of_cons; [by eexists|by eexists|by apply elem_of_nil in Hb].
  - by exists rs, s'.
Defined.
End DemoBlock.
