(* ===== verification/NodeCmds.v ===== *)
(** The commands [ipfs id] and [ipfs ping]: [core/commands/id.go] and [ping.go]; and the
    profiler [profile/profile.go], whose goroutines and loop are a step relation.

    What the peer store, the host and the transport answer is given.  Durations are in
    nanoseconds in 64 bits; the text of an average is a function of total and count. *)
From Stdlib Require Import ZArith Lia Ascii String Sorted.
From stdpp Require Import base strings sorting relations list.
From S2P Require Import Prelude GoStrings.
From S2P Require ConfigTypes.

Local Open Scope Z_scope.

(** ** [id.go] *)

Record IdOutput := MkId {
  i_ID : string; PublicKey : string; Addresses : list string; AgentVersion : string; ProtocolVersion : string; Protocols : list string }.

(** A value of the peer store: absent, a string or something else. *)
Inductive stored := Absent | StoredString (s : string) | StoredOther.
Definition stored_text (v : stored) : string := match v with StoredString s => s | _ => "" end.

Section Id.
(** [base64.StdEncoding.EncodeToString], and the encoder of peers. *)
Context (base64_Encode : string -> string) (FormatID : string -> string).

(** A peer as the peer store has it: its key, marshalled; its addresses; its protocols. *)
Record peer_record := MkPeer { p_key : option (result string); p_addrs : result (list string); p_protocols : list string;
  p_version : stored; p_agent : stored }.

Definition sorted_strings (l : list string) : list string := merge_sort String.le l.

Definition printPeer (ps : string -> peer_record) (p : string) : result IdOutput :=
  if String.eqb p "" then Err "attempted to print nil peer" else
  let r := ps p in
  match (match p_key r with None => Ok "" | Some (Err e) => Err e | Some (Ok pkb) => Ok (base64_Encode pkb) end) with
  | Err e => Err e
  | Ok pk =>
      match p_addrs r with
      | Err e => Err e
      | Ok addrs => Ok (MkId (FormatID p) pk (sorted_strings addrs) (stored_text (p_agent r)) (stored_text (p_version r)) (sorted_strings (p_protocols r)))
      end
  end.

(** The node: its identity and public key, its host if it has one, and its versions. *)
Record self := MkSelf { n_Identity : string; n_key : result string; n_host : option (result (list string) * list string);
  n_version : string; n_agent : string }.

Definition printSelf (n : self) : result IdOutput :=
  match n_key n with
  | Err e => Err e
  | Ok pkb =>
      match (match n_host n with
             | None => Ok ([], [])
             | Some (Err e, _) => Err e
             | Some (Ok addrs, protocols) => Ok (sorted_strings addrs, sorted_strings protocols)
             end) with
      | Err e => Err e
      | Ok (addrs, protocols) => Ok (MkId (FormatID (n_Identity n)) (base64_Encode pkb) addrs (n_agent n) (n_version n) protocols)
      end
  end.

Definition offlineIDErrorMessage : error :=
  "'ipfs id' cannot query information on remote peers without a running daemon; if you only want to convert --peerid-base, pass --offline option".
Definition ErrLookupFailure : error := "failed to find any peer in table".

(** Connecting changes what the peer store knows. *)
Definition id_Run (keyEnc : option error) (peer_Decode : string -> result string) (n : self) (IsOnline offline : bool)
    (Connect : string -> option error) (ps : string -> peer_record) (args : list string) : result IdOutput :=
  match keyEnc with
  | Some e => Err e
  | None =>
      match (match args with a :: _ => match peer_Decode a with Err _ => Err "invalid peer id" | Ok id => Ok id end | [] => Ok (n_Identity n) end) with
      | Err e => Err e
      | Ok id =>
          if String.eqb id (n_Identity n) then printSelf n
          else if negb offline && negb IsOnline then Err offlineIDErrorMessage
          else match (if offline then None else Connect id) with
          | Some e => if String.eqb e ErrLookupFailure then Err offlineIDErrorMessage else Err e
          | None => printPeer ps id
          end
      end
  end.
End Id.

Definition newline : string := String (ascii_of_nat 10) EmptyString.
Definition tab : string := String (ascii_of_nat 9) EmptyString.
Definition backslash (s : string) : string := String (ascii_of_nat 92) s.

(** The text with a format. *)
Definition id_format (format : string) (out : IdOutput) : string :=
  let output := ReplaceAll format "<id>" (i_ID out) in
  let output := ReplaceAll output "<aver>" (AgentVersion out) in
  let output := ReplaceAll output "<pver>" (ProtocolVersion out) in
  let output := ReplaceAll output "<pubkey>" (PublicKey out) in
  let output := ReplaceAll output "<addrs>" (join_with newline (Addresses out)) in
  let output := ReplaceAll output "<protocols>" (join_with newline (Protocols out)) in
  let output := ReplaceAll output (backslash "n") newline in
  ReplaceAll output (backslash "t") tab.

(** ** [ping.go] *)

Definition second : Z := 1000000000.
Definition kPingTimeout : Z := 10 * second.

Record PingResult := MkPing { Success : bool; Time : Z; Text : string }.

(** What the other side answers: a round trip, or an error. *)
Inductive pong := RTT (d : Z) | PongError (e : error).

Section Ping.
(** The text of an average of [count] durations with a total. *)
Context (average : Z -> Z -> string).

Definition average_of (total count : Z) : PingResult := MkPing true 0 ("Average latency: " +:+ average total count +:+ "ms").

(** A ping answers with a round trip, an error, or not any more; [done_] says of each
    tick whether the context has ended first.  [ParsePeerParam] and the peer store are
    given; [find] is what looking the peer up answers when it has no address. *)
Fixpoint ping_loop (alive : PingResult -> option error) (numPings : nat) (pings : list pong) (done_ : list (option error)) (count total : Z)
    (out : list PingResult) : list PingResult * (Z * Z) * option error :=
  match numPings with
  | O => (out, (count, total), None)
  | S numPings =>
      match pings with
      | [] => (out, (count, total), None)
      | r :: pings =>
          let '(res, count, total) := match r with
            | PongError e => (MkPing false 0 ("Ping error: " +:+ e), count, total)
            | RTT d => (MkPing true d "", count + 1, i64 (total + d))
            end in
          match alive res with
          | Some e => (out, (count, total), Some e)
          | None =>
              let out := out ++ [res] in
              match done_ with
              | Some e :: _ => (out, (count, total), Some e)
              | None :: done_ => ping_loop alive numPings pings done_ count total out
              | [] => ping_loop alive numPings pings [] count total out
              end
          end
      end
  end.

(** The timeout of the pings. *)
Definition ping_timeout (numPings : Z) : Z := i64 (kPingTimeout * numPings).

(** A parameter is a multiaddress with a peer at its end ([NewMultiaddr], then
    [SplitAddr]: its transport, if any, and the peer, if any) or a peer. *)
Definition ParsePeerParam (SplitMultiaddr : string -> result (option string * string)) (peer_Decode : string -> result string) (text : string)
    : result (option string * string) :=
  if HasPrefix text "/" then
    match SplitMultiaddr text with
    | Err e => Err e
    | Ok (transport, id) => if String.eqb id "" then Err "invalid p2p multiaddr" else Ok (transport, id)
    end
  else match peer_Decode text with Err e => Err e | Ok p => Ok (None, p) end.

Definition ErrNotOnline : error := "this command must be run in online mode. Try running 'ipfs daemon' first".

(** A peer without an address is looked up. *)
Definition ping_lookup (alive : PingResult -> option error) (addr : option string) (pid : string) (has_addrs : string -> bool) (find : option error)
    : list PingResult * option error :=
  match addr with
  | Some _ => ([], None)
  | None =>
      if has_addrs pid then ([], None)
      else
        let looking := MkPing true 0 ("Looking up peer " +:+ pid) in
        match alive looking with
        | Some e => ([], Some e)
        | None => ([looking], match find with Some e => Some ("peer lookup failed: " +:+ e) | None => None end)
        end
  end.

(** The first argument is [arg]; others are not looked at.  [has_addrs]: the peer store
    has addresses of a peer; [pings]: the answers of [ping.Ping] under a timeout, which is
    over at once when it is not positive. *)
Definition ping_Run (alive : PingResult -> option error) (IsOnline : bool) (parse : string -> result (option string * string)) (Identity : string)
    (has_addrs : string -> bool) (find : option error) (pings : Z -> list pong) (done_ : list (option error)) (numPings : Z) (arg : string)
    : list PingResult * option error :=
  if negb IsOnline then ([], Some ErrNotOnline) else
  match parse arg with
  | Err e => ([], Some ("failed to parse peer address '" +:+ arg +:+ "': " +:+ e))
  | Ok (addr, pid) =>
      if String.eqb pid Identity then ([], Some "error: can't ping self") else
      if numPings <=? 0 then ([], Some ("ping count must be greater than 0, was " +:+ FormatInt numPings)) else
      let '(out, err) := ping_lookup alive addr pid has_addrs find in
      match err with
      | Some e => (out, Some e)
      | None =>
          let header := MkPing true 0 ("PING " +:+ pid +:+ ".") in
          match alive header with
          | Some e => (out, Some e)
          | None =>
              match ping_loop alive (Z.to_nat numPings) (pings (ping_timeout numPings)) done_ 0 0 (out ++ [header]) with
              | (out, _, Some e) => (out, Some e)
              | (out, (count, total), None) =>
                  if count =? 0 then (out, Some "ping failed")
                  else match alive (average_of total count) with Some e => (out, Some e) | None => (out ++ [average_of total count], None) end
              end
          end
      end
  end.

(** The client: results until the response ends; when it is interrupted it shows the
    average of what it has. *)
Fixpoint ping_PostRun (alive : PingResult -> option error) (results : list PingResult) (last : option error) (total count : Z) (out : list PingResult)
    : list PingResult * option error :=
  match results with
  | [] =>
      match last with
      | None => (out, None)
      | Some e =>
          if String.eqb e "context canceled" || String.eqb e "context deadline exceeded" then
            if count =? 0 then (out, Some e)
            else match alive (average_of total count) with Some e => (out, Some e) | None => (out ++ [average_of total count], None) end
          else (out, Some e)
      end
  | pr :: results =>
      let '(total, count) := if Success pr && String.eqb (Text pr) "" then (i64 (total + Time pr), count + 1) else (total, count) in
      match alive pr with
      | Some e => (out, Some e)
      | None => ping_PostRun alive results last total count (out ++ [pr])
      end
  end.

Definition ping_text (ms : Z -> string) (out : PingResult) : string :=
  if negb (String.eqb (Text out) "") then Text out
  else if Success out then "Pong received: time=" +:+ ms (Time out) +:+ " ms"
  else "Pong failed".
End Ping.

(** ** Theorems *)

(** *** id *)

(** [ipfs id] of the node itself needs neither a network nor a daemon; of another peer it
    needs one of them or [--offline], and then shows what the peer store has, with the
    addresses and the protocols in order. *)
Theorem id_exact base64 FormatID peer_Decode n online offline Connect ps arg out :
  id_Run base64 FormatID None peer_Decode n online offline Connect ps [arg] = Ok out ->
  exists id, peer_Decode arg = Ok id /\ i_ID out = FormatID id /\
    (id <> n_Identity n -> (offline = true \/ online = true /\ Connect id = None) /\
       AgentVersion out = stored_text (p_agent (ps id)) /\ Protocols out ≡ₚ p_protocols (ps id) /\ Sorted String.le (Protocols out) /\
       exists addrs, p_addrs (ps id) = Ok addrs /\ Addresses out ≡ₚ addrs /\ Sorted String.le (Addresses out)).
Proof.
  unfold id_Run. destruct (peer_Decode arg) as [id|e]; [|done]. destruct (String.eqb_spec id (n_Identity n)) as [->|Hne].
  - unfold printSelf. intros Ho. exists (n_Identity n). split; [done|]. split; [|done]. destruct (n_key n); [|done].
    destruct (n_host n) as [[[addrs|] protos]|]; by simplify_eq.
  - destruct (negb offline && negb online) eqn:Hon; [done|]. destruct (if offline then None else Connect id) as [e|] eqn:Hc; [by destruct (String.eqb e _)|].
    unfold printPeer. destruct (String.eqb id ""); [done|]. intros Ho. exists id. split; [done|].
    destruct (match p_key (ps id) with None => Ok "" | Some _ => _ end); [|done]. destruct (p_addrs (ps id)) as [addrs|]; [|done]. injection Ho as <-.
    cbn [i_ID AgentVersion Protocols Addresses]. split; [done|]. intros _. unfold sorted_strings.
    split_and!; [destruct offline; [by left|right; by destruct online]|done|by rewrite merge_sort_Permutation|apply Sorted_merge_sort, _|].
    exists addrs. split_and!; [done|by rewrite merge_sort_Permutation|apply Sorted_merge_sort, _].
Qed.

(** The placeholders are replaced one after the other, in what was put in before too: an
    agent, which a peer chooses, that reads like a placeholder is not shown as it is. *)
Theorem id_format_expands_agent : exists out, AgentVersion out = "<pubkey>" /\ id_format "agent=<aver>" out = "agent=KEY".
Proof. exists (MkId "p" "KEY" [] "<pubkey>" "v" []). split; reflexivity. Qed.

(** *** ping *)
Section PingTheorems.
Context (average : Z -> Z -> string).

Definition result_of (r : pong) : PingResult := match r with RTT d => MkPing true d "" | PongError e => MkPing false 0 ("Ping error: " +:+ e) end.
Definition rtts (ps : list pong) : list Z := omap (fun r => match r with RTT d => Some d | PongError _ => None end) ps.
Definition sum_z (l : list Z) : Z := foldr Z.add 0 l.

Lemma sum_nonneg l : Forall (fun d => 0 <= d) l -> 0 <= sum_z l.
Proof. induction 1; cbn in *; [done|]. fold (sum_z l) in *. lia. Qed.

Lemma ping_loop_exact alive n pings count total out : (forall r, alive r = None) -> Forall (fun d => 0 <= d) (rtts pings) ->
  0 <= total -> total + sum_z (rtts (take n pings)) < 2 ^ 63 ->
  ping_loop alive n pings [] count total out =
    (out ++ (result_of <$> take n pings), (count + Z.of_nat (length (rtts (take n pings))), total + sum_z (rtts (take n pings))), None).
Proof.
  intros Ha. revert pings count total out. induction n as [|n IH]; intros pings count total out Hp Ht Hs.
  - cbn. by rewrite app_nil_r, !Z.add_0_r.
  - destruct pings as [|[d|e] pings]; cbn [ping_loop take] in *; [cbn; by rewrite app_nil_r, !Z.add_0_r| |].
    + change (rtts (RTT d :: pings)) with (d :: rtts pings) in Hp. apply Forall_cons in Hp as [Hd Hp].
      change (rtts (RTT d :: take n pings)) with (d :: rtts (take n pings)) in *. change (sum_z (d :: rtts (take n pings))) with (d + sum_z (rtts (take n pings))) in *.
      assert (Hn : 0 <= sum_z (rtts (take n pings))).
      { apply sum_nonneg. clear -Hp. revert n. induction pings as [|[x|e] pings IH]; intros [|n]; try done; cbn in *; [|by apply IH].
        apply Forall_cons in Hp as [Hx Hp]. constructor; [done|by apply IH]. }
      rewrite Ha. rewrite i64_small by lia. rewrite IH; [|done|lia|lia]. rewrite <- app_assoc. cbn [fmap list_fmap result_of app length].
      rewrite Nat2Z.inj_succ, <- Z.add_1_l, !Z.add_assoc. done.
    + rewrite Ha. change (rtts (PongError e :: take n pings)) with (rtts (take n pings)) in *. rewrite IH; [|done|done|done]. by rewrite <- app_assoc.
Qed.

(** [ipfs ping] shows one result for each ping it sends, at most as many as asked for,
    and at the end the average of exactly the round trips; it fails if there was none. *)
Theorem ping_exact alive parse self has_addrs find pings n arg addr pid :
  (forall r, alive r = None) -> parse arg = Ok (addr, pid) -> pid <> self -> 0 < n -> (addr <> None \/ has_addrs pid = true) ->
  Forall (fun d => 0 <= d) (rtts (pings (ping_timeout n))) -> sum_z (rtts (take (Z.to_nat n) (pings (ping_timeout n)))) < 2 ^ 63 ->
  let seen := take (Z.to_nat n) (pings (ping_timeout n)) in
  ping_Run average alive true parse self has_addrs find pings [] n arg =
    if decide (rtts seen = []) then (MkPing true 0 ("PING " +:+ pid +:+ ".") :: (result_of <$> seen), Some "ping failed")
    else (MkPing true 0 ("PING " +:+ pid +:+ ".") :: (result_of <$> seen) ++ [average_of average (sum_z (rtts seen)) (Z.of_nat (length (rtts seen)))], None).
Proof.
  intros Ha Hp Hne Hn Hknown Hpos Hsum. unfold ping_Run. cbn [negb]. rewrite Hp. rewrite (proj2 (String.eqb_neq _ _) Hne).
  destruct (Z.leb_spec n 0); [lia|]. cbv zeta.
  assert (Hl : ping_lookup alive addr pid has_addrs find = ([], None)) by (unfold ping_lookup; destruct addr; [done|]; destruct Hknown as [?| ->]; done). rewrite Hl.
  rewrite Ha, ping_loop_exact by (first [done|lia]). rewrite !Z.add_0_l. cbn [app].
  case_decide as Hr; [by rewrite Hr|]. destruct (Z.eqb_spec (Z.of_nat (length (rtts (take (Z.to_nat n) (pings (ping_timeout n)))))) 0) as [He|_].
  - destruct (rtts (take (Z.to_nat n) (pings (ping_timeout n)))); [done|]. cbn in He. lia.
  - by rewrite Ha.
Qed.

(** A client that is interrupted shows the average of the round trips it has seen; one
    that is not passes on what it gets. *)
Theorem ping_client_exact alive seen last :
  (forall r, alive r = None) -> Forall (fun d => 0 <= d) (rtts seen) -> sum_z (rtts seen) < 2 ^ 63 ->
  ping_PostRun average alive (result_of <$> seen) last 0 0 [] =
    match last with
    | Some e => if (String.eqb e "context canceled" || String.eqb e "context deadline exceeded") && negb (Z.of_nat (length (rtts seen)) =? 0)
                then ((result_of <$> seen) ++ [average_of average (sum_z (rtts seen)) (Z.of_nat (length (rtts seen)))], None)
                else (result_of <$> seen, Some e)
    | None => (result_of <$> seen, None)
    end.
Proof.
  intros Ha Hpos Hsum. assert (Hg : forall total count out, 0 <= total -> total + sum_z (rtts seen) < 2 ^ 63 ->
    ping_PostRun average alive (result_of <$> seen) last total count out =
    ping_PostRun average alive [] last (total + sum_z (rtts seen)) (count + Z.of_nat (length (rtts seen))) (out ++ (result_of <$> seen))).
  { clear Hsum. revert Hpos. induction seen as [|[d|e] seen IH]; intros Hpos total count out Ht Hs; [cbn [fmap list_fmap rtts omap list_omap sum_z foldr length]; by rewrite app_nil_r, !Z.add_0_r| |].
    - change (rtts (RTT d :: seen)) with (d :: rtts seen) in *. change (sum_z (d :: rtts seen)) with (d + sum_z (rtts seen)) in *.
      apply Forall_cons in Hpos as [Hd Hpos]. pose proof (sum_nonneg _ Hpos) as Hn. rewrite fmap_cons. cbn [ping_PostRun result_of Success Text String.eqb andb Time].
      rewrite Ha, i64_small by lia. rewrite IH; [|done|lia|lia]. rewrite <- app_assoc. cbn [length app fmap list_fmap]. rewrite Nat2Z.inj_succ, <- Z.add_1_l, !Z.add_assoc. done.
    - change (rtts (PongError e :: seen)) with (rtts seen) in *. rewrite fmap_cons. cbn [ping_PostRun result_of Success andb]. rewrite Ha, IH by done. by rewrite <- app_assoc. }
  rewrite Hg by lia. cbn [ping_PostRun app]. rewrite !Z.add_0_l. destruct last as [e|]; [|done].
  destruct (String.eqb e "context canceled" || String.eqb e "context deadline exceeded"); cbn [andb]; [|done].
  destruct (Z.of_nat (length (rtts seen)) =? 0); cbn [negb]; [done|]. by rewrite Ha.
Qed.

(** The time allowed grows with the number of pings up to 64 bits; a larger number gives
    a negative time, which is over at once. *)
Theorem ping_timeout_wraps : (forall n, 0 <= n -> kPingTimeout * n < 2 ^ 63 -> ping_timeout n = kPingTimeout * n) /\ ping_timeout 922337204 < 0.
Proof. split; [|reflexivity]. intros n Hn Hlt. unfold ping_timeout. apply i64_small. unfold kPingTimeout, second in *. lia. Qed.
End PingTheorems.

(** ** The hypotheses are met *)
Module DemoNodeCmds.
Definition me : self := MkSelf "me" (Ok "key") None "v" "agent".
Definition known (p : string) : peer_record := MkPeer None (Ok ["b"; "a"]) ["y"; "x"] Absent (StoredString "kubo").

Lemma id_exact_witness : exists out, id_Run id id None (fun p => Ok p) me true false (fun _ => None) known ["p"] = Ok out /\ Protocols out ≡ₚ ["y"; "x"].
Proof.
  eexists. split; [reflexivity|].
  destruct (id_exact id id (fun p => Ok p) me true false (fun _ => None) known "p" _ eq_refl) as (i & [= <-] & _ & H). by apply H.
Defined.

Definition answers (timeout : Z) : list pong := [RTT 5; PongError "lost"; RTT 7; RTT 9].
Lemma ping_exact_witness :
  ping_Run (fun t c => FormatInt (t / c)) (fun _ => None) true (fun a => Ok (None, a)) "me" (fun _ => true) None answers [] 3 "p" =
    ([MkPing true 0 "PING p."; MkPing true 5 ""; MkPing false 0 "Ping error: lost"; MkPing true 7 ""; MkPing true 0 "Average latency: 6ms"], None).
Proof. apply (ping_exact (fun t c => FormatInt (t / c)) _ (fun a => Ok (None, a)) "me" (fun _ => true) None answers 3 "p" None "p"); try done; [by right|by repeat constructor]. Defined.

Lemma ping_client_exact_witness : ping_PostRun (fun t c => FormatInt (t / c)) (fun _ => None) (result_of <$> answers 0) (Some "context canceled") 0 0 [] =
  ((result_of <$> answers 0) ++ [MkPing true 0 "Average latency: 7ms"], None).
Proof. apply (ping_client_exact (fun t c => FormatInt (t / c)) (fun _ => None) (answers 0) (Some "context canceled")); [done|by repeat constructor|done]. Defined.
End DemoNodeCmds.

(** ** Profiles: [profile/profile.go] *)

Record prof_options := MkProfOptions { Collectors : list string; ProfileDuration : Z; MutexProfileFraction : Z; BlockProfileRate : Z }.
Record collector := MkCollector { outputFile : string; isExecutable : bool; enabledFunc : prof_options -> bool }.

Definition outputFileName (goos : string) (p : collector) : string :=
  if isExecutable p && String.eqb goos "windows" then outputFile p +:+ ".exe" else outputFile p.

Definition collectors : list (string * collector) :=
  [("goroutines-stack", MkCollector "goroutines.stacks" false (fun _ => true));
   ("goroutines-pprof", MkCollector "goroutines.pprof" false (fun _ => true));
   ("version", MkCollector "version.json" false (fun _ => true));
   ("heap", MkCollector "heap.pprof" false (fun _ => true));
   ("bin", MkCollector "ipfs" true (fun _ => true));
   ("cpu", MkCollector "cpu.pprof" false (fun o => 0 <? ProfileDuration o));
   ("mutex", MkCollector "mutex.pprof" false (fun o => (0 <? ProfileDuration o) && (0 <? MutexProfileFraction o)));
   ("block", MkCollector "block.pprof" false (fun o => (0 <? ProfileDuration o) && (0 <? BlockProfileRate o)))].

Fixpoint collectorsToRun (names : list string) : result (list collector) :=
  match names with
  | [] => Ok []
  | name :: names =>
      match List.find (fun e => String.eqb e.1 name) collectors with
      | None => Err ("unknown collector '" +:+ name +:+ "'")
      | Some (_, c) => match collectorsToRun names with Err e => Err e | Ok cs => Ok (c :: cs) end
      end
  end.

Section Profile.
(** [collect] is what a collector writes and the error it ends with; [create] is the failure to put
    a file into the archive, and [compress] that to write it, with what was written. *)
Context (goos : string) (opts : prof_options) (collect : collector -> string * option error) (create : string -> option error) (compress : string -> string -> option (string * error)).

Inductive prof_result := Failed (e : error) | Profile (fName buf : string).
(** A goroutine: before it has collected; with an error to send; with the data to send; at its end.
    After the error was sent it sends the data all the same. *)
Inductive prof_job := Collecting (c : collector) | SendError (c : collector) (e : error) | SendProfile (c : collector) | JobDone.

(** [expired]: the request's context has ended; [cancelled]: the context of the goroutines has. *)
Record profiler := MkProfiler { jobs : list prof_job; results : list prof_result; closed : bool; expired : bool; cancelled : bool;
  archive : list (string * string); returned : option (option error) }.

Definition running (cs : list collector) : list collector := filter (fun c => enabledFunc c opts = true) cs.
Definition capacity : nat := length (Collectors opts).
Definition profile_start (cs : list collector) : profiler := MkProfiler (Collecting <$> running cs) [] false false false [] None.
Definition failure (c : collector) (e : error) : error := "generating profile data for " +:+ ConfigTypes.quoted (outputFileName goos c) +:+ ": " +:+ e.
Definition file_of (c : collector) : string * string := (outputFileName goos c, (collect c).1).

Definition with_jobs (js : list prof_job) (rs : list prof_result) (s : profiler) : profiler :=
  MkProfiler js rs (closed s) (expired s) (cancelled s) (archive s) (returned s).
(** The return, with the deferred [cancelFn]. *)
Definition returns (e : option error) (rs : list prof_result) (s : profiler) : profiler :=
  MkProfiler (jobs s) rs (closed s) (expired s) true (archive s) (Some e).

(** The steps of the program. *)
Inductive prof_work : profiler -> profiler -> Prop :=
| prof_collect s js c js' : jobs s = js ++ Collecting c :: js' ->
    prof_work s (with_jobs (js ++ match (collect c).2 with Some e => SendError c e | None => SendProfile c end :: js') (results s) s)
| prof_interrupt s js c js' e : jobs s = js ++ Collecting c :: js' -> cancelled s = true ->
    prof_work s (with_jobs (js ++ SendError c e :: js') (results s) s)
| prof_send_error s js c e js' : jobs s = js ++ SendError c e :: js' -> (length (results s) < capacity)%nat ->
    prof_work s (with_jobs (js ++ SendProfile c :: js') (results s ++ [Failed (failure c e)]) s)
| prof_send s js c js' : jobs s = js ++ SendProfile c :: js' -> (length (results s) < capacity)%nat ->
    prof_work s (with_jobs (js ++ JobDone :: js') (results s ++ [Profile (file_of c).1 (file_of c).2]) s)
| prof_give_up s js j js' : jobs s = js ++ j :: js' -> cancelled s = true -> (exists c, (exists e, j = SendError c e) \/ j = SendProfile c) ->
    prof_work s (with_jobs (js ++ JobDone :: js') (results s) s)
| prof_close s : Forall (fun j => j = JobDone) (jobs s) -> closed s = false ->
    prof_work s (MkProfiler (jobs s) (results s) true (expired s) (cancelled s) (archive s) (returned s))
| prof_receive_error s e rs : returned s = None -> results s = Failed e :: rs -> prof_work s (returns (Some e) rs s)
| prof_receive_unwritable s f b rs e : returned s = None -> results s = Profile f b :: rs -> create f = Some e ->
    prof_work s (returns (Some ("creating output file " +:+ ConfigTypes.quoted f +:+ ": " +:+ e)) rs s)
| prof_receive_uncompressed s f b rs w e : returned s = None -> results s = Profile f b :: rs -> create f = None -> compress f b = Some (w, e) ->
    prof_work s (MkProfiler (jobs s) rs (closed s) (expired s) true (archive s ++ [(f, w)]) (Some (Some ("compressing result " +:+ ConfigTypes.quoted f +:+ ": " +:+ e))))
| prof_receive s f b rs : returned s = None -> results s = Profile f b :: rs -> create f = None -> compress f b = None ->
    prof_work s (MkProfiler (jobs s) rs (closed s) (expired s) (cancelled s) (archive s ++ [(f, b)]) None)
| prof_finish s : returned s = None -> results s = [] -> closed s = true -> prof_work s (returns None [] s).
(** The request may end at any time. *)
Inductive prof_step : profiler -> profiler -> Prop :=
| prof_works s s' : prof_work s s' -> prof_step s s'
| prof_expire s : prof_step s (MkProfiler (jobs s) (results s) (closed s) true true (archive s) (returned s)).

(** *** Lemmas *)

Definition job_weight (j : prof_job) : nat := match j with Collecting _ => 6 | SendError _ _ => 5 | SendProfile _ => 2 | JobDone => 0 end.
Definition prof_measure (s : profiler) : nat :=
  list_sum (job_weight <$> jobs s) + length (results s) + (if closed s then 0 else 1) + (match returned s with None => 1 | Some _ => 0 end).

Lemma list_sum_middle (l : list nat) x l' : list_sum (l ++ x :: l') = (x + list_sum (l ++ l'))%nat.
Proof. rewrite !list_sum_app. change (list_sum (x :: l')) with (x + list_sum l')%nat. lia. Qed.

Lemma prof_work_decreases s s' : prof_work s s' -> (prof_measure s' < prof_measure s)%nat.
Proof.
  assert (Hmid : forall js j js', list_sum (job_weight <$> js ++ j :: js') = (job_weight j + list_sum (job_weight <$> js ++ js'))%nat).
  { intros. rewrite !fmap_app. cbn. apply list_sum_middle. }
  destruct 1 as [s js c js' Hj | s js c js' e Hj _ | s js c e js' Hj _ | s js c js' Hj _ | s js j js' Hj _ (c & Hc) | s _ Hcl | s e rs Hr Hrs
    | s f b rs e Hr Hrs _ | s f b rs w e Hr Hrs _ _ | s f b rs Hr Hrs _ _ | s Hr Hrs Hcl]; unfold prof_measure, with_jobs, returns; cbn [jobs results closed returned];
    try rewrite Hj; rewrite ?Hmid, ?Hr, ?Hrs, ?Hcl; rewrite ?length_app; cbn [job_weight length]; try lia.
  - destruct (collect c).2; cbn [job_weight]; lia.
  - destruct Hc as [[e ->] | ->]; cbn [job_weight]; lia.
Qed.

(** What a goroutine has still to deliver, and what waits in the channel. *)
Definition owed (j : prof_job) : list (string * string) :=
  match j with Collecting c | SendError c _ | SendProfile c => [file_of c] | JobDone => [] end.
Definition waiting (r : prof_result) : list (string * string) := match r with Failed _ => [] | Profile f b => [(f, b)] end.

(** A collector whose failure has not been received yet. *)
Definition pending (s : profiler) (c : collector) : Prop :=
  Collecting c ∈ jobs s \/ (exists e, SendError c e ∈ jobs s) \/ exists e, Failed e ∈ results s.

Record prof_inv (cs : list collector) (s : profiler) : Prop := {
  pi_jobs : (length (jobs s) <= capacity)%nat;
  pi_cancel : returned s <> None -> cancelled s = true;
  pi_cause : cancelled s = true -> expired s = true \/ returned s <> None;
  pi_closed : closed s = true -> Forall (fun j => j = JobDone) (jobs s);
  pi_end : returned s = Some None -> Forall (fun j => j = JobDone) (jobs s) /\ results s = [];
  pi_files : expired s = false -> returned s = None \/ returned s = Some None ->
    (jobs s ≫= owed) ++ (results s ≫= waiting) ++ archive s ≡ₚ file_of <$> running cs;
  pi_failures : expired s = false -> returned s = None \/ returned s = Some None ->
    forall c, c ∈ running cs -> (collect c).2 = None \/ pending s c;
}.

Lemma prof_inv_start cs : collectorsToRun (Collectors opts) = Ok cs -> prof_inv cs (profile_start cs).
Proof.
  intros Hcs. assert (Hlen : length cs = capacity).
  { unfold capacity. revert cs Hcs. induction (Collectors opts) as [| n l IH]; intros cs; cbn [collectorsToRun]; [by intros [= <-] |].
    destruct (List.find (fun e => String.eqb e.1 n) collectors) as [[? c] |]; [| done]. destruct (collectorsToRun l) as [cs' |]; [| done]. intros [= <-]. cbn. by rewrite (IH cs'). }
  split; cbn; try done.
  - rewrite length_fmap. pose proof (length_filter (fun c => enabledFunc c opts = true) cs). unfold running. lia.
  - intros _ _. rewrite !app_nil_r. apply reflexive_eq. induction (running cs) as [| c l IH]; [done |]. cbn. by f_equal.
  - intros _ _ c Hc. right. left. cbn. by apply list_elem_of_fmap_2.
Qed.

Lemma done_middle js j js' : Forall (fun j => j = JobDone) (js ++ j :: js') -> j = JobDone.
Proof. by intros (_ & ? & _)%Forall_app%(fun H => conj (proj1 H) (Forall_cons_1 _ _ _ (proj2 H))). Qed.

Lemma owed_first {A} (a x b w r : list A) : (a ++ x ++ b) ++ w ++ r ≡ₚ (x ++ w) ++ a ++ b ++ r.
Proof.
  rewrite <-!app_assoc, (Permutation_app_swap_app a x). apply Permutation_app_head.
  rewrite (Permutation_app_swap_app b w). apply Permutation_app_swap_app.
Qed.

(** A goroutine that goes on without delivering what it owes. *)
Lemma prof_inv_job cs s js j j' js' rs :
  prof_inv cs s -> jobs s = js ++ j :: js' -> j <> JobDone ->
  (expired s = false -> returned s = None -> owed j' ++ (rs ≫= waiting) ≡ₚ owed j ++ (results s ≫= waiting)) ->
  (expired s = false -> returned s = None -> forall c, pending s c -> (collect c).2 = None \/ pending (with_jobs (js ++ j' :: js') rs s) c) ->
  prof_inv cs (with_jobs (js ++ j' :: js') rs s).
Proof.
  intros [I1 I2 I3 I4 I5 I6 I7] Hj Hnd Hfiles Hpend.
  assert (Hclosed : closed s = true -> False) by (intros Hc%I4; rewrite Hj in Hc; by apply Hnd, (done_middle js j js')).
  assert (Hend : returned s <> Some None) by (intros [Hd _]%I5; rewrite Hj in Hd; by apply Hnd, (done_middle js j js')).
  split; cbn; try done.
  - rewrite Hj in I1. rewrite length_app in *. cbn in *. lia.
  - intros Hx [Hr | Hr]; [| done]. specialize (I6 Hx (or_introl Hr)). specialize (Hfiles Hx Hr). rewrite <-I6, Hj, !bind_app. cbn [mbind list_bind].
    by rewrite !owed_first, Hfiles.
  - intros Hx [Hr | Hr] c Hc; [| done]. destruct (I7 Hx (or_introl Hr) c Hc) as [? | Hp]; [by left |]. by apply Hpend.
Qed.

Lemma in_middle (js : list prof_job) j j' js' k : k ∈ js ++ j :: js' -> k = j \/ k ∈ js ++ j' :: js'.
Proof. rewrite !elem_of_app, !elem_of_cons. tauto. Qed.

Lemma prof_inv_step cs s0 s1 : prof_inv cs s0 -> prof_step s0 s1 -> prof_inv cs s1.
Proof.
  intros I Hstep. destruct Hstep as [? ? Hw | ?]; [| destruct I as [I1 I2 I3 I4 I5 I6 I7]; split; cbn; try done; auto].
  destruct Hw as [s js c js' Hj | s js c js' e Hj Hcan | s js c e js' Hj _ | s js c js' Hj _ | s js j js' Hj Hcan (c & Hc) | s Hdone Hcl | s e rs Hr Hrs
    | s f b rs e Hr Hrs _ | s f b rs w e Hr Hrs _ _ | s f b rs Hr Hrs _ _ | s Hr Hrs Hcl].
  - apply (prof_inv_job cs s js _ _ js' _ I Hj); [done | intros; by destruct (collect c).2 |].
    intros _ _ c' [Hin | [[e Hin] | Hf]]; [| | right; by right; right];
      rewrite Hj in Hin; apply (in_middle js _ (match (collect c).2 with Some e => SendError c e | None => SendProfile c end)) in Hin as [[= ->] | Hin].
    + destruct (collect c).2 as [e |] eqn:Hcol; [| by left]. right. right. left. exists e. cbn. rewrite elem_of_app, elem_of_cons. tauto.
    + right. by left.
    + right. right. left. by exists e.
  - apply (prof_inv_job cs s js _ _ js' _ I Hj); [done | done |].
    intros Hx Hr. destruct (pi_cause cs s I Hcan); congruence.
  - apply (prof_inv_job cs s js _ _ js' _ I Hj); [done | intros; by rewrite bind_app, app_nil_r |].
    intros _ _ c' _. right. right. right. exists (failure c e). cbn. rewrite elem_of_app, list_elem_of_singleton. tauto.
  - apply (prof_inv_job cs s js _ _ js' _ I Hj); [done | intros; rewrite bind_app; cbn; apply Permutation_app_comm |].
    intros _ _ c' [Hin | [[e Hin] | [e Hf]]]; [| | right; right; right; exists e; cbn; rewrite elem_of_app; by left];
      rewrite Hj in Hin; apply (in_middle js _ JobDone) in Hin as [[=] | Hin]; right; [by left | right; left; by exists e].
  - apply (prof_inv_job cs s js _ _ js' _ I Hj); [by destruct Hc as [[e ->] | ->] | |];
      intros Hx Hr; destruct (pi_cause cs s I Hcan); congruence.
  - destruct I as [I1 I2 I3 I4 I5 I6 I7]. by split.
  - destruct I as [I1 I2 I3 I4 I5 I6 I7]. split; cbn; auto; try done; try (by intros _ []); by right.
  - destruct I as [I1 I2 I3 I4 I5 I6 I7]. split; cbn; auto; try done; try (by intros _ []); by right.
  - destruct I as [I1 I2 I3 I4 I5 I6 I7]. split; cbn; auto; try done; try (by intros _ []); by right.
  - destruct I as [I1 I2 I3 I4 I5 I6 I7]. split; cbn; auto; try done; try by rewrite Hr in *.
    + intros Hx _. rewrite <-(I6 Hx (or_introl Hr)), Hrs. cbn. apply Permutation_app_head. rewrite app_assoc, Permutation_app_comm. done.
    + intros Hx _ c Hc. destruct (I7 Hx (or_introl Hr) c Hc) as [? | Hp]; [by left | right]. destruct Hp as [? | [? | [e Hin]]]; [by left | right; by left |].
      right. right. exists e. rewrite Hrs in Hin. by apply elem_of_cons in Hin as [? | ?].
  - destruct I as [I1 I2 I3 I4 I5 I6 I7]. split; cbn; auto; try done; try by right.
    + intros Hx _. rewrite <-(I6 Hx (or_introl Hr)), Hrs. done.
    + intros Hx _ c Hc. destruct (I7 Hx (or_introl Hr) c Hc) as [? | Hp]; [by left | right]. unfold pending in *. by rewrite Hrs in Hp.
Qed.

Lemma active_or_done (l : list prof_job) : Forall (fun j => j = JobDone) l \/ exists js j js', l = js ++ j :: js' /\ j <> JobDone.
Proof.
  induction l as [| j l IH]; [by left |]. destruct j as [c | c e | c |].
  1-3: right; eexists [], _, l; by split.
  destruct IH as [Hd | (js & j & js' & -> & Hj)]; [left; by constructor | right; by exists (JobDone :: js), j, js'].
Qed.

Lemma prof_receives s : returned s = None -> results s <> [] -> exists s', prof_work s s'.
Proof.
  intros Hr Hne. destruct (results s) as [| [e | f b] rs] eqn:Hrs; [done | eexists; by eapply prof_receive_error |].
  destruct (create f) as [e |] eqn:Hc; [eexists; by eapply prof_receive_unwritable |].
  destruct (compress f b) as [[w e] |] eqn:Hw; eexists; [by eapply prof_receive_uncompressed | by eapply prof_receive].
Qed.

Lemma prof_active cs s js j js' : prof_inv cs s -> jobs s = js ++ j :: js' -> j <> JobDone -> exists s', prof_work s s'.
Proof.
  intros I Hj Hnd. assert (Hcap : (0 < capacity)%nat) by (pose proof (pi_jobs cs s I) as Hl; rewrite Hj, length_app in Hl; cbn in Hl; lia).
  assert (Hsends : (exists c, (exists e, j = SendError c e) \/ j = SendProfile c) -> (length (results s) < capacity)%nat \/ exists s', prof_work s s').
  { intros Hs. destruct (decide (length (results s) < capacity)%nat) as [? | Hfull]; [by left | right]. destruct (returned s) as [r |] eqn:Hr.
    - eexists. eapply prof_give_up; [exact Hj | apply (pi_cancel cs s I); by rewrite Hr | exact Hs].
    - apply prof_receives; [done |]. intros Hn. rewrite Hn in Hfull. cbn in Hfull. lia. }
  destruct j as [c | c e | c |]; [eexists; by eapply prof_collect | | | done].
  - destruct Hsends as [Hlt | ?]; [exists c; left; by exists e | eexists; by eapply prof_send_error | done].
  - destruct Hsends as [Hlt | ?]; [exists c; by right | eexists; by eapply prof_send | done].
Qed.

(** *** Theorems *)

(** Under every interleaving of the goroutines of the collectors with the one that writes the
    archive: each step brings the end nearer; where there is no step left the profiling has
    returned and no goroutine is left behind; and as long as the request has not ended, success
    means that no collector failed and that the archive has exactly the files of those enabled. *)
Theorem profiles_exact cs s : collectorsToRun (Collectors opts) = Ok cs -> rtc prof_step (profile_start cs) s ->
  (forall s', prof_work s s' -> (prof_measure s' < prof_measure s)%nat) /\
  ((forall s', ~ prof_work s s') -> returned s <> None /\ Forall (fun j => j = JobDone) (jobs s)) /\
  (expired s = false -> returned s = Some None ->
    archive s ≡ₚ file_of <$> running cs /\ forall c, c ∈ running cs -> (collect c).2 = None).
Proof.
  intros Hcs Hsteps. assert (I : prof_inv cs s).
  { pose proof (prof_inv_start cs Hcs) as I0. clear Hcs. induction Hsteps as [| s s1 s2 Hstep _ IH]; [done |]. apply IH. by eapply prof_inv_step. }
  split; [intros s'; apply prof_work_decreases |]. split.
  - intros Hstuck. destruct (active_or_done (jobs s)) as [Hd | (js & j & js' & Hj & Hn)].
    + split; [| done]. intros Hr. destruct (results s) as [| r rs] eqn:Hrs; [| destruct (prof_receives s Hr) as [s' Hs]; [by rewrite Hrs | by apply (Hstuck s')]].
      destruct (closed s) eqn:Hcl; [by eapply Hstuck, prof_finish | by eapply Hstuck, prof_close].
    + destruct (prof_active cs s js j js' I Hj Hn) as [s' Hs]. by destruct (Hstuck s').
  - intros Hx Hr. destruct (pi_end cs s I Hr) as [Hd Hrs]. split.
    + rewrite <-(pi_files cs s I Hx (or_intror Hr)), Hrs. cbn. assert (Hnil : jobs s ≫= owed = []); [| by rewrite Hnil].
      clear -Hd. induction Hd as [| j l -> _ IH]; [done | exact IH].
    + intros c Hc. rewrite Forall_forall in Hd. destruct (pi_failures cs s I Hx (or_intror Hr) c Hc) as [? | [Hin | [[e Hin] | [e Hin]]]]; [done | by apply Hd in Hin | by apply Hd in Hin |].
      rewrite Hrs in Hin. by apply not_elem_of_nil in Hin.
Qed.

(** When the request ends while a goroutine sends its file, which there is room for, the file may
    be dropped all the same and the profiling end with success. *)
Theorem ended_request_loses_profiles cs c : collectorsToRun (Collectors opts) = Ok cs -> running cs = [c] -> (collect c).2 = None ->
  exists s, rtc prof_step (profile_start cs) s /\ returned s = Some None /\ archive s = [].
Proof.
  intros Hcs Hrun Hok. exists (MkProfiler [JobDone] [] true true true [] (Some None)). split; [| done].
  unfold profile_start. rewrite Hrun.
  eapply rtc_l; [apply prof_works, (prof_collect _ [] c []); reflexivity |]. rewrite Hok.
  eapply rtc_l; [apply prof_expire |].
  eapply rtc_l; [apply prof_works, (prof_give_up _ [] (SendProfile c) []); [reflexivity | reflexivity | exists c; by right] |].
  eapply rtc_l; [apply prof_works, prof_close; [by repeat constructor | reflexivity] |].
  apply rtc_once, prof_works. by apply (prof_finish (MkProfiler [JobDone] [] true true true [] None)).
Qed.
End Profile.

Module DemoProfile.
Definition opts : prof_options := MkProfOptions ["version"; "cpu"] 0 4 1000000.
Definition cs : list collector := [MkCollector "version.json" false (fun _ => true); MkCollector "cpu.pprof" false (fun o => 0 <? ProfileDuration o)].
Definition collect (c : collector) : string * option error := ("{}", None).
Definition v : collector := MkCollector "version.json" false (fun _ => true).
Definition final : profiler := MkProfiler [JobDone] [] true false true [("version.json", "{}")] (Some None).

Lemma final_reached : rtc (prof_step "linux" opts collect (fun _ => None) (fun _ _ => None)) (profile_start opts cs) final.
Proof.
  eapply rtc_l; [apply prof_works, (prof_collect _ _ _ _ _ _ [] v []); reflexivity |].
  eapply rtc_l; [apply prof_works, (prof_send _ _ _ _ _ _ [] v []); [reflexivity | cbn; lia] |].
  eapply rtc_l; [apply prof_works, prof_close; [by repeat constructor | reflexivity] |].
  eapply rtc_l; [apply prof_works; eapply prof_receive; reflexivity |].
  apply rtc_once, prof_works. by apply (prof_finish "linux" opts collect (fun _ => None) (fun _ _ => None) (MkProfiler [JobDone] [] true false false [("version.json", "{}")] None)).
Defined.

Lemma profiles_exact_witness : archive final ≡ₚ [("version.json", "{}")].
Proof.
  destruct (profiles_exact "linux" opts collect (fun _ => None) (fun _ _ => None) cs final eq_refl final_reached) as (_ & _ & Hok).
  exact (proj1 (Hok eq_refl eq_refl)).
Defined.

Lemma ended_request_loses_profiles_witness : exists s, rtc (prof_step "linux" opts collect (fun _ => None) (fun _ _ => None)) (profile_start opts cs) s /\ archive s = [].
Proof.
  destruct (ended_request_loses_profiles "linux" opts collect (fun _ => None) (fun _ _ => None) cs v eq_refl eq_refl eq_refl) as (s & Hs & _ & Ha).
  by exists s.
Defined.
End DemoProfile.
