(* ===== verification/ApiOptions.v ===== *)
(** The construction of the core API: [core/coreapi/coreapi.go], with [GetNode] and
    [GetApi] of [core/commands/cmdenv/env.go], the APIs of [GatewayOption]
    ([core/corehttp/gateway.go]) and [Init] of [core/box/service/httpServer.go].

    An API is a record of the services it uses; a service is the node's own or one made
    for the API.  The box server keeps the API it was given last. *)
From Stdlib Require Import ZArith Lia String.
From stdpp Require Import base strings list.
From S2P Require Import Prelude GoStrings.

Local Open Scope Z_scope.

(** ** Services *)

Inductive exchange := NodeExchange | OfflineExchange.
Inductive blockservice := NodeBlocks | BlocksOver (e : exchange).
Inductive dagservice := NodeDAG | DagOver (b : blockservice) | ReadOnlySession (d : dagservice).
Inductive router := NodeRouting | OfflineRouter.
Inductive nameservice := NodeNamesys | NewNamesys (r : router) (cache : Z).
Inductive providing := NodeProvider | OfflineProvider.

(** [IpfsNode]: whether it is online, whether IPNS is mounted and active, the size of the
    cache of names in its configuration, and whether it has a box server. *)
Record node := MkNode { IsOnline : bool; ipns_active : bool; ResolveCacheSize : result Z; has_box : bool }.

Record settings := MkSettings { s_Offline : bool; s_FetchBlocks : bool }.
Definition option := settings -> result settings.
Definition Offline (b : bool) : option := fun s => Ok (MkSettings b (s_FetchBlocks s)).
Definition FetchBlocks (b : bool) : option := fun s => Ok (MkSettings (s_Offline s) b).

Definition default_settings : settings := MkSettings false true.
Fixpoint ApiOptionsTo (s : settings) (opts : list option) : result settings :=
  match opts with [] => Ok s | o :: opts => match o s with Err e => Err e | Ok s => ApiOptionsTo s opts end end.

(** The services that differ between APIs of a node; identity, keys, repository, block
    stores, pinner, fetchers and pubsub are the node's.  [has_host] stands for the peer
    store, the host and the validator of records. *)
Record coreapi := MkApi {
  a_exchange : exchange; a_blocks : blockservice; a_dag : dagservice;
  a_namesys : nameservice; a_routing : router; a_provider : providing;
  has_host : bool; nd : Datatypes.option node; parentOpts : settings }.

(** The API kept by the box server: it was given none yet, or one. *)
Definition box := Datatypes.option coreapi.

Definition DefaultIpnsCacheSize : Z := 128.

(** [NewNameSystem]: its error, for a size of its cache. *)
Section Api.
Context (NewNameSystem : Z -> Datatypes.option error).

(** [Init] of the box server. *)
Definition Init (n : node) (api : coreapi) (b : box) : box := if has_box n then Some api else b.

Definition WithOptions (api : coreapi) (opts : list option) (b : box) : result coreapi * box :=
  match ApiOptionsTo (parentOpts api) opts with
  | Err e => (Err e, b)
  | Ok settings =>
      match nd api with
      | None => (Err "cannot apply options to api without node", b)
      | Some n =>
          let subAPI := MkApi NodeExchange NodeBlocks NodeDAG NodeNamesys NodeRouting NodeProvider true (Some n) settings in
          match (if s_Offline settings then
                   match ResolveCacheSize n with
                   | Err e => Err e
                   | Ok cs =>
                       let cs := if cs =? 0 then DefaultIpnsCacheSize else cs in
                       if cs <? 0 then Err "cannot specify negative resolve cache size"
                       else match NewNameSystem cs with
                       | Some e => Err ("error constructing namesys: " +:+ e)
                       | None => Ok (MkApi NodeExchange NodeBlocks NodeDAG (NewNamesys OfflineRouter cs) OfflineRouter OfflineProvider false (Some n) settings)
                       end
                   end
                 else Ok subAPI) with
          | Err e => (Err e, b)
          | Ok subAPI =>
              let subAPI := if s_Offline settings || negb (s_FetchBlocks settings)
                then MkApi OfflineExchange (BlocksOver OfflineExchange) (DagOver (BlocksOver OfflineExchange))
                       (a_namesys subAPI) (a_routing subAPI) (a_provider subAPI) (has_host subAPI) (nd subAPI) (parentOpts subAPI)
                else subAPI in
              (Ok subAPI, Init n subAPI b)
          end
      end
  end.

Definition NewCoreAPI (n : node) (opts : list option) (b : box) : result coreapi * box :=
  WithOptions (MkApi NodeExchange NodeBlocks NodeDAG NodeNamesys NodeRouting NodeProvider true (Some n) default_settings) opts b.

Definition getSession (api : coreapi) : coreapi :=
  MkApi (a_exchange api) (a_blocks api) (ReadOnlySession (a_dag api)) (a_namesys api) (a_routing api) (a_provider api) (has_host api) (nd api) (parentOpts api).

(** [checkOnline] and [checkPublishAllowed] of an API of the node. *)
Definition ErrOffline : error := "this action must be run in online mode, try running 'ipfs daemon' first".
Definition checkOnline (n : node) (allowOffline : bool) : Datatypes.option error := if negb (IsOnline n) && negb allowOffline then Some ErrOffline else None.
Definition checkPublishAllowed (n : node) : Datatypes.option error := if ipns_active n then Some "cannot manually publish while IPNS is mounted" else None.

(** ** [cmdenv] *)

(** The environment of a command: its API, if it is the right kind of environment. *)
Definition GetApi (env : Datatypes.option (result coreapi)) (offline local : bool) (b : box) : result coreapi * box :=
  match env with
  | None => (Err "expected env to be of type *commands.Context", b)
  | Some api =>
      let offline := offline || local in
      match api with
      | Err e => (Err e, b)
      | Ok api => if offline then WithOptions api [Offline offline] b else (Ok api, b)
      end
  end.

(** ** The gateway *)

(** The two APIs of the gateway's handler; [NoFetch] is its configuration. *)
Definition gateway_apis (n : node) (NoFetch : bool) (b : box) : result (coreapi * coreapi) * box :=
  match NewCoreAPI n [FetchBlocks (negb NoFetch)] b with
  | (Err e, b) => (Err e, b)
  | (Ok api, b) => match WithOptions api [Offline true] b with (Err e, b) => (Err e, b) | (Ok offlineAPI, b) => (Ok (api, offlineAPI), b) end
  end.

(** ** Theorems *)

(** An API that works offline fetches nothing, routes nothing and provides nothing. *)
Definition is_offline (a : coreapi) : Prop :=
  a_exchange a = OfflineExchange /\ a_blocks a = BlocksOver OfflineExchange /\ a_dag a = DagOver (BlocksOver OfflineExchange) /\
  a_routing a = OfflineRouter /\ a_provider a = OfflineProvider /\ has_host a = false /\ exists cs, a_namesys a = NewNamesys OfflineRouter cs /\ 0 < cs.
(** One that uses the network throughout. *)
Definition is_online (a : coreapi) : Prop :=
  a_exchange a = NodeExchange /\ a_blocks a = NodeBlocks /\ a_dag a = NodeDAG /\ a_routing a = NodeRouting /\ a_provider a = NodeProvider /\
  has_host a = true /\ a_namesys a = NodeNamesys.

(** What options make of an API, whatever API they are applied to. *)
Lemma with_options_exact api opts b a b' n : WithOptions api opts b = (Ok a, b') -> nd api = Some n ->
  ApiOptionsTo (parentOpts api) opts = Ok (parentOpts a) /\ nd a = Some n /\ b' = (if has_box n then Some a else b) /\
  (if s_Offline (parentOpts a) then is_offline a
   else if s_FetchBlocks (parentOpts a) then is_online a
   else a_exchange a = OfflineExchange /\ a_dag a = DagOver (BlocksOver OfflineExchange) /\ a_routing a = NodeRouting /\ a_provider a = NodeProvider /\ has_host a = true).
Proof.
  unfold WithOptions. intros Hw Hn. rewrite Hn in Hw. destruct (ApiOptionsTo (parentOpts api) opts) as [[off fetch]|e]; [|done]. cbn [s_Offline s_FetchBlocks] in Hw.
  destruct off; cbn [orb] in Hw.
  - destruct (ResolveCacheSize n) as [cs|e]; [|done]. cbv zeta in Hw. destruct (Z.ltb_spec (if cs =? 0 then DefaultIpnsCacheSize else cs) 0) as [|Hcs]; [done|].
    destruct (NewNameSystem _); [done|]. injection Hw as <- <-. cbn. split_and!; try done. unfold is_offline. cbn. split_and!; try done. eexists. split; [done|].
    destruct (Z.eqb_spec cs 0); [done|lia].
  - destruct fetch; cbn [negb] in Hw; injection Hw as <- <-; cbn; unfold is_online; by split_and!.
Qed.

(** Options accumulate: applying some to an API made with others is applying all of them
    to the first. *)
Theorem with_options_compose api opts1 opts2 b a1 b1 : WithOptions api opts1 b = (Ok a1, b1) ->
  (WithOptions a1 opts2 b1).1 = (WithOptions api (opts1 ++ opts2) b).1.
Proof.
  intros Hw. assert (Hnd : exists n, nd api = Some n).
  { unfold WithOptions in Hw. destruct (ApiOptionsTo _ _); [|done]. destruct (nd api) as [n|]; [by exists n|done]. }
  destruct Hnd as [n Hn]. destruct (with_options_exact _ _ _ _ _ _ Hw Hn) as (Ho & Hn1 & _ & _).
  assert (Happ : ApiOptionsTo (parentOpts api) (opts1 ++ opts2) = ApiOptionsTo (parentOpts a1) opts2).
  { revert Ho. generalize (parentOpts api) (parentOpts a1). clear. induction opts1 as [|o opts1 IH]; intros s s1; cbn; [by intros [= ->]|]. destruct (o s); [apply IH|done]. }
  unfold WithOptions. rewrite Happ, Hn, Hn1. destruct (ApiOptionsTo (parentOpts a1) opts2) as [[off fetch]|e]; [|done]. cbn [s_Offline s_FetchBlocks].
  destruct off; [|by destruct fetch]. destruct (ResolveCacheSize n) as [cs|e]; [|done]. cbv zeta. destruct (_ <? 0); [done|]. by destruct (NewNameSystem _).
Qed.

(** The command's API is the environment's, or an offline one when the request asks for
    it by either option; and offline APIs stay offline whatever else is asked of them,
    unless they are told otherwise. *)
Theorem get_api_exact api offline local b a b' n : nd api = Some n -> GetApi (Some (Ok api)) offline local b = (Ok a, b') ->
  (offline = false /\ local = false -> a = api /\ b' = b) /\ (offline = true \/ local = true -> is_offline a) /\
  (s_Offline (parentOpts a) = true -> forall f b2 a2 b3, WithOptions a [FetchBlocks f] b2 = (Ok a2, b3) -> is_offline a2).
Proof.
  intros Hn Hg. unfold GetApi in Hg.
  assert (Hlater : nd a = Some n -> s_Offline (parentOpts a) = true -> forall f b2 a2 b3, WithOptions a [FetchBlocks f] b2 = (Ok a2, b3) -> is_offline a2).
  { intros Hna Hoff f b2 a2 b3 Hw. destruct (with_options_exact _ _ _ _ _ _ Hw Hna) as (Ho & _ & _ & Hcase). cbn in Ho. injection Ho as Ho. rewrite <- Ho in Hcase.
    cbn in Hcase. by rewrite Hoff in Hcase. }
  destruct (offline || local) eqn:Hol.
  - destruct (with_options_exact _ _ _ _ _ _ Hg Hn) as (Ho & Hna & _ & Hcase). split; [by intros [-> ->]|]. split; [|by apply Hlater].
    intros _. cbn in Ho. injection Ho as Ho. rewrite <- Ho in Hcase. exact Hcase.
  - injection Hg as <- <-. apply Bool.orb_false_iff in Hol as [-> ->]. split; [done|]. split; [by intros [|]|by apply Hlater].
Qed.

(** The box server has the API that was made last, by whatever request: after a node has
    started its gateway, and after every command with the option for it, its box server
    works with an API that is offline, though the node is online. *)
Theorem box_left_offline n NoFetch b apis b' : has_box n = true -> gateway_apis n NoFetch b = (Ok apis, b') ->
  b' = Some apis.2 /\ is_offline apis.2 /\ (NoFetch = false -> is_online apis.1).
Proof.
  intros Hbox Hg. unfold gateway_apis in Hg. destruct (NewCoreAPI n [FetchBlocks (negb NoFetch)] b) as [[api|e] b1] eqn:H1; [|done].
  destruct (WithOptions api [Offline true] b1) as [[off|e] b2] eqn:H2; [|done]. injection Hg as <- <-. unfold NewCoreAPI in H1.
  destruct (with_options_exact _ _ _ _ _ _ H1 eq_refl) as (Ho1 & Hn1 & _ & Hc1). destruct (with_options_exact _ _ _ _ _ _ H2 Hn1) as (Ho2 & _ & -> & Hc2).
  cbn in Ho1, Ho2. injection Ho1 as Ho1. injection Ho2 as Ho2. rewrite <- Ho2 in Hc2. rewrite Hbox. split; [done|]. split; [exact Hc2|].
  intros ->. rewrite <- Ho1 in Hc1. exact Hc1.
Qed.

(** An offline API of an online node passes the checks that guard what needs the network:
    publishing on pubsub, which is the node's, still reaches it. *)
Theorem offline_passes_check api b a b' n : nd api = Some n -> IsOnline n = true -> WithOptions api [Offline true] b = (Ok a, b') ->
  is_offline a /\ exists n', nd a = Some n' /\ checkOnline n' false = None.
Proof.
  intros Hn Hon Hw. destruct (with_options_exact _ _ _ _ _ _ Hw Hn) as (Ho & Hna & _ & Hcase). cbn in Ho. injection Ho as Ho. rewrite <- Ho in Hcase.
  split; [exact Hcase|]. exists n. split; [done|]. unfold checkOnline. by rewrite Hon.
Qed.
End Api.

(** ** The hypotheses are met *)
Module DemoApiOptions.
Definition online : node := MkNode true false (Ok 0) true.
Definition made (r : result coreapi * box) : coreapi := match r.1 with Ok a => a | Err _ => MkApi NodeExchange NodeBlocks NodeDAG NodeNamesys NodeRouting NodeProvider true None default_settings end.
Definition plain : coreapi := made (NewCoreAPI (fun _ => None) online [] None).

Lemma with_options_compose_witness :
  (WithOptions (fun _ => None) plain [FetchBlocks false] (Some plain)).1 = (NewCoreAPI (fun _ => None) online ([] ++ [FetchBlocks false]) None).1.
Proof. apply (with_options_compose (fun _ => None) (MkApi NodeExchange NodeBlocks NodeDAG NodeNamesys NodeRouting NodeProvider true (Some online) default_settings) [] [FetchBlocks false] None plain (Some plain)). reflexivity. Defined.

Lemma get_api_exact_witness : is_offline (made (GetApi (fun _ => None) (Some (Ok plain)) false true None)).
Proof. apply (get_api_exact (fun _ => None) plain false true None _ (GetApi (fun _ => None) (Some (Ok plain)) false true None).2 online); [done|reflexivity|by right]. Defined.

Definition gateway := gateway_apis (fun _ => None) online false None.
Lemma box_left_offline_witness : exists apis, gateway.1 = Ok apis /\ gateway.2 = Some apis.2 /\ is_offline apis.2 /\ is_online apis.1.
Proof.
  eexists. split; [reflexivity|]. destruct (box_left_offline (fun _ => None) online false None _ gateway.2 eq_refl eq_refl) as (H1 & H2 & H3).
  split; [exact H1|]. split; [exact H2|]. by apply H3.
Defined.

Lemma offline_passes_check_witness : is_offline (made (WithOptions (fun _ => None) plain [Offline true] None)).
Proof. apply (offline_passes_check (fun _ => None) plain None _ (WithOptions (fun _ => None) plain [Offline true] None).2 online); reflexivity. Defined.
End DemoApiOptions.
