(* ===== verification/FuseReadonly.v ===== *)
(** The file system under [/ipfs], [fuse/readonly/readonly_unix.go]; and mounting:
    [fuse/mount/mount.go], [fuse.go], [fuse/node/mount_unix.go] and [ipfs mount].

    The block store, the resolver and the UnixFS library are given by the class [RoFs];
    nodes of the DAG are raw, protobuf or of another codec, or there is none (a nil node).
    A [Node] of the file system caches the UnixFS part of its node.  A mount is a step
    relation between the goroutine that mounts, the one that serves the connection, and
    those that unmount. *)
From Stdlib Require Import ZArith Lia String.
From stdpp Require Import base strings relations list.
From S2P Require Import Prelude GoStrings.

Local Open Scope Z_scope.

Abbreviation bytes := (list Byte.byte).

(** ** UnixFS and the DAG *)

Inductive data_type := TRaw | TDirectory | TFile | TMetadata | TSymlink | THAMTShard.
Record fsnode := MkFs { f_Type : data_type; FileSize : Z; f_Data : bytes }.

(** A link of a node: its name and its CID. *)
Inductive dnode := RawNode (data : bytes) | ProtoNode (data : bytes) (links : list (string * string)) | OtherNode | NilNode.

Definition num_links (nd : dnode) : Z := match nd with ProtoNode _ links => Z.of_nat (length links) | _ => 0 end.

Inductive codec := DagProtobuf | Raw | OtherCodec.
(** The errors the file system tells apart. *)
Inductive dag_err := NotFound | ErrNotExist | ErrLinkNotFound | Failed (e : error).

Inductive errno := ENOENT | EPERM | EIO | ENOTSUP | EINVAL | Other (e : error).

Class RoFs := {
  FSNodeFromBytes : bytes -> result fsnode;
  ParsePath : string -> result string;
  (** [ResolvePath]: the link, with its codec if it is a CID *)
  ResolvePath : string -> result (option (string * codec));
  Blockstore_Get : string -> result bytes;
  (** [ProtoNodeConverter], [RawNodeConverter] *)
  ProtoNodeConverter : bytes -> result dnode;
  RawNodeConverter : bytes -> result dnode;
  ResolveUnixfsOnce : dnode -> string -> dag_err + string;
  DAG_Get : string -> dag_err + dnode;
  (** the links of a directory, and the error that ends them *)
  DirLinks : dnode -> result (list (string * string) * option error);
  (** the content of a file, and where reading it fails *)
  NewDagReader : dnode -> result (bytes * option (nat * error));
}.

Section Readonly.
Context `{RoFs}.

(** ** The root *)

(** [perm] is the mode's permissions: octal 111, 444, 555 and 777. *)
Record attr := MkAttr { is_dir : bool; is_link : bool; perm : Z; a_Size : Z; a_Blocks : Z }.
Definition root_Attr : attr := MkAttr true false 73 0 0.

Record fnode := MkNode { Nd : dnode; cached : option fsnode }.

Definition root_Lookup (name : string) : errno + fnode :=
  if existsb (String.eqb name) ["mach_kernel"; ".hidden"; "._."] then inl ENOENT else
  match ParsePath name with
  | Err _ => inl ENOENT
  | Ok p =>
      match ResolvePath p with
      | Err _ => inl ENOENT
      | Ok None => inl ENOENT
      | Ok (Some (c, codec)) =>
          match Blockstore_Get c with
          | Err _ => inl ENOENT
          | Ok blk =>
              match codec with
              | DagProtobuf => match ProtoNodeConverter blk with Err _ => inl ENOENT | Ok fnd => inr (MkNode fnd None) end
              | Raw => match RawNodeConverter blk with Err _ => inl ENOENT | Ok fnd => inr (MkNode fnd None) end
              | OtherCodec => inl ENOTSUP
              end
          end
      end
  end.

Inductive entry_type := DT_Unknown | DT_Dir | DT_File | DT_Link.
Definition root_ReadDirAll : errno + list (string * entry_type) := inl EPERM.

(** ** Nodes *)

Definition loadData (s : fnode) : result fnode :=
  match Nd s with
  | ProtoNode data _ => match FSNodeFromBytes data with Err e => Err e | Ok fsn => Ok (MkNode (Nd s) (Some fsn)) end
  | _ => Ok s
  end.

(** [type_name]: the text of a type. *)
Definition nil_deref : string := "invalid memory address or nil pointer dereference".
Definition attr_of (type_name : data_type -> string) (s : fnode) : outcome (result attr) :=
  match cached s with
  | None => Panic nil_deref
  | Some fsn =>
      Ret match f_Type fsn with
          | TDirectory | THAMTShard => Ok (MkAttr true false 365 0 0)
          | TFile => Ok (MkAttr false false 292 (u64 (FileSize fsn)) (num_links (Nd s)))
          | TRaw => Ok (MkAttr false false 292 (Z.of_nat (length (f_Data fsn))) (num_links (Nd s)))
          | TSymlink => Ok (MkAttr false true 511 (Z.of_nat (length (f_Data fsn))) 0)
          | TMetadata => Err ("invalid data type - " +:+ type_name TMetadata)
          end
  end.

(** The attributes, and the node with what it has cached. *)
Definition node_Attr (type_name : data_type -> string) (s : fnode) : outcome (result attr) * fnode :=
  match Nd s with
  | RawNode data => (Ret (Ok (MkAttr false false 292 (Z.of_nat (length data)) 1)), s)
  | _ =>
      match cached s with
      | Some _ => (attr_of type_name s, s)
      | None =>
          match loadData s with
          | Err e => (Ret (Err ("readonly: loadData() failed: " +:+ e)), s)
          | Ok s => (attr_of type_name s, s)
          end
      end
  end.

Definition node_Lookup (s : fnode) (name : string) : errno + fnode :=
  match ResolveUnixfsOnce (Nd s) name with
  | inl ErrNotExist | inl ErrLinkNotFound => inl ENOENT
  | inl NotFound | inl (Failed _) => inl EIO
  | inr c =>
      match DAG_Get c with
      | inr nd => inr (MkNode nd None)
      | inl NotFound => inr (MkNode NilNode None)
      | inl ErrNotExist => inl (Other "file does not exist")
      | inl ErrLinkNotFound => inl (Other "no link by that name")
      | inl (Failed e) => inl (Other e)
      end
  end.

(** The entry of a link: its name, or its CID, and its type as far as it can be read. *)
Definition entry_of (lnk : string * string) : string * entry_type :=
  let '(name, c) := lnk in
  (if String.eqb name "" then c else name,
   match DAG_Get c with
   | inr (RawNode _) => DT_File
   | inr (ProtoNode data _) =>
       match FSNodeFromBytes data with
       | Err _ => DT_Unknown
       | Ok fsn => match f_Type fsn with TDirectory | THAMTShard => DT_Dir | TFile | TRaw => DT_File | TSymlink => DT_Link | TMetadata => DT_Unknown end
       end
   | _ => DT_Unknown
   end).

Definition node_ReadDirAll (s : fnode) : errno + list (string * entry_type) :=
  match DirLinks (Nd s) with
  | Err e => inl (Other e)
  | Ok (links, Some e) => inl (Other e)
  | Ok (links, None) => match entry_of <$> links with [] => inl ENOENT | entries => inr entries end
  end.

Definition node_Readlink (s : fnode) : errno + bytes :=
  match cached s with
  | Some fsn => match f_Type fsn with TSymlink => inr (f_Data fsn) | _ => inl EINVAL end
  | None => inl EINVAL
  end.

(** [Read] of [size] bytes at an offset: what the response holds, and the error.  The
    reader stops with an error after some bytes, or reaches the end. *)
Definition node_Read (s : fnode) (offset : Z) (size : nat) : bytes * option error :=
  match NewDagReader (Nd s) with
  | Err e => ([], Some e)
  | Ok (content, fail) =>
      if offset <? 0 then ([], Some "invalid offset") else
      let off := Z.to_nat offset in
      match fail with
      | Some (at_, e) => if (at_ <? off + size)%nat then (take (at_ - off) (drop off content), Some e) else (take size (drop off content), None)
      | None => (take size (drop off content), None)
      end
  end.

(** ** Theorems *)

(** The attributes of a node are those of its UnixFS part, before and after it is cached;
    looking twice gives the same. *)
Theorem attr_stable type_name s a s' : node_Attr type_name s = (a, s') -> (forall fsn data links, Nd s = ProtoNode data links -> cached s = Some fsn -> FSNodeFromBytes data = Ok fsn) ->
  Nd s' = Nd s /\ (node_Attr type_name s').1 = a /\
  (forall data links, Nd s = ProtoNode data links ->
     match FSNodeFromBytes data with Err e => cached s = None -> a = Ret (Err ("readonly: loadData() failed: " +:+ e)) | Ok fsn => cached s' = Some fsn end).
Proof.
  intros Ha Hc. unfold node_Attr in *. destruct s as [nd c]. cbn [Nd cached] in *. destruct nd as [data|data links| |].
  - injection Ha as <- <-. done.
  - destruct c as [fsn|].
    + injection Ha as <- <-. cbn. split_and!; try done. intros d l [= <- <-]. by rewrite (Hc fsn data links).
    + unfold loadData in Ha. cbn [Nd] in Ha. destruct (FSNodeFromBytes data) as [fsn|e] eqn:Hf; injection Ha as <- <-; cbn; unfold loadData; cbn; rewrite ?Hf;
        (split_and!; [done|done|]); intros d l [= <- <-]; by rewrite Hf.
  - destruct c; cbn in Ha; injection Ha as <- <-; done.
  - destruct c; cbn in Ha; injection Ha as <- <-; done.
Qed.

(** Reading gives exactly the bytes of the file in the range asked for, fewer only at its
    end or, with the error, where the reader failed. *)
Theorem ro_read_exact s offset size content fail : 0 <= offset -> NewDagReader (Nd s) = Ok (content, fail) ->
  let '(data, err) := node_Read s offset size in
  data `prefix_of` drop (Z.to_nat offset) content /\ (length data <= size)%nat /\
  (err = None -> data = take size (drop (Z.to_nat offset) content)) /\ (fail = None -> err = None).
Proof.
  intros Ho Hr. unfold node_Read. rewrite Hr. destruct (Z.ltb_spec offset 0); [lia|]. cbv zeta.
  assert (Hp : forall n, take n (drop (Z.to_nat offset) content) `prefix_of` drop (Z.to_nat offset) content).
  { intros n. exists (drop n (drop (Z.to_nat offset) content)). by rewrite take_drop. }
  destruct fail as [[at_ e]|]; [|rewrite length_take; split_and!; [apply Hp|lia|done|done]].
  destruct (Nat.ltb_spec at_ (Z.to_nat offset + size)); rewrite length_take; split_and!; try done; try apply Hp; lia.
Qed.

(** A link of a directory whose block is not found is looked up without an error: its
    node is nil, and asking for its attributes panics. *)
Theorem missing_child_panics type_name s name c : ResolveUnixfsOnce (Nd s) name = inr c -> DAG_Get c = inl NotFound ->
  exists child, node_Lookup s name = inr child /\ (node_Attr type_name child).1 = Panic nil_deref.
Proof. intros Hr Hg. unfold node_Lookup. rewrite Hr, Hg. by eexists. Qed.

(** So does a child of a codec that has no UnixFS part, while such a root is refused. *)
Theorem foreign_child_panics type_name s name c : ResolveUnixfsOnce (Nd s) name = inr c -> DAG_Get c = inr OtherNode ->
  exists child, node_Lookup s name = inr child /\ (node_Attr type_name child).1 = Panic nil_deref.
Proof. intros Hr Hg. unfold node_Lookup. rewrite Hr, Hg. by eexists. Qed.

(** The nodes that the root gives out never panic. *)
Theorem root_nodes_safe type_name name nd :
  (forall b n, ProtoNodeConverter b = Ok n -> exists d l, n = ProtoNode d l) -> (forall b n, RawNodeConverter b = Ok n -> exists d, n = RawNode d) ->
  root_Lookup name = inr nd -> exists r, (node_Attr type_name nd).1 = Ret r.
Proof.
  intros Hp Hw. unfold root_Lookup. destruct (existsb _ _); [done|]. destruct (ParsePath name); [|done]. destruct (ResolvePath _) as [[[c [| |]]|]|]; try done;
    destruct (Blockstore_Get c) as [blk|]; try done.
  - destruct (ProtoNodeConverter blk) as [n|] eqn:Hc; [|done]. intros [= <-]. destruct (Hp _ _ Hc) as (d & l & ->). unfold node_Attr, loadData. cbn.
    destruct (FSNodeFromBytes d) as [fsn|e]; cbn; by eexists.
  - destruct (RawNodeConverter blk) as [n|] eqn:Hc; [|done]. intros [= <-]. destruct (Hw _ _ Hc) as (d & ->). by eexists.
Qed.

(** The listing of a directory has one entry for each of its links, in order, whether its
    child can be read or not; an empty directory is answered as one that does not exist. *)
Theorem ro_listing_exact s links : DirLinks (Nd s) = Ok (links, None) ->
  match links with
  | [] => node_ReadDirAll s = inl ENOENT
  | _ => node_ReadDirAll s = inr (entry_of <$> links) /\ Forall2 (fun l e => e.1 = (if String.eqb l.1 "" then l.2 else l.1)) links (entry_of <$> links)
  end.
Proof.
  intros Hd. unfold node_ReadDirAll. rewrite Hd. destruct links as [|l links]; [done|]. split; [done|]. generalize (l :: links). clear. intros ls.
  induction ls as [|[n c] ls IH]; constructor; [done|exact IH].
Qed.

(** A symbolic link can be read only after its attributes were asked for. *)
Theorem readlink_after_attr type_name data links fsn : FSNodeFromBytes data = Ok fsn -> f_Type fsn = TSymlink ->
  node_Readlink (MkNode (ProtoNode data links) None) = inl EINVAL /\
  node_Readlink (node_Attr type_name (MkNode (ProtoNode data links) None)).2 = inr (f_Data fsn).
Proof. intros Hf Ht. unfold node_Readlink, node_Attr, loadData. cbn. rewrite Hf. cbn. by rewrite Ht. Qed.
End Readonly.

(** ** The hypotheses are met *)
Module DemoReadonly.
#[local] Instance demo : RoFs := {|
  FSNodeFromBytes d := match d with [] => Err "bad" | b :: d => Ok (MkFs (if decide (b = Byte.x73) then TSymlink else TFile) (Z.of_nat (length d)) d) end;
  ParsePath p := Ok p; ResolvePath p := Ok (Some (p, Raw)); Blockstore_Get c := Ok [Byte.x61];
  ProtoNodeConverter b := Ok (ProtoNode b []); RawNodeConverter b := Ok (RawNode b);
  ResolveUnixfsOnce _ name := inr name; DAG_Get c := if decide (c = "gone") then inl NotFound else inr OtherNode;
  DirLinks _ := Ok ([("a", "c")], None); NewDagReader _ := Ok ([Byte.x61; Byte.x62; Byte.x63], None);
|}.

Definition types (t : data_type) : string := "type".
Definition a_file : fnode := MkNode (ProtoNode [Byte.x66; Byte.x61] []) None.

Lemma attr_stable_witness : cached (node_Attr types a_file).2 = Some (MkFs TFile 1 [Byte.x61]).
Proof.
  destruct (attr_stable types a_file (node_Attr types a_file).1 (node_Attr types a_file).2) as (_ & _ & Hc); [apply surjective_pairing|done|].
  exact (Hc _ _ eq_refl).
Defined.

Lemma ro_read_exact_witness : node_Read a_file 1 5 = ([Byte.x62; Byte.x63], None).
Proof.
  pose proof (ro_read_exact a_file 1 5 [Byte.x61; Byte.x62; Byte.x63] None) as Hr. destruct (node_Read a_file 1 5) as [data err] eqn:He.
  destruct Hr as (_ & _ & Hd & He'); [done|done|]. rewrite (He' eq_refl) in *. by rewrite (Hd eq_refl).
Defined.

Lemma missing_child_panics_witness : exists child, node_Lookup a_file "gone" = inr child /\ (node_Attr types child).1 = Panic nil_deref.
Proof. apply (missing_child_panics types a_file "gone" "gone"); reflexivity. Defined.

Lemma foreign_child_panics_witness : exists child, node_Lookup a_file "cbor" = inr child /\ (node_Attr types child).1 = Panic nil_deref.
Proof. apply (foreign_child_panics types a_file "cbor" "cbor"); reflexivity. Defined.

Lemma root_nodes_safe_witness : exists r, (node_Attr types (MkNode (RawNode [Byte.x61]) None)).1 = Ret r.
Proof. apply (root_nodes_safe types "x"); [intros b n [= <-]; by eexists _, _|intros b n [= <-]; by eexists|reflexivity]. Defined.

Lemma ro_listing_exact_witness : node_ReadDirAll a_file = inr [("a", DT_Unknown)].
Proof. exact (proj1 (ro_listing_exact a_file [("a", "c")] eq_refl)). Defined.

Lemma readlink_after_attr_witness : node_Readlink (node_Attr types (MkNode (ProtoNode [Byte.x73; Byte.x61] []) None)).2 = inr [Byte.x61].
Proof. apply (readlink_after_attr types [Byte.x73; Byte.x61] [] (MkFs TSymlink 1 [Byte.x61])); reflexivity. Defined.
End DemoReadonly.

(** ** Mounting *)

Definition ErrNotMounted : error := "not mounted".

(** [UnmountCmd]: whether there is a command for the system. *)
Definition UnmountCmd (goos : string) : option error :=
  if String.eqb goos "darwin" || String.eqb goos "linux" then None else Some "unmount: unimplemented".

(** What two commands answer, and whether they take longer than the time-out. *)
Record attempt := MkAttempt { umount : option error; fallback : option error; too_long : bool }.

Definition ForceUnmount (goos : string) (a : attempt) : option error :=
  match UnmountCmd goos with
  | Some e => Some e
  | None =>
      if too_long a then Some "umount timeout" else
      match umount a with None => None | Some _ => fallback a end
  end.

(** The attempts as they would come; the error, and how many were made. *)
Fixpoint force_loop (goos : string) (attempts : list attempt) (made : nat) : bool * nat :=
  match attempts with
  | [] => (false, made)
  | a :: attempts => match ForceUnmount goos a with None => (true, S made) | Some _ => force_loop goos attempts (S made) end
  end.
Definition ForceUnmountManyTimes (goos point : string) (attempts : list attempt) : option error :=
  if (force_loop goos attempts 0).1 then None else Some ("unmount " +:+ point +:+ " failed after 10 seconds of trying").

(** What unmounting meets: the library, the connection, then the commands. *)
Record unmounting := MkUnm { fuse_Unmount : option error; conn_Close : option error; forced : list attempt }.

(** [unmount]: the error; without one the mount is made inactive. *)
Definition unmount (goos point : string) (u : unmounting) : option error :=
  match fuse_Unmount u with
  | None => None
  | Some _ => match conn_Close u with None => None | Some _ => ForceUnmountManyTimes goos point (forced u) end
  end.

(** *** One mount *)

(** The goroutine that serves: it runs, has to make the mount inactive, has ended. *)
Inductive serving := Serves | Served | ServeEnded.
(** The one that mounts: it waits, is about to make the mount active, has returned. *)
Inductive mounting := MWaiting | MReady | MReturned (e : option error).

(** [m_errs]: the channel of errors; [m_closed]: the result of closing the process, once it
    was closed; [m_unmounts]: how often [unmount] ran. *)
Record mnt := MkMnt { m_active : bool; m_errs : option error; m_serve : serving; m_main : mounting; m_closed : option (option error); m_unmounts : nat }.
Definition mnt_start : mnt := MkMnt false None Serves MWaiting None 0.

Section Mount.
Context (goos point : string).

(** Closing the process: the first time [unmount] runs. *)
Definition proc_Close (u : unmounting) (m : mnt) : option error * mnt :=
  match m_closed m with
  | Some r => (r, m)
  | None =>
      let r := unmount goos point u in
      (r, MkMnt (match r with None => false | Some _ => m_active m end) (m_errs m) (m_serve m) (m_main m) (Some r) (S (m_unmounts m)))
  end.
Definition Unmount (u : unmounting) (m : mnt) : option error * mnt := if negb (m_active m) then (Some ErrNotMounted, m) else proc_Close u m.

(** [NewMount] after [mount] has failed. *)
Definition mount_failed (e : error) (u : unmounting) (m : mnt) : mnt :=
  let m := (Unmount u m).2 in MkMnt (m_active m) (m_errs m) (m_serve m) (MReturned (Some e)) (m_closed m) (m_unmounts m).

Inductive mount_step : mnt -> mnt -> Prop :=
| SvReturn (r : option error) a es mm c n : es = None -> mount_step (MkMnt a es Serves mm c n) (MkMnt a r Served mm c n)
| SvInactive a es mm c n : mount_step (MkMnt a es Served mm c n) (MkMnt false es ServeEnded mm c n)
| MnTimeout u m : m_main m = MWaiting -> mount_step m (mount_failed ("mounting " +:+ point +:+ " timed out") u m)
| MnErr e u a sv c n : mount_step (MkMnt a (Some e) sv MWaiting c n) (mount_failed e u (MkMnt a None sv MWaiting c n))
| MnReadyErr e u m : m_main m = MWaiting -> mount_step m (mount_failed e u m)
| MnReady a es sv c n : mount_step (MkMnt a es sv MWaiting c n) (MkMnt a es sv MReady c n)
| MnActive a es sv c n : mount_step (MkMnt a es sv MReady c n) (MkMnt true es sv (MReturned None) c n)
| MnUnmount u m : m_main m = MReturned None -> mount_step m (Unmount u m).2
| MnParent u m : mount_step m (proc_Close u m).2.

Abbreviation reaches := (rtc mount_step mnt_start).
End Mount.

(** *** The mounts of a node *)

(** A handle of a mount, and whether it is active. *)
Record mounts (H : Type) := MkMounts { mt_Ipfs : option H; mt_Ipns : option H }.
Arguments MkMounts {H}. Arguments mt_Ipfs {H}. Arguments mt_Ipns {H}.

Section NodeMount.
Context {H : Type} (IsActive : H -> bool).

Definition fuseNoDirectory : string := "fusermount: failed to access mountpoint".
Definition fuseExitStatus1 : string := "fusermount: exit status 1".
Definition dquote : string := String (Ascii.ascii_of_nat 34) "".
Definition fmtFuseErr (s mountpoint : string) : error :=
  if Contains s fuseNoDirectory then
    ReplaceAll (ReplaceAll s ("fusermount: " +:+ dquote +:+ "fusermount:") "") (String (Ascii.ascii_of_nat 92) ("n" +:+ dquote +:+ ", exit status 1")) ""
  else if String.eqb s fuseExitStatus1 then "fuse failed to access mountpoint " +:+ mountpoint
  else s.

(** [fs] and [ns]: what the two mounts give; the error, the mounts of the node and what was
    unmounted. *)
Definition doMount (online : bool) (fsdir nsdir : string) (fs ns : result H) (m : mounts H) : option error * mounts H * list H :=
  let got (r : result H) := match r with Ok h => [h] | Err _ => [] end in
  let nsr := if online then Some ns else None in
  match fs, nsr with
  | Err e, _ => (Some (fmtFuseErr e fsdir), m, match nsr with Some r => got r | None => [] end)
  | Ok h, Some (Err e) => (Some (fmtFuseErr e nsdir), m, [h])
  | Ok h, Some (Ok h') => (None, MkMounts (Some h) (Some h'), [])
  | Ok h, None => (None, MkMounts (Some h) None, [])
  end.

Definition live (o : option H) : list H := match o with Some h => if IsActive h then [h] else [] | None => [] end.
Definition Mount (check : option error) (online : bool) (fsdir nsdir : string) (fs ns : result H) (m : mounts H) : option error * mounts H * list H :=
  let before := live (mt_Ipfs m) ++ live (mt_Ipns m) in
  match check with
  | Some e => (Some e, m, before)
  | None => let '(e, m, after) := doMount online fsdir nsdir fs ns m in (e, m, before ++ after)
  end.

(** [ipfs mount]: the directories of the configuration unless they are given. *)
Definition mount_Run (cfg : result (string * string)) (node : option error) (online : bool) (o_fs o_ns : option string) (check : option error)
    (mount_fs mount_ns : string -> result H) (m : mounts H) : result (string * string) * mounts H * list H :=
  match cfg with
  | Err e => (Err e, m, [])
  | Ok (cfg_ipfs, cfg_ipns) =>
      match node with
      | Some e => (Err e, m, [])
      | None =>
          if negb online then (Err "this command must be run in online mode. Try running 'ipfs daemon' first", m, []) else
          let fsdir := default cfg_ipfs o_fs in
          let nsdir := default cfg_ipns o_ns in
          match Mount check online fsdir nsdir (mount_fs fsdir) (mount_ns nsdir) m with
          | (Some e, m, l) => (Err e, m, l)
          | (None, m, l) => (Ok (fsdir, nsdir), m, l)
          end
      end
  end.
End NodeMount.

(** *** Theorems *)
Section MountTheorems.
Context (goos point : string).
Abbreviation mounted := (rtc (mount_step goos point) mnt_start).

(** A mount is active only after [mount] has returned without an error; it is unmounted at
    most once, which is when its process is closed. *)
Definition mnt_inv (m : mnt) : Prop :=
  (m_active m = true -> m_main m = MReturned None) /\ (m_unmounts m <= 1)%nat /\ (m_unmounts m = 1%nat <-> m_closed m <> None).

Lemma mnt_inv_close u m : mnt_inv m -> mnt_inv (proc_Close goos point u m).2.
Proof.
  intros (Ha & Hn & Hc). unfold proc_Close. destruct (m_closed m) eqn:Hcl; [unfold mnt_inv; cbn; rewrite Hcl; by split_and!|]. cbn. split_and!; cbn.
  - destruct (unmount goos point u); [exact Ha|done].
  - destruct (m_unmounts m) as [|[]]; [lia|by destruct (proj1 Hc eq_refl eq_refl)|lia].
  - split; [done|]. intros _. destruct (m_unmounts m) as [|[]]; [done|by destruct (proj1 Hc eq_refl eq_refl)|lia].
Qed.
Lemma mnt_inv_unmount u m : mnt_inv m -> mnt_inv (Unmount goos point u m).2.
Proof. intros Hm. unfold Unmount. destruct (negb (m_active m)); [done|by apply mnt_inv_close]. Qed.

Lemma waiting_inactive m : mnt_inv m -> m_main m = MWaiting -> m_active m = false.
Proof. intros [Ha _] Hw. destruct (m_active m); [|done]. rewrite Ha in Hw by done. done. Qed.

Lemma mount_failed_inactive e u m : m_active m = false -> mount_failed goos point e u m = MkMnt false (m_errs m) (m_serve m) (MReturned (Some e)) (m_closed m) (m_unmounts m).
Proof. intros Ha. unfold mount_failed, Unmount. rewrite Ha. cbn. by rewrite Ha. Qed.

Lemma mnt_inv_step m m' : mnt_inv m -> mount_step goos point m m' -> mnt_inv m'.
Proof.
  intros Hm Hstep. pose proof (waiting_inactive m Hm) as Hw. destruct Hstep; try (rewrite mount_failed_inactive by (by apply Hw));
    try (by apply mnt_inv_unmount); try (by apply mnt_inv_close); destruct Hm as (Ha & Hn & Hc); split_and!; cbn in *; auto; try done.
  intros ->. by specialize (Ha eq_refl).
Qed.

Lemma mnt_inv_reached m : mounted m -> mnt_inv m.
Proof. intros Hr. revert m Hr. apply rtc_ind_r; [split; [done|]; split; [cbn; lia|]; split; [done|by intros []]|]. intros; by eapply mnt_inv_step. Qed.

(** however a mount is served, unmounted and closed, [unmount] runs at most once; when it has failed, unmounting again answers the same error without trying again, as long as the mount is active. *)
Theorem unmount_once m u : mounted m -> (m_unmounts m <= 1)%nat /\
  (forall r, m_closed m = Some r -> proc_Close goos point u m = (r, m) /\ Unmount goos point u m = (if m_active m then r else Some ErrNotMounted, m)).
Proof.
  intros (_ & Hn & _)%mnt_inv_reached. split; [done|]. intros r Hr. unfold Unmount, proc_Close. rewrite Hr. by destruct (m_active m).
Qed.

(** the unmounting "just in case" after a failed mount never unmounts: the mount is not active yet, so it is answered that nothing is mounted, and a file system that comes up after the time-out stays. *)
Theorem failed_mount_stays m e u : mounted m -> m_main m = MWaiting ->
  Unmount goos point u m = (Some ErrNotMounted, m) /\ m_unmounts (mount_failed goos point e u m) = m_unmounts m /\ m_closed (mount_failed goos point e u m) = m_closed m /\
  m_serve (mount_failed goos point e u m) = m_serve m.
Proof.
  intros Hm%mnt_inv_reached Hw. pose proof (waiting_inactive _ Hm Hw) as Ha. rewrite mount_failed_inactive by done. by unfold Unmount; rewrite Ha.
Qed.

(** when the connection ends between the check of the mount and its being made active, the mount is active for good although nothing is served. *)
Theorem stale_active : exists m, mounted m /\ m_active m = true /\ m_serve m = ServeEnded /\ m_main m = MReturned None /\ m_unmounts m = 0%nat.
Proof.
  exists (MkMnt true None ServeEnded (MReturned None) None 0). split; [|done].
  eapply rtc_l; [by apply MnReady|]. eapply rtc_l; [by apply (SvReturn _ _ None)|]. eapply rtc_l; [apply SvInactive|]. apply rtc_once, MnActive.
Qed.

(** the forced unmounting ends with the first attempt that succeeds, and fails only if none of them does. *)
Theorem force_unmount_exact attempts :
  let n := (force_loop goos attempts 0).2 in
  (ForceUnmountManyTimes goos point attempts = None <-> exists a, a ∈ attempts /\ ForceUnmount goos a = None) /\
  (forall i a, (i + 1 < n)%nat -> attempts !! i = Some a -> ForceUnmount goos a <> None) /\ (n <= length attempts)%nat.
Proof.
  assert (H : forall k, let r := force_loop goos attempts k in
    (r.1 = true <-> exists a, a ∈ attempts /\ ForceUnmount goos a = None) /\ (forall i a, (i + 1 + k < r.2)%nat -> attempts !! i = Some a -> ForceUnmount goos a <> None) /\ (r.2 <= length attempts + k)%nat).
  { induction attempts as [|a l IH]; intros k; cbn.
    - split; [|split; [done|lia]]. split; [done|]. intros (a & Ha%elem_of_nil & _). done.
    - destruct (ForceUnmount goos a) as [e|] eqn:Ha; cbn.
      + destruct (IH (S k)) as (H1 & H2 & H3). split; [|split].
        * rewrite H1. split; [intros (b & Hb & ?); exists b; split; [by apply list_elem_of_further|done]|]. intros (b & [->|Hb]%elem_of_cons & Hf); [congruence|eauto].
        * intros [|i] b Hi; cbn; [intros [= <-]; by rewrite Ha|]. apply H2. lia.
        * lia.
      + split; [|split; [|lia]].
        * split; [|done]. intros _. exists a. split; [apply list_elem_of_here|done].
        * intros i b Hi. lia. }
  destruct (H 0%nat) as (H1 & H2 & H3). cbn in *. split; [|split].
  - rewrite <- H1. unfold ForceUnmountManyTimes. by destruct (force_loop goos attempts 0).1.
  - intros i a Hi. apply H2. lia.
  - lia.
Qed.

(** mounting gives a node both file systems (the one when it is offline), or an error with everything that was mounted meanwhile unmounted and the mounts of the node as they were; the live ones from before are unmounted first in any case. *)
Theorem node_mount_exact {H} (IsActive : H -> bool) check online fsdir nsdir (fs ns : result H) m :
  let '(e, m', unmounted) := Mount IsActive check online fsdir nsdir fs ns m in
  let before := live IsActive (mt_Ipfs m) ++ live IsActive (mt_Ipns m) in
  (e = None <-> check = None /\ (exists h, fs = Ok h) /\ (online = true -> exists h, ns = Ok h)) /\
  (e = None -> mt_Ipfs m' = (match fs with Ok h => Some h | Err _ => None end) /\ mt_Ipns m' = (if online then match ns with Ok h => Some h | Err _ => None end else None) /\ unmounted = before) /\
  (e <> None -> m' = m /\ (check = None -> forall h, fs = Ok h \/ (online = true /\ ns = Ok h) -> h ∈ unmounted)) /\ (forall h, h ∈ before -> h ∈ unmounted).
Proof.
  unfold Mount, doMount. destruct check as [e|]; [|destruct fs as [h|e], online, ns as [h'|e']]; cbn; rewrite ?app_nil_r;
    (split; [naive_solver|]); (split; [naive_solver|]); (split; [|intros x Hx; first [exact Hx|apply elem_of_app; by left]]); intros He;
    first [by destruct He|split; [done|]; intros Hc x Hx; try done; rewrite ?elem_of_app; destruct Hx as [Hx|[Ho Hx]]; try done; injection Hx as ->; right; apply list_elem_of_here].
Qed.
End MountTheorems.

Module DemoMount.
Definition bad : unmounting := MkUnm (Some "busy") (Some "busy") [MkAttempt (Some "busy") (Some "busy") false].

(** Mounted; the first unmounting fails, and so does the second, which tries nothing. *)
Lemma unmount_once_witness : exists m, rtc (mount_step "linux" "/ipfs") mnt_start m /\ m_closed m = Some (Some ("unmount " +:+ "/ipfs" +:+ " failed after 10 seconds of trying")) /\
  Unmount "linux" "/ipfs" (MkUnm None None []) m = (Some "unmount /ipfs failed after 10 seconds of trying", m).
Proof.
  assert (Hr : rtc (mount_step "linux" "/ipfs") mnt_start (Unmount "linux" "/ipfs" bad (MkMnt true None Serves (MReturned None) None 0)).2).
  { eapply rtc_l; [by apply MnReady|]. eapply rtc_l; [apply MnActive|]. apply rtc_once. by apply MnUnmount. }
  eexists. split; [exact Hr|]. split; [reflexivity|]. exact (proj2 (proj2 (unmount_once "linux" "/ipfs" _ (MkUnm None None []) Hr) _ eq_refl)).
Defined.

Lemma failed_mount_stays_witness : m_serve (mount_failed "linux" "/ipfs" "mounting /ipfs timed out" bad mnt_start) = Serves.
Proof. exact (proj2 (proj2 (proj2 (failed_mount_stays "linux" "/ipfs" mnt_start "mounting /ipfs timed out" bad (rtc_refl _ _) eq_refl)))). Defined.
End DemoMount.
