(* ===== verification/P2pOpts.v ===== *)
(** The options of the libp2p host: [core/node/libp2p/libp2p.go], [sec.go], [smux.go],
    [transport.go], [relay.go], [nat.go] and [pnet.go].

    An option is a constructor of [p2popt]; a constructor of the source gives the list of
    options it adds to the group, or an error, or ends the process ([log.Fatal] and
    panics are the outcome [Panic]). *)
From Stdlib Require Import ZArith Lia String Sorted Permutation.
From stdpp Require Import base strings sets sorting list.
From S2P Require Import Prelude GoStrings ConfigTypes BoxService.

Local Open Scope Z_scope.
Local Open Scope go_scope.

Inductive transport := TCP | Websocket | QUIC | WebTransport.
Inductive security := TLS | Noise.
(** [relay.Resources] with its limit. *)
Record resources := MkResources { r_Data : Z; r_Duration : Z; r_MaxCircuits : Z; r_BufferSize : Z; r_TTL : Z;
  r_MaxReservations : Z; r_PerIP : Z; r_PerPeer : Z; r_PerASN : Z }.

Inductive p2popt :=
| ConnectionManagerOpt (low high grace : Z)
| ReachabilityPublic | ReachabilityPrivate
| EnableRelay | DisableRelay | EnableRelayService (r : resources)
| StaticRelays (l : list string) | RelaysFromPeers
| EnableHolePunching
| EnableNATService | AutoNATRateLimit (global peer interval : Z)
| Transport (t : transport) | Security_ (s : security) | NoSecurity | Muxer (id : string)
| PrivateNetwork (psk : string)
| ChainOptions (l : list p2popt).

(** What a constructor gives. *)
Abbreviation opts_out := (outcome (result (list p2popt))).

(** ** [libp2p.go] *)

Definition ConnectionManager (NewConnManager : option error) (low high grace : Z) : opts_out :=
  Ret (match NewConnManager with Some e => Err e | None => Ok [ConnectionManagerOpt low high grace] end).

Record priorityOption := MkPrio { priority : Z; defaultPriority : Z; opt : p2popt }.

(** The enabled options with their priorities. *)
Fixpoint enabled_options (opts : list priorityOption) : outcome (list (Z * p2popt)) :=
  match opts with
  | [] => Ret []
  | o :: opts =>
      let! p := Priority_WithDefault (priority o) (defaultPriority o) in
      let! rest := enabled_options opts in
      Ret (if p.2 then (p.1, opt o) :: rest else rest)
  end.

(** Sorting by priority; [sort.Slice] puts equal ones in any order: this one keeps theirs. *)
Definition prio_le (x y : Z * p2popt) : Prop := x.1 <= y.1.
#[export] Instance prio_le_dec : RelDecision prio_le.
Proof. intros x y. unfold prio_le. apply _. Defined.
Definition sort_options (l : list (Z * p2popt)) : list (Z * p2popt) := merge_sort prio_le l.

Definition prioritizeOptions (opts : list priorityOption) : outcome p2popt :=
  let! enabled := enabled_options opts in
  Ret (ChainOptions (snd <$> sort_options enabled)).

Definition ForceReachability (val : option OptionalString) : opts_out :=
  if OptionalString_IsDefault val then Ret (Ok []) else
  let v := OptionalString_WithDefault val "unrecognized" in
  Ret (if String.eqb v "public" then Ok [ReachabilityPublic]
       else if String.eqb v "private" then Ok [ReachabilityPrivate]
       else Err ("unrecognized reachability option: " +:+ v)).

(** ** [sec.go] and [smux.go] *)

(** [tls], [noise]: the priorities of the configuration; [SECIO] is only warned about. *)
Definition Security (enabled : bool) (secio tls noise : Z) : opts_out :=
  if negb enabled then Ret (Ok [NoSecurity]) else
  let! _ := Priority_WithDefault secio Disabled in
  let! o := prioritizeOptions [MkPrio tls 200 (Security_ TLS); MkPrio noise 100 (Security_ Noise)] in
  Ret (Ok [o]).

Definition yamuxID : string := "/yamux/1.0.0".
Definition mplexID : string := "/mplex/6.7.0".

(** The loop over the preferences of the environment.  [enabled] is the map that is to
    find duplicates. *)
Fixpoint mux_prefs (enabled : list string) (muxers : list string) : result (list p2popt) :=
  match muxers with
  | [] => Ok []
  | tpt :: muxers =>
      if existsb (String.eqb tpt) enabled then Err ("duplicate muxer found in LIBP2P_MUX_PREFS: " +:+ tpt)
      else if String.eqb tpt yamuxID || String.eqb tpt mplexID then
        match mux_prefs enabled muxers with Err e => Err e | Ok opts => Ok (Muxer tpt :: opts) end
      else Err ("unknown muxer: " +:+ tpt)
  end.

(** [prefs]: the fields of the environment variable, if it is not empty. *)
Definition makeSmuxTransportOption (prefs : option (list string)) (yamux mplex : Z) : outcome (result p2popt) :=
  match prefs with
  | Some muxers => Ret (match mux_prefs [] muxers with Err e => Err e | Ok opts => Ok (ChainOptions opts) end)
  | None =>
      let! o := prioritizeOptions [MkPrio yamux 100 (Muxer yamuxID); MkPrio mplex 200 (Muxer mplexID)] in
      Ret (Ok o)
  end.
Definition SmuxTransport (prefs : option (list string)) (yamux mplex : Z) : opts_out :=
  let! o := makeSmuxTransportOption prefs yamux mplex in
  Ret (match o with Err e => Err e | Ok res => Ok [res] end).

(** ** [transport.go] *)

(** The flags of [Swarm.Transports.Network]. *)
Record network_flags := MkFlags { f_TCP : Z; f_Websocket : Z; f_QUIC : Z; f_WebTransport : Z }.

Definition Transports (private : bool) (c : network_flags) : opts_out :=
  let! tcp := Flag_WithDefault (f_TCP c) true in
  let! ws := Flag_WithDefault (f_Websocket c) true in
  let! quic := Flag_WithDefault (f_QUIC c) (negb private) in
  if quic && private then Ret (Err "QUIC transport does not support private networks, please disable Swarm.Transports.Network.QUIC") else
  let! wt := Flag_WithDefault (f_WebTransport c) (false && negb private) in
  if wt && private then Ret (Err "WebTransport transport does not support private networks, please disable Swarm.Transports.Network.WebTransport") else
  Ret (Ok ((if tcp then [Transport TCP] else []) ++ (if ws then [Transport Websocket] else []) ++
           (if quic then [Transport QUIC] else []) ++ (if wt then [Transport WebTransport] else []))).

(** ** [relay.go] and [nat.go] *)

Definition RelayTransport (enableRelay : bool) : opts_out := Ret (Ok [if enableRelay then EnableRelay else DisableRelay]).

(** [config.RelayService] without its flag. *)
Record relay_config := MkRelayConfig {
  ConnectionDurationLimit : option OptionalDuration; ConnectionDataLimit : option OptionalInteger; ReservationTTL : option OptionalDuration;
  MaxReservations : option OptionalInteger; MaxCircuits : option OptionalInteger; BufferSize : option OptionalInteger;
  MaxReservationsPerPeer : option OptionalInteger; MaxReservationsPerIP : option OptionalInteger; MaxReservationsPerASN : option OptionalInteger }.

(** [def]: [relay.DefaultResources()]. *)
Definition RelayService (enable : bool) (def : resources) (c : relay_config) : opts_out :=
  Ret (Ok (if enable then [EnableRelayService (MkResources
      (OptionalInteger_WithDefault (ConnectionDataLimit c) (r_Data def))
      (OptionalDuration_WithDefault (ConnectionDurationLimit c) (r_Duration def))
      (OptionalInteger_WithDefault (MaxCircuits c) (r_MaxCircuits def))
      (OptionalInteger_WithDefault (BufferSize c) (r_BufferSize def))
      (OptionalDuration_WithDefault (ReservationTTL c) (r_TTL def))
      (OptionalInteger_WithDefault (MaxReservations c) (r_MaxReservations def))
      (OptionalInteger_WithDefault (MaxReservations c) (r_PerIP def))
      (OptionalInteger_WithDefault (MaxReservations c) (r_PerPeer def))
      (OptionalInteger_WithDefault (MaxReservations c) (r_PerASN def)))] else [])).

Section Relays.
(** [peer.AddrInfoFromString]. *)
Context (AddrInfoFromString : string -> result string).

Fixpoint static_relays (l : list string) : result (list string) :=
  match l with
  | [] => Ok []
  | s :: l =>
      match AddrInfoFromString s with
      | Err e => Err e
      | Ok addr => match static_relays l with Err e => Err e | Ok rest => Ok (addr :: rest) end
      end
  end.

(** The options, and whether peers are fed to the relay finder. *)
Definition MaybeAutoRelay (staticRelays : list string) (enabled : bool) : opts_out * bool :=
  if negb enabled then (Ret (Ok []), false) else
  match staticRelays with
  | _ :: _ => (Ret (match static_relays staticRelays with Err e => Err e | Ok static => Ok [StaticRelays static] end), false)
  | [] => (Ret (Ok [RelaysFromPeers]), true)
  end.
End Relays.

(** The peers handed to the relay finder: at most as many as it asks for; a negative
    number is no limit. *)
Fixpoint peer_source {P} (numPeers : Z) (chan : list P) : list P :=
  match chan with
  | [] => []
  | v :: chan => if numPeers =? 0 then [] else v :: peer_source (numPeers - 1) chan
  end.

Definition HolePunching (flag : Z) (hasRelayClient : bool) : opts_out :=
  let! enabled := Flag_WithDefault flag true in
  if enabled then
    if negb hasRelayClient then
      if negb (flag =? Default_) then Panic "Failed to enable `Swarm.EnableHolePunching`, it requires `Swarm.RelayClient.Enabled` to be true."
      else Ret (Ok [])
    else Ret (Ok [EnableHolePunching])
  else Ret (Ok []).

(** [throttle]: the limits, if there are any. *)
Definition minute : Z := 60000000000.
Definition AutoNATService (throttle : option (Z * Z * option OptionalDuration)) : list p2popt :=
  EnableNATService :: match throttle with None => [] | Some (g, p, i) => [AutoNATRateLimit g p (OptionalDuration_WithDefault i minute)] end.

(** ** [pnet.go] *)

(** The key every node of a box network has unless it has one of its own. *)
Definition lf : string := String (Ascii.ascii_of_nat 10) EmptyString.
Definition swarmKeyPath : string :=
  "/key/swarm/psk/1.0.0/" +:+ lf +:+ "/base16/" +:+ lf +:+ "f882414c0908bca104e1d33f3a506e5a5696121e8fb065248483ca44478fed33".

(** The key of the repository, replaced in a private network without one; [box] is what
    [service.GetConfig] answers. *)
Definition swarm_key (SwarmKey : result (option string)) (box : ConfigBox * option error) : option string * option error :=
  let '(key, err) := match SwarmKey with Ok k => (k, None) | Err e => (None, Some e) end in
  (match box.2 with None => if IsPrivateNet box.1 then match key with None => Some swarmKeyPath | Some _ => key end else key | Some _ => key end, err).

(** The options and the fingerprint. *)
Definition PNet (DecodeV1PSK : string -> result string) (pnetFingerprint : string -> string) (SwarmKey : result (option string)) (box : ConfigBox * option error)
    : result (list p2popt * option string) :=
  match swarm_key SwarmKey box with
  | (_, Some e) => Err e
  | (None, None) => Ok ([], None)
  | (Some key, None) =>
      match DecodeV1PSK key with
      | Err e => Err ("failed to configure private network: " +:+ e)
      | Ok psk => Ok ([PrivateNetwork psk], Some (pnetFingerprint psk))
      end
  end.

(** Whether the goroutine that warns of a private network without peers is started. *)
Definition PNetChecker (SwarmKey : result (option string)) (box : ConfigBox * option error) : result bool :=
  match swarm_key SwarmKey box with (_, Some e) => Err e | (None, None) => Ok false | (Some _, None) => Ok true end.

(** ** Theorems *)

(** An option that is not disabled, with the priority it has or its default. *)
Definition with_priority (x : priorityOption) : option (Z * p2popt) :=
  if decide (priority x = Disabled) then None
  else Some (if decide (priority x = DefaultPriority) then defaultPriority x else priority x, opt x).
Definition readable (x : priorityOption) : Prop := valid_priority (priority x) /\ 0 < defaultPriority x.

Lemma enabled_exact opts : Forall readable opts -> enabled_options opts = Ret (omap with_priority opts).
Proof.
  induction 1 as [|x opts [Hp Hd] _ IH]; [done|]. cbn [enabled_options]. rewrite IH. unfold valid_priority in Hp. unfold Priority_WithDefault, with_priority.
  cbn [omap list_omap]. unfold Disabled, DefaultPriority in *.
  destruct (Z.eqb_spec (priority x) (-1)) as [He|He]; [rewrite decide_True by done; done|]. rewrite decide_False by done.
  destruct (Z.eqb_spec (priority x) 0) as [H0|H0].
  - rewrite decide_True by done. destruct (Z.eqb_spec (defaultPriority x) (-1)); [lia|]. destruct (Z.eqb_spec (defaultPriority x) 0); [lia|].
    destruct (Z.leb_spec (defaultPriority x) 0); [lia|done].
  - rewrite decide_False by done. destruct (Z.leb_spec (priority x) 0); [lia|done].
Qed.

#[export] Instance prio_le_total : Total prio_le.
Proof. intros x y. unfold prio_le. lia. Qed.

(** Exactly the options that are not disabled are used, in the order of their
    priorities, those of the configuration or the defaults. *)
Theorem prioritize_exact opts : Forall readable opts ->
  exists sorted, prioritizeOptions opts = Ret (ChainOptions (snd <$> sorted)) /\ Sorted prio_le sorted /\ sorted ≡ₚ omap with_priority opts.
Proof.
  intros Hv. unfold prioritizeOptions. rewrite enabled_exact by done. exists (sort_options (omap with_priority opts)). unfold sort_options. split_and!; [done|apply Sorted_merge_sort, _|].
  apply merge_sort_Permutation.
Qed.

(** Noise is tried before TLS unless the configuration says otherwise. *)
Theorem noise_first : Security true 0 0 0 = Ret (Ok [ChainOptions [Security_ Noise; Security_ TLS]]) /\
  Security true 0 50 0 = Ret (Ok [ChainOptions [Security_ TLS; Security_ Noise]]) /\ Security true 0 0 (-1) = Ret (Ok [ChainOptions [Security_ TLS]]).
Proof. done. Qed.

(** The preferences of the environment name the muxers as they are listed; the check for
    duplicates finds none, because nothing is ever put into its map. *)
Theorem mux_prefs_exact muxers : (forall m, m ∈ muxers -> m = yamuxID \/ m = mplexID) ->
  makeSmuxTransportOption (Some muxers) 0 0 = Ret (Ok (ChainOptions (Muxer <$> muxers))).
Proof.
  intros Hm. unfold makeSmuxTransportOption. assert (Hl : mux_prefs [] muxers = Ok (Muxer <$> muxers)); [|by rewrite Hl].
  induction muxers as [|m muxers IH]; [done|]. cbn [mux_prefs existsb fmap list_fmap].
  assert (Ht : String.eqb m yamuxID || String.eqb m mplexID = true).
  { apply Bool.orb_true_iff. rewrite !String.eqb_eq. apply Hm, list_elem_of_here. }
  rewrite Ht, IH by (intros m' Hm'; apply Hm; by apply list_elem_of_further). done.
Qed.

(** In a private network only TCP and websockets are used; QUIC and WebTransport are
    refused when they are asked for, and off otherwise. *)
Theorem private_transports c opts : Transports true c = Ret (Ok opts) ->
  (forall t, Transport t ∈ opts -> t = TCP \/ t = Websocket) /\ f_QUIC c <> True_ /\ f_WebTransport c <> True_.
Proof.
  unfold Transports. destruct (Flag_WithDefault (f_TCP c) true) as [tcp|] eqn:Ht; [|done]. destruct (Flag_WithDefault (f_Websocket c) true) as [ws|]; [|done].
  destruct (Flag_WithDefault (f_QUIC c) (negb true)) as [quic|] eqn:Hq; [|done]. destruct (Flag_WithDefault (f_WebTransport c) (false && negb true)) as [wt|] eqn:Hw; [|by destruct quic].
  cbn [obind]. destruct quic; [done|]. cbn [andb]. destruct wt; [done|]. cbn [andb]. intros [= <-]. split_and!.
  - intros t. destruct tcp, ws; set_solver.
  - intros Hf. rewrite Hf in Hq. done.
  - intros Hf. rewrite Hf in Hw. done.
Qed.

(** Outside private networks QUIC is on unless it is turned off, WebTransport off unless
    it is turned on. *)
Theorem public_transports : Transports false (MkFlags 0 0 0 0) = Ret (Ok [Transport TCP; Transport Websocket; Transport QUIC]).
Proof. done. Qed.

(** The relay service's limits for an address, a peer and a network are that for all of
    them together: the settings for them are never used, and where the common one is set
    the defaults are not either. *)
Theorem relay_limits_shared def c r : RelayService true def c = Ret (Ok [EnableRelayService r]) ->
  (forall a b d, RelayService true def (MkRelayConfig (ConnectionDurationLimit c) (ConnectionDataLimit c) (ReservationTTL c) (MaxReservations c) (MaxCircuits c) (BufferSize c) a b d) =
     Ret (Ok [EnableRelayService r])) /\
  (OptionalInteger_IsDefault (MaxReservations c) = false -> r_PerIP r = r_MaxReservations r /\ r_PerPeer r = r_MaxReservations r /\ r_PerASN r = r_MaxReservations r).
Proof.
  unfold RelayService. intros [= <-]. split; [done|]. cbn [r_PerIP r_PerPeer r_PerASN r_MaxReservations].
  unfold OptionalInteger_IsDefault, OptionalInteger_WithDefault. by destruct (MaxReservations c) as [[p|]|].
Qed.

(** The relay finder gets at most the number of peers it asks for. *)
Theorem peer_source_exact {P} n (chan : list P) : 0 <= n -> peer_source n chan = take (Z.to_nat n) chan.
Proof.
  revert n. induction chan as [|v chan IH]; intros n Hn; [by rewrite take_nil|]. cbn [peer_source]. destruct (Z.eqb_spec n 0) as [->|H0]; [done|].
  rewrite IH by lia. replace (Z.to_nat n) with (S (Z.to_nat (n - 1))) by lia. done.
Qed.

(** A node of a box network is in the private network of all of them unless its repository
    has a key of its own.  When its settings cannot be read the node is in no private
    network, and says nothing. *)
Theorem private_network_exact decode fp key err box :
  (forall c, box = (c, None) -> IsPrivateNet c = true -> key = None ->
     PNet decode fp (Ok key) box = match decode swarmKeyPath with Err e => Err ("failed to configure private network: " +:+ e) | Ok psk => Ok ([PrivateNetwork psk], Some (fp psk)) end) /\
  (forall k, key = Some k -> PNet decode fp (Ok key) box = match decode k with Err e => Err ("failed to configure private network: " +:+ e) | Ok psk => Ok ([PrivateNetwork psk], Some (fp psk)) end) /\
  (box.2 <> None \/ IsPrivateNet box.1 = false -> key = None -> PNet decode fp (Ok key) box = Ok ([], None) /\ PNetChecker (Ok key) box = Ok false) /\
  PNet decode fp (Err err) box = Err err.
Proof.
  unfold PNet, PNetChecker, swarm_key. destruct box as [c e]. cbn [fst snd]. split_and!.
  - intros c' [= -> ->] -> ->. done.
  - intros k ->. destruct e; [done|]. by destruct (IsPrivateNet c).
  - intros Hn ->. destruct e; [done|]. destruct Hn as [?|Hn]; [done|]. by rewrite Hn.
  - destruct e; [done|]. by destruct (IsPrivateNet c).
Qed.

(** ** The hypotheses are met *)
Module DemoP2pOpts.
Definition two : list priorityOption := [MkPrio 0 200 (Security_ TLS); MkPrio (-1) 100 (Security_ Noise)].
Lemma two_readable : Forall readable two.
Proof. repeat constructor; cbn; unfold valid_priority; lia. Qed.

Lemma prioritize_exact_witness : exists sorted, prioritizeOptions two = Ret (ChainOptions (snd <$> sorted)) /\ sorted ≡ₚ [(200, Security_ TLS)].
Proof. destruct (prioritize_exact two two_readable) as (l & H1 & _ & H2). exists l. split; [exact H1|exact H2]. Defined.

Lemma mux_prefs_exact_witness : makeSmuxTransportOption (Some [yamuxID; yamuxID]) 0 0 = Ret (Ok (ChainOptions [Muxer yamuxID; Muxer yamuxID])).
Proof. apply (mux_prefs_exact [yamuxID; yamuxID]). intros m [->|[->|Hm]%elem_of_cons]%elem_of_cons; [by left|by left|by apply elem_of_nil in Hm]. Defined.

Lemma private_transports_witness : forall t, Transport t ∈ [Transport TCP; Transport Websocket] -> t = TCP \/ t = Websocket.
Proof. apply (private_transports (MkFlags 0 0 0 0)). reflexivity. Defined.

Definition caps : resources := MkResources 1 2 3 4 5 128 8 4 32.
Lemma relay_limits_shared_witness : exists r, RelayService true caps (MkRelayConfig None None None (Some (Some (Ptr 0 1000))) None None None None None) = Ret (Ok [EnableRelayService r]) /\ r_PerIP r = r_MaxReservations r.
Proof. eexists. split; [reflexivity|]. by apply (relay_limits_shared caps (MkRelayConfig None None None (Some (Some (Ptr 0 1000))) None None None None None)). Defined.

Lemma peer_source_exact_witness : peer_source 2 ["a"; "b"; "c"] = ["a"; "b"].
Proof. apply (peer_source_exact 2 ["a"; "b"; "c"]). done. Defined.
End DemoP2pOpts.
