(* ===== verification/NodeRouting.v ===== *)
(** The routers of the node and the commands that look at the DHT:
    [core/node/libp2p/routing.go], [host.go], [core/commands/dht.go] (the query) and
    [core/commands/stat_dht.go].

    A value of an interface type is nil, or has a type and a pointer that may be nil
    itself.  Routers are given by what they are; sending to the channel of peers and the
    end of the context are the steps of the goroutine that feeds the relay finder. *)
From Stdlib Require Import ZArith Lia String Sorted Permutation.
From stdpp Require Import base strings sorting relations list.
From S2P Require Import Prelude GoStrings.

Local Open Scope Z_scope.

Section Routers.
(** The DHT ([*ddht.DHT]), the accelerated client and other routers. *)
Context {D C R : Type}.

(** [routing.Routing]: nil, or a pointer of one of the types. *)
Inductive routing := NilRouting | IsDHT (d : option D) | IsFullRT (c : C) | IsOther (r : R).

Record Router := MkRouter { r_Routing : routing; Priority : Z }.

(** [processInitialRoutingOut] and what is closed when the node stops. *)
Record initial_out := MkInitial { i_Router : Router; ContentRouter : routing; i_DHT : option D; DHTClient : routing; closed_at_stop : list routing }.

(** [cfg], [BootstrapPeers], [NewFullRT]: the answers of the repository, of its
    configuration and of the accelerated client. *)
Definition BaseRouting (experimentalDHTClient : bool) (router : routing) (cfg BootstrapPeers : option error) (NewFullRT : result C) : result initial_out :=
  let dr := match router with IsDHT d => d | _ => None end in
  let hooks := match router with IsDHT d => [IsDHT d] | _ => [] end in
  match dr with
  | Some _ =>
      if experimentalDHTClient then
        match cfg with
        | Some e => Err e
        | None =>
            match BootstrapPeers with
            | Some e => Err e
            | None =>
                match NewFullRT with
                | Err e => Err e
                | Ok expClient => Ok (MkInitial (MkRouter (IsFullRT expClient) 1000) (IsFullRT expClient) dr (IsFullRT expClient) (hooks ++ [IsFullRT expClient]))
                end
            end
        end
      else Ok (MkInitial (MkRouter router 1000) router dr (IsDHT dr) hooks)
  | None => Ok (MkInitial (MkRouter router 1000) router dr (IsDHT dr) hooks)
  end.

(** [ContentRouting]: a tier of routers that only route content. *)
Definition ContentRouting (ContentRouter : list routing) : list routing := ContentRouter.

(** [sort.SliceStable] by priority. *)
Fixpoint insert_router (r : Router) (l : list Router) : list Router :=
  match l with
  | [] => [r]
  | x :: l => if Priority r <=? Priority x then r :: x :: l else x :: insert_router r l
  end.
Definition sort_routers (l : list Router) : list Router := foldr insert_router [] l.

(** [ParallelRouter]. *)
Record parallel_router := MkParallel { p_Timeout : Z; IgnoreError : bool; p_Router : routing }.
Definition five_minutes : Z := 300000000000.
Definition Routing (routers : list Router) : list parallel_router :=
  (fun v => MkParallel five_minutes true (r_Routing v)) <$> sort_routers routers.

Definition OfflineRouting (offline : R) : Router := MkRouter (IsOther offline) 10000.
(** [psRouter], wrapped so that it only serves the IPNS namespace. *)
Definition PubsubRouter (NewPubsubValueStore : result R) : result Router :=
  match NewPubsubValueStore with Err e => Err e | Ok psRouter => Ok (MkRouter (IsOther psRouter) 100) end.

(** ** The host *)

(** [Host]: the router the host was given while it was made, if it was; it is made once
    more otherwise, and the host wrapped with it. *)
Definition Host {H} (cfg boot : option error) (HostOption : result (option routing * H)) (RoutingOption : result routing) (Wrap : H -> routing -> H)
    : result (H * routing) :=
  match cfg with
  | Some e => Err e
  | None =>
      match boot with
      | Some e => Err e
      | None =>
          match HostOption with
          | Err e => Err e
          | Ok (Some r, h) => Ok (h, r)
          | Ok (None, h) => match RoutingOption with Err e => Err e | Ok r => Ok (Wrap h r, r) end
          end
      end
  end.

(** ** Peers for the relay finder *)

(** A peer with its addresses. *)
Record addr_info := MkInfo { a_ID : string; a_Addrs : list string }.

(** What one tick feeds: the trusted peers, then the closest ones, each if it has an
    address; without a DHT, or when it fails, only the former. *)
Definition with_addrs (l : list addr_info) : list addr_info := filter (fun p => a_Addrs p <> []) l.
Definition tick (trusted : list addr_info) (dht : option (result (list addr_info))) : list addr_info :=
  with_addrs trusted ++ match dht with Some (Ok closest) => with_addrs closest | _ => [] end.

(** The goroutine: what it still sends in this tick, or that it waits for one; what it
    has sent; whether the context is done; whether it has closed [done]. *)
Record feeder := MkFeeder { sending : option (list addr_info); fed : list addr_info; ctx_done : bool; ended : bool }.
Inductive feed_step (trusted : list addr_info) : feeder -> feeder -> Prop :=
| FTick dht fed c : feed_step trusted (MkFeeder None fed c false) (MkFeeder (Some (tick trusted dht)) fed c false)
| FSend p rest fed c : feed_step trusted (MkFeeder (Some (p :: rest)) fed c false) (MkFeeder (Some rest) (fed ++ [p]) c false)
| FNext fed c : feed_step trusted (MkFeeder (Some []) fed c false) (MkFeeder None fed c false)
| FStop s fed : s <> Some [] -> feed_step trusted (MkFeeder s fed true false) (MkFeeder s fed true true)
| FCancel s fed c e : feed_step trusted (MkFeeder s fed c e) (MkFeeder s fed true e).

(** ** [dht.go] *)

(** The client of [dht query]: an answer, or a nil pointer that is looked into.  [WAN],
    [LAN], [WANActive] are the parts of a DHT; [kademlia] says who can find peers. *)
Context `{EqDecision D} (WAN LAN : D -> routing) (WANActive : D -> bool) (kademlia : routing -> bool).

Definition query_client (nd_DHTClient : routing) (nd_DHT : option D) (peer_ok : bool) : outcome (result routing) :=
  match nd_DHTClient with
  | NilRouting => Ret (Err "routing service is not a DHT")
  | _ =>
      if negb peer_ok then Ret (Err "invalid peer ID") else
      let! client := (match nd_DHTClient with
        | IsDHT p =>
            if decide (p = nd_DHT) then
              match nd_DHT with
              | None => Panic "invalid memory address or nil pointer dereference"
              | Some d => Ret (if WANActive d then WAN d else LAN d)
              end
            else Ret nd_DHTClient
        | c => Ret c
        end)%go in
      Ret (if kademlia client then Ok client else Err "dht client does not support GetClosestPeers")
  end%go.
End Routers.
Arguments NilRouting {D C R}.
Arguments IsDHT {D C R}.
Arguments IsFullRT {D C R}.
Arguments IsOther {D C R}.
Arguments MkRouter {D C R}.
Arguments Priority {D C R}.
Arguments r_Routing {D C R}.

(** ** [stat_dht.go] *)

Record dhtPeerInfo := MkPeerInfo { d_ID : string; Connected : bool; d_AgentVersion : string; LastUsefulAt : string; LastQueriedAt : string }.
Record dhtBucket := MkBucket { LastRefresh : string; Peers : list dhtPeerInfo }.

Definition empty_bucket : dhtBucket := MkBucket "" [].

(** A peer goes to the bucket of its common prefix length; the buckets are extended to
    reach it. *)
Definition put_peer (buckets : list dhtBucket) (p : nat * dhtPeerInfo) : list dhtBucket :=
  let '(cpl, info) := p in
  let buckets := if decide (length buckets <= cpl)%nat then buckets ++ replicate (1 + cpl - length buckets) empty_bucket else buckets in
  match buckets !! cpl with
  | Some b => <[cpl := MkBucket (LastRefresh b) (Peers b ++ [info])]> buckets
  | None => buckets
  end.

(** The times of the last refreshes, as text; a time that is zero is none. *)
Fixpoint set_refresh (buckets : list dhtBucket) (lastRefresh : list (option string)) : list dhtBucket :=
  match buckets, lastRefresh with
  | b :: buckets, t :: lastRefresh => MkBucket (default (LastRefresh b) t) (Peers b) :: set_refresh buckets lastRefresh
  | buckets, _ => buckets
  end.

Definition table_stat (infos : list (nat * dhtPeerInfo)) (lastRefresh : list (option string)) : list dhtBucket :=
  set_refresh (foldl put_peer [] infos) lastRefresh.

(** The line of a peer: [since] is the time since one that can be read. *)
Definition peer_line (since : string -> result string) (p : dhtPeerInfo) : result string :=
  match (if String.eqb (LastUsefulAt p) "" then Ok "never" else since (LastUsefulAt p)) with
  | Err e => Err e
  | Ok lastUseful =>
      match (if String.eqb (LastUsefulAt p) "" then Ok "never" else since (LastQueriedAt p)) with
      | Err e => Err e
      | Ok lastQueried => Ok ("  " +:+ (if Connected p then "@" else " ") +:+ " " +:+ d_ID p +:+ " | " +:+ lastUseful +:+ " | " +:+ lastQueried +:+ " | " +:+ d_AgentVersion p)
      end
  end.

(** ** Theorems *)
Section Theorems.
Context {D C R : Type}.
Abbreviation routing := (@routing D C R).

(** A node whose router is no DHT has no DHT, and yet its DHT client is not nil: it is a
    nil pointer of the type of the DHT.  So [dht query] does not answer that there is no
    DHT; it looks into the pointer. *)
Theorem no_dht_query_panics `{EqDecision D} (r : R) exp cfg boot full WAN LAN active kad :
  exists out, BaseRouting exp (IsOther r : routing) cfg boot full = Ok out /\ i_DHT out = None /\ DHTClient out <> NilRouting /\
    query_client WAN LAN active kad (DHTClient out) (i_DHT out) true = Panic "invalid memory address or nil pointer dereference".
Proof. eexists. split_and!; [reflexivity|done|done|]. cbn. by rewrite decide_True. Qed.

(** With a DHT the query asks the part that is active, or the accelerated client. *)
Theorem dht_query_exact `{EqDecision D} (d : D) exp (c : C) out WAN LAN active kad :
  BaseRouting exp (IsDHT (Some d) : routing) None None (Ok c) = Ok out -> (forall x, kad x = true) ->
  query_client WAN LAN active kad (DHTClient out) (i_DHT out) true = Ret (Ok (if exp then IsFullRT c else if active d then WAN d else LAN d)) /\
  IsDHT (Some d) ∈ closed_at_stop out /\ (exp = true -> IsFullRT c ∈ closed_at_stop out).
Proof.
  intros Ho Hk. unfold BaseRouting in Ho. destruct exp; injection Ho as <-; cbn.
  - rewrite Hk. split; [done|]. split; [apply list_elem_of_here|intros _; apply list_elem_of_further, list_elem_of_here].
  - rewrite decide_True by done. cbn. rewrite Hk. split; [done|]. split; [apply list_elem_of_here|done].
Qed.

(** *** Order of the routers *)

Definition router_le (x y : @Router D C R) : Prop := Priority x <= Priority y.

Lemma insert_router_perm (r : @Router D C R) l : insert_router r l ≡ₚ r :: l.
Proof. induction l as [|x l IH]; cbn; [done|]. destruct (Priority r <=? Priority x); [done|]. rewrite IH. by constructor. Qed.

Lemma insert_router_sorted (r : @Router D C R) l : Sorted router_le l -> Sorted router_le (insert_router r l).
Proof.
  induction 1 as [|x l Hs IH Hd]; cbn; [by repeat constructor|]. destruct (Z.leb_spec (Priority r) (Priority x)) as [Hle|Hgt].
  - constructor; [by constructor|]. constructor. exact Hle.
  - constructor; [done|]. inversion Hd as [|y l' Hy]; subst; cbn; [constructor; unfold router_le; lia|]. destruct (Priority r <=? Priority y); constructor; unfold router_le in *; [lia|done].
Qed.

Lemma insert_router_stable (r : @Router D C R) l k : filter (fun x => Priority x = k) (insert_router r l) = filter (fun x => Priority x = k) (r :: l).
Proof.
  induction l as [|x l IH]; [done|]. cbn [insert_router]. destruct (Z.leb_spec (Priority r) (Priority x)) as [Hle|Hgt]; [done|].
  rewrite !filter_cons in *. rewrite IH. destruct (decide (Priority x = k)), (decide (Priority r = k)); try done. lia.
Qed.

(** The routers are asked in the order of their priorities; those of the same priority in
    the order in which they were given; each once, with the same timeout, and none whose
    errors count. *)
Theorem routers_ordered (l : list (@Router D C R)) :
  Routing l = (fun v => MkParallel five_minutes true (r_Routing v)) <$> sort_routers l /\
  sort_routers l ≡ₚ l /\ Sorted router_le (sort_routers l) /\ forall k, filter (fun x => Priority x = k) (sort_routers l) = filter (fun x => Priority x = k) l.
Proof.
  split; [done|]. induction l as [|r l (H1 & H2 & H3)]; [done|]. cbn [sort_routers foldr]. fold (sort_routers l). split_and!.
  - by rewrite insert_router_perm, H1.
  - by apply insert_router_sorted.
  - intros k. rewrite insert_router_stable, !filter_cons. by rewrite H3.
Qed.

(** *** The feeder *)

(** Only peers with an address are fed, every tick feeds all the trusted ones first, and
    after the context is done the goroutine can always end, or go on to where it can. *)
Definition feeder_inv (trusted : list addr_info) (f : feeder) : Prop :=
  Forall (fun p => a_Addrs p <> []) (fed f) /\ match sending f with Some l => Forall (fun p => a_Addrs p <> []) l | None => True end /\ (ended f = true -> ctx_done f = true).

Lemma with_addrs_all l : Forall (fun p => a_Addrs p <> []) (with_addrs l).
Proof. apply Forall_forall. intros p Hp. by apply list_elem_of_filter in Hp as [? _]. Qed.

Theorem feeder_exact trusted f : rtc (feed_step trusted) (MkFeeder None [] false false) f ->
  feeder_inv trusted f /\ (forall dht, with_addrs trusted `prefix_of` tick trusted dht) /\
  (ctx_done f = true -> ended f = false -> exists f', rtc (feed_step trusted) f f' /\ ended f' = true).
Proof.
  intros Hr. split; [|split].
  - revert f Hr. apply rtc_ind_r; [unfold feeder_inv; cbn; by split_and!|]. intros f f' _ Hst (H1 & H2 & H3). unfold feeder_inv. destruct Hst; cbn in *.
    + split_and!; [done| |done]. unfold tick. apply Forall_app. split; [apply with_addrs_all|]. destruct dht as [[l|]|]; [apply with_addrs_all|constructor|constructor].
    + apply Forall_cons in H2 as [Hp H2]. split_and!; [by apply Forall_app_2; [|constructor]|done|done].
    + by split_and!.
    + by split_and!.
    + by split_and!.
  - intros dht. unfold tick. by apply prefix_app_r.
  - intros Hc He. destruct f as [s fed c e]. cbn in *. subst. destruct s as [[|p rest]|].
    + eexists. split; [|shelve]. eapply rtc_l; [apply FNext|]. apply rtc_once. by apply FStop.
      Unshelve. done.
    + eexists. split; [apply rtc_once; by apply FStop|done].
    + eexists. split; [apply rtc_once; by apply FStop|done].
Qed.

(** *** The statistics of the tables *)

(** The peers shown in a bucket; a bucket that is not there has none. *)
Definition peers_at (buckets : list dhtBucket) (i : nat) : list dhtPeerInfo := default [] (Peers <$> buckets !! i).

Lemma peers_at_put buckets cpl info i : peers_at (put_peer buckets (cpl, info)) i = peers_at buckets i ++ (if decide (i = cpl) then [info] else []).
Proof.
  unfold put_peer, peers_at. set (ext := if decide (length buckets <= cpl)%nat then _ else _).
  assert (Hext : forall j, default [] (Peers <$> ext !! j) = default [] (Peers <$> buckets !! j)).
  { intros j. unfold ext. case_decide as Hd; [|done]. destruct (decide (j < length buckets)%nat) as [Hj|Hj]; [by rewrite lookup_app_l|].
    rewrite lookup_app_r by lia. rewrite (lookup_ge_None_2 buckets j) by lia. destruct (replicate _ _ !! _) as [x|] eqn:Hx; [|done]. apply lookup_replicate in Hx as [-> _]. done. }
  assert (Hin : is_Some (ext !! cpl)).
  { apply lookup_lt_is_Some_2. unfold ext. case_decide; [|lia]. rewrite length_app, length_replicate. lia. }
  destruct Hin as [x Hx]. rewrite Hx, <- Hext. destruct (decide (i = cpl)) as [->|Hne].
  - rewrite list_lookup_insert_eq by (by eapply lookup_lt_Some). by rewrite Hx.
  - rewrite list_lookup_insert_ne by done. by rewrite app_nil_r.
Qed.

Lemma peers_at_refresh buckets times i : peers_at (set_refresh buckets times) i = peers_at buckets i.
Proof. revert times i. induction buckets as [|b buckets IH]; intros [|t times] [|i]; try done. cbn. exact (IH times i). Qed.

(** Every peer of a table is shown once, in the bucket of its common prefix length, in the
    order of the table. *)
Theorem table_stat_exact infos lastRefresh i : peers_at (table_stat infos lastRefresh) i = snd <$> filter (fun p => p.1 = i) infos.
Proof.
  unfold table_stat. rewrite peers_at_refresh. change (snd <$> filter (fun p => p.1 = i) infos) with (peers_at [] i ++ (snd <$> filter (fun p => p.1 = i) infos)).
  generalize (@nil dhtBucket). induction infos as [|[cpl info] infos IH]; intros bs; [by rewrite app_nil_r|]. cbn [foldl]. rewrite IH, peers_at_put, <- app_assoc. f_equal.
  rewrite filter_cons. cbn [fst]. destruct (decide (i = cpl)) as [->|Hne]; [by rewrite decide_True|]. by rewrite decide_False by congruence.
Qed.

(** A peer that was useful and has never been queried cannot be shown: its line looks at
    the wrong time, and the text of the table ends there; one that was queried and was not
    useful is shown as never queried. *)
Theorem last_queried_mixed_up since p : 
  (LastUsefulAt p <> "" -> LastQueriedAt p = "" -> (forall e, since "" = Err e -> exists e', peer_line since p = Err e') ) /\
  (LastUsefulAt p = "" -> forall q, peer_line since p = peer_line since (MkPeerInfo (d_ID p) (Connected p) (d_AgentVersion p) "" q)).
Proof.
  unfold peer_line. split.
  - intros Hu Hq e He. rewrite (proj2 (String.eqb_neq _ _) Hu), Hq, He. destruct (since (LastUsefulAt p)); by eexists.
  - intros Hu q. cbn. by rewrite Hu.
Qed.
End Theorems.

(** ** The hypotheses are met *)
Module DemoNodeRouting.
Definition out : initial_out (D := nat) (C := nat) (R := nat) := MkInitial (MkRouter (IsDHT (Some 1%nat)) 1000) (IsDHT (Some 1%nat)) (Some 1%nat) (IsDHT (Some 1%nat)) [IsDHT (Some 1%nat)].
Lemma dht_query_exact_witness : query_client (C := nat) (R := nat) (fun _ => IsOther 7%nat) (fun _ => IsOther 8%nat) (fun _ => false) (fun _ => true) (DHTClient out) (i_DHT out) true = Ret (Ok (IsOther 8%nat)).
Proof. apply (dht_query_exact 1%nat false 2%nat out (fun _ => IsOther 7%nat) (fun _ => IsOther 8%nat) (fun _ => false) (fun _ => true)); reflexivity. Defined.

Definition peers : list addr_info := [MkInfo "a" ["/ip4/1.2.3.4"]; MkInfo "b" []].
Definition stopped : feeder := MkFeeder (Some [MkInfo "a" ["/ip4/1.2.3.4"]]) [] true false.
Lemma stopped_run : rtc (feed_step peers) (MkFeeder None [] false false) stopped.
Proof. eapply rtc_l; [apply (FTick _ None)|]. apply rtc_once. apply FCancel. Qed.
Lemma feeder_exact_witness : feeder_inv peers stopped /\ exists f', rtc (feed_step peers) stopped f' /\ ended f' = true.
Proof. destruct (feeder_exact peers stopped stopped_run) as (H1 & _ & H2). split; [exact H1|by apply H2]. Defined.

Lemma last_queried_mixed_up_witness : exists e, peer_line (fun _ => Err "parsing time") (MkPeerInfo "p" true "kubo" "2022-11-09T00:00:00Z" "") = Err e.
Proof. by apply (proj1 (last_queried_mixed_up (fun _ => Err "parsing time") (MkPeerInfo "p" true "kubo" "2022-11-09T00:00:00Z" "")) ltac:(done) eq_refl "parsing time"). Defined.
End DemoNodeRouting.
