(* ===== verification/NodeGroups.v ===== *)
(** How a node is put together: [core/node/groups.go], [builder.go], [provider.go] and the
    constructors of [core/node].

    The fx library is given constructors; it calls those it needs to invoke what is to be
    invoked and to fill the fields of the node, each once.  Here a constructor is its name
    with those of its arguments that [config] keeps (sections of the configuration that
    are only passed on are left out), [provides] and [requires] its signature in the
    source, numbers as [TInt]; values of groups may have several providers or none. *)
From Stdlib Require Import ZArith Lia String.
From stdpp Require Import base strings list.
From S2P Require Import Prelude GoStrings ConfigTypes.

Local Open Scope Z_scope.
Local Open Scope go_scope.

(** ** Types of the container *)

Inductive ty :=
| TRepo | TMetricsCtx | THostOption | TRoutingOption | TProcess | TConfig | TDatastore | TBaseBlocks | TGCLocker | TGCBlockstore | TBlockstore | TFilestore
| TPeerID | TPrivKey | TPeerstore | TValidator | TExchange | TDNSResolver | TNamesys | TPeering | TP2P | TBlockService | TDAG | TIPLDFetcher | TUnixFSFetcher
| TPinner | TFilesRoot | TProvideMany | TContentRouting | TInitialRouting | TDHT | TDHTClient | TPSRouter | TPubSub | TDiscovery | THost | TFilters
| TResourceManager | TReporter | TDiscoveryHandler | TPNetFingerprint | TQueue | TProvider | TReprovider | TKeyChan | TSystem | TGraphExchange | TBoxServer
| TConnMgrFunc | TInt
| GLibp2p | GRouters | GContentRouters | GBitswap.
#[export] Instance ty_eq : EqDecision ty.
Proof. solve_decision. Defined.

Definition is_group (t : ty) : bool := match t with GLibp2p | GRouters | GContentRouters | GBitswap => true | _ => false end.

(** ** Constructors *)

Inductive ctor :=
| RepoCtor | HostOptionCtor | RoutingOptionCtor | MetricsCtor | baseProcess
| RepoConfig | Datastore | BaseBlockstoreCtor (bloom : Z) (nilRepo hashOnRead : bool) | GcBlockstoreCtor | FilestoreBlockstoreCtor
| PeerID (id : string) | PrivateKey (sk : string) | Peerstore | PstoreAddSelfKeys | RecordValidator
| BitswapOptions (provide : bool) | OnlineExchange | Graphsync | DNSResolver | Namesys (cacheSize : Z) | Peering | PeerWith (peers : list string)
| IpnsRepublisher (period lifetime : Z) | NewP2P | NewService
| UserAgent | PNet | ConnectionManagerFn | Host | MultiaddrResolver | DiscoveryHandler | PNetChecker
| ConnectionManager (low high grace : Z) | TopicDiscovery | GossipSub (sign : bool) | FloodSub (sign : bool) | AutoNATService
| ResourceManager | AddrFilters | AddrsFactory | SmuxTransport | RelayTransport (enable : bool) | RelayService (enable : bool) | Transports | StartListening
| SetupDiscovery | ForceReachability | HolePunching (hasRelayClient : bool) | Security (encrypted : bool) | Routing | ContentRouting | BaseRouting (accelerated : bool)
| PubsubRouter | BandwidthCounter | NatPortMap | AutoRelay (static : list string) | autoRelayFeeder
| NewOfflineProvider | ProviderQueue | SimpleProvider | NewBlockstoreProvider | PinnedProvider (onlyRoots : bool) | SimpleReprovider (interval : Z)
| SimpleProviderSys (online : bool) | BatchedProviderSys (online : bool) (interval : string)
| OfflineExchange | OfflineRouting
| BlockService | Dag | FetcherConfig | Pinning | Files.

Definition provides (c : ctor) : list ty :=
  match c with
  | RepoCtor => [TRepo] | HostOptionCtor => [THostOption] | RoutingOptionCtor => [TRoutingOption] | MetricsCtor => [TMetricsCtx] | baseProcess => [TProcess]
  | RepoConfig => [TConfig] | Datastore => [TDatastore] | BaseBlockstoreCtor _ _ _ => [TBaseBlocks]
  | GcBlockstoreCtor => [TGCLocker; TGCBlockstore; TBlockstore] | FilestoreBlockstoreCtor => [TGCLocker; TGCBlockstore; TBlockstore; TFilestore]
  | PeerID _ => [TPeerID] | PrivateKey _ => [TPrivKey] | Peerstore => [TPeerstore] | RecordValidator => [TValidator]
  | BitswapOptions _ => [GBitswap] | OnlineExchange | OfflineExchange => [TExchange] | Graphsync => [TGraphExchange] | DNSResolver => [TDNSResolver]
  | Namesys _ => [TNamesys] | Peering => [TPeering] | NewP2P => [TP2P] | NewService => [TBoxServer]
  | UserAgent | MultiaddrResolver | ConnectionManager _ _ _ | AutoNATService | AddrsFactory | SmuxTransport | RelayTransport _ | RelayService _ | Transports
  | ForceReachability | HolePunching _ | Security _ | NatPortMap | AutoRelay _ => [GLibp2p]
  | PNet => [GLibp2p; TPNetFingerprint] | ConnectionManagerFn => [TConnMgrFunc] | Host => [THost; TInitialRouting] | DiscoveryHandler => [TDiscoveryHandler]
  | TopicDiscovery => [TDiscovery] | GossipSub _ | FloodSub _ => [TPubSub] | ResourceManager => [TResourceManager; GLibp2p] | AddrFilters => [TFilters; GLibp2p]
  | Routing => [TProvideMany] | ContentRouting => [TContentRouting] | BaseRouting _ => [GRouters; GContentRouters; TDHT; TDHTClient]
  | PubsubRouter => [GRouters; TPSRouter] | BandwidthCounter => [GLibp2p; TReporter]
  | NewOfflineProvider | SimpleProviderSys _ | BatchedProviderSys _ _ => [TSystem] | ProviderQueue => [TQueue] | SimpleProvider => [TProvider]
  | NewBlockstoreProvider | PinnedProvider _ => [TKeyChan] | SimpleReprovider _ => [TReprovider] | OfflineRouting => [GRouters]
  | BlockService => [TBlockService] | Dag => [TDAG] | FetcherConfig => [TIPLDFetcher; TUnixFSFetcher] | Pinning => [TPinner] | Files => [TFilesRoot]
  | PstoreAddSelfKeys | PeerWith _ | IpnsRepublisher _ _ | PNetChecker | StartListening | SetupDiscovery | autoRelayFeeder => []
  end.

(** Optional parameters apart. *)
Definition requires (c : ctor) : list ty :=
  match c with
  | RepoCtor | HostOptionCtor | RoutingOptionCtor | MetricsCtor | baseProcess | PeerID _ | Peerstore | BitswapOptions _ | UserAgent | ConnectionManager _ _ _
  | AutoNATService | AddrFilters | AddrsFactory | SmuxTransport | RelayTransport _ | RelayService _ | Transports | ForceReachability | HolePunching _ | Security _
  | BandwidthCounter | NatPortMap | AutoRelay _ | NewOfflineProvider => []
  | RepoConfig | Datastore | PNet => [TRepo] | BaseBlockstoreCtor _ _ _ => [TMetricsCtx; TRepo] | GcBlockstoreCtor => [TBaseBlocks] | FilestoreBlockstoreCtor => [TRepo; TBaseBlocks]
  | PrivateKey _ => [TPeerID] | PstoreAddSelfKeys => [TPeerID; TPrivKey; TPeerstore] | RecordValidator => [TPeerstore]
  | OnlineExchange => [TMetricsCtx; THost; TProvideMany; TGCBlockstore; GBitswap] | Graphsync => [TMetricsCtx; THost; TGCBlockstore] | DNSResolver => [TConfig]
  | Namesys _ => [TProvideMany; TDNSResolver; TRepo] | Peering => [THost] | PeerWith _ => [TPeering] | IpnsRepublisher _ _ => [TProcess; TNamesys; TRepo; TPrivKey]
  | NewP2P => [TPeerID; THost; TPeerstore] | NewService => [THost; TConfig]
  | ConnectionManagerFn => [TInt] | Host => [TMetricsCtx; TRepo; TValidator; THostOption; TRoutingOption; TPeerID; TPeerstore; GLibp2p] | MultiaddrResolver => [TDNSResolver]
  | DiscoveryHandler => [TMetricsCtx; THost] | PNetChecker => [TRepo; THost] | TopicDiscovery => [THost; TContentRouting]
  | GossipSub _ | FloodSub _ => [TMetricsCtx; THost; TDiscovery] | ResourceManager => [TMetricsCtx; TRepo] | StartListening => [THost]
  | SetupDiscovery => [TMetricsCtx; THost; TDiscoveryHandler] | Routing => [GRouters; TValidator] | ContentRouting => [GContentRouters]
  | BaseRouting _ => [TInitialRouting; THost; TRepo; TValidator] | PubsubRouter => [TMetricsCtx; TValidator; THost] | autoRelayFeeder => [THost; TDHT]
  | ProviderQueue => [TMetricsCtx; TRepo] | SimpleProvider => [TMetricsCtx; TQueue; TProvideMany] | NewBlockstoreProvider => [TBlockstore]
  | PinnedProvider _ => [TPinner; TIPLDFetcher] | SimpleReprovider _ => [TMetricsCtx; TProvideMany; TKeyChan] | SimpleProviderSys _ => [TProvider; TReprovider]
  | BatchedProviderSys _ _ => [TProvideMany; TQueue; TKeyChan; TRepo] | OfflineExchange => [TBlockstore] | OfflineRouting => [TDatastore; TValidator]
  | BlockService => [TBlockstore; TExchange] | Dag | FetcherConfig => [TBlockService] | Pinning => [TBlockstore; TDAG; TRepo] | Files => [TMetricsCtx; TRepo; TDAG]
  end.

(** Options of the application. *)
Inductive fxopt := Provide (c : ctor) | Invoke (c : ctor) | FxError (e : error).

Definition maybeProvide (c : ctor) (enable : bool) : list fxopt := if enable then [Provide c] else [].

(** ** The configuration *)

(** What of the configuration decides; optional values are already replaced by their
    defaults where the source does nothing else with them. *)
Record config := MkCfg {
  connMgrType : string; connMgrLow : Z; connMgrHigh : Z; connMgrGrace : Z;
  pubsub_Router : string; DisableSigning : bool; autonat_ServiceMode : Z;
  f_Relay : Z; f_RelayService : Z; f_RelayClient : Z; StaticRelays : list string;
  DisableRelay : bool; EnableAutoRelay : bool; EnableRelayHop : bool;
  AcceleratedDHTClient : bool; DisableBandwidthMetrics : bool; DisableNatPortMap : bool;
  BloomFilterSize : Z; HashOnRead : bool; FilestoreEnabled : bool; UrlstoreEnabled : bool;
  id_PeerID : string; id_PrivKey : string;
  ResolveCacheSize : Z; RepublishPeriod : string; RecordLifetime : string;
  StrategicProviding : bool; GraphsyncEnabled : bool; PeeringPeers : list string;
  rp_Strategy : string; rp_Interval : string;
  ShardingSizeThreshold : string; ShardingEnabled : bool }.

(** [BuildCfg]; [Repo]: what [Config] of the repository answers, if there is a
    repository. *)
Record BuildCfg := MkBuild { Online_ : bool; opt_pubsub : bool; opt_ipnsps : bool; Permanent : bool; DisableEncryptedConnections : bool; NilRepo : bool;
  Repo : option (result config) }.

Section Groups.
(** How an error quotes a string and writes a duration; [ParseDuration],
    [humanize.ParseBytes], [peer.Decode], [DecodePrivateKey]; the configuration of a
    repository made for the node; whether [util.Debug] is set. *)
Context (quote : string -> string) (Duration_String : Z -> string)
  (ParseDuration : string -> result Z) (ParseBytes : string -> result Z) (peer_Decode : string -> result string) (DecodePrivateKey : string -> result string)
  (defaultRepo : result config) (Debug : bool).

Definition minute : Z := 60000000000.
Definition hour : Z := 60 * minute.
Definition DefaultIpnsCacheSize : Z := 128.

(** ** [provider.go] *)

Definition kReprovideFrequency : Z := 12 * hour.

Definition SimpleProviders (reprovideStrategy reprovideInterval : string) : list fxopt :=
  match (if String.eqb reprovideInterval "" then Ok kReprovideFrequency else ParseDuration reprovideInterval) with
  | Err e => [FxError e]
  | Ok interval =>
      match (if String.eqb reprovideStrategy "all" || String.eqb reprovideStrategy "" then Some NewBlockstoreProvider
             else if String.eqb reprovideStrategy "roots" then Some (PinnedProvider true)
             else if String.eqb reprovideStrategy "pinned" then Some (PinnedProvider false) else None) with
      | None => [FxError ("unknown reprovider strategy '" +:+ reprovideStrategy +:+ "'")]
      | Some keyProvider => [Provide ProviderQueue; Provide SimpleProvider; Provide keyProvider; Provide (SimpleReprovider interval)]
      end
  end.

Definition OnlineProviders (useStrategicProviding useBatchedProviding : bool) (strategy interval : string) : list fxopt :=
  if useStrategicProviding then [Provide NewOfflineProvider] else
  SimpleProviders strategy interval ++ maybeProvide (SimpleProviderSys true) (negb useBatchedProviding) ++ maybeProvide (BatchedProviderSys true interval) useBatchedProviding.

Definition OfflineProviders (useStrategicProviding useBatchedProviding : bool) (strategy interval : string) : list fxopt :=
  if useStrategicProviding then [Provide NewOfflineProvider] else
  SimpleProviders strategy interval ++ maybeProvide (SimpleProviderSys false) true.

(** ** [groups.go] *)

Definition BaseLibP2P : list fxopt :=
  [Provide UserAgent; Provide PNet; Provide ConnectionManagerFn; Provide Host; Provide MultiaddrResolver; Provide DiscoveryHandler; Invoke PNetChecker].

Definition connmgr (cfg : config) : result (list fxopt) :=
  if String.eqb (connMgrType cfg) "none" then Ok []
  else if String.eqb (connMgrType cfg) "" || String.eqb (connMgrType cfg) "basic" then Ok [Provide (ConnectionManager (connMgrLow cfg) (connMgrHigh cfg) (connMgrGrace cfg))]
  else Err ("unrecognized Swarm.ConnMgr.Type: " +:+ quote (connMgrType cfg)).

(** The pubsub service and the discovery of topics. *)
Definition pubsub (bcfg : BuildCfg) (cfg : config) : result (list fxopt) :=
  if opt_pubsub bcfg || opt_ipnsps bcfg then
    let sign := negb (DisableSigning cfg) in
    if String.eqb (pubsub_Router cfg) "" || String.eqb (pubsub_Router cfg) "gossipsub" then Ok [Provide (GossipSub sign); Provide TopicDiscovery]
    else if String.eqb (pubsub_Router cfg) "floodsub" then Ok [Provide (FloodSub sign); Provide TopicDiscovery]
    else Err ("unknown pubsub router " +:+ pubsub_Router cfg)
  else Ok [].

(** Unset and enabled, disabled; the others cannot be read from a configuration. *)
Definition autonat (cfg : config) : outcome (list fxopt) :=
  if (autonat_ServiceMode cfg =? 0) || (autonat_ServiceMode cfg =? 1) then Ret [Provide AutoNATService]
  else if autonat_ServiceMode cfg =? 2 then Ret []
  else Panic "BUG: unhandled autonat service mode".

(** [MaybeAutoRelay]. *)
Definition MaybeAutoRelay (cfg : config) (enabled : bool) : list fxopt :=
  if negb enabled then [] else
  match StaticRelays cfg with
  | _ :: _ => [Provide (AutoRelay (StaticRelays cfg))]
  | [] => [Provide (AutoRelay []); Invoke autoRelayFeeder]
  end.

(** The options without the connection manager, pubsub, AutoNAT and relays. *)
Definition libp2p_options (bcfg : BuildCfg) (cfg : config) (relayTransport relayService relayClient : bool) : list fxopt :=
  BaseLibP2P ++
  [Provide ResourceManager; Provide AddrFilters; Provide AddrsFactory; Provide SmuxTransport; Provide (RelayTransport relayTransport); Provide (RelayService relayService);
   Provide Transports; Invoke StartListening; Invoke SetupDiscovery; Provide ForceReachability; Provide (HolePunching relayClient);
   Provide (Security (negb (DisableEncryptedConnections bcfg))); Provide Routing; Provide ContentRouting; Provide (BaseRouting (AcceleratedDHTClient cfg))] ++
  maybeProvide PubsubRouter (opt_ipnsps bcfg) ++ maybeProvide BandwidthCounter (negb (DisableBandwidthMetrics cfg)) ++ maybeProvide NatPortMap (negb (DisableNatPortMap cfg)).

(** [logger.Fatal] ends the process. *)
Definition fatal_unless (ok : bool) (msg : string) : outcome unit := if ok then Ret tt else Panic msg.

Definition LibP2P (bcfg : BuildCfg) (cfg : config) : outcome (list fxopt) :=
  match connmgr cfg with
  | Err e => Ret [FxError e]
  | Ok connmgr =>
      match pubsub bcfg cfg with
      | Err e => Ret [FxError e]
      | Ok ps =>
          let! autonat := autonat cfg in
          let! relayTransport := Flag_WithDefault (f_Relay cfg) true in
          let! relayService := Flag_WithDefault (f_RelayService cfg) relayTransport in
          let! relayClient := Flag_WithDefault (f_RelayClient cfg) relayTransport in
          let! _ := fatal_unless (relayTransport || negb relayService) "Failed to enable `Swarm.RelayService`, it requires `Swarm.Transports.Network.Relay` to be true." in
          let! _ := fatal_unless (relayTransport || negb relayClient) "Failed to enable `Swarm.RelayClient`, it requires `Swarm.Transports.Network.Relay` to be true." in
          let! _ := fatal_unless (negb (DisableRelay cfg)) "The 'Swarm.DisableRelay' config field was removed.Use the 'Swarm.Transports.Network.Relay' instead." in
          let! _ := fatal_unless (negb (EnableAutoRelay cfg)) "The 'Swarm.EnableAutoRelay' config field was removed.Use the 'Swarm.RelayClient.Enabled' instead." in
          let! _ := fatal_unless (negb (EnableRelayHop cfg)) "The `Swarm.EnableRelayHop` config field was removed." in
          Ret (libp2p_options bcfg cfg relayTransport relayService relayClient ++ MaybeAutoRelay cfg relayClient ++ autonat ++ connmgr ++ ps)
      end
  end.

Definition Storage (bcfg : BuildCfg) (cfg : config) : list fxopt :=
  [Provide RepoConfig; Provide Datastore; Provide (BaseBlockstoreCtor (if Permanent bcfg then BloomFilterSize cfg else 0) (NilRepo bcfg) (HashOnRead cfg));
   if FilestoreEnabled cfg || UrlstoreEnabled cfg then Provide FilestoreBlockstoreCtor else Provide GcBlockstoreCtor].

Definition Identity (cfg : config) : list fxopt :=
  if String.eqb (id_PeerID cfg) "" then [FxError "identity was not set in config (was 'ipfs init' run?)"] else
  match peer_Decode (id_PeerID cfg) with
  | Err e => [FxError ("peer ID invalid: " +:+ e)]
  | Ok id =>
      if String.eqb (id_PrivKey cfg) "" then [Provide (PeerID id); Provide Peerstore] else
      match DecodePrivateKey (id_PrivKey cfg) with
      | Err e => [FxError e]
      | Ok sk => [Provide (PeerID id); Provide (PrivateKey sk); Provide Peerstore; Invoke PstoreAddSelfKeys]
      end
  end.

(** The period of republishing; no value leaves the default. *)
Definition republish_period (cfg : config) : result Z :=
  if String.eqb (RepublishPeriod cfg) "" then Ok 0 else
  match ParseDuration (RepublishPeriod cfg) with
  | Err e => Err ("failure to parse config setting IPNS.RepublishPeriod: " +:+ e)
  | Ok d => if negb Debug && ((d <? minute) || (24 * hour <? d)) then Err ("config setting IPNS.RepublishPeriod is not between 1min and 1day: " +:+ Duration_String d) else Ok d
  end.
Definition record_lifetime (cfg : config) : result Z :=
  if String.eqb (RecordLifetime cfg) "" then Ok 0 else
  match ParseDuration (RecordLifetime cfg) with Err e => Err ("failure to parse config setting IPNS.RecordLifetime: " +:+ e) | Ok d => Ok d end.

Definition Online (bcfg : BuildCfg) (cfg : config) : outcome (list fxopt) :=
  let ipnsCacheSize := if ResolveCacheSize cfg =? 0 then DefaultIpnsCacheSize else ResolveCacheSize cfg in
  if ipnsCacheSize <? 0 then Ret [FxError "cannot specify negative resolve cache size"] else
  match republish_period cfg with
  | Err e => Ret [FxError e]
  | Ok repubPeriod =>
      match record_lifetime cfg with
      | Err e => Ret [FxError e]
      | Ok recordLifetime =>
          let! libp2p := LibP2P bcfg cfg in
          Ret ([Provide (BitswapOptions (negb (StrategicProviding cfg))); Provide OnlineExchange] ++ maybeProvide Graphsync (GraphsyncEnabled cfg) ++
               [Provide DNSResolver; Provide (Namesys ipnsCacheSize); Provide Peering; Invoke (PeerWith (PeeringPeers cfg)); Invoke (IpnsRepublisher repubPeriod recordLifetime); Provide NewP2P] ++
               libp2p ++ OnlineProviders (StrategicProviding cfg) (AcceleratedDHTClient cfg) (rp_Strategy cfg) (rp_Interval cfg) ++ [Provide NewService])
      end
  end.

Definition Offline (cfg : config) : list fxopt :=
  [Provide OfflineExchange; Provide DNSResolver; Provide (Namesys 0); Provide Routing; Provide ContentRouting; Provide OfflineRouting] ++
  OfflineProviders (StrategicProviding cfg) (AcceleratedDHTClient cfg) (rp_Strategy cfg) (rp_Interval cfg).

Definition Core : list fxopt := [Provide BlockService; Provide Dag; Provide FetcherConfig; Provide Pinning; Provide Files].

Definition Networked (bcfg : BuildCfg) (cfg : config) : outcome (list fxopt) := if Online_ bcfg then Online bcfg cfg else Ret (Offline cfg).

(** ** [builder.go] *)

Definition fillDefaults (bcfg : BuildCfg) : result (result config) :=
  match Repo bcfg with
  | Some r => if NilRepo bcfg then Err "cannot set a Repo and specify nilrepo at the same time" else Ok r
  | None => match defaultRepo with Err e => Err e | Ok c => Ok (Ok c) end
  end.

(** The options and the configuration; without one the options are an error. *)
Definition options (bcfg : BuildCfg) : list fxopt * option config :=
  match fillDefaults bcfg with
  | Err e => ([FxError e], None)
  | Ok (Err e) => ([FxError e], None)
  | Ok (Ok conf) => ([Provide RepoCtor; Provide HostOptionCtor; Provide RoutingOptionCtor; Provide MetricsCtor], Some conf)
  end.

Definition IPFS (bcfg : BuildCfg) : outcome (list fxopt) :=
  match options bcfg with
  | (bcfgOpts, None) => Ret bcfgOpts
  | (bcfgOpts, Some cfg) =>
      match ParseBytes (ShardingSizeThreshold cfg) with
      | Err e => Ret [FxError e]
      | Ok _ =>
          let! _ := fatal_unless (negb (ShardingEnabled cfg)) "The `Experimental.ShardingEnabled` field is no longer used, please remove it from the config." in
          let! networked := Networked bcfg cfg in
          Ret (bcfgOpts ++ [Provide baseProcess] ++ Storage bcfg cfg ++ Identity cfg ++ [Provide RecordValidator] ++ networked ++ Core)
      end
  end.
End Groups.

(** The fields of the node that must be filled. *)
Definition node_fields : list ty :=
  [TPeerID; TRepo; TPinner; TGCBlockstore; TBaseBlocks; TGCLocker; TBlockService; TDAG; TIPLDFetcher; TUnixFSFetcher; TFilesRoot; TValidator; TDNSResolver; TExchange; TNamesys; TSystem; TProcess].
(** Those that are filled when there is a constructor. *)
Definition node_optional : list ty :=
  [TPrivKey; TPNetFingerprint; TPeerstore; TFilestore; TReporter; THost; TPeering; TFilters; TProvideMany; TGraphExchange; TResourceManager; TPubSub; TPSRouter; TDHT; TDHTClient; TP2P; TBoxServer].

(** ** What the application does with its options *)

Definition provided (opts : list fxopt) : list ty := flat_map (fun o => match o with Provide c => provides c | _ => [] end) opts.
Definition unique_types (opts : list fxopt) : list ty := filter (fun t => is_group t = false) (provided opts).

(** Parameters that may be left out. *)
Definition optional (c : ctor) : list ty := match c with Transports => [TPNetFingerprint] | PubsubRouter => [TPubSub] | _ => [] end.

(** The types that are asked for: by the fields of the node, by what is invoked, and by
    the constructors of types that are. *)
Inductive needed (opts : list fxopt) : ty -> Prop :=
| NeedField t : t ∈ node_fields -> needed opts t
| NeedOptional t : t ∈ node_optional -> t ∈ provided opts -> needed opts t
| NeedInvoke c t : Invoke c ∈ opts -> t ∈ requires c -> needed opts t
| NeedCtor c u t : Provide c ∈ opts -> u ∈ provides c -> needed opts u -> t ∈ requires c \/ (t ∈ optional c /\ t ∈ provided opts) -> needed opts t.

(** A rank for each type: what a constructor takes is below what it gives. *)
Definition rank (t : ty) : nat :=
  match t with
  | TRepo | TMetricsCtx | THostOption | TRoutingOption | TProcess | TPeerID | TPeerstore | TInt | GBitswap | TFilters | TReporter => 0
  | TConfig | TDatastore | TBaseBlocks | TPrivKey | TValidator | TConnMgrFunc | TQueue | TResourceManager | TPNetFingerprint => 1
  | TDNSResolver | TGCLocker | TGCBlockstore | TBlockstore | TFilestore => 2
  | GLibp2p => 3
  | THost | TInitialRouting => 4
  | TDHT | TDHTClient | GContentRouters | TP2P | TPeering | TDiscoveryHandler | TBoxServer | TGraphExchange => 5
  | TContentRouting => 6 | TDiscovery => 7 | TPubSub => 8 | GRouters | TPSRouter => 9 | TProvideMany => 10
  | TExchange | TNamesys | TProvider => 11
  | TBlockService => 12 | TDAG | TIPLDFetcher | TUnixFSFetcher => 13 | TPinner | TFilesRoot => 14 | TKeyChan => 15 | TReprovider => 16 | TSystem => 17
  end%nat.

(** ** Theorems *)

(** No constructor can take, directly or through others, what it gives. *)
Theorem wiring_acyclic c t u : t ∈ requires c ++ optional c -> u ∈ provides c -> (rank t < rank u)%nat.
Proof.
  intros Ht Hu.
  assert (Hb : forallb (fun t => forallb (fun u => (rank t <? rank u)%nat) (provides c)) (requires c ++ optional c) = true) by (destruct c; reflexivity).
  rewrite forallb_forall in Hb. specialize (Hb t (proj1 (list_elem_of_In _ _) Ht)). rewrite forallb_forall in Hb.
  specialize (Hb u (proj1 (list_elem_of_In _ _) Hu)). by apply Nat.ltb_lt.
Qed.

(** Constructors without their arguments. *)
Definition erase (c : ctor) : ctor :=
  match c with
  | BaseBlockstoreCtor _ _ _ => BaseBlockstoreCtor 0 false false | PeerID _ => PeerID "" | PrivateKey _ => PrivateKey "" | BitswapOptions _ => BitswapOptions false
  | Namesys _ => Namesys 0 | PeerWith _ => PeerWith [] | IpnsRepublisher _ _ => IpnsRepublisher 0 0 | ConnectionManager _ _ _ => ConnectionManager 0 0 0
  | GossipSub _ | FloodSub _ => GossipSub false | RelayTransport _ => RelayTransport false | RelayService _ => RelayService false
  | HolePunching _ => HolePunching false | Security _ => Security false | BaseRouting _ => BaseRouting false | AutoRelay _ => AutoRelay []
  | PinnedProvider _ => PinnedProvider false | SimpleReprovider _ => SimpleReprovider 0 | SimpleProviderSys _ => SimpleProviderSys false
  | BatchedProviderSys _ _ => BatchedProviderSys false "" | c => c
  end.
Definition erase_opt (o : fxopt) : fxopt := match o with Provide c => Provide (erase c) | Invoke c => Invoke (erase c) | FxError e => FxError e end.

Lemma erase_same c : provides (erase c) = provides c /\ requires (erase c) = requires c /\ optional (erase c) = optional c.
Proof. by destruct c. Qed.

Lemma provided_erase opts : provided (erase_opt <$> opts) = provided opts.
Proof. induction opts as [|[c|c|e] opts IH]; cbn; unfold provided in *; rewrite ?IH; [done| |done|done]. by rewrite (proj1 (erase_same c)). Qed.

(** Every type but those of groups has one constructor, and what is needed is provided. *)
Definition wired (opts : list fxopt) : Prop := NoDup (unique_types opts) /\ forall t, needed opts t -> is_group t = true \/ t ∈ provided opts.

Definition given (l : list ty) (t : ty) : bool := is_group t || existsb (fun u => bool_decide (u = t)) l.
Definition usable (t : ty) : bool := negb (bool_decide (t = TConnMgrFunc)).
Definition check_opt (l : list ty) (o : fxopt) : bool :=
  match o with
  | Provide ConnectionManagerFn => true
  | Provide c | Invoke c => forallb (fun t => given l t && usable t) (requires c)
  | FxError _ => false
  end.
Definition check_wired (opts : list fxopt) : bool :=
  let l := unique_types opts in
  bool_decide (NoDup l) && forallb (given l) node_fields && forallb (check_opt l) opts.

Lemma given_spec opts t : given (unique_types opts) t = true -> is_group t = true \/ t ∈ provided opts.
Proof.
  unfold given. destruct (is_group t); [by left|]. cbn. intros (u & Hu & He)%existsb_exists. apply bool_decide_eq_true in He as ->. right.
  apply list_elem_of_In in Hu. by apply list_elem_of_filter in Hu as [_ Hu].
Qed.

Lemma check_wired_sound opts : check_wired opts = true -> wired opts.
Proof.
  unfold check_wired. rewrite !Bool.andb_true_iff. intros [[Hd Hf] Ho]. rewrite forallb_forall in Hf, Ho. apply bool_decide_eq_true in Hd. split; [done|].
  assert (Hreq : forall o c t, o ∈ opts -> o = Provide c /\ c <> ConnectionManagerFn \/ o = Invoke c -> t ∈ requires c ->
    (is_group t = true \/ t ∈ provided opts) /\ usable t = true).
  { intros o c t Hin Hc Ht. specialize (Ho o (proj1 (list_elem_of_In _ _) Hin)).
    assert (Hb : forallb (fun t => given (unique_types opts) t && usable t) (requires c) = true) by (destruct Hc as [[-> Hne]| ->]; [by destruct c|exact Ho]).
    rewrite forallb_forall in Hb. specialize (Hb t (proj1 (list_elem_of_In _ _) Ht)). apply Bool.andb_true_iff in Hb as [Hg Hu]. split; [by apply given_spec|done]. }
  assert (Hn : forall t, needed opts t -> (is_group t = true \/ t ∈ provided opts) /\ usable t = true); [|intros t Ht; by apply Hn].
  induction 1 as [t Ht|t Ht Hp|c t Hin Ht|c u t Hin Hu _ [_ IH] [Ht|[Ht Hp]]].
  - split; [apply given_spec, Hf; by apply list_elem_of_In|]. clear -Ht. by repeat (apply elem_of_cons in Ht as [->|Ht]; [done|]); apply elem_of_nil in Ht.
  - split; [by right|]. clear -Ht. by repeat (apply elem_of_cons in Ht as [->|Ht]; [done|]); apply elem_of_nil in Ht.
  - by apply (Hreq _ _ _ Hin (or_intror eq_refl)).
  - apply (Hreq (Provide c) c t Hin); [|done]. left. split; [done|]. intros ->. cbn in Hu. apply list_elem_of_singleton in Hu as ->. done.
  - split; [by right|]. destruct c; cbn in Ht; try (by apply elem_of_nil in Ht); by apply list_elem_of_singleton in Ht as ->.
Qed.

(** Constructors that only add an option of libp2p, and take nothing. *)
Definition plain (o : fxopt) : bool :=
  match o with
  | Provide c => bool_decide (provides c = [GLibp2p]) && bool_decide (requires c = []) && bool_decide (optional c = [])
  | _ => false
  end.
Definition strip (opts : list fxopt) : list fxopt := filter (fun o => plain o = false) (erase_opt <$> opts).

Lemma unique_strip opts : unique_types (strip opts) = unique_types opts.
Proof.
  induction opts as [|o opts IH]; [done|]. unfold strip in *. rewrite fmap_cons. destruct (plain (erase_opt o)) eqn:Hp.
  - rewrite filter_cons_False by (by rewrite Hp). rewrite IH. destruct o as [c|c|e]; [|done|done]. revert Hp. by destruct c.
  - rewrite filter_cons_True by done. destruct o as [c|c|e]; [|exact IH|exact IH].
    unfold unique_types, provided in *. cbn. rewrite !filter_app, IH. by rewrite (proj1 (erase_same c)).
Qed.

Lemma check_strip opts : check_wired (strip opts) = check_wired opts.
Proof.
  unfold check_wired. rewrite unique_strip. f_equal. generalize (unique_types opts). intros l. induction opts as [|o opts IH]; [done|].
  unfold strip in *. rewrite fmap_cons. destruct (plain (erase_opt o)) eqn:Hp.
  - rewrite filter_cons_False by (by rewrite Hp). rewrite IH. destruct o as [c|c|e]; [|done|done]. revert Hp. by destruct c.
  - rewrite filter_cons_True by done. cbn. rewrite IH. f_equal. by destruct o as [[]|[]|].
Qed.

(** All the ways of choosing one alternative of each block. *)
Fixpoint combos (blocks : list (list (list fxopt))) : list (list fxopt) :=
  match blocks with [] => [[]] | alts :: blocks => alts ≫= (fun l => app l <$> combos blocks) end.

Lemma combos_in alts blocks l rest : l ∈ alts -> rest ∈ combos blocks -> l ++ rest ∈ combos (alts :: blocks).
Proof. intros Hl Hr. cbn. apply list_elem_of_bind. exists l. split; [by apply list_elem_of_fmap_2|done]. Qed.

Lemma combos_one alts l : l ∈ alts -> l ∈ combos [alts].
Proof. intros Hl. rewrite <- (app_nil_r l). apply combos_in; [done|]. by apply list_elem_of_singleton. Qed.

Lemma combos_app b1 b2 l1 l2 : l1 ∈ combos b1 -> l2 ∈ combos b2 -> l1 ++ l2 ∈ combos (b1 ++ b2).
Proof.
  revert l1. induction b1 as [|alts b1 IH]; intros l1 H1 H2; cbn in H1 |- *.
  - by apply list_elem_of_singleton in H1 as ->.
  - apply list_elem_of_bind in H1 as (l & Hl & Ha). apply list_elem_of_fmap in Hl as (r & -> & Hr). rewrite <- app_assoc.
    apply (combos_in alts (b1 ++ b2)); [done|by apply IH].
Qed.

(** The options are, arguments apart, one of those choices. *)
Definition covered (blocks : list (list (list fxopt))) (opts : list fxopt) : Prop := strip opts ∈ combos blocks.

Lemma covered_app b1 b2 o1 o2 : covered b1 o1 -> covered b2 o2 -> covered (b1 ++ b2) (o1 ++ o2).
Proof. unfold covered, strip. rewrite fmap_app, filter_app. apply combos_app. Qed.

Lemma covered_one alts opts : strip opts ∈ alts -> covered [alts] opts.
Proof. apply combos_one. Qed.

Lemma covered_wired blocks opts : covered blocks opts -> forallb check_wired (combos blocks) = true -> wired opts.
Proof.
  intros Hc Hb. rewrite forallb_forall in Hb. apply check_wired_sound. rewrite <- check_strip. by apply Hb, list_elem_of_In.
Qed.

Definition head_block : list (list fxopt) :=
  [[Provide RepoCtor; Provide HostOptionCtor; Provide RoutingOptionCtor; Provide MetricsCtor; Provide baseProcess]].
Definition storage_block : list (list fxopt) :=
  (fun c => [Provide RepoConfig; Provide Datastore; Provide (BaseBlockstoreCtor 0 false false); Provide c]) <$> [FilestoreBlockstoreCtor; GcBlockstoreCtor].
Definition full_identity : list fxopt := [Provide (PeerID ""); Provide (PrivateKey ""); Provide Peerstore; Invoke PstoreAddSelfKeys].
Definition bare_identity : list fxopt := [Provide (PeerID ""); Provide Peerstore].
Definition simple_block : list (list fxopt) :=
  (fun c => [Provide ProviderQueue; Provide SimpleProvider; Provide c; Provide (SimpleReprovider 0)]) <$> [NewBlockstoreProvider; PinnedProvider false].
Definition system_block (batched : bool) : list (list fxopt) :=
  [Provide NewOfflineProvider] :: ((fun l => l ++ [Provide (SimpleProviderSys false)]) <$> simple_block) ++
  (if batched then (fun l => l ++ [Provide (BatchedProviderSys false "")]) <$> simple_block else []).
Definition maybe_block (c : ctor) : list (list fxopt) := [[Provide c]; []].
Definition libp2p_blocks : list (list (list fxopt)) :=
  [[strip (BaseLibP2P ++
    [Provide ResourceManager; Provide AddrFilters; Provide AddrsFactory; Provide SmuxTransport; Provide (RelayTransport false); Provide (RelayService false);
     Provide Transports; Invoke StartListening; Invoke SetupDiscovery; Provide ForceReachability; Provide (HolePunching false);
     Provide (Security false); Provide Routing; Provide ContentRouting; Provide (BaseRouting false)])];
   maybe_block PubsubRouter; maybe_block BandwidthCounter; [[]; [Invoke autoRelayFeeder]]; [[]; [Provide (GossipSub false); Provide TopicDiscovery]]].
Definition online_blocks : list (list (list fxopt)) :=
  [[[Provide (BitswapOptions false); Provide OnlineExchange]]; maybe_block Graphsync;
   [[Provide DNSResolver; Provide (Namesys 0); Provide Peering; Invoke (PeerWith []); Invoke (IpnsRepublisher 0 0); Provide NewP2P]]] ++
  libp2p_blocks ++ [system_block true; [[Provide NewService]]].
Definition offline_blocks : list (list (list fxopt)) :=
  [[[Provide OfflineExchange; Provide DNSResolver; Provide (Namesys 0); Provide Routing; Provide ContentRouting; Provide OfflineRouting]]; system_block false].
Definition all_blocks (identities : list (list fxopt)) (networked : list (list (list fxopt))) : list (list (list fxopt)) :=
  [head_block; storage_block; identities; [[Provide RecordValidator]]] ++ networked ++ [[Core]].

Definition has (t : ty) (opts : list fxopt) : bool := existsb (fun u => bool_decide (u = t)) (unique_types opts).
Lemma online_checked : forallb (fun o => if has TPrivKey o then check_wired o else true) (combos (all_blocks [full_identity; bare_identity] online_blocks)) = true.
Proof. vm_compute. reflexivity. Qed.
Lemma offline_bare : forallb (fun o => negb (has TBoxServer o) && negb (has THost o)) (combos (all_blocks [full_identity; bare_identity] offline_blocks)) = true.
Proof. vm_compute. reflexivity. Qed.
Lemma offline_checked : forallb check_wired (combos (all_blocks [full_identity; bare_identity] offline_blocks)) = true.
Proof. vm_compute. reflexivity. Qed.

Lemma combos_nil_head blocks l : l ∈ combos blocks -> l ∈ combos ([[]] :: blocks).
Proof. intros. by apply (combos_in [[]] blocks []); [apply list_elem_of_singleton|]. Qed.

Ltac pick := first [apply list_elem_of_here | apply list_elem_of_further; pick].
Ltac part := apply covered_one; unfold strip; cbn; pick.

Section Assembly.
Context (quote : string -> string) (Duration_String : Z -> string) (ParseDuration : string -> result Z) (ParseBytes : string -> result Z) (peer_Decode : string -> result string) (DecodePrivateKey : string -> result string)
  (defaultRepo : result config) (Debug : bool).
Abbreviation assemble := (IPFS quote Duration_String ParseDuration ParseBytes peer_Decode DecodePrivateKey defaultRepo Debug).

(** No error was found while the options were made. *)
Definition sound_options (opts : list fxopt) : Prop := forall e, FxError e ∉ opts.

Lemma sound_app o1 o2 : sound_options (o1 ++ o2) -> sound_options o1 /\ sound_options o2.
Proof. intros H. split; intros e He; apply (H e), elem_of_app; auto. Qed.
Lemma not_sound e : ~ sound_options [FxError e].
Proof. intros H. apply (H e). by apply list_elem_of_singleton. Qed.

Lemma covered_maybe c b : covered [[strip [Provide c]; []]] (maybeProvide c b).
Proof. apply covered_one. destruct b; [apply list_elem_of_here|apply list_elem_of_further, list_elem_of_here]. Qed.

Lemma covered_plain blocks o opts : plain (erase_opt o) = true -> covered blocks opts -> covered blocks (o :: opts).
Proof. intros Hp Hc. unfold covered, strip. rewrite fmap_cons, filter_cons_False by (by rewrite Hp). exact Hc. Qed.

Lemma covered_storage bcfg cfg : covered [storage_block] (Storage bcfg cfg).
Proof. unfold Storage. destruct (_ || _); part. Qed.

Lemma simple_providers_shape strategy interval : sound_options (SimpleProviders ParseDuration strategy interval) ->
  strip (SimpleProviders ParseDuration strategy interval) ∈ simple_block.
Proof.
  unfold SimpleProviders. destruct (if String.eqb interval "" then _ else _) as [i|e]; [|by intros ?%not_sound].
  destruct (String.eqb strategy "all" || String.eqb strategy ""); [intros _; unfold strip; cbn; pick|].
  destruct (String.eqb strategy "roots"); [intros _; unfold strip; cbn; pick|].
  destruct (String.eqb strategy "pinned"); [intros _; unfold strip; cbn; pick|by intros ?%not_sound].
Qed.

Lemma covered_online_providers str bat strategy interval : sound_options (OnlineProviders ParseDuration str bat strategy interval) ->
  covered [system_block true] (OnlineProviders ParseDuration str bat strategy interval).
Proof.
  unfold OnlineProviders. destruct str; [intros _; part|]. intros [Hs%simple_providers_shape _]%sound_app. apply covered_one.
  unfold strip in *. rewrite fmap_app, filter_app. destruct bat; cbn in Hs |- *;
    by repeat (apply elem_of_cons in Hs as [->|Hs]; [pick|]); apply elem_of_nil in Hs.
Qed.

Lemma covered_offline_providers str bat strategy interval : sound_options (OfflineProviders ParseDuration str bat strategy interval) ->
  covered [system_block false] (OfflineProviders ParseDuration str bat strategy interval).
Proof.
  unfold OfflineProviders. destruct str; [intros _; part|]. intros [Hs%simple_providers_shape _]%sound_app. apply covered_one.
  unfold strip in *. rewrite fmap_app, filter_app. cbn in Hs |- *;
    by repeat (apply elem_of_cons in Hs as [->|Hs]; [pick|]); apply elem_of_nil in Hs.
Qed.

Lemma covered_identity cfg : sound_options (Identity peer_Decode DecodePrivateKey cfg) -> covered [[full_identity; bare_identity]] (Identity peer_Decode DecodePrivateKey cfg).
Proof.
  unfold Identity. destruct (String.eqb (id_PeerID cfg) ""); [by intros ?%not_sound|]. destruct (peer_Decode _); [|by intros ?%not_sound].
  destruct (String.eqb (id_PrivKey cfg) ""); [intros _; part|]. destruct (DecodePrivateKey _); [intros _; part|by intros ?%not_sound].
Qed.

Lemma Ret_inj {A} (a b : A) : Ret a = Ret b -> a = b.
Proof. congruence. Qed.

Lemma covered_libp2p bcfg cfg opts : LibP2P quote bcfg cfg = Ret opts -> sound_options opts -> covered libp2p_blocks opts.
Proof.
  unfold LibP2P. destruct (connmgr quote cfg) as [cm|e] eqn:Hcm; [|by intros [= <-] ?%not_sound]. destruct (pubsub bcfg cfg) as [ps|e] eqn:Hps; [|by intros [= <-] ?%not_sound].
  destruct (autonat cfg) as [an|?] eqn:Han; [|done]. cbn [obind].
  repeat (match goal with |- obind ?x _ = _ -> _ => destruct x; [|done]; cbn [obind] end).
  intros <-%Ret_inj _.
  assert (Hps' : covered [[[]; [Provide (GossipSub false); Provide TopicDiscovery]]] ps).
  { revert Hps. unfold pubsub. destruct (_ || _); [|intros [= <-]; part]. destruct (String.eqb _ "" || _); [intros [= <-]; part|].
    destruct (String.eqb _ _); [intros [= <-]; part|done]. }
  assert (Hrest : covered [[[]; [Provide (GossipSub false); Provide TopicDiscovery]]] (an ++ cm ++ ps)).
  { assert (Han' : an = [] \/ an = [Provide AutoNATService]) by (revert Han; unfold autonat; destruct (_ || _); [intros [= <-]; auto|]; destruct (_ =? 2); [intros [= <-]; auto|done]).
    assert (Hcm' : cm = [] \/ exists a b c, cm = [Provide (ConnectionManager a b c)])
      by (revert Hcm; unfold connmgr; destruct (String.eqb _ "none"); [intros [= <-]; auto|]; destruct (_ || _); [intros [= <-]; eauto|done]).
    destruct Han' as [->| ->], Hcm' as [->|(lo & hi & gr & ->)]; cbn; repeat (apply covered_plain; [done|]); done. }
  refine (covered_app [_; _; _] [_; _] _ _ _ (covered_app [_] [_] _ _ _ Hrest)).
  - unfold libp2p_options. rewrite (app_assoc BaseLibP2P). refine (covered_app [_] [_; _] _ _ _ (covered_app [_] [_] _ _ (covered_maybe _ _) _)).
    + apply covered_one, list_elem_of_singleton. unfold strip. f_equal.
    + destruct (DisableBandwidthMetrics cfg), (DisableNatPortMap cfg); part.
  - unfold MaybeAutoRelay. destruct (negb _); [part|]. destruct (StaticRelays cfg); part.
Qed.
Lemma covered_online bcfg cfg opts : Online quote Duration_String ParseDuration Debug bcfg cfg = Ret opts -> sound_options opts -> covered online_blocks opts.
Proof.
  unfold Online. destruct (_ <? 0); [by intros <-%Ret_inj ?%not_sound|]. destruct (republish_period _ _ _ _) as [rp|]; [|by intros <-%Ret_inj ?%not_sound].
  destruct (record_lifetime _ _) as [rl|]; [|by intros <-%Ret_inj ?%not_sound]. destruct (LibP2P quote bcfg cfg) as [lp|] eqn:Hlp; [|done]. cbn [obind].
  intros <-%Ret_inj (_ & [_ [_ [Hs1 [Hs2 _]%sound_app]%sound_app]%sound_app]%sound_app)%sound_app.
  refine (covered_app [_] _ _ _ _ (covered_app [_] _ _ _ (covered_maybe _ _) (covered_app [_] (libp2p_blocks ++ [system_block true; [[Provide NewService]]]) _ _ _ _))).
  - part.
  - part.
  - refine (covered_app libp2p_blocks _ _ _ (covered_libp2p _ _ _ Hlp Hs1) (covered_app [_] [_] _ _ (covered_online_providers _ _ _ _ Hs2) _)). part.
Qed.

Lemma covered_offline cfg : sound_options (Offline ParseDuration cfg) -> covered offline_blocks (Offline ParseDuration cfg).
Proof.
  intros [_ Hs]%sound_app. refine (covered_app [_] [_] _ _ _ (covered_offline_providers _ _ _ _ Hs)). part.
Qed.

(** What is assembled without an error, in its parts. *)
Lemma assembled bcfg opts : assemble bcfg = Ret opts -> sound_options opts ->
  exists cfg net, Networked quote Duration_String ParseDuration Debug bcfg cfg = Ret net /\
    opts = [Provide RepoCtor; Provide HostOptionCtor; Provide RoutingOptionCtor; Provide MetricsCtor] ++ [Provide baseProcess] ++ Storage bcfg cfg ++
           Identity peer_Decode DecodePrivateKey cfg ++ [Provide RecordValidator] ++ net ++ Core.
Proof.
  unfold IPFS, options. destruct (fillDefaults defaultRepo bcfg) as [[cfg|e]|e]; [|by intros <-%Ret_inj ?%not_sound..].
  destruct (ParseBytes _); [|by intros <-%Ret_inj ?%not_sound]. destruct (fatal_unless _ _); [|done]. cbn [obind].
  destruct (Networked _ _ _ _ _ _) as [net|] eqn:Hn; [|done]. cbn [obind]. intros <-%Ret_inj _. eauto.
Qed.

Lemma has_spec t opts : is_group t = false -> t ∈ provided opts -> has t (strip opts) = true.
Proof.
  intros Hg H. unfold has. rewrite unique_strip. apply existsb_exists. exists t. split; [|by apply bool_decide_eq_true]. by apply list_elem_of_In, list_elem_of_filter.
Qed.

Lemma online_always bcfg cfg opts : Online quote Duration_String ParseDuration Debug bcfg cfg = Ret opts -> sound_options opts ->
  (exists p l, Invoke (IpnsRepublisher p l) ∈ opts) /\ Provide NewService ∈ opts.
Proof.
  unfold Online. destruct (_ <? 0); [by intros <-%Ret_inj ?%not_sound|]. destruct (republish_period _ _ _ _) as [rp|]; [|by intros <-%Ret_inj ?%not_sound].
  destruct (record_lifetime _ _) as [rl|]; [|by intros <-%Ret_inj ?%not_sound]. destruct (LibP2P quote bcfg cfg) as [lp|] eqn:Hlp; [|done]. cbn [obind].
  intros <-%Ret_inj _. split.
  - exists rp, rl. do 2 (apply elem_of_app; right). apply elem_of_app. left. do 4 apply list_elem_of_further. apply list_elem_of_here.
  - do 5 (apply elem_of_app; right). apply list_elem_of_here.
Qed.

Lemma covered_all bcfg opts : assemble bcfg = Ret opts -> sound_options opts ->
  exists cfg net, Networked quote Duration_String ParseDuration Debug bcfg cfg = Ret net /\ sound_options net /\ (forall o, o ∈ net -> o ∈ opts) /\
    forall blocks, covered blocks net -> covered (all_blocks [full_identity; bare_identity] blocks) opts.
Proof.
  intros Ha Hs. destruct (assembled _ _ Ha Hs) as (cfg & net & Hn & ->). exists cfg, net.
  pose proof Hs as (_ & [_ [_ [Hid [_ [Hnet _]%sound_app]%sound_app]%sound_app]%sound_app]%sound_app)%sound_app. do 2 (split; [done|]).
  split; [intros o Ho; rewrite !elem_of_app; eauto 10|]. intros blocks Hb. rewrite (app_assoc _ [Provide baseProcess]).
  apply (covered_app [_]); [unfold head_block; part|]. apply (covered_app [_] _ _ _ (covered_storage _ _)), (covered_app [_]); [by apply covered_identity|].
  apply (covered_app [_]); [part|]. apply covered_app; [done|]. unfold Core. part.
Qed.

(** whatever the configuration, a node that is assembled without an error is wired (each type has at most one constructor, and everything that the fields of the node, what is invoked and the constructors used for them ask for is provided) if and only if it is offline or its private key is given. *)
Theorem node_is_wired bcfg opts : assemble bcfg = Ret opts -> sound_options opts -> wired opts <-> (Online_ bcfg = true -> TPrivKey ∈ provided opts).
Proof.
  intros Ha Hs. destruct (covered_all _ _ Ha Hs) as (cfg & net & Hn & Hnet & Hsub & Hcov).
  unfold Networked in Hn. destruct (Online_ bcfg).
  - split.
    + intros [_ Hw] _. destruct (online_always _ _ _ Hn Hnet) as [(p & l & Hin) _].
      assert (Hi : Invoke (IpnsRepublisher p l) ∈ opts) by (by apply Hsub).
      destruct (Hw TPrivKey) as [[=]|Hp]; [|exact Hp]. apply (NeedInvoke _ _ _ Hi). cbn. pick.
    + intros Hk%(fun H => H eq_refl)%has_spec; [|done]. apply check_wired_sound. rewrite <- check_strip.
      pose proof online_checked as Hb. rewrite forallb_forall in Hb. specialize (Hb (strip opts)). rewrite Hk in Hb.
      by apply Hb, list_elem_of_In, Hcov, (covered_online _ _ _ Hn).
  - split; [done|]. intros _. apply Ret_inj in Hn as <-. eapply covered_wired; [|exact offline_checked]. by apply Hcov, covered_offline.
Qed.

(** every online node makes the box server of this program, with no option to leave it out, and the field of the node that asks for it is filled; an offline node has neither it nor a host. *)
Theorem online_starts_box bcfg opts : assemble bcfg = Ret opts -> sound_options opts ->
  if Online_ bcfg then (Provide NewService ∈ opts /\ needed opts TBoxServer) else (~ (TBoxServer ∈ provided opts)) /\ ~ (THost ∈ provided opts).
Proof.
  intros Ha Hs. destruct (covered_all _ _ Ha Hs) as (cfg & net & Hn & Hnet & Hsub & Hcov). unfold Networked in Hn. destruct (Online_ bcfg).
  - destruct (online_always _ _ _ Hn Hnet) as [_ Hb%Hsub]. split; [done|]. apply NeedOptional; [unfold node_optional; pick|].
    unfold provided. apply list_elem_of_In, in_flat_map. exists (Provide NewService). split; [by apply list_elem_of_In|]. by left.
  - apply Ret_inj in Hn as <-. specialize (Hcov _ (covered_offline cfg Hnet)). pose proof offline_bare as Hb. rewrite forallb_forall in Hb.
    specialize (Hb _ (proj1 (list_elem_of_In _ _) Hcov)). apply Bool.andb_true_iff in Hb as [Hx Hh].
    split; intros Hp%has_spec; [|done| |done]; by rewrite Hp in *.
Qed.
End Assembly.

Lemma sound_check opts : forallb (fun o => match o with FxError _ => false | _ => true end) opts = true -> sound_options opts.
Proof. intros H e He. rewrite forallb_forall in H. by specialize (H _ (proj1 (list_elem_of_In _ _) He)). Qed.

Module DemoNodeGroups.
Definition cfg (key : string) : config := MkCfg "basic" 32 96 20 "" false 0 0 0 0 [] false false false false false false 1048576 false false false
  "Qm" key 0 "" "" false false [] "pinned" "12h" "256KiB" false.
Definition bcfg (online : bool) (key : string) : BuildCfg := MkBuild online false true true false false (Some (Ok (cfg key))).
Definition build (online : bool) (key : string) : outcome (list fxopt) :=
  IPFS id (fun _ => "1h0m0s") (fun _ => Ok hour) (fun _ => Ok 262144) Ok Ok (Err "no key pair") false (bcfg online key).
Definition opts (online : bool) (key : string) : list fxopt := match build online key with Ret l => l | _ => [] end.

(** An online node with a key is wired; without it, what republishes names asks for a key that nothing gives. *)
Lemma node_is_wired_witness : wired (opts true "sk") /\ ~ wired (opts true "") /\ wired (opts false "").
Proof.
  split; [|split].
  - apply (proj2 (node_is_wired id (fun _ => "1h0m0s") (fun _ => Ok hour) (fun _ => Ok 262144) Ok Ok (Err "no key pair") false (bcfg true "sk") (opts true "sk") eq_refl (sound_check (opts true "sk") eq_refl))). intros _. unfold provided. cbn. pick.
  - intros Hw. pose proof (proj1 (node_is_wired id (fun _ => "1h0m0s") (fun _ => Ok hour) (fun _ => Ok 262144) Ok Ok (Err "no key pair") false (bcfg true "") (opts true "") eq_refl (sound_check (opts true "") eq_refl)) Hw eq_refl) as Hk.
    cbn in Hk. by repeat (apply elem_of_cons in Hk as [Hk|Hk]; [discriminate Hk|]); apply elem_of_nil in Hk.
  - by apply (proj2 (node_is_wired id (fun _ => "1h0m0s") (fun _ => Ok hour) (fun _ => Ok 262144) Ok Ok (Err "no key pair") false (bcfg false "") (opts false "") eq_refl (sound_check (opts false "") eq_refl))).
Defined.

Lemma online_starts_box_witness : needed (opts true "sk") TBoxServer /\ THost ∉ provided (opts false "sk").
Proof.
  split.
  - exact (proj2 (online_starts_box id (fun _ => "1h0m0s") (fun _ => Ok hour) (fun _ => Ok 262144) Ok Ok (Err "no key pair") false (bcfg true "sk") (opts true "sk") eq_refl (sound_check (opts true "sk") eq_refl))).
  - exact (proj2 (online_starts_box id (fun _ => "1h0m0s") (fun _ => Ok hour) (fun _ => Ok 262144) Ok Ok (Err "no key pair") false (bcfg false "sk") (opts false "sk") eq_refl (sound_check (opts false "sk") eq_refl))).
Defined.
End DemoNodeGroups.
