(* ===== verification/NodeParts.v ===== *)
(** Constructors of the node with behaviour of their own: the root of the mutable file
    system ([core/node/core.go]), the resolvers of DNS names ([core/node/dns.go]), the
    block store with its checks ([core/node/storage.go], [thirdparty/verifbs/verifbs.go])
    and what the republisher of names and batched providing read of the configuration
    ([core/node/ipns.go], [provider.go]). *)
From Stdlib Require Import ZArith Lia String.
From stdpp Require Import base strings gmap sets list.
From S2P Require Import Prelude GoStrings CoreAPI NodeGroups.

Local Open Scope Z_scope.
Local Open Scope go_scope.

(** ** The datastore

    What [Put] and [Sync] of the datastore promise: for each key the values that may be
    found after a crash, the one that is read first.  A put adds a value; a sync of a
    prefix leaves only the value that is read, for each key below it. *)

Abbreviation value := (list Byte.byte).
Abbreviation dstore := (gmap string (list (option value))).


Definition found (d : dstore) (k : string) : list (option value) := default [None] (d !! k).
Definition current (d : dstore) (k : string) : option value := default None (head (found d k)).

Definition below (prefix k : string) : bool := String.eqb k prefix || HasPrefix k (prefix +:+ "/").

Inductive dsop := DSync (prefix : string) | DPut (k : string) (v : value).
Definition ds_apply (o : dsop) (d : dstore) : dstore :=
  match o with
  | DSync p => map_imap (fun k l => Some (if below p k then take 1 l else l)) d
  | DPut k v => <[k := Some v :: found d k]> d
  end.

(** Operations in order; each may fail, which ends them. *)
Fixpoint ds_run (fails : nat -> option error) (ops : list dsop) (d : dstore) : option error * dstore :=
  match ops with
  | [] => (None, d)
  | o :: ops => match fails 0%nat with Some e => (Some e, d) | None => ds_run (fun n => fails (S n)) ops (ds_apply o d) end
  end.

Section Files.
(** [blockstore.BlockPrefix], [filestore.FilestorePrefix]. *)
Context (BlockPrefix FilestorePrefix : string).

Definition dsk : string := "/local/filesroot".

(** [pf], which stores the root of the file system. *)
Definition publish_root (c : value) : list dsop := [DSync BlockPrefix; DSync FilestorePrefix; DPut dsk c; DSync dsk].
(** [syncFn] of the pinner's DAG service. *)
Definition syncFn : list dsop := [DSync BlockPrefix; DSync FilestorePrefix].

(** What reading the datastore gives: a value and an error. *)
Inductive dserr := ErrNotFound | DsErr (e : error).

Context {W R : Type} (ds_Get : string -> W -> option value * option dserr) (dag_Add : inode -> W -> option error * W) (dag_Get : string -> W -> result inode)
  (cid_Cast : value -> result string) (EmptyDirNode : inode) (NewRoot : inode -> W -> result R * W).

Definition Files (w : W) : result R * W :=
  match ds_Get dsk w with
  | (_, Some ErrNotFound) | (None, _) =>
      match dag_Add EmptyDirNode w with
      | (Some e, w) => (Err ("failure writing to dagstore: " +:+ e), w)
      | (None, w) => NewRoot EmptyDirNode w
      end
  | (Some val, None) =>
      match cid_Cast val with
      | Err e => (Err e, w)
      | Ok c =>
          match dag_Get c w with
          | Err e => (Err ("error loading filesroot from DAG: " +:+ e), w)
          | Ok nd => match nd_proto nd with None => (Err ErrNotProtobuf, w) | Some _ => NewRoot nd w end
          end
      end
  | (Some _, Some (DsErr e)) => (Err e, w)
  end.

(** A read of the stored root that fails with an error of the datastore, without a value. *)
Definition unreadable (w : W) : Prop := exists e, ds_Get dsk w = (None, Some (DsErr e)).
End Files.

(** *** Theorems *)

Lemma found_sync p d k : below p k = true -> found (ds_apply (DSync p) d) k = take 1 (found d k).
Proof. intros Hb. unfold found; cbn [ds_apply]. rewrite map_lookup_imap. destruct (d !! k); cbn; [by rewrite Hb|done]. Qed.
Lemma found_sync_other p d k : below p k = false -> found (ds_apply (DSync p) d) k = found d k.
Proof. intros Hb. unfold found; cbn [ds_apply]. rewrite map_lookup_imap. destruct (d !! k); cbn; [by rewrite Hb|done]. Qed.
Lemma found_put k v d : found (ds_apply (DPut k v) d) k = Some v :: found d k.
Proof. unfold found at 1; cbn [ds_apply]. by rewrite lookup_insert_eq. Qed.
Lemma found_put_other k k' v d : k <> k' -> found (ds_apply (DPut k v) d) k' = found d k'.
Proof. intros Hn. unfold found; cbn [ds_apply]. by rewrite lookup_insert_ne. Qed.

(** Below a prefix: what is read is the only value that can be found. *)
Definition settled (d : dstore) (prefix : string) : Prop := forall k, below prefix k = true -> forall v, v ∈ found d k -> v = current d k.

Lemma settled_sync p d : settled (ds_apply (DSync p) d) p.
Proof.
  intros k Hb v. unfold current. rewrite (found_sync _ _ _ Hb). destruct (found d k) as [|x l]; [by intros ?%elem_of_nil|]. by intros ->%list_elem_of_singleton.
Qed.
Lemma current_sync p d k : current (ds_apply (DSync p) d) k = current d k.
Proof. unfold current. destruct (below p k) eqn:Hb; [rewrite (found_sync _ _ _ Hb); by destruct (found d k)|by rewrite found_sync_other]. Qed.
Lemma found_sync_subset p d k v : v ∈ found (ds_apply (DSync p) d) k -> v ∈ found d k.
Proof.
  destruct (below p k) eqn:Hb; [rewrite (found_sync _ _ _ Hb)|by rewrite found_sync_other]. destruct (found d k); [done|]. intros ->%list_elem_of_singleton. apply list_elem_of_here.
Qed.
Lemma settled_keep p q d : settled d q -> settled (ds_apply (DSync p) d) q.
Proof. intros Hs k Hb v Hv. rewrite current_sync. by apply Hs, (found_sync_subset p). Qed.
Lemma settled_put q k v d : below q k = false -> settled d q -> settled (ds_apply (DPut k v) d) q.
Proof.
  intros Hk Hs k' Hb. assert (k <> k') by (intros ->; congruence). unfold current. rewrite found_put_other by done. by apply Hs.
Qed.

(** C34: whichever step of storing a new root fails, and wherever the program crashes after it: if the new root can be found then for every key of a block or of a filestore entry only what was written last can be found, so that the root never refers to blocks that are lost; and when nothing fails the new root is what is found. *)
Theorem root_after_blocks bp fp c fails d r d' : below bp dsk = false -> below fp dsk = false -> Some c ∉ found d dsk ->
  ds_run fails (publish_root bp fp c) d = (r, d') ->
  (Some c ∈ found d' dsk -> settled d' bp /\ settled d' fp) /\ (r = None -> forall v, v ∈ found d' dsk -> v = Some c) /\
  (forall k, k <> dsk -> current d' k = current d k).
Proof.
  intros Hb Hf Hn. unfold publish_root. cbn [ds_run].
  assert (Hstep : forall p d0, Some c ∉ found d0 dsk -> Some c ∉ found (ds_apply (DSync p) d0) dsk) by (intros p d0 H1 H2; by apply H1, (found_sync_subset p)).
  destruct (fails 0%nat); [intros [= <- <-]; split; [by intros|by split]|].
  set (d1 := ds_apply (DSync bp) d). assert (H1 : Some c ∉ found d1 dsk) by by apply Hstep. assert (S1 : settled d1 bp) by apply settled_sync.
  assert (C1 : forall k, current d1 k = current d k) by (intros; apply current_sync).
  destruct (fails 1%nat); [intros [= <- <-]; split; [by intros|by split]|].
  set (d2 := ds_apply (DSync fp) d1). assert (H2 : Some c ∉ found d2 dsk) by by apply Hstep. assert (S2a : settled d2 bp) by by apply settled_keep.
  assert (S2b : settled d2 fp) by apply settled_sync. assert (C2 : forall k, current d2 k = current d k) by (intros; rewrite <- C1; apply current_sync).
  destruct (fails 2%nat); [intros [= <- <-]; split; [by intros|by split]|].
  set (d3 := ds_apply (DPut dsk c) d2). assert (S3a : settled d3 bp) by by apply settled_put. assert (S3b : settled d3 fp) by by apply settled_put.
  assert (C3 : forall k, k <> dsk -> current d3 k = current d k) by (intros k Hk; rewrite <- C2; unfold current, d3; by rewrite found_put_other).
  destruct (fails 3%nat); [intros [= <- <-]; split; [by intros|by split]|].
  assert (S4 : settled (ds_apply (DSync dsk) d3) bp /\ settled (ds_apply (DSync dsk) d3) fp) by (split; by apply settled_keep).
  set (d4 := ds_apply (DSync dsk) d3) in *. intros [= <- <-]. split; [by intros _|]. split.
  - intros _ v. unfold d4. rewrite found_sync by (unfold below; by rewrite String.eqb_refl). unfold d3. rewrite found_put. by intros ->%list_elem_of_singleton.
  - intros k Hk. rewrite <- C3 by done. apply current_sync.
Qed.

(** the stored root is loaded when it can be read, is a CID and names a protobuf node; nothing stored gives an empty directory; and so does a datastore that cannot be read: its error is lost and the node starts with an empty file system, which the next change stores over the old root. *)
Theorem files_root_exact {W R} (ds_Get : string -> W -> option value * option dserr) dag_Add dag_Get cid_Cast empty (NewRoot : inode -> W -> result R * W) w :
  let Files := Files ds_Get dag_Add dag_Get cid_Cast empty NewRoot in
  (forall val c nd, ds_Get dsk w = (Some val, None) -> cid_Cast val = Ok c -> dag_Get c w = Ok nd -> nd_proto nd <> None -> Files w = NewRoot nd w) /\
  (forall w', (unreadable ds_Get w \/ ds_Get dsk w = (None, Some ErrNotFound)) -> dag_Add empty w = (None, w') -> Files w = NewRoot empty w').
Proof.
  intros F. unfold F, NodeParts.Files. split.
  - intros val c nd -> -> ->. by destruct (nd_proto nd).
  - intros w' [[e ->]| ->] ->; done.
Qed.

(** ** Resolvers of DNS names *)

Section Dns.
(** A resolver over HTTPS for an URL, with a bound of its cache if there is one; whether a
    domain is fully qualified. *)
Context {R : Type} (doh_NewResolver : string -> option Z -> result R) (IsFqdn : string -> bool).

Definition newResolver (url : string) (maxTTL : option Z) : result R :=
  if negb (HasPrefix url "https://") then Err ("invalid resolver url: " +:+ url) else doh_NewResolver url maxTTL.

(** [madns.Option]: the resolver of a domain, or the default one. *)
Abbreviation mopt := (option string * R)%type.
Record dnsacc := MkDnsAcc { acc_domains : gset string; acc_rslvrs : gmap string R; acc_opts : list mopt }.

Definition reuse (url : string) (maxTTL : option Z) (domain : string) (rs : gmap string R) : result (R * gmap string R) :=
  match rs !! url with
  | Some r => Ok (r, rs)
  | None =>
      match newResolver url maxTTL with
      | Err e => Err ("bad resolver for " +:+ domain +:+ ": " +:+ e)
      | Ok r => Ok (r, <[url := r]> rs)
      end
  end.

(** The configured resolvers, in the order in which Go goes through the map. *)
Fixpoint user_resolvers (maxTTL : option Z) (l : list (string * string)) (a : dnsacc) : result dnsacc :=
  match l with
  | [] => Ok a
  | (domain, url) :: l =>
      if negb (String.eqb domain ".") && negb (IsFqdn domain) then Err ("invalid domain " +:+ domain +:+ "; must be FQDN") else
      let domains := {[domain]} ∪ acc_domains a in
      if String.eqb url "" then user_resolvers maxTTL l (MkDnsAcc domains (acc_rslvrs a) (acc_opts a)) else
      match reuse url maxTTL domain (acc_rslvrs a) with
      | Err e => Err e
      | Ok (r, rs) => user_resolvers maxTTL l (MkDnsAcc domains rs (acc_opts a ++ [(if String.eqb domain "." then None else Some domain, r)]))
      end
  end.

(** The implicit ones, without a bound of the cache. *)
Fixpoint default_resolvers (l : list (string * string)) (a : dnsacc) : result dnsacc :=
  match l with
  | [] => Ok a
  | (domain, url) :: l =>
      if decide (domain ∈ acc_domains a) then default_resolvers l a else
      match reuse url None domain (acc_rslvrs a) with
      | Err e => Err e
      | Ok (r, rs) => default_resolvers l (MkDnsAcc (acc_domains a) rs (acc_opts a ++ [(Some domain, r)]))
      end
  end.

Definition defaultResolvers : list (string * string) :=
  [("eth.", "https://resolver.cloudflare-eth.com/dns-query"); ("crypto.", "https://resolver.cloudflare-eth.com/dns-query")].

(** The options of the resolver. *)
Definition DNSResolver_opts (maxTTL : option Z) (resolvers defaults : list (string * string)) : result (list mopt) :=
  match user_resolvers maxTTL resolvers (MkDnsAcc ∅ ∅ []) with
  | Err e => Err e
  | Ok a => match default_resolvers defaults a with Err e => Err e | Ok a => Ok (acc_opts a) end
  end.

(** *** Theorems *)

Definition valid_domain (d : string) : bool := String.eqb d "." || IsFqdn d.

(** The option of a configured resolver, and of an implicit one. *)
Definition user_option (maxTTL : option Z) (p : string * string) : option mopt :=
  if String.eqb p.2 "" then None else
  match newResolver p.2 maxTTL with Ok r => Some (if String.eqb p.1 "." then None else Some p.1, r) | Err _ => None end.
Definition default_option (maxTTL : option Z) (l : list (string * string)) (p : string * string) : option mopt :=
  if decide (p.1 ∈ l.*1) then None else
  match newResolver p.2 (if decide (p.2 ∈ l.*2) then maxTTL else None) with Ok r => Some (Some p.1, r) | Err _ => None end.

(** What is kept for reuse is what would be made again. *)
Definition kept (ttl : string -> option Z) (rs : gmap string R) : Prop := forall url r, rs !! url = Some r -> newResolver url (ttl url) = Ok r.

Lemma reuse_exact ttl maxTTL url d rs r : kept ttl rs -> (rs !! url = None -> ttl url = maxTTL) -> newResolver url (ttl url) = Ok r ->
  exists rs', reuse url maxTTL d rs = Ok (r, rs') /\ kept ttl rs' /\ forall u, rs' !! u <> None <-> u = url \/ rs !! u <> None.
Proof.
  intros Hk Ht Hr. unfold reuse. destruct (rs !! url) as [r'|] eqn:Hu.
  - pose proof (Hk _ _ Hu) as Hr'. rewrite Hr in Hr'. injection Hr' as ->. exists rs. split; [done|]. split; [done|]. intros u. split; [auto|]. intros [->|?]; [by rewrite Hu|done].
  - rewrite <- Ht, Hr by done. exists (<[url:=r]> rs). split; [done|]. split.
    + intros u x. destruct (decide (url = u)) as [<-|Hn]; [rewrite lookup_insert_eq; by intros [= <-]|rewrite lookup_insert_ne by done; apply Hk].
    + intros u. destruct (decide (url = u)) as [<-|Hn]; [rewrite lookup_insert_eq; split; [auto|done]|rewrite lookup_insert_ne by done; split; [auto|by intros [->|?]]].
Qed.

Lemma user_resolvers_exact maxTTL l a :
  kept (fun _ => maxTTL) (acc_rslvrs a) -> (forall d url, (d, url) ∈ l -> valid_domain d = true /\ (url <> "" -> exists r, newResolver url maxTTL = Ok r)) ->
  exists ds rs, user_resolvers maxTTL l a = Ok (MkDnsAcc ds rs (acc_opts a ++ omap (user_option maxTTL) l)) /\
    (forall d, d ∈ ds <-> d ∈ l.*1 \/ d ∈ acc_domains a) /\ kept (fun _ => maxTTL) rs /\ (forall u, rs !! u <> None <-> (u <> "" /\ u ∈ l.*2) \/ acc_rslvrs a !! u <> None).
Proof.
  revert a. induction l as [|[d url] l IH]; intros a Hk Hl.
  - exists (acc_domains a), (acc_rslvrs a). cbn. rewrite app_nil_r. split; [by destruct a|]. repeat split; auto; (intros [?|?]; [|done]); destruct_and?; set_solver.
  - destruct (Hl d url (list_elem_of_here _ _)) as [Hd Hu]. cbn [user_resolvers].
    rewrite <- Bool.negb_orb. unfold valid_domain in Hd. rewrite Hd. cbn [negb].
    assert (Hl' : forall d url, (d, url) ∈ l -> valid_domain d = true /\ (url <> "" -> exists r, newResolver url maxTTL = Ok r)) by (intros; apply Hl; by apply list_elem_of_further).
    cbn [omap list_omap]. unfold user_option at 1. cbn [fst snd]. destruct (String.eqb_spec url "") as [->|Hne].
    + destruct (IH (MkDnsAcc ({[d]} ∪ acc_domains a) (acc_rslvrs a) (acc_opts a)) Hk Hl') as (ds & rs & -> & H1 & H2 & H3). exists ds, rs. cbn in H1, H3.
      split; [done|]. split; [intros x; rewrite H1; set_solver|]. split; [done|]. intros u. rewrite H3. cbn. set_solver.
    + destruct (Hu Hne) as [r Hr]. destruct (reuse_exact (fun _ => maxTTL) maxTTL url d (acc_rslvrs a) r Hk (fun _ => eq_refl) Hr) as (rs1 & -> & Hk1 & Hi1).
      rewrite Hr. destruct (IH (MkDnsAcc ({[d]} ∪ acc_domains a) rs1 (acc_opts a ++ [(if String.eqb d "." then None else Some d, r)])) Hk1 Hl') as (ds & rs & -> & H1 & H2 & H3).
      exists ds, rs. cbn in H1, H3 |- *. rewrite <- app_assoc. split; [done|]. split; [intros x; rewrite H1; set_solver|]. split; [done|].
      intros u. rewrite H3, Hi1. set_solver.
Qed.

Lemma default_resolvers_exact maxTTL l defs a :
  let ttl := fun u => if decide (u ∈ l.*2) then maxTTL else None in
  kept ttl (acc_rslvrs a) -> (forall u, u <> "" -> u ∈ l.*2 -> acc_rslvrs a !! u <> None) -> (forall d, d ∈ acc_domains a <-> d ∈ l.*1) ->
  (forall d url, (d, url) ∈ defs -> url <> "" /\ exists r, newResolver url (ttl url) = Ok r) ->
  exists rs, default_resolvers defs a = Ok (MkDnsAcc (acc_domains a) rs (acc_opts a ++ omap (default_option maxTTL l) defs)).
Proof.
  intros ttl. revert a. induction defs as [|[d url] defs IH]; intros a Hk Hin Hd Hdefs.
  - exists (acc_rslvrs a). cbn. rewrite app_nil_r. by destruct a.
  - destruct (Hdefs d url (list_elem_of_here _ _)) as [Hne [r Hr]]. cbn [default_resolvers omap list_omap]. unfold default_option at 1. cbn [fst snd].
    assert (Hdefs' : forall d url, (d, url) ∈ defs -> url <> "" /\ exists r, newResolver url (ttl url) = Ok r) by (intros; eapply Hdefs; by apply list_elem_of_further).
    destruct (decide (d ∈ acc_domains a)) as [Hm|Hm].
    + rewrite decide_True by (by apply Hd). by apply IH.
    + rewrite decide_False by (by rewrite <- Hd). destruct (reuse_exact ttl None url d (acc_rslvrs a) r Hk) as (rs1 & -> & Hk1 & Hi1); [|done|].
      * intros Hn. unfold ttl. rewrite decide_False; [done|]. intros Hx. by apply (Hin url).
      * fold (ttl url). rewrite Hr. destruct (IH (MkDnsAcc (acc_domains a) rs1 (acc_opts a ++ [(Some d, r)])) Hk1) as (rs & ->); cbn; [|done|done|].
        -- intros u Hu1 Hu2. apply Hi1. right. by apply Hin.
        -- exists rs. by rewrite <- app_assoc.
Qed.

(** in whatever order the maps are gone through, when the configured domains are fully qualified and their URLs can be used, every domain with an URL gets a resolver for it with the configured bound of the cache, a domain with an empty URL gets none and stops the implicit one, and the implicit domains that are not configured get theirs, with the bound only if the URL is a configured one too. *)
Theorem dns_resolver_exact maxTTL l defs :
  (forall d url, (d, url) ∈ l -> valid_domain d = true /\ (url <> "" -> exists r, newResolver url maxTTL = Ok r)) ->
  (forall d url, (d, url) ∈ defs -> url <> "" /\ exists r, newResolver url (if decide (url ∈ l.*2) then maxTTL else None) = Ok r) ->
  DNSResolver_opts maxTTL l defs = Ok (omap (user_option maxTTL) l ++ omap (default_option maxTTL l) defs).
Proof.
  intros Hl Hdefs. unfold DNSResolver_opts. destruct (user_resolvers_exact maxTTL l (MkDnsAcc ∅ ∅ [])) as (ds & rs & -> & Hds & Hk & Hin); [intros url r; cbn [acc_rslvrs]; by rewrite lookup_empty|done|].
  cbn in Hds, Hin. destruct (default_resolvers_exact maxTTL l defs (MkDnsAcc ds rs (omap (user_option maxTTL) l))) as [rs' Hr]; cbn; [| | |done|].
  - intros u r Hu. rewrite decide_True; [by apply Hk|]. destruct (proj1 (Hin u)) as [[_ H]|H]; [by rewrite Hu|done|by rewrite lookup_empty in H].
  - intros u Hne Hu. apply Hin. auto.
  - intros d. rewrite Hds. set_solver.
  - cbn in *. by rewrite Hr.
Qed.

(** a domain that is not fully qualified, other than [.], is refused wherever it comes in the map. *)
Theorem dns_refuses_unqualified maxTTL l defs d url : (d, url) ∈ l -> valid_domain d = false -> exists e, DNSResolver_opts maxTTL l defs = Err e.
Proof.
  intros Hin Hv. unfold DNSResolver_opts. enough (exists e, user_resolvers maxTTL l (MkDnsAcc ∅ ∅ []) = Err e) as [e ->] by eauto.
  generalize (MkDnsAcc ∅ ∅ []). induction l as [|[d' url'] l IH]; intros a; [by apply elem_of_nil in Hin|]. cbn. rewrite <- Bool.negb_orb. fold (valid_domain d').
  apply elem_of_cons in Hin as [[= -> ->]|Hin]; [rewrite Hv; eauto|]. destruct (negb (valid_domain d')); [eauto|]. destruct (String.eqb url' ""); [by apply IH|].
  destruct (reuse _ _ _ _) as [[r rs]|e]; [by apply IH|eauto].
Qed.
End Dns.

(** ** The block store *)

Section Store.
(** Blocks by their CID, with a store [W]; which CIDs are allowed is [verifcid]'s. *)
Context {W B : Type} (b_cid : B -> string) (ValidateCid : string -> option error).

(** The operations of a block store that the checks stand before. *)
Record blockstore := MkStore { bs_Put : B -> W -> option error * W; bs_PutMany : list B -> W -> option error * W; bs_Get : string -> W -> result B }.

Fixpoint validate_all (l : list B) : option error :=
  match l with [] => None | b :: l => match ValidateCid (b_cid b) with Some e => Some e | None => validate_all l end end.

Definition VerifBS (s : blockstore) : blockstore :=
  MkStore (fun b w => match ValidateCid (b_cid b) with Some e => (Some e, w) | None => bs_Put s b w end)
    (fun l w => match validate_all l with Some e => (Some e, w) | None => bs_PutMany s l w end)
    (fun c w => match ValidateCid c with Some e => Err e | None => bs_Get s c w end).

(** [NewBlockstore], [CachedBlockstore], [NewIdStore], [NewGCBlockstore], [NewFilestore],
    and [HashOnRead]. *)
Context (NewBlockstore : blockstore) (CachedBlockstore : blockstore -> result blockstore) (NewIdStore NewGCBlockstore NewFilestore HashOnRead : blockstore -> blockstore).

Definition BaseBlockstore (nilRepo hashOnRead : bool) : result blockstore :=
  match (if nilRepo then Ok (VerifBS NewBlockstore) else CachedBlockstore (VerifBS NewBlockstore)) with
  | Err e => Err e
  | Ok bs => let bs := NewIdStore bs in Ok (if hashOnRead then HashOnRead bs else bs)
  end.
Definition GcBlockstore (bb : blockstore) : blockstore := NewGCBlockstore bb.
Definition FilestoreBlockstore (bb : blockstore) : blockstore := VerifBS (NewGCBlockstore (NewFilestore bb)).

(** *** Theorems *)

(** A sequence of operations. *)
Inductive bsop := OpPut (b : B) | OpPutMany (l : list B) | OpGet (c : string).
Definition bs_op (s : blockstore) (o : bsop) (w : W) : W :=
  match o with OpPut b => (bs_Put s b w).2 | OpPutMany l => (bs_PutMany s l w).2 | OpGet _ => w end.

Definition allowed (c : string) : Prop := ValidateCid c = None.

Lemma validate_all_exact l : validate_all l = None <-> Forall (fun b => allowed (b_cid b)) l.
Proof.
  induction l as [|b l IH]; cbn; [done|]. rewrite Forall_cons. unfold allowed at 1. destruct (ValidateCid (b_cid b)); [split; [done|by intros []]|]. rewrite IH. tauto.
Qed.

(** over a store whose puts add no more than the blocks they are given, any sequence of operations through the checks leaves only allowed CIDs if there were only such, a disallowed block fails the whole list it is in with the store unchanged, and a disallowed CID is not even looked for. *)
Theorem verified_store (s : blockstore) (keys : W -> gset string) :
  (forall b w, keys (bs_Put s b w).2 ⊆ {[b_cid b]} ∪ keys w) -> (forall l w, keys (bs_PutMany s l w).2 ⊆ list_to_set (b_cid <$> l) ∪ keys w) ->
  (forall ops w, (forall c, c ∈ keys w -> allowed c) -> forall c, c ∈ keys (fold_left (fun w o => bs_op (VerifBS s) o w) ops w) -> allowed c) /\
  (forall l b w, b ∈ l -> ~ allowed (b_cid b) -> exists e, bs_PutMany (VerifBS s) l w = (Some e, w)) /\
  (forall c w, ~ allowed c -> exists e, bs_Get (VerifBS s) c w = Err e).
Proof.
  intros Hput Hmany. split; [|split].
  - induction ops as [|o ops IH]; intros w Hw; [done|]. cbn [fold_left]. apply IH. destruct o as [b|l|c]; cbn.
    + destruct (ValidateCid (b_cid b)) eqn:Hv; [done|]. intros c Hc. specialize (Hput b w c Hc). apply elem_of_union in Hput as [->%elem_of_singleton|Hc']; [done|by apply Hw].
    + destruct (validate_all l) eqn:Hv; [done|]. apply validate_all_exact in Hv. rewrite Forall_forall in Hv.
      intros c Hc. specialize (Hmany l w c Hc). apply elem_of_union in Hmany as [Hm|Hm]; [|by apply Hw]. apply elem_of_list_to_set, list_elem_of_fmap in Hm as (b & -> & Hb). by apply Hv.
    + done.
  - intros l b w Hin Hb. cbn. destruct (validate_all l) as [e|] eqn:Hv; [by exists e|]. apply validate_all_exact in Hv. rewrite Forall_forall in Hv. exfalso. by apply Hb, Hv.
  - intros c w Hc. cbn. unfold allowed in Hc. destruct (ValidateCid c) as [e|]; [by exists e|done].
Qed.

End Store.

(** ** Republishing names *)

(** The interval and the lifetime that are set in the republisher; no value is its own
    default.  [text] writes a duration. *)
Definition IpnsRepublisher_set (text : Z -> string) (Debug : bool) (repubPeriod recordLifetime : Z) : result (option Z * option Z) :=
  if (repubPeriod =? 0) then Ok (None, if recordLifetime =? 0 then None else Some recordLifetime) else
  if negb Debug && ((repubPeriod <? minute) || (24 * hour <? repubPeriod)) then Err ("config setting IPNS.RepublishPeriod is not between 1min and 1day: " +:+ text repubPeriod) else
  Ok (Some repubPeriod, if recordLifetime =? 0 then None else Some recordLifetime).

(** a period that the assembly of the node lets through is never refused when the republisher starts, outside of debugging it is the default or between a minute and a day, and a lifetime of zero cannot be asked for. *)
Theorem republisher_accepts ParseDuration text Debug cfg period lifetime :
  republish_period text ParseDuration Debug cfg = Ok period -> record_lifetime ParseDuration cfg = Ok lifetime ->
  exists p, IpnsRepublisher_set text Debug period lifetime = Ok (p, if lifetime =? 0 then None else Some lifetime) /\
    (Debug = false -> p = None \/ exists d, p = Some d /\ minute <= d <= 24 * hour).
Proof.
  unfold republish_period, IpnsRepublisher_set. intros Hp _. destruct (Z.eqb_spec period 0) as [->|Hz]; [eauto|].
  destruct (String.eqb _ ""); [by injection Hp as <-|]. destruct (ParseDuration _) as [d|]; [|done].
  destruct (negb Debug && _) eqn:Hb; [done|]. injection Hp as <-. rewrite Hb. exists (Some d). split; [done|]. intros ->. right. exists d. split; [done|].
  cbn in Hb. apply Bool.orb_false_iff in Hb as [?%Z.ltb_ge ?%Z.ltb_ge]. lia.
Qed.

Module DemoNodeParts.
Definition fails_at (n : nat) : nat -> option error := fun k => if (k =? n)%nat then Some "disk full" else None.
Definition disk : dstore := {[ "/blocks/A" := [Some [Byte.x01]; None]; dsk := [Some [Byte.x00]] ]}.

(** The root is found although its last sync failed; the block is safe. *)
Lemma root_after_blocks_witness : Some [Byte.x02] ∈ found (ds_run (fails_at 3) (publish_root "/blocks" "/filestore" [Byte.x02]) disk).2 dsk /\
  settled (ds_run (fails_at 3) (publish_root "/blocks" "/filestore" [Byte.x02]) disk).2 "/blocks".
Proof.
  assert (H : Some [Byte.x02] ∈ found (ds_run (fails_at 3) (publish_root "/blocks" "/filestore" [Byte.x02]) disk).2 dsk) by (vm_compute; apply list_elem_of_here).
  split; [exact H|]. refine (proj1 (proj1 (root_after_blocks "/blocks" "/filestore" [Byte.x02] (fails_at 3) disk _ _ eq_refl eq_refl _ (surjective_pairing _)) H)).
  vm_compute. intros [=]%list_elem_of_singleton.
Defined.

Definition empty : inode := MkINode "QmEmpty" [] (Some []).
Definition Files0 : option string -> result string * option string :=
  Files (fun _ w => (None, Some (DsErr "input/output error"))) (fun nd _ => (None, Some (nd_cid nd))) (fun _ _ => Err "not found") (fun _ => Err "bad CID") empty (fun nd w => (Ok (nd_cid nd), w)).
(** The old root was stored; the disk could not be read. *)
Lemma files_root_exact_witness : Files0 (Some "QmOld") = (Ok "QmEmpty", Some "QmEmpty").
Proof. apply (proj2 (files_root_exact (fun _ w => (None, Some (DsErr "input/output error"))) (fun nd _ => (None, Some (nd_cid nd))) (fun _ _ => Err "not found") (fun _ => Err "bad CID") empty (fun nd w => (Ok (nd_cid nd), w)) (Some "QmOld"))); [|reflexivity]. left. by eexists. Defined.

Definition doh (url : string) (ttl : option Z) : result (string * option Z) := Ok (url, ttl).
Definition fqdn (d : string) : bool := HasSuffix d ".".
(** The implicit resolver of [crypto.] has no bound of the cache; with its URL configured it has. *)
Lemma dns_resolver_exact_witness :
  DNSResolver_opts doh fqdn (Some 300) [("eth.", ""); (".", "https://dns.example/q")] defaultResolvers =
    Ok [(None, ("https://dns.example/q", Some 300)); (Some "crypto.", ("https://resolver.cloudflare-eth.com/dns-query", None))].
Proof.
  rewrite (dns_resolver_exact doh fqdn (Some 300)); [vm_compute; reflexivity| |].
  - intros d url [[= -> ->]|[[= -> ->]|H%elem_of_nil]%elem_of_cons]%elem_of_cons; [|by split; [|eexists]|done]. by split.
  - intros d url [[= -> ->]|[[= -> ->]|H%elem_of_nil]%elem_of_cons]%elem_of_cons; [by split; [|eexists]..|done].
Defined.
Lemma dns_refuses_unqualified_witness : exists e, DNSResolver_opts doh fqdn None [("eth", "")] defaultResolvers = Err e.
Proof. apply (dns_refuses_unqualified doh fqdn None _ _ "eth" ""); [apply list_elem_of_here|reflexivity]. Defined.

Lemma republisher_accepts_witness : exists p, IpnsRepublisher_set (fun _ => "") false minute 0 = Ok (p, None) /\ (false = false -> p = None \/ exists d, p = Some d /\ minute <= d <= 24 * hour).
Proof. exact (republisher_accepts (fun _ => Ok minute) (fun _ => "") false (MkCfg "" 0 0 0 "" false 0 0 0 0 [] false false false false false false 0 false false false "" "" 0 "1m" "" false false [] "" "" "" false) minute 0 eq_refl eq_refl). Defined.
End DemoNodeParts.
